(* ===== verification/_CoqProject ===== *)
-Q . S2P
Prelude.v
OrdList.v
ListC.v
ListRefine.v
FixedPoint.v
Kernel.v
Thread.v
Mlfqs.v
Synch.v
Sched.v
SchedInv.v
SchedSwitch.v
SchedOps.v
SchedLock.v
SchedCond.v
SchedThread.v
SchedTimer.v
SchedBoot.v
SchedSafe.v
SchedDonors.v
SchedFine.v
SchedProps.v
SchedPriority.v
Machine.v
Bytes.v
Bitmap.v
Palloc.v
Arith.v
Intq.v
Block.v
FsState.v
InodeIo.v
FreeMap.v
Inode.v
Directory.v
Filesys.v
FsCore.v
FsRefine.v
FsMount.v
CString.v
Args.v
Pagedir.v
Syscall.v
Process.v
Load.v
Malloc.v
Hash.v
StdlibC.v
Random.v
Stdio.v
Ustar.v
Io.v
Serial.v
Kbd.v
Delay.v
Clock.v
Console.v
Ide.v
Intr.v
Registry.v
Init.v
Paging.v
