(* ===== verification/Prelude.v ===== *)
(** * Pintos: a verification development

    The sources are a Pintos kernel ([src/pintos/src]) with priority scheduling,
    priority donation, the feedback scheduler, an alarm clock, and user programs
    with argument passing and system calls.  The development translates the code
    into functions on explicit states and proves what the code relies on and
    promises.  Everywhere [None] is a kernel panic: a failed [ASSERT], an access
    to memory that is not there, or a division trap.

    ** Parts and files

    Lists ([lib/kernel/list.c], [list.h]).  [OrdList] has the operations on
    sequences; [ListC] has the C code, loads and stores on a heap of links;
    [ListRefine] proves that the code computes the operations, [list_sort] among
    them, and touches no other address.  The kernel's lists are sequences in all
    later files.

    Threads ([threads/thread.c], [synch.c], [interrupt.c], [devices/timer.c],
    [threads/fixed-point.h]), in the configuration of [threads/Make.vars].
    [Kernel] has the state: the globals, and threads, semaphores, locks and
    condition variables by address; a thread's stack is the list of [frame]s it
    still has to run.  [Thread] and [Synch] have the functions of [thread.c] and
    [synch.c], [FixedPoint] and [Mlfqs] the arithmetic.  [Sched] runs frames
    ([exec]) and interleaves client code and timer interrupts ([step]); [Inv] is
    the invariant.  [SchedInv], [SchedSwitch], [SchedOps], [SchedLock],
    [SchedCond], [SchedThread], [SchedTimer] and [SchedSafe] prove that every
    function keeps it and does not panic, [SchedBoot] that booting establishes
    it, [SchedDonors] a second invariant, of the donation lists.  [SchedFine] runs
    the frames that leave interrupts on statement by statement ([advance]), with
    interrupts between any two statements ([fstep]) or only between frames
    ([qstep]); it proves that executions of the second kind go through the states
    of [step], and has two executions of the first kind in which donation fails.
    [SchedProps] and [SchedPriority] have the theorems: the invariants, no
    panic, mutual exclusion, where blocked threads are, which thread runs next,
    which one is woken, whose priority a donation raises and what a release gives
    back, and an execution in which [cond_signal] reads a thread that is not
    there.

    Memory ([lib/round.h], [threads/vaddr.h], [palloc.c], [malloc.c], [pte.h],
    [userprog/pagedir.c], [lib/kernel/bitmap.c], [lib/string.c]).  [Machine] has
    32-bit arithmetic and addresses, [Bytes] byte sequences, [Bitmap] bitmaps,
    [Palloc] the page allocator on top of them (no page is handed out twice or
    lost), [Malloc] the block allocator on top of the page allocator (blocks do
    not overlap, have the size of their class or of their pages, and freed pages go
    back), [Pagedir] page tables in the
    allocator's memory (mapping a page changes one translation), [CString] the
    string library.

    Libraries ([lib/kernel/hash.c], [lib/stdlib.c], [lib/random.c],
    [lib/stdio.c], [lib/ustar.c], [lib/arithmetic.c]).  [Hash] has hash tables,
    whose buckets are blocks of [Malloc]; [StdlibC] sorting, searching and
    [atoi]; [Random] the random number generator; [Stdio] formatted output, on
    formats and strings in memory; [Ustar] archive headers; [Arith] 64-bit
    division.

    Devices.  [Io] has the ports ([threads/io.h]) and the monad of the drivers:
    a driver's step reads the answers of its device from a list and logs what it
    writes; it can panic, or wait for ever.  On it are [Serial]
    ([devices/serial.c], [input.c]), whose queues, with their locks and sleeping
    threads, are those of [Intq] ([devices/intq.c], where readers, writers and
    interrupt handlers interleave), [Delay] (calibration and delays of
    [timer.c]), [Kbd] ([kbd.c]), [Clock] ([pit.c], [rtc.c], [speaker.c]),
    [Console] ([vga.c], [lib/kernel/console.c]), [Ide] ([ide.c], over any
    controller; the class of controllers that keep the ATA protocol has an
    instance), and [Intr] ([threads/interrupt.c],
    [userprog/exception.c], [gdt.c], [tss.c]: interrupt table, handlers and
    segments).  [Block] has block devices, as the classes [BlockOps] and
    [BlockDev], and partitions as an instance of them; [Registry] the list of
    all devices ([devices/block.c], [partition.c]), where a partition shares the
    object of its disk, and the scan of partition tables.

    Start-up ([threads/init.c], [devices/shutdown.c]).  [Init] has the command
    line from the loader's bytes to the end of the session, on the devices of
    [Registry]; [Paging] the kernel's page tables, on the pages of [Palloc] and
    with the entries of [Pagedir].

    The file system ([filesys/inode.c], [file.c], [directory.c], [free-map.c],
    [filesys.c]) is parametric in the block device.  [FsState] has its state,
    [InodeIo] reading and writing, [FreeMap] the free map, [Inode] inodes and
    open files, [Directory] directories as finite maps, [Filesys] the operations
    on names.  [FsCore] has the invariant of the device and of what is open, and
    that the operations on inodes and the free map keep it; [FsRefine] the
    abstract file system of names, contents and open files, and that every call
    refines it; [FsMount] that formatting gives an empty one and mounting the
    one that was there.

    User programs ([userprog/process.c], [syscall.c]).  [Args] has
    [push_arguments], [Load] the ELF loader on top of the file system, the
    allocator and the page tables, [Process] the protocol of execute, wait and
    exit as a transition system, [Syscall] the system calls on top of the file
    system and the process's memory.

    ** What the theorems show

    Invariants and safety, over all executions of a transition system: the
    thread system ([SchedProps]), the page allocator ([Palloc]), the interrupt
    queue ([Intq]), the serial port ([Serial]), the process protocol ([Process]).
    The interrupt table is well formed after any registrations ([Intr]).
    Functional correctness and refinement: the list code against sequences, bitmaps against their bits, a
    hash table against a set, heap sort against the sorted permutation,
    sector-wise input and output against one copy, a directory against a map, a
    partition against the device it is on, all registered devices against the
    sectors of the disks, the file system, over all sequences of calls and
    mounts, against names, contents and open files, the IDE driver against an array of sectors, the display
    against a roll of lines, [printf] against the text it should print, page
    tables against a translation, the kernel's command line against the words it
    consists of, [push_arguments] against what [main] reads, 64-bit division
    against [Z].  Termination: [printf] on every format.
    Round trips: files through [write] and [read], bitmaps through their file,
    arguments through the stack, archive headers, dates.  Bounds: the feedback scheduler's arithmetic and
    the loader's segments.  Where the code does not do what its comments or its
    callers expect, a theorem exhibits it: [cond_signal_reads_garbage],
    [lock_acquire_race], [donation_race], [remainder_truncated], [partition_scan_diverges], [intq_panics_when_stale],
    [filesys_create_leaks], [dir_add_overwrites], [syscall_write_unchecked],
    [syscall_seek_panics], [syscall_read_readonly], [process_wait_hangs], [malloc_short_blocks],
    [memmove_correct] and the second half of [push_arguments_correct].

    ** Bounds and fuel

    Loops over lists and arrays recurse on the list or on the number of elements.
    A loop over a string gets [S (size m)] iterations, more than the mapped
    memory has bytes ([CString.fuel], lemma [cstring_fuel]); reading and writing
    an inode [S size], as each iteration copies a byte; [load_segment] one more
    than the number of pages; [heapify] one more than the size of the heap, as its
    index grows; [binary_search] one more than the number of elements; rounding
    down to a power of 2 takes at most 32, as every iteration clears a bit of the
    word; [malloc_init] 11, as it has room for 10 descriptors; the command line
    66, as [argv] has 65 elements.  A driver that polls takes one iteration per
    answer that its device still gives, so that running out of answers is
    waiting for ever.  An access through [Registry] passes at most 2 devices, a
    partition and its disk ([reg_ok]).  The recursion of
    the partition scan takes fuel as an argument: one level is enough for a table
    without extended partitions, and no amount for a table that leads back to
    itself.  [SchedFine.finish] takes the number of statements to the end of a
    frame, which the theorems show to exist.  32-bit arithmetic is written with [u32] and
    [int32] where it can leave the range.

    ** Granularity

    A frame of [Sched] runs without interruption.  Most frames are the stretches
    between the points where the code enables interrupts, sleeps or yields, and
    touch shared data with interrupts off, or once.  The frames that touch it more
    often with interrupts on are [lock_acquire] with its donations, what follows
    its [sema_down], [lock_try_acquire], [lock_release], [cond_signal], the end of
    [sema_up] and of [thread_create], [thread_set_priority], [thread_set_nice] and
    [timer_sleep]; [SchedFine] has their statements one by one, where a list
    operation and each of the two loops over a thread's own donors is one
    statement.  The invariant and the absence of panics are proved for
    interrupts outside these frames, and can fail with interrupts in them.  One step
    of [Intq] and [Process] runs without interruption as well, in [Process] also
    the code that changes a list of children with interrupts on.  The critical
    sections of the allocators' locks and what a system call does under
    [filesys_lock] are one step.  Heap addresses of the file system are not
    reused.

    ** Not modelled

    Assembly: [threads/loader.S], [start.S], [switch.S], [intr-stubs.S]; what
    the loader leaves in memory, what a stub pushes and the change of the current
    thread are inputs of the models.  [filesys/fsutil.c], whose functions are an
    argument of [Init]; [lib/kernel/debug.c], as a panic is an outcome;
    [lib/user], the tests and the utilities, which are not part of the kernel.
    The file system takes the results of its calls of [malloc] from a list
    ([FsState]) and not from [Malloc], and so does [Registry].  The
    initializations that [main] calls one after the other are an argument of
    [Init]. *)

From Stdlib Require Export ZArith Lia.
From stdpp Require Export base tactics list gmap option sorting.

#[export] Set Warnings "-clear-no-such-hyp".

(** ** Notation *)

Declare Scope kernel_scope.
Delimit Scope kernel_scope with K.
Open Scope kernel_scope.

(** [ASSERT (b)] of [lib/debug.h]: a failed assertion is a kernel panic.  A
    computation that may panic, or read or write outside the memory it owns,
    is an [option]; [None] is the panic. *)
Definition ASSERT (b : bool) : option unit := if b then Some tt else None.

Notation "'assert!' b ; k" := (ASSERT b ≫= λ _, k)
  (at level 20, b at level 100, k at level 200, right associativity,
   format "'assert!'  b ;  '/' k") : kernel_scope.

Lemma ASSERT_true b : b = true → ASSERT b = Some tt.
Proof. by intros ->. Qed.

Lemma ASSERT_Some b : ASSERT b = Some tt ↔ b = true.
Proof. by destruct b. Qed.

(** The null pointer. *)
Definition NULL : Z := 0.

(** ** Record update

    [r <| f := v |>] is [r] with field [f] set to [v], the model's [r.f = v].
    A record declares its eta-expansion as an instance of [Ctor]; the setter
    of each field is then found by abstracting the field's projection. *)
Class Ctor (R : Type) : Type := ctor : R → R.

Class Upd {R T : Type} (proj : R → T) : Type := upd : (T → T) → R → R.
Arguments upd {R T} proj {_} f r /.

Ltac solve_upd :=
  match goal with
  | |- @Upd ?R ?T ?proj =>
      let body := eval hnf in (@ctor R _) in
      let body := eval pattern proj in body in
      match body with
      | ?g proj => let s := eval cbv beta in (λ (f : T → T) (r : R), g (λ x, f (proj x)) r) in
          exact s
      end
  end.
#[export] Hint Extern 1 (Upd _) => solve_upd : typeclass_instances.

Notation "r <| f := v |>" := (upd f (λ _, v) r)
  (at level 1, f at level 0, v at level 200, left associativity,
   format "r  <| f  :=  v |>") : kernel_scope.
Notation "r <| f ::= g |>" := (upd f g r)
  (at level 1, f at level 0, g at level 200, left associativity,
   format "r  <| f  ::=  g |>") : kernel_scope.

(** ** Tactics *)

(** Turn boolean tests into propositions. *)
Ltac bool_simp :=
  repeat match goal with
  | H : (_ && _)%bool = true |- _ => apply andb_true_iff in H as [? ?]
  | H : (_ || _)%bool = false |- _ => apply orb_false_iff in H as [? ?]
  | H : negb _ = true |- _ => apply negb_true_iff in H
  | H : negb _ = false |- _ => apply negb_false_iff in H
  | H : bool_decide _ = true |- _ => apply bool_decide_eq_true in H
  | H : bool_decide _ = false |- _ => apply bool_decide_eq_false in H
  | H : (_ <? _)%Z = true |- _ => apply Z.ltb_lt in H
  | H : (_ <? _)%Z = false |- _ => apply Z.ltb_ge in H
  | H : (_ <=? _)%Z = true |- _ => apply Z.leb_le in H
  | H : (_ <=? _)%Z = false |- _ => apply Z.leb_gt in H
  | H : (_ =? _)%Z = true |- _ => apply Z.eqb_eq in H
  | H : (_ =? _)%Z = false |- _ => apply Z.eqb_neq in H
  end.

(** Discharge the head assertion of an option computation. *)
Ltac run_assert :=
  rewrite ASSERT_true; [cbn [mbind option_bind] |].

(** ** Transition systems *)

(** What every step keeps holds after any number of steps. *)
Lemma rtc_invariant {A} (R : relation A) (P : A → Prop) x y :
  (∀ a b, P a → R a b → P b) → rtc R x y → P x → P y.
Proof. intros K S. induction S; eauto. Qed.

(** ** Lists *)

Lemma Forall2_rev {A B} (P : A → B → Prop) l k : Forall2 P l k → Forall2 P (rev l) (rev k).
Proof. induction 1; simpl; [constructor|]. by apply Forall2_app; [|constructor]. Qed.

Lemma Forall2_and_r {A B} (P : A → B → Prop) (Q : B → Prop) l k :
  Forall2 P l k → Forall Q k → Forall2 (λ x y, P x y ∧ Q y) l k.
Proof. induction 1; intros F; [constructor|]. apply Forall_cons in F as [??]. constructor; auto. Qed.

Lemma filter_all_true {A} (P : A → Prop) `{∀ x, Decision (P x)} (l : list A) :
  (∀ x, x ∈ l → P x) → filter P l = l.
Proof.
  induction l as [|x l IH]; intros Hl; [done|].
  rewrite filter_cons, decide_True by (apply Hl; left). f_equal. apply IH.
  intros y Hy. apply Hl. by right.
Qed.

(** Exchanging elements permutes a list. *)
Lemma list_insert_perm {A} (l : list A) j x y : l !! j = Some x → x :: <[j := y]> l ≡ₚ y :: l.
Proof.
  revert j. induction l as [|z l IH]; intros [|j] E; simpl in *; [done..| |].
  - injection E as ->. apply Permutation_swap.
  - rewrite Permutation_swap, (IH j E). apply Permutation_swap.
Qed.

Lemma list_swap_perm {A} (l : list A) i j a b : l !! i = Some a → l !! j = Some b →
  <[j := a]> (<[i := b]> l) ≡ₚ l.
Proof.
  intros Hi Hj. apply (Permutation_cons_inv (a := b)).
  assert (<[i := b]> l !! j = Some b) as Hj'.
  { destruct (decide (i = j)) as [->|]; [|by rewrite list_lookup_insert_ne].
    apply list_lookup_insert_eq. by eapply lookup_lt_Some. }
  rewrite (list_insert_perm _ j b a Hj'). by apply list_insert_perm.
Qed.

(** ** Hints

    The facts that close the common side conditions: assertions that hold,
    executions of no and of one step. *)
Create HintDb kernel discriminated.
#[export] Hint Resolve ASSERT_true rtc_refl rtc_once Forall2_rev Forall2_and_r : kernel.
