(* ===== verification/OrdList.v ===== *)
(** * Ordered lists: the specification of [list.c]'s ordered operations

    Pure functions on sequences that the pointer code of [ListC] is proved to
    implement, and that the clients of lists ([Thread], [Synch]) are written
    against.  [SortOf xs ys] is the contract of a stable sort; it determines
    [ys] (lemma [SortOf_unique]). *)

From S2P Require Import Prelude.

(** What a [list_less_func] must promise: a strict weak order. *)
Class StrictWeakOrder {A} (less : A → A → bool) : Prop := {
  swo_asym : ∀ x y, less x y = true → less y x = false;
  swo_ntrans : ∀ x y z, less x y = false → less y z = false → less x z = false;
}.

Section OrdList.
Context {A : Type} (less : A → A → bool).
Implicit Types x y : A.
Implicit Types xs ys : list A.

(** [x] may stand before [y]. *)
Definition le_ord (x y : A) : Prop := less y x = false.

(** Neither element is less than the other. *)
Definition equiv_ord (x y : A) : Prop := less x y = false ∧ less y x = false.

#[export] Instance le_ord_dec x y : Decision (le_ord x y).
Proof. unfold le_ord. apply _. Defined.
#[export] Instance equiv_ord_dec x y : Decision (equiv_ord x y).
Proof. unfold equiv_ord. apply _. Defined.

(** [list_insert_ordered]: before the first element that [x] is less than. *)
Fixpoint insert_ordered (x : A) (xs : list A) : list A :=
  match xs with
  | [] => [x]
  | y :: ys => if less x y then x :: y :: ys else y :: insert_ordered x ys
  end.

(** Insertion sort, the reference definition of [list_sort]. *)
Definition isort (xs : list A) : list A :=
  foldl (λ acc x, insert_ordered x acc) [] xs.

(** The longest nondecreasing run that starts a list, and the rest. *)
Fixpoint run_from (x : A) (xs : list A) : list A * list A :=
  match xs with
  | [] => ([x], [])
  | y :: ys =>
      if less y x then ([x], y :: ys)
      else let '(r, rest) := run_from y ys in (x :: r, rest)
  end.

(** Merge of two runs, the left one first on ties. *)
Fixpoint merge (xs ys : list A) {struct xs} : list A :=
  match xs with
  | [] => ys
  | x :: xs' =>
      (fix merge_aux (ys : list A) : list A :=
         match ys with
         | [] => x :: xs'
         | y :: ys' =>
             if less y x then y :: merge_aux ys' else x :: merge xs' ys
         end) ys
  end.

Lemma merge_nil_l ys : merge [] ys = ys.
Proof. done. Qed.
Lemma merge_nil_r xs : merge xs [] = xs.
Proof. by destruct xs. Qed.
Lemma merge_cons x xs y ys :
  merge (x :: xs) (y :: ys) =
    if less y x then y :: merge (x :: xs) ys else x :: merge xs (y :: ys).
Proof. simpl. by destruct (less y x). Qed.

(** One pass of the natural merge sort: [pass xs n ys] when the pass turns
    [xs] into [ys] and outputs [n] runs. *)
Inductive pass : list A → nat → list A → Prop :=
  | pass_nil : pass [] 0 []
  | pass_last x xs r : run_from x xs = (r, []) → pass (x :: xs) 1 r
  | pass_step x xs r1 y ys r2 rest n out :
      run_from x xs = (r1, y :: ys) →
      run_from y ys = (r2, rest) →
      pass rest n out →
      pass (x :: xs) (S n) (merge r1 r2 ++ out).

(** Number of natural runs. *)
Fixpoint runs_from (x : A) (xs : list A) : nat :=
  match xs with
  | [] => 1
  | y :: ys => (if less y x then 1 else 0) + runs_from y ys
  end.
Definition runs (xs : list A) : nat :=
  match xs with [] => 0 | x :: xs => runs_from x xs end.

(** Drop all but the first of each group of adjacent equivalent elements,
    returning also the dropped ones ([list_unique]). *)
Fixpoint unique_from (x : A) (xs : list A) : list A * list A :=
  match xs with
  | [] => ([], [])
  | y :: ys =>
      if negb (less x y) && negb (less y x)
      then let '(k, d) := unique_from x ys in (k, y :: d)
      else let '(k, d) := unique_from y ys in (y :: k, d)
  end.
Definition unique (xs : list A) : list A * list A :=
  match xs with
  | [] => ([], [])
  | x :: xs => let '(k, d) := unique_from x xs in (x :: k, d)
  end.

(** The contract of a stable sort. *)
Record SortOf (xs ys : list A) : Prop := {
  sort_perm : xs ≡ₚ ys;
  sort_sorted : StronglySorted le_ord ys;
  sort_stable : ∀ x, filter (equiv_ord x) xs = filter (equiv_ord x) ys;
}.

(** ** Facts that need no order *)

Lemma run_from_app x xs r rest :
  run_from x xs = (r, rest) → x :: xs = r ++ rest.
Proof.
  revert x r rest. induction xs as [|y ys IH]; intros x r rest H; simpl in H.
  - by simplify_eq.
  - case_match; simplify_eq/=; [done|].
    destruct (run_from y ys) as [r' rest'] eqn:E. simplify_eq/=.
    f_equal. eauto.
Qed.

Lemma run_from_head x xs r rest :
  run_from x xs = (r, rest) → ∃ r', r = x :: r'.
Proof.
  destruct xs; simpl; intros; repeat case_match; simplify_eq; eauto.
Qed.

Lemma run_from_sorted x xs r rest :
  run_from x xs = (r, rest) → Sorted le_ord r.
Proof.
  revert x r rest. induction xs as [|y ys IH]; intros x r rest H; simpl in H.
  - simplify_eq. repeat constructor.
  - case_match eqn:E; simplify_eq/=; [by repeat constructor|].
    destruct (run_from y ys) as [r' rest'] eqn:E'. simplify_eq/=.
    destruct (run_from_head _ _ _ _ E') as [r'' ->].
    constructor; [eauto|]. by constructor.
Qed.

Lemma run_from_runs x xs r rest :
  run_from x xs = (r, rest) → runs_from x xs = S (runs rest).
Proof.
  revert x r rest. induction xs as [|y ys IH]; intros x r rest H; simpl in *.
  - by simplify_eq.
  - case_match eqn:E; simplify_eq/=; [lia|].
    destruct (run_from y ys) as [r' rest'] eqn:E'. simplify_eq/=. eauto.
Qed.

Lemma runs_app xs ys : (runs (xs ++ ys) ≤ runs xs + runs ys)%nat.
Proof.
  destruct xs as [|x xs]; simpl; [lia|].
  revert x. induction xs as [|y xs IH]; intros x; simpl.
  - destruct ys; simpl; [lia|]. case_match; lia.
  - specialize (IH y). lia.
Qed.

Lemma runs_sorted xs : Sorted le_ord xs → (runs xs ≤ 1)%nat.
Proof.
  destruct xs as [|x xs]; simpl; [lia|]. revert x.
  induction xs as [|y xs IH]; intros x Hs; simpl; [lia|].
  inversion Hs as [|?? Hs' Hd]; subst. inversion Hd as [|?? Hle]; subst.
  unfold le_ord in Hle. rewrite Hle. simpl. auto.
Qed.

Lemma runs_le_1_sorted xs : (runs xs ≤ 1)%nat → Sorted le_ord xs.
Proof.
  destruct xs as [|x xs]; simpl; [constructor|]. revert x.
  induction xs as [|y xs IH]; intros x Hs; [repeat constructor|].
  assert (1 ≤ runs_from y xs)%nat.
  { clear. revert y. induction xs as [|z xs IH]; intros y; simpl; [lia|].
    specialize (IH z). lia. }
  simpl in Hs. destruct (less y x) eqn:E; [lia|].
  constructor; [auto|]. by constructor.
Qed.

Lemma merge_perm xs ys : merge xs ys ≡ₚ xs ++ ys.
Proof.
  revert ys. induction xs as [|x xs IH]; intros ys; [done|].
  induction ys as [|y ys IHy].
  - by rewrite merge_nil_r, app_nil_r.
  - rewrite merge_cons. destruct (less y x).
    + rewrite IHy. by rewrite (Permutation_middle (x :: xs)).
    + by rewrite IH.
Qed.

Lemma insert_ordered_perm x xs : insert_ordered x xs ≡ₚ x :: xs.
Proof.
  induction xs as [|y ys IH]; simpl; [done|].
  destruct (less x y); [done|]. rewrite IH. apply Permutation_swap.
Qed.

Lemma isort_perm xs : isort xs ≡ₚ xs.
Proof.
  unfold isort. enough (∀ acc, foldl (λ acc x, insert_ordered x acc) acc xs ≡ₚ acc ++ xs) by done.
  induction xs as [|x xs IH]; intros acc; simpl; [by rewrite app_nil_r|].
  rewrite IH, insert_ordered_perm. simpl. by rewrite Permutation_middle.
Qed.

Lemma pass_perm xs n ys : pass xs n ys → xs ≡ₚ ys.
Proof.
  induction 1 as [|x xs r Hr|x xs r1 y ys r2 rest n out H1 H2 _ IH]; [done| |].
  - apply run_from_app in Hr. rewrite app_nil_r in Hr. by subst.
  - apply run_from_app in H1 as ->. apply run_from_app in H2 as ->.
    by rewrite merge_perm, IH, (assoc_L (++)).
Qed.

Lemma pass_count xs n ys : pass xs n ys → (2 * n ≤ S (runs xs))%nat.
Proof.
  induction 1 as [|x xs r Hr|x xs r1 y ys r2 rest n out H1 H2 _ IH];
    simpl; [lia| |].
  - apply run_from_runs in Hr. rewrite Hr. simpl. lia.
  - apply run_from_runs in H1, H2. rewrite H1. simpl. rewrite H2. lia.
Qed.

Lemma runs_nonnil x xs : (1 ≤ runs (x :: xs))%nat.
Proof.
  simpl. revert x. induction xs as [|z xs IH]; intros x; simpl; [lia|].
  specialize (IH z). lia.
Qed.

End OrdList.

Arguments SortOf {A} less xs ys.

(** ** Facts that need the order *)

Section Order.
Context {A : Type} (less : A → A → bool) `{!StrictWeakOrder less}.
Implicit Types x y z : A.
Implicit Types xs ys : list A.

#[export] Instance le_ord_trans : Transitive (le_ord less).
Proof. intros x y z Hxy Hyz. unfold le_ord in *. by eapply swo_ntrans. Qed.

Lemma swo_irrefl x : less x x = false.
Proof. destruct (less x x) eqn:E; [|done]. by rewrite (swo_asym _ _ E) in E. Qed.

Lemma less_le x y : less x y = true → le_ord less x y.
Proof. apply swo_asym. Qed.

Lemma less_le_trans x y z :
  less x y = true → le_ord less y z → less x z = true.
Proof.
  unfold le_ord. intros Hxy Hyz. destruct (less x z) eqn:E; [done|].
  rewrite (swo_ntrans x z y) in Hxy; done.
Qed.

Lemma equiv_ord_sym x y : equiv_ord less x y ↔ equiv_ord less y x.
Proof. unfold equiv_ord. tauto. Qed.

Lemma equiv_ord_trans x y z :
  equiv_ord less x y → equiv_ord less y z → equiv_ord less x z.
Proof. intros [] []. split; by eapply swo_ntrans. Qed.

Lemma insert_ordered_sorted x xs :
  StronglySorted (le_ord less) xs →
  StronglySorted (le_ord less) (insert_ordered less x xs).
Proof.
  induction 1 as [|y ys Hs IH Hf]; simpl; [by repeat constructor|].
  destruct (less x y) eqn:E.
  - constructor; [by constructor|]. constructor; [by apply less_le|].
    eapply Forall_impl; [done|]. simpl. intros z Hz.
    by apply less_le, (less_le_trans x y z).
  - constructor; [done|].
    rewrite insert_ordered_perm. by constructor.
Qed.

(** No element of a sorted list is equivalent to something less than its
    head. *)
Lemma filter_equiv_nil x y ys :
  StronglySorted (le_ord less) (y :: ys) → less x y = true →
  ∀ z, equiv_ord less z x → filter (equiv_ord less z) (y :: ys) = [].
Proof.
  intros Hs Hlt z Hz. inversion Hs as [|?? _ Hf]; subst.
  assert (Forall (le_ord less y) (y :: ys)) as Hf'.
  { constructor; [|done]. apply swo_irrefl. }
  clear Hs Hf. revert Hf'. generalize (y :: ys) as l.
  induction 1 as [|w l Hw Hf IH]; [done|].
  rewrite filter_cons_False; [done|]. intros He.
  assert (equiv_ord less x w) as [Hxw _].
  { eapply equiv_ord_trans; [|done]. by apply equiv_ord_sym. }
  by rewrite (less_le_trans x y w) in Hxw.
Qed.

Lemma insert_ordered_stable x xs z :
  StronglySorted (le_ord less) xs →
  filter (equiv_ord less z) (insert_ordered less x xs) =
    filter (equiv_ord less z) (xs ++ [x]).
Proof.
  induction 1 as [|y ys Hs IH Hf]; simpl; [done|].
  destruct (less x y) eqn:E.
  - rewrite (app_comm_cons ys), filter_app.
    destruct (decide (equiv_ord less z x)) as [Hz|Hz].
    + rewrite (filter_equiv_nil x y ys); [|by constructor|done|done].
      rewrite filter_cons_True by done.
      rewrite (filter_equiv_nil x y ys); [|by constructor|done|done].
      by rewrite filter_cons_True.
    + rewrite filter_cons_False by done.
      rewrite (filter_cons_False _ x []) by done. by rewrite app_nil_r.
  - rewrite !filter_cons. by rewrite IH.
Qed.

Lemma merge_sorted xs ys :
  StronglySorted (le_ord less) xs → StronglySorted (le_ord less) ys →
  StronglySorted (le_ord less) (merge less xs ys).
Proof.
  intros Hxs. revert ys. induction Hxs as [|x xs Hs IH Hf]; [done|].
  induction 1 as [|y ys Hsy IHy Hfy].
  - rewrite merge_nil_r. by constructor.
  - rewrite merge_cons. destruct (less y x) eqn:E.
    + constructor; [done|]. rewrite merge_perm.
      apply Forall_app; split; [|done].
      constructor; [by apply less_le|].
      eapply Forall_impl; [done|]. intros z Hz. simpl in Hz.
      by apply less_le, (less_le_trans y x z).
    + constructor; [apply IH; by constructor|]. rewrite merge_perm.
      apply Forall_app; split; [done|]. constructor; [done|].
      eapply Forall_impl; [done|]. intros z Hz. simpl in Hz.
      by trans y.
Qed.

Lemma merge_stable xs ys z :
  StronglySorted (le_ord less) xs → StronglySorted (le_ord less) ys →
  filter (equiv_ord less z) (merge less xs ys) =
    filter (equiv_ord less z) (xs ++ ys).
Proof.
  intros Hxs. revert ys. induction Hxs as [|x xs Hs IH Hf]; [done|].
  induction 1 as [|y ys Hsy IHy Hfy].
  - by rewrite merge_nil_r, app_nil_r.
  - rewrite merge_cons. destruct (less y x) eqn:E.
    + rewrite (filter_app _ (x :: xs) (y :: ys)).
      rewrite (filter_cons _ y), (filter_cons _ y).
      rewrite IHy, filter_app. case_decide; [|done].
      by rewrite (filter_equiv_nil y x xs) by first [done | by constructor].
    + simpl. rewrite !filter_cons, IH by (by constructor). done.
Qed.

Lemma SortOf_unique xs ys zs :
  SortOf less xs ys → SortOf less xs zs → ys = zs.
Proof.
  intros [Hp1 Hs1 Hf1] [Hp2 Hs2 Hf2].
  assert (ys ≡ₚ zs) as Hp by by rewrite <- Hp1.
  assert (∀ x, filter (equiv_ord less x) ys = filter (equiv_ord less x) zs)
    as Hf by (intros x; by rewrite <- Hf1).
  clear Hp1 Hp2 Hf1 Hf2 xs.
  revert zs Hs2 Hp Hf.
  induction Hs1 as [|y ys Hs IH Hle]; intros zs Hs2 Hp Hf.
  { by apply Permutation_nil_l in Hp. }
  destruct zs as [|z zs]; [by apply Permutation_nil_r in Hp|].
  inversion Hs2 as [|?? Hs2' Hle2]; subst.
  assert (equiv_ord less y z) as Heq.
  { assert (z ∈ y :: ys) as Hz by (rewrite Hp; left).
    assert (y ∈ z :: zs) as Hy by (rewrite <- Hp; left).
    rewrite Forall_forall in Hle, Hle2.
    apply elem_of_cons in Hz as [->|Hz]; [split; apply swo_irrefl|].
    apply elem_of_cons in Hy as [->|Hy]; [split; apply swo_irrefl|].
    split; [by apply Hle2|by apply Hle]. }
  assert (y = z) as ->.
  { specialize (Hf y). rewrite !filter_cons_True in Hf; [by simplify_eq|done|].
    split; apply swo_irrefl. }
  f_equal. apply IH; [done|by apply (inj (cons z))|].
  intros x. specialize (Hf x). rewrite !filter_cons in Hf.
  case_decide; by simplify_eq.
Qed.

Lemma isort_SortOf xs : SortOf less xs (isort less xs).
Proof.
  unfold isort.
  assert (∀ acc, StronglySorted (le_ord less) acc →
    SortOf less (acc ++ xs) (foldl (λ acc x, insert_ordered less x acc) acc xs))
    as H; [|by apply (H []); constructor].
  induction xs as [|x xs IH]; intros acc Hacc; simpl.
  - rewrite app_nil_r. by split.
  - destruct (IH (insert_ordered less x acc)) as [Hp Hs Hf];
      [by apply insert_ordered_sorted|].
    split; [|done|].
    + rewrite <- Hp, insert_ordered_perm. by rewrite <- Permutation_middle.
    + intros z. rewrite <- Hf, (filter_app _ (insert_ordered _ _ _)).
      rewrite insert_ordered_stable by done.
      by rewrite <- filter_app, <- (assoc_L (++)).
Qed.

Lemma filter_head (P : A → Prop) `{∀ x, Decision (P x)} xs y ys :
  filter P xs = y :: ys → ∃ l1 l2, xs = l1 ++ y :: l2 ∧ filter P l1 = [].
Proof.
  induction xs as [|x xs IH]; [done|]. rewrite filter_cons. case_decide as Hx.
  - intros [= <- _]. by exists [], xs.
  - intros (l1 & l2 & -> & Hl1)%IH. exists (x :: l1), l2. split; [done|].
    by rewrite filter_cons, decide_False.
Qed.

(** The head of the sorted list is the first of the least elements. *)
Lemma isort_head xs y ys :
  isort less xs = y :: ys →
  ∃ l1 l2, xs = l1 ++ y :: l2 ∧ ys ≡ₚ l1 ++ l2 ∧
    Forall (λ w, less y w = true) l1 ∧ Forall (λ w, less w y = false) l2.
Proof.
  intros Hs. destruct (isort_SortOf xs) as [Hp Hsrt Hst]. rewrite Hs in *.
  assert (Hyy : equiv_ord less y y) by (split; apply swo_irrefl).
  specialize (Hst y). rewrite (filter_cons _ y), decide_True in Hst by done.
  apply filter_head in Hst as (l1 & l2 & -> & Hl1). exists l1, l2.
  rewrite <-Permutation_middle in Hp. apply Permutation_cons_inv in Hp.
  apply StronglySorted_inv in Hsrt as [_ Hall]. unfold le_ord in Hall.
  rewrite <-Hp in Hall. apply Forall_app in Hall as [H1 H2].
  split_and!; [done|done| |done]. rewrite Forall_forall in *. intros w Hw.
  destruct (less y w) eqn:E; [done|]. exfalso. specialize (H1 w Hw).
  assert (w ∈ filter (equiv_ord less y) l1) as Hin by (by apply list_elem_of_filter).
  rewrite Hl1 in Hin. by apply elem_of_nil in Hin.
Qed.

(** Adjacent order is enough: the order is transitive. *)
Lemma sorted_strongly xs : Sorted (le_ord less) xs → StronglySorted (le_ord less) xs.
Proof. apply Sorted_StronglySorted. intros x y z ??. by trans y. Qed.

Lemma pass_runs xs n ys : pass less xs n ys → (runs less ys ≤ n)%nat.
Proof.
  induction 1 as [|x xs r Hr|x xs r1 y ys r2 rest n out H1 H2 _ IH]; [done| |].
  - by eapply runs_sorted, run_from_sorted.
  - rewrite runs_app. assert (runs less (merge less r1 r2) ≤ 1)%nat; [|lia].
    apply runs_sorted, StronglySorted_Sorted, merge_sorted;
      by eapply sorted_strongly, run_from_sorted.
Qed.

Lemma pass_stable xs n ys z :
  pass less xs n ys →
  filter (equiv_ord less z) xs = filter (equiv_ord less z) ys.
Proof.
  induction 1 as [|x xs r Hr|x xs r1 y ys r2 rest n out H1 H2 _ IH]; [done| |].
  - apply run_from_app in Hr. rewrite app_nil_r in Hr. by subst.
  - rewrite filter_app, merge_stable
      by (by eapply sorted_strongly, run_from_sorted).
    rewrite (run_from_app _ _ _ _ _ H1), (run_from_app _ _ _ _ _ H2).
    by rewrite (assoc_L (++)), filter_app, IH.
Qed.

End Order.

(** Comparing an integer key gives a strict weak order; so does comparing it
    the other way round. *)
Lemma insert_ordered_ext {A} (less less' : A → A → bool) x xs :
  (∀ y z, less y z = less' y z) → insert_ordered less x xs = insert_ordered less' x xs.
Proof. intros H. induction xs as [|y ys IH]; simpl; [done|]. by rewrite H, IH. Qed.

Lemma isort_ext {A} (less less' : A → A → bool) xs :
  (∀ y z, less y z = less' y z) → isort less xs = isort less' xs.
Proof.
  intros H. unfold isort. generalize (@nil A) as acc.
  induction xs as [|x xs IH]; intros acc; simpl; [done|].
  by rewrite (insert_ordered_ext less less') by done.
Qed.

#[export] Instance key_less_swo {A} (key : A → Z) :
  StrictWeakOrder (λ x y, key x <? key y)%Z.
Proof. split; intros; rewrite ?Z.ltb_lt, ?Z.ltb_ge in *; lia. Qed.
#[export] Instance key_greater_swo {A} (key : A → Z) :
  StrictWeakOrder (λ x y, key y <? key x)%Z.
Proof. split; intros; rewrite ?Z.ltb_lt, ?Z.ltb_ge in *; lia. Qed.
