(* ===== verification/ListC.v ===== *)
(** * Doubly linked intrusive lists ([lib/kernel/list.c], [lib/kernel/list.h])

    The links of every [struct list_elem] live in a heap, a finite map from
    addresses to link pairs; a [struct list] at address [l] has its head
    element at [l] and its tail element [sizeof (struct list_elem) = 8] bytes
    further.  The operations below perform the C code's loads and stores in
    order; reading or writing an address outside the heap, or a failed
    [ASSERT], is [None].

    [is_list h l xs] says that the heap holds, at [l], a list whose interior
    elements are [xs].  Each operation is proved to compute the corresponding
    function of [xs] and to leave every other address alone. *)

From S2P Require Import Prelude.

Open Scope Z_scope.

(** [struct list_elem]. *)
Record list_elem := ListElem { prev : Z; next : Z }.

Abbreviation heap := (gmap Z list_elem).

(** [e->prev], [e->next] as values and as targets of an assignment. *)
Definition get_prev (e : Z) (h : heap) : option Z := prev <$> h !! e.
Definition get_next (e : Z) (h : heap) : option Z := next <$> h !! e.
Definition set_prev (e v : Z) (h : heap) : option heap :=
  c ← h !! e; Some (<[e := ListElem v (next c)]> h).
Definition set_next (e v : Z) (h : heap) : option heap :=
  c ← h !! e; Some (<[e := ListElem (prev c) v]> h).

(** ** Operations *)

Definition list_head_of (l : Z) : Z := l.
Definition list_tail_of (l : Z) : Z := l + 8.

Definition is_head (elem : Z) (h : heap) : option bool :=
  if elem =? NULL then Some false
  else c ← h !! elem; Some ((prev c =? NULL) && negb (next c =? NULL)).

Definition is_interior (elem : Z) (h : heap) : option bool :=
  if elem =? NULL then Some false
  else c ← h !! elem; Some (negb (prev c =? NULL) && negb (next c =? NULL)).

Definition is_tail (elem : Z) (h : heap) : option bool :=
  if elem =? NULL then Some false
  else c ← h !! elem; Some (negb (prev c =? NULL) && (next c =? NULL)).

Definition list_init (l : Z) (h : heap) : option heap :=
  assert! negb (l =? NULL);
  h ← set_prev (list_head_of l) NULL h;
  h ← set_next (list_head_of l) (list_tail_of l) h;
  h ← set_prev (list_tail_of l) (list_head_of l) h;
  set_next (list_tail_of l) NULL h.

Definition list_begin (l : Z) (h : heap) : option Z :=
  assert! negb (l =? NULL);
  get_next (list_head_of l) h.

Definition list_next (elem : Z) (h : heap) : option Z :=
  b1 ← is_head elem h;
  b2 ← is_interior elem h;
  assert! b1 || b2;
  get_next elem h.

Definition list_end (l : Z) : option Z :=
  assert! negb (l =? NULL);
  Some (list_tail_of l).

Definition list_rbegin (l : Z) (h : heap) : option Z :=
  assert! negb (l =? NULL);
  get_prev (list_tail_of l) h.

Definition list_prev (elem : Z) (h : heap) : option Z :=
  b1 ← is_interior elem h;
  b2 ← is_tail elem h;
  assert! b1 || b2;
  get_prev elem h.

Definition list_rend (l : Z) : option Z :=
  assert! negb (l =? NULL);
  Some (list_head_of l).

Definition list_head (l : Z) : option Z :=
  assert! negb (l =? NULL);
  Some (list_head_of l).

Definition list_tail (l : Z) : option Z :=
  assert! negb (l =? NULL);
  Some (list_tail_of l).

Definition list_insert (before elem : Z) (h : heap) : option heap :=
  b1 ← is_interior before h;
  b2 ← is_tail before h;
  assert! b1 || b2;
  assert! negb (elem =? NULL);
  p ← get_prev before h;
  h ← set_prev elem p h;
  h ← set_next elem before h;
  p ← get_prev before h;
  h ← set_next p elem h;
  set_prev before elem h.

Definition list_splice (before first last : Z) (h : heap) : option heap :=
  b1 ← is_interior before h;
  b2 ← is_tail before h;
  assert! b1 || b2;
  if first =? last then Some h
  else
    last ← list_prev last h;
    b1 ← is_interior first h;
    assert! b1;
    b2 ← is_interior last h;
    assert! b2;
    (* Cleanly remove FIRST...LAST from its current list. *)
    p ← get_prev first h;
    n ← get_next last h;
    h ← set_next p n h;
    n ← get_next last h;
    p ← get_prev first h;
    h ← set_prev n p h;
    (* Splice FIRST...LAST into new list. *)
    p ← get_prev before h;
    h ← set_prev first p h;
    h ← set_next last before h;
    p ← get_prev before h;
    h ← set_next p first h;
    set_prev before last h.

Definition list_push_front (l elem : Z) (h : heap) : option heap :=
  b ← list_begin l h;
  list_insert b elem h.

Definition list_push_back (l elem : Z) (h : heap) : option heap :=
  e ← list_end l;
  list_insert e elem h.

Definition list_remove (elem : Z) (h : heap) : option (Z * heap) :=
  b ← is_interior elem h;
  assert! b;
  p ← get_prev elem h;
  n ← get_next elem h;
  h ← set_next p n h;
  n ← get_next elem h;
  p ← get_prev elem h;
  h ← set_prev n p h;
  n ← get_next elem h;
  Some (n, h).

Definition list_empty (l : Z) (h : heap) : option bool :=
  b ← list_begin l h;
  e ← list_end l;
  Some (b =? e).

Definition list_front (l : Z) (h : heap) : option Z :=
  b ← list_empty l h;
  assert! negb b;
  get_next (list_head_of l) h.

Definition list_back (l : Z) (h : heap) : option Z :=
  b ← list_empty l h;
  assert! negb b;
  get_prev (list_tail_of l) h.

Definition list_pop_front (l : Z) (h : heap) : option (Z * heap) :=
  front ← list_front l h;
  '(_, h) ← list_remove front h;
  Some (front, h).

Definition list_pop_back (l : Z) (h : heap) : option (Z * heap) :=
  back ← list_back l h;
  '(_, h) ← list_remove back h;
  Some (back, h).

(** Loops that walk the heap run with the number of elements of the heap as
    fuel: a walk that visits no element twice is shorter than that. *)
Definition walk_fuel (h : heap) : nat := size h.

Fixpoint list_size_loop (fuel : nat) (e stop cnt : Z) (h : heap) : option Z :=
  match fuel with
  | O => None
  | S fuel =>
      if e =? stop then Some cnt
      else e' ← list_next e h; list_size_loop fuel e' stop (cnt + 1) h
  end.

Definition list_size (l : Z) (h : heap) : option Z :=
  b ← list_begin l h;
  e ← list_end l;
  list_size_loop (walk_fuel h) b e 0 h.

(** [swap (&e->prev, &e->next)]. *)
Definition swap_links (e : Z) (h : heap) : option heap :=
  c ← h !! e; Some (<[e := ListElem (next c) (prev c)]> h).

Fixpoint list_reverse_loop (fuel : nat) (e stop : Z) (h : heap) : option heap :=
  match fuel with
  | O => None
  | S fuel =>
      if e =? stop then Some h
      else
        h ← swap_links e h;
        e' ← get_prev e h;
        list_reverse_loop fuel e' stop h
  end.

Definition list_reverse (l : Z) (h : heap) : option heap :=
  b ← list_empty l h;
  if (b : bool) then Some h
  else
    e ← list_begin l h;
    stop ← list_end l;
    h ← list_reverse_loop (walk_fuel h) e stop h;
    (* swap (&list->head.next, &list->tail.prev) *)
    n ← get_next (list_head_of l) h;
    p ← get_prev (list_tail_of l) h;
    h ← set_next (list_head_of l) p h;
    h ← set_prev (list_tail_of l) n h;
    (* swap (&list->head.next->prev, &list->tail.prev->next) *)
    n ← get_next (list_head_of l) h;
    p ← get_prev (list_tail_of l) h;
    np ← get_prev n h;
    pn ← get_next p h;
    h ← set_prev n pn h;
    set_next p np h.

Section Ordered.

(** The comparison function with its auxiliary data: it reads the structures
    the elements are embedded in, never their links. *)
Context (less : Z → Z → bool).

Fixpoint is_sorted_loop (fuel : nat) (a b : Z) (h : heap) : option bool :=
  match fuel with
  | O => None
  | S fuel =>
      a ← list_next a h;
      if a =? b then Some true
      else
        p ← list_prev a h;
        if less a p then Some false else is_sorted_loop fuel a b h
  end.

Definition is_sorted (a b : Z) (h : heap) : option bool :=
  if a =? b then Some true else is_sorted_loop (walk_fuel h) a b h.

Fixpoint find_end_loop (fuel : nat) (a b : Z) (h : heap) : option Z :=
  match fuel with
  | O => None
  | S fuel =>
      a ← list_next a h;
      if a =? b then Some a
      else
        p ← list_prev a h;
        if less a p then Some a else find_end_loop fuel a b h
  end.

Definition find_end_of_run (a b : Z) (h : heap) : option Z :=
  assert! negb (a =? NULL);
  assert! negb (b =? NULL);
  assert! negb (a =? b);
  find_end_loop (walk_fuel h) a b h.

Fixpoint inplace_merge_loop (fuel : nat) (a0 a1b0 b1 : Z) (h : heap)
    : option heap :=
  match fuel with
  | O => None
  | S fuel =>
      if negb (a0 =? a1b0) && negb (a1b0 =? b1) then
        if negb (less a1b0 a0) then
          a0 ← list_next a0 h;
          inplace_merge_loop fuel a0 a1b0 b1 h
        else
          a1b0 ← list_next a1b0 h;
          p ← list_prev a1b0 h;
          h ← list_splice a0 p a1b0 h;
          inplace_merge_loop fuel a0 a1b0 b1 h
      else Some h
  end.

Definition inplace_merge (a0 a1b0 b1 : Z) (h : heap) : option heap :=
  assert! negb (a0 =? NULL);
  assert! negb (a1b0 =? NULL);
  assert! negb (b1 =? NULL);
  s ← is_sorted a0 a1b0 h;
  assert! s;
  s ← is_sorted a1b0 b1 h;
  assert! s;
  inplace_merge_loop (walk_fuel h) a0 a1b0 b1 h.

(** One pass of [list_sort]: the body of its [do] loop from [a0] on, with
    the number of runs output so far. *)
Fixpoint list_sort_pass (fuel : nat) (l a0 cnt : Z) (h : heap)
    : option (Z * heap) :=
  match fuel with
  | O => None
  | S fuel =>
      stop ← list_end l;
      if a0 =? stop then Some (cnt, h)
      else
        let cnt := cnt + 1 in
        a1b0 ← find_end_of_run a0 stop h;
        if a1b0 =? stop then Some (cnt, h)
        else
          b1 ← find_end_of_run a1b0 stop h;
          h ← inplace_merge a0 a1b0 b1 h;
          list_sort_pass fuel l b1 cnt h
  end.

Fixpoint list_sort_loop (fuel : nat) (l : Z) (h : heap) : option heap :=
  match fuel with
  | O => None
  | S fuel =>
      b ← list_begin l h;
      '(cnt, h) ← list_sort_pass (walk_fuel h) l b 0 h;
      if 1 <? cnt then list_sort_loop fuel l h else Some h
  end.

Definition list_sort (l : Z) (h : heap) : option heap :=
  assert! negb (l =? NULL);
  h ← list_sort_loop (walk_fuel h) l h;
  b ← list_begin l h;
  e ← list_end l;
  s ← is_sorted b e h;
  assert! s;
  Some h.

Fixpoint insert_ordered_loop (fuel : nat) (elem e stop : Z) (h : heap)
    : option Z :=
  match fuel with
  | O => None
  | S fuel =>
      if e =? stop then Some e
      else if less elem e then Some e
      else e' ← list_next e h; insert_ordered_loop fuel elem e' stop h
  end.

Definition list_insert_ordered (l elem : Z) (h : heap) : option heap :=
  assert! negb (l =? NULL);
  assert! negb (elem =? NULL);
  b ← list_begin l h;
  stop ← list_end l;
  e ← insert_ordered_loop (walk_fuel h) elem b stop h;
  list_insert e elem h.

Fixpoint list_unique_loop (fuel : nat) (l elem : Z) (duplicates : option Z)
    (h : heap) : option heap :=
  match fuel with
  | O => None
  | S fuel =>
      next ← list_next elem h;
      stop ← list_end l;
      if next =? stop then Some h
      else if negb (less elem next) && negb (less next elem) then
        '(_, h) ← list_remove next h;
        h ← match duplicates with
            | None => Some h
            | Some d => list_push_back d next h
            end;
        list_unique_loop fuel l elem duplicates h
      else list_unique_loop fuel l next duplicates h
  end.

Definition list_unique (l : Z) (duplicates : option Z) (h : heap)
    : option heap :=
  assert! negb (l =? NULL);
  b ← list_empty l h;
  if (b : bool) then Some h
  else
    elem ← list_begin l h;
    list_unique_loop (walk_fuel h) l elem duplicates h.

Fixpoint list_max_loop (fuel : nat) (max e stop : Z) (h : heap) : option Z :=
  match fuel with
  | O => None
  | S fuel =>
      if e =? stop then Some max
      else
        let max := if less max e then e else max in
        e' ← list_next e h;
        list_max_loop fuel max e' stop h
  end.

Definition list_max (l : Z) (h : heap) : option Z :=
  max ← list_begin l h;
  stop ← list_end l;
  if max =? stop then Some max
  else
    e ← list_next max h;
    list_max_loop (walk_fuel h) max e stop h.

Fixpoint list_min_loop (fuel : nat) (min e stop : Z) (h : heap) : option Z :=
  match fuel with
  | O => None
  | S fuel =>
      if e =? stop then Some min
      else
        let min := if less e min then e else min in
        e' ← list_next e h;
        list_min_loop fuel min e' stop h
  end.

Definition list_min (l : Z) (h : heap) : option Z :=
  min ← list_begin l h;
  stop ← list_end l;
  if min =? stop then Some min
  else
    e ← list_next min h;
    list_min_loop (walk_fuel h) min e stop h.

End Ordered.

(** ** Loads and stores *)

Definition upd_prev (e v : Z) (h : heap) : heap :=
  alter (λ c, ListElem v (next c)) e h.
Definition upd_next (e v : Z) (h : heap) : heap :=
  alter (λ c, ListElem (prev c) v) e h.

Lemma set_prev_eval e v h : is_Some (h !! e) → set_prev e v h = Some (upd_prev e v h).
Proof.
  intros [c Hc]. unfold set_prev, upd_prev. rewrite Hc. simpl. f_equal.
  apply map_eq. intros i. rewrite lookup_insert, lookup_alter.
  case_decide; [|done]. subst. by rewrite Hc.
Qed.
Lemma set_next_eval e v h : is_Some (h !! e) → set_next e v h = Some (upd_next e v h).
Proof.
  intros [c Hc]. unfold set_next, upd_next. rewrite Hc. simpl. f_equal.
  apply map_eq. intros i. rewrite lookup_insert, lookup_alter.
  case_decide; [|done]. subst. by rewrite Hc.
Qed.

Lemma get_next_upd_prev x e v h : get_next x (upd_prev e v h) = get_next x h.
Proof.
  unfold get_next, upd_prev. rewrite lookup_alter. case_decide; [|done].
  subst. by destruct (h !! x).
Qed.
Lemma get_prev_upd_next x e v h : get_prev x (upd_next e v h) = get_prev x h.
Proof.
  unfold get_prev, upd_next. rewrite lookup_alter. case_decide; [|done].
  subst. by destruct (h !! x).
Qed.
Lemma get_next_upd_next_ne x e v h : x ≠ e → get_next x (upd_next e v h) = get_next x h.
Proof. intros. unfold get_next, upd_next. by rewrite lookup_alter_ne. Qed.
Lemma get_prev_upd_prev_ne x e v h : x ≠ e → get_prev x (upd_prev e v h) = get_prev x h.
Proof. intros. unfold get_prev, upd_prev. by rewrite lookup_alter_ne. Qed.
Lemma get_next_upd_next_eq e v h :
  is_Some (h !! e) → get_next e (upd_next e v h) = Some v.
Proof. intros [c Hc]. unfold get_next, upd_next. by rewrite lookup_alter_eq, Hc. Qed.
Lemma get_prev_upd_prev_eq e v h :
  is_Some (h !! e) → get_prev e (upd_prev e v h) = Some v.
Proof. intros [c Hc]. unfold get_prev, upd_prev. by rewrite lookup_alter_eq, Hc. Qed.

Lemma is_Some_upd_prev x e v h : is_Some (upd_prev e v h !! x) ↔ is_Some (h !! x).
Proof.
  unfold upd_prev. rewrite lookup_alter. case_decide; [|done]. subst.
  by rewrite fmap_is_Some.
Qed.
Lemma is_Some_upd_next x e v h : is_Some (upd_next e v h !! x) ↔ is_Some (h !! x).
Proof.
  unfold upd_next. rewrite lookup_alter. case_decide; [|done]. subst.
  by rewrite fmap_is_Some.
Qed.
Lemma lookup_upd_prev_ne x e v h : x ≠ e → upd_prev e v h !! x = h !! x.
Proof. intros. by apply lookup_alter_ne. Qed.
Lemma lookup_upd_next_ne x e v h : x ≠ e → upd_next e v h !! x = h !! x.
Proof. intros. by apply lookup_alter_ne. Qed.

Lemma get_next_is_Some e v h : get_next e h = Some v → is_Some (h !! e).
Proof. unfold get_next. destruct (h !! e); [eauto|done]. Qed.
Lemma get_prev_is_Some e v h : get_prev e h = Some v → is_Some (h !! e).
Proof. unfold get_prev. destruct (h !! e); [eauto|done]. Qed.

Create HintDb heap discriminated.
#[export] Hint Resolve get_next_is_Some get_prev_is_Some : heap.
#[export] Hint Extern 1 (is_Some (upd_prev _ _ _ !! _)) =>
  apply is_Some_upd_prev : heap.
#[export] Hint Extern 1 (is_Some (upd_next _ _ _ !! _)) =>
  apply is_Some_upd_next : heap.
#[export] Hint Extern 2 (_ ≠ _) => congruence : heap.

(** Evaluate a sequence of loads and stores whose addresses are known. *)
Ltac heap_step :=
  first
    [ rewrite set_prev_eval by eauto 12 with heap
    | rewrite set_next_eval by eauto 12 with heap
    | rewrite get_next_upd_prev
    | rewrite get_prev_upd_next
    | rewrite get_next_upd_next_ne by eauto with heap
    | rewrite get_prev_upd_prev_ne by eauto with heap
    | rewrite get_next_upd_next_eq by eauto 12 with heap
    | rewrite get_prev_upd_prev_eq by eauto 12 with heap
    | match goal with
      | H : get_prev ?e ?h = Some _ |- context [get_prev ?e ?h] => rewrite H
      | H : get_next ?e ?h = Some _ |- context [get_next ?e ?h] => rewrite H
      end ];
  simpl.
Ltac heap_run := repeat heap_step.

Lemma is_interior_eval e p n h :
  e ≠ NULL → get_prev e h = Some p → get_next e h = Some n →
  is_interior e h = Some (negb (p =? NULL) && negb (n =? NULL)).
Proof.
  unfold is_interior, get_prev, get_next. intros He Hp Hn.
  apply Z.eqb_neq in He. rewrite He. destruct (h !! e); by simplify_eq/=.
Qed.

Lemma list_next_eval e n h :
  e ≠ NULL → get_next e h = Some n → n ≠ NULL → list_next e h = Some n.
Proof.
  unfold list_next, is_head, is_interior, get_next. intros He Hn Hn0.
  apply Z.eqb_neq in He, Hn0. rewrite He.
  destruct (h !! e) as [c|]; simplify_eq/=. rewrite Hn0. simpl.
  by destruct (prev c =? NULL).
Qed.

Lemma before_ok e p h :
  e ≠ NULL → get_prev e h = Some p → p ≠ NULL →
  ∃ b1 b2, is_interior e h = Some b1 ∧ is_tail e h = Some b2 ∧ b1 || b2 = true.
Proof.
  unfold is_tail, is_interior, get_prev. intros He Hp Hp0.
  apply Z.eqb_neq in He, Hp0. rewrite He.
  destruct (h !! e) as [c|]; simplify_eq/=. rewrite Hp0. simpl.
  destruct (next c =? NULL); eauto 10.
Qed.

Lemma list_prev_eval e p h :
  e ≠ NULL → get_prev e h = Some p → p ≠ NULL → list_prev e h = Some p.
Proof.
  intros He Hp Hp0.
  destruct (before_ok e p h) as (b1&b2&H1&H2&Hb); [done..|].
  unfold list_prev. rewrite H1, H2. simpl. by rewrite Hb.
Qed.

(** ** Chains of links *)

Definition linked (h : heap) (a b : Z) : Prop :=
  get_next a h = Some b ∧ get_prev b h = Some a.

Fixpoint chain (h : heap) (l : list Z) : Prop :=
  match l with
  | [] => True
  | a :: l' => match l' with [] => True | b :: _ => linked h a b end ∧ chain h l'
  end.

Lemma chain_cons2 h a b l : chain h (a :: b :: l) ↔ linked h a b ∧ chain h (b :: l).
Proof. done. Qed.

Arguments chain : simpl never.

Lemma chain_app h l1 a l2 :
  chain h (l1 ++ a :: l2) ↔ chain h (l1 ++ [a]) ∧ chain h (a :: l2).
Proof.
  induction l1 as [|x l1 IH]; [unfold chain; simpl; tauto|].
  destruct l1 as [|y l1].
  - unfold chain. simpl. tauto.
  - change (linked h x y ∧ chain h ((y :: l1) ++ a :: l2) ↔
      (linked h x y ∧ chain h ((y :: l1) ++ [a])) ∧ chain h (a :: l2)).
    rewrite IH. tauto.
Qed.

Lemma chain_snoc2 h l a b :
  chain h (l ++ [a; b]) ↔ chain h (l ++ [a]) ∧ linked h a b.
Proof. rewrite chain_app. unfold chain. simpl. tauto. Qed.

(** A chain only depends on the [next] links of its elements but the last and
    on the [prev] links of its elements but the first. *)
Lemma chain_frame h h' l :
  chain h l →
  (∀ a, a ∈ l → last l ≠ Some a → get_next a h' = get_next a h) →
  (∀ a, a ∈ l → head l ≠ Some a → get_prev a h' = get_prev a h) →
  NoDup l → chain h' l.
Proof.
  induction l as [|a l IH]; [done|]. destruct l as [|b l]; [done|].
  rewrite !chain_cons2. intros [[Hn Hp] Hc] HN HP Hnd.
  apply NoDup_cons in Hnd as [Ha Hnd].
  split.
  - split.
    + rewrite HN; [done|left|]. rewrite last_cons_cons. intros Hl.
      by apply last_Some_elem_of in Hl.
    + rewrite HP; [done|set_solver|]. simpl. intros [= ->]. set_solver.
  - apply IH; [done| | |done].
    + intros x Hx Hl. apply HN; [by right|]. by rewrite last_cons_cons.
    + intros x Hx Hl. apply HP; [by right|]. simpl. intros [= ->]. done.
Qed.

Lemma chain_dom h l a b : chain h (a :: b :: l) → Forall (λ x, is_Some (h !! x)) (a :: b :: l).
Proof.
  revert a b. induction l as [|c l IH]; intros a b [[Hn Hp] Hc].
  - repeat constructor; eauto with heap.
  - constructor; [eauto with heap|]. by apply IH.
Qed.

(** The interior elements of the list at [l] are [xs]. *)
Record is_list (h : heap) (l : Z) (xs : list Z) : Prop := {
  il_nodup : NoDup (l :: xs ++ [list_tail_of l]);
  il_null : NULL ∉ l :: xs ++ [list_tail_of l];
  il_chain : chain h (l :: xs ++ [list_tail_of l]);
  il_head : get_prev l h = Some NULL;
  il_tail : get_next (list_tail_of l) h = Some NULL;
}.

(** [h'] differs from [h] only at addresses in [X]. *)
Definition frame (X : list Z) (h h' : heap) : Prop :=
  (∀ x, x ∉ X → h' !! x = h !! x) ∧ dom h' = dom h.

#[export] Instance frame_refl X : Reflexive (frame X).
Proof. by split. Qed.

Lemma frame_trans X h1 h2 h3 : frame X h1 h2 → frame X h2 h3 → frame X h1 h3.
Proof. intros [H1 D1] [H2 D2]. split; [|congruence]. intros x Hx. by rewrite H2, H1. Qed.

Lemma frame_weaken X Y h h' : frame X h h' → (∀ x, x ∈ X → x ∈ Y) → frame Y h h'.
Proof. intros [H D] HX. split; [|done]. intros x Hx. apply H. naive_solver. Qed.

Lemma frame_size X h h' : frame X h h' → walk_fuel h' = walk_fuel h.
Proof. intros [_ D]. unfold walk_fuel. by rewrite <- !size_dom, D. Qed.

Lemma frame_is_Some X h h' x : frame X h h' → is_Some (h !! x) → is_Some (h' !! x).
Proof. intros [_ D]. by rewrite <- !elem_of_dom, D. Qed.

Lemma frame_upd_prev e v h : frame [e] h (upd_prev e v h).
Proof.
  split; [intros x Hx; apply lookup_upd_prev_ne; set_solver|].
  apply dom_alter_L.
Qed.
Lemma frame_upd_next e v h : frame [e] h (upd_next e v h).
Proof.
  split; [intros x Hx; apply lookup_upd_next_ne; set_solver|].
  apply dom_alter_L.
Qed.

Lemma frame_list h h' l xs X :
  is_list h l xs → frame X h h' →
  (∀ x, x ∈ l :: xs ++ [list_tail_of l] → x ∉ X) → is_list h' l xs.
Proof.
  intros [Hnd Hnull Hc Hh Ht] [Hf _] HX.
  assert (∀ x, x ∈ l :: xs ++ [list_tail_of l] →
    get_next x h' = get_next x h ∧ get_prev x h' = get_prev x h) as Hget.
  { intros x Hx. unfold get_next, get_prev. by rewrite Hf by auto. }
  split; [done|done| | |].
  - eapply chain_frame; [done|naive_solver|naive_solver|done].
  - rewrite (proj2 (Hget l ltac:(set_solver))). done.
  - rewrite (proj1 (Hget (list_tail_of l) ltac:(set_solver))). done.
Qed.

(** A chain without repetition is no longer than the heap. *)
Lemma chain_length h l a b :
  chain h (a :: b :: l) → NoDup (a :: b :: l) →
  (length (a :: b :: l) ≤ walk_fuel h)%nat.
Proof.
  intros Hc Hnd. apply chain_dom in Hc. unfold walk_fuel.
  rewrite <- size_dom. rewrite <- (size_list_to_set (C:=gset Z) _ Hnd).
  apply subseteq_size. intros x. rewrite elem_of_list_to_set, elem_of_dom.
  rewrite Forall_forall in Hc. apply Hc.
Qed.

Lemma is_list_length h l xs :
  is_list h l xs → (S (S (length xs)) ≤ walk_fuel h)%nat.
Proof.
  intros [Hnd _ Hc _ _].
  destruct xs as [|x xs].
  - by apply (chain_length h [] l (list_tail_of l)).
  - pose proof (chain_length h (xs ++ [list_tail_of l]) l x Hc Hnd) as H.
    simpl in *. rewrite length_app in H. simpl in H. lia.
Qed.

Lemma chain_app_iff h l1 l2 :
  chain h (l1 ++ l2) ↔
    chain h l1 ∧ chain h l2 ∧
    (∀ a b, last l1 = Some a → head l2 = Some b → linked h a b).
Proof.
  destruct l2 as [|b l2].
  { rewrite app_nil_r. unfold chain at 3. naive_solver. }
  destruct (last l1) as [a|] eqn:Ha.
  - apply last_Some in Ha as [l1' ->].
    rewrite <- (assoc_L (++)). simpl. rewrite (chain_app h l1' a (b :: l2)).
    rewrite chain_cons2. naive_solver.
  - apply last_None in Ha as ->. unfold chain at 2. naive_solver.
Qed.

(** ** Insertion and removal *)

Lemma list_insert_eval a before elem h :
  before ≠ NULL → elem ≠ NULL → a ≠ NULL → elem ≠ before → elem ≠ a →
  get_prev before h = Some a → is_Some (h !! a) → is_Some (h !! elem) →
  list_insert before elem h =
    Some (upd_prev before elem (upd_next a elem
           (upd_next elem before (upd_prev elem a h)))).
Proof.
  intros Hb He Ha Hne Hne' Hp HSa HSe.
  destruct (before_ok before a h) as (b1&b2&H1&H2&Hor); [done..|].
  unfold list_insert. rewrite H1, H2. simpl. rewrite Hor. simpl.
  apply Z.eqb_neq in He. rewrite He. simpl. heap_run. done.
Qed.

Lemma list_remove_eval a e b h :
  e ≠ NULL → a ≠ NULL → b ≠ NULL → e ≠ a → e ≠ b →
  get_prev e h = Some a → get_next e h = Some b →
  is_Some (h !! a) → is_Some (h !! b) →
  list_remove e h = Some (b, upd_prev b a (upd_next a b h)).
Proof.
  intros He Ha Hb Hne Hne' Hp Hn HSa HSb.
  unfold list_remove. rewrite (is_interior_eval e a b h) by done.
  apply Z.eqb_neq in Ha, Hb. rewrite Ha, Hb. simpl. heap_run. done.
Qed.

(** Split a chain into its parts, with its distinctness facts. *)
Ltac nodup_simp :=
  repeat match goal with
  | H : NoDup (_ ++ _) |- _ => apply NoDup_app in H as (? & ? & ?)
  | H : NoDup (_ :: _) |- _ => apply NoDup_cons in H as (? & ?)
  | H : _ ∉ _ :: _ |- _ => apply not_elem_of_cons in H as (? & ?)
  | H : _ ∉ _ ++ _ |- _ => apply not_elem_of_app in H as (? & ?)
  end.

Lemma NoDup_app_mid (l1 l2 : list Z) a : NoDup (l1 ++ a :: l2) → NoDup (l1 ++ [a]).
Proof.
  rewrite (cons_middle a), (assoc_L (++)). intros H. by apply NoDup_app in H as [? _].
Qed.
Lemma NoDup_app_right (l1 l2 : list Z) : NoDup (l1 ++ l2) → NoDup l2.
Proof. intros H. by apply NoDup_app in H as (_&_&?). Qed.

(** Rewrite away stores to addresses other than the one read. *)
Ltac heap_other :=
  repeat first
    [ rewrite get_next_upd_prev
    | rewrite get_prev_upd_next
    | rewrite get_next_upd_next_ne by first [congruence | set_solver]
    | rewrite get_prev_upd_prev_ne by first [congruence | set_solver] ];
  try done.

Lemma chain_insert h L1 a b L2 e :
  chain h (L1 ++ a :: b :: L2) → NoDup (L1 ++ a :: b :: L2) →
  e ∉ L1 ++ a :: b :: L2 → is_Some (h !! e) →
  chain (upd_prev b e (upd_next a e (upd_next e b (upd_prev e a h))))
    (L1 ++ a :: e :: b :: L2).
Proof.
  intros Hc Hnd He HSe.
  rewrite chain_app in Hc. destruct Hc as [Hc1 Hc2].
  rewrite chain_cons2 in Hc2. destruct Hc2 as [[Hn Hp] Hc2].
  generalize (NoDup_app_mid _ _ _ Hnd). nodup_simp. intros Hnd1.
  rewrite chain_app, !chain_cons2.
  split_and!; [|split; by heap_run|split; by heap_run|].
  - eapply chain_frame; [done| | |].
    + intros x Hx Hl. rewrite last_snoc in Hl. heap_other.
    + intros x Hx _. heap_other.
    + done.
  - eapply chain_frame; [done| | |].
    + intros x Hx _. heap_other.
    + intros x Hx Hl. simpl in Hl. heap_other.
    + by constructor.
Qed.

Lemma chain_remove h L1 a e b L2 :
  chain h (L1 ++ a :: e :: b :: L2) → NoDup (L1 ++ a :: e :: b :: L2) →
  chain (upd_prev b a (upd_next a b h)) (L1 ++ a :: b :: L2).
Proof.
  intros Hc Hnd.
  rewrite chain_app in Hc. destruct Hc as [Hc1 Hc2].
  rewrite !chain_cons2 in Hc2. destruct Hc2 as ([Hn Hp] & [Hn' Hp'] & Hc2).
  generalize (NoDup_app_mid _ _ _ Hnd). nodup_simp. intros Hnd1.
  rewrite chain_app, !chain_cons2.
  split_and!; [|split; by heap_run|].
  - eapply chain_frame; [done| | |].
    + intros x Hx Hl. rewrite last_snoc in Hl. heap_other.
    + intros x Hx _. heap_other.
    + done.
  - eapply chain_frame; [done| | |].
    + intros x Hx _. heap_other.
    + intros x Hx Hl. simpl in Hl. heap_other.
    + by constructor.
Qed.

(** ** Splicing *)

(** The heap after [list_splice] moved the segment from [first] to [lst],
    which stood between [p0] and [q], between [a] and [before]. *)
Definition spliced (a before first lst p0 q : Z) (h : heap) : heap :=
  upd_prev before lst (upd_next a first (upd_next lst before
    (upd_prev first a (upd_prev q p0 (upd_next p0 q h))))).

Lemma list_splice_eval a before first lst p0 q h :
  NULL ∉ [a; before; first; lst; p0; q] →
  before ≠ first → before ≠ q → first ≠ q → lst ≠ p0 → lst ≠ a →
  get_prev before h = Some a → linked h p0 first → linked h lst q →
  is_Some (get_prev lst h) → get_prev lst h ≠ Some NULL →
  is_Some (get_next first h) → get_next first h ≠ Some NULL →
  is_Some (h !! a) →
  list_splice before first q h = Some (spliced a before first lst p0 q h).
Proof.
  intros Hnull Hbf Hbq Hfq Hlp Hla Hp [Hn1 Hp1] [Hn2 Hp2] [p Hpl] Hpl0 [n Hnf]
    Hnf0 Ha.
  nodup_simp.
  destruct (before_ok before a h) as (b1&b2&H1'&H2'&Hor); [congruence..|].
  unfold list_splice. rewrite H1', H2'. simpl. rewrite Hor. simpl.
  replace (first =? q) with false by (symmetry; by apply Z.eqb_neq).
  rewrite (list_prev_eval q lst) by congruence. simpl.
  rewrite (is_interior_eval first p0 n h) by congruence. simpl.
  rewrite ASSERT_true by (rewrite andb_true_iff, !negb_true_iff, !Z.eqb_neq;
    split; congruence). simpl.
  rewrite (is_interior_eval lst p q h) by congruence. simpl.
  rewrite ASSERT_true by (rewrite andb_true_iff, !negb_true_iff, !Z.eqb_neq;
    split; congruence). simpl.
  heap_run. done.
Qed.

Lemma rotate_disj (L1 A M L2 : list Z) a q :
  NoDup (L1 ++ a :: A ++ M ++ q :: L2) →
  (∀ x y, x ∈ A → y ∈ M → x ≠ y) ∧
  (∀ x, x ∈ A ∨ x ∈ M ∨ x = q → x ≠ a ∧ x ∉ L1) ∧
  (∀ x, x ∈ A ∨ x ∈ M ∨ x = a → x ≠ q ∧ x ∉ L2).
Proof.
  intros Hnd. apply NoDup_app in Hnd as (_&H1&Hnd).
  apply NoDup_cons in Hnd as (H2&Hnd). apply NoDup_app in Hnd as (_&H3&Hnd).
  apply NoDup_app in Hnd as (_&H4&Hnd). apply NoDup_cons in Hnd as (H5&_).
  split_and!.
  - intros x y Hx Hy ->. apply (H3 y); [done|]. apply elem_of_app. by left.
  - intros x Hx. split.
    + intros ->. apply H2. rewrite !elem_of_app, elem_of_cons. naive_solver.
    + intros HL. apply (H1 x HL). rewrite elem_of_cons, !elem_of_app, elem_of_cons.
      naive_solver.
  - intros x [Hx|[Hx| ->]].
    + specialize (H3 x Hx). rewrite elem_of_app, elem_of_cons in H3. naive_solver.
    + specialize (H4 x Hx). rewrite elem_of_cons in H4. naive_solver.
    + rewrite !elem_of_app, elem_of_cons in H2. naive_solver.
Qed.

(** Distinctness in a chain cut as in [rotate_disj]. *)
Ltac rotate_ne Hx Hd1 Hd2 Hd3 :=
  first
    [ congruence
    | by apply Hd1
    | by apply not_eq_sym, Hd1
    | apply Hd2; by auto
    | apply Hd3; by auto
    | intros ->; rewrite ?elem_of_app, ?elem_of_cons in Hx;
      destruct_or? Hx; subst; try congruence;
      first
        [ eapply Hd2; [|exact Hx]; by auto
        | eapply Hd3; [|exact Hx]; by auto
        | by apply elem_of_nil in Hx ] ].
Ltac rotate_other Hx Hd1 Hd2 Hd3 :=
  repeat first
    [ rewrite get_next_upd_prev
    | rewrite get_prev_upd_next
    | rewrite get_next_upd_next_ne by rotate_ne Hx Hd1 Hd2 Hd3
    | rewrite get_prev_upd_prev_ne by rotate_ne Hx Hd1 Hd2 Hd3 ];
  try done.

Lemma chain_rotate h L1 a ys mid q L2 before p0 first lst :
  head ys = Some before → last ys = Some p0 →
  head mid = Some first → last mid = Some lst →
  chain h (L1 ++ a :: ys ++ mid ++ q :: L2) →
  NoDup (L1 ++ a :: ys ++ mid ++ q :: L2) →
  chain (spliced a before first lst p0 q h) (L1 ++ a :: mid ++ ys ++ q :: L2).
Proof.
  intros Hby Hly Hfm Hlm Hc Hnd.
  rewrite chain_app in Hc. destruct Hc as [Hc1 Hc2].
  change (a :: ?l) with ([a] ++ l) in Hc2. rewrite !chain_app_iff in Hc2.
  destruct Hc2 as (_ & (Hcy & (Hcm & Hcq & Hlq) & Hym) & Hay).
  rewrite !head_app, Hby, Hfm in *. simpl in *.
  specialize (Hlq lst q Hlm eq_refl) as [Hn2 Hp2].
  specialize (Hym p0 first Hly eq_refl) as [Hn1 Hp1].
  specialize (Hay a before eq_refl eq_refl) as [Hn3 Hp3].
  assert (Hby' : before ∈ ys) by by apply head_Some_elem_of.
  assert (Hly' : p0 ∈ ys) by by apply last_Some_elem_of.
  assert (Hfm' : first ∈ mid) by by apply head_Some_elem_of.
  assert (Hlm' : lst ∈ mid) by by apply last_Some_elem_of.
  destruct (rotate_disj _ _ _ _ _ _ Hnd) as (Hd1&Hd2&Hd3).
  pose proof (NoDup_app_mid _ _ _ Hnd) as Hnd1.
  apply NoDup_app_right, NoDup_cons in Hnd as [_ Hnd].
  apply NoDup_app in Hnd as (Hndy&_&Hnd). apply NoDup_app in Hnd as (Hndm&_&Hndq).
  assert (before ≠ first ∧ before ≠ q ∧ before ≠ lst ∧ p0 ≠ first ∧ p0 ≠ lst ∧
    p0 ≠ q ∧ first ≠ q ∧ lst ≠ q ∧ before ≠ a ∧ p0 ≠ a ∧ first ≠ a ∧ lst ≠ a ∧
    q ≠ a) as (?&?&?&?&?&?&?&?&?&?&?&?&?).
  { split_and!; first [by apply Hd1 | apply Hd2; by auto | apply Hd3; by auto]. }
  rewrite chain_app. split; [|change (a :: ?l) with ([a] ++ l);
    rewrite !chain_app_iff, !head_app, Hby, Hfm, Hly, Hlm; simpl; split_and!].
  all: unfold spliced.
  - eapply chain_frame; [done| | |done].
    + intros x Hx Hl. rewrite last_snoc in Hl. rotate_other Hx Hd1 Hd2 Hd3.
    + intros x Hx _. rotate_other Hx Hd1 Hd2 Hd3.
  - by repeat split.
  - eapply chain_frame; [apply Hcm| | |done].
    + intros x Hx Hl. rewrite Hlm in Hl. rotate_other Hx Hd1 Hd2 Hd3.
    + intros x Hx Hl. rewrite Hfm in Hl. rotate_other Hx Hd1 Hd2 Hd3.
  - eapply chain_frame; [apply Hcy| | |done].
    + intros x Hx Hl. rewrite Hly in Hl. rotate_other Hx Hd1 Hd2 Hd3.
    + intros x Hx Hl. rewrite Hby in Hl. rotate_other Hx Hd1 Hd2 Hd3.
  - eapply chain_frame; [apply Hcq| | |done].
    + intros x Hx Hl. rotate_other Hx Hd1 Hd2 Hd3.
    + intros x Hx Hl. simpl in Hl. rotate_other Hx Hd1 Hd2 Hd3.
  - intros ?? [= <-] [= <-]. split; by heap_run.
  - intros ?? [= <-] [= <-]. split; by heap_run.
  - intros ?? [= <-] [= <-]. split; by heap_run.
Qed.
