(* ===== verification/ListRefine.v ===== *)
(** * Lists: the pointer code implements the sequence operations

    For a list whose interior elements are [xs], every operation of [ListC]
    runs without panicking, computes the operation of [OrdList] (or the plain
    list function) on [xs], and changes no address outside the list. *)

From S2P Require Import Prelude OrdList ListC.

Open Scope Z_scope.

(** Membership in an explicit list. *)
Ltac in_list :=
  repeat first [rewrite elem_of_app | rewrite elem_of_cons]; tauto.

(** Reassociate concatenations to the right, everywhere. *)
Ltac napp := repeat first [progress simpl in * | rewrite <- (assoc_L (++)) in *].

(** A sequence of stores stays within the addresses it stores to. *)
Ltac solve_frame :=
  repeat match goal with
  | |- frame _ ?h ?h => reflexivity
  | |- frame _ _ (upd_prev _ _ _) =>
      eapply frame_trans; [|eapply frame_weaken; [apply frame_upd_prev|]]
  | |- frame _ _ (upd_next _ _ _) =>
      eapply frame_trans; [|eapply frame_weaken; [apply frame_upd_next|]]
  end.

Lemma ne_null (F : list Z) x : NULL ∉ F → x ∈ F → x ≠ NULL.
Proof. by intros H Hx ->. Qed.

(** A place in a list: the element [a] before it and the element [b] after
    it, either of which may be a header. *)
Lemma list_cut l ys zs :
  ∃ L1 a b L2, l :: ys = L1 ++ [a] ∧ zs ++ [list_tail_of l] = b :: L2 ∧
    l :: (ys ++ zs) ++ [list_tail_of l] = L1 ++ a :: b :: L2.
Proof.
  destruct (exists_last (l:=l :: ys)) as (L1&a&E1); [done|].
  destruct (zs ++ [list_tail_of l]) as [|b L2] eqn:E2.
  { by destruct zs. }
  exists L1, a, b, L2. split_and!; [done|done|].
  rewrite <- (assoc_L (++)), E2, app_comm_cons, E1, <- (assoc_L (++)). done.
Qed.

Lemma is_list_ne h l xs : is_list h l xs → l ≠ NULL.
Proof. intros [_ Hn _ _ _]. eapply ne_null; [done|left]. Qed.
#[export] Hint Resolve is_list_ne : heap.

Lemma list_end_eval l : l ≠ NULL → list_end l = Some (list_tail_of l).
Proof. intros Hl. unfold list_end. apply Z.eqb_neq in Hl. by rewrite Hl. Qed.

Lemma list_begin_eval l h : l ≠ NULL → list_begin l h = get_next l h.
Proof. intros Hl. unfold list_begin. apply Z.eqb_neq in Hl. by rewrite Hl. Qed.

Lemma is_list_begin h l xs :
  is_list h l xs → list_begin l h = head (xs ++ [list_tail_of l]).
Proof.
  intros H. rewrite list_begin_eval by eauto with heap.
  destruct H as [_ _ Hc _ _]. by destruct xs as [|x xs], Hc as [[-> _] _].
Qed.

Lemma is_list_next h l ys x zs :
  is_list h l (ys ++ x :: zs) → list_next x h = head (zs ++ [list_tail_of l]).
Proof.
  intros [Hnd Hnull Hc _ _].
  rewrite <- (assoc_L (++)), app_comm_cons in *. simpl in *.
  destruct (zs ++ [list_tail_of l]) as [|b L2] eqn:E; [by destruct zs|].
  rewrite app_comm_cons in Hc.
  apply chain_app in Hc as [_ [[Hn _] _]]. simpl.
  apply list_next_eval; [|done|]; (eapply ne_null; [done|in_list]).
Qed.

Lemma is_list_prev h l ys x zs :
  is_list h l (ys ++ x :: zs) → ys ≠ [] → list_prev x h = last ys.
Proof.
  intros [Hnd Hnull Hc _ _] Hys.
  destruct (exists_last Hys) as (L1&a&->). rewrite last_snoc.
  replace (l :: ((L1 ++ [a]) ++ x :: zs) ++ [list_tail_of l])
    with ((l :: L1) ++ a :: x :: zs ++ [list_tail_of l]) in Hc
    by (simpl; by rewrite <- !(assoc_L (++))).
  apply chain_app in Hc as [_ [[_ Hp] _]].
  apply list_prev_eval; [|done|]; (eapply ne_null; [done|in_list]).
Qed.

Lemma NoDup_cut_disj (L1 L2 : list Z) a :
  NoDup (L1 ++ a :: L2) → ∀ x y, x ∈ L1 ++ [a] → y ∈ L2 → x ≠ y.
Proof.
  rewrite (cons_middle a), (assoc_L (++)).
  intros (_&Hd&_)%NoDup_app x y Hx Hy ->. by apply (Hd y).
Qed.

Lemma is_list_insert h l ys zs b e :
  is_list h l (ys ++ zs) → head (zs ++ [list_tail_of l]) = Some b →
  e ∉ l :: (ys ++ zs) ++ [list_tail_of l] → e ≠ NULL → is_Some (h !! e) →
  ∃ h', list_insert b e h = Some h' ∧ is_list h' l (ys ++ e :: zs) ∧
    frame (e :: l :: (ys ++ zs) ++ [list_tail_of l]) h h'.
Proof.
  intros [Hnd Hnull Hc Hh Ht] Hb He He0 HSe.
  destruct (list_cut l ys zs) as (L1&a&b'&L2&E1&E2&E3).
  rewrite E2 in Hb. simplify_eq/=. rewrite E3 in *.
  assert (l :: (ys ++ e :: zs) ++ [list_tail_of l] = L1 ++ a :: e :: b :: L2) as E4.
  { rewrite <- (assoc_L (++)). simpl. rewrite app_comm_cons, E2.
    change (l :: ys ++ e :: b :: L2) with ((l :: ys) ++ e :: b :: L2).
    by rewrite E1, <- (assoc_L (++)). }
  pose proof (chain_insert h L1 a b L2 e Hc Hnd He HSe) as Hc'.
  apply chain_app in Hc as [_ [[Hn Hp] _]].
  assert (Hl : l ∈ L1 ++ [a]) by (rewrite <- E1; left).
  assert (Htl : list_tail_of l ∈ b :: L2) by (rewrite <- E2; in_list).
  assert (Hdisj : ∀ x y, x ∈ L1 ++ [a] → y ∈ b :: L2 → x ≠ y).
  { apply NoDup_cut_disj with (1:=Hnd). }
  assert (l ≠ b ∧ list_tail_of l ≠ a) as [Hlb Hta].
  { split; [apply Hdisj; [done|left]|]. intros E. symmetry in E. revert E.
    apply Hdisj; [in_list|done]. }
  assert (Hin : l ∈ L1 ++ a :: b :: L2 ∧ list_tail_of l ∈ L1 ++ a :: b :: L2)
    by (rewrite <- E3; split; in_list).
  destruct Hin as [Hl' Ht'].
  assert (e ≠ a ∧ e ≠ b ∧ e ≠ l ∧ e ≠ list_tail_of l) as (?&?&?&?).
  { split_and!; intros ->; apply He; in_list. }
  eexists. split.
  { apply (list_insert_eval a); eauto with heap;
      eapply ne_null; try done; in_list. }
  split; [split; rewrite ?E4|].
  - rewrite (cons_middle a), (assoc_L (++)), <- Permutation_middle.
    rewrite <- (assoc_L (++)). by constructor.
  - intros Hx. apply Hnull. revert Hx. rewrite !elem_of_app, !elem_of_cons.
    intuition congruence.
  - done.
  - heap_other.
  - heap_other.
  - solve_frame; intros x ->%list_elem_of_singleton; in_list.
Qed.

Lemma is_list_remove h l ys x zs :
  is_list h l (ys ++ x :: zs) →
  ∃ n h', list_remove x h = Some (n, h') ∧
    head (zs ++ [list_tail_of l]) = Some n ∧ is_list h' l (ys ++ zs) ∧
    frame (l :: (ys ++ zs) ++ [list_tail_of l]) h h'.
Proof.
  intros [Hnd Hnull Hc Hh Ht].
  destruct (list_cut l ys zs) as (L1&a&b&L2&E1&E2&E3).
  assert (l :: (ys ++ x :: zs) ++ [list_tail_of l] = L1 ++ a :: x :: b :: L2) as E4.
  { rewrite <- (assoc_L (++)). simpl. rewrite E2, app_comm_cons, E1.
    by rewrite <- (assoc_L (++)). }
  rewrite E4 in *.
  pose proof (chain_remove h L1 a x b L2 Hc Hnd) as Hc'.
  apply chain_app in Hc as [_ Hc]. rewrite !chain_cons2 in Hc.
  destruct Hc as ([Hn1 Hp1] & [Hn2 Hp2] & _).
  assert (Hdisj := NoDup_cut_disj _ _ _ Hnd).
  assert (l ≠ b ∧ list_tail_of l ≠ a ∧ x ≠ a ∧ x ≠ b) as (?&?&?&?).
  { split_and!.
    - apply Hdisj; [rewrite <- E1; left|in_list].
    - apply not_eq_sym, Hdisj; [in_list|]. rewrite <- E2. in_list.
    - apply not_eq_sym, Hdisj; in_list.
    - intros ->. apply NoDup_app_right in Hnd. nodup_simp. in_list. }
  exists b. eexists. rewrite E2. split.
  { apply (list_remove_eval a); eauto with heap; eapply ne_null; try done; in_list. }
  split; [done|]. split; [split; rewrite ?E3|].
  - revert Hnd. rewrite (cons_middle a), (assoc_L (++)), <- Permutation_middle.
    rewrite <- (assoc_L (++)). by intros [_ ?]%NoDup_cons.
  - intros Hx. apply Hnull. revert Hx. in_list.
  - done.
  - heap_other.
  - heap_other.
  - rewrite E3. solve_frame; intros z ->%list_elem_of_singleton; in_list.
Qed.

Lemma chain_prev_in h L1 x L2 :
  chain h (L1 ++ x :: L2) → L1 ≠ [] → ∃ y, y ∈ L1 ∧ get_prev x h = Some y.
Proof.
  intros Hc Hne. destruct (exists_last Hne) as (L&y&->).
  exists y. split; [in_list|].
  rewrite <- (assoc_L (++)) in Hc. simpl in Hc.
  by apply chain_app in Hc as [_ [[_ ?] _]].
Qed.

Lemma chain_next_in h L1 x y L2 :
  chain h (L1 ++ x :: y :: L2) → get_next x h = Some y.
Proof. intros Hc. by apply chain_app in Hc as [_ [[? _] _]]. Qed.

Lemma splice_rotate_eval h L1 a before as_ first mid q L2 p0 lst :
  chain h (L1 ++ a :: (before :: as_) ++ (first :: mid) ++ q :: L2) →
  NoDup (L1 ++ a :: (before :: as_) ++ (first :: mid) ++ q :: L2) →
  NULL ∉ L1 ++ a :: (before :: as_) ++ (first :: mid) ++ q :: L2 →
  last (before :: as_) = Some p0 → last (first :: mid) = Some lst →
  list_splice before first q h = Some (spliced a before first lst p0 q h).
Proof.
  intros Hc Hnd Hnull Hla Hlm.
  pose proof (last_Some_elem_of _ _ Hla) as Hp0.
  pose proof (last_Some_elem_of _ _ Hlm) as Hlst.
  apply last_Some in Hla as [as' Ea]. apply last_Some in Hlm as [mid' Em].
  assert (linked h a before ∧ linked h p0 first ∧ linked h lst q) as (L&L'&L'').
  { split_and!.
    - by apply chain_app in Hc as [_ [? _]].
    - rewrite Ea in Hc. apply (chain_app h (L1 ++ a :: as') p0 (first :: mid ++ q :: L2)).
      by napp.
    - rewrite Em in Hc. apply (chain_app h (L1 ++ a :: (before :: as_) ++ mid') lst (q :: L2)).
      by napp. }
  assert (∃ y, y ≠ NULL ∧ get_prev lst h = Some y) as (y&Hy&Hpl).
  { rewrite Em in Hc.
    destruct (chain_prev_in h (L1 ++ a :: (before :: as_) ++ mid') lst (q :: L2))
      as (y&Hy&?); [by napp|by destruct L1|].
    exists y. split; [|done]. eapply ne_null; [done|].
    rewrite Em. clear -Hy. set_solver. }
  assert (∃ y, y ≠ NULL ∧ get_next first h = Some y) as (z&Hz&Hnf).
  { rewrite app_comm_cons, (assoc_L (++)) in Hc. simpl in Hc.
    destruct mid as [|z mid]; apply chain_next_in in Hc; eexists;
      (split; [|done]); eapply ne_null; try done; in_list. }
  assert (before ≠ first ∧ before ≠ q ∧ first ≠ q ∧ lst ≠ p0 ∧ lst ≠ a)
    as (?&?&?&?&?).
  { destruct (rotate_disj _ _ _ _ _ _ Hnd) as (Hd1&Hd2&Hd3).
    split_and!; first [apply not_eq_sym, Hd1; (done || left)
      | apply Hd1; left | apply Hd3; left; left | apply Hd3; right; left; left
      | apply Hd2; by auto]. }
  apply list_splice_eval; try done; try congruence.
  - rewrite elem_of_cons in Hp0, Hlst.
    rewrite !not_elem_of_cons. split_and!; try apply not_eq_sym;
      try (eapply ne_null; [done|]); try in_list; apply not_elem_of_nil.
  - apply L.
  - destruct L. eauto with heap.
Qed.

(** [list_splice] within a list: the segment [mid] moves before the segment
    [as_] that precedes it. *)
Lemma is_list_rotate h l ys as_ mid zs before first q :
  is_list h l (ys ++ as_ ++ mid ++ zs) →
  head as_ = Some before → head mid = Some first →
  head (zs ++ [list_tail_of l]) = Some q →
  ∃ h', list_splice before first q h = Some h' ∧
    is_list h' l (ys ++ mid ++ as_ ++ zs) ∧
    frame (l :: (ys ++ as_ ++ mid ++ zs) ++ [list_tail_of l]) h h'.
Proof.
  intros [Hnd Hnull Hc Hh Ht] Hba Hfm Hq.
  destruct (list_cut l ys (as_ ++ mid ++ zs)) as (L1&a&b'&L2'&E1&_&_).
  destruct (zs ++ [list_tail_of l]) as [|q' L2] eqn:E2; simplify_eq/=.
  assert (∀ m1 m2, l :: (ys ++ m1 ++ m2 ++ zs) ++ [list_tail_of l] =
    L1 ++ a :: m1 ++ m2 ++ q :: L2) as E.
  { intros m1 m2. rewrite <- !(assoc_L (++)), E2.
    by rewrite app_comm_cons, E1, <- (assoc_L (++)). }
  assert (l ∈ L1 ++ [a] ∧ list_tail_of l ∈ q :: L2) as [Hl Htl].
  { rewrite <- E1, <- E2. split; in_list. }
  rewrite E in *.
  destruct as_ as [|? as_]; simplify_eq/=.
  destruct mid as [|? mid]; simplify_eq/=.
  destruct (last (before :: as_)) as [p0|] eqn:Hla; [|by apply last_None in Hla].
  destruct (last (first :: mid)) as [lst|] eqn:Hlm; [|by apply last_None in Hlm].
  pose proof (chain_rotate h L1 a (before :: as_) (first :: mid) q L2
    before p0 first lst eq_refl Hla eq_refl Hlm Hc Hnd) as Hc'.
  pose proof (last_Some_elem_of _ _ Hla) as Hp0.
  pose proof (last_Some_elem_of _ _ Hlm) as Hlst.
  assert (Hperm : L1 ++ a :: (first :: mid) ++ (before :: as_) ++ q :: L2 ≡ₚ
    L1 ++ a :: (before :: as_) ++ (first :: mid) ++ q :: L2) by solve_Permutation.
  assert (l ≠ before ∧ l ≠ first ∧ l ≠ q ∧ list_tail_of l ≠ a ∧
    list_tail_of l ≠ lst ∧ list_tail_of l ≠ p0) as (?&?&?&?&?&?).
  { destruct (rotate_disj L1 (before :: as_) (first :: mid) L2 a q Hnd)
      as (Hd1&Hd2&Hd3).
    pose proof (NoDup_cut_disj _ _ _ Hnd) as Hd.
    split_and!; try (apply Hd; [done|in_list]); apply not_eq_sym.
    all: apply elem_of_cons in Htl as [->|Htl].
    - by apply Hd3; auto.
    - intros Hx. rewrite <- Hx in Htl. revert Htl. apply Hd3; by auto.
    - by apply Hd3; auto.
    - intros Hx. rewrite <- Hx in Htl. revert Htl. apply Hd3; by auto.
    - by apply Hd3; auto.
    - intros Hx. rewrite <- Hx in Htl. revert Htl. apply Hd3; by auto. }
  exists (spliced a before first lst p0 q h).
  split; [by eapply splice_rotate_eval|].
  pose proof (E (first :: mid) (before :: as_)) as E'. simpl in E', Hperm.
  split; [split; rewrite ?E'|].
  - by rewrite Hperm.
  - by rewrite Hperm.
  - done.
  - unfold spliced. heap_other.
  - unfold spliced. heap_other.
  - rewrite elem_of_cons in Hp0, Hlst.
    unfold spliced. solve_frame; intros x ->%list_elem_of_singleton; in_list.
Qed.

(** ** Cursors *)

(** The address an iterator holds when [xs] is still to be visited. *)
Definition pos (l : Z) (xs : list Z) : Z :=
  match xs with [] => list_tail_of l | x :: _ => x end.

Lemma head_pos l xs : head (xs ++ [list_tail_of l]) = Some (pos l xs).
Proof. by destruct xs. Qed.

Lemma pos_app_ne l ys zs h :
  is_list h l (ys ++ zs) → ∀ y, y ∈ ys → y ≠ pos l zs.
Proof.
  intros [Hnd _ _ _ _] y Hy ->.
  apply NoDup_cons in Hnd as [_ Hnd].
  rewrite <- (assoc_L (++)) in Hnd.
  apply NoDup_app in Hnd as (_&Hd&_). apply (Hd _ Hy).
  destruct zs; simpl; left.
Qed.

Lemma pos_eqb_tail h l ys zs :
  is_list h l (ys ++ zs) →
  (pos l zs =? list_tail_of l) = match zs with [] => true | _ => false end.
Proof.
  intros H. destruct zs as [|z zs]; simpl; [apply Z.eqb_refl|].
  apply Z.eqb_neq. rewrite (cons_middle z), (assoc_L (++)) in H.
  apply (pos_app_ne l (ys ++ [z] ++ zs) [] h); [by rewrite app_nil_r in *; rewrite <- (assoc_L (++)) in H|].
  in_list.
Qed.

Lemma pos_null h l ys zs : is_list h l (ys ++ zs) → pos l zs ≠ NULL.
Proof.
  intros [_ Hn _ _ _]. eapply ne_null; [done|]. destruct zs; simpl; in_list.
Qed.

Lemma begin_pos h l xs : is_list h l xs → list_begin l h = Some (pos l xs).
Proof. intros H. by rewrite (is_list_begin h l xs H), head_pos. Qed.

Lemma next_pos h l ys x zs :
  is_list h l (ys ++ x :: zs) → list_next x h = Some (pos l zs).
Proof. intros H. by rewrite (is_list_next h l ys x zs H), head_pos. Qed.

Lemma prev_pos h l ys x zs :
  is_list h l (ys ++ x :: zs) → list_prev (pos l zs) h = Some x.
Proof.
  intros [Hnd Hnull Hc _ _].
  assert (l :: (ys ++ x :: zs) ++ [list_tail_of l] =
    (l :: ys) ++ x :: (zs ++ [list_tail_of l])) as E by by napp.
  rewrite E in *. destruct (zs ++ [list_tail_of l]) as [|b L2] eqn:E2; [by destruct zs|].
  assert (pos l zs = b) as ->.
  { assert (head (b :: L2) = Some (pos l zs)) as H; [by rewrite <- E2, head_pos|].
    simpl in H. congruence. }
  apply chain_app in Hc as [_ [[_ Hp] _]].
  apply list_prev_eval; [|done|]; (eapply ne_null; [done|in_list]).
Qed.

(** The addresses of a list, headers included. *)
Definition cells (l : Z) (xs : list Z) : list Z := l :: xs ++ [list_tail_of l].

Lemma frame_cells_perm l xs ys h h' :
  frame (cells l xs) h h' → xs ≡ₚ ys → frame (cells l ys) h h'.
Proof.
  intros H Hp. eapply frame_weaken; [done|]. unfold cells. intros x.
  rewrite !elem_of_cons, !elem_of_app, Hp. done.
Qed.

Lemma is_list_size_loop h l pre xs cnt fuel :
  is_list h l (pre ++ xs) → (length xs < fuel)%nat →
  list_size_loop fuel (pos l xs) (list_tail_of l) cnt h =
    Some (cnt + Z.of_nat (length xs)).
Proof.
  revert pre xs cnt. induction fuel as [|fuel IH]; intros pre xs cnt H Hf; [lia|].
  simpl. rewrite (pos_eqb_tail h l pre xs H).
  destruct xs as [|x xs]; simpl in *; [f_equal; lia|].
  rewrite (next_pos h l pre x xs H). simpl.
  rewrite (IH (pre ++ [x])); [f_equal; lia|by rewrite <- (assoc_L (++))|lia].
Qed.

Lemma is_list_insert_ordered_loop less h l pre xs e fuel :
  is_list h l (pre ++ xs) → (length xs < fuel)%nat →
  ∃ ys zs, xs = ys ++ zs ∧ insert_ordered less e xs = ys ++ e :: zs ∧
    insert_ordered_loop less fuel e (pos l xs) (list_tail_of l) h = Some (pos l zs).
Proof.
  revert pre xs. induction fuel as [|fuel IH]; intros pre xs H Hf; [lia|].
  simpl. rewrite (pos_eqb_tail h l pre xs H).
  destruct xs as [|x xs]; simpl in *; [by exists [], []|].
  destruct (less e x); [by exists [], (x :: xs)|].
  rewrite (next_pos h l pre x xs H). simpl.
  destruct (IH (pre ++ [x]) xs) as (ys&zs&->&Hi&Hl);
    [by rewrite <- (assoc_L (++))|lia|].
  exists (x :: ys), zs. rewrite Hi, Hl. done.
Qed.

(** ** Sorting *)

Section Sort.
Context (less : Z → Z → bool).

Lemma is_list_find_end h l pre x xs r rest fuel :
  is_list h l (pre ++ x :: xs) → run_from less x xs = (r, rest) →
  (length xs < fuel)%nat →
  find_end_loop less fuel x (list_tail_of l) h = Some (pos l rest).
Proof.
  revert pre x xs r rest.
  induction fuel as [|fuel IH]; intros pre x xs r rest H Hr Hf; [lia|].
  simpl. rewrite (next_pos h l pre x xs H). simpl.
  assert (H' : is_list h l ((pre ++ [x]) ++ xs)) by (by rewrite <- (assoc_L (++))).
  rewrite (pos_eqb_tail h l _ _ H').
  destruct xs as [|y ys]; simpl in *; [by simplify_eq|].
  pose proof (prev_pos h l pre x (y :: ys) H) as Hp. simpl in Hp.
  rewrite Hp. simpl. destruct (less y x); [by simplify_eq|].
  destruct (run_from less y ys) as [r' rest'] eqn:E. simplify_eq.
  eapply IH; [done|done|lia].
Qed.

Lemma is_list_find_end_of_run h l pre x xs r rest :
  is_list h l (pre ++ x :: xs) → run_from less x xs = (r, rest) →
  find_end_of_run less x (list_tail_of l) h = Some (pos l rest).
Proof.
  intros H Hr. unfold find_end_of_run.
  pose proof (is_list_length _ _ _ H) as Hlen. rewrite length_app in Hlen.
  assert (x ≠ NULL) by apply (pos_null h l pre (x :: xs) H).
  assert (list_tail_of l ≠ NULL)
    by (apply (pos_null h l (pre ++ x :: xs) []); by rewrite app_nil_r).
  pose proof (pos_eqb_tail h l pre (x :: xs) H) as Hne. simpl in Hne.
  rewrite !ASSERT_true by (rewrite negb_true_iff; by first [done | apply Z.eqb_neq]).
  simpl. eapply is_list_find_end; [done|done|simpl in Hlen; lia].
Qed.

Lemma is_list_is_sorted_loop h l pre x r rest fuel :
  is_list h l (pre ++ x :: r ++ rest) → Sorted (le_ord less) (x :: r) →
  (length r < fuel)%nat →
  is_sorted_loop less fuel x (pos l rest) h = Some true.
Proof.
  revert pre x r. induction fuel as [|fuel IH]; intros pre x r H Hs Hf; [lia|].
  simpl. rewrite (next_pos h l pre x (r ++ rest) H). simpl.
  pose proof (prev_pos h l pre x (r ++ rest) H) as Hp.
  destruct r as [|y r]; simpl in *; [by rewrite Z.eqb_refl|].
  assert (H' : is_list h l ((pre ++ [x]) ++ y :: r ++ rest))
    by (by rewrite <- (assoc_L (++))).
  replace (y =? pos l rest) with false.
  2:{ symmetry. apply Z.eqb_neq.
      apply (pos_app_ne l ((pre ++ [x]) ++ y :: r) rest h); [by napp|in_list]. }
  rewrite Hp. simpl. inversion Hs as [|?? Hs' Hd]; subst.
  inversion Hd as [|?? Hle]; subst. unfold le_ord in Hle. rewrite Hle.
  eapply IH; [done|done|lia].
Qed.

Lemma is_list_is_sorted h l pre r rest :
  is_list h l (pre ++ r ++ rest) → Sorted (le_ord less) r →
  is_sorted less (pos l (r ++ rest)) (pos l rest) h = Some true.
Proof.
  intros H Hs. unfold is_sorted.
  destruct r as [|x r]; simpl; [by rewrite Z.eqb_refl|].
  replace (x =? pos l rest) with false.
  2:{ symmetry. apply Z.eqb_neq.
      apply (pos_app_ne l (pre ++ x :: r) rest h); [by napp|in_list]. }
  pose proof (is_list_length _ _ _ H) as Hlen. rewrite !length_app in Hlen.
  simpl in Hlen. eapply is_list_is_sorted_loop; [done|done|lia].
Qed.

Lemma is_list_merge_loop h l pre xs ys post fuel :
  is_list h l (pre ++ xs ++ ys ++ post) → (length xs + length ys < fuel)%nat →
  ∃ h', inplace_merge_loop less fuel (pos l (xs ++ ys ++ post))
          (pos l (ys ++ post)) (pos l post) h = Some h' ∧
    is_list h' l (pre ++ merge less xs ys ++ post) ∧
    frame (cells l (pre ++ xs ++ ys ++ post)) h h'.
Proof.
  revert h pre xs ys.
  induction fuel as [|fuel IH]; intros h pre xs ys H Hf; [lia|].
  cbn [inplace_merge_loop].
  destruct xs as [|x xs].
  { simpl. rewrite Z.eqb_refl. simpl.
    exists h. split_and!; [done|done|reflexivity]. }
  destruct ys as [|y ys].
  { rewrite merge_nil_r. simpl. rewrite Z.eqb_refl, andb_false_r.
    exists h. split_and!; [done|done|reflexivity]. }
  cbn [app pos].
  replace (x =? y) with false.
  2:{ symmetry. apply Z.eqb_neq. change y with (pos l ((y :: ys) ++ post)).
      eapply (pos_app_ne l (pre ++ x :: xs)); [by napp|in_list]. }
  replace (y =? pos l post) with false.
  2:{ symmetry. apply Z.eqb_neq.
      eapply (pos_app_ne l (pre ++ (x :: xs) ++ y :: ys)); [by napp|in_list]. }
  cbn [andb negb]. rewrite merge_cons.
  destruct (less y x) eqn:E; cbn [negb].
  - assert (H' : is_list h l ((pre ++ x :: xs) ++ y :: ys ++ post)) by by napp.
    rewrite (next_pos h l _ _ _ H'). cbn [mbind option_bind].
    rewrite (prev_pos h l _ _ _ H'). cbn [mbind option_bind].
    destruct (is_list_rotate h l pre (x :: xs) [y] (ys ++ post) x y (pos l (ys ++ post)))
      as (h1&Hs&H1&Hf1); [done|done|done|apply head_pos|].
    rewrite Hs. cbn [mbind option_bind].
    destruct (IH h1 (pre ++ [y]) (x :: xs) ys) as (h2&Hl&H2&Hf2);
      [by napp|simpl in *; lia|].
    exists h2. split; [by apply Hl|]. split; [by napp|].
    eapply frame_trans; [by apply Hf1|].
    eapply frame_cells_perm; [done|]. solve_Permutation.
  - rewrite (next_pos h l pre x (xs ++ y :: ys ++ post) H). cbn [mbind option_bind].
    destruct (IH h (pre ++ [x]) xs (y :: ys)) as (h2&Hl&H2&Hf2);
      [by napp|simpl in *; lia|].
    exists h2. split; [by apply Hl|]. split; [by napp|].
    eapply frame_cells_perm; [done|]. solve_Permutation.
Qed.

Lemma is_list_inplace_merge h l pre xs ys post :
  is_list h l (pre ++ xs ++ ys ++ post) →
  Sorted (le_ord less) xs → Sorted (le_ord less) ys →
  ∃ h', inplace_merge less (pos l (xs ++ ys ++ post)) (pos l (ys ++ post))
          (pos l post) h = Some h' ∧
    is_list h' l (pre ++ merge less xs ys ++ post) ∧
    frame (cells l (pre ++ xs ++ ys ++ post)) h h'.
Proof.
  intros H Hx Hy. unfold inplace_merge.
  assert (H2 : is_list h l ((pre ++ xs) ++ ys ++ post)) by by napp.
  assert (H3 : is_list h l ((pre ++ xs ++ ys) ++ post)) by by napp.
  rewrite (ASSERT_true (negb (pos l (xs ++ ys ++ post) =? NULL)))
    by (apply negb_true_iff, Z.eqb_neq; by eapply pos_null).
  rewrite (ASSERT_true (negb (pos l (ys ++ post) =? NULL)))
    by (apply negb_true_iff, Z.eqb_neq; by eapply pos_null).
  rewrite (ASSERT_true (negb (pos l post =? NULL)))
    by (apply negb_true_iff, Z.eqb_neq; by eapply pos_null).
  cbn [mbind option_bind].
  rewrite (is_list_is_sorted h l pre xs (ys ++ post)) by done.
  rewrite (is_list_is_sorted h l (pre ++ xs) ys post) by done.
  cbn [mbind option_bind ASSERT].
  apply is_list_merge_loop; [done|].
  pose proof (is_list_length _ _ _ H) as Hlen. rewrite !length_app in Hlen. lia.
Qed.

Lemma is_list_pass h l pre xs cnt fuel :
  is_list h l (pre ++ xs) → (length xs < fuel)%nat →
  ∃ n ys h', pass less xs n ys ∧
    list_sort_pass less fuel l (pos l xs) cnt h = Some (cnt + Z.of_nat n, h') ∧
    is_list h' l (pre ++ ys) ∧ frame (cells l (pre ++ xs)) h h'.
Proof.
  revert h pre xs cnt.
  induction fuel as [|fuel IH]; intros h pre xs cnt H Hf; [lia|].
  cbn [list_sort_pass]. rewrite list_end_eval by eauto with heap.
  cbn [mbind option_bind]. rewrite (pos_eqb_tail h l pre xs H).
  destruct xs as [|x xs].
  { exists 0%nat, [], h. split_and!; [constructor|f_equal; f_equal; lia|done|reflexivity]. }
  destruct (run_from less x xs) as [r1 rest] eqn:E1. cbn [pos].
  rewrite (is_list_find_end_of_run h l pre x xs r1 rest H E1).
  cbn [mbind option_bind].
  pose proof (run_from_app _ _ _ _ _ E1) as EA1.
  assert (H' : is_list h l ((pre ++ r1) ++ rest))
    by (rewrite <- (assoc_L (++)), <- EA1; done).
  rewrite (pos_eqb_tail h l _ _ H').
  destruct rest as [|y ys].
  { exists 1%nat, r1, h. split_and!; [by constructor|done| |reflexivity].
    by rewrite app_nil_r in *. }
  destruct (run_from less y ys) as [r2 rest] eqn:E2. cbn [pos].
  rewrite (is_list_find_end_of_run h l _ y ys r2 rest H' E2).
  cbn [mbind option_bind].
  pose proof (run_from_app _ _ _ _ _ E2) as EA2.
  destruct (run_from_head _ _ _ _ _ E1) as [r1' Hr1].
  destruct (run_from_head _ _ _ _ _ E2) as [r2' Hr2].
  destruct (is_list_inplace_merge h l pre r1 r2 rest) as (h1&Hm&H1&Hf1);
    [|by eapply run_from_sorted..|].
  { by rewrite <- EA2, <- EA1. }
  assert (pos l (r1 ++ r2 ++ rest) = x ∧ pos l (r2 ++ rest) = y) as [Ex Ey]
    by (by rewrite Hr1, Hr2).
  rewrite Ex, Ey in Hm. rewrite Hm. cbn [mbind option_bind].
  destruct (IH h1 (pre ++ merge less r1 r2) rest (cnt + 1)) as (n&out&h2&Hp&Hl&H2&Hf2).
  { by rewrite <- (assoc_L (++)). }
  { assert (length (x :: xs) = length (r1 ++ r2 ++ rest)) as Hlen
      by (by rewrite EA1, EA2).
    rewrite !length_app, Hr1, Hr2 in Hlen. simpl in *. lia. }
  exists (S n), (merge less r1 r2 ++ out), h2. split_and!.
  - by eapply pass_step.
  - rewrite Hl. f_equal. f_equal. lia.
  - by rewrite (assoc_L (++)).
  - rewrite EA1, EA2. eapply frame_trans; [done|].
    eapply frame_cells_perm; [done|]. rewrite merge_perm. solve_Permutation.
Qed.

Context `{!StrictWeakOrder less}.

Lemma is_list_sort_loop h l xs fuel :
  is_list h l xs → (runs less xs < fuel)%nat →
  ∃ ys h', list_sort_loop less fuel l h = Some h' ∧ is_list h' l ys ∧
    SortOf less xs ys ∧ frame (cells l xs) h h'.
Proof.
  revert h xs. induction fuel as [|fuel IH]; intros h xs H Hf; [lia|].
  cbn [list_sort_loop]. rewrite (begin_pos h l xs H). cbn [mbind option_bind].
  destruct (is_list_pass h l [] xs 0 (walk_fuel h)) as (n&ys&h1&Hp&Hl&H1&Hf1);
    [done|pose proof (is_list_length _ _ _ H); lia|].
  rewrite Hl. cbn [mbind option_bind].
  pose proof (pass_runs less _ _ _ Hp) as Hr.
  pose proof (pass_count less _ _ _ Hp) as Hc.
  pose proof (pass_perm less _ _ _ Hp) as Hperm.
  destruct (Z.ltb_spec 1 (0 + Z.of_nat n)) as [Hn|Hn].
  - destruct (IH h1 ys) as (zs&h2&Hl2&H2&[Hp2 Hs2 Hst2]&Hf2); [done|lia|].
    exists zs, h2. split_and!; [done|done| |].
    + split; [by rewrite Hperm|done|].
      intros x. rewrite (pass_stable less _ _ _ _ Hp). done.
    + eapply frame_trans; [done|]. eapply frame_cells_perm; [done|].
      by rewrite Hperm.
  - exists ys, h1. split_and!; [done|done| |done].
    split; [done| |].
    + apply sorted_strongly; [done|]. apply runs_le_1_sorted. lia.
    + intros x. by apply (pass_stable less _ n).
Qed.

Lemma runs_le_length (xs : list Z) : (runs less xs ≤ length xs)%nat.
Proof.
  destruct xs as [|x xs]; simpl; [lia|]. revert x.
  induction xs as [|y xs IH]; intros x; simpl; [lia|].
  specialize (IH y). destruct (less y x); lia.
Qed.

(** [list_sort] sorts: the in-place natural merge sort computes the stable
    insertion sort of the elements. *)
Lemma is_list_sort h l xs :
  is_list h l xs →
  ∃ h', list_sort less l h = Some h' ∧ is_list h' l (isort less xs) ∧
    frame (cells l xs) h h'.
Proof.
  intros H. unfold list_sort.
  pose proof (is_list_length _ _ _ H) as Hlen.
  pose proof (runs_le_length xs) as Hr.
  rewrite ASSERT_true by (apply negb_true_iff, Z.eqb_neq; eauto with heap).
  cbn [mbind option_bind].
  destruct (is_list_sort_loop h l xs (walk_fuel h)) as (ys&h1&Hl&H1&Hs&Hf);
    [done|lia|].
  rewrite Hl. cbn [mbind option_bind]. rewrite (begin_pos h1 l ys H1).
  cbn [mbind option_bind]. rewrite list_end_eval by eauto with heap.
  cbn [mbind option_bind].
  pose proof (is_list_is_sorted h1 l [] ys []) as Hsorted.
  rewrite app_nil_r in Hsorted. simpl in Hsorted.
  rewrite Hsorted; [|done|by apply StronglySorted_Sorted, Hs].
  cbn [mbind option_bind ASSERT].
  assert (ys = isort less xs) as ->
    by (eapply SortOf_unique; [done|done|by apply isort_SortOf]).
  eauto.
Qed.

End Sort.

(** ** Reversal *)

Definition swap_elem (c : list_elem) : list_elem := ListElem (next c) (prev c).

(** [h'] is [h] with the links of the elements of [xs] exchanged. *)
Definition swapped (xs : list Z) (h h' : heap) : Prop :=
  ∀ x, h' !! x = if decide (x ∈ xs) then swap_elem <$> h !! x else h !! x.

Lemma swapped_dom xs h h' : swapped xs h h' → dom h' = dom h.
Proof.
  intros H. apply set_eq. intros x. rewrite !elem_of_dom, H.
  case_decide; [by rewrite fmap_is_Some|done].
Qed.

Lemma swapped_frame xs h h' : swapped xs h h' → frame xs h h'.
Proof.
  intros H. split; [|by eapply swapped_dom]. intros x Hx. by rewrite H, decide_False.
Qed.

Lemma swapped_in xs h h' x :
  swapped xs h h' → x ∈ xs →
  get_next x h' = get_prev x h ∧ get_prev x h' = get_next x h.
Proof.
  intros H Hx. unfold get_next, get_prev. rewrite H, decide_True by done.
  by destruct (h !! x).
Qed.
Lemma swapped_out xs h h' x :
  swapped xs h h' → x ∉ xs →
  get_next x h' = get_next x h ∧ get_prev x h' = get_prev x h.
Proof. intros H Hx. unfold get_next, get_prev. by rewrite H, decide_False. Qed.

Lemma chain_swapped xs h h' :
  chain h xs → (∀ x, x ∈ xs →
    get_next x h' = get_prev x h ∧ get_prev x h' = get_next x h) →
  chain h' (reverse xs).
Proof.
  induction xs as [|x xs IH]; intros Hc Hs; [done|].
  rewrite reverse_cons. apply chain_app_iff. split_and!.
  - apply IH; [|set_solver]. by destruct Hc.
  - by repeat split.
  - intros a b Ha [= <-]. rewrite last_reverse in Ha.
    destruct xs as [|y xs]; simpl in Ha; [done|]. simplify_eq.
    destruct Hc as [[Hn Hp] _].
    split.
    + rewrite (proj1 (Hs a ltac:(in_list))). done.
    + rewrite (proj2 (Hs x ltac:(in_list))). done.
Qed.

Lemma is_list_reverse_loop h0 h l ys zs fuel :
  is_list h0 l (ys ++ zs) → swapped ys h0 h → (length zs < fuel)%nat →
  ∃ h', list_reverse_loop fuel (pos l zs) (list_tail_of l) h = Some h' ∧
    swapped (ys ++ zs) h0 h'.
Proof.
  revert h ys zs. induction fuel as [|fuel IH]; intros h ys zs H Hs Hf; [lia|].
  cbn [list_reverse_loop]. rewrite (pos_eqb_tail h0 l ys zs H).
  destruct zs as [|z zs]; [rewrite app_nil_r; eauto|].
  assert (Hz : z ∉ ys).
  { intros Hz. by apply (pos_app_ne l ys (z :: zs) h0 H z Hz). }
  pose proof (il_chain _ _ _ H) as Hc.
  assert (Hn : get_next z h0 = Some (pos l zs)).
  { replace (l :: (ys ++ z :: zs) ++ [list_tail_of l])
      with ((l :: ys) ++ z :: (zs ++ [list_tail_of l])) in Hc by by napp.
    pose proof (head_pos l zs) as Hh.
    destruct (zs ++ [list_tail_of l]); [done|]. simpl in Hh. simplify_eq.
    by apply chain_next_in in Hc. }
  destruct (h0 !! z) as [c|] eqn:Hlz;
    [|unfold get_next in Hn; by rewrite Hlz in Hn].
  assert (Hlz' : h !! z = Some c) by (by rewrite Hs, decide_False).
  change (pos l (z :: zs)) with z. unfold swap_links. rewrite Hlz'. cbn [mbind option_bind].
  unfold get_prev at 1. rewrite lookup_insert_eq. cbn [fmap option_fmap option_map mbind option_bind].
  unfold get_next in Hn. rewrite Hlz in Hn. simpl in Hn. simplify_eq. cbn [prev].
  rewrite Hn.
  destruct (IH (<[z:=swap_elem c]> h) (ys ++ [z]) zs) as (h'&Hl&Hs').
  - by napp.
  - intros x. rewrite lookup_insert. destruct (decide (z = x)) as [->|Hne].
    + rewrite decide_True by in_list. by rewrite Hlz.
    + rewrite Hs. destruct (decide (x ∈ ys)); destruct (decide (x ∈ ys ++ [z]));
        try done; exfalso; set_solver.
  - simpl in Hf. lia.
  - exists h'. unfold swap_elem in Hl. rewrite Hn in Hl.
    split; [exact Hl|]. by napp.
Qed.

Lemma is_list_reverse h l xs :
  is_list h l xs →
  ∃ h', list_reverse l h = Some h' ∧ is_list h' l (reverse xs) ∧
    frame (cells l xs) h h'.
Proof.
  intros H. unfold list_reverse, list_empty.
  rewrite (begin_pos h l xs H), list_end_eval by eauto with heap.
  cbn [mbind option_bind]. rewrite (pos_eqb_tail h l [] xs H).
  destruct xs as [|x xs].
  { exists h. split_and!; [done|done|reflexivity]. }
  cbn [mbind option_bind].
  destruct (is_list_reverse_loop h h l [] (x :: xs) (walk_fuel h))
    as (h1&Hl&Hs); [done|by intros ?|pose proof (is_list_length _ _ _ H); simpl in *; lia|].
  rewrite Hl. cbn [mbind option_bind]. simpl in Hs.
  destruct (exists_last (l:=x :: xs)) as (ys&y&E); [done|].
  destruct H as [Hnd Hnull Hc Hh Ht].
  assert (Hd : (l ∉ x :: xs) ∧ (list_tail_of l ∉ x :: xs) ∧ l ≠ list_tail_of l).
  { apply NoDup_cons in Hnd as [Hl' Hnd]. apply NoDup_app in Hnd as (_&Hd&_).
    rewrite elem_of_app in Hl'. split_and!.
    - tauto.
    - intros Hx. apply (Hd _ Hx). left.
    - intros Hx. apply Hl'. right. rewrite <- Hx. left. }
  destruct Hd as (Hlx&Htx&Hlt).
  change (l :: (?a ++ ?b)) with ([l] ++ (a ++ b)) in Hc.
  rewrite !chain_app_iff in Hc. destruct Hc as (_&(Hcx&_&Hlast)&Hfirst).
  specialize (Hfirst l x eq_refl eq_refl) as [Hn1 Hp1].
  rewrite E, last_snoc in Hlast.
  specialize (Hlast y _ eq_refl eq_refl) as [Hn2 Hp2].
  destruct (swapped_out _ _ _ l Hs Hlx) as [Sl1 Sl2].
  destruct (swapped_out _ _ _ (list_tail_of l) Hs Htx) as [St1 St2].
  assert (Hxin : x ∈ x :: xs) by left.
  assert (Hyin : y ∈ x :: xs) by (rewrite E; in_list).
  destruct (swapped_in _ _ _ x Hs Hxin) as [Sx1 Sx2].
  destruct (swapped_in _ _ _ y Hs Hyin) as [Sy1 Sy2].
  rewrite Hn1 in Sl1. rewrite Hh in Sl2. rewrite Ht in St1. rewrite Hp2 in St2.
  rewrite Hp1 in Sx1. rewrite Hn2 in Sy2.
  assert (x ≠ l ∧ x ≠ list_tail_of l ∧ y ≠ l ∧ y ≠ list_tail_of l) as (?&?&?&?).
  { split_and!; by intros ->. }
  unfold list_head_of. heap_run.
  eexists. split; [done|].
  assert (Hhd : head (reverse (x :: xs)) = Some y) by by rewrite E, reverse_snoc.
  assert (Hlst : last (reverse (x :: xs)) = Some x) by by rewrite last_reverse.
  split; [split|].
  - by rewrite reverse_Permutation.
  - by rewrite reverse_Permutation.
  - change (l :: ?m) with ([l] ++ m).
    rewrite !chain_app_iff, head_app, Hhd, Hlst. simpl. split_and!.
    + by repeat split.
    + eapply chain_frame.
      * eapply chain_swapped; [apply Hcx|]. intros z Hz. by eapply swapped_in.
      * intros z Hz Hne. rewrite elem_of_reverse in Hz.
        rewrite Hlst in Hne. assert (z ≠ l) by by intros ->. heap_other.
      * intros z Hz Hne. rewrite elem_of_reverse in Hz. rewrite Hhd in Hne.
        assert (z ≠ list_tail_of l) by by intros ->. heap_other.
      * rewrite reverse_Permutation.
        by apply NoDup_cons in Hnd as [_ (?&_&_)%NoDup_app].
    + by repeat split.
    + intros ?? [= <-] [= <-]. split; by heap_run.
    + intros ?? [= <-] [= <-]. split; by heap_run.
  - heap_other.
  - heap_other.
  - eapply frame_trans.
    + eapply frame_weaken; [apply (swapped_frame _ _ _ Hs)|].
      unfold cells. intros z. in_list.
    + unfold cells. rewrite elem_of_cons in Hyin.
      solve_frame; intros z ->%list_elem_of_singleton; in_list.
Qed.

(** ** Removing duplicates, extrema *)

Section Extrema.
Context (less : Z → Z → bool).

(** [list_max] and [list_min] on the sequence of elements. *)
Definition max_of (m : Z) (xs : list Z) : Z :=
  foldl (λ m x, if less m x then x else m) m xs.
Definition min_of (m : Z) (xs : list Z) : Z :=
  foldl (λ m x, if less x m then x else m) m xs.

Lemma is_list_max_loop h l pre xs m fuel :
  is_list h l (pre ++ xs) → (length xs < fuel)%nat →
  list_max_loop less fuel m (pos l xs) (list_tail_of l) h = Some (max_of m xs).
Proof.
  revert pre xs m. induction fuel as [|fuel IH]; intros pre xs m H Hf; [lia|].
  simpl. rewrite (pos_eqb_tail h l pre xs H).
  destruct xs as [|x xs]; simpl in *; [done|].
  rewrite (next_pos h l pre x xs H). simpl.
  apply (IH (pre ++ [x])); [by napp|lia].
Qed.

Lemma is_list_min_loop h l pre xs m fuel :
  is_list h l (pre ++ xs) → (length xs < fuel)%nat →
  list_min_loop less fuel m (pos l xs) (list_tail_of l) h = Some (min_of m xs).
Proof.
  revert pre xs m. induction fuel as [|fuel IH]; intros pre xs m H Hf; [lia|].
  simpl. rewrite (pos_eqb_tail h l pre xs H).
  destruct xs as [|x xs]; simpl in *; [done|].
  rewrite (next_pos h l pre x xs H). simpl.
  apply (IH (pre ++ [x])); [by napp|lia].
Qed.

Lemma is_list_unique_loop h l pre x xs fuel :
  is_list h l (pre ++ x :: xs) → (length xs < fuel)%nat →
  ∃ h', list_unique_loop less fuel l x None h = Some h' ∧
    is_list h' l (pre ++ x :: (unique_from less x xs).1) ∧
    frame (cells l (pre ++ x :: xs)) h h'.
Proof.
  revert h pre x xs. induction fuel as [|fuel IH]; intros h pre x xs H Hf; [lia|].
  cbn [list_unique_loop]. rewrite (next_pos h l pre x xs H).
  rewrite list_end_eval by eauto with heap. cbn [mbind option_bind].
  assert (H' : is_list h l ((pre ++ [x]) ++ xs)) by by napp.
  rewrite (pos_eqb_tail h l _ _ H').
  destruct xs as [|y xs]; simpl.
  { exists h. split_and!; [done|done|reflexivity]. }
  destruct (negb (less x y) && negb (less y x)).
  - destruct (is_list_remove h l (pre ++ [x]) y xs) as (n&h1&Hr&_&H1&Hf1); [done|].
    rewrite Hr. cbn [mbind option_bind].
    destruct (IH h1 pre x xs) as (h2&Hl&H2&Hf2); [by napp|simpl in *; lia|].
    exists h2. split; [done|]. split.
    + destruct (unique_from less x xs). done.
    + assert (Hin : ∀ z, z ∈ cells l (pre ++ x :: xs) → z ∈ cells l (pre ++ x :: y :: xs)).
      { unfold cells. intros z. in_list. }
      eapply frame_trans; (eapply frame_weaken; [done|]); [|done].
      intros z Hz. apply Hin. revert Hz. unfold cells. by napp.
  - destruct (IH h (pre ++ [x]) y xs) as (h2&Hl&H2&Hf2); [by napp|simpl in *; lia|].
    exists h2. split; [done|]. split.
    + destruct (unique_from less y xs). by napp.
    + by rewrite <- (assoc_L (++)) in Hf2.
Qed.

Context `{!StrictWeakOrder less}.

(** The result of [list_max] is in the list, nothing exceeds it, and it is
    the first such element. *)
Lemma max_of_spec m xs :
  ∃ ys zs, m :: xs = ys ++ max_of m xs :: zs ∧
    Forall (λ x, less x (max_of m xs) = true) ys ∧
    Forall (λ x, less (max_of m xs) x = false) zs.
Proof.
  induction xs as [|x xs IH] using rev_ind.
  { exists [], []. by repeat constructor. }
  destruct IH as (ys&zs&E&Hy&Hz).
  unfold max_of in *. rewrite foldl_snoc.
  set (M := foldl _ m xs) in *. destruct (less M x) eqn:E'.
  - exists (m :: xs), []. split_and!; [done| |constructor].
    rewrite E. apply Forall_app; split; [|constructor; [done|]].
    + eapply Forall_impl; [done|]. intros z Hz'. simpl in *.
      eapply less_le_trans; [done..|by apply less_le].
    + eapply Forall_impl; [done|]. intros z Hz'. simpl in *.
      destruct (less z x) eqn:E2; [done|].
      by rewrite (swo_ntrans M z x) in E'.
  - exists ys, (zs ++ [x]). split_and!; [|done|].
    + rewrite app_comm_cons, E. by rewrite <- (assoc_L (++)).
    + apply Forall_app; split; [done|]. by repeat constructor.
Qed.

Lemma min_of_spec m xs :
  ∃ ys zs, m :: xs = ys ++ min_of m xs :: zs ∧
    Forall (λ x, less (min_of m xs) x = true) ys ∧
    Forall (λ x, less x (min_of m xs) = false) zs.
Proof.
  induction xs as [|x xs IH] using rev_ind.
  { exists [], []. by repeat constructor. }
  destruct IH as (ys&zs&E&Hy&Hz).
  unfold min_of in *. rewrite foldl_snoc.
  set (M := foldl _ m xs) in *. destruct (less x M) eqn:E'.
  - exists (m :: xs), []. split_and!; [done| |constructor].
    rewrite E. apply Forall_app; split; [|constructor; [done|]].
    + eapply Forall_impl; [done|]. intros z Hz'. simpl in *.
      eapply less_le_trans; [done..|by apply less_le].
    + eapply Forall_impl; [done|]. intros z Hz'. simpl in *.
      by eapply less_le_trans.
  - exists ys, (zs ++ [x]). split_and!; [|done|].
    + rewrite app_comm_cons, E. by rewrite <- (assoc_L (++)).
    + apply Forall_app; split; [done|]. by repeat constructor.
Qed.

End Extrema.

(** ** Derived operations *)

Lemma is_list_push_back h l xs e :
  is_list h l xs → e ∉ cells l xs → e ≠ NULL → is_Some (h !! e) →
  ∃ h', list_push_back l e h = Some h' ∧ is_list h' l (xs ++ [e]) ∧
    frame (e :: cells l xs) h h'.
Proof.
  intros H He He0 HSe. unfold list_push_back.
  rewrite list_end_eval by eauto with heap. cbn [mbind option_bind].
  destruct (is_list_insert h l xs [] (list_tail_of l) e) as (h'&?&?&Hf);
    rewrite ?app_nil_r; try done.
  rewrite app_nil_r in Hf. eauto.
Qed.

Lemma is_list_push_front h l xs e :
  is_list h l xs → e ∉ cells l xs → e ≠ NULL → is_Some (h !! e) →
  ∃ h', list_push_front l e h = Some h' ∧ is_list h' l (e :: xs) ∧
    frame (e :: cells l xs) h h'.
Proof.
  intros H He He0 HSe. unfold list_push_front.
  rewrite (begin_pos h l xs H). cbn [mbind option_bind].
  by apply (is_list_insert h l [] xs); [|apply head_pos|..].
Qed.

Lemma is_list_empty h l xs :
  is_list h l xs → list_empty l h = Some (match xs with [] => true | _ => false end).
Proof.
  intros H. unfold list_empty.
  rewrite (begin_pos h l xs H), list_end_eval by eauto with heap.
  cbn [mbind option_bind]. by rewrite (pos_eqb_tail h l [] xs H).
Qed.

Lemma is_list_pop_front h l x xs :
  is_list h l (x :: xs) →
  ∃ h', list_pop_front l h = Some (x, h') ∧ is_list h' l xs ∧
    frame (cells l xs) h h'.
Proof.
  intros H. unfold list_pop_front, list_front.
  rewrite (is_list_empty h l _ H). cbn [mbind option_bind negb ASSERT].
  assert (get_next l h = Some x) as Hn by by destruct (il_chain _ _ _ H) as [[? _] _].
  unfold list_head_of. rewrite Hn. cbn [mbind option_bind].
  destruct (is_list_remove h l [] x xs H) as (n&h'&Hr&_&?&?).
  rewrite Hr. eauto.
Qed.

Lemma is_list_pop_back h l xs x :
  is_list h l (xs ++ [x]) →
  ∃ h', list_pop_back l h = Some (x, h') ∧ is_list h' l xs ∧
    frame (cells l xs) h h'.
Proof.
  intros H. unfold list_pop_back, list_back.
  rewrite (is_list_empty h l _ H). destruct (xs ++ [x]) eqn:E; [by destruct xs|].
  rewrite <- E in *. cbn [mbind option_bind negb ASSERT].
  assert (get_prev (list_tail_of l) h = Some x) as Hn.
  { pose proof (il_chain _ _ _ H) as Hc. rewrite <- (assoc_L (++)) in Hc. simpl in Hc.
    rewrite app_comm_cons in Hc. by apply chain_app in Hc as [_ [[_ ?] _]]. }
  rewrite Hn. cbn [mbind option_bind].
  destruct (is_list_remove h l xs x [] H) as (n&h'&Hr&_&Hl&Hf).
  rewrite Hr. rewrite app_nil_r in Hl, Hf. eauto.
Qed.

Lemma is_list_init h l :
  l ≠ NULL → list_tail_of l ≠ NULL → is_Some (h !! l) → is_Some (h !! list_tail_of l) →
  ∃ h', list_init l h = Some h' ∧ is_list h' l [] ∧ frame (cells l []) h h'.
Proof.
  intros Hl Ht HSl HSt. unfold list_init, list_head_of.
  rewrite ASSERT_true by (apply negb_true_iff, Z.eqb_neq; done).
  cbn [mbind option_bind].
  assert (l ≠ list_tail_of l) by (unfold list_tail_of; lia).
  heap_run. eexists. split; [done|]. split.
  - split; simpl.
    + apply NoDup_cons. split; [set_solver|]. apply NoDup_singleton.
    + rewrite !not_elem_of_cons. split_and!; [congruence..|apply not_elem_of_nil].
    + split; [split; by heap_run|by repeat split].
    + by heap_run.
    + by heap_run.
  - unfold cells. solve_frame; intros z ->%list_elem_of_singleton; in_list.
Qed.

(** ** Properties *)

(** A list at address 100 with the interior elements 200, 216 and 232, and a
    free element at 248: a heap for the examples below. *)
Definition demo_heap : heap :=
  list_to_map
    [ (100, ListElem 0 200); (200, ListElem 100 216); (216, ListElem 200 232);
      (232, ListElem 216 108); (108, ListElem 232 0); (248, ListElem 0 0) ].

(** Keys of the elements of [demo_heap], out of order. *)
Definition demo_key (e : Z) : Z :=
  if e =? 200 then 7 else if e =? 216 then 3 else if e =? 232 then 3 else 5.

Lemma demo_list : is_list demo_heap 100 [200; 216; 232].
Proof.
  split.
  - apply (bool_decide_unpack _). by vm_compute.
  - apply (bool_decide_unpack _). by vm_compute.
  - repeat split; by vm_compute.
  - by vm_compute.
  - by vm_compute.
Qed.

(** C9: [list_sort] terminates on every well-formed list with none of its
    assertions failing, for any comparison function that is a strict weak
    order, and leaves the list holding the stable insertion sort of its
    elements: the natural merge sort on the links computes the reference
    sort.  No link outside the list changes. *)
Theorem list_sort_correct (less : Z → Z → bool) `{!StrictWeakOrder less} h l xs :
  is_list h l xs →
  ∃ h', list_sort less l h = Some h' ∧ is_list h' l (isort less xs) ∧
    SortOf less xs (isort less xs) ∧ (∀ a, a ∉ cells l xs → h' !! a = h !! a).
Proof.
  intros H. destruct (is_list_sort less h l xs H) as (h'&?&?&[Hf _]).
  exists h'. split_and!; [done|done|by apply isort_SortOf|done].
Qed.

Lemma list_sort_correct_witness :
  ∃ h', list_sort (λ a b, demo_key a <? demo_key b) 100 demo_heap = Some h' ∧
    is_list h' 100 [216; 232; 200].
Proof.
  destruct (list_sort_correct (λ a b, demo_key a <? demo_key b)
    demo_heap 100 [200; 216; 232] demo_list) as (h'&H1&H2&_).
  exists h'. exact (conj H1 H2).
Defined.

(** [list_insert_ordered] puts a new element before the first element it
    is less than (after all its equals), so a sorted list stays sorted. *)
Theorem list_insert_ordered_correct (less : Z → Z → bool)
    `{!StrictWeakOrder less} h l xs e :
  is_list h l xs → e ∉ cells l xs → e ≠ NULL → is_Some (h !! e) →
  ∃ h', list_insert_ordered less l e h = Some h' ∧
    is_list h' l (insert_ordered less e xs) ∧
    (StronglySorted (le_ord less) xs →
     StronglySorted (le_ord less) (insert_ordered less e xs)) ∧
    (∀ a, a ∉ e :: cells l xs → h' !! a = h !! a).
Proof.
  intros H He He0 HSe. unfold list_insert_ordered.
  rewrite !ASSERT_true by (apply negb_true_iff, Z.eqb_neq; eauto with heap).
  rewrite (begin_pos h l xs H), list_end_eval by eauto with heap.
  cbn [mbind option_bind].
  destruct (is_list_insert_ordered_loop less h l [] xs e (walk_fuel h))
    as (ys&zs&->&Hi&Hl); [done|pose proof (is_list_length _ _ _ H); lia|].
  rewrite Hl. cbn [mbind option_bind].
  destruct (is_list_insert h l ys zs (pos l zs) e) as (h'&?&?&[Hf _]);
    [done|apply head_pos|done|done|done|].
  exists h'. rewrite Hi in *. split_and!; [done|done| |done].
  rewrite <- Hi. by apply insert_ordered_sorted.
Qed.

Lemma list_insert_ordered_correct_witness :
  ∃ h', list_insert_ordered (λ a b, demo_key b <? demo_key a) 100 248 demo_heap
          = Some h' ∧ is_list h' 100 [200; 248; 216; 232].
Proof.
  destruct (list_insert_ordered_correct (λ a b, demo_key b <? demo_key a)
    demo_heap 100 [200; 216; 232] 248 demo_list) as (h'&H1&H2&_).
  - apply (bool_decide_unpack _). by vm_compute.
  - done.
  - eexists. by vm_compute.
  - exists h'. exact (conj H1 H2).
Defined.

(** [list_reverse], which exchanges the two links of every element and
    then repairs the headers, reverses any well-formed list in place. *)
Theorem list_reverse_correct h l xs :
  is_list h l xs →
  ∃ h', list_reverse l h = Some h' ∧ is_list h' l (reverse xs) ∧
    (∀ a, a ∉ cells l xs → h' !! a = h !! a).
Proof.
  intros H. destruct (is_list_reverse h l xs H) as (h'&?&?&[? _]). eauto.
Qed.

Lemma list_reverse_correct_witness :
  ∃ h', list_reverse 100 demo_heap = Some h' ∧ is_list h' 100 [232; 216; 200].
Proof.
  destruct (list_reverse_correct demo_heap 100 [200; 216; 232] demo_list)
    as (h'&H1&H2&_).
  exists h'. exact (conj H1 H2).
Defined.

(** [list_splice] moves any segment of a list in front of the segment
    that precedes it, and touches nothing else. *)
Theorem list_splice_correct h l ys as_ mid zs before first q :
  is_list h l (ys ++ as_ ++ mid ++ zs) →
  head as_ = Some before → head mid = Some first →
  head (zs ++ [list_tail_of l]) = Some q →
  ∃ h', list_splice before first q h = Some h' ∧
    is_list h' l (ys ++ mid ++ as_ ++ zs) ∧
    (∀ a, a ∉ cells l (ys ++ as_ ++ mid ++ zs) → h' !! a = h !! a).
Proof.
  intros H H1 H2 H3.
  destruct (is_list_rotate h l ys as_ mid zs before first q H H1 H2 H3)
    as (h'&?&?&[? _]). eauto.
Qed.

Lemma list_splice_correct_witness :
  ∃ h', list_splice 200 216 108 demo_heap = Some h' ∧
    is_list h' 100 [216; 232; 200].
Proof.
  destruct (list_splice_correct demo_heap 100 [] [200] [216; 232] [] 200 216 108
    demo_list eq_refl eq_refl eq_refl) as (h'&H1&H2&_).
  exists h'. exact (conj H1 H2).
Defined.

(** [list_unique] keeps exactly the first element of each group of
    adjacent equivalent elements. *)
Theorem list_unique_correct (less : Z → Z → bool) h l xs :
  is_list h l xs →
  ∃ h', list_unique less l None h = Some h' ∧
    is_list h' l (unique less xs).1 ∧
    (∀ a, a ∉ cells l xs → h' !! a = h !! a).
Proof.
  intros H. unfold list_unique.
  rewrite ASSERT_true by (apply negb_true_iff, Z.eqb_neq; eauto with heap).
  rewrite (is_list_empty h l xs H). cbn [mbind option_bind].
  destruct xs as [|x xs]; [eauto|].
  rewrite (begin_pos h l _ H). cbn [mbind option_bind].
  destruct (is_list_unique_loop less h l [] x xs (walk_fuel h))
    as (h'&?&?&[? _]); [done|pose proof (is_list_length _ _ _ H); simpl in *; lia|].
  exists h'. split_and!; [done| |done]. unfold unique.
  by destruct (unique_from less x xs).
Qed.

Lemma list_unique_correct_witness :
  ∃ h', list_unique (λ a b, demo_key a <? demo_key b) 100 None demo_heap = Some h' ∧
    is_list h' 100 [200; 216].
Proof.
  destruct (list_unique_correct (λ a b, demo_key a <? demo_key b)
    demo_heap 100 [200; 216; 232] demo_list) as (h'&H1&H2&_).
  exists h'. exact (conj H1 H2).
Defined.

(** [list_max] returns the earliest of the largest elements, and the
    tail of an empty list. *)
Theorem list_max_correct (less : Z → Z → bool) `{!StrictWeakOrder less} h l xs :
  is_list h l xs →
  match xs with
  | [] => list_max less l h = Some (list_tail_of l)
  | _ => ∃ ys m zs, xs = ys ++ m :: zs ∧ list_max less l h = Some m ∧
      Forall (λ x, less x m = true) ys ∧ Forall (λ x, less m x = false) zs
  end.
Proof.
  intros H. unfold list_max.
  rewrite (begin_pos h l xs H), list_end_eval by eauto with heap.
  cbn [mbind option_bind]. rewrite (pos_eqb_tail h l [] xs H).
  destruct xs as [|x xs]; [done|]. cbn [pos].
  rewrite (next_pos h l [] x xs H). cbn [mbind option_bind].
  rewrite (is_list_max_loop less h l [x] xs x (walk_fuel h));
    [|done|pose proof (is_list_length _ _ _ H); simpl in *; lia].
  destruct (max_of_spec less x xs) as (ys&zs&?&?&?).
  eauto 10.
Qed.

Lemma list_max_correct_witness :
  ∃ ys m zs, [200; 216; 232] = ys ++ m :: zs ∧
    list_max (λ a b, demo_key b <? demo_key a) 100 demo_heap = Some m ∧
    Forall (λ x, (demo_key m <? demo_key x) = true) ys ∧
    Forall (λ x, (demo_key x <? demo_key m) = false) zs.
Proof.
  exact (list_max_correct (λ a b, demo_key b <? demo_key a)
    demo_heap 100 [200; 216; 232] demo_list).
Defined.
