(* ===== verification/FixedPoint.v ===== *)
(** * 17.14 fixed-point arithmetic ([threads/fixed-point.h])

    The macros are exact integer expressions; [/] is C's division, which
    truncates towards zero.  An [int] keeps 32 bits ([int32]), applied where
    the code stores a result in an [int]. *)

From S2P Require Import Prelude.

Open Scope Z_scope.

(** Conversion to [int]. *)
Definition int32 (x : Z) : Z := (x + 2 ^ 31) mod 2 ^ 32 - 2 ^ 31.

Definition FP_F : Z := Z.shiftl 1 14.
Definition FP_FROM_INT (n : Z) : Z := n * FP_F.
Definition FP_TO_INT_ZERO (x : Z) : Z := Z.quot x FP_F.
Definition FP_TO_INT_NEAR (x : Z) : Z :=
  if 0 <=? x then Z.quot (x + Z.quot FP_F 2) FP_F
  else Z.quot (x - Z.quot FP_F 2) FP_F.
Definition FP_ADD (x y : Z) : Z := x + y.
Definition FP_SUB (x y : Z) : Z := x - y.
Definition FP_ADD_INT (x n : Z) : Z := x + n * FP_F.
Definition FP_SUB_INT (x n : Z) : Z := x - n * FP_F.
Definition FP_MUL (x y : Z) : Z := Z.quot (x * y) FP_F.
Definition FP_DIV (x y : Z) : Z := Z.quot (x * FP_F) y.
Definition FP_MUL_INT (x n : Z) : Z := x * n.
Definition FP_DIV_INT (x n : Z) : Z := Z.quot x n.

Lemma int32_small x : - 2 ^ 31 ≤ x < 2 ^ 31 → int32 x = x.
Proof. intros. unfold int32. rewrite Z.mod_small; lia. Qed.

Lemma int32_range x : - 2 ^ 31 ≤ int32 x < 2 ^ 31.
Proof.
  unfold int32. pose proof (Z.mod_pos_bound (x + 2 ^ 31) (2 ^ 32)). lia.
Qed.

Lemma FP_F_eq : FP_F = 16384.
Proof. done. Qed.

(** Rounding to the nearest integer is within one half. *)
Lemma FP_TO_INT_NEAR_bound x :
  Z.abs (FP_TO_INT_NEAR x * FP_F - x) ≤ FP_F / 2.
Proof.
  unfold FP_TO_INT_NEAR. rewrite FP_F_eq. change (Z.quot 16384 2) with 8192.
  change (16384 / 2) with 8192.
  destruct (Z.leb_spec 0 x).
  - pose proof (Z.quot_rem' (x + 8192) 16384).
    pose proof (Z.rem_bound_pos (x + 8192) 16384). lia.
  - pose proof (Z.quot_rem' (x - 8192) 16384).
    pose proof (Z.rem_nonpos (x - 8192) 16384).
    pose proof (Z.rem_bound_abs (x - 8192) 16384). lia.
Qed.

(** Rounding to the nearest integer inverts the conversion. *)
Lemma FP_TO_INT_NEAR_FROM_INT n : FP_TO_INT_NEAR (FP_FROM_INT n) = n.
Proof.
  pose proof (FP_TO_INT_NEAR_bound (FP_FROM_INT n)) as H.
  unfold FP_FROM_INT in *. rewrite FP_F_eq in *.
  change (16384 / 2) with 8192 in H. lia.
Qed.
