(* ===== verification/Kernel.v ===== *)
(** * The state of the thread system

    One record holds the globals of [threads/thread.c], [threads/synch.c],
    [threads/interrupt.c] and [devices/timer.c] in the kernel without user
    programs ([threads/Make.vars]: no [USERPROG]).  Threads, semaphores, locks
    and condition variables are objects at addresses; the lists that link them
    are sequences of addresses ([ListRefine] justifies this: the list code
    computes these sequences while no element is on two lists at once, which
    the invariants of [Sched] and [SchedDonors] show).

    Control flow: in place of its machine stack, a thread has a list of
    [frame]s, the pieces of code it still has to run.  A function that can
    switch threads pushes a frame for what follows the switch and then calls
    [schedule].  A frame that touches shared data more than once while
    interrupts may be on is also there as a list of [op]s, its single
    statements; a thread that is in the middle of such a frame has a [Piece]. *)

From stdpp Require Export strings.
From S2P Require Import Prelude OrdList.

Open Scope Z_scope.

#[local] Set Warnings "-register-all".

(** [enum thread_status]. *)
Inductive thread_status :=
  THREAD_RUNNING | THREAD_READY | THREAD_BLOCKED | THREAD_DYING.

(** [enum intr_level]. *)
Inductive intr_level := INTR_OFF | INTR_ON.

#[export] Instance thread_status_eq_dec : EqDecision thread_status.
Proof. solve_decision. Defined.
#[export] Instance intr_level_eq_dec : EqDecision intr_level.
Proof. solve_decision. Defined.

(** What a thread still has to run.  The first group are calls of the
    kernel's interface, the second the continuations after a point where the
    thread may have been switched out or interrupted; [Client] stands for
    any code that uses the interface ([Sched.step]). *)
Inductive frame :=
  | Sema_init (s value : Z)
  | Sema_down (s : Z)
  | Sema_try_down (s : Z)
  | Sema_up (s : Z)
  | Lock_init (l : Z)
  | Lock_acquire (l : Z)
  | Lock_try_acquire (l : Z)
  | Lock_release (l : Z)
  | Cond_init (c : Z)
  | Cond_wait (c l waiter : Z)      (* [waiter]: the local semaphore_elem *)
  | Cond_signal (c l : Z)
  | Cond_broadcast (c l : Z)
  | Thread_start (idle_started page : Z)
  | Thread_yield
  | Thread_set_priority (new_priority : Z)
  | Thread_set_nice (nice : Z)
  | Timer_sleep (ticks : Z)
  | Thread_create (name : string) (priority page : Z) (function : list frame)
                                    (* [page]: what palloc_get_page returned *)
  | Thread_exit
  | SemaDownLoop (s : Z) (old_level : intr_level)  (* head of sema_down's loop *)
  | SemaUpTail                      (* sema_up after intr_set_level *)
  | LockAcquireTail (l : Z)         (* lock_acquire after sema_down *)
  | AllocateTid                     (* allocate_tid between acquire and release *)
  | InitTail                        (* thread_init after allocate_tid *)
  | CreateTail (page priority : Z) (function : list frame)
                                    (* thread_create after allocate_tid *)
  | StartTail (idle_started : Z)    (* thread_start after thread_create *)
  | IntrSetLevel (old_level : intr_level)
  | IntrReturn                      (* iret from an external interrupt *)
  | KernelThread                    (* kernel_thread before calling function *)
  | IdleInit (idle_started : Z)     (* idle up to its loop *)
  | IdleLoop                        (* idle's loop, up to thread_block *)
  | IdleHlt                         (* the rest of the loop's body *)
  | Client
  | Piece (os : list op)            (* the rest of a frame run in single steps *)

(** The statements of the frames that touch shared data more than once with
    interrupts on, in the order of the code ([SchedFine.step_op]). *)
with op :=
  | AcquireCheck (l : Z)            (* lock_acquire: the assertions *)
  | AcquireTest (l : Z)             (* !thread_mlfqs && lock->holder != NULL *)
  | AcquireWait (l : Z)             (* cur->waiting_lock = lock *)
  | AcquirePush (l : Z)             (* list_push_back (&lock->holder->donations, ..) *)
  | DonateWhile (depth : nat) (t : Z)     (* t->waiting_lock != NULL && depth < 8 *)
  | DonateHolder (depth : nat) (t : Z)    (* holder = t->waiting_lock->holder *)
  | DonateCompare (depth : nat) (t holder : Z)  (* holder->priority >= t->priority *)
  | DonateSet (t holder : Z)        (* holder->priority = t->priority *)
  | DonateReady (holder : Z)        (* holder->status == THREAD_READY *)
  | DonateRemove (holder : Z)       (* list_remove (&holder->elem) *)
  | DonateInsert (holder : Z)       (* list_insert_ordered (&ready_list, ..) *)
  | TailWaiting                     (* cur->waiting_lock = NULL *)
  | TailHolder (l : Z)              (* lock->holder = cur *)
  | TryCheck (l : Z)                (* lock_try_acquire: the assertions *)
  | TryDown (l : Z)                 (* sema_try_down (&lock->semaphore) *)
  | TryHolder (l : Z)               (* lock->holder = thread_current () *)
  | ReleaseHolder (l : Z)           (* lock_release: up to lock->holder = NULL *)
  | ReleaseDonations (l : Z)        (* remove_donations_for_lock *)
  | ReleasePriority                 (* update_priority_after_release *)
  | SignalTest (c l : Z)            (* cond_signal: up to !list_empty *)
  | SignalSort (c : Z)              (* list_sort (&cond->waiters, ..) *)
  | SignalPop (c : Z)               (* list_pop_front (&cond->waiters) *)
  | UpTail                          (* sema_up: !intr_context () *)
  | SetBase (new_priority : Z)      (* cur->base_priority = new_priority *)
  | SetEffective                    (* cur->priority = .. *)
  | SetNice (nice : Z)              (* thread_set_nice with interrupts off *)
  | CreateSetup (t : Z) (function : list frame)  (* thread_create: the frames *)
  | CreateUnblock (t : Z)           (* thread_unblock (t) *)
  | CreateTest (priority : Z)       (* thread_get_priority () < priority *)
  | YieldTest                       (* front->priority > cur->priority *)
  | Yield                           (* thread_yield () *)
  | SleepStart (ticks : Z)          (* timer_sleep: start = timer_ticks () *)
  | SleepUntil (wake_tick : Z).     (* thread_sleep (start + ticks) *)

(** [struct thread]. *)
Record thread := Thread {
  tid : Z;
  status : thread_status;
  name : string;
  stack : Z;
  priority : Z;
  exit_status : Z;
  parent_tid : Z;
  children : list Z;
  fd_table : list Z;
  next_fd : Z;
  exec_file : Z;
  wake_tick : Z;
  base_priority : Z;
  donations : list Z;               (* the donors, by thread *)
  waiting_lock : Z;
  nice : Z;
  recent_cpu : Z;
  magic : Z;
  result : Z;                       (* what the last call returned *)
  code : list frame;                (* in place of the stack's contents *)
}.

#[export] Instance thread_ctor : Ctor thread := λ t,
  Thread (tid t) (status t) (name t) (stack t) (priority t) (exit_status t)
    (parent_tid t) (children t) (fd_table t) (next_fd t) (exec_file t)
    (wake_tick t) (base_priority t) (donations t) (waiting_lock t) (nice t)
    (recent_cpu t) (magic t) (result t) (code t).

(** [struct semaphore], [struct lock]; a lock at [l] has its semaphore at
    [lock_sema l], the offset of the member. *)
Record semaphore := Semaphore { value : Z; waiters : list Z }.
#[export] Instance semaphore_ctor : Ctor semaphore := λ s,
  Semaphore (value s) (waiters s).
Record lock := Lock { holder : Z }.
Definition lock_sema (l : Z) : Z := l + 4.

(** The globals. *)
Record kernel := Kernel {
  threads : gmap Z thread;
  current : Z;                      (* running_thread () *)
  ready_list : list Z;
  all_list : list Z;
  sleep_list : list Z;
  load_avg : Z;
  idle_thread : Z;
  initial_thread : Z;
  tid_lock : Z;
  next_tid : Z;
  idle_ticks : Z;
  kernel_ticks : Z;
  thread_ticks : Z;
  thread_mlfqs : bool;
  interrupts : intr_level;
  in_external_intr : bool;
  yield_on_return : bool;
  ticks : Z;
  semas : gmap Z semaphore;
  locks : gmap Z lock;
  conds : gmap Z (list Z);          (* waiters: semaphore_elem addresses *)
}.

#[export] Instance kernel_ctor : Ctor kernel := λ k,
  Kernel (threads k) (current k) (ready_list k) (all_list k) (sleep_list k)
    (load_avg k) (idle_thread k) (initial_thread k) (tid_lock k) (next_tid k)
    (idle_ticks k) (kernel_ticks k) (thread_ticks k) (thread_mlfqs k)
    (interrupts k) (in_external_intr k) (yield_on_return k) (ticks k)
    (semas k) (locks k) (conds k).

(** Update the thread at [t]; a wild pointer is a panic. *)
Definition on_thread (t : Z) (f : thread → thread) (k : kernel) : option kernel :=
  th ← threads k !! t;
  Some (k <| threads ::= insert t (f th) |>).

(** Push frames on what the thread at [t] has to run. *)
Definition push_frames (t : Z) (fs : list frame) : kernel → option kernel :=
  on_thread t (λ th, th <| code ::= λ c, fs ++ c |>).

(** ** Interrupts ([threads/interrupt.c]) *)

Definition intr_context (k : kernel) : bool := in_external_intr k.

Definition intr_get_level (k : kernel) : intr_level := interrupts k.

Definition intr_enable (k : kernel) : option kernel :=
  assert! negb (intr_context k);
  Some (k <| interrupts := INTR_ON |>).

Definition intr_disable (k : kernel) : kernel := k <| interrupts := INTR_OFF |>.

Definition intr_set_level (level : intr_level) (k : kernel) : option kernel :=
  match level with
  | INTR_ON => intr_enable k
  | INTR_OFF => Some (intr_disable k)
  end.

Definition intr_yield_on_return (k : kernel) : option kernel :=
  assert! intr_context k;
  Some (k <| yield_on_return := true |>).

Definition intr_off (k : kernel) : bool := bool_decide (intr_get_level k = INTR_OFF).
