(* ===== verification/Thread.v ===== *)
(** * Threads and the scheduler ([threads/thread.c], [devices/timer.c])

    Every function of [thread.c] that the kernel without user programs runs,
    as a function on the state of [Kernel].  [None] is a kernel panic: a failed
    [ASSERT] or a wild pointer. *)

From S2P Require Import Prelude OrdList FixedPoint Kernel.

Open Scope Z_scope.

Definition THREAD_MAGIC : Z := 0xcd6abf4b.
Definition TID_ERROR : Z := -1.
Definition PRI_MIN : Z := 0.
Definition PRI_DEFAULT : Z := 31.
Definition PRI_MAX : Z := 63.
Definition TIME_SLICE : Z := 4.
Definition TIMER_FREQ : Z := 100.
Definition PGSIZE : Z := 4096.

Definition is_thread (t : Z) (k : kernel) : bool :=
  negb (t =? NULL) &&
  match threads k !! t with
  | Some th => magic th =? THREAD_MAGIC
  | None => false
  end.

Definition running_thread (k : kernel) : Z := current k.

Definition thread_current (k : kernel) : option Z :=
  let t := running_thread k in
  assert! is_thread t k;
  th ← threads k !! t;
  assert! bool_decide (status th = THREAD_RUNNING);
  Some t.

(** The key of [thread_priority_greater], and that of
    [thread_wake_tick_less]. *)
Definition prio_of (k : kernel) (t : Z) : Z :=
  match threads k !! t with Some th => priority th | None => 0 end.
Definition wake_of (k : kernel) (t : Z) : Z :=
  match threads k !! t with Some th => wake_tick th | None => 0 end.

Definition thread_priority_greater (k : kernel) (a b : Z) : bool :=
  prio_of k b <? prio_of k a.
Definition thread_wake_tick_less (k : kernel) (a b : Z) : bool :=
  wake_of k a <? wake_of k b.

(** ** Switching *)

Definition next_thread_to_run (k : kernel) : Z * kernel :=
  match ready_list k with
  | [] => (idle_thread k, k)
  | t :: rest => (t, k <| ready_list := rest |>)
  end.

(** [prev] is [NULL] when no switch took place.  [palloc_free_page (prev)]
    drops the page that held the thread. *)
Definition thread_schedule_tail (prev : Z) (k : kernel) : option kernel :=
  let cur := running_thread k in
  assert! intr_off k;
  k ← on_thread cur (λ th, th <| status := THREAD_RUNNING |>) k;
  let k := k <| thread_ticks := 0 |> in
  if negb (prev =? NULL) then
    p ← threads k !! prev;
    if bool_decide (status p = THREAD_DYING) && negb (prev =? initial_thread k)
    then
      assert! negb (prev =? cur);
      Some (k <| threads ::= delete prev |>)
    else Some k
  else Some k.

Definition schedule (k : kernel) : option kernel :=
  let cur := running_thread k in
  let '(next, k) := next_thread_to_run k in
  assert! intr_off k;
  c ← threads k !! cur;
  assert! negb (bool_decide (status c = THREAD_RUNNING));
  assert! is_thread next k;
  if negb (cur =? next) then
    (* prev = switch_threads (cur, next) *)
    thread_schedule_tail cur (k <| current := next |>)
  else thread_schedule_tail NULL k.

Definition thread_block (k : kernel) : option kernel :=
  assert! negb (intr_context k);
  assert! intr_off k;
  cur ← thread_current k;
  k ← on_thread cur (λ th, th <| status := THREAD_BLOCKED |>) k;
  schedule k.

Definition thread_unblock (t : Z) (k : kernel) : option kernel :=
  assert! is_thread t k;
  let old_level := intr_get_level k in
  let k := intr_disable k in
  th ← threads k !! t;
  assert! bool_decide (status th = THREAD_BLOCKED);
  let k := k <| ready_list ::= insert_ordered (thread_priority_greater k) t |> in
  k ← on_thread t (λ th, th <| status := THREAD_READY |>) k;
  intr_set_level old_level k.

(** After the switch back, [intr_set_level (old_level)]. *)
Definition thread_yield (k : kernel) : option kernel :=
  cur ← thread_current k;
  assert! negb (intr_context k);
  let old_level := intr_get_level k in
  let k := intr_disable k in
  let k := if negb (cur =? idle_thread k)
           then k <| ready_list ::= insert_ordered (thread_priority_greater k) cur |>
           else k in
  k ← on_thread cur (λ th, th <| status := THREAD_READY |>) k;
  k ← push_frames cur [IntrSetLevel old_level] k;
  schedule k.

(** Yield if the first ready thread has a higher priority than [cur]. *)
Definition yield_to_front (cur : Z) (k : kernel) : option kernel :=
  match ready_list k with
  | [] => Some k
  | front :: _ =>
      if prio_of k cur <? prio_of k front then thread_yield k else Some k
  end.

Definition thread_exit (k : kernel) : option kernel :=
  assert! negb (intr_context k);
  let k := intr_disable k in
  cur ← thread_current k;
  let k := k <| all_list ::= filter (λ t, t ≠ cur) |> in
  k ← on_thread cur (λ th, th <| status := THREAD_DYING |>) k;
  schedule k.

(** ** Creation *)

(** [memset] to zero, then the assignments; [children] and [donations] are
    initialised lists. *)
Definition init_thread (t : Z) (name : string) (priority : Z) (k : kernel)
    : option kernel :=
  assert! negb (t =? NULL);
  assert! (PRI_MIN <=? priority) && (priority <=? PRI_MAX);
  let old_level := intr_get_level k in
  let th :=
    {| tid := 0; status := THREAD_BLOCKED; name := String.substring 0 15 name;
       stack := t + PGSIZE; priority := priority; exit_status := -1;
       parent_tid := TID_ERROR; children := []; fd_table := replicate 128 NULL;
       next_fd := 2; exec_file := NULL; wake_tick := 0;
       base_priority := priority; donations := []; waiting_lock := NULL;
       nice := 0; recent_cpu := FP_FROM_INT 0; magic := THREAD_MAGIC;
       result := 0; code := [] |} in
  let k := k <| threads ::= insert t th |> in
  let k := intr_disable k in
  let k := k <| all_list ::= λ l, l ++ [t] |> in
  intr_set_level old_level k.

Definition alloc_frame (t size : Z) (k : kernel) : option kernel :=
  assert! is_thread t k;
  assert! size mod 4 =? 0;
  on_thread t (λ th, th <| stack ::= λ s, s - size |>) k.

(** [allocate_tid] acquires and releases [tid_lock], which may switch
    threads; its body is the frame [AllocateTid]. *)
Definition call_allocate_tid (k : kernel) : list frame :=
  [Lock_acquire (tid_lock k); AllocateTid; Lock_release (tid_lock k)].

(** [tid = next_tid++] under [tid_lock]. *)
Definition allocate_tid (k : kernel) : option kernel :=
  cur ← thread_current k;
  let tid := next_tid k in
  let k := k <| next_tid ::= Z.succ |> in
  on_thread cur (λ th, th <| result := tid |>) k.

(** A page that palloc hands out holds no thread. *)
Definition thread_create (name : string) (priority page : Z)
    (function : list frame) (k : kernel) : option kernel :=
  cur ← thread_current k;
  if page =? NULL then on_thread cur (λ th, th <| result := TID_ERROR |>) k
  else
    assert! bool_decide (threads k !! page = None);
    k ← init_thread page name priority k;
    push_frames cur (call_allocate_tid k ++ [CreateTail page priority function]) k.

(** From the return of [allocate_tid] on.  The sizes are those of
    [struct kernel_thread_frame], [struct switch_entry_frame] and
    [struct switch_threads_frame]; the frames make the new thread start in
    [kernel_thread], which calls [function] and then [thread_exit]. *)
Definition thread_create_tail (t priority_ : Z) (function : list frame)
    (k : kernel) : option kernel :=
  cur ← thread_current k;
  c ← threads k !! cur;
  k ← on_thread t (λ th, th <| tid := result c |>) k;
  k ← alloc_frame t 12 k;
  k ← alloc_frame t 4 k;
  k ← alloc_frame t 28 k;
  k ← on_thread t (λ th, th <| code := KernelThread :: function ++ [Thread_exit] |>) k;
  k ← thread_unblock t k;
  if prio_of k cur <? priority_ then thread_yield k else Some k.

(** ** Sleeping *)

Definition thread_sleep (wake_tick_ : Z) (k : kernel) : option kernel :=
  cur ← thread_current k;
  assert! negb (intr_context k);
  let old_level := intr_get_level k in
  let k := intr_disable k in
  k ← on_thread cur (λ th, th <| wake_tick := wake_tick_ |>) k;
  let k := k <| sleep_list ::= insert_ordered (thread_wake_tick_less k) cur |> in
  k ← push_frames cur [IntrSetLevel old_level] k;
  thread_block k.

(** The loop over the sleepers still to be examined. *)
Fixpoint thread_wake_loop (sleepers : list Z) (current_tick : Z) (k : kernel)
    : option kernel :=
  match sleepers with
  | [] => Some k
  | t :: rest =>
      th ← threads k !! t;
      if current_tick <? wake_tick th then Some k
      else
        k ← thread_unblock t (k <| sleep_list := rest |>);
        thread_wake_loop rest current_tick k
  end.

Definition thread_wake (current_tick : Z) (k : kernel) : option kernel :=
  thread_wake_loop (sleep_list k) current_tick k.

(** ** Priorities *)

Definition thread_get_effective_priority (t : Z) (k : kernel) : option Z :=
  th ← threads k !! t;
  Some (foldl (λ max d, if max <? prio_of k d then prio_of k d else max)
          (base_priority th) (donations th)).

Definition thread_get_priority (k : kernel) : option Z :=
  cur ← thread_current k; Some (prio_of k cur).

Definition thread_set_priority (new_priority : Z) (k : kernel) : option kernel :=
  if thread_mlfqs k then Some k
  else
    cur ← thread_current k;
    k ← on_thread cur (λ th, th <| base_priority := new_priority |>) k;
    p ← thread_get_effective_priority cur k;
    k ← on_thread cur (λ th, th <| priority := p |>) k;
    yield_to_front cur k.

(** ** The multi-level feedback queue scheduler *)

Definition mlfqs_priority (recent_cpu nice : Z) : Z :=
  let p := int32 (PRI_MAX - FP_TO_INT_NEAR (FP_DIV_INT recent_cpu 4) - nice * 2) in
  let p := if p <? PRI_MIN then PRI_MIN else p in
  if PRI_MAX <? p then PRI_MAX else p.

Definition mlfqs_calc_priority (t : Z) (k : kernel) : option kernel :=
  if t =? idle_thread k then Some k
  else on_thread t (λ th, th <| priority := mlfqs_priority (recent_cpu th) (nice th) |>) k.

(** [twice_load], [coeff] and [recent_cpu] are [int]s; the products and
    quotients of [FP_MUL] and [FP_DIV] are 64-bit. *)
Definition mlfqs_recent_cpu (load_avg recent_cpu nice : Z) : Z :=
  let twice_load := int32 (FP_MUL_INT load_avg 2) in
  let coeff := int32 (FP_DIV twice_load (int32 (FP_ADD_INT twice_load 1))) in
  int32 (FP_ADD_INT (FP_MUL coeff recent_cpu) nice).

Definition mlfqs_calc_recent_cpu (t : Z) (k : kernel) : option kernel :=
  if t =? idle_thread k then Some k
  else on_thread t (λ th, th <| recent_cpu :=
         mlfqs_recent_cpu (load_avg k) (recent_cpu th) (nice th) |>) k.

Definition mlfqs_load_avg (load_avg ready_threads : Z) : Z :=
  let l := int32
    (FP_ADD (FP_MUL (FP_DIV (FP_FROM_INT 59) (FP_FROM_INT 60)) load_avg)
            (FP_MUL_INT (FP_DIV (FP_FROM_INT 1) (FP_FROM_INT 60)) ready_threads)) in
  if l <? 0 then 0 else l.

Definition thread_foreach (func : Z → kernel → option kernel) (k : kernel)
    : option kernel :=
  assert! intr_off k;
  foldl (λ acc t, k ← acc; func t k) (Some k) (all_list k).

Definition mlfqs_update_load_avg_and_recent_cpu (k : kernel) : option kernel :=
  cur ← thread_current k;
  let ready_threads := Z.of_nat (length (ready_list k)) in
  let ready_threads :=
    if negb (cur =? idle_thread k) then ready_threads + 1 else ready_threads in
  let k := k <| load_avg ::= λ l, mlfqs_load_avg l ready_threads |> in
  thread_foreach mlfqs_calc_recent_cpu k.

Definition mlfqs_update_all_priorities (k : kernel) : option kernel :=
  k ← thread_foreach mlfqs_calc_priority k;
  Some (k <| ready_list ::= isort (thread_priority_greater k) |>).

Definition thread_set_nice (nice_ : Z) (k : kernel) : option kernel :=
  cur ← thread_current k;
  let old_level := intr_get_level k in
  let k := intr_disable k in
  k ← on_thread cur (λ th, th <| nice := nice_ |>) k;
  k ← mlfqs_calc_priority cur k;
  match ready_list k with
  | front :: _ =>
      if prio_of k cur <? prio_of k front then
        k ← intr_set_level old_level k; thread_yield k
      else intr_set_level old_level k
  | [] => intr_set_level old_level k
  end.

Definition thread_get_nice (k : kernel) : option Z :=
  cur ← thread_current k; th ← threads k !! cur; Some (nice th).

Definition thread_get_load_avg (k : kernel) : Z :=
  FP_TO_INT_NEAR (int32 (FP_MUL_INT (load_avg k) 100)).

Definition thread_get_recent_cpu (k : kernel) : option Z :=
  cur ← thread_current k; th ← threads k !! cur;
  Some (FP_TO_INT_NEAR (int32 (FP_MUL_INT (recent_cpu th) 100))).

(** ** The timer interrupt *)

(** Without user programs [user_ticks] stays 0. *)
Definition thread_tick (k : kernel) : option kernel :=
  t ← thread_current k;
  let k := if t =? idle_thread k then k <| idle_ticks ::= Z.succ |>
           else k <| kernel_ticks ::= Z.succ |> in
  k ← (if thread_mlfqs k && negb (t =? idle_thread k)
       then on_thread t (λ th, th <| recent_cpu ::= λ r, int32 (FP_ADD_INT r 1) |>) k
       else Some k);
  let current_ticks := idle_ticks k + kernel_ticks k in
  k ← (if thread_mlfqs k && (Z.rem current_ticks TIMER_FREQ =? 0) then
         k ← mlfqs_update_load_avg_and_recent_cpu k;
         mlfqs_update_all_priorities k
       else if thread_mlfqs k && (Z.rem current_ticks TIME_SLICE =? 0) then
         mlfqs_update_all_priorities k
       else Some k);
  let k := k <| thread_ticks ::= Z.succ |> in
  if TIME_SLICE <=? thread_ticks k then intr_yield_on_return k else Some k.

Definition timer_ticks (k : kernel) : Z := ticks k.

Definition timer_sleep (ticks_ : Z) (k : kernel) : option kernel :=
  let start := timer_ticks k in
  assert! bool_decide (intr_get_level k = INTR_ON);
  if ticks_ <=? 0 then Some k
  else thread_sleep (start + ticks_) k.

Definition timer_interrupt (k : kernel) : option kernel :=
  let k := k <| ticks ::= Z.succ |> in
  k ← thread_tick k;
  thread_wake (ticks k) k.

(** [intr_handler] for the timer's vector: the processor has turned
    interrupts off; the final [iret] turns them on again. *)
Definition intr_handler (k : kernel) : option kernel :=
  let k := intr_disable k in
  assert! intr_off k;
  assert! negb (intr_context k);
  let k := k <| in_external_intr := true |> <| yield_on_return := false |> in
  k ← timer_interrupt k;
  assert! intr_off k;
  assert! intr_context k;
  let k := k <| in_external_intr := false |> in
  k ← push_frames (current k) [IntrReturn] k;
  if yield_on_return k then thread_yield k else Some k.
