(* ===== verification/Mlfqs.v ===== *)
(** * The arithmetic of the feedback scheduler

    The fixed-point computations of [thread.c] stay within [int], approximate
    the formulas of the 4.4BSD scheduler from below, and order threads as the
    formulas do. *)

From S2P Require Import Prelude FixedPoint Kernel Thread.

Open Scope Z_scope.

Lemma quot_mono a b c : 0 < c → a <= b → Z.quot a c <= Z.quot b c.
Proof. intros. apply Z.quot_le_mono; lia. Qed.

(** While at most [N] threads are ready, [load_avg] stays between 0 and
    [N] (as a fixed-point number), the update does not overflow an [int], and
    it is less than the exact [59/60 * load_avg + 1/60 * ready_threads] by at
    most [N + 1] units of the last place. *)
Theorem mlfqs_load_avg_bound load_avg ready_threads N :
  0 <= load_avg <= FP_FROM_INT N → 0 <= ready_threads <= N → N <= 131071 →
  let l := mlfqs_load_avg load_avg ready_threads in
  0 <= l <= FP_FROM_INT N ∧
  60 * l <= 59 * load_avg + FP_FROM_INT ready_threads <= 60 * (l + N + 1).
Proof.
  unfold mlfqs_load_avg, FP_FROM_INT, FP_ADD, FP_MUL, FP_MUL_INT. rewrite FP_F_eq.
  intros Hl Hr HN.
  change (FP_DIV (59 * 16384) (60 * 16384)) with 16110.
  change (FP_DIV (1 * 16384) (60 * 16384)) with 273.
  pose proof (Z.quot_rem' (16110 * load_avg) 16384).
  pose proof (Z.rem_bound_pos (16110 * load_avg) 16384 ltac:(lia) ltac:(lia)).
  set (q := Z.quot (16110 * load_avg) 16384) in *. clearbody q.
  rewrite int32_small by lia. destruct (Z.ltb_spec (q + 273 * ready_threads) 0); lia.
Qed.

Lemma mlfqs_load_avg_bound_witness :
  0 <= mlfqs_load_avg 16384 2 <= FP_FROM_INT 3.
Proof. apply (mlfqs_load_avg_bound 16384 2 3); unfold FP_FROM_INT; rewrite ?FP_F_eq; lia. Defined.

Lemma mlfqs_priority_eq recent_cpu nice :
  - 2 ^ 31 <= recent_cpu < 2 ^ 31 → -20 <= nice <= 20 →
  mlfqs_priority recent_cpu nice =
    Z.max PRI_MIN (Z.min PRI_MAX
      (PRI_MAX - FP_TO_INT_NEAR (Z.quot recent_cpu 4) - nice * 2)).
Proof.
  intros Hr Hn. unfold mlfqs_priority, FP_DIV_INT, PRI_MIN, PRI_MAX.
  pose proof (FP_TO_INT_NEAR_bound (Z.quot recent_cpu 4)) as Hb. rewrite FP_F_eq in Hb.
  change (16384 / 2) with 8192 in Hb.
  pose proof (Z.quot_rem' recent_cpu 4). pose proof (Z.rem_bound_abs recent_cpu 4).
  rewrite int32_small by lia.
  set (p := 63 - _ - _). destruct (Z.ltb_spec p 0); [|destruct (Z.ltb_spec 63 p)]; simpl; lia.
Qed.

Lemma FP_TO_INT_NEAR_mono x y : x <= y → FP_TO_INT_NEAR x <= FP_TO_INT_NEAR y.
Proof.
  intros H. unfold FP_TO_INT_NEAR. rewrite FP_F_eq. change (Z.quot 16384 2) with 8192.
  destruct (Z.leb_spec 0 x), (Z.leb_spec 0 y); try lia; try (apply quot_mono; lia).
Qed.

(** The priority that the feedback scheduler assigns is a valid one, and
    a thread that has used more of the processor or is nicer never gets a higher
    priority. *)
Theorem mlfqs_priority_monotone recent_cpu recent_cpu' nice nice' :
  - 2 ^ 31 <= recent_cpu → recent_cpu <= recent_cpu' → recent_cpu' < 2 ^ 31 →
  -20 <= nice → nice <= nice' → nice' <= 20 →
  PRI_MIN <= mlfqs_priority recent_cpu' nice' ∧
  mlfqs_priority recent_cpu' nice' <= mlfqs_priority recent_cpu nice ∧
  mlfqs_priority recent_cpu nice <= PRI_MAX.
Proof.
  intros. rewrite !mlfqs_priority_eq by lia.
  pose proof (FP_TO_INT_NEAR_mono _ _ (quot_mono recent_cpu recent_cpu' 4 ltac:(lia) ltac:(lia))).
  unfold PRI_MIN, PRI_MAX. lia.
Qed.

Lemma mlfqs_priority_monotone_witness :
  mlfqs_priority (FP_FROM_INT 40) 5 <= mlfqs_priority (FP_FROM_INT 8) 0.
Proof.
  apply (mlfqs_priority_monotone (FP_FROM_INT 8) (FP_FROM_INT 40) 0 5);
    unfold FP_FROM_INT; rewrite ?FP_F_eq; lia.
Defined.

(** With a non-negative load the update of [recent_cpu] does not
    overflow and decays: a thread's [recent_cpu] grows by at most its [nice]
    value and stays non-negative when [nice] is. *)
Theorem mlfqs_recent_cpu_decays load_avg recent_cpu nice :
  0 <= load_avg <= FP_FROM_INT 65535 → 0 <= recent_cpu → 0 <= nice <= 20 →
  recent_cpu + FP_FROM_INT nice < 2 ^ 31 →
  FP_FROM_INT nice <= mlfqs_recent_cpu load_avg recent_cpu nice <= recent_cpu + FP_FROM_INT nice.
Proof.
  unfold mlfqs_recent_cpu, FP_FROM_INT, FP_MUL_INT, FP_ADD_INT, FP_MUL, FP_DIV.
  rewrite FP_F_eq. intros Hl Hr Hn Hsum. change (1 * 16384) with 16384.
  rewrite (int32_small (load_avg * 2)) by lia.
  rewrite (int32_small (load_avg * 2 + 16384)) by lia.
  pose proof (Z.quot_rem' (load_avg * 2 * 16384) (load_avg * 2 + 16384)).
  pose proof (Z.rem_bound_pos (load_avg * 2 * 16384) (load_avg * 2 + 16384)).
  set (q := Z.quot (load_avg * 2 * 16384) (load_avg * 2 + 16384)) in *.
  assert (0 <= q <= 16383) by (split; nia).
  clearbody q. rewrite (int32_small q) by lia.
  pose proof (Z.quot_rem' (q * recent_cpu) 16384).
  pose proof (Z.rem_bound_pos (q * recent_cpu) 16384).
  set (d := Z.quot (q * recent_cpu) 16384) in *. clearbody d.
  assert (0 <= d <= recent_cpu) by (split; nia).
  rewrite int32_small by lia. lia.
Qed.

Lemma mlfqs_recent_cpu_decays_witness :
  mlfqs_recent_cpu (FP_FROM_INT 2) (FP_FROM_INT 10) 1 <= FP_FROM_INT 11.
Proof.
  apply (mlfqs_recent_cpu_decays (FP_FROM_INT 2) (FP_FROM_INT 10) 1);
    unfold FP_FROM_INT; rewrite ?FP_F_eq; lia.
Defined.
