(* ===== verification/Synch.v ===== *)
(** * Synchronization ([threads/synch.c])

    Semaphores, locks with priority donation, and condition variables.  A
    function that may sleep ends by switching threads; what it does after it
    is scheduled again is a frame ([SemaDownLoop], [LockAcquireTail], ...),
    run by [Sched.exec]. *)

From S2P Require Import Prelude OrdList Kernel Thread.

Open Scope Z_scope.

(** ** Semaphores *)

Definition on_sema (s : Z) (f : semaphore → semaphore) (k : kernel) : option kernel :=
  sm ← semas k !! s;
  Some (k <| semas ::= insert s (f sm) |>).

Definition sema_init (s value : Z) (k : kernel) : option kernel :=
  assert! negb (s =? NULL);
  Some (k <| semas ::= insert s (Semaphore value []) |>).

(** The [while] loop of [sema_down], from its test on. *)
Definition sema_down_loop (s : Z) (old_level : intr_level) (k : kernel)
    : option kernel :=
  sm ← semas k !! s;
  if value sm =? 0 then
    cur ← thread_current k;
    k ← on_sema s (λ sm, sm <| waiters ::=
          insert_ordered (thread_priority_greater k) cur |>) k;
    k ← push_frames cur [SemaDownLoop s old_level] k;
    thread_block k
  else
    k ← on_sema s (λ sm, sm <| value ::= Z.pred |>) k;
    intr_set_level old_level k.

Definition sema_down (s : Z) (k : kernel) : option kernel :=
  assert! negb (s =? NULL);
  assert! negb (intr_context k);
  let old_level := intr_get_level k in
  let k := intr_disable k in
  sema_down_loop s old_level k.

Definition sema_try_down (s : Z) (k : kernel) : option (bool * kernel) :=
  assert! negb (s =? NULL);
  let old_level := intr_get_level k in
  let k := intr_disable k in
  sm ← semas k !! s;
  '(success, k) ←
    (if 0 <? value sm
     then k ← on_sema s (λ sm, sm <| value ::= Z.pred |>) k; Some (true, k)
     else Some (false, k));
  k ← intr_set_level old_level k;
  Some (success, k).

(** [value] is an [unsigned], incremented modulo [2^32].  The part after
    [intr_set_level (old_level)] is the frame [SemaUpTail]. *)
Definition sema_up (s : Z) (k : kernel) : option kernel :=
  assert! negb (s =? NULL);
  let old_level := intr_get_level k in
  let k := intr_disable k in
  sm ← semas k !! s;
  k ← match isort (thread_priority_greater k) (waiters sm) with
      | [] => Some k
      | t :: rest =>
          k ← on_sema s (λ sm, sm <| waiters := rest |>) k;
          thread_unblock t k
      end;
  k ← on_sema s (λ sm, sm <| value ::= λ v, (v + 1) mod 2 ^ 32 |>) k;
  k ← intr_set_level old_level k;
  push_frames (current k) [SemaUpTail] k.

Definition sema_up_tail (k : kernel) : option kernel :=
  if negb (intr_context k) then
    cur ← thread_current k;
    yield_to_front cur k
  else Some k.

(** ** Locks *)

Definition on_lock (l : Z) (f : lock → lock) (k : kernel) : option kernel :=
  lk ← locks k !! l;
  Some (k <| locks ::= insert l (f lk) |>).

Definition lock_init (l : Z) (k : kernel) : option kernel :=
  assert! negb (l =? NULL);
  let k := k <| locks ::= insert l (Lock NULL) |> in
  sema_init (lock_sema l) 1 k.

Definition lock_held_by_current_thread (l : Z) (k : kernel) : option bool :=
  assert! negb (l =? NULL);
  lk ← locks k !! l;
  cur ← thread_current k;
  Some (holder lk =? cur).

(** The loop of [donate_priority], with at most [depth] rounds left; it
    starts with 8.  [list_remove] needs the holder to be in the run queue.  This
    and the operations on locks below leave interrupts on; here they are what a
    run without an interrupt does, [SchedFine.step_op] has their statements one
    by one. *)
Fixpoint donate_priority (depth : nat) (t : Z) (k : kernel) : option kernel :=
  match depth with
  | O => Some k
  | S depth =>
      th ← threads k !! t;
      if waiting_lock th =? NULL then Some k
      else
        lk ← locks k !! waiting_lock th;
        let holder := holder lk in
        if holder =? NULL then Some k
        else
          hd ← threads k !! holder;
          if priority th <=? priority hd then Some k
          else
            k ← on_thread holder (λ hd, hd <| priority := priority th |>) k;
            k ← (if bool_decide (status hd = THREAD_READY) then
                   assert! bool_decide (holder ∈ ready_list k);
                   Some (k <| ready_list ::= λ l,
                     insert_ordered (thread_priority_greater k) holder
                       (filter (λ x, x ≠ holder) l) |>)
                 else Some k);
            donate_priority depth holder k
  end.

Definition waits_for (k : kernel) (l t : Z) : bool :=
  match threads k !! t with Some th => waiting_lock th =? l | None => false end.

Definition remove_donations_for_lock (t l : Z) (k : kernel) : option kernel :=
  on_thread t (λ th, th <| donations ::= filter (λ d, waits_for k l d = false) |>) k.

Definition update_priority_after_release (t : Z) (k : kernel) : option kernel :=
  p ← thread_get_effective_priority t k;
  on_thread t (λ th, th <| priority := p |>) k.

(** [lock_acquire] and [lock_release] end in a call of the semaphore
    operations; the frames for it are pushed before the donations are done,
    which do not look at them. *)
Definition lock_acquire (l : Z) (k : kernel) : option kernel :=
  cur ← thread_current k;
  assert! negb (l =? NULL);
  assert! negb (intr_context k);
  held ← lock_held_by_current_thread l k;
  assert! negb held;
  lk ← locks k !! l;
  k ← push_frames cur [Sema_down (lock_sema l); LockAcquireTail l] k;
  if negb (thread_mlfqs k) && negb (holder lk =? NULL) then
    k ← on_thread cur (λ th, th <| waiting_lock := l |>) k;
    k ← on_thread (holder lk) (λ hd, hd <| donations ::= λ d, d ++ [cur] |>) k;
    donate_priority 8 cur k
  else Some k.

Definition lock_acquire_tail (l : Z) (k : kernel) : option kernel :=
  cur ← thread_current k;
  k ← on_thread cur (λ th, th <| waiting_lock := NULL |>) k;
  on_lock l (λ _, Lock cur) k.

Definition lock_try_acquire (l : Z) (k : kernel) : option (bool * kernel) :=
  assert! negb (l =? NULL);
  held ← lock_held_by_current_thread l k;
  assert! negb held;
  '(success, k) ← sema_try_down (lock_sema l) k;
  k ← (if (success : bool) then
         cur ← thread_current k;
         on_lock l (λ _, Lock cur) k
       else Some k);
  Some (success, k).

Definition lock_release (l : Z) (k : kernel) : option kernel :=
  assert! negb (l =? NULL);
  held ← lock_held_by_current_thread l k;
  assert! held;
  cur ← thread_current k;
  k ← on_lock l (λ _, Lock NULL) k;
  k ← push_frames cur [Sema_up (lock_sema l)] k;
  if negb (thread_mlfqs k) then
    k ← remove_donations_for_lock cur l k;
    update_priority_after_release cur k
  else Some k.

(** ** Condition variables *)

Definition on_cond (c : Z) (f : list Z → list Z) (k : kernel) : option kernel :=
  ws ← conds k !! c;
  Some (k <| conds ::= insert c (f ws) |>).

Definition cond_init (c : Z) (k : kernel) : option kernel :=
  assert! negb (c =? NULL);
  Some (k <| conds ::= insert c [] |>).

(** [waiter] is a local of [cond_wait]: its address is not in use. *)
Definition cond_wait (c l waiter : Z) (k : kernel) : option kernel :=
  assert! negb (c =? NULL);
  assert! negb (l =? NULL);
  assert! negb (intr_context k);
  held ← lock_held_by_current_thread l k;
  assert! held;
  cur ← thread_current k;
  k ← sema_init waiter 0 k;
  k ← on_cond c (λ ws, ws ++ [waiter]) k;
  push_frames cur
    [Lock_release l; Sema_down waiter; Lock_acquire l] k.

(** The first thread waiting on a waiter's semaphore.  With none there,
    [list_begin] is the list's tail and [list_entry] of it is no thread. *)
Definition cond_waiter_thread (k : kernel) (waiter : Z) : option Z :=
  sm ← semas k !! waiter;
  head (waiters sm).

(** The priority [cond_priority_greater] compares. *)
Definition cond_key (k : kernel) (waiter : Z) : Z :=
  match cond_waiter_thread k waiter with Some t => prio_of k t | None => 0 end.

Definition cond_priority_greater (k : kernel) (a b : Z) : bool :=
  cond_key k b <? cond_key k a.

(** [list_sort (&cond->waiters, cond_priority_greater, NULL)]: with two or
    more elements the sort compares every element, and reads a thread through
    each comparison. *)
Definition cond_sort (ws : list Z) (k : kernel) : option (list Z) :=
  match ws with
  | [] | [_] => Some ws
  | _ =>
      assert! forallb (λ w, bool_decide (is_Some (cond_waiter_thread k w))) ws;
      Some (isort (cond_priority_greater k) ws)
  end.

Definition cond_signal (c l : Z) (k : kernel) : option kernel :=
  assert! negb (c =? NULL);
  assert! negb (l =? NULL);
  assert! negb (intr_context k);
  held ← lock_held_by_current_thread l k;
  assert! held;
  cur ← thread_current k;
  ws ← conds k !! c;
  ws ← cond_sort ws k;
  match ws with
  | [] => Some k
  | w :: rest =>
      k ← on_cond c (λ _, rest) k;
      push_frames cur [Sema_up w] k
  end.

(** One round of [cond_broadcast]'s loop; it is run again while there are
    waiters. *)
Definition cond_broadcast (c l : Z) (k : kernel) : option kernel :=
  assert! negb (c =? NULL);
  assert! negb (l =? NULL);
  cur ← thread_current k;
  ws ← conds k !! c;
  match ws with
  | [] => Some k
  | _ => push_frames cur [Cond_signal c l; Cond_broadcast c l] k
  end.
