(* ===== verification/Sched.v ===== *)
(** * Executions of the thread system

    [exec] runs one frame of the current thread, [step] adds interrupts and
    arbitrary client code, and [Inv] is the invariant of every execution:
    the run queue holds exactly the ready threads and is sorted by priority,
    every blocked thread can be found by whoever has to wake it, each lock's
    semaphore counts its owner, and what each thread still has to run keeps
    the discipline the code relies on.

    [thread_init], [thread_start], [kernel_thread] and [idle], which consist
    of calls that may switch threads, are here as well. *)

From S2P Require Import Prelude OrdList FixedPoint Kernel Thread Synch.

Open Scope Z_scope.

(** ** Start-up and the idle thread *)

(** The first part of [thread_init]; [page] is where the initial stack is. *)
Definition thread_init (page : Z) (k : kernel) : option kernel :=
  assert! bool_decide (intr_get_level k = INTR_OFF);
  k ← lock_init (tid_lock k) k;
  let k := k <| ready_list := [] |> <| all_list := [] |> <| sleep_list := [] |>
             <| load_avg := FP_FROM_INT 0 |> <| current := page |> in
  let k := k <| initial_thread := running_thread k |> in
  k ← init_thread (initial_thread k) "main" PRI_DEFAULT k;
  k ← on_thread (initial_thread k) (λ th, th <| status := THREAD_RUNNING |>) k;
  push_frames (initial_thread k) (call_allocate_tid k ++ [InitTail]) k.

Definition thread_init_tail (k : kernel) : option kernel :=
  cur ← thread_current k;
  c ← threads k !! cur;
  on_thread (initial_thread k) (λ th, th <| tid := result c |>) k.

(** [idle_started] is a local of [thread_start], [page] the idle thread's. *)
Definition thread_start (idle_started page : Z) (k : kernel) : option kernel :=
  k ← sema_init idle_started 0 k;
  k ← push_frames (current k) [StartTail idle_started] k;
  thread_create "idle" PRI_MIN page [IdleInit idle_started] k.

Definition thread_start_tail (idle_started : Z) (k : kernel) : option kernel :=
  k ← intr_enable k;
  sema_down idle_started k.

Definition idle_init (idle_started : Z) (k : kernel) : option kernel :=
  cur ← thread_current k;
  let k := k <| idle_thread := cur |> in
  push_frames cur [Sema_up idle_started; IdleLoop] k.

(** The loop of [idle]: its body up to [thread_block ()]; the rest of the
    body is [IdleHlt], after which the loop starts again. *)
Definition idle_loop (k : kernel) : option kernel :=
  let k := intr_disable k in
  k ← push_frames (current k) [IdleHlt; IdleLoop] k;
  thread_block k.

(** [sti; hlt] stops until the next interrupt. *)
Definition idle_hlt (k : kernel) : option kernel :=
  k ← intr_enable k;
  intr_handler k.

(** ** Running frames *)

Definition set_result (r : option (bool * kernel)) : option kernel :=
  '(b, k) ← r;
  on_thread (current k) (λ th, th <| result := if (b : bool) then 1 else 0 |>) k.

Definition exec (f : frame) : kernel → option kernel :=
  match f with
  | Sema_init s v => sema_init s v
  | Sema_down s => sema_down s
  | Sema_try_down s => λ k, set_result (sema_try_down s k)
  | Sema_up s => sema_up s
  | Lock_init l => lock_init l
  | Lock_acquire l => lock_acquire l
  | Lock_try_acquire l => λ k, set_result (lock_try_acquire l k)
  | Lock_release l => lock_release l
  | Cond_init c => cond_init c
  | Cond_wait c l w => cond_wait c l w
  | Cond_signal c l => cond_signal c l
  | Cond_broadcast c l => cond_broadcast c l
  | Thread_start s page => thread_start s page
  | Thread_yield => thread_yield
  | Thread_set_priority p => thread_set_priority p
  | Thread_set_nice n => thread_set_nice n
  | Timer_sleep n => timer_sleep n
  | Thread_create name p page fn => thread_create name p page fn
  | Thread_exit => thread_exit
  | SemaDownLoop s old => sema_down_loop s old
  | SemaUpTail => sema_up_tail
  | LockAcquireTail l => lock_acquire_tail l
  | AllocateTid => allocate_tid
  | InitTail => thread_init_tail
  | CreateTail page p fn => thread_create_tail page p fn
  | StartTail s => thread_start_tail s
  | IntrSetLevel old => intr_set_level old
  | IntrReturn => λ k, Some (k <| interrupts := INTR_ON |>)
  | KernelThread => intr_enable
  | IdleInit s => idle_init s
  | IdleLoop => idle_loop
  | IdleHlt => idle_hlt
  | Client => Some
  | Piece _ => λ _, None            (* [SchedFine.advance] *)
  end.

(** Take the top frame off the current thread. *)
Definition pop (k : kernel) : option (frame * kernel) :=
  th ← threads k !! current k;
  match code th with
  | [] => None
  | f :: rest =>
      Some (f, k <| threads ::= insert (current k) (th <| code := rest |>) |>)
  end.

(** Run the current thread's next frame. *)
Definition run (k : kernel) : option kernel :=
  '(f, k) ← pop k; exec f k.

Fixpoint run_n (n : nat) (k : kernel) : option kernel :=
  match n with O => Some k | S n => k ← run k; run_n n k end.

(** ** The invariant *)

(** The locks that a thread holds. *)
Definition held_by (L : gmap Z lock) (t : Z) : gset Z :=
  dom (filter (λ p, holder p.2 = t) L).

(** Sums over what the threads still have to run. *)
Definition tsum (w : list frame → Z) (T : gmap Z thread) : Z :=
  map_fold (λ _ th n, w (code th) + n) 0 T.

(** What a frame adds to the ownership of the lock at [l]: between
    [sema_down] and the assignment of [holder], and between the reset of
    [holder] and [sema_up], the running code owns the lock. *)
Definition frame_weight (l : Z) (f : frame) : Z :=
  match f with
  | Sema_down s | SemaDownLoop s _ => if s =? lock_sema l then -1 else 0
  | LockAcquireTail l' => if l' =? l then 1 else 0
  | Sema_up s => if s =? lock_sema l then 1 else 0
  | _ => 0
  end.

Fixpoint weight (l : Z) (c : list frame) : Z :=
  match c with [] => 0 | f :: c => frame_weight l f + weight l c end.

(** Frames that will start the thread at [p]. *)
Fixpoint creating (p : Z) (c : list frame) : Z :=
  match c with
  | [] => 0
  | CreateTail q _ _ :: c => (if q =? p then 1 else 0) + creating p c
  | _ :: c => creating p c
  end.

Definition holder_count (lk : lock) : Z := if holder lk =? NULL then 0 else 1.

(** What a thread that holds the locks [H] may still have to run, given the
    addresses of the semaphores, locks and condition variables. *)
Section CodeOk.
Context (dS dL dC : gset Z) (tid : Z).

(** A semaphore that belongs to a lock is only downed by [lock_acquire]. *)
Definition down_ok (s : Z) (c : list frame) : Prop :=
  s ∈ dS ∧ s ≠ NULL ∧ ((s - 4) ∉ dL ∨ ∃ c', c = LockAcquireTail (s - 4) :: c').

Fixpoint code_ok (H : gset Z) (c : list frame) : Prop :=
  match c with
  | [] => False
  | f :: c =>
      match f with
      | Sema_down s => down_ok s c ∧ code_ok H c
      | Sema_up s => s ∈ dS ∧ s ≠ NULL ∧ code_ok H c
      | Lock_acquire l | LockAcquireTail l =>
          l ∈ dL ∧ (l ∉ H) ∧ code_ok ({[l]} ∪ H) c
      | Lock_release l => l ∈ H ∧ code_ok (H ∖ {[l]}) c
      | Cond_signal c' l | Cond_broadcast c' l =>
          c' ∈ dC ∧ c' ≠ NULL ∧ l ∈ H ∧ code_ok H c
      | CreateTail _ _ fn => fn = [Client] ∧ code_ok H c
      | AllocateTid | SemaUpTail | IntrReturn | IntrSetLevel _ | KernelThread =>
          code_ok H c
      | Thread_exit => H = ∅ ∧ c = []
      | Client => (tid ∉ H) ∧ c = [Thread_exit]
      | _ => False
      end
  end.

(** Only the next frame can be the loop of [sema_down]. *)
Definition code_wf (H : gset Z) (c : list frame) : Prop :=
  match c with
  | SemaDownLoop s _ :: c' => down_ok s c' ∧ code_ok H c'
  | _ => code_ok H c
  end.

(** The idle thread runs its loop and what interrupts and its call of
    [sema_up] put on top of it. *)
Fixpoint idle_code (c : list frame) : Prop :=
  match c with
  | (IntrReturn | IntrSetLevel _ | SemaUpTail) :: c => idle_code c
  | Sema_up s :: c => s ∈ dS ∧ s ≠ NULL ∧ ((s - 4) ∉ dL) ∧ idle_code c
  | IdleHlt :: c => ∃ c', c = IdleLoop :: c' ∧ c' = [Thread_exit]
  | IdleLoop :: c => c = [Thread_exit]
  | _ => False
  end.
End CodeOk.

Section Wf.
Context (T : gmap Z thread) (cur : Z) (rd al sl : list Z) (idle init tid : Z).
Context (S : gmap Z semaphore) (L : gmap Z lock) (C : gmap Z (list Z)).

(** Where a blocked thread can be found. *)
Definition parked (t : Z) (th : thread) : Prop :=
  match code th with
  | SemaDownLoop s _ :: _ => ∃ sm, S !! s = Some sm ∧ t ∈ waiters sm
  | IntrSetLevel _ :: _ => t ∈ sl
  | IdleHlt :: _ => t = idle
  | [] => True
  | _ => False
  end.

Definition status_ok (t : Z) (th : thread) : Prop :=
  match status th with
  | THREAD_RUNNING => t = cur
  | THREAD_READY => True
  | THREAD_BLOCKED => parked t th
  | THREAD_DYING => (t = cur ∨ t = init) ∧ t ≠ idle ∧ (t ∉ al) ∧ held_by L t = ∅ ∧
                    (code th = [] ∨ code th = [Client; Thread_exit])
  end.

Definition thread_ok (t : Z) (th : thread) : Prop :=
  t ≠ NULL ∧ magic th = THREAD_MAGIC ∧
  (waiting_lock th = NULL ∨ is_Some (L !! waiting_lock th)).

Definition thread_code_ok (t : Z) (th : thread) : Prop :=
  if decide (t = idle) then idle_code (dom S) (dom L) (code th)
  else code_wf (dom S) (dom L) (dom C) tid (held_by L t) (code th) ∨
       (code th = [] ∧ (status th = THREAD_BLOCKED ∨ status th = THREAD_DYING) ∧
        held_by L t = ∅).

Definition waits_on (s t : Z) : Prop :=
  ∃ th old c, T !! t = Some th ∧ status th = THREAD_BLOCKED ∧
              code th = SemaDownLoop s old :: c.

Definition sema_ok (s : Z) (sm : semaphore) : Prop :=
  0 <= value sm < 2 ^ 32 ∧ NoDup (waiters sm) ∧ ∀ t, t ∈ waiters sm → waits_on s t.

Definition lock_ok (l : Z) (lk : lock) : Prop :=
  l ≠ NULL ∧ lock_sema l ≠ NULL ∧ lock_sema l ∈ dom S ∧
  (holder lk = NULL ∨ (is_Some (T !! holder lk) ∧ holder lk ≠ idle)).

Definition cond_ok (c : Z) (ws : list Z) : Prop :=
  ∀ w, w ∈ ws → w ≠ NULL ∧ w ∈ dom S ∧ ((w - 4) ∉ dom L).

Record Wf : Prop := {
  wf_cur : is_Some (T !! cur);
  wf_idle : is_Some (T !! idle);
  wf_thread : ∀ t th, T !! t = Some th → thread_ok t th;
  wf_status : ∀ t th, T !! t = Some th → status_ok t th;
  wf_code : ∀ t th, T !! t = Some th → thread_code_ok t th;
  wf_ready_nodup : NoDup rd;
  wf_ready : ∀ t, t ∈ rd ↔ ∃ th, T !! t = Some th ∧ status th = THREAD_READY ∧ t ≠ idle;
  wf_sleep_nodup : NoDup sl;
  wf_sleep : ∀ t, t ∈ sl → t ≠ idle ∧ ∃ th old c, T !! t = Some th ∧
    status th = THREAD_BLOCKED ∧ code th = IntrSetLevel old :: c;
  wf_all : ∀ t, t ∈ al → is_Some (T !! t);
  wf_sema : ∀ s sm, S !! s = Some sm → sema_ok s sm;
  wf_lock : ∀ l lk, L !! l = Some lk → lock_ok l lk;
  wf_cond : ∀ c ws, C !! c = Some ws → cond_ok c ws;
  wf_tid : tid ∈ dom L;
}.

(** The lock discipline: the semaphore of a lock and its owners add up to
    one.  And a thread that is being created waits for one creator. *)
Record Counts : Prop := {
  lock_count : ∀ l lk sm, L !! l = Some lk → S !! lock_sema l = Some sm →
    value sm + holder_count lk + tsum (weight l) T = 1;
  creating_count : ∀ p, 0 < tsum (creating p) T → tsum (creating p) T = 1 ∧
    ∃ th, T !! p = Some th ∧ status th = THREAD_BLOCKED ∧ code th = [];
}.
End Wf.

Definition wf (k : kernel) : Prop :=
  Wf (threads k) (current k) (ready_list k) (all_list k) (sleep_list k)
     (idle_thread k) (initial_thread k) (tid_lock k) (semas k) (locks k) (conds k).
Definition counts (k : kernel) : Prop := Counts (threads k) (semas k) (locks k).

Definition ready_sorted (k : kernel) : Prop :=
  StronglySorted Z.ge (prio_of k <$> ready_list k).
Definition sleep_sorted (k : kernel) : Prop :=
  StronglySorted Z.le (wake_of k <$> sleep_list k).

Definition is_loop (c : list frame) : bool :=
  match c with SemaDownLoop _ _ :: _ => true | _ => false end.

(** The invariant between two steps. *)
Record Inv (k : kernel) : Prop := {
  inv_wf : wf k;
  inv_counts : counts k;
  inv_ready : ready_sorted k;
  inv_sleep : sleep_sorted k;
  inv_running : ∃ th, threads k !! current k = Some th ∧
    status th = THREAD_RUNNING ∧
    (is_loop (code th) = true → interrupts k = INTR_OFF);
  inv_context : in_external_intr k = false;
}.

(** ** Steps *)

(** What client code must respect when it calls the interface: the objects
    are initialised ones and not internal to the kernel, a lock is released
    by its holder, a thread exits without locks, and so on. *)
Definition free_sema (k : kernel) (s : Z) : Prop :=
  s ≠ NULL ∧ is_Some (semas k !! s) ∧ locks k !! (s - 4) = None.

Definition settled (k : kernel) (c : Z) : Prop :=
  ∀ ws, conds k !! c = Some ws → is_Some (cond_sort ws k).

Definition client_ok (k : kernel) (f : frame) : Prop :=
  let H := held_by (locks k) (current k) in
  match f with
  | Sema_init s v => s ≠ NULL ∧ 0 <= v < 2 ^ 32 ∧ semas k !! s = None
  | Sema_down s | Sema_try_down s => free_sema k s
  | Sema_up s => free_sema k s
  | Lock_init l => l ≠ NULL ∧ lock_sema l ≠ NULL ∧ locks k !! l = None ∧
                   semas k !! lock_sema l = None
  | Lock_acquire l | Lock_try_acquire l =>
      l ∈ dom (locks k) ∧ (l ∉ H) ∧ l ≠ tid_lock k
  | Lock_release l => l ∈ H
  | Cond_init c => c ≠ NULL ∧ conds k !! c = None
  | Cond_wait c l w => c ≠ NULL ∧ c ∈ dom (conds k) ∧ l ∈ H ∧
                       w ≠ NULL ∧ semas k !! w = None
  | Cond_signal c l => c ≠ NULL ∧ c ∈ dom (conds k) ∧ l ∈ H ∧ settled k c
  | Cond_broadcast c l => c ≠ NULL ∧ c ∈ dom (conds k) ∧ l ∈ H
  | Thread_yield | Thread_set_priority _ | Thread_set_nice _ => True
  | Timer_sleep _ => interrupts k = INTR_ON
  | Thread_create _ p page fn =>
      page = NULL ∨ (threads k !! page = None ∧ PRI_MIN <= p <= PRI_MAX ∧ fn = [Client])
  | Thread_exit => H = ∅
  | _ => False
  end.

Inductive step (k : kernel) : kernel → Prop :=
  | step_frame f k0 k' :
      pop k = Some (f, k0) → f ≠ Client → exec f k0 = Some k' → step k k'
  | step_client f k0 k' :
      pop k = Some (Client, k0) → client_ok k f → exec f k = Some k' → step k k'
  | step_level old k0 k' :
      pop k = Some (Client, k0) → intr_set_level old k = Some k' → step k k'
  | step_return k0 :
      pop k = Some (Client, k0) → held_by (locks k) (current k) = ∅ → step k k0
  | step_timer k' :
      interrupts k = INTR_ON → intr_handler k = Some k' → step k k'.
