(* ===== verification/SchedInv.v ===== *)
(** * The invariant of the thread system: basic lemmas

    How [Wf] and [Counts] change when one thread moves between the lists, when
    the current thread's code changes, and when objects are created. *)

From S2P Require Import Prelude OrdList FixedPoint Kernel Thread Synch Sched.

Open Scope Z_scope.

(** ** Sums over threads *)

Lemma tsum_insert_new w T t th :
  T !! t = None → tsum w (<[t := th]> T) = w (code th) + tsum w T.
Proof.
  intros Ht. unfold tsum. rewrite map_fold_insert_L; [done| |done].
  intros. lia.
Qed.

Lemma tsum_delete w T t th :
  T !! t = Some th → tsum w T = w (code th) + tsum w (delete t T).
Proof.
  intros Ht. rewrite <-(tsum_insert_new w (delete t T) t th) by apply lookup_delete_eq.
  by rewrite insert_delete_eq, insert_id.
Qed.

Lemma tsum_insert w T t th th' :
  T !! t = Some th →
  tsum w (<[t := th']> T) = tsum w T - w (code th) + w (code th').
Proof.
  intros Ht. rewrite (tsum_delete w (<[t:=th']> T) t th') by apply lookup_insert_eq.
  rewrite delete_insert_eq, (tsum_delete w T t th Ht). lia.
Qed.

Lemma tsum_nonneg w T :
  (∀ t th, T !! t = Some th → 0 <= w (code th)) → 0 <= tsum w T.
Proof.
  induction T as [|t th T Ht IH] using map_ind; intros H; [done|].
  rewrite tsum_insert_new by done.
  specialize (H t th (lookup_insert_eq _ _ _)) as H1.
  enough (0 <= tsum w T) by lia. apply IH. intros t' th' Ht'.
  apply (H t'). rewrite lookup_insert_ne; [done|congruence].
Qed.

Lemma tsum_zero w T :
  (∀ t th, T !! t = Some th → w (code th) = 0) → tsum w T = 0.
Proof.
  induction T as [|t th T Ht IH] using map_ind; intros H; [done|].
  rewrite tsum_insert_new by done.
  rewrite (H t th (lookup_insert_eq _ _ _)), IH; [done|]. intros t' th' Ht'.
  apply (H t'). rewrite lookup_insert_ne; [done|congruence].
Qed.

Lemma tsum_ge w T t th :
  (∀ t th, T !! t = Some th → 0 <= w (code th)) →
  T !! t = Some th → w (code th) <= tsum w T.
Proof.
  intros H Ht. rewrite (tsum_delete _ _ _ _ Ht).
  enough (0 <= tsum w (delete t T)) by lia. apply tsum_nonneg.
  intros t' th' [_ ?]%lookup_delete_Some. eauto.
Qed.

Lemma tsum_ge2 w T t1 th1 t2 th2 :
  (∀ t th, T !! t = Some th → 0 <= w (code th)) →
  T !! t1 = Some th1 → T !! t2 = Some th2 → t1 ≠ t2 →
  w (code th1) + w (code th2) <= tsum w T.
Proof.
  intros H H1 H2 Hne. rewrite (tsum_delete _ _ _ _ H1).
  enough (w (code th2) <= tsum w (delete t1 T)) by lia. apply (tsum_ge _ _ t2).
  - intros t' th' [_ ?]%lookup_delete_Some. eauto.
  - by rewrite lookup_delete_ne.
Qed.

(** ** Weights of well-formed code *)

Lemma weight_cons l f c : weight l (f :: c) = frame_weight l f + weight l c.
Proof. done. Qed.

Lemma weight_app l c1 c2 : weight l (c1 ++ c2) = weight l c1 + weight l c2.
Proof. induction c1; simpl; lia. Qed.

Lemma creating_app p c1 c2 : creating p (c1 ++ c2) = creating p c1 + creating p c2.
Proof. induction c1 as [|[] c1 IH]; simpl; lia. Qed.

Lemma creating_nonneg p c : 0 <= creating p c.
Proof. induction c as [|[] c IH]; simpl; try lia. by case_match; lia. Qed.

Lemma frame_weight_down l s c dS dL :
  l ∈ dL → down_ok dS dL s c →
  (if s =? lock_sema l then ∃ c', c = LockAcquireTail l :: c' else True).
Proof.
  unfold lock_sema. intros Hl (_ & _ & Hs).
  destruct (Z.eqb_spec s (l + 4)) as [->|]; [|done].
  replace (l + 4 - 4) with l in Hs by lia. by destruct Hs.
Qed.

Section Weights.
Context (dS dL dC : gset Z) (tid : Z).

Lemma weight_code_ok' l H c :
  l ∈ dL → code_ok dS dL dC tid H c →
  0 <= weight l c ∧ (∀ c', c = LockAcquireTail l :: c' → 1 <= weight l c).
Proof.
  intros Hl. revert H. induction c as [|f c IH]; intros H; [done|].
  destruct f; simpl; try done;
    try (intros Hc; split; [destruct_and? Hc; eapply IH; by eauto|done]).
  - intros [Hd Hc]. split; [|done]. destruct (IH _ Hc) as [Hw Hw'].
    pose proof (frame_weight_down _ _ _ _ _ Hl Hd) as Hs.
    destruct (s =? lock_sema l); [|lia]. destruct Hs as [c' ->].
    specialize (Hw' _ eq_refl). lia.
  - intros (_ & _ & Hc). split; [|done]. destruct (IH _ Hc). case_match; lia.
  - by intros [_ ->].
  - intros (_ & _ & Hc). destruct (IH _ Hc).
    split; [case_match; lia|]. intros c' [= -> ->]. rewrite Z.eqb_refl. lia.
  - by intros [_ ->].
Qed.

Lemma weight_code_ok l H c : l ∈ dL → code_ok dS dL dC tid H c → 0 <= weight l c.
Proof. intros. by eapply weight_code_ok'. Qed.

Lemma weight_code_wf l H c : l ∈ dL → code_wf dS dL dC tid H c → 0 <= weight l c.
Proof.
  intros Hl. destruct c as [|f c]; [done|].
  destruct f; try apply (weight_code_ok _ _ _ Hl).
  simpl. intros [Hd Hc]. destruct (weight_code_ok' _ _ _ Hl Hc) as [Hw Hw'].
  pose proof (frame_weight_down _ _ _ _ _ Hl Hd) as Hs.
  destruct (s =? lock_sema l); [|lia]. destruct Hs as [c' ->].
  specialize (Hw' _ eq_refl). lia.
Qed.

Lemma weight_idle l c : l ∈ dL → idle_code dS dL c → weight l c = 0.
Proof.
  intros Hl. induction c as [|f c IH]; [done|]. destruct f; simpl; try done.
  - intros (_ & _ & Hs & Hc). rewrite (IH Hc).
    destruct (Z.eqb_spec s (lock_sema l)) as [->|]; [|done].
    unfold lock_sema in Hs. replace (l + 4 - 4) with l in Hs by lia. done.
  - by intros ->.
  - intros (? & -> & ->). done.
Qed.

Lemma creating_idle p c : idle_code dS dL c → creating p c = 0.
Proof.
  induction c as [|f c IH]; [done|]. destruct f; simpl; try done; try naive_solver.
Qed.

(** A lock whose addresses are not in use has no weight. *)
Lemma weight_fresh l H c :
  (l ∉ dL) → (lock_sema l ∉ dS) → code_ok dS dL dC tid H c → weight l c = 0.
Proof.
  intros Hl Hs. revert H. induction c as [|f c IH]; intros H; [done|].
  assert (Hne : ∀ s, s ∈ dS → (s =? lock_sema l) = false).
  { intros s Hin. apply Z.eqb_neq. by intros ->. }
  destruct f; simpl; try done;
    try (intros Hc; destruct_and? Hc; eapply IH; by eauto).
  - intros [(Hin & _) Hc]. by rewrite (Hne _ Hin), (IH _ Hc).
  - intros (Hin & _ & Hc). by rewrite (Hne _ Hin), (IH _ Hc).
  - by intros [_ ->].
  - intros (Hin & _ & Hc). rewrite (IH _ Hc).
    destruct (Z.eqb_spec l0 l) as [->|]; [done|lia].
  - by intros [_ ->].
Qed.
End Weights.

(** Adding objects keeps code well-formed. *)
Section Mono.
Context (dS dS' dL dL' dC dC' : gset Z) (tid : Z).
Context (HS : dS ⊆ dS') (HL : dL ⊆ dL') (HC : dC ⊆ dC').
Context (Hnew : ∀ s, s ∈ dS → s - 4 ∈ dL' → s - 4 ∈ dL).

Lemma down_ok_mono s c : down_ok dS dL s c → down_ok dS' dL' s c.
Proof.
  intros (Hs & ? & Hd). split_and!; [by apply HS|done|].
  destruct Hd as [Hd|]; [|by right]. left. intros ?. by apply Hd, Hnew.
Qed.

Lemma code_ok_mono H c : code_ok dS dL dC tid H c → code_ok dS' dL' dC' tid H c.
Proof.
  revert H. induction c as [|f c IH]; intros H; [done|].
  destruct f; simpl; try done; try apply IH; intros Hc; destruct_and? Hc;
    split_and?; eauto using down_ok_mono.
Qed.

Lemma code_wf_mono H c : code_wf dS dL dC tid H c → code_wf dS' dL' dC' tid H c.
Proof.
  destruct c as [|f c]; [done|]. destruct f; try apply code_ok_mono.
  simpl. intros [??]. eauto using down_ok_mono, code_ok_mono.
Qed.

Lemma idle_code_mono c : idle_code dS dL c → idle_code dS' dL' c.
Proof.
  induction c as [|f c IH]; [done|]. destruct f; simpl; try done.
  intros (? & ? & Hs & ?). split_and!; eauto.
Qed.
End Mono.

(** ** Moving one thread *)

Ltac wf_open W :=
  destruct W as [wcur widle wthread wstatus wcode wready_nodup wready
                 wsleep_nodup wsleep wall wsema wlock wcond wtid].

(** [l'] differs from [l] at most in whether [t] is in it. *)
Definition same_but (t : Z) (l l' : list Z) : Prop :=
  NoDup l' ∧ ∀ x, x ≠ t → (x ∈ l' ↔ x ∈ l).

Definition semas_but (t : Z) (S S' : gmap Z semaphore) : Prop :=
  dom S' = dom S ∧ ∀ s sm', S' !! s = Some sm' → ∃ sm, S !! s = Some sm ∧
    0 <= value sm' < 2 ^ 32 ∧ same_but t (waiters sm) (waiters sm').

Lemma same_but_refl t l : NoDup l → same_but t l l.
Proof. done. Qed.

Lemma same_but_insert t l (less : Z → Z → bool) :
  NoDup l → t ∉ l → same_but t l (insert_ordered less t l).
Proof.
  intros Hnd Hin. unfold same_but. setoid_rewrite (insert_ordered_perm less t l).
  split; [by constructor|]. set_solver.
Qed.

Lemma same_but_tail t l : NoDup (t :: l) → same_but t (t :: l) l.
Proof. intros [??]%NoDup_cons. split; [done|set_solver]. Qed.

Section Move.
Context (T : gmap Z thread) (cur : Z) (rd al sl : list Z) (idle init tid : Z).
Context (S : gmap Z semaphore) (L : gmap Z lock) (C : gmap Z (list Z)).
Hypothesis W : Wf T cur rd al sl idle init tid S L C.

Lemma semas_but_refl t : semas_but t S S.
Proof.
  split; [done|]. intros s sm Hs. exists sm. wf_open W.
  destruct (wsema s sm Hs). unfold same_but. naive_solver.
Qed.

Lemma Wf_move t th th' rd' sl' S' :
  T !! t = Some th → thread_ok L t th' →
  status_ok cur al sl' idle init S' L t th' → thread_code_ok idle tid S L C t th' →
  same_but t rd rd' → (t ∈ rd' ↔ status th' = THREAD_READY ∧ t ≠ idle) →
  same_but t sl sl' → (t ∈ sl' → t ≠ idle ∧ status th' = THREAD_BLOCKED ∧
                         ∃ old c, code th' = IntrSetLevel old :: c) →
  semas_but t S S' →
  (∀ s sm, S' !! s = Some sm → t ∈ waiters sm → status th' = THREAD_BLOCKED ∧
                         ∃ old c, code th' = SemaDownLoop s old :: c) →
  Wf (<[t := th']> T) cur rd' al sl' idle init tid S' L C.
Proof.
  intros Ht Hok Hst Hcode [Hrn Hrd] Htr [Hsn Hsl] Hts [HdS HS] HtS.
  assert (HT : ∀ x, is_Some (T !! x) → is_Some (<[t:=th']> T !! x)).
  { intros x Hx. destruct (decide (x = t)) as [->|];
      [by rewrite lookup_insert_eq|by rewrite lookup_insert_ne]. }
  wf_open W. constructor; auto.
  - intros x xh [[-> <-]|[Hne Hx]]%lookup_insert_Some; auto.
  - intros x xh [[<- <-]|[Hne Hx]]%lookup_insert_Some; [done|].
    specialize (wstatus x xh Hx). unfold status_ok, parked in *.
    destruct (status xh); auto. destruct (code xh) as [|[] ?]; auto.
    + destruct wstatus as (sm & Hsm & Hin).
      assert (s ∈ dom S') as [sm' Hsm']%elem_of_dom by (rewrite HdS; by eapply elem_of_dom_2).
      exists sm'. split; [done|]. destruct (HS _ _ Hsm') as (sm2 & ? & _ & _ & Hiff).
      simplify_eq. apply Hiff; auto.
    + apply Hsl; auto.
  - unfold thread_code_ok in *. rewrite HdS.
    intros x xh [[<- <-]|[Hne Hx]]%lookup_insert_Some; [done|by apply wcode].
  - intros x. destruct (decide (x = t)) as [->|Hne].
    + rewrite Htr, lookup_insert_eq. naive_solver.
    + rewrite Hrd, wready, lookup_insert_ne; done.
  - intros x Hx. destruct (decide (x = t)) as [->|Hne].
    + rewrite lookup_insert_eq. naive_solver.
    + rewrite lookup_insert_ne by done. apply wsleep, Hsl; auto.
  - intros s sm' Hsm'. destruct (HS _ _ Hsm') as (sm & Hsm & Hv & Hnd & Hiff).
    split_and!; try done; try lia. intros x Hx. unfold waits_on.
    destruct (decide (x = t)) as [->|Hne].
    + rewrite lookup_insert_eq. destruct (HtS _ _ Hsm' Hx) as (? & ? & ? & ?). eauto 10.
    + rewrite lookup_insert_ne by done. destruct (wsema _ _ Hsm) as (_ & _ & Hw).
      apply Hw, Hiff; auto.
  - intros l lk Hl. destruct (wlock _ _ Hl) as (? & ? & ? & Hh).
    unfold lock_ok. rewrite HdS. split_and!; auto. naive_solver.
  - intros c ws Hc w Hw. rewrite HdS. by eapply wcond.
Qed.

Lemma Wf_in_ready t th :
  T !! t = Some th → (t ∈ rd ↔ status th = THREAD_READY ∧ t ≠ idle).
Proof.
  intros Ht. wf_open W. rewrite wready. split; [|by eauto].
  intros (? & ? & ?). by simplify_eq.
Qed.

Lemma Wf_in_sleep t th :
  T !! t = Some th → t ∈ sl →
  t ≠ idle ∧ status th = THREAD_BLOCKED ∧ ∃ old c, code th = IntrSetLevel old :: c.
Proof.
  intros Ht Hin. wf_open W. destruct (wsleep _ Hin) as (? & ? & ? & ? & ? & ? & ?).
  simplify_eq. eauto.
Qed.

Lemma Wf_in_waiters t th s sm :
  T !! t = Some th → S !! s = Some sm → t ∈ waiters sm →
  status th = THREAD_BLOCKED ∧ ∃ old c, code th = SemaDownLoop s old :: c.
Proof.
  intros Ht Hs Hin. wf_open W. destruct (wsema _ _ Hs) as (_ & _ & Hw).
  destruct (Hw _ Hin) as (? & ? & ? & ? & ? & ?). simplify_eq. eauto.
Qed.

(** A change of [t] that the invariant does not see. *)
Lemma Wf_touch t th th' :
  T !! t = Some th → status th' = status th → code th' = code th →
  thread_ok L t th' →
  Wf (<[t := th']> T) cur rd al sl idle init tid S L C.
Proof.
  intros Ht Hs Hc Hok. pose proof W as W'. wf_open W'. eapply Wf_move; eauto.
  - unfold status_ok, parked. rewrite Hs, Hc. by apply wstatus.
  - unfold thread_code_ok. rewrite Hs, Hc. by apply wcode.
  - by apply same_but_refl.
  - rewrite Hs. by apply Wf_in_ready.
  - by apply same_but_refl.
  - rewrite Hs, Hc. by apply Wf_in_sleep.
  - apply semas_but_refl.
  - intros s sm. rewrite Hs, Hc. by apply Wf_in_waiters.
Qed.

(** The running thread is on no list. *)
Lemma Wf_running t th :
  T !! t = Some th → status th = THREAD_RUNNING →
  (t ∉ rd) ∧ (t ∉ sl) ∧ ∀ s sm, S !! s = Some sm → t ∉ waiters sm.
Proof.
  intros Ht Hs. split_and!.
  - rewrite (Wf_in_ready _ _ Ht), Hs. by intros [??].
  - intros (? & ? & ?)%(Wf_in_sleep _ _ Ht). congruence.
  - intros s sm Hsm [??]%(Wf_in_waiters _ _ _ _ Ht Hsm). congruence.
Qed.

(** New code for the running thread. *)
Lemma Wf_code_running t th th' :
  T !! t = Some th → status th = THREAD_RUNNING → status th' = THREAD_RUNNING →
  magic th' = magic th → waiting_lock th' = waiting_lock th →
  thread_code_ok idle tid S L C t th' →
  Wf (<[t := th']> T) cur rd al sl idle init tid S L C.
Proof.
  intros Ht Hs Hs' Hm Hw Hc. destruct (Wf_running t th Ht Hs) as (Hr & Hsl & Hwt).
  pose proof W as W'. wf_open W'. eapply Wf_move; eauto.
  - unfold thread_ok. rewrite Hm, Hw. by apply wthread.
  - unfold status_ok. rewrite Hs'. specialize (wstatus _ _ Ht).
    unfold status_ok in wstatus. by rewrite Hs in wstatus.
  - by apply same_but_refl.
  - rewrite Hs'. split; [done|by intros [? _]].
  - by apply same_but_refl.
  - done.
  - apply semas_but_refl.
  - intros s sm Hsm Hin. by destruct (Hwt _ _ Hsm).
Qed.

(** All threads but [d] go on as before when [d] has died, and the processor
    may be given to another thread when nobody runs. *)
Lemma Wf_switch next T' :
  (∀ t th, T !! t = Some th → status th ≠ THREAD_RUNNING) →
  is_Some (T' !! next) →
  (T' = T ∧ (∀ th, T !! cur = Some th → status th = THREAD_DYING → cur = init) ∨
   T' = delete cur T ∧ ∃ th, T !! cur = Some th ∧ status th = THREAD_DYING) →
  Wf T' next rd al sl idle init tid S L C.
Proof.
  intros Hrun Hnext HT. wf_open W.
  assert (Hsub : ∀ t th, T' !! t = Some th → T !! t = Some th).
  { destruct HT as [[-> _]|[-> _]]; [done|]. by intros t th [_ ?]%lookup_delete_Some. }
  assert (Hsup : ∀ t th, T !! t = Some th →
    (T' = T ∨ (status th ≠ THREAD_DYING ∨ t ≠ cur)) → T' !! t = Some th).
  { intros t th Ht [->|Hor]; [done|]. destruct HT as [[-> _]|[-> (ch & Hc & Hd)]]; [done|].
    rewrite lookup_delete_ne; [done|]. intros <-. naive_solver. }
  assert (Hdead : T' = T ∨ (∃ th, T !! cur = Some th ∧ status_ok cur al sl idle init S L cur th
                    ∧ status th = THREAD_DYING)) by naive_solver.
  constructor; auto.
  - destruct Hdead as [->|(th & Hth & Hst & Hdy)]; [done|].
    destruct widle as [ih Hi]. exists ih. apply Hsup; [done|]. right. right.
    unfold status_ok in Hst. rewrite Hdy in Hst. naive_solver.
  - intros t th Ht. specialize (wstatus t th (Hsub _ _ Ht)). unfold status_ok in *.
    specialize (Hrun _ _ (Hsub _ _ Ht)). destruct (status th) eqn:E; try done.
    destruct wstatus as ([->| ->] & ?); [|auto].
    destruct HT as [[-> HT]|[-> _]]; [naive_solver|]. by rewrite lookup_delete_eq in Ht.
  - intros t. rewrite wready. split; intros (th & Hth & Hst & Hne); exists th;
      (split; [|done]); [|auto]. apply Hsup; [done|]. right; left. by rewrite Hst.
  - intros t (? & th & old & c & ? & Hst & ?)%wsleep. split; [done|]. exists th, old, c.
    split; [|done]. apply Hsup; [done|]. right; left. by rewrite Hst.
  - intros t Hin. destruct (wall _ Hin) as [th Hth]. exists th. apply Hsup; [done|].
    destruct Hdead as [->|(dh & Hdh & Hst & Hdy)]; [by left|]. right. right.
    unfold status_ok in Hst. rewrite Hdy in Hst. naive_solver.
  - intros s sm Hsm. destruct (wsema _ _ Hsm) as (? & ? & Hw). split_and!; try done; try lia.
    intros t (th & old & c & ? & Hst & ?)%Hw. exists th, old, c.
    split; [|done]. apply Hsup; [done|]. right; left. by rewrite Hst.
  - intros l lk Hl. destruct (wlock _ _ Hl) as (? & ? & ? & Hh). split_and!; try done.
    destruct Hh as [?|[[th Hth] ?]]; [by left|]. right. split; [|done].
    exists th. apply Hsup; [done|].
    destruct Hdead as [->|(dh & Hdh & Hst & Hdy)]; [by left|]. right. right.
    unfold status_ok in Hst. rewrite Hdy in Hst. destruct Hst as (_ & _ & _ & Hheld & _).
    intros Heq. assert (l ∈ held_by L cur) as Hin; [|by rewrite Hheld in Hin].
    unfold held_by. apply elem_of_dom. exists lk. by apply map_lookup_filter_Some.
Qed.
End Move.

(** ** Counting *)

Lemma Wf_weight_nonneg T cur rd al sl idle init tid S L C l t th :
  Wf T cur rd al sl idle init tid S L C → l ∈ dom L → T !! t = Some th →
  0 <= weight l (code th).
Proof.
  intros W Hl Ht. wf_open W. specialize (wcode _ _ Ht).
  unfold thread_code_ok in wcode. case_decide.
  - by rewrite (weight_idle _ _ _ _ Hl wcode).
  - destruct wcode as [Hc|(-> & _)]; [by eapply weight_code_wf|done].
Qed.

(** A thread [t] other than those being created changes. *)
Lemma Counts_move T S L t th th' S' L' :
  Counts T S L → T !! t = Some th →
  ((status th' = THREAD_BLOCKED ∧ code th' = []) ∨
    ¬ (status th = THREAD_BLOCKED ∧ code th = []) ∨ 0 >= tsum (creating t) T) →
  (∀ p, creating p (code th') = creating p (code th)) →
  (∀ l lk' sm', L' !! l = Some lk' → S' !! lock_sema l = Some sm' →
     ∃ lk sm, L !! l = Some lk ∧ S !! lock_sema l = Some sm ∧
       value sm' + holder_count lk' + weight l (code th') =
       value sm + holder_count lk + weight l (code th)) →
  Counts (<[t := th']> T) S' L'.
Proof.
  intros [HL HC] Ht Hst Hcr Hw. constructor.
  - intros l lk' sm' Hl Hs. destruct (Hw _ _ _ Hl Hs) as (lk & sm & Hlk & Hsm & Heq).
    rewrite (tsum_insert _ _ _ _ th' Ht). specialize (HL _ _ _ Hlk Hsm). lia.
  - intros p. rewrite (tsum_insert _ _ _ _ th' Ht), Hcr.
    replace (tsum _ T - _ + _) with (tsum (creating p) T) by lia. intros Hp.
    destruct (HC _ Hp) as (? & ph & Hph & ? & ?). split; [done|].
    destruct (decide (p = t)) as [->|].
    + simplify_eq. rewrite lookup_insert_eq. destruct Hst as [[]|[[]|]]; [eauto|done|lia].
    + rewrite lookup_insert_ne by done. eauto.
Qed.

(** Nothing that is counted changes. *)
Lemma Counts_same T S L t th th' S' :
  Counts T S L → T !! t = Some th →
  ((status th' = THREAD_BLOCKED ∧ code th' = []) ∨
    ¬ (status th = THREAD_BLOCKED ∧ code th = []) ∨ 0 >= tsum (creating t) T) →
  (∀ p, creating p (code th') = creating p (code th)) →
  (∀ l, l ∈ dom L → weight l (code th') = weight l (code th)) →
  (∀ s, value <$> S' !! s = value <$> S !! s) →
  Counts (<[t := th']> T) S' L.
Proof.
  intros HC Ht Hst Hcr Hw HS. eapply Counts_move; eauto.
  intros l lk sm' Hl Hs. specialize (HS (lock_sema l)). rewrite Hs in HS.
  destruct (S !! lock_sema l) as [sm|] eqn:E; simplify_eq/=. exists lk, sm.
  split_and!; [done|done|]. rewrite HS, Hw; [lia|by eapply elem_of_dom_2].
Qed.

Lemma Counts_delete T S L t th :
  Counts T S L → T !! t = Some th →
  ¬ (status th = THREAD_BLOCKED ∧ code th = []) →
  (∀ p, creating p (code th) = 0) → (∀ l, l ∈ dom L → weight l (code th) = 0) →
  Counts (delete t T) S L.
Proof.
  intros [HL HC] Ht Hst Hcr Hw. constructor.
  - intros l lk sm Hl Hs. specialize (HL _ _ _ Hl Hs).
    rewrite (tsum_delete _ _ _ _ Ht), Hw in HL; [lia|by eapply elem_of_dom_2].
  - intros p Hp. specialize (HC p). rewrite (tsum_delete _ _ _ _ Ht), Hcr in HC.
    destruct HC as (? & ph & Hph & ?); [lia|]. split; [lia|]. exists ph.
    split; [|done]. rewrite lookup_delete_ne; [done|]. intros <-. naive_solver.
Qed.

(** ** Sorted queues *)

Lemma fmap_sorted_ext (R : Z → Z → Prop) (f g : Z → Z) (l : list Z) :
  (∀ t, t ∈ l → f t = g t) → StronglySorted R (f <$> l) → StronglySorted R (g <$> l).
Proof.
  intros H. replace (g <$> l) with (f <$> l); [done|].
  apply list_fmap_ext. intros i x Hx. by eapply H, list_elem_of_lookup_2.
Qed.

Lemma insert_sorted_ge (f : Z → Z) (t : Z) (l : list Z) :
  StronglySorted Z.ge (f <$> l) →
  StronglySorted Z.ge (f <$> insert_ordered (λ a b, f b <? f a) t l).
Proof.
  induction l as [|x l IH]; simpl; [by repeat constructor|].
  intros [Hs Hall]%StronglySorted_inv. destruct (Z.ltb_spec (f x) (f t)); simpl.
  - constructor; [by constructor|]. constructor; [lia|].
    eapply Forall_impl; [exact Hall|]. simpl; lia.
  - constructor; [by apply IH|]. rewrite (insert_ordered_perm _ t l).
    constructor; [simpl; lia|done].
Qed.

Lemma insert_sorted_le (f : Z → Z) (t : Z) (l : list Z) :
  StronglySorted Z.le (f <$> l) →
  StronglySorted Z.le (f <$> insert_ordered (λ a b, f a <? f b) t l).
Proof.
  induction l as [|x l IH]; simpl; [by repeat constructor|].
  intros [Hs Hall]%StronglySorted_inv. destruct (Z.ltb_spec (f t) (f x)); simpl.
  - constructor; [by constructor|]. constructor; [lia|].
    eapply Forall_impl; [exact Hall|]. simpl; lia.
  - constructor; [by apply IH|]. rewrite (insert_ordered_perm _ t l).
    constructor; [simpl; lia|done].
Qed.

(** ** Lock holders *)

Lemma elem_of_held_by L t l : l ∈ held_by L t ↔ ∃ lk, L !! l = Some lk ∧ holder lk = t.
Proof.
  unfold held_by. rewrite elem_of_dom. unfold is_Some.
  by setoid_rewrite map_lookup_filter_Some.
Qed.

Lemma held_by_insert L l lk t :
  held_by (<[l := lk]> L) t =
    if decide (holder lk = t) then {[l]} ∪ held_by L t else held_by L t ∖ {[l]}.
Proof.
  apply set_eq. intros x. rewrite elem_of_held_by.
  destruct (decide (x = l)) as [->|Hne].
  - rewrite lookup_insert_eq. case_decide.
    + split; [set_solver|]. intros _. eauto.
    + split; [intros (? & [= <-] & ?); done|set_solver].
  - rewrite lookup_insert_ne by done. rewrite <-elem_of_held_by. case_decide; set_solver.
Qed.

(** The current thread takes or drops a lock. *)
Lemma Wf_holder T cur rd al sl idle init tid S L C c c' l lk h :
  Wf T cur rd al sl idle init tid S L C →
  T !! cur = Some c → status c = THREAD_RUNNING → status c' = THREAD_RUNNING →
  cur ≠ idle → L !! l = Some lk →
  (holder lk = NULL ∨ holder lk = cur) → (h = NULL ∨ h = cur) →
  thread_ok L cur c' → thread_code_ok idle tid S (<[l := Lock h]> L) C cur c' →
  Wf (<[cur := c']> T) cur rd al sl idle init tid S (<[l := Lock h]> L) C.
Proof.
  intros W Hc Hst Hst' Hidle Hl Hold Hnew Hok Hcd.
  assert (HdL : dom (<[l := Lock h]> L) = dom L).
  { apply dom_insert_lookup_L. by eauto. }
  assert (HL : ∀ x, is_Some (L !! x) → is_Some (<[l := Lock h]> L !! x)).
  { intros x. by rewrite <-!elem_of_dom, HdL. }
  destruct (Wf_running _ _ _ _ _ _ _ _ _ _ _ W _ _ Hc Hst) as (Hnr & Hns & Hnw).
  pose proof W as W'. wf_open W'.
  assert (Hheld : ∀ t th, T !! t = Some th → t ≠ cur →
                    held_by (<[l := Lock h]> L) t = held_by L t).
  { intros t th Ht Hne. destruct (wthread _ _ Ht) as (Hnull & _).
    rewrite held_by_insert, decide_False by (simpl; naive_solver).
    assert (l ∉ held_by L t); [|set_solver]. rewrite elem_of_held_by. naive_solver. }
  constructor; auto.
  - rewrite lookup_insert_eq. eauto.
  - rewrite lookup_insert_ne; auto.
  - intros t th [[<- <-]|[? Ht]]%lookup_insert_Some.
    + destruct Hok as (? & ? & [?|?]); split_and!; auto.
    + destruct (wthread _ _ Ht) as (? & ? & [?|?]); split_and!; auto.
  - intros t th [[<- <-]|[? Ht]]%lookup_insert_Some.
    + unfold status_ok. by rewrite Hst'.
    + specialize (wstatus _ _ Ht). unfold status_ok in *.
      rewrite (Hheld _ _ Ht) by done. done.
  - intros t th [[<- <-]|[? Ht]]%lookup_insert_Some; [done|].
    specialize (wcode _ _ Ht). unfold thread_code_ok in *.
    by rewrite (Hheld _ _ Ht), HdL.
  - intros t. destruct (decide (t = cur)) as [->|].
    + rewrite lookup_insert_eq. split; [done|]. intros (? & [= <-] & ? & _). congruence.
    + rewrite lookup_insert_ne by done. apply wready.
  - intros t Hin. rewrite lookup_insert_ne; [by apply wsleep|]. by intros <-.
  - intros t Hin. destruct (decide (t = cur)) as [->|];
      [rewrite lookup_insert_eq; eauto|rewrite lookup_insert_ne; auto].
  - intros s sm Hs. destruct (wsema _ _ Hs) as (? & ? & Hw). split_and!; try done; try lia.
    intros t Hin. unfold waits_on. rewrite lookup_insert_ne; [by apply Hw|].
    intros <-. by eapply Hnw.
  - assert (HT : ∀ x, is_Some (T !! x) → is_Some (<[cur := c']> T !! x)).
    { intros x Hx. destruct (decide (x = cur)) as [->|];
        [rewrite lookup_insert_eq; eauto|by rewrite lookup_insert_ne]. }
    intros l' lk' [[<- <-]|[? Hl']]%lookup_insert_Some.
    + destruct (wlock _ _ Hl) as (? & ? & ? & _). split_and!; try done. simpl.
      destruct Hnew as [->| ->]; [by left|]. right. eauto.
    + destruct (wlock _ _ Hl') as (? & ? & ? & Hh). split_and!; try done.
      destruct Hh as [|[]]; auto.
  - intros x ws Hx w Hw. rewrite HdL. by eapply wcond.
  - by rewrite HdL.
Qed.

(** ** New objects *)

Lemma weight_fresh_wf dS dL dC tid l H c :
  (l ∉ dL) → (lock_sema l ∉ dS) → code_wf dS dL dC tid H c → weight l c = 0.
Proof.
  intros Hl Hs. destruct c as [|f c]; [done|].
  destruct f; try apply (weight_fresh _ _ _ _ _ _ _ Hl Hs).
  simpl. intros [(Hin & _) Hc]. rewrite (weight_fresh _ _ _ _ _ _ _ Hl Hs Hc).
  destruct (Z.eqb_spec s (lock_sema l)) as [->|]; done.
Qed.

Lemma weight_fresh_idle dS dL l c :
  (lock_sema l ∉ dS) → idle_code dS dL c → weight l c = 0.
Proof.
  intros Hs. induction c as [|f c IH]; [done|]. destruct f; simpl; try done.
  - intros (Hin & _ & _ & Hc). rewrite (IH Hc).
    destruct (Z.eqb_spec s (lock_sema l)) as [->|]; done.
  - by intros ->.
  - by intros (? & -> & ->).
Qed.

Section NewObjects.
Context (T : gmap Z thread) (cur : Z) (rd al sl : list Z) (idle init tid : Z).
Context (S S' : gmap Z semaphore) (L L' : gmap Z lock) (C C' : gmap Z (list Z)).
Hypothesis W : Wf T cur rd al sl idle init tid S L C.
Hypothesis HSS : S ⊆ S'.
Hypothesis HLL : L ⊆ L'.
Hypothesis HCC : C ⊆ C'.
Hypothesis HS : ∀ s sm, S' !! s = Some sm → S !! s = None →
  0 <= value sm < 2 ^ 32 ∧ waiters sm = [].
Hypothesis HL : ∀ l lk, L' !! l = Some lk → L !! l = None →
  l ≠ NULL ∧ lock_sema l ≠ NULL ∧ holder lk = NULL ∧ S !! lock_sema l = None ∧
  ∃ sm, S' !! lock_sema l = Some sm ∧ value sm = 1.
Hypothesis HC : ∀ c ws, C' !! c = Some ws → C !! c = None → ws = [].

Lemma new_lock_sema s : s ∈ dom S → s - 4 ∈ dom L' → s - 4 ∈ dom L.
Proof.
  intros Hs [lk Hlk]%elem_of_dom. apply elem_of_dom.
  destruct (L !! (s - 4)) eqn:E; [done|].
  destruct (HL _ _ Hlk E) as (_ & _ & _ & Hn & _). unfold lock_sema in Hn.
  replace (s - 4 + 4) with s in Hn by lia. by apply not_elem_of_dom in Hn.
Qed.

Lemma new_held_by t : t ≠ NULL → held_by L' t = held_by L t.
Proof.
  intros Ht. apply set_eq. intros l. rewrite !elem_of_held_by.
  split; intros (lk & Hlk & Hh); exists lk; (split; [|done]).
  - destruct (L !! l) as [lk'|] eqn:E.
    + rewrite <-(lookup_weaken _ _ _ _ E HLL), Hlk. done.
    + destruct (HL _ _ Hlk E) as (_ & _ & ? & _). congruence.
  - by eapply lookup_weaken.
Qed.

Lemma Wf_new : Wf T cur rd al sl idle init tid S' L' C'.
Proof.
  pose proof new_lock_sema as Hnls. pose proof new_held_by as Hheld.
  pose proof (subseteq_dom _ _ HSS) as HdS. pose proof (subseteq_dom _ _ HLL) as HdL.
  pose proof (subseteq_dom _ _ HCC) as HdC.
  wf_open W. constructor; auto.
  - intros t th Ht. destruct (wthread _ _ Ht) as (? & ? & Hw). split_and!; auto.
    destruct Hw as [?|Hw]; [by left|]. right. by eapply lookup_weaken_is_Some.
  - intros t th Ht. specialize (wstatus _ _ Ht). destruct (wthread _ _ Ht) as (Hnull & _).
    unfold status_ok, parked in *. rewrite (Hheld _ Hnull).
    destruct (status th); auto. destruct (code th) as [|[] ?]; auto.
    destruct wstatus as (sm & ? & ?). exists sm. split; [by eapply lookup_weaken|done].
  - intros t th Ht. specialize (wcode _ _ Ht). destruct (wthread _ _ Ht) as (Hnull & _).
    unfold thread_code_ok in *. rewrite (Hheld _ Hnull). case_decide.
    + by eapply idle_code_mono.
    + destruct wcode as [?|?]; [left|by right]. by eapply code_wf_mono.
  - intros s sm Hs. destruct (S !! s) as [sm'|] eqn:E.
    + rewrite (lookup_weaken _ _ _ _ E HSS) in Hs. simplify_eq. by apply wsema.
    + destruct (HS _ _ Hs E) as [? Hw]. unfold sema_ok. rewrite Hw.
      split_and!; [lia..|by constructor|]. intros t Hin. by apply elem_of_nil in Hin.
  - intros l lk Hl. destruct (L !! l) as [lk'|] eqn:E.
    + rewrite (lookup_weaken _ _ _ _ E HLL) in Hl. simplify_eq.
      destruct (wlock _ _ E) as (? & ? & ? & ?). split_and!; auto.
    + destruct (HL _ _ Hl E) as (? & ? & ? & ? & sm & ? & ?). split_and!; auto.
      by eapply elem_of_dom_2.
  - intros c ws Hc w Hw. destruct (C !! c) as [ws'|] eqn:E.
    + rewrite (lookup_weaken _ _ _ _ E HCC) in Hc. simplify_eq.
      destruct (wcond _ _ E _ Hw) as (? & ? & ?). split_and!; auto.
    + rewrite (HC _ _ Hc E) in Hw. by apply elem_of_nil in Hw.
Qed.

Lemma Counts_new : Counts T S L → Counts T S' L'.
Proof.
  intros [HLc HCc]. constructor; [|done]. intros l lk sm Hl Hs.
  destruct (L !! l) as [lk'|] eqn:E.
  - rewrite (lookup_weaken _ _ _ _ E HLL) in Hl. simplify_eq. wf_open W.
    destruct (wlock _ _ E) as (_ & _ & [sm' Hsm']%elem_of_dom & _).
    rewrite (lookup_weaken _ _ _ _ Hsm' HSS) in Hs. simplify_eq. eauto.
  - destruct (HL _ _ Hl E) as (_ & _ & Hh & Hn & sm' & Hs' & Hv). simplify_eq.
    rewrite tsum_zero.
    + unfold holder_count. rewrite Hh, Hv. done.
    + intros t th Ht. wf_open W. specialize (wcode _ _ Ht). unfold thread_code_ok in wcode.
      apply not_elem_of_dom in E, Hn. case_decide.
      * by eapply weight_fresh_idle.
      * destruct wcode as [?|[-> _]]; [by eapply weight_fresh_wf|done].
Qed.
End NewObjects.

(** A new thread, not yet started. *)
Lemma Wf_new_thread T cur rd al sl idle init tid S L C p th :
  Wf T cur rd al sl idle init tid S L C → T !! p = None → p ≠ NULL →
  magic th = THREAD_MAGIC → waiting_lock th = NULL → status th = THREAD_BLOCKED →
  code th = [] →
  Wf (<[p := th]> T) cur rd (al ++ [p]) sl idle init tid S L C.
Proof.
  intros W Hp Hn Hm Hw Hs Hc. wf_open W.
  assert (Hne : ∀ t, is_Some (T !! t) → p ≠ t) by (intros t [? ?] ->; congruence).
  assert (HT : ∀ t, is_Some (T !! t) → is_Some (<[p := th]> T !! t)).
  { intros t Ht. rewrite lookup_insert_ne; auto. }
  assert (Hheld : held_by L p = ∅).
  { apply set_eq. intros l. rewrite elem_of_held_by. split; [|set_solver].
    intros (lk & Hl & Hh). destruct (wlock _ _ Hl) as (_ & _ & _ & [?|[? _]]); [congruence|].
    exfalso. by apply (Hne p); rewrite <-?Hh. }
  constructor; auto.
  - intros t xh [[<- <-]|[? Ht]]%lookup_insert_Some; [|auto]. split_and!; auto.
  - intros t xh [[<- <-]|[? Ht]]%lookup_insert_Some.
    + unfold status_ok, parked. by rewrite Hs, Hc.
    + specialize (wstatus _ _ Ht). unfold status_ok in *. destruct (status xh); auto.
      destruct wstatus as (? & ? & ? & ? & ?). split_and!; try done.
      rewrite elem_of_app, list_elem_of_singleton. intros [?| ->]; done.
  - intros t xh [[<- <-]|[? Ht]]%lookup_insert_Some; [|by apply wcode].
    unfold thread_code_ok. rewrite decide_False by (by apply Hne). right. auto.
  - intros t. rewrite wready. split; intros (xh & Hx & Hst & ?); exists xh.
    + rewrite lookup_insert_ne; [done|]. apply Hne. eauto.
    + apply lookup_insert_Some in Hx as [[<- <-]|[? Hx]]; [congruence|done].
  - intros t (? & xh & old & c & Ht & ?)%wsleep. split; [done|]. exists xh, old, c.
    rewrite lookup_insert_ne; [done|]. apply Hne. eauto.
  - intros t. rewrite elem_of_app, list_elem_of_singleton. intros [?| ->]; [auto|].
    rewrite lookup_insert_eq. eauto.
  - intros s sm Hsm. destruct (wsema _ _ Hsm) as (? & ? & Hwt). split_and!; try done; try lia.
    intros t (xh & old & c & Ht & ?)%Hwt. exists xh, old, c.
    rewrite lookup_insert_ne; [done|]. apply Hne. eauto.
  - intros l lk Hl. destruct (wlock _ _ Hl) as (? & ? & ? & Hh). split_and!; auto.
    destruct Hh as [|[]]; auto.
Qed.

Lemma Counts_new_thread T S L p th :
  Counts T S L → T !! p = None → code th = [] → Counts (<[p := th]> T) S L.
Proof.
  intros [HL HC] Hp Hc. constructor.
  - intros l lk sm Hl Hs. rewrite tsum_insert_new, Hc by done. apply (HL _ _ _ Hl Hs).
  - intros q. rewrite tsum_insert_new, Hc by done. intros Hq.
    destruct (HC q Hq) as (? & qh & Hqh & ?). split; [done|]. exists qh.
    rewrite lookup_insert_ne; [done|]. intros ->. congruence.
Qed.
