(* ===== verification/SchedSwitch.v ===== *)
(** * Switching threads keeps the invariant

    [schedule] from any state where the current thread has given up the
    processor, and the operations that only switch: [thread_yield],
    [thread_block] in its uses, [thread_exit], [thread_unblock]. *)

From S2P Require Import Prelude OrdList FixedPoint Kernel Thread Synch Sched.
From S2P Require Import SchedInv.

Open Scope Z_scope.

(** The current thread is about to call [schedule]. *)
Record PreSwitch (k : kernel) : Prop := {
  pre_wf : wf k;
  pre_counts : counts k;
  pre_ready : ready_sorted k;
  pre_sleep : sleep_sorted k;
  pre_status : ∀ th, threads k !! current k = Some th → status th ≠ THREAD_RUNNING;
  pre_intr : interrupts k = INTR_OFF;
  pre_context : in_external_intr k = false;
}.

(** The thread that [next_thread_to_run] takes. *)
Definition next_of (k : kernel) : Z := default (idle_thread k) (head (ready_list k)).

Lemma next_thread_to_run_eq k :
  next_thread_to_run k = (next_of k, k <| ready_list := tail (ready_list k) |>).
Proof. destruct k as [??[]]; done. Qed.

Lemma wf_lookup_is_thread k t th :
  wf k → threads k !! t = Some th → is_thread t k = true.
Proof.
  intros W Ht. wf_open W. destruct (wthread _ _ Ht) as (Hne & Hm & _).
  unfold is_thread. rewrite Ht, Hm, Z.eqb_refl. by apply Z.eqb_neq in Hne as ->.
Qed.

Lemma is_thread_threads k k' t :
  threads k' = threads k → is_thread t k' = is_thread t k.
Proof. unfold is_thread. by intros ->. Qed.

Lemma thread_current_eq k th :
  wf k → threads k !! current k = Some th → status th = THREAD_RUNNING →
  thread_current k = Some (current k).
Proof.
  intros W Ht Hs. unfold thread_current, running_thread.
  rewrite (wf_lookup_is_thread _ _ _ W Ht). simpl. by rewrite Ht; simpl; rewrite Hs.
Qed.

Lemma wf_next k :
  wf k → ∃ nh, threads k !! next_of k = Some nh ∧
    (next_of k = idle_thread k ∧ ready_list k = [] ∨
     status nh = THREAD_READY ∧ next_of k ≠ idle_thread k ∧
     ready_list k = next_of k :: tail (ready_list k)).
Proof.
  intros W. wf_open W. unfold next_of. destruct (ready_list k) as [|t rd]; simpl.
  - destruct widle as [ih Hi]. exists ih. auto.
  - destruct (proj1 (wready t)) as (th & Ht & Hs & Hi); [left|]. eauto 10.
Qed.

(** The state after [schedule] from a state [k] whose current thread is [c]. *)
Definition switched (k : kernel) (c nh : thread) : kernel :=
  let T := <[next_of k := nh <| status := THREAD_RUNNING |>]> (threads k) in
  k <| ready_list ::= tail |> <| current := next_of k |> <| thread_ticks := 0 |>
    <| threads := if bool_decide (status c = THREAD_DYING) &&
                     negb (current k =? initial_thread k)
                  then delete (current k) T else T |>.

Lemma wf_dying_next k c :
  wf k → threads k !! current k = Some c → status c = THREAD_DYING →
  next_of k ≠ current k.
Proof.
  intros W Hc Hs Heq. destruct (wf_next k W) as (nh & Hn & [[Hi _]|(? & ? & _)]).
  - wf_open W. specialize (wstatus _ _ Hc). unfold status_ok in wstatus.
    rewrite Hs in wstatus. destruct wstatus as (_ & ? & _). congruence.
  - congruence.
Qed.

Lemma schedule_eq k c nh :
  PreSwitch k → threads k !! current k = Some c → threads k !! next_of k = Some nh →
  schedule k = Some (switched k c nh).
Proof.
  intros [W _ _ _ Hst Hoff _] Hc Hn. unfold schedule.
  rewrite next_thread_to_run_eq. unfold running_thread, intr_off, intr_get_level; simpl.
  rewrite Hoff. simpl. rewrite Hc. simpl. specialize (Hst _ Hc).
  rewrite (bool_decide_eq_false_2 _ Hst). simpl.
  rewrite (is_thread_threads k) by done. rewrite (wf_lookup_is_thread k _ nh W Hn).
  simpl. unfold thread_schedule_tail, running_thread, intr_off, intr_get_level, switched.
  destruct (Z.eqb_spec (current k) (next_of k)) as [Heq|Hne]; simpl; rewrite Hoff; simpl;
    unfold on_thread; simpl.
  - rewrite Heq, Hn. simpl. rewrite <-Heq in Hn. simplify_eq.
    rewrite bool_decide_eq_false_2; [by destruct k|].
    intros Hd. by destruct (wf_dying_next k c W Hc Hd).
  - rewrite Hn. simpl. wf_open W. destruct (wthread _ _ Hc) as (Hnull & _).
    apply Z.eqb_neq in Hnull as ->. simpl. rewrite lookup_insert_ne by done.
    rewrite Hc. simpl. case_match; [|by destruct k].
    destruct (Z.eqb_spec (current k) (next_of k)); [done|]. by destruct k.
Qed.

Lemma prio_of_insert k k' t th th' x :
  threads k' = <[t := th']> (threads k) → threads k !! t = Some th →
  priority th' = priority th → prio_of k' x = prio_of k x.
Proof.
  intros Hk Ht Hp. unfold prio_of. rewrite Hk.
  destruct (decide (x = t)) as [->|]; [by rewrite lookup_insert_eq, Ht|].
  by rewrite lookup_insert_ne.
Qed.

Lemma wake_of_insert k k' t th th' x :
  threads k' = <[t := th']> (threads k) → threads k !! t = Some th →
  wake_tick th' = wake_tick th → wake_of k' x = wake_of k x.
Proof.
  intros Hk Ht Hp. unfold wake_of. rewrite Hk.
  destruct (decide (x = t)) as [->|]; [by rewrite lookup_insert_eq, Ht|].
  by rewrite lookup_insert_ne.
Qed.

Lemma switched_lookup k c nh x :
  threads k !! current k = Some c → threads k !! next_of k = Some nh →
  (status c = THREAD_DYING → next_of k ≠ current k) →
  (x ≠ current k ∨ status c ≠ THREAD_DYING) →
  threads (switched k c nh) !! x =
    if decide (x = next_of k) then Some (nh <| status := THREAD_RUNNING |>)
    else threads k !! x.
Proof.
  intros Hc Hn Hd Hx. unfold switched. simpl.
  assert (E : ∀ y, <[next_of k := nh <| status := THREAD_RUNNING |>]> (threads k) !! y =
    if decide (y = next_of k) then Some (nh <| status := THREAD_RUNNING |>)
    else threads k !! y).
  { intros y. case_decide as Hy; [by rewrite Hy, lookup_insert_eq|by rewrite lookup_insert_ne]. }
  case_match eqn:Eb; [|apply E]. bool_simp.
  rewrite lookup_delete_ne; [apply E|]. naive_solver.
Qed.

(** After the switch the thread that was chosen runs. *)
Lemma switched_wf k c nh :
  PreSwitch k → threads k !! current k = Some c → threads k !! next_of k = Some nh →
  wf (switched k c nh).
Proof.
  intros P Hc Hn. destruct P as [W _ _ _ Hst _ _].
  assert (Hrun : ∀ t th, threads k !! t = Some th → status th ≠ THREAD_RUNNING).
  { intros t th Ht Hs. pose proof W as W'. wf_open W'. specialize (wstatus _ _ Ht).
    unfold status_ok in wstatus. rewrite Hs in wstatus. subst. by eapply Hst. }
  set (dead := bool_decide (status c = THREAD_DYING) && negb (current k =? initial_thread k)).
  set (T' := if dead then delete (current k) (threads k) else threads k).
  assert (Hnd : dead = true → next_of k ≠ current k).
  { subst dead. intros. bool_simp. by eapply wf_dying_next. }
  assert (Hn' : T' !! next_of k = Some nh).
  { subst T'. destruct dead; [|done]. rewrite lookup_delete_ne; [done|]. symmetry. auto. }
  assert (W2 : Wf T' (next_of k) (ready_list k) (all_list k) (sleep_list k) (idle_thread k)
            (initial_thread k) (tid_lock k) (semas k) (locks k) (conds k)).
  { eapply Wf_switch; [exact W|exact Hrun|by eauto|]. subst T'.
    destruct dead eqn:E; unfold dead in E; bool_simp; [by right; eauto|].
    left. split; [done|]. intros th Hth Hs. simplify_eq.
    apply andb_false_iff in E as [?|?]; by bool_simp. }
  assert (Hthr : threads (switched k c nh) = <[next_of k := nh <|status := THREAD_RUNNING|>]> T').
  { unfold switched. simpl. subst T'. fold dead. destruct dead; [|done].
    rewrite delete_insert_ne; [done|]. symmetry. auto. }
  unfold wf. rewrite Hthr. unfold switched; simpl.
  clear Hthr. clearbody T' dead.
  destruct (wf_next k W) as (nh' & Hnh & Hcase). simplify_eq.
  pose proof W2 as W'. wf_open W'. eapply Wf_move; [exact W2|exact Hn'|..].
  - apply (wthread _ _ Hn').
  - done.
  - specialize (wcode _ _ Hn'). unfold thread_code_ok in *; simpl. case_decide; [done|].
    destruct wcode as [?|(Hc0 & Hs0 & _)]; [by left|]. exfalso.
    destruct Hcase as [[? _]|(Hs1 & _)]; [done|]. rewrite Hs1 in Hs0. naive_solver.
  - destruct Hcase as [[_ Hr]|(_ & _ & Hr)]; rewrite Hr in *; [by apply same_but_refl|].
    by apply same_but_tail.
  - simpl. split; [|by intros []]. intros Hin. exfalso.
    destruct Hcase as [[_ Hr]|(_ & _ & Hr)]; rewrite Hr in *; [set_solver|].
    by apply NoDup_cons in wready_nodup as [? _].
  - by apply same_but_refl.
  - intros Hin. exfalso. destruct (wsleep _ Hin) as (? & ? & ? & ? & ? & ? & ?).
    destruct Hcase as [[? _]|(? & _)]; [done|]. congruence.
  - by eapply semas_but_refl.
  - intros s sm Hsm Hin. exfalso.
    destruct (Wf_in_waiters _ _ _ _ _ _ _ _ _ _ _ W2 _ _ _ _ Hn' Hsm Hin) as (? & ? & ? & Hcd).
    destruct Hcase as [[Hi _]|(? & _)]; [|congruence].
    specialize (wcode _ _ Hn'). unfold thread_code_ok in wcode.
    rewrite decide_True, Hcd in wcode by done. done.
Qed.

Lemma switched_counts k c nh :
  PreSwitch k → threads k !! current k = Some c → threads k !! next_of k = Some nh →
  counts (switched k c nh).
Proof.
  intros P Hc Hn. destruct P as [W HC _ _ _ _ _].
  destruct (wf_next k W) as (nh' & Hnh & Hcase). simplify_eq.
  assert (HC' : Counts (<[next_of k := nh <|status := THREAD_RUNNING|>]> (threads k))
                  (semas k) (locks k)).
  { eapply Counts_same; [done|done| |done..]. right. left. intros [Hs Hcd].
    destruct Hcase as [[Hi _]|(? & _)]; [|congruence].
    wf_open W. specialize (wcode _ _ Hn). unfold thread_code_ok in wcode.
    by rewrite decide_True, Hcd in wcode. }
  unfold counts, switched; simpl. case_match eqn:E; [|done]. bool_simp.
  pose proof (wf_dying_next k c W Hc) as Hne.
  eapply (Counts_delete _ _ _ _ c); [done|..].
  - rewrite lookup_insert_ne; auto.
  - intros []; congruence.
  - wf_open W. specialize (wstatus _ _ Hc). unfold status_ok in wstatus.
    rewrite H in wstatus. destruct wstatus as (_ & _ & _ & _ & [->| ->]); done.
  - wf_open W. specialize (wstatus _ _ Hc). unfold status_ok in wstatus.
    rewrite H in wstatus. destruct wstatus as (_ & _ & _ & _ & [->| ->]); done.
Qed.

Lemma wf_ready_status k t :
  wf k → t ∈ ready_list k → ∃ th, threads k !! t = Some th ∧ status th = THREAD_READY.
Proof. intros W Hin. wf_open W. destruct (proj1 (wready t) Hin) as (? & ? & ? & ?). eauto. Qed.

Lemma wf_sleep_status k t :
  wf k → t ∈ sleep_list k → ∃ th, threads k !! t = Some th ∧ status th = THREAD_BLOCKED.
Proof.
  intros W Hin. wf_open W. destruct (wsleep _ Hin) as (? & ? & ? & ? & ? & ? & ?). eauto.
Qed.

(** [schedule] succeeds, and what it leaves is a state in which the thread
    that was first in the run queue runs, or the idle thread when the queue
    was empty. *)
Lemma schedule_ok k c :
  PreSwitch k → threads k !! current k = Some c →
  ∃ nh, threads k !! next_of k = Some nh ∧
    schedule k = Some (switched k c nh) ∧ Inv (switched k c nh).
Proof.
  intros P Hc. pose proof (pre_wf _ P) as W.
  destruct (wf_next k W) as (nh & Hn & Hcase). exists nh.
  split; [done|]. split; [by apply schedule_eq|].
  assert (Hlk : ∀ x th, threads k !! x = Some th → status th ≠ THREAD_DYING →
    threads (switched k c nh) !! x = if decide (x = next_of k)
      then Some (nh <| status := THREAD_RUNNING |>) else Some th).
  { intros x th Hx Hs. rewrite switched_lookup; try done.
    - by rewrite Hx.
    - by eapply wf_dying_next.
    - destruct (decide (x = current k)) as [->|]; [|by left]. right. congruence. }
  assert (Hnd : status nh ≠ THREAD_DYING).
  { destruct Hcase as [[Hi _]|(Hs & _)]; [|congruence]. intros Hs.
    pose proof W as W'. wf_open W'. specialize (wstatus _ _ Hn). unfold status_ok in wstatus.
    rewrite Hs in wstatus. naive_solver. }
  constructor.
  - by apply switched_wf.
  - by apply switched_counts.
  - pose proof (pre_ready _ P) as Hs. unfold ready_sorted in *.
    assert (StronglySorted Z.ge (prio_of k <$> tail (ready_list k))).
    { destruct (ready_list k); [done|]. by apply StronglySorted_inv in Hs as [? _]. }
    eapply fmap_sorted_ext; [|exact H]. intros t Hin.
    change (t ∈ tail (ready_list k)) in Hin.
    assert (t ∈ ready_list k) as Hin'.
    { destruct (ready_list k); [done|by right]. }
    destruct (wf_ready_status k t W Hin') as (th & Hth & Hr). unfold prio_of.
    rewrite (Hlk _ _ Hth) by congruence. rewrite Hth. case_decide; [|done].
    subst. simplify_eq. done.
  - eapply fmap_sorted_ext; [|exact (pre_sleep _ P)]. intros t Hin.
    destruct (wf_sleep_status k t W Hin) as (th & Hth & Hr). unfold wake_of.
    rewrite (Hlk _ _ Hth) by congruence. rewrite Hth. case_decide; [|done].
    subst. simplify_eq. done.
  - exists (nh <| status := THREAD_RUNNING |>). split_and!; [|done|by intros _; apply P].
    change (current (switched k c nh)) with (next_of k).
    rewrite (Hlk _ _ Hn) by done. by rewrite decide_True.
  - apply P.
Qed.

(** ** Yielding *)

Lemma thread_current_Some k th :
  threads k !! current k = Some th → current k ≠ NULL → magic th = THREAD_MAGIC →
  status th = THREAD_RUNNING → thread_current k = Some (current k).
Proof.
  intros Ht Hn Hm Hs. unfold thread_current, running_thread, is_thread.
  apply Z.eqb_neq in Hn as ->. rewrite Ht. simpl. by rewrite Hm, Hs, Z.eqb_refl.
Qed.

Lemma on_thread_Some t f k th :
  threads k !! t = Some th →
  on_thread t f k = Some (k <| threads ::= insert t (f th) |>).
Proof. unfold on_thread. by intros ->. Qed.

Lemma thread_code_ok_push idle tid S L C t th fs :
  is_loop (code th) = false → status th = THREAD_RUNNING →
  (∀ c, is_loop c = false → idle_code (dom S) (dom L) c →
        idle_code (dom S) (dom L) (fs ++ c)) →
  (∀ c, is_loop c = false → code_wf (dom S) (dom L) (dom C) tid (held_by L t) c →
        code_wf (dom S) (dom L) (dom C) tid (held_by L t) (fs ++ c)) →
  ∀ th', code th' = fs ++ code th →
  thread_code_ok idle tid S L C t th → thread_code_ok idle tid S L C t th'.
Proof.
  intros Hl Hs Hi Hc th' Hth'. unfold thread_code_ok. rewrite Hth'.
  case_decide; [by apply Hi|]. intros [Hok|(_ & [?|?] & _)]; [|congruence..].
  left. by apply Hc.
Qed.

Lemma code_ok_wf dS dL dC tid H c :
  is_loop c = false → code_wf dS dL dC tid H c ↔ code_ok dS dL dC tid H c.
Proof. by destruct c as [|[] ?]. Qed.

(** The state in which the current thread has yielded. *)
Definition yielded (k : kernel) (c : thread) : kernel :=
  k <| interrupts := INTR_OFF |>
    <| ready_list ::= λ l, if negb (current k =? idle_thread k)
         then insert_ordered (thread_priority_greater k) (current k) l else l |>
    <| threads ::= insert (current k)
         (c <| status := THREAD_READY |> <| code ::= cons (IntrSetLevel (interrupts k)) |>) |>.

Lemma Inv_running k c :
  Inv k → threads k !! current k = Some c → status c = THREAD_RUNNING.
Proof. intros I Hc. destruct (inv_running _ I) as (? & ? & ? & _). congruence. Qed.

Lemma yielded_PreSwitch k c :
  Inv k → threads k !! current k = Some c → is_loop (code c) = false →
  PreSwitch (yielded k c).
Proof.
  intros I Hc Hloop. pose proof (Inv_running _ _ I Hc) as Hst.
  destruct I as [W HC Hr Hsl _ Hctx].
  destruct (Wf_running _ _ _ _ _ _ _ _ _ _ _ W _ _ Hc Hst) as (Hnr & Hns & Hnw).
  assert (Hprio : ∀ x, prio_of (yielded k c) x = prio_of k x)
    by (intros x; by eapply prio_of_insert).
  constructor.
  - pose proof W as W'. wf_open W'. unfold wf, yielded; simpl.
    eapply Wf_move; [exact W|exact Hc|..]; simpl.
    + apply (wthread _ _ Hc).
    + done.
    + eapply (thread_code_ok_push _ _ _ _ _ _ c [IntrSetLevel (interrupts k)]); try done; auto.
      intros ? Hl. by rewrite code_ok_wf.
    + case_match; [|by apply same_but_refl]. by apply same_but_insert.
    + destruct (Z.eqb_spec (current k) (idle_thread k)) as [E|E]; simpl.
      * split; [done|]. by intros [_ []].
      * rewrite (insert_ordered_perm _ (current k)). split; [done|]. intros _. left.
    + by apply same_but_refl.
    + done.
    + by eapply semas_but_refl.
    + intros s sm Hsm Hin. by destruct (Hnw _ _ Hsm).
  - eapply Counts_same; [exact HC|exact Hc| |done..]. right; left. intros []; congruence.
  - unfold ready_sorted. eapply fmap_sorted_ext; [intros; symmetry; apply Hprio|].
    simpl. case_match; [|done]. by apply (insert_sorted_ge (prio_of k)).
  - eapply fmap_sorted_ext; [|exact Hsl]. intros t _. symmetry. by eapply wake_of_insert.
  - intros th. simpl. rewrite lookup_insert_eq. by intros [= <-].
  - done.
  - done.
Qed.

Lemma thread_yield_eq k c :
  wf k → threads k !! current k = Some c → status c = THREAD_RUNNING →
  in_external_intr k = false → thread_yield k = schedule (yielded k c).
Proof.
  intros W Hc Hst Hctx. unfold thread_yield.
  rewrite (thread_current_eq _ _ W Hc Hst). simpl. unfold intr_context. rewrite Hctx. simpl.
  unfold push_frames. destruct (Z.eqb_spec (current k) (idle_thread k)) as [E|E]; simpl;
    (rewrite (on_thread_Some _ _ _ c) by done; simpl;
     rewrite (on_thread_Some _ _ _ (c <| status := THREAD_READY |>))
       by (simpl; apply lookup_insert_eq));
    unfold yielded; simpl; rewrite insert_insert_eq.
  - by rewrite E, Z.eqb_refl, Hctx.
  - apply Z.eqb_neq in E as ->. by rewrite Hctx.
Qed.

Lemma thread_yield_ok k c :
  Inv k → threads k !! current k = Some c → is_loop (code c) = false →
  ∃ k', thread_yield k = Some k' ∧ Inv k'.
Proof.
  intros I Hc Hl. pose proof (Inv_running _ _ I Hc) as Hst.
  rewrite (thread_yield_eq k c (inv_wf _ I) Hc Hst (inv_context _ I)).
  destruct (schedule_ok (yielded k c) (c <| status := THREAD_READY |>
    <| code ::= cons (IntrSetLevel (interrupts k)) |>)) as (nh & _ & -> & HI).
  - by apply yielded_PreSwitch.
  - simpl. apply lookup_insert_eq.
  - eauto.
Qed.

Lemma yield_to_front_ok k c cur :
  Inv k → threads k !! current k = Some c → is_loop (code c) = false →
  ∃ k', yield_to_front cur k = Some k' ∧ Inv k'.
Proof.
  intros I Hc Hl. unfold yield_to_front. destruct (ready_list k); [by eauto|].
  case_match; [by eapply thread_yield_ok|by eauto].
Qed.
