(* ===== verification/SchedOps.v ===== *)
(** * Every operation keeps the invariant

    For each frame [f]: from a state that satisfies the invariant and whose
    current thread is at [f], running [f] does not panic and the invariant
    holds again. *)

From S2P Require Import Prelude OrdList FixedPoint Kernel Thread Synch Sched.
From S2P Require Import SchedInv SchedSwitch.

Open Scope Z_scope.

(** The state in which the current thread [c] has been given the code [r]. *)
Definition recode (c : thread) (r : list frame) (k : kernel) : kernel :=
  k <| threads ::= insert (current k) (c <| code := r |>) |>.

(** The current thread [c] is about to run [f] and then [r]. *)
Record Pre (f : frame) (r : list frame) (k : kernel) (c : thread) : Prop := {
  p_inv : Inv k;
  p_cur : threads k !! current k = Some c;
  p_code : if decide (current k = idle_thread k)
    then idle_code (dom (semas k)) (dom (locks k)) (f :: r)
    else code_wf (dom (semas k)) (dom (locks k)) (dom (conds k)) (tid_lock k)
           (held_by (locks k) (current k)) (f :: r);
  p_weight : ∀ l, l ∈ dom (locks k) → weight l (code c) = weight l (f :: r);
  p_creating : ∀ p, creating p (code c) = creating p (f :: r);
}.

Lemma Pre_status f r k c : Pre f r k c → status c = THREAD_RUNNING.
Proof. intros P. by eapply Inv_running; apply P. Qed.

Lemma Pre_thread f r k c :
  Pre f r k c → current k ≠ NULL ∧ magic c = THREAD_MAGIC.
Proof.
  intros P. pose proof (inv_wf _ (p_inv _ _ _ _ P)) as W. wf_open W.
  destruct (wthread _ _ (p_cur _ _ _ _ P)) as (? & ? & _). done.
Qed.

Lemma Pre_lists f r k c :
  Pre f r k c → (current k ∉ ready_list k) ∧ (current k ∉ sleep_list k) ∧
    ∀ s sm, semas k !! s = Some sm → current k ∉ waiters sm.
Proof.
  intros P. eapply Wf_running; [apply P|apply P|by eapply Pre_status].
Qed.

(** What the operations leave alone. *)
Record same_rest (k k' : kernel) : Prop := {
  same_current : current k' = current k;
  same_ready : ready_list k' = ready_list k;
  same_all : all_list k' = all_list k;
  same_sleep : sleep_list k' = sleep_list k;
  same_idle : idle_thread k' = idle_thread k;
  same_init : initial_thread k' = initial_thread k;
  same_tid : tid_lock k' = tid_lock k;
  same_conds : conds k' = conds k;
}.

(** The fields of a thread that its own code leaves alone while it runs. *)
Definition same_thread (c c' : thread) : Prop :=
  status c' = THREAD_RUNNING ∧ magic c' = magic c ∧ waiting_lock c' = waiting_lock c.

(** The invariant of a state in which only the current thread, semaphore
    values, the interrupt level and fields the invariant does not mention have
    changed. *)
Lemma Inv_counted f r k c c' k' :
  Pre f r k c →
  threads k' = <[current k := c']> (threads k) → same_rest k k' →
  locks k' = locks k → in_external_intr k' = false → same_thread c c' →
  is_loop (code c') = false →
  semas_but (current k) (semas k) (semas k') →
  (∀ s sm, semas k' !! s = Some sm → current k ∉ waiters sm) →
  thread_code_ok (idle_thread k) (tid_lock k) (semas k) (locks k) (conds k) (current k) c' →
  counts k' → Inv k'.
Proof.
  intros P HT [Ecur Erd Eal Esl Eid Ein Etid Econ] HL Hctx (Hst & Hm & Hw) Hloop HS HS' Hcd Hct.
  pose proof P as [I Hc _ Pw Pc]. pose proof (Pre_status _ _ _ _ P) as Hst0.
  destruct (Pre_lists _ _ _ _ P) as (Hnr & Hns & _).
  destruct I as [W HCt Hr Hsls _ _]. constructor; try done.
  - unfold wf. rewrite HT, Ecur, Erd, Eal, Esl, Eid, Ein, Etid, HL, Econ.
    pose proof W as W'. wf_open W'.
    eapply Wf_move; [exact W|exact Hc|..]; try done.
    + unfold thread_ok. rewrite Hm, Hw. by apply wthread.
    + unfold status_ok. by rewrite Hst.
    + rewrite Hst. split; [done|by intros [? _]].
    + intros s sm Hs Hin. by destruct (HS' _ _ Hs).
  - unfold ready_sorted. rewrite Erd. eapply fmap_sorted_ext; [|exact Hr].
    intros t Hin'. unfold prio_of. rewrite HT, lookup_insert_ne; [done|]. by intros <-.
  - unfold sleep_sorted. rewrite Esl. eapply fmap_sorted_ext; [|exact Hsls].
    intros t Hin'. unfold wake_of. rewrite HT, lookup_insert_ne; [done|]. by intros <-.
  - exists c'. rewrite HT, Ecur, lookup_insert_eq. split_and!; [done|done|congruence].
Qed.

Lemma Inv_sema f r k c c' k' :
  Pre f r k c →
  threads k' = <[current k := c']> (threads k) → same_rest k k' →
  locks k' = locks k → in_external_intr k' = false → same_thread c c' →
  is_loop (code c') = false →
  semas_but (current k) (semas k) (semas k') →
  (∀ s sm, semas k' !! s = Some sm → current k ∉ waiters sm) →
  (∀ l sm', l ∈ dom (locks k) → semas k' !! lock_sema l = Some sm' →
     ∃ sm, semas k !! lock_sema l = Some sm ∧
       value sm' + weight l (code c') = value sm + weight l (f :: r)) →
  (∀ p, creating p (code c') = creating p (f :: r)) →
  thread_code_ok (idle_thread k) (tid_lock k) (semas k) (locks k) (conds k) (current k) c' →
  Inv k'.
Proof.
  intros P HT HR HL Hctx Hth Hloop HS HS' Hwt Hcr Hcd.
  eapply Inv_counted; try done.
  pose proof P as [[_ HCt _ _ _ _] Hc _ Pw Pc]. pose proof (Pre_status _ _ _ _ P) as Hst0.
  unfold counts. rewrite HT, HL. eapply Counts_move; [done|done|..].
  - right; left. intros []; congruence.
  - intros p. by rewrite Hcr, Pc.
  - intros l lk sm' Hl Hs. assert (l ∈ dom (locks k)) as Hd by by eapply elem_of_dom_2.
    destruct (Hwt _ _ Hd Hs) as (sm & Hsm & Heq). exists lk, sm. rewrite (Pw _ Hd).
    split_and!; [done..|lia].
Qed.

Lemma Inv_recode f r k c c' k' :
  Pre f r k c →
  threads k' = <[current k := c']> (threads k) → same_rest k k' →
  semas k' = semas k → locks k' = locks k → in_external_intr k' = false →
  same_thread c c' → is_loop (code c') = false →
  (∀ l, l ∈ dom (locks k) → weight l (code c') = weight l (f :: r)) →
  (∀ p, creating p (code c') = creating p (f :: r)) →
  thread_code_ok (idle_thread k) (tid_lock k) (semas k) (locks k) (conds k) (current k) c' →
  Inv k'.
Proof.
  intros P HT HR HS HL Hctx Hth Hloop Hwt Hcr Hcd.
  eapply Inv_sema; try done; rewrite HS.
  - by eapply semas_but_refl; apply P.
  - apply (Pre_lists _ _ _ _ P).
  - intros l sm Hl Hsm. exists sm. rewrite (Hwt _ Hl). auto.
Qed.

(** A frame that only leaves the stack. *)
Lemma Pre_tail_code f r k c c' :
  Pre f r k c → code c' = r →
  (match f with IntrReturn | IntrSetLevel _ | SemaUpTail | Sema_up _ => True
   | KernelThread | AllocateTid | Cond_signal _ _ | Cond_broadcast _ _ => True
   | _ => False end) →
  is_loop r = false ∧
  thread_code_ok (idle_thread k) (tid_lock k) (semas k) (locks k) (conds k) (current k) c'.
Proof.
  intros P Hcc Hf. pose proof (p_code _ _ _ _ P) as Hc. unfold thread_code_ok.
  rewrite Hcc. case_decide.
  - destruct f; try done; simpl in Hc; destruct_and? Hc; by destruct r as [|[] ?].
  - assert (Hr : code_ok (dom (semas k)) (dom (locks k)) (dom (conds k)) (tid_lock k)
              (held_by (locks k) (current k)) r).
    { destruct f; try done; simpl in Hc; naive_solver. }
    assert (is_loop r = false) by (by destruct r as [|[] ?]).
    split; [done|]. left. by apply code_ok_wf.
Qed.

(** ** Semaphores *)

Lemma thread_block_eq k c :
  threads k !! current k = Some c → current k ≠ NULL → magic c = THREAD_MAGIC →
  status c = THREAD_RUNNING → in_external_intr k = false → interrupts k = INTR_OFF →
  thread_block k = schedule (k <| threads ::=
    insert (current k) (c <| status := THREAD_BLOCKED |>) |>).
Proof.
  intros Hc Hn Hm Hs Hctx Hoff. unfold thread_block, intr_context, intr_off, intr_get_level.
  rewrite Hctx, Hoff. simpl. rewrite (thread_current_Some _ _ Hc Hn Hm Hs). simpl.
  by rewrite (on_thread_Some _ _ _ _ Hc).
Qed.

(** What both entries of [sema_down]'s loop know. *)
Definition at_down (s : Z) (r : list frame) (k : kernel) (c : thread) : Prop :=
  Pre (Sema_down s) r k c ∨ ∃ old, Pre (SemaDownLoop s old) r k c.

Lemma at_down_code s r k c :
  at_down s r k c → current k ≠ idle_thread k ∧
  down_ok (dom (semas k)) (dom (locks k)) s r ∧
  code_ok (dom (semas k)) (dom (locks k)) (dom (conds k)) (tid_lock k)
    (held_by (locks k) (current k)) r.
Proof.
  intros [P|[old P]]; pose proof (p_code _ _ _ _ P) as Hc; case_decide; try done;
    simpl in Hc; naive_solver.
Qed.

Lemma semas_but_insert k s sm sm' t :
  wf k → semas k !! s = Some sm → 0 <= value sm' < 2 ^ 32 →
  same_but t (waiters sm) (waiters sm') → semas_but t (semas k) (<[s := sm']> (semas k)).
Proof.
  intros W Hs Hv Hw. split; [by apply dom_insert_lookup_L; eauto|].
  intros x xm [[<- <-]|[? Hx]]%lookup_insert_Some; [eauto|].
  eapply semas_but_refl; [exact W|done].
Qed.

(** The state in which the current thread sleeps on [s]. *)
Definition waiting (k : kernel) (c : thread) (s : Z) (sm : semaphore)
    (old : intr_level) (r : list frame) : kernel :=
  k <| interrupts := INTR_OFF |>
    <| semas ::= insert s (sm <| waiters ::=
         insert_ordered (thread_priority_greater (recode c r k)) (current k) |>) |>
    <| threads ::= insert (current k)
         (c <| code := SemaDownLoop s old :: r |> <| status := THREAD_BLOCKED |>) |>.

Lemma waiting_PreSwitch s old r k c sm :
  at_down s r k c → semas k !! s = Some sm → PreSwitch (waiting k c s sm old r).
Proof.
  intros D Hsm. destruct (at_down_code _ _ _ _ D) as (Hi & Hd & Hr).
  assert (∃ f, Pre f r k c ∧ (∀ l, frame_weight l f = frame_weight l (Sema_down s)) ∧
            ∀ p, creating p (f :: r) = creating p r) as (f & P & Hf & Hcr)
    by (destruct D as [P|[? P]]; eauto).
  clear D. pose proof (Pre_status _ _ _ _ P) as Hst.
  destruct (Pre_lists _ _ _ _ P) as (Hnr & Hns & Hnw).
  pose proof P as [[W HC Hrs Hss _ Hctx] Hc _ Pw Pc]. constructor; try done.
  - pose proof W as W'. wf_open W'. unfold wf, waiting; simpl.
    eapply Wf_move; [exact W|exact Hc|..]; simpl.
    + apply (wthread _ _ Hc).
    + unfold status_ok, parked; simpl. rewrite lookup_insert_eq. eexists. split; [done|].
      simpl. rewrite (insert_ordered_perm _ (current k)). left.
    + unfold thread_code_ok. rewrite decide_False by done. by left.
    + by apply same_but_refl.
    + split; [done|by intros [? _]].
    + by apply same_but_refl.
    + done.
    + destruct (wsema _ _ Hsm) as (? & ? & ?).
      eapply semas_but_insert; [exact W|done..|]. simpl. apply same_but_insert; eauto.
    + intros x xm [[<- <-]|[? Hx]]%lookup_insert_Some Hin; [eauto|]. by destruct (Hnw _ _ Hx).
  - unfold counts, waiting; simpl. eapply Counts_same; [exact HC|exact Hc|..]; simpl.
    + right; left. intros []; congruence.
    + intros p. by rewrite Pc, Hcr.
    + intros l Hl. rewrite (Pw _ Hl). simpl. by rewrite Hf.
    + intros x. destruct (decide (x = s)) as [->|];
        [by rewrite lookup_insert_eq, Hsm|by rewrite lookup_insert_ne].
  - eapply fmap_sorted_ext; [|exact Hrs]. intros t _. symmetry. by eapply prio_of_insert.
  - eapply fmap_sorted_ext; [|exact Hss]. intros t _. symmetry. by eapply wake_of_insert.
  - intros th. simpl. rewrite lookup_insert_eq. by intros [= <-].
Qed.

Lemma at_down_pre s r k c :
  at_down s r k c → ∃ f, Pre f r k c ∧
    (∀ l, frame_weight l f = frame_weight l (Sema_down s)) ∧
    ∀ p, creating p (f :: r) = creating p r.
Proof. intros [P|[? P]]; eauto. Qed.

Lemma intr_set_level_eq level k :
  in_external_intr k = false →
  intr_set_level level k = Some (k <| interrupts := level |>).
Proof.
  intros H. destruct level; [done|].
  unfold intr_set_level, intr_enable, intr_context. by rewrite H.
Qed.

Lemma code_ok_not_loop dS dL dC tid H c : code_ok dS dL dC tid H c → is_loop c = false.
Proof. by destruct c as [|[] ?]. Qed.

(** The value of a semaphore goes down by one. *)
Lemma down_Inv s old r k c sm :
  at_down s r k c → semas k !! s = Some sm → value sm ≠ 0 →
  Inv (recode c r k <| interrupts := old |>
         <| semas ::= insert s (sm <| value ::= Z.pred |>) |>).
Proof.
  intros D Hsm Hv. destruct (at_down_code _ _ _ _ D) as (Hi & Hd & Hr).
  destruct (at_down_pre _ _ _ _ D) as (f & P & Hf & Hcr). clear D.
  pose proof (Pre_status _ _ _ _ P) as Hst. destruct (Pre_lists _ _ _ _ P) as (_ & _ & Hnw).
  pose proof (inv_wf _ (p_inv _ _ _ _ P)) as W.
  pose proof W as W'. wf_open W'. destruct (wsema _ _ Hsm) as (Hv' & Hnd & _).
  eapply (Inv_sema _ _ _ _ (c <| code := r |>)); [exact P|..]; simpl; try done.
  - apply (inv_context _ (p_inv _ _ _ _ P)).
  - by eapply code_ok_not_loop.
  - eapply semas_but_insert; [done..| |by apply same_but_refl]. simpl. lia.
  - intros x xm [[<- <-]|[? Hx]]%lookup_insert_Some; [exact (Hnw _ _ Hsm)|by eapply Hnw].
  - intros l sm'. rewrite Hf. simpl. unfold lock_sema. intros Hl.
    destruct (Z.eqb_spec s (l + 4)) as [->|Hne].
    + rewrite lookup_insert_eq. intros [= <-]. exists sm. split; [done|]. simpl. lia.
    + rewrite lookup_insert_ne by done. intros. exists sm'. split; [done|lia].
  - intros p. exact (eq_sym (Hcr p)).
  - unfold thread_code_ok. rewrite decide_False by done. left. simpl.
    apply code_ok_wf; [by eapply code_ok_not_loop|done].
Qed.

Lemma sema_down_loop_ok s old r k c :
  at_down s r k c →
  ∃ k', sema_down_loop s old (recode c r k <| interrupts := INTR_OFF |>) = Some k' ∧ Inv k'.
Proof.
  intros D. destruct (at_down_code _ _ _ _ D) as (Hi & (Hs & _) & _).
  destruct (at_down_pre _ _ _ _ D) as (f & P & _).
  apply elem_of_dom in Hs as [sm Hsm]. unfold sema_down_loop; simpl. rewrite Hsm. simpl.
  destruct (Z.eqb_spec (value sm) 0) as [Hv|Hv].
  - destruct (Pre_thread _ _ _ _ P) as [Hnull Hm]. pose proof (Pre_status _ _ _ _ P) as Hst.
    erewrite thread_current_Some; [|simpl; apply lookup_insert_eq|done..]. simpl.
    unfold on_sema; simpl. rewrite Hsm. simpl. unfold push_frames.
    erewrite on_thread_Some; [|simpl; apply lookup_insert_eq]. simpl.
    erewrite thread_block_eq; [|simpl; apply lookup_insert_eq|done..| |done];
      [|apply (inv_context _ (p_inv _ _ _ _ P))].
    simpl. rewrite !insert_insert_eq.
    destruct (schedule_ok _ _ (waiting_PreSwitch s old r k c sm D Hsm) (lookup_insert_eq _ _ _))
      as (nh & _ & Heq & HI). eexists. split; [exact Heq|exact HI].
  - unfold on_sema; simpl. rewrite Hsm. simpl.
    rewrite intr_set_level_eq by apply (inv_context _ (p_inv _ _ _ _ P)).
    eexists. split; [done|]. by apply down_Inv.
Qed.

Lemma recode_off c r k :
  interrupts k = INTR_OFF → recode c r k <| interrupts := INTR_OFF |> = recode c r k.
Proof. intros H. unfold recode. destruct k; simpl in *. by subst. Qed.

Lemma exec_sema_down_loop s old r k c :
  Pre (SemaDownLoop s old) r k c → interrupts k = INTR_OFF →
  ∃ k', exec (SemaDownLoop s old) (recode c r k) = Some k' ∧ Inv k'.
Proof.
  intros P Hoff. simpl. rewrite <-(recode_off c r k Hoff).
  apply sema_down_loop_ok. right. eauto.
Qed.

Lemma exec_sema_down s r k c :
  Pre (Sema_down s) r k c → ∃ k', exec (Sema_down s) (recode c r k) = Some k' ∧ Inv k'.
Proof.
  intros P. assert (D : at_down s r k c) by by left.
  destruct (at_down_code _ _ _ _ D) as (_ & (_ & Hs & _) & _).
  simpl. unfold sema_down, intr_context. apply Z.eqb_neq in Hs as ->. simpl.
  rewrite (inv_context _ (p_inv _ _ _ _ P)). simpl.
  apply (sema_down_loop_ok s (interrupts k) r k c D).
Qed.

(** ** Waking threads *)

(** The state in which [t] has been made ready. *)
Definition unblocked (k : kernel) (t : Z) (th : thread) : kernel :=
  k <| ready_list ::= insert_ordered (thread_priority_greater k) t |>
    <| threads ::= insert t (th <| status := THREAD_READY |>) |>.

Lemma thread_unblock_eq k t th :
  threads k !! t = Some th → t ≠ NULL → magic th = THREAD_MAGIC →
  status th = THREAD_BLOCKED → (in_external_intr k = false ∨ interrupts k = INTR_OFF) →
  thread_unblock t k = Some (unblocked k t th).
Proof.
  intros Ht Hn Hm Hs Hctx. unfold thread_unblock, is_thread.
  apply Z.eqb_neq in Hn as ->. rewrite Ht, Hm, Z.eqb_refl. simpl. rewrite Ht. simpl.
  rewrite Hs. simpl. erewrite on_thread_Some by (simpl; exact Ht). simpl.
  unfold intr_set_level, intr_enable, intr_context, intr_disable, intr_get_level, unblocked; simpl.
  destruct (interrupts k) eqn:E; [by destruct k; simpl in *; subst|].
  destruct Hctx as [->|?]; [|done]. simpl. by destruct k; simpl in *; subst.
Qed.

(** A thread that has been taken from where it was parked is made ready. *)
Lemma unblocked_Inv k t th sl' S' :
  Inv k → threads k !! t = Some th → status th = THREAD_BLOCKED →
  t ≠ idle_thread k → code th ≠ [] →
  same_but t (sleep_list k) sl' → (t ∉ sl') →
  StronglySorted Z.le (wake_of k <$> sl') →
  semas_but t (semas k) S' → (∀ s sm, S' !! s = Some sm → t ∉ waiters sm) →
  (∀ s, value <$> S' !! s = value <$> semas k !! s) →
  Inv (unblocked (k <| sleep_list := sl' |> <| semas := S' |>) t th).
Proof.
  intros I Ht Hst Hi Hcd Hsl Htsl Hsorted HS HtS Hval.
  assert (Hne : current k ≠ t).
  { intros <-. pose proof (Inv_running _ _ I Ht). congruence. }
  destruct I as [W HC Hrs Hss (c & Hc & Hcr & Hloop) Hctx]. constructor.
  - pose proof W as W'. wf_open W'. unfold wf, unblocked; simpl.
    eapply Wf_move; [exact W|exact Ht|..]; simpl; try done.
    + apply (wthread _ _ Ht).
    + specialize (wcode _ _ Ht). unfold thread_code_ok in *. rewrite decide_False in * by done.
      simpl. destruct wcode as [?|[? _]]; [by left|done].
    + apply same_but_insert; [done|]. rewrite (Wf_in_ready _ _ _ _ _ _ _ _ _ _ _ W _ _ Ht).
      rewrite Hst. by intros [? _].
    + rewrite (insert_ordered_perm _ t). split; [done|]. intros _. left.
    + intros s sm Hs Hin. by destruct (HtS _ _ Hs).
  - unfold counts, unblocked; simpl. eapply Counts_same; [exact HC|exact Ht| |done..].
    right; left. by intros [].
  - unfold ready_sorted. eapply (fmap_sorted_ext _ (prio_of k)).
    + intros x _. symmetry. by eapply prio_of_insert.
    + by apply (insert_sorted_ge (prio_of k)).
  - unfold sleep_sorted. eapply (fmap_sorted_ext _ (wake_of k)); [|exact Hsorted].
    intros x _. symmetry. by eapply wake_of_insert.
  - exists c. simpl. by rewrite lookup_insert_ne by done.
  - done.
Qed.

(** ** Up *)

Lemma prio_of_ext k k' x :
  priority <$> threads k' !! x = priority <$> threads k !! x → prio_of k' x = prio_of k x.
Proof.
  unfold prio_of. destruct (threads k !! x), (threads k' !! x); simpl; congruence.
Qed.

(** Changes that keep all priorities do not change where a thread goes. *)
Lemma insert_prio_ext k k' t l :
  (∀ x, prio_of k' x = prio_of k x) →
  insert_ordered (thread_priority_greater k') t l = insert_ordered (thread_priority_greater k) t l.
Proof.
  intros H. apply insert_ordered_ext. intros y z. unfold thread_priority_greater. by rewrite !H.
Qed.

(** The thread and lock counts leave no room for another owner. *)
Lemma lock_value_zero f r k c l sm :
  Pre f r k c → l ∈ dom (locks k) → semas k !! lock_sema l = Some sm →
  1 <= weight l (f :: r) →
  value sm = 0 ∧ tsum (weight l) (threads k) = 1 ∧
  ∀ lk, locks k !! l = Some lk → holder lk = NULL.
Proof.
  intros P Hl Hsm Hw. pose proof P as [I Hc _ Pw _]. destruct I as [W HC _ _ _ _].
  apply elem_of_dom in Hl as Hl'. destruct Hl' as [lk Hlk].
  pose proof (lock_count _ _ _ HC _ _ _ Hlk Hsm) as Hcount.
  assert (weight l (code c) <= tsum (weight l) (threads k)) as Hge.
  { eapply tsum_ge; [|exact Hc]. intros t th Ht. by eapply Wf_weight_nonneg. }
  rewrite (Pw _ Hl) in Hge. wf_open W. destruct (wsema _ _ Hsm) as (Hv & _).
  unfold holder_count in Hcount.
  destruct (Z.eqb_spec (holder lk) NULL) as [Hh|Hh]; [|lia].
  split_and!; [lia|lia|]. intros lk' Hlk'. by simplify_eq.
Qed.

Definition upped (k : kernel) (c : thread) (s : Z) (sm : semaphore) (r : list frame) : kernel :=
  recode c (SemaUpTail :: r) k
    <| semas ::= insert s (sm <| value ::= λ v, (v + 1) mod 2 ^ 32 |>) |>.

Lemma upped_Inv s r k c sm :
  Pre (Sema_up s) r k c → semas k !! s = Some sm → Inv (upped k c s sm r).
Proof.
  intros P Hsm. destruct (Pre_tail_code _ r k c (c <| code := r |>) P) as [Hloop Hcd]; [done..|].
  pose proof (inv_wf _ (p_inv _ _ _ _ P)) as W. destruct (Pre_lists _ _ _ _ P) as (_ & _ & Hnw).
  pose proof W as W'. wf_open W'. destruct (wsema _ _ Hsm) as (Hv & Hnd & _).
  eapply (Inv_sema _ _ _ _ (c <| code := SemaUpTail :: r |>)); [exact P|..]; simpl; try done.
  - apply (inv_context _ (p_inv _ _ _ _ P)).
  - split; [|done]. apply (Pre_status _ _ _ _ P).
  - eapply semas_but_insert; [done..| |by apply same_but_refl]. simpl.
    apply Z.mod_pos_bound. lia.
  - intros x xm [[<- <-]|[? Hx]]%lookup_insert_Some; [exact (Hnw _ _ Hsm)|by eapply Hnw].
  - intros l sm' Hl. destruct (Z.eqb_spec s (lock_sema l)) as [->|Hne].
    + rewrite lookup_insert_eq. intros [= <-]. exists sm. split; [done|]. simpl.
      destruct (lock_value_zero _ _ _ _ _ _ P Hl Hsm) as (-> & _); [|done].
      simpl. rewrite Z.eqb_refl. enough (0 <= weight l r) by lia.
      unfold thread_code_ok in Hcd. case_decide; simpl in Hcd.
      * by rewrite (weight_idle _ _ _ _ Hl Hcd).
      * destruct Hcd as [Hcd|(-> & _)]; [by eapply weight_code_wf|done].
    + rewrite lookup_insert_ne by done. intros. by exists sm'.
  - eapply (thread_code_ok_push _ _ _ _ _ _ (c <| code := r |>) [SemaUpTail]); try done.
    + apply (Pre_status _ _ _ _ P).
    + intros ? Hl. by rewrite code_ok_wf.
Qed.

Lemma waiter_facts k s sm t :
  wf k → semas k !! s = Some sm → t ∈ waiters sm →
  ∃ th old c, threads k !! t = Some th ∧ status th = THREAD_BLOCKED ∧
    code th = SemaDownLoop s old :: c ∧ t ≠ idle_thread k ∧ t ≠ NULL ∧
    magic th = THREAD_MAGIC ∧
    ∀ s' sm', semas k !! s' = Some sm' → t ∈ waiters sm' → s' = s.
Proof.
  intros W Hsm Hin. pose proof W as W'. wf_open W'. destruct (wsema _ _ Hsm) as (_ & _ & Hw).
  destruct (Hw _ Hin) as (th & old & c & Ht & Hs & Hcd). exists th, old, c.
  destruct (wthread _ _ Ht) as (? & ? & _). split_and!; try done.
  - intros ->. specialize (wcode _ _ Ht). unfold thread_code_ok in wcode.
    by rewrite decide_True, Hcd in wcode.
  - intros s' sm' Hsm' Hin'.
    destruct (Wf_in_waiters _ _ _ _ _ _ _ _ _ _ _ W _ _ _ _ Ht Hsm' Hin') as (_ & ? & ? & ?).
    congruence.
Qed.

(** The first of the sorted waiters is woken. *)
Lemma wake_waiter_Inv k s sm t rest th :
  Inv k → semas k !! s = Some sm → waiters sm ≡ₚ t :: rest → threads k !! t = Some th →
  Inv (unblocked (k <| semas ::= insert s (sm <| waiters := rest |>) |>) t th).
Proof.
  intros I Hsm Hperm Ht. pose proof (inv_wf _ I) as W. pose proof W as W'. wf_open W'.
  destruct (wsema _ _ Hsm) as (Hv & Hnd & _).
  destruct (waiter_facts k s sm t W Hsm) as (th' & old & c & Ht' & Hst & Hcd & Hi & _ & _ & Huniq);
    [rewrite Hperm; left|]. simplify_eq. rewrite Hperm in Hnd.
  apply NoDup_cons in Hnd as [Htr Hnd].
  assert (Htsl : t ∉ sleep_list k).
  { intros (_ & _ & ? & ? & ?)%(Wf_in_sleep _ _ _ _ _ _ _ _ _ _ _ W _ _ Ht). congruence. }
  apply (unblocked_Inv k t th (sleep_list k) (<[s := sm <| waiters := rest |>]> (semas k)));
    try done; [congruence|apply I| |..].
  - eapply semas_but_insert; [done..|]. split; [done|]. intros x Hx. simpl. rewrite Hperm.
    set_solver.
  - intros s' sm' [[<- <-]|[? Hx]]%lookup_insert_Some; [done|].
    intros Hin. by apply (Huniq _ _ Hx) in Hin.
  - intros x. destruct (decide (x = s)) as [->|];
      [by rewrite lookup_insert_eq, Hsm|by rewrite lookup_insert_ne].
Qed.

Lemma exec_sema_up s r k c :
  Pre (Sema_up s) r k c → ∃ k', exec (Sema_up s) (recode c r k) = Some k' ∧ Inv k'.
Proof.
  intros P. pose proof (p_inv _ _ _ _ P) as I. pose proof (inv_wf _ I) as W.
  assert (s ≠ NULL ∧ s ∈ dom (semas k)) as [Hn [sm Hsm]%elem_of_dom].
  { pose proof (p_code _ _ _ _ P) as Hc. case_decide; simpl in Hc; naive_solver. }
  pose proof (upped_Inv s r k c sm P Hsm) as Iu. simpl. unfold sema_up.
  apply Z.eqb_neq in Hn as ->. simpl. rewrite Hsm. simpl.
  match goal with |- context [isort ?less ?l] => pose proof (isort_perm less l) as Hperm;
    destruct (isort less l) as [|t rest] end.
  - unfold on_sema; simpl. rewrite Hsm. simpl.
    rewrite intr_set_level_eq by apply I. simpl. unfold push_frames.
    erewrite on_thread_Some by (simpl; apply lookup_insert_eq). simpl.
    rewrite insert_insert_eq. eexists. split; [done|]. exact Iu.
  - unfold on_sema; simpl. rewrite Hsm. simpl.
    destruct (waiter_facts k s sm t W Hsm) as (th & old & cd & Ht & Hst & Hcd & Hi & Hnull & Hm & _);
      [rewrite <-Hperm; left|].
    assert (Hne : current k ≠ t).
    { intros <-. pose proof (Inv_running _ _ I Ht). congruence. }
    erewrite thread_unblock_eq; [|simpl; by rewrite lookup_insert_ne|done..|by right]. simpl.
    rewrite lookup_insert_eq. simpl. rewrite intr_set_level_eq by apply I. simpl. unfold push_frames.
    erewrite on_thread_Some by (simpl; rewrite lookup_insert_ne by done; apply lookup_insert_eq).
    simpl. rewrite insert_insert_eq.
    rewrite (insert_insert_ne _ t (current k)) by done. rewrite insert_insert_eq.
    eexists. split; [done|].
    assert (It : Inv (unblocked ((upped k c s sm r) <| semas ::= insert s
      (sm <| value ::= λ v, (v + 1) mod 2 ^ 32 |> <| waiters := rest |>) |>) t th)).
    { apply (wake_waiter_Inv (upped k c s sm r) s (sm <| value ::= λ v, (v + 1) mod 2 ^ 32 |>));
        [done|..]; simpl.
      - apply lookup_insert_eq.
      - done.
      - by rewrite lookup_insert_ne. }
    unfold unblocked, upped, recode in It. simpl in It.
    rewrite insert_insert_eq in It. rewrite (insert_insert_ne _ (current k) t) by done.
    rewrite (insert_prio_ext k) in It by (intros; by eapply prio_of_insert; [|apply P|]).
    rewrite (insert_prio_ext k) by (intros; by eapply prio_of_insert; [|apply P|]).
    exact It.
Qed.

(** ** Frames without effect on the objects *)

Lemma popped_Inv f r k c c' k' :
  Pre f r k c → (match f with IntrReturn | IntrSetLevel _ | SemaUpTail => True
   | KernelThread | AllocateTid | Cond_signal _ _ | Cond_broadcast _ _ => True
   | _ => False end) →
  threads k' = <[current k := c']> (threads k) → same_rest k k' →
  semas k' = semas k → locks k' = locks k → in_external_intr k' = false →
  same_thread c c' → code c' = r → Inv k'.
Proof.
  intros P Hf HT HR HS HL Hctx Hth Hcd.
  destruct (Pre_tail_code _ _ _ _ c' P Hcd) as [Hloop Hcode]; [by destruct f|].
  eapply Inv_recode; try done; rewrite Hcd; by destruct f.
Qed.

Lemma same_thread_code f r k c r' : Pre f r k c → same_thread c (c <| code := r' |>).
Proof. intros P. split; [apply (Pre_status _ _ _ _ P)|done]. Qed.

Lemma exec_sema_up_tail r k c :
  Pre SemaUpTail r k c → ∃ k', exec SemaUpTail (recode c r k) = Some k' ∧ Inv k'.
Proof.
  intros P. assert (I : Inv (recode c r k)).
  { eapply popped_Inv; try done; [apply P|by eapply same_thread_code]. }
  simpl. unfold sema_up_tail, intr_context.
  change (in_external_intr (recode c r k)) with (in_external_intr k).
  rewrite (inv_context _ (p_inv _ _ _ _ P)). simpl negb. cbn match.
  destruct (inv_running _ I) as (c' & Hc' & Hst & _).
  rewrite (thread_current_eq _ _ (inv_wf _ I) Hc' Hst). cbn [mbind option_bind].
  eapply (yield_to_front_ok _ c'); [done..|].
  change (current (recode c r k)) with (current k) in Hc'. simpl in Hc'.
  rewrite lookup_insert_eq in Hc'. injection Hc' as <-. simpl.
  by eapply (Pre_tail_code _ _ _ _ (c <| code := r |>) P).
Qed.

Lemma exec_intr_set_level old r k c :
  Pre (IntrSetLevel old) r k c →
  ∃ k', exec (IntrSetLevel old) (recode c r k) = Some k' ∧ Inv k'.
Proof.
  intros P. simpl. rewrite intr_set_level_eq by apply P. eexists. split; [done|].
  eapply popped_Inv; try done; [apply P|by eapply same_thread_code].
Qed.

Lemma exec_intr_return r k c :
  Pre IntrReturn r k c → ∃ k', exec IntrReturn (recode c r k) = Some k' ∧ Inv k'.
Proof.
  intros P. eexists. split; [done|].
  eapply popped_Inv; try done; [apply P|by eapply same_thread_code].
Qed.

Lemma exec_kernel_thread r k c :
  Pre KernelThread r k c → ∃ k', exec KernelThread (recode c r k) = Some k' ∧ Inv k'.
Proof.
  intros P. simpl. change intr_enable with (intr_set_level INTR_ON).
  rewrite intr_set_level_eq by apply P. eexists. split; [done|].
  eapply popped_Inv; try done; [apply P|by eapply same_thread_code].
Qed.

Lemma recode_current f r k c r' :
  Pre f r k c → thread_current (recode c r' k) = Some (current k).
Proof.
  intros P. destruct (Pre_thread _ _ _ _ P).
  apply (thread_current_Some (recode c r' k) (c <| code := r' |>)); try done.
  - simpl. apply lookup_insert_eq.
  - apply (Pre_status _ _ _ _ P).
Qed.

Lemma exec_allocate_tid r k c :
  Pre AllocateTid r k c → ∃ k', exec AllocateTid (recode c r k) = Some k' ∧ Inv k'.
Proof.
  intros P. simpl. unfold allocate_tid. rewrite (recode_current _ _ _ _ _ P). cbn [mbind option_bind].
  erewrite on_thread_Some by (simpl; apply lookup_insert_eq). eexists. split; [done|].
  eapply (popped_Inv _ _ _ _ (c <| code := r |> <| result := next_tid k |>)); try done; simpl.
  - by rewrite insert_insert_eq.
  - apply P.
  - split; [apply (Pre_status _ _ _ _ P)|done].
Qed.

(** A try never sleeps. *)
Lemma sema_try_down_ok s k c :
  Pre IntrReturn (code c) k c → s ≠ NULL → is_Some (semas k !! s) →
  ∃ b sm, semas k !! s = Some sm ∧ b = bool_decide (0 < value sm) ∧
    sema_try_down s k = Some (b, if b
      then k <| semas ::= insert s (sm <| value ::= Z.pred |>) |> else k).
Proof.
  intros P Hn [sm Hsm]. exists (0 <? value sm), sm. split; [done|]. split.
  { destruct (Z.ltb_spec 0 (value sm)); symmetry;
      [by apply bool_decide_eq_true|apply bool_decide_eq_false; lia]. }
  unfold sema_try_down. apply Z.eqb_neq in Hn as ->. simpl. rewrite Hsm. simpl.
  destruct (0 <? value sm); simpl.
  - unfold on_sema; simpl. rewrite Hsm. simpl. rewrite intr_set_level_eq by apply P. simpl.
    by destruct k.
  - rewrite intr_set_level_eq by apply P. simpl. by destruct k.
Qed.
