(* ===== verification/SchedLock.v ===== *)
(** * Locks and condition variables keep the invariant *)

From S2P Require Import Prelude OrdList FixedPoint Kernel Thread Synch Sched.
From S2P Require Import SchedInv SchedSwitch SchedOps.

Open Scope Z_scope.

(** ** Donation *)

Definition set_priority (k : kernel) (h : Z) (hd : thread) (p : Z) : kernel :=
  let k := k <| threads ::= insert h (hd <| priority := p |>) |> in
  if bool_decide (status hd = THREAD_READY)
  then k <| ready_list ::= λ l, insert_ordered (thread_priority_greater k) h
             (filter (λ x, x ≠ h) l) |>
  else k.

Lemma filter_sorted (R : Z → Z → Prop) (f : Z → Z) (P : Z → Prop) `{∀ x, Decision (P x)} l :
  StronglySorted R (f <$> l) → StronglySorted R (f <$> filter P l).
Proof.
  induction l as [|x l IH]; [done|]. rewrite filter_cons. simpl.
  intros [Hs Hall]%StronglySorted_inv. case_decide; [|by apply IH]. simpl.
  constructor; [by apply IH|]. rewrite !Forall_fmap, Forall_forall in *.
  intros y [_ Hy]%list_elem_of_filter. by apply Hall.
Qed.

Lemma prio_of_other k h hd p x :
  x ≠ h → prio_of (k <| threads ::= insert h (hd <| priority := p |>) |>) x = prio_of k x.
Proof. intros Hx. unfold prio_of. simpl. by rewrite lookup_insert_ne. Qed.

Lemma set_priority_Inv k h hd p :
  Inv k → threads k !! h = Some hd → h ≠ idle_thread k → Inv (set_priority k h hd p).
Proof.
  intros [W HC Hrs Hss (c & Hc & Hcr & Hloop) Hctx] Hh Hi.
  pose proof (Wf_in_ready _ _ _ _ _ _ _ _ _ _ _ W _ _ Hh) as Hrd.
  assert (Hnd : h ∉ filter (λ x, x ≠ h) (ready_list k)).
  { intros [? _]%list_elem_of_filter. done. }
  unfold set_priority. constructor.
  - pose proof W as W'. wf_open W'. case_bool_decide as Hst; unfold wf; simpl.
    + eapply Wf_move; [exact W|exact Hh|..]; simpl; auto using same_but_refl.
      * apply (wthread _ _ Hh).
      * unfold status_ok. simpl. by rewrite Hst.
      * apply (wcode _ _ Hh).
      * split; [rewrite (insert_ordered_perm _ h); constructor; [done|by apply NoDup_filter]|].
        intros x Hx. rewrite (insert_ordered_perm _ h), elem_of_cons, list_elem_of_filter. naive_solver.
      * rewrite (insert_ordered_perm _ h). split; [done|]. intros _. left.
      * by apply (Wf_in_sleep _ _ _ _ _ _ _ _ _ _ _ W).
      * by eapply semas_but_refl.
      * intros s sm Hs. by apply (Wf_in_waiters _ _ _ _ _ _ _ _ _ _ _ W).
    + eapply Wf_touch; [exact W|exact Hh|done..|apply (wthread _ _ Hh)].
  - case_bool_decide; (eapply Counts_same; [exact HC|exact Hh| |done..]);
      (destruct (decide (status hd = THREAD_BLOCKED ∧ code hd = [])); [by left|by right; left]).
  - unfold ready_sorted. case_bool_decide as Hst; simpl.
    + set (f := prio_of (k <| threads ::= insert h (hd <| priority := p |>) |>)).
      eapply (fmap_sorted_ext _ f); [done|].
      refine (insert_sorted_ge f h (filter (λ x, x ≠ h) (ready_list k)) _).
      eapply fmap_sorted_ext; [|by apply filter_sorted, Hrs].
      intros x [Hx _]%list_elem_of_filter. symmetry. by apply prio_of_other.
    + eapply fmap_sorted_ext; [|exact Hrs]. intros x Hx. symmetry. apply prio_of_other.
      intros ->. naive_solver.
  - unfold sleep_sorted. replace (sleep_list _) with (sleep_list k) by by case_bool_decide.
    eapply fmap_sorted_ext; [|exact Hss]. intros x _. symmetry.
    eapply wake_of_insert; [by case_bool_decide|done..].
  - replace (threads _) with (<[h := hd <| priority := p |>]> (threads k))
      by by case_bool_decide.
    replace (current _) with (current k) by by case_bool_decide.
    replace (interrupts _) with (interrupts k) by by case_bool_decide.
    destruct (decide (h = current k)) as [->|Hne].
    + simplify_eq. eexists. rewrite lookup_insert_eq. split; [done|]. done.
    + exists c. by rewrite lookup_insert_ne.
  - by case_bool_decide.
Qed.

Lemma donate_priority_ok n t k :
  Inv k → is_Some (threads k !! t) → ∃ k', donate_priority n t k = Some k' ∧ Inv k'.
Proof.
  revert t k. induction n as [|n IH]; intros t k I [th Ht]; simpl; [by eauto|].
  rewrite Ht. simpl. destruct (Z.eqb_spec (waiting_lock th) NULL) as [|Hn]; [by eauto|].
  pose proof (inv_wf _ I) as W. wf_open W. destruct (wthread _ _ Ht) as (_ & _ & Hw).
  destruct Hw as [?|[lk Hlk]]; [done|]. rewrite Hlk. simpl.
  destruct (wlock _ _ Hlk) as (_ & _ & _ & Hh).
  destruct (Z.eqb_spec (holder lk) NULL) as [|Hhn]; [by eauto|].
  destruct Hh as [?|[[hd Hhd] Hi]]; [done|]. rewrite Hhd. simpl.
  case_match; [by eauto|]. rewrite (on_thread_Some _ _ _ _ Hhd). cbn [mbind option_bind].
  pose proof (set_priority_Inv k (holder lk) hd (priority th) I Hhd Hi) as I'.
  unfold set_priority in I'. destruct (bool_decide (status hd = THREAD_READY)) eqn:Hst.
  - apply bool_decide_eq_true in Hst. assert (Hin : holder lk ∈ ready_list k).
    { by apply (Wf_in_ready _ _ _ _ _ _ _ _ _ _ _ (inv_wf _ I) _ _ Hhd). }
    simpl in I' |- *. rewrite bool_decide_true by done. simpl.
    eapply IH; [exact I'|]. simpl. rewrite lookup_insert_eq. eauto.
  - simpl in I' |- *. eapply IH; [exact I'|]. simpl. rewrite lookup_insert_eq. eauto.
Qed.

(** A change of one thread that the scheduler does not see. *)
Lemma touch_Inv k t th th' k' :
  Inv k → threads k !! t = Some th → threads k' = <[t := th']> (threads k) →
  status th' = status th → code th' = code th →
  thread_ok (locks k) t th' → (priority th' = priority th ∨ t = current k) →
  wake_tick th' = wake_tick th → same_rest k k' → semas k' = semas k →
  locks k' = locks k → in_external_intr k' = false → interrupts k' = interrupts k → Inv k'.
Proof.
  intros I Ht HT Hs Hc Hok Hp Hw [Ecur Erd Eal Esl Eid Ein Etid Econ] HS HL Hctx Hint.
  destruct I as [W HC Hrs Hss (c & Hcur & Hcr & Hloop) _]. constructor.
  - unfold wf. rewrite HT, Ecur, Erd, Eal, Esl, Eid,
      Ein, Etid, HS, HL, Econ. by eapply Wf_touch.
  - unfold counts. rewrite HT, HS, HL. eapply Counts_same; [exact HC|exact Ht|..];
      rewrite ?Hs, ?Hc; try done.
    destruct (decide (status th = THREAD_BLOCKED ∧ code th = [])); [by left|by right; left].
  - unfold ready_sorted. rewrite Erd. eapply fmap_sorted_ext; [|exact Hrs].
    intros x Hx. symmetry. apply prio_of_ext. rewrite HT.
    destruct (decide (x = t)) as [->|]; [|by rewrite lookup_insert_ne].
    rewrite lookup_insert_eq, Ht. simpl. destruct Hp as [->| ->]; [done|].
    rewrite (Wf_in_ready _ _ _ _ _ _ _ _ _ _ _ W _ _ Hcur), Hcr in Hx. by destruct Hx.
  - unfold sleep_sorted. rewrite Esl. eapply fmap_sorted_ext; [|exact Hss].
    intros x _. symmetry. by eapply wake_of_insert.
  - rewrite HT, Ecur, Hint. destruct (decide (t = current k)) as [->|].
    + exists th'. rewrite lookup_insert_eq. simplify_eq. rewrite Hs, Hc. done.
    + exists c. rewrite lookup_insert_ne by done. done.
  - done.
Qed.

(** ** Client code *)

(** The current thread runs client code. *)
Definition at_client (k : kernel) (c : thread) : Prop :=
  Inv k ∧ threads k !! current k = Some c ∧ head (code c) = Some Client.

Lemma at_client_code k c :
  at_client k c → current k ≠ idle_thread k ∧ code c = [Client; Thread_exit] ∧
    tid_lock k ∉ held_by (locks k) (current k).
Proof.
  intros (I & Hc & Hhd). pose proof (inv_wf _ I) as W. wf_open W.
  specialize (wcode _ _ Hc). unfold thread_code_ok in wcode.
  destruct (code c) as [|f r]; [done|]. simpl in Hhd. simplify_eq. case_decide; [done|].
  destruct wcode as [[? ->]|[? _]]; done.
Qed.

Lemma recode_id k c : threads k !! current k = Some c → recode c (code c) k = k.
Proof.
  intros Hc. unfold recode. destruct k; simpl in *. f_equal.
  rewrite insert_id; [done|]. rewrite Hc. by destruct c.
Qed.

(** A call by client code, as a frame on top of it. *)
Lemma client_Pre f k c :
  at_client k c →
  code_wf (dom (semas k)) (dom (locks k)) (dom (conds k)) (tid_lock k)
    (held_by (locks k) (current k)) (f :: [Client; Thread_exit]) →
  (∀ l, l ∈ dom (locks k) → frame_weight l f = 0) →
  (∀ p, creating p (f :: [Client; Thread_exit]) = 0) →
  Pre f (code c) k c.
Proof.
  intros A Hwf Hw Hcr. destruct (at_client_code _ _ A) as (Hi & Hcd & _).
  destruct A as (I & Hc & _). constructor; try done.
  - rewrite decide_False, Hcd by done. done.
  - intros l Hl. simpl. rewrite (Hw _ Hl), Hcd. done.
  - intros p. by rewrite Hcd, Hcr.
Qed.

Lemma client_neutral k c : at_client k c → Pre IntrReturn (code c) k c.
Proof.
  intros A. destruct (at_client_code _ _ A) as (_ & _ & Ht).
  by apply client_Pre.
Qed.

(** ** Locks *)

Lemma lock_held_eq l k c lk :
  threads k !! current k = Some c → current k ≠ NULL → magic c = THREAD_MAGIC →
  status c = THREAD_RUNNING → l ≠ NULL → locks k !! l = Some lk →
  lock_held_by_current_thread l k = Some (holder lk =? current k).
Proof.
  intros Hc Hn Hm Hst Hl Hlk. unfold lock_held_by_current_thread.
  apply Z.eqb_neq in Hl as ->. simpl. rewrite Hlk. simpl.
  by rewrite (thread_current_Some _ _ Hc Hn Hm Hst).
Qed.

Lemma Pre_code_ok f r k c :
  Pre f r k c → (match f with Lock_acquire _ | Lock_release _ | LockAcquireTail _
    | Cond_signal _ _ | Cond_broadcast _ _ | CreateTail _ _ _ | Thread_exit => True
    | _ => False end) →
  current k ≠ idle_thread k ∧
  code_ok (dom (semas k)) (dom (locks k)) (dom (conds k)) (tid_lock k)
    (held_by (locks k) (current k)) (f :: r).
Proof.
  intros P Hf. pose proof (p_code _ _ _ _ P) as Hc.
  case_decide; split; try done; by destruct f.
Qed.

Lemma exec_lock_acquire l r k c :
  Pre (Lock_acquire l) r k c → ∃ k', exec (Lock_acquire l) (recode c r k) = Some k' ∧ Inv k'.
Proof.
  intros P. destruct (Pre_code_ok _ _ _ _ P) as (Hi & Hl & Hh & Hr); [done|].
  destruct (Pre_thread _ _ _ _ P) as [Hnull Hm]. pose proof (Pre_status _ _ _ _ P) as Hst.
  pose proof (p_inv _ _ _ _ P) as I. pose proof (inv_wf _ I) as W. wf_open W.
  apply elem_of_dom in Hl as Hl'. destruct Hl' as [lk Hlk].
  destruct (wlock _ _ Hlk) as (Hln & Hlsn & Hls & Hhold).
  set (c1 := c <| code := Sema_down (lock_sema l) :: LockAcquireTail l :: r |>).
  assert (Hcd : code_ok (dom (semas k)) (dom (locks k)) (dom (conds k)) (tid_lock k)
            (held_by (locks k) (current k)) (code c1)).
  { simpl. split_and!; try done. unfold down_ok, lock_sema in *.
    replace (l + 4 - 4) with l by lia. eauto. }
  assert (I1 : Inv (recode c (code c1) k)).
  { eapply (Inv_recode _ _ _ _ c1); [exact P|done..|apply I|by eapply same_thread_code|done| |done|].
    - intros l' _. simpl. unfold lock_sema.
      destruct (Z.eqb_spec l l'), (Z.eqb_spec (l + 4) (l' + 4)); lia.
    - unfold thread_code_ok. rewrite decide_False by done. by left. }
  simpl. unfold lock_acquire, intr_context. rewrite (recode_current _ _ _ _ _ P).
  cbn [mbind option_bind]. apply Z.eqb_neq in Hln as Hln'. rewrite Hln'. simpl.
  rewrite (inv_context _ I). simpl.
  erewrite lock_held_eq; [|simpl; apply lookup_insert_eq|done..]. simpl.
  assert (holder lk ≠ current k) as Hhc.
  { intros E. apply Hh. apply elem_of_held_by. eauto. }
  apply Z.eqb_neq in Hhc as Hhc'. rewrite Hhc'. simpl. rewrite Hlk. simpl. unfold push_frames.
  erewrite on_thread_Some by (simpl; apply lookup_insert_eq). simpl. rewrite insert_insert_eq.
  destruct (negb (thread_mlfqs k) && negb (holder lk =? NULL)) eqn:Eb; [|by eauto]. bool_simp.
  erewrite on_thread_Some by (simpl; apply lookup_insert_eq). simpl. rewrite insert_insert_eq.
  destruct Hhold as [?|[[hd Hhd] Hhi]]; [done|].
  assert (I2 : Inv (k <| threads ::= insert (current k) (c1 <| waiting_lock := l |>) |>)).
  { eapply (touch_Inv (recode c (code c1) k) (current k) c1 (c1 <| waiting_lock := l |>)); [done|apply lookup_insert_eq|..];
      try done; simpl; [by rewrite insert_insert_eq| |by right|apply I].
    split_and!; try done. right. by eauto. }
  erewrite on_thread_Some by (simpl; rewrite lookup_insert_ne by congruence; exact Hhd).
  apply (donate_priority_ok 8 (current k)); simpl.
  - eapply (touch_Inv _ (holder lk) hd (hd <| donations ::= λ d, d ++ [current k] |>));
      [exact I2|..]; simpl; try done.
    + by rewrite lookup_insert_ne by congruence.
    + apply (wthread _ _ Hhd).
    + by left.
    + apply I.
  - rewrite lookup_insert_ne by congruence. rewrite lookup_insert_eq. by eauto.
Qed.

(** The current thread takes or drops a lock. *)
Lemma Inv_holder f r k c c' l lk h k' :
  Pre f r k c → current k ≠ idle_thread k → locks k !! l = Some lk →
  (holder lk = NULL ∨ holder lk = current k) → (h = NULL ∨ h = current k) →
  threads k' = <[current k := c']> (threads k) → same_rest k k' →
  locks k' = <[l := Lock h]> (locks k) → in_external_intr k' = false →
  semas_but (current k) (semas k) (semas k') →
  (∀ s sm, semas k' !! s = Some sm → current k ∉ waiters sm) →
  status c' = THREAD_RUNNING → thread_ok (locks k) (current k) c' →
  code_ok (dom (semas k)) (dom (locks k)) (dom (conds k)) (tid_lock k)
    (held_by (locks k') (current k)) (code c') →
  (∀ p, creating p (code c') = creating p (f :: r)) →
  (∀ l' sm', l' ∈ dom (locks k) → semas k' !! lock_sema l' = Some sm' →
     ∃ sm, semas k !! lock_sema l' = Some sm ∧
       value sm' + (if decide (l' = l) then holder_count (Lock h) else 0) + weight l' (code c') =
       value sm + (if decide (l' = l) then holder_count lk else 0) + weight l' (f :: r)) →
  Inv k'.
Proof.
  intros P Hi Hlk Hold Hnew HT [Ecur Erd Eal Esl Eid Ein Etid Econ] HL Hctx HS HS' Hst Hok
    Hcd Hcr Hwt.
  pose proof P as [I Hc _ Pw Pc]. pose proof (Pre_status _ _ _ _ P) as Hst0.
  destruct (Pre_lists _ _ _ _ P) as (Hnr & Hns & _).
  destruct I as [W HCt Hr Hsls _ _].
  assert (HdL : dom (<[l := Lock h]> (locks k)) = dom (locks k)).
  { apply dom_insert_lookup_L. by eauto. }
  assert (W1 : Wf (threads k) (current k) (ready_list k) (all_list k) (sleep_list k)
     (idle_thread k) (initial_thread k) (tid_lock k) (semas k') (locks k) (conds k)).
  { rewrite <-(insert_id (threads k) (current k) c) by done. pose proof W as W'. wf_open W'.
    eapply Wf_move; [exact W|exact Hc|..]; try done; auto using same_but_refl.
    - unfold status_ok. by rewrite Hst0.
    - by apply (Wf_in_ready _ _ _ _ _ _ _ _ _ _ _ W).
    - intros s sm Hs Hin. by destruct (HS' _ _ Hs). }
  constructor.
  - unfold wf. rewrite HT, Ecur, Erd, Eal, Esl, Eid, Ein, Etid, HL, Econ.
    eapply Wf_holder; [exact W1|done..|]. rewrite <-HL. unfold thread_code_ok.
    rewrite decide_False by done. left. rewrite HL, HdL, <-HL. destruct HS as [-> _].
    apply code_ok_wf; [by eapply code_ok_not_loop|done].
  - unfold counts. rewrite HT, HL. eapply Counts_move; [done|done|..].
    + right; left. intros []; congruence.
    + intros p. by rewrite Hcr, Pc.
    + intros l' lk' sm' Hl' Hs. assert (l' ∈ dom (locks k)) as Hd.
      { rewrite <-HdL. by eapply elem_of_dom_2. }
      destruct (Hwt _ _ Hd Hs) as (sm & Hsm & Heq). rewrite (Pw _ Hd).
      destruct (decide (l' = l)) as [->|Hne].
      * rewrite lookup_insert_eq in Hl'. simplify_eq. exists lk, sm. split_and!; [done..|lia].
      * rewrite lookup_insert_ne in Hl' by done. exists lk', sm. split_and!; [done..|lia].
  - unfold ready_sorted. rewrite Erd. eapply fmap_sorted_ext; [|exact Hr].
    intros t Hin'. unfold prio_of. rewrite HT, lookup_insert_ne; [done|]. by intros <-.
  - unfold sleep_sorted. rewrite Esl. eapply fmap_sorted_ext; [|exact Hsls].
    intros t Hin'. unfold wake_of. rewrite HT, lookup_insert_ne; [done|]. by intros <-.
  - exists c'. rewrite HT, Ecur, lookup_insert_eq. split_and!; [done|done|].
    rewrite (code_ok_not_loop _ _ _ _ _ _ Hcd). done.
  - done.
Qed.

Lemma exec_lock_acquire_tail l r k c :
  Pre (LockAcquireTail l) r k c →
  ∃ k', exec (LockAcquireTail l) (recode c r k) = Some k' ∧ Inv k'.
Proof.
  intros P. destruct (Pre_code_ok _ _ _ _ P) as (Hi & Hl & Hh & Hr); [done|].
  pose proof (Pre_status _ _ _ _ P) as Hst.
  pose proof (p_inv _ _ _ _ P) as I. pose proof (inv_wf _ I) as W. pose proof W as W'. wf_open W'.
  apply elem_of_dom in Hl as Hl'. destruct Hl' as [lk Hlk].
  destruct (wlock _ _ Hlk) as (_ & _ & [sm Hsm]%elem_of_dom & _).
  assert (Hwt : 1 <= weight l (LockAcquireTail l :: r)) by (by eapply weight_code_ok').
  destruct (lock_value_zero _ _ _ _ _ _ P Hl Hsm Hwt) as (_ & _ & Hnull).
  specialize (Hnull _ Hlk).
  simpl. unfold lock_acquire_tail. rewrite (recode_current _ _ _ _ _ P). cbn [mbind option_bind].
  erewrite on_thread_Some by (simpl; apply lookup_insert_eq). simpl. rewrite insert_insert_eq.
  unfold on_lock; simpl. rewrite Hlk. simpl. eexists. split; [done|].
  eapply (Inv_holder _ _ _ _ (c <| code := r |> <| waiting_lock := NULL |>) l lk (current k));
    [exact P|done|done|by left|by right|..]; simpl; try done.
  - apply I.
  - by eapply semas_but_refl.
  - apply (Pre_lists _ _ _ _ P).
  - destruct (Pre_thread _ _ _ _ P). split_and!; [done|done|by left].
  - rewrite held_by_insert, decide_True by done. done.
  - intros l' sm' _ Hsm'. exists sm'. split; [done|]. unfold holder_count. simpl.
    destruct (Pre_thread _ _ _ _ P) as [Hn _]. apply Z.eqb_neq in Hn as ->. rewrite Hnull.
    destruct (decide (l' = l)) as [->|]; [rewrite !Z.eqb_refl; simpl; lia|].
    destruct (Z.eqb_spec l l'); [done|lia].
Qed.

Lemma lock_release_touch l k c :
  Inv k → threads k !! current k = Some c →
  ∃ k', (k0 ← remove_donations_for_lock (current k) l k;
         update_priority_after_release (current k) k0) = Some k' ∧ Inv k'.
Proof.
  intros I Hc. pose proof (inv_wf _ I) as W. wf_open W.
  unfold remove_donations_for_lock. rewrite (on_thread_Some _ _ _ _ Hc). cbn [mbind option_bind].
  unfold update_priority_after_release, thread_get_effective_priority. simpl.
  rewrite lookup_insert_eq. simpl.
  erewrite on_thread_Some by (simpl; apply lookup_insert_eq). simpl. rewrite insert_insert_eq.
  eexists. split; [done|].
  eapply (touch_Inv k (current k) c); [done|done|simpl; reflexivity|..]; simpl; try done.
  - apply (wthread _ _ Hc).
  - by right.
  - apply I.
Qed.

Lemma exec_lock_release l r k c :
  Pre (Lock_release l) r k c → ∃ k', exec (Lock_release l) (recode c r k) = Some k' ∧ Inv k'.
Proof.
  intros P. destruct (Pre_code_ok _ _ _ _ P) as (Hi & Hl & Hr); [done|].
  destruct (Pre_thread _ _ _ _ P) as [Hnull Hm]. pose proof (Pre_status _ _ _ _ P) as Hst.
  pose proof (p_inv _ _ _ _ P) as I. pose proof (inv_wf _ I) as W. pose proof W as W'. wf_open W'.
  apply elem_of_held_by in Hl as (lk & Hlk & Hh).
  destruct (wlock _ _ Hlk) as (Hln & Hlsn & Hls & _).
  set (c1 := c <| code := Sema_up (lock_sema l) :: r |>).
  assert (I1 : Inv (recode c (code c1) k <| locks ::= insert l (Lock NULL) |>)).
  { eapply (Inv_holder _ _ _ _ c1 l lk NULL);
      [exact P|done|done|by right|by left|..]; simpl; try done.
    - apply I.
    - by eapply semas_but_refl.
    - apply (Pre_lists _ _ _ _ P).
    - apply (wthread _ _ (p_cur _ _ _ _ P)).
    - rewrite held_by_insert, decide_False by (simpl; congruence). done.
    - intros l' sm' _ Hsm'. exists sm'. split; [done|]. unfold holder_count. simpl.
      rewrite Hh. apply Z.eqb_neq in Hnull as ->. unfold lock_sema.
      destruct (decide (l' = l)) as [->|]; [rewrite !Z.eqb_refl; lia|].
      destruct (Z.eqb_spec (l + 4) (l' + 4)); lia. }
  simpl. unfold lock_release. apply Z.eqb_neq in Hln as Hln'. rewrite Hln'. simpl.
  erewrite lock_held_eq; [|simpl; apply lookup_insert_eq|done..]. simpl.
  rewrite Hh, Z.eqb_refl. simpl. rewrite (recode_current _ _ _ _ _ P). cbn [mbind option_bind].
  unfold on_lock; simpl. rewrite Hlk. simpl. unfold push_frames.
  erewrite on_thread_Some by (simpl; apply lookup_insert_eq). simpl. rewrite insert_insert_eq.
  case_match; [|by eauto].
  refine (lock_release_touch l _ c1 I1 _). simpl. apply lookup_insert_eq.
Qed.

Lemma exec_client_lock_try_acquire l k c :
  at_client k c → client_ok k (Lock_try_acquire l) →
  ∃ k', exec (Lock_try_acquire l) k = Some k' ∧ Inv k'.
Proof.
  intros A (Hl & Hh & Htid). pose proof (client_neutral _ _ A) as P.
  destruct (at_client_code _ _ A) as (Hi & Hcd & Ht).
  destruct (Pre_thread _ _ _ _ P) as [Hnull Hm]. pose proof (Pre_status _ _ _ _ P) as Hst.
  pose proof (p_inv _ _ _ _ P) as I. pose proof (inv_wf _ I) as W. pose proof W as W'. wf_open W'.
  pose proof (p_cur _ _ _ _ P) as Hc.
  apply elem_of_dom in Hl as Hl'. destruct Hl' as [lk Hlk].
  destruct (wlock _ _ Hlk) as (Hln & Hlsn & Hls & Hhold).
  assert (holder lk ≠ current k) as Hhc.
  { intros E. apply Hh. apply elem_of_held_by. eauto. }
  simpl. unfold lock_try_acquire. apply Z.eqb_neq in Hln as Hln'. rewrite Hln'. simpl.
  erewrite lock_held_eq by done. simpl. apply Z.eqb_neq in Hhc as Hhc'. rewrite Hhc'. simpl.
  destruct (sema_try_down_ok (lock_sema l) k c P Hlsn) as (b & sm & Hsm & Hb & ->);
    [by apply elem_of_dom|]. simpl. destruct b; simpl.
  - symmetry in Hb. bool_simp. erewrite thread_current_Some by done. simpl.
    unfold on_lock; simpl. rewrite Hlk. simpl. erewrite on_thread_Some by exact Hc.
    eexists. split; [done|].
    pose proof (lock_count _ _ _ (inv_counts _ I) _ _ _ Hlk Hsm) as Hcount.
    assert (0 <= tsum (weight l) (threads k)).
    { apply tsum_nonneg. intros t th Hth. by eapply Wf_weight_nonneg. }
    assert (holder lk = NULL) as Hz.
    { unfold holder_count in Hcount. destruct (Z.eqb_spec (holder lk) NULL); [done|lia]. }
    destruct (wsema _ _ Hsm) as (Hv & Hnd & _).
    eapply (Inv_holder _ _ _ _ (c <| result := 1 |>) l lk (current k));
      [exact P|done|done|by left|by right|..]; simpl; try done.
    + apply I.
    + eapply semas_but_insert; [done..| |by apply same_but_refl]. simpl. lia.
    + destruct (Pre_lists _ _ _ _ P) as (_ & _ & Hnw).
      intros x xm [[<- <-]|[? Hx]]%lookup_insert_Some; [exact (Hnw _ _ Hsm)|by eapply Hnw].
    + apply (wthread _ _ Hc).
    + rewrite Hcd, held_by_insert, decide_True by done. simpl. split; [|done]. set_solver.
    + intros l' sm' _. unfold holder_count. simpl. apply Z.eqb_neq in Hnull as ->.
      destruct (decide (l' = l)) as [->|Hne].
      * rewrite lookup_insert_eq. intros [= <-]. exists sm. split; [done|].
        rewrite Hz. simpl. lia.
      * rewrite lookup_insert_ne by (unfold lock_sema; lia). intros. exists sm'.
        split; [done|lia].
  - erewrite on_thread_Some by exact Hc. eexists. split; [done|].
    eapply (touch_Inv k (current k) c); [done|done|simpl; reflexivity|..]; simpl; try done.
    + apply (wthread _ _ Hc).
    + by left.
    + apply I.
Qed.
