(* ===== verification/SchedCond.v ===== *)
(** * New objects and condition variables keep the invariant *)

From S2P Require Import Prelude OrdList FixedPoint Kernel Thread Synch Sched.
From S2P Require Import SchedInv SchedSwitch SchedOps SchedLock.

Open Scope Z_scope.

(** ** Initialisation *)

Lemma Inv_new k S' L' C' :
  Inv k → semas k ⊆ S' → locks k ⊆ L' → conds k ⊆ C' →
  (∀ s sm, S' !! s = Some sm → semas k !! s = None →
    0 <= value sm < 2 ^ 32 ∧ waiters sm = []) →
  (∀ l lk, L' !! l = Some lk → locks k !! l = None →
    l ≠ NULL ∧ lock_sema l ≠ NULL ∧ holder lk = NULL ∧ semas k !! lock_sema l = None ∧
    ∃ sm, S' !! lock_sema l = Some sm ∧ value sm = 1) →
  (∀ c ws, C' !! c = Some ws → conds k !! c = None → ws = []) →
  Inv (k <| semas := S' |> <| locks := L' |> <| conds := C' |>).
Proof.
  intros [W HC Hr Hs Hrun Hctx] HS HL HCC HS' HL' HC'. constructor; try done.
  - by eapply Wf_new.
  - by eapply Counts_new.
Qed.

Lemma exec_client_sema_init s v k :
  Inv k → client_ok k (Sema_init s v) → ∃ k', exec (Sema_init s v) k = Some k' ∧ Inv k'.
Proof.
  intros I (Hn & Hv & Hs). simpl. unfold sema_init. apply Z.eqb_neq in Hn as ->. simpl.
  eexists. split; [done|].
  assert (Inv (k <| semas ::= insert s (Semaphore v []) |> <| locks := locks k |>
                 <| conds := conds k |>)) as I'; [|exact I'].
  apply Inv_new; try done.
  - by apply insert_subseteq.
  - intros x xm [[<- <-]|[? Hx]]%lookup_insert_Some; [done|intros; congruence].
  - congruence.
  - congruence.
Qed.

Lemma exec_client_lock_init l k :
  Inv k → client_ok k (Lock_init l) → ∃ k', exec (Lock_init l) k = Some k' ∧ Inv k'.
Proof.
  intros I (Hn & Hsn & Hl & Hs). simpl. unfold lock_init, sema_init.
  apply Z.eqb_neq in Hn as Hn', Hsn as Hsn'. rewrite Hn', Hsn'. simpl.
  eexists. split; [done|].
  assert (Inv (k <| semas ::= insert (lock_sema l) (Semaphore 1 []) |>
     <| locks ::= insert l (Lock NULL) |> <| conds := conds k |>)) as I'; [|exact I'].
  apply Inv_new; try done.
  - by apply insert_subseteq.
  - by apply insert_subseteq.
  - intros x xm [[<- <-]|[? Hx]]%lookup_insert_Some; [done|intros; congruence].
  - intros x xm [[<- <-]|[? Hx]]%lookup_insert_Some; [|simpl in *; intros; congruence]. intros _.
    split_and!; try done. rewrite lookup_insert_eq. eauto.
  - congruence.
Qed.

Lemma exec_client_cond_init c k :
  Inv k → client_ok k (Cond_init c) → ∃ k', exec (Cond_init c) k = Some k' ∧ Inv k'.
Proof.
  intros I (Hn & Hc). simpl. unfold cond_init. apply Z.eqb_neq in Hn as ->. simpl.
  eexists. split; [done|].
  assert (Inv (k <| semas := semas k |> <| locks := locks k |>
                 <| conds ::= insert c [] |>)) as I'; [|exact I'].
  apply Inv_new; try done.
  - by apply insert_subseteq.
  - congruence.
  - congruence.
  - intros x xm [[<- <-]|[? Hx]]%lookup_insert_Some; [done|simpl in *; intros; congruence].
Qed.

(** ** Semaphore operations of client code *)

Lemma free_sema_weight k s l :
  free_sema k s → l ∈ dom (locks k) → (s =? lock_sema l) = false.
Proof.
  intros (_ & _ & Hl) Hd. apply Z.eqb_neq. intros ->. unfold lock_sema in Hl.
  replace (l + 4 - 4) with l in Hl by lia. by apply not_elem_of_dom in Hl.
Qed.

Lemma client_sema_down_Pre s k c :
  at_client k c → free_sema k s → Pre (Sema_down s) (code c) k c.
Proof.
  intros A F. pose proof F as (Hn & Hs & Hl). destruct (at_client_code _ _ A) as (_ & _ & Ht).
  apply client_Pre; try done.
  - simpl. unfold down_ok. apply elem_of_dom in Hs. apply not_elem_of_dom in Hl.
    split_and!; auto.
  - intros l Hd. simpl. by rewrite (free_sema_weight _ _ _ F Hd).
Qed.

Lemma client_sema_up_Pre s k c :
  at_client k c → free_sema k s → Pre (Sema_up s) (code c) k c.
Proof.
  intros A F. pose proof F as (Hn & Hs & Hl). destruct (at_client_code _ _ A) as (_ & _ & Ht).
  apply client_Pre; try done.
  - simpl. apply elem_of_dom in Hs. split_and!; auto.
  - intros l Hd. simpl. by rewrite (free_sema_weight _ _ _ F Hd).
Qed.

Lemma at_client_recode k c : at_client k c → recode c (code c) k = k.
Proof. intros A. apply recode_id, A. Qed.

Lemma exec_client_sema_try_down s k c :
  at_client k c → free_sema k s → ∃ k', exec (Sema_try_down s) k = Some k' ∧ Inv k'.
Proof.
  intros A F. pose proof (client_neutral _ _ A) as P. pose proof F as (Hn & Hs & Hl).
  pose proof (p_cur _ _ _ _ P) as Hc. pose proof (p_inv _ _ _ _ P) as I.
  pose proof (inv_wf _ I) as W. wf_open W.
  destruct (sema_try_down_ok s k c P Hn Hs) as (b & sm & Hsm & Hb & Heq). simpl. rewrite Heq.
  destruct b; simpl.
  - symmetry in Hb. bool_simp.
    assert (I' : Inv (k <| semas ::= insert s (sm <| value ::= Z.pred |>) |>)).
    { assert (Inv (recode c (code c) k <| interrupts := interrupts k |>
         <| semas ::= insert s (sm <| value ::= Z.pred |>) |>)) as I2.
      { apply down_Inv; [|done|lia]. left. by apply client_sema_down_Pre. }
      rewrite recode_id in I2 by exact Hc. exact I2. }
    erewrite on_thread_Some by exact Hc. eexists. split; [done|].
    eapply (touch_Inv _ (current k) c); [exact I'|done|simpl; reflexivity|..]; simpl; try done.
    + apply (wthread _ _ Hc).
    + by left.
    + apply I.
  - erewrite on_thread_Some by exact Hc. eexists. split; [done|].
    eapply (touch_Inv k (current k) c); [done|done|simpl; reflexivity|..]; simpl; try done.
    + apply (wthread _ _ Hc).
    + by left.
    + apply I.
Qed.

(** ** Condition variables *)

Lemma conds_Inv k c ws ws' :
  Inv k → conds k !! c = Some ws → cond_ok (semas k) (locks k) c ws' →
  Inv (k <| conds ::= insert c ws' |>).
Proof.
  intros [W HC Hr Hs Hrun Hctx] Hc Hok. constructor; try done. unfold wf; simpl.
  assert (Hd : dom (<[c := ws']> (conds k)) = dom (conds k))
    by (apply dom_insert_lookup_L; eauto).
  wf_open W. constructor; auto.
  - intros t th Ht. specialize (wcode _ _ Ht). unfold thread_code_ok in *. by rewrite Hd.
  - intros x xs [[<- <-]|[? Hx]]%lookup_insert_Some; [done|by apply wcond].
Qed.

Lemma exec_client_cond_wait cv l w k c :
  at_client k c → client_ok k (Cond_wait cv l w) →
  ∃ k', exec (Cond_wait cv l w) k = Some k' ∧ Inv k'.
Proof.
  intros A (Hcn & Hcd & Hl & Hwn & Hw). destruct (at_client_code _ _ A) as (Hi & Hcode & Ht).
  pose proof (client_neutral _ _ A) as P. pose proof P as [I Hc _ _ _].
  pose proof (Pre_status _ _ _ _ P) as Hst. destruct (Pre_thread _ _ _ _ P) as [Hnull Hm].
  pose proof (inv_wf _ I) as W. pose proof W as W'. wf_open W'.
  pose proof Hl as (lk & Hlk & Hh)%elem_of_held_by. apply elem_of_dom in Hcd as [ws Hws].
  destruct (wlock _ _ Hlk) as (Hln & _).
  assert (Hwl : w - 4 ∉ dom (locks k)).
  { intros [lk' Hlk']%elem_of_dom. destruct (wlock _ _ Hlk') as (_ & _ & Hd & _).
    unfold lock_sema in Hd. replace (w - 4 + 4) with w in Hd by lia.
    by apply not_elem_of_dom in Hw. }
  destruct (exec_client_sema_init w 0 k I) as (k1 & Hk1 & I1); [done|].
  simpl in Hk1. unfold sema_init in Hk1. apply Z.eqb_neq in Hwn as Hwn'.
  rewrite Hwn' in Hk1. simpl in Hk1. injection Hk1 as <-.
  set (k1 := k <| semas ::= insert w (Semaphore 0 []) |>) in *.
  assert (I2 : Inv (k1 <| conds ::= insert cv (ws ++ [w]) |>)).
  { eapply conds_Inv; [exact I1|exact Hws|]. intros x. simpl.
    rewrite dom_insert_L, elem_of_app, list_elem_of_singleton. intros [Hx| ->]; [|set_solver].
    destruct (wcond _ _ Hws _ Hx) as (? & ? & ?). set_solver. }
  simpl. unfold cond_wait, intr_context.
  apply Z.eqb_neq in Hcn as ->. apply Z.eqb_neq in Hln as Hln'. rewrite Hln'. simpl.
  rewrite (inv_context _ I). simpl. erewrite lock_held_eq by done. simpl.
  rewrite Hh, Z.eqb_refl. simpl. erewrite thread_current_Some by done. simpl.
  unfold sema_init. rewrite Hwn'. simpl. unfold on_cond; simpl. rewrite Hws. simpl.
  unfold push_frames. erewrite on_thread_Some by exact Hc. eexists. split; [done|].
  assert (A2 : at_client (k1 <| conds ::= insert cv (ws ++ [w]) |>) c).
  { split; [done|]. split; [done|]. by rewrite Hcode. }
  pose proof (client_neutral _ _ A2) as P2.
  eapply (Inv_recode _ _ _ _ (c <| code ::= λ r, [Lock_release l; Sema_down w; Lock_acquire l] ++ r |>));
    [exact P2|..]; simpl; try done.
  - apply I.
  - intros l' Hl'. destruct (Z.eqb_spec w (lock_sema l')) as [->|]; [|done].
    unfold lock_sema in Hwl. replace (l' + 4 - 4) with l' in Hwl by lia. done.
  - unfold thread_code_ok. rewrite decide_False by done. left. simpl. rewrite Hcode. simpl.
    unfold down_ok. rewrite dom_insert_L. split_and!; try done.
    + clear. set_solver.
    + by left.
    + by eapply elem_of_dom_2.
    + clear. set_solver.
    + clear -Ht Hl. set_solver.
Qed.

Lemma cond_sort_semas ws k k' :
  semas k' = semas k → is_Some (cond_sort ws k) → is_Some (cond_sort ws k').
Proof.
  intros HS. unfold cond_sort, cond_waiter_thread. rewrite HS.
  destruct ws as [|? [|? ?]]; [done..|]. intros [? H].
  destruct (forallb _ _) eqn:E; [simpl; eauto|done].
Qed.

Lemma cond_sort_perm ws ws' k : cond_sort ws k = Some ws' → ws' ≡ₚ ws.
Proof.
  unfold cond_sort. destruct ws as [|? [|? ?]]; try (intros [= <-]; done).
  destruct (forallb _ _); [|done]. cbn [ASSERT mbind option_bind]. intros [= <-]. apply isort_perm.
Qed.

Lemma exec_cond_signal cv l r k c :
  Pre (Cond_signal cv l) r k c → settled k cv →
  ∃ k', exec (Cond_signal cv l) (recode c r k) = Some k' ∧ Inv k'.
Proof.
  intros P Hset. destruct (Pre_code_ok _ _ _ _ P) as (Hi & Hcv & Hcn & Hl & Hr); [done|].
  pose proof (p_inv _ _ _ _ P) as I. pose proof (inv_wf _ I) as W. wf_open W.
  pose proof (Pre_status _ _ _ _ P) as Hst. destruct (Pre_thread _ _ _ _ P) as [Hnull Hm].
  apply elem_of_held_by in Hl as (lk & Hlk & Hh). destruct (wlock _ _ Hlk) as (Hln & _).
  apply elem_of_dom in Hcv as [ws Hws].
  assert (I1 : Inv (recode c r k)).
  { eapply popped_Inv; [exact P|done..|apply I|by eapply same_thread_code|done]. }
  simpl. unfold cond_signal, intr_context. apply Z.eqb_neq in Hcn as ->.
  apply Z.eqb_neq in Hln as Hln'. rewrite Hln'. simpl. rewrite (inv_context _ I). simpl.
  erewrite lock_held_eq; [|simpl; apply lookup_insert_eq|done..].
  simpl. rewrite Hh, Z.eqb_refl. simpl. rewrite (recode_current _ _ _ _ _ P).
  cbn [mbind option_bind]. change (conds (recode c r k)) with (conds k). rewrite Hws.
  cbn [mbind option_bind].
  destruct (cond_sort_semas ws k (recode c r k) eq_refl (Hset _ Hws)) as [ws' Hws'].
  pose proof (cond_sort_perm _ _ _ Hws') as Hperm. rewrite Hws'. cbn [mbind option_bind].
  destruct ws' as [|w rest]; [by eauto|].
  assert (Hin : ∀ x, x ∈ w :: rest → x ∈ ws) by (intros x; by rewrite Hperm).
  destruct (wcond _ _ Hws w) as (Hwn & Hwd & Hwl); [apply Hin; left|].
  unfold on_cond; simpl. rewrite Hws. simpl. unfold push_frames.
  erewrite on_thread_Some by (simpl; apply lookup_insert_eq). simpl. rewrite insert_insert_eq.
  eexists. split; [done|].
  assert (I2 : Inv (recode c (Sema_up w :: r) k)).
  { eapply (Inv_recode _ _ _ _ (c <| code := Sema_up w :: r |>)); [exact P|..]; simpl; try done.
    - apply I.
    - intros l' Hl'. destruct (Z.eqb_spec w (lock_sema l')) as [->|]; [|done].
      unfold lock_sema in Hwl. replace (l' + 4 - 4) with l' in Hwl by lia. done.
    - unfold thread_code_ok. rewrite decide_False by done. by left. }
  refine (conds_Inv (recode c (Sema_up w :: r) k) cv ws rest I2 Hws _).
  intros x Hx. apply (wcond _ _ Hws). apply Hin. by right.
Qed.

Lemma exec_cond_broadcast cv l r k c :
  Pre (Cond_broadcast cv l) r k c →
  ∃ k', exec (Cond_broadcast cv l) (recode c r k) = Some k' ∧ Inv k'.
Proof.
  intros P. destruct (Pre_code_ok _ _ _ _ P) as (Hi & Hcv & Hcn & Hl & Hr); [done|].
  pose proof (p_inv _ _ _ _ P) as I. pose proof (inv_wf _ I) as W. wf_open W.
  pose proof Hl as (lk & Hlk & Hh)%elem_of_held_by. destruct (wlock _ _ Hlk) as (Hln & _).
  pose proof Hcv as [ws Hws]%elem_of_dom.
  assert (I1 : Inv (recode c r k)).
  { eapply popped_Inv; [exact P|done..|apply I|by eapply same_thread_code|done]. }
  simpl. unfold cond_broadcast. apply Z.eqb_neq in Hcn as Hcn'. rewrite Hcn'.
  apply Z.eqb_neq in Hln as ->. cbn [negb ASSERT mbind option_bind].
  rewrite (recode_current _ _ _ _ _ P). cbn [mbind option_bind].
  change (conds (recode c r k)) with (conds k). rewrite Hws. cbn [mbind option_bind].
  destruct ws; [by eauto|]. unfold push_frames.
  erewrite on_thread_Some by (simpl; apply lookup_insert_eq). simpl. rewrite insert_insert_eq.
  eexists. split; [done|].
  eapply (Inv_recode _ _ _ _ (c <| code := Cond_signal cv l :: Cond_broadcast cv l :: r |>));
    [exact P|..]; simpl; try done.
  - apply I.
  - by eapply same_thread_code.
  - unfold thread_code_ok. rewrite decide_False by done. left. by split_and!.
Qed.
