(* ===== verification/SchedThread.v ===== *)
(** * Thread operations and the timer interrupt keep the invariant *)

From S2P Require Import Prelude OrdList FixedPoint Kernel Thread Synch Sched.
From S2P Require Import SchedInv SchedSwitch SchedOps SchedLock SchedCond.

Open Scope Z_scope.

(** ** Priorities *)

Lemma exec_client_set_priority p k c :
  at_client k c → ∃ k', exec (Thread_set_priority p) k = Some k' ∧ Inv k'.
Proof.
  intros A. pose proof (client_neutral _ _ A) as P. pose proof P as [I Hc _ _ _].
  pose proof (inv_wf _ I) as W. wf_open W.
  destruct (at_client_code _ _ A) as (_ & Hcd & _).
  simpl. unfold thread_set_priority. destruct (thread_mlfqs k); [by eauto|].
  rewrite (thread_current_eq _ _ (inv_wf _ I) Hc (Pre_status _ _ _ _ P)). cbn [mbind option_bind].
  rewrite (on_thread_Some _ _ _ _ Hc). cbn [mbind option_bind].
  unfold thread_get_effective_priority; simpl. rewrite lookup_insert_eq. simpl.
  erewrite on_thread_Some by (simpl; apply lookup_insert_eq). simpl. rewrite insert_insert_eq.
  match goal with |- context [yield_to_front _ ?K] => set (k' := K) end.
  assert (I' : Inv k').
  { eapply (touch_Inv k (current k) c); [done|done|simpl; reflexivity|..]; simpl; try done.
    - apply (wthread _ _ Hc).
    - by right.
    - apply I. }
  eapply (yield_to_front_ok k'); [done|simpl; apply lookup_insert_eq|simpl; by rewrite Hcd].
Qed.

Lemma exec_client_set_nice n k c :
  at_client k c → ∃ k', exec (Thread_set_nice n) k = Some k' ∧ Inv k'.
Proof.
  intros A. pose proof (client_neutral _ _ A) as P. pose proof P as [I Hc _ _ _].
  pose proof (inv_wf _ I) as W. wf_open W.
  destruct (at_client_code _ _ A) as (Hi & Hcd & _).
  simpl. unfold thread_set_nice.
  rewrite (thread_current_eq _ _ (inv_wf _ I) Hc (Pre_status _ _ _ _ P)). cbn [mbind option_bind].
  erewrite on_thread_Some by exact Hc. cbn [mbind option_bind].
  unfold mlfqs_calc_priority. simpl (idle_thread _). apply Z.eqb_neq in Hi as ->.
  erewrite on_thread_Some by (simpl; apply lookup_insert_eq). cbn [mbind option_bind].
  match goal with |- context [ready_list ?K] => set (k2 := K) end.
  assert (Hcur : threads k2 !! current k2 = Some (c <| nice := n |>
                   <| priority := mlfqs_priority (recent_cpu c) n |>)).
  { simpl. apply lookup_insert_eq. }
  assert (I' : Inv (k2 <| interrupts := interrupts k |>)).
  { eapply (touch_Inv k (current k) c); [done|done|simpl; by rewrite insert_insert_eq|..];
      simpl; try done.
    - apply (wthread _ _ Hc).
    - by right.
    - apply I. }
  assert (Hy : ∃ k', thread_yield (k2 <| interrupts := interrupts k |>) = Some k' ∧ Inv k').
  { eapply thread_yield_ok; [exact I'|exact Hcur|simpl; by rewrite Hcd]. }
  rewrite !intr_set_level_eq by apply I. cbn [mbind option_bind].
  clearbody k2. destruct (ready_list k2); [by eauto|]. case_match; by eauto.
Qed.

(** ** Sleeping *)

Definition sleeping (k : kernel) (c : thread) (tick : Z) : kernel :=
  let c := c <| wake_tick := tick |> in
  k <| interrupts := INTR_OFF |>
    <| sleep_list ::= insert_ordered (thread_wake_tick_less
         (k <| threads ::= insert (current k) c |>)) (current k) |>
    <| threads ::= insert (current k)
         (c <| status := THREAD_BLOCKED |> <| code ::= cons (IntrSetLevel (interrupts k)) |>) |>.

Lemma sleeping_PreSwitch k c tick :
  at_client k c → PreSwitch (sleeping k c tick).
Proof.
  intros A. pose proof (client_neutral _ _ A) as P. pose proof P as [I Hc _ _ _].
  destruct (at_client_code _ _ A) as (Hi & Hcd & Ht).
  pose proof (Pre_status _ _ _ _ P) as Hst. destruct (Pre_lists _ _ _ _ P) as (Hnr & Hns & Hnw).
  destruct I as [W HC Hr Hsl _ Hctx]. constructor; try done.
  - pose proof W as W'. wf_open W'. unfold wf, sleeping; simpl.
    eapply Wf_move; [exact W|exact Hc|..]; simpl.
    + apply (wthread _ _ Hc).
    + unfold status_ok, parked; simpl. rewrite (insert_ordered_perm _ (current k)). left.
    + unfold thread_code_ok. rewrite decide_False by done. left. simpl. by rewrite Hcd.
    + by apply same_but_refl.
    + split; [done|by intros [? _]].
    + by apply same_but_insert.
    + eauto.
    + by eapply semas_but_refl.
    + intros s sm Hsm Hin. by destruct (Hnw _ _ Hsm).
  - eapply Counts_same; [exact HC|exact Hc| |done..]. right; left. intros []; congruence.
  - eapply fmap_sorted_ext; [|exact Hr]. intros t _. symmetry. by eapply prio_of_insert.
  - unfold sleep_sorted. set (f := wake_of (k <| threads ::= insert (current k) (c <| wake_tick := tick |>) |>)).
    eapply (fmap_sorted_ext _ f).
    + intros t _. symmetry. eapply wake_of_insert; simpl.
      * by rewrite insert_insert_eq.
      * apply lookup_insert_eq.
      * done.
    + refine (insert_sorted_le f (current k) (sleep_list k) _).
      eapply fmap_sorted_ext; [|exact Hsl]. intros t Hin. unfold f, wake_of. simpl.
      rewrite lookup_insert_ne; [done|]. by intros <-.
  - intros th. simpl. rewrite lookup_insert_eq. by intros [= <-].
Qed.

Lemma exec_client_timer_sleep n k c :
  at_client k c → client_ok k (Timer_sleep n) →
  ∃ k', exec (Timer_sleep n) k = Some k' ∧ Inv k'.
Proof.
  intros A Hon. pose proof (client_neutral _ _ A) as P. pose proof P as [I Hc _ _ _].
  pose proof (Pre_status _ _ _ _ P) as Hst. destruct (Pre_thread _ _ _ _ P) as [Hnull Hm].
  simpl in Hon |- *. unfold timer_sleep, intr_get_level. rewrite Hon. simpl.
  case_match; [by eauto|]. unfold thread_sleep, intr_context, timer_ticks.
  rewrite (thread_current_eq _ _ (inv_wf _ I) Hc Hst). cbn [mbind option_bind].
  rewrite (inv_context _ I). simpl.
  erewrite on_thread_Some by exact Hc. simpl. unfold push_frames.
  erewrite on_thread_Some by (simpl; apply lookup_insert_eq). simpl.
  erewrite thread_block_eq; [|simpl; apply lookup_insert_eq|done..|apply I|done].
  simpl. rewrite !insert_insert_eq.
  destruct (schedule_ok _ _ (sleeping_PreSwitch k c (ticks k + n) A) (lookup_insert_eq _ _ _))
    as (nh & _ & Heq & HI). eexists. split; [|exact HI]. rewrite <-Heq.
  unfold sleeping, intr_get_level; simpl. by rewrite Hon, (inv_context _ I).
Qed.

(** ** Exit *)

Definition dying (k : kernel) (c : thread) (r : list frame) : kernel :=
  k <| interrupts := INTR_OFF |> <| all_list ::= filter (λ t, t ≠ current k) |>
    <| threads ::= insert (current k) (c <| code := r |> <| status := THREAD_DYING |>) |>.

Lemma dying_PreSwitch f r k c :
  Pre f r k c → current k ≠ idle_thread k → held_by (locks k) (current k) = ∅ →
  (f = Thread_exit ∧ r = [] ∨ f = IntrReturn ∧ r = [Client; Thread_exit]) →
  PreSwitch (dying k c r).
Proof.
  intros P Hi Hheld Hr. pose proof P as [I Hc Pcode Pw Pc].
  pose proof (Pre_status _ _ _ _ P) as Hst. destruct (Pre_lists _ _ _ _ P) as (Hnr & Hns & Hnw).
  destruct I as [W HC Hrs Hsl _ Hctx]. constructor; try done.
  - assert (W1 : Wf (threads k) (current k) (ready_list k)
      (filter (λ t, t ≠ current k) (all_list k)) (sleep_list k)
      (idle_thread k) (initial_thread k) (tid_lock k) (semas k) (locks k) (conds k)).
    { wf_open W. constructor; auto.
      - intros t th Ht. specialize (wstatus _ _ Ht). unfold status_ok in *.
        destruct (status th); auto. destruct wstatus as (? & ? & ? & ? & ?).
        split_and!; try done. rewrite list_elem_of_filter. by intros [_ ?].
      - intros t [_ Ht]%list_elem_of_filter. auto. }
    wf_open W. unfold wf, dying; simpl. eapply Wf_move; [exact W1|exact Hc|..]; simpl.
    + apply (wthread _ _ Hc).
    + unfold status_ok; simpl. split_and!; [by left|done| |done|].
      * rewrite list_elem_of_filter. by intros [? _].
      * destruct Hr as [[_ ->]|[_ ->]]; auto.
    + unfold thread_code_ok. rewrite decide_False by done. simpl.
      destruct Hr as [[_ ->]|[_ ->]]; [right; auto|left].
      simpl. rewrite Hheld. split; [set_solver|done].
    + by apply same_but_refl.
    + split; [done|by intros [? _]].
    + by apply same_but_refl.
    + done.
    + by eapply semas_but_refl.
    + intros s sm Hsm Hin. by destruct (Hnw _ _ Hsm).
  - eapply Counts_same; [exact HC|exact Hc|..]; simpl; try done.
    + right; left. intros []; congruence.
    + intros p. rewrite Pc. by destruct Hr as [[-> ->]|[-> ->]].
    + intros l Hl. rewrite (Pw _ Hl). by destruct Hr as [[-> ->]|[-> ->]].
  - eapply fmap_sorted_ext; [|exact Hrs]. intros t _. symmetry. by eapply prio_of_insert.
  - eapply fmap_sorted_ext; [|exact Hsl]. intros t _. symmetry. by eapply wake_of_insert.
  - intros th. simpl. rewrite lookup_insert_eq. by intros [= <-].
Qed.

Lemma thread_exit_ok f r k c :
  Pre f r k c → current k ≠ idle_thread k → held_by (locks k) (current k) = ∅ →
  (f = Thread_exit ∧ r = [] ∨ f = IntrReturn ∧ r = [Client; Thread_exit]) →
  ∃ k', thread_exit (recode c r k) = Some k' ∧ Inv k'.
Proof.
  intros P Hi Hheld Hr. pose proof (dying_PreSwitch _ _ _ _ P Hi Hheld Hr) as D.
  pose proof (p_inv _ _ _ _ P) as I. pose proof (Pre_status _ _ _ _ P) as Hst.
  destruct (Pre_thread _ _ _ _ P) as [Hnull Hm].
  unfold thread_exit, intr_context. change (in_external_intr (recode c r k)) with (in_external_intr k).
  rewrite (inv_context _ I). simpl.
  erewrite thread_current_Some; [|simpl; apply lookup_insert_eq|done..]. simpl.
  erewrite on_thread_Some by (simpl; apply lookup_insert_eq). simpl. rewrite insert_insert_eq.
  destruct (schedule_ok _ _ D (lookup_insert_eq _ _ _)) as (nh & _ & Heq & HI).
  eexists. split; [|exact HI]. rewrite <-Heq. unfold dying; simpl. by rewrite (inv_context _ I).
Qed.

(** ** Creation *)

Lemma creating_fresh k p :
  counts k → threads k !! p = None → tsum (creating p) (threads k) = 0.
Proof.
  intros [_ HC] Hp. specialize (HC p).
  assert (0 <= tsum (creating p) (threads k)) by
    (apply tsum_nonneg; intros; apply creating_nonneg).
  destruct (decide (0 < tsum (creating p) (threads k))) as [Hlt|]; [|lia].
  destruct (HC Hlt) as (_ & th & ? & _). congruence.
Qed.

(** A new thread is registered, to be started by the current one. *)
Lemma register_Inv k c p ph prio :
  at_client k c → threads k !! p = None → p ≠ NULL →
  magic ph = THREAD_MAGIC → waiting_lock ph = NULL → status ph = THREAD_BLOCKED →
  code ph = [] →
  Inv (k <| all_list ::= λ l, l ++ [p] |>
         <| threads ::= λ T, <[current k := c <| code :=
              call_allocate_tid k ++ CreateTail p prio [Client] :: code c |>]> (<[p := ph]> T) |>).
Proof.
  intros A Hp Hn Hm Hw Hs Hcode. destruct (at_client_code _ _ A) as (Hi & Hcd & Htid).
  pose proof A as (I & Hc & Hhd).
  assert (Hne : current k ≠ p) by congruence.
  set (k1 := k <| all_list ::= λ l, l ++ [p] |> <| threads ::= insert p ph |>).
  assert (I1 : Inv k1).
  { destruct I as [W HC Hr Hsl (c0 & Hc0 & Hst & Hl) Hctx]. constructor; try done.
    - by apply Wf_new_thread.
    - by apply Counts_new_thread.
    - eapply fmap_sorted_ext; [|exact Hr]. intros t Hin.
      destruct (wf_ready_status k t W Hin) as (th & Ht & _). unfold prio_of. simpl.
      rewrite lookup_insert_ne by congruence. done.
    - eapply fmap_sorted_ext; [|exact Hsl]. intros t Hin.
      destruct (wf_sleep_status k t W Hin) as (th & Ht & _). unfold wake_of. simpl.
      rewrite lookup_insert_ne by congruence. done.
    - exists c0. simpl. by rewrite lookup_insert_ne. }
  assert (A1 : at_client k1 c).
  { split; [done|]. split; [|done]. simpl. by rewrite lookup_insert_ne. }
  pose proof (client_neutral _ _ A1) as P.
  pose proof (creating_fresh k p (inv_counts _ I) Hp) as Hcr.
  eapply (Inv_counted _ _ _ _ (c <| code := call_allocate_tid k ++ CreateTail p prio [Client] :: code c |>));
    [exact P|..]; simpl; try done.
  - apply I.
  - by eapply same_thread_code.
  - eapply semas_but_refl. apply I1.
  - apply (Pre_lists _ _ _ _ P).
  - unfold thread_code_ok. rewrite decide_False by done. left. simpl. rewrite Hcd.
    pose proof (inv_wf _ I) as W. wf_open W. simpl. split_and!; try done; set_solver.
  - destruct (inv_counts _ I1) as [HL HC].
    assert (Hc1 : threads k1 !! current k = Some c) by apply A1. constructor; simpl.
    + intros l lk sm Hl Hsm. erewrite tsum_insert by exact Hc1. simpl.
      specialize (HL l lk sm Hl Hsm). simpl in HL. lia.
    + intros q. erewrite tsum_insert by exact Hc1. simpl.
      destruct (Z.eqb_spec p q) as [<-|Hq].
      * intros _. rewrite tsum_insert_new, Hcode by done. simpl. split; [lia|].
        exists ph. rewrite lookup_insert_ne by done. by rewrite lookup_insert_eq.
      * intros Hlt. specialize (HC q). simpl in HC.
        destruct HC as (? & qh & Hqh & ?); [lia|]. split; [lia|]. exists qh.
        destruct (decide (q = current k)) as [->|];
          [|by rewrite lookup_insert_ne by done].
        exfalso. simpl in Hc1. rewrite Hc1 in Hqh. injection Hqh as <-. by rewrite Hcd in *; destruct_and!.
Qed.

Lemma exec_client_thread_create name p page fn k c :
  at_client k c → client_ok k (Thread_create name p page fn) →
  ∃ k', exec (Thread_create name p page fn) k = Some k' ∧ Inv k'.
Proof.
  intros A Hok. pose proof (client_neutral _ _ A) as P. pose proof P as [I Hc _ _ _].
  pose proof (inv_wf _ I) as W. pose proof (Pre_status _ _ _ _ P) as Hst.
  destruct (at_client_code _ _ A) as (_ & Hcd & _).
  simpl. unfold thread_create. rewrite (thread_current_eq _ _ W Hc Hst). cbn [mbind option_bind].
  destruct (Z.eqb_spec page NULL) as [Hz|Hz].
  - rewrite (on_thread_Some _ _ _ _ Hc). eexists. split; [done|]. wf_open W.
    eapply (touch_Inv k (current k) c); [done|done|simpl; reflexivity|..]; simpl; try done.
    + apply (wthread _ _ Hc).
    + by left.
    + apply I.
  - destruct Hok as [?|(Hp & Hpr & ->)]; [done|].
    rewrite bool_decide_eq_true_2 by done. simpl. unfold init_thread.
    apply Z.eqb_neq in Hz as Hz'. rewrite Hz'. simpl. unfold PRI_MIN, PRI_MAX in *.
    rewrite (proj2 (Z.leb_le 0 p)), (proj2 (Z.leb_le p 63)) by lia. simpl.
    rewrite intr_set_level_eq by apply I. simpl. unfold push_frames.
    erewrite on_thread_Some by (simpl; rewrite lookup_insert_ne by congruence; exact Hc).
    eexists. split; [done|].
    match goal with |- context [<[page := ?th]> _] => 
      pose proof (register_Inv k c page th p A Hp Hz eq_refl eq_refl eq_refl eq_refl) as I' end.
    exact I'.
Qed.

(** A registered thread is started. *)
Lemma started_Inv k p ph :
  Inv k → threads k !! p = Some ph → status ph = THREAD_BLOCKED → code ph = [] →
  tsum (creating p) (threads k) = 0 →
  Inv (unblocked k p (ph <| code := [KernelThread; Client; Thread_exit] |>)).
Proof.
  intros I Hp Hst Hcode Hcr.
  assert (Hne : current k ≠ p).
  { intros <-. pose proof (Inv_running _ _ I Hp). congruence. }
  destruct I as [W HC Hrs Hss (c & Hc & Hcs & Hloop) Hctx].
  pose proof W as W'. wf_open W'. specialize (wcode _ _ Hp) as Hcp.
  unfold thread_code_ok in Hcp. rewrite Hcode in Hcp. case_decide as Hi; [done|].
  destruct Hcp as [?|(_ & _ & Hheld)]; [done|]. constructor; try done.
  - unfold wf, unblocked; simpl. eapply Wf_move; [exact W|exact Hp|..]; simpl; try done.
    + apply (wthread _ _ Hp).
    + unfold thread_code_ok. rewrite decide_False by done. left. simpl. rewrite Hheld.
      split; [set_solver|done].
    + apply same_but_insert; [done|]. rewrite (Wf_in_ready _ _ _ _ _ _ _ _ _ _ _ W _ _ Hp).
      rewrite Hst. by intros [? _].
    + rewrite (insert_ordered_perm _ p). split; [done|]. intros _. left.
    + intros (_ & _ & ? & ? & ?)%(Wf_in_sleep _ _ _ _ _ _ _ _ _ _ _ W _ _ Hp). congruence.
    + by eapply semas_but_refl.
    + intros s sm Hsm (_ & ? & ? & ?)%(Wf_in_waiters _ _ _ _ _ _ _ _ _ _ _ W _ _ _ _ Hp Hsm).
      congruence.
  - eapply Counts_same; [exact HC|exact Hp|..]; simpl; rewrite ?Hcode; try done.
    right; right. lia.
  - unfold ready_sorted. eapply (fmap_sorted_ext _ (prio_of k)).
    + intros x _. symmetry. by eapply prio_of_insert.
    + refine (insert_sorted_ge (prio_of k) p (ready_list k) Hrs).
  - eapply (fmap_sorted_ext _ (wake_of k)); [|exact Hss].
    intros x _. symmetry. by eapply wake_of_insert.
  - exists c. simpl. by rewrite lookup_insert_ne by done.
Qed.

Lemma popped_create_Inv p prio fn r k c :
  Pre (CreateTail p prio fn) r k c →
  Inv (recode c r k) ∧ tsum (creating p) (threads (recode c r k)) = 0 ∧
  ∃ ph, threads k !! p = Some ph ∧ status ph = THREAD_BLOCKED ∧ code ph = [].
Proof.
  intros P. destruct (Pre_code_ok _ _ _ _ P) as (Hi & Hfn & Hr); [done|].
  pose proof P as [I Hc _ Pw Pc]. pose proof (Pre_status _ _ _ _ P) as Hst.
  destruct (inv_counts _ I) as [HL HC].
  assert (Hnn : ∀ q t th, threads k !! t = Some th → 0 <= creating q (code th))
    by (intros; apply creating_nonneg).
  pose proof (Pc p) as Pp. simpl in Pp. rewrite Z.eqb_refl in Pp.
  pose proof (tsum_ge _ _ _ _ (Hnn p) Hc) as Hge. pose proof (creating_nonneg p r) as Hrn.
  destruct (HC p) as (H1 & ph & Hph & Hps & Hpc); [lia|].
  assert (Hz : tsum (creating p) (threads (recode c r k)) = 0).
  { simpl. rewrite (tsum_insert _ _ _ _ _ Hc). simpl.
    assert (0 <= tsum (creating p) (threads (recode c r k))) as Hn'.
    { apply tsum_nonneg. intros. apply creating_nonneg. }
    simpl in Hn'. rewrite (tsum_insert _ _ _ _ _ Hc) in Hn'. simpl in Hn'. lia. }
  split_and!; [|done|by eauto].
  eapply (Inv_counted _ _ _ _ (c <| code := r |>)); [exact P|..]; simpl; try done.
  - apply I.
  - by eapply code_ok_not_loop.
  - eapply semas_but_refl. apply I.
  - apply (Pre_lists _ _ _ _ P).
  - unfold thread_code_ok. rewrite decide_False by done. left. simpl.
    apply code_ok_wf; [by eapply code_ok_not_loop|done].
  - constructor; simpl.
    + intros l lk sm Hl Hsm. erewrite tsum_insert by exact Hc.
      assert (l ∈ dom (locks k)) as Hd by by eapply elem_of_dom_2.
      rewrite (Pw _ Hd). simpl. specialize (HL _ _ _ Hl Hsm). lia.
    + intros q. destruct (decide (q = p)) as [->|Hq]; [simpl in Hz; lia|].
      erewrite tsum_insert by exact Hc. rewrite Pc. simpl.
      destruct (Z.eqb_spec p q) as [|_]; [congruence|]. intros Hlt.
      destruct (HC q) as (? & qh & Hqh & Hqs & ?); [lia|]. split; [lia|]. exists qh.
      rewrite lookup_insert_ne; [done|]. intros <-. congruence.
Qed.

Lemma alloc_frame_eq t size k th :
  threads k !! t = Some th → t ≠ NULL → magic th = THREAD_MAGIC → size mod 4 = 0 →
  alloc_frame t size k = Some (k <| threads ::= insert t (th <| stack ::= λ s, s - size |>) |>).
Proof.
  intros Ht Hn Hm Hs. unfold alloc_frame, is_thread. apply Z.eqb_neq in Hn as ->.
  rewrite Ht, Hm, Hs, Z.eqb_refl. simpl. by rewrite (on_thread_Some _ _ _ _ Ht).
Qed.

Lemma exec_create_tail p prio fn r k c :
  Pre (CreateTail p prio fn) r k c →
  ∃ k', exec (CreateTail p prio fn) (recode c r k) = Some k' ∧ Inv k'.
Proof.
  intros P. destruct (Pre_code_ok _ _ _ _ P) as (Hi & -> & Hr); [done|].
  destruct (popped_create_Inv _ _ _ _ _ _ P) as (I1 & Hcr & ph & Hph & Hps & Hpc).
  pose proof P as [I Hc _ _ _]. pose proof (Pre_status _ _ _ _ P) as Hst.
  assert (Hne : current k ≠ p) by congruence.
  pose proof (inv_wf _ I) as W. wf_open W. destruct (wthread _ _ Hph) as (Hpn & Hpm & Hpw).
  simpl. unfold thread_create_tail. rewrite (recode_current _ _ _ _ _ P). cbn [mbind option_bind].
  assert (Hp1 : threads (recode c r k) !! p = Some ph) by (simpl; by rewrite lookup_insert_ne).
  simpl (threads _ !! current k). rewrite lookup_insert_eq. cbn [mbind option_bind].
  erewrite on_thread_Some by exact Hp1. cbn [mbind option_bind].
  do 3 (erewrite alloc_frame_eq; [|simpl; apply lookup_insert_eq|done..]; cbn [mbind option_bind]).
  erewrite on_thread_Some by (simpl; apply lookup_insert_eq). cbn [mbind option_bind].
  erewrite thread_unblock_eq; [|simpl; apply lookup_insert_eq|done..|left; apply I].
  cbn [mbind option_bind].
  match goal with |- context [if _ then thread_yield ?K else _] => set (k' := K) end.
  set (ph' := ph <| tid := result c |> <| stack ::= λ s, s - 12 - 4 - 28 |>).
  assert (I2 : Inv ((recode c r k) <| threads ::= insert p ph' |>)).
  { eapply (touch_Inv _ p ph ph'); [exact I1|exact Hp1|..]; simpl; try done; [by left|apply I]. }
  assert (I' : Inv k').
  { pose proof (started_Inv _ p ph' I2) as Hs. simpl in Hs.
    rewrite (lookup_insert_eq _ p) in Hs. specialize (Hs eq_refl Hps Hpc).
    erewrite tsum_insert in Hs by exact Hp1. simpl in Hcr, Hs. rewrite Hcr in Hs.
    change (code ph') with (code ph) in Hs. rewrite Hpc in Hs.
    specialize (Hs eq_refl). unfold k'. unfold unblocked in *. simpl in *.
    rewrite !insert_insert_eq in *. erewrite insert_prio_ext; [exact Hs|].
    intros x. eapply (prio_of_insert _ _ p ph'); simpl; [by rewrite insert_insert_eq| |done].
    by rewrite lookup_insert_eq. }
  case_match; [|by eauto].
  eapply (thread_yield_ok k' (c <| code := r |>)); [done| |by eapply code_ok_not_loop].
  simpl. rewrite !insert_insert_eq, lookup_insert_ne by done. apply lookup_insert_eq.
Qed.
