(* ===== verification/SchedTimer.v ===== *)
(** * The idle thread and the timer interrupt keep the invariant *)

From S2P Require Import Prelude OrdList FixedPoint Kernel Thread Synch Sched.
From S2P Require Import SchedInv SchedSwitch SchedOps SchedLock SchedCond.
From S2P Require Import SchedThread.

Open Scope Z_scope.

(** ** The idle thread *)

Lemma exec_idle_loop r k c :
  Pre IdleLoop r k c → ∃ k', exec IdleLoop (recode c r k) = Some k' ∧ Inv k'.
Proof.
  intros P. pose proof P as [I Hc Pcode Pw Pc].
  case_decide as Hi; [|done]. simpl in Pcode. subst r.
  pose proof (Pre_status _ _ _ _ P) as Hst. destruct (Pre_lists _ _ _ _ P) as (Hnr & Hns & Hnw).
  destruct (Pre_thread _ _ _ _ P) as [Hnull Hm].
  set (c' := c <| code := [IdleHlt; IdleLoop; Thread_exit] |> <| status := THREAD_BLOCKED |>).
  set (k1 := k <| interrupts := INTR_OFF |> <| threads ::= insert (current k) c' |>).
  assert (D : PreSwitch k1).
  { destruct I as [W HC Hrs Hsl _ Hctx]. constructor; try done.
    - pose proof W as W'. wf_open W'. unfold wf, k1; simpl.
      eapply Wf_move; [exact W|exact Hc|..]; simpl; try done.
      + apply (wthread _ _ Hc).
      + unfold thread_code_ok. rewrite decide_True by done. simpl. eauto.
      + split; [done|by intros [? _]].
      + by eapply semas_but_refl.
      + intros s sm Hsm Hin. by destruct (Hnw _ _ Hsm).
    - eapply Counts_same; [exact HC|exact Hc|..]; simpl; try done.
      + right; left. intros []; congruence.
      + intros l Hl. by rewrite (Pw _ Hl).
    - eapply fmap_sorted_ext; [|exact Hrs]. intros t _. symmetry. by eapply prio_of_insert.
    - eapply fmap_sorted_ext; [|exact Hsl]. intros t _. symmetry. by eapply wake_of_insert.
    - intros th. simpl. rewrite lookup_insert_eq. by intros [= <-]. }
  simpl. unfold idle_loop, push_frames; simpl.
  erewrite on_thread_Some by (simpl; apply lookup_insert_eq). simpl. rewrite insert_insert_eq.
  erewrite thread_block_eq; [|simpl; apply lookup_insert_eq|done..|apply I|done].
  simpl. rewrite insert_insert_eq.
  destruct (schedule_ok _ _ D (lookup_insert_eq _ _ _)) as (nh & _ & Heq & HI).
  eexists. split; [exact Heq|exact HI].
Qed.

(** ** Inside the interrupt handler *)

(** The invariant while the handler runs, with the run queue perhaps not
    sorted. *)
Record Core (k : kernel) : Prop := {
  core_wf : wf k;
  core_counts : counts k;
  core_sleep : sleep_sorted k;
  core_running : ∃ c, threads k !! current k = Some c ∧
    status c = THREAD_RUNNING ∧ is_loop (code c) = false;
}.

Lemma Core_Inv k :
  Core k → ready_sorted k → Inv (k <| in_external_intr := false |>).
Proof.
  intros [W HC Hs (c & Hc & Hst & Hl)] Hr. constructor; try done.
  exists c. split_and!; try done. by rewrite Hl.
Qed.

Lemma Inv_Core k c :
  Inv k → threads k !! current k = Some c → is_loop (code c) = false → Core k.
Proof.
  intros I Hc Hl. pose proof (Inv_running _ _ I Hc). destruct I. constructor; eauto.
Qed.

Lemma touch_Core k t th th' k' :
  Core k → threads k !! t = Some th → threads k' = <[t := th']> (threads k) →
  status th' = status th → code th' = code th → thread_ok (locks k) t th' →
  wake_tick th' = wake_tick th → same_rest k k' → semas k' = semas k →
  locks k' = locks k → Core k'.
Proof.
  intros [W HC Hss (c & Hcur & Hcr & Hloop)] Ht HT Hs Hc Hok Hw
    [Ecur Erd Eal Esl Eid Ein Etid Econ] HS HL. constructor.
  - unfold wf. rewrite HT, Ecur, Erd, Eal, Esl, Eid, Ein, Etid, HS, HL, Econ. by eapply Wf_touch.
  - unfold counts. rewrite HT, HS, HL. eapply Counts_same; [exact HC|exact Ht|..];
      rewrite ?Hs, ?Hc; try done.
    destruct (decide (status th = THREAD_BLOCKED ∧ code th = [])); [by left|by right; left].
  - unfold sleep_sorted. rewrite Esl. eapply fmap_sorted_ext; [|exact Hss].
    intros x _. symmetry. by eapply wake_of_insert.
  - rewrite HT, Ecur. destruct (decide (t = current k)) as [->|].
    + exists th'. rewrite lookup_insert_eq. simplify_eq. rewrite Hs, Hc. done.
    + exists c. rewrite lookup_insert_ne by done. done.
Qed.

(** A per-thread computation of the feedback scheduler. *)
Definition retouches (func : Z → kernel → option kernel) : Prop :=
  ∀ t k th, threads k !! t = Some th → ∃ th',
    func t k = Some (k <| threads ::= insert t th' |>) ∧
    status th' = status th ∧ code th' = code th ∧ magic th' = magic th ∧
    waiting_lock th' = waiting_lock th ∧ wake_tick th' = wake_tick th.

Lemma insert_self_thread k t th :
  threads k !! t = Some th → k = k <| threads ::= insert t th |>.
Proof. intros H. destruct k; simpl in *. by rewrite insert_id. Qed.

Lemma calc_priority_retouches : retouches mlfqs_calc_priority.
Proof.
  intros t k th Ht. unfold mlfqs_calc_priority. case_match.
  - exists th. by rewrite <-insert_self_thread.
  - rewrite (on_thread_Some _ _ _ _ Ht). eexists. by split.
Qed.

Lemma calc_recent_cpu_retouches : retouches mlfqs_calc_recent_cpu.
Proof.
  intros t k th Ht. unfold mlfqs_calc_recent_cpu. case_match.
  - exists th. by rewrite <-insert_self_thread.
  - rewrite (on_thread_Some _ _ _ _ Ht). eexists. by split.
Qed.

Lemma foreach_Core func k :
  retouches func → Core k → interrupts k = INTR_OFF →
  ∃ T', thread_foreach func k = Some (k <| threads := T' |>) ∧ Core (k <| threads := T' |>).
Proof.
  intros Hf C Hoff. unfold thread_foreach, intr_off, intr_get_level. rewrite Hoff. simpl.
  pose proof (core_wf _ C) as W. pose proof (wf_all _ _ _ _ _ _ _ _ _ _ _ W) as Hall.
  enough (∀ l k0, Core k0 → (∀ t, t ∈ l → is_Some (threads k0 !! t)) →
    ∃ T', foldl (λ acc t, k ← acc; func t k) (Some k0) l = Some (k0 <| threads := T' |>) ∧
          Core (k0 <| threads := T' |>)) by eauto.
  clear -Hf. induction l as [|t l IH]; intros k0 C Hl; simpl.
  - exists (threads k0). destruct k0; done.
  - destruct (Hl t) as [th Ht]; [left|].
    destruct (Hf t k0 th Ht) as (th' & -> & Hs & Hc & Hm & Hw & Hwk).
    destruct (IH (k0 <| threads ::= insert t th' |>)) as (T' & HT' & C').
    + eapply (touch_Core k0 t th th'); try done.
      unfold thread_ok. rewrite Hm, Hw. pose proof (core_wf _ C) as W. wf_open W. by apply wthread.
    + intros x Hx. simpl. destruct (decide (x = t)) as [->|].
      * rewrite lookup_insert_eq. eauto.
      * rewrite lookup_insert_ne by done. apply Hl. by right.
    + exists T'. split; [exact HT'|exact C'].
Qed.

Lemma Core_ready_perm k rd' : Core k → rd' ≡ₚ ready_list k → Core (k <| ready_list := rd' |>).
Proof.
  intros [W HC Hs Hr] Hp. constructor; try done. unfold wf; simpl.
  wf_open W. constructor; auto; setoid_rewrite Hp; done.
Qed.

Lemma isort_sorted_ge (f : Z → Z) (l : list Z) :
  StronglySorted Z.ge (f <$> isort (λ a b, f b <? f a) l).
Proof.
  unfold isort. assert (StronglySorted Z.ge (f <$> @nil Z)) as H by constructor.
  revert H. generalize (@nil Z) as acc. induction l as [|x l IH]; intros acc Hacc; simpl; [done|].
  by apply IH, insert_sorted_ge.
Qed.

(** What the handler's parts keep besides the invariant. *)
Definition in_handler (k : kernel) : Prop :=
  in_external_intr k = true ∧ interrupts k = INTR_OFF.

Lemma update_all_priorities_ok k :
  Core k → in_handler k →
  ∃ k', mlfqs_update_all_priorities k = Some k' ∧ Core k' ∧ ready_sorted k' ∧ in_handler k'.
Proof.
  intros C [Hx Hoff]. unfold mlfqs_update_all_priorities.
  destruct (foreach_Core _ k calc_priority_retouches C Hoff) as (T' & -> & C'). simpl.
  eexists. split; [done|]. split_and!; try done.
  - refine (Core_ready_perm _ _ C' _). apply isort_perm.
  - set (f := prio_of (k <| threads := T' |>)). eapply (fmap_sorted_ext _ f); [done|].
    exact (isort_sorted_ge f (ready_list k)).
Qed.

Lemma update_load_avg_ok k :
  Core k → in_handler k →
  ∃ k', mlfqs_update_load_avg_and_recent_cpu k = Some k' ∧ Core k' ∧ in_handler k'.
Proof.
  intros C [Hx Hoff]. pose proof (core_running _ C) as (c & Hc & Hst & _).
  unfold mlfqs_update_load_avg_and_recent_cpu.
  rewrite (thread_current_eq _ _ (core_wf _ C) Hc Hst). cbn [mbind option_bind].
  match goal with |- context [thread_foreach _ ?K] => set (k1 := K) end.
  assert (C1 : Core k1) by (destruct C; by constructor).
  destruct (foreach_Core _ k1 calc_recent_cpu_retouches C1 Hoff) as (T' & -> & C').
  eexists. split; [done|]. split; [done|]. by split.
Qed.

Lemma thread_tick_ok k :
  Core k → ready_sorted k → in_handler k →
  ∃ k', thread_tick k = Some k' ∧ Core k' ∧ ready_sorted k' ∧ in_handler k'.
Proof.
  intros C Hr Hh. pose proof (core_running _ C) as (c & Hc & Hst & _).
  unfold thread_tick. rewrite (thread_current_eq _ _ (core_wf _ C) Hc Hst). cbn [mbind option_bind].
  match goal with |- context [thread_mlfqs ?K && _] => set (k1 := K) end.
  assert (H1 : Core k1 ∧ ready_sorted k1 ∧ in_handler k1 ∧
               threads k1 = threads k ∧ current k1 = current k).
  { subst k1. destruct C, Hh. case_match; done. }
  clearbody k1. destruct H1 as (C1 & Hr1 & Hh1 & HT1 & Hc1).
  assert (∃ k2, (if thread_mlfqs k1 && negb (current k =? idle_thread k1)
       then on_thread (current k) (λ th, th <| recent_cpu ::= λ r, int32 (FP_ADD_INT r 1) |>) k1
       else Some k1) = Some k2 ∧ Core k2 ∧ ready_sorted k2 ∧ in_handler k2)
    as (k2 & -> & C2 & Hr2 & Hh2).
  { case_match; [|by eauto]. rewrite <-HT1, <-Hc1 in Hc. rewrite <-Hc1.
    rewrite (on_thread_Some _ _ _ _ Hc). eexists. split; [done|]. split_and!; [|  |done..].
    - eapply (touch_Core k1 (current k1) c); [done|done|simpl; reflexivity|done..| |done|done|done|done].
      pose proof (core_wf _ C1) as W. wf_open W. apply (wthread _ _ Hc).
    - eapply fmap_sorted_ext; [|exact Hr1]. intros t _. symmetry. by eapply prio_of_insert. }
  cbn [mbind option_bind].
  set (ct := idle_ticks k2 + kernel_ticks k2).
  assert (∃ k3, (if thread_mlfqs k2 && (Z.rem ct TIMER_FREQ =? 0)
        then k0 ← mlfqs_update_load_avg_and_recent_cpu k2; mlfqs_update_all_priorities k0
        else if thread_mlfqs k2 && (Z.rem ct TIME_SLICE =? 0)
             then mlfqs_update_all_priorities k2 else Some k2) = Some k3 ∧
      Core k3 ∧ ready_sorted k3 ∧ in_handler k3) as (k3 & -> & C3 & Hr3 & Hh3).
  { case_match.
    - destruct (update_load_avg_ok k2 C2 Hh2) as (k3 & -> & C3 & Hh3). cbn [mbind option_bind].
      by apply update_all_priorities_ok.
    - case_match; [by apply update_all_priorities_ok|by eauto 10]. }
  cbn [mbind option_bind]. unfold intr_yield_on_return, intr_context.
  destruct C3, Hh3 as [Hx Hoff].
  case_match; [|by eexists; split_and!; [done|by constructor|done|by split]].
  change (in_external_intr (k3 <| thread_ticks ::= Z.succ |>)) with (in_external_intr k3).
  rewrite Hx. simpl. eexists. split_and!; [done|by constructor|done|by split].
Qed.

(** Sleeping threads whose time has come are woken. *)
Lemma thread_wake_loop_ok tick sl k :
  sleep_list k = sl → Core k → ready_sorted k → in_handler k →
  ∃ k', thread_wake_loop sl tick k = Some k' ∧ Core k' ∧ ready_sorted k' ∧ in_handler k'.
Proof.
  revert k. induction sl as [|t sl IH]; intros k Hsl C Hr Hh; simpl; [by eauto 10|].
  pose proof (core_wf _ C) as W. pose proof W as W'. wf_open W'.
  destruct (wsleep t) as (Hi & th & old & cd & Ht & Hst & Hcd); [rewrite Hsl; left|].
  rewrite Ht. simpl. case_match; [by eauto 10|].
  destruct (wthread _ _ Ht) as (Hn & Hm & _).
  rewrite (thread_unblock_eq _ t th) by (done || by right; apply Hh).
  cbn [mbind option_bind]. apply IH; [done|..].
  - pose proof (Core_Inv _ C Hr) as I. pose proof (core_running _ C) as (c & Hc & Hcst & Hcl).
    assert (I' : Inv (unblocked (k <| in_external_intr := false |> <| sleep_list := sl |>
                         <| semas := semas k |>) t th)).
    { apply (unblocked_Inv (k <| in_external_intr := false |>)); try done.
      - by rewrite Hcd.
      - simpl. rewrite Hsl. apply same_but_tail. by rewrite <-Hsl.
      - rewrite Hsl in wsleep_nodup. by apply NoDup_cons in wsleep_nodup as [? _].
      - pose proof (core_sleep _ C) as Hss. unfold sleep_sorted in Hss. rewrite Hsl in Hss.
        by apply StronglySorted_inv in Hss as [? _].
      - by eapply semas_but_refl.
      - intros s sm Hsm (_ & ? & ? & ?)%(Wf_in_waiters _ _ _ _ _ _ _ _ _ _ _ W _ _ _ _ Ht Hsm).
        congruence. }
    destruct I'. constructor; try done.
    exists c. simpl. split_and!; [|done..]. rewrite lookup_insert_ne; [done|]. congruence.
  - unfold ready_sorted. simpl. eapply (fmap_sorted_ext _ (prio_of k)).
    + intros x _. symmetry. by eapply prio_of_insert.
    + exact (insert_sorted_ge (prio_of k) t (ready_list k) Hr).
  - done.
Qed.

Lemma rest_Pre k c :
  Inv k → threads k !! current k = Some c → is_loop (code c) = false →
  Pre IntrReturn (code c) k c.
Proof.
  intros I Hc Hl. constructor; try done.
  pose proof (Inv_running _ _ I Hc) as Hst. pose proof (inv_wf _ I) as W. wf_open W.
  specialize (wcode _ _ Hc). unfold thread_code_ok in wcode. case_decide; [done|].
  destruct wcode as [Hw|(_ & [?|?] & _)]; [|congruence..]. simpl. by apply code_ok_wf.
Qed.

Lemma push_neutral_Inv k c k' :
  Inv k → threads k !! current k = Some c → is_loop (code c) = false →
  threads k' = <[current k := c <| code ::= cons IntrReturn |>]> (threads k) →
  same_rest k k' → semas k' = semas k → locks k' = locks k → in_external_intr k' = false →
  Inv k'.
Proof.
  intros I Hc Hl HT HR HS HL Hx. pose proof (rest_Pre _ _ I Hc Hl) as P.
  eapply Inv_recode; [exact P|exact HT|done..|by eapply same_thread_code|done|done|done|].
  pose proof (p_code _ _ _ _ P) as Hcode. unfold thread_code_ok.
  case_decide; [done|by left].
Qed.

(** The timer interrupt. *)
Lemma intr_handler_ok k c :
  Inv k → threads k !! current k = Some c → is_loop (code c) = false →
  ∃ k', intr_handler k = Some k' ∧ Inv k'.
Proof.
  intros I Hc Hl. pose proof (Inv_Core _ _ I Hc Hl) as C. pose proof (inv_ready _ I) as Hr.
  unfold intr_handler, intr_context, intr_off. simpl. rewrite (inv_context _ I). simpl.
  unfold timer_interrupt.
  match goal with |- context [thread_tick ?K] => set (k1 := K) end.
  destruct (thread_tick_ok k1) as (k2 & -> & C2 & Hr2 & Hh2);
    [destruct C; by constructor|exact Hr|done|].
  cbn [mbind option_bind]. unfold thread_wake.
  destruct (thread_wake_loop_ok (ticks k2) (sleep_list k2) k2 eq_refl C2 Hr2 Hh2)
    as (k3 & -> & C3 & Hr3 & [Hx Hoff]).
  cbn [mbind option_bind]. unfold intr_get_level. rewrite Hoff, Hx. simpl.
  pose proof (core_running _ C3) as (c3 & Hc3 & Hst3 & Hl3).
  unfold push_frames. erewrite on_thread_Some by exact Hc3. cbn [mbind option_bind].
  pose proof (Core_Inv _ C3 Hr3) as I3.
  match goal with |- context [yield_on_return ?K] => set (k4 := K) end.
  assert (I4 : Inv k4).
  { eapply (push_neutral_Inv (k3 <| in_external_intr := false |>) c3); try done. }
  assert (Hc4 : threads k4 !! current k4 = Some (c3 <| code ::= cons IntrReturn |>)).
  { simpl. apply lookup_insert_eq. }
  clearbody k4. case_match; [|by eauto]. by eapply thread_yield_ok.
Qed.

Lemma exec_idle_hlt r k c :
  Pre IdleHlt r k c → ∃ k', exec IdleHlt (recode c r k) = Some k' ∧ Inv k'.
Proof.
  intros P. pose proof P as [I Hc Pcode Pw Pc]. case_decide as Hi; [|done].
  simpl in Pcode. destruct Pcode as (r' & -> & ->).
  simpl. unfold idle_hlt. change intr_enable with (intr_set_level INTR_ON).
  rewrite intr_set_level_eq by apply I. cbn [mbind option_bind].
  eapply (intr_handler_ok _ (c <| code := [IdleLoop; Thread_exit] |>));
    [|simpl; apply lookup_insert_eq|done].
  eapply (Inv_recode _ _ _ _ (c <| code := [IdleLoop; Thread_exit] |>)); [exact P|..]; simpl; try done.
  - apply I.
  - by eapply same_thread_code.
  - unfold thread_code_ok. by rewrite decide_True.
Qed.
