(* ===== verification/SchedBoot.v ===== *)
(** * Booting reaches a state that satisfies the invariant

    [thread_init] and [thread_start] run from zeroed globals, with the initial
    stack at one page and the idle thread's page at another, until [main]'s own
    code runs. *)

From S2P Require Import Prelude OrdList FixedPoint Kernel Thread Synch Sched.
From S2P Require Import SchedInv.

Open Scope Z_scope.

(** The globals before [thread_init]: all zero but the static initialisers. *)
Definition zeroed (mlfqs : bool) : kernel :=
  {| threads := ∅; current := NULL; ready_list := []; all_list := []; sleep_list := [];
     load_avg := 0; idle_thread := NULL; initial_thread := NULL; tid_lock := 500;
     next_tid := 1; idle_ticks := 0; kernel_ticks := 0; thread_ticks := 0;
     thread_mlfqs := mlfqs; interrupts := INTR_OFF; in_external_intr := false;
     yield_on_return := false; ticks := 0; semas := ∅; locks := ∅; conds := ∅ |}.

(** [main] calls [thread_init] and [thread_start], and then runs. *)
Definition boot (mlfqs : bool) (n : nat) : option kernel :=
  k ← thread_init 4096 (zeroed mlfqs);
  k ← on_thread 4096 (λ th, th <| code ::= λ c,
        c ++ [Thread_start 600 8192; Client; Thread_exit] |>) k;
  run_n n k.

Definition booted_thread (tid_ : Z) (status_ : thread_status) (name_ : string)
    (stack_ prio result_ : Z) (code_ : list frame) : thread :=
  {| tid := tid_; status := status_; name := name_; stack := stack_; priority := prio;
     exit_status := -1; parent_tid := -1; children := []; fd_table := replicate 128 0;
     next_fd := 2; exec_file := 0; wake_tick := 0; base_priority := prio; donations := [];
     waiting_lock := 0; nice := 0; recent_cpu := 0; magic := THREAD_MAGIC;
     result := result_; code := code_ |}.

Definition booted_main : thread :=
  booted_thread 1 THREAD_RUNNING "main" 8192 31 2 [Client; Thread_exit].
Definition booted_idle : thread :=
  booted_thread 2 THREAD_READY "idle" 12244 0 0
    [IntrSetLevel INTR_ON; IdleLoop; Thread_exit].

Definition booted : kernel :=
  (zeroed false) <| threads := <[4096 := booted_main]> (<[8192 := booted_idle]> ∅) |>
    <| current := 4096 |> <| all_list := [4096; 8192] |> <| idle_thread := 8192 |>
    <| initial_thread := 4096 |> <| next_tid := 3 |> <| interrupts := INTR_ON |>
    <| semas := <[504 := Semaphore 1 []]> (<[600 := Semaphore 0 []]> ∅) |>
    <| locks := <[500 := Lock NULL]> ∅ |>.

Lemma boot_eq : boot false 23 = Some booted.
Proof. vm_compute. reflexivity. Qed.

(** Lookups in the small maps of a concrete state. *)
Ltac map_cases :=
  repeat match goal with
  | H : (<[_ := _]> _) !! _ = Some _ |- _ =>
      apply lookup_insert_Some in H as [[<- <-]|[? H]]
  | H : ∅ !! _ = Some _ |- _ => by rewrite lookup_empty in H
  | H : _ ∈ [] |- _ => by apply elem_of_nil in H
  | H : _ ∈ _ :: _ |- _ => apply elem_of_cons in H as [->|H]
  end.

Lemma booted_wf : wf booted.
Proof.
  assert (Hheld : ∀ t, t ≠ NULL → held_by (locks booted) t = ∅).
  { intros t Ht. apply set_eq. intros l. rewrite elem_of_held_by. split; [|set_solver].
    intros (lk & Hl & Hh). simpl in Hl. map_cases. done. }
  unfold wf; constructor.
  - by eexists.
  - by eexists.
  - intros t th H. simpl in H. map_cases; (split_and!; [done|done|by left]).
  - intros t th H. simpl in H. map_cases; done.
  - intros t th H. unfold thread_code_ok. simpl in H |- *. map_cases.
    + rewrite decide_False by done. left. specialize (Hheld 4096). simpl in Hheld |- *.
      rewrite Hheld by done. split; [set_solver|done].
    + by rewrite decide_True.
  - constructor.
  - intros t. split.
    + intros H. simpl in H. map_cases.
    + intros (th & H & Hs & Hi). simpl in H. map_cases; done.
  - constructor.
  - intros t Hin. simpl in Hin. map_cases.
  - intros t Hin. simpl in Hin. map_cases; by eexists.
  - intros s sm H. simpl in H. map_cases; (split_and!; [done|done|constructor|]);
      intros t Hin; simpl in Hin; map_cases.
  - intros l lk H. simpl in H. map_cases. split_and!; [done|done| |by left]. apply elem_of_dom.
    by eexists.
  - intros c ws H. simpl in H. map_cases.
  - apply elem_of_dom. by eexists.
Qed.

Lemma booted_counts : counts booted.
Proof.
  constructor.
  - intros l lk sm H. simpl in H. map_cases. intros Hs. vm_compute in Hs. injection Hs as <-.
    reflexivity.
  - intros p Hp. exfalso. rewrite tsum_zero in Hp; [lia|].
    intros t th H. simpl in H. map_cases; done.
Qed.

Lemma booted_Inv : Inv booted.
Proof.
  constructor.
  - apply booted_wf.
  - apply booted_counts.
  - constructor.
  - constructor.
  - exists booted_main. split_and!; reflexivity || done.
  - done.
Qed.
