(* ===== verification/SchedSafe.v ===== *)
(** * Safety of the thread system

    Steps keep the invariant, and the kernel does not panic: the theorems about
    executions of [Sched.step] with arbitrary client code and timer interrupts
    between any two frames. *)

From S2P Require Import Prelude OrdList FixedPoint Kernel Thread Synch Sched.
From S2P Require Import SchedInv SchedSwitch SchedOps SchedLock SchedCond.
From S2P Require Import SchedThread SchedTimer SchedBoot.
From stdpp Require Import relations.

Open Scope Z_scope.

(** Take a successful computation apart. *)
Ltac bind_inv H :=
  repeat match type of H with
  | mbind _ (ASSERT ?b) = Some _ =>
      let E := fresh "E" in destruct b eqn:E; [cbn [ASSERT mbind option_bind] in H|done]
  | mbind _ ?o = Some _ =>
      let E := fresh "E" in destruct o eqn:E; [cbn [mbind option_bind] in H|done]
  end.

Lemma thread_current_running k t :
  thread_current k = Some t →
  t = current k ∧ ∃ th, threads k !! current k = Some th ∧ status th = THREAD_RUNNING.
Proof.
  unfold thread_current. intros H. bind_inv H. bool_simp. injection H as <-. eauto.
Qed.

Lemma thread_current_is k t : thread_current k = Some t → t = current k.
Proof. intros [-> _]%thread_current_running. done. Qed.

(** The current thread is about to signal a condition variable while some
    waiter has not gone to sleep yet. *)
Definition unsettled_signal (k : kernel) : Prop :=
  ∃ cv l k0, pop k = Some (Cond_signal cv l, k0) ∧ ¬ settled k cv.

#[export] Instance settled_dec k c : Decision (settled k c).
Proof.
  unfold settled. destruct (conds k !! c) as [ws|].
  - destruct (decide (is_Some (cond_sort ws k))) as [H|H]; [left|right]; naive_solver.
  - left. naive_solver.
Defined.

#[export] Instance client_code_dec (fn : list frame) : Decision (fn = [Client]).
Proof. destruct fn as [|[] [|]]; (by left) || (by right). Defined.

#[export] Instance client_ok_dec k f : Decision (client_ok k f).
Proof. destruct f; simpl; unfold free_sema; apply _. Defined.

Lemma pop_eq k c f r :
  threads k !! current k = Some c → code c = f :: r → pop k = Some (f, recode c r k).
Proof. intros Hc Hcd. unfold pop. rewrite Hc. simpl. by rewrite Hcd. Qed.

Lemma pop_inv k f k0 :
  pop k = Some (f, k0) → ∃ c r, threads k !! current k = Some c ∧ code c = f :: r ∧
    k0 = recode c r k.
Proof.
  unfold pop. destruct (threads k !! current k) as [c|] eqn:Hc; [simpl|done].
  destruct (code c) as [|f' r] eqn:Hcd; [done|]. intros [= <- <-]. by exists c, r.
Qed.

Lemma frame_Pre k c f r :
  Inv k → threads k !! current k = Some c → code c = f :: r → Pre f r k c.
Proof.
  intros I Hc Hcd. constructor; try done; try (intros; by rewrite Hcd).
  pose proof (Inv_running _ _ I Hc) as Hst. pose proof (inv_wf _ I) as W. wf_open W.
  specialize (wcode _ _ Hc). unfold thread_code_ok in wcode. rewrite Hcd in wcode.
  case_decide; [done|]. destruct wcode as [?|(? & _)]; done.
Qed.

(** The current thread always has something to run. *)
Lemma Inv_code k c :
  Inv k → threads k !! current k = Some c → ∃ f r, code c = f :: r.
Proof.
  intros I Hc. pose proof (Inv_running _ _ I Hc) as Hst. pose proof (inv_wf _ I) as W. wf_open W.
  specialize (wcode _ _ Hc). unfold thread_code_ok in wcode.
  destruct (code c) as [|f r]; [|by eauto]. case_decide; [done|].
  destruct wcode as [?|(_ & [?|?] & _)]; [done|congruence..].
Qed.

Lemma exec_ok f r k c :
  Inv k → threads k !! current k = Some c → code c = f :: r → f ≠ Client →
  (∀ cv l, f = Cond_signal cv l → settled k cv) →
  ∃ k', exec f (recode c r k) = Some k' ∧ Inv k'.
Proof.
  intros I Hc Hcd Hcl Hset. pose proof (frame_Pre _ _ _ _ I Hc Hcd) as P.
  pose proof (p_code _ _ _ _ P) as Hcode.
  destruct f; try (exfalso; case_decide; simpl in Hcode; done).
  - by apply exec_sema_down.
  - by apply exec_sema_up.
  - by apply exec_lock_acquire.
  - by apply exec_lock_release.
  - apply exec_cond_signal; eauto.
  - by apply exec_cond_broadcast.
  - case_decide as Hi; [done|]. destruct Hcode as [Hh ->].
    eapply thread_exit_ok; [exact P|done|done|by left].
  - apply exec_sema_down_loop; [done|].
    destruct (inv_running _ I) as (c' & Hc' & _ & Hl). simplify_eq. apply Hl. by rewrite Hcd.
  - by apply exec_sema_up_tail.
  - by apply exec_lock_acquire_tail.
  - by apply exec_allocate_tid.
  - by apply exec_create_tail.
  - by apply exec_intr_set_level.
  - by apply exec_intr_return.
  - by apply exec_kernel_thread.
  - by apply exec_idle_loop.
  - by apply exec_idle_hlt.
Qed.

(** A call that fits on top of client code runs like a frame. *)
Lemma client_frame f k c :
  threads k !! current k = Some c →
  (∃ k', exec f (recode c (code c) k) = Some k' ∧ Inv k') → ∃ k', exec f k = Some k' ∧ Inv k'.
Proof. intros Hc. by rewrite (recode_id _ _ Hc). Qed.

Lemma client_exec_ok f k c :
  at_client k c → client_ok k f → ∃ k', exec f k = Some k' ∧ Inv k'.
Proof.
  intros A Hok. pose proof A as (I & Hc & _). destruct (at_client_code _ _ A) as (Hi & Hcd & Ht).
  pose proof (inv_wf _ I) as W. wf_open W.
  assert (Hd : ∀ l, l ∈ held_by (locks k) (current k) → l ∈ dom (locks k)).
  { intros l (lk & Hl & _)%elem_of_held_by. by eapply elem_of_dom_2. }
  destruct f; try done.
  - by apply exec_client_sema_init.
  - pose proof (client_sema_down_Pre s k c A Hok) as P.
    eapply client_frame; [done|]. by apply exec_sema_down.
  - by apply (exec_client_sema_try_down s k c).
  - pose proof (client_sema_up_Pre s k c A Hok) as P.
    eapply client_frame; [done|]. by apply exec_sema_up.
  - by apply exec_client_lock_init.
  - destruct Hok as (Hl & Hh & Hne).
    assert (P : Pre (Lock_acquire l) (code c) k c).
    { apply client_Pre; try done. simpl. split_and!; try done. set_solver. }
    eapply client_frame; [done|]. by apply exec_lock_acquire.
  - by apply (exec_client_lock_try_acquire l k c).
  - simpl in Hok. assert (P : Pre (Lock_release l) (code c) k c).
    { apply client_Pre; try done. simpl. split_and!; try done. set_solver. }
    eapply client_frame; [done|]. by apply exec_lock_release.
  - by apply exec_client_cond_init.
  - by apply (exec_client_cond_wait _ _ _ k c).
  - destruct Hok as (? & ? & ? & ?). assert (P : Pre (Cond_signal c0 l) (code c) k c).
    { by apply client_Pre. }
    eapply client_frame; [done|]. by apply exec_cond_signal.
  - destruct Hok as (? & ? & ?). assert (P : Pre (Cond_broadcast c0 l) (code c) k c).
    { by apply client_Pre. }
    eapply client_frame; [done|]. by apply exec_cond_broadcast.
  - eapply thread_yield_ok; [done|done|by rewrite Hcd].
  - by apply (exec_client_set_priority _ k c).
  - by apply (exec_client_set_nice _ k c).
  - by apply (exec_client_timer_sleep _ k c).
  - by apply (exec_client_thread_create _ _ _ _ k c).
  - eapply client_frame; [done|].
    eapply thread_exit_ok; [by apply client_neutral|done|done|]. right. by rewrite Hcd.
Qed.

Lemma level_Inv k c level :
  at_client k c → Inv (k <| interrupts := level |>).
Proof.
  intros A. destruct (at_client_code _ _ A) as (_ & Hcd & _). destruct A as (I & Hc & _).
  pose proof (Inv_running _ _ I Hc). destruct I. constructor; try done.
  exists c. split_and!; [done|done|by rewrite Hcd].
Qed.

Lemma return_Inv k c :
  at_client k c → held_by (locks k) (current k) = ∅ → Inv (recode c [Thread_exit] k).
Proof.
  intros A Hh. destruct (at_client_code _ _ A) as (Hi & Hcd & _).
  pose proof (client_neutral _ _ A) as P. destruct A as (I & Hc & _).
  eapply (Inv_recode _ _ _ _ (c <| code := [Thread_exit] |>)); [exact P|..]; simpl; try done.
  - apply I.
  - by eapply same_thread_code.
  - intros l _. by rewrite Hcd.
  - intros p. by rewrite Hcd.
  - unfold thread_code_ok. rewrite decide_False by done. by left.
Qed.

Lemma exec_signal_settled cv l r k c k' :
  Pre (Cond_signal cv l) r k c → exec (Cond_signal cv l) (recode c r k) = Some k' → settled k cv.
Proof.
  intros P He ws Hws. destruct (Pre_code_ok _ _ _ _ P) as (Hi & Hcv & Hcn & Hl & Hr); [done|].
  pose proof (p_inv _ _ _ _ P) as I. pose proof (inv_wf _ I) as W. wf_open W.
  pose proof (Pre_status _ _ _ _ P) as Hst. destruct (Pre_thread _ _ _ _ P) as [Hnull Hm].
  apply elem_of_held_by in Hl as (lk & Hlk & Hh). destruct (wlock _ _ Hlk) as (Hln & _).
  simpl in He. unfold cond_signal, intr_context in He. apply Z.eqb_neq in Hcn as Hcn'.
  apply Z.eqb_neq in Hln as Hln'. rewrite Hcn', Hln' in He. simpl in He.
  rewrite (inv_context _ I) in He. simpl in He.
  erewrite lock_held_eq in He; [|simpl; apply lookup_insert_eq|done..].
  simpl in He. rewrite Hh, Z.eqb_refl in He. simpl in He.
  rewrite (recode_current _ _ _ _ _ P) in He. cbn [mbind option_bind] in He.
  change (conds (recode c r k)) with (conds k) in He. rewrite Hws in He.
  cbn [mbind option_bind] in He.
  destruct (cond_sort ws (recode c r k)) eqn:E; [|done].
  apply (cond_sort_semas ws (recode c r k) k eq_refl). eauto.
Qed.

(** Every step keeps the invariant. *)
Lemma step_Inv k k' : Inv k → step k k' → Inv k'.
Proof.
  intros I Hs. destruct Hs as [f k0 k' Hp Hf He|f k0 k' Hp Hok He|old k0 k' Hp He|k0 Hp Hh|k' Hon He].
  - apply pop_inv in Hp as (c & r & Hc & Hcd & ->).
    destruct (exec_ok f r k c I Hc Hcd Hf) as (k'' & ? & ?); [|congruence].
    intros cv l ->. eapply exec_signal_settled; [|exact He]. by eapply frame_Pre.
  - apply pop_inv in Hp as (c & r & Hc & Hcd & ->).
    destruct (client_exec_ok f k c) as (k'' & ? & ?); [|done|congruence].
    split_and!; [done..|]. by rewrite Hcd.
  - apply pop_inv in Hp as (c & r & Hc & Hcd & ->).
    rewrite intr_set_level_eq in He by apply I. injection He as <-.
    apply (level_Inv k c). split_and!; [done..|]. by rewrite Hcd.
  - apply pop_inv in Hp as (c & r & Hc & Hcd & ->).
    assert (A : at_client k c) by (split_and!; [done..|by rewrite Hcd]).
    destruct (at_client_code _ _ A) as (_ & Hcd' & _). rewrite Hcd in Hcd'. injection Hcd' as ->.
    by apply return_Inv.
  - destruct (inv_running _ I) as (c & Hc & Hst & Hl).
    destruct (intr_handler_ok k c I Hc) as (k'' & ? & ?); [|congruence].
    destruct (is_loop (code c)); [|done]. rewrite Hl in Hon; done.
Qed.

Lemma steps_Inv k k' : Inv k → rtc step k k' → Inv k'.
Proof. intros I. induction 1; eauto using step_Inv. Qed.
