(* ===== verification/SchedDonors.v ===== *)
(** * The donation lists

    A second invariant of the executions of [Sched.step]: every donor on a
    thread's donation list is a live thread that waits for a lock which that
    thread holds, it is on no other list and on this one once, and a thread has
    a [waiting_lock] only from its donation to the end of [lock_acquire].  So
    the loops over the donors read threads that exist, and [donation_elem] is
    never on two lists. *)

From S2P Require Import Prelude OrdList FixedPoint Kernel Thread Synch Sched.
From S2P Require Import SchedInv SchedSwitch SchedOps SchedLock SchedCond.
From S2P Require Import SchedThread SchedTimer SchedBoot SchedSafe.
From stdpp Require Import relations.

Open Scope Z_scope.

(** The thread is in [lock_acquire] of the lock at [l]: the first of its frames
    that can tell is the one after [sema_down]. *)
Fixpoint acquiring (l : Z) (c : list frame) : bool :=
  match c with
  | [] => false
  | LockAcquireTail l' :: _ => l' =? l
  | (Lock_acquire _ | Client | Thread_exit) :: _ => false
  | _ :: c => acquiring l c
  end.

Definition donor_of (T : gmap Z thread) (L : gmap Z lock) (d t : Z) : Prop :=
  ∃ dh lk, T !! d = Some dh ∧ waiting_lock dh ≠ NULL ∧
           L !! waiting_lock dh = Some lk ∧ holder lk = t.

Record Donors (k : kernel) : Prop := {
  don_wait : ∀ t th, threads k !! t = Some th → waiting_lock th ≠ NULL →
    acquiring (waiting_lock th) (code th) = true;
  don_list : ∀ t th d, threads k !! t = Some th → d ∈ donations th →
    donor_of (threads k) (locks k) d t;
  don_nodup : ∀ t th, threads k !! t = Some th → NoDup (donations th);
  don_dying : ∀ t th, threads k !! t = Some th → status th = THREAD_DYING →
    waiting_lock th = NULL;
  don_mlfqs : ∀ t th, threads k !! t = Some th → thread_mlfqs k = true →
    waiting_lock th = NULL;
}.

(** ** Changes that donations do not see *)

Lemma Donors_ext k k' :
  threads k' = threads k → locks k' = locks k → thread_mlfqs k' = thread_mlfqs k →
  Donors k → Donors k'.
Proof. intros HT HL Hm [? ? ? ? ?]. constructor; rewrite ?HT, ?HL, ?Hm; auto. Qed.

Lemma Donors_insert k k' t th th' :
  threads k !! t = Some th → threads k' = <[t := th']> (threads k) → locks k' = locks k →
  thread_mlfqs k' = thread_mlfqs k →
  donations th' = donations th → waiting_lock th' = waiting_lock th →
  (status th' = THREAD_DYING → status th = THREAD_DYING ∨ waiting_lock th = NULL) →
  (waiting_lock th ≠ NULL → acquiring (waiting_lock th) (code th) = true →
   acquiring (waiting_lock th) (code th') = true) →
  Donors k → Donors k'.
Proof.
  intros Ht HT HL Hm Hd Hw Hs Ha D.
  assert (Hcase : ∀ x xh, threads k' !! x = Some xh →
    (x = t ∧ xh = th') ∨ (x ≠ t ∧ threads k !! x = Some xh)).
  { intros x xh. rewrite HT. intros [[<- <-]|[? ?]]%lookup_insert_Some; auto. }
  assert (Hdon : ∀ d x, donor_of (threads k) (locks k) d x → donor_of (threads k') (locks k') d x).
  { intros d x (dh & lk & Hd1 & Hd2 & Hd3 & Hd4). unfold donor_of. rewrite HL, HT.
    destruct (decide (d = t)) as [->|]; [|exists dh, lk; by rewrite lookup_insert_ne].
    simplify_eq. exists th', lk. rewrite lookup_insert_eq, Hw. done. }
  constructor.
  - intros x xh [[-> ->]|[? Hx]]%Hcase; [|by eapply (don_wait _ D)].
    rewrite Hw. intros Hn. apply Ha; [done|]. by apply (don_wait _ D t).
  - intros x xh d [[-> ->]|[? Hx]]%Hcase Hin; apply Hdon; [|by eapply (don_list _ D)].
    rewrite Hd in Hin. by eapply (don_list _ D).
  - intros x xh [[-> ->]|[? Hx]]%Hcase; [|by eapply (don_nodup _ D)].
    rewrite Hd. by eapply (don_nodup _ D).
  - intros x xh [[-> ->]|[? Hx]]%Hcase Hdy; [|by eapply (don_dying _ D)].
    rewrite Hw. destruct (Hs Hdy); [|done]. by eapply (don_dying _ D).
  - rewrite Hm. intros x xh [[-> ->]|[? Hx]]%Hcase Hf; [|by eapply (don_mlfqs _ D)].
    rewrite Hw. by eapply (don_mlfqs _ D).
Qed.

(** A function on threads that donations do not see. *)
Definition mild (f : thread → thread) : Prop :=
  ∀ th, donations (f th) = donations th ∧ waiting_lock (f th) = waiting_lock th ∧
    (status (f th) = THREAD_DYING → status th = THREAD_DYING) ∧
    ∀ l, acquiring l (code th) = true → acquiring l (code (f th)) = true.

Lemma on_thread_Donors t f k k' :
  on_thread t f k = Some k' → mild f → Donors k → Donors k'.
Proof.
  unfold on_thread. destruct (threads k !! t) as [th|] eqn:Ht; [|done]. intros [= <-] Hf.
  destruct (Hf th) as (Hd & Hw & Hs & Ha). eapply Donors_insert; eauto.
Qed.

(** Frames that can be on top of what a thread in [lock_acquire] runs. *)
Definition transparent (f : frame) : bool :=
  match f with
  | LockAcquireTail _ | Lock_acquire _ | Client | Thread_exit => false
  | _ => true
  end.

Lemma acquiring_app l fs c :
  forallb transparent fs = true → acquiring l (fs ++ c) = acquiring l c.
Proof.
  induction fs as [|f fs IH]; [done|]. simpl. intros [Hf Hfs]%andb_true_iff.
  by destruct f; try done; apply IH.
Qed.

Lemma push_frames_Donors t fs k k' :
  push_frames t fs k = Some k' → forallb transparent fs = true → Donors k → Donors k'.
Proof.
  intros H Hfs. eapply on_thread_Donors; [done|]. intros th. split_and!; try done.
  intros l Ha. simpl. by rewrite acquiring_app.
Qed.

(** Any frames can be pushed on a thread that waits for no lock. *)
Lemma push_frames_idle_Donors t th fs k k' :
  threads k !! t = Some th → waiting_lock th = NULL →
  push_frames t fs k = Some k' → Donors k → Donors k'.
Proof.
  intros Ht Hw. unfold push_frames. rewrite (on_thread_Some _ _ _ _ Ht). intros [= <-].
  eapply Donors_insert; try done; simpl; auto.
Qed.

(** ** The operations *)

Create HintDb donors.
#[export] Hint Extern 2 (mild _) => intros ?; split_and!; try done : donors.
#[export] Hint Extern 2 (forallb transparent _ = true) => reflexivity : donors.
#[export] Hint Extern 1 (Donors (upd _ _ ?k)) =>
  apply (Donors_ext k); [reflexivity..|] : donors.
#[export] Hint Extern 1 (Donors (intr_disable ?k)) =>
  apply (Donors_ext k); [reflexivity..|] : donors.
#[export] Hint Resolve on_thread_Donors push_frames_Donors : donors.

Lemma intr_set_level_Donors l k k' : intr_set_level l k = Some k' → Donors k → Donors k'.
Proof.
  destruct l; simpl; [intros [= <-]; by apply Donors_ext|]. unfold intr_enable. intros H. bind_inv H.
  injection H as <-. by apply Donors_ext.
Qed.

Lemma on_sema_Donors s f k k' : on_sema s f k = Some k' → Donors k → Donors k'.
Proof.
  unfold on_sema. destruct (semas k !! s); [|done]. intros [= <-]. by apply Donors_ext.
Qed.

Lemma on_cond_Donors c f k k' : on_cond c f k = Some k' → Donors k → Donors k'.
Proof.
  unfold on_cond. destruct (conds k !! c); [|done]. intros [= <-]. by apply Donors_ext.
Qed.

#[export] Hint Resolve intr_set_level_Donors on_sema_Donors on_cond_Donors : donors.

Lemma schedule_tail_Donors prev k k' :
  thread_schedule_tail prev k = Some k' → Donors k → Donors k'.
Proof.
  unfold thread_schedule_tail. intros H D. bind_inv H.
  assert (D1 : Donors k0) by eauto with donors.
  assert (D2 : Donors (k0 <| thread_ticks := 0 |>)) by (by apply (Donors_ext k0)).
  destruct (negb (prev =? NULL)); [|by injection H as <-]. bind_inv H.
  destruct (bool_decide _) eqn:Hd; [|by injection H as <-]. simpl in H.
  destruct (negb (prev =? initial_thread k0)); [|by injection H as <-].
  bind_inv H. injection H as <-. bool_simp. clear D1.
  assert (Hl : ∀ x xh, delete prev (threads k0) !! x = Some xh →
    x ≠ prev ∧ threads k0 !! x = Some xh) by (intros ? ? [? ?]%lookup_delete_Some; auto).
  constructor; simpl; try (intros x xh [? Hx]%Hl; by eapply D2).
  intros x xh d [? Hx]%Hl Hin. destruct (don_list _ D2 _ _ _ Hx Hin) as (dh & lk & Hdh & Hw & Hlk & Hh).
  exists dh, lk. split_and!; try done. rewrite lookup_delete_ne; [done|]. intros <-.
  apply Hw. eapply (don_dying _ D2 prev); [done|]. simpl in *. by simplify_eq.
Qed.
#[export] Hint Resolve schedule_tail_Donors : donors.

Lemma schedule_Donors k k' : schedule k = Some k' → Donors k → Donors k'.
Proof.
  unfold schedule, next_thread_to_run. intros H D.
  destruct (ready_list k) as [|t r]; bind_inv H; case_match; eauto with donors.
Qed.
#[export] Hint Resolve schedule_Donors : donors.

Lemma thread_block_Donors k k' : thread_block k = Some k' → Donors k → Donors k'.
Proof. unfold thread_block. intros H D. bind_inv H. eauto with donors. Qed.

Lemma thread_unblock_Donors t k k' : thread_unblock t k = Some k' → Donors k → Donors k'.
Proof. unfold thread_unblock. intros H D. bind_inv H. eauto 8 with donors. Qed.

Lemma thread_yield_Donors k k' : thread_yield k = Some k' → Donors k → Donors k'.
Proof.
  unfold thread_yield. intros H D. bind_inv H.
  eapply schedule_Donors; [done|]. eapply push_frames_Donors; [done|done|].
  eapply on_thread_Donors; [done|by eauto with donors|]. case_match; eauto with donors.
Qed.
#[export] Hint Resolve thread_block_Donors thread_unblock_Donors thread_yield_Donors : donors.

Lemma yield_to_front_Donors t k k' : yield_to_front t k = Some k' → Donors k → Donors k'.
Proof.
  unfold yield_to_front. intros H D. repeat case_match; simplify_eq; eauto with donors.
Qed.

Lemma thread_sleep_Donors w k k' : thread_sleep w k = Some k' → Donors k → Donors k'.
Proof. unfold thread_sleep. intros H D. bind_inv H. eauto 8 with donors. Qed.

Lemma wake_loop_Donors sl tick k k' :
  thread_wake_loop sl tick k = Some k' → Donors k → Donors k'.
Proof.
  revert k. induction sl as [|t sl IH]; cbn [thread_wake_loop]; intros k H D; [by simplify_eq|].
  bind_inv H. case_match; [by simplify_eq|]. bind_inv H. eapply IH; [done|]. eauto with donors.
Qed.

Lemma calc_priority_Donors t k k' : mlfqs_calc_priority t k = Some k' → Donors k → Donors k'.
Proof. unfold mlfqs_calc_priority. case_match; [by intros [= <-]|]. eauto with donors. Qed.

Lemma calc_recent_cpu_Donors t k k' :
  mlfqs_calc_recent_cpu t k = Some k' → Donors k → Donors k'.
Proof. unfold mlfqs_calc_recent_cpu. case_match; [by intros [= <-]|]. eauto with donors. Qed.

Lemma foreach_Donors func k k' :
  (∀ t k k', func t k = Some k' → Donors k → Donors k') →
  thread_foreach func k = Some k' → Donors k → Donors k'.
Proof.
  intros Hf H. unfold thread_foreach in H. bind_inv H. clear E. revert H.
  generalize (all_list k). intros l. revert k. induction l as [|t l IH]; simpl; intros k H D.
  { by simplify_eq. }
  destruct (func t k) as [k1|] eqn:Ef; [eapply IH; eauto|]. exfalso. clear -H.
  induction l; simpl in H; [done|]. auto.
Qed.

Lemma update_load_avg_Donors k k' :
  mlfqs_update_load_avg_and_recent_cpu k = Some k' → Donors k → Donors k'.
Proof.
  unfold mlfqs_update_load_avg_and_recent_cpu. intros H D. bind_inv H.
  eapply foreach_Donors; [|done|by eauto with donors]. apply calc_recent_cpu_Donors.
Qed.

Lemma update_priorities_Donors k k' :
  mlfqs_update_all_priorities k = Some k' → Donors k → Donors k'.
Proof.
  unfold mlfqs_update_all_priorities. intros H D. bind_inv H. simplify_eq.
  assert (Donors k0); [|by eauto with donors].
  eapply foreach_Donors; [apply calc_priority_Donors|done..].
Qed.
#[export] Hint Resolve yield_to_front_Donors thread_sleep_Donors wake_loop_Donors
  calc_priority_Donors update_load_avg_Donors update_priorities_Donors : donors.

Lemma thread_tick_Donors k k' : thread_tick k = Some k' → Donors k → Donors k'.
Proof.
  unfold thread_tick, intr_yield_on_return. intros H D. bind_inv H.
  assert (D0 : Donors k0).
  { repeat case_match; simplify_eq; eauto 8 with donors. }
  assert (D1 : Donors k1).
  { repeat case_match; simplify_eq; try done; bind_inv E1; eauto with donors. }
  case_match; bind_inv H; simplify_eq; eauto with donors.
Qed.

Lemma timer_interrupt_Donors k k' : timer_interrupt k = Some k' → Donors k → Donors k'.
Proof.
  unfold timer_interrupt, thread_wake. intros H D. bind_inv H.
  eapply wake_loop_Donors; [done|]. eapply thread_tick_Donors; [done|]. eauto with donors.
Qed.

Lemma intr_handler_Donors k k' : intr_handler k = Some k' → Donors k → Donors k'.
Proof.
  unfold intr_handler. intros H D. bind_inv H.
  assert (D1 : Donors k0) by (eapply timer_interrupt_Donors; [done|]; eauto with donors).
  assert (D2 : Donors k1) by eauto with donors.
  case_match; simplify_eq; eauto with donors.
Qed.

Lemma sema_down_loop_Donors s old k k' :
  sema_down_loop s old k = Some k' → Donors k → Donors k'.
Proof.
  unfold sema_down_loop. intros H D. bind_inv H. case_match; bind_inv H; eauto with donors.
Qed.

Lemma sema_down_Donors s k k' : sema_down s k = Some k' → Donors k → Donors k'.
Proof.
  unfold sema_down. intros H D. bind_inv H. eapply sema_down_loop_Donors; eauto with donors.
Qed.

Lemma sema_try_down_Donors s k b k' :
  sema_try_down s k = Some (b, k') → Donors k → Donors k'.
Proof.
  unfold sema_try_down. intros H D. bind_inv H. destruct p as [b' k1]. cbn [mbind option_bind] in H.
  bind_inv H. simplify_eq. case_match; bind_inv E1; simplify_eq; eauto with donors.
Qed.

Lemma sema_up_Donors s k k' : sema_up s k = Some k' → Donors k → Donors k'.
Proof.
  unfold sema_up. intros H D. bind_inv H.
  assert (D0 : Donors k0); [|by eauto 8 with donors].
  case_match; bind_inv E1; simplify_eq; eauto with donors.
Qed.

Lemma sema_up_tail_Donors k k' : sema_up_tail k = Some k' → Donors k → Donors k'.
Proof.
  unfold sema_up_tail. intros H D. case_match; bind_inv H; simplify_eq; eauto with donors.
Qed.
#[export] Hint Resolve sema_down_Donors sema_try_down_Donors sema_up_Donors
  sema_up_tail_Donors : donors.

Lemma set_result_Donors b k k' : set_result (Some (b, k)) = Some k' → Donors k → Donors k'.
Proof. simpl. eauto with donors. Qed.

Lemma set_priority_Donors p k k' : thread_set_priority p k = Some k' → Donors k → Donors k'.
Proof.
  unfold thread_set_priority. intros H D. case_match; [by simplify_eq|].
  bind_inv H. eauto 8 with donors.
Qed.

Lemma set_nice_Donors n k k' : thread_set_nice n k = Some k' → Donors k → Donors k'.
Proof.
  unfold thread_set_nice. intros H D. bind_inv H.
  assert (D1 : Donors k1) by eauto 8 with donors.
  repeat case_match; bind_inv H; eauto with donors.
Qed.

Lemma timer_sleep_Donors n k k' : timer_sleep n k = Some k' → Donors k → Donors k'.
Proof.
  unfold timer_sleep. intros H D. bind_inv H. case_match; simplify_eq; eauto with donors.
Qed.

Lemma cond_signal_Donors c l k k' : cond_signal c l k = Some k' → Donors k → Donors k'.
Proof.
  unfold cond_signal. intros H D. bind_inv H. case_match; bind_inv H; simplify_eq;
    eauto with donors.
Qed.

Lemma cond_broadcast_Donors c l k k' : cond_broadcast c l k = Some k' → Donors k → Donors k'.
Proof.
  unfold cond_broadcast. intros H D. bind_inv H. case_match; simplify_eq; eauto with donors.
Qed.

Lemma donate_priority_Donors n t k k' :
  donate_priority n t k = Some k' → Donors k → Donors k'.
Proof.
  revert t k. induction n as [|n IH]; cbn [donate_priority]; intros t k H D; [by simplify_eq|].
  bind_inv H. case_match; [by simplify_eq|]. bind_inv H. case_match; [by simplify_eq|].
  bind_inv H. case_match; [by simplify_eq|]. bind_inv H.
  assert (D1 : Donors k0) by eauto with donors. eapply IH; [done|].
  destruct (bool_decide (status t1 = THREAD_READY)); bind_inv E3; simplify_eq; eauto with donors.
Qed.

(** ** Locks *)

(** A thread that waited for nothing registers as a donor of a lock's holder. *)
Lemma donor_Donors k k' t th h hd l lk :
  Donors k → threads k !! t = Some th → waiting_lock th = NULL → status th ≠ THREAD_DYING →
  thread_mlfqs k = false → l ≠ NULL → locks k !! l = Some lk → holder lk = h → h ≠ t →
  threads k !! h = Some hd → acquiring l (code th) = true →
  threads k' = <[h := hd <| donations ::= λ d, d ++ [t] |>]>
                 (<[t := th <| waiting_lock := l |>]> (threads k)) →
  locks k' = locks k → thread_mlfqs k' = thread_mlfqs k → Donors k'.
Proof.
  intros D Ht Hw Hst Hm Hl Hlk Hh Hne Hhd Ha HT HL Hm'.
  assert (Hcase : ∀ x xh, threads k' !! x = Some xh →
    (x = t ∧ xh = th <| waiting_lock := l |>) ∨
    (x ≠ t ∧ ∃ yh, threads k !! x = Some yh ∧ waiting_lock xh = waiting_lock yh ∧
       status xh = status yh ∧ code xh = code yh ∧
       donations xh = if decide (x = h) then donations yh ++ [t] else donations yh)).
  { intros x xh. rewrite HT. intros [[<- <-]|[? [[<- <-]|[? Hx]]%lookup_insert_Some]]%lookup_insert_Some.
    - right. split; [done|]. exists hd. by rewrite decide_True.
    - by left.
    - right. split; [done|]. exists xh. by rewrite decide_False. }
  assert (Hno : ∀ x xh, threads k !! x = Some xh → t ∉ donations xh).
  { intros x xh Hx Hin. destruct (don_list _ D _ _ _ Hx Hin) as (dh & ? & ? & ? & _). congruence. }
  assert (Hdon : ∀ d x, d ≠ t → donor_of (threads k) (locks k) d x → donor_of (threads k') (locks k') d x).
  { intros d x Hd (dh & lk' & Hd1 & Hd2 & Hd3 & Hd4). unfold donor_of. rewrite HL, HT.
    destruct (decide (d = h)) as [->|].
    - simplify_eq. eexists _, lk'. rewrite lookup_insert_eq. done.
    - exists dh, lk'. by rewrite !lookup_insert_ne. }
  assert (Hself : donor_of (threads k') (locks k') t h).
  { exists (th <| waiting_lock := l |>), lk. rewrite HT, HL, lookup_insert_ne, lookup_insert_eq by done.
    done. }
  constructor.
  - intros x xh [[-> ->]|(Hx & yh & Hy & -> & _ & -> & _)]%Hcase; [done|]. by eapply (don_wait _ D).
  - intros x xh d Hx Hin. pose proof Hx as [[-> ->]|(Hxt & yh & Hy & _ & _ & _ & Hd)]%Hcase.
    + apply Hdon; [|by eapply (don_list _ D)]. intros ->. by eapply (Hno t th).
    + rewrite Hd in Hin. destruct (decide (d = t)) as [->|Hdt].
      * case_decide; [by subst|]. by destruct (Hno _ _ Hy).
      * apply Hdon; [done|]. eapply (don_list _ D); [exact Hy|]. case_decide; [|done].
        apply elem_of_app in Hin as [?|?%list_elem_of_singleton]; done.
  - intros x xh [[-> ->]|(Hx & yh & Hy & _ & _ & _ & ->)]%Hcase; [exact (don_nodup _ D _ _ Ht)|].
    pose proof (don_nodup _ D _ _ Hy). case_decide; [|done].
    apply NoDup_app. split_and!; [done| |by apply NoDup_singleton].
    intros d Hd ->%list_elem_of_singleton. by eapply Hno.
  - intros x xh [[-> ->]|(Hx & yh & Hy & -> & -> & _)]%Hcase; [done|]. by eapply (don_dying _ D).
  - intros x xh _. rewrite Hm', Hm. done.
Qed.

(** A thread takes a free lock. *)
Lemma take_Donors k k' t c c' l lk :
  Donors k → (∀ x xh, threads k !! x = Some xh → x ≠ NULL) → threads k !! t = Some c →
  (waiting_lock c = NULL ∨ waiting_lock c = l) → locks k !! l = Some lk → holder lk = NULL →
  threads k' = <[t := c']> (threads k) → locks k' = <[l := Lock t]> (locks k) →
  thread_mlfqs k' = thread_mlfqs k → donations c' = donations c → waiting_lock c' = NULL →
  Donors k'.
Proof.
  intros D Hnull Hc Hw Hlk Hh HT HL Hm Hd Hw'.
  assert (Hcase : ∀ x xh, threads k' !! x = Some xh →
    (x = t ∧ xh = c') ∨ (x ≠ t ∧ threads k !! x = Some xh)).
  { intros x xh. rewrite HT. intros [[<- <-]|[? ?]]%lookup_insert_Some; auto. }
  assert (Hdon : ∀ d x, x ≠ NULL → donor_of (threads k) (locks k) d x →
    donor_of (threads k') (locks k') d x).
  { intros d x Hx (dh & lk' & Hd1 & Hd2 & Hd3 & Hd4).
    assert (waiting_lock dh ≠ l) as Hl by congruence.
    exists dh, lk'. rewrite HT, HL, (lookup_insert_ne (locks k)), lookup_insert_ne; [done| |done].
    intros <-. simplify_eq. by destruct Hw. }
  constructor.
  - intros x xh [[-> ->]|[? Hx]]%Hcase; [done|by eapply (don_wait _ D)].
  - intros x xh d [[-> ->]|[? Hx]]%Hcase Hin; (apply Hdon; [by eapply Hnull|]).
    + rewrite Hd in Hin. by eapply (don_list _ D).
    + by eapply (don_list _ D).
  - intros x xh [[-> ->]|[? Hx]]%Hcase; [|by eapply (don_nodup _ D)].
    rewrite Hd. by eapply (don_nodup _ D).
  - intros x xh [[-> ->]|[? Hx]]%Hcase; [done|by eapply (don_dying _ D)].
  - rewrite Hm. intros x xh [[-> ->]|[? Hx]]%Hcase; [done|by eapply (don_mlfqs _ D)].
Qed.

(** The holder of a lock drops it and the donors that wait for it. *)
Lemma drop_Donors k k' t c c' l lk :
  Donors k → threads k !! t = Some c → locks k !! l = Some lk → holder lk = t →
  threads k' = <[t := c']> (threads k) → locks k' = <[l := Lock NULL]> (locks k) →
  thread_mlfqs k' = thread_mlfqs k →
  donations c' = (if thread_mlfqs k then donations c
                  else filter (λ d, waits_for k l d = false) (donations c)) →
  waiting_lock c' = waiting_lock c → status c' = status c →
  (∀ x, acquiring x (code c) = true → acquiring x (code c') = true) →
  Donors k'.
Proof.
  intros D Hc Hlk Hh HT HL Hm Hd Hw Hs Ha.
  assert (Hcase : ∀ x xh, threads k' !! x = Some xh →
    (x = t ∧ xh = c') ∨ (x ≠ t ∧ threads k !! x = Some xh)).
  { intros x xh. rewrite HT. intros [[<- <-]|[? ?]]%lookup_insert_Some; auto. }
  assert (Hdon : ∀ d x, waits_for k l d = false ∨ x ≠ t → donor_of (threads k) (locks k) d x →
    donor_of (threads k') (locks k') d x).
  { intros d x Hx (dh & lk' & Hd1 & Hd2 & Hd3 & Hd4). unfold waits_for in Hx. rewrite Hd1 in Hx.
    assert (waiting_lock dh ≠ l) as Hl.
    { intros <-. destruct Hx as [Hx|Hx]; [by rewrite Z.eqb_refl in Hx|congruence]. }
    unfold donor_of. rewrite HT, HL. destruct (decide (d = t)) as [->|].
    - simplify_eq. exists c', lk'. rewrite lookup_insert_eq, Hw, lookup_insert_ne by done. done.
    - exists dh, lk'. rewrite !lookup_insert_ne by done. done. }
  constructor.
  - intros x xh [[-> ->]|[? Hx]]%Hcase; [|by eapply (don_wait _ D)].
    rewrite Hw. intros Hn. by apply Ha, (don_wait _ D _ _ Hc).
  - intros x xh d [[-> ->]|[? Hx]]%Hcase Hin; [|apply Hdon; [by right|by eapply (don_list _ D)]].
    rewrite Hd in Hin. destruct (thread_mlfqs k) eqn:Em.
    + destruct (don_list _ D _ _ _ Hc Hin) as (dh & ? & Hdh & Hn & _).
      by destruct Hn; eapply (don_mlfqs _ D).
    + apply list_elem_of_filter in Hin as [Hf Hin].
      apply Hdon; [by left|]. by eapply (don_list _ D).
  - intros x xh [[-> ->]|[? Hx]]%Hcase; [|by eapply (don_nodup _ D)].
    pose proof (don_nodup _ D _ _ Hc). rewrite Hd. case_match; [done|by apply NoDup_filter].
  - intros x xh [[-> ->]|[? Hx]]%Hcase; [|by eapply (don_dying _ D)].
    rewrite Hs, Hw. by eapply (don_dying _ D).
  - rewrite Hm. intros x xh [[-> ->]|[? Hx]]%Hcase; [|by eapply (don_mlfqs _ D)].
    rewrite Hw. by eapply (don_mlfqs _ D).
Qed.

(** A thread that has just been initialised. *)
Lemma fresh_Donors k k' t th :
  Donors k → threads k !! t = None → threads k' = <[t := th]> (threads k) →
  locks k' = locks k → thread_mlfqs k' = thread_mlfqs k →
  donations th = [] → waiting_lock th = NULL → Donors k'.
Proof.
  intros D Ht HT HL Hm Hd Hw.
  assert (Hcase : ∀ x xh, threads k' !! x = Some xh →
    (x = t ∧ xh = th) ∨ (x ≠ t ∧ threads k !! x = Some xh)).
  { intros x xh. rewrite HT. intros [[<- <-]|[? ?]]%lookup_insert_Some; auto. }
  constructor.
  - intros x xh [[-> ->]|[? Hx]]%Hcase; [done|by eapply (don_wait _ D)].
  - intros x xh d [[-> ->]|[? Hx]]%Hcase Hin; [rewrite Hd in Hin; by apply elem_of_nil in Hin|].
    destruct (don_list _ D _ _ _ Hx Hin) as (dh & lk & Hdh & ?). exists dh, lk.
    rewrite HT, HL, lookup_insert_ne by (intros ->; congruence). done.
  - intros x xh [[-> ->]|[? Hx]]%Hcase; [rewrite Hd; constructor|by eapply (don_nodup _ D)].
  - intros x xh [[-> ->]|[? Hx]]%Hcase; [done|by eapply (don_dying _ D)].
  - rewrite Hm. intros x xh [[-> ->]|[? Hx]]%Hcase; [done|by eapply (don_mlfqs _ D)].
Qed.

Lemma lock_acquire_Donors l k c k' :
  threads k !! current k = Some c → waiting_lock c = NULL →
  lock_acquire l k = Some k' → Donors k → Donors k'.
Proof.
  intros Hc Hw H D. unfold lock_acquire in H. bind_inv H.
  destruct (thread_current_running _ _ E) as (-> & c' & Hc' & Hst). rewrite Hc in Hc'.
  injection Hc' as <-. pose proof (push_frames_idle_Donors _ _ _ _ _ Hc Hw E5 D) as D0.
  unfold push_frames in E5. rewrite (on_thread_Some _ _ _ _ Hc) in E5. injection E5 as <-.
  case_match eqn:Eb; [|by simplify_eq]. bool_simp. bind_inv H.
  eapply donate_priority_Donors; [done|].
  erewrite on_thread_Some in E5 by (simpl; apply lookup_insert_eq). injection E5 as <-.
  unfold lock_held_by_current_thread in E2. bind_inv E2. simplify_eq. bool_simp.
  unfold on_thread in E6. destruct (threads _ !! holder l0) as [hd|] eqn:Hhd in E6; [|done].
  simpl in Hhd. rewrite insert_insert_eq, lookup_insert_ne in Hhd by congruence.
  injection E6 as <-. bool_simp.
  eapply (donor_Donors _ _ (current k) _ (holder l0) hd l l0); [exact D0|simpl; apply lookup_insert_eq|..]; simpl; try done.
  - by rewrite Hst.
  - by rewrite lookup_insert_ne by congruence.
  - by rewrite Z.eqb_refl.
Qed.

Lemma lock_acquire_tail_Donors l r k c k' :
  Pre (LockAcquireTail l) r k c → code c = LockAcquireTail l :: r →
  lock_acquire_tail l (recode c r k) = Some k' → Donors k → Donors k'.
Proof.
  intros P Hcd H D. destruct (Pre_code_ok _ _ _ _ P) as (Hi & Hl & Hh & Hr); [done|].
  pose proof (p_inv _ _ _ _ P) as I. pose proof (inv_wf _ I) as W. wf_open W.
  apply elem_of_dom in Hl as Hl'. destruct Hl' as [lk Hlk].
  destruct (wlock _ _ Hlk) as (_ & _ & [sm Hsm]%elem_of_dom & _).
  assert (Hwt : 1 <= weight l (LockAcquireTail l :: r)) by (by eapply weight_code_ok').
  destruct (lock_value_zero _ _ _ _ _ _ P Hl Hsm Hwt) as (_ & _ & Hnull). specialize (Hnull _ Hlk).
  revert H. unfold lock_acquire_tail. rewrite (recode_current _ _ _ _ _ P). cbn [mbind option_bind].
  erewrite on_thread_Some by (simpl; apply lookup_insert_eq). simpl. rewrite insert_insert_eq.
  unfold on_lock; simpl. rewrite Hlk. intros [= <-].
  eapply (take_Donors k _ (current k) c _ l lk); try done.
  - intros x xh Hx. apply (wthread _ _ Hx).
  - apply P.
  - destruct (decide (waiting_lock c = NULL)) as [|Hn]; [by left|right].
    pose proof (don_wait _ D _ _ (p_cur _ _ _ _ P) Hn) as Ha. rewrite Hcd in Ha. simpl in Ha.
    symmetry. by apply Z.eqb_eq.
Qed.

Lemma lock_release_Donors l k c k' :
  threads k !! current k = Some c → lock_release l k = Some k' → Donors k → Donors k'.
Proof.
  intros Hc H D. unfold lock_release in H. bind_inv H. pose proof E2 as ->%thread_current_is.
  unfold lock_held_by_current_thread in E0. bind_inv E0. simplify_eq. bool_simp.
  unfold on_lock in E3. match goal with Hx : locks k !! l = Some _ |- _ => rewrite Hx in E3; rename Hx into Hlk end.
  injection E3 as <-. unfold push_frames in E4. erewrite on_thread_Some in E4 by exact Hc.
  injection E4 as <-. simpl in H. destruct (thread_mlfqs k) eqn:Em; simpl in H.
  - simplify_eq. eapply (drop_Donors k _ (current k) c); try done. by rewrite Em.
  - unfold remove_donations_for_lock in H. erewrite on_thread_Some in H by (simpl; apply lookup_insert_eq).
    cbn [mbind option_bind] in H. unfold update_priority_after_release in H. bind_inv H.
    erewrite on_thread_Some in H by (simpl; apply lookup_insert_eq). injection H as <-. simpl.
    rewrite !insert_insert_eq. eapply (drop_Donors k _ (current k) c); try done. simpl. rewrite Em.
    apply list_filter_iff. intros d. unfold waits_for. simpl.
    destruct (decide (d = current k)) as [->|]; [|by rewrite lookup_insert_ne].
    by rewrite lookup_insert_eq, Hc.
Qed.

Lemma lock_try_acquire_Donors l k c k' :
  at_client k c → client_ok k (Lock_try_acquire l) → waiting_lock c = NULL →
  set_result (lock_try_acquire l k) = Some k' → Donors k → Donors k'.
Proof.
  intros A (Hl & Hh & _) Hw H D. pose proof A as (I & Hc & _). pose proof (inv_wf _ I) as W.
  pose proof W as W'. wf_open W'.
  destruct (lock_try_acquire l k) as [[b k1]|] eqn:Hl1; [|done].
  unfold lock_try_acquire in Hl1. bind_inv Hl1. destruct p as [success k2].
  cbn [mbind option_bind] in Hl1.
  pose proof Hl as [lk Hlk]%elem_of_dom. destruct (wlock _ _ Hlk) as (_ & Hsn & Hls%elem_of_dom & _).
  destruct (sema_try_down_ok (lock_sema l) k c (client_neutral _ _ A) Hsn Hls)
    as (b' & sm & Hsm & Hb & Heq). rewrite Heq in E2. injection E2 as -> <-.
  destruct success; bind_inv Hl1; injection Hl1 as <- <-.
  - bind_inv E2. pose proof E3 as Hcur%thread_current_is. unfold on_lock in E2. simpl in E2, Hcur.
    rewrite Hlk in E2. injection E2 as <-. simpl in H. erewrite on_thread_Some in H by exact Hc.
    injection H as <-. symmetry in Hb. bool_simp.
    pose proof (lock_count _ _ _ (inv_counts _ I) _ _ _ Hlk Hsm) as Hcount.
    assert (0 <= tsum (weight l) (threads k)).
    { apply tsum_nonneg. intros t th Hth. by eapply Wf_weight_nonneg. }
    assert (holder lk = NULL) as Hz.
    { unfold holder_count in Hcount. destruct (Z.eqb_spec (holder lk) NULL); [done|lia]. }
    eapply (take_Donors k _ (current k) c _ l lk); try done; [|by left|simpl; by rewrite Hcur].
    intros x xh Hx. apply (wthread _ _ Hx).
  - injection E2 as <-. eapply set_result_Donors; [done|]. by apply (Donors_ext k).
Qed.

(** A thread that waits for nothing exits. *)
Lemma thread_exit_Donors k c k' :
  threads k !! current k = Some c → waiting_lock c = NULL →
  thread_exit k = Some k' → Donors k → Donors k'.
Proof.
  intros Hc Hw H D. unfold thread_exit in H. bind_inv H.
  pose proof E0 as ->%thread_current_is. eapply schedule_Donors; [done|].
  erewrite on_thread_Some in E1 by exact Hc. injection E1 as <-.
  eapply (Donors_insert k _ (current k) c); try done. by right.
Qed.

Lemma intr_set_level_threads l k k' : intr_set_level l k = Some k' → threads k' = threads k.
Proof.
  destruct l; simpl; [by intros [= <-]|]. unfold intr_enable. intros H. bind_inv H.
  by injection H as <-.
Qed.

Lemma thread_create_Donors name p page fn k c k' :
  threads k !! current k = Some c → waiting_lock c = NULL →
  thread_create name p page fn k = Some k' → Donors k → Donors k'.
Proof.
  intros Hc Hw H D. unfold thread_create in H. bind_inv H. pose proof E as ->%thread_current_is.
  case_match; [by eauto with donors|]. bind_inv H. bool_simp.
  unfold init_thread in E1. bind_inv E1.
  assert (page ≠ current k) by congruence.
  eapply (push_frames_idle_Donors _ c); [|done|done|].
  - rewrite (intr_set_level_threads _ _ _ E1). simpl. by rewrite lookup_insert_ne.
  - eapply intr_set_level_Donors; [done|]. by eapply (fresh_Donors k).
Qed.


Definition waits_for_nothing (t : Z) (k : kernel) : Prop :=
  ∀ th, threads k !! t = Some th → waiting_lock th = NULL.

Lemma on_thread_waits t x f k k' :
  on_thread t f k = Some k' → (∀ th, waiting_lock (f th) = waiting_lock th) →
  waits_for_nothing x k → waits_for_nothing x k'.
Proof.
  unfold on_thread. destruct (threads k !! t) as [th|] eqn:Ht; [|done]. intros [= <-] Hf Hx xh.
  simpl. intros [[<- <-]|[? ?]]%lookup_insert_Some; [rewrite Hf|]; by apply Hx.
Qed.

Lemma alloc_frame_waits t n x k k' :
  alloc_frame t n k = Some k' → waits_for_nothing x k → waits_for_nothing x k'.
Proof. unfold alloc_frame. intros H. bind_inv H. by eapply on_thread_waits. Qed.

Lemma alloc_frame_Donors t n k k' : alloc_frame t n k = Some k' → Donors k → Donors k'.
Proof. unfold alloc_frame. intros H D. bind_inv H. eauto with donors. Qed.

Lemma create_tail_Donors t p fn k k' :
  waits_for_nothing t k → thread_create_tail t p fn k = Some k' → Donors k → Donors k'.
Proof.
  intros Hw H D. unfold thread_create_tail in H. bind_inv H.
  assert (Hw3 : waits_for_nothing t k3) by eauto 8 using alloc_frame_waits, on_thread_waits.
  assert (D3 : Donors k3) by eauto 8 using alloc_frame_Donors with donors.
  assert (D4 : Donors k4).
  { unfold on_thread in E5. destruct (threads k3 !! t) as [th|] eqn:Ht; [|done].
    injection E5 as <-. specialize (Hw3 _ Ht). eapply (Donors_insert k3 _ t th); try done; auto. }
  case_match; simplify_eq; eauto with donors.
Qed.

Lemma lock_init_Donors l k k' :
  locks k !! l = None → lock_init l k = Some k' → Donors k → Donors k'.
Proof.
  intros Hl H D. unfold lock_init, sema_init in H. bind_inv H. injection H as <-.
  destruct D as [D1 D2 D3 D4 D5]. constructor; try done. intros t th d Ht Hd.
  destruct (D2 _ _ _ Ht Hd) as (dh & lk & ? & ? & ? & ?). exists dh, lk. simpl.
  rewrite lookup_insert_ne by congruence. done.
Qed.

Lemma cond_wait_Donors cv l w k c k' :
  threads k !! current k = Some c → waiting_lock c = NULL →
  cond_wait cv l w k = Some k' → Donors k → Donors k'.
Proof.
  intros Hc Hw H D. unfold cond_wait, sema_init, on_cond in H. bind_inv H. simplify_eq.
  pose proof E4 as ->%thread_current_is.
  bind_inv E6. simplify_eq.
  bind_inv E5. injection E5 as <-. eapply (push_frames_idle_Donors _ c); [|done|exact H|by apply (Donors_ext k)].
  exact Hc.
Qed.

(** ** Steps *)

Lemma pop_Donors k c f r :
  threads k !! current k = Some c → code c = f :: r →
  (∀ l, f ≠ LockAcquireTail l) → Donors k → Donors (recode c r k).
Proof.
  intros Hc Hcd Hf D. eapply (Donors_insert k _ (current k) c); try done; simpl; auto.
  rewrite Hcd. intros Hw. destruct f; simpl; try done. by destruct (Hf l).
Qed.

Lemma opaque_waits k c f r :
  threads k !! current k = Some c → code c = f :: r →
  (match f with Lock_acquire _ | Client | Thread_exit => True | _ => False end) →
  Donors k → waiting_lock c = NULL.
Proof.
  intros Hc Hcd Hf D. destruct (decide (waiting_lock c = NULL)) as [|Hn]; [done|].
  pose proof (don_wait _ D _ _ Hc Hn) as Ha. rewrite Hcd in Ha. by destruct f.
Qed.

Lemma exec_Donors f r k c k' :
  Inv k → threads k !! current k = Some c → code c = f :: r → f ≠ Client →
  exec f (recode c r k) = Some k' → Donors k → Donors k'.
Proof.
  intros I Hc Hcd Hcl He D. pose proof (frame_Pre _ _ _ _ I Hc Hcd) as P.
  pose proof (p_code _ _ _ _ P) as Hcode.
  assert (Dp : (∀ l, f ≠ LockAcquireTail l) → Donors (recode c r k)) by (intros; by eapply pop_Donors).
  assert (Hc0 : threads (recode c r k) !! current (recode c r k) = Some (c <| code := r |>))
    by apply lookup_insert_eq.
  assert (Hop : (match f with Lock_acquire _ | Client | Thread_exit => True | _ => False end) →
    waiting_lock c = NULL) by (intros; by eapply opaque_waits).
  destruct f; try (exfalso; case_decide; simpl in Hcode; done);
    try specialize (Dp (λ _, ltac:(discriminate))); simpl in He.
  - eauto with donors.
  - eauto with donors.
  - eapply (lock_acquire_Donors _ _ _ _ Hc0); eauto.
  - eapply (lock_release_Donors _ _ _ _ Hc0); eauto.
  - by eapply cond_signal_Donors.
  - by eapply cond_broadcast_Donors.
  - eapply (thread_exit_Donors _ _ _ Hc0); eauto.
  - by eapply sema_down_loop_Donors.
  - eauto with donors.
  - by eapply lock_acquire_tail_Donors.
  - unfold allocate_tid in He. bind_inv He. eauto with donors.
  - destruct (Pre_code_ok _ _ _ _ P) as (Hi & -> & Hr); [done|].
    destruct (popped_create_Inv _ _ _ _ _ _ P) as (_ & _ & ph & Hph & Hps & Hpc).
    eapply create_tail_Donors; [|done|done]. intros th Hth. simpl in Hth.
    rewrite lookup_insert_ne in Hth by (intros <-; congruence).
    rewrite Hph in Hth. injection Hth as <-.
    destruct (decide (waiting_lock ph = NULL)) as [|Hn]; [done|].
    pose proof (don_wait _ D _ _ Hph Hn) as Ha. by rewrite Hpc in Ha.
  - eauto with donors.
  - injection He as <-. by apply (Donors_ext (recode c r k)).
  - apply (intr_set_level_Donors INTR_ON _ _ He Dp).
  - unfold idle_loop in He. bind_inv He. eauto with donors.
  - unfold idle_hlt in He. bind_inv He. eapply intr_handler_Donors; [done|].
    by apply (intr_set_level_Donors INTR_ON _ _ E).
Qed.

Lemma client_Donors f k c k' :
  at_client k c → client_ok k f → exec f k = Some k' → Donors k → Donors k'.
Proof.
  intros A Hok He D. pose proof A as (I & Hc & _). destruct (at_client_code _ _ A) as (Hi & Hcd & Ht).
  pose proof (opaque_waits _ _ _ _ Hc Hcd Logic.I D) as Hw.
  destruct f; try done; simpl in He.
  - unfold sema_init in He. bind_inv He. simplify_eq. eauto with donors.
  - eauto with donors.
  - destruct (sema_try_down s k) as [[b k1]|] eqn:Es; [|done].
    eapply set_result_Donors; [done|]. eauto with donors.
  - eauto with donors.
  - destruct Hok as (_ & _ & Hl & _). by eapply lock_init_Donors.
  - by eapply lock_acquire_Donors.
  - by eapply lock_try_acquire_Donors.
  - by eapply lock_release_Donors.
  - unfold cond_init in He. bind_inv He. simplify_eq. eauto with donors.
  - by eapply cond_wait_Donors.
  - by eapply cond_signal_Donors.
  - by eapply cond_broadcast_Donors.
  - eauto with donors.
  - by eapply set_priority_Donors.
  - by eapply set_nice_Donors.
  - by eapply timer_sleep_Donors.
  - by eapply thread_create_Donors.
  - by eapply thread_exit_Donors.
Qed.

Lemma step_Donors k k' : Inv k → Donors k → step k k' → Donors k'.
Proof.
  intros I D Hs. destruct Hs as [f k0 k' Hp Hf He|f k0 k' Hp Hok He|old k0 k' Hp He|k0 Hp Hh|k' Hon He].
  - apply pop_inv in Hp as (c & r & Hc & Hcd & ->). by eapply exec_Donors.
  - apply pop_inv in Hp as (c & r & Hc & Hcd & ->). eapply (client_Donors f k c); try done.
    split_and!; [done..|]. by rewrite Hcd.
  - by eapply intr_set_level_Donors.
  - apply pop_inv in Hp as (c & r & Hc & Hcd & ->). by eapply pop_Donors.
  - by eapply intr_handler_Donors.
Qed.

Lemma steps_Donors k k' : Inv k → Donors k → rtc step k k' → Donors k'.
Proof. intros I D Hs. revert I D. induction Hs; eauto using step_Inv, step_Donors. Qed.

(** In the booted kernel nobody waits for a lock and nobody has donors. *)
Lemma booted_Donors : Donors booted.
Proof.
  assert (H : ∀ t th, threads booted !! t = Some th → donations th = [] ∧ waiting_lock th = NULL).
  { intros t th. simpl. intros [[_ <-]|[_ [[_ <-]|[_ ?]]%lookup_insert_Some]]%lookup_insert_Some;
      done. }
  constructor.
  - by intros t th [_ Hw]%H.
  - intros t th d [Hd _]%H. rewrite Hd. by intros ?%elem_of_nil.
  - intros t th [Hd _]%H. rewrite Hd. constructor.
  - by intros t th [_ Hw]%H.
  - by intros t th [_ Hw]%H.
Qed.
