(* ===== verification/SchedFine.v ===== *)
(** * The thread system, statement by statement

    [Sched.exec] runs a frame as a whole.  Most frames touch shared data once,
    or turn interrupts off while they do.  The others ([lock_acquire] with its
    donations, [lock_release], [cond_signal], [thread_set_priority], ...) do
    not, and a timer interrupt can arrive between any two of their statements.
    Here these frames run as lists of [op]s, their single statements: [advance]
    is the next statement of the current thread, [tstep] adds client code, and
    [fstep] timer interrupts at every point where interrupts are on.

    [qstep] leaves out the two things this code cannot stand: an interrupt in
    the middle of one of these frames ([lock_acquire_race], [donation_race]),
    and a [cond_signal] while a waiter is on its way to sleep
    ([SchedPriority.cond_signal_reads_garbage]).  The main lemma,
    [qsteps_whole], is that executions of [qstep] are those of [Sched.step],
    except that they can be inside a frame, from where its remaining statements
    lead to the state that [Sched.step] goes to. *)

From S2P Require Import Prelude OrdList FixedPoint Kernel Thread Synch Sched.
From S2P Require Import SchedInv SchedSwitch SchedOps SchedLock SchedCond.
From S2P Require Import SchedThread SchedTimer SchedBoot SchedSafe SchedDonors.
From stdpp Require Import relations.

Open Scope Z_scope.

(** ** Statements *)

(** One statement; the result begins with the statements it leads into.  A list
    operation is one statement, and so are the two loops over the donors of the
    running thread.  [list_remove] of a thread that is not in the run queue
    takes it off another list, or writes through stale pointers: [None]. *)
Definition step_op (o : op) (k : kernel) : option (list op * kernel) :=
  match o with
  | AcquireCheck l =>
      cur ← thread_current k;
      assert! negb (l =? NULL);
      assert! negb (intr_context k);
      held ← lock_held_by_current_thread l k;
      assert! negb held;
      k ← push_frames cur [Sema_down (lock_sema l); LockAcquireTail l] k;
      Some ([], k)
  | AcquireTest l =>
      lk ← locks k !! l;
      if negb (thread_mlfqs k) && negb (holder lk =? NULL)
      then Some ([AcquireWait l; AcquirePush l; DonateWhile 8 (current k)], k)
      else Some ([], k)
  | AcquireWait l =>
      k ← on_thread (current k) (λ th, th <| waiting_lock := l |>) k;
      Some ([], k)
  | AcquirePush l =>
      lk ← locks k !! l;
      k ← on_thread (holder lk) (λ hd, hd <| donations ::= λ d, d ++ [current k] |>) k;
      Some ([], k)
  | DonateWhile O t => Some ([], k)
  | DonateWhile (S depth) t =>
      th ← threads k !! t;
      if waiting_lock th =? NULL then Some ([], k)
      else Some ([DonateHolder depth t], k)
  | DonateHolder depth t =>
      th ← threads k !! t;
      lk ← locks k !! waiting_lock th;
      if holder lk =? NULL then Some ([], k)
      else Some ([DonateCompare depth t (holder lk)], k)
  | DonateCompare depth t holder =>
      th ← threads k !! t;
      hd ← threads k !! holder;
      if priority th <=? priority hd then Some ([], k)
      else Some ([DonateSet t holder; DonateReady holder; DonateWhile depth holder], k)
  | DonateSet t holder =>
      th ← threads k !! t;
      k ← on_thread holder (λ hd, hd <| priority := priority th |>) k;
      Some ([], k)
  | DonateReady holder =>
      hd ← threads k !! holder;
      if bool_decide (status hd = THREAD_READY)
      then Some ([DonateRemove holder; DonateInsert holder], k)
      else Some ([], k)
  | DonateRemove holder =>
      assert! bool_decide (holder ∈ ready_list k);
      Some ([], k <| ready_list ::= filter (λ x, x ≠ holder) |>)
  | DonateInsert holder =>
      Some ([], k <| ready_list ::= insert_ordered (thread_priority_greater k) holder |>)
  | TailWaiting =>
      cur ← thread_current k;
      k ← on_thread cur (λ th, th <| waiting_lock := NULL |>) k;
      Some ([], k)
  | TailHolder l =>
      k ← on_lock l (λ _, Lock (current k)) k;
      Some ([], k)
  | TryCheck l =>
      assert! negb (l =? NULL);
      held ← lock_held_by_current_thread l k;
      assert! negb held;
      Some ([], k)
  | TryDown l =>
      '(success, k) ← sema_try_down (lock_sema l) k;
      if (success : bool) then Some ([TryHolder l], k)
      else k ← set_result (Some (false, k)); Some ([], k)
  | TryHolder l =>
      cur ← thread_current k;
      k ← on_lock l (λ _, Lock cur) k;
      k ← set_result (Some (true, k));
      Some ([], k)
  | ReleaseHolder l =>
      assert! negb (l =? NULL);
      held ← lock_held_by_current_thread l k;
      assert! held;
      cur ← thread_current k;
      k ← on_lock l (λ _, Lock NULL) k;
      k ← push_frames cur [Sema_up (lock_sema l)] k;
      if negb (thread_mlfqs k) then Some ([ReleaseDonations l; ReleasePriority], k)
      else Some ([], k)
  | ReleaseDonations l =>
      k ← remove_donations_for_lock (current k) l k;
      Some ([], k)
  | ReleasePriority =>
      k ← update_priority_after_release (current k) k;
      Some ([], k)
  | SignalTest c l =>
      assert! negb (c =? NULL);
      assert! negb (l =? NULL);
      assert! negb (intr_context k);
      held ← lock_held_by_current_thread l k;
      assert! held;
      ws ← conds k !! c;
      match ws with
      | [] => Some ([], k)
      | _ => Some ([SignalSort c; SignalPop c], k)
      end
  | SignalSort c =>
      ws ← conds k !! c;
      ws ← cond_sort ws k;
      k ← on_cond c (λ _, ws) k;
      Some ([], k)
  | SignalPop c =>
      ws ← conds k !! c;
      match ws with
      | [] => None
      | w :: rest =>
          k ← on_cond c (λ _, rest) k;
          k ← push_frames (current k) [Sema_up w] k;
          Some ([], k)
      end
  | UpTail =>
      if negb (intr_context k) then
        cur ← thread_current k; Some ([YieldTest], k)
      else Some ([], k)
  | SetBase new_priority =>
      if thread_mlfqs k then Some ([], k)
      else
        cur ← thread_current k;
        k ← on_thread cur (λ th, th <| base_priority := new_priority |>) k;
        Some ([SetEffective; YieldTest], k)
  | SetEffective =>
      p ← thread_get_effective_priority (current k) k;
      k ← on_thread (current k) (λ th, th <| priority := p |>) k;
      Some ([], k)
  | SetNice nice_ =>
      cur ← thread_current k;
      let old_level := intr_get_level k in
      let k := intr_disable k in
      k ← on_thread cur (λ th, th <| nice := nice_ |>) k;
      k ← mlfqs_calc_priority cur k;
      match ready_list k with
      | front :: _ =>
          if prio_of k cur <? prio_of k front
          then k ← intr_set_level old_level k; Some ([Yield], k)
          else k ← intr_set_level old_level k; Some ([], k)
      | [] => k ← intr_set_level old_level k; Some ([], k)
      end
  | CreateSetup t function =>
      cur ← thread_current k;
      c ← threads k !! cur;
      k ← on_thread t (λ th, th <| tid := result c |>) k;
      k ← alloc_frame t 12 k;
      k ← alloc_frame t 4 k;
      k ← alloc_frame t 28 k;
      k ← on_thread t (λ th, th <| code := KernelThread :: function ++ [Thread_exit] |>) k;
      Some ([], k)
  | CreateUnblock t => k ← thread_unblock t k; Some ([], k)
  | CreateTest priority_ =>
      if prio_of k (current k) <? priority_ then Some ([Yield], k) else Some ([], k)
  | YieldTest =>
      match ready_list k with
      | [] => Some ([], k)
      | front :: _ =>
          if prio_of k (current k) <? prio_of k front then Some ([Yield], k) else Some ([], k)
      end
  | Yield => k ← thread_yield k; Some ([], k)
  | SleepStart ticks_ =>
      let start := timer_ticks k in
      assert! bool_decide (intr_get_level k = INTR_ON);
      if ticks_ <=? 0 then Some ([], k) else Some ([SleepUntil (start + ticks_)], k)
  | SleepUntil wake_tick_ => k ← thread_sleep wake_tick_ k; Some ([], k)
  end.

(** The statements of a frame; none for a frame that runs as a whole. *)
Definition program (f : frame) : list op :=
  match f with
  | Lock_acquire l => [AcquireCheck l; AcquireTest l]
  | Lock_try_acquire l => [TryCheck l; TryDown l]
  | Lock_release l => [ReleaseHolder l]
  | Cond_signal c l => [SignalTest c l]
  | Thread_set_priority p => [SetBase p]
  | Thread_set_nice n => [SetNice n]
  | Timer_sleep n => [SleepStart n]
  | SemaUpTail => [UpTail]
  | LockAcquireTail l => [TailWaiting; TailHolder l]
  | CreateTail page p fn => [CreateSetup page fn; CreateUnblock page; CreateTest p]
  | _ => []
  end.

(** The thread at [t] still has to run the statements [os]. *)
Definition suspend (t : Z) (os : list op) (k : kernel) : option kernel :=
  match os with [] => Some k | _ => push_frames t [Piece os] k end.

(** Start the frame [f] on the current thread. *)
Definition enter (f : frame) (k : kernel) : option kernel :=
  match program f with [] => exec f k | os => suspend (current k) os k end.

(** What the current thread does next, outside client code. *)
Definition advance (k : kernel) : option kernel :=
  '(f, k0) ← pop k;
  match f with
  | Client | Piece [] => None
  | Piece (o :: os) =>
      '(os', k') ← step_op o k0;
      suspend (current k) (os' ++ os) k'
  | _ => enter f k0
  end.

(** The current thread is in the middle of a frame. *)
Definition in_piece (k : kernel) : bool :=
  match pop k with Some (Piece _, _) => true | _ => false end.

(** Run the current thread to the end of the frame it is in. *)
Fixpoint finish (fuel : nat) (k : kernel) : option kernel :=
  if in_piece k then
    match fuel with O => None | S fuel => k ← advance k; finish fuel k end
  else Some k.

(** ** Executions *)

Inductive tstep (k : kernel) : kernel → Prop :=
  | tstep_advance k' : advance k = Some k' → tstep k k'
  | tstep_call f k0 k' :
      pop k = Some (Client, k0) → client_ok k f → enter f k = Some k' → tstep k k'
  | tstep_level old k0 k' :
      pop k = Some (Client, k0) → intr_set_level old k = Some k' → tstep k k'
  | tstep_return k0 :
      pop k = Some (Client, k0) → held_by (locks k) (current k) = ∅ → tstep k k0.

Definition interrupt (k k' : kernel) : Prop :=
  interrupts k = INTR_ON ∧ intr_handler k = Some k'.

(** Timer interrupts at any point. *)
Definition fstep (k k' : kernel) : Prop := tstep k k' ∨ interrupt k k'.

(** Timer interrupts outside the frames that cannot stand them, signals while
    the waiters are asleep. *)
Definition qstep (k k' : kernel) : Prop :=
  (tstep k k' ∧ ¬ unsettled_signal k) ∨ (interrupt k k' ∧ in_piece k = false).

(** ** Running the statements of a frame *)

Inductive executes : list op → kernel → kernel → Prop :=
  | executes_nil k : executes [] k k
  | executes_op o os k os1 k1 k' :
      step_op o k = Some (os1, k1) → executes (os1 ++ os) k1 k' → executes (o :: os) k k'.

Lemma executes_app os1 os2 k k1 k2 : executes os1 k k1 → executes os2 k1 k2 → executes (os1 ++ os2) k k2.
Proof.
  induction 1 as [|o os k os' k' k'' Ho _ IH]; [done|]. intros H2. simpl.
  eapply executes_op; [done|]. rewrite (assoc_L (++)). by apply IH.
Qed.

Lemma executes_one o k k' : step_op o k = Some ([], k') → executes [o] k k'.
Proof. intros. eapply executes_op; [done|]. apply executes_nil. Qed.

Lemma executes_into o os1 k k1 k' : step_op o k = Some (os1, k1) → executes os1 k1 k' → executes [o] k k'.
Proof. intros Ho H. eapply executes_op; [done|]. by rewrite (right_id_L [] (++)). Qed.

Lemma executes_then o os k k1 k' :
  step_op o k = Some ([], k1) → executes os k1 k' → executes (o :: os) k k'.
Proof. intros Ho H. by eapply executes_op. Qed.

Lemma donate_runs n t k k' :
  donate_priority n t k = Some k' → executes [DonateWhile n t] k k'.
Proof.
  revert t k. induction n as [|n IH]; intros t k H; simpl in H.
  { injection H as <-. by apply executes_one. }
  destruct (threads k !! t) as [th|] eqn:Ht; [|done]. cbn [mbind option_bind] in H.
  assert (Hend : ∀ o, step_op o k = Some ([], k) → Some k = Some k' → executes [o] k k').
  { intros o Ho [= <-]. by apply executes_one. }
  destruct (waiting_lock th =? NULL) eqn:Hw.
  { apply Hend; [|done]. simpl. by rewrite Ht; simpl; rewrite Hw. }
  destruct (locks k !! waiting_lock th) as [lk|] eqn:Hlk; [|done]. cbn [mbind option_bind] in H.
  eapply executes_into; [simpl; rewrite Ht; simpl; by rewrite Hw|].
  destruct (holder lk =? NULL) eqn:Hh.
  { apply Hend; [|done]. simpl. rewrite Ht. simpl. rewrite Hlk. simpl. by rewrite Hh. }
  destruct (threads k !! holder lk) as [hd|] eqn:Hhd; [|done]. cbn [mbind option_bind] in H.
  eapply executes_into; [simpl; rewrite Ht; simpl; rewrite Hlk; simpl; by rewrite Hh|].
  destruct (priority th <=? priority hd) eqn:Hp.
  { apply Hend; [|done]. simpl. rewrite Ht. simpl. rewrite Hhd. simpl. by rewrite Hp. }
  eapply executes_into; [simpl; rewrite Ht; simpl; rewrite Hhd; simpl; by rewrite Hp|].
  rewrite (on_thread_Some _ _ _ _ Hhd) in H. cbn [mbind option_bind] in H.
  eapply executes_then.
  { simpl. rewrite Ht. simpl. by rewrite (on_thread_Some _ _ _ _ Hhd). }
  set (k1 := k <| threads ::= _ |>) in H |- *.
  assert (Hh1 : threads k1 !! holder lk = Some (hd <| priority := priority th |>))
    by apply lookup_insert_eq.
  clearbody k1. destruct (bool_decide (status hd = THREAD_READY)) eqn:Hst.
  - destruct (bool_decide (holder lk ∈ ready_list k1)) eqn:Hin; [|done].
    cbn [ASSERT mbind option_bind] in H.
    apply (executes_app [DonateReady (holder lk)] [DonateWhile n (holder lk)] _
      (k1 <| ready_list ::= λ l, insert_ordered (thread_priority_greater k1) (holder lk)
                       (filter (λ x, x ≠ holder lk) l) |>)); [|by apply IH].
    eapply executes_into; [simpl; rewrite Hh1; simpl; by rewrite Hst|].
    eapply executes_then; [simpl; by rewrite Hin|]. by apply executes_one.
  - eapply executes_then; [simpl; rewrite Hh1; simpl; by rewrite Hst|]. by apply IH.
Qed.

(** Evaluate a statement with the equations in the context. *)
Ltac op_eval :=
  cbn [step_op];
  repeat match goal with
  | E : ?x = Some _ |- context [mbind _ ?x] => rewrite E; cbn [mbind option_bind]
  | E : ?b = true |- context [ASSERT ?b] => rewrite E; cbn [ASSERT mbind option_bind]
  | E : ?b = _ |- context [if ?b then _ else _] => rewrite E
  | E : ?l = _ |- context [match ?l with [] => _ | _ :: _ => _ end] => rewrite E
  end; try reflexivity.

(** What a statement that does not switch threads leaves alone. *)
Definition keeps (k k' : kernel) : Prop :=
  current k' = current k ∧ ∀ t, is_Some (threads k !! t) → is_Some (threads k' !! t).

#[export] Instance keeps_preorder : PreOrder keeps.
Proof. split; [done|]. intros x y z [? ?] [? ?]. split; [congruence|auto]. Qed.

Create HintDb keeps.

Lemma on_thread_keeps t f k k' : on_thread t f k = Some k' → keeps k k'.
Proof.
  unfold on_thread. destruct (threads k !! t); simpl; [|done]. intros [= <-]. split; [done|].
  intros x Hx. simpl. destruct (decide (x = t)) as [->|];
    [rewrite lookup_insert_eq|rewrite lookup_insert_ne]; eauto.
Qed.

Lemma push_frames_keeps t fs k k' : push_frames t fs k = Some k' → keeps k k'.
Proof. apply on_thread_keeps. Qed.

Lemma on_lock_keeps l f k k' : on_lock l f k = Some k' → keeps k k'.
Proof. unfold on_lock. destruct (locks k !! l); simpl; [|done]. by intros [= <-]. Qed.

Lemma on_cond_keeps c f k k' : on_cond c f k = Some k' → keeps k k'.
Proof. unfold on_cond. destruct (conds k !! c); simpl; [|done]. by intros [= <-]. Qed.

Lemma on_sema_keeps s f k k' : on_sema s f k = Some k' → keeps k k'.
Proof. unfold on_sema. destruct (semas k !! s); simpl; [|done]. by intros [= <-]. Qed.

Lemma intr_set_level_keeps l k k' : intr_set_level l k = Some k' → keeps k k'.
Proof.
  destruct l; simpl; [by intros [= <-]|]. unfold intr_enable. intros H. bind_inv H.
  by injection H as <-.
Qed.

Lemma alloc_frame_keeps t n k k' : alloc_frame t n k = Some k' → keeps k k'.
Proof. unfold alloc_frame. intros H. bind_inv H. by eapply on_thread_keeps. Qed.

#[export] Hint Resolve on_thread_keeps push_frames_keeps on_lock_keeps on_cond_keeps
  on_sema_keeps intr_set_level_keeps alloc_frame_keeps : keeps.

Lemma thread_unblock_keeps t k k' : thread_unblock t k = Some k' → keeps k k'.
Proof.
  unfold thread_unblock. intros H. bind_inv H.
  etransitivity; [|by eauto with keeps]. by apply on_thread_keeps in E2.
Qed.

Lemma calc_priority_keeps t k k' : mlfqs_calc_priority t k = Some k' → keeps k k'.
Proof. unfold mlfqs_calc_priority. case_match; [by intros [= <-]|eauto with keeps]. Qed.

Lemma sema_try_down_keeps s k b k' : sema_try_down s k = Some (b, k') → keeps k k'.
Proof.
  unfold sema_try_down. intros H. bind_inv H. destruct p as [b' k1]. cbn [mbind option_bind] in H.
  bind_inv H. injection H as <- <-. etransitivity; [|by eauto with keeps].
  case_match; bind_inv E1; injection E1 as <- <-; [|done]. by apply on_sema_keeps in E3.
Qed.

Lemma set_result_keeps b k k' : set_result (Some (b, k)) = Some k' → keeps k k'.
Proof. simpl. eauto with keeps. Qed.

Lemma update_priority_keeps t k k' : update_priority_after_release t k = Some k' → keeps k k'.
Proof. unfold update_priority_after_release. intros H. bind_inv H. eauto with keeps. Qed.

Lemma remove_donations_keeps t l k k' : remove_donations_for_lock t l k = Some k' → keeps k k'.
Proof. apply on_thread_keeps. Qed.

#[export] Hint Resolve thread_unblock_keeps calc_priority_keeps sema_try_down_keeps
  set_result_keeps update_priority_keeps remove_donations_keeps : keeps.

Lemma on_thread_rest t f k k' :
  on_thread t f k = Some k' →
  current k' = current k ∧ locks k' = locks k ∧ conds k' = conds k ∧
  thread_mlfqs k' = thread_mlfqs k ∧ ready_list k' = ready_list k.
Proof. unfold on_thread. destruct (threads k !! t); simpl; [|done]. by intros [= <-]. Qed.

Lemma on_lock_current l f k k' : on_lock l f k = Some k' → current k' = current k.
Proof. unfold on_lock. destruct (locks k !! l); simpl; [|done]. by intros [= <-]. Qed.

Lemma lock_acquire_runs l k k' :
  lock_acquire l k = Some k' → executes (program (Lock_acquire l)) k k'.
Proof.
  unfold lock_acquire. intros H. bind_inv H. pose proof E as ->%thread_current_is.
  eapply executes_then; [op_eval|].
  destruct (on_thread_rest _ _ _ _ E5) as (Hc & HL & _ & Hm & _).
  rewrite <-HL in E4. rewrite <-Hc in H.
  destruct (negb _ && negb _) eqn:Eb in H; [|injection H as <-; apply executes_one; op_eval].
  eapply executes_into; [op_eval|]. bind_inv H.
  destruct (on_thread_rest _ _ _ _ E6) as (Hc1 & HL1 & _). rewrite <-HL1 in E4.
  eapply executes_then; [op_eval|]. eapply executes_then; [op_eval|].
  { rewrite Hc1. op_eval. }
  by apply donate_runs.
Qed.

Lemma lock_acquire_tail_runs l k k' :
  lock_acquire_tail l k = Some k' → executes (program (LockAcquireTail l)) k k'.
Proof.
  unfold lock_acquire_tail. intros H. bind_inv H. pose proof E as ->%thread_current_is.
  eapply executes_then; [op_eval|]. destruct (on_thread_rest _ _ _ _ E0) as (Hc & _).
  rewrite <-Hc in H. apply executes_one. op_eval.
Qed.

Lemma lock_try_acquire_runs l k k' :
  set_result (lock_try_acquire l k) = Some k' → executes (program (Lock_try_acquire l)) k k'.
Proof.
  destruct (lock_try_acquire l k) as [[b k1]|] eqn:Hl; [|done]. intros Hr.
  unfold lock_try_acquire in Hl. bind_inv Hl. eapply executes_then; [op_eval|].
  destruct p as [success k2]. cbn [mbind option_bind] in Hl.
  destruct success; bind_inv Hl; injection Hl as <- <-.
  - eapply executes_into; [op_eval|]. bind_inv E3. apply executes_one. op_eval.
  - injection E3 as <-. apply executes_one. op_eval.
Qed.

Lemma lock_release_runs l k k' :
  lock_release l k = Some k' → executes (program (Lock_release l)) k k'.
Proof.
  unfold lock_release. intros H. bind_inv H. pose proof E2 as ->%thread_current_is.
  destruct (negb (thread_mlfqs k1)) eqn:Hm; [|injection H as <-; apply executes_one; op_eval].
  eapply executes_into; [op_eval|]. bind_inv H.
  destruct (on_thread_rest _ _ _ _ E4) as (Hc & _). rewrite (on_lock_current _ _ _ _ E3) in Hc.
  rewrite <-Hc in *. eapply executes_then; [op_eval|].
  destruct (on_thread_rest _ _ _ _ E5) as (Hc2 & _). rewrite <-Hc2 in H. apply executes_one. op_eval.
Qed.

Lemma cond_sort_nil ws k : cond_sort ws k = Some [] → ws = [].
Proof.
  destruct ws as [|w [|w' ws]]; [done|done|]. unfold cond_sort.
  destruct (forallb _ _); [|done]. intros [= H].
  pose proof (isort_perm (cond_priority_greater k) (w :: w' :: ws)) as Hp.
  rewrite H in Hp. by apply Permutation_nil_l in Hp.
Qed.

Lemma cond_signal_runs c l k k' :
  cond_signal c l k = Some k' → executes (program (Cond_signal c l)) k k'.
Proof.
  unfold cond_signal. intros H. bind_inv H. pose proof E4 as ->%thread_current_is.
  destruct l0 as [|w ws].
  { simpl in E6. injection E6 as <-. injection H as <-. apply executes_one. op_eval. }
  eapply executes_into; [op_eval|]. destruct l1 as [|w1 ws1]; [by apply cond_sort_nil in E6|].
  unfold on_cond in H. rewrite E5 in H. cbn [mbind option_bind] in H.
  eapply executes_then.
  { op_eval. unfold on_cond. op_eval. }
  apply executes_one. cbn [step_op]. unfold on_cond. simpl. rewrite lookup_insert_eq. simpl.
  rewrite insert_insert_eq. simpl in H. by rewrite H.
Qed.

Lemma yield_to_front_runs k k' :
  yield_to_front (current k) k = Some k' → executes [YieldTest] k k'.
Proof.
  unfold yield_to_front. intros H. destruct (ready_list k) as [|front r] eqn:Hr.
  { injection H as <-. apply executes_one. op_eval. }
  destruct (prio_of k (current k) <? prio_of k front) eqn:Hp.
  - eapply executes_into; [op_eval|]. apply executes_one. op_eval.
  - injection H as <-. apply executes_one. op_eval.
Qed.

Lemma sema_up_tail_runs k k' :
  sema_up_tail k = Some k' → executes (program SemaUpTail) k k'.
Proof.
  unfold sema_up_tail. intros H.
  destruct (negb (intr_context k)) eqn:Hi; [|injection H as <-; apply executes_one; op_eval].
  bind_inv H. pose proof E as ->%thread_current_is. eapply executes_into; [op_eval|].
  by apply yield_to_front_runs.
Qed.

Lemma set_priority_runs p k k' :
  thread_set_priority p k = Some k' → executes (program (Thread_set_priority p)) k k'.
Proof.
  unfold thread_set_priority. intros H.
  destruct (thread_mlfqs k) eqn:Hm; [injection H as <-; apply executes_one; op_eval|].
  bind_inv H. pose proof E as ->%thread_current_is. eapply executes_into; [op_eval|].
  destruct (on_thread_rest _ _ _ _ E0) as (Hc & _). rewrite <-Hc in *.
  destruct (on_thread_rest _ _ _ _ E2) as (Hc2 & _). rewrite <-Hc2 in H.
  eapply executes_then; [op_eval|]. by apply yield_to_front_runs.
Qed.

Lemma set_nice_runs n k k' :
  thread_set_nice n k = Some k' → executes (program (Thread_set_nice n)) k k'.
Proof.
  unfold thread_set_nice. intros H. bind_inv H.
  destruct (ready_list k1) as [|front r] eqn:Hr; [apply executes_one; op_eval|].
  destruct (prio_of k1 z <? prio_of k1 front) eqn:Hp; [|apply executes_one; op_eval].
  bind_inv H. eapply executes_into; [op_eval|]. apply executes_one. op_eval.
Qed.

Lemma timer_sleep_runs n k k' :
  timer_sleep n k = Some k' → executes (program (Timer_sleep n)) k k'.
Proof.
  unfold timer_sleep. intros H. bind_inv H.
  destruct (n <=? 0) eqn:Hn; [injection H as <-; apply executes_one; op_eval|].
  eapply executes_into; [op_eval|]. apply executes_one. op_eval.
Qed.

Lemma create_tail_runs t p fn k k' :
  thread_create_tail t p fn k = Some k' → executes (program (CreateTail t p fn)) k k'.
Proof.
  unfold thread_create_tail. intros H. bind_inv H. pose proof E as ->%thread_current_is.
  assert (keeps k k5) as [Hc _] by (repeat (etransitivity; [|by eauto with keeps]); done).
  rewrite <-Hc in H. eapply executes_then; [op_eval|]. eapply executes_then; [op_eval|].
  destruct (prio_of k5 (current k5) <? p) eqn:Hp.
  - eapply executes_into; [op_eval|]. apply executes_one. op_eval.
  - injection H as <-. apply executes_one. op_eval.
Qed.

(** Run without interruption, the statements of a frame do what [exec] does. *)
Lemma exec_runs f k k' : program f ≠ [] → exec f k = Some k' → executes (program f) k k'.
Proof.
  destruct f; try done; intros _ H;
    eauto using lock_acquire_runs, lock_acquire_tail_runs, lock_try_acquire_runs,
      lock_release_runs, cond_signal_runs, sema_up_tail_runs, set_priority_runs,
      set_nice_runs, timer_sleep_runs, create_tail_runs.
Qed.

(** ** Statements of a suspended thread *)

(** The statements that may switch threads, or lead into such a statement, come
    last. *)
Definition tail_op (o : op) : bool :=
  match o with
  | UpTail | SetBase _ | SetNice _ | CreateTest _ | YieldTest | Yield | SleepStart _
  | SleepUntil _ => true
  | _ => false
  end.

Fixpoint tame (os : list op) : Prop :=
  match os with [] => True | o :: os => (tail_op o = true → os = []) ∧ tame os end.

Lemma tame_app os1 os2 :
  Forall (λ o, tail_op o = false) os1 → tame os2 → tame (os1 ++ os2).
Proof. induction 1 as [|o os Ho _ IH]; simpl; [done|]. split; [congruence|auto]. Qed.

Lemma program_tame f : tame (program f).
Proof. destruct f; simpl; naive_solver. Qed.

(** Cases of a successful statement. *)
Ltac op_cases H :=
  repeat (bind_inv H; match type of H with
  | (if ?b then _ else _) = Some _ => destruct b eqn:?
  | match ?x with _ => _ end = Some _ => destruct x eqn:?
  end); bind_inv H; try done; simplify_eq.

Lemma step_op_spawns o k os1 k1 :
  step_op o k = Some (os1, k1) →
  (tail_op o = false → Forall (λ o, tail_op o = false) os1) ∧ tame os1.
Proof.
  intros H. destruct o; cbn [step_op] in H; op_cases H; simpl; split; repeat constructor; try done; naive_solver.
Qed.

Lemma step_op_keeps o k os1 k1 os :
  step_op o k = Some (os1, k1) → tame (o :: os) → os1 ++ os ≠ [] → keeps k k1.
Proof.
  intros H [Ht _] Hne. destruct o; cbn [step_op] in H; op_cases H; simpl in Ht; try done;
    try (specialize (Ht eq_refl); subst; done);
    repeat (etransitivity; [|by eauto with keeps]); done.
Qed.

Lemma suspend_pop os k :
  os ≠ [] → is_Some (threads k !! current k) →
  ∃ k1, suspend (current k) os k = Some k1 ∧ pop k1 = Some (Piece os, k) ∧ current k1 = current k.
Proof.
  intros Hos [c Hc]. destruct os as [|o os]; [done|]. eexists. split; [|split].
  - by apply (on_thread_Some _ _ _ _ Hc).
  - unfold pop. simpl. rewrite lookup_insert_eq. simpl. do 2 f_equal. rewrite insert_insert_eq.
    exact (recode_id k c Hc).
  - done.
Qed.

Lemma executes_finish os k k' :
  executes os k k' → tame os → os ≠ [] → is_Some (threads k !! current k) → in_piece k' = false →
  ∃ k1 n, suspend (current k) os k = Some k1 ∧ in_piece k1 = true ∧ finish n k1 = Some k'.
Proof.
  induction 1 as [|o os k os1 k2 k' Ho Hr IH]; [done|]. intros Ht _ Hc Hp.
  destruct (suspend_pop (o :: os) k) as (k1 & Hs & Hpop & Hcur); [done|done|].
  assert (Hin : in_piece k1 = true) by (unfold in_piece; by rewrite Hpop).
  assert (Ha : advance k1 = suspend (current k) (os1 ++ os) k2).
  { unfold advance. rewrite Hpop. cbn [mbind option_bind]. rewrite Ho. simpl. by rewrite Hcur. }
  destruct (decide (os1 ++ os = [])) as [Hnil|Hne].
  - rewrite Hnil in Hr, Ha. inversion Hr; subst. exists k1, 1%nat. split_and!; [done..|].
    simpl. rewrite Hin, Ha. simpl. by rewrite Hp.
  - destruct (step_op_keeps _ _ _ _ os Ho Ht Hne) as [Hc2 Hth].
    destruct (step_op_spawns _ _ _ _ Ho) as [Hn Hts].
    destruct IH as (k3 & n & Hs3 & Hin3 & Hf); [|done|rewrite Hc2; auto|done|].
    + destruct Ht as [Ht Hto]. destruct (tail_op o) eqn:Etail; [|by apply tame_app; auto].
      rewrite (Ht eq_refl), (right_id_L [] (++)). done.
    + exists k1, (S n). split_and!; [done..|]. simpl. rewrite Hin, Ha, <-Hc2, Hs3. done.
Qed.

Lemma Inv_not_piece k : Inv k → in_piece k = false.
Proof.
  intros I. unfold in_piece. destruct (pop k) as [[f k0]|] eqn:Hp; [|done].
  destruct f; try done. exfalso. apply pop_inv in Hp as (c & r & Hc & Hcd & _).
  pose proof (p_code _ _ _ _ (frame_Pre _ _ _ _ I Hc Hcd)) as Hcode. by case_decide.
Qed.

(** A frame that can run as a whole can be entered; the thread is then in its
    middle, and its statements lead to the end of the frame. *)
Lemma enter_finish f k c ke k' :
  threads k !! current k = Some c → exec f k = Some ke → Inv ke → enter f k = Some k' →
  (program f = [] ∧ k' = ke) ∨ (in_piece k' = true ∧ ∃ n, finish n k' = Some ke).
Proof.
  intros Hc He I. unfold enter. destruct (program f) as [|o os] eqn:Hpr.
  { rewrite He. intros [= <-]. by left. }
  intros Hs. right. pose proof (program_tame f) as Ht. rewrite Hpr in Ht.
  assert (Hr : executes (o :: os) k ke) by (rewrite <-Hpr; apply exec_runs; [by rewrite Hpr|done]).
  destruct (executes_finish _ _ _ Hr Ht) as (k1 & n & Hs1 & Hin & Hf);
    [done|by eauto|by apply Inv_not_piece|]. rewrite Hs in Hs1. injection Hs1 as <-. eauto.
Qed.

(** [k] is a state of [Sched.step], or in the middle of one of its steps. *)
Definition whole (k0 k : kernel) : Prop :=
  rtc step k0 k ∨
  (in_piece k = true ∧ ∃ kc k' n, rtc step k0 kc ∧ step kc k' ∧ finish n k = Some k').

Lemma whole_enter k0 k f kp c ke k' :
  rtc step k0 k → step k ke → threads kp !! current kp = Some c → exec f kp = Some ke →
  Inv ke → enter f kp = Some k' → whole k0 k'.
Proof.
  intros Hs Hstep Hc He I Hen.
  destruct (enter_finish _ _ _ _ _ Hc He I Hen) as [[_ ->]|[Hin [n Hf]]].
  - left. by eapply rtc_r.
  - right. split; [done|]. by exists k, ke, n.
Qed.

(** A state between frames: the next frame, or the next call of client code,
    runs to its end. *)
Lemma advance_whole k0 k k' :
  Inv k → rtc step k0 k → ¬ unsettled_signal k → advance k = Some k' → whole k0 k'.
Proof.
  intros I Hs Hu. unfold advance. destruct (pop k) as [[f kp]|] eqn:Hp; [|done].
  cbn [mbind option_bind]. pose proof (Inv_not_piece _ I) as Hnp. unfold in_piece in Hnp.
  rewrite Hp in Hnp. pose proof Hp as (c & r & Hc & Hcd & ->)%pop_inv. intros Ha.
  assert (Hf : f ≠ Client) by (by intros ->).
  destruct (exec_ok f r k c I Hc Hcd Hf) as (ke & He & Ie).
  { intros cv l ->. destruct (decide (settled k cv)) as [|Hn]; [done|]. exfalso. apply Hu.
    by exists cv, l, (recode c r k). }
  assert (Hen : enter f (recode c r k) = Some k') by (destruct f; done).
  eapply (whole_enter _ _ _ (recode c r k)); [exact Hs|by eapply step_frame| |done..].
  apply lookup_insert_eq.
Qed.

Lemma tstep_whole k0 k k' :
  Inv k → rtc step k0 k → ¬ unsettled_signal k → tstep k k' → whole k0 k'.
Proof.
  intros I Hs Hu Ht. destruct Ht as [k' Ha|f kp k' Hp Hok Hen|old kp k' Hp He|kp Hp Hh].
  - by eapply advance_whole.
  - pose proof Hp as (c & r & Hc & Hcd & _)%pop_inv.
    destruct (client_exec_ok f k c) as (ke & He & Ie); [|done|].
    { split_and!; [done..|by rewrite Hcd]. }
    eapply whole_enter; [exact Hs|by eapply step_client|done..].
  - left. eapply rtc_r; [done|]. by eapply step_level.
  - left. eapply rtc_r; [done|]. by eapply step_return.
Qed.

Lemma qsteps_whole k0 k : Inv k0 → rtc qstep k0 k → whole k0 k.
Proof.
  intros I0. revert k. apply (rtc_ind_r (whole k0)); [by left|]. intros k k' _ Hq IH.
  destruct IH as [Hs|(Hin & kc & ke & n & Hs & Hstep & Hf)].
  - pose proof (steps_Inv _ _ I0 Hs) as I. destruct Hq as [[Ht Hu]|[[Hon Hh] _]].
    + by eapply tstep_whole.
    + left. eapply rtc_r; [done|]. by eapply step_timer.
  - destruct Hq as [[Ht Hu]|[_ Hn]]; [|congruence].
    assert (Hnc : ∀ kp, pop k ≠ Some (Client, kp)).
    { intros kp Hp. unfold in_piece in Hin. by rewrite Hp in Hin. }
    destruct Ht as [k' Ha|f kp k' Hp|old kp k' Hp|kp Hp]; try by destruct (Hnc _ Hp).
    destruct n as [|n]; simpl in Hf; rewrite Hin in Hf; [done|]. rewrite Ha in Hf. simpl in Hf.
    destruct (in_piece k') eqn:Hin'; [by right; eauto 10|].
    left. eapply rtc_r; [exact Hs|]. destruct n; simpl in Hf; rewrite Hin' in Hf;
      by injection Hf as ->.
Qed.

(** Every state of [qstep] is one that satisfies the invariants, or is in the
    middle of a frame that leads to one. *)
Lemma qsteps_Inv k0 k :
  Inv k0 → rtc qstep k0 k →
  ∃ n k', finish n k = Some k' ∧ Inv k' ∧ (Donors k0 → Donors k').
Proof.
  intros I0 Hq.
  assert (∃ n k', finish n k = Some k' ∧ rtc step k0 k') as (n & k' & Hf & Hs).
  { destruct (qsteps_whole _ _ I0 Hq) as [Hs|(_ & kc & k' & n & Hs & Hstep & Hf)].
    - exists O, k. split; [|done]. simpl.
      by rewrite (Inv_not_piece _ (steps_Inv _ _ I0 Hs)).
    - exists n, k'. split; [done|]. by eapply rtc_r. }
  exists n, k'. split_and!; [done|by eapply steps_Inv|]. intros D0. by eapply steps_Donors.
Qed.

Lemma finish_between n k k' : in_piece k = false → finish n k = Some k' → k' = k.
Proof. intros Hn. destruct n; simpl; rewrite Hn; by intros [= <-]. Qed.

(** ** Concrete executions *)

(** What happens next: the current thread goes on, or, in client code, calls
    the interface; or a timer interrupt. *)
Inductive action := Run | Call (f : frame) | Tick.

Definition fine_act (a : action) (k : kernel) : option kernel :=
  match a with
  | Run => advance k
  | Call f =>
      '(g, _) ← pop k;
      match g with
      | Client => if decide (client_ok k f) then enter f k else None
      | _ => None
      end
  | Tick => if decide (interrupts k = INTR_ON) then intr_handler k else None
  end.

Fixpoint fine_acts (l : list action) (k : kernel) : option kernel :=
  match l with [] => Some k | a :: l => k ← fine_act a k; fine_acts l k end.

Lemma fine_act_fstep a k k' : fine_act a k = Some k' → fstep k k'.
Proof.
  destruct a; simpl.
  - intros. left. by apply tstep_advance.
  - destruct (pop k) as [[g k0]|] eqn:Hp; simpl; [|done].
    destruct g; try done. case_decide; [|done]. intros He. left. by eapply tstep_call.
  - case_decide; [|done]. intros He. by right.
Qed.

Lemma fine_acts_fsteps l k k' : fine_acts l k = Some k' → rtc fstep k k'.
Proof.
  revert k. induction l as [|a l IH]; simpl; intros k; [by intros [= ->]|].
  destruct (fine_act a k) as [k1|] eqn:E; simpl; [|done]. intros H.
  eapply rtc_l; [by eapply fine_act_fstep|by apply IH].
Qed.

(** The first statement the current thread still has to run of its frame. *)
Definition next_op (k : kernel) : option op :=
  '(f, _) ← pop k;
  match f with Piece (o :: _) => Some o | _ => None end.

(** [main] holds a lock, and a thread of the same priority has seen that when its
    time slice ends; [main] releases the lock; the thread goes on. *)
Definition acquire_interrupted : list action :=
  [Call (Lock_init 1000); Call (Lock_acquire 1000)] ++ repeat Run 6 ++
  [Call (Thread_create "t1" 31 12288 [Client])] ++ repeat Run 20 ++
  [Call Thread_yield; Run; Call (Lock_acquire 1000); Run; Run;
   Tick; Run; Tick; Run; Tick; Run; Tick; Run; Call (Lock_release 1000)] ++ repeat Run 7 ++
  [Call Thread_yield; Run; Run; Run].

(** With an interrupt between the test of [lock->holder] in [lock_acquire] and
    its use, the lock's holder has become [NULL], and the kernel writes through
    the null pointer. *)
Theorem lock_acquire_race :
  ∃ k, fine_acts acquire_interrupted booted = Some k ∧ rtc fstep booted k ∧
    next_op k = Some (AcquirePush 1000) ∧ locks k !! 1000 = Some (Lock NULL) ∧
    advance k = None.
Proof.
  destruct (fine_acts acquire_interrupted booted) as [k|] eqn:E; [|vm_compute in E; discriminate].
  exists k. split; [done|]. split; [by eapply fine_acts_fsteps|].
  vm_compute in E. injection E as <-. split_and!; vm_compute; reflexivity.
Qed.

(** [main] holds a lock and is ready, a thread of higher priority has seen that
    and is about to move it in the run queue when its time slice ends; [main]
    runs and goes to sleep on a semaphore; the thread goes on. *)
Definition donation_interrupted : list action :=
  [Call (Sema_init 700 0); Call (Lock_init 1000); Call (Lock_acquire 1000)] ++ repeat Run 6 ++
  [Call (Thread_create "t1" 32 12288 [Client])] ++ repeat Run 22 ++
  Call (Lock_acquire 1000) :: repeat Run 9 ++
  [Tick; Run; Tick; Run; Tick; Run; Tick; Run; Call (Sema_down 700); Run; Run].

(** With an interrupt between the test of the holder's status in
    [donate_priority] and [list_remove], the holder sleeps on a semaphore: it is
    taken out of the waiters of the semaphore and put into the run queue. *)
Theorem donation_race :
  ∃ k th sm, fine_acts donation_interrupted booted = Some k ∧ rtc fstep booted k ∧
    next_op k = Some (DonateRemove 4096) ∧
    threads k !! 4096 = Some th ∧ status th = THREAD_BLOCKED ∧ ready_list k = [] ∧
    semas k !! 700 = Some sm ∧ waiters sm = [4096].
Proof.
  destruct (fine_acts donation_interrupted booted) as [k|] eqn:E; [|vm_compute in E; discriminate].
  assert (Hf : rtc fstep booted k) by (by eapply fine_acts_fsteps).
  exists k. vm_compute in E. injection E as <-. do 2 eexists.
  split; [reflexivity|]. split; [exact Hf|]. split_and!; vm_compute; reflexivity.
Qed.
