(* ===== verification/SchedProps.v ===== *)
(** * Properties of the thread system

    The claims about scheduling, locks, priority donation, sleeping and
    condition variables that follow from the invariant, and concrete
    executions. *)

From S2P Require Import Prelude OrdList FixedPoint Kernel Thread Synch Sched.
From S2P Require Import SchedInv SchedSwitch SchedOps SchedLock SchedCond.
From S2P Require Import SchedThread SchedTimer SchedBoot SchedSafe SchedDonors SchedFine.
From stdpp Require Import relations.

Open Scope Z_scope.

(** ** Concrete executions *)

(** Actions on whole frames ([SchedFine.fine_act] runs single statements). *)
Definition act (a : action) (k : kernel) : option kernel :=
  match a with
  | Run =>
      '(f, k0) ← pop k;
      match f with Client => None | _ => exec f k0 end
  | Call f =>
      '(g, _) ← pop k;
      match g with
      | Client => if decide (client_ok k f) then exec f k else None
      | _ => None
      end
  | Tick => if decide (interrupts k = INTR_ON) then intr_handler k else None
  end.

Fixpoint acts (l : list action) (k : kernel) : option kernel :=
  match l with [] => Some k | a :: l => k ← act a k; acts l k end.

Lemma act_step a k k' : act a k = Some k' → step k k'.
Proof.
  destruct a; simpl.
  - destruct (pop k) as [[f k0]|] eqn:Hp; simpl; [|done].
    destruct f; try done; intros He; by eapply step_frame.
  - destruct (pop k) as [[g k0]|] eqn:Hp; simpl; [|done].
    destruct g; try done. case_decide; [|done]. intros He. by eapply step_client.
  - case_decide; [|done]. intros He. by eapply step_timer.
Qed.

Lemma acts_steps l k k' : acts l k = Some k' → rtc step k k'.
Proof.
  revert k. induction l as [|a l IH]; simpl; intros k; [by intros [= ->]|].
  destruct (act a k) as [k1|] eqn:E; simpl; [|done]. intros H.
  eapply rtc_l; [by eapply act_step|by apply IH].
Qed.

(** ** Safety *)

(** Single statements, without interrupts in the middle of a frame and without
    a signal to a waiter that is not asleep yet. *)
Definition unsettled (k : kernel) : bool :=
  match pop k with
  | Some (Cond_signal cv _, _) => negb (bool_decide (settled k cv))
  | _ => false
  end.

Definition qact (a : action) (k : kernel) : option kernel :=
  match a with
  | Tick => if in_piece k then None else fine_act Tick k
  | _ => if unsettled k then None else fine_act a k
  end.

Fixpoint qacts (l : list action) (k : kernel) : option kernel :=
  match l with [] => Some k | a :: l => k ← qact a k; qacts l k end.

Lemma unsettled_false k : unsettled k = false → ¬ unsettled_signal k.
Proof.
  intros Hu (cv & l & k0 & Hp & Hn). unfold unsettled in Hu. rewrite Hp in Hu.
  by rewrite bool_decide_false in Hu.
Qed.

Lemma qact_qstep a k k' : qact a k = Some k' → qstep k k'.
Proof.
  assert (Ht : ∀ a, a ≠ Tick → (if unsettled k then None else fine_act a k) = Some k' → qstep k k').
  { intros b Hb. destruct (unsettled k) eqn:Hu; [done|]. intros Hf. left.
    split; [|by apply unsettled_false]. destruct b; try done; simpl in Hf.
    - by apply tstep_advance.
    - destruct (pop k) as [[g k0]|] eqn:Hp; simpl in Hf; [|done].
      destruct g; try done. case_decide; [|done]. by eapply tstep_call. }
  destruct a; [by apply (Ht Run)|by apply (Ht (Call f))|]. simpl.
  destruct (in_piece k) eqn:Hin; [done|]. case_decide; [|done]. intros. by right.
Qed.

Lemma qacts_qsteps l k k' : qacts l k = Some k' → rtc qstep k k'.
Proof.
  revert k. induction l as [|a l IH]; simpl; intros k; [by intros [= ->]|].
  destruct (qact a k) as [k1|] eqn:E; simpl; [|done]. intros H.
  eapply rtc_l; [by eapply qact_qstep|by apply IH].
Qed.

(** C1: In every execution of the thread system, statement by statement, with
    arbitrary client code and with timer interrupts between the frames of the
    running thread, the invariants hold between two frames: the run queue
    contains exactly the ready threads, sorted by priority, blocked threads are
    where their waker looks for them, locks count their owners, pending code
    respects lock ownership ([Inv]), and a donor is a live thread on one
    donation list, that of the thread that holds the lock it waits for
    ([Donors]).  In the middle of a frame (of [lock_acquire] with its donations,
    [lock_release], [cond_signal], ...) the remaining statements run to its end
    and restore them.  Not covered are interrupts in the middle of these frames
    ([SchedFine.lock_acquire_race], [SchedFine.donation_race]) and a
    [cond_signal] while another waiter is on its way to sleep
    ([cond_signal_reads_garbage]), which the code does not stand. *)
Theorem scheduler_invariant k0 k :
  Inv k0 → Donors k0 → rtc qstep k0 k →
  (in_piece k = false → Inv k ∧ Donors k) ∧
  ∃ n k', finish n k = Some k' ∧ Inv k' ∧ Donors k'.
Proof.
  intros I0 D0 Hq. destruct (qsteps_Inv _ _ I0 Hq) as (n & k' & Hf & I & D). specialize (D D0).
  split; [|by eauto]. intros Hn. by rewrite <-(finish_between _ _ _ Hn Hf).
Qed.

(** [main] holds a lock, and a thread of higher priority is in the middle of
    [lock_acquire], after an interrupt: it has just donated its priority. *)
Definition donating : list action :=
  [Call (Lock_init 1000); Call (Lock_acquire 1000)] ++ repeat Run 6 ++
  [Call (Thread_create "t1" 32 12288 [Client])] ++ repeat Run 22 ++
  [Tick; Run; Call (Lock_acquire 1000)] ++ repeat Run 8.

Lemma scheduler_invariant_witness :
  Inv booted ∧ Donors booted ∧ ∃ k, qacts donating booted = Some k ∧ in_piece k = true ∧
    ∃ n k', finish n k = Some k' ∧ Inv k' ∧ Donors k'.
Proof.
  split; [exact booted_Inv|]. split; [exact booted_Donors|].
  destruct (qacts donating booted) as [k|] eqn:E; [|vm_compute in E; discriminate].
  exists k. split; [reflexivity|]. split; [vm_compute in E; injection E as <-; reflexivity|].
  exact (proj2 (scheduler_invariant booted k booted_Inv booted_Donors (qacts_qsteps _ _ _ E))).
Defined.

Lemma enter_ok f k c :
  threads k !! current k = Some c → (∃ k', exec f k = Some k' ∧ Inv k') → is_Some (enter f k).
Proof.
  intros Hc (k' & He & _). unfold enter. destruct (program f) as [|o os]; [by eauto|].
  unfold suspend, push_frames. rewrite (on_thread_Some _ _ _ _ Hc). by eauto.
Qed.

Lemma advance_ok k :
  Inv k → ¬ unsettled_signal k →
  ∃ f k1, pop k = Some (f, k1) ∧ (f ≠ Client → is_Some (advance k)).
Proof.
  intros I Hu. destruct (inv_running _ I) as (c & Hc & _).
  destruct (Inv_code _ _ I Hc) as (f & r & Hcd). pose proof (pop_eq _ _ _ _ Hc Hcd) as Hp.
  exists f, (recode c r k). split; [done|]. intros Hf.
  pose proof (Inv_not_piece _ I) as Hnp. unfold in_piece in Hnp. rewrite Hp in Hnp.
  assert (is_Some (enter f (recode c r k))) as Hen.
  { eapply enter_ok; [apply lookup_insert_eq|]. apply (exec_ok f r k c I Hc Hcd Hf).
    intros cv l ->. destruct (decide (settled k cv)); [done|]. exfalso. apply Hu.
    by exists cv, l, (recode c r k). }
  unfold advance. rewrite Hp. cbn [mbind option_bind]. by destruct f.
Qed.

(** C2: No assertion of [thread.c], [synch.c], [timer.c] or [interrupt.c]
    fails and no wild pointer is used in any of these executions: the current
    thread can always run its next statement, a call that respects
    [client_ok] can be entered, and a timer interrupt is handled.  Two
    things that the interface allows are not covered, and make the code fail:
    a timer interrupt between the statements of a frame that leaves interrupts
    on ([SchedFine.lock_acquire_race]), and a [cond_signal] while another
    waiter is on its way to sleep ([cond_signal_reads_garbage]). *)
Theorem kernel_never_panics k0 k :
  Inv k0 → rtc qstep k0 k →
  (¬ unsettled_signal k →
     ∃ f k1, pop k = Some (f, k1) ∧ (f ≠ Client → is_Some (advance k))) ∧
  (∀ f k1, pop k = Some (Client, k1) → client_ok k f → is_Some (enter f k)) ∧
  (interrupts k = INTR_ON → in_piece k = false → is_Some (intr_handler k)).
Proof.
  intros I0 Hq. destruct (qsteps_Inv _ _ I0 Hq) as (n & k' & Hf & I & _).
  destruct (in_piece k) eqn:Hin.
  - split_and!; [|intros f k1 Hp; unfold in_piece in Hin; by rewrite Hp in Hin|done].
    intros _. pose proof Hin as Hp. unfold in_piece in Hp.
    destruct (pop k) as [[f k1]|]; [|done]. exists f, k1. split; [done|]. intros _.
    destruct n as [|n]; simpl in Hf; rewrite Hin in Hf; [done|].
    destruct (advance k); [by eauto|done].
  - pose proof (finish_between _ _ _ Hin Hf) as ->.
    destruct (inv_running _ I) as (c & Hc & _ & Hl). split_and!.
    + by apply advance_ok.
    + intros f k1 Hp Hok. apply pop_inv in Hp as (c' & r' & Hc' & Hcd' & ->).
      rewrite Hc in Hc'. injection Hc' as <-. eapply enter_ok; [done|].
      apply (client_exec_ok f k c); [|done]. split_and!; [done..|by rewrite Hcd'].
    + intros Hon _. destruct (intr_handler_ok k c I Hc) as (k' & ? & _); [|by eauto].
      destruct (is_loop (code c)); [|done]. rewrite Hl in Hon; done.
Qed.

Lemma kernel_never_panics_witness :
  ∃ k, qacts donating booted = Some k ∧ is_Some (advance k).
Proof.
  destruct (qacts donating booted) as [k|] eqn:E; [|vm_compute in E; discriminate].
  exists k. split; [reflexivity|].
  destruct (proj1 (kernel_never_panics booted k booted_Inv (qacts_qsteps _ _ _ E)))
    as (f & k1 & Hp & Ha).
  - apply unsettled_false. vm_compute in E. injection E as <-. vm_compute. reflexivity.
  - apply Ha. intros ->. vm_compute in E. injection E as <-. vm_compute in Hp. discriminate.
Defined.

(** ** Mutual exclusion *)

(** The thread [t] owns the lock: it is the holder, or it has downed the
    semaphore and is about to become the holder, or has stopped being the holder
    and is about to up the semaphore. *)
Definition owns (k : kernel) (l t : Z) : Prop :=
  (t ≠ NULL ∧ ∃ lk, locks k !! l = Some lk ∧ holder lk = t) ∨
  (∃ th, threads k !! t = Some th ∧ 1 <= weight l (code th)).

Lemma owns_count k l lk sm t :
  Inv k → locks k !! l = Some lk → semas k !! lock_sema l = Some sm → owns k l t →
  value sm = 0 ∧
  ((holder lk = t ∧ tsum (weight l) (threads k) = 0) ∨
   (holder lk = NULL ∧ tsum (weight l) (threads k) = 1 ∧
    ∃ th, threads k !! t = Some th ∧ 1 <= weight l (code th))).
Proof.
  intros I Hl Hsm Ho. pose proof (lock_count _ _ _ (inv_counts _ I) _ _ _ Hl Hsm) as Hct.
  assert (Hnn : ∀ t th, threads k !! t = Some th → 0 <= weight l (code th)).
  { intros. eapply Wf_weight_nonneg; [apply I|by eapply elem_of_dom_2|done]. }
  pose proof (tsum_nonneg _ _ Hnn) as Hts. pose proof (inv_wf _ I) as W. wf_open W.
  destruct (wsema _ _ Hsm) as (Hv & _). unfold holder_count in Hct.
  destruct Ho as [(Hn & lk' & ? & <-)|(th & Ht & Hw)]; simplify_eq.
  - apply Z.eqb_neq in Hn as Hn'. rewrite Hn' in Hct. split; [lia|]. left. split; [done|lia].
  - pose proof (tsum_ge _ _ _ _ Hnn Ht). destruct (Z.eqb_spec (holder lk) NULL); [|lia].
    split; [lia|]. right. split_and!; [done|lia|by eauto].
Qed.

(** C4: At most one thread owns a lock at any point of any execution, and
    while somebody owns it the lock's semaphore is 0, so that nobody else gets
    through [sema_down]. *)
Theorem lock_mutual_exclusion k0 k l lk sm t1 t2 :
  Inv k0 → rtc step k0 k → locks k !! l = Some lk → semas k !! lock_sema l = Some sm →
  owns k l t1 → owns k l t2 → t1 = t2 ∧ value sm = 0.
Proof.
  intros I0 Hs Hl Hsm H1 H2. pose proof (steps_Inv _ _ I0 Hs) as I.
  destruct (owns_count _ _ _ _ _ I Hl Hsm H1) as (Hv & O1).
  destruct (owns_count _ _ _ _ _ I Hl Hsm H2) as (_ & O2). split; [|done].
  destruct O1 as [(<- & ?)|(? & ? & th1 & Ht1 & Hw1)], O2 as [(<- & ?)|(? & ? & th2 & Ht2 & Hw2)];
    try done; try lia.
  destruct (decide (t1 = t2)) as [|Hne]; [done|]. exfalso.
  assert (weight l (code th1) + weight l (code th2) <= tsum (weight l) (threads k)); [|lia].
  apply (tsum_ge2 _ _ t1 th1 t2 th2); try done.
  intros. eapply Wf_weight_nonneg; [apply I|by eapply elem_of_dom_2|done].
Qed.

(** Two threads, one of which holds a lock the other waits for. *)
Definition contended : list action :=
  [Call (Lock_init 1000); Call (Lock_acquire 1000); Run; Run;
   Call (Thread_create "t1" 32 12288 [Client])] ++ repeat Run 9 ++
  [Call (Lock_acquire 1000); Run].

Lemma lock_mutual_exclusion_witness :
  ∃ k sm, acts contended booted = Some k ∧ owns k 1000 4096 ∧
    semas k !! 1004 = Some sm ∧ value sm = 0.
Proof.
  destruct (acts contended booted) as [k|] eqn:E; [|vm_compute in E; discriminate].
  assert (H : ∃ lk sm, locks k !! 1000 = Some lk ∧ holder lk = 4096 ∧
            semas k !! 1004 = Some sm).
  { vm_compute in E. injection E as <-. do 2 eexists. split_and!; vm_compute; reflexivity. }
  destruct H as (lk & sm & Hl & Hh & Hs). exists k, sm.
  assert (Ho : owns k 1000 4096) by (left; split; [done|by eauto]).
  split; [reflexivity|]. split; [exact Ho|]. split; [exact Hs|].
  exact (proj2 (lock_mutual_exclusion booted k 1000 lk sm 4096 4096 booted_Inv
    (acts_steps contended _ _ E) Hl Hs Ho Ho)).
Defined.

(** ** Scheduling *)

(** No thread is lost: in every execution a blocked thread other
    than the idle thread is in the sleep list, or in the waiters of the
    semaphore whose [sema_down] it is in, or is just being created; and the
    waiters of a semaphore are blocked in its [sema_down]. *)
Theorem blocked_threads_are_parked k0 k :
  Inv k0 → rtc step k0 k →
  (∀ t th, threads k !! t = Some th → status th = THREAD_BLOCKED → t ≠ idle_thread k →
    t ∈ sleep_list k ∨ code th = [] ∨
    ∃ s old c sm, code th = SemaDownLoop s old :: c ∧ semas k !! s = Some sm ∧
                  t ∈ waiters sm) ∧
  (∀ s sm t, semas k !! s = Some sm → t ∈ waiters sm →
    ∃ th old c, threads k !! t = Some th ∧ status th = THREAD_BLOCKED ∧
                code th = SemaDownLoop s old :: c).
Proof.
  intros I0 Hs. pose proof (steps_Inv _ _ I0 Hs) as I. pose proof (inv_wf _ I) as W. wf_open W.
  split.
  - intros t th Ht Hst Hi. specialize (wstatus _ _ Ht). unfold status_ok, parked in wstatus.
    rewrite Hst in wstatus. destruct (code th) as [|[] c]; try done; auto.
    destruct wstatus as (sm & ? & ?). right. right. by exists s, old_level, c, sm.
  - intros s sm t Hsm Hin. destruct (wsema _ _ Hsm) as (_ & _ & Hw). by apply Hw.
Qed.

Lemma blocked_threads_are_parked_witness :
  ∃ k, acts contended booted = Some k ∧ ∀ th, threads k !! 12288 = Some th →
    status th = THREAD_BLOCKED → 12288 ≠ idle_thread k →
    12288 ∈ sleep_list k ∨ code th = [] ∨
    ∃ s old c sm, code th = SemaDownLoop s old :: c ∧ semas k !! s = Some sm ∧
                  12288 ∈ waiters sm.
Proof.
  destruct (acts contended booted) as [k|] eqn:E; [|vm_compute in E; discriminate].
  exists k. split; [reflexivity|]. intros th Ht Hs Hi.
  exact (proj1 (blocked_threads_are_parked booted k booted_Inv (acts_steps _ _ _ E))
    12288 th Ht Hs Hi).
Defined.

(** ** Booting *)

(** [thread_init] and [thread_start] run to completion from zeroed
    globals, and [main] continues in a state that satisfies the invariant, with
    the idle thread ready to be scheduled. *)
Theorem boot_establishes_invariant :
  boot false 23 = Some booted ∧ Inv booted ∧
  pop booted ≫= (λ p, head [p.1]) = Some Client.
Proof. split; [exact boot_eq|]. split; [exact booted_Inv|reflexivity]. Qed.
