(* ===== verification/SchedPriority.v ===== *)
(** * Priorities, donation, sleeping and signalling

    Functional properties: who runs next, who is woken, what donation
    achieves, and the gap in [cond_signal]. *)

From S2P Require Import Prelude OrdList FixedPoint Kernel Thread Synch Sched.
From S2P Require Import SchedInv SchedSwitch SchedOps SchedLock SchedCond.
From S2P Require Import SchedThread SchedTimer SchedBoot SchedSafe SchedFine SchedProps.
From stdpp Require Import relations.

Open Scope Z_scope.

(** ** Who runs next *)

(** The run queue after a switch is what was behind the chosen thread, and
    none of it has a higher priority. *)
Lemma switched_highest k c nh :
  PreSwitch k → threads k !! current k = Some c → threads k !! next_of k = Some nh →
  ∀ t, t ∈ ready_list (switched k c nh) →
    prio_of (switched k c nh) t <= prio_of (switched k c nh) (next_of k).
Proof.
  intros P Hc Hn t Hin. change (t ∈ tail (ready_list k)) in Hin.
  pose proof (pre_wf _ P) as W. pose proof (pre_ready _ P) as Hs. unfold ready_sorted in Hs.
  destruct (wf_next k W) as (nh' & Hn' & [[_ Hr]|(Hst & Hi & Hr)]).
  { rewrite Hr in Hin. by apply elem_of_nil in Hin. }
  assert (Hle : prio_of k t <= prio_of k (next_of k)).
  { rewrite Hr in Hs. apply StronglySorted_inv in Hs as [_ Hall].
    rewrite Forall_forall in Hall. apply Z.ge_le, Hall. by apply list_elem_of_fmap_2. }
  assert (Hlk : ∀ x xh, threads k !! x = Some xh → status xh ≠ THREAD_DYING →
    prio_of (switched k c nh) x = prio_of k x).
  { intros x xh Hx Hd. apply prio_of_ext. rewrite switched_lookup; try done.
    - case_decide; [|done]. subst. by rewrite Hn.
    - by eapply wf_dying_next.
    - destruct (decide (x = current k)) as [->|]; [|by left]. right. congruence. }
  destruct (wf_ready_status k t W) as (th & Ht & Hts).
  { rewrite Hr. by right. }
  rewrite (Hlk _ _ Ht), (Hlk _ _ Hn'); [done|congruence..].
Qed.

Lemma head_insert_ordered (f : Z → Z) t l x l' :
  l = x :: l' → f t <= f x → head (insert_ordered (λ a b, f b <? f a) t l) = Some x.
Proof. intros -> H. simpl. by rewrite (proj2 (Z.ltb_ge _ _) H). Qed.

(** C10: [thread_yield] gives the processor to a thread of the highest
    priority among the ready threads and the yielding one, to the idle thread
    only when nothing else is ready, and to another thread whenever one of at
    least the same priority is ready (round robin). *)
Theorem thread_yield_runs_highest k c k' :
  Inv k → threads k !! current k = Some c → is_loop (code c) = false →
  thread_yield k = Some k' →
  (∀ t th, threads k' !! t = Some th → status th = THREAD_READY → t ≠ idle_thread k' →
     current k' ≠ idle_thread k' ∧ prio_of k' t <= prio_of k' (current k')) ∧
  (∀ t, t ∈ ready_list k → prio_of k (current k) <= prio_of k t → current k' ≠ current k).
Proof.
  intros I Hc Hl Hy. pose proof (Inv_running _ _ I Hc) as Hst.
  pose proof (yielded_PreSwitch k c I Hc Hl) as P.
  rewrite (thread_yield_eq k c (inv_wf _ I) Hc Hst (inv_context _ I)) in Hy.
  destruct (schedule_ok _ _ P (lookup_insert_eq _ _ _)) as (nh & Hn & Heq & I').
  rewrite Hy in Heq. injection Heq as ->. split.
  - intros t th Ht Hts Hi. pose proof (inv_wf _ I') as W'. wf_open W'.
    assert (Hin : t ∈ ready_list (switched (yielded k c) (c <| status := THREAD_READY |>
      <| code ::= cons (IntrSetLevel (interrupts k)) |>) nh)) by (apply wready; eauto).
    split; [|by eapply switched_highest; [exact P|apply lookup_insert_eq|..]].
    destruct (wf_next _ (pre_wf _ P)) as (nh' & _ & [[_ Hr]|(_ & Hni & _)]); [|done].
    exfalso. change (t ∈ tail (ready_list (yielded k c))) in Hin. rewrite Hr in Hin.
    by apply elem_of_nil in Hin.
  - intros t Hin Hle. change (next_of (yielded k c) ≠ current k).
    destruct (Wf_running _ _ _ _ _ _ _ _ _ _ _ (inv_wf _ I) _ _ Hc Hst) as (Hnr & _).
    destruct (ready_list k) as [|x l] eqn:Hr; [by apply elem_of_nil in Hin|].
    assert (Hx : prio_of k t <= prio_of k x).
    { pose proof (inv_ready _ I) as Hs. unfold ready_sorted in Hs. rewrite Hr in Hs.
      apply StronglySorted_inv in Hs as [_ Hall]. apply elem_of_cons in Hin as [->|Hin]; [lia|].
      rewrite Forall_forall in Hall. apply Z.ge_le, Hall. by apply list_elem_of_fmap_2. }
    assert (Hne : x ≠ current k) by (intros ->; apply Hnr; left).
    unfold next_of. simpl. rewrite Hr. case_match; [|done].
    assert (prio_of k (current k) <= prio_of k x) as Hcx by lia.
    pose proof (head_insert_ordered (prio_of k) (current k) (x :: l) x l eq_refl Hcx) as Hhd.
    intros E. change (default (idle_thread k) (head (insert_ordered
      (λ a b, prio_of k b <? prio_of k a) (current k) (x :: l))) = current k) in E.
    rewrite Hhd in E. done.
Qed.

(** A thread of the same priority as [main] is ready. *)
Definition ready_one : list action :=
  Call (Thread_create "t1" 31 12288 [Client]) :: repeat Run 8.

Lemma thread_yield_runs_highest_witness :
  ∃ k k', acts ready_one booted = Some k ∧ thread_yield k = Some k' ∧ current k' ≠ current k.
Proof.
  destruct (acts ready_one booted) as [k|] eqn:E; [|vm_compute in E; discriminate].
  pose proof (steps_Inv _ _ booted_Inv (acts_steps _ _ _ E)) as I.
  assert (H : ∃ c k', threads k !! current k = Some c ∧ is_loop (code c) = false ∧
    thread_yield k = Some k' ∧ ready_list k = [12288] ∧
    (prio_of k (current k) <=? prio_of k 12288) = true).
  { clear I. vm_compute in E. injection E as <-. do 2 eexists.
    split; [vm_compute; reflexivity|]. split; [vm_compute; reflexivity|].
    split; [vm_compute; reflexivity|]. split; vm_compute; reflexivity. }
  destruct H as (c & k' & Hc & Hl & Hy & Hr & Hp). exists k, k'.
  split; [reflexivity|]. split; [exact Hy|].
  apply (proj2 (thread_yield_runs_highest k c k' I Hc Hl Hy) 12288).
  - rewrite Hr. left.
  - by apply Z.leb_le.
Defined.

(** ** Sleeping *)

Lemma thread_wake_loop_spec tick sl k :
  interrupts k = INTR_OFF → NoDup sl → sleep_list k = sl →
  StronglySorted Z.le (wake_of k <$> sl) →
  (∀ t, t ∈ sl → ∃ th, threads k !! t = Some th ∧ t ≠ NULL ∧ magic th = THREAD_MAGIC ∧
                       status th = THREAD_BLOCKED) →
  ∃ k', thread_wake_loop sl tick k = Some k' ∧
  sleep_list k' = filter (λ t, tick < wake_of k t) sl ∧
  (∀ t, t ∈ ready_list k' ↔ t ∈ ready_list k ∨ (t ∈ sl ∧ wake_of k t <= tick)) ∧
  (∀ t, t ∈ sl → wake_of k t <= tick → ∃ th, threads k' !! t = Some th ∧
                                             status th = THREAD_READY) ∧
  (∀ t, (t ∉ sl) ∨ tick < wake_of k t → threads k' !! t = threads k !! t).
Proof.
  revert k. induction sl as [|t sl IH]; intros k Hoff Hnd Hsl Hs Hin; simpl.
  { exists k. split_and!; [done|done|..]; set_solver. }
  destruct (Hin t) as (th & Ht & Hn & Hm & Hst); [left|]. rewrite Ht. simpl.
  apply NoDup_cons in Hnd as [Htn Hnd]. simpl in Hs.
  apply StronglySorted_inv in Hs as [Hs Hall].
  assert (Hw : wake_of k t = wake_tick th) by (unfold wake_of; by rewrite Ht).
  destruct (Z.ltb_spec tick (wake_tick th)) as [Hlt|Hge].
  - assert (Hall' : ∀ x, x ∈ t :: sl → tick < wake_of k x).
    { intros x [->|Hx]%elem_of_cons; [lia|]. rewrite Forall_forall in Hall.
      specialize (Hall (wake_of k x)). rewrite Hw in Hall.
      enough (wake_tick th <= wake_of k x) by lia. apply Hall. by apply list_elem_of_fmap_2. }
    exists k. split_and!; [done|..].
    + rewrite Hsl. symmetry. by apply filter_all_true.
    + intros x. split; [by left|]. intros [?|[Hx Hle]]; [done|]. specialize (Hall' _ Hx). lia.
    + intros x Hx Hle. specialize (Hall' _ Hx). lia.
    + done.
  - rewrite (thread_unblock_eq _ t th) by (done || by right). cbn [mbind option_bind].
    set (k1 := unblocked (k <| sleep_list := sl |>) t th).
    assert (Hwk : ∀ x, wake_of k1 x = wake_of k x) by (intros; by eapply wake_of_insert).
    destruct (IH k1) as (k' & Hk' & Hsl' & Hrd' & Hwoken & Hsame); try done.
    + eapply fmap_sorted_ext; [|exact Hs]. done.
    + intros x Hx. destruct (Hin x) as (xh & ? & ? & ? & ?); [by right|]. exists xh.
      simpl. rewrite lookup_insert_ne by (intros <-; done). done.
    + rewrite filter_cons, decide_False by lia. exists k'. split_and!; [done|..].
      * rewrite Hsl'. apply list_filter_iff. intros x. by rewrite Hwk.
      * intros x. rewrite Hrd'. simpl. rewrite (insert_ordered_perm _ t), Hwk. 
        rewrite !elem_of_cons. split; [intros [[->|?]|[? ?]]|intros [?|[[->|?] ?]]]; auto.
        right. split; [by left|lia].
      * intros x [->|Hx]%elem_of_cons Hle; [|by apply Hwoken; rewrite ?Hwk].
        rewrite Hsame by by left. simpl. rewrite lookup_insert_eq. eauto.
      * intros x Hx. assert (x ≠ t) as Hne.
        { intros ->. destruct Hx as [Hx|Hx]; [by apply Hx; left|lia]. }
        rewrite Hsame by (rewrite Hwk; set_solver). simpl. by rewrite lookup_insert_ne.
Qed.

(** [thread_wake] at [current_tick] makes ready exactly the sleeping
    threads whose wake-up time has come, leaves the others asleep in order, and
    changes no other thread. *)
Theorem thread_wake_wakes_due k current_tick :
  Inv k → interrupts k = INTR_OFF →
  ∃ k', thread_wake current_tick k = Some k' ∧
    sleep_list k' = filter (λ t, current_tick < wake_of k t) (sleep_list k) ∧
    (∀ t, t ∈ ready_list k' ↔
       t ∈ ready_list k ∨ (t ∈ sleep_list k ∧ wake_of k t <= current_tick)) ∧
    (∀ t, t ∈ sleep_list k → wake_of k t <= current_tick →
       ∃ th, threads k' !! t = Some th ∧ status th = THREAD_READY) ∧
    (∀ t, (t ∉ sleep_list k) ∨ current_tick < wake_of k t →
       threads k' !! t = threads k !! t).
Proof.
  intros I Hoff. pose proof (inv_wf _ I) as W.
  assert (Hin : ∀ t, t ∈ sleep_list k → ∃ th, threads k !! t = Some th ∧ t ≠ NULL ∧
    magic th = THREAD_MAGIC ∧ status th = THREAD_BLOCKED).
  { pose proof W as W'. wf_open W'. intros t (_ & th & _ & _ & Ht & Hst & _)%wsleep.
    destruct (wthread _ _ Ht) as (? & ? & _). eauto 10. }
  wf_open W. apply thread_wake_loop_spec; try done. apply (inv_sleep _ I).
Qed.

(** [main] has just gone to sleep for 5 ticks. *)
Lemma thread_wake_wakes_due_witness :
  ∃ k, acts [Call (Timer_sleep 5)] booted = Some k ∧
    ∃ k', thread_wake 5 k = Some k' ∧ sleep_list k' = filter (λ t, 5 < wake_of k t) (sleep_list k).
Proof.
  destruct (acts [Call (Timer_sleep 5)] booted) as [k|] eqn:E; [|vm_compute in E; discriminate].
  exists k. split; [reflexivity|].
  destruct (thread_wake_wakes_due k 5) as (k' & H1 & H2 & _).
  - exact (steps_Inv _ _ booted_Inv (acts_steps _ _ _ E)).
  - vm_compute in E. injection E as <-. reflexivity.
  - exists k'. split; [exact H1|exact H2].
Defined.

(** ** Waking waiters *)

(** [sema_up] with waiters wakes one of the highest priority, the first
    of them in the queue on ties, takes it out of the waiters, makes it ready
    and increments the value. *)
Theorem sema_up_wakes_highest k c s sm :
  at_client k c → free_sema k s → semas k !! s = Some sm → waiters sm ≠ [] →
  ∃ k' t l1 l2 sm' th, sema_up s k = Some k' ∧
    waiters sm = l1 ++ t :: l2 ∧
    Forall (λ w, prio_of k w < prio_of k t) l1 ∧
    Forall (λ w, prio_of k w <= prio_of k t) l2 ∧
    semas k' !! s = Some sm' ∧ waiters sm' ≡ₚ l1 ++ l2 ∧
    value sm' = (value sm + 1) mod 2 ^ 32 ∧
    threads k' !! t = Some th ∧ status th = THREAD_READY ∧ t ∈ ready_list k'.
Proof.
  intros A (Hn & _) Hsm Hw. pose proof A as (I & Hc & _). pose proof (inv_wf _ I) as W.
  unfold sema_up. apply Z.eqb_neq in Hn as ->. simpl. rewrite Hsm. simpl.
  rewrite (isort_ext _ (λ a b, prio_of k b <? prio_of k a)) by done.
  destruct (isort (λ a b, prio_of k b <? prio_of k a) (waiters sm)) as [|t rest] eqn:Es.
  { pose proof (isort_perm (λ a b, prio_of k b <? prio_of k a) (waiters sm)) as Hp.
    rewrite Es in Hp. by apply Permutation_nil_l in Hp. }
  pose proof (isort_head (λ a b, prio_of k b <? prio_of k a) _ _ _ Es) as (l1 & l2 & Heq & Hp & H1 & H2).
  unfold on_sema; simpl. rewrite Hsm. simpl.
  destruct (waiter_facts k s sm t W Hsm) as (th & old & cd & Ht & Hst & Hcd & Hi & Hnull & Hm & _).
  { rewrite Heq. apply elem_of_app. right. left. }
  assert (Hne : current k ≠ t).
  { intros <-. pose proof (Inv_running _ _ I Ht). congruence. }
  erewrite thread_unblock_eq; [|simpl; exact Ht|done..|by right]. simpl.
  rewrite lookup_insert_eq. simpl. rewrite intr_set_level_eq by apply I. simpl. unfold push_frames.
  erewrite on_thread_Some by (simpl; rewrite lookup_insert_ne by done; exact Hc).
  do 6 eexists. split; [reflexivity|]. simpl. split; [exact Heq|]. split_and!.
  - eapply Forall_impl; [exact H1|]. simpl. intros w ?. by apply Z.ltb_lt.
  - eapply Forall_impl; [exact H2|]. simpl. intros w ?. by apply Z.ltb_ge.
  - apply lookup_insert_eq.
  - done.
  - done.
  - rewrite lookup_insert_ne by done. apply lookup_insert_eq.
  - done.
  - rewrite (insert_ordered_perm _ t). left.
Qed.

(** Two threads wait on a semaphore and [main] runs. *)
Definition two_waiters : list action :=
  [Call (Sema_init 700 0); Call (Thread_create "t1" 32 12288 [Client])] ++ repeat Run 9 ++
  [Call (Sema_down 700); Run; Call (Thread_create "t2" 40 16384 [Client])] ++ repeat Run 9 ++
  [Call (Sema_down 700); Run].

Lemma sema_up_wakes_highest_witness :
  ∃ k k', acts two_waiters booted = Some k ∧ sema_up 700 k = Some k'.
Proof.
  destruct (acts two_waiters booted) as [k|] eqn:E; [|vm_compute in E; discriminate].
  pose proof (steps_Inv _ _ booted_Inv (acts_steps _ _ _ E)) as I.
  assert (H : ∃ c, threads k !! current k = Some c ∧ head (code c) = Some Client ∧
    semas k !! 700 = Some (Semaphore 0 [16384; 12288]) ∧ locks k !! 696 = None).
  { clear I. vm_compute in E. injection E as <-. eexists.
    split; [vm_compute; reflexivity|]. split; [vm_compute; reflexivity|].
    split; vm_compute; reflexivity. }
  clear E. destruct H as (c & Hc & Hh & Hs & Hl). exists k.
  destruct (sema_up_wakes_highest k c 700 (Semaphore 0 [16384; 12288]))
    as (k' & t & l1 & l2 & sm' & th & Hk' & _).
  - split; [exact I|]. split; [exact Hc|exact Hh].
  - split; [discriminate|]. split; [rewrite Hs; by eexists|]. simpl. exact Hl.
  - exact Hs.
  - discriminate.
  - exists k'. split; [reflexivity|exact Hk'].
Defined.

(** ** Donation *)

(** The holder of the lock that [t] waits for. *)
Definition waits_on_holder (k : kernel) (t : Z) : option Z :=
  th ← threads k !! t;
  if waiting_lock th =? NULL then None
  else
    lk ← locks k !! waiting_lock th;
    if holder lk =? NULL then None else Some (holder lk).

(** The threads that a donation of priority [p] from [t] reaches in at most [n]
    rounds: the holder of the lock that [t] waits for, if its priority is lower,
    and then in the same way from the holder on. *)
Fixpoint donees (k : kernel) (n : nat) (p t : Z) : list Z :=
  match n with
  | O => []
  | S n =>
      match waits_on_holder k t with
      | Some h => if prio_of k h <? p then h :: donees k n p h else []
      | None => []
      end
  end.

Lemma waits_on_holder_ext k k' t :
  locks k' = locks k → waiting_lock <$> threads k' !! t = waiting_lock <$> threads k !! t →
  waits_on_holder k' t = waits_on_holder k t.
Proof.
  intros HL HT. unfold waits_on_holder. rewrite HL.
  destruct (threads k !! t), (threads k' !! t); simplify_eq/=; [|done]. by rewrite HT.
Qed.

Lemma donees_ext k k' n p t :
  (∀ x, waits_on_holder k' x = waits_on_holder k x) → (∀ x, prio_of k' x = prio_of k x) →
  donees k' n p t = donees k n p t.
Proof.
  intros Hw Hp. revert t. induction n as [|n IH]; intros t; simpl; [done|].
  rewrite Hw. destruct (waits_on_holder k t) as [h|]; [|done]. by rewrite Hp, IH.
Qed.

Lemma donees_le k n n' p t : (n ≤ n')%nat → donees k n p t ⊆ donees k n' p t.
Proof.
  revert n' t. induction n as [|n IH]; intros [|n'] t Hn; simpl; [set_solver..|lia|].
  destruct (waits_on_holder k t) as [h|]; [|done]. case_match; [|done].
  specialize (IH n' h). set_solver by lia.
Qed.

(** Raising one of the threads that the donation reaches to [p] does not change
    whom it reaches from there, except that it now stops when it comes back. *)
Lemma donees_raised k k1 h p n0 :
  (∀ x, waits_on_holder k1 x = waits_on_holder k x) → prio_of k1 h = p →
  (∀ x, x ≠ h → prio_of k1 x = prio_of k x) → prio_of k h < p →
  ∀ x, x ∈ h :: donees k n0 p h ↔ x ∈ h :: donees k1 n0 p h.
Proof.
  intros Hw Hh Hx Hlt x. rewrite !elem_of_cons.
  assert (Hto : ∀ n y, x ∈ donees k1 n p y → x ∈ donees k n p y).
  { induction n as [|n IH]; intros y; simpl; [done|]. rewrite Hw.
    destruct (waits_on_holder k y) as [z|]; [|done].
    destruct (Z.ltb_spec (prio_of k1 z) p) as [Hz|]; [|by intros ?%elem_of_nil].
    assert (z ≠ h) by (intros ->; lia). rewrite Hx in Hz by done.
    rewrite (proj2 (Z.ltb_lt _ _) Hz), !elem_of_cons. naive_solver. }
  assert (Hfrom : ∀ n y, (n ≤ n0)%nat → x ∈ donees k n p y →
    x = h ∨ x ∈ donees k1 n p y ∨ x ∈ donees k1 n0 p h).
  { induction n as [|n IH]; intros y Hn; simpl; [by intros ?%elem_of_nil|]. rewrite Hw.
    destruct (waits_on_holder k y) as [z|]; [|by intros ?%elem_of_nil].
    destruct (Z.ltb_spec (prio_of k z) p) as [Hz|]; [|by intros ?%elem_of_nil].
    destruct (decide (z = h)) as [->|Hzh].
    - intros [->|[?|[?|?]]%IH]%elem_of_cons; auto; [|lia].
      right; right. eapply donees_le; [|done]. lia.
    - rewrite (Hx z Hzh), (proj2 (Z.ltb_lt _ _) Hz).
      intros [->|[?|[?|?]]%IH]%elem_of_cons; auto; [right; left; by constructor..|lia]. }
  split; (intros [?|Hd]; [by left|]).
  - destruct (Hfrom n0 h) as [?|[?|?]]; auto.
  - right. by apply Hto.
Qed.

(** One round of [donate_priority]: it stops, or raises the holder. *)
Lemma donate_priority_round n t k k' :
  donate_priority (S n) t k = Some k' →
  (k' = k ∧ donees k (S n) (prio_of k t) t = []) ∨
  ∃ h hd k1, waits_on_holder k t = Some h ∧ threads k !! h = Some hd ∧
    prio_of k h < prio_of k t ∧
    threads k1 = <[h := hd <| priority := prio_of k t |>]> (threads k) ∧ locks k1 = locks k ∧
    donate_priority n h k1 = Some k'.
Proof.
  cbn [donate_priority donees]. unfold waits_on_holder.
  destruct (threads k !! t) as [th|] eqn:Ht; [|done]. cbn [mbind option_bind].
  assert (Hp : prio_of k t = priority th) by (unfold prio_of; by rewrite Ht).
  destruct (waiting_lock th =? NULL); [intros [= <-]; by left|].
  destruct (locks k !! waiting_lock th) as [lk|] eqn:Hlk; [|done]. cbn [mbind option_bind] in *.
  destruct (holder lk =? NULL); [intros [= <-]; by left|].
  destruct (threads k !! holder lk) as [hd|] eqn:Hhd; [|done]. cbn [mbind option_bind].
  assert (Hph : prio_of k (holder lk) = priority hd) by (unfold prio_of; by rewrite Hhd).
  rewrite Hph, Hp. destruct (Z.leb_spec (priority th) (priority hd)) as [Hle|Hlt].
  { intros [= <-]. left. by rewrite (proj2 (Z.ltb_ge _ _) Hle). }
  rewrite (on_thread_Some _ _ _ _ Hhd). cbn [mbind option_bind]. intros H. bind_inv H.
  right. exists (holder lk), hd, k0. split_and!; [done|done|lia|..|done];
    destruct (bool_decide (status hd = _)); bind_inv E; by injection E as <-.
Qed.

Lemma raised_facts k k1 h hd p :
  threads k !! h = Some hd → threads k1 = <[h := hd <| priority := p |>]> (threads k) →
  locks k1 = locks k →
  (∀ x, waits_on_holder k1 x = waits_on_holder k x) ∧ prio_of k1 h = p ∧
  (∀ x, x ≠ h → prio_of k1 x = prio_of k x).
Proof.
  intros Hhd HT HL. split_and!.
  - intros x. apply waits_on_holder_ext; [done|]. rewrite HT.
    destruct (decide (x = h)) as [->|]; [by rewrite lookup_insert_eq, Hhd|by rewrite lookup_insert_ne].
  - unfold prio_of. by rewrite HT, lookup_insert_eq.
  - intros x Hx. unfold prio_of. by rewrite HT, lookup_insert_ne.
Qed.

(** Whose priority [donate_priority] changes, and to what. *)
Lemma donate_priority_exact n t k k' :
  donate_priority n t k = Some k' →
  ∀ x, prio_of k' x =
       if decide (x ∈ donees k n (prio_of k t) t) then prio_of k t else prio_of k x.
Proof.
  revert t k. induction n as [|n IH]; intros t k; [by intros [= <-] x|].
  intros [[-> ->]|(h & hd & k1 & Hw & Hhd & Hlt & HT & HL & Hn)]%donate_priority_round x; [done|].
  destruct (raised_facts _ _ _ _ _ Hhd HT HL) as (Hw1 & Hp1 & Hp2).
  rewrite (IH _ _ Hn x), Hp1. simpl. rewrite Hw, (proj2 (Z.ltb_lt _ _) Hlt).
  pose proof (donees_raised k k1 h (prio_of k t) n Hw1 Hp1 Hp2 Hlt x) as Hd.
  rewrite !elem_of_cons in Hd. destruct (decide (x = h)) as [->|Hx].
  - rewrite Hp1. by rewrite (decide_True _ _ (list_elem_of_here _ _)); case_decide.
  - rewrite (Hp2 x Hx). apply decide_ext. rewrite elem_of_cons. naive_solver.
Qed.

(** [donate_priority] changes nothing but priorities and the run queue. *)
Lemma donate_priority_donors n t k k' :
  donate_priority n t k = Some k' → ∀ x,
  (λ th, (waiting_lock th, donations th)) <$> threads k' !! x =
  (λ th, (waiting_lock th, donations th)) <$> threads k !! x.
Proof.
  revert t k. induction n as [|n IH]; intros t k; [by intros [= <-] x|].
  intros [[-> _]|(h & hd & k1 & _ & Hhd & _ & HT & _ & Hn)]%donate_priority_round x; [done|].
  rewrite (IH _ _ Hn x), HT. destruct (decide (x = h)) as [->|];
    [by rewrite lookup_insert_eq, Hhd|by rewrite lookup_insert_ne].
Qed.

(** [k] with [t] waiting for the lock at [l]. *)
Definition set_waiting (t l : Z) (k : kernel) : kernel :=
  k <| threads ::= alter (λ th, th <| waiting_lock := l |>) t |>.

(** The thread at [t] registered as a donor of [h], from which it waits for the
    lock at [l], with the rest of [lock_acquire] to run. *)
Definition registered (k : kernel) (t : Z) (c : thread) (h : Z) (hd : thread) (l : Z) : kernel :=
  k <| threads := <[h := hd <| donations ::= λ d, d ++ [t] |>]>
         (<[t := c <| code ::= λ r, [Sema_down (lock_sema l); LockAcquireTail l] ++ r |>
                   <| waiting_lock := l |>]> (threads k)) |>.

Lemma lock_acquire_shape l k c lk k' :
  threads k !! current k = Some c → locks k !! l = Some lk → lock_acquire l k = Some k' →
  if negb (thread_mlfqs k) && negb (holder lk =? NULL)
  then holder lk ≠ current k ∧ ∃ hd, threads k !! holder lk = Some hd ∧
         donate_priority 8 (current k) (registered k (current k) c (holder lk) hd l) = Some k'
  else push_frames (current k) [Sema_down (lock_sema l); LockAcquireTail l] k = Some k'.
Proof.
  intros Hc Hlk. unfold lock_acquire. remember 8%nat as depth eqn:E8. clear E8. intros H.
  bind_inv H. pose proof E as ->%thread_current_is. injection Hlk as ->. rename E4 into Hlk.
  unfold push_frames in E5. rewrite (on_thread_Some _ _ _ _ Hc) in E5. injection E5 as <-.
  simpl (thread_mlfqs _) in H. destruct (negb _ && negb _) eqn:Eb;
    [|unfold push_frames; rewrite (on_thread_Some _ _ _ _ Hc); done].
  bind_inv H. erewrite on_thread_Some in E4 by (simpl; apply lookup_insert_eq). injection E4 as <-.
  unfold lock_held_by_current_thread in E2. bind_inv E2. simplify_eq. bool_simp.
  split; [done|]. unfold on_thread in E5. destruct (threads _ !! holder lk) as [hd|] eqn:Hhd in E5; [|done].
  simpl in Hhd. rewrite insert_insert_eq, lookup_insert_ne in Hhd by congruence.
  injection E5 as <-. exists hd. split; [done|]. rewrite <-H. f_equal. unfold registered. simpl.
  by rewrite insert_insert_eq.
Qed.

(** Registering a donor changes no priority, and who waits for what only for
    the donor. *)
Lemma registered_lookup k t c h hd l x :
  threads k !! t = Some c → threads k !! h = Some hd → h ≠ t →
  (λ th, (waiting_lock th, priority th)) <$> threads (registered k t c h hd l) !! x =
  (λ th, (waiting_lock th, priority th)) <$> threads (set_waiting t l k) !! x.
Proof.
  intros Hc Hh Hne. simpl. destruct (decide (x = h)) as [->|Hxh].
  - by rewrite lookup_insert_eq, lookup_alter_ne, Hh by done.
  - rewrite lookup_insert_ne by done. destruct (decide (x = t)) as [->|].
    + by rewrite lookup_insert_eq, lookup_alter_eq, Hc.
    + by rewrite lookup_insert_ne, lookup_alter_ne.
Qed.

Lemma registered_donees k t c h hd l n p :
  threads k !! t = Some c → threads k !! h = Some hd → h ≠ t →
  donees (registered k t c h hd l) n p t = donees (set_waiting t l k) n p t ∧
  ∀ x, prio_of (registered k t c h hd l) x = prio_of k x.
Proof.
  intros Hc Hh Hne.
  assert (Hl : ∀ x, waiting_lock <$> threads (registered k t c h hd l) !! x =
      waiting_lock <$> threads (set_waiting t l k) !! x ∧
    priority <$> threads (registered k t c h hd l) !! x =
      priority <$> threads (set_waiting t l k) !! x).
  { intros x. pose proof (registered_lookup k t c h hd l x Hc Hh Hne) as E.
    destruct (threads (registered _ _ _ _ _ _) !! x), (threads (set_waiting _ _ _) !! x);
      simpl in *; split; congruence. }
  split.
  - apply donees_ext; intros x; [|apply prio_of_ext; apply Hl].
    apply waits_on_holder_ext; [done|apply Hl].
  - intros x. apply prio_of_ext. rewrite (proj2 (Hl x)). simpl.
    destruct (decide (x = t)) as [->|]; [|by rewrite lookup_alter_ne].
    by rewrite lookup_alter_eq, Hc.
Qed.

Lemma registered_after k t c h hd l n k' :
  threads k !! t = Some c → threads k !! h = Some hd → h ≠ t →
  donate_priority n t (registered k t c h hd l) = Some k' →
  ∃ hd', threads k' !! h = Some hd' ∧ donations hd' = donations hd ++ [t].
Proof.
  intros Hc Hh Hne Hd. pose proof (donate_priority_donors _ _ _ _ Hd h) as E.
  simpl in E. rewrite lookup_insert_eq in E.
  destruct (threads k' !! h) as [hd'|]; [|done]. injection E as _ E. by exists hd'.
Qed.

(** The holder of the lock is where the donation starts. *)
Lemma set_waiting_holder k t c l lk :
  threads k !! t = Some c → locks k !! l = Some lk → l ≠ NULL →
  waits_on_holder (set_waiting t l k) t = if holder lk =? NULL then None else Some (holder lk).
Proof.
  intros Hc Hlk Hl. unfold waits_on_holder. simpl. rewrite lookup_alter_eq, Hc. simpl.
  apply Z.eqb_neq in Hl as ->. by rewrite Hlk.
Qed.

Lemma set_waiting_prio k t l x : prio_of (set_waiting t l k) x = prio_of k x.
Proof.
  apply prio_of_ext. simpl. destruct (decide (x = t)) as [->|]; [|by rewrite lookup_alter_ne].
  rewrite lookup_alter_eq. by destruct (threads k !! t).
Qed.

(** C5: [lock_acquire], run without an interrupt up to its [sema_down],
    gives the caller's priority to exactly the threads that the donation
    reaches, and changes no other priority: the holder of the lock, the holder
    of the lock that this one waits for, and so on, up to the first that has at
    least this priority and for at most 8 rounds; nobody with the
    multi-level feedback queue scheduler.  The caller is then registered as a
    donor of the lock's holder, which has at least its priority. *)
Theorem lock_acquire_donates k c l lk :
  at_client k c → client_ok k (Lock_acquire l) → locks k !! l = Some lk →
  ∃ k', executes (program (Lock_acquire l)) k k' ∧ lock_acquire l k = Some k' ∧ Inv k' ∧
    (∀ t, prio_of k' t =
       if negb (thread_mlfqs k) && bool_decide (t ∈ donees (set_waiting (current k) l k) 8
                                                 (prio_of k (current k)) (current k))
       then prio_of k (current k) else prio_of k t) ∧
    (thread_mlfqs k = false → ∀ hd, threads k !! holder lk = Some hd →
     ∃ hd', threads k' !! holder lk = Some hd' ∧ donations hd' = donations hd ++ [current k] ∧
            prio_of k (current k) <= priority hd').
Proof.
  intros A Hok Hlk. destruct (client_exec_ok _ _ _ A Hok) as (k' & Hk' & I'). simpl in Hk'.
  exists k'. split; [by apply lock_acquire_runs|]. split; [done|]. split; [done|].
  pose proof A as (I & Hc & _). pose proof (inv_wf _ I) as W. wf_open W.
  destruct (wlock _ _ Hlk) as (Hl & _). pose proof (lock_acquire_shape _ _ _ _ _ Hc Hlk Hk') as Hs.
  destruct (negb _ && negb _) eqn:Eb in Hs.
  - destruct Hs as (Hne & hd & Hhd & Hd). bool_simp.
    destruct (registered_donees k _ _ _ _ l 8 (prio_of k (current k)) Hc Hhd Hne) as [Hdn Hpr].
    pose proof (donate_priority_exact _ _ _ _ Hd) as Hx. rewrite Hpr, Hdn in Hx. split.
    + intros t. rewrite Hx, Hpr. match goal with H : thread_mlfqs k = false |- _ => rewrite H end.
      simpl negb. rewrite andb_true_l. by case_bool_decide; case_decide.
    + intros _ hd0 Hhd0. rewrite Hhd in Hhd0. injection Hhd0 as <-.
      destruct (registered_after _ _ _ _ _ _ _ _ Hc Hhd Hne Hd) as (hd' & Hhd' & Hdon).
      exists hd'. split_and!; [done|done|].
      replace (priority hd') with (prio_of k' (holder lk)) by (unfold prio_of; by rewrite Hhd').
      rewrite Hx, Hpr. case_decide as Hin; [lia|].
      destruct (Z.le_gt_cases (prio_of k (current k)) (prio_of k (holder lk))) as [|Hlt]; [done|].
      destruct Hin. cbn [donees]. rewrite (set_waiting_holder _ _ _ _ _ Hc Hlk Hl).
      rewrite (proj2 (Z.eqb_neq _ _)) by done. cbv iota beta.
      rewrite set_waiting_prio, (proj2 (Z.ltb_lt _ _)) by done. by left.
  - unfold push_frames in Hs. rewrite (on_thread_Some _ _ _ _ Hc) in Hs. injection Hs as <-.
    split.
    + intros t. erewrite (prio_of_insert k _ (current k) c) by done.
      destruct (thread_mlfqs k); [done|]. apply negb_false_iff in Eb.
      rewrite andb_true_l, bool_decide_false; [done|].
      cbn [donees]. rewrite (set_waiting_holder _ _ _ _ _ Hc Hlk Hl), Eb. apply not_elem_of_nil.
    + intros Hm hd Hhd. rewrite Hm in Eb. apply negb_false_iff, Z.eqb_eq in Eb. destruct (wthread _ _ Hhd) as [Hn _].
      by destruct Hn.
Qed.

(** A thread of priority 32 runs while [main], of priority 31, holds the lock. *)
Definition lock_held : list action :=
  [Call (Lock_init 1000); Call (Lock_acquire 1000); Run; Run;
   Call (Thread_create "t1" 32 12288 [Client])] ++ repeat Run 9.

Lemma lock_acquire_donates_witness :
  ∃ k k', acts lock_held booted = Some k ∧ lock_acquire 1000 k = Some k' ∧
    prio_of k 4096 = 31 ∧ prio_of k' 4096 = 32.
Proof.
  destruct (acts lock_held booted) as [k|] eqn:E; [|vm_compute in E; discriminate].
  pose proof (steps_Inv _ _ booted_Inv (acts_steps _ _ _ E)) as I.
  assert (H : ∃ c, threads k !! current k = Some c ∧ head (code c) = Some Client ∧
    bool_decide (client_ok k (Lock_acquire 1000)) = true ∧
    locks k !! 1000 = Some (Lock 4096) ∧ prio_of k 4096 = 31 ∧
    (if negb (thread_mlfqs k) && bool_decide (4096 ∈ donees (set_waiting (current k) 1000 k) 8
        (prio_of k (current k)) (current k))
     then prio_of k (current k) else prio_of k 4096) = 32).
  { clear I. vm_compute in E. injection E as <-. eexists.
    split; [vm_compute; reflexivity|]. split; [vm_compute; reflexivity|].
    split; [vm_compute; reflexivity|]. split; [vm_compute; reflexivity|].
    split; vm_compute; reflexivity. }
  clear E. destruct H as (c & Hc & Hh & Hok & Hl & Hp & Hp'). exists k.
  destruct (lock_acquire_donates k c 1000 (Lock 4096)) as (k' & _ & Hk' & _ & Hd & _).
  - split; [exact I|]. split; [exact Hc|exact Hh].
  - exact (bool_decide_eq_true_1 _ Hok).
  - exact Hl.
  - exists k'. split; [reflexivity|]. split; [exact Hk'|]. split; [exact Hp|].
    rewrite (Hd 4096). exact Hp'.
Defined.

(** ** Dropping donations *)

Lemma foldl_max (f : Z → Z) b l :
  let m := foldl (λ max d, if max <? f d then f d else max) b l in
  b <= m ∧ (∀ d, d ∈ l → f d <= m) ∧ (m = b ∨ ∃ d, d ∈ l ∧ m = f d).
Proof.
  simpl. revert b. induction l as [|x l IH]; intros b; simpl.
  - split_and!; [lia|set_solver|by left].
  - set (b' := if b <? f x then f x else b).
    assert (Hb : b <= b' ∧ f x <= b' ∧ (b' = b ∨ b' = f x)).
    { subst b'. destruct (Z.ltb_spec b (f x)); lia. }
    clearbody b'. destruct (IH b') as (H1 & H2 & H3). split_and!.
    + lia.
    + intros d [->|Hd]%elem_of_cons; [lia|by apply H2].
    + destruct H3 as [->|(d & Hd & ->)]; [|right; exists d; set_solver].
      destruct Hb as (_ & _ & [->| ->]); [by left|right; exists x; set_solver].
Qed.

(** C29: [lock_release] drops the donations of the threads that wait for
    the released lock and sets the caller's priority to the maximum of its base
    priority and the priorities of the donors that remain. *)
Theorem lock_release_priority k c l :
  at_client k c → l ∈ held_by (locks k) (current k) → thread_mlfqs k = false →
  ∃ k' c', lock_release l k = Some k' ∧ threads k' !! current k = Some c' ∧
    donations c' = filter (λ d, waits_for k l d = false) (donations c) ∧
    base_priority c' = base_priority c ∧
    base_priority c <= priority c' ∧
    (∀ d, d ∈ donations c' → prio_of k d <= priority c') ∧
    (priority c' = base_priority c ∨ ∃ d, d ∈ donations c' ∧ priority c' = prio_of k d).
Proof.
  intros A Hl Hm. pose proof A as (I & Hc & _). pose proof (Inv_running _ _ I Hc) as Hst.
  apply elem_of_held_by in Hl as (lk & Hlk & Hh). pose proof (inv_wf _ I) as W. wf_open W.
  destruct (wlock _ _ Hlk) as (Hln & _). destruct (wthread _ _ Hc) as (Hn & Hmg & _).
  unfold lock_release. apply Z.eqb_neq in Hln as Hln'. rewrite Hln'. simpl.
  erewrite lock_held_eq by done. simpl. rewrite Hh, Z.eqb_refl. simpl.
  erewrite thread_current_Some by done. simpl. unfold on_lock; simpl. rewrite Hlk. simpl.
  unfold push_frames. erewrite on_thread_Some by exact Hc. simpl. rewrite Hm. simpl.
  unfold remove_donations_for_lock, update_priority_after_release, thread_get_effective_priority.
  erewrite on_thread_Some by (simpl; apply lookup_insert_eq). simpl.
  rewrite lookup_insert_eq. simpl.
  erewrite on_thread_Some by (simpl; apply lookup_insert_eq). do 2 eexists.
  split; [reflexivity|]. simpl. split; [apply lookup_insert_eq|]. simpl.
  assert (Hw : ∀ d, waits_for k l d = false ↔ waits_for (k <| threads ::= insert (current k)
      (c <| code ::= cons (Sema_up (lock_sema l)) |>) |>) l d = false).
  { intros d. unfold waits_for. simpl. destruct (decide (d = current k)) as [->|];
      [by rewrite lookup_insert_eq, Hc|by rewrite lookup_insert_ne]. }
  split; [apply list_filter_iff; intros d; symmetry; apply Hw|]. split; [done|].
  match goal with |- context [foldl (λ max d, if max <? prio_of ?K d then _ else _) ?b ?l'] =>
    pose proof (foldl_max (prio_of K) b l') as Hf;
    assert (Hp : ∀ d, prio_of K d = prio_of k d) end.
  { intros d. eapply prio_of_insert; [simpl; by rewrite insert_insert_eq|exact Hc|done]. }
  simpl in Hf. destruct Hf as (H1 & H2 & H3). split_and!; [done|..].
  - intros d Hd. rewrite <-Hp. by apply H2.
  - destruct H3 as [H3|(d & Hd & H3)]; [by left|]. right. exists d. by rewrite <-Hp.
Qed.

Lemma lock_release_priority_witness :
  ∃ k k', acts [Call (Lock_init 1000); Call (Lock_acquire 1000); Run; Run] booted = Some k ∧
          lock_release 1000 k = Some k'.
Proof.
  destruct (acts _ booted) as [k|] eqn:E; [|vm_compute in E; discriminate].
  pose proof (steps_Inv _ _ booted_Inv (acts_steps _ _ _ E)) as I.
  assert (H : ∃ c, threads k !! current k = Some c ∧ head (code c) = Some Client ∧
    bool_decide (1000 ∈ held_by (locks k) (current k)) = true ∧ thread_mlfqs k = false).
  { clear I. vm_compute in E. injection E as <-. eexists.
    split; [vm_compute; reflexivity|]. split; [vm_compute; reflexivity|].
    split; vm_compute; reflexivity. }
  clear E. destruct H as (c & Hc & Hh & Hl & Hm). exists k.
  destruct (lock_release_priority k c 1000) as (k' & c' & Hk' & _).
  - split; [exact I|]. split; [exact Hc|exact Hh].
  - exact (bool_decide_eq_true_1 _ Hl).
  - exact Hm.
  - exists k'. split; [reflexivity|exact Hk'].
Defined.

(** ** A gap in [cond_signal] *)

(** Two threads wait on a condition variable, one of them between the release
    of the lock and its [sema_down]; a third one takes the lock. *)
Definition half_asleep : list action :=
  [Call (Lock_init 1000); Call (Cond_init 1100);
   Call (Thread_create "t1" 32 12288 [Client])] ++ repeat Run 9 ++
  [Call (Lock_acquire 1000); Run; Run; Call (Cond_wait 1100 1000 1200)] ++ repeat Run 5 ++
  [Call (Lock_acquire 1000); Run; Run; Call (Thread_create "t2" 33 16384 [Client])] ++
  repeat Run 9 ++
  [Call (Lock_acquire 1000); Run; Run; Call (Cond_wait 1100 1000 1300)] ++ repeat Run 5.

(** C40: There is an execution in which [cond_signal], called as documented
    with the lock held, compares a waiter that has queued itself but is not
    asleep yet: [cond_priority_greater] then reads a thread from an empty list of
    waiters. *)
Theorem cond_signal_reads_garbage :
  ∃ k ws, rtc step booted k ∧ conds k !! 1100 = Some ws ∧
    lock_held_by_current_thread 1000 k = Some true ∧
    cond_waiter_thread k 1300 = None ∧ 1300 ∈ ws ∧
    cond_signal 1100 1000 k = None.
Proof.
  destruct (acts half_asleep booted) as [k|] eqn:E; [|vm_compute in E; discriminate].
  exists k, [1200; 1300]. split; [exact (acts_steps _ _ _ E)|].
  vm_compute in E. injection E as <-.
  split; [vm_compute; reflexivity|]. split; [vm_compute; reflexivity|].
  split; [vm_compute; reflexivity|]. split; [right; left|]. vm_compute. reflexivity.
Qed.
