(* ===== verification/Machine.v ===== *)
(** * Machine integers and addresses ([lib/round.h], [threads/vaddr.h])

    An [unsigned], a [size_t] or an address is a [Z] reduced modulo [2 ^ 32];
    [u32] is written where the code's arithmetic can leave that range.  The
    file also has the page arithmetic of [threads/vaddr.h]. *)

From S2P Require Import Prelude.

Open Scope Z_scope.

Definition u32 (x : Z) : Z := x mod 2 ^ 32.

(** [x] is representable in an unsigned 32-bit word. *)
Definition is_u32 (x : Z) : Prop := 0 ≤ x < 2 ^ 32.

Definition ROUND_UP (x step : Z) : Z := u32 (u32 (x + step - 1) / step * step).
Definition DIV_ROUND_UP (x step : Z) : Z := u32 (x + step - 1) / step.

Definition BITMASK (shift cnt : Z) : Z :=
  u32 (Z.shiftl (Z.shiftl 1 cnt - 1) shift).
Definition PGSHIFT : Z := 0.
Definition PGBITS : Z := 12.
Definition PGSIZE : Z := Z.shiftl 1 PGBITS.
Definition PGMASK : Z := BITMASK PGSHIFT PGBITS.

(** [~x] on 32 bits. *)
Definition not32 (x : Z) : Z := 2 ^ 32 - 1 - x.

Definition pg_ofs (va : Z) : Z := Z.land va PGMASK.
Definition pg_no (va : Z) : Z := Z.shiftr va PGBITS.
Definition pg_round_up (va : Z) : Z := Z.land (u32 (va + PGSIZE - 1)) (not32 PGMASK).
Definition pg_round_down (va : Z) : Z := Z.land va (not32 PGMASK).

(** [LOADER_PHYS_BASE] of [threads/loader.h]. *)
Definition PHYS_BASE : Z := 3221225472.

Definition is_user_vaddr (vaddr : Z) : bool := vaddr <? PHYS_BASE.
Definition is_kernel_vaddr (vaddr : Z) : bool := PHYS_BASE <=? vaddr.

Definition ptov (paddr : Z) : option Z :=
  assert! paddr <? PHYS_BASE;
  Some (u32 (paddr + PHYS_BASE)).

Definition vtop (vaddr : Z) : option Z :=
  assert! is_kernel_vaddr vaddr;
  Some (vaddr - PHYS_BASE).

Lemma u32_small x : is_u32 x → u32 x = x.
Proof. intros. by apply Z.mod_small. Qed.

Lemma u32_range x : is_u32 (u32 x).
Proof. by apply Z.mod_pos_bound. Qed.

Lemma pg_ofs_eq va : pg_ofs va = va mod 4096.
Proof. unfold pg_ofs. change PGMASK with (Z.ones 12). by rewrite Z.land_ones. Qed.

Lemma pg_no_eq va : pg_no va = va / 4096.
Proof. unfold pg_no. change PGBITS with 12. by rewrite Z.shiftr_div_pow2. Qed.

Lemma testbit_high x i : is_u32 x → 32 ≤ i → Z.testbit x i = false.
Proof.
  intros [Hx Hx'] Hi. rewrite <-(Z.mod_small x (2 ^ 32)) by lia.
  by apply Z.mod_pow2_bits_high.
Qed.

Lemma land_not_ones x n :
  is_u32 x → 0 ≤ n < 32 → Z.land x (not32 (Z.ones n)) = x - x mod 2 ^ n.
Proof.
  intros Hx Hn.
  assert (Z.land x (not32 (Z.ones n)) = Z.ldiff x (Z.ones n)) as ->.
  { apply Z.bits_inj'. intros i Hi. rewrite Z.land_spec, Z.ldiff_spec.
    unfold not32.
    destruct (decide (i < 32)).
    - f_equal. replace (2 ^ 32 - 1 - Z.ones n) with (Z.ldiff (Z.ones 32) (Z.ones n)).
      + rewrite Z.ldiff_spec, Z.ones_spec_low by lia. done.
      + rewrite <-Z.sub_nocarry_ldiff; [done|].
        apply Z.bits_inj'. intros j Hj. rewrite Z.ldiff_spec, Z.bits_0.
        destruct (decide (j < n)).
        * rewrite !Z.ones_spec_low by lia. done.
        * rewrite (Z.ones_spec_high n) by lia. done.
    - by rewrite (testbit_high x) by (done || lia). }
  rewrite Z.ldiff_ones_r, Z.shiftr_div_pow2, Z.shiftl_mul_pow2 by lia.
  pose proof (Z.div_mod x (2 ^ n)). lia.
Qed.

Lemma pg_round_down_eq va : is_u32 va → pg_round_down va = va - va mod 4096.
Proof. intros. by apply (land_not_ones va 12). Qed.

Lemma vtop_ptov paddr :
  0 ≤ paddr < 2 ^ 32 - PHYS_BASE → (ptov paddr ≫= vtop) = Some paddr.
Proof.
  intros H. unfold ptov. run_assert; [|unfold PHYS_BASE in *; apply Z.ltb_lt; lia].
  unfold vtop, is_kernel_vaddr. rewrite u32_small by (unfold is_u32, PHYS_BASE in *; lia).
  run_assert; [f_equal; lia|apply Z.leb_le; lia].
Qed.

(** Bits put beside each other. *)
Lemma lor_low n p f : 0 ≤ n → p mod 2 ^ n = 0 → 0 ≤ f < 2 ^ n → Z.lor p f = p + f.
Proof.
  intros Hn Hp Hf. assert (Z.land p f = 0) as E; [|pose proof (Z.add_lor_land p f); lia].
  apply Z.bits_inj'. intros i Hi. rewrite Z.land_spec, Z.bits_0.
  destruct (decide (i < n)).
  - rewrite <-(Z.mod_pow2_bits_low p n) by lia. by rewrite Hp, Z.bits_0.
  - rewrite <-(Z.mod_small f (2 ^ n)) by lia.
    by rewrite (Z.mod_pow2_bits_high f), andb_false_r by lia.
Qed.

Lemma lor_shiftl n a b : 0 ≤ n → 0 ≤ b < 2 ^ n → Z.lor (Z.shiftl a n) b = a * 2 ^ n + b.
Proof.
  intros Hn Hb. rewrite Z.shiftl_mul_pow2 by done. apply (lor_low n); [done| |done].
  apply Z.mod_mul. lia.
Qed.
