(* ===== verification/Bytes.v ===== *)
(** * Byte sequences

    Memory buffers and disk sectors are lists of bytes.  [slice] is what
    [memcpy] reads and [splice] what it writes; [le] and [enc32] are the
    little-endian representation of integers in memory and on disk. *)

From S2P Require Import Prelude Machine.

Open Scope Z_scope.

Definition is_byte (x : Z) : Prop := 0 ≤ x < 256.

(** The little-endian integer in [bs]. *)
Fixpoint le (bs : list Z) : Z :=
  match bs with
  | [] => 0
  | b :: bs => b + 256 * le bs
  end.

(** The four bytes of the 32-bit integer [x]. *)
Definition enc32 (x : Z) : list Z :=
  [x mod 256; x / 2 ^ 8 mod 256; x / 2 ^ 16 mod 256; x / 2 ^ 24 mod 256].

(** The [len] bytes from [ofs] on. *)
Definition slice (ofs len : nat) (bs : list Z) : list Z := take len (drop ofs bs).

(** [bs] with the bytes from [ofs] on replaced by [c]. *)
Definition splice (ofs : nat) (c bs : list Z) : list Z :=
  take ofs bs ++ c ++ drop (ofs + length c) bs.

Lemma le_bound bs : Forall is_byte bs → 0 ≤ le bs < 256 ^ Z.of_nat (length bs).
Proof.
  induction 1 as [|b bs Hb _ IH]; cbn [le length]; [lia|].
  rewrite Nat2Z.inj_succ, Z.pow_succ_r by lia. unfold is_byte in Hb. nia.
Qed.

Lemma le_enc32 x : is_u32 x → le (enc32 x) = x.
Proof.
  intros H. unfold is_u32 in H. cbn [le enc32].
  change (2 ^ 8) with 256. change (2 ^ 16) with 65536. change (2 ^ 24) with 16777216.
  change (2 ^ 32) with 4294967296 in H. Z.to_euclidean_division_equations; lia.
Qed.

Lemma enc32_bytes x : Forall is_byte (enc32 x).
Proof. repeat constructor; by apply Z.mod_pos_bound. Qed.

(** ** Slices *)

Lemma length_slice o n bs : (o + n ≤ length bs)%nat → length (slice o n bs) = n.
Proof. intros. unfold slice. rewrite length_take, length_drop. lia. Qed.

Lemma slice_bytes o n bs : Forall is_byte bs → Forall is_byte (slice o n bs).
Proof. intros. by apply Forall_take, Forall_drop. Qed.

Lemma slice_app o n m bs : slice o n bs ++ slice (o + n) m bs = slice o (n + m) bs.
Proof. unfold slice. by rewrite <-drop_drop, take_take_drop. Qed.

Lemma slice_full bs : slice 0 (length bs) bs = bs.
Proof. unfold slice. rewrite drop_0. by apply take_ge. Qed.

Lemma lookup_slice o n bs i : (i < n)%nat → slice o n bs !! i = bs !! (o + i)%nat.
Proof. intros. unfold slice. by rewrite lookup_take_lt, lookup_drop. Qed.

Lemma slice_slice o n o' n' bs : (o' + n' ≤ n)%nat →
  slice o' n' (slice o n bs) = slice (o + o') n' bs.
Proof.
  intros. unfold slice. rewrite <-drop_drop.
  rewrite (take_drop_commute (take n _)), take_take, Nat.min_l by lia.
  by rewrite <-take_drop_commute.
Qed.

(** ** Splices *)

Lemma length_splice o c bs : (o + length c ≤ length bs)%nat → length (splice o c bs) = length bs.
Proof. intros. unfold splice. rewrite !length_app, length_take, length_drop. lia. Qed.

Lemma splice_bytes o c bs : Forall is_byte c → Forall is_byte bs → Forall is_byte (splice o c bs).
Proof. intros. repeat apply Forall_app_2; [by apply Forall_take|done|by apply Forall_drop]. Qed.

Lemma lookup_splice o c bs i : (o + length c ≤ length bs)%nat →
  splice o c bs !! i =
    if decide (o ≤ i < o + length c)%nat then c !! (i - o)%nat else bs !! i.
Proof.
  intros H. unfold splice. assert (length (take o bs) = o) as L by (rewrite length_take; lia).
  destruct (decide (i < o)%nat).
  - rewrite decide_False by lia. rewrite lookup_app_l by lia. by apply lookup_take_lt.
  - rewrite lookup_app_r, L by lia. case_decide.
    + apply lookup_app_l. lia.
    + rewrite lookup_app_r, lookup_drop by lia. f_equal. lia.
Qed.

Lemma splice_app o c1 c2 bs : (o + length c1 + length c2 ≤ length bs)%nat →
  splice (o + length c1) c2 (splice o c1 bs) = splice o (c1 ++ c2) bs.
Proof.
  intros H. apply list_eq. intros i.
  rewrite !lookup_splice; rewrite ?length_splice, ?length_app; try lia.
  repeat case_decide; try lia; try done.
  - rewrite lookup_app_r by lia. f_equal. lia.
  - rewrite lookup_app_l by lia. done.
Qed.

Lemma splice_nil o bs : splice o [] bs = bs.
Proof. unfold splice. simpl. rewrite Nat.add_0_r. apply take_drop. Qed.

(** What was written is read back. *)
Lemma slice_splice o c bs : (o + length c ≤ length bs)%nat →
  slice o (length c) (splice o c bs) = c.
Proof.
  intros. apply list_eq. intros i. destruct (decide (i < length c)%nat).
  - rewrite lookup_slice, lookup_splice, decide_True by lia. f_equal. lia.
  - rewrite !lookup_ge_None_2; [done|lia|]. rewrite length_slice; [lia|].
    rewrite length_splice; lia.
Qed.

(** The bytes outside what was written are read as before. *)
Lemma slice_splice_ne o c bs o' n : (o + length c ≤ length bs)%nat →
  (o' + n ≤ o ∨ o + length c ≤ o')%nat → slice o' n (splice o c bs) = slice o' n bs.
Proof.
  intros Hl Hd. apply list_eq. intros i. destruct (decide (i < n)%nat).
  - rewrite !lookup_slice, lookup_splice, decide_False by lia. done.
  - rewrite !lookup_ge_None_2; [done| |]; unfold slice; rewrite length_take; lia.
Qed.

(** Reading around what was written. *)
Lemma slice_splice_in o c bs o' n : (o' ≤ o)%nat → (o + length c ≤ o' + n)%nat →
  (o' + n ≤ length bs)%nat →
  slice o' n (splice o c bs) = splice (o - o') c (slice o' n bs).
Proof.
  intros H1 H2 H3. apply list_eq. intros i.
  rewrite lookup_splice by (rewrite length_slice; lia).
  destruct (decide (i < n)%nat).
  - rewrite !lookup_slice, lookup_splice by lia.
    repeat case_decide; try lia; [f_equal; lia|done].
  - rewrite decide_False by lia.
    rewrite !lookup_ge_None_2; [done| |]; unfold slice; rewrite length_take; lia.
Qed.

(** ** Sectors of equal length *)

Section flat.

Context (w : nat).
Implicit Type ss : list (list Z).

Definition uniform ss : Prop := Forall (λ s, length s = w) ss.

Lemma length_flat ss : uniform ss → length (concat ss) = (w * length ss)%nat.
Proof.
  induction 1 as [|x l Hx Hl IH]; simpl; [lia|]. rewrite length_app, IH. lia.
Qed.

Lemma drop_flat ss s : uniform ss → (s ≤ length ss)%nat →
  drop (w * s) (concat ss) = concat (drop s ss).
Proof.
  intros Hw. revert s. induction Hw as [|x l Hx Hl IH]; intros s Hs; simpl in *.
  - by rewrite !drop_nil.
  - destruct s as [|s]; [by rewrite Nat.mul_0_r|].
    rewrite drop_app_ge by lia. replace (w * S s - length x)%nat with (w * s)%nat by lia.
    apply IH. lia.
Qed.

Lemma take_flat ss s : uniform ss → (s ≤ length ss)%nat →
  take (w * s) (concat ss) = concat (take s ss).
Proof.
  intros Hw. revert s. induction Hw as [|x l Hx Hl IH]; intros s Hs; simpl in *.
  - by rewrite take_nil, (take_nil s).
  - destruct s as [|s]; [by rewrite Nat.mul_0_r|].
    rewrite take_app_ge by lia. replace (w * S s - length x)%nat with (w * s)%nat by lia.
    simpl. f_equal. apply IH. lia.
Qed.

(** Part of one sector. *)
Lemma slice_flat ss s c o n : uniform ss → ss !! s = Some c → (o + n ≤ w)%nat →
  slice (w * s + o) n (concat ss) = slice o n c.
Proof.
  intros Hw E Ho. pose proof (lookup_lt_Some _ _ _ E) as L.
  assert (length c = w) as Lc by (by apply (Forall_lookup_1 _ _ _ _ Hw E)).
  unfold slice. rewrite <-drop_drop, drop_flat by (done || lia).
  rewrite (drop_S _ _ _ E). simpl. rewrite drop_app_le by lia.
  apply take_app_le. rewrite length_drop. lia.
Qed.

(** Replacing one sector. *)
Lemma splice_flat ss s c : uniform ss → (s < length ss)%nat → length c = w →
  concat (<[s := c]> ss) = splice (w * s) c (concat ss).
Proof.
  intros Hw L Lc. rewrite insert_take_drop by done. rewrite concat_app. cbn [concat].
  unfold splice. rewrite take_flat by (done || lia). rewrite Lc.
  replace (w * s + w)%nat with (w * S s)%nat by lia. by rewrite drop_flat by (done || lia).
Qed.

(** Replacing part of one sector. *)
Lemma splice_flat_part ss s old o c : uniform ss →
  ss !! s = Some old → (o + length c ≤ w)%nat →
  concat (<[s := splice o c old]> ss) = splice (w * s + o) c (concat ss).
Proof.
  intros Hw E Ho. pose proof (lookup_lt_Some _ _ _ E) as L.
  assert (length old = w) as Lo by (by apply (Forall_lookup_1 _ _ _ _ Hw E)).
  assert (w * S s ≤ length (concat ss))%nat as Lf by (rewrite length_flat by done; nia).
  rewrite splice_flat by (done || rewrite length_splice; lia).
  apply list_eq. intros i. rewrite !lookup_splice; rewrite ?length_splice; try lia.
  repeat case_decide; try lia; try done.
  - f_equal. lia.
  - replace i with (w * s + (i - w * s))%nat at 2 by lia.
    rewrite <-(lookup_slice (w * s) w (concat ss)) by lia.
    replace (slice (w * s) w (concat ss)) with old; [done|].
    rewrite <-(Nat.add_0_r (w * s)), (slice_flat ss s old 0 w) by (done || lia).
    by rewrite <-Lo, slice_full.
Qed.
End flat.
