(* ===== verification/Bitmap.v ===== *)
(** * Bitmaps ([lib/kernel/bitmap.c])

    A bitmap is a bit count and the array of 32-bit elements that hold the
    bits.  An access outside the array is [None], as is a failed assertion.
    [bit b i] is the bit numbered [i]; the lemmas describe each operation by
    what it does to the bits, and [wf] is the invariant on the array. *)

From S2P Require Import Prelude Machine.

Open Scope Z_scope.

Definition ELEM_BITS : Z := 4 * 8.
(** [BITMAP_ERROR] of [bitmap.h], [SIZE_MAX]. *)
Definition BITMAP_ERROR : Z := 2 ^ 32 - 1.

Record bitmap := mk_bitmap {
  bit_cnt : Z;
  bits : list Z;
}.
#[export] Instance bitmap_ctor : Ctor bitmap := λ b, mk_bitmap (bit_cnt b) (bits b).

Definition elem_idx (bit_idx : Z) : Z := bit_idx / ELEM_BITS.
Definition bit_mask (bit_idx : Z) : Z := u32 (Z.shiftl 1 (bit_idx mod ELEM_BITS)).
Definition elem_cnt (cnt : Z) : Z := DIV_ROUND_UP cnt ELEM_BITS.
Definition byte_cnt (cnt : Z) : Z := u32 (4 * elem_cnt cnt).

Definition last_mask (b : bitmap) : Z :=
  let last_bits := bit_cnt b mod ELEM_BITS in
  if last_bits =? 0 then 2 ^ 32 - 1 else u32 (Z.shiftl 1 last_bits) - 1.

Definition bitmap_buf_size (cnt : Z) : Z := u32 (8 + byte_cnt cnt).
Definition bitmap_size (b : bitmap) : Z := bit_cnt b.

(** One instruction that changes the element [b->bits[idx]]. *)
Definition update_elem (b : bitmap) (idx : Z) (f : Z → Z) : option bitmap :=
  w ← bits b !! Z.to_nat idx;
  Some (b <| bits := <[Z.to_nat idx := f w]> (bits b) |>).

Definition bitmap_mark (b : bitmap) (bit_idx : Z) : option bitmap :=
  update_elem b (elem_idx bit_idx) (λ w, Z.lor w (bit_mask bit_idx)).

Definition bitmap_reset (b : bitmap) (bit_idx : Z) : option bitmap :=
  update_elem b (elem_idx bit_idx) (λ w, Z.land w (not32 (bit_mask bit_idx))).

Definition bitmap_flip (b : bitmap) (bit_idx : Z) : option bitmap :=
  update_elem b (elem_idx bit_idx) (λ w, Z.lxor w (bit_mask bit_idx)).

Definition bitmap_set (b : bitmap) (idx : Z) (value : bool) : option bitmap :=
  assert! idx <? bit_cnt b;
  if value then bitmap_mark b idx else bitmap_reset b idx.

Definition bitmap_test (b : bitmap) (idx : Z) : option bool :=
  assert! idx <? bit_cnt b;
  w ← bits b !! Z.to_nat (elem_idx idx);
  Some (negb (Z.land w (bit_mask idx) =? 0)).

(** The loop of [bitmap_set_multiple] from [i] on, with [n] iterations left. *)
Fixpoint bitmap_set_loop (n : nat) (b : bitmap) (start i : Z) (value : bool) : option bitmap :=
  match n with
  | O => Some b
  | S n =>
      b' ← bitmap_set b (u32 (start + i)) value;
      bitmap_set_loop n b' start (i + 1) value
  end.

Definition bitmap_set_multiple (b : bitmap) (start cnt : Z) (value : bool) : option bitmap :=
  assert! start <=? bit_cnt b;
  assert! u32 (start + cnt) <=? bit_cnt b;
  bitmap_set_loop (Z.to_nat cnt) b start 0 value.

Definition bitmap_set_all (b : bitmap) (value : bool) : option bitmap :=
  bitmap_set_multiple b 0 (bitmap_size b) value.

Fixpoint bitmap_count_loop (n : nat) (b : bitmap) (start i : Z) (value : bool)
    (value_cnt : Z) : option Z :=
  match n with
  | O => Some value_cnt
  | S n =>
      t ← bitmap_test b (u32 (start + i));
      bitmap_count_loop n b start (i + 1) value
        (if eqb t value then value_cnt + 1 else value_cnt)
  end.

Definition bitmap_count (b : bitmap) (start cnt : Z) (value : bool) : option Z :=
  assert! start <=? bit_cnt b;
  assert! u32 (start + cnt) <=? bit_cnt b;
  bitmap_count_loop (Z.to_nat cnt) b start 0 value 0.

Fixpoint bitmap_contains_loop (n : nat) (b : bitmap) (start i : Z) (value : bool) : option bool :=
  match n with
  | O => Some false
  | S n =>
      t ← bitmap_test b (u32 (start + i));
      if eqb t value then Some true else bitmap_contains_loop n b start (i + 1) value
  end.

Definition bitmap_contains (b : bitmap) (start cnt : Z) (value : bool) : option bool :=
  assert! start <=? bit_cnt b;
  assert! u32 (start + cnt) <=? bit_cnt b;
  bitmap_contains_loop (Z.to_nat cnt) b start 0 value.

Definition bitmap_any (b : bitmap) (start cnt : Z) : option bool :=
  bitmap_contains b start cnt true.
Definition bitmap_none (b : bitmap) (start cnt : Z) : option bool :=
  r ← bitmap_contains b start cnt true; Some (negb r).
Definition bitmap_all (b : bitmap) (start cnt : Z) : option bool :=
  r ← bitmap_contains b start cnt false; Some (negb r).

(** The loop of [bitmap_scan] from [i] on, with [n] iterations left. *)
Fixpoint bitmap_scan_loop (n : nat) (b : bitmap) (i cnt : Z) (value : bool) : option Z :=
  match n with
  | O => Some BITMAP_ERROR
  | S n =>
      c ← bitmap_contains b i cnt (negb value);
      if negb c then Some i else bitmap_scan_loop n b (i + 1) cnt value
  end.

Definition bitmap_scan (b : bitmap) (start cnt : Z) (value : bool) : option Z :=
  assert! start <=? bit_cnt b;
  if cnt <=? bit_cnt b then
    let last := bit_cnt b - cnt in
    bitmap_scan_loop (Z.to_nat (last + 1 - start)) b start cnt value
  else Some BITMAP_ERROR.

Definition bitmap_scan_and_flip (b : bitmap) (start cnt : Z) (value : bool) :
    option (bitmap * Z) :=
  idx ← bitmap_scan b start cnt value;
  if negb (idx =? BITMAP_ERROR) then
    b' ← bitmap_set_multiple b idx cnt (negb value);
    Some (b', idx)
  else Some (b, idx).

(** [bitmap_create]: [b_ok] and [block] are the results of the two calls of
    [malloc]; [block] has the elements of the new storage, whose contents are
    arbitrary. *)
Definition bitmap_create (b_ok : bool) (block : option (list Z)) (cnt : Z) :
    option (option bitmap) :=
  if b_ok then
    match block with
    | Some ws => b ← bitmap_set_all (mk_bitmap cnt ws) false; Some (Some b)
    | None =>
        if cnt =? 0 then b ← bitmap_set_all (mk_bitmap cnt []) false; Some (Some b)
        else Some None
    end
  else Some None.

(** [bitmap_create_in_buf]: [block] has the elements that follow the header in
    the [block_size] bytes of storage. *)
Definition bitmap_create_in_buf (cnt : Z) (block : list Z) (block_size : Z) : option bitmap :=
  assert! bitmap_buf_size cnt <=? block_size;
  bitmap_set_all (mk_bitmap cnt block) false.

(** ** Specification *)

(** The bit numbered [i]. *)
Definition bit (b : bitmap) (i : Z) : bool :=
  Z.testbit (bits b !!! Z.to_nat (i / 32)) (i mod 32).

(** The array holds enough elements for the bits, each a 32-bit word. *)
Record wf (b : bitmap) : Prop := {
  wf_cnt : is_u32 (bit_cnt b);
  wf_len : bit_cnt b ≤ 32 * Z.of_nat (length (bits b));
  wf_words : Forall is_u32 (bits b);
}.

(** [b'] has the bits of [b] but those of [P], which are given by [v]. *)
Definition agrees (b b' : bitmap) (P : Z → bool) (v : Z → bool) : Prop :=
  wf b' ∧ bit_cnt b' = bit_cnt b ∧ length (bits b') = length (bits b) ∧
  ∀ i, 0 ≤ i → bit b' i = if P i then v i else bit b i.

(** Every bit of [start .. start + cnt - 1] has the value [v]. *)
Definition bit_run (b : bitmap) (start cnt : Z) (v : bool) : Prop :=
  ∀ i, start ≤ i < start + cnt → bit b i = v.

Definition in_range (start cnt i : Z) : bool := (start <=? i) && (i <? start + cnt).

(** ** Elements *)

Lemma testbit_pow2 n i : 0 ≤ n → Z.testbit (Z.shiftl 1 n) i = bool_decide (i = n).
Proof.
  intros. rewrite Z.shiftl_1_l, Z.pow2_bits_eqb by done.
  destruct (Z.eqb_spec n i); case_bool_decide; congruence.
Qed.

Lemma bit_mask_eq i : bit_mask i = Z.shiftl 1 (i mod 32).
Proof.
  unfold bit_mask. rewrite u32_small; [done|]. change ELEM_BITS with 32.
  pose proof (Z.mod_pos_bound i 32). rewrite Z.shiftl_1_l. split; [lia|].
  apply Z.pow_lt_mono_r; lia.
Qed.

Lemma testbit_mask i n : Z.testbit (bit_mask i) n = bool_decide (n = i mod 32).
Proof. rewrite bit_mask_eq, testbit_pow2; [done|]. by apply Z.mod_pos_bound. Qed.

Lemma is_u32_bits x : 0 ≤ x → (∀ n, 32 ≤ n → Z.testbit x n = false) → is_u32 x.
Proof.
  intros Hx H. split; [done|].
  replace x with (x mod 2 ^ 32); [by apply Z.mod_pos_bound|].
  apply Z.bits_inj'. intros n Hn. destruct (decide (n < 32)).
  - by rewrite Z.mod_pow2_bits_low.
  - rewrite Z.mod_pow2_bits_high by lia. symmetry. apply H. lia.
Qed.

Lemma testbit_not32 x n : is_u32 x → 0 ≤ n < 32 → Z.testbit (not32 x) n = negb (Z.testbit x n).
Proof.
  intros Hx Hn. replace (not32 x) with (Z.lnot x mod 2 ^ 32).
  - rewrite Z.mod_pow2_bits_low, Z.lnot_spec by lia. done.
  - unfold not32, Z.lnot. unfold is_u32 in Hx.
    rewrite <-(Z_mod_plus_full _ 1), Z.mod_small; lia.
Qed.

Lemma bit_mask_u32 i : is_u32 (bit_mask i).
Proof. apply u32_range. Qed.

Lemma not32_u32 x : is_u32 x → is_u32 (not32 x).
Proof. unfold is_u32, not32. lia. Qed.

Lemma land_mask w i : negb (Z.land w (bit_mask i) =? 0) = Z.testbit w (i mod 32).
Proof.
  destruct (Z.testbit w (i mod 32)) eqn:E.
  - apply negb_true_iff, Z.eqb_neq. intros H.
    assert (Z.testbit (Z.land w (bit_mask i)) (i mod 32) = false) as H'
      by (rewrite H; apply Z.bits_0).
    by rewrite Z.land_spec, E, testbit_mask, bool_decide_true in H'.
  - apply negb_false_iff, Z.eqb_eq, Z.bits_inj'. intros n _.
    rewrite Z.land_spec, testbit_mask, Z.bits_0. case_bool_decide; subst; [by rewrite E|].
    apply andb_false_r.
Qed.

Lemma wf_elem b i : wf b → 0 ≤ i < bit_cnt b →
  ∃ w, bits b !! Z.to_nat (elem_idx i) = Some w ∧ is_u32 w ∧
       bits b !!! Z.to_nat (i / 32) = w.
Proof.
  intros W Hi. unfold elem_idx. change ELEM_BITS with 32.
  destruct (lookup_lt_is_Some_2 (bits b) (Z.to_nat (i / 32))) as [w Hw].
  { pose proof (wf_len b W). apply Nat2Z.inj_lt.
    rewrite Z2Nat.id by (apply Z.div_pos; lia). apply Z.div_lt_upper_bound; lia. }
  exists w. split; [done|]. split; [|by apply list_lookup_total_correct].
  by apply (Forall_lookup_1 _ _ _ _ (wf_words b W) Hw).
Qed.

(** Changing the element of bit [i] changes the bits its instruction changes. *)
Lemma update_elem_ok b i f v : wf b → 0 ≤ i < bit_cnt b →
  (∀ w, is_u32 w → is_u32 (f w)) →
  (∀ w n, is_u32 w → 0 ≤ n < 32 →
     Z.testbit (f w) n = if bool_decide (n = i mod 32) then v (Z.testbit w n) else Z.testbit w n) →
  ∃ b', update_elem b (elem_idx i) f = Some b' ∧ agrees b b' (Z.eqb i) (λ _, v (bit b i)).
Proof.
  intros W Hi Hf Hv. destruct (wf_elem b i W Hi) as (w & Hw & Hw32 & Ht).
  unfold update_elem. rewrite Hw. eexists; split; [done|].
  assert (Z.to_nat (i / 32) < length (bits b))%nat as Hlt by (by eapply lookup_lt_Some).
  split; [|split; [done|split; [apply length_insert|]]].
  - split; simpl; [apply W|rewrite length_insert; apply W|].
    apply Forall_insert; [apply W|auto].
  - intros j Hj. unfold bit; simpl. unfold elem_idx. change ELEM_BITS with 32.
    destruct (decide (j / 32 = i / 32)) as [Hd|Hd].
    + rewrite Hd, list_lookup_total_insert_eq, Ht by done.
      pose proof (Z.mod_pos_bound j 32). rewrite Hv by (done || lia).
      destruct (Z.eqb_spec i j) as [->|Hne].
      * by rewrite bool_decide_true.
      * rewrite bool_decide_false; [done|]. intros E. apply Hne.
        rewrite (Z.div_mod i 32), (Z.div_mod j 32) by lia. lia.
    + rewrite list_lookup_total_insert_ne.
      * destruct (Z.eqb_spec i j); [congruence|done].
      * intros E. apply Hd. symmetry. apply Z2Nat.inj; [| |done]; apply Z.div_pos; lia.
Qed.

Lemma bitmap_mark_ok b i : wf b → 0 ≤ i < bit_cnt b →
  ∃ b', bitmap_mark b i = Some b' ∧ agrees b b' (Z.eqb i) (λ _, true).
Proof.
  intros W Hi. pose proof (bit_mask_u32 i) as M.
  apply (update_elem_ok b i (λ w, Z.lor w (bit_mask i)) (λ _, true)); [done|done| |].
  - intros w Hw. apply is_u32_bits; [apply Z.lor_nonneg; split; [apply Hw|apply M]|].
    intros n Hn. by rewrite Z.lor_spec, !testbit_high by done.
  - intros w n Hw Hn. rewrite Z.lor_spec, testbit_mask. case_bool_decide; [apply orb_true_r|apply orb_false_r].
Qed.

Lemma bitmap_reset_ok b i : wf b → 0 ≤ i < bit_cnt b →
  ∃ b', bitmap_reset b i = Some b' ∧ agrees b b' (Z.eqb i) (λ _, false).
Proof.
  intros W Hi. pose proof (bit_mask_u32 i) as M.
  apply (update_elem_ok b i (λ w, Z.land w (not32 (bit_mask i))) (λ _, false)); [done|done| |].
  - intros w Hw. apply is_u32_bits; [apply Z.land_nonneg; left; apply Hw|].
    intros n Hn. by rewrite Z.land_spec, (testbit_high w) by done.
  - intros w n Hw Hn. rewrite Z.land_spec, testbit_not32, testbit_mask by done.
    case_bool_decide; [apply andb_false_r|apply andb_true_r].
Qed.

Lemma bitmap_flip_ok b i : wf b → 0 ≤ i < bit_cnt b →
  ∃ b', bitmap_flip b i = Some b' ∧ agrees b b' (Z.eqb i) (λ _, negb (bit b i)).
Proof.
  intros W Hi. pose proof (bit_mask_u32 i) as M.
  apply (update_elem_ok b i (λ w, Z.lxor w (bit_mask i)) negb); [done|done| |].
  - intros w Hw. apply is_u32_bits.
    + apply Z.lxor_nonneg. split; intros _; [apply M|apply Hw].
    + intros n Hn. by rewrite Z.lxor_spec, !testbit_high by done.
  - intros w n Hw Hn. rewrite Z.lxor_spec, testbit_mask.
    case_bool_decide; [apply xorb_true_r|apply xorb_false_r].
Qed.

Lemma bitmap_set_ok b i v : wf b → 0 ≤ i < bit_cnt b →
  ∃ b', bitmap_set b i v = Some b' ∧ agrees b b' (Z.eqb i) (λ _, v).
Proof.
  intros W Hi. unfold bitmap_set. run_assert; [|apply Z.ltb_lt; lia].
  destruct v; [by apply bitmap_mark_ok|by apply bitmap_reset_ok].
Qed.

Lemma bitmap_test_ok b i : wf b → 0 ≤ i < bit_cnt b → bitmap_test b i = Some (bit b i).
Proof.
  intros W Hi. unfold bitmap_test. run_assert; [|apply Z.ltb_lt; lia].
  destruct (wf_elem b i W Hi) as (w & Hw & _ & Ht). rewrite Hw; simpl.
  by rewrite land_mask; unfold bit; rewrite Ht.
Qed.

(** ** Ranges *)

Lemma agrees_refl b P v : wf b → (∀ i, P i = true → v i = bit b i) → agrees b b P v.
Proof.
  intros W H. split; [done|]. split; [done|]. split; [done|].
  intros i _. destruct (P i) eqn:E; [by rewrite H|done].
Qed.

Lemma agrees_trans b1 b2 b3 P Q R v :
  agrees b1 b2 P (λ _, v) → agrees b2 b3 Q (λ _, v) →
  (∀ i, 0 ≤ i → R i = P i || Q i) → agrees b1 b3 R (λ _, v).
Proof.
  intros (W2 & C2 & L2 & B2) (W3 & C3 & L3 & B3) HR.
  split; [done|]. split; [congruence|]. split; [congruence|].
  intros i Hi. rewrite B3, B2, HR by done. by destruct (P i), (Q i).
Qed.

Lemma in_range_spec start cnt i : in_range start cnt i = true ↔ start ≤ i < start + cnt.
Proof. unfold in_range. rewrite andb_true_iff, Z.leb_le, Z.ltb_lt. done. Qed.

Lemma bitmap_set_loop_ok n b start i v :
  wf b → 0 ≤ start → 0 ≤ i → start + i + Z.of_nat n ≤ bit_cnt b →
  ∃ b', bitmap_set_loop n b start i v = Some b' ∧
        agrees b b' (in_range (start + i) (Z.of_nat n)) (λ _, v).
Proof.
  revert b i. induction n as [|n IH]; intros b i W Hs Hi Hn.
  - exists b. split; [done|]. apply agrees_refl; [done|].
    intros j Hj%in_range_spec. lia.
  - pose proof (wf_cnt b W) as [_ Hc]. simpl. rewrite u32_small by (unfold is_u32; lia).
    destruct (bitmap_set_ok b (start + i) v W) as (b1 & -> & A); [lia|].
    destruct (IH b1 (i + 1)) as (b2 & Hb2 & A2); [apply A|lia|lia| |].
    { destruct A as (_ & -> & _). lia. }
    exists b2. split; [done|]. apply (agrees_trans _ _ _ _ _ _ _ A A2).
    intros j Hj. apply eq_true_iff_eq. rewrite orb_true_iff, Z.eqb_eq, !in_range_spec. lia.
Qed.

(** The bounds that [bitmap_set_multiple] and its siblings assert. *)
Lemma assert_range {A} b start cnt (k : option A) :
  wf b → 0 ≤ start → 0 ≤ cnt → start + cnt ≤ bit_cnt b →
  (assert! start <=? bit_cnt b; assert! u32 (start + cnt) <=? bit_cnt b; k) = k.
Proof.
  intros W ?? Hn. pose proof (wf_cnt b W) as [_ Hc].
  rewrite !ASSERT_true; [done| |]; apply Z.leb_le; rewrite ?u32_small; unfold is_u32; lia.
Qed.

Lemma bitmap_set_multiple_ok b start cnt v :
  wf b → 0 ≤ start → 0 ≤ cnt → start + cnt ≤ bit_cnt b →
  ∃ b', bitmap_set_multiple b start cnt v = Some b' ∧
        agrees b b' (in_range start cnt) (λ _, v).
Proof.
  intros W Hs Hc Hn. unfold bitmap_set_multiple. rewrite assert_range by done.
  destruct (bitmap_set_loop_ok (Z.to_nat cnt) b start 0 v) as (b' & E & A); [done|done|lia|lia|].
  exists b'. split; [done|]. by rewrite Z.add_0_r, Z2Nat.id in A.
Qed.

Lemma bitmap_set_all_ok b v : wf b →
  ∃ b', bitmap_set_all b v = Some b' ∧ agrees b b' (in_range 0 (bit_cnt b)) (λ _, v).
Proof.
  intros W. pose proof (wf_cnt b W) as [? _].
  apply (bitmap_set_multiple_ok b 0 (bit_cnt b)); [done|lia..].
Qed.

Lemma bitmap_count_loop_ok n b start i v acc :
  wf b → 0 ≤ start → 0 ≤ i → start + i + Z.of_nat n ≤ bit_cnt b →
  bitmap_count_loop n b start i v acc =
    Some (acc + Z.of_nat (length (filter (λ j, bit b j = v) (seqZ (start + i) (Z.of_nat n))))).
Proof.
  revert i acc. induction n as [|n IH]; intros i acc W Hs Hi Hn.
  - simpl. by rewrite Z.add_0_r.
  - pose proof (wf_cnt b W) as [_ Hc]. cbn [bitmap_count_loop].
    rewrite u32_small, bitmap_test_ok by (unfold is_u32; done || lia).
    cbn [mbind option_bind]. rewrite IH by (done || lia). f_equal.
    rewrite (seqZ_cons (start + i)) by lia. rewrite filter_cons.
    replace (Z.pred (Z.of_nat (S n))) with (Z.of_nat n) by lia.
    replace (Z.succ (start + i)) with (start + (i + 1)) by lia.
    destruct (bit b (start + i)), v; simpl; lia.
Qed.

Lemma bitmap_contains_loop_ok n b start i v :
  wf b → 0 ≤ start → 0 ≤ i → start + i + Z.of_nat n ≤ bit_cnt b →
  ∃ r, bitmap_contains_loop n b start i v = Some r ∧
       (r = false ↔ bit_run b (start + i) (Z.of_nat n) (negb v)).
Proof.
  revert i. induction n as [|n IH]; intros i W Hs Hi Hn.
  - exists false. split; [done|]. split; [|done]. intros _ j Hj. lia.
  - pose proof (wf_cnt b W) as [_ Hc]. cbn [bitmap_contains_loop].
    rewrite u32_small, bitmap_test_ok by (unfold is_u32; done || lia).
    cbn [mbind option_bind]. destruct (eqb (bit b (start + i)) v) eqn:E.
    + apply eqb_prop in E. exists true. split; [done|]. split; [done|].
      intros H. specialize (H (start + i)). rewrite E in H. destruct v; by ospecialize (H _); lia.
    + destruct (IH (i + 1)) as (r & Hr & Hr'); [done|lia..|].
      exists r. split; [done|]. rewrite Hr'. split; intros H j Hj.
      * destruct (decide (j = start + i)) as [->|].
        -- by destruct (bit b (start + i)), v.
        -- apply H. lia.
      * apply H. lia.
Qed.

Lemma bitmap_contains_ok b start cnt v :
  wf b → 0 ≤ start → 0 ≤ cnt → start + cnt ≤ bit_cnt b →
  ∃ r, bitmap_contains b start cnt v = Some r ∧ (r = false ↔ bit_run b start cnt (negb v)).
Proof.
  intros W Hs Hc Hn. unfold bitmap_contains. rewrite assert_range by done.
  destruct (bitmap_contains_loop_ok (Z.to_nat cnt) b start 0 v) as (r & -> & H); [done|lia..|].
  exists r. split; [done|]. by rewrite Z.add_0_r, Z2Nat.id in H.
Qed.

Lemma bitmap_all_ok b start cnt :
  wf b → 0 ≤ start → 0 ≤ cnt → start + cnt ≤ bit_cnt b →
  ∃ r, bitmap_all b start cnt = Some r ∧ (r = true ↔ bit_run b start cnt true).
Proof.
  intros W Hs Hc Hn. unfold bitmap_all.
  destruct (bitmap_contains_ok b start cnt false) as (r & -> & H); [done..|].
  exists (negb r). split; [done|]. rewrite negb_true_iff. apply H.
Qed.

Lemma run_or b start cnt v :
  bit_run b start cnt v ∨ ∃ j, start ≤ j < start + cnt ∧ bit b j = negb v.
Proof.
  destruct (decide (Forall (λ j, bit b j = v) (seqZ start cnt))) as [F|F].
  - left. intros j Hj. rewrite Forall_forall in F. apply F, elem_of_seqZ. lia.
  - right. apply not_Forall_Exists in F; [|intros j; apply _].
    rewrite Exists_exists in F. destruct F as (j & Hj%elem_of_seqZ & B).
    exists j. split; [lia|]. destruct (bit b j) eqn:Eb, v; (done || by destruct B).
Qed.

(** ** Searching *)

(** [r] is the first index in [start .. last] at which a run of [cnt] bits [v]
    starts, or the error when there is none. *)
Definition first_run (b : bitmap) (start last cnt : Z) (v : bool) (r : Z) : Prop :=
  (start ≤ r ≤ last ∧ bit_run b r cnt v ∧ ∀ j, start ≤ j < r → ¬ bit_run b j cnt v) ∨
  (r = BITMAP_ERROR ∧ ∀ j, start ≤ j ≤ last → ¬ bit_run b j cnt v).

Lemma bitmap_scan_loop_ok n b i cnt v :
  wf b → 0 ≤ i → 0 ≤ cnt → Z.of_nat n = Z.max 0 (bit_cnt b - cnt + 1 - i) →
  ∃ r, bitmap_scan_loop n b i cnt v = Some r ∧ first_run b i (bit_cnt b - cnt) cnt v r.
Proof.
  revert i. induction n as [|n IH]; intros i W Hi Hc Hn.
  - exists BITMAP_ERROR. split; [done|]. right. split; [done|]. lia.
  - cbn [bitmap_scan_loop].
    destruct (bitmap_contains_ok b i cnt (negb v)) as (r & -> & H); [done|lia..|].
    rewrite negb_involutive in H. cbn [mbind option_bind]. destruct r; cbn [negb].
    + destruct (IH (i + 1)) as (r & Hr & HR); [done|lia..|]. exists r. split; [done|].
      assert (¬ bit_run b i cnt v) as Hi' by (intros ?; by apply H in H0).
      destruct HR as [(? & ? & Hm)|(? & Hm)]; [left|right]; split_and?; [lia|lia|done| |done|];
        intros j Hj; (destruct (decide (j = i)) as [->|]; [done|apply Hm; lia]).
    + exists i. split; [done|]. left. split; [lia|]. split; [by apply H|]. lia.
Qed.

Lemma bitmap_scan_ok b start cnt v :
  wf b → 0 ≤ start ≤ bit_cnt b → 0 ≤ cnt →
  ∃ r, bitmap_scan b start cnt v = Some r ∧ first_run b start (bit_cnt b - cnt) cnt v r.
Proof.
  intros W Hs Hc. unfold bitmap_scan. run_assert; [|apply Z.leb_le; lia].
  destruct (Z.leb_spec cnt (bit_cnt b)).
  - apply bitmap_scan_loop_ok; [done|lia..].
  - exists BITMAP_ERROR. split; [done|]. right. split; [done|]. lia.
Qed.

(** ** Correctness *)

(** [bitmap_scan_and_flip] never fails on a well-formed bitmap.  It returns
    the first index at or after [start] where [cnt] consecutive bits have the
    value, flips exactly those bits and leaves all others; when there is no such
    index it returns [BITMAP_ERROR] and changes nothing. *)
Theorem bitmap_scan_and_flip_correct b start cnt v :
  wf b → 0 ≤ start ≤ bit_cnt b → 0 ≤ cnt → bit_cnt b < BITMAP_ERROR →
  ∃ b' r, bitmap_scan_and_flip b start cnt v = Some (b', r) ∧
    first_run b start (bit_cnt b - cnt) cnt v r ∧
    (if r =? BITMAP_ERROR then b' = b
     else agrees b b' (in_range r cnt) (λ _, negb v)).
Proof.
  intros W Hs Hc Hm. unfold bitmap_scan_and_flip.
  destruct (bitmap_scan_ok b start cnt v W Hs Hc) as (r & -> & HR). cbn [mbind option_bind].
  destruct (Z.eqb_spec r BITMAP_ERROR) as [->|Hr]; cbn [negb].
  - by exists b, BITMAP_ERROR.
  - destruct HR as [HR|[? _]]; [|done]. destruct HR as (? & ?).
    destruct (bitmap_set_multiple_ok b r cnt (negb v)) as (b' & -> & A); [done|lia..|].
    exists b', r. split; [done|]. split; [by left|].
    by destruct (Z.eqb_spec r BITMAP_ERROR).
Qed.

Lemma bitmap_scan_and_flip_correct_witness :
  ∃ b', bitmap_scan_and_flip (mk_bitmap 40 [5; 0]) 0 2 false = Some (b', 3) ∧
        agrees (mk_bitmap 40 [5; 0]) b' (in_range 3 2) (λ _, true).
Proof.
  assert (wf (mk_bitmap 40 [5; 0])) as W
    by (split; cbn; unfold is_u32; repeat constructor; lia).
  destruct (bitmap_scan_and_flip_correct (mk_bitmap 40 [5; 0]) 0 2 false W)
    as (b' & r & E & _ & H); [cbn; lia|lia|cbn; unfold BITMAP_ERROR; lia|].
  assert (r = 3) as -> by (vm_compute in E; congruence). by exists b'.
Defined.

(** The operations on a range of bits are exact: setting changes the bits of
    the range and no other, counting counts the bits with the value, and the
    three tests say whether any, none or all of the bits are set. *)
Theorem bitmap_range_correct b start cnt v :
  wf b → 0 ≤ start → 0 ≤ cnt → start + cnt ≤ bit_cnt b →
  (∃ b', bitmap_set_multiple b start cnt v = Some b' ∧
         agrees b b' (in_range start cnt) (λ _, v)) ∧
  bitmap_count b start cnt v =
    Some (Z.of_nat (length (filter (λ j, bit b j = v) (seqZ start cnt)))) ∧
  (∃ r, bitmap_any b start cnt = Some r ∧
        (r = true ↔ ∃ j, start ≤ j < start + cnt ∧ bit b j = true)) ∧
  (∃ r, bitmap_none b start cnt = Some r ∧ (r = true ↔ bit_run b start cnt false)) ∧
  (∃ r, bitmap_all b start cnt = Some r ∧ (r = true ↔ bit_run b start cnt true)).
Proof.
  intros W Hs Hc Hn. split; [by apply bitmap_set_multiple_ok|]. split; [|split; [|split]].
  - unfold bitmap_count. rewrite assert_range, bitmap_count_loop_ok by (done || lia).
    by rewrite Z.add_0_r, Z2Nat.id.
  - destruct (bitmap_contains_ok b start cnt true) as (r & E & H); [done..|].
    exists r. split; [done|]. destruct r.
    + split; [|done]. intros _. destruct (run_or b start cnt false) as [R|R]; [|done].
      by apply H in R.
    + split; [done|]. intros (j & Hj & B). by rewrite (proj1 H eq_refl j Hj) in B.
  - unfold bitmap_none. destruct (bitmap_contains_ok b start cnt true) as (r & -> & H); [done..|].
    exists (negb r). split; [done|]. rewrite negb_true_iff. apply H.
  - by apply bitmap_all_ok.
Qed.

Lemma bitmap_range_correct_witness :
  bitmap_count (mk_bitmap 40 [5; 1]) 1 35 true = Some 2.
Proof.
  assert (wf (mk_bitmap 40 [5; 1])) as W
    by (split; cbn; unfold is_u32; repeat constructor; lia).
  destruct (bitmap_range_correct (mk_bitmap 40 [5; 1]) 1 35 true W) as (_ & E & _);
    [lia|lia|cbn; lia|].
  rewrite E. reflexivity.
Defined.
