(* ===== verification/Palloc.v ===== *)
(** * The page allocator ([threads/palloc.c])

    Two pools, each a bitmap of used pages and a base address, over the
    machine's memory.  The lock of a pool only protects the critical section
    around [bitmap_scan_and_flip], which is one step here; the contents of the
    bitmaps are kept apart from [mem], in which they live below the pools'
    bases.  [used s a] says whether the page of address [a] is allocated; the
    theorems describe the operations by it. *)

From S2P Require Import Prelude Machine FixedPoint Bitmap.

Open Scope Z_scope.

(** [enum palloc_flags]. *)
Definition PAL_ASSERT : Z := 1.
Definition PAL_ZERO : Z := 2.
Definition PAL_USER : Z := 4.

Definition has (flags flag : Z) : bool := negb (Z.land flags flag =? 0).

Record pool := mk_pool {
  used_map : bitmap;
  base : Z;
}.
#[export] Instance pool_ctor : Ctor pool := λ p, mk_pool (used_map p) (base p).

(** The allocator's static data and the memory, a byte per address. *)
Record palloc := mk_palloc {
  kernel_pool : pool;
  user_pool : pool;
  mem : Z → Z;
}.
#[export] Instance palloc_ctor : Ctor palloc :=
  λ s, mk_palloc (kernel_pool s) (user_pool s) (mem s).

(** [memset (p, c, n)] of [lib/string.c]. *)
Definition fill (m : Z → Z) (p c n : Z) : Z → Z :=
  λ a, if in_range p n a then c else m a.

(** The 32-bit word at [a]. *)
Definition load32 (m : Z → Z) (a : Z) : Z :=
  u32 (m a + 2 ^ 8 * m (a + 1) + 2 ^ 16 * m (a + 2) + 2 ^ 24 * m (a + 3)).

(** The [n] words from [a] on. *)
Fixpoint words (n : nat) (m : Z → Z) (a : Z) : list Z :=
  match n with
  | O => []
  | S n => load32 m a :: words n m (a + 4)
  end.

(** [init_pool]: the bitmap takes the first pages of the memory, in whose
    remaining bytes its elements start out. *)
Definition init_pool (m : Z → Z) (b : Z) (page_cnt : Z) : option pool :=
  let bm_pages := DIV_ROUND_UP (bitmap_buf_size page_cnt) PGSIZE in
  if page_cnt <? bm_pages then None
  else
    let page_cnt := page_cnt - bm_pages in
    let block := words (Z.to_nat ((bm_pages * PGSIZE - 8) / 4)) m (b + 8) in
    bm ← bitmap_create_in_buf page_cnt block (u32 (bm_pages * PGSIZE));
    Some (mk_pool bm (u32 (b + bm_pages * PGSIZE))).

Definition palloc_init (m : Z → Z) (init_ram_pages user_page_limit : Z) : option palloc :=
  free_start ← ptov (1024 * 1024);
  free_end ← ptov (u32 (init_ram_pages * PGSIZE));
  let free_pages := u32 (Z.quot (int32 (free_end - free_start)) PGSIZE) in
  let user_pages := free_pages / 2 in
  let user_pages := if user_page_limit <? user_pages then user_page_limit else user_pages in
  let kernel_pages := free_pages - user_pages in
  kp ← init_pool m free_start kernel_pages;
  up ← init_pool m (u32 (free_start + kernel_pages * PGSIZE)) user_pages;
  Some (mk_palloc kp up m).

Definition page_from_pool (p : pool) (page : Z) : bool :=
  let page_no := pg_no page in
  let start_page := pg_no (base p) in
  let end_page := u32 (start_page + bitmap_size (used_map p)) in
  (start_page <=? page_no) && (page_no <? end_page).

Definition get_pool (s : palloc) (user : bool) : pool :=
  if user then user_pool s else kernel_pool s.

Definition set_pool (s : palloc) (user : bool) (p : pool) : palloc :=
  if user then s <| user_pool := p |> else s <| kernel_pool := p |>.

Definition palloc_get_multiple (s : palloc) (flags page_cnt : Z) : option (palloc * Z) :=
  let p := get_pool s (has flags PAL_USER) in
  if page_cnt =? 0 then Some (s, NULL)
  else
    '(bm, page_idx) ← bitmap_scan_and_flip (used_map p) 0 page_cnt false;
    let s := set_pool s (has flags PAL_USER) (p <| used_map := bm |>) in
    let pages :=
      if negb (page_idx =? BITMAP_ERROR) then u32 (base p + PGSIZE * page_idx) else NULL in
    if negb (pages =? NULL) then
      if has flags PAL_ZERO then
        Some (s <| mem := fill (mem s) pages 0 (u32 (PGSIZE * page_cnt)) |>, pages)
      else Some (s, pages)
    else if has flags PAL_ASSERT then None
    else Some (s, pages).

Definition palloc_get_page (s : palloc) (flags : Z) : option (palloc * Z) :=
  palloc_get_multiple s flags 1.

Definition palloc_free_multiple (s : palloc) (pages page_cnt : Z) : option palloc :=
  assert! pg_ofs pages =? 0;
  if (pages =? NULL) || (page_cnt =? 0) then Some s
  else
    user ← (if page_from_pool (kernel_pool s) pages then Some false
            else if page_from_pool (user_pool s) pages then Some true
            else None);
    let p := get_pool s user in
    let page_idx := u32 (pg_no pages - pg_no (base p)) in
    let s := s <| mem := fill (mem s) pages 204 (u32 (PGSIZE * page_cnt)) |> in
    all ← bitmap_all (used_map p) page_idx page_cnt;
    assert! all;
    bm ← bitmap_set_multiple (used_map p) page_idx page_cnt false;
    Some (set_pool s user (p <| used_map := bm |>)).

Definition palloc_free_page (s : palloc) (page : Z) : option palloc :=
  palloc_free_multiple s page 1.

(** ** Specification *)

Definition pool_size (p : pool) : Z := PGSIZE * bit_cnt (used_map p).

(** The pool fits the address space above the null page and is page aligned. *)
Record pool_wf (p : pool) : Prop := {
  pool_map : wf (used_map p);
  pool_base : 0 < base p;
  pool_aligned : base p mod 4096 = 0;
  pool_fits : base p + pool_size p < 2 ^ 32;
}.

Record palloc_wf (s : palloc) : Prop := {
  palloc_kernel : pool_wf (kernel_pool s);
  palloc_user : pool_wf (user_pool s);
  palloc_apart : base (kernel_pool s) + pool_size (kernel_pool s) ≤ base (user_pool s);
}.

Definition in_pool (p : pool) (a : Z) : bool := in_range (base p) (pool_size p) a.
Definition pool_used (p : pool) (a : Z) : bool :=
  in_pool p a && bit (used_map p) ((a - base p) / 4096).
(** The page of address [a] is allocated. *)
Definition used (s : palloc) (a : Z) : bool :=
  pool_used (kernel_pool s) a || pool_used (user_pool s) a.

(** The addresses of [cnt] pages from [pages] on. *)
Definition in_block (pages cnt a : Z) : bool := in_range pages (PGSIZE * cnt) a.

(** [pages] is a free block of [cnt] pages of the pool [p]. *)
Definition free_block (p : pool) (pages cnt : Z) : Prop :=
  pages mod 4096 = 0 ∧ base p ≤ pages ∧ pages + PGSIZE * cnt ≤ base p + pool_size p ∧
  ∀ a, in_block pages cnt a = true → pool_used p a = false.

(** ** Pools *)

(** The address of the page numbered [idx] of the pool. *)
Definition page_addr (p : pool) (idx : Z) : Z := base p + 4096 * idx.

Lemma in_block_idx p idx cnt a : 
  in_block (page_addr p idx) cnt a = in_range idx cnt ((a - base p) / 4096).
Proof.
  apply eq_true_iff_eq. unfold in_block, page_addr. rewrite !in_range_spec.
  change PGSIZE with 4096. pose proof (Z.div_mod (a - base p) 4096).
  pose proof (Z.mod_pos_bound (a - base p) 4096). lia.
Qed.

Lemma in_pool_idx p a : in_pool p a = in_range 0 (bit_cnt (used_map p)) ((a - base p) / 4096).
Proof.
  unfold in_pool, pool_size. rewrite <-in_block_idx. unfold page_addr, in_block. by rewrite Z.add_0_r.
Qed.

Lemma free_block_run p idx cnt : pool_wf p → 0 ≤ idx → 0 < cnt →
  free_block p (page_addr p idx) cnt ↔
  idx + cnt ≤ bit_cnt (used_map p) ∧ bit_run (used_map p) idx cnt false.
Proof.
  intros W Hi Hc. pose proof (pool_aligned p W) as Hal.
  unfold free_block, page_addr at 1 2 3, pool_size. change PGSIZE with 4096. split.
  - intros (_ & _ & Hle & Hf). split; [lia|]. intros i Hr.
    specialize (Hf (page_addr p i)). rewrite in_block_idx in Hf.
    unfold pool_used in Hf. rewrite in_pool_idx in Hf.
    replace ((page_addr p i - base p) / 4096) with i in Hf
      by (unfold page_addr; rewrite Z.add_simpl_l, Z.mul_comm, Z.div_mul; lia).
    rewrite (proj2 (in_range_spec idx cnt i)), (proj2 (in_range_spec 0 _ i)) in Hf by lia.
    by apply Hf.
  - intros [Hle Hr]. split; [|split; [lia|split; [lia|]]].
    { rewrite Z.mul_comm, Z_mod_plus_full. done. }
    intros a Ha. rewrite in_block_idx, in_range_spec in Ha.
    unfold pool_used. rewrite (Hr _ Ha). apply andb_false_r.
Qed.

(** A free block starts at one of the pool's pages. *)
Lemma free_block_addr p pages cnt : pool_wf p → free_block p pages cnt →
  ∃ idx, 0 ≤ idx ∧ pages = page_addr p idx.
Proof.
  intros W (Ha & Hb & _). pose proof (pool_aligned p W).
  exists ((pages - base p) / 4096). unfold page_addr.
  split; [apply Z.div_pos; lia|].
  pose proof (Z.div_mod (pages - base p) 4096) as E.
  rewrite Zminus_mod, Ha, H in E. change ((0 - 0) mod 4096) with 0 in E. lia.
Qed.

(** Setting the bits of a block sets the pages of the block. *)
Lemma pool_used_agrees p bm idx cnt v a :
  agrees (used_map p) bm (in_range idx cnt) (λ _, v) →
  0 ≤ idx → idx + cnt ≤ bit_cnt (used_map p) →
  pool_used (p <| used_map := bm |>) a =
    if in_block (page_addr p idx) cnt a then v else pool_used p a.
Proof.
  intros (_ & Hc & _ & Hb) Hi Hn. unfold pool_used. rewrite in_block_idx, !in_pool_idx; simpl.
  rewrite Hc. set (j := (a - base p) / 4096). destruct (in_range 0 _ j) eqn:E; simpl.
  - apply in_range_spec in E. by rewrite Hb by lia.
  - destruct (in_range idx cnt j) eqn:E'; [|done]. apply in_range_spec in E'.
    apply not_true_iff_false in E. rewrite in_range_spec in E. lia.
Qed.

Lemma pool_wf_agrees p bm P v :
  pool_wf p → agrees (used_map p) bm P v → pool_wf (p <| used_map := bm |>).
Proof.
  intros [W1 W2 W3 W4] (W & Hc & _). split; simpl; [done..|].
  unfold pool_size in *; simpl. by rewrite Hc.
Qed.

Lemma pool_cnt_small p : pool_wf p → 0 ≤ bit_cnt (used_map p) < 2 ^ 20.
Proof.
  intros W. pose proof (wf_cnt _ (pool_map p W)) as [? _].
  pose proof (pool_fits p W). pose proof (pool_base p W). unfold pool_size, PGSIZE in *.
  change (Z.shiftl 1 PGBITS) with 4096 in *. lia.
Qed.

(** Scanning a pool for a run finds the pool's first free block. *)
Lemma pool_scan_ok p cnt : pool_wf p → 0 < cnt →
  ∃ bm idx, bitmap_scan_and_flip (used_map p) 0 cnt false = Some (bm, idx) ∧
    ((idx = BITMAP_ERROR ∧ bm = used_map p ∧ ∀ pages, ¬ free_block p pages cnt) ∨
     (idx ≠ BITMAP_ERROR ∧ 0 ≤ idx ∧ idx + cnt ≤ bit_cnt (used_map p) ∧
      free_block p (page_addr p idx) cnt ∧
      agrees (used_map p) bm (in_range idx cnt) (λ _, true))).
Proof.
  intros W Hc. pose proof (pool_cnt_small p W) as Hs. unfold bitmap_scan_and_flip.
  destruct (bitmap_scan_ok (used_map p) 0 cnt false) as (r & -> & HR);
    [apply W|lia|lia|]. cbn [mbind option_bind].
  destruct (Z.eqb_spec r BITMAP_ERROR) as [->|Hne]; cbn [negb].
  - exists (used_map p), BITMAP_ERROR. split; [done|]. left. split; [done|]. split; [done|].
    intros pages F. destruct (free_block_addr p pages cnt W F) as (idx & Hi & ->).
    apply (free_block_run p idx cnt W Hi Hc) in F as [F1 F2].
    destruct HR as [(? & _)|(_ & HR)]; [unfold BITMAP_ERROR in *; lia|].
    by apply (HR idx); [lia|].
  - destruct HR as [(Hr & Hrun & _)|[? _]]; [|done].
    destruct (bitmap_set_multiple_ok (used_map p) r cnt true) as (bm & -> & A);
      [apply W|lia..|].
    exists bm, r. split; [done|]. right. split; [done|]. split; [lia|]. split; [lia|].
    split; [|done]. apply free_block_run; [done|lia|done|]. split; [lia|done].
Qed.

(** ** Both pools *)

Lemma palloc_pool s u : palloc_wf s → pool_wf (get_pool s u).
Proof. intros W. destruct u; apply W. Qed.

Lemma palloc_disjoint s u a : palloc_wf s →
  in_pool (get_pool s u) a = true → in_pool (get_pool s (negb u)) a = false.
Proof.
  intros W. unfold in_pool. rewrite in_range_spec. intros Ha.
  apply not_true_iff_false. rewrite in_range_spec.
  pose proof (palloc_apart s W). destruct u; simpl in *; lia.
Qed.

Lemma used_pools s u a :
  used s a = pool_used (get_pool s u) a || pool_used (get_pool s (negb u)) a.
Proof. destruct u; [apply orb_comm|done]. Qed.

Lemma used_set_pool s u p a :
  used (set_pool s u p) a = pool_used p a || pool_used (get_pool s (negb u)) a.
Proof. rewrite (used_pools _ u). by destruct u. Qed.

Lemma block_in_pool p pages cnt a :
  base p ≤ pages → pages + PGSIZE * cnt ≤ base p + pool_size p →
  in_block pages cnt a = true → in_pool p a = true.
Proof. unfold in_pool, in_block. rewrite !in_range_spec. lia. Qed.

(** The pages of a block of one pool are not pages of the other. *)
Lemma block_other_pool s u pages cnt a : palloc_wf s →
  base (get_pool s u) ≤ pages →
  pages + PGSIZE * cnt ≤ base (get_pool s u) + pool_size (get_pool s u) →
  in_block pages cnt a = true → pool_used (get_pool s (negb u)) a = false.
Proof.
  intros W ?? Ha. unfold pool_used. rewrite palloc_disjoint; [done..|].
  by apply (block_in_pool _ pages cnt).
Qed.

Lemma free_block_unused s u pages cnt a : palloc_wf s →
  free_block (get_pool s u) pages cnt → in_block pages cnt a = true → used s a = false.
Proof.
  intros W (_ & Hb & He & Hf) Ha. rewrite (used_pools s u), (Hf a Ha).
  by rewrite (block_other_pool s u pages cnt a).
Qed.

Lemma palloc_wf_set s u bm P v : palloc_wf s →
  agrees (used_map (get_pool s u)) bm P v →
  palloc_wf (set_pool s u ((get_pool s u) <| used_map := bm |>)).
Proof.
  intros W A. pose proof (pool_wf_agrees _ _ _ _ (palloc_pool s u W) A) as Hp.
  destruct A as (_ & Hc & _). destruct W as [Wk Wu Wa].
  destruct u; split; simpl in *; try done; unfold pool_size in *; simpl; rewrite Hc; done.
Qed.

Lemma palloc_wf_mem s m : palloc_wf s → palloc_wf (s <| mem := m |>).
Proof. intros [???]. by split. Qed.

Lemma set_pool_id s u : set_pool s u ((get_pool s u) <| used_map := used_map (get_pool s u) |>) = s.
Proof. by destruct s as [[] [] ?], u. Qed.

Lemma set_pool_mem s m u p : set_pool (s <| mem := m |>) u p = (set_pool s u p) <| mem := m |>.
Proof. by destruct u. Qed.

(** The pools have the same bounds. *)
Definition same_pools (s s' : palloc) : Prop := ∀ u,
  base (get_pool s' u) = base (get_pool s u) ∧
  bit_cnt (used_map (get_pool s' u)) = bit_cnt (used_map (get_pool s u)).

Lemma same_pools_set s m u bm :
  bit_cnt bm = bit_cnt (used_map (get_pool s u)) →
  same_pools s (set_pool (s <| mem := m |>) u ((get_pool s u) <| used_map := bm |>)).
Proof. intros H u'. by destruct u, u'. Qed.

(** What [palloc_get_multiple] promises. *)
Definition get_spec (s : palloc) (flags cnt : Z) (r : option (palloc * Z)) : Prop :=
  let p := get_pool s (has flags PAL_USER) in
  match r with
  | None => has flags PAL_ASSERT = true ∧ ∀ pages, ¬ free_block p pages cnt
  | Some (s', pages) =>
      palloc_wf s' ∧ same_pools s s' ∧
      if pages =? NULL then s' = s ∧ ∀ pages, ¬ free_block p pages cnt
      else free_block p pages cnt ∧
           (∀ a, used s' a = in_block pages cnt a || used s a) ∧
           mem s' = if has flags PAL_ZERO then fill (mem s) pages 0 (PGSIZE * cnt) else mem s
  end.

Lemma page_addr_small p idx cnt : pool_wf p → 0 ≤ idx → 0 < cnt →
  idx + cnt ≤ bit_cnt (used_map p) →
  u32 (base p + PGSIZE * idx) = page_addr p idx ∧ page_addr p idx ≠ NULL ∧
  u32 (PGSIZE * cnt) = PGSIZE * cnt.
Proof.
  intros W Hi Hc Hn. pose proof (pool_fits p W). pose proof (pool_base p W).
  pose proof (pool_cnt_small p W). unfold pool_size, page_addr, NULL in *.
  change PGSIZE with 4096 in *.
  rewrite !u32_small by (unfold is_u32; lia). lia.
Qed.

Lemma palloc_get_ok s flags cnt : palloc_wf s → 0 < cnt →
  get_spec s flags cnt (palloc_get_multiple s flags cnt).
Proof.
  intros W Hc. unfold palloc_get_multiple. set (u := has flags PAL_USER).
  pose proof (palloc_pool s u W) as Wp. rewrite (proj2 (Z.eqb_neq cnt 0)) by lia.
  destruct (pool_scan_ok (get_pool s u) cnt Wp Hc)
    as (bm & idx & -> & [(-> & -> & Hno)|(Hne & Hi & Hn & Hf & A)]); cbn [mbind option_bind].
  - rewrite set_pool_id. simpl. destruct (has flags PAL_ASSERT) eqn:E; [done|].
    split; [done|]. split; [by intros u'|done].
  - assert (same_pools s (set_pool s u ((get_pool s u) <| used_map := bm |>))) as SP
      by (apply (same_pools_set s (mem s)), A).
    rewrite (proj2 (Z.eqb_neq idx _)) by done. cbn [negb].
    destruct (page_addr_small _ idx cnt Wp Hi Hc Hn) as (-> & Hnull & ->).
    rewrite (proj2 (Z.eqb_neq _ NULL)) by done. cbn [negb].
    set (s' := set_pool s u _) in *.
    assert (palloc_wf s') as W' by (by eapply palloc_wf_set).
    assert (∀ a, used s' a = in_block (page_addr (get_pool s u) idx) cnt a || used s a) as U.
    { intros a. unfold s'. rewrite used_set_pool, (pool_used_agrees _ _ _ _ _ _ A Hi Hn).
      rewrite (used_pools s u). by destruct (in_block _ cnt a). }
    assert (mem s' = mem s) as M by (unfold s'; by destruct u).
    unfold get_spec. fold u.
    destruct (has flags PAL_ZERO); rewrite (proj2 (Z.eqb_neq _ NULL)) by done;
      (split; [by try apply palloc_wf_mem|]); 
      (split; [intros []; [apply (SP true)|apply (SP false)]|]); (split; [done|]); (split; [done|]); by rewrite <-M.
Qed.

(** ** Freeing *)

(** [cnt] pages from [pages] on are pages of the pool [u]. *)
Definition block_of (s : palloc) (u : bool) (pages cnt : Z) : Prop :=
  0 < cnt ∧ pages mod 4096 = 0 ∧ base (get_pool s u) ≤ pages ∧
  pages + PGSIZE * cnt ≤ base (get_pool s u) + pool_size (get_pool s u).

Lemma block_of_idx s u pages cnt : palloc_wf s → block_of s u pages cnt →
  ∃ idx, 0 ≤ idx ∧ pages = page_addr (get_pool s u) idx ∧
         idx + cnt ≤ bit_cnt (used_map (get_pool s u)).
Proof.
  intros W (Hc & Ha & Hb & He). pose proof (pool_aligned _ (palloc_pool s u W)) as Hal.
  exists ((pages - base (get_pool s u)) / 4096). unfold page_addr, pool_size in *.
  change PGSIZE with 4096 in *.
  pose proof (Z.div_mod (pages - base (get_pool s u)) 4096) as E.
  rewrite Zminus_mod, Ha, Hal in E. change ((0 - 0) mod 4096) with 0 in E.
  split; [apply Z.div_pos; lia|]. lia.
Qed.

Lemma page_from_pool_addr p idx : pool_wf p → 0 ≤ idx < bit_cnt (used_map p) →
  page_from_pool p (page_addr p idx) = true.
Proof.
  intros W Hi. unfold page_from_pool, bitmap_size. rewrite !pg_no_eq.
  unfold page_addr. rewrite (Z.mul_comm 4096), Z_div_plus_full by lia.
  pose proof (pool_cnt_small p W). pose proof (pool_fits p W). pose proof (pool_base p W).
  assert (0 ≤ base p / 4096 < 2 ^ 20).
  { split; [apply Z.div_pos; lia|]. apply Z.div_lt_upper_bound; [lia|].
    unfold pool_size in *. change PGSIZE with 4096 in *. lia. }
  rewrite u32_small by (unfold is_u32; lia).
  rewrite andb_true_iff, Z.leb_le, Z.ltb_lt. lia.
Qed.

(** A page of the user pool is not taken for one of the kernel pool. *)
Lemma page_not_kernel s idx : palloc_wf s → 0 ≤ idx →
  page_from_pool (kernel_pool s) (page_addr (user_pool s) idx) = false.
Proof.
  intros [Wk Wu Ha] Hi. unfold page_from_pool, bitmap_size. rewrite !pg_no_eq.
  pose proof (pool_cnt_small _ Wk). pose proof (pool_fits _ Wk). pose proof (pool_base _ Wk).
  apply andb_false_iff. right. apply Z.ltb_ge. unfold page_addr, pool_size in *.
  change PGSIZE with 4096 in *.
  assert (0 ≤ base (kernel_pool s) / 4096 < 2 ^ 20).
  { split; [apply Z.div_pos; lia|]. apply Z.div_lt_upper_bound; lia. }
  rewrite u32_small by (unfold is_u32; lia).
  rewrite <-Z.div_add by lia. apply Z.div_le_mono; lia.
Qed.

(** [palloc_free_multiple] finds the pool of a block. *)
Lemma page_pool s u idx : palloc_wf s → 0 ≤ idx < bit_cnt (used_map (get_pool s u)) →
  (if page_from_pool (kernel_pool s) (page_addr (get_pool s u) idx) then Some false
   else if page_from_pool (user_pool s) (page_addr (get_pool s u) idx) then Some true
   else None) = Some u.
Proof.
  intros W Hi. destruct u; simpl in *.
  - rewrite page_not_kernel by (done || lia). by rewrite page_from_pool_addr by (done || apply W).
  - by rewrite page_from_pool_addr by (done || apply W).
Qed.

Lemma page_index p idx : pool_wf p → 0 ≤ idx < bit_cnt (used_map p) →
  u32 (pg_no (page_addr p idx) - pg_no (base p)) = idx.
Proof.
  intros W Hi. pose proof (pool_cnt_small p W). rewrite !pg_no_eq. unfold page_addr.
  rewrite (Z.mul_comm 4096), Z_div_plus_full by lia.
  rewrite Z.add_simpl_l. apply u32_small. unfold is_u32. lia.
Qed.

Lemma used_run s u idx cnt : palloc_wf s → 0 ≤ idx →
  (∀ a, in_block (page_addr (get_pool s u) idx) cnt a = true → used s a = true) →
  idx + cnt ≤ bit_cnt (used_map (get_pool s u)) →
  bit_run (used_map (get_pool s u)) idx cnt true.
Proof.
  intros W Hi Hu Hn i Hr.
  specialize (Hu (page_addr (get_pool s u) i)). rewrite in_block_idx in Hu.
  assert ((page_addr (get_pool s u) i - base (get_pool s u)) / 4096 = i) as Ei
    by (unfold page_addr; rewrite Z.add_simpl_l, Z.mul_comm, Z.div_mul; lia).
  rewrite Ei, in_range_spec in Hu. specialize (Hu Hr).
  rewrite (used_pools s u) in Hu. unfold pool_used in Hu.
  rewrite (palloc_disjoint s u) in Hu; [|done|].
  - rewrite orb_false_r, Ei in Hu. by apply andb_true_iff in Hu as [_ ?].
  - rewrite in_pool_idx, Ei, in_range_spec. lia.
Qed.

Lemma palloc_free_ok s u pages cnt : palloc_wf s → block_of s u pages cnt →
  (∀ a, in_block pages cnt a = true → used s a = true) →
  ∃ s' bm, palloc_free_multiple s pages cnt = Some s' ∧ palloc_wf s' ∧
    s' = set_pool (s <| mem := fill (mem s) pages 204 (PGSIZE * cnt) |>) u
           ((get_pool s u) <| used_map := bm |>) ∧
    bit_cnt bm = bit_cnt (used_map (get_pool s u)) ∧
    ∀ a, used s' a = negb (in_block pages cnt a) && used s a.
Proof.
  intros W B Hu. pose proof (palloc_pool s u W) as Wp.
  destruct (block_of_idx s u pages cnt W B) as (idx & Hi & -> & Hn). destruct B as (Hc & Hal & _).
  destruct (page_addr_small _ idx cnt Wp Hi Hc Hn) as (_ & Hnull & Hsz).
  unfold palloc_free_multiple. rewrite pg_ofs_eq, Hal. cbn [Z.eqb ASSERT mbind option_bind].
  rewrite (proj2 (Z.eqb_neq _ NULL)), (proj2 (Z.eqb_neq cnt 0)) by (done || lia). cbn [orb].
  rewrite page_pool by (done || lia). cbn [mbind option_bind].
  rewrite page_index, Hsz by (done || lia).
  destruct (bitmap_all_ok (used_map (get_pool s u)) idx cnt) as (r & -> & Hr);
    [apply Wp|lia..|].
  rewrite (proj2 Hr) by (by apply used_run). cbn [ASSERT mbind option_bind].
  destruct (bitmap_set_multiple_ok (used_map (get_pool s u)) idx cnt false) as (bm & -> & A);
    [apply Wp|lia..|].
  eexists _, bm. split; [done|]. split; [|split; [done|split; [apply A|]]].
  - rewrite set_pool_mem. apply palloc_wf_mem. by eapply palloc_wf_set.
  - intros a. rewrite used_set_pool, (pool_used_agrees _ _ _ _ _ _ A Hi Hn).
    rewrite (used_pools s u). replace (get_pool _ (negb u)) with (get_pool s (negb u)) by (by destruct u).
    destruct (in_block _ cnt a) eqn:E; [|done].
    apply (block_other_pool s u (page_addr (get_pool s u) idx) cnt); [done| | |done];
      unfold page_addr, pool_size; change PGSIZE with 4096; lia.
Qed.

(** ** Initialization *)

Lemma words_length n m a : length (words n m a) = n.
Proof. revert a. induction n; intros a; simpl; [done|by rewrite IHn]. Qed.

Lemma words_u32 n m a : Forall is_u32 (words n m a).
Proof. revert a. induction n; intros a; simpl; constructor; [apply u32_range|done]. Qed.

Lemma buf_size_eq n : 0 ≤ n < 2 ^ 20 → bitmap_buf_size n = 8 + 4 * ((n + 31) / 32).
Proof.
  intros H. unfold bitmap_buf_size, byte_cnt, elem_cnt, DIV_ROUND_UP.
  change ELEM_BITS with 32. replace (n + 32 - 1) with (n + 31) by lia.
  rewrite (u32_small (n + 31)) by (unfold is_u32; lia).
  assert (0 ≤ (n + 31) / 32 ≤ 2 ^ 20).
  { split; [apply Z.div_pos; lia|]. apply Z.div_le_upper_bound; lia. }
  rewrite (u32_small (4 * _)), u32_small; unfold is_u32; lia.
Qed.

(** The bitmap's pages: enough for the bitmap, and never more than the pool. *)
Lemma bm_pages_ok n bm : 1 ≤ n < 2 ^ 20 → bm = DIV_ROUND_UP (bitmap_buf_size n) PGSIZE →
  1 ≤ bm ≤ n ∧ n - bm ≤ 32 * (bm * 1024 - 2) ∧ bitmap_buf_size (n - bm) ≤ bm * 4096.
Proof.
  intros Hn ->. set (bm := DIV_ROUND_UP _ _).
  assert (bm = (8 + 4 * ((n + 31) / 32) + 4095) / 4096) as Hbm.
  { unfold bm, DIV_ROUND_UP. rewrite buf_size_eq by lia. change PGSIZE with 4096.
    rewrite u32_small; [f_equal; lia|]. unfold is_u32.
    assert (0 ≤ (n + 31) / 32 ≤ 2 ^ 20); [|lia].
    split; [apply Z.div_pos; lia|]. apply Z.div_le_upper_bound; lia. }
  clearbody bm. assert (1 ≤ bm ≤ n) by (Z.to_euclidean_division_equations; lia).
  rewrite buf_size_eq by lia. Z.to_euclidean_division_equations; lia.
Qed.

Lemma init_pool_ok m b n :
  0 < b → b mod 4096 = 0 → 1 ≤ n → b + 4096 * n < 2 ^ 32 →
  ∃ p, init_pool m b n = Some p ∧ pool_wf p ∧ b < base p ∧
       base p + pool_size p = b + 4096 * n ∧ ∀ a, pool_used p a = false.
Proof.
  intros Hb Hal Hn Hf. unfold init_pool.
  remember (DIV_ROUND_UP _ _) as bm eqn:Ebm.
  destruct (bm_pages_ok n bm) as (H1 & H2 & H3); [lia|done|].
  rewrite (proj2 (Z.ltb_ge n bm)) by lia. unfold bitmap_create_in_buf.
  change PGSIZE with 4096.
  rewrite (u32_small (bm * 4096)), ASSERT_true by (unfold is_u32; lia || apply Z.leb_le; lia).
  cbn [mbind option_bind]. set (ws := words _ _ _).
  destruct (bitmap_set_all_ok (mk_bitmap (n - bm) ws) false) as (b' & -> & A).
  { split; simpl; [unfold is_u32; lia| |apply words_u32]. unfold ws. rewrite words_length.
    replace ((bm * 4096 - 8) / 4) with (bm * 1024 - 2) by (Z.to_euclidean_division_equations; lia).
    lia. }
  cbn [mbind option_bind]. destruct A as (Wb & Cb & _ & Bb); simpl in *.
  eexists. split; [done|]. rewrite u32_small by (unfold is_u32; lia).
  unfold pool_size. change PGSIZE with 4096. simpl. rewrite Cb.
  split; [|split; [lia|split; [lia|]]].
  - split; unfold pool_size; simpl; [done|lia| |change PGSIZE with 4096; lia].
    by rewrite Z_mod_plus_full.
  - intros a. unfold pool_used. rewrite in_pool_idx; simpl. rewrite Cb.
    set (j := (a - _) / 4096). destruct (in_range 0 (n - bm) j) eqn:E; [|done]. simpl.
    pose proof E as E'. apply in_range_spec in E'. by rewrite Bb, E by lia.
Qed.

Lemma palloc_init_ok m ram limit : 258 ≤ ram < 2 ^ 18 → 1 ≤ limit →
  ∃ s, palloc_init m ram limit = Some s ∧ palloc_wf s ∧ mem s = m ∧ ∀ a, used s a = false.
Proof.
  intros Hr Hl. unfold palloc_init, ptov. change PGSIZE with 4096.
  rewrite !ASSERT_true; [|apply Z.ltb_lt; unfold PHYS_BASE; rewrite ?u32_small; unfold is_u32; lia..].
  cbn [mbind option_bind]. unfold PHYS_BASE.
  rewrite (u32_small (ram * 4096)) by (unfold is_u32; lia).
  rewrite !(u32_small (_ + 3221225472)) by (unfold is_u32; lia).
  replace (int32 _) with ((ram - 256) * 4096) by (rewrite int32_small; lia).
  rewrite Z.quot_mul, (u32_small (ram - 256)) by (unfold is_u32; lia).
  set (n := ram - 256). set (up := if limit <? n / 2 then limit else n / 2).
  assert (1 ≤ up ≤ n / 2) as Hup.
  { unfold up, n. destruct (Z.ltb_spec limit ((ram - 256) / 2)); Z.to_euclidean_division_equations; lia. }
  assert (n / 2 ≤ n - 1) by (unfold n; Z.to_euclidean_division_equations; lia).
  destruct (init_pool_ok m (1024 * 1024 + 3221225472) (n - up)) as (kp & -> & Wk & Hk & Ek & Uk);
    [lia|done|lia|lia|]. cbn [mbind option_bind].
  rewrite u32_small by (unfold is_u32; lia).
  destruct (init_pool_ok m (1024 * 1024 + 3221225472 + (n - up) * 4096) up)
    as (upl & -> & Wu & Hu & Eu & Uu); [lia| |lia|lia|].
  { by rewrite Z_mod_plus_full. }
  eexists. split; [done|]. split; [split; [done|done|simpl; lia]|]. split; [done|].
  intros a. unfold used; simpl. by rewrite Uk, Uu.
Qed.

(** ** Sequences of operations *)

(** A client with its live blocks: it gets blocks, and frees what it got. *)
Definition client : Type := palloc * list (Z * Z).

Inductive palloc_step : client → client → Prop :=
  | step_get s l flags cnt s' pages :
      0 ≤ cnt → palloc_get_multiple s flags cnt = Some (s', pages) →
      palloc_step (s, l) (s', if pages =? NULL then l else (pages, cnt) :: l)
  | step_free s l1 l2 pages cnt s' :
      palloc_free_multiple s pages cnt = Some s' →
      palloc_step (s, l1 ++ (pages, cnt) :: l2) (s', l1 ++ l2).

(** The live blocks that contain the address [a]. *)
Definition blocks_at (l : list (Z * Z)) (a : Z) : list (Z * Z) :=
  filter (λ b, in_block b.1 b.2 a = true) l.

(** Every used page belongs to exactly one live block, every other page to
    none. *)
Record Live (s : palloc) (l : list (Z * Z)) : Prop := {
  live_wf : palloc_wf s;
  live_blocks : Forall (λ b, ∃ u, block_of s u b.1 b.2) l;
  live_exact : ∀ a, length (blocks_at l a) = if used s a then 1%nat else 0%nat;
}.

Lemma same_pools_block s s' u pages cnt :
  same_pools s s' → block_of s u pages cnt → block_of s' u pages cnt.
Proof.
  intros SP (?&?&?&?). destruct (SP u) as [Eb Ec].
  unfold block_of, pool_size. rewrite Eb, Ec. done.
Qed.

Lemma Live_get s l flags cnt s' pages :
  Live s l → 0 ≤ cnt → palloc_get_multiple s flags cnt = Some (s', pages) →
  Live s' (if pages =? NULL then l else (pages, cnt) :: l).
Proof.
  intros [W B E] Hc G. destruct (decide (cnt = 0)) as [->|].
  { injection G as <- <-. done. }
  pose proof (palloc_get_ok s flags cnt W ltac:(lia)) as S. rewrite G in S.
  destruct S as (W' & SP & S). destruct (pages =? NULL).
  - destruct S as [-> _]. done.
  - destruct S as (F & U & _). split; [done| |].
    + constructor.
      * exists (has flags PAL_USER). eapply same_pools_block; [done|].
        destruct F as (?&?&?&_). simpl. split; [lia|done].
      * eapply Forall_impl; [done|]. intros b [u Hb]. exists u. by eapply same_pools_block.
    + intros a. unfold blocks_at. rewrite filter_cons, U; simpl.
      pose proof (free_block_unused s _ _ _ a W F) as N. specialize (E a). unfold blocks_at in E.
      destruct (in_block pages cnt a); simpl; [|done].
      rewrite N in E by done. by rewrite E.
Qed.

(** A live block can be freed. *)
Lemma Live_free s l1 l2 pages cnt : Live s (l1 ++ (pages, cnt) :: l2) →
  ∃ s', palloc_free_multiple s pages cnt = Some s' ∧ Live s' (l1 ++ l2).
Proof.
  intros [W B E]. apply Forall_app in B as [B1 B2].
  apply Forall_cons in B2 as [[u Bu] B2]; simpl in *.
  assert (∀ a, in_block pages cnt a = true → length (blocks_at (l1 ++ l2) a) = 0%nat ∧ used s a = true) as U.
  { intros a Ha. specialize (E a). unfold blocks_at in *. rewrite filter_app, filter_cons in E.
    simpl in E. rewrite decide_True, length_app in E by done. simpl in E.
    rewrite filter_app, length_app. destruct (used s a); split; lia. }
  destruct (palloc_free_ok s u pages cnt W Bu) as (s' & bm & -> & W' & Es' & Hbm & U').
  { intros a Ha. by apply U. }
  exists s'. split; [done|].
  assert (same_pools s s') as SP by (rewrite Es'; by apply same_pools_set).
  split; [done| |].
  - apply Forall_app. split; (eapply Forall_impl; [done|]); intros b [u' Hb]; exists u';
      by eapply same_pools_block.
  - intros a. rewrite U'. destruct (in_block pages cnt a) eqn:Ha; simpl.
    + by apply U.
    + rewrite <-E. unfold blocks_at. rewrite !filter_app, filter_cons. simpl.
      by rewrite decide_False by (rewrite Ha; done).
Qed.

Lemma Live_step c c' : Live c.1 c.2 → palloc_step c c' → Live c'.1 c'.2.
Proof.
  intros L S. destruct S as [s l flags cnt s' pages Hc G|s l1 l2 pages cnt s' G]; simpl in *.
  - by eapply Live_get.
  - destruct (Live_free s l1 l2 pages cnt L) as (s2 & G2 & L2). congruence.
Qed.

Lemma Live_steps c c' : rtc palloc_step c c' → Live c.1 c.2 → Live c'.1 c'.2.
Proof. apply (rtc_invariant palloc_step (λ c, Live c.1 c.2)), Live_step. Qed.

Lemma Live_init s : palloc_wf s → (∀ a, used s a = false) → Live s [].
Proof. intros W U. split; [done|done|]. intros a. by rewrite U. Qed.

(** ** Correctness *)

(** [palloc_get_multiple] returns the address of [cnt] page-aligned pages of
    the pool that the flags choose, none of which was in use, marks exactly
    those pages used, zeroes exactly them when [PAL_ZERO] is given, and writes
    no page in use.  It returns a null pointer, or panics under [PAL_ASSERT],
    only when the pool has no [cnt] consecutive free pages. *)
Theorem palloc_get_multiple_correct s flags cnt :
  palloc_wf s → 0 < cnt →
  get_spec s flags cnt (palloc_get_multiple s flags cnt) ∧
  ∀ s' pages, palloc_get_multiple s flags cnt = Some (s', pages) →
    ∀ a, used s a = true → mem s' a = mem s a.
Proof.
  intros W Hc. pose proof (palloc_get_ok s flags cnt W Hc) as S. split; [done|].
  intros s' pages G a Ha. rewrite G in S. destruct S as (_ & _ & S).
  destruct (pages =? NULL); [by destruct S as [-> _]|]. destruct S as (F & _ & ->).
  destruct (has flags PAL_ZERO); [|done]. unfold fill.
  pose proof (free_block_unused s _ _ _ a W F) as N. unfold in_block in N.
  destruct (in_range _ _ a); [|done]. by rewrite N in Ha.
Qed.

(** C11: from initialization on, whatever blocks clients get and free, each
    address is in at most one live block and is marked used exactly when it is
    in one: no page is handed out twice and none is lost.  Freeing a live block
    never panics. *)
Theorem palloc_blocks_disjoint m ram limit s0 s l :
  258 ≤ ram < 2 ^ 18 → 1 ≤ limit →
  palloc_init m ram limit = Some s0 → rtc palloc_step (s0, []) (s, l) →
  (∀ a, length (blocks_at l a) = if used s a then 1%nat else 0%nat) ∧
  ∀ pages cnt, (pages, cnt) ∈ l → is_Some (palloc_free_multiple s pages cnt).
Proof.
  intros Hr Hl Hi S. destruct (palloc_init_ok m ram limit Hr Hl) as (s1 & E & W & _ & U).
  assert (s1 = s0) as -> by congruence.
  pose proof (Live_steps _ _ S (Live_init s0 W U)) as L; simpl in L.
  split; [apply L|]. intros pages cnt (l1 & l2 & ->)%list_elem_of_split.
  destruct (Live_free s l1 l2 pages cnt L) as (s' & -> & _). by eexists.
Qed.

Definition example : palloc :=
  mk_palloc (mk_pool (mk_bitmap 10 [5]) 65536) (mk_pool (mk_bitmap 5 [0]) 131072) (λ _, 7).

Lemma palloc_get_multiple_correct_witness :
  ∃ s', palloc_get_multiple example PAL_ZERO 2 = Some (s', 65536 + 3 * 4096) ∧
        used example 65536 = true ∧ mem s' 65536 = 7.
Proof.
  assert (∀ n w, 0 ≤ n < 32 → is_u32 w → wf (mk_bitmap n [w])) as Wb.
  { intros n w Hn Hw. split; simpl; [unfold is_u32; lia|lia|by constructor]. }
  assert (palloc_wf example) as W.
  { split; [split..|]; try (apply Wb; unfold is_u32; lia); vm_compute; congruence. }
  destruct (palloc_get_multiple_correct example PAL_ZERO 2 W) as [_ M]; [lia|].
  destruct (palloc_get_multiple example PAL_ZERO 2) as [[s' pages]|] eqn:G; [|by vm_compute in G].
  assert (pages = 65536 + 3 * 4096) as -> by (vm_compute in G; by injection G).
  exists s'. split; [done|]. split; [done|]. by apply (M s' _ eq_refl).
Defined.

Lemma palloc_blocks_disjoint_witness :
  ∃ s0 s pages, palloc_init (λ _, 204) 264 100 = Some s0 ∧
    palloc_get_multiple s0 PAL_USER 2 = Some (s, pages) ∧ pages ≠ NULL ∧
    is_Some (palloc_free_multiple s pages 2).
Proof.
  destruct (palloc_init (λ _, 204) 264 100) as [s0|] eqn:E0; [|by vm_compute in E0].
  destruct (palloc_get_multiple s0 PAL_USER 2) as [[s pages]|] eqn:G.
  - assert (pages ≠ NULL) as Hn.
    { assert ((snd <$> (palloc_init (λ _, 204) 264 100 ≫= λ s, palloc_get_multiple s PAL_USER 2))
               = Some 3222294528) as H by (vm_compute; reflexivity).
      rewrite E0 in H. cbn [mbind option_bind] in H. rewrite G in H. injection H as ->. done. }
    exists s0, s, pages. split; [done|]. split; [done|]. split; [done|].
    apply (palloc_blocks_disjoint (λ _, 204) 264 100 s0 s [(pages, 2)] ltac:(lia) ltac:(lia) E0).
    + apply rtc_once. pose proof (step_get s0 [] PAL_USER 2 s pages ltac:(lia) G) as S.
      by rewrite (proj2 (Z.eqb_neq pages NULL)) in S.
    + by apply list_elem_of_singleton.
  - assert (is_Some (palloc_init (λ _, 204) 264 100 ≫= λ s, palloc_get_multiple s PAL_USER 2))
      as H by (vm_compute; eauto).
    rewrite E0 in H. cbn [mbind option_bind] in H. rewrite G in H. by destruct H.
Defined.
