(* ===== verification/Arith.v ===== *)
(** * 64-bit division ([lib/arithmetic.c])

    The routines GCC calls to divide 64-bit integers.  [divl] is the x86
    instruction: [None] is its divide-error trap.  All arithmetic is reduced to
    the width of the C type it has in the source.  The theorems say that the
    quotients are the mathematical ones and that no division traps. *)

From S2P Require Import Prelude Machine FixedPoint.

Open Scope Z_scope.

Definition u64 (x : Z) : Z := x mod 2 ^ 64.
Definition int64 (x : Z) : Z := (x + 2 ^ 63) mod 2 ^ 64 - 2 ^ 63.

Definition divl (n d : Z) : option Z :=
  let n1 := u32 (Z.shiftr n 32) in
  let n0 := u32 n in
  if (d =? 0) || (d <=? n1) then None else Some ((2 ^ 32 * n1 + n0) / d).

(** One test of [nlz]: when [x] is at most [bound], count and shift. *)
Definition nlz_step (bound k : Z) (nx : Z * Z) : Z * Z :=
  if nx.2 <=? bound then (nx.1 + k, u32 (Z.shiftl nx.2 k)) else nx.

Definition nlz (x : Z) : Z :=
  let nx := (0, x) in
  let nx := nlz_step 65535 16 nx in
  let nx := nlz_step 16777215 8 nx in
  let nx := nlz_step 268435455 4 nx in
  let nx := nlz_step 1073741823 2 nx in
  if nx.2 <=? 2147483647 then nx.1 + 1 else nx.1.

Definition udiv64 (n d : Z) : option Z :=
  if Z.shiftr d 32 =? 0 then
    let b := Z.shiftl 1 32 in
    let n1 := u32 (Z.shiftr n 32) in
    let n0 := u32 n in
    let d0 := u32 d in
    if d0 =? 0 then None
    else
      q ← divl (u64 (b * (n1 mod d0) + n0)) d0;
      Some (u64 (q + b * (n1 / d0)))
  else if n <? d then Some 0
  else
    let d1 := u32 (Z.shiftr d 32) in
    let s := nlz d1 in
    q ← divl (Z.shiftr n 1) (u32 (Z.shiftr (u64 (Z.shiftl d s)) 32));
    let q := Z.shiftr q (31 - s) in
    Some (if u64 (n - u64 (u64 (q - 1) * d)) <? d then u64 (q - 1) else q).

Definition umod64 (n d : Z) : option Z :=
  q ← udiv64 n d; Some (u32 (u64 (n - u64 (d * q)))).

Definition sdiv64 (n d : Z) : option Z :=
  let n_abs := if 0 <=? n then u64 n else u64 (- u64 n) in
  let d_abs := if 0 <=? d then u64 d else u64 (- u64 d) in
  q_abs ← udiv64 n_abs d_abs;
  Some (if eqb (n <? 0) (d <? 0) then int64 q_abs else int64 (- int64 q_abs)).

Definition smod64 (n d : Z) : option Z :=
  q ← sdiv64 n d; Some (int32 (int64 (n - int64 (d * q)))).

Definition __divdi3 (n d : Z) : option Z := sdiv64 n d.
Definition __moddi3 (n d : Z) : option Z := smod64 n d.
Definition __udivdi3 (n d : Z) : option Z := udiv64 n d.
Definition __umoddi3 (n d : Z) : option Z := umod64 n d.

Definition is_u64 (x : Z) : Prop := 0 ≤ x < 2 ^ 64.
Definition is_i64 (x : Z) : Prop := - 2 ^ 63 ≤ x < 2 ^ 63.

(** ** Helpers *)

Lemma u64_small x : is_u64 x → u64 x = x.
Proof. intros. by apply Z.mod_small. Qed.

Lemma int64_small x : is_i64 x → int64 x = x.
Proof. intros [??]. unfold int64. rewrite Z.mod_small; lia. Qed.

(** The instruction divides when the quotient fits. *)
Lemma divl_ok n d : is_u64 n → 0 < d → n / 2 ^ 32 < d → divl n d = Some (n / d).
Proof.
  intros [Hn Hn'] Hd Hq. unfold divl.
  rewrite Z.shiftr_div_pow2 by lia.
  assert (0 ≤ n / 2 ^ 32 < 2 ^ 32).
  { split; [apply Z.div_pos; lia|]. apply Z.div_lt_upper_bound; lia. }
  rewrite (u32_small (n / _)) by done.
  rewrite (proj2 (Z.eqb_neq d 0)), (proj2 (Z.leb_gt d _)) by lia. cbn [orb].
  unfold u32. by rewrite <-Z.div_mod by lia.
Qed.

(** A step of [nlz] moves the leading one into the upper [k] bits when it is in
    the upper [2 * k]. *)
Lemma nlz_step_ok k x0 nx : 0 < k ≤ 16 → 0 ≤ nx.1 → nx.2 = x0 * 2 ^ nx.1 →
  2 ^ (32 - 2 * k) ≤ nx.2 < 2 ^ 32 →
  let r := nlz_step (2 ^ (32 - k) - 1) k nx in
  nx.1 ≤ r.1 ≤ nx.1 + k ∧ r.2 = x0 * 2 ^ r.1 ∧ 2 ^ (32 - k) ≤ r.2 < 2 ^ 32.
Proof.
  intros Hk Hn E Hx r. unfold r, nlz_step. destruct (Z.leb_spec nx.2 (2 ^ (32 - k) - 1)) as [H|H].
  - assert (2 ^ (32 - k) * 2 ^ k = 2 ^ 32) by (rewrite <-Z.pow_add_r by lia; f_equal; lia).
    assert (2 ^ (32 - 2 * k) * 2 ^ k = 2 ^ (32 - k)) by (rewrite <-Z.pow_add_r by lia; f_equal; lia).
    rewrite Z.shiftl_mul_pow2 by lia. rewrite u32_small by (unfold is_u32; nia). simpl.
    split; [lia|]. split; [|nia]. rewrite E, Z.pow_add_r by lia. lia.
  - simpl. split; [lia|]. split; [done|]. lia.
Qed.

Lemma nlz_ok x : 1 ≤ x < 2 ^ 32 → 0 ≤ nlz x ≤ 31 ∧ 2 ^ 31 ≤ x * 2 ^ nlz x < 2 ^ 32.
Proof.
  intros Hx. unfold nlz.
  destruct (nlz_step_ok 16 x (0, x)) as (N1 & E1 & B1); [lia|done|simpl; lia|simpl; lia|].
  change (2 ^ (32 - 16) - 1) with 65535 in *. set (r1 := nlz_step 65535 16 (0, x)) in *.
  destruct (nlz_step_ok 8 x r1) as (N2 & E2 & B2); [lia|simpl in *; lia|done|done|].
  change (2 ^ (32 - 8) - 1) with 16777215 in *. set (r2 := nlz_step _ 8 r1) in *.
  destruct (nlz_step_ok 4 x r2) as (N3 & E3 & B3); [lia|simpl in *; lia|done|done|].
  change (2 ^ (32 - 4) - 1) with 268435455 in *. set (r3 := nlz_step _ 4 r2) in *.
  destruct (nlz_step_ok 2 x r3) as (N4 & E4 & B4); [lia|simpl in *; lia|done|done|].
  change (2 ^ (32 - 2) - 1) with 1073741823 in *. set (r4 := nlz_step _ 2 r3) in *.
  simpl in N1. change (2 ^ (32 - 2)) with 1073741824 in B4.
  destruct (Z.leb_spec r4.2 2147483647).
  - split; [lia|]. rewrite Z.pow_add_r by lia. nia.
  - split; [lia|]. rewrite <-E4. lia.
Qed.

(** The estimate of the long division: dividing by the upper bits [v] of the
    normalized divisor gives the quotient or one more. *)
Lemma estimate_ok n d v P E : 1 ≤ P → 2 ≤ E → (E = 2 ∨ 4 ≤ E) → P * E = 2 ^ 32 →
  2 ^ 31 ≤ v → v * 2 ^ 32 ≤ d * P < (v + 1) * 2 ^ 32 → 0 ≤ n < 2 ^ 64 → 
  n / d ≤ n / (v * E) ≤ n / d + 1.
Proof.
  intros HP HE HE' HPE Hv Hd Hn.
  assert (v * E ≤ d < v * E + E) as He by nia.
  assert (0 < v * E) by nia.
  split; [apply Z.div_le_compat_l; lia|].
  pose proof (Z.div_mod n d) as Eq. pose proof (Z.mod_pos_bound n d).
  set (q := n / d) in *. assert (0 ≤ q) by (apply Z.div_pos; lia).
  enough (n / (v * E) < q + 2) by lia. apply Z.div_lt_upper_bound; [done|].
  assert (q < 2 * P) by nia.
  assert ((q + 1) * (d - v * E) ≤ 2 * P * (E - 1)) by nia.
  assert (2 * P * (E - 1) ≤ v * E) by (destruct HE' as [->|]; nia).
  nia.
Qed.

Lemma udiv64_small n d : is_u64 n → 1 ≤ d < 2 ^ 32 → udiv64 n d = Some (n / d).
Proof.
  intros Hn Hd. unfold udiv64. change (Z.shiftl 1 32) with (2 ^ 32).
  rewrite !Z.shiftr_div_pow2 by lia. rewrite (Z.div_small d) by lia. cbn [Z.eqb].
  rewrite (u32_small d) by (unfold is_u32; lia). rewrite (proj2 (Z.eqb_neq d 0)) by lia.
  set (b := 2 ^ 32) in *. unfold is_u64 in Hn.
  assert (0 ≤ n / b < b).
  { split; [apply Z.div_pos; lia|]. apply Z.div_lt_upper_bound; lia. }
  rewrite (u32_small (n / b)) by done. change (u32 n) with (n mod b).
  pose proof (Z.div_mod n b ltac:(lia)) as En. pose proof (Z.mod_pos_bound n b ltac:(lia)) as Bn.
  set (n1 := n / b) in *. set (n0 := n mod b) in *.
  pose proof (Z.div_mod n1 d ltac:(lia)) as E1. pose proof (Z.mod_pos_bound n1 d ltac:(lia)) as B1.
  set (q1 := n1 / d) in *. set (r1 := n1 mod d) in *.
  assert (0 ≤ q1) by (apply Z.div_pos; lia).
  rewrite (u64_small (b * r1 + n0)) by (unfold is_u64; nia).
  rewrite divl_ok; [|unfold is_u64; nia|lia|].
  - cbn [mbind option_bind]. f_equal.
    assert (n / d = (b * r1 + n0) / d + b * q1) as <-.
    { rewrite <-Z.div_add by lia. f_equal. nia. }
    apply u64_small. unfold is_u64. split; [apply Z.div_pos; lia|].
    apply Z.le_lt_trans with n; [apply Z.div_le_upper_bound; nia|lia].
  - fold b. rewrite Z.mul_comm, Z.div_add_l, (Z.div_small n0) by lia. lia.
Qed.

(** The choice between the estimate and the estimate minus one. *)
Lemma udiv64_select n d q : is_u64 n → 2 ^ 32 ≤ d ≤ n → n / d ≤ q ≤ n / d + 1 → 
  (if u64 (n - u64 (u64 (q - 1) * d)) <? d then u64 (q - 1) else q) = n / d.
Proof.
  intros [Hn Hn'] Hd Hq. pose proof (Z.div_mod n d ltac:(lia)) as E.
  pose proof (Z.mod_pos_bound n d ltac:(lia)) as B.
  assert (1 ≤ n / d) by (apply Z.div_le_lower_bound; lia).
  set (q0 := n / d) in *. set (r := n mod d) in *.
  assert (0 ≤ (q - 1) * d ≤ n) by nia.
  assert (q - 1 ≤ n) by nia.
  rewrite (u64_small (q - 1)) by (unfold is_u64; lia).
  rewrite (u64_small ((q - 1) * d)) by (unfold is_u64; lia).
  rewrite u64_small by (unfold is_u64; lia).
  destruct (Z.ltb_spec (n - (q - 1) * d) d); nia.
Qed.

Lemma udiv64_large n d : is_u64 n → 2 ^ 32 ≤ d < 2 ^ 64 → udiv64 n d = Some (n / d).
Proof.
  intros Hn Hd. pose proof Hn as [Hn0 Hn1]. unfold udiv64. rewrite !Z.shiftr_div_pow2 by lia.
  assert (1 ≤ d / 2 ^ 32 < 2 ^ 32) as Hd1.
  { split; [apply Z.div_le_lower_bound; lia|]. apply Z.div_lt_upper_bound; lia. }
  rewrite (proj2 (Z.eqb_neq (d / _) 0)) by lia.
  destruct (Z.ltb_spec n d) as [Hlt|Hge]; [by rewrite Z.div_small by lia|].
  rewrite (u32_small (d / _)) by (unfold is_u32; lia).
  destruct (nlz_ok (d / 2 ^ 32) Hd1) as [Hs HB]. set (s := nlz _) in *.
  pose proof (Z.div_mod d (2 ^ 32) ltac:(lia)) as Ed.
  pose proof (Z.mod_pos_bound d (2 ^ 32) ltac:(lia)) as Bd.
  assert (2 ^ s * 2 ^ (32 - s) = 2 ^ 32) as HPE by (rewrite <-Z.pow_add_r by lia; f_equal; lia).
  assert (0 < 2 ^ s) by (apply Z.pow_pos_nonneg; lia).
  rewrite Z.shiftl_mul_pow2 by lia.
  assert (2 ^ 63 ≤ d * 2 ^ s < 2 ^ 64) as Hds by nia.
  rewrite (u64_small (d * 2 ^ s)) by (unfold is_u64; lia). 
  pose proof (Z.div_mod (d * 2 ^ s) (2 ^ 32) ltac:(lia)) as Ev.
  pose proof (Z.mod_pos_bound (d * 2 ^ s) (2 ^ 32) ltac:(lia)) as Bv.
  set (v := d * 2 ^ s / 2 ^ 32) in *.
  assert (2 ^ 31 ≤ v < 2 ^ 32) as Hv by nia.
  rewrite (u32_small v) by (unfold is_u32; lia).
  assert (0 ≤ n / 2 ^ 1 < 2 ^ 63).
  { split; [apply Z.div_pos; lia|]. apply Z.div_lt_upper_bound; lia. }
  rewrite divl_ok; [|unfold is_u64; lia|lia|].
  2:{ apply Z.div_lt_upper_bound; lia. }
  cbn [mbind option_bind]. f_equal. rewrite Z.shiftr_div_pow2 by lia.
  assert (n / 2 ^ 1 / v / 2 ^ (31 - s) = n / (v * 2 ^ (32 - s))) as ->.
  { rewrite !Z.div_div by (try apply Z.pow_pos_nonneg; lia || nia). f_equal.
    replace (32 - s) with (1 + (31 - s)) by lia. rewrite Z.pow_add_r by lia. lia. }
  apply udiv64_select; [done|lia|].
  apply (estimate_ok n d v (2 ^ s) (2 ^ (32 - s))); try lia.
  - change 2 with (2 ^ 1) at 1. apply Z.pow_le_mono_r; lia.
  - destruct (decide (s = 31)) as [->|]; [by left|right].
    change 4 with (2 ^ 2). apply Z.pow_le_mono_r; lia.
Qed.

Lemma udiv64_ok n d : is_u64 n → is_u64 d → d ≠ 0 → udiv64 n d = Some (n / d).
Proof.
  intros Hn [Hd Hd'] H0. destruct (decide (d < 2 ^ 32)).
  - apply udiv64_small; [done|lia].
  - apply udiv64_large; [done|lia].
Qed.

(** The absolute value as [sdiv64] computes it. *)
Lemma abs64 x : is_i64 x → (if 0 <=? x then u64 x else u64 (- u64 x)) = Z.abs x.
Proof.
  intros [Hx Hx']. destruct (Z.leb_spec 0 x).
  - rewrite u64_small by (unfold is_u64; lia). lia.
  - unfold u64. rewrite <-(Z_mod_plus_full x 1), (Z.mod_small (x + _)) by lia.
    rewrite <-(Z_mod_plus_full _ 1), Z.mod_small; lia.
Qed.

Lemma quot_signs n d : d ≠ 0 →
  Z.quot n d = if eqb (n <? 0) (d <? 0) then Z.abs n / Z.abs d else - (Z.abs n / Z.abs d).
Proof.
  intros H. rewrite <-Z.quot_div_nonneg by lia.
  destruct (Z.ltb_spec n 0), (Z.ltb_spec d 0); cbn [eqb];
    rewrite ?(Z.abs_neq n), ?(Z.abs_eq n), ?(Z.abs_neq d), ?(Z.abs_eq d) by lia.
  - by rewrite Z.quot_opp_opp.
  - rewrite Z.quot_opp_l by lia. lia.
  - rewrite Z.quot_opp_r by lia. lia.
  - done.
Qed.

(** Only the quotient of the least integer and -1 does not fit. *)
Lemma abs_div_range n d : is_i64 n → d ≠ 0 →
  0 ≤ Z.abs n / Z.abs d ≤ 2 ^ 63 ∧ (Z.abs n / Z.abs d = 2 ^ 63 → n = - 2 ^ 63 ∧ Z.abs d = 1).
Proof.
  intros [Hn Hn'] Hd. assert (0 < Z.abs d) by lia.
  assert (Z.abs n / Z.abs d ≤ Z.abs n) by (apply Z.div_le_upper_bound; nia).
  pose proof (Z.div_pos (Z.abs n) (Z.abs d)). split; [lia|]. intros E.
  assert (n = - 2 ^ 63) by lia. subst n. split; [done|].
  pose proof (Z.mul_div_le (Z.abs (- 2 ^ 63)) (Z.abs d)). nia.
Qed.

Lemma sdiv64_ok n d : is_i64 n → is_i64 d → d ≠ 0 → ¬ (n = - 2 ^ 63 ∧ d = -1) →
  sdiv64 n d = Some (Z.quot n d).
Proof.
  intros Hn Hd H0 Hov. pose proof Hn as [? ?]. pose proof Hd as [? ?].
  unfold sdiv64. rewrite !abs64 by done.
  rewrite udiv64_ok by (unfold is_u64; lia). cbn [mbind option_bind]. f_equal.
  rewrite (quot_signs n d) by done. destruct (abs_div_range n d Hn H0) as [Hr Hm].
  set (q := Z.abs n / Z.abs d) in *. destruct (decide (q = 2 ^ 63)) as [E|].
  - destruct (Hm E) as [-> Ha]. assert (d = 1) as -> by lia. rewrite E. done.
  - rewrite (int64_small q), (int64_small (- q)) by (unfold is_i64; lia). done.
Qed.

(** ** Correctness *)

(** C36: the 64-bit division routines are correct: for every divisor but zero,
    the unsigned quotient is the floor of [n / d] and the signed one is
    truncated towards zero, save [- 2 ^ 63 / -1], which does not fit.  The
    divide instruction inside never traps. *)
Theorem division_correct n d : d ≠ 0 →
  (is_u64 n → is_u64 d → __udivdi3 n d = Some (n / d)) ∧
  (is_i64 n → is_i64 d → ¬ (n = - 2 ^ 63 ∧ d = -1) → __divdi3 n d = Some (Z.quot n d)).
Proof.
  intros H. split; intros; [by apply udiv64_ok|by apply sdiv64_ok].
Qed.

Lemma division_correct_witness :
  __udivdi3 (2 ^ 64 - 1) (2 ^ 33 + 1) = Some 2147483647 ∧ __divdi3 (-7) 2 = Some (-3).
Proof.
  split.
  - destruct (division_correct (2 ^ 64 - 1) (2 ^ 33 + 1)) as [U _]; [lia|].
    rewrite U by (unfold is_u64; lia). reflexivity.
  - destruct (division_correct (-7) 2) as [_ S]; [lia|].
    rewrite S by (unfold is_i64; lia). reflexivity.
Defined.

(** the remainder routines return the remainder cut to 32 bits, since
    [umod64] and [smod64] return 32-bit integers: exact when the divisor is at
    most [2 ^ 32] (unsigned) or [2 ^ 31] in magnitude (signed), and wrong, for
    example, for [2 ^ 40] modulo [2 ^ 41]. *)
Theorem remainder_truncated n d : d ≠ 0 →
  (is_u64 n → is_u64 d → __umoddi3 n d = Some (u32 (n mod d)) ∧
     (d ≤ 2 ^ 32 → __umoddi3 n d = Some (n mod d))) ∧
  (is_i64 n → is_i64 d → ¬ (n = - 2 ^ 63 ∧ d = -1) → __moddi3 n d = Some (int32 (Z.rem n d)) ∧
     (Z.abs d ≤ 2 ^ 31 → __moddi3 n d = Some (Z.rem n d))) ∧
  __umoddi3 (2 ^ 40) (2 ^ 41) = Some 0.
Proof.
  intros H. split; [|split; [|done]].
  - intros Hn Hd. unfold __umoddi3, umod64. rewrite udiv64_ok by done. cbn [mbind option_bind].
    unfold is_u64 in *. pose proof (Z.div_mod n d H). pose proof (Z.mod_pos_bound n d ltac:(lia)).
    assert (0 ≤ d * (n / d)) by (pose proof (Z.div_pos n d); nia).
    rewrite (u64_small (d * _)) by (unfold is_u64; lia).
    rewrite u64_small by (unfold is_u64; lia).
    replace (n - d * (n / d)) with (n mod d) by lia. split; [done|].
    intros. by rewrite u32_small by (unfold is_u32; lia).
  - intros Hn Hd Hov. unfold __moddi3, smod64. rewrite sdiv64_ok by done. cbn [mbind option_bind].
    unfold is_i64 in *. pose proof (Z.quot_rem n d H) as E.
    pose proof (Z.rem_bound_abs n d H). pose proof (Z.rem_sign_mul n d H).
    assert (is_i64 (d * Z.quot n d) ∧ is_i64 (Z.rem n d)) as [R1 R2].
    { pose proof (Z.rem_le (Z.abs n) (Z.abs d) ltac:(lia) ltac:(lia)) as L.
      rewrite Z.rem_abs in L by done. unfold is_i64. destruct (Z.le_gt_cases 0 n); nia. }
    rewrite (int64_small (d * _)) by done.
    replace (n - d * Z.quot n d) with (Z.rem n d) by lia. rewrite int64_small by done.
    split; [done|]. intros. rewrite int32_small by lia. done.
Qed.

Lemma remainder_truncated_witness :
  __umoddi3 1000000 7 = Some 1 ∧ __moddi3 (-7) 2 = Some (-1).
Proof.
  split.
  - destruct (remainder_truncated 1000000 7) as [U _]; [lia|].
    destruct U as [_ U]; [unfold is_u64; lia..|]. rewrite U by lia. reflexivity.
  - destruct (remainder_truncated (-7) 2) as (_ & S & _); [lia|].
    destruct S as [_ S]; [unfold is_i64; lia..|]. rewrite S by lia. reflexivity.
Defined.
