(* ===== verification/Intq.v ===== *)
(** * Interrupt queues ([devices/intq.c])

    A circular buffer shared by kernel threads and interrupt handlers.  The
    operations run with interrupts off, so a thread is interrupted only where
    it sleeps: in [lock_acquire], in [wait], and when [lock_release] lets
    another thread run.  [step] interleaves any number of threads and interrupt
    handlers at these points; [None] is a failed assertion. *)

From S2P Require Import Prelude.

Open Scope Z_scope.

Definition INTQ_BUFSIZE : Z := 64.

(** The lock of the queue is its holder. *)
Record intq := mk_intq {
  lock : option Z;
  not_full : Z;
  not_empty : Z;
  buf : list Z;
  head : Z;
  tail : Z;
}.
#[export] Instance intq_ctor : Ctor intq := λ q,
  mk_intq (lock q) (not_full q) (not_empty q) (buf q) (head q) (tail q).

(** [intq_init] over the memory of [q]. *)
Definition intq_init (q : intq) : intq :=
  q <| lock := None |> <| not_empty := NULL |> <| not_full := NULL |>
    <| tail := 0 |> <| head := 0 |>.

Definition next (pos : Z) : Z := Z.rem (pos + 1) INTQ_BUFSIZE.

Definition intq_empty (q : intq) : bool := head q =? tail q.
Definition intq_full (q : intq) : bool := next (head q) =? tail q.

(** The member of the queue that [wait] and [signal] are given. *)
Inductive waiter := Not_empty | Not_full.

Definition condition (q : intq) (w : waiter) : bool :=
  match w with
  | Not_empty => negb (intq_empty q)
  | Not_full => negb (intq_full q)
  end.
Definition get_waiter (q : intq) (w : waiter) : Z :=
  match w with Not_empty => not_empty q | Not_full => not_full q end.
Definition set_waiter (q : intq) (w : waiter) (t : Z) : intq :=
  match w with
  | Not_empty => q <| not_empty := t |>
  | Not_full => q <| not_full := t |>
  end.

(** [wait] by the thread [current], up to [thread_block]. *)
Definition wait (context : bool) (current : Z) (q : intq) (w : waiter) : option intq :=
  assert! negb context;
  assert! negb (condition q w);
  Some (set_waiter q w current).

(** [signal]: the queue and the thread given to [thread_unblock], if any. *)
Definition signal (q : intq) (w : waiter) : option (intq * option Z) :=
  assert! condition q w;
  let t := get_waiter q w in
  if negb (t =? NULL) then Some (set_waiter q w NULL, Some t) else Some (q, None).

(** The part of [intq_getc] after its loop: the queue, the byte, and the thread
    woken. *)
Definition intq_getc_tail (q : intq) : option (intq * Z * option Z) :=
  byte ← buf q !! Z.to_nat (tail q);
  let q := q <| tail ::= next |> in
  '(q, woken) ← signal q Not_full;
  Some (q, byte, woken).

(** The part of [intq_putc] after its loop. *)
Definition intq_putc_tail (q : intq) (byte : Z) : option (intq * option Z) :=
  _ ← buf q !! Z.to_nat (head q);
  let q := q <| buf ::= <[Z.to_nat (head q) := byte]> |> in
  let q := q <| head ::= next |> in
  signal q Not_empty.

(** ** Threads

    A thread in [intq_getc] or [intq_putc] is at one of these places. *)
Inductive call := Getc | Putc (byte : Z).

Inductive place :=
  | Loop (c : call)      (** about to test the condition of the loop *)
  | Locking (c : call)   (** in [lock_acquire] *)
  | Waiting (c : call)   (** asleep in [wait] *)
  | Woken (c : call)     (** unblocked in [wait] *)
  | Returned (c : call) (byte : Z).

Definition call_waiter (c : call) : waiter :=
  match c with Getc => Not_empty | Putc _ => Not_full end.

(** [got] and [put] record the bytes removed and added, in order. *)
Record state := mk_state {
  queue : intq;
  threads : gmap Z place;
  got : list Z;
  put : list Z;
}.
#[export] Instance state_ctor : Ctor state := λ s,
  mk_state (queue s) (threads s) (got s) (put s).

(** [thread_unblock (t)]: [t] must be blocked. *)
Definition unblock (s : state) (woken : option Z) : option state :=
  match woken with
  | None => Some s
  | Some t =>
      match threads s !! t with
      | Some (Waiting c) => Some (s <| threads ::= <[t := Woken c]> |>)
      | _ => None
      end
  end.

(** The rest of the call once its loop has ended. *)
Definition finish (s : state) (c : call) : option (state * Z) :=
  match c with
  | Getc =>
      '(q, byte, woken) ← intq_getc_tail (queue s);
      s ← unblock (s <| queue := q |> <| got ::= λ l, l ++ [byte] |>) woken;
      Some (s, byte)
  | Putc byte =>
      '(q, woken) ← intq_putc_tail (queue s) byte;
      s ← unblock (s <| queue := q |> <| put ::= λ l, l ++ [byte] |>) woken;
      Some (s, byte)
  end.

(** [lock_acquire] and, once the lock is held, [wait] up to [thread_block]. *)
Definition acquire_and_wait (s : state) (t : Z) (c : call) : option state :=
  match lock (queue s) with
  | Some _ => Some (s <| threads ::= <[t := Locking c]> |>)
  | None =>
      q ← wait false t ((queue s) <| lock := Some t |>) (call_waiter c);
      Some (s <| queue := q |> <| threads ::= <[t := Waiting c]> |>)
  end.

(** What a thread does when it runs, up to the next place where it can stop. *)
Definition thread_step (s : state) (t : Z) (p : place) : option state :=
  match p with
  | Loop c =>
      if negb (condition (queue s) (call_waiter c)) then acquire_and_wait s t c
      else
        '(s, byte) ← finish s c;
        Some (s <| threads ::= <[t := Returned c byte]> |>)
  | Locking c => acquire_and_wait s t c
  | Woken c =>
      assert! bool_decide (lock (queue s) = Some t);
      Some (s <| queue ::= λ q, q <| lock := None |> |> <| threads ::= <[t := Loop c]> |>)
  | Waiting _ | Returned _ _ => Some s
  end.

(** A call from an interrupt handler, which must not sleep. *)
Definition handler_step (s : state) (c : call) : option state :=
  assert! condition (queue s) (call_waiter c);
  '(s, _) ← finish s c;
  Some s.

(** One event: a new call by a thread that has none, the next step of a thread,
    or a call from an interrupt handler. *)
Inductive event :=
  | Call (t : Z) (c : call)
  | Run (t : Z)
  | Interrupt (c : call).

Definition step (s : state) (e : event) : option state :=
  match e with
  | Call t c =>
      if t =? NULL then Some s
      else match threads s !! t with
           | None | Some (Returned _ _) => Some (s <| threads ::= <[t := Loop c]> |>)
           | Some _ => Some s
           end
  | Run t => match threads s !! t with Some p => thread_step s t p | None => Some s end
  | Interrupt c => if condition (queue s) (call_waiter c) then handler_step s c else Some s
  end.

Fixpoint steps (s : state) (es : list event) : option state :=
  match es with
  | [] => Some s
  | e :: es => s ← step s e; steps s es
  end.

Definition start (b : list Z) : state :=
  mk_state (intq_init (mk_intq None 0 0 b 0 0)) ∅ [] [].

(** ** Specification *)

(** The bytes in the queue, oldest first. *)
Definition count (q : intq) : Z := (head q - tail q) mod INTQ_BUFSIZE.
Definition contents (q : intq) : list Z :=
  (λ i, buf q !!! Z.to_nat ((tail q + i) mod INTQ_BUFSIZE)) <$> seqZ 0 (count q).

Record wf (q : intq) : Prop := {
  wf_buf : length (buf q) = 64%nat;
  wf_head : 0 ≤ head q < 64;
  wf_tail : 0 ≤ tail q < 64;
}.

(** ** The circular buffer *)

Lemma next_eq pos : 0 ≤ pos → next pos = (pos + 1) mod 64.
Proof. intros. unfold next, INTQ_BUFSIZE. apply Z.rem_mod_nonneg; lia. Qed.

Lemma count_range q : 0 ≤ count q < 64.
Proof. by apply Z.mod_pos_bound. Qed.

Lemma contents_length q : Z.of_nat (length (contents q)) = count q.
Proof.
  unfold contents. rewrite length_fmap, length_seqZ. pose proof (count_range q). lia.
Qed.

Lemma empty_count q : wf q → (intq_empty q = true ↔ count q = 0).
Proof.
  intros [_ Hh Ht]. unfold intq_empty, count, INTQ_BUFSIZE. rewrite Z.eqb_eq.
  Z.to_euclidean_division_equations; lia.
Qed.

Lemma full_count q : wf q → (intq_full q = true ↔ count q = 63).
Proof.
  intros [_ Hh Ht]. unfold intq_full, count, INTQ_BUFSIZE. rewrite Z.eqb_eq, next_eq by lia.
  Z.to_euclidean_division_equations; lia.
Qed.

(** Taking the oldest byte. *)
Lemma contents_tail q : wf q → 0 < count q →
  contents q = (buf q !!! Z.to_nat (tail q)) :: contents (q <| tail ::= next |>) ∧
  count (q <| tail ::= next |>) = count q - 1.
Proof.
  intros [Hb Hh Ht] Hc.
  assert (count (q <| tail ::= next |>) = count q - 1) as Ec.
  { unfold count, INTQ_BUFSIZE in *; simpl. rewrite next_eq by lia.
    Z.to_euclidean_division_equations; lia. }
  split; [|done]. unfold contents. rewrite Ec, seqZ_cons by lia. cbn [fmap list_fmap].
  f_equal.
  - do 2 f_equal. rewrite Z.add_0_r. apply Z.mod_small. unfold INTQ_BUFSIZE. lia.
  - change (Z.succ 0) with (1 + 0). rewrite <-fmap_add_seqZ, <-list_fmap_compose.
    change (Z.pred (count q)) with (count q - 1). apply list_fmap_ext.
    intros _ i _. simpl. do 2 f_equal. unfold INTQ_BUFSIZE. rewrite next_eq by lia.
    rewrite Z.add_mod_idemp_l by lia. f_equal. lia.
Qed.

(** Adding a byte. *)
Lemma contents_head q byte : wf q → count q < 63 →
  let q' := (q <| buf ::= <[Z.to_nat (head q) := byte]> |>) <| head ::= next |> in
  contents q' = contents q ++ [byte] ∧ count q' = count q + 1.
Proof.
  intros [Hb Hh Ht] Hc q'. pose proof (count_range q) as Hr.
  assert (count q' = count q + 1) as Ec.
  { unfold count, INTQ_BUFSIZE, q' in *; simpl. rewrite next_eq by lia.
    Z.to_euclidean_division_equations; lia. }
  split; [|done]. unfold contents. rewrite Ec.
  rewrite (seqZ_app 0 (count q) 1), fmap_app by lia. f_equal.
  - apply list_fmap_ext. intros k i Hi. simpl.
    assert (0 ≤ i < count q) by (apply lookup_seqZ in Hi; lia).
    apply list_lookup_total_insert_ne. intros E.
    assert (head q = (tail q + i) mod INTQ_BUFSIZE).
    { apply Z2Nat.inj; [lia|by apply Z.mod_pos_bound|done]. }
    unfold count, INTQ_BUFSIZE in *. Z.to_euclidean_division_equations; lia.
  - simpl. f_equal. unfold q'; simpl.
    replace ((tail q + _) mod INTQ_BUFSIZE) with (head q).
    + apply list_lookup_total_insert_eq. lia.
    + unfold count, INTQ_BUFSIZE in *. Z.to_euclidean_division_equations; lia.
Qed.

Lemma wf_next_tail q : wf q → wf (q <| tail ::= next |>).
Proof.
  intros [? ? ?]. split; simpl; [done|done|]. rewrite next_eq by lia. by apply Z.mod_pos_bound.
Qed.

Lemma wf_next_head q i b : wf q → wf ((q <| buf ::= <[i := b]> |>) <| head ::= next |>).
Proof.
  intros [? ? ?]. split; simpl; [by rewrite length_insert| |done].
  rewrite next_eq by lia. by apply Z.mod_pos_bound.
Qed.

Lemma condition_count q w : wf q →
  condition q w = match w with Not_empty => negb (count q =? 0) | Not_full => negb (count q =? 63) end.
Proof.
  intros W. pose proof (empty_count q W). pose proof (full_count q W).
  destruct w; simpl; f_equal; apply eq_true_iff_eq; by rewrite Z.eqb_eq.
Qed.

(** [signal] clears the waiter it wakes. *)
Lemma signal_ok q w : condition q w = true →
  signal q w = Some (set_waiter q w NULL, if get_waiter q w =? NULL then None else Some (get_waiter q w)).
Proof.
  intros H. unfold signal. rewrite ASSERT_true by done. cbn [mbind option_bind].
  destruct (Z.eqb_spec (get_waiter q w) NULL) as [E|]; [|done]. cbn [negb]. do 2 f_equal.
  destruct q, w; simpl in *; by rewrite E.
Qed.

Definition waker (t : Z) : option Z := if t =? NULL then None else Some t.

Lemma intq_getc_tail_ok q : wf q → condition q Not_empty = true →
  ∃ q' byte, intq_getc_tail q = Some (q', byte, waker (not_full q)) ∧ wf q' ∧
    contents q = byte :: contents q' ∧ count q' = count q - 1 ∧
    lock q' = lock q ∧ not_full q' = NULL ∧ not_empty q' = not_empty q.
Proof.
  intros W C. rewrite condition_count in C by done. bool_simp.
  pose proof (count_range q) as Hr. destruct (contents_tail q W) as [Ec En]; [lia|].
  pose proof W as [Hb Hh Ht]. unfold intq_getc_tail.
  rewrite (list_lookup_lookup_total_lt (buf q)) by lia. cbn [mbind option_bind].
  pose proof (wf_next_tail q W) as W'. rewrite signal_ok.
  - eexists _, _. split; [done|]. repeat split; simpl; try done; apply W'.
  - rewrite condition_count, En by done. apply negb_true_iff, Z.eqb_neq. lia.
Qed.

Lemma intq_putc_tail_ok q byte : wf q → condition q Not_full = true →
  ∃ q', intq_putc_tail q byte = Some (q', waker (not_empty q)) ∧ wf q' ∧
    contents q' = contents q ++ [byte] ∧ count q' = count q + 1 ∧
    lock q' = lock q ∧ not_empty q' = NULL ∧ not_full q' = not_full q.
Proof.
  intros W C. rewrite condition_count in C by done. bool_simp.
  pose proof (count_range q) as Hr. destruct (contents_head q byte W) as [Ec En]; [lia|].
  pose proof W as [Hb Hh Ht]. unfold intq_putc_tail.
  rewrite (list_lookup_lookup_total_lt (buf q)) by lia. cbn [mbind option_bind].
  pose proof (wf_next_head q (Z.to_nat (head q)) byte W) as W'. rewrite signal_ok.
  - eexists. split; [done|]. repeat split; simpl; try done; apply W'.
  - rewrite condition_count, En by done. apply negb_true_iff, Z.eqb_neq. lia.
Qed.

(** ** Executions *)

(** The thread is not inside the monitor. *)
Definition outside (p : option place) : Prop :=
  match p with Some (Waiting _) | Some (Woken _) => False | _ => True end.

Record Inv (s : state) : Prop := {
  inv_wf : wf (queue s);
  inv_fifo : put s = got s ++ contents (queue s);
  inv_null : threads s !! NULL = None;
  inv_wait : ∀ t c, threads s !! t = Some (Waiting c) →
    get_waiter (queue s) (call_waiter c) = t ∧ condition (queue s) (call_waiter c) = false;
  inv_waiter : ∀ w, get_waiter (queue s) w ≠ NULL →
    ∃ c, threads s !! get_waiter (queue s) w = Some (Waiting c) ∧ call_waiter c = w;
  inv_lock : ∀ t, ¬ outside (threads s !! t) → lock (queue s) = Some t;
}.

Lemma Inv_place s t p : Inv s → t ≠ NULL → outside (threads s !! t) → outside (Some p) →
  Inv (s <| threads ::= <[t := p]> |>).
Proof.
  intros [W F N A B L] Ht Ho Hp. split; simpl; [done|done|by rewrite lookup_insert_ne| | |].
  - intros t' c E. destruct (decide (t' = t)) as [->|].
    + rewrite lookup_insert_eq in E. by simplify_eq.
    + rewrite lookup_insert_ne in E by done. by apply A.
  - intros w Hw. destruct (B w Hw) as (c & E & Ec). exists c. split; [|done].
    rewrite lookup_insert_ne; [done|]. intros E'. rewrite E', E in Ho. done.
  - intros t' H. destruct (decide (t' = t)) as [->|].
    + rewrite lookup_insert_eq in H. done.
    + rewrite lookup_insert_ne in H by done. by apply L.
Qed.

(** The other call's waiter, which the end of a call signals. *)
Definition other (w : waiter) : waiter :=
  match w with Not_empty => Not_full | Not_full => Not_empty end.

(** Waking the other waiter after the queue has changed. *)
Lemma Inv_signal s q g p c :
  Inv s → condition (queue s) (call_waiter c) = true → wf q → p = g ++ contents q →
  lock q = lock (queue s) → get_waiter q (other (call_waiter c)) = NULL →
  get_waiter q (call_waiter c) = get_waiter (queue s) (call_waiter c) →
  ∃ s', unblock (mk_state q (threads s) g p)
          (waker (get_waiter (queue s) (other (call_waiter c)))) = Some s' ∧ Inv s' ∧
    queue s' = q ∧
    ∀ t, outside (threads s !! t) → threads s' !! t = threads s !! t.
Proof.
  intros I C W F EL En Es.
  assert (get_waiter (queue s) (call_waiter c) = NULL) as Hs.
  { destruct (decide (get_waiter (queue s) (call_waiter c) = NULL)) as [|N]; [done|].
    destruct (inv_waiter s I _ N) as (c' & E' & Ec'). apply (inv_wait s I) in E' as [_ E'].
    rewrite Ec', C in E'. done. }
  assert (∀ w, get_waiter q w = NULL) as Hq.
  { intros w. destruct w, c; simpl in *; congruence. }
  unfold waker. set (t := get_waiter (queue s) (other (call_waiter c))).
  destruct (Z.eqb_spec t NULL) as [Ht|Ht].
  - eexists. split; [done|]. split; [|done]. split; simpl; [done|done|apply I| | |].
    + intros t' c' E. apply (inv_wait s I) in E as E'. destruct E' as [E' _].
      exfalso. assert (t' = NULL) as ->.
      { rewrite <-E'. unfold t in Ht; destruct c, c'; simpl in *; congruence. }
      rewrite (inv_null s I) in E. done.
    + intros w Hw. by rewrite Hq in Hw.
    + rewrite EL. apply I.
  - destruct (inv_waiter s I _ Ht) as (c' & E' & Ec'). fold t in E'. simpl. rewrite E'.
    eexists. split; [done|]. split; [|split; [done|]].
    + split; simpl; [done|done|rewrite lookup_insert_ne; [apply I|done]| | |].
      * intros t' c2 E. exfalso. destruct (decide (t' = t)) as [->|N].
        { rewrite lookup_insert_eq in E. done. }
        rewrite lookup_insert_ne in E by done.
        pose proof (inv_lock s I t' ltac:(rewrite E; intros [])) as L1.
        pose proof (inv_lock s I t ltac:(rewrite E'; intros [])) as L2. congruence.
      * intros w Hw. by rewrite Hq in Hw.
      * intros t' H. rewrite EL. destruct (decide (t' = t)) as [->|N].
        { apply (inv_lock s I). rewrite E'. intros []. }
        rewrite lookup_insert_ne in H by done. by apply (inv_lock s I).
    + intros t' Ho. simpl. apply lookup_insert_ne. intros <-. by rewrite E' in Ho.
Qed.

Lemma finish_ok s c : Inv s → condition (queue s) (call_waiter c) = true →
  ∃ s' b, finish s c = Some (s', b) ∧ Inv s' ∧
    ∀ t, outside (threads s !! t) → threads s' !! t = threads s !! t.
Proof.
  intros I C. pose proof (inv_wf s I) as W. destruct c as [|byte]; simpl in C.
  - destruct (intq_getc_tail_ok (queue s) W C) as (q & b & Eq & W' & Ec & _ & EL & En & Es).
    destruct (Inv_signal s q (got s ++ [b]) (put s) Getc) as (s' & U & I' & _ & T); simpl in *;
      [done|done|done| |done|done|done|].
    { rewrite (inv_fifo s I), Ec, <-app_assoc. done. }
    exists s', b. simpl. rewrite Eq. cbn [mbind option_bind].
    change (unblock _ _) with (unblock (mk_state q (threads s) (got s ++ [b]) (put s)) (waker (not_full (queue s)))).
    rewrite U. done.
  - destruct (intq_putc_tail_ok (queue s) byte W C) as (q & Eq & W' & Ec & _ & EL & En & Es).
    destruct (Inv_signal s q (got s) (put s ++ [byte]) (Putc byte)) as (s' & U & I' & _ & T);
      simpl in *; [done|done|done| |done|done|done|].
    { rewrite (inv_fifo s I), Ec, app_assoc. done. }
    exists s', byte. simpl. rewrite Eq. cbn [mbind option_bind].
    change (unblock _ _) with (unblock (mk_state q (threads s) (got s) (put s ++ [byte])) (waker (not_empty (queue s)))).
    rewrite U. done.
Qed.

(** A thread that slept in [lock_acquire] gets the lock when its condition has
    become true in the meantime. *)
Definition stale (s : state) (e : event) : Prop :=
  ∃ t c, e = Run t ∧ threads s !! t = Some (Locking c) ∧
         lock (queue s) = None ∧ condition (queue s) (call_waiter c) = true.

Lemma condition_lock q l w : condition (q <| lock := l |>) w = condition q w.
Proof. by destruct w. Qed.

Lemma acquire_ok s t c : Inv s → t ≠ NULL → outside (threads s !! t) →
  (lock (queue s) = None → condition (queue s) (call_waiter c) = false) →
  ∃ s', acquire_and_wait s t c = Some s' ∧ Inv s'.
Proof.
  intros I Ht Ho HC. unfold acquire_and_wait. destruct (lock (queue s)) as [h|] eqn:EL.
  - eexists. split; [done|]. by apply Inv_place.
  - specialize (HC eq_refl). destruct I as [W F N A B L].
    assert (∀ t', outside (threads s !! t')) as Out.
    { intros t'. destruct (threads s !! t') as [[]|] eqn:E; try exact Logic.I;
        specialize (L t'); rewrite E, EL in L; discriminate L; intros []. }
    assert (∀ w, get_waiter (queue s) w = NULL) as Hq.
    { intros w. destruct (decide (get_waiter (queue s) w = NULL)) as [|Hw]; [done|].
      destruct (B w Hw) as (c' & E & _). specialize (Out (get_waiter (queue s) w)).
      rewrite E in Out. done. }
    unfold wait. rewrite !ASSERT_true; [|done|by rewrite condition_lock, HC].
    cbn [mbind option_bind]. eexists. split; [done|]. split; simpl.
    + destruct c; destruct W; by split.
    + rewrite F. by destruct c.
    + by rewrite lookup_insert_ne.
    + intros t' c' E. destruct (decide (t' = t)) as [->|].
      * rewrite lookup_insert_eq in E. simplify_eq. by destruct c'.
      * rewrite lookup_insert_ne in E by done. specialize (Out t'). by rewrite E in Out.
    + intros w Hw. pose proof (Hq w). exists c.
      destruct w, c; simpl in *; try done; by rewrite lookup_insert_eq.
    + intros t' H. destruct (decide (t' = t)) as [->|]; [by destruct c|].
      rewrite lookup_insert_ne in H by done. by destruct H.
Qed.

(** A woken thread holds the lock and releases it. *)
Lemma release_ok s t c : Inv s → t ≠ NULL → threads s !! t = Some (Woken c) →
  ∃ s', thread_step s t (Woken c) = Some s' ∧ Inv s'.
Proof.
  intros I Ht E. simpl.
  assert (lock (queue s) = Some t) as L by (apply I; rewrite E; intros []).
  rewrite ASSERT_true by (by apply bool_decide_eq_true). cbn [mbind option_bind].
  eexists. split; [done|]. destruct I as [W F N A B LK].
  split; simpl; [destruct W; by split|by rewrite F|by rewrite lookup_insert_ne| | |].
  * intros t' c' E'. destruct (decide (t' = t)) as [->|].
    { rewrite lookup_insert_eq in E'. done. }
    rewrite lookup_insert_ne in E' by done. destruct (A t' c' E'). by destruct c'.
  * intros w Hw. destruct (B w) as (c' & E' & Ec'); [by destruct w|].
    exists c'. split; [|done].
    replace (get_waiter _ w) with (get_waiter (queue s) w) by (by destruct w).
    rewrite lookup_insert_ne; [done|]. intros Et. rewrite <-Et, E in E'. done.
  * intros t' H. destruct (decide (t' = t)) as [->|].
    { rewrite lookup_insert_eq in H. by destruct H. }
    rewrite lookup_insert_ne in H by done. apply LK in H. congruence.
Qed.

Lemma step_ok s e : Inv s →
  (stale s e ∧ step s e = None) ∨ (¬ stale s e ∧ ∃ s', step s e = Some s' ∧ Inv s').
Proof.
  intros I. destruct e as [t c|t|c]; simpl.
  - right. split; [intros (?&?&?&_); done|]. destruct (Z.eqb_spec t NULL) as [|Ht]; [by eexists|].
    destruct (threads s !! t) as [[]|] eqn:E; try (by eexists);
      (eexists; split; [done|]; apply Inv_place; [done|done|by rewrite E|done]).
  - destruct (threads s !! t) as [p|] eqn:E.
    2:{ right. split; [|by eexists]. intros (t'&c&?&E'&_). simplify_eq. }
    assert (t ≠ NULL) as Ht by (intros ->; by rewrite (inv_null s I) in E).
    destruct p as [c|c|c|c|c b]; cbn [thread_step].
    + right. split; [intros (t'&c'&?&E'&_); simplify_eq|].
      destruct (condition (queue s) (call_waiter c)) eqn:C; simpl.
      * destruct (finish_ok s c I C) as (s' & b & -> & I' & T). cbn [mbind option_bind].
        eexists. split; [done|]. apply Inv_place; [done|done| |done].
        by rewrite T, E by (by rewrite E).
      * apply acquire_ok; [done|done|by rewrite E|done].
    + destruct (lock (queue s)) eqn:EL, (condition (queue s) (call_waiter c)) eqn:C;
        try (right; split; [intros (t'&c'&[= <-]&E'&?&?); congruence|];
             apply acquire_ok; [done|done|by rewrite E|by rewrite EL, C]).
      left. split; [by exists t, c|]. unfold acquire_and_wait, wait. rewrite EL.
      by rewrite condition_lock, C.
    + right. split; [intros (t'&c'&?&E'&_); simplify_eq|by eexists].
    + right. split; [intros (t'&c'&?&E'&_); simplify_eq|].
      by apply release_ok.
    + right. split; [intros (t'&c'&?&E'&_); simplify_eq|by eexists].
  - right. split; [intros (?&?&?&_); done|].
    destruct (condition (queue s) (call_waiter c)) eqn:C; [|by eexists].
    unfold handler_step. rewrite ASSERT_true by done. cbn [mbind option_bind].
    destruct (finish_ok s c I C) as (s' & b & -> & I' & _). by eexists.
Qed.

Lemma start_Inv b : length b = 64%nat → Inv (start b).
Proof.
  intros Hb. split; simpl; [split; simpl; lia|done|done|done| |].
  - intros []; done.
  - intros t H. destruct H. by rewrite lookup_empty.
Qed.

Lemma intq_steps_Inv es s s' : Inv s → steps s es = Some s' → Inv s'.
Proof.
  revert s. induction es as [|e es IH]; intros s I S; simpl in S; [by simplify_eq|].
  destruct (step_ok s e I) as [[_ E]|[_ (s1 & E & I1)]]; rewrite E in S; [done|].
  by apply (IH s1).
Qed.

(** ** Correctness *)

(** C28: in every interleaving of threads and interrupt handlers, the queue is a
    FIFO of at most 63 bytes: the bytes put are those got followed by those
    still in the queue.  No wakeup is lost: a thread asleep in [wait] is the
    recorded waiter, holds the queue's lock, and its condition is false. *)
Theorem intq_fifo b es s : length b = 64%nat → steps (start b) es = Some s →
  put s = got s ++ contents (queue s) ∧ (length (contents (queue s)) ≤ 63)%nat ∧
  ∀ t c, threads s !! t = Some (Waiting c) →
    get_waiter (queue s) (call_waiter c) = t ∧ lock (queue s) = Some t ∧
    condition (queue s) (call_waiter c) = false.
Proof.
  intros Hb S. pose proof (intq_steps_Inv es _ s (start_Inv b Hb) S) as I.
  split; [apply I|]. split.
  - pose proof (contents_length (queue s)). pose proof (count_range (queue s)). lia.
  - intros t c E. destruct (inv_wait s I t c E) as [? ?]. split; [done|]. split; [|done].
    apply (inv_lock s I). rewrite E. intros [].
Qed.

Lemma intq_fifo_witness :
  ∃ s, steps (start (replicate 64 0))
         [Call 1 Getc; Run 1; Interrupt (Putc 7); Interrupt (Putc 8); Run 1; Run 1] = Some s ∧
       put s = [7; 8] ∧ got s = [7] ∧ put s = got s ++ contents (queue s).
Proof.
  destruct (steps (start (replicate 64 0))
    [Call 1 Getc; Run 1; Interrupt (Putc 7); Interrupt (Putc 8); Run 1; Run 1]) as [s|] eqn:E;
    [|by vm_compute in E].
  exists s. split; [done|].
  split; [by vm_compute in E; injection E as <-|]. split; [by vm_compute in E; injection E as <-|].
  by apply (intq_fifo (replicate 64 0) _ s eq_refl E).
Defined.

(** the only assertion that can fail is the one in [wait], and it fails
    exactly when a thread that slept in [lock_acquire] runs after the lock has
    been released while its condition has become true.  Two readers and two
    bytes suffice: the queue is not safe for more than one sleeping thread. *)
Theorem intq_panics_when_stale b es s e : length b = 64%nat → steps (start b) es = Some s →
  (step s e = None ↔ stale s e) ∧
  steps (start b) [Call 1 Getc; Run 1; Call 2 Getc; Run 2; Interrupt (Putc 7);
                   Interrupt (Putc 8); Run 1; Run 1; Run 2] = None.
Proof.
  intros Hb S. split.
  - pose proof (intq_steps_Inv es _ s (start_Inv b Hb) S) as I.
    destruct (step_ok s e I) as [[? E]|[? (s1 & E & _)]]; rewrite E; split; done.
  - do 65 (destruct b as [|? b]; try discriminate Hb). vm_compute. reflexivity.
Qed.

Lemma intq_panics_when_stale_witness :
  ∃ s, steps (start (replicate 64 0))
         [Call 1 Getc; Run 1; Call 2 Getc; Run 2; Interrupt (Putc 7);
          Interrupt (Putc 8); Run 1; Run 1] = Some s ∧ stale s (Run 2).
Proof.
  destruct (steps (start (replicate 64 0))
    [Call 1 Getc; Run 1; Call 2 Getc; Run 2; Interrupt (Putc 7);
     Interrupt (Putc 8); Run 1; Run 1]) as [s|] eqn:E; [|by vm_compute in E].
  exists s. split; [done|].
  destruct (intq_panics_when_stale (replicate 64 0) _ s (Run 2) eq_refl E) as [H _].
  apply H. vm_compute in E. injection E as <-. reflexivity.
Defined.
