(* ===== verification/Block.v ===== *)
(** * Block devices and partitions ([devices/block.c], [devices/partition.c])

    A driver is an instance of [BlockOps], the [struct block_operations] of the
    code; [BlockDev] says what the block layer and the file system rely on: the
    device is an array of sectors.  [disk] is a driver that keeps its sectors in
    memory; [partition] is the one of [partition.c], on top of any other block
    device.  A [block] here owns its driver, as the file system needs it; the list
    of all devices, which share their disks, and their names and statistics are
    in [Registry]. *)

From S2P Require Import Prelude Machine Bytes.

Open Scope Z_scope.

Definition BLOCK_SECTOR_SIZE : Z := 512.

Inductive block_type := BLOCK_KERNEL | BLOCK_FILESYS | BLOCK_SCRATCH | BLOCK_SWAP
  | BLOCK_RAW | BLOCK_FOREIGN.
#[export] Instance block_type_eq_dec : EqDecision block_type.
Proof. solve_decision. Defined.

(** [struct block_operations]. *)
Class BlockOps (D : Type) := {
  dev_read : D → Z → option (list Z);
  dev_write : D → Z → list Z → option D;
}.

Record block (D : Type) := mk_block {
  type : block_type;
  size : Z;
  aux : D;
}.
Arguments mk_block {D} _ _ _.
Arguments type {D} _.
Arguments size {D} _.
Arguments aux {D} _.
#[export] Instance block_ctor D : Ctor (block D) := λ b, mk_block (type b) (size b) (aux b).

Definition block_size {D} (b : block D) : Z := size b.

Definition check_sector {D} (b : block D) (sector : Z) : option unit :=
  if size b <=? sector then None else Some tt.

Definition block_read {D} `{BlockOps D} (b : block D) (sector : Z) : option (list Z) :=
  _ ← check_sector b sector;
  dev_read (aux b) sector.

Definition block_write {D} `{BlockOps D} (b : block D) (sector : Z) (buffer : list Z) :
    option (block D) :=
  _ ← check_sector b sector;
  assert! bool_decide (type b ≠ BLOCK_FOREIGN);
  d ← dev_write (aux b) sector buffer;
  Some (b <| aux := d |>).

(** ** Partitions *)

Record partition (D : Type) := mk_partition {
  p_block : block D;
  p_start : Z;
}.
Arguments mk_partition {D} _ _.
Arguments p_block {D} _.
Arguments p_start {D} _.

Definition partition_read {D} `{BlockOps D} (p : partition D) (sector : Z) : option (list Z) :=
  block_read (p_block p) (u32 (p_start p + sector)).

Definition partition_write {D} `{BlockOps D} (p : partition D) (sector : Z) (buffer : list Z) :
    option (partition D) :=
  b ← block_write (p_block p) (u32 (p_start p + sector)) buffer;
  Some (mk_partition b (p_start p)).

#[export] Instance partition_operations {D} `{BlockOps D} : BlockOps (partition D) := {
  dev_read := partition_read;
  dev_write := partition_write;
}.

(** [found_partition], up to [block_register]: the new block device, or [None]
    for a partition that does not fit its device. *)
Definition found_partition {D} (b : block D) (part_type start sz : Z) :
    option (block (partition D)) :=
  if block_size b <=? start then None
  else if (u32 (start + sz) <? start) || (block_size b <? u32 (start + sz)) then None
  else
    let ty :=
      if part_type =? 32 then BLOCK_KERNEL
      else if part_type =? 33 then BLOCK_FILESYS
      else if part_type =? 34 then BLOCK_SCRATCH
      else if part_type =? 35 then BLOCK_SWAP
      else BLOCK_FOREIGN in
    Some (mk_block ty sz (mk_partition b start)).

(** An entry of the partition table, its fields that the code reads. *)
Record partition_table_entry := mk_entry {
  e_type : Z;
  e_offset : Z;
  e_size : Z;
}.

(** The fields of the packed [struct partition_table]: entry [i] is at byte 446 +
    16 i, the signature at byte 510. *)
Definition pt_entry (pt : list Z) (i : nat) : partition_table_entry :=
  let o := (446 + 16 * i)%nat in
  mk_entry (le (slice (o + 4) 1 pt)) (le (slice (o + 8) 4 pt)) (le (slice (o + 12) 4 pt)).
Definition pt_signature (pt : list Z) : Z := le (slice 510 2 pt).

Definition is_extended (ty : Z) : bool :=
  (ty =? 5) || (ty =? 15) || (ty =? 133) || (ty =? 197).

(** What [found_partition] is called with, and the number it gives the
    partition. *)
Record found := mk_found {
  f_type : Z;
  f_start : Z;
  f_size : Z;
  f_nr : Z;
}.

(** [read_partition_table] with at most [fuel] nested calls ([None] is running
    out of them, or a panic); [acc] has the partitions found so far, whose
    number is [*part_nr]. *)
Fixpoint read_partition_table {D} `{BlockOps D} (fuel : nat) (b : block D)
    (sector primary_extended_sector : Z) (acc : list found) : option (list found) :=
  match fuel with
  | O => None
  | S fuel =>
      if block_size b <=? sector then Some acc
      else
        pt ← block_read b 0;
        if negb (pt_signature pt =? 43605) then Some acc
        else
          foldl (λ (r : option (list found)) (i : nat),
            acc ← r;
            let e := pt_entry pt i in
            if (e_size e =? 0) || (e_type e =? 0) then Some acc
            else if is_extended (e_type e) then
              if sector =? 0 then
                read_partition_table fuel b (e_offset e) (e_offset e) acc
              else
                read_partition_table fuel b (u32 (e_offset e + primary_extended_sector))
                  primary_extended_sector acc
            else
              Some (acc ++ [mk_found (e_type e) (u32 (e_offset e + sector)) (e_size e)
                              (Z.of_nat (length acc) + 1)]))
            (Some acc) (seq 0 4)
  end.

Definition partition_scan {D} `{BlockOps D} (fuel : nat) (b : block D) : option (list found) :=
  read_partition_table fuel b 0 0 [].

(** ** What a driver promises *)

Definition sector_ok (s : list Z) : Prop := length s = 512%nat ∧ Forall is_byte s.

Class BlockDev (D : Type) `{BlockOps D} := {
  dev_data : D → list (list Z);
  dev_ok : D → Prop;
  dev_sectors d : dev_ok d → Forall sector_ok (dev_data d);
  dev_read_law d s b : dev_ok d → dev_data d !! Z.to_nat s = Some b → 0 ≤ s →
    dev_read d s = Some b;
  dev_write_law d s old b : dev_ok d → dev_data d !! Z.to_nat s = Some old → 0 ≤ s →
    sector_ok b →
    ∃ d', dev_write d s b = Some d' ∧ dev_ok d' ∧ dev_data d' = <[Z.to_nat s := b]> (dev_data d);
}.

(** The sectors of a block device. *)
Definition block_data {D} `{BlockDev D} (b : block D) : list (list Z) :=
  take (Z.to_nat (size b)) (dev_data (aux b)).

Record block_ok {D} `{BlockDev D} (b : block D) : Prop := {
  block_dev : dev_ok (aux b);
  block_len : size b ≤ Z.of_nat (length (dev_data (aux b)));
  block_u32 : is_u32 (size b);
  block_type_ok : type b ≠ BLOCK_FOREIGN;
}.

(** A disk in memory. *)
Record disk := mk_disk { d_sectors : list (list Z) }.
#[export] Instance disk_operations : BlockOps disk := {
  dev_read d s := d_sectors d !! Z.to_nat s;
  dev_write d s b :=
    _ ← d_sectors d !! Z.to_nat s;
    Some (mk_disk (<[Z.to_nat s := b]> (d_sectors d)));
}.

#[export] Instance disk_dev : BlockDev disk.
Proof.
  refine {| dev_data := d_sectors; dev_ok d := Forall sector_ok (d_sectors d) |}; [done|done|].
  intros d s old b F E Hs Hb. simpl. rewrite E. eexists. split; [done|]. split; [|done].
  by apply Forall_insert.
Defined.

(** ** The block layer *)

Section block.

Context {D : Type} `{BlockDev D}.
Implicit Types b : block D.

Lemma block_data_len b : block_ok b → Z.of_nat (length (block_data b)) = size b.
Proof.
  intros [_ L [? _] _]. unfold block_data. rewrite length_take. lia.
Qed.

Lemma block_sectors b : block_ok b → Forall sector_ok (block_data b).
Proof. intros B. by apply Forall_take, dev_sectors, B. Qed.

Lemma block_sector b s : block_ok b → 0 ≤ s < size b →
  ∃ c, block_data b !! Z.to_nat s = Some c ∧ sector_ok c.
Proof.
  intros B Hs. destruct (lookup_lt_is_Some_2 (block_data b) (Z.to_nat s)) as [c Hc].
  { pose proof (block_data_len b B). lia. }
  exists c. split; [done|]. by apply (Forall_lookup_1 _ _ _ _ (block_sectors b B) Hc).
Qed.

(** A read within the device returns the sector. *)
Lemma block_read_ok b s c : block_ok b → 0 ≤ s → block_data b !! Z.to_nat s = Some c →
  block_read b s = Some c.
Proof.
  intros B Hs E. unfold block_read, check_sector.
  pose proof (lookup_lt_Some _ _ _ E) as L. pose proof (block_data_len b B).
  rewrite (proj2 (Z.leb_gt _ _)) by lia. cbn [mbind option_bind].
  apply dev_read_law; [apply B| |done].
  by apply lookup_take_Some in E as [E _].
Qed.

(** A write within the device replaces the sector. *)
Lemma block_write_ok b s c : block_ok b → 0 ≤ s < size b → sector_ok c →
  ∃ b', block_write b s c = Some b' ∧ block_ok b' ∧ size b' = size b ∧ type b' = type b ∧
        block_data b' = <[Z.to_nat s := c]> (block_data b).
Proof.
  intros B Hs Hc. unfold block_write, check_sector.
  rewrite (proj2 (Z.leb_gt _ _)) by lia. cbn [mbind option_bind].
  rewrite ASSERT_true by (apply bool_decide_eq_true; apply B). cbn [mbind option_bind].
  destruct (block_sector b s B Hs) as (old & E & _).
  apply lookup_take_Some in E as [E L].
  destruct (dev_write_law (aux b) s old c) as (d & -> & Hd & Ed); [apply B|done|lia|done|].
  cbn [mbind option_bind]. eexists. split; [done|]. unfold block_data. simpl.
  split; [|split; [done|split; [done|]]].
  - destruct B. split; simpl; [done|by rewrite Ed, length_insert|done|done].
  - rewrite Ed. by apply take_insert_lt.
Qed.

(** An access past the end of the device panics. *)
Lemma block_past_end b s c : size b ≤ s → block_read b s = None ∧ block_write b s c = None.
Proof.
  intros Hs. unfold block_read, block_write, check_sector.
  by rewrite (proj2 (Z.leb_le _ _)).
Qed.
End block.

(** A partition is a block device whose sectors are those of its device from its
    start on. *)
#[export] Instance partition_dev D `{BlockDev D} : BlockDev (partition D).
Proof.
  refine {| dev_data p := drop (Z.to_nat (p_start p)) (block_data (p_block p));
            dev_ok p := block_ok (p_block p) ∧ is_u32 (p_start p) |}.
  - intros p [B _]. by apply Forall_drop, block_sectors.
  - intros p s b [B [Hp _]] E Hs. rewrite lookup_drop in E.
    pose proof (lookup_lt_Some _ _ _ E) as L. pose proof (block_data_len _ B) as Hl.
    destruct (block_u32 _ B) as [_ ?].
    unfold dev_read; simpl. unfold partition_read.
    rewrite u32_small by (unfold is_u32; lia).
    apply block_read_ok; [done|lia|]. by rewrite Z2Nat.inj_add.
  - intros p s old b [B [Hp ?]] E Hs Hb. rewrite lookup_drop in E.
    pose proof (lookup_lt_Some _ _ _ E) as L. pose proof (block_data_len _ B) as Hl.
    destruct (block_u32 _ B) as [_ ?].
    unfold dev_write; simpl. unfold partition_write.
    rewrite u32_small by (unfold is_u32; lia).
    destruct (block_write_ok (p_block p) (p_start p + s) b B) as (b' & -> & B' & _ & _ & Ed);
      [lia|done|].
    cbn [mbind option_bind]. eexists. split; [done|]. split; [by split|]. simpl.
    rewrite Ed, drop_insert_ge by lia. f_equal. lia.
Defined.

(** ** Correctness *)

(** a partition that [found_partition] accepts is a block device of its own
    that stays inside its bounds: it satisfies the driver's contract, its
    sectors are exactly [start .. start + size - 1] of the underlying device, a
    write through it changes that one sector of the underlying device, and an
    access past its end panics instead of reaching the next partition. *)
Theorem partition_window {D} `{BlockDev D} (b : block D) ty start sz pb :
  block_ok b → is_u32 start → is_u32 sz → found_partition b ty start sz = Some pb →
  type pb ≠ BLOCK_FOREIGN →
  block_ok pb ∧
  block_data pb = take (Z.to_nat sz) (drop (Z.to_nat start) (block_data b)) ∧
  (∀ s c, 0 ≤ s < sz → sector_ok c → ∃ pb', block_write pb s c = Some pb' ∧
     block_data (p_block (aux pb')) = <[Z.to_nat (start + s) := c]> (block_data b)) ∧
  (∀ s c, sz ≤ s → block_read pb s = None ∧ block_write pb s c = None).
Proof.
  intros B [Hs0 Hs1] [Hz0 Hz1] F T. pose proof (block_data_len b B) as Hl.
  destruct (block_u32 b B) as [_ Hsz]. unfold found_partition, block_size in F.
  destruct (Z.leb_spec (size b) start); [done|].
  destruct (Z.ltb_spec (u32 (start + sz)) start) as [|Hw1]; [done|].
  destruct (Z.ltb_spec (size b) (u32 (start + sz))) as [|Hw2]; [done|]. cbn [orb] in F.
  assert (start + sz ≤ size b) as Hle.
  { unfold u32 in *. destruct (decide (start + sz < 2 ^ 32)).
    - rewrite Z.mod_small in * by lia. lia.
    - exfalso. rewrite <-(Z_mod_plus_full _ (-1)), Z.mod_small in Hw1 by lia. lia. }
  injection F as <-. cbn [type] in T. split; [|split; [done|split]].
  - split; simpl; [by split| |done|done]. rewrite length_drop. lia.
  - intros s c Hs Hc. unfold block_write at 1, check_sector; simpl.
    rewrite (proj2 (Z.leb_gt _ _)) by lia. cbn [mbind option_bind].
    rewrite ASSERT_true by (by apply bool_decide_eq_true). cbn [mbind option_bind].
    unfold partition_write; simpl. rewrite u32_small by (unfold is_u32; lia).
    destruct (block_write_ok b (start + s) c B) as (b' & -> & _ & _ & _ & Ed); [lia|done|].
    by eexists.
  - intros s c Hs. by apply block_past_end.
Qed.

Lemma partition_window_witness :
  ∃ pb, found_partition (mk_block BLOCK_RAW 4 (mk_disk (replicate 4 (replicate 512 7)))) 33 1 2 = Some pb ∧
        block_ok pb.
Proof.
  assert (sector_ok (replicate 512 7)) as S.
  { split; [done|]. apply Forall_replicate. unfold is_byte. lia. }
  set (b := mk_block BLOCK_RAW 4 (mk_disk (replicate 4 (replicate 512 7)))).
  assert (block_ok b) as B.
  { split; [by apply (Forall_replicate _ 4)|done|unfold is_u32; simpl; lia|done]. }
  destruct (found_partition b 33 1 2) as [pb|] eqn:E; [|done].
  exists pb. split; [done|].
  apply (partition_window b 33 1 2 pb B); [unfold is_u32; lia..|done|].
  by injection E as <-.
Defined.

(** ** Scanning *)

(** The non-empty partitions of the table [pt], in order, numbered from 1. *)
Definition primary (pt : list Z) : list partition_table_entry :=
  filter (λ e, ¬ (e_size e = 0 ∨ e_type e = 0)) (pt_entry pt <$> seq 0 4).

Definition number (es : list partition_table_entry) : list found :=
  imap (λ i e, mk_found (e_type e) (e_offset e) (e_size e) (Z.of_nat i + 1)) es.

Lemma number_snoc es e :
  number (es ++ [e]) = number es ++
    [mk_found (e_type e) (e_offset e) (e_size e) (Z.of_nat (length (number es)) + 1)].
Proof. unfold number. rewrite imap_app, length_imap. simpl. by rewrite Nat.add_0_r. Qed.

(** A fold that fails at one element fails. *)
Lemma foldl_fails {A B} (f : option A → B → option A) l x r :
  (∀ y, f None y = None) → x ∈ l → (∀ a, f (Some a) x = None) → foldl f r l = None.
Proof.
  intros HN Hx Hf.
  assert (∀ l, foldl f None l = None) as Hnone by (intros l'; induction l'; simpl; [done|by rewrite HN]).
  revert r. induction Hx as [x l|x y l _ IH]; intros r; simpl.
  - destruct r; [by rewrite Hf|by rewrite HN].
  - by apply IH.
Qed.

Lemma scan_fold pt (f : option (list found) → nat → option (list found)) l es :
  (∀ acc i, i ∈ l → f (Some acc) i =
     let e := pt_entry pt i in
     if (e_size e =? 0) || (e_type e =? 0) then Some acc
     else Some (acc ++ [mk_found (e_type e) (e_offset e) (e_size e) (Z.of_nat (length acc) + 1)])) →
  foldl f (Some (number es)) l =
    Some (number (es ++ filter (λ e, ¬ (e_size e = 0 ∨ e_type e = 0)) (pt_entry pt <$> l))).
Proof.
  revert es. induction l as [|i l IH]; intros es Hf; cbn [foldl fmap list_fmap].
  - by rewrite app_nil_r.
  - rewrite Hf by set_solver. cbn zeta. rewrite filter_cons.
    destruct (Z.eqb_spec (e_size (pt_entry pt i)) 0) as [|Hs];
      [|destruct (Z.eqb_spec (e_type (pt_entry pt i)) 0) as [|Ht]]; cbn [orb].
    1, 2: rewrite decide_False by tauto; apply IH; intros acc j Hj; apply Hf; set_solver.
    rewrite decide_True by tauto.
    rewrite <-number_snoc, IH by (intros acc j Hj; apply Hf; set_solver).
    by rewrite <-app_assoc.
Qed.

Lemma pt_offset_u32 pt i : sector_ok pt → is_u32 (e_offset (pt_entry pt i)).
Proof.
  intros [_ F]. unfold is_u32. simpl. pose proof (le_bound (slice (446 + 16 * i + 8) 4 pt)) as L.
  destruct L as [L1 L2]; [by apply Forall_take, Forall_drop|]. split; [done|].
  eapply Z.lt_le_trans; [done|]. change (2 ^ 32) with (256 ^ 4). apply Z.pow_le_mono_r; [lia|].
  unfold slice. rewrite length_take. lia.
Qed.

(** On a device whose partition table is valid and has no extended
    partition, [partition_scan] finds exactly the non-empty entries of the
    table, in order, numbered from 1, with their start sectors as given. *)
Theorem partition_scan_primary {D} `{BlockDev D} (b : block D) pt fuel :
  block_ok b → block_data b !! 0%nat = Some pt → pt_signature pt = 43605 →
  (∀ i, (i < 4)%nat → is_extended (e_type (pt_entry pt i)) = false) →
  partition_scan (S fuel) b = Some (number (primary pt)).
Proof.
  intros B E0 Es He. pose proof (lookup_lt_Some _ _ _ E0) as L.
  pose proof (block_data_len b B). unfold partition_scan. cbn [read_partition_table].
  unfold block_size. rewrite (proj2 (Z.leb_gt _ _)) by lia.
  rewrite (block_read_ok b 0 pt) by done. cbn [mbind option_bind].
  rewrite Es. cbn [Z.eqb Pos.eqb negb].
  change (Some []) with (Some (number [])). rewrite (scan_fold pt); [done|].
  intros acc i Hi. cbn [mbind option_bind]. cbn zeta.
  assert (i < 4)%nat as Hi4 by (apply elem_of_seq in Hi; lia).
  rewrite (He i Hi4), Z.add_0_r, u32_small; [done|].
  apply pt_offset_u32. by apply (Forall_lookup_1 _ _ _ _ (block_sectors b B) E0).
Qed.

(** with an extended partition in the first half of the device,
    [partition_scan] does not terminate: every nested call of
    [read_partition_table] reads sector 0 again, instead of the sector it is
    given, and so meets the same extended entry. *)
Theorem partition_scan_diverges {D} `{BlockDev D} (b : block D) pt i :
  block_ok b → block_data b !! 0%nat = Some pt → pt_signature pt = 43605 → (i < 4)%nat →
  e_size (pt_entry pt i) ≠ 0 → is_extended (e_type (pt_entry pt i)) = true →
  0 < e_offset (pt_entry pt i) → 2 * e_offset (pt_entry pt i) < size b →
  ∀ fuel, partition_scan fuel b = None.
Proof.
  intros B E0 Es Hi Hz He Ho Hsz. destruct (block_u32 b B) as [_ ?].
  set (o := e_offset (pt_entry pt i)) in *.
  assert (e_type (pt_entry pt i) ≠ 0) as Ht by (intros E; by rewrite E in He).
  assert (∀ fuel sector acc, 0 ≤ sector → sector < size b → (sector = 0 ∨ sector = o ∨ sector = 2 * o) →
            read_partition_table fuel b sector (if sector =? 0 then 0 else o) acc = None) as R.
  { induction fuel as [|fuel IH]; intros sector acc Hge Hlt Hsec; [done|].
    cbn [read_partition_table]. unfold block_size. rewrite (proj2 (Z.leb_gt _ _)) by lia.
    rewrite (block_read_ok b 0 pt) by done. cbn [mbind option_bind].
    rewrite Es. cbn [Z.eqb Pos.eqb negb]. apply (foldl_fails _ _ i); [done|by apply elem_of_seq; lia|].
    intros a. cbn [mbind option_bind]. cbn zeta. fold o.
    rewrite (proj2 (Z.eqb_neq _ 0) Hz), (proj2 (Z.eqb_neq _ 0) Ht), He. cbn [orb].
    destruct (Z.eqb_spec sector 0) as [->|Hne].
    - specialize (IH o a). rewrite (proj2 (Z.eqb_neq o 0)) in IH by lia. apply IH; lia.
    - specialize (IH (2 * o) a). rewrite (proj2 (Z.eqb_neq (2 * o) 0)) in IH by lia.
      rewrite u32_small by (unfold is_u32; lia). replace (o + o) with (2 * o) by lia.
      apply IH; lia. }
  intros fuel. apply (R fuel 0 []); lia.
Qed.

(** A table with one entry, and a disk of [n] sectors with this table. *)
Definition table_sector (ty ofs sz : Z) : list Z :=
  replicate 446 0 ++ [0; 0; 0; 0; ty; 0; 0; 0; ofs; 0; 0; 0; sz; 0; 0; 0] ++
  replicate 48 0 ++ [85; 170].
Definition table_disk (n : nat) (ty ofs sz : Z) : block disk :=
  mk_block BLOCK_RAW (Z.of_nat n)
    (mk_disk (table_sector ty ofs sz :: replicate (n - 1) (replicate 512 0))).

Lemma table_disk_ok n ty ofs sz : (0 < n)%nat → Z.of_nat n < 2 ^ 32 →
  is_byte ty → is_byte ofs → is_byte sz → block_ok (table_disk n ty ofs sz).
Proof.
  intros Hn Hn' ???. split; cbn [aux size type table_disk dev_ok disk_dev dev_data d_sectors].
  - constructor.
    + split; [reflexivity|]. unfold table_sector.
      repeat apply Forall_app_2; try (apply Forall_replicate; unfold is_byte; lia);
        repeat (constructor; [unfold is_byte in *; lia|]); constructor.
    + apply Forall_replicate. split; [reflexivity|]. apply Forall_replicate. unfold is_byte; lia.
  - cbn [length]. rewrite length_replicate. lia.
  - unfold is_u32. lia.
  - done.
Qed.

Lemma partition_scan_primary_witness :
  partition_scan 1 (table_disk 8 33 2 5) = Some [mk_found 33 2 5 1].
Proof.
  rewrite (partition_scan_primary (table_disk 8 33 2 5) (table_sector 33 2 5) 0).
  - vm_compute. reflexivity.
  - apply table_disk_ok; unfold is_byte; lia.
  - reflexivity.
  - vm_compute. reflexivity.
  - intros i Hi. do 4 (destruct i as [|i]; [vm_compute; reflexivity|]). lia.
Defined.

Lemma partition_scan_diverges_witness : partition_scan 1000 (table_disk 8 5 2 5) = None.
Proof.
  apply (partition_scan_diverges (table_disk 8 5 2 5) (table_sector 5 2 5) 0%nat);
    [apply table_disk_ok; unfold is_byte; lia|reflexivity|..];
    try (vm_compute; reflexivity); [lia|vm_compute; congruence].
Defined.
