(* ===== verification/FsState.v ===== *)
(** * The state of the file system ([filesys/inode.c], [file.c], [directory.c],
      [free-map.c])

    The device, the static data of the modules, and the heap objects they
    allocate: in-memory inodes, open files and open directories, each at an
    address.  [oom] has the results of the coming calls of [malloc] and
    [calloc]; when it is used up they succeed.  Addresses are not reused. *)

From S2P Require Import Prelude Machine Bytes FixedPoint Bitmap Block.

Open Scope Z_scope.

(** [struct inode_disk]: its last field is kept as bytes. *)
Record inode_disk := mk_inode_disk {
  id_start : Z;
  id_length : Z;
  id_magic : Z;
  id_unused : list Z;
}.

(** [struct inode]; its list element is its place in [open_inodes]. *)
Record inode := mk_inode {
  i_sector : Z;
  open_cnt : Z;
  removed : bool;
  deny_write_cnt : Z;
  data : inode_disk;
}.
#[export] Instance inode_ctor : Ctor inode := λ i,
  mk_inode (i_sector i) (open_cnt i) (removed i) (deny_write_cnt i) (data i).

(** [struct file]. *)
Record file := mk_file {
  f_inode : Z;
  f_pos : Z;
  deny_write : bool;
}.
#[export] Instance file_ctor : Ctor file := λ x, mk_file (f_inode x) (f_pos x) (deny_write x).

(** [struct dir]. *)
Record dir := mk_dir {
  d_inode : Z;
  d_pos : Z;
}.
#[export] Instance dir_ctor : Ctor dir := λ x, mk_dir (d_inode x) (d_pos x).

Record fs (D : Type) := mk_fs {
  fs_device : block D;
  free_map : bitmap;
  free_map_file : Z;
  open_inodes : list Z;
  inodes : gmap Z inode;
  files : gmap Z file;
  dirs : gmap Z dir;
  oom : list bool;
  brk : Z;
}.
Arguments mk_fs {D} _ _ _ _ _ _ _ _ _.
Arguments fs_device {D} _.
Arguments free_map {D} _.
Arguments free_map_file {D} _.
Arguments open_inodes {D} _.
Arguments inodes {D} _.
Arguments files {D} _.
Arguments dirs {D} _.
Arguments oom {D} _.
Arguments brk {D} _.
#[export] Instance fs_ctor D : Ctor (fs D) := λ f,
  mk_fs (fs_device f) (free_map f) (free_map_file f) (open_inodes f) (inodes f)
    (files f) (dirs f) (oom f) (brk f).

(** Whether the next call of [malloc] succeeds. *)
Definition try_malloc {D} (f : fs D) : fs D * bool :=
  match oom f with
  | [] => (f, true)
  | ok :: rest => (f <| oom := rest |>, ok)
  end.

(** The address of a new object. *)
Definition new_addr {D} (f : fs D) : fs D * Z := (f <| brk ::= Z.succ |>, brk f).

(** The on-disk form of an inode. *)
Definition encode_inode (d : inode_disk) : list Z :=
  enc32 (id_start d) ++ enc32 (u32 (id_length d)) ++ enc32 (id_magic d) ++ id_unused d.

Definition decode_inode (bs : list Z) : inode_disk :=
  mk_inode_disk (le (slice 0 4 bs)) (int32 (le (slice 4 4 bs))) (le (slice 8 4 bs)) (drop 12 bs).

(** All the bytes of the device, sector after sector. *)
Definition device_bytes {D} `{BlockDev D} (b : block D) : list Z := concat (block_data b).

(** No allocation fails from here on. *)
Definition mem_ok {D} (f : fs D) : Prop := oom f = [].

(** Encoding an inode for the disk and reading it back gives the inode. *)
Lemma decode_encode_inode d :
  is_u32 (id_start d) → 0 ≤ id_length d < 2 ^ 31 → is_u32 (id_magic d) →
  decode_inode (encode_inode d) = d.
Proof.
  intros Hs Hl Hm. destruct d as [s l m u]; simpl in *. unfold decode_inode.
  change (slice 0 4 _) with (enc32 s). change (slice 4 4 _) with (enc32 (u32 l)).
  change (slice 8 4 _) with (enc32 m). change (drop 12 _) with u.
  rewrite !le_enc32 by (done || apply u32_range).
  by rewrite (u32_small l), int32_small by (unfold is_u32; lia).
Qed.

Lemma encode_inode_ok d : length (id_unused d) = 500%nat → Forall is_byte (id_unused d) →
  sector_ok (encode_inode d).
Proof.
  intros Hl Hb. split.
  - unfold encode_inode. rewrite !length_app, Hl. done.
  - repeat apply Forall_app_2; (apply enc32_bytes || done).
Qed.
