(* ===== verification/InodeIo.v ===== *)
(** * Reading and writing inodes ([inode_read_at], [inode_write_at] of
      [filesys/inode.c])

    Both routines copy sector by sector, directly where a chunk is a whole
    sector and through a bounce buffer elsewhere.  The bytes that
    [inode_read_at] stores into the caller's buffer are its result.  The
    theorems compare them with a single copy on the bytes of the device. *)

From S2P Require Import Prelude Machine Bytes FixedPoint Bitmap Block FsState.

Open Scope Z_scope.

Section io.

Context {D : Type} `{BlockDev D}.
Implicit Type f : fs D.
Implicit Type i : inode.

Definition bytes_to_sectors (size : Z) : Z := u32 (Z.quot (int32 (size + 511)) 512).

Definition inode_length i : Z := id_length (data i).

(** The [-1] of the code as a sector number. *)
Definition byte_to_sector i (pos : Z) : Z :=
  if pos <? id_length (data i) then u32 (id_start (data i) + Z.quot pos BLOCK_SECTOR_SIZE)
  else 2 ^ 32 - 1.

(** The bytes to copy in one iteration. *)
Definition chunk i (size offset : Z) : Z :=
  let sector_ofs := Z.rem offset BLOCK_SECTOR_SIZE in
  let inode_left := int32 (inode_length i - offset) in
  let sector_left := BLOCK_SECTOR_SIZE - sector_ofs in
  let min_left := if inode_left <? sector_left then inode_left else sector_left in
  if size <? min_left then size else min_left.

(** The bounce buffer: allocated at its first use. *)
Definition get_bounce f (bounce : bool) : fs D * bool :=
  if bounce then (f, true) else try_malloc f.

(** The loop of [inode_read_at]; [acc] has the bytes read. *)
Fixpoint read_loop (fuel : nat) f i (bounce : bool) (size offset : Z) (acc : list Z) :
    option (fs D * list Z) :=
  match fuel with
  | O => None
  | S fuel =>
      if size <=? 0 then Some (f, acc)
      else
        let sector_idx := byte_to_sector i offset in
        let sector_ofs := Z.rem offset BLOCK_SECTOR_SIZE in
        let chunk_size := chunk i size offset in
        if chunk_size <=? 0 then Some (f, acc)
        else if (sector_ofs =? 0) && (chunk_size =? BLOCK_SECTOR_SIZE) then
          sec ← block_read (fs_device f) sector_idx;
          read_loop fuel f i bounce (size - chunk_size) (offset + chunk_size) (acc ++ sec)
        else
          let (f, ok) := get_bounce f bounce in
          if negb ok then Some (f, acc)
          else
            sec ← block_read (fs_device f) sector_idx;
            read_loop fuel f i true (size - chunk_size) (offset + chunk_size)
              (acc ++ slice (Z.to_nat sector_ofs) (Z.to_nat chunk_size) sec)
  end.

(** Every iteration copies a byte at least. *)
Definition inode_read_at f (ino size offset : Z) : option (fs D * list Z) :=
  i ← inodes f !! ino;
  read_loop (S (Z.to_nat size)) f i false size offset [].

(** The [n] bytes of the caller's buffer from [ofs] on, which must exist. *)
Definition buffer_read (buffer : list Z) (ofs n : Z) : option (list Z) :=
  if ofs + n <=? Z.of_nat (length buffer)
  then Some (slice (Z.to_nat ofs) (Z.to_nat n) buffer) else None.

(** The loop of [inode_write_at]; its result is [bytes_written]. *)
Fixpoint write_loop (fuel : nat) f i (bounce : bool) (buffer : list Z) (size offset written : Z) :
    option (fs D * Z) :=
  match fuel with
  | O => None
  | S fuel =>
      if size <=? 0 then Some (f, written)
      else
        let sector_idx := byte_to_sector i offset in
        let sector_ofs := Z.rem offset BLOCK_SECTOR_SIZE in
        let sector_left := BLOCK_SECTOR_SIZE - sector_ofs in
        let chunk_size := chunk i size offset in
        if chunk_size <=? 0 then Some (f, written)
        else if (sector_ofs =? 0) && (chunk_size =? BLOCK_SECTOR_SIZE) then
          c ← buffer_read buffer written chunk_size;
          b ← block_write (fs_device f) sector_idx c;
          write_loop fuel (f <| fs_device := b |>) i bounce buffer
            (size - chunk_size) (offset + chunk_size) (written + chunk_size)
        else
          let (f, ok) := get_bounce f bounce in
          if negb ok then Some (f, written)
          else
            sec ← (if (0 <? sector_ofs) || (chunk_size <? sector_left)
                   then block_read (fs_device f) sector_idx
                   else Some (replicate 512 0));
            c ← buffer_read buffer written chunk_size;
            b ← block_write (fs_device f) sector_idx (splice (Z.to_nat sector_ofs) c sec);
            write_loop fuel (f <| fs_device := b |>) i true buffer
              (size - chunk_size) (offset + chunk_size) (written + chunk_size)
  end.

Definition inode_write_at f (ino : Z) (buffer : list Z) (size offset : Z) : option (fs D * Z) :=
  i ← inodes f !! ino;
  if negb (deny_write_cnt i =? 0) then Some (f, 0)
  else write_loop (S (Z.to_nat size)) f i false buffer size offset 0.

(** ** Specification *)

(** The inode's data lies within the device. *)
Record inode_ok f i : Prop := {
  inode_start : 0 ≤ id_start (data i);
  inode_len : 0 ≤ inode_length i < 2 ^ 31 - 512;
  inode_fits : 512 * id_start (data i) + inode_length i ≤ 512 * size (fs_device f);
}.

(** The byte of the device where offset [offset] of the inode is. *)
Definition device_ofs i (offset : Z) : nat := Z.to_nat (512 * id_start (data i) + offset).

(** How many bytes a transfer of [size] bytes at [offset] copies. *)
Definition transfer i (size offset : Z) : Z :=
  Z.max 0 (Z.min size (inode_length i - offset)).

(** One iteration works within one sector of the device. *)
Lemma chunk_ok f i size offset :
  block_ok (fs_device f) → inode_ok f i → 0 ≤ offset < inode_length i → 0 < size →
  let s := byte_to_sector i offset in
  let o := Z.rem offset BLOCK_SECTOR_SIZE in
  let c := chunk i size offset in
  0 ≤ s < Block.size (fs_device f) ∧ 0 ≤ o ∧ 0 < c ≤ size ∧ o + c ≤ 512 ∧
  offset + c ≤ inode_length i ∧
  (c = size ∨ offset + c = inode_length i ∨ o + c = 512) ∧
  device_ofs i offset = (512 * Z.to_nat s + Z.to_nat o)%nat.
Proof.
  intros B [Hs Hl Hf] Ho Hz. destruct (block_u32 _ B) as [_ Hu].
  unfold byte_to_sector, chunk, device_ofs, BLOCK_SECTOR_SIZE in *. fold (inode_length i).
  rewrite (proj2 (Z.ltb_lt offset (inode_length i))) by lia.
  rewrite Z.rem_mod_nonneg, Z.quot_div_nonneg by lia.
  pose proof (Z.div_mod offset 512 ltac:(lia)). pose proof (Z.mod_pos_bound offset 512 ltac:(lia)).
  rewrite u32_small by (unfold is_u32; lia). rewrite int32_small by lia.
  repeat case_match; bool_simp; split_and!; lia.
Qed.

Lemma device_length f : block_ok (fs_device f) →
  length (device_bytes (fs_device f)) = (512 * Z.to_nat (Block.size (fs_device f)))%nat.
Proof.
  intros B. unfold device_bytes. rewrite (length_flat 512).
  - pose proof (block_data_len _ B). lia.
  - eapply Forall_impl; [by apply block_sectors|]. by intros s [? _].
Qed.

Lemma device_uniform f : block_ok (fs_device f) → uniform 512 (block_data (fs_device f)).
Proof. intros B. eapply Forall_impl; [by apply block_sectors|]. by intros s [? _]. Qed.

(** ** Reading *)

(** The sector of the chunk, and the chunk as part of the device's bytes. *)
Lemma read_sector f i size offset :
  block_ok (fs_device f) → inode_ok f i → 0 ≤ offset < inode_length i → 0 < size →
  ∃ sec, block_read (fs_device f) (byte_to_sector i offset) = Some sec ∧ sector_ok sec ∧
    block_data (fs_device f) !! Z.to_nat (byte_to_sector i offset) = Some sec ∧
    slice (Z.to_nat (Z.rem offset BLOCK_SECTOR_SIZE)) (Z.to_nat (chunk i size offset)) sec =
    slice (device_ofs i offset) (Z.to_nat (chunk i size offset)) (device_bytes (fs_device f)).
Proof.
  intros B I Ho Hz. destruct (chunk_ok f i size offset B I Ho Hz) as (Hs & Hr & Hc & Hrc & _ & _ & Hd).
  destruct (block_sector _ _ B Hs) as (sec & E & S). exists sec.
  split; [apply block_read_ok; [done|lia|done]|]. split; [done|]. split; [done|].
  rewrite Hd. symmetry. apply slice_flat; [by apply device_uniform|done|lia].
Qed.

Lemma transfer_step i size offset c : 0 < c ≤ size → offset + c ≤ inode_length i →
  (Z.to_nat (transfer i size offset) = Z.to_nat c + Z.to_nat (transfer i (size - c) (offset + c)))%nat.
Proof. unfold transfer. lia. Qed.

Lemma device_ofs_step i offset c : 0 ≤ id_start (data i) → 0 ≤ offset → 0 ≤ c →
  device_ofs i (offset + c) = (device_ofs i offset + Z.to_nat c)%nat.
Proof. unfold device_ofs. lia. Qed.

Lemma get_bounce_ok f b : mem_ok f → get_bounce f b = (f, true).
Proof. unfold mem_ok, get_bounce, try_malloc. intros ->. by destruct b. Qed.

Lemma chunk_none i size offset : 0 ≤ offset → 0 ≤ inode_length i < 2 ^ 31 → offset < 2 ^ 31 →
  inode_length i ≤ offset → 0 < size → chunk i size offset ≤ 0.
Proof.
  intros. unfold chunk, BLOCK_SECTOR_SIZE. rewrite Z.rem_mod_nonneg by lia.
  pose proof (Z.mod_pos_bound offset 512 ltac:(lia)).
  rewrite int32_small by lia. repeat case_match; bool_simp; lia.
Qed.

Lemma read_loop_ok fuel f i b size offset acc :
  mem_ok f → block_ok (fs_device f) → inode_ok f i → 0 ≤ offset < 2 ^ 31 →
  (Z.to_nat size < fuel)%nat →
  read_loop fuel f i b size offset acc =
    Some (f, acc ++ slice (device_ofs i offset) (Z.to_nat (transfer i size offset))
                      (device_bytes (fs_device f))).
Proof.
  intros M B I. pose proof (inode_len f i I) as Hl.
  revert b size offset acc. induction fuel as [|fuel IH]; intros b size offset acc Ho Hf; [lia|].
  cbn [read_loop]. destruct (Z.leb_spec size 0).
  { replace (transfer i size offset) with 0 by (unfold transfer; lia). by rewrite app_nil_r. }
  destruct (decide (offset < inode_length i)) as [Hlt|Hge].
  2:{ rewrite (proj2 (Z.leb_le _ _)) by (apply chunk_none; lia).
      replace (transfer i size offset) with 0 by (unfold transfer; lia). by rewrite app_nil_r. }
  destruct (chunk_ok f i size offset B I) as (_ & Hr & Hc & Hrc & Hoc & _ & _); [lia|lia|].
  destruct (read_sector f i size offset B I) as (sec & Er & [Hsec _] & _ & Es); [lia|lia|].
  rewrite (proj2 (Z.leb_gt _ 0)) by lia.
  set (c := chunk i size offset) in *.
  assert (∀ b, read_loop fuel f i b (size - c) (offset + c)
            (acc ++ slice (Z.to_nat (Z.rem offset BLOCK_SECTOR_SIZE)) (Z.to_nat c) sec) =
          Some (f, acc ++ slice (device_ofs i offset) (Z.to_nat (transfer i size offset))
                      (device_bytes (fs_device f)))) as Rec.
  { intros b'. rewrite IH by lia. do 2 f_equal. rewrite <-app_assoc, Es. f_equal.
    rewrite device_ofs_step by (try apply I; lia). rewrite slice_app.
    by rewrite (transfer_step i size offset c) by lia. }
  destruct (Z.eqb_spec (Z.rem offset BLOCK_SECTOR_SIZE) 0) as [E0|];
    destruct (Z.eqb_spec c BLOCK_SECTOR_SIZE) as [Ec|]; cbn [andb].
  2-4: rewrite get_bounce_ok by done; cbn [negb]; rewrite Er; apply Rec.
  rewrite Er. cbn [mbind option_bind].
  rewrite <-(Rec b). do 2 f_equal. rewrite E0, Ec. by rewrite <-(slice_full sec), Hsec at 1.
Qed.

(** ** Writing *)

(** [f'] is [f] with the bytes [c] written to the device at [o]. *)
Definition written_at f (o : nat) (c : list Z) f' : Prop :=
  ∃ b, f' = f <| fs_device := b |> ∧ block_ok b ∧
    Block.size b = Block.size (fs_device f) ∧ Block.type b = Block.type (fs_device f) ∧
    device_bytes b = splice o c (device_bytes (fs_device f)).

Lemma written_nil f o : block_ok (fs_device f) → written_at f o [] f.
Proof.
  intros B. exists (fs_device f). rewrite splice_nil. split; [by destruct f|]. done.
Qed.

Lemma written_app f o c1 c2 f1 f2 : block_ok (fs_device f) →
  (o + length c1 + length c2 ≤ length (device_bytes (fs_device f)))%nat →
  written_at f o c1 f1 → written_at f1 (o + length c1) c2 f2 → written_at f o (c1 ++ c2) f2.
Proof.
  intros B L (b1 & -> & B1 & S1 & T1 & E1) (b2 & -> & B2 & S2 & T2 & E2). simpl in *.
  exists b2. split; [done|]. split; [done|]. split; [congruence|]. split; [congruence|].
  by rewrite E2, E1, splice_app.
Qed.

(** One chunk: part of the sector is replaced. *)
Lemma write_sector f i size offset c sec :
  block_ok (fs_device f) → inode_ok f i → 0 ≤ offset < inode_length i → 0 < size →
  block_data (fs_device f) !! Z.to_nat (byte_to_sector i offset) = Some sec →
  length c = Z.to_nat (chunk i size offset) → Forall is_byte c →
  ∃ b, block_write (fs_device f) (byte_to_sector i offset)
         (splice (Z.to_nat (Z.rem offset BLOCK_SECTOR_SIZE)) c sec) = Some b ∧
       written_at f (device_ofs i offset) c (f <| fs_device := b |>).
Proof.
  intros B I Ho Hz E Hc Hb.
  destruct (chunk_ok f i size offset B I Ho Hz) as (Hs & Hr & Hcs & Hrc & _ & _ & Hd).
  assert (sector_ok sec) as [Ls Bs] by (by apply (Forall_lookup_1 _ _ _ _ (block_sectors _ B) E)).
  destruct (block_write_ok (fs_device f) (byte_to_sector i offset)
    (splice (Z.to_nat (Z.rem offset BLOCK_SECTOR_SIZE)) c sec)) as (b & Eb & Bb & Sb & Tb & Db);
    [done|done| |].
  { split; [rewrite length_splice; lia|by apply splice_bytes]. }
  exists b. split; [done|]. exists b. split; [done|]. split; [done|]. split; [done|]. split; [done|].
  unfold device_bytes. rewrite Db, Hd. apply splice_flat_part; [by apply device_uniform|done|lia].
Qed.

Lemma splice_all c s : length c = length s → splice 0 c s = c.
Proof. intros E. unfold splice. simpl. by rewrite E, drop_all, app_nil_r. Qed.

Lemma buffer_read_ok buffer ofs n : 0 ≤ ofs → 0 ≤ n → ofs + n ≤ Z.of_nat (length buffer) →
  buffer_read buffer ofs n = Some (slice (Z.to_nat ofs) (Z.to_nat n) buffer) ∧
  length (slice (Z.to_nat ofs) (Z.to_nat n) buffer) = Z.to_nat n.
Proof.
  intros. unfold buffer_read. rewrite (proj2 (Z.leb_le _ _)) by done.
  split; [done|]. apply length_slice. lia.
Qed.

Lemma inode_ok_device f i b : Block.size b = Block.size (fs_device f) →
  inode_ok f i → inode_ok (f <| fs_device := b |>) i.
Proof. intros E [???]. split; simpl; [done|done|]. by rewrite E. Qed.

(** A chunk followed by the rest of the transfer. *)
Lemma written_chunk f i buffer size offset w c f1 f2 :
  block_ok (fs_device f) → inode_ok f i → 0 ≤ offset → 0 ≤ w → 0 < c ≤ size →
  offset + c ≤ inode_length i → w + size ≤ Z.of_nat (length buffer) →
  written_at f (device_ofs i offset) (slice (Z.to_nat w) (Z.to_nat c) buffer) f1 →
  written_at f1 (device_ofs i (offset + c))
    (slice (Z.to_nat (w + c)) (Z.to_nat (transfer i (size - c) (offset + c))) buffer) f2 →
  written_at f (device_ofs i offset)
    (slice (Z.to_nat w) (Z.to_nat (transfer i size offset)) buffer) f2.
Proof.
  intros B I Ho Hw Hc Hoc Hb W1 W2. pose proof (inode_start f i I).
  destruct (buffer_read_ok buffer w c) as [_ Lb]; [lia..|].
  rewrite (transfer_step i size offset c), <-slice_app by lia.
  eapply written_app; [done| |exact W1|].
  - rewrite Lb, device_length, length_slice by (done || unfold transfer; lia).
    pose proof (inode_fits f i I). unfold device_ofs, transfer in *. lia.
  - rewrite Lb, <-device_ofs_step by lia.
    by replace (Z.to_nat w + Z.to_nat c)%nat with (Z.to_nat (w + c)) by lia.
Qed.

Lemma write_loop_ok fuel f i b buffer size offset w :
  mem_ok f → block_ok (fs_device f) → inode_ok f i → 0 ≤ offset < 2 ^ 31 →
  0 ≤ w → w + size ≤ Z.of_nat (length buffer) → Forall is_byte buffer →
  (Z.to_nat size < fuel)%nat →
  ∃ f', write_loop fuel f i b buffer size offset w = Some (f', w + transfer i size offset) ∧
    written_at f (device_ofs i offset)
      (slice (Z.to_nat w) (Z.to_nat (transfer i size offset)) buffer) f'.
Proof.
  revert f b size offset w. induction fuel as [|fuel IH];
    intros f b size offset w M B I Ho Hw Hb Fb Hf; [lia|].
  pose proof (inode_len f i I) as Hl.
  assert (transfer i size offset = 0 → ∃ f' : fs D, Some (f, w) = Some (f', w + transfer i size offset) ∧
    written_at f (device_ofs i offset)
      (slice (Z.to_nat w) (Z.to_nat (transfer i size offset)) buffer) f') as Stop.
  { intros ->. exists f. rewrite Z.add_0_r. split; [done|]. by apply written_nil. }
  cbn [write_loop]. destruct (Z.leb_spec size 0); [apply Stop; unfold transfer; lia|].
  destruct (decide (offset < inode_length i)) as [Hlt|Hge].
  2:{ rewrite (proj2 (Z.leb_le _ _)) by (apply chunk_none; lia).
      apply Stop; unfold transfer; lia. }
  destruct (chunk_ok f i size offset B I) as (Hsec & Hr & Hc & Hrc & Hoc & Hend & Hd); [lia|lia|].
  destruct (read_sector f i size offset B I) as (sec & Er & [Ls Bs] & Es & _); [lia|lia|].
  rewrite (proj2 (Z.leb_gt _ 0)) by lia. set (c := chunk i size offset) in *.
  destruct (buffer_read_ok buffer w c) as [Eb Lb]; [lia..|].
  set (cs := slice (Z.to_nat w) (Z.to_nat c) buffer) in *.
  destruct (write_sector f i size offset cs sec B I) as (b' & Eb' & Wb);
    [lia|lia|done|done|by apply slice_bytes|].
  assert (∀ bo, ∃ f', write_loop fuel (f <| fs_device := b' |>) i bo buffer (size - c) (offset + c) (w + c) =
      Some (f', w + transfer i size offset) ∧
    written_at f (device_ofs i offset)
      (slice (Z.to_nat w) (Z.to_nat (transfer i size offset)) buffer) f') as Rec.
  { intros bo. pose proof Wb as (b1 & E1 & B1 & S1 & _).
    assert (b1 = b') as -> by (by injection E1).
    destruct (IH (f <| fs_device := b' |>) bo (size - c) (offset + c) (w + c)) as (f' & E' & W');
      [done|done|by apply inode_ok_device|lia..|done|lia|].
    exists f'. split; [rewrite E'; do 2 f_equal; unfold transfer; lia|].
    apply (written_chunk f i buffer size offset w c (f <| fs_device := b' |>)); done || lia. }
  destruct (Z.eqb_spec (Z.rem offset BLOCK_SECTOR_SIZE) 0) as [E0|N0];
    destruct (Z.eqb_spec c BLOCK_SECTOR_SIZE) as [Ec|Nc]; cbn [andb].
  1: { rewrite Eb. cbn [mbind option_bind].
       assert (splice (Z.to_nat (Z.rem offset BLOCK_SECTOR_SIZE)) cs sec = cs) as Ecs.
       { rewrite E0. apply splice_all. rewrite Lb, Ec, Ls. done. }
       rewrite Ecs in Eb'. rewrite Eb'. apply Rec. }
  all: rewrite get_bounce_ok by done; cbn [negb];
    replace ((0 <? _) || (c <? _)) with true
      by (symmetry; unfold BLOCK_SECTOR_SIZE in *; apply orb_true_iff; rewrite !Z.ltb_lt; lia);
    rewrite Er; cbn [mbind option_bind]; rewrite Eb; cbn [mbind option_bind];
    rewrite Eb'; apply Rec.
Qed.

(** ** Whole transfers *)

(** The bytes of the file. *)
Definition contents f i : list Z :=
  slice (device_ofs i 0) (Z.to_nat (inode_length i)) (device_bytes (fs_device f)).

Lemma inode_contents_length f i : block_ok (fs_device f) → inode_ok f i →
  length (contents f i) = Z.to_nat (inode_length i).
Proof.
  intros B [Hs Hl Hf]. apply length_slice. rewrite device_length by done.
  unfold device_ofs. lia.
Qed.

Lemma contents_bytes f i : block_ok (fs_device f) → Forall is_byte (contents f i).
Proof.
  intros B. apply slice_bytes. unfold device_bytes. apply Forall_concat.
  eapply Forall_impl; [by apply block_sectors|]. by intros s [_ ?].
Qed.

Lemma contents_slice f i size offset : inode_ok f i → 0 ≤ offset →
  slice (device_ofs i offset) (Z.to_nat (transfer i size offset)) (device_bytes (fs_device f)) =
  slice (Z.to_nat offset) (Z.to_nat (transfer i size offset)) (contents f i).
Proof.
  intros [Hs _ _] Ho. unfold contents.
  destruct (decide (transfer i size offset = 0)) as [->|]; [done|].
  rewrite slice_slice by (unfold transfer in *; lia). f_equal. unfold device_ofs. lia.
Qed.

Lemma inode_read_at_ok f ino i size offset :
  mem_ok f → block_ok (fs_device f) → inodes f !! ino = Some i → inode_ok f i →
  0 ≤ offset < 2 ^ 31 →
  inode_read_at f ino size offset =
    Some (f, slice (Z.to_nat offset) (Z.to_nat (transfer i size offset)) (contents f i)).
Proof.
  intros M B E I Ho. unfold inode_read_at. rewrite E. cbn [mbind option_bind].
  rewrite read_loop_ok by (done || lia). by rewrite contents_slice by (done || lia).
Qed.

(** [f'] is [f] after [c] has been written into the inode [i] at [offset]. *)
Definition inode_written f i (offset : Z) (c : list Z) f' : Prop :=
  written_at f (device_ofs i offset) c f' ∧
  contents f' i = splice (Z.to_nat offset) c (contents f i).

(** The bytes of the two inodes do not overlap. *)
Definition apart i j : Prop :=
  512 * id_start (data i) + inode_length i ≤ 512 * id_start (data j) ∨
  512 * id_start (data j) + inode_length j ≤ 512 * id_start (data i).

Lemma written_contents f i offset c f' : block_ok (fs_device f) → inode_ok f i →
  0 ≤ offset → offset + Z.of_nat (length c) ≤ inode_length i →
  written_at f (device_ofs i offset) c f' → inode_written f i offset c f'.
Proof.
  intros B I Ho Hc W. split; [done|]. destruct W as (b & -> & _ & _ & _ & E).
  pose proof (inode_start f i I). pose proof (inode_fits f i I).
  unfold contents. simpl. rewrite E, slice_splice_in.
  - f_equal. unfold device_ofs. lia.
  - unfold device_ofs. lia.
  - unfold device_ofs. lia.
  - rewrite device_length by done. unfold device_ofs. lia.
Qed.

(** Writing one inode leaves the others alone. *)
Lemma written_apart f i j offset c f' : block_ok (fs_device f) → inode_ok f i → inode_ok f j →
  0 ≤ offset → offset + Z.of_nat (length c) ≤ inode_length i → apart i j →
  written_at f (device_ofs i offset) c f' → contents f' j = contents f j.
Proof.
  intros B I J Ho Hc A (b & -> & _ & _ & _ & E).
  pose proof (inode_start f i I). pose proof (inode_fits f i I). pose proof (inode_start f j J).
  pose proof (inode_len f j J). unfold contents, apart in *. simpl. rewrite E.
  apply slice_splice_ne; [rewrite device_length by done; unfold device_ofs; lia|].
  unfold device_ofs. lia.
Qed.

Lemma inode_write_at_ok f ino i buffer size offset :
  mem_ok f → block_ok (fs_device f) → inodes f !! ino = Some i → inode_ok f i →
  deny_write_cnt i = 0 → 0 ≤ offset < 2 ^ 31 →
  0 ≤ size ≤ Z.of_nat (length buffer) → Forall is_byte buffer →
  ∃ f', inode_write_at f ino buffer size offset = Some (f', transfer i size offset) ∧
    written_at f (device_ofs i offset) (take (Z.to_nat (transfer i size offset)) buffer) f'.
Proof.
  intros M B E I Hd Ho Hs Hb. unfold inode_write_at. rewrite E. cbn [mbind option_bind].
  rewrite Hd. cbn [Z.eqb negb].
  destruct (write_loop_ok (S (Z.to_nat size)) f i false buffer size offset 0) as (f' & E' & W);
    [done|done|done|done|lia|lia|done|lia|].
  exists f'. split; [by rewrite E'|]. done.
Qed.

(** ** Correctness *)

(** [inode_read_at] copies sector by sector, but what it copies is one slice
    of the file: the bytes from [offset] on, up to [size] of them, cut at the
    end of the file.  It terminates, never reads outside the device, and
    changes nothing. *)
Theorem inode_read_at_correct f ino i size offset :
  mem_ok f → block_ok (fs_device f) → inodes f !! ino = Some i → inode_ok f i →
  0 ≤ offset < 2 ^ 31 →
  inode_read_at f ino size offset =
    Some (f, take (Z.to_nat size) (drop (Z.to_nat offset) (contents f i))).
Proof.
  intros M B E I Ho. rewrite (inode_read_at_ok f ino i) by done. do 2 f_equal.
  unfold slice. destruct (decide (0 ≤ size ∧ size ≤ inode_length i - offset)).
  - f_equal. unfold transfer. lia.
  - pose proof (inode_contents_length f i B I). pose proof (inode_len f i I).
    assert (length (drop (Z.to_nat offset) (contents f i)) =
            Z.to_nat (inode_length i - offset)) as L by (rewrite length_drop; lia).
    destruct (decide (size < 0)).
    + replace (Z.to_nat size) with 0%nat by lia.
      by replace (Z.to_nat (transfer i size offset)) with 0%nat by (unfold transfer; lia).
    + rewrite !take_ge; [done|rewrite L; lia|rewrite L; unfold transfer; lia].
Qed.

(** C18: what [inode_write_at] writes is read back: when writes are not denied it
    returns the number of bytes that fit the file, reading the same range
    returns exactly the bytes written, the rest of the file is as before, and
    so is every file elsewhere on the device.  When writes are denied it
    returns 0 and changes nothing. *)
Theorem inode_write_read f ino i buffer size offset :
  mem_ok f → block_ok (fs_device f) → inodes f !! ino = Some i → inode_ok f i →
  0 ≤ offset < 2 ^ 31 → 0 ≤ size ≤ Z.of_nat (length buffer) → Forall is_byte buffer →
  if decide (deny_write_cnt i = 0) then
    ∃ f' n, inode_write_at f ino buffer size offset = Some (f', n) ∧
      n = Z.max 0 (Z.min size (inode_length i - offset)) ∧
      inode_read_at f' ino n offset = Some (f', take (Z.to_nat n) buffer) ∧
      contents f' i = splice (Z.to_nat offset) (take (Z.to_nat n) buffer) (contents f i) ∧
      (∀ j, inode_ok f j → apart i j → contents f' j = contents f j)
  else inode_write_at f ino buffer size offset = Some (f, 0).
Proof.
  intros M B E I Ho Hs Hb. case_decide as Hd.
  2:{ unfold inode_write_at. rewrite E. cbn [mbind option_bind].
      by rewrite (proj2 (Z.eqb_neq _ 0)). }
  destruct (inode_write_at_ok f ino i buffer size offset) as (f' & E' & W); [done..|].
  set (n := transfer i size offset) in *.
  assert (length (take (Z.to_nat n) buffer) = Z.to_nat n) as Ln.
  { rewrite length_take. unfold n, transfer. lia. }
  exists f', n. split; [done|]. split; [done|].
  destruct (decide (n = 0)) as [E0|Hn].
  { rewrite E0 in *. simpl in W. destruct W as (b & -> & Bb & Sb & Tb & Db).
    rewrite splice_nil in Db. unfold contents; simpl. rewrite Db, splice_nil.
    split; [|done]. unfold inode_read_at; simpl. rewrite E. done. }
  assert (offset + n ≤ inode_length i) by (unfold n, transfer in *; lia).
  assert (inode_written f i offset (take (Z.to_nat n) buffer) f') as [_ C].
  { apply written_contents; [done|done|lia|rewrite Ln; unfold n, transfer in *; lia|done]. }
  split; [|split; [done|]].
  - pose proof W as (b & -> & Bb & Sb & Tb & Db).
    rewrite (inode_read_at_ok _ ino i) by (done || by apply inode_ok_device). do 2 f_equal.
    rewrite C. replace (transfer i n offset) with n by (unfold n, transfer in *; lia).
    rewrite <-Ln at 1. apply slice_splice. rewrite inode_contents_length, Ln by done. unfold n, transfer in *. lia.
  - intros j J A. eapply written_apart; [done|exact I|done| | |done|done]; rewrite ?Ln; unfold n, transfer in *; lia.
Qed.

End io.

(** A disk of three sectors with a file of 600 bytes from sector 1 on. *)
Definition example_io_inode : inode := mk_inode 0 1 false 0 (mk_inode_disk 1 600 0 []).
Definition example_io : fs disk :=
  mk_fs (mk_block BLOCK_FILESYS 3 (mk_disk (replicate 3 (replicate 512 7)))) (mk_bitmap 0 [])
    0 [1] {[1 := example_io_inode]} ∅ ∅ [] 2.

Lemma example_io_ok :
  mem_ok example_io ∧ block_ok (fs_device example_io) ∧ inode_ok example_io example_io_inode.
Proof.
  split; [done|]. split.
  - split; [|done|unfold is_u32; simpl; lia|done]. apply (Forall_replicate _ 3).
    split; [done|]. apply Forall_replicate. unfold is_byte. lia.
  - split; vm_compute; intuition congruence.
Qed.

Lemma inode_read_at_correct_witness :
  inode_read_at example_io 1 10 595 = Some (example_io, [7; 7; 7; 7; 7]).
Proof.
  destruct example_io_ok as (M & B & I).
  rewrite (inode_read_at_correct example_io 1 example_io_inode 10 595 M B) by (done || lia).
  vm_compute. reflexivity.
Defined.

Lemma inode_write_read_witness :
  ∃ f', inode_write_at example_io 1 [1; 2; 3] 3 511 = Some (f', 3) ∧
        inode_read_at f' 1 3 511 = Some (f', [1; 2; 3]).
Proof.
  destruct example_io_ok as (M & B & I).
  pose proof (inode_write_read example_io 1 example_io_inode [1; 2; 3] 3 511 M B) as T.
  rewrite decide_True in T by reflexivity.
  destruct T as (f' & n & E & Hn & R & _); [reflexivity|exact I|lia|simpl; lia| |].
  - repeat constructor; lia.
  - assert (n = 3) as -> by (rewrite Hn; reflexivity). exists f'. split; [exact E|exact R].
Defined.
