(* ===== verification/FreeMap.v ===== *)
(** * The free map ([filesys/free-map.c], file input and output of
      [lib/kernel/bitmap.c])

    The bitmap of sectors in use and its file.  [free_map_init] is here, as are
    the operations that the inode module calls; opening, creating and closing
    the free map's file are in [Filesys], after the file operations they use. *)

From S2P Require Import Prelude Machine Bytes FixedPoint Bitmap Block FsState InodeIo.

Open Scope Z_scope.

Definition FREE_MAP_SECTOR : Z := 0.
Definition ROOT_DIR_SECTOR : Z := 1.

(** The bytes of the bitmap's elements, and the elements with those bytes. *)
Definition elem_bytes (ws : list Z) : list Z := concat (enc32 <$> ws).

Fixpoint elems_of (n : nat) (bs : list Z) : list Z :=
  match n with
  | O => []
  | S n => le (take 4 bs) :: elems_of n (drop 4 bs)
  end.

Section free_map.

Context {D : Type} `{BlockDev D}.
Implicit Type f : fs D.

Definition file_read_at f (fp size file_ofs : Z) : option (fs D * list Z) :=
  x ← files f !! fp;
  inode_read_at f (f_inode x) size file_ofs.

Definition file_write_at f (fp : Z) (buffer : list Z) (size file_ofs : Z) : option (fs D * Z) :=
  x ← files f !! fp;
  inode_write_at f (f_inode x) buffer size file_ofs.

Definition bitmap_file_size (b : bitmap) : Z := byte_cnt (bit_cnt b).

(** [bitmap_read]: the bytes read replace those of the elements, and the bits
    past the end of the bitmap are cleared. *)
Definition bitmap_read f (b : bitmap) (fp : Z) : option (fs D * bitmap * bool) :=
  if 0 <? bit_cnt b then
    let size := byte_cnt (bit_cnt b) in
    '(f, got) ← file_read_at f fp size 0;
    let success := Z.of_nat (length got) =? int32 size in
    let b := b <| bits := elems_of (length (bits b)) (splice 0 got (elem_bytes (bits b))) |> in
    b ← update_elem b (elem_cnt (bit_cnt b) - 1) (λ w, Z.land w (last_mask b));
    Some (f, b, success)
  else Some (f, b, true).

Definition bitmap_write f (b : bitmap) (fp : Z) : option (fs D * bool) :=
  let size := byte_cnt (bit_cnt b) in
  '(f, n) ← file_write_at f fp (elem_bytes (bits b)) size 0;
  Some (f, n =? int32 size).

(** [free_map_init]; the storage that [bitmap_create] gets is [block]. *)
Definition free_map_init f (b_ok : bool) (block : option (list Z)) : option (fs D) :=
  r ← bitmap_create b_ok block (block_size (fs_device f));
  match r with
  | None => None
  | Some b =>
      b ← bitmap_mark b FREE_MAP_SECTOR;
      b ← bitmap_mark b ROOT_DIR_SECTOR;
      Some (f <| free_map := b |>)
  end.

(** [free_map_allocate]: the first sector, or [None] when it returns false. *)
Definition free_map_allocate f (cnt : Z) : option (fs D * option Z) :=
  '(b, sector) ← bitmap_scan_and_flip (free_map f) 0 cnt false;
  let f := f <| free_map := b |> in
  if negb (sector =? BITMAP_ERROR) then
    if negb (free_map_file f =? NULL) then
      '(f, ok) ← bitmap_write f (free_map f) (free_map_file f);
      if negb ok then
        b ← bitmap_set_multiple (free_map f) sector cnt false;
        Some (f <| free_map := b |>, None)
      else Some (f, Some sector)
    else Some (f, Some sector)
  else Some (f, None).

Definition free_map_release f (sector cnt : Z) : option (fs D) :=
  all ← bitmap_all (free_map f) sector cnt;
  assert! all;
  b ← bitmap_set_multiple (free_map f) sector cnt false;
  let f := f <| free_map := b |> in
  '(f, _) ← bitmap_write f (free_map f) (free_map_file f);
  Some f.

(** ** The bitmap's file *)

Lemma length_elem_bytes ws : length (elem_bytes ws) = (4 * length ws)%nat.
Proof.
  unfold elem_bytes. induction ws as [|w ws IH]; [done|]. cbn [fmap list_fmap concat].
  rewrite length_app, IH. simpl. lia.
Qed.

Lemma elem_bytes_ok ws : Forall is_byte (elem_bytes ws).
Proof.
  unfold elem_bytes. induction ws as [|w ws IH]; [done|]. cbn [fmap list_fmap concat].
  apply Forall_app_2; [apply enc32_bytes|done].
Qed.

(** The elements are read back from their bytes. *)
Lemma elems_of_bytes ws : Forall is_u32 ws → elems_of (length ws) (elem_bytes ws) = ws.
Proof.
  induction 1 as [|w ws Hw _ IH]; [done|]. unfold elem_bytes in *. cbn [length elems_of].
  change (concat (enc32 <$> w :: ws)) with (enc32 w ++ concat (enc32 <$> ws)).
  change (take 4 _) with (enc32 w). change (drop 4 _) with (concat (enc32 <$> ws)).
  by rewrite le_enc32, IH.
Qed.

(** The bits that [bitmap_read] keeps in the last element are those in use. *)
Lemma last_mask_bit b i : is_u32 (bit_cnt b) → 0 ≤ i < bit_cnt b →
  i / 32 = (bit_cnt b - 1) / 32 → Z.testbit (last_mask b) (i mod 32) = true.
Proof.
  intros Hc Hi E. unfold last_mask. change ELEM_BITS with 32.
  pose proof (Z.mod_pos_bound i 32 ltac:(lia)) as Hm.
  destruct (Z.eqb_spec (bit_cnt b mod 32) 0).
  - change (2 ^ 32 - 1) with (Z.ones 32). apply Z.ones_spec_low. lia.
  - pose proof (Z.mod_pos_bound (bit_cnt b) 32 ltac:(lia)) as Hb.
    rewrite u32_small.
    + rewrite Z.shiftl_1_l, Z.sub_1_r, <-Z.ones_equiv. apply Z.ones_spec_low.
      Z.to_euclidean_division_equations; lia.
    + rewrite Z.shiftl_1_l. split; [lia|]. apply Z.pow_lt_mono_r; lia.
Qed.

(** The elements of a bitmap are exactly those its bits need. *)
Definition tight (b : bitmap) : Prop :=
  wf b ∧ 0 < bit_cnt b < 2 ^ 29 ∧ Z.of_nat (length (bits b)) = (bit_cnt b + 31) / 32.

Lemma tight_sizes b : tight b →
  byte_cnt (bit_cnt b) = 4 * Z.of_nat (length (bits b)) ∧
  elem_cnt (bit_cnt b) = Z.of_nat (length (bits b)) ∧ byte_cnt (bit_cnt b) < 2 ^ 27.
Proof.
  intros (W & Hc & L). unfold byte_cnt, elem_cnt, DIV_ROUND_UP. change ELEM_BITS with 32.
  replace (bit_cnt b + 32 - 1) with (bit_cnt b + 31) by lia.
  rewrite (u32_small (bit_cnt b + 31)) by (unfold is_u32; lia). rewrite <-L.
  rewrite u32_small; [|unfold is_u32]; Z.to_euclidean_division_equations; lia.
Qed.

(** [fp] is an open file on the inode [i], which can hold the bitmap. *)
Record map_file f (fp : Z) (i : inode) (b : bitmap) : Prop := {
  mf_file : ∃ x, files f !! fp = Some x ∧ inodes f !! f_inode x = Some i;
  mf_mem : mem_ok f;
  mf_dev : block_ok (fs_device f);
  mf_inode : inode_ok f i;
  mf_deny : deny_write_cnt i = 0;
  mf_size : byte_cnt (bit_cnt b) ≤ inode_length i;
}.

Lemma bitmap_write_ok f b fp i : tight b → map_file f fp i b →
  ∃ f', bitmap_write f b fp = Some (f', true) ∧
    inode_written f i 0 (elem_bytes (bits b)) f'.
Proof.
  intros T [(x & Ex & Ei) M B I Hd Hs]. destruct (tight_sizes b T) as (Eb & _ & Hlt).
  unfold bitmap_write, file_write_at. rewrite Ex. cbn [mbind option_bind].
  pose proof (length_elem_bytes (bits b)) as L. pose proof (inode_len f i I).
  destruct (inode_write_at_ok f (f_inode x) i (elem_bytes (bits b)) (byte_cnt (bit_cnt b)) 0)
    as (f' & -> & W); [done..|lia|lia|apply elem_bytes_ok|].
  cbn [mbind option_bind]. exists f'.
  replace (transfer i (byte_cnt (bit_cnt b)) 0) with (byte_cnt (bit_cnt b)) in *
    by (unfold transfer; lia).
  rewrite int32_small, Z.eqb_refl by lia. split; [done|].
  rewrite take_ge in W by lia. apply written_contents; [done|done|lia|lia|done].
Qed.

Lemma map_file_written f f' fp i b c : map_file f fp i b →
  inode_written f i 0 c f' → map_file f' fp i b.
Proof.
  intros [X M B I Hd Hs] [(bl & -> & Bb & Sb & _) _].
  split; [done|done|done|by apply inode_ok_device|done|done].
Qed.

(** Masking the last element keeps the bits. *)
Lemma masked_bits b i : tight b → 0 ≤ i < bit_cnt b →
  bit (b <| bits := alter (λ w, Z.land w (last_mask b)) (Z.to_nat ((bit_cnt b - 1) / 32)) (bits b) |>) i
  = bit b i.
Proof.
  intros (W & Hc & L) Hi. unfold bit. simpl.
  destruct (decide (i / 32 = (bit_cnt b - 1) / 32)) as [E|N].
  - rewrite E. rewrite !list_lookup_total_alt.
    assert (is_Some (bits b !! Z.to_nat ((bit_cnt b - 1) / 32))) as [w Ew].
    { apply lookup_lt_is_Some. Z.to_euclidean_division_equations; lia. }
    rewrite list_lookup_alter_eq, Ew. simpl. rewrite Z.land_spec.
    rewrite last_mask_bit by (done || apply W). apply andb_true_r.
  - rewrite !list_lookup_total_alt, list_lookup_alter_ne; [done|]. intros E. apply N.
    symmetry. apply Z2Nat.inj; [apply Z.div_pos; lia|apply Z.div_pos; lia|done].
Qed.

Lemma bitmap_read_ok f b b2 fp i : tight b → map_file f fp i b →
  bit_cnt b2 = bit_cnt b → length (bits b2) = length (bits b) →
  take (4 * length (bits b)) (contents f i) = elem_bytes (bits b) →
  bitmap_read f b2 fp =
    Some (f, b <| bits := alter (λ w, Z.land w (last_mask b)) (Z.to_nat ((bit_cnt b - 1) / 32)) (bits b) |>, true).
Proof.
  intros T [(x & Ex & Ei) M B I Hd Hs] Ec El C. pose proof T as (W & Hc & L).
  destruct (tight_sizes b T) as (Eb & En & Hlt). pose proof (inode_len f i I).
  unfold bitmap_read. rewrite Ec, (proj2 (Z.ltb_lt _ _)) by lia.
  unfold file_read_at. rewrite Ex. cbn [mbind option_bind].
  rewrite (inode_read_at_ok f (f_inode x) i) by (done || lia). cbn [mbind option_bind].
  replace (Z.to_nat (transfer i (byte_cnt (bit_cnt b)) 0)) with (4 * length (bits b))%nat
    by (unfold transfer; lia).
  unfold slice. rewrite drop_0, C, int32_small, length_elem_bytes by lia.
  replace (Z.of_nat _ =? _) with true by (symmetry; apply Z.eqb_eq; lia).
  rewrite splice_all by (rewrite !length_elem_bytes; lia).
  simpl. rewrite El, elems_of_bytes, Ec, En by apply W. unfold update_elem; simpl.
  replace (Z.of_nat (length (bits b)) - 1) with ((bit_cnt b - 1) / 32)
    by (Z.to_euclidean_division_equations; lia).
  destruct (bits b !! Z.to_nat ((bit_cnt b - 1) / 32)) as [w|] eqn:Ew.
  - cbn [mbind option_bind]. do 3 f_equal. unfold last_mask; simpl. f_equal.
    apply list_eq. intros j. destruct (decide (j = Z.to_nat ((bit_cnt b - 1) / 32))) as [->|].
    + rewrite list_lookup_insert_eq by (by eapply lookup_lt_Some).
      rewrite list_lookup_alter_eq, Ew. done.
    + by rewrite list_lookup_insert_ne, list_lookup_alter_ne.
  - apply lookup_ge_None in Ew. exfalso. Z.to_euclidean_division_equations; lia.
Qed.

(** ** Correctness *)

(** a bitmap written to its file with [bitmap_write] and read back with
    [bitmap_read], into a bitmap of the same size with any contents, has the
    same bits; both operations succeed when the file is large enough. *)
Theorem bitmap_file_roundtrip f b b2 fp i : tight b → map_file f fp i b →
  bit_cnt b2 = bit_cnt b → length (bits b2) = length (bits b) →
  ∃ f' b', bitmap_write f b fp = Some (f', true) ∧ bitmap_read f' b2 fp = Some (f', b', true) ∧
    bit_cnt b' = bit_cnt b ∧ ∀ k, 0 ≤ k < bit_cnt b → bit b' k = bit b k.
Proof.
  intros T F Ec El. destruct (bitmap_write_ok f b fp i T F) as (f' & -> & Wr).
  pose proof (map_file_written _ _ _ _ _ _ F Wr) as F'.
  destruct (tight_sizes b T) as (Eb & _ & _).
  eexists f', _. split; [done|]. split.
  - apply (bitmap_read_ok f' b b2 fp i); try done. destruct Wr as [_ C].
    rewrite C. unfold splice. simpl. rewrite take_app_le by (rewrite length_elem_bytes; lia).
    apply take_ge. rewrite length_elem_bytes. lia.
  - split; [done|]. intros k Hk. by apply masked_bits.
Qed.

End free_map.

(** A disk of three sectors with a file of 8 bytes in sector 2, open as [2]. *)
Definition example_map_inode : inode := mk_inode 0 1 false 0 (mk_inode_disk 2 8 0 []).
Definition example_map_fs : fs disk :=
  mk_fs (mk_block BLOCK_FILESYS 3 (mk_disk (replicate 3 (replicate 512 0)))) (mk_bitmap 0 [])
    2 [1] {[1 := example_map_inode]} {[2 := mk_file 1 0 false]} ∅ [] 3.

Lemma bitmap_file_roundtrip_witness :
  ∃ f' b', bitmap_write example_map_fs (mk_bitmap 40 [5; 9]) 2 = Some (f', true) ∧
    bitmap_read f' (mk_bitmap 40 [1; 1]) 2 = Some (f', b', true) ∧
    bit b' 2 = bit (mk_bitmap 40 [5; 9]) 2.
Proof.
  destruct (bitmap_file_roundtrip example_map_fs (mk_bitmap 40 [5; 9]) (mk_bitmap 40 [1; 1]) 2
              example_map_inode) as (f' & b' & Ew & Er & _ & Hb).
  - split; [|split; [simpl; lia|reflexivity]].
    split; simpl; [unfold is_u32; lia|lia|]. repeat constructor; lia.
  - split.
    + by exists (mk_file 1 0 false).
    + reflexivity.
    + split; [|done|unfold is_u32; simpl; lia|done]. apply (Forall_replicate _ 3).
      split; [done|]. apply Forall_replicate. unfold is_byte. lia.
    + split; vm_compute; intuition congruence.
    + reflexivity.
    + vm_compute. congruence.
  - reflexivity.
  - reflexivity.
  - exists f', b'. split; [exact Ew|]. split; [exact Er|]. apply Hb. simpl. lia.
Defined.
