(* ===== verification/Inode.v ===== *)
(** * Inodes and files ([filesys/inode.c], [filesys/file.c])

    Creating, opening and closing inodes, and the open files on top of them.
    A pointer is an address in the heap of the state; an access to an object
    that is not there is [None]. *)

From S2P Require Import Prelude Machine Bytes FixedPoint Bitmap Block FsState InodeIo FreeMap.

Open Scope Z_scope.

Definition INODE_MAGIC : Z := 1229868868.

Section inode.

Context {D : Type} `{BlockDev D}.
Implicit Type f : fs D.

Definition inode_init f : fs D := f <| open_inodes := [] |>.

(** The loop that writes [n] sectors of zeros from [sector] on. *)
Fixpoint write_zeros (n : nat) f (sector : Z) : option (fs D) :=
  match n with
  | O => Some f
  | S n =>
      b ← block_write (fs_device f) (u32 sector) (replicate 512 0);
      write_zeros n (f <| fs_device := b |>) (sector + 1)
  end.

Definition inode_create f (sector len : Z) : option (fs D * bool) :=
  assert! 0 <=? len;
  let (f, ok) := try_malloc f in
  if ok then
    let sectors := bytes_to_sectors len in
    '(f, start) ← free_map_allocate f sectors;
    match start with
    | Some start =>
        let disk_inode := mk_inode_disk start len INODE_MAGIC (replicate 500 0) in
        b ← block_write (fs_device f) sector (encode_inode disk_inode);
        f ← write_zeros (Z.to_nat sectors) (f <| fs_device := b |>) start;
        Some (f, true)
    | None => Some (f, false)
    end
  else Some (f, false).

(** [inode_reopen] of an inode that is not a null pointer. *)
Definition inode_reopen f (ino : Z) : option (fs D * Z) :=
  if ino =? NULL then Some (f, ino)
  else
    i ← inodes f !! ino;
    Some (f <| inodes ::= <[ino := i <| open_cnt ::= Z.succ |>]> |>, ino).

(** The first open inode of the list that has the sector. *)
Fixpoint find_inode f (l : list Z) (sector : Z) : option (option Z) :=
  match l with
  | [] => Some None
  | ino :: l =>
      i ← inodes f !! ino;
      if i_sector i =? sector then Some (Some ino) else find_inode f l sector
  end.

Definition inode_open f (sector : Z) : option (fs D * Z) :=
  found ← find_inode f (open_inodes f) sector;
  match found with
  | Some ino => inode_reopen f ino
  | None =>
      let (f, ok) := try_malloc f in
      if ok then
        let (f, ino) := new_addr f in
        let f := f <| open_inodes ::= cons ino |> in
        sec ← block_read (fs_device f) sector;
        Some (f <| inodes ::= <[ino := mk_inode sector 1 false 0 (decode_inode sec)]> |>, ino)
      else Some (f, NULL)
  end.

Definition inode_get_inumber f (ino : Z) : option Z :=
  i ← inodes f !! ino; Some (i_sector i).

Definition inode_close f (ino : Z) : option (fs D) :=
  if ino =? NULL then Some f
  else
    i ← inodes f !! ino;
    let i := i <| open_cnt ::= Z.pred |> in
    let f := f <| inodes ::= <[ino := i]> |> in
    if open_cnt i =? 0 then
      let f := f <| open_inodes ::= filter (λ x, x ≠ ino) |> in
      f ← (if removed i then
             f ← free_map_release f (i_sector i) 1;
             free_map_release f (id_start (data i)) (bytes_to_sectors (id_length (data i)))
           else Some f);
      Some (f <| inodes ::= delete ino |>)
    else Some f.

Definition inode_remove f (ino : Z) : option (fs D) :=
  i ← inodes f !! ino;
  Some (f <| inodes ::= <[ino := i <| removed := true |>]> |>).

Definition inode_deny_write f (ino : Z) : option (fs D) :=
  i ← inodes f !! ino;
  let i := i <| deny_write_cnt ::= Z.succ |> in
  assert! deny_write_cnt i <=? open_cnt i;
  Some (f <| inodes ::= <[ino := i]> |>).

Definition inode_allow_write f (ino : Z) : option (fs D) :=
  i ← inodes f !! ino;
  assert! 0 <? deny_write_cnt i;
  assert! deny_write_cnt i <=? open_cnt i;
  Some (f <| inodes ::= <[ino := i <| deny_write_cnt ::= Z.pred |>]> |>).

(** ** Files *)

Definition file_open f (ino : Z) : option (fs D * Z) :=
  let (f, ok) := try_malloc f in
  if negb (ino =? NULL) && ok then
    let (f, fp) := new_addr f in
    Some (f <| files ::= <[fp := mk_file ino 0 false]> |>, fp)
  else
    f ← inode_close f ino;
    Some (f, NULL).

Definition file_reopen f (fp : Z) : option (fs D * Z) :=
  x ← files f !! fp;
  '(f, ino) ← inode_reopen f (f_inode x);
  file_open f ino.

Definition file_allow_write f (fp : Z) : option (fs D) :=
  assert! negb (fp =? NULL);
  x ← files f !! fp;
  if deny_write x then
    inode_allow_write (f <| files ::= <[fp := x <| deny_write := false |>]> |>) (f_inode x)
  else Some f.

Definition file_deny_write f (fp : Z) : option (fs D) :=
  assert! negb (fp =? NULL);
  x ← files f !! fp;
  if negb (deny_write x) then
    inode_deny_write (f <| files ::= <[fp := x <| deny_write := true |>]> |>) (f_inode x)
  else Some f.

Definition file_close f (fp : Z) : option (fs D) :=
  if fp =? NULL then Some f
  else
    f ← file_allow_write f fp;
    x ← files f !! fp;
    f ← inode_close f (f_inode x);
    Some (f <| files ::= delete fp |>).

Definition file_get_inode f (fp : Z) : option Z :=
  x ← files f !! fp; Some (f_inode x).

(** [file_read]: the bytes stored into the buffer. *)
Definition file_read f (fp size : Z) : option (fs D * list Z) :=
  x ← files f !! fp;
  '(f, got) ← inode_read_at f (f_inode x) size (f_pos x);
  Some (f <| files ::= <[fp := x <| f_pos ::= Z.add (Z.of_nat (length got)) |>]> |>, got).

Definition file_write f (fp : Z) (buffer : list Z) (size : Z) : option (fs D * Z) :=
  x ← files f !! fp;
  '(f, n) ← inode_write_at f (f_inode x) buffer size (f_pos x);
  Some (f <| files ::= <[fp := x <| f_pos ::= Z.add n |>]> |>, n).

Definition file_length f (fp : Z) : option Z :=
  assert! negb (fp =? NULL);
  x ← files f !! fp;
  i ← inodes f !! f_inode x;
  Some (inode_length i).

Definition file_seek f (fp new_pos : Z) : option (fs D) :=
  assert! negb (fp =? NULL);
  assert! 0 <=? new_pos;
  x ← files f !! fp;
  Some (f <| files ::= <[fp := x <| f_pos := new_pos |>]> |>).

Definition file_tell f (fp : Z) : option Z :=
  assert! negb (fp =? NULL);
  x ← files f !! fp;
  Some (f_pos x).

(** ** The list of open inodes *)

(** Every object is on the list of open inodes, once, with its own sector and a
    positive count of openers. *)
Record cache_ok f : Prop := {
  cache_nodup : NoDup (open_inodes f);
  cache_in : ∀ ino, ino ∈ open_inodes f ↔ is_Some (inodes f !! ino);
  cache_cnt : ∀ ino i, inodes f !! ino = Some i → 0 < open_cnt i;
  cache_sector : ∀ ino ino' i i', inodes f !! ino = Some i → inodes f !! ino' = Some i' →
    i_sector i = i_sector i' → ino = ino';
  cache_brk : 0 < brk f;
  cache_addr : ∀ ino, is_Some (inodes f !! ino) → 0 < ino < brk f;
}.

Lemma find_inode_ok f l sector : (∀ ino, ino ∈ l → is_Some (inodes f !! ino)) →
  ∃ r, find_inode f l sector = Some r ∧
    match r with
    | Some ino => ino ∈ l ∧ ∃ i, inodes f !! ino = Some i ∧ i_sector i = sector
    | None => ∀ ino i, ino ∈ l → inodes f !! ino = Some i → i_sector i ≠ sector
    end.
Proof.
  induction l as [|a l IH]; intros Hl; simpl.
  - exists None. split; [done|]. intros ? ? []%not_elem_of_nil.
  - destruct (Hl a) as [i Ei]; [left|]. rewrite Ei. cbn [mbind option_bind].
    destruct (Z.eqb_spec (i_sector i) sector) as [Es|Es].
    + exists (Some a). split; [done|]. split; [left|by exists i].
    + destruct IH as (r & -> & Hr); [intros; apply Hl; by right|]. exists r. split; [done|].
      destruct r as [ino|].
      * destruct Hr as [? ?]. split; [by right|done].
      * intros ino i' [->|Hin]%elem_of_cons E'; [by simplify_eq|by eapply Hr].
Qed.

(** [f] with the inode at [ino] replaced. *)
Lemma cache_update f ino i i' : cache_ok f → inodes f !! ino = Some i →
  i_sector i' = i_sector i → 0 < open_cnt i' →
  cache_ok (f <| inodes ::= <[ino := i']> |>).
Proof.
  intros [N I C S Bk A] E Es Hc. split; simpl; [done| | | |done|].
  - intros ino'. rewrite I. destruct (decide (ino' = ino)) as [->|].
    + rewrite lookup_insert_eq, E. split; intros _; by eexists.
    + by rewrite lookup_insert_ne.
  - intros ino' j Ej. apply lookup_insert_Some in Ej as [[<- <-]|[_ Ej]]; [done|by eapply C].
  - intros a b j j' Ea Eb Eab.
    apply lookup_insert_Some in Ea as [[<- <-]|[? Ea]];
      apply lookup_insert_Some in Eb as [[<- <-]|[? Eb]]; try done.
    + rewrite Es in Eab. by eapply S.
    + rewrite Es in Eab. by eapply S.
    + by eapply S.
  - intros ino' [j Ej]. apply A.
    apply lookup_insert_Some in Ej as [[<- _]|[_ Ej]]; by eexists.
Qed.

Lemma reopen_close f ino i : inodes f !! ino = Some i → ino ≠ NULL → 0 < open_cnt i →
  inode_close (f <| inodes ::= <[ino := i <| open_cnt ::= Z.succ |>]> |>) ino = Some f.
Proof.
  intros E Hn Hc. unfold inode_close. rewrite (proj2 (Z.eqb_neq _ _)) by done. simpl.
  rewrite lookup_insert_eq. cbn [mbind option_bind]. simpl.
  rewrite (proj2 (Z.eqb_neq _ 0)) by lia. f_equal. destruct f as [d fm fmf oi ins fs ds oom brk].
  simpl in *. f_equal. rewrite insert_insert_eq.
  replace (Z.pred (Z.succ (open_cnt i))) with (open_cnt i) by lia.
  apply insert_id. rewrite E. by destruct i.
Qed.

(** A new object on the list. *)
Lemma cache_new f sector i : cache_ok f → i_sector i = sector → 0 < open_cnt i →
  (∀ ino j, inodes f !! ino = Some j → i_sector j ≠ sector) →
  cache_ok (f <| brk ::= Z.succ |> <| open_inodes ::= cons (brk f) |>
              <| inodes ::= <[brk f := i]> |>).
Proof.
  intros [N I C S Bk A] Es Hc Hno.
  assert (inodes f !! brk f = None) as Hf.
  { destruct (inodes f !! brk f) as [j|] eqn:E; [|done]. pose proof (A (brk f) ltac:(by eexists)). lia. }
  assert (brk f ∉ open_inodes f) as Hni.
  { rewrite I, Hf. by intros [? ?]. }
  split; simpl.
  - by constructor.
  - intros ino. rewrite elem_of_cons, I. destruct (decide (ino = brk f)) as [->|].
    + rewrite lookup_insert_eq. split; [by eexists|by left].
    + rewrite lookup_insert_ne by done. naive_solver.
  - intros ino j Ej. apply lookup_insert_Some in Ej as [[<- <-]|[_ Ej]]; [done|by eapply C].
  - intros a b j j' Ea Eb Eab.
    apply lookup_insert_Some in Ea as [[<- <-]|[? Ea]];
      apply lookup_insert_Some in Eb as [[<- <-]|[? Eb]]; try done.
    + exfalso. apply (Hno b j' Eb). congruence.
    + exfalso. apply (Hno a j Ea). congruence.
    + by eapply S.
  - lia.
  - intros ino [j Ej]. apply lookup_insert_Some in Ej as [[<- _]|[_ Ej]]; [lia|].
    pose proof (A ino ltac:(by eexists)). lia.
Qed.

Lemma new_close f i : cache_ok f → open_cnt i = 1 → removed i = false →
  inode_close (f <| brk ::= Z.succ |> <| open_inodes ::= cons (brk f) |>
                 <| inodes ::= <[brk f := i]> |>) (brk f) = Some (f <| brk ::= Z.succ |>).
Proof.
  intros [N I C S Bk A] Hc Hr.
  assert (inodes f !! brk f = None) as Hf.
  { destruct (inodes f !! brk f) as [j|] eqn:E; [|done]. pose proof (A (brk f) ltac:(by eexists)). lia. }
  assert (brk f ∉ open_inodes f) as Hni.
  { rewrite I, Hf. by intros [? ?]. }
  unfold inode_close. rewrite (proj2 (Z.eqb_neq _ NULL)) by (unfold NULL; lia). simpl.
  rewrite lookup_insert_eq. cbn [mbind option_bind]. simpl. rewrite Hc, Hr. simpl.
  do 2 f_equal.
  - rewrite filter_cons, decide_False by (intros Hx; by apply Hx). apply filter_all_true.
    intros x Hx ->. done.
  - rewrite insert_insert_eq. by apply delete_insert_id.
Qed.

(** ** Correctness *)

(** a sector is opened at most once: [inode_open] returns the inode already
    open for the sector, with one more opener, or a new one read from the disk,
    and the list of open inodes stays consistent.  Closing the inode that was
    just opened restores everything but the addresses in use. *)
Theorem inode_open_close f sector :
  cache_ok f → mem_ok f → block_ok (fs_device f) → 0 ≤ sector < size (fs_device f) →
  ∃ f' ino i, inode_open f sector = Some (f', ino) ∧ cache_ok f' ∧ ino ≠ NULL ∧
    inodes f' !! ino = Some i ∧ i_sector i = sector ∧
    (∀ ino' i', inodes f' !! ino' = Some i' → i_sector i' = sector → ino' = ino) ∧
    (∀ i0, inodes f !! ino = Some i0 → i = i0 <| open_cnt ::= Z.succ |>) ∧
    (inodes f !! ino = None → ∃ sec, block_data (fs_device f) !! Z.to_nat sector = Some sec ∧
       i = mk_inode sector 1 false 0 (decode_inode sec)) ∧
    inode_close f' ino = Some (f <| brk := brk f' |>).
Proof.
  intros K M B Hs. unfold inode_open.
  destruct (find_inode_ok f (open_inodes f) sector) as (r & -> & Hr); [intros; by apply K|].
  cbn [mbind option_bind]. destruct r as [ino|].
  - destruct Hr as (Hin & i & Ei & Es). pose proof (cache_cnt f K ino i Ei) as Hc.
    assert (ino ≠ NULL) as Hn by (intros ->; pose proof (cache_addr f K NULL ltac:(by eexists)); unfold NULL in *; lia).
    unfold inode_reopen. rewrite (proj2 (Z.eqb_neq _ _)), Ei by done. cbn [mbind option_bind].
    assert (cache_ok (f <| inodes ::= <[ino := i <| open_cnt ::= Z.succ |>]> |>)) as K'
      by (apply (cache_update f ino i); simpl; done || lia).
    eexists _, ino, (i <| open_cnt ::= Z.succ |>). split; [done|]. split; [done|]. split; [done|].
    split; [apply lookup_insert_eq|]. split; [done|]. split; [|split; [|split]].
    + intros ino' i' E' Es'. eapply (cache_sector _ K'); [done|apply lookup_insert_eq|by rewrite Es'].
    + intros i0 E0. by simplify_eq.
    + congruence.
    + rewrite reopen_close by done. by destruct f.
  - assert (∀ ino j, inodes f !! ino = Some j → i_sector j ≠ sector) as Hno.
    { intros ino j Ej. apply (Hr ino j); [|done]. apply K. by eexists. }
    destruct (block_sector _ _ B Hs) as (sec & Ed & _).
    unfold try_malloc. rewrite M. simpl. rewrite (block_read_ok _ _ sec) by (done || lia).
    cbn [mbind option_bind]. set (i := mk_inode sector 1 false 0 (decode_inode sec)).
    assert (inodes f !! brk f = None) as Hf.
    { destruct (inodes f !! brk f) as [j|] eqn:E; [|done].
      pose proof (cache_addr f K (brk f) ltac:(by eexists)). lia. }
    pose proof (cache_new f sector i K eq_refl ltac:(simpl; lia) Hno) as K'.
    eexists _, (brk f), i. split; [done|]. split; [done|].
    split; [pose proof (cache_brk f K); unfold NULL; lia|].
    split; [apply lookup_insert_eq|]. split; [done|]. split; [|split; [|split]].
    + intros ino' i' E' Es'. eapply (cache_sector _ K'); [done|apply lookup_insert_eq|by rewrite Es'].
    + congruence.
    + intros _. by exists sec.
    + by apply (new_close f i).
Qed.

End inode.

(** The file system of [FreeMap]'s example, with one inode open. *)
Lemma inode_open_close_witness :
  ∃ f' ino, inode_open (example_map_fs <| free_map_file := 0 |>) 1 = Some (f', ino) ∧
    inode_close f' ino = Some ((example_map_fs <| free_map_file := 0 |>) <| brk := brk f' |>).
Proof.
  destruct (inode_open_close (example_map_fs <| free_map_file := 0 |>) 1)
    as (f' & ino & i & E & _ & _ & _ & _ & _ & _ & _ & Ec).
  - split; simpl.
    + apply NoDup_singleton.
    + intros ino. rewrite list_elem_of_singleton. split.
      * intros ->. by eexists.
      * intros [i Hi]. by apply lookup_singleton_Some in Hi as [-> _].
    + intros ino i [<- <-]%lookup_singleton_Some. simpl. lia.
    + intros a b i i' [<- _]%lookup_singleton_Some [<- _]%lookup_singleton_Some _. done.
    + lia.
    + intros ino [i [<- _]%lookup_singleton_Some]. lia.
  - reflexivity.
  - split; [|done|unfold is_u32; simpl; lia|done]. apply (Forall_replicate _ 3).
    split; [done|]. apply Forall_replicate. unfold is_byte. lia.
  - simpl. lia.
  - exists f', ino. split; [exact E|exact Ec].
Defined.
