(* ===== verification/Directory.v ===== *)
(** * Directories ([filesys/directory.c])

    A directory is an inode whose data is an array of 20-byte entries: the
    sector of the file's inode, its name with a terminating null byte, and
    whether the entry is in use.  A name is the list of its bytes before the
    null byte.  The [struct dir_entry] of a function is on its stack; where its
    old contents matter they are an argument. *)

From S2P Require Import Prelude Machine Bytes FixedPoint Bitmap Block FsState InodeIo FreeMap Inode.

Open Scope Z_scope.

Definition NAME_MAX : Z := 14.

(** [sizeof (struct dir_entry)]. *)
Definition ENTRY_SIZE : Z := 20.

(** The fields of an entry. *)
Definition e_sector (e : list Z) : Z := le (slice 0 4 e).
Definition e_name (e : list Z) : list Z := slice 4 16 e.
Definition e_in_use (e : list Z) : bool := negb (nth 19 e 0 =? 0).

(** [!strcmp (a, raw)], where [a] has no null byte; [None] when the comparison
    leaves the bytes of [raw]. *)
Fixpoint str_eq (a raw : list Z) : option bool :=
  match a, raw with
  | _, [] => None
  | [], y :: _ => Some (y =? 0)
  | x :: a, y :: raw => if x =? y then str_eq a raw else Some false
  end.

(** The string that starts at [raw]. *)
Fixpoint cstr (raw : list Z) : option (list Z) :=
  match raw with
  | [] => None
  | y :: raw => if y =? 0 then Some [] else s ← cstr raw; Some (y :: s)
  end.

(** The entry for [name], written over the old contents [e]. *)
Definition fill_entry (e : list Z) (name : list Z) (inode_sector : Z) : list Z :=
  enc32 inode_sector ++ splice 0 (name ++ [0]) (slice 4 15 e) ++ [1].

Section directory.

Context {D : Type} `{BlockDev D}.
Implicit Type f : fs D.

Definition dir_create f (sector entry_cnt : Z) : option (fs D * bool) :=
  inode_create f sector (entry_cnt * ENTRY_SIZE).

Definition dir_open f (ino : Z) : option (fs D * Z) :=
  let (f, ok) := try_malloc f in
  if negb (ino =? NULL) && ok then
    let (f, dp) := new_addr f in
    Some (f <| dirs ::= <[dp := mk_dir ino 0]> |>, dp)
  else
    f ← inode_close f ino;
    Some (f, NULL).

Definition dir_open_root f : option (fs D * Z) :=
  '(f, ino) ← inode_open f ROOT_DIR_SECTOR;
  dir_open f ino.

Definition dir_reopen f (dp : Z) : option (fs D * Z) :=
  x ← dirs f !! dp;
  '(f, ino) ← inode_reopen f (d_inode x);
  dir_open f ino.

Definition dir_close f (dp : Z) : option (fs D) :=
  if dp =? NULL then Some f
  else
    x ← dirs f !! dp;
    f ← inode_close f (d_inode x);
    Some (f <| dirs ::= delete dp |>).

Definition dir_get_inode f (dp : Z) : option Z :=
  x ← dirs f !! dp; Some (d_inode x).

(** The loop of [lookup] from offset [ofs] on: the entry and its offset. *)
Fixpoint lookup_loop (fuel : nat) f (ino : Z) (name : list Z) (ofs : Z) :
    option (fs D * option (list Z * Z)) :=
  match fuel with
  | O => None
  | S fuel =>
      '(f, e) ← inode_read_at f ino ENTRY_SIZE ofs;
      if Z.of_nat (length e) =? ENTRY_SIZE then
        if e_in_use e then
          eq ← str_eq name (e_name e);
          if (eq : bool) then Some (f, Some (e, ofs))
          else lookup_loop fuel f ino name (ofs + ENTRY_SIZE)
        else lookup_loop fuel f ino name (ofs + ENTRY_SIZE)
      else Some (f, None)
  end.

(** The number of entries of the inode, and one more. *)
Definition entry_fuel f (ino : Z) : option nat :=
  i ← inodes f !! ino;
  Some (S (S (Z.to_nat (inode_length i / ENTRY_SIZE)))).

Definition lookup f (dp : Z) (name : list Z) : option (fs D * option (list Z * Z)) :=
  assert! negb (dp =? NULL);
  x ← dirs f !! dp;
  fuel ← entry_fuel f (d_inode x);
  lookup_loop fuel f (d_inode x) name 0.

Definition dir_lookup f (dp : Z) (name : list Z) : option (fs D * Z) :=
  assert! negb (dp =? NULL);
  '(f, r) ← lookup f dp name;
  match r with
  | Some (e, _) => inode_open f (e_sector e)
  | None => Some (f, NULL)
  end.

(** The loop of [dir_add] that looks for a free slot: the last contents of [e]
    and the offset. *)
Fixpoint free_slot_loop (fuel : nat) f (ino : Z) (e : list Z) (ofs : Z) :
    option (fs D * list Z * Z) :=
  match fuel with
  | O => None
  | S fuel =>
      '(f, got) ← inode_read_at f ino ENTRY_SIZE ofs;
      let e := splice 0 got e in
      if Z.of_nat (length got) =? ENTRY_SIZE then
        if negb (e_in_use e) then Some (f, e, ofs)
        else free_slot_loop fuel f ino e (ofs + ENTRY_SIZE)
      else Some (f, e, ofs)
  end.

(** [dir_add]; [e0] has the contents of [e] before it is set. *)
Definition dir_add f (e0 : list Z) (dp : Z) (name : list Z) (inode_sector : Z) :
    option (fs D * bool) :=
  assert! negb (dp =? NULL);
  if bool_decide (name = []) || (NAME_MAX <? Z.of_nat (length name)) then Some (f, false)
  else
    '(f, r) ← lookup f dp name;
    match r with
    | Some _ => Some (f, false)
    | None =>
        x ← dirs f !! dp;
        fuel ← entry_fuel f (d_inode x);
        '(f, e, ofs) ← free_slot_loop fuel f (d_inode x) e0 0;
        '(f, n) ← inode_write_at f (d_inode x) (fill_entry e name inode_sector) ENTRY_SIZE ofs;
        Some (f, n =? ENTRY_SIZE)
    end.

Definition dir_remove f (dp : Z) (name : list Z) : option (fs D * bool) :=
  assert! negb (dp =? NULL);
  '(f, r) ← lookup f dp name;
  match r with
  | None => Some (f, false)
  | Some (e, ofs) =>
      '(f, ino) ← inode_open f (e_sector e);
      if ino =? NULL then Some (f, false)
      else
        x ← dirs f !! dp;
        '(f, n) ← inode_write_at f (d_inode x) (take 19 e ++ [0]) ENTRY_SIZE ofs;
        if negb (n =? ENTRY_SIZE) then f ← inode_close f ino; Some (f, false)
        else
          f ← inode_remove f ino;
          f ← inode_close f ino;
          Some (f, true)
  end.

(** The loop of [dir_readdir]: the name stored, if any. *)
Fixpoint readdir_loop (fuel : nat) f (dp : Z) : option (fs D * option (list Z)) :=
  match fuel with
  | O => None
  | S fuel =>
      x ← dirs f !! dp;
      '(f, e) ← inode_read_at f (d_inode x) ENTRY_SIZE (d_pos x);
      if Z.of_nat (length e) =? ENTRY_SIZE then
        let f := f <| dirs ::= <[dp := x <| d_pos ::= Z.add ENTRY_SIZE |>]> |> in
        if e_in_use e then
          s ← cstr (e_name e);
          Some (f, Some (take 14 s))
        else readdir_loop fuel f dp
      else Some (f, None)
  end.

Definition dir_readdir f (dp : Z) : option (fs D * option (list Z)) :=
  x ← dirs f !! dp;
  fuel ← entry_fuel f (d_inode x);
  readdir_loop fuel f dp.

(** ** Specification *)

(** The entries of the directory whose inode is [i]. *)
Definition entries f (i : inode) : list (list Z) :=
  (λ k, slice (20 * k) 20 (contents f i)) <$> seq 0 (Z.to_nat (inode_length i / ENTRY_SIZE)).

(** The entry is in use for the file [name]. *)
Definition names (name e : list Z) : Prop := e_in_use e = true ∧ cstr (e_name e) = Some name.

#[export] Instance names_dec name e : Decision (names name e).
Proof. unfold names. apply _. Defined.

(** Every entry in use holds a string. *)
Definition names_ok (es : list (list Z)) : Prop :=
  Forall (λ e, e_in_use e = true → is_Some (cstr (e_name e))) es.

(** The directory maps [name] to [sector]. *)
Definition binds (es : list (list Z)) (name : list Z) (sector : Z) : Prop :=
  ∃ e, e ∈ es ∧ names name e ∧ e_sector e = sector.

(** No two entries have the same name. *)
Definition unique (es : list (list Z)) : Prop :=
  ∀ k k' e e' name, es !! k = Some e → es !! k' = Some e' →
    names name e → names name e' → k = k'.

(** A file name: not empty, not too long, without null bytes. *)
Definition valid_name (name : list Z) : Prop :=
  name ≠ [] ∧ (length name ≤ 14)%nat ∧ Forall (λ x, 0 < x < 256) name.

(** [dp] is an open directory whose inode is [i]. *)
Record dir_ok f (dp : Z) (i : inode) : Prop := {
  dir_ptr : dp ≠ NULL;
  dir_inode : ∃ x, dirs f !! dp = Some x ∧ inodes f !! d_inode x = Some i;
  dir_mem : mem_ok f;
  dir_dev : block_ok (fs_device f);
  dir_data : inode_ok f i;
  dir_names : names_ok (entries f i);
}.

(** ** Entries *)

Lemma str_eq_cstr a raw s : Forall (λ x, 0 < x < 256) a → cstr raw = Some s →
  str_eq a raw = Some (bool_decide (a = s)).
Proof.
  revert a s. induction raw as [|y raw IH]; intros a s Ha Hs; [done|]. simpl in Hs.
  destruct a as [|x a]; simpl.
  - f_equal. destruct (Z.eqb_spec y 0).
    + simplify_eq. done.
    + destruct (cstr raw); simpl in Hs; simplify_eq. by rewrite bool_decide_false.
  - apply Forall_cons in Ha as [Hx Ha]. destruct (Z.eqb_spec y 0) as [->|Hy].
    + simplify_eq. rewrite (proj2 (Z.eqb_neq x 0)) by lia. by rewrite bool_decide_false.
    + destruct (cstr raw) as [s'|]; simpl in Hs; simplify_eq.
      destruct (Z.eqb_spec x y) as [->|].
      * rewrite (IH a s') by done. f_equal. apply bool_decide_ext. split; congruence.
      * rewrite bool_decide_false; [done|congruence].
Qed.

Lemma cstr_app s rest : Forall (λ x, 0 < x < 256) s → cstr (s ++ 0 :: rest) = Some s.
Proof.
  induction 1 as [|x s Hx _ IH]; simpl; [done|].
  rewrite (proj2 (Z.eqb_neq x 0)) by lia. by rewrite IH.
Qed.

(** The entry [dir_add] writes. *)
Lemma fill_entry_ok e name sector : length e = 20%nat → Forall is_byte e →
  valid_name name → is_u32 sector →
  length (fill_entry e name sector) = 20%nat ∧ Forall is_byte (fill_entry e name sector) ∧
  names name (fill_entry e name sector) ∧ e_sector (fill_entry e name sector) = sector.
Proof.
  intros He Be (_ & Hl & Hn) Hs.
  assert (length (slice 4 15 e) = 15%nat) as L4 by (apply length_slice; lia).
  set (m := splice 0 (name ++ [0]) (slice 4 15 e)).
  assert (length m = 15%nat) as Lm.
  { unfold m. rewrite length_splice; rewrite ?length_app; simpl; lia. }
  assert (fill_entry e name sector = enc32 sector ++ m ++ [1]) as E by done.
  split; [rewrite E, !length_app, Lm; done|]. split; [|split].
  - rewrite E. apply Forall_app_2; [apply enc32_bytes|]. apply Forall_app_2; [|by repeat constructor].
    apply splice_bytes; [|by apply slice_bytes]. apply Forall_app_2; [|by repeat constructor].
    eapply Forall_impl; [done|]. unfold is_byte. simpl. lia.
  - split.
    + rewrite E. unfold e_in_use. rewrite app_assoc, app_nth2; rewrite length_app, Lm; [done|simpl; lia].
    + rewrite E. unfold e_name, slice. change (drop 4 (enc32 sector ++ m ++ [1])) with (m ++ [1]).
      rewrite take_ge by (rewrite length_app, Lm; done).
      unfold m, splice. simpl. rewrite <-!app_assoc. by apply cstr_app.
  - rewrite E. unfold e_sector. change (slice 0 4 _) with (enc32 sector). by apply le_enc32.
Qed.

Lemma entries_lookup f i k : (k < Z.to_nat (inode_length i / ENTRY_SIZE))%nat →
  entries f i !! k = Some (slice (20 * k) 20 (contents f i)).
Proof.
  intros Hk. unfold entries. rewrite list_lookup_fmap, lookup_seq_lt by done. done.
Qed.

Lemma length_entries f i : length (entries f i) = Z.to_nat (inode_length i / ENTRY_SIZE).
Proof. unfold entries. by rewrite length_fmap, length_seq. Qed.

Lemma entry_bound i k : 0 ≤ inode_length i → (k < Z.to_nat (inode_length i / ENTRY_SIZE))%nat →
  20 * Z.of_nat k + 20 ≤ inode_length i.
Proof.
  intros Hi Hk. unfold ENTRY_SIZE in *.
  pose proof (Z.mul_div_le (inode_length i) 20 ltac:(lia)). lia.
Qed.

(** Reading at an entry's offset returns the entry. *)
Lemma read_entry f ino i k :
  mem_ok f → block_ok (fs_device f) → inodes f !! ino = Some i → inode_ok f i →
  (k ≤ length (entries f i))%nat →
  ∃ e, inode_read_at f ino ENTRY_SIZE (20 * Z.of_nat k) = Some (f, e) ∧ Forall is_byte e ∧
    if decide (k < length (entries f i))%nat then entries f i !! k = Some e ∧ length e = 20%nat
    else (length e < 20)%nat.
Proof.
  intros M B E I Hk. pose proof (inode_len f i I) as Hl. rewrite length_entries in *.
  pose proof (Z.mul_div_le (inode_length i) 20 ltac:(lia)).
  pose proof (Z.mod_pos_bound (inode_length i) 20 ltac:(lia)).
  pose proof (Z.div_mod (inode_length i) 20 ltac:(lia)).
  rewrite (inode_read_at_ok f ino i) by (done || unfold ENTRY_SIZE in *; lia).
  eexists. split; [done|]. split; [by apply slice_bytes, contents_bytes|]. case_decide as Hd.
  - rewrite entries_lookup by done. pose proof (entry_bound i k ltac:(lia) Hd).
    replace (Z.to_nat (transfer i ENTRY_SIZE (20 * Z.of_nat k))) with 20%nat
      by (unfold transfer, ENTRY_SIZE; lia).
    replace (Z.to_nat (20 * Z.of_nat k)) with (20 * k)%nat by lia. split; [done|].
    apply length_slice. rewrite inode_contents_length by done. lia.
  - unfold slice. rewrite length_take. unfold transfer, ENTRY_SIZE in *. lia.
Qed.

(** ** Searching *)

Lemma lookup_loop_ok fuel f ino i name k :
  mem_ok f → block_ok (fs_device f) → inodes f !! ino = Some i → inode_ok f i →
  names_ok (entries f i) → Forall (λ x, 0 < x < 256) name →
  (k ≤ length (entries f i))%nat → (length (entries f i) - k < fuel)%nat →
  lookup_loop fuel f ino name (20 * Z.of_nat k) =
    Some (f, (λ p, (p.2, 20 * Z.of_nat (k + p.1))) <$> list_find (names name) (drop k (entries f i))).
Proof.
  intros M B E I N Hname. revert k. induction fuel as [|fuel IH]; intros k Hk Hf; [lia|].
  cbn [lookup_loop]. destruct (read_entry f ino i k M B E I Hk) as (e & -> & _ & He).
  cbn [mbind option_bind]. case_decide as Hd.
  - destruct He as [He Le]. rewrite Le. change (Z.of_nat 20 =? ENTRY_SIZE) with true.
    rewrite (drop_S _ _ _ He). cbn [list_find].
    replace (20 * Z.of_nat k + ENTRY_SIZE) with (20 * Z.of_nat (S k)) by (unfold ENTRY_SIZE; lia).
    assert (lookup_loop fuel f ino name (20 * Z.of_nat (S k)) =
      Some (f, (λ p : nat * list Z, (p.2, 20 * Z.of_nat (k + p.1))) <$>
        (prod_map S id <$> list_find (names name) (drop (S k) (entries f i))))) as Next.
    { rewrite IH by lia. do 2 f_equal. destruct (list_find _ _) as [[j e']|]; simpl; [|done].
      do 2 f_equal. lia. }
    destruct (e_in_use e) eqn:Eu.
    + pose proof (Forall_lookup_1 _ _ _ _ N He Eu) as [s Hs].
      rewrite (str_eq_cstr name _ s) by done. cbn [mbind option_bind].
      case_bool_decide as Hn.
      * rewrite decide_True by (by subst). simpl. by rewrite Nat.add_0_r.
      * rewrite decide_False; [done|]. intros [_ Hs']. congruence.
    + rewrite decide_False; [done|]. intros [? _]. congruence.
  - rewrite (proj2 (Z.eqb_neq _ ENTRY_SIZE)) by (unfold ENTRY_SIZE; lia).
    by rewrite drop_ge by lia.
Qed.

(** [lookup] finds the first entry with the name. *)
Lemma lookup_ok f dp i name : dir_ok f dp i → Forall (λ x, 0 < x < 256) name →
  lookup f dp name =
    Some (f, (λ p, (p.2, 20 * Z.of_nat p.1)) <$> list_find (names name) (entries f i)).
Proof.
  intros [P (x & Ex & Ei) M B I N] Hname. unfold lookup.
  rewrite ASSERT_true by (by apply negb_true_iff, Z.eqb_neq). cbn [mbind option_bind].
  rewrite Ex. cbn [mbind option_bind]. unfold entry_fuel. rewrite Ei. cbn [mbind option_bind].
  change 0 with (20 * Z.of_nat 0) at 1. rewrite (lookup_loop_ok _ f _ i); try done; try lia.
  rewrite length_entries. lia.
Qed.

(** The first free slot, or the end of the directory. *)
Definition free_slot (es : list (list Z)) : nat :=
  match list_find (λ e, e_in_use e = false) es with Some (k, _) => k | None => length es end.

Lemma free_slot_loop_ok fuel f ino i e0 k :
  mem_ok f → block_ok (fs_device f) → inodes f !! ino = Some i → inode_ok f i →
  length e0 = 20%nat → (k ≤ length (entries f i))%nat → (length (entries f i) - k < fuel)%nat →
  ∃ e, free_slot_loop fuel f ino e0 (20 * Z.of_nat k) =
      Some (f, e, 20 * Z.of_nat (k + free_slot (drop k (entries f i)))) ∧ length e = 20%nat ∧
      (Forall is_byte e0 → Forall is_byte e).
Proof.
  intros M B E I. revert e0 k. induction fuel as [|fuel IH]; intros e0 k L0 Hk Hf; [lia|].
  cbn [free_slot_loop]. destruct (read_entry f ino i k M B E I Hk) as (e & -> & Be & He).
  cbn [mbind option_bind]. case_decide as Hd.
  - destruct He as [He Le]. rewrite Le. change (Z.of_nat 20 =? ENTRY_SIZE) with true.
    rewrite splice_all by congruence. rewrite (drop_S _ _ _ He). unfold free_slot.
    cbn [list_find]. destruct (e_in_use e) eqn:Eu; cbn [negb].
    + rewrite decide_False by done.
      replace (20 * Z.of_nat k + ENTRY_SIZE) with (20 * Z.of_nat (S k)) by (unfold ENTRY_SIZE; lia).
      destruct (IH e (S k)) as (e' & -> & Le' & Be'); [done|lia|lia|].
      exists e'. split; [|by auto]. do 3 f_equal. unfold free_slot.
      destruct (list_find _ (drop (S k) _)) as [[j ?]|]; simpl; lia.
    + rewrite decide_True by done. exists e. split; [|done]. by rewrite Nat.add_0_r.
  - rewrite (proj2 (Z.eqb_neq _ ENTRY_SIZE)) by (unfold ENTRY_SIZE; lia).
    rewrite drop_ge by lia. exists (splice 0 e e0). rewrite Nat.add_0_r.
    split; [done|]. split; [rewrite length_splice; lia|]. intros. by apply splice_bytes.
Qed.

(** ** Adding *)

Lemma entries_written f f' i k c : block_ok (fs_device f) → inode_ok f i →
  contents f' i = splice (20 * k) c (contents f i) → length c = 20%nat →
  (k < length (entries f i))%nat → entries f' i = <[k := c]> (entries f i).
Proof.
  intros B I E Hc Hk. pose proof (inode_len f i I). rewrite length_entries in Hk.
  pose proof (entry_bound i k ltac:(lia) Hk) as Hb.
  apply list_eq. intros j. destruct (decide (j < Z.to_nat (inode_length i / ENTRY_SIZE))%nat) as [Hj|].
  - rewrite entries_lookup by done. rewrite E. pose proof (entry_bound i j ltac:(lia) Hj).
    destruct (decide (j = k)) as [->|].
    + rewrite list_lookup_insert_eq by (rewrite length_entries; lia). f_equal.
      pose proof (slice_splice (20 * k) c (contents f i)) as S. rewrite Hc in S. apply S.
      rewrite inode_contents_length by done. lia.
    + rewrite list_lookup_insert_ne, entries_lookup by done. f_equal.
      apply slice_splice_ne; rewrite ?inode_contents_length by done; lia.
  - rewrite !lookup_ge_None_2; [done| |]; rewrite ?length_insert, length_entries; lia.
Qed.

(** Bytes after the last entry do not matter. *)
Lemma entries_beyond f f' i o c : block_ok (fs_device f) → inode_ok f i →
  contents f' i = splice o c (contents f i) → (o + length c ≤ Z.to_nat (inode_length i))%nat →
  (20 * length (entries f i) ≤ o)%nat → entries f' i = entries f i.
Proof.
  intros B I E Hc Ho. pose proof (inode_len f i I). rewrite length_entries in Ho.
  apply list_eq. intros j. destruct (decide (j < Z.to_nat (inode_length i / ENTRY_SIZE))%nat) as [Hj|].
  - rewrite !entries_lookup by done. rewrite E. f_equal.
    apply slice_splice_ne; rewrite ?inode_contents_length by done; lia.
  - rewrite !lookup_ge_None_2; [done| |]; rewrite length_entries; lia.
Qed.

Lemma free_slot_bound es : (free_slot es ≤ length es)%nat ∧
  ((free_slot es < length es)%nat → ∃ e, es !! free_slot es = Some e ∧ e_in_use e = false).
Proof.
  unfold free_slot. destruct (list_find _ es) as [[k e]|] eqn:E; [|split; [done|lia]].
  apply list_find_Some in E as (E & Hu & _). pose proof (lookup_lt_Some _ _ _ E).
  split; [lia|]. intros _. by exists e.
Qed.

Lemma no_free_slot es : ¬ (free_slot es < length es)%nat → Forall (λ e, e_in_use e = true) es.
Proof.
  unfold free_slot. intros Hk. destruct (list_find _ _) as [[k e]|] eqn:E.
  - apply list_find_Some in E as (E & _). apply lookup_lt_Some in E. lia.
  - apply list_find_None in E. eapply Forall_impl; [exact E|]. intros e Hu. by apply not_false_is_true.
Qed.

Lemma dir_ok_written f f' dp i b : dir_ok f dp i → f' = f <| fs_device := b |> → block_ok b →
  Block.size b = Block.size (fs_device f) → names_ok (entries f' i) → dir_ok f' dp i.
Proof.
  intros [P X M B I N] -> Bb Sb N'. split; try done. by apply inode_ok_device.
Qed.

Lemma not_found es name : list_find (names name) es = None ↔ ∀ s, ¬ binds es name s.
Proof.
  rewrite list_find_None, Forall_forall. unfold binds. split.
  - intros F s (e & He & Hn & _). by apply (F e He).
  - intros F e He Hn. apply (F (e_sector e)). by exists e.
Qed.

(** [f'] is [f] after a write to the device. *)
Definition device_changed f f' : Prop :=
  ∃ b, f' = f <| fs_device := b |> ∧ block_ok b ∧ Block.size b = Block.size (fs_device f).

(** Writing the entry [c] into slot [k]; a slot at the end of the directory does
    not fit. *)
Lemma write_entry f ino i c k :
  mem_ok f → block_ok (fs_device f) → inodes f !! ino = Some i → inode_ok f i →
  deny_write_cnt i = 0 → length c = 20%nat → Forall is_byte c → (k ≤ length (entries f i))%nat →
  ∃ f' n, inode_write_at f ino c ENTRY_SIZE (20 * Z.of_nat k) = Some (f', n) ∧
    (n =? ENTRY_SIZE) = bool_decide (k < length (entries f i))%nat ∧
    device_changed f f' ∧ written_at f (device_ofs i (20 * Z.of_nat k)) (take (Z.to_nat n) c) f' ∧
    20 * Z.of_nat k + n ≤ inode_length i ∧ 0 ≤ n ≤ 20 ∧
    entries f' i = <[k := c]> (entries f i).
Proof.
  intros M B Ei I Hd Lc Bc Hk. pose proof (inode_len f i I). rewrite length_entries in Hk |- *.
  pose proof (Z.mul_div_le (inode_length i) 20 ltac:(lia)).
  destruct (inode_write_at_ok f ino i c ENTRY_SIZE (20 * Z.of_nat k)) as (f' & -> & W);
    [done..|unfold ENTRY_SIZE in *; lia|rewrite Lc; unfold ENTRY_SIZE; lia|done|].
  set (n := transfer i ENTRY_SIZE (20 * Z.of_nat k)) in *. exists f', n. split; [done|].
  assert (length (take (Z.to_nat n) c) = Z.to_nat n) as Ln.
  { rewrite length_take, Lc. unfold n, transfer, ENTRY_SIZE. lia. }
  assert (20 * Z.of_nat k + n ≤ inode_length i ∧ 0 ≤ n ≤ 20) as [Hn Hn']
    by (unfold n, transfer, ENTRY_SIZE in *; lia).
  destruct (written_contents f i (20 * Z.of_nat k) (take (Z.to_nat n) c) f') as [_ C];
    [done|done|lia|lia|done|].
  replace (Z.to_nat (20 * Z.of_nat k)) with (20 * k)%nat in C by lia.
  assert (device_changed f f') as Dc by (destruct W as (b & -> & Bb & Sb & _); by exists b).
  destruct (decide (k < Z.to_nat (inode_length i / ENTRY_SIZE))%nat) as [Hlt|Hge].
  - pose proof (entry_bound i k ltac:(lia) Hlt).
    replace n with 20 in * by (unfold n, transfer, ENTRY_SIZE; lia).
    rewrite bool_decide_true by done. do 5 (split; [done|]).
    rewrite take_ge in C by lia. apply entries_written; try done. by rewrite length_entries.
  - rewrite bool_decide_false by done.
    pose proof (Z.mod_pos_bound (inode_length i) 20 ltac:(lia)).
    pose proof (Z.div_mod (inode_length i) 20 ltac:(lia)).
    assert (n < 20) by (unfold n, transfer, ENTRY_SIZE in *; lia).
    split; [apply Z.eqb_neq; unfold ENTRY_SIZE; lia|]. do 4 (split; [done|]).
    rewrite list_insert_ge by (rewrite length_entries; lia).
    eapply entries_beyond; [done|done|exact C|lia|rewrite length_entries; lia].
Qed.

Lemma dir_add_ok f e0 dp i name sector : dir_ok f dp i → deny_write_cnt i = 0 →
  valid_name name → is_u32 sector → length e0 = 20%nat → Forall is_byte e0 →
  (∀ s, ¬ binds (entries f i) name s) →
  let k := free_slot (entries f i) in
  ∃ f' e, dir_add f e0 dp name sector =
      Some (f', bool_decide (k < length (entries f i))%nat) ∧
    device_changed f f' ∧ names name e ∧ e_sector e = sector ∧
    entries f' i = <[k := e]> (entries f i) ∧
    ∃ c, written_at f (device_ofs i (20 * Z.of_nat k)) c f' ∧
      20 * Z.of_nat k + Z.of_nat (length c) ≤ inode_length i.
Proof.
  intros O Hd V Hs L0 B0 Hno k. pose proof O as [P (x & Ex & Ei) M B I N]. pose proof V as (Vn & Vl & Vb).
  unfold dir_add. rewrite ASSERT_true by (by apply negb_true_iff, Z.eqb_neq).
  cbn [mbind option_bind]. rewrite bool_decide_false by done.
  rewrite (proj2 (Z.ltb_ge _ _)) by (unfold NAME_MAX; lia). cbn [orb].
  rewrite (lookup_ok f dp i) by done. rewrite (proj2 (not_found _ _) Hno).
  cbn [mbind option_bind fmap option_fmap option_map].
  rewrite Ex. cbn [mbind option_bind]. unfold entry_fuel. rewrite Ei. cbn [mbind option_bind].
  destruct (free_slot_loop_ok (S (S (Z.to_nat (inode_length i / ENTRY_SIZE)))) f (d_inode x) i e0 0)
    as (e & Ee & Le & Be); [done..|lia|rewrite length_entries; lia|].
  change (20 * Z.of_nat 0) with 0 in Ee. rewrite Ee, drop_0. cbn [mbind option_bind].
  simpl (0 + _)%nat. fold k.
  destruct (fill_entry_ok e name sector Le (Be B0) V Hs) as (Lc & Bc & Nc & Sc).
  destruct (free_slot_bound (entries f i)) as [Hk _]. fold k in Hk.
  destruct (write_entry f (d_inode x) i (fill_entry e name sector) k) as (f' & n & -> & En & Dc & W & Hn & Hn' & Ee');
    [done..|].
  cbn [mbind option_bind]. rewrite En. eexists f', _. do 5 (split; [done|]).
  eexists. split; [exact W|]. rewrite length_take, Lc. lia.
Qed.

(** ** Bindings *)

Lemma names_ok_insert es k e name : names_ok es → names name e → names_ok (<[k := e]> es).
Proof. intros N [_ Hn]. apply Forall_insert; [done|]. intros _. by eexists. Qed.

Lemma names_inj n n' e : names n e → names n' e → n = n'.
Proof. intros [_ E] [_ E']. congruence. Qed.

(** Filling a free slot adds one binding. *)
Lemma binds_insert es k e0 e name n s : es !! k = Some e0 → e_in_use e0 = false →
  names name e → binds (<[k := e]> es) n s ↔ binds es n s ∨ (n = name ∧ s = e_sector e).
Proof.
  intros Hk Hu Hn. pose proof (lookup_lt_Some _ _ _ Hk) as L. unfold binds. split.
  - intros (e' & [j Hj]%list_elem_of_lookup & Hn' & Hs).
    apply list_lookup_insert_Some in Hj as [(-> & -> & _)|(Hne & Hj)].
    + right. split; [by eapply names_inj|done].
    + left. exists e'. split; [by eapply list_elem_of_lookup_2|done].
  - intros [(e' & [j Hj]%list_elem_of_lookup & Hn' & Hs)|[-> ->]].
    + exists e'. split; [|done]. apply list_elem_of_lookup. exists j.
      rewrite list_lookup_insert_ne; [done|]. intros <-.
      rewrite Hk in Hj. simplify_eq. destruct Hn' as [? _]. congruence.
    + exists e. split; [|done]. apply list_elem_of_lookup. exists k.
      by apply list_lookup_insert_eq.
Qed.

Lemma unique_insert es k e name : unique es → names name e → (∀ s, ¬ binds es name s) →
  unique (<[k := e]> es).
Proof.
  intros U Hn Hno j j' e1 e2 n H1 H2 N1 N2.
  apply list_lookup_insert_Some in H1 as [(<- & <- & _)|(? & H1)];
    apply list_lookup_insert_Some in H2 as [(<- & <- & _)|(? & H2)]; try done.
  - assert (n = name) as -> by (exact (names_inj n name e N1 Hn)).
    exfalso. apply (Hno (e_sector e2)). exists e2. split; [by eapply list_elem_of_lookup_2|done].
  - assert (n = name) as -> by (exact (names_inj n name e N2 Hn)).
    exfalso. apply (Hno (e_sector e1)). exists e1. split; [by eapply list_elem_of_lookup_2|done].
  - by eapply U.
Qed.

(** What [lookup] finds is what the directory binds. *)
Lemma lookup_binds f dp i name : dir_ok f dp i → Forall (λ x, 0 < x < 256) name →
  ∃ r, lookup f dp name = Some (f, r) ∧
    match r with
    | Some (e, _) => binds (entries f i) name (e_sector e)
    | None => ∀ s, ¬ binds (entries f i) name s
    end.
Proof.
  intros O Hn. rewrite (lookup_ok f dp i) by done. eexists. split; [done|].
  destruct (list_find (names name) (entries f i)) as [[k e]|] eqn:E; simpl.
  - apply list_find_Some in E as (E & Hne & _). exists e.
    split; [by eapply list_elem_of_lookup_2|done].
  - by apply not_found.
Qed.

Lemma dir_add_exists f e0 dp i name sector s : dir_ok f dp i → valid_name name →
  binds (entries f i) name s → dir_add f e0 dp name sector = Some (f, false).
Proof.
  intros O (Vn & Vl & Vb) Hs. pose proof O as [P _ _ _ _ _].
  unfold dir_add. rewrite ASSERT_true by (by apply negb_true_iff, Z.eqb_neq).
  cbn [mbind option_bind]. rewrite bool_decide_false by done.
  rewrite (proj2 (Z.ltb_ge _ _)) by (unfold NAME_MAX; lia). cbn [orb].
  destruct (lookup_binds f dp i name O Vb) as ([[e o]|] & -> & Hr); [done|].
  by destruct (Hr s).
Qed.

(** ** Correctness *)

(** C17: a directory is a finite map from names to inode sectors.  [lookup] finds
    a name exactly when the map has it, with its sector.  [dir_add] of a valid
    name adds that one binding when the name is new and a slot is free, and
    otherwise fails and changes no binding; names stay unique. *)
Theorem dir_add_refines_map f e0 dp i name sector :
  dir_ok f dp i → deny_write_cnt i = 0 → valid_name name → is_u32 sector →
  length e0 = 20%nat → Forall is_byte e0 →
  ∃ f' ok, dir_add f e0 dp name sector = Some (f', ok) ∧ dir_ok f' dp i ∧
    (unique (entries f i) → unique (entries f' i)) ∧
    (∀ n s, binds (entries f' i) n s ↔
       binds (entries f i) n s ∨ (ok = true ∧ n = name ∧ s = sector)) ∧
    (ok = false → (∃ s, binds (entries f i) name s) ∨
                  Forall (λ e, e_in_use e = true) (entries f i)) ∧
    (∀ n, Forall (λ x, 0 < x < 256) n →
       ∃ r, lookup f' dp n = Some (f', r) ∧
         match r with
         | Some (e, _) => binds (entries f' i) n (e_sector e)
         | None => ∀ s, ¬ binds (entries f' i) n s
         end).
Proof.
  intros O Hd V Hs L0 B0. destruct (list_find (names name) (entries f i)) as [[k e]|] eqn:E.
  - apply list_find_Some in E as (E & Hne & _).
    assert (binds (entries f i) name (e_sector e)) as Hb
      by (exists e; split; [by eapply list_elem_of_lookup_2|done]).
    exists f, false. split; [by eapply dir_add_exists|]. split; [done|]. split; [done|].
    split; [naive_solver|]. split; [by left; eexists|]. intros n Hn. by apply lookup_binds.
  - rewrite not_found in E.
    destruct (dir_add_ok f e0 dp i name sector) as (f' & e & -> & (b & Ef & Bb & Sb) & Hne & <- & Ee & _); [done..|].
    destruct (free_slot_bound (entries f i)) as [Hk Hfree]. set (k := free_slot (entries f i)) in *.
    assert (dir_ok f' dp i) as O'.
    { eapply dir_ok_written; [done|done|done|done|]. rewrite Ee.
      eapply names_ok_insert; [apply O|done]. }
    eexists f', _. split; [done|]. split; [done|].
    split; [intros U; rewrite Ee; by eapply unique_insert|].
    split; [|split; [|intros n Hn; by apply lookup_binds]].
    + intros n s. rewrite Ee. case_bool_decide as Hlt.
      * destruct (Hfree Hlt) as (e1 & E1 & U1). rewrite (binds_insert _ _ _ _ name) by done.
        naive_solver.
      * rewrite list_insert_ge by lia. naive_solver.
    + case_bool_decide as Hlt; [done|]. intros _. right. by apply no_free_slot.
Qed.

End directory.

(** A directory of two free entries at sector 1, open as [2]. *)
Definition example_inode : inode := mk_inode 0 1 false 0 (mk_inode_disk 1 40 INODE_MAGIC []).
Definition example_dir : fs disk :=
  mk_fs (mk_block BLOCK_FILESYS 2 (mk_disk (replicate 2 (replicate 512 0)))) (mk_bitmap 0 [])
    0 [1] {[1 := example_inode]} ∅ {[2 := mk_dir 1 0]} [] 3.

Lemma example_dir_ok : dir_ok example_dir 2 example_inode.
Proof.
  assert (sector_ok (replicate 512 0)) as S.
  { split; [done|]. apply Forall_replicate. unfold is_byte. lia. }
  split.
  - done.
  - by exists (mk_dir 1 0).
  - done.
  - split; [by apply (Forall_replicate _ 2)|done|unfold is_u32; simpl; lia|done].
  - split; vm_compute; intuition congruence.
  - apply Forall_forall. intros e He Hu. exfalso.
    assert (Forall (λ e, e_in_use e = false) (entries example_dir example_inode)) as F
      by (vm_compute; repeat constructor).
    rewrite Forall_forall in F. rewrite F in Hu; done.
Qed.

Lemma dir_add_refines_map_witness :
  ∃ f' ok, dir_add example_dir (replicate 20 204) 2 [97; 98] 7 = Some (f', ok) ∧
    ok = true ∧ binds (entries f' example_inode) [97; 98] 7.
Proof.
  destruct (dir_add_refines_map example_dir (replicate 20 204) 2 example_inode [97; 98] 7)
    as (f' & ok & E & _ & _ & B & _); [apply example_dir_ok|reflexivity| |unfold is_u32; lia|reflexivity| |].
  - split; [discriminate|]. split; [simpl; lia|]. repeat constructor; lia.
  - apply Forall_replicate. unfold is_byte. lia.
  - exists f', ok. split; [exact E|].
    assert (ok = true) as -> by (vm_compute in E; injection E as _ <-; reflexivity).
    split; [reflexivity|]. apply B. right. done.
Defined.
