(* ===== verification/Filesys.v ===== *)
(** * The file system ([filesys/filesys.c]; the rest of [filesys/free-map.c])

    Initialization, and creating, opening and removing files by name.  The
    device is the one with the role [BLOCK_FILESYS]. *)

From S2P Require Import Prelude Machine Bytes FixedPoint Bitmap Block FsState InodeIo FreeMap Inode.
From S2P Require Import Directory.

Open Scope Z_scope.

Section filesys.

Context {D : Type} `{BlockDev D}.
Implicit Type f : fs D.

Definition free_map_open f : option (fs D) :=
  '(f, ino) ← inode_open f FREE_MAP_SECTOR;
  '(f, fp) ← file_open f ino;
  let f := f <| free_map_file := fp |> in
  if fp =? NULL then None
  else
    '(f, b, ok) ← bitmap_read f (free_map f) fp;
    if negb ok then None else Some (f <| free_map := b |>).

Definition free_map_close f : option (fs D) := file_close f (free_map_file f).

Definition free_map_create f : option (fs D) :=
  '(f, ok) ← inode_create f FREE_MAP_SECTOR (bitmap_file_size (free_map f));
  if negb ok then None
  else
    '(f, ino) ← inode_open f FREE_MAP_SECTOR;
    '(f, fp) ← file_open f ino;
    let f := f <| free_map_file := fp |> in
    if fp =? NULL then None
    else
      '(f, ok) ← bitmap_write f (free_map f) fp;
      if negb ok then None else Some f.

Definition do_format f : option (fs D) :=
  f ← free_map_create f;
  '(f, ok) ← dir_create f ROOT_DIR_SECTOR 16;
  if negb ok then None
  else free_map_close f.

(** [filesys_init] on a machine whose file system device is [dev], if any; [f]
    is the static data before, [b_ok] and [block] the free map's storage. *)
Definition filesys_init f (dev : option (block D)) (b_ok : bool) (blk : option (list Z))
    (format : bool) : option (fs D) :=
  dev ← dev;
  let f := inode_init (f <| fs_device := dev |>) in
  f ← free_map_init f b_ok blk;
  f ← (if format then do_format f else Some f);
  free_map_open f.

Definition filesys_done f : option (fs D) := free_map_close f.

(** [filesys_create]: the conditions of its [&&], one after the other; the
    second result is [inode_sector]. *)
Definition create_steps f (e0 : list Z) (dp : Z) (name : list Z) (initial_size : Z) :
    option (fs D * bool * Z) :=
  if dp =? NULL then Some (f, false, 0)
  else
    '(f, r) ← free_map_allocate f 1;
    match r with
    | None => Some (f, false, 0)
    | Some inode_sector =>
        '(f, ok) ← inode_create f inode_sector initial_size;
        if negb ok then Some (f, false, inode_sector)
        else
          '(f, ok) ← dir_add f e0 dp name inode_sector;
          Some (f, ok, inode_sector)
    end.

Definition filesys_create f (e0 : list Z) (name : list Z) (initial_size : Z) :
    option (fs D * bool) :=
  '(f, dp) ← dir_open_root f;
  '(f, success, inode_sector) ← create_steps f e0 dp name initial_size;
  f ← (if negb success && negb (inode_sector =? 0)
       then free_map_release f inode_sector 1 else Some f);
  f ← dir_close f dp;
  Some (f, success).

Definition filesys_open f (name : list Z) : option (fs D * Z) :=
  '(f, dp) ← dir_open_root f;
  '(f, ino) ← (if negb (dp =? NULL) then dir_lookup f dp name else Some (f, NULL));
  f ← dir_close f dp;
  file_open f ino.

Definition filesys_remove f (name : list Z) : option (fs D * bool) :=
  '(f, dp) ← dir_open_root f;
  '(f, success) ← (if negb (dp =? NULL) then dir_remove f dp name else Some (f, false));
  f ← dir_close f dp;
  Some (f, success).

End filesys.

(** A machine with an empty disk of [n] sectors, before initialization. *)
Definition blank (n : nat) : fs disk :=
  mk_fs (mk_block BLOCK_FILESYS (Z.of_nat n) (mk_disk (replicate n (replicate 512 0))))
    (mk_bitmap 0 []) 0 [] ∅ ∅ ∅ [] 1.

Definition formatted (n : nat) : option (fs disk) :=
  filesys_init (blank n) (Some (fs_device (blank n))) true
    (Some (replicate (Z.to_nat (elem_cnt (Z.of_nat n))) 0)) true.

(** ** Errors *)

(** [n] files are created, with names of two bytes and no data. *)
Fixpoint create_many (n : nat) (f : fs disk) : option (fs disk) :=
  match n with
  | O => Some f
  | S n =>
      '(f, _) ← filesys_create f (replicate 20 204) [97; Z.of_nat n + 1] 0;
      create_many n f
  end.

(** The sectors in use. *)
Definition used_sectors (f : fs disk) : option Z :=
  bitmap_count (free_map f) 0 (bit_cnt (free_map f)) true.

(** [filesys_create] loses sectors when the directory is full: on a
    formatted disk of 40 sectors with 16 files, creating one more file of 1000
    bytes fails, as it must, but the two sectors allocated for its data stay
    marked as used; only the sector of its inode is released. *)
Theorem filesys_create_leaks :
  ∃ f f', (formatted 40 ≫= create_many 16) = Some f ∧
    filesys_create f (replicate 20 204) [98] 1000 = Some (f', false) ∧
    used_sectors f = Some 20 ∧ used_sectors f' = Some 22.
Proof.
  destruct (formatted 40 ≫= create_many 16) as [f|] eqn:E; [|by vm_compute in E].
  destruct (filesys_create f (replicate 20 204) [98] 1000) as [[f' ok]|] eqn:E'.
  - exists f, f'. vm_compute in E. injection E as <-. vm_compute in E'. injection E' as <- <-.
    repeat split; vm_compute; reflexivity.
  - vm_compute in E. injection E as <-. by vm_compute in E'.
Qed.

(** The example directory of [Directory] after adding the file [[97]], with the
    results of the coming allocations. *)
Definition short_of_memory (ok : list bool) : option (fs disk) :=
  '(f, _) ← dir_add example_dir (replicate 20 204) 2 [97] 7;
  Some (f <| oom := ok |>).

(** [dir_add] relies on [inode_read_at] being short only at the end of the
    file, but it is also short when the bounce buffer cannot be allocated.
    Then [dir_add] takes an entry in use for a free slot: adding a file
    succeeds and overwrites the entry of another one, which is lost. *)
Theorem dir_add_overwrites :
  ∃ f f', short_of_memory [true; true; false; true] = Some f ∧
    dir_add f (replicate 20 204) 2 [98] 8 = Some (f', true) ∧
    binds (entries f example_inode) [97] 7 ∧ binds (entries f' example_inode) [98] 8 ∧
    ∀ s, ¬ binds (entries f' example_inode) [97] s.
Proof.
  destruct (short_of_memory [true; true; false; true]) as [f|] eqn:E; [|by vm_compute in E].
  destruct (dir_add f (replicate 20 204) 2 [98] 8) as [[f' ok]|] eqn:E'.
  - exists f, f'. vm_compute in E. injection E as <-. vm_compute in E'. injection E' as <- <-.
    split; [done|]. split; [done|]. split; [|split].
    + eexists. split; [left|]. repeat split; vm_compute; reflexivity.
    + eexists. split; [left|]. repeat split; vm_compute; reflexivity.
    + apply not_found. vm_compute. reflexivity.
  - vm_compute in E. injection E as <-. by vm_compute in E'.
Qed.
