(* ===== verification/FsCore.v ===== *)
(** * The layout of a file system

    What is on the device and in memory between the operations of the file
    system: the inodes on the disk ([layout]), the free map and its file
    ([synced]), and the open inodes and files ([heap]); and that the operations
    of [FreeMap] and [Inode] keep it.  [L] maps the sector of each inode that is
    in use to the inode. *)

From S2P Require Import Prelude Machine Bytes FixedPoint Bitmap Block FsState InodeIo FreeMap Inode.

Open Scope Z_scope.

Section core.

Context {D : Type} `{BlockDev D}.
Implicit Types f : fs D.
Implicit Types d : inode_disk.
Implicit Types L : gmap Z inode_disk.

(** ** Sectors *)

Definition nsec d : Z := (id_length d + 511) / 512.

(** The bytes of the file that [d] describes. *)
Definition cont f d : list Z := contents f (mk_inode 0 0 false 0 d).

(** The sectors of the inode [d] at [s]. *)
Definition in_data d (x : Z) : Prop := id_start d ≤ x < id_start d + nsec d.
Definition owns (s : Z) d (x : Z) : Prop := x = s ∨ in_data d x.

Record disk_ok f d : Prop := {
  dk_start : 0 ≤ id_start d;
  dk_len : 0 ≤ id_length d < 2 ^ 31 - 512;
  dk_fits : id_start d + nsec d ≤ Block.size (fs_device f);
  dk_magic : is_u32 (id_magic d);
  dk_unused : length (id_unused d) = 500%nat ∧ Forall is_byte (id_unused d);
}.

Record layout f L : Prop := {
  l_dev : block_ok (fs_device f);
  l_map : tight (free_map f);
  l_cnt : bit_cnt (free_map f) = Block.size (fs_device f);
  l_sector : ∀ s d, L !! s = Some d → 0 ≤ s < Block.size (fs_device f) ∧
    block_data (fs_device f) !! Z.to_nat s = Some (encode_inode d);
  l_disk : ∀ s d, L !! s = Some d → disk_ok f d;
  l_used : ∀ s d x, L !! s = Some d → owns s d x → bit (free_map f) x = true;
  l_self : ∀ s d, L !! s = Some d → ¬ in_data d s;
  l_apart : ∀ s s' d d' x, L !! s = Some d → L !! s' = Some d' → owns s d x → owns s' d' x → s = s';
}.

(** The bytes [bs] hold the bits of [b]; past the end of the bitmap they can be
    anything. *)
Definition map_bytes (b : bitmap) (bs : list Z) : Prop :=
  ∃ ws, bs = elem_bytes ws ∧ Forall is_u32 ws ∧ length ws = length (bits b) ∧
    ∀ x, 0 ≤ x < bit_cnt b → bit (b <| bits := ws |>) x = bit b x.

(** The free map is on the disk. *)
Definition synced f L : Prop :=
  ∃ d, L !! FREE_MAP_SECTOR = Some d ∧ byte_cnt (bit_cnt (free_map f)) ≤ id_length d ∧
    map_bytes (free_map f) (take (4 * length (bits (free_map f))) (cont f d)).

Lemma disk_inode_ok f d i : disk_ok f d → data i = d → inode_ok f i.
Proof.
  intros [Hs Hl Hf _ _] <-. unfold nsec in Hf. split; [done|done|]. unfold inode_length.
  Z.to_euclidean_division_equations; lia.
Qed.

Lemma disk_ok_size f f' d : Block.size (fs_device f') = Block.size (fs_device f) →
  disk_ok f d → disk_ok f' d.
Proof. intros E [? ? ? ? ?]. split; try done. by rewrite E. Qed.

Lemma dev_sector f x : block_ok (fs_device f) → 0 ≤ x < Block.size (fs_device f) →
  block_data (fs_device f) !! Z.to_nat x
    = Some (slice (512 * Z.to_nat x) 512 (device_bytes (fs_device f))).
Proof.
  intros B Hx. destruct (block_sector _ _ B Hx) as (c & E & [Lc _]). rewrite E. f_equal.
  pose proof (slice_flat 512 _ _ c 0 512 (device_uniform f B) E ltac:(lia)) as Es.
  rewrite Nat.add_0_r in Es. unfold device_bytes. rewrite Es, <-Lc. by rewrite slice_full.
Qed.

(** ** Writing to the device *)

(** Only the sectors from [a] to [b] have changed. *)
Definition wrote f (a b : Z) f' : Prop := ∃ o c,
  written_at f o c f' ∧ 0 ≤ a ∧ b ≤ Block.size (fs_device f) ∧
  512 * a ≤ Z.of_nat o ∧ Z.of_nat (o + length c) ≤ 512 * b.

Lemma wrote_size f a b f' : wrote f a b f' → block_ok (fs_device f') ∧
  Block.size (fs_device f') = Block.size (fs_device f) ∧ ∃ dev, f' = f <| fs_device := dev |>.
Proof. intros (o & c & (dev & -> & B & S & _) & _). split; [done|]. split; [done|]. by exists dev. Qed.

Lemma wrote_sector f a b f' x : block_ok (fs_device f) → wrote f a b f' →
  0 ≤ x < Block.size (fs_device f) → x < a ∨ b ≤ x →
  block_data (fs_device f') !! Z.to_nat x = block_data (fs_device f) !! Z.to_nat x.
Proof.
  intros B W Hx Hn. pose proof (wrote_size _ _ _ _ W) as (B' & S & _).
  destruct W as (o & c & (dev & -> & _ & _ & _ & E) & Ha & Hb & Ho & Hc).
  rewrite !dev_sector by (done || simpl; congruence || (simpl in *; lia)). f_equal. simpl. rewrite E.
  apply slice_splice_ne; [rewrite device_length by done|]; lia.
Qed.

Lemma wrote_layout f L a b f' : layout f L → wrote f a b f' →
  (∀ s, is_Some (L !! s) → s < a ∨ b ≤ s) → layout f' L.
Proof.
  intros Y W Hn. pose proof (wrote_size _ _ _ _ W) as (B' & S & dev & Ef).
  assert (free_map f' = free_map f) as Em by (by rewrite Ef).
  split; rewrite ?Em, ?S; try apply Y; try done.
  - intros s d E. destruct (l_sector _ _ Y s d E) as [Hs Es]. split; [done|].
    by rewrite (wrote_sector f a b) by (done || apply Y || eauto).
  - intros s d E. eapply disk_ok_size; [exact S|by eapply (l_disk _ _ Y)].
Qed.

Lemma wrote_cont f d a b f' : block_ok (fs_device f) → disk_ok f d → wrote f a b f' →
  (∀ x, a ≤ x < b → ¬ in_data d x) → cont f' d = cont f d.
Proof.
  intros B [Hs Hl Hf _ _] (o & c & (dev & -> & _ & _ & _ & E) & Ha & Hb & Ho & Hc) Hn.
  unfold cont, contents, inode_length, device_ofs; simpl. rewrite E.
  destruct (decide (id_length d = 0)) as [->|Hz]; [done|].
  destruct (decide (length c = 0%nat)) as [Hc0|Hc0].
  { apply nil_length_inv in Hc0 as ->. by rewrite splice_nil. }
  assert (id_start d + nsec d ≤ a ∨ b ≤ id_start d) as Hd.
  { assert (0 < nsec d) by (unfold nsec; Z.to_euclidean_division_equations; lia).
    unfold in_data in Hn. destruct (decide (a ≤ id_start d)).
    - destruct (decide (id_start d < b)); [|lia]. destruct (Hn (id_start d)); lia.
    - destruct (decide (a < id_start d + nsec d)); [|lia]. destruct (Hn a); lia. }
  apply slice_splice_ne; [rewrite device_length by done; lia|].
  unfold nsec in Hd. Z.to_euclidean_division_equations; lia.
Qed.

Lemma layout_away f L s d s' : layout f L → L !! s = Some d → is_Some (L !! s') →
  s' < id_start d ∨ id_start d + nsec d ≤ s'.
Proof.
  intros Y E [d' E']. destruct (decide (in_data d s')) as [Hi|Hi]; [|unfold in_data in Hi; lia].
  assert (s = s') as <- by (eapply (l_apart _ _ Y); [exact E|exact E'|by right|by left]).
  by destruct (l_self _ _ Y s d E).
Qed.

Lemma layout_others f L s s' d d' x : layout f L → L !! s = Some d → L !! s' = Some d' → s' ≠ s →
  in_data d x → ¬ in_data d' x.
Proof.
  intros Y E E' N Hx Hx'. apply N. eapply (l_apart _ _ Y); [exact E'|exact E|by right|by right].
Qed.

(** Writing the data of one inode. *)
Lemma write_data f L s d i off c f' : layout f L → L !! s = Some d → data i = d → 0 ≤ off →
  off + Z.of_nat (length c) ≤ id_length d → written_at f (device_ofs i off) c f' →
  layout f' L ∧ cont f' d = splice (Z.to_nat off) c (cont f d) ∧
  (∀ s' d', L !! s' = Some d' → s' ≠ s → cont f' d' = cont f d') ∧
  (s ≠ FREE_MAP_SECTOR → synced f L → synced f' L) ∧ ∃ dev, f' = f <| fs_device := dev |>.
Proof.
  intros Y E Ed Ho Hc W. pose proof (l_disk _ _ Y s d E) as Dk. pose proof (l_dev _ _ Y) as B.
  pose proof (disk_inode_ok f d i Dk Ed) as I.
  assert (wrote f (id_start d) (id_start d + nsec d) f') as Wr.
  { destruct Dk as [? ? ? _ _]. exists (device_ofs i off), c. split; [done|].
    unfold device_ofs, nsec in *. rewrite Ed. Z.to_euclidean_division_equations; lia. }
  assert (∀ s' d', L !! s' = Some d' → s' ≠ s → cont f' d' = cont f d') as Ho'.
  { intros s' d' E' N. eapply wrote_cont; [done|by eapply (l_disk _ _ Y)|exact Wr|].
    intros x Hx. by apply (layout_others f L s s' d d' x). }
  split; [eapply wrote_layout; [done|exact Wr|]; intros s' Hs'; by apply (layout_away f L s d s')|].
  split; [|split; [done|split; [|apply (wrote_size _ _ _ _ Wr)]]].
  - assert (device_ofs i off = device_ofs (mk_inode 0 0 false 0 d) off) as Eo by (unfold device_ofs; by rewrite Ed).
    rewrite Eo in W. eapply (written_contents f (mk_inode 0 0 false 0 d) off c f'); try done.
    by eapply disk_inode_ok.
  - intros N (d0 & E0 & Hl & Hc0). destruct (wrote_size _ _ _ _ Wr) as (_ & _ & dev & ->).
    exists d0. split; [done|]. split; [done|]. by rewrite (Ho' _ _ E0) by done.
Qed.

(** ** Open inodes and files *)

(** How many objects of a table have a property. *)
Definition count_of {A} (P : A → Prop) `{!∀ x, Decision (P x)} (m : gmap Z A) : nat :=
  base.size (filter (λ p, P p.2) m).

Lemma count_none {A} (P : A → Prop) `{!∀ x, Decision (P x)} (m : gmap Z A) :
  (∀ k x, m !! k = Some x → ¬ P x) → count_of P m = 0%nat.
Proof.
  intros Hn. unfold count_of. rewrite map_empty_filter_2; [done|]. intros k x E. by apply (Hn k).
Qed.

Lemma count_insert {A} (P : A → Prop) `{!∀ x, Decision (P x)} (m : gmap Z A) k x : m !! k = None →
  count_of P (<[k := x]> m) = ((if decide (P x) then 1 else 0) + count_of P m)%nat.
Proof.
  intros E. unfold count_of. rewrite map_filter_insert. simpl. case_decide.
  - rewrite map_size_insert_None; [done|]. apply map_lookup_filter_None. by left.
  - by rewrite delete_id.
Qed.

Lemma count_delete {A} (P : A → Prop) `{!∀ x, Decision (P x)} (m : gmap Z A) k x : m !! k = Some x →
  count_of P m = ((if decide (P x) then 1 else 0) + count_of P (delete k m))%nat.
Proof.
  intros E. rewrite <-(insert_delete_id m k x) at 1 by done. apply count_insert, lookup_delete_eq.
Qed.

Lemma count_pos {A} (P : A → Prop) `{!∀ x, Decision (P x)} (m : gmap Z A) k x : m !! k = Some x → P x →
  (0 < count_of P m)%nat.
Proof. intros E Hx. rewrite (count_delete P m k x E), decide_True by done. lia. Qed.

Lemma count_update {A} (P : A → Prop) `{!∀ x, Decision (P x)} (m : gmap Z A) k x y : m !! k = Some x →
  (P x ↔ P y) → count_of P (<[k := y]> m) = count_of P m.
Proof.
  intros E Hxy. rewrite <-insert_delete_eq, count_insert by apply lookup_delete_eq.
  rewrite (count_delete P m k x E). f_equal. by repeat case_decide; naive_solver.
Qed.

(** The files open on an inode, and those that deny writes to it. *)
Definition openers (G : gmap Z file) (ino : Z) : nat := count_of (λ x, f_inode x = ino) G.
Definition deniers (G : gmap Z file) (ino : Z) : nat :=
  count_of (λ x, f_inode x = ino ∧ deny_write x = true) G.
(** The operation under way has the inode open. *)
Definition held (E : list Z) (ino : Z) : nat := length (filter (λ x, x = ino) E).

(** [G] has the files that are open, without one that is being closed. *)
Record heap f L (E : list Z) (G : gmap Z file) : Prop := {
  h_mem : mem_ok f;
  h_cache : cache_ok f;
  h_sub : G ⊆ files f;
  h_inodes : ∀ ino i, inodes f !! ino = Some i → L !! i_sector i = Some (data i);
  h_cnt : ∀ ino i, inodes f !! ino = Some i → open_cnt i = Z.of_nat (openers G ino + held E ino);
  h_deny : ∀ ino i, inodes f !! ino = Some i → deny_write_cnt i = Z.of_nat (deniers G ino);
  h_removed : ∀ ino i, inodes f !! ino = Some i → removed i = true → 2 ≤ i_sector i;
  h_files : ∀ fp x, G !! fp = Some x → 0 < fp < brk f ∧ 0 ≤ f_pos x < 2 ^ 31 ∧
    ∃ i, inodes f !! f_inode x = Some i ∧ (fp ≠ free_map_file f → 2 ≤ i_sector i);
  h_held : ∀ ino, ino ∈ E → is_Some (inodes f !! ino);
  h_map : ∃ x i, G !! free_map_file f = Some x ∧ inodes f !! f_inode x = Some i ∧
    i_sector i = FREE_MAP_SECTOR ∧ deny_write x = false;
}.

Lemma heap_device f L E G dev m :
  heap f L E G → heap (f <| fs_device := dev |> <| free_map := m |>) L E G.
Proof. intros [? [? ? ? ? ? ?] ? ? ? ? ? ? ? ?]. split; try done. Qed.

(** Nobody denies writes to the inodes of the file system itself. *)
Lemma system_deny f L E G ino i : heap f L E G → inodes f !! ino = Some i → i_sector i < 2 →
  deny_write_cnt i = 0.
Proof.
  intros Hp Ei Hs. rewrite (h_deny _ _ _ _ Hp ino i Ei). unfold deniers.
  rewrite count_none; [done|]. intros fp x Ex [Ef Hd]. destruct (h_files _ _ _ _ Hp fp x Ex) as (_ & _ & i' & Ei' & Hi').
  rewrite Ef, Ei in Ei'. injection Ei' as <-. destruct (decide (fp = free_map_file f)) as [->|N]; [|lia].
  destruct (h_map _ _ _ _ Hp) as (x' & i' & Ex' & _ & _ & Hx'). congruence.
Qed.

(** ** The free map *)

(** The file of the free map is open. *)
Record map_open f L : Prop := {
  mo_mem : mem_ok f;
  mo_null : free_map_file f ≠ NULL;
  mo_file : ∃ x i, files f !! free_map_file f = Some x ∧ inodes f !! f_inode x = Some i ∧
    L !! FREE_MAP_SECTOR = Some (data i) ∧ deny_write_cnt i = 0;
}.

Lemma heap_map_open f L E G : heap f L E G → map_open f L.
Proof.
  intros Hp. destruct (h_map _ _ _ _ Hp) as (x & i & Ex & Ei & Es & _).
  destruct (h_files _ _ _ _ Hp _ x Ex) as [? _]. split; [apply Hp|unfold NULL; lia|].
  exists x, i. split; [eapply lookup_weaken; [done|apply Hp]|]. split; [done|]. split; [rewrite <-Es; by eapply (h_inodes _ _ _ _ Hp)|].
  eapply system_deny; [exact Hp|exact Ei|by rewrite Es].
Qed.

(** Everything but the device and the free map is the same, and so are the files
    but for the free map's. *)
Record remapped f L f' : Prop := {
  rm_state : ∃ dev m, f' = f <| fs_device := dev |> <| free_map := m |>;
  rm_size : Block.size (fs_device f') = Block.size (fs_device f);
  rm_cont : ∀ s d, L !! s = Some d → s ≠ FREE_MAP_SECTOR → cont f' d = cont f d;
}.

Lemma remapped_refl f L : remapped f L f.
Proof. split; [|done|done]. exists (fs_device f), (free_map f). by destruct f. Qed.

Lemma remapped_trans f L f1 f2 : remapped f L f1 → remapped f1 L f2 → remapped f L f2.
Proof.
  intros [(dv & m & E1) S1 C1] [(dv2 & m2 & E2) S2 C2].
  split; [|congruence|intros s d E N; by rewrite (C2 s d), (C1 s d)].
  exists dv2, m2. by subst.
Qed.

Lemma remapped_heap f L f' E G : remapped f L f' → heap f L E G → heap f' L E G.
Proof. intros [(dv & m & ->) _ _]. apply heap_device. Qed.

(** A new free map [b] is stored. *)
Lemma store_map f L d0 b : layout f L → L !! FREE_MAP_SECTOR = Some d0 →
  byte_cnt (bit_cnt (free_map f)) ≤ id_length d0 → map_open f L → tight b →
  bit_cnt b = bit_cnt (free_map f) → length (bits b) = length (bits (free_map f)) →
  (∀ s d x, L !! s = Some d → owns s d x → bit b x = true) →
  let f1 := f <| free_map := b |> in
  ∃ f', bitmap_write f1 b (free_map_file f1) = Some (f', true) ∧ layout f' L ∧ synced f' L ∧
    remapped f L f' ∧ free_map f' = b.
Proof.
  intros Y E0 Hs Hp T Ec El Hu f1.
  assert (layout f1 L) as Y1.
  { split; simpl; [apply Y|done|rewrite Ec; apply Y|apply Y| |done|apply Y|apply Y].
    intros s d E'. eapply disk_ok_size; [|by eapply (l_disk _ _ Y)]. done. }
  destruct (mo_file _ _ Hp) as (x & i & Ex & Ei & Ed & Hd). rewrite E0 in Ed. injection Ed as Ed.
  assert (map_file f1 (free_map_file f1) i b) as Mf.
  { split; [by exists x|apply Hp|apply Y|by eapply disk_inode_ok; [eapply (l_disk _ _ Y1); exact E0|]|done|].
    unfold inode_length. by rewrite Ec, <-Ed. }
  destruct (bitmap_write_ok f1 b (free_map_file f1) i T Mf) as (f' & Ew & Wr & _).
  destruct (tight_sizes b T) as (Eb & _ & _). rewrite Ec in Eb. pose proof (length_elem_bytes (bits b)) as Le.
  destruct (write_data f1 L FREE_MAP_SECTOR d0 i 0 (elem_bytes (bits b)) f') as (Y' & C' & Co & _ & dev & Ef');
    [done|done|done|lia|rewrite Le; lia|done|].
  assert (free_map f' = b) as Em by (by rewrite Ef').
  exists f'. split; [done|]. split; [done|]. split; [|split; [|done]].
  - exists d0. rewrite Em. split; [done|]. split; [by rewrite Ec|]. rewrite C'.
    unfold splice. simpl. rewrite take_app_le, take_ge by lia. exists (bits b). split; [done|].
    split; [apply T|]. split; [done|]. intros y _. by destruct b.
  - split; [by exists dev, b| |].
    { by destruct Wr as (dv & -> & _ & Sd & _). }
    intros s d E' N. rewrite (Co s d E' N). done.
Qed.

Lemma tight_agrees b b' P v : tight b → agrees b b' P v → tight b'.
Proof. intros (W & Hc & Hl) (W' & Ec & El & _). split; [done|]. by rewrite Ec, El. Qed.

Lemma layout_nonneg f L s d x : layout f L → L !! s = Some d → owns s d x → 0 ≤ x < bit_cnt (free_map f).
Proof.
  intros Y E Hx. rewrite (l_cnt _ _ Y). destruct (l_sector _ _ Y s d E) as [Hs _].
  pose proof (l_disk _ _ Y s d E) as [? _ ? _ _]. destruct Hx as [->|Hx]; [done|].
  unfold in_data in Hx. lia.
Qed.

Lemma free_map_allocate_ok f L n : layout f L → synced f L → map_open f L → 0 ≤ n →
  ∃ f' r, free_map_allocate f n = Some (f', r) ∧ layout f' L ∧ synced f' L ∧ remapped f L f' ∧
    match r with
    | Some st => 0 ≤ st ∧ st + n ≤ Block.size (fs_device f) ∧ bit_run (free_map f) st n false ∧
        (∀ j, 0 ≤ j < st → ¬ bit_run (free_map f) j n false) ∧
        (∀ x, 0 ≤ x → bit (free_map f') x = in_range st n x || bit (free_map f) x)
    | None => f' = f ∧
        ∀ j, 0 ≤ j → j + n ≤ Block.size (fs_device f) → ¬ bit_run (free_map f) j n false
    end.
Proof.
  intros Y Sy Hp Hn. pose proof (l_map _ _ Y) as T. pose proof T as (W & Hc & _).
  unfold free_map_allocate.
  destruct (bitmap_scan_and_flip_correct (free_map f) 0 n false W) as (b & r & -> & Hr & Hb);
    [lia|done|unfold BITMAP_ERROR; lia|]. cbn [mbind option_bind].
  rewrite <-(l_cnt _ _ Y). destruct (Z.eqb_spec r BITMAP_ERROR) as [->|Nr]; cbn [negb].
  - subst b. destruct Hr as [(Hr & _)|(_ & Hr)]; [unfold BITMAP_ERROR in *; lia|].
    exists f, None. split; [by destruct f|]. split; [done|]. split; [done|].
    split; [apply remapped_refl|]. split; [done|]. intros j Hj Hjn. apply Hr. lia.
  - destruct Hr as [(Hr & Hrun & Hf)|[? _]]; [|done]. pose proof Hb as (_ & Ec & El & Hbit).
    pose proof Sy as (d0 & E0 & Hs0 & _).
    destruct (store_map f L d0 b) as (f' & Ew & Y' & S' & R' & Em); [done..|by eapply tight_agrees|done|done| |].
    { intros s d x E' Hx. pose proof (layout_nonneg f L s d x Y E' Hx). rewrite Hbit by lia.
      case_match; [done|]. by eapply (l_used _ _ Y). }
    change (free_map_file (f <| free_map := b |>)) with (free_map_file f) in Ew |- *.
    change (free_map (f <| free_map := b |>)) with b.
    rewrite (proj2 (Z.eqb_neq _ NULL)) by apply Hp. cbn [negb]. rewrite Ew. cbn [mbind option_bind negb].
    exists f', (Some r). split; [done|]. split; [done|]. split; [done|]. split; [done|].
    split; [lia|]. split; [lia|]. split; [done|]. split; [done|].
    intros x Hx. rewrite Em, Hbit by done. by destruct (in_range r n x).
Qed.

Lemma free_map_release_ok f L st n : layout f L → synced f L → map_open f L → 0 ≤ st → 0 ≤ n →
  st + n ≤ Block.size (fs_device f) → bit_run (free_map f) st n true →
  (∀ s d x, L !! s = Some d → owns s d x → ¬ st ≤ x < st + n) →
  ∃ f', free_map_release f st n = Some f' ∧ layout f' L ∧ synced f' L ∧ remapped f L f' ∧
    (∀ x, 0 ≤ x → bit (free_map f') x = negb (in_range st n x) && bit (free_map f) x).
Proof.
  intros Y Sy Hp Hst Hn Hsz Hrun Hfree. pose proof (l_map _ _ Y) as T. pose proof T as (W & Hc & _).
  rewrite <-(l_cnt _ _ Y) in Hsz. unfold free_map_release.
  destruct (bitmap_all_ok (free_map f) st n W Hst Hn Hsz) as (r & -> & Hr). cbn [mbind option_bind].
  rewrite (proj2 Hr Hrun). cbn [ASSERT mbind option_bind].
  destruct (bitmap_set_multiple_ok (free_map f) st n false W Hst Hn Hsz) as (b & -> & A).
  cbn [mbind option_bind]. pose proof A as (_ & Ec & El & Hbit).
  pose proof Sy as (d0 & E0 & Hs0 & _).
  destruct (store_map f L d0 b) as (f' & Ew & Y' & S' & R' & Em); [done..|by eapply tight_agrees|done|done| |].
  { intros s d x E' Hx. pose proof (layout_nonneg f L s d x Y E' Hx). rewrite Hbit by lia.
    destruct (in_range st n x) eqn:Ei; [|by eapply (l_used _ _ Y)].
    apply in_range_spec in Ei. by destruct (Hfree s d x E' Hx). }
  simpl in Ew |- *. rewrite Ew. cbn [mbind option_bind].
  exists f'. split; [done|]. split; [done|]. split; [done|]. split; [done|].
  intros x Hx. rewrite Em, Hbit by done. by destruct (in_range st n x).
Qed.

(** ** Creating inodes *)

(** Writing sectors that belong to no inode. *)
Lemma wrote_free f L a b f' : layout f L → wrote f a b f' →
  (∀ s d x, L !! s = Some d → owns s d x → ¬ a ≤ x < b) →
  layout f' L ∧ (synced f L → synced f' L) ∧ remapped f L f' ∧ free_map f' = free_map f.
Proof.
  intros Y W Hn. pose proof (wrote_size _ _ _ _ W) as (_ & S & dev & Ef).
  assert (free_map f' = free_map f) as Em by (by rewrite Ef).
  assert (∀ s d, L !! s = Some d → cont f' d = cont f d) as C.
  { intros s d E. eapply wrote_cont; [apply Y|by eapply (l_disk _ _ Y)|exact W|].
    intros x Hx Hi. apply (Hn s d x); [done|by right|done]. }
  split; [|split; [|split; [|done]]].
  - eapply wrote_layout; [done|exact W|]. intros s [d E]. specialize (Hn s d s E ltac:(by left)). lia.
  - intros (d & E & Hl & Hc). exists d. rewrite Em, (C _ d E). done.
  - split; [|done|by eauto]. exists dev, (free_map f). subst. by destruct f.
Qed.

Lemma sector_write f x c : block_ok (fs_device f) → 0 ≤ x < Block.size (fs_device f) → sector_ok c →
  ∃ b, block_write (fs_device f) x c = Some b ∧
    written_at f (512 * Z.to_nat x) c (f <| fs_device := b |>) ∧
    block_data b !! Z.to_nat x = Some c.
Proof.
  intros B Hx Hc. destruct (block_write_ok _ x c B Hx Hc) as (b & E & Bb & Sb & Tb & Db).
  pose proof (block_data_len _ B). exists b. split; [done|]. split.
  - exists b. split; [done|]. split; [done|]. split; [done|]. split; [done|].
    unfold device_bytes. rewrite Db. apply splice_flat; [by apply device_uniform|lia|apply Hc].
  - rewrite Db. apply list_lookup_insert_eq. lia.
Qed.

Lemma zero_sector : sector_ok (replicate 512 0).
Proof. split; [done|]. apply Forall_replicate. unfold is_byte. lia. Qed.

Lemma write_zeros_ok n : ∀ f st, block_ok (fs_device f) → 0 ≤ st →
  st + Z.of_nat n ≤ Block.size (fs_device f) →
  ∃ f', write_zeros n f st = Some f' ∧ written_at f (512 * Z.to_nat st) (replicate (512 * n) 0) f'.
Proof.
  induction n as [|n IH]; intros f st B Hs Hn; cbn [write_zeros].
  { exists f. split; [done|]. by apply written_nil. }
  destruct (block_u32 _ B) as [_ Hu]. rewrite u32_small by (unfold is_u32; lia).
  destruct (sector_write f st _ B ltac:(lia) zero_sector) as (b & -> & W & _). cbn [mbind option_bind].
  pose proof W as (b' & Eb & B' & S' & _). assert (b' = b) as -> by (by injection Eb).
  destruct (IH (f <| fs_device := b |>) (st + 1)) as (f' & -> & W'); [done|lia|simpl; lia|].
  exists f'. split; [done|]. replace (512 * S n)%nat with (512 + 512 * n)%nat by lia.
  rewrite replicate_add. eapply written_app; [done| |exact W|].
  - rewrite !length_replicate, device_length by done. lia.
  - rewrite length_replicate. by replace (512 * Z.to_nat st + 512)%nat with (512 * Z.to_nat (st + 1))%nat by lia.
Qed.

Lemma bytes_to_sectors_eq len : 0 ≤ len < 2 ^ 31 - 512 → bytes_to_sectors len = (len + 511) / 512.
Proof.
  intros Hl. unfold bytes_to_sectors. rewrite int32_small, Z.quot_div_nonneg by lia.
  apply u32_small. unfold is_u32. Z.to_euclidean_division_equations; lia.
Qed.

Definition new_disk (st len : Z) : inode_disk := mk_inode_disk st len INODE_MAGIC (replicate 500 0).

Lemma new_disk_ok f st len : 0 ≤ st → 0 ≤ len < 2 ^ 31 - 512 →
  st + (len + 511) / 512 ≤ Block.size (fs_device f) → disk_ok f (new_disk st len).
Proof.
  intros. unfold new_disk. split; unfold nsec; cbn [id_start id_length id_magic id_unused];
    [done|done|done|unfold is_u32, INODE_MAGIC; lia|].
  split; [done|]. apply Forall_replicate. unfold is_byte. lia.
Qed.

(** The inode [d] at [s], its data on sectors that were free, joins the others. *)
Lemma layout_insert f L s d : layout f L → 0 ≤ s < Block.size (fs_device f) → disk_ok f d →
  block_data (fs_device f) !! Z.to_nat s = Some (encode_inode d) → ¬ in_data d s →
  (∀ x, owns s d x → bit (free_map f) x = true) →
  (∀ s' d' x, L !! s' = Some d' → owns s' d' x → ¬ owns s d x) → layout f (<[s := d]> L).
Proof.
  intros Y Hs Dk Es Ns Hu Hn. split; try apply Y.
  - intros s' d' [[<- <-]|[_ E]]%lookup_insert_Some; [done|]. by eapply (l_sector _ _ Y).
  - intros s' d' [[<- <-]|[_ E]]%lookup_insert_Some; [done|]. by eapply (l_disk _ _ Y).
  - intros s' d' x [[<- <-]|[_ E]]%lookup_insert_Some Hx; [by apply Hu|]. by eapply (l_used _ _ Y).
  - intros s' d' [[<- <-]|[_ E]]%lookup_insert_Some; [done|]. by eapply (l_self _ _ Y).
  - intros s1 s2 d1 d2 x [[<- <-]|[? E1]]%lookup_insert_Some [[<- <-]|[? E2]]%lookup_insert_Some O1 O2;
      [done| | |by eapply (l_apart _ _ Y)].
    + by destruct (Hn s2 d2 x).
    + by destruct (Hn s1 d1 x).
Qed.

Lemma wrote_one f x c f' : 0 ≤ x < Block.size (fs_device f) → length c = 512%nat →
  written_at f (512 * Z.to_nat x) c f' → wrote f x (x + 1) f'.
Proof. intros Hx Lc W. exists (512 * Z.to_nat x)%nat, c. split; [done|]. lia. Qed.

(** The sectors of the new inode are written. *)
Lemma write_inode f L s st len : layout f L → 0 ≤ s < Block.size (fs_device f) →
  0 ≤ st → 0 ≤ len < 2 ^ 31 - 512 → let d := new_disk st len in
  st + nsec d ≤ Block.size (fs_device f) → ¬ in_data d s →
  (∀ s' d' x, L !! s' = Some d' → owns s' d' x → ¬ owns s d x) →
  ∃ b f', block_write (fs_device f) s (encode_inode d) = Some b ∧
    write_zeros (Z.to_nat (nsec d)) (f <| fs_device := b |>) st = Some f' ∧
    layout f' L ∧ (synced f L → synced f' L) ∧ remapped f L f' ∧ free_map f' = free_map f ∧
    block_data (fs_device f') !! Z.to_nat s = Some (encode_inode d) ∧
    cont f' d = replicate (Z.to_nat len) 0.
Proof.
  intros Y Hs Hst Hl d Hf Ns Hn. pose proof (new_disk_ok f st len Hst Hl Hf) as Dk. fold d in Dk.
  destruct (dk_unused _ _ Dk) as [Lu Bu]. pose proof (encode_inode_ok d Lu Bu) as Eo.
  destruct (sector_write f s _ (l_dev _ _ Y) Hs Eo) as (b & -> & W & Eb).
  set (f1 := f <| fs_device := b |>) in *. exists b.
  pose proof (wrote_one f s _ f1 Hs (proj1 Eo) W) as Wr.
  destruct (wrote_free f L s (s + 1) f1 Y Wr) as (Y1 & S1 & R1 & M1).
  { intros s' d' x E Hx Hi. apply (Hn s' d' x E Hx). left. lia. }
  pose proof (rm_size _ _ _ R1) as Sz. assert (0 ≤ nsec d) as Hz by (unfold nsec; simpl; Z.to_euclidean_division_equations; lia).
  destruct (write_zeros_ok (Z.to_nat (nsec d)) f1 st (l_dev _ _ Y1) Hst) as (f2 & Ez & W2); [lia|].
  assert (wrote f1 st (st + nsec d) f2) as Wr2.
  { exists (512 * Z.to_nat st)%nat, (replicate (512 * Z.to_nat (nsec d)) 0). rewrite length_replicate.
    split; [done|]. lia. }
  destruct (wrote_free f1 L st (st + nsec d) f2 Y1 Wr2) as (Y2 & S2 & R2 & M2).
  { intros s' d' x E Hx Hi. apply (Hn s' d' x E Hx). by right. }
  exists f2. split; [done|]. split; [exact Ez|]. split; [done|]. split; [by auto|].
  split; [by eapply remapped_trans|]. split; [congruence|]. split.
  - rewrite (wrote_sector f1 st (st + nsec d)); [done|apply Y1|done|lia|].
    unfold in_data in Ns. change (id_start d) with st in Ns. lia.
  - destruct W2 as (b2 & -> & _ & _ & _ & E2). unfold cont, contents, device_ofs, inode_length; simpl.
    rewrite E2. unfold slice, splice. replace (Z.to_nat (512 * st + 0)) with (512 * Z.to_nat st)%nat by lia.
    rewrite drop_app_length'.
    2:{ rewrite length_take, device_length by apply Y1. lia. }
    rewrite take_app_le by (rewrite length_replicate; unfold nsec; simpl; Z.to_euclidean_division_equations; lia).
    rewrite take_replicate. f_equal. unfold nsec. simpl. Z.to_euclidean_division_equations; lia.
Qed.

(** The rest of [inode_create], when the sectors from [st] on are allocated. *)
Lemma inode_create_at f L s len f1 st : let n := (len + 511) / 512 in
  layout f L → mem_ok f → 0 ≤ len < 2 ^ 31 - 512 → 0 ≤ s < Block.size (fs_device f) → bit (free_map f) s = true →
  (∀ s' d', L !! s' = Some d' → ¬ owns s' d' s) → free_map_allocate f n = Some (f1, Some st) →
  layout f1 L → remapped f L f1 → 0 ≤ st → st + n ≤ Block.size (fs_device f) → bit_run (free_map f) st n false →
  (∀ x, 0 ≤ x → bit (free_map f1) x = in_range st n x || bit (free_map f) x) →
  ∃ f', let d := new_disk st len in inode_create f s len = Some (f', true) ∧ layout f' (<[s := d]> L) ∧
    (synced f1 L → synced f' (<[s := d]> L)) ∧ cont f' d = replicate (Z.to_nat len) 0 ∧ remapped f L f' ∧
    free_map f' = free_map f1.
Proof.
  intros n Y M Hl Hs Hb Hn Ea Y1 R1 Hst Hsz Hrun Hbit. unfold inode_create. rewrite ASSERT_true by (apply Z.leb_le; lia).
  cbn [mbind option_bind]. unfold try_malloc. rewrite M, bytes_to_sectors_eq by done. fold n. rewrite Ea.
  assert (0 ≤ n) by (unfold n; Z.to_euclidean_division_equations; lia).
  cbn [mbind option_bind]. fold (new_disk st len). set (d := new_disk st len).
  pose proof (rm_size _ _ _ R1) as Sz.
  assert (∀ x, in_data d x → bit (free_map f) x = false) as Hfree by (intros x Hx; by apply Hrun).
  assert (¬ in_data d s) as Ns by (intros Hi; by rewrite Hfree in Hb).
  assert (∀ s' d' x, L !! s' = Some d' → owns s' d' x → ¬ owns s d x) as Hd.
  { intros s' d' x E' Hx [->|Hi]; [by apply (Hn s' d')|]. apply Hfree in Hi.
    by rewrite (l_used _ _ Y s' d' x) in Hi. }
  destruct (write_inode f1 L s st len) as (b & f2 & Eb & Ez & Y2 & S2 & R2 & M2 & Es & Ec);
    [done|lia|done|done|by rewrite Sz|done|done|]. fold d in Eb, Ez, Es, Ec.
  rewrite Eb. cbn [mbind option_bind]. change n with (nsec d). rewrite Ez. cbn [mbind option_bind].
  exists f2. split; [done|]. split; [|split; [|split; [done|split; [by eapply remapped_trans|done]]]].
  - apply layout_insert; try done.
    + rewrite (rm_size _ _ _ R2), Sz. done.
    + apply new_disk_ok; [done|done|]. rewrite (rm_size _ _ _ R2), Sz. done.
    + intros x [->|Hx]; rewrite M2, Hbit; [by rewrite Hb, orb_true_r|lia| |].
      * rewrite (proj2 (in_range_spec st n x)); [done|exact Hx].
      * destruct Hx as [Hx _]. change (id_start d) with st in Hx. lia.
  - intros (d0 & E0 & H0' & H1')%S2. exists d0. split; [|done]. rewrite lookup_insert_ne; [done|].
    intros ->. apply (Hn FREE_MAP_SECTOR d0 E0). by left.
Qed.

Lemma inode_create_ok f L s len : layout f L → synced f L → map_open f L → 0 ≤ len < 2 ^ 31 - 512 →
  0 ≤ s < Block.size (fs_device f) → bit (free_map f) s = true →
  (∀ s' d', L !! s' = Some d' → ¬ owns s' d' s) →
  ∃ f' ok, inode_create f s len = Some (f', ok) ∧
    if (ok : bool) then ∃ d, id_length d = len ∧ layout f' (<[s := d]> L) ∧ synced f' (<[s := d]> L) ∧
      cont f' d = replicate (Z.to_nat len) 0 ∧ remapped f L f'
    else f' = f ∧ ∀ j, 0 ≤ j → j + (len + 511) / 512 ≤ Block.size (fs_device f) →
      ¬ bit_run (free_map f) j ((len + 511) / 512) false.
Proof.
  intros Y Sy Hp Hl Hs Hb Hn. set (n := (len + 511) / 512).
  assert (0 ≤ n) by (unfold n; Z.to_euclidean_division_equations; lia).
  destruct (free_map_allocate_ok f L n) as (f1 & [st|] & Ea & Y1 & S1 & R1 & Hr); [done..| |].
  - destruct Hr as (Hst & Hsz & Hrun & _ & Hbit).
    destruct (inode_create_at f L s len f1 st) as (f2 & -> & Y2 & S2 & C2 & R2 & _); [done|apply Hp|done..|].
    exists f2, true. split; [done|]. exists (new_disk st len). by auto.
  - destruct Hr as [-> Hr]. exists f, false. split; [|done]. unfold inode_create.
    rewrite ASSERT_true by (apply Z.leb_le; lia). cbn [mbind option_bind]. unfold try_malloc.
    rewrite (mo_mem _ _ Hp), bytes_to_sectors_eq by done. fold n. by rewrite Ea.
Qed.

(** ** Opening and closing inodes *)

Lemma held_cons E ino ino' : held (ino :: E) ino' = ((if decide (ino = ino') then 1 else 0) + held E ino')%nat.
Proof. unfold held. rewrite filter_cons. by case_decide. Qed.

Lemma held_in E ino : ino ∈ E ↔ (0 < held E ino)%nat.
Proof.
  induction E as [|a E IH]; [unfold held; simpl; split; [by intros ?%elem_of_nil|lia]|].
  rewrite held_cons, elem_of_cons, IH. case_decide; split; intros; [lia|by left|naive_solver lia|right; lia].
Qed.

(** The inode at [ino] is new or has other counts. *)
Lemma heap_inode f L E f' E' G ino i : heap f L E G → mem_ok f' → cache_ok f' → files f' = files f →
  free_map_file f' = free_map_file f → brk f ≤ brk f' →
  (∀ ino', ino' ≠ ino → inodes f' !! ino' = inodes f !! ino') → inodes f' !! ino = Some i →
  (∀ i0, inodes f !! ino = Some i0 → i_sector i = i_sector i0) → L !! i_sector i = Some (data i) →
  open_cnt i = Z.of_nat (openers G ino + held E' ino) → deny_write_cnt i = Z.of_nat (deniers G ino) →
  (removed i = true → 2 ≤ i_sector i) → (∀ ino', ino' ≠ ino → held E' ino' = held E ino') →
  heap f' L E' G.
Proof.
  intros Hp M K Ef Em Hb Ho Ei Es El Ec Ed Er Hh. split; [done|done|rewrite Ef; apply Hp|..].
  - intros a j Ej. destruct (decide (a = ino)) as [->|N]; [by simplify_eq|]. rewrite Ho in Ej by done.
    by eapply (h_inodes _ _ _ _ Hp).
  - intros a j Ej. destruct (decide (a = ino)) as [->|N]; [by simplify_eq|].
    rewrite Ho in Ej by done. rewrite Hh by done. by eapply (h_cnt _ _ _ _ Hp).
  - intros a j Ej. destruct (decide (a = ino)) as [->|N]; [by simplify_eq|].
    rewrite Ho in Ej by done. by eapply (h_deny _ _ _ _ Hp).
  - intros a j Ej. destruct (decide (a = ino)) as [->|N]; [by simplify_eq|].
    rewrite Ho in Ej by done. by eapply (h_removed _ _ _ _ Hp).
  - intros fp x Ex. destruct (h_files _ _ _ _ Hp fp x Ex) as (? & ? & j & Ej & Hj).
    split; [lia|]. split; [done|]. rewrite Em. destruct (decide (f_inode x = ino)) as [<-|N].
    + exists i. split; [done|]. rewrite (Es j Ej). done.
    + exists j. by rewrite Ho.
  - intros a Ha. destruct (decide (a = ino)) as [->|N]; [by eexists|]. rewrite Ho by done.
    apply (h_held _ _ _ _ Hp). apply held_in in Ha. rewrite Hh in Ha by done. by apply held_in.
  - destruct (h_map _ _ _ _ Hp) as (x & j & Ex & Ej & Sj & Dx). rewrite Em.
    destruct (decide (f_inode x = ino)) as [<-|N].
    + exists x, i. split; [done|]. split; [done|]. rewrite (Es j Ej). done.
    + exists x, j. by rewrite Ho.
Qed.

Record framed f f' : Prop := {
  fr_dev : fs_device f' = fs_device f;
  fr_map : free_map f' = free_map f;
  fr_file : free_map_file f' = free_map_file f;
  fr_files : files f' = files f;
  fr_dirs : dirs f' = dirs f;
  fr_brk : brk f ≤ brk f';
}.

Lemma decode_disk f d : block_ok (fs_device f) → disk_ok f d → decode_inode (encode_inode d) = d.
Proof.
  intros B [Hs Hl Hf Hm _]. destruct (block_u32 _ B). apply decode_encode_inode; [|lia|done].
  unfold is_u32, nsec in *. Z.to_euclidean_division_equations; lia.
Qed.

Lemma layout_same f L f' : fs_device f' = fs_device f → free_map f' = free_map f → layout f L → layout f' L.
Proof.
  intros Ed Em Y. split; rewrite ?Ed, ?Em; try apply Y.
  intros s d E. eapply disk_ok_size; [|by eapply (l_disk _ _ Y)]. by rewrite Ed.
Qed.

Lemma cont_same f f' d : fs_device f' = fs_device f → cont f' d = cont f d.
Proof. intros Ed. unfold cont, contents. by rewrite Ed. Qed.

Lemma synced_same f L f' : fs_device f' = fs_device f → free_map f' = free_map f → synced f L → synced f' L.
Proof. intros Ed Em (d & E & Hl & Hc). exists d. rewrite (cont_same f f') by done. by rewrite Em. Qed.

Lemma layout_framed f L f' : framed f f' → layout f L → layout f' L.
Proof. intros [? ? _ _ _ _]. by apply layout_same. Qed.

Lemma cont_framed f f' d : framed f f' → cont f' d = cont f d.
Proof. intros [? _ _ _ _ _]. by apply cont_same. Qed.

Lemma synced_framed f L f' : framed f f' → synced f L → synced f' L.
Proof. intros [? ? _ _ _ _]. by apply synced_same. Qed.

(** What opening the sector [s] gives. *)
Record opened f f' (ino : Z) (i : inode) (s : Z) : Prop := {
  op_frame : framed f f';
  op_inode : inodes f' !! ino = Some i;
  op_sector : i_sector i = s;
  op_null : ino ≠ NULL;
  op_others : ∀ ino', ino' ≠ ino → inodes f' !! ino' = inodes f !! ino';
  op_old : ∀ i0, inodes f !! ino = Some i0 → i = i0 <| open_cnt ::= Z.succ |>;
  op_new : inodes f !! ino = None → removed i = false ∧
    ∀ ino' i', inodes f !! ino' = Some i' → i_sector i' ≠ s;
}.

Lemma open_found f L E G ino i : heap f L E G → inodes f !! ino = Some i →
  let i' := i <| open_cnt ::= Z.succ |> in let f' := f <| inodes ::= <[ino := i']> |> in
  inode_reopen f ino = Some (f', ino) ∧ heap f' L (ino :: E) G ∧ opened f f' ino i' (i_sector i).
Proof.
  intros Hp Ei i' f'. pose proof (h_cache _ _ _ _ Hp) as K. pose proof (cache_cnt f K ino i Ei) as Hc.
  assert (ino ≠ NULL) as Hn.
  { intros ->. pose proof (cache_addr f K NULL ltac:(by eexists)). unfold NULL in *. lia. }
  split; [unfold inode_reopen; by rewrite (proj2 (Z.eqb_neq _ _)), Ei by done|]. split.
  - eapply (heap_inode f L E f' _ G ino i'); try done; simpl.
    + apply Hp.
    + by apply (cache_update f ino i i' K Ei); simpl; lia.
    + intros ino' N. by apply lookup_insert_ne.
    + apply lookup_insert_eq.
    + intros i0 E0. by simplify_eq.
    + by eapply (h_inodes _ _ _ _ Hp).
    + rewrite held_cons, decide_True, (h_cnt _ _ _ _ Hp ino i Ei) by done. lia.
    + by apply (h_deny _ _ _ _ Hp).
    + by eapply (h_removed _ _ _ _ Hp).
    + intros ino' N. by rewrite held_cons, decide_False by done.
  - split; [by split|simpl; apply lookup_insert_eq|done|done|intros ino' N; by apply lookup_insert_ne| |congruence].
    intros i0 E0. by simplify_eq.
Qed.

Lemma open_new f L E G s d : heap f L E G → L !! s = Some d →
  (∀ ino j, inodes f !! ino = Some j → i_sector j ≠ s) →
  let i := mk_inode s 1 false 0 d in
  let f' := f <| brk ::= Z.succ |> <| open_inodes ::= cons (brk f) |> <| inodes ::= <[brk f := i]> |> in
  heap f' L (brk f :: E) G ∧ opened f f' (brk f) i s.
Proof.
  intros Hp El Hno i f'. pose proof (h_cache _ _ _ _ Hp) as K.
  assert (inodes f !! brk f = None) as Hf.
  { destruct (inodes f !! brk f) as [j|] eqn:Ej; [|done].
    pose proof (cache_addr f K (brk f) ltac:(by eexists)). lia. }
  assert (∀ fp x, G !! fp = Some x → f_inode x ≠ brk f) as Hfp.
  { intros fp x Ex Ef. destruct (h_files _ _ _ _ Hp fp x Ex) as (_ & _ & j & Ej & _). congruence. }
  pose proof (cache_brk f K). split.
  - eapply (heap_inode f L E f' _ G (brk f) i); try done; simpl.
    + apply Hp.
    + by apply (cache_new f s i K eq_refl ltac:(simpl; lia) Hno).
    + lia.
    + intros ino' N. by apply lookup_insert_ne.
    + apply lookup_insert_eq.
    + congruence.
    + rewrite held_cons, decide_True by done. unfold openers. rewrite count_none by (intros; by eapply Hfp).
      destruct (decide (brk f ∈ E)) as [Hi|Hi]; [destruct (h_held _ _ _ _ Hp _ Hi); congruence|].
      rewrite held_in in Hi. lia.
    + unfold deniers. rewrite count_none; [done|]. intros k x Ex [? _]. by eapply Hfp.
    + intros ino' N. by rewrite held_cons, decide_False by done.
  - split; [split; simpl; done || lia|simpl; apply lookup_insert_eq|done|unfold NULL; lia| |congruence|done].
    intros ino' N. by apply lookup_insert_ne.
Qed.

Lemma inode_open_ok f L E G s d : layout f L → heap f L E G → L !! s = Some d →
  ∃ f' ino i, inode_open f s = Some (f', ino) ∧ heap f' L (ino :: E) G ∧ opened f f' ino i s.
Proof.
  intros Y Hp El. pose proof (h_cache _ _ _ _ Hp) as K. unfold inode_open.
  destruct (find_inode_ok f (open_inodes f) s) as (r & -> & Hr); [intros; by apply K|].
  cbn [mbind option_bind]. destruct r as [ino|].
  - destruct Hr as (Hin & i & Ei & <-). destruct (open_found f L E G ino i Hp Ei) as (-> & Hp' & O). eauto 10.
  - assert (∀ ino j, inodes f !! ino = Some j → i_sector j ≠ s) as Hno.
    { intros ino j Ej. apply (Hr ino j); [|done]. apply K. by eexists. }
    destruct (l_sector _ _ Y s d El) as [Hs Es]. pose proof (l_dev _ _ Y) as B.
    unfold try_malloc. rewrite (h_mem _ _ _ _ Hp). simpl.
    rewrite (block_read_ok _ s (encode_inode d) B) by (done || lia).
    cbn [mbind option_bind]. rewrite (decode_disk f d B) by (by eapply (l_disk _ _ Y)).
    destruct (open_new f L E G s d Hp El Hno) as [Hp' O]. eauto 10.
Qed.

Lemma cache_delete f f' ino : cache_ok f → open_inodes f' = filter (λ x, x ≠ ino) (open_inodes f) →
  inodes f' = delete ino (inodes f) → brk f' = brk f → cache_ok f'.
Proof.
  intros [N I C S Bk A] Eo Ei Eb. split; rewrite ?Eo, ?Ei, ?Eb; [by apply NoDup_filter| | | |done|].
  - intros a. rewrite list_elem_of_filter, I. destruct (decide (a = ino)) as [->|Na].
    + rewrite lookup_delete_eq. split; [by intros [? _]|by intros [? ?]].
    + rewrite lookup_delete_ne by done. naive_solver.
  - intros a i [_ E]%lookup_delete_Some. by eapply C.
  - intros a b i j [_ E]%lookup_delete_Some [_ E']%lookup_delete_Some. by eapply S.
  - intros a [i [_ E]%lookup_delete_Some]. apply A. by eexists.
Qed.

(** The last opener of an inode closes it. *)
Lemma heap_delete f L E f' G ino i : heap f L (ino :: E) G → inodes f !! ino = Some i → open_cnt i = 1 →
  mem_ok f' → files f' = files f → free_map_file f' = free_map_file f → brk f' = brk f →
  open_inodes f' = filter (λ x, x ≠ ino) (open_inodes f) → inodes f' = delete ino (inodes f) →
  heap f' L E G.
Proof.
  intros Hp Ei Hc M Ef Em Eb Eo Ed. pose proof (h_cnt _ _ _ _ Hp ino i Ei) as Ec.
  rewrite Hc, held_cons, decide_True in Ec by done.
  assert (openers G ino = 0%nat) as O0 by lia. assert (held E ino = 0%nat) as H0' by lia.
  assert (∀ fp x, G !! fp = Some x → f_inode x ≠ ino) as Hx.
  { intros fp x Ex Ex'. pose proof (count_pos (λ x, f_inode x = ino) G fp x Ex Ex').
    unfold openers in O0. lia. }
  assert (∀ a j, inodes f' !! a = Some j → a ≠ ino ∧ inodes f !! a = Some j) as Hi.
  { intros a j. rewrite Ed, lookup_delete_Some. naive_solver. }
  assert (∀ a, a ≠ ino → inodes f' !! a = inodes f !! a) as Hn.
  { intros a Na. rewrite Ed. by apply lookup_delete_ne. }
  split; [done|by eapply cache_delete; [apply Hp|..]|rewrite Ef; apply Hp|..].
  - intros a j [_ Ej]%Hi. by eapply (h_inodes _ _ _ _ Hp).
  - intros a j [Na Ej]%Hi. rewrite (h_cnt _ _ _ _ Hp a j Ej), held_cons, decide_False by done. done.
  - intros a j [Na Ej]%Hi. by rewrite (h_deny _ _ _ _ Hp a j Ej).
  - intros a j [_ Ej]%Hi. by eapply (h_removed _ _ _ _ Hp).
  - intros fp x Ex. destruct (h_files _ _ _ _ Hp fp x Ex) as (? & ? & j & Ej & Hj).
    rewrite Eb, Em. split; [done|]. split; [done|]. exists j. rewrite Hn by (by eapply Hx). done.
  - intros a Ha. destruct (decide (a = ino)) as [->|Na]; [apply held_in in Ha; lia|].
    rewrite Hn by done. apply (h_held _ _ _ _ Hp). by right.
  - destruct (h_map _ _ _ _ Hp) as (x & j & Ex & Ej & Sj & Dx). rewrite Em. exists x, j.
    rewrite Hn by (by eapply Hx). done.
Qed.

Lemma heap_forget f L E G s : heap f L E G → (∀ ino i, inodes f !! ino = Some i → i_sector i ≠ s) →
  heap f (delete s L) E G.
Proof.
  intros Hp Hs. split; try apply Hp. intros a j Ej. rewrite lookup_delete_ne; [by eapply (h_inodes _ _ _ _ Hp)|].
  intros ->. by eapply Hs.
Qed.

Lemma layout_delete f L s : layout f L → layout f (delete s L).
Proof.
  intros Y. assert (∀ a d, delete s L !! a = Some d → L !! a = Some d) as Hd.
  { intros a d [_ ?]%lookup_delete_Some. done. }
  split; try apply Y.
  - intros a d E%Hd. by eapply (l_sector _ _ Y).
  - intros a d E%Hd. by eapply (l_disk _ _ Y).
  - intros a d x E%Hd. by eapply (l_used _ _ Y).
  - intros a d E%Hd. by eapply (l_self _ _ Y).
  - intros a b d d' x E%Hd E'%Hd. by eapply (l_apart _ _ Y).
Qed.

Lemma synced_delete f L s : s ≠ FREE_MAP_SECTOR → synced f L → synced f (delete s L).
Proof. intros N (d & E & Hr). exists d. by rewrite lookup_delete_ne. Qed.

(** The sectors of the inode are free after it is deleted. *)
Lemma release_inode f L s d : layout f L → synced f L → map_open f L → L !! s = Some d → s ≠ FREE_MAP_SECTOR →
  ∃ f1 f', free_map_release f s 1 = Some f1 ∧
    free_map_release f1 (id_start d) (bytes_to_sectors (id_length d)) = Some f' ∧
    layout f' (delete s L) ∧ synced f' (delete s L) ∧ remapped f (delete s L) f'.
Proof.
  intros Y Sy Mo E N. pose proof (layout_delete f L s Y) as Y0. pose proof (synced_delete f L s N Sy) as S0.
  assert (∀ f', remapped f (delete s L) f' → map_open f' (delete s L)) as Mo'.
  { intros f' [(dv & m & ->) _ _]. destruct Mo as [M Nn (x & i & Ex & Ei & E0 & Hd)].
    split; [done|done|]. exists x, i. by rewrite lookup_delete_ne. }
  assert (∀ s' d' x, delete s L !! s' = Some d' → owns s' d' x → ¬ owns s d x) as Hn.
  { intros s' d' x [N' E']%lookup_delete_Some Hx Hx'. apply N'. by eapply (l_apart _ _ Y). }
  destruct (l_sector _ _ Y s d E) as [Hs _]. pose proof (l_disk _ _ Y s d E) as [? Hl ? _ _].
  destruct (free_map_release_ok f (delete s L) s 1 Y0 S0) as (f1 & -> & Y1 & S1 & R1 & B1);
    [by apply Mo', remapped_refl|lia|lia|lia| | |].
  { intros x Hx. replace x with s by lia. eapply (l_used _ _ Y); [done|by left]. }
  { intros s' d' x E' Hx Hr. apply (Hn s' d' x E' Hx). left. lia. }
  rewrite bytes_to_sectors_eq by done. fold (nsec d). exists f1.
  assert (0 ≤ nsec d) by (unfold nsec; Z.to_euclidean_division_equations; lia).
  destruct (free_map_release_ok f1 (delete s L) (id_start d) (nsec d) Y1 S1) as (f2 & E2 & Y2 & S2 & R2 & _);
    [by apply Mo'|done|done|by rewrite (rm_size _ _ _ R1)| | |].
  { intros x Hx. rewrite B1, (l_used _ _ Y s d x) by (done || (by right) || lia).
    rewrite andb_true_r, negb_true_iff. apply not_true_iff_false. rewrite in_range_spec. intros Hr.
    apply (l_self _ _ Y s d E). replace s with x by lia. done. }
  { intros s' d' x E' Hx Hr. apply (Hn s' d' x E' Hx). by right. }
  exists f2. split; [done|]. split; [done|]. split; [done|]. split; [done|]. by eapply remapped_trans.
Qed.

(** What closing the inode [i] at [ino] does. *)
Record closed f L f' L' (ino : Z) (i : inode) : Prop := {
  cl_size : Block.size (fs_device f') = Block.size (fs_device f);
  cl_file : free_map_file f' = free_map_file f;
  cl_files : files f' = files f;
  cl_dirs : dirs f' = dirs f;
  cl_brk : brk f' = brk f;
  cl_others : ∀ ino', ino' ≠ ino → inodes f' !! ino' = inodes f !! ino';
  cl_inode : inodes f' !! ino = if decide (open_cnt i = 1) then None else Some (i <| open_cnt ::= Z.pred |>);
  cl_live : L' = if decide (open_cnt i = 1 ∧ removed i = true) then delete (i_sector i) L else L;
  cl_cont : ∀ s d, L' !! s = Some d → s ≠ FREE_MAP_SECTOR → cont f' d = cont f d;
  cl_dev : removed i = false → fs_device f' = fs_device f ∧ free_map f' = free_map f;
}.

(** Another opener is left. *)
Lemma close_shared f L E G ino i : layout f L → synced f L → heap f L (ino :: E) G →
  inodes f !! ino = Some i → open_cnt i ≠ 1 →
  let f' := f <| inodes ::= <[ino := i <| open_cnt ::= Z.pred |>]> |> in
  layout f' L ∧ synced f' L ∧ heap f' L E G ∧ closed f L f' L ino i.
Proof.
  intros Y Sy Hp Ei N f'. set (i' := i <| open_cnt ::= Z.pred |>) in *.
  pose proof (h_cnt _ _ _ _ Hp ino i Ei) as Ec. rewrite held_cons, decide_True in Ec by done.
  assert (framed f f') as Fr by (split; simpl; done || lia).
  split; [by eapply layout_framed|]. split; [by eapply synced_framed|]. split.
  - eapply (heap_inode f L (ino :: E) f' _ G ino i'); try done; simpl.
    + apply Hp.
    + by apply (cache_update f ino i i' (h_cache _ _ _ _ Hp) Ei); simpl; lia.
    + intros a Na. by apply lookup_insert_ne.
    + apply lookup_insert_eq.
    + intros i0 E0. by simplify_eq.
    + by eapply (h_inodes _ _ _ _ Hp).
    + lia.
    + by apply (h_deny _ _ _ _ Hp).
    + by eapply (h_removed _ _ _ _ Hp).
    + intros a Na. by rewrite held_cons, decide_False by done.
  - split; try done; simpl; [intros a Na; by apply lookup_insert_ne| |].
    + rewrite decide_False by lia. apply lookup_insert_eq.
    + by rewrite decide_False by lia.
Qed.

(** The state in which the last opener frees the sectors. *)
Definition closing f (ino : Z) (i : inode) : fs D :=
  f <| inodes ::= <[ino := i <| open_cnt ::= Z.pred |>]> |> <| open_inodes ::= filter (λ x, x ≠ ino) |>.

Lemma closing_framed f ino i : framed f (closing f ino i) ∧
  delete ino (inodes (closing f ino i)) = delete ino (inodes f).
Proof. split; [split; simpl; done || lia|apply delete_insert_eq]. Qed.

Lemma close_last f L E G ino i : layout f L → synced f L → heap f L (ino :: E) G →
  inodes f !! ino = Some i → open_cnt i = 1 → removed i = false →
  let f' := (closing f ino i) <| inodes ::= delete ino |> in
  layout f' L ∧ synced f' L ∧ heap f' L E G ∧ closed f L f' L ino i.
Proof.
  intros Y Sy Hp Ei Hc Er f'. destruct (closing_framed f ino i) as [_ Ed].
  assert (framed f f') as Fr by (split; simpl; done || lia).
  split; [by eapply layout_framed|]. split; [by eapply synced_framed|]. split.
  - eapply (heap_delete f L E f' G ino i); try done. apply Hp.
  - split; try done.
    + intros a Na. simpl. rewrite delete_insert_eq. by apply lookup_delete_ne.
    + simpl. rewrite delete_insert_eq, decide_True by done. apply lookup_delete_eq.
    + rewrite decide_False; [done|]. intros [_ ?]. congruence.
Qed.

(** The free map's own inode is not the one closed. *)
Lemma closing_map_open f L E G ino i : heap f L (ino :: E) G → inodes f !! ino = Some i → removed i = true →
  map_open (closing f ino i) L.
Proof.
  intros Hp Ei Er. pose proof (h_removed _ _ _ _ Hp ino i Ei Er) as H2.
  destruct (heap_map_open _ _ _ _ Hp) as [M Nn (x & j & Ex & Ej & E0 & Hd)]. split; [done|done|].
  exists x, j. split; [done|]. split; [|done]. simpl. rewrite lookup_insert_ne; [done|]. intros ->.
  destruct (h_map _ _ _ _ Hp) as (x' & j' & Ex' & Ej' & Ss & _).
  pose proof (lookup_weaken _ _ _ _ Ex' (h_sub _ _ _ _ Hp)) as Ew.
  assert (x' = x) as -> by congruence. rewrite Ei in Ej'. injection Ej' as <-.
  unfold FREE_MAP_SECTOR in Ss. lia.
Qed.

Lemma close_removed f L E G ino i : layout f L → synced f L → heap f L (ino :: E) G →
  inodes f !! ino = Some i → open_cnt i = 1 → removed i = true →
  ∃ f1 f2, free_map_release (closing f ino i) (i_sector i) 1 = Some f1 ∧
    free_map_release f1 (id_start (data i)) (bytes_to_sectors (id_length (data i))) = Some f2 ∧
    let f' := f2 <| inodes ::= delete ino |> in let L' := delete (i_sector i) L in
    layout f' L' ∧ synced f' L' ∧ heap f' L' E G ∧ closed f L f' L' ino i.
Proof.
  intros Y Sy Hp Ei Hc Er. destruct (closing_framed f ino i) as [Fr Ed].
  pose proof (h_removed _ _ _ _ Hp ino i Ei Er) as H2.
  destruct (release_inode (closing f ino i) L (i_sector i) (data i)) as (f1 & f2 & E1 & E2 & Y2 & S2 & R2);
    [by eapply layout_framed|by eapply synced_framed|by eapply closing_map_open|
     by eapply (h_inodes _ _ _ _ Hp)|unfold FREE_MAP_SECTOR; lia|].
  exists f1, f2. split; [done|]. split; [done|]. intros f' L'.
  assert (framed f2 f') as Fr2 by (split; simpl; done || lia).
  split; [by eapply layout_framed|]. split; [by eapply synced_framed|].
  pose proof R2 as [(dv & m & E') Sz C2].
  assert (inodes f' = delete ino (inodes f)) as Ef by (unfold f'; rewrite E'; simpl; apply delete_insert_eq).
  split.
  - apply heap_forget; [eapply (heap_delete f L E f' G ino i); try done; unfold f'; rewrite E'; simpl; try done; apply Hp|].
    intros a j. rewrite Ef. intros [Na Ej]%lookup_delete_Some Es.
    apply Na. symmetry. by eapply (cache_sector _ (h_cache _ _ _ _ Hp)).
  - split; rewrite ?Ef; try (unfold f'; rewrite E'; done).
    + done.
    + intros a Na. by apply lookup_delete_ne.
    + rewrite decide_True by done. apply lookup_delete_eq.
    + by rewrite decide_True.
    + intros s d Es N. rewrite (cont_framed f2 f') by done. by rewrite (C2 s d Es N).
    + congruence.
Qed.

Lemma inode_close_ok f L E G ino i : layout f L → synced f L → heap f L (ino :: E) G →
  inodes f !! ino = Some i →
  ∃ f' L', inode_close f ino = Some f' ∧ layout f' L' ∧ synced f' L' ∧ heap f' L' E G ∧
    closed f L f' L' ino i.
Proof.
  intros Y Sy Hp Ei. pose proof (h_cache _ _ _ _ Hp) as K.
  assert (ino ≠ NULL) as Hn.
  { intros ->. pose proof (cache_addr f K NULL ltac:(by eexists)). unfold NULL in *. lia. }
  unfold inode_close. rewrite (proj2 (Z.eqb_neq _ _)), Ei by done. cbn [mbind option_bind].
  change (open_cnt (i <| open_cnt ::= Z.pred |>)) with (Z.pred (open_cnt i)).
  destruct (Z.eqb_spec (Z.pred (open_cnt i)) 0) as [E1|N1].
  2:{ eexists _, L. split; [done|]. apply close_shared; done || lia. }
  assert (open_cnt i = 1) as Hc by lia. fold (closing f ino i).
  change (removed (i <| open_cnt ::= Z.pred |>)) with (removed i).
  destruct (removed i) eqn:Er; cbn [mbind option_bind].
  - destruct (close_removed f L E G ino i) as (f1 & f2 & E2 & E3 & Hr); [done..|].
    change (i_sector (i <| open_cnt ::= Z.pred |>)) with (i_sector i). rewrite E2. cbn [mbind option_bind].
    change (data (i <| open_cnt ::= Z.pred |>)) with (data i). rewrite E3. cbn [mbind option_bind]. eauto 10.
  - eexists _, L. split; [done|]. by apply close_last.
Qed.

(** ** Files *)

Lemma cache_brk_mono f f' : cache_ok f → open_inodes f' = open_inodes f → inodes f' = inodes f →
  brk f ≤ brk f' → cache_ok f'.
Proof.
  intros [N I C S Bk A] Eo Ei Eb. split; rewrite ?Eo, ?Ei; try done; [lia|].
  intros a Ha. specialize (A a Ha). lia.
Qed.

Lemma file_open_ok f L E ino i : heap f L (ino :: E) (files f) → inodes f !! ino = Some i →
  2 ≤ i_sector i →
  let f' := f <| brk ::= Z.succ |> <| files ::= <[brk f := mk_file ino 0 false]> |> in
  file_open f ino = Some (f', brk f) ∧ files f !! brk f = None ∧ heap f' L E (files f').
Proof.
  intros Hp Ei Hs f'. pose proof (h_cache _ _ _ _ Hp) as K.
  assert (files f !! brk f = None) as Hn.
  { destruct (files f !! brk f) as [x|] eqn:Ex; [|done]. destruct (h_files _ _ _ _ Hp _ x Ex). lia. }
  assert (ino ≠ NULL) as Hz.
  { intros ->. pose proof (cache_addr f K NULL ltac:(by eexists)). unfold NULL in *. lia. }
  split; [|split; [done|]].
  { unfold file_open, try_malloc. rewrite (h_mem _ _ _ _ Hp), (proj2 (Z.eqb_neq _ _)) by done. done. }
  assert (free_map_file f ≠ brk f) as Nm.
  { intros Em. destruct (h_map _ _ _ _ Hp) as (x & _ & Ex & _). congruence. }
  split; [apply Hp|eapply cache_brk_mono; [exact K|done|done|simpl; lia]|done|apply Hp|..].
  - intros a j Ej. rewrite (h_cnt _ _ _ _ Hp a j Ej), held_cons. unfold openers, f'; simpl.
    rewrite count_insert by done. simpl. by repeat case_decide; lia.
  - intros a j Ej. rewrite (h_deny _ _ _ _ Hp a j Ej). unfold deniers, f'; simpl.
    rewrite count_insert, decide_False by (done || (simpl; naive_solver)). done.
  - apply Hp.
  - intros fp x. unfold f'; simpl. intros [[<- <-]|[Nf Ex]]%lookup_insert_Some.
    + pose proof (cache_brk f K). simpl. split; [lia|]. split; [lia|]. by exists i.
    + destruct (h_files _ _ _ _ Hp fp x Ex) as (? & ? & ?). split; [lia|done].
  - intros a Ha. apply (h_held _ _ _ _ Hp). by right.
  - destruct (h_map _ _ _ _ Hp) as (x & j & Ex & Hr). exists x, j. split; [|done].
    unfold f'; simpl. by rewrite lookup_insert_ne by done.
Qed.

(** A file that keeps its inode, which may have another number of deniers. *)
Lemma heap_file f L E f' fp x y i i' : heap f L E (files f) → files f !! fp = Some x →
  inodes f !! f_inode x = Some i → f_inode y = f_inode x → 0 ≤ f_pos y < 2 ^ 31 →
  (fp = free_map_file f → deny_write y = false) →
  i' = i <| deny_write_cnt := deny_write_cnt i' |> →
  f' = f <| files ::= <[fp := y]> |> <| inodes ::= <[f_inode x := i']> |> →
  deny_write_cnt i' = Z.of_nat (deniers (files f') (f_inode x)) → heap f' L E (files f').
Proof.
  intros Hp Ex Ei Ey Hpos Hm Ei' Ef' Hd. pose proof (h_cache _ _ _ _ Hp) as K.
  assert (i_sector i' = i_sector i ∧ open_cnt i' = open_cnt i ∧ data i' = data i ∧ removed i' = removed i)
    as (Es & Ec & Edt & Er) by (by rewrite Ei').
  assert (∀ a j, inodes f' !! a = Some j → (a = f_inode x ∧ j = i') ∨ (a ≠ f_inode x ∧ inodes f !! a = Some j)) as Hj.
  { intros a j. rewrite Ef'. simpl. intros [[<- <-]|[N ?]]%lookup_insert_Some; [by left|by right]. }
  assert (∀ a j, inodes f !! a = Some j → ∃ j', inodes f' !! a = Some j' ∧ i_sector j' = i_sector j) as Hj'.
  { intros a j Ej. rewrite Ef'. simpl. destruct (decide (f_inode x = a)) as [<-|N].
    - exists i'. rewrite lookup_insert_eq. split; [done|]. congruence.
    - exists j. by rewrite lookup_insert_ne. }
  split; [rewrite Ef'; apply Hp| |done|..].
  - rewrite Ef'. apply (cache_update (f <| files ::= <[fp := y]> |>) (f_inode x) i i'); [|done|done|].
    + eapply cache_brk_mono; [exact K|done|done|simpl; lia].
    + rewrite Ec. by eapply (cache_cnt f K).
  - intros a j [[-> ->]|[_ Ej]]%Hj; [rewrite Es, Edt|]; by eapply (h_inodes _ _ _ _ Hp).
  - intros a j Ej. assert (openers (files f') a = openers (files f) a) as ->.
    { rewrite Ef'. unfold openers; simpl. eapply count_update; [exact Ex|]. by rewrite Ey. }
    apply Hj in Ej as [[-> ->]|[_ Ej]]; [rewrite Ec|]; by eapply (h_cnt _ _ _ _ Hp).
  - intros a j [[-> ->]|[N Ej]]%Hj; [done|]. rewrite (h_deny _ _ _ _ Hp a j Ej). f_equal.
    rewrite Ef'. unfold deniers; simpl. symmetry. eapply count_update; [exact Ex|]. rewrite Ey. naive_solver.
  - intros a j [[-> ->]|[_ Ej]]%Hj; [rewrite Es, Er|]; by eapply (h_removed _ _ _ _ Hp).
  - intros q z Ez. replace (brk f') with (brk f) by (by rewrite Ef').
    replace (free_map_file f') with (free_map_file f) by (by rewrite Ef').
    assert (∃ z', files f !! q = Some z' ∧ f_inode z = f_inode z' ∧ (q = fp → z = y) ∧ (q ≠ fp → z = z')) as (z' & Ez' & Eq & Hy & Hz).
    { rewrite Ef' in Ez. simpl in Ez. apply lookup_insert_Some in Ez as [[<- <-]|[? ?]]; [by exists x|by exists z]. }
    destruct (h_files _ _ _ _ Hp q z' Ez') as (? & ? & j & Ej & Hj2).
    destruct (Hj' _ j Ej) as (j' & Ej' & Ss). split; [done|]. split.
    + destruct (decide (q = fp)) as [e|e]; [by rewrite (Hy e)|by rewrite (Hz e)].
    + exists j'. rewrite Eq, Ss. done.
  - intros a Ha. destruct (h_held _ _ _ _ Hp a Ha) as [j Ej]. destruct (Hj' _ j Ej) as (j' & ? & _). by eexists.
  - destruct (h_map _ _ _ _ Hp) as (z & j & Ez & Ej & Sj & Dz). destruct (Hj' _ j Ej) as (j' & Ej' & Ss).
    replace (free_map_file f') with (free_map_file f) by (by rewrite Ef').
    assert (∃ z', files f' !! free_map_file f = Some z' ∧ f_inode z' = f_inode z ∧ deny_write z' = false) as (z' & Ez' & Eq & Dz').
    { rewrite Ef'. simpl. destruct (decide (fp = free_map_file f)) as [e|N].
      - exists y. rewrite <-e, lookup_insert_eq. split; [done|]. split; [|by apply Hm].
        rewrite Ey. congruence.
      - exists z. by rewrite lookup_insert_ne. }
    exists z', j'. rewrite Eq. split; [done|]. split; [done|]. split; [congruence|done].
Qed.

Lemma heap_pos f L E fp x p : heap f L E (files f) → files f !! fp = Some x → 0 ≤ p < 2 ^ 31 →
  let f' := f <| files ::= <[fp := x <| f_pos := p |>]> |> in heap f' L E (files f').
Proof.
  intros Hp Ex Hpos f'. destruct (h_files _ _ _ _ Hp fp x Ex) as (_ & _ & i & Ei & _).
  eapply (heap_file f L E f' fp x (x <| f_pos := p |>) i i); try done.
  - intros ->. destruct (h_map _ _ _ _ Hp) as (x' & _ & Ex' & _ & _ & Dx). simpl. congruence.
  - by destruct i.
  - unfold f'. destruct f; simpl in *. f_equal. symmetry. by apply insert_id.
  - rewrite (h_deny _ _ _ _ Hp _ i Ei). f_equal. unfold deniers, f'; simpl. symmetry.
    by eapply count_update; [exact Ex|].
Qed.

Lemma count_le {A} (P Q : A → Prop) `{!∀ x, Decision (P x)} `{!∀ x, Decision (Q x)} (m : gmap Z A) :
  (∀ x, P x → Q x) → (count_of P m ≤ count_of Q m)%nat.
Proof.
  intros PQ. unfold count_of. apply map_subseteq_size. apply map_subseteq_spec. intros k x.
  rewrite !map_lookup_filter_Some. naive_solver.
Qed.

(** Setting the flag of a file sets the count of its inode. *)
Definition flagged f (fp : Z) (x : file) (i : inode) (v : bool) (n : Z) : fs D :=
  f <| files ::= <[fp := x <| deny_write := v |>]> |>
    <| inodes ::= <[f_inode x := i <| deny_write_cnt := n |>]> |>.

Lemma flagged_heap f L E fp x i v : heap f L E (files f) → files f !! fp = Some x →
  inodes f !! f_inode x = Some i → fp ≠ free_map_file f → deny_write x = negb v →
  let n := if v then deny_write_cnt i + 1 else deny_write_cnt i - 1 in
  heap (flagged f fp x i v n) L E (files (flagged f fp x i v n)) ∧ 0 ≤ n ≤ open_cnt i ∧
  0 ≤ deny_write_cnt i ≤ open_cnt i.
Proof.
  intros Hp Ex Ei Nm Hv n. pose proof (h_deny _ _ _ _ Hp _ i Ei) as Hd. pose proof (h_cnt _ _ _ _ Hp _ i Ei) as Hc.
  set (P := λ z, f_inode z = f_inode x ∧ deny_write z = true). set (Q := λ z, f_inode z = f_inode x).
  assert (n = Z.of_nat (count_of P (<[fp := x <| deny_write := v |>]> (files f)))) as En.
  { unfold n. rewrite Hd. unfold deniers. fold P. rewrite <-insert_delete_eq, count_insert by apply lookup_delete_eq.
    rewrite (count_delete P (files f) fp x Ex). unfold P. simpl. rewrite Hv.
    destruct v; simpl; repeat case_decide; naive_solver lia. }
  assert (count_of P (<[fp := x <| deny_write := v |>]> (files f)) ≤
    count_of Q (<[fp := x <| deny_write := v |>]> (files f)))%nat as Hle by (apply count_le; by intros ? [? _]).
  rewrite (count_update Q (files f) fp x) in Hle by done.
  assert (count_of P (files f) ≤ count_of Q (files f))%nat as Hle' by (apply count_le; by intros ? [? _]).
  unfold openers in Hc. fold Q in Hc. unfold deniers in Hd. fold P in Hd. split; [|lia].
  eapply (heap_file f L E _ fp x (x <| deny_write := v |>) i); try done.
  - by destruct (h_files _ _ _ _ Hp fp x Ex) as (_ & ? & _).
  - done.
Qed.

Lemma file_deny_write_ok f L E fp x i : heap f L E (files f) → files f !! fp = Some x →
  inodes f !! f_inode x = Some i → fp ≠ free_map_file f →
  ∃ f', file_deny_write f fp = Some f' ∧ heap f' L E (files f') ∧
    f' = (if deny_write x then f else flagged f fp x i true (deny_write_cnt i + 1)).
Proof.
  intros Hp Ex Ei Nm. destruct (h_files _ _ _ _ Hp fp x Ex) as [Hf _]. unfold file_deny_write.
  rewrite ASSERT_true by (apply negb_true_iff, Z.eqb_neq; unfold NULL; lia). cbn [mbind option_bind].
  rewrite Ex. cbn [mbind option_bind]. destruct (deny_write x) eqn:Ed; cbn [negb]; [by exists f|].
  destruct (flagged_heap f L E fp x i true Hp Ex Ei Nm Ed) as (Hp' & Hn & _). eexists. split; [|done].
  unfold inode_deny_write. simpl. rewrite Ei. cbn [mbind option_bind]. rewrite ASSERT_true.
  - cbn [mbind option_bind]. unfold flagged. do 2 f_equal.
  - apply Z.leb_le. simpl. unfold Z.succ. lia.
Qed.

Lemma file_allow_write_ok f L E fp x i : heap f L E (files f) → files f !! fp = Some x →
  inodes f !! f_inode x = Some i → fp ≠ free_map_file f →
  ∃ f', file_allow_write f fp = Some f' ∧ heap f' L E (files f') ∧
    f' = (if deny_write x then flagged f fp x i false (deny_write_cnt i - 1) else f).
Proof.
  intros Hp Ex Ei Nm. destruct (h_files _ _ _ _ Hp fp x Ex) as [Hf _]. unfold file_allow_write.
  rewrite ASSERT_true by (apply negb_true_iff, Z.eqb_neq; unfold NULL; lia). cbn [mbind option_bind].
  rewrite Ex. cbn [mbind option_bind]. destruct (deny_write x) eqn:Ed; [|by exists f].
  destruct (flagged_heap f L E fp x i false Hp Ex Ei Nm Ed) as (Hp' & Hn & Hn'). eexists. split; [|done].
  unfold inode_allow_write. simpl. rewrite Ei. cbn [mbind option_bind].
  rewrite (proj2 (Z.ltb_lt 0 _)), (proj2 (Z.leb_le _ _)) by lia. done.
Qed.

(** A file that is being closed. *)
Lemma heap_drop f L E fp x : heap f L E (files f) → files f !! fp = Some x → deny_write x = false →
  fp ≠ free_map_file f → heap f L (f_inode x :: E) (delete fp (files f)).
Proof.
  intros Hp Ex Hd Nm. split; try apply Hp.
  - apply delete_subseteq.
  - intros a j Ej. rewrite (h_cnt _ _ _ _ Hp a j Ej), held_cons. unfold openers.
    rewrite (count_delete _ (files f) fp x Ex). by repeat case_decide; lia.
  - intros a j Ej. rewrite (h_deny _ _ _ _ Hp a j Ej). unfold deniers.
    rewrite (count_delete _ (files f) fp x Ex), decide_False; [done|]. intros [_ ?]. congruence.
  - intros q z [_ Ez]%lookup_delete_Some. by apply (h_files _ _ _ _ Hp).
  - intros a [->|Ha]%elem_of_cons; [|by apply (h_held _ _ _ _ Hp)].
    destruct (h_files _ _ _ _ Hp fp x Ex) as (_ & _ & i & ? & _). by eexists.
  - destruct (h_map _ _ _ _ Hp) as (z & j & Ez & Hr). exists z, j. by rewrite lookup_delete_ne.
Qed.

(** What closing the file [fp] on the inode [i] does. *)
Record file_closed f L f' L' (fp ino : Z) (i : inode) : Prop := {
  fc_size : Block.size (fs_device f') = Block.size (fs_device f);
  fc_file : free_map_file f' = free_map_file f;
  fc_files : files f' = delete fp (files f);
  fc_dirs : dirs f' = dirs f;
  fc_others : ∀ ino', ino' ≠ ino → inodes f' !! ino' = inodes f !! ino';
  fc_inode : ∀ j, inodes f' !! ino = Some j →
    open_cnt i ≠ 1 ∧ i_sector j = i_sector i ∧ removed j = removed i;
  fc_shared : open_cnt i ≠ 1 → is_Some (inodes f' !! ino);
  fc_live : L' = if decide (open_cnt i = 1 ∧ removed i = true) then delete (i_sector i) L else L;
  fc_cont : ∀ s d, L' !! s = Some d → s ≠ FREE_MAP_SECTOR → cont f' d = cont f d;
}.

(** The file after its flag is cleared. *)
Lemma allowed f L E fp x i : heap f L E (files f) → files f !! fp = Some x →
  inodes f !! f_inode x = Some i → fp ≠ free_map_file f →
  ∃ f1 x1 i1, file_allow_write f fp = Some f1 ∧ heap f1 L E (files f1) ∧
    fs_device f1 = fs_device f ∧ free_map f1 = free_map f ∧ free_map_file f1 = free_map_file f ∧
    dirs f1 = dirs f ∧ files f1 !! fp = Some x1 ∧ delete fp (files f1) = delete fp (files f) ∧
    f_inode x1 = f_inode x ∧ deny_write x1 = false ∧ inodes f1 !! f_inode x = Some i1 ∧
    i_sector i1 = i_sector i ∧ open_cnt i1 = open_cnt i ∧ removed i1 = removed i ∧
    (∀ ino', ino' ≠ f_inode x → inodes f1 !! ino' = inodes f !! ino').
Proof.
  intros Hp Ex Ei Nm. destruct (file_allow_write_ok f L E fp x i Hp Ex Ei Nm) as (f1 & E1 & Hp1 & Ef1).
  destruct (deny_write x) eqn:Ed.
  - exists f1, (x <| deny_write := false |>), (i <| deny_write_cnt := deny_write_cnt i - 1 |>).
    split; [done|]. split; [done|]. rewrite Ef1. simpl.
    rewrite !lookup_insert_eq, delete_insert_eq. repeat (split; [done|]).
    intros ino' N. by apply lookup_insert_ne.
  - subst f1. exists f, x, i. repeat (split; [done|]). done.
Qed.

Lemma file_close_ok f L E fp x i : layout f L → synced f L → heap f L E (files f) →
  files f !! fp = Some x → inodes f !! f_inode x = Some i → fp ≠ free_map_file f →
  ∃ f' L', file_close f fp = Some f' ∧ layout f' L' ∧ synced f' L' ∧ heap f' L' E (files f') ∧
    file_closed f L f' L' fp (f_inode x) i.
Proof.
  intros Y Sy Hp Ex Ei Nm. destruct (h_files _ _ _ _ Hp fp x Ex) as [Hf _].
  destruct (allowed f L E fp x i Hp Ex Ei Nm)
    as (f1 & x1 & i1 & E1 & Hp1 & Ed & Em & Eff & Edd & Ex1 & Edel & Ey & Hd & Ei1 & Es & Ec & Er & Ho).
  unfold file_close. rewrite (proj2 (Z.eqb_neq _ NULL)), E1 by (unfold NULL; lia). cbn [mbind option_bind].
  rewrite Ex1. cbn [mbind option_bind]. rewrite Ey.
  pose proof (heap_drop f1 L E fp x1 Hp1 Ex1 Hd ltac:(congruence)) as Hp2. rewrite Ey in Hp2.
  destruct (inode_close_ok f1 L E _ (f_inode x) i1 (layout_same _ _ _ Ed Em Y) (synced_same _ _ _ Ed Em Sy) Hp2 Ei1)
    as (f2 & L' & -> & Y2 & S2 & Hp3 & [Sz Cf Cfs Cd Cb Co Ci Cl Cc _]).
  cbn [mbind option_bind]. set (f' := f2 <| files ::= delete fp |>). exists f', L'. split; [done|].
  split; [by eapply layout_same; [| |exact Y2]|]. split; [by eapply synced_same; [| |exact S2]|].
  assert (files f' = delete fp (files f1)) as Eff' by (simpl; by rewrite Cfs). split.
  - rewrite Eff'. destruct Hp3 as [M K Sb I Cn Dn R F Hh Mp]. split; try done.
    + eapply cache_brk_mono; [exact K|done|done|simpl; lia].
    + by rewrite Eff'.
  - split; simpl; rewrite ?Es, ?Ec, ?Er in *; try congruence.
    + intros a Na. by rewrite Co, Ho.
    + intros j Ej. rewrite Ci in Ej. case_decide; [done|]. injection Ej as <-. simpl. by rewrite Es, Er.
    + intros Nc. rewrite Ci, decide_False by done. by eexists.
    + intros s d E' N. rewrite (cont_same f2 f') by done. rewrite (Cc s d E' N). by apply cont_same.
Qed.

End core.
