(* ===== verification/FsRefine.v ===== *)
(** * The file system as a whole

    The operations on names and open files ([filesys/filesys.c], [file.c]) act on
    an abstract file system: names that stand for inode numbers, the contents of
    each inode, and open files with their positions.  A file that is removed
    while it is open keeps its contents until it is closed.  [FS] relates the
    concrete state, with the layout of [FsCore] and the root directory, to the
    abstract one; [perform_refines]: every call returns, does what the abstract
    file system does, and keeps [FS]. *)

From S2P Require Import Prelude Machine Bytes FixedPoint Bitmap Block FsState InodeIo FreeMap Inode.
From S2P Require Import Directory Filesys FsCore.

Open Scope Z_scope.

Section refine.

Context {D : Type} `{BlockDev D}.
Implicit Types f : fs D.
Implicit Types L : gmap Z inode_disk.
Implicit Types N : gmap (list Z) Z.

(** ** The root directory *)

Definition ents f (d : inode_disk) : list (list Z) := entries f (mk_inode 0 0 false 0 d).

(** The names [N] are those of the root directory. *)
Record dir_inv f L N : Prop := {
  di_root : ∃ d, L !! ROOT_DIR_SECTOR = Some d ∧ names_ok (ents f d) ∧ unique (ents f d) ∧
    ∀ n s, N !! n = Some s ↔ binds (ents f d) n s;
  di_live : ∀ n s, N !! n = Some s → 2 ≤ s ∧ is_Some (L !! s) ∧ valid_name n;
  di_inj : ∀ n n' s, N !! n = Some s → N !! n' = Some s → n = n';
  di_removed : ∀ ino i, inodes f !! ino = Some i → 2 ≤ i_sector i →
    (removed i = true ↔ ∀ n, N !! n ≠ Some (i_sector i));
}.

(** Only the inode of the root directory and the open directories differ. *)
Record root_frame f f' : Prop := {
  rf_dev : fs_device f' = fs_device f;
  rf_map : free_map f' = free_map f;
  rf_file : free_map_file f' = free_map_file f;
  rf_files : files f' = files f;
  rf_brk : brk f ≤ brk f';
  rf_inodes : ∀ ino i, 2 ≤ i_sector i → inodes f' !! ino = Some i ↔ inodes f !! ino = Some i;
}.

Lemma root_frame_trans f f1 f2 : root_frame f f1 → root_frame f1 f2 → root_frame f f2.
Proof.
  intros [A1 A2 A3 A4 A5 A6] [B1 B2 B3 B4 B5 B6]. split; try congruence; [lia|].
  intros ino i Hs. by rewrite B6, A6.
Qed.

Lemma dir_inv_frame f f' L N : root_frame f f' → dir_inv f L N → dir_inv f' L N.
Proof.
  intros F [Ro Li In Re].
  assert (∀ d, ents f' d = ents f d) as Ee by (intros; unfold ents, entries, contents; by rewrite (rf_dev _ _ F)).
  split; [|done|done|].
  - destruct Ro as (d & E & ?). exists d. by rewrite Ee.
  - intros ino i Ei Hs. apply (Re ino i); [|done]. by apply (rf_inodes _ _ F).
Qed.

(** The root directory is open as [dp]. *)
Record root_open f (dp ino : Z) (i : inode) : Prop := {
  ro_null : dp ≠ NULL;
  ro_dir : dirs f !! dp = Some (mk_dir ino 0);
  ro_inode : inodes f !! ino = Some i;
  ro_sector : i_sector i = ROOT_DIR_SECTOR;
}.

Lemma dir_open_root_ok f L E : layout f L → heap f L E (files f) → is_Some (L !! ROOT_DIR_SECTOR) →
  ∃ f' dp ino i, dir_open_root f = Some (f', dp) ∧ heap f' L (ino :: E) (files f') ∧
    root_frame f f' ∧ root_open f' dp ino i.
Proof.
  intros Y Hp [d Ed]. unfold dir_open_root.
  destruct (inode_open_ok f L E (files f) ROOT_DIR_SECTOR d Y Hp Ed) as (f1 & ino & i & -> & Hp1 & O).
  cbn [mbind option_bind]. unfold dir_open, try_malloc. rewrite (h_mem _ _ _ _ Hp1).
  destruct O as [[O1 O2 O3 O4 O5 O6] Oi Os On Oo Old New].
  rewrite (proj2 (Z.eqb_neq _ _)) by done. cbn [negb andb new_addr].
  eexists _, (brk f1), ino, i. split; [done|].
  pose proof (cache_brk _ (h_cache _ _ _ _ Hp1)). split; [|split].
  - simpl. rewrite O4. destruct Hp1 as [M K Sb I Cn Dn R F Hh Mp]. split; try done.
    + eapply cache_brk_mono; [exact K|done|done|simpl; lia].
    + intros fp x Ex. destruct (F fp x Ex) as (? & ?). simpl. split; [lia|done].
  - split; simpl; try done; [lia|]. intros a j Hs. destruct (decide (a = ino)) as [->|Na]; [|by rewrite Oo].
    split.
    + intros Ej. rewrite Oi in Ej. injection Ej as <-. unfold ROOT_DIR_SECTOR in Os. lia.
    + intros Ej. pose proof (Old j Ej) as ->. simpl in Os. unfold ROOT_DIR_SECTOR in Os. lia.
  - split; simpl; [unfold NULL; lia|apply lookup_insert_eq|done|done].
Qed.

Lemma held_perm E E' ino : E ≡ₚ E' → held E ino = held E' ino.
Proof. intros P. unfold held. by rewrite P. Qed.

Lemma heap_perm f L E E' G : E ≡ₚ E' → heap f L E G → heap f L E' G.
Proof.
  intros P Hp. split; try apply Hp.
  - intros a j Ej. rewrite <-(held_perm E E') by done. by apply (h_cnt _ _ _ _ Hp).
  - intros a Ha. apply (h_held _ _ _ _ Hp). by rewrite P.
Qed.

Lemma dir_close_ok f L E dp ino i : layout f L → synced f L → heap f L (ino :: E) (files f) →
  root_open f dp ino i →
  ∃ f', dir_close f dp = Some f' ∧ layout f' L ∧ synced f' L ∧ heap f' L E (files f') ∧ root_frame f f'.
Proof.
  intros Y Sy Hp [Rn Rd Ri Rs]. unfold dir_close. rewrite (proj2 (Z.eqb_neq _ _)), Rd by done.
  cbn [mbind option_bind d_inode].
  assert (removed i = false) as Er.
  { apply not_true_iff_false. intros Er. pose proof (h_removed _ _ _ _ Hp ino i Ri Er).
    unfold ROOT_DIR_SECTOR in Rs. lia. }
  destruct (inode_close_ok f L E _ ino i Y Sy Hp Ri) as (f1 & L' & -> & Y1 & S1 & Hp1 & [Sz Cf Cfs Cd Cb Co Ci Cl Cc Cv]).
  cbn [mbind option_bind]. rewrite decide_False in Cl by (intros [_ ?]; congruence). subst L'.
  destruct (Cv Er) as [Ed Em].
  eexists. split; [done|]. split; [by eapply layout_same; [| |exact Y1]|].
  split; [by eapply synced_same; [| |exact S1]|]. split.
  - simpl. rewrite Cfs. destruct Hp1 as [M K Sb I Cn Dn R F Hh Mp]. split; try done.
    eapply cache_brk_mono; [exact K|done|done|simpl; lia].
  - split; simpl; try done; [lia|]. intros a j Hs. destruct (decide (a = ino)) as [->|Na]; [|by rewrite Co].
    split; intros Ej.
    + rewrite Ci in Ej. case_decide; [done|]. injection Ej as <-. simpl in Hs. unfold ROOT_DIR_SECTOR in Rs. lia.
    + rewrite Ri in Ej. injection Ej as <-. unfold ROOT_DIR_SECTOR in Rs. lia.
Qed.

(** The open root directory, as [Directory] sees it. *)
Lemma root_dir_ok f L E G N dp ino i : layout f L → heap f L E G → dir_inv f L N →
  root_open f dp ino i →
  dir_ok f dp i ∧ deny_write_cnt i = 0 ∧ L !! ROOT_DIR_SECTOR = Some (data i) ∧
  unique (entries f i) ∧ ∀ n s, N !! n = Some s ↔ binds (entries f i) n s.
Proof.
  intros Y Hp Di [Rn Rd Ri Rs]. pose proof (h_inodes _ _ _ _ Hp ino i Ri) as Ei. rewrite Rs in Ei.
  destruct (di_root _ _ _ Di) as (d & Ed & Nk & U & B). assert (d = data i) as -> by congruence.
  change (ents f (data i)) with (entries f i) in *.
  split; [|split; [|done]].
  - split; [done|by exists (mk_dir ino 0)|apply Hp|apply Y| |done].
    eapply disk_inode_ok; [by eapply (l_disk _ _ Y)|done].
  - eapply system_deny; [exact Hp|exact Ri|]. rewrite Rs. done.
Qed.

Definition name_chars (n : list Z) : Prop := Forall (λ x, 0 < x < 256) n.

(** Looking a name up. *)
Lemma root_lookup f L E G N dp ino i n : layout f L → heap f L E G → dir_inv f L N →
  root_open f dp ino i → name_chars n →
  ∃ r, lookup f dp n = Some (f, r) ∧
    match r with
    | Some (e, ofs) => N !! n = Some (e_sector e) ∧ names n e ∧
        ∃ k, entries f i !! k = Some e ∧ ofs = 20 * Z.of_nat k
    | None => N !! n = None
    end.
Proof.
  intros Y Hp Di Ro Hn. destruct (root_dir_ok f L E G N dp ino i Y Hp Di Ro) as (O & _ & _ & _ & B).
  rewrite (lookup_ok f dp i) by done. eexists. split; [done|].
  destruct (list_find (names n) (entries f i)) as [[k e]|] eqn:Ef; simpl.
  - apply list_find_Some in Ef as (Ek & Hne & _). split; [|split; [done|by exists k]].
    apply B. exists e. split; [by eapply list_elem_of_lookup_2|done].
  - destruct (N !! n) as [s|] eqn:En; [|done]. apply B in En. rewrite not_found in Ef. by destruct (Ef s).
Qed.

(** ** Open files *)

Record afile := mk_afile {
  af_ino : Z;
  af_pos : Z;
  af_deny : bool;
}.

(** The file [x] with the number of its inode. *)
Definition view f (x : file) : option afile :=
  i ← inodes f !! f_inode x; Some (mk_afile (i_sector i) (f_pos x) (deny_write x)).

Lemma view_root f f' L E fp x : root_frame f f' → heap f L E (files f) → files f !! fp = Some x →
  fp ≠ free_map_file f → view f' x = view f x.
Proof.
  intros F Hp Ex Nm. destruct (h_files _ _ _ _ Hp fp x Ex) as (_ & _ & i & Ei & Hi). unfold view.
  rewrite Ei. by rewrite (proj2 (rf_inodes _ _ F (f_inode x) i (Hi Nm)) Ei).
Qed.

Lemma view_opened f f' ino i s x : opened f f' ino i s → is_Some (inodes f !! f_inode x) →
  view f' x = view f x.
Proof.
  intros O [j Ej]. unfold view. rewrite Ej. destruct (decide (f_inode x = ino)) as [e|N].
  - rewrite e in *. rewrite (op_inode _ _ _ _ _ O). by rewrite (op_old _ _ _ _ _ O j Ej).
  - by rewrite (op_others _ _ _ _ _ O), Ej.
Qed.

Lemma dir_inv_opened f f' L N ino i s n : opened f f' ino i s → dir_inv f L N → N !! n = Some s →
  dir_inv f' L N.
Proof.
  intros [Fr Oi Os _ Oo Old New] [Ro Li In Re] En.
  assert (∀ d, ents f' d = ents f d) as Ee by (intros; unfold ents, entries, contents; by rewrite (fr_dev _ _ Fr)).
  split; [destruct Ro as (d & E & ?); exists d; by rewrite Ee|done|done|].
  intros a j Ej Hs. destruct (decide (a = ino)) as [->|Na].
  - rewrite Oi in Ej. injection Ej as <-. destruct (inodes f !! ino) as [i0|] eqn:E0.
    + rewrite (Old i0 eq_refl) in *. simpl in *. by apply (Re ino i0).
    + destruct (New eq_refl) as [Er _]. rewrite Er, Os. split; [done|]. intros Hn. by destruct (Hn n).
  - rewrite Oo in Ej by done. by apply (Re a j).
Qed.

(** ** The abstract file system *)

Record afs := mk_afs {
  a_names : gmap (list Z) Z;
  a_data : gmap Z (list Z);
  a_open : gmap Z afile;
}.
#[export] Instance afs_ctor : Ctor afs := λ σ, mk_afs (a_names σ) (a_data σ) (a_open σ).

(** [E] are the inodes that an operation on its way holds. *)
Record FS f L E (σ : afs) : Prop := {
  fs_layout : layout f L;
  fs_synced : synced f L;
  fs_heap : heap f L E (files f);
  fs_dir : dir_inv f L (a_names σ);
  fs_data : ∀ s, a_data σ !! s = if decide (2 ≤ s) then cont f <$> L !! s else None;
  fs_open : ∀ fp, a_open σ !! fp =
    if decide (fp = free_map_file f) then None else files f !! fp ≫= view f;
}.

(** An open file and its inode. *)
Lemma open_file f L E σ fp a : FS f L E σ → a_open σ !! fp = Some a →
  ∃ x i, fp ≠ free_map_file f ∧ fp ≠ NULL ∧ files f !! fp = Some x ∧
    inodes f !! f_inode x = Some i ∧ 2 ≤ i_sector i ∧ a = mk_afile (i_sector i) (f_pos x) (deny_write x) ∧
    L !! i_sector i = Some (data i) ∧ inode_ok f i ∧ a_data σ !! i_sector i = Some (cont f (data i)).
Proof.
  intros F Ea. rewrite (fs_open _ _ _ _ F) in Ea. case_decide as Nm; [done|].
  apply bind_Some in Ea as (x & Ex & Ea). unfold view in Ea. apply bind_Some in Ea as (i & Ei & Ea). injection Ea as <-.
  pose proof (fs_heap _ _ _ _ F) as Hp.
  destruct (h_files _ _ _ _ Hp fp x Ex) as (Hf & Hpos & j & Ej & Hj).
  assert (j = i) as -> by congruence. pose proof (h_inodes _ _ _ _ Hp _ i Ei) as Ed.
  exists x, i. split; [done|]. split; [unfold NULL; lia|]. do 5 (split; [by auto|]). split.
  { eapply disk_inode_ok; [by eapply (l_disk _ _ (fs_layout _ _ _ _ F))|done]. }
  rewrite (fs_data _ _ _ _ F), decide_True, Ed by auto. done.
Qed.

Lemma dir_inv_same f f' L N : (∀ d, L !! ROOT_DIR_SECTOR = Some d → ents f' d = ents f d) →
  inodes f' = inodes f → dir_inv f L N → dir_inv f' L N.
Proof.
  intros Ed Ei [Ro Li In Re]. split; try (done || by rewrite Ei).
  destruct Ro as (d & Hd & ?). exists d. by rewrite Ed.
Qed.

(** A step that leaves the device, the files and their inodes' numbers alone. *)
Lemma FS_same f f' L E E' σ : FS f L E σ → fs_device f' = fs_device f → free_map f' = free_map f →
  free_map_file f' = free_map_file f → files f' = files f →
  (∀ fp x, files f !! fp = Some x → fp ≠ free_map_file f → view f' x = view f x) →
  heap f' L E' (files f') → dir_inv f' L (a_names σ) → FS f' L E' σ.
Proof.
  intros F Ed Em Ef Efs V Hp Di. split; [| |done|done| |].
  - by eapply layout_same; [| |apply F].
  - by eapply synced_same; [| |apply F].
  - intros s. rewrite (fs_data _ _ _ _ F). case_decide; [|done]. destruct (L !! s) as [d|]; [|done]. simpl.
    by rewrite (cont_same f f').
  - intros fp. rewrite (fs_open _ _ _ _ F), Ef, Efs. case_decide as Nm; [done|].
    destruct (files f !! fp) as [x|] eqn:Ex; [|done]. simpl. by rewrite (V fp x).
Qed.

Lemma FS_frame f f' L E E' σ : FS f L E σ → root_frame f f' → heap f' L E' (files f') → FS f' L E' σ.
Proof.
  intros F R Hp. eapply FS_same; [exact F|apply R..| |done|].
  - intros fp x Ex Nm. eapply view_root; [done|apply F|done|done].
  - eapply dir_inv_frame; [done|apply F].
Qed.

Lemma FS_perm f L E E' σ : E ≡ₚ E' → FS f L E σ → FS f L E' σ.
Proof. intros P F. split; try apply F. eapply heap_perm; [done|apply F]. Qed.

(** Opening and closing the root directory. *)
Lemma root_enter f L E σ : FS f L E σ →
  ∃ f' dp ino i, dir_open_root f = Some (f', dp) ∧ FS f' L (ino :: E) σ ∧ root_frame f f' ∧
    root_open f' dp ino i.
Proof.
  intros F. destruct (di_root _ _ _ (fs_dir _ _ _ _ F)) as (d & Ed & _).
  destruct (dir_open_root_ok f L E (fs_layout _ _ _ _ F) (fs_heap _ _ _ _ F) ltac:(by eexists))
    as (f1 & dp & ino & i & Eo & Hp & R & O).
  exists f1, dp, ino, i. split; [done|]. split; [|done]. by eapply FS_frame.
Qed.

Lemma root_leave f L E σ dp ino i : FS f L (ino :: E) σ → root_open f dp ino i →
  ∃ f', dir_close f dp = Some f' ∧ FS f' L E σ ∧ root_frame f f'.
Proof.
  intros F O. destruct (dir_close_ok f L E dp ino i) as (f' & Ec & _ & _ & Hp & R); [apply F..|done|].
  exists f'. split; [done|]. split; [|done]. by eapply FS_frame.
Qed.

(** Opening the inode a name stands for. *)
Lemma name_open f L E σ n s dp rino ri : FS f L E σ → a_names σ !! n = Some s → root_open f dp rino ri →
  ∃ f' ino i, inode_open f s = Some (f', ino) ∧ FS f' L (ino :: E) σ ∧ opened f f' ino i s ∧
    root_open f' dp rino ri ∧ 2 ≤ s ∧ is_Some (L !! s).
Proof.
  intros F En O. destruct (di_live _ _ _ (fs_dir _ _ _ _ F) n s En) as (Hs & [d Ed] & _).
  destruct (inode_open_ok f L _ _ s d (fs_layout _ _ _ _ F) (fs_heap _ _ _ _ F) Ed) as (f2 & ino & i & Eo & Hp & Op).
  pose proof Op as [[R1 R2 R3 R4 R5 R6] Oi Os Onl Oo Old New].
  exists f2, ino, i. split; [done|]. split; [|split; [done|split; [|split; [done|by eexists]]]].
  - eapply FS_same; [exact F|done..| |by rewrite R4|].
    + intros fp x Ex Nm. eapply view_opened; [done|].
      destruct (h_files _ _ _ _ (fs_heap _ _ _ _ F) fp x Ex) as (_ & _ & j & Ej & _). by exists j.
    + eapply dir_inv_opened; [done|apply F|done].
  - destruct O as [O1 O2 O3 O4]. split; [done|by rewrite R5| |done]. rewrite Oo; [done|].
    intros ->. rewrite (Old ri O3) in Os. simpl in Os. unfold ROOT_DIR_SECTOR in O4. lia.
Qed.

(** Opening a file on an inode that is held. *)
Lemma FS_file f L E σ ino i : FS f L (ino :: E) σ → inodes f !! ino = Some i → 2 ≤ i_sector i →
  ∃ f' fp, file_open f ino = Some (f', fp) ∧ fp ≠ NULL ∧ a_open σ !! fp = None ∧
    FS f' L E (σ <| a_open ::= <[fp := mk_afile (i_sector i) 0 false]> |>).
Proof.
  intros [Y Sy Hp Di Fd Fo] Ei Hs. destruct (file_open_ok f L E ino i Hp Ei Hs) as (-> & Ef & Hp').
  pose proof (cache_brk _ (h_cache _ _ _ _ Hp)). eexists _, (brk f). split; [done|].
  split; [unfold NULL; lia|]. split; [rewrite Fo, Ef; by case_decide|]. split; [| |done| | |].
  - by eapply layout_same; [| |exact Y].
  - by eapply synced_same; [| |exact Sy].
  - by eapply (dir_inv_same f).
  - intros s. simpl. rewrite Fd. done.
  - intros q. simpl. destruct (decide (q = brk f)) as [->|Nq].
    + rewrite !lookup_insert_eq, decide_False; [simpl; unfold view; simpl; by rewrite Ei|].
      intros E1. destruct (h_map _ _ _ _ Hp) as (x & _ & Ex & _). congruence.
    + by rewrite !lookup_insert_ne, Fo by done.
Qed.

Lemma open_null f L E G : heap f L E G → file_open f NULL = Some (f, NULL).
Proof. intros Hp. unfold file_open, try_malloc. by rewrite (h_mem _ _ _ _ Hp). Qed.

Lemma dir_lookup_root f L E σ dp ino i n : FS f L E σ → root_open f dp ino i → name_chars n →
  dir_lookup f dp n = match a_names σ !! n with
                      | Some s => inode_open f s
                      | None => Some (f, NULL)
                      end.
Proof.
  intros F O Hn. unfold dir_lookup. rewrite ASSERT_true by (by apply negb_true_iff, Z.eqb_neq, O).
  cbn [mbind option_bind].
  destruct (root_lookup f L _ _ _ dp ino i n (fs_layout _ _ _ _ F) (fs_heap _ _ _ _ F) (fs_dir _ _ _ _ F) O Hn)
    as ([[e ofs]|] & -> & Hr); cbn [mbind option_bind]; [destruct Hr as [-> _]|rewrite Hr]; done.
Qed.

(** [filesys_open]. *)
Lemma open_refines f L σ n : FS f L [] σ → name_chars n →
  ∃ f' fp, filesys_open f n = Some (f', fp) ∧
    match a_names σ !! n with
    | Some s => fp ≠ NULL ∧ a_open σ !! fp = None ∧
        FS f' L [] (σ <| a_open ::= <[fp := mk_afile s 0 false]> |>)
    | None => fp = NULL ∧ FS f' L [] σ
    end.
Proof.
  intros F Hn. unfold filesys_open.
  destruct (root_enter f L [] σ F) as (f1 & dp & rino & ri & -> & F1 & _ & O1). cbn [mbind option_bind].
  rewrite (proj2 (Z.eqb_neq _ _)) by apply O1. cbn [negb].
  rewrite (dir_lookup_root f1 L _ σ dp rino ri) by done. destruct (a_names σ !! n) as [s|] eqn:En.
  - destruct (name_open f1 L _ σ n s dp rino ri F1 En O1) as (f2 & ino & i & -> & F2 & Op & O2 & Hs & _).
    cbn [mbind option_bind]. apply (FS_perm _ _ _ [rino; ino]) in F2; [|by apply Permutation_swap].
    destruct (root_leave f2 L _ σ dp rino ri F2 O2) as (f3 & -> & F3 & R3). cbn [mbind option_bind].
    pose proof (op_sector _ _ _ _ _ Op) as Es. rewrite <-Es in Hs.
    destruct (FS_file f3 L [] σ ino i F3) as (f4 & fp & E4 & ?); [|done|].
    { apply (rf_inodes _ _ R3); [done|apply Op]. }
    exists f4, fp. by rewrite <-Es.
  - cbn [mbind option_bind]. destruct (root_leave f1 L _ σ dp rino ri F1 O1) as (f2 & -> & F2 & _).
    cbn [mbind option_bind]. rewrite (open_null f2 L [] (files f2)) by apply F2. by exists f2, NULL.
Qed.

(** ** Names *)

(** How many files the root directory can hold. *)
Definition slots L : nat :=
  match L !! ROOT_DIR_SECTOR with Some d => Z.to_nat (id_length d / 20) | None => 0 end.

Lemma ents_cont f f' d : cont f' d = cont f d → ents f' d = ents f d.
Proof. intros E. unfold ents, entries. fold (cont f' d). fold (cont f d). by rewrite E. Qed.

(** Names are bound in different slots. *)
Lemma slots_used f L N d : L !! ROOT_DIR_SECTOR = Some d → names_ok (ents f d) → unique (ents f d) →
  (∀ n s, N !! n = Some s ↔ binds (ents f d) n s) → Forall (λ e, e_in_use e = true) (ents f d) →
  (slots L ≤ base.size N)%nat.
Proof.
  intros Ed Nk U B A. unfold slots. rewrite Ed.
  set (name := λ e : list Z, default [] (cstr (e_name e))).
  assert (∀ k e, ents f d !! k = Some e → names (name e) e) as Hn.
  { intros k e Ek. pose proof (proj1 (Forall_lookup _ _) A k e Ek) as Hu.
    destruct (proj1 (Forall_lookup _ _) Nk k e Ek Hu) as [n En]. split; [done|]. unfold name. by rewrite En. }
  assert (length (ents f d) = Z.to_nat (id_length d / 20)) as <- by apply length_entries.
  rewrite <-(length_fmap name), <-size_dom. apply submseteq_length, NoDup_submseteq.
  - apply NoDup_alt. intros k k' n. rewrite !list_lookup_fmap_Some.
    intros (e & -> & Ek) (e' & En & Ek'). eapply U; [exact Ek|exact Ek'|by eapply Hn|]. rewrite En. by eapply Hn.
  - intros n. rewrite list_elem_of_fmap. intros (e & -> & [k Ek]%list_elem_of_lookup).
    apply elem_of_elements, elem_of_dom. exists (e_sector e). apply B. exists e.
    split; [by eapply list_elem_of_lookup_2|]. split; [by eapply Hn|done].
Qed.

(** Writing to the data of the root directory. *)
Lemma root_write f L E σ i off c f' N' : FS f L E σ → L !! ROOT_DIR_SECTOR = Some (data i) → 0 ≤ off →
  off + Z.of_nat (length c) ≤ inode_length i → written_at f (device_ofs i off) c f' →
  dir_inv f' L N' → FS f' L E (σ <| a_names := N' |>).
Proof.
  intros [Y Sy Hp Di Fd Fo] Ed Ho Hc W Di'.
  destruct (write_data f L ROOT_DIR_SECTOR (data i) i off c f' Y Ed eq_refl Ho Hc W) as (Y' & _ & Oth & Sy' & dev & ->).
  split; [done|by apply Sy'|by apply (heap_device f L E _ dev (free_map f))|done| |done].
  intros s. simpl. rewrite Fd. case_decide as Hs; [|done]. destruct (L !! s) as [d|] eqn:Es; [|done]. simpl.
  rewrite Oth with (s' := s); [done|done|unfold ROOT_DIR_SECTOR; lia].
Qed.

(** The directory with one more binding. *)
Lemma dir_inv_bind f L N f' d k e0 e n dev : dir_inv f L N → f' = f <| fs_device := dev |> →
  L !! ROOT_DIR_SECTOR = Some d → ents f' d = <[k := e]> (ents f d) → ents f d !! k = Some e0 → e_in_use e0 = false →
  names n e → valid_name n → N !! n = None → 2 ≤ e_sector e → is_Some (L !! e_sector e) →
  (∀ n', N !! n' ≠ Some (e_sector e)) → (∀ ino i, inodes f !! ino = Some i → i_sector i ≠ e_sector e) →
  dir_inv f' L (<[n := e_sector e]> N).
Proof.
  intros [(d' & Ed' & Nk & U & B) Li In Re] -> Ed Ee Ek Hu Hn V Hno Hs Hl Hnn Hni.
  assert (d' = d) as -> by congruence.
  assert (∀ s, ¬ binds (ents f d) n s) as Hb by (intros s Hb; apply B in Hb; congruence). split.
  - exists d. split; [done|]. rewrite Ee. split; [by eapply names_ok_insert|]. split; [by eapply unique_insert|].
    intros n' s. rewrite (binds_insert _ _ e0 _ n) by done. rewrite <-B, lookup_insert_Some.
    split; [naive_solver|]. intros [E|[-> ->]]; [|by left]. right. split; [congruence|done].
  - intros n' s [(<- & <-)|(_ & E)]%lookup_insert_Some; [done|by apply Li].
  - intros n1 n2 s [(<- & <-)|(_ & E1)]%lookup_insert_Some [(<- & E2)|(_ & E2)]%lookup_insert_Some; try done.
    + by destruct (Hnn n2).
    + subst s. by destruct (Hnn n1).
    + by eapply In.
  - intros ino i Ei Hi. rewrite (Re ino i Ei Hi). pose proof (Hni ino i Ei) as Hne. split; intros Hr n' E.
    + apply lookup_insert_Some in E as [(_ & E)|(_ & E)]; [congruence|by apply (Hr n')].
    + apply (Hr n'). apply lookup_insert_Some. right. split; [congruence|done].
Qed.

Lemma invalid_name n : name_chars n → ¬ valid_name n →
  bool_decide (n = []) || (NAME_MAX <? Z.of_nat (length n)) = true.
Proof.
  intros Hn V. case_bool_decide as E; [done|]. apply Z.ltb_lt. unfold NAME_MAX.
  destruct (decide (length n ≤ 14)%nat); [|lia]. by destruct V.
Qed.

(** A new name for the inode at [s], in the root directory. *)
Lemma dir_add_root f L E σ e0 dp ino i n s : FS f L E σ → root_open f dp ino i → name_chars n →
  length e0 = 20%nat → Forall is_byte e0 → 2 ≤ s → is_Some (L !! s) →
  (∀ n', a_names σ !! n' ≠ Some s) → (∀ a j, inodes f !! a = Some j → i_sector j ≠ s) →
  ∃ f' ok, dir_add f e0 dp n s = Some (f', ok) ∧ (∃ dev, f' = f <| fs_device := dev |>) ∧
    if (ok : bool) then valid_name n ∧ a_names σ !! n = None ∧ FS f' L E (σ <| a_names ::= <[n := s]> |>)
    else FS f' L E σ ∧ (valid_name n → a_names σ !! n = None → slots L ≤ base.size (a_names σ))%nat.
Proof.
  intros F O Hn L0 B0 Hs [d Ed] Hnn Hni. pose proof F as [Y Sy Hp Di Fd Fo].
  destruct (root_dir_ok f L _ _ _ dp ino i Y Hp Di O) as (Ok & Hd & Er & U & B).
  assert (∃ dev, f = f <| fs_device := dev |>) as Hf by (exists (fs_device f); by destruct f).
  destruct (decide (valid_name n)) as [V|V].
  2:{ exists f, false. unfold dir_add. rewrite ASSERT_true by (by apply negb_true_iff, Z.eqb_neq, O).
      cbn [mbind option_bind]. by rewrite invalid_name. }
  destruct (a_names σ !! n) as [s0|] eqn:En.
  { exists f, false. rewrite (dir_add_exists f e0 dp i n s s0) by (done || by apply B). done. }
  assert (∀ s, ¬ binds (entries f i) n s) as Hb by (intros s' Hb; apply B in Hb; congruence).
  assert (is_u32 s) as Hu.
  { destruct (l_sector _ _ Y s d Ed) as [Hs' _]. destruct (block_u32 _ (l_dev _ _ Y)). unfold is_u32 in *. lia. }
  destruct (dir_add_ok f e0 dp i n s Ok Hd V Hu L0 B0 Hb) as (f' & e & -> & (dev & Ef & _) & Hne & <- & Ee & c & W & Hc).
  destruct (free_slot_bound (entries f i)) as [Hk Hfree]. set (k := free_slot (entries f i)) in *.
  eexists f', _. split; [done|]. split; [by exists dev|].
  change (entries f i) with (ents f (data i)) in *. change (entries f' i) with (ents f' (data i)) in *.
  case_bool_decide as Hlt.
  - split; [done|]. split; [done|]. destruct (Hfree Hlt) as (e1 & E1 & U1).
    eapply (root_write f L E σ i); [done|done| |done|done|]; [lia|].
    by eapply (dir_inv_bind f L (a_names σ) f' (data i) k e1 e n dev).
  - split.
    + replace σ with (σ <| a_names := a_names σ |>) by (by destruct σ).
      eapply (root_write f L E σ i); [done|done| |done|done|]; [lia|].
      eapply (dir_inv_same f); [|by rewrite Ef|done]. intros d' Ed'. assert (d' = data i) as -> by congruence.
      rewrite Ee. apply list_insert_ge. lia.
    + intros _ _. destruct (di_root _ _ _ Di) as (d' & Ed' & Nk & _). assert (d' = data i) as -> by congruence.
      apply (slots_used f L _ (data i)); [done|done|done|done|]. by apply no_free_slot.
Qed.

(** ** Creation *)

(** A run of [n] free sectors. *)
Definition room f (n : Z) : Prop :=
  ∃ j, 0 ≤ j ∧ j + n ≤ Block.size (fs_device f) ∧ bit_run (free_map f) j n false.

Lemma remapped_ents f L f' d : remapped f L f' → L !! ROOT_DIR_SECTOR = Some d → ents f' d = ents f d.
Proof. intros R Ed. apply ents_cont. by eapply (rm_cont _ _ _ R). Qed.

(** The free map has changed. *)
Lemma FS_remap f f' L E σ : FS f L E σ → remapped f L f' → layout f' L → synced f' L → FS f' L E σ.
Proof.
  intros [Y Sy Hp Di Fd Fo] R Y' Sy'. pose proof R as [(dev & m & ->) _ Cs].
  split; [done|done|by eapply (remapped_heap f)| | |done].
  - eapply (dir_inv_same f); [|done|done]. intros d Ed. by eapply remapped_ents.
  - intros s. rewrite Fd. case_decide as Hs; [|done]. destruct (L !! s) as [d|] eqn:Es; [|done]. simpl.
    f_equal. symmetry. apply (Cs s d); [done|unfold FREE_MAP_SECTOR; lia].
Qed.

(** A new inode at [s], without a name. *)
Lemma FS_new f f' L E σ s d : FS f L E σ → remapped f L f' → L !! s = None → 2 ≤ s →
  layout f' (<[s := d]> L) → synced f' (<[s := d]> L) →
  FS f' (<[s := d]> L) E (σ <| a_data ::= <[s := cont f' d]> |>).
Proof.
  intros [Y Sy Hp Di Fd Fo] R Hn Hs Y' Sy'. pose proof R as [(dev & m & ->) _ Cs].
  assert (∀ s' d', L !! s' = Some d' → <[s := d]> L !! s' = Some d') as Mono
    by (intros s' d' E'; rewrite lookup_insert_ne; [done|congruence]).
  split; [done|done| | | |done].
  - pose proof (heap_device f L E _ dev m Hp) as [M K Sb I Cn Dn Re Fl Hh Mp]. split; try done.
    intros a j Ej. by apply Mono, (I a j).
  - apply (dir_inv_same f (f <| fs_device := dev |> <| free_map := m |>) L) in Di; [|intros; by eapply remapped_ents|done]. destruct Di as [(dr & Er & ?) Li In Re].
    split; [exists dr; by auto| |done|done]. intros n s' En. destruct (Li n s' En) as (? & [d' Ed'] & ?). eauto.
  - intros s'. simpl. destruct (decide (s' = s)) as [->|Nq].
    + by rewrite !lookup_insert_eq, decide_True.
    + rewrite !lookup_insert_ne, Fd by done. case_decide; [|done]. destruct (L !! s') as [d'|] eqn:E'; [|done]. simpl.
      f_equal. symmetry. apply (Cs s' d'); [done|unfold FREE_MAP_SECTOR; lia].
Qed.

(** An inode without name and opener is forgotten. *)
Lemma FS_forget f L E σ s d c : FS f (<[s := d]> L) E (σ <| a_data ::= <[s := c]> |>) →
  L !! s = None → a_data σ !! s = None → 2 ≤ s → (∀ n, a_names σ !! n ≠ Some s) →
  (∀ a j, inodes f !! a = Some j → i_sector j ≠ s) → FS f L E σ.
Proof.
  intros [Y Sy Hp Di Fd Fo] Hn Ha Hs Hnn Hni.
  assert (∀ s', s' ≠ s → <[s := d]> L !! s' = L !! s') as Ne by (intros; by apply lookup_insert_ne).
  rewrite <-(delete_insert_id L s d) by done. split; [by apply layout_delete|by apply synced_delete; [unfold FREE_MAP_SECTOR; lia|]| | | |done].
  - destruct Hp as [M K Sb I Cn Dn Re Fl Hh Mp]. rewrite delete_insert_id by done. split; try done.
    intros a j Ej. rewrite <-Ne by (by eapply Hni). by eapply I.
  - rewrite delete_insert_id by done. destruct Di as [(dr & Er & ?) Li In Re].
    rewrite Ne in Er by (unfold ROOT_DIR_SECTOR; lia).
    split; [by exists dr| |done|done]. intros n s' En. destruct (Li n s' En) as (? & Hl & ?).
    rewrite Ne in Hl by (intros ->; by destruct (Hnn n)). done.
  - intros s'. rewrite delete_insert_id by done. destruct (decide (s' = s)) as [->|Nq].
    + rewrite Ha, Hn. by case_decide.
    + specialize (Fd s'). simpl in Fd. by rewrite lookup_insert_ne, Ne in Fd.
Qed.

Lemma root_open_same f f' dp ino i : dirs f' = dirs f → inodes f' = inodes f →
  root_open f dp ino i → root_open f' dp ino i.
Proof. intros Ed Ei [? ? ? ?]. split; by rewrite ?Ed, ?Ei. Qed.

Definition unowned L (s : Z) : Prop := ∀ s' d', L !! s' = Some d' → ¬ owns s' d' s.

Lemma unowned_new L s : unowned L s → L !! s = None.
Proof. intros Hs. destruct (L !! s) as [d|] eqn:Ed; [|done]. destruct (Hs s d Ed). by left. Qed.

Lemma FS_unnamed f L E σ s : FS f L E σ → L !! s = None → 2 ≤ s →
  a_data σ !! s = None ∧ (∀ n, a_names σ !! n ≠ Some s) ∧
  ∀ a j, inodes f !! a = Some j → i_sector j ≠ s.
Proof.
  intros F Hn Hs. split; [|split].
  - rewrite (fs_data _ _ _ _ F), Hn. by case_decide.
  - intros n En. destruct (di_live _ _ _ (fs_dir _ _ _ _ F) n s En) as (_ & [d Ed] & _). congruence.
  - intros a j Ej <-. pose proof (h_inodes _ _ _ _ (fs_heap _ _ _ _ F) a j Ej). congruence.
Qed.

(** A sector for an inode: not one of the two the file system has itself. *)
Lemma sector_new f L E σ : FS f L E σ →
  ∃ f' r, free_map_allocate f 1 = Some (f', r) ∧ FS f' L E σ ∧ remapped f L f' ∧
    match r with
    | Some s => 2 ≤ s < Block.size (fs_device f) ∧ bit (free_map f') s = true ∧ unowned L s ∧
        ∀ n, 0 ≤ n → room f (1 + n) → room f' n
    | None => ¬ room f 1
    end.
Proof.
  intros F. pose proof F as [Y Sy Hp Di _ _].
  destruct (free_map_allocate_ok f L 1 Y Sy (heap_map_open _ _ _ _ Hp) ltac:(lia)) as (f' & r & -> & Y' & Sy' & R & Hr).
  exists f', r. split; [done|]. split; [by eapply FS_remap|]. split; [done|]. destruct r as [s|].
  - destruct Hr as (H1 & H2 & Hf & Hfirst & Hb).
    assert (bit (free_map f) s = false) as Hs by (apply Hf; lia).
    assert (unowned L s) as Ho.
    { intros s' d' E' O. pose proof (l_used _ _ Y s' d' s E' O). congruence. }
    split; [|split; [|split; [done|]]].
    + destruct Sy as (d0 & E0 & _). destruct (di_root _ _ _ Di) as (d1 & E1 & _).
      assert (s ≠ 0) by (intros ->; by apply (Ho 0 d0 E0); left).
      assert (s ≠ 1) by (intros ->; by apply (Ho 1 d1 E1); left). lia.
    + rewrite Hb by done. unfold in_range. by rewrite (proj2 (Z.leb_le _ _)), (proj2 (Z.ltb_lt _ _)) by lia.
    + intros n Hn (j & Hj & Hj' & Hrun). rewrite <-(rm_size _ _ _ R) in Hj'.
      assert (s ≤ j) as Hsj.
      { destruct (decide (s ≤ j)); [done|]. destruct (Hfirst j); [lia|]. intros x Hx. apply Hrun. lia. }
      exists (j + 1). split; [lia|]. split; [lia|]. intros x Hx. rewrite Hb by lia.
      rewrite Hrun by lia. unfold in_range. rewrite (proj2 (Z.ltb_ge x (s + 1))) by lia. by rewrite andb_false_r.
  - destruct Hr as [_ Hno]. intros (j & Hj & Hj' & Hrun). by apply (Hno j).
Qed.

Lemma sector_release f L E σ s : FS f L E σ → 2 ≤ s < Block.size (fs_device f) →
  bit (free_map f) s = true → unowned L s →
  ∃ f', free_map_release f s 1 = Some f' ∧ FS f' L E σ ∧ remapped f L f'.
Proof.
  intros F Hs Hb Ho. pose proof F as [Y Sy Hp _ _ _].
  destruct (free_map_release_ok f L s 1 Y Sy (heap_map_open _ _ _ _ Hp)) as (f' & Er & Y' & Sy' & R & _); [lia..| | |].
  - intros x Hx. by assert (x = s) as -> by lia.
  - intros s' d' x E' O Hx. assert (x = s) as -> by lia. by apply (Ho s' d').
  - exists f'. split; [done|]. split; [|done]. by eapply FS_remap.
Qed.

Definition blocks (size : Z) : Z := (size + 511) / 512.

(** There is room for the file [n] of [size] bytes in a directory of [k] entries. *)
Definition can_create f (k : nat) (σ : afs) (n : list Z) (size : Z) : Prop :=
  valid_name n ∧ a_names σ !! n = None ∧ (base.size (a_names σ) < k)%nat ∧ room f (1 + blocks size).

Definition created (σ : afs) (n : list Z) (s size : Z) : afs :=
  σ <| a_data ::= <[s := replicate (Z.to_nat size) 0]> |> <| a_names ::= <[n := s]> |>.

(** The sector [s] can be released. *)
Definition spare f L (s : Z) : Prop :=
  2 ≤ s < Block.size (fs_device f) ∧ bit (free_map f) s = true ∧ unowned L s.

Lemma slots_new L s d : 2 ≤ s → slots (<[s := d]> L) = slots L.
Proof. intros Hs. unfold slots. by rewrite lookup_insert_ne by (unfold ROOT_DIR_SECTOR; lia). Qed.

(** The inode and the name, once there is a sector for it. *)
Lemma create_in f L E σ e0 dp ino i n size s : FS f L E σ → root_open f dp ino i → name_chars n →
  length e0 = 20%nat → Forall is_byte e0 → 0 ≤ size < 2 ^ 31 - 512 → spare f L s →
  ∃ f1 ok1, inode_create f s size = Some (f1, ok1) ∧
    if (ok1 : bool) then ∃ f' ok, dir_add f1 e0 dp n s = Some (f', ok) ∧ dirs f' = dirs f ∧ inodes f' = inodes f ∧
      if (ok : bool) then valid_name n ∧ a_names σ !! n = None ∧ ∃ d, FS f' (<[s := d]> L) E (created σ n s size)
      else FS f' L E σ ∧ spare f' L s ∧
        (valid_name n → a_names σ !! n = None → slots L ≤ base.size (a_names σ))%nat
    else f1 = f ∧ ¬ room f (blocks size).
Proof.
  intros F O Hn L0 B0 Hsz (Hs & Hb & Ho). pose proof F as [Y Sy Hp _ _ _].
  destruct (inode_create_ok f L s size Y Sy (heap_map_open _ _ _ _ Hp) Hsz ltac:(lia) Hb Ho) as (f1 & ok1 & -> & Hc).
  exists f1, ok1. split; [done|]. destruct ok1.
  2:{ destruct Hc as [-> Hno]. split; [done|]. intros (j & ? & ? & ?). by apply (Hno j). }
  destruct Hc as (d & Hd & Y1 & Sy1 & Ec & R1). pose proof (unowned_new L s Ho) as Hnew.
  pose proof (FS_new f f1 L E σ s d F R1 Hnew (proj1 Hs) Y1 Sy1) as F1. rewrite Ec in F1.
  destruct (FS_unnamed f L E σ s F Hnew (proj1 Hs)) as (Ha & Hnn & Hni).
  pose proof R1 as [(dev1 & m1 & E1) Sz1 _].
  assert (inodes f1 = inodes f) as Ei1 by (by rewrite E1). assert (dirs f1 = dirs f) as Ed1 by (by rewrite E1).
  destruct (dir_add_root f1 (<[s := d]> L) E _ e0 dp ino i n s F1) as (f' & ok & -> & (dev & Ef) & Hok);
    [by eapply root_open_same|done|done|done|lia|rewrite lookup_insert_eq; by eexists|done|by rewrite Ei1|].
  exists f', ok. split; [done|]. split; [by rewrite Ef|]. split; [by rewrite Ef|]. destruct ok.
  - destruct Hok as (V & En & F'). split; [done|]. split; [done|]. by exists d.
  - destruct Hok as [F' Hfull]. rewrite slots_new in Hfull by lia. split; [|split; [|done]].
    + eapply FS_forget; [exact F'|done|done|lia|done|]. rewrite Ef. simpl. by rewrite Ei1.
    + split; [|split; [|done]].
      * pose proof (l_cnt _ _ (fs_layout _ _ _ _ F')) as C'. pose proof (l_cnt _ _ Y1) as C1.
        assert (free_map f' = free_map f1) as Em by (by rewrite Ef). rewrite Em in C'. lia.
      * eapply (l_used _ _ (fs_layout _ _ _ _ F') s d); [apply lookup_insert_eq|by left].
Qed.

Lemma create_steps_ok f L E σ e0 dp ino i n size : FS f L E σ → root_open f dp ino i → name_chars n →
  length e0 = 20%nat → Forall is_byte e0 → 0 ≤ size < 2 ^ 31 - 512 →
  ∃ f' ok s, create_steps f e0 dp n size = Some (f', ok, s) ∧ dirs f' = dirs f ∧ inodes f' = inodes f ∧
    (if (ok : bool) then valid_name n ∧ a_names σ !! n = None ∧ 2 ≤ s ∧ a_data σ !! s = None ∧
       ∃ d, FS f' (<[s := d]> L) E (created σ n s size)
     else FS f' L E σ ∧ (s = 0 ∨ spare f' L s)) ∧
    (can_create f (slots L) σ n size → ok = true).
Proof.
  intros F O Hn L0 B0 Hsz. unfold create_steps. rewrite (proj2 (Z.eqb_neq _ _)) by apply O.
  assert (0 ≤ blocks size) by (unfold blocks; Z.to_euclidean_division_equations; lia).
  destruct (sector_new f L E σ F) as (f1 & r & -> & F1 & R1 & Hr). cbn [mbind option_bind].
  pose proof R1 as [(dev1 & m1 & E1) Sz1 _].
  assert (inodes f1 = inodes f) as Ei1 by (by rewrite E1). assert (dirs f1 = dirs f) as Ed1 by (by rewrite E1).
  destruct r as [s|].
  2:{ exists f1, false, 0. do 3 (split; [done|]). split; [by auto|]. intros (_ & _ & _ & (j & Hj & Hj' & Hrun)).
      destruct Hr. exists j. split; [done|]. split; [lia|]. intros x Hx. apply Hrun. lia. }
  destruct Hr as (Hs & Hb & Ho & Hroom). rewrite <-Sz1 in Hs.
  destruct (create_in f1 L E σ e0 dp ino i n size s F1) as (f2 & ok1 & -> & Hin);
    [by eapply root_open_same|done..|]. cbn [mbind option_bind]. destruct ok1; cbn [negb].
  - destruct Hin as (f' & ok & -> & Ed' & Ei' & Hok). cbn [mbind option_bind]. exists f', ok, s. split; [done|].
    split; [congruence|]. split; [congruence|]. destruct ok.
    + destruct Hok as (V & En & HF). split; [|done]. do 2 (split; [done|]). split; [lia|]. split; [|done].
      apply (FS_unnamed f1 L E σ s F1); [by apply unowned_new|lia].
    + destruct Hok as (F' & Sp & Hfull). split; [by auto|]. intros (V & En & Hlt & _). specialize (Hfull V En). lia.
  - destruct Hin as [-> Hno]. exists f1, false, s. do 3 (split; [done|]). split; [split; [done|by right]|].
    intros (_ & _ & _ & Hr). destruct Hno. by apply Hroom.
Qed.

(** [filesys_create]. *)
Lemma create_refines f L σ e0 n size : FS f L [] σ → name_chars n →
  length e0 = 20%nat → Forall is_byte e0 → 0 ≤ size < 2 ^ 31 - 512 →
  ∃ f' ok L', filesys_create f e0 n size = Some (f', ok) ∧
    (if (ok : bool) then ∃ s, valid_name n ∧ a_names σ !! n = None ∧ 2 ≤ s ∧ a_data σ !! s = None ∧
       FS f' L' [] (created σ n s size) ∧ slots L' = slots L
     else FS f' L' [] σ ∧ L' = L) ∧
    (can_create f (slots L) σ n size → ok = true).
Proof.
  intros F Hn L0 B0 Hsz. unfold filesys_create.
  destruct (root_enter f L [] σ F) as (f1 & dp & ino & i & -> & F1 & R1 & O1). cbn [mbind option_bind].
  destruct (create_steps_ok f1 L _ σ e0 dp ino i n size F1 O1 Hn L0 B0 Hsz) as (f2 & ok & s & -> & Ed & Ei & Hok & Hcan).
  cbn [mbind option_bind]. apply (root_open_same f1 f2) in O1; [|done|done].
  assert (can_create f (slots L) σ n size → ok = true) as Hcan'.
  { intros (V & En & Hlt & (j & Hj)). apply Hcan. do 3 (split; [done|]). exists j.
    by rewrite (rf_dev _ _ R1), (rf_map _ _ R1). }
  destruct ok; cbn [negb andb mbind option_bind].
  - destruct Hok as (V & En & Hs & Ha & d & F2).
    destruct (root_leave f2 _ _ _ dp ino i F2 O1) as (f3 & -> & F3 & _). cbn [mbind option_bind].
    exists f3, true, (<[s := d]> L). split; [done|]. split; [|done]. exists s. do 5 (split; [done|]). by apply slots_new.
  - destruct Hok as (F2 & [->|(Hs & Hb & Ho)]).
    + cbn [Z.eqb negb mbind option_bind].
      destruct (root_leave f2 _ _ _ dp ino i F2 O1) as (f3 & -> & F3 & _). by exists f3, false, L.
    + rewrite (proj2 (Z.eqb_neq s 0)) by lia. cbn [negb].
      destruct (sector_release f2 L _ σ s F2 Hs Hb Ho) as (f3 & -> & F3 & R3). cbn [mbind option_bind].
      destruct (rm_state _ _ _ R3) as (dev & m & E3). apply (root_open_same f2 f3) in O1; [|by rewrite E3..].
      destruct (root_leave f3 _ _ _ dp ino i F3 O1) as (f4 & -> & F4 & _). by exists f4, false, L.
Qed.

(** ** Closing an inode *)

(** A name or an open file stands for the inode [s]. *)
Definition in_use (σ : afs) (s : Z) : Prop :=
  map_Exists (λ _ x, x = s) (a_names σ) ∨ map_Exists (λ _ a, af_ino a = s) (a_open σ).

#[export] Instance in_use_dec σ s : Decision (in_use σ s).
Proof. unfold in_use. apply _. Defined.

(** The contents of an inode that is not in use are gone. *)
Definition collect (σ : afs) (s : Z) : afs :=
  if decide (in_use σ s) then σ else σ <| a_data ::= delete s |>.

Lemma openers_none G ino : openers G ino = 0%nat ↔ ∀ fp x, G !! fp = Some x → f_inode x ≠ ino.
Proof.
  split; [|intros Hn; by apply count_none]. intros Hz fp x Ex Hx.
  pose proof (count_pos (λ x, f_inode x = ino) G fp x Ex Hx). unfold openers in Hz. lia.
Qed.

(** The open files of an inode. *)
Lemma opener f L E σ ino i q : FS f L E σ → inodes f !! ino = Some i → 2 ≤ i_sector i →
  (∃ a, a_open σ !! q = Some a ∧ af_ino a = i_sector i) ↔ ∃ x, files f !! q = Some x ∧ f_inode x = ino.
Proof.
  intros F Ei Hs. pose proof (fs_heap _ _ _ _ F) as Hp. split.
  - intros (a & Ea & Es). destruct (open_file f L E σ q a F Ea) as (x & j & _ & _ & Ex & Ej & _ & -> & _).
    exists x. split; [done|]. by eapply (cache_sector _ (h_cache _ _ _ _ Hp) (f_inode x) ino j i).
  - intros (x & Ex & <-). rewrite (fs_open _ _ _ _ F), Ex. rewrite decide_False.
    + simpl. unfold view. rewrite Ei. simpl. by eexists.
    + intros ->. destruct (h_map _ _ _ _ Hp) as (x' & i' & Ex' & Ei' & Es' & _).
      assert (x' = x) as -> by congruence. assert (i' = i) as -> by congruence.
      unfold FREE_MAP_SECTOR in Es'. lia.
Qed.

Lemma FS_closed f L E0 σ f' L' E o ino i : FS f L E0 σ → inodes f !! ino = Some i → 2 ≤ i_sector i →
  layout f' L' → synced f' L' → heap f' L' E (files f') →
  (∀ a, a ≠ ino → inodes f' !! a = inodes f !! a) →
  (∀ j, inodes f' !! ino = Some j → i_sector j = i_sector i ∧ removed j = removed i) →
  L' = (if decide (open_cnt i = 1 ∧ removed i = true) then delete (i_sector i) L else L) →
  (∀ s d, L' !! s = Some d → s ≠ FREE_MAP_SECTOR → cont f' d = cont f d) →
  (∀ q, o !! q = if decide (q = free_map_file f') then None else files f' !! q ≫= view f') →
  (open_cnt i = 1 ↔ ∀ q a, o !! q = Some a → af_ino a ≠ i_sector i) →
  FS f' L' E (collect (σ <| a_open := o |>) (i_sector i)).
Proof.
  intros [_ _ _ Di Fd _] Ei Hs Y Sy Hp Oth Own EL Cs Fo Hlast.
  pose proof (di_removed _ _ _ Di ino i Ei Hs) as Hrem.
  assert (in_use (σ <| a_open := o |>) (i_sector i) ↔ ¬ (open_cnt i = 1 ∧ removed i = true)) as Hu.
  { rewrite Hrem, Hlast. unfold in_use. simpl. split.
    - intros [(n & s & En & ->)|(q & a & Ea & Es)] [Ho Hn]; [by apply (Hn n)|by apply (Ho q a)].
    - intros Hn. apply dec_stable. intros Hno. apply Hn. split.
      + intros q a Ea Es. apply Hno. right. by exists q, a.
      + intros n En. apply Hno. left. by exists n, (i_sector i). }
  assert (∀ s, s ≠ i_sector i → L' !! s = L !! s) as Ne
    by (intros s Hne; rewrite EL; case_decide; [by rewrite lookup_delete_ne|done]).
  assert (dir_inv f' L' (a_names σ)) as Di'.
  { destruct Di as [(d & Ed & Hd) Li In Re]. split; [| |done|].
    - exists d. assert (L' !! ROOT_DIR_SECTOR = Some d) as Ed' by (rewrite Ne; [done|unfold ROOT_DIR_SECTOR; lia]).
      split; [done|]. rewrite (ents_cont f f'); [done|]. by apply (Cs ROOT_DIR_SECTOR).
    - intros n s En. destruct (Li n s En) as (? & ? & ?). split; [done|]. split; [|done].
      rewrite EL. case_decide as Hc; [|done]. rewrite lookup_delete_ne; [done|]. intros <-.
      by apply (proj1 Hrem (proj2 Hc) n).
    - intros a j Ej Hj. destruct (decide (a = ino)) as [->|Na]; [|rewrite Oth in Ej by done; by apply (Re a)].
      destruct (Own j Ej) as [-> ->]. done. }
  assert (∀ s, 2 ≤ s → cont f' <$> L' !! s = cont f <$> L' !! s) as Cs'.
  { intros s Hs'. destruct (L' !! s) as [d|] eqn:Es; [|done]. simpl. f_equal. apply (Cs s d Es). unfold FREE_MAP_SECTOR. lia. }
  unfold collect. destruct (decide (in_use _ _)) as [Hc|Hc]; split; try done; intros s; simpl.
  - rewrite Fd. destruct (decide (2 ≤ s)); [|done]. rewrite Cs', EL, decide_False by (done || by apply Hu). done.
  - rewrite decide_True in EL by (apply dec_stable; by rewrite <-Hu). subst L'.
    destruct (decide (s = i_sector i)) as [->|Nq].
    + rewrite !lookup_delete_eq. by destruct (decide (2 ≤ _)).
    + rewrite !lookup_delete_ne, Fd by done. destruct (decide (2 ≤ s)); [|done].
      specialize (Cs' s). rewrite lookup_delete_ne in Cs' by done. by rewrite Cs'.
Qed.

(** ** Removal *)

Lemma not_in_use c n : e_in_use c = false → ¬ names n c.
Proof. intros Hu [Hc _]. congruence. Qed.

(** Clearing a slot takes away the binding of its name. *)
Lemma binds_clear es k e c n n' s : unique es → es !! k = Some e → names n e → e_in_use c = false →
  binds (<[k := c]> es) n' s ↔ binds es n' s ∧ n' ≠ n.
Proof.
  intros U Ek Hn Hu. split.
  - intros (e' & [j Hj]%list_elem_of_lookup & Hn' & Hs).
    apply list_lookup_insert_Some in Hj as [(_ & -> & _)|(Nj & Hj)]; [by destruct (not_in_use _ _ Hu Hn')|].
    split; [exists e'; split; [by eapply list_elem_of_lookup_2|done]|]. intros ->. apply Nj. by eapply (U k j e e' n).
  - intros [(e' & [j Hj]%list_elem_of_lookup & Hn' & Hs) Nn]. exists e'. split; [|done].
    apply list_elem_of_lookup. exists j. rewrite list_lookup_insert_ne; [done|]. intros ->.
    apply Nn. assert (e' = e) as -> by congruence. by eapply names_inj.
Qed.

Lemma unique_clear es k c : unique es → e_in_use c = false → unique (<[k := c]> es).
Proof.
  intros U Hu j j' e e' n Hj Hj' N1 N2.
  apply list_lookup_insert_Some in Hj as [(_ & -> & _)|(_ & Hj)]; [by destruct (not_in_use _ _ Hu N1)|].
  apply list_lookup_insert_Some in Hj' as [(_ & -> & _)|(_ & Hj')]; [by destruct (not_in_use _ _ Hu N2)|].
  by eapply U.
Qed.

(** The directory without a name, whose inode is marked. *)
Lemma dir_inv_unbind f f' L N d k e c n ino i : dir_inv f L N → cache_ok f → N !! n = Some (i_sector i) →
  L !! ROOT_DIR_SECTOR = Some d → ents f d !! k = Some e → names n e →
  ents f' d = <[k := c]> (ents f d) → e_in_use c = false → inodes f !! ino = Some i →
  inodes f' = <[ino := i <| removed := true |>]> (inodes f) → dir_inv f' L (delete n N).
Proof.
  intros [(d' & Ed' & Nk & U & B) Li In Re] K En Ed Ek Hn Ee Hu Ei Ei'. assert (d' = d) as -> by congruence. split.
  - exists d. split; [done|]. rewrite Ee. split; [apply Forall_insert; [done|congruence]|].
    split; [by apply unique_clear|]. intros n' s. rewrite (binds_clear _ _ e c n) by done.
    rewrite <-B, lookup_delete_Some. naive_solver.
  - intros n' s [_ E]%lookup_delete_Some. by apply Li.
  - intros n1 n2 s [_ E1]%lookup_delete_Some [_ E2]%lookup_delete_Some. by eapply In.
  - intros a j. rewrite Ei'. intros [(<- & <-)|(Na & Ej)]%lookup_insert_Some Hs; simpl in *.
    + split; [|done]. intros _ n' [Nn E]%lookup_delete_Some. apply Nn. by eapply In.
    + rewrite (Re a j Ej Hs). split; intros Hr n' E.
      * apply lookup_delete_Some in E as [_ E]. by apply (Hr n').
      * apply (Hr n'). apply lookup_delete_Some. split; [|done]. intros ->. apply Na.
        eapply (cache_sector _ K ino a i j); congruence.
Qed.

Lemma entry_bytes f i k e : block_ok (fs_device f) → inode_ok f i → entries f i !! k = Some e →
  length e = 20%nat ∧ Forall is_byte e.
Proof.
  intros B I Ek. pose proof (lookup_lt_Some _ _ _ Ek) as Hk. rewrite length_entries in Hk.
  pose proof (inode_len f i I). pose proof (entry_bound i k ltac:(lia) Hk).
  rewrite entries_lookup in Ek by done. injection Ek as <-. split.
  - apply length_slice. rewrite inode_contents_length by done. lia.
  - unfold slice. by apply Forall_take, Forall_drop, contents_bytes.
Qed.

Lemma mark_heap f L E ino i : heap f L E (files f) → inodes f !! ino = Some i → 2 ≤ i_sector i →
  heap (f <| inodes ::= <[ino := i <| removed := true |>]> |>) L E (files f).
Proof.
  intros Hp Ei Hs.
  eapply (heap_inode f L E _ E (files f) ino (i <| removed := true |>)); simpl; try done.
  - apply Hp.
  - eapply cache_update; [apply Hp|done|done|]. exact (cache_cnt _ (h_cache _ _ _ _ Hp) ino i Ei).
  - intros a Na. by rewrite lookup_insert_ne.
  - by rewrite lookup_insert_eq.
  - intros i0 E0. by assert (i0 = i) as -> by congruence.
  - exact (h_inodes _ _ _ _ Hp ino i Ei).
  - exact (h_cnt _ _ _ _ Hp ino i Ei).
  - exact (h_deny _ _ _ _ Hp ino i Ei).
Qed.

(** Clearing the entry of a name and marking its inode. *)
Lemma FS_unbind f L E σ rino ri n ino i k e : FS f L E σ → inodes f !! rino = Some ri →
  i_sector ri = ROOT_DIR_SECTOR → inodes f !! ino = Some i → a_names σ !! n = Some (i_sector i) →
  entries f ri !! k = Some e → names n e →
  ∃ f1, inode_write_at f rino (take 19 e ++ [0]) ENTRY_SIZE (20 * Z.of_nat k) = Some (f1, ENTRY_SIZE) ∧
    let f' := f1 <| inodes ::= <[ino := i <| removed := true |>]> |> in
    inodes f1 = inodes f ∧ dirs f1 = dirs f ∧ FS f' L E (σ <| a_names ::= delete n |>).
Proof.
  intros [Y Sy Hp Di Fd Fo] Eri Hr Ei En Ek Hn. pose proof (h_inodes _ _ _ _ Hp rino ri Eri) as Er. rewrite Hr in Er.
  pose proof (disk_inode_ok f (data ri) ri (l_disk _ _ Y _ _ Er) eq_refl) as I.
  assert (length e = 20%nat ∧ Forall is_byte e) as [Le Be] by exact (entry_bytes f ri k e (l_dev _ _ Y) I Ek).
  pose proof (lookup_lt_Some _ _ _ Ek) as Hk.
  destruct (write_entry f rino ri (take 19 e ++ [0]) k (h_mem _ _ _ _ Hp) (l_dev _ _ Y) Eri I)
    as (f1 & n1 & -> & En1 & _ & W & Hn1 & Hn2 & Ee).
  { eapply system_deny; [done..|]. rewrite Hr. done. }
  { rewrite length_app, length_take, Le. done. }
  { apply Forall_app. split; [by apply Forall_take|]. constructor; [unfold is_byte; lia|done]. }
  { lia. }
  rewrite bool_decide_true in En1 by done. apply Z.eqb_eq in En1 as ->. exists f1. split; [done|]. cbv zeta.
  destruct (write_data f L _ _ ri (20 * Z.of_nat k) (take (Z.to_nat ENTRY_SIZE) (take 19 e ++ [0])) f1 Y Er eq_refl
    ltac:(lia)) as (Y1 & _ & Oth & Sy1 & dev & ->); [rewrite length_take; unfold ENTRY_SIZE, inode_length in *; lia|done|].
  split; [done|]. split; [done|]. split.
  - by eapply layout_same; [| |exact Y1].
  - by eapply synced_same; [| |apply Sy1].
  - eapply (mark_heap (f <| fs_device := dev |>)); [by apply (heap_device f L E _ dev (free_map f))|done|].
    by destruct (di_live _ _ _ Di n _ En).
  - eapply (dir_inv_unbind f _ L (a_names σ) (data ri) k e (take 19 e ++ [0]) n ino i);
      [done|apply Hp|done|done|done|done|exact Ee| |done|done].
    unfold e_in_use. rewrite app_nth2; rewrite length_take, Le; done || lia.
  - intros s. simpl. rewrite Fd. case_decide as Hs; [|done]. destruct (L !! s) as [d|] eqn:Es; [|done]. simpl.
    f_equal. symmetry. apply (Oth s d Es). unfold ROOT_DIR_SECTOR. lia.
  - intros q. simpl. rewrite Fo. case_decide; [done|]. destruct (files f !! q) as [x|]; [|done]. simpl.
    unfold view. simpl. destruct (decide (f_inode x = ino)) as [->|Nx];
      [by rewrite lookup_insert_eq, Ei|by rewrite lookup_insert_ne].
Qed.

Lemma slots_live L L' s (P : Prop) `{!Decision P} : 2 ≤ s → L' = (if decide P then delete s L else L) →
  slots L' = slots L.
Proof.
  intros Hs ->. case_decide; [|done]. unfold slots.
  by rewrite lookup_delete_ne by (unfold ROOT_DIR_SECTOR; lia).
Qed.

(** Closing an inode that the operation has opened. *)
Lemma FS_inode_close f L E σ ino i : FS f L (ino :: E) σ → ino ∉ E → inodes f !! ino = Some i → 2 ≤ i_sector i →
  ∃ f' L', inode_close f ino = Some f' ∧ FS f' L' E (collect σ (i_sector i)) ∧ slots L' = slots L ∧
    dirs f' = dirs f ∧ ∀ a, a ≠ ino → inodes f' !! a = inodes f !! a.
Proof.
  intros F NE Ei Hs. pose proof F as [Y Sy Hp Di Fd Fo].
  destruct (inode_close_ok f L E _ ino i Y Sy Hp Ei) as (f' & L' & Ec & Y' & Sy' & Hp' & [_ Cf Cfs Cd _ Co Ci Cl Cc _]).
  exists f', L'. split; [done|].
  assert (open_cnt i = 1 ↔ ∀ q a, a_open σ !! q = Some a → af_ino a ≠ i_sector i) as Hl.
  { rewrite (h_cnt _ _ _ _ Hp ino i Ei), held_cons, decide_True by done. rewrite held_in in NE.
    assert (openers (files f) ino = 0%nat ↔ ∀ q a, a_open σ !! q = Some a → af_ino a ≠ i_sector i) as <-; [|lia].
    rewrite openers_none. split; intros Hn q x Ex Hx.
    - destruct (proj1 (opener f L _ σ ino i q F Ei Hs)) as (y & Ey & Hy); [by exists x|]. by apply (Hn q y).
    - destruct (proj2 (opener f L _ σ ino i q F Ei Hs)) as (a & Ea & Ha); [by exists x|]. by apply (Hn q a). }
  split; [|split; [by eapply slots_live|done]].
  replace σ with (σ <| a_open := a_open σ |>) by (by destruct σ). rewrite <-Cfs in Hp'.
  eapply (FS_closed f L (ino :: E) σ f' L' E (a_open σ) ino i); try done.
  - intros j Ej. rewrite Ci in Ej. destruct (decide (open_cnt i = 1)); [done|]. by injection Ej as <-.
  - intros q. rewrite Fo, Cf, Cfs. destruct (decide (q = _)); [done|]. destruct (files f !! q) as [x|] eqn:Ex; [|done]. simpl.
    unfold view. destruct (decide (f_inode x = ino)) as [Hx|Nx]; [|by rewrite Co]. rewrite Hx, Ci, Ei.
    destruct (decide (open_cnt i = 1)) as [Hc|]; [|done]. destruct (proj2 (opener f L _ σ ino i q F Ei Hs)) as (a & Ea & Ha); [by exists x|].
    by destruct (proj1 Hl Hc q a Ea).
Qed.

(** [dir_remove] in the root directory. *)
Lemma dir_remove_root f L σ dp rino ri n : FS f L [rino] σ → root_open f dp rino ri → name_chars n →
  ∃ f' ok L', dir_remove f dp n = Some (f', ok) ∧ slots L' = slots L ∧ root_open f' dp rino ri ∧
    match a_names σ !! n with
    | Some s => ok = true ∧ FS f' L' [rino] (collect (σ <| a_names ::= delete n |>) s)
    | None => ok = false ∧ FS f' L' [rino] σ
    end.
Proof.
  intros F O Hn. unfold dir_remove. rewrite ASSERT_true by (by apply negb_true_iff, Z.eqb_neq, O).
  cbn [mbind option_bind].
  destruct (root_lookup f L _ _ _ dp rino ri n (fs_layout _ _ _ _ F) (fs_heap _ _ _ _ F) (fs_dir _ _ _ _ F) O Hn)
    as ([[e ofs]|] & -> & Hr); cbn [mbind option_bind].
  2:{ exists f, false, L. by rewrite Hr. }
  destruct Hr as (En & Hne & k & Ek & ->). rewrite En.
  destruct (name_open f L _ σ n _ dp rino ri F En O) as (f1 & ino & i & -> & F1 & Op & O1 & Hs & _).
  pose proof Op as [Fr Oi Os Onl _ _ _]. rewrite <-Os in *. cbn [mbind option_bind].
  rewrite (proj2 (Z.eqb_neq _ _)) by done. rewrite (ro_dir _ _ _ _ O1). cbn [mbind option_bind d_inode].
  assert (rino ≠ ino) as Nr.
  { intros <-. pose proof (ro_inode _ _ _ _ O1) as E1. pose proof (ro_sector _ _ _ _ O1) as E2.
    assert (ri = i) as -> by congruence. unfold ROOT_DIR_SECTOR in E2. lia. }
  destruct (FS_unbind f1 L _ σ rino ri n ino i k e F1) as (f2 & -> & Ei2 & Ed2 & F2);
    [apply O1|apply O1|done|done| |done|].
  { unfold entries, contents in *. by rewrite (fr_dev _ _ Fr). }
  cbn [mbind option_bind]. rewrite Z.eqb_refl. cbn [negb].
  unfold inode_remove. rewrite Ei2, Oi. cbn [mbind option_bind].
  destruct (FS_inode_close _ L [rino] _ ino (i <| removed := true |>) F2) as (f3 & L' & -> & F3 & Hsl & Ed3 & Eo3);
    [by rewrite list_elem_of_singleton|simpl; apply lookup_insert_eq|done|].
  cbn [mbind option_bind]. exists f3, true, L'. split; [done|]. split; [done|]. split; [|done].
  destruct O1 as [Q1 Q2 Q3 Q4]. split; [done|by rewrite Ed3; simpl; rewrite Ed2| |done].
  rewrite Eo3 by done. simpl. by rewrite lookup_insert_ne, Ei2.
Qed.

(** [filesys_remove]. *)
Lemma remove_refines f L σ n : FS f L [] σ → name_chars n →
  ∃ f' ok L', filesys_remove f n = Some (f', ok) ∧ slots L' = slots L ∧
    match a_names σ !! n with
    | Some s => ok = true ∧ FS f' L' [] (collect (σ <| a_names ::= delete n |>) s)
    | None => ok = false ∧ FS f' L' [] σ
    end.
Proof.
  intros F Hn. unfold filesys_remove.
  destruct (root_enter f L [] σ F) as (f1 & dp & rino & ri & -> & F1 & _ & O1). cbn [mbind option_bind].
  rewrite (proj2 (Z.eqb_neq _ _)) by apply O1. cbn [negb].
  destruct (dir_remove_root f1 L σ dp rino ri n F1 O1 Hn) as (f2 & ok & L' & -> & Hsl & O2 & Hr). cbn [mbind option_bind].
  destruct (a_names σ !! n) as [s|]; destruct Hr as [-> F2];
    destruct (root_leave f2 L' _ _ dp rino ri F2 O2) as (f3 & -> & F3 & _); eexists f3, _, L'; done.
Qed.

(** ** Open files *)

Lemma shared_cnt f L E q y fp x i : heap f L E (files f) → files f !! q = Some y → files f !! fp = Some x →
  q ≠ fp → f_inode y = f_inode x → inodes f !! f_inode x = Some i → open_cnt i ≠ 1.
Proof.
  intros Hp Ey Ex Nq Hy Ei. rewrite (h_cnt _ _ _ _ Hp _ i Ei). unfold openers.
  rewrite (count_delete _ (files f) fp x Ex), decide_True by done.
  pose proof (count_pos (λ z, f_inode z = f_inode x) (delete fp (files f)) q y) as Hq.
  rewrite lookup_delete_ne in Hq by done. specialize (Hq Ey Hy). lia.
Qed.

(** [file_close]. *)
Lemma close_refines f L σ fp a : FS f L [] σ → a_open σ !! fp = Some a →
  ∃ f' L', file_close f fp = Some f' ∧ slots L' = slots L ∧
    FS f' L' [] (collect (σ <| a_open ::= delete fp |>) (af_ino a)).
Proof.
  intros F Ea. destruct (open_file f L [] σ fp a F Ea) as (x & i & Nm & _ & Ex & Ei & Hs & -> & _ & _ & _).
  pose proof F as [Y Sy Hp Di Fd Fo].
  destruct (file_close_ok f L [] fp x i Y Sy Hp Ex Ei Nm) as (f' & L' & Ec & Y' & Sy' & Hp' & [_ Cf Cfs _ Co Ci Csh Cl Cc]).
  exists f', L'. split; [done|]. split; [by eapply slots_live|]. simpl af_ino.
  change (σ <| a_open ::= delete fp |>) with (σ <| a_open := delete fp (a_open σ) |>).
  eapply (FS_closed f L [] σ f' L' [] _ (f_inode x) i); try done.
  - intros j Ej. by destruct (Ci j Ej) as (_ & ? & ?).
  - intros q. rewrite Cf, Cfs. destruct (decide (q = fp)) as [->|Nq].
    + rewrite !lookup_delete_eq. by destruct (decide (fp = _)).
    + rewrite !lookup_delete_ne, Fo by done. destruct (decide (q = _)) as [|Nm']; [done|].
      destruct (files f !! q) as [y|] eqn:Ey; [|done]. simpl. unfold view.
      destruct (decide (f_inode y = f_inode x)) as [Hy|Ny]; [|by rewrite Co]. rewrite Hy, Ei.
      destruct (Csh (shared_cnt f L [] q y fp x i Hp Ey Ex ltac:(done) Hy Ei)) as [j Ej].
      rewrite Ej. simpl. by destruct (Ci j Ej) as (_ & -> & _).
  - rewrite (h_cnt _ _ _ _ Hp _ i Ei). unfold openers.
    rewrite (count_delete _ (files f) fp x Ex), decide_True by done.
    assert (openers (delete fp (files f)) (f_inode x) = 0%nat ↔
      ∀ q a, delete fp (a_open σ) !! q = Some a → af_ino a ≠ i_sector i) as <-; [|unfold openers, held; simpl; lia].
    rewrite openers_none. split; intros Hn q y [Nq Ey]%lookup_delete_Some Hy.
    + destruct (proj1 (opener f L _ σ _ i q F Ei Hs)) as (z & Ez & Hz); [by exists y|].
      apply (Hn q z); [by rewrite lookup_delete_ne|done].
    + destruct (proj2 (opener f L _ σ _ i q F Ei Hs)) as (z & Ez & Hz); [by exists y|].
      apply (Hn q z); [by rewrite lookup_delete_ne|done].
Qed.

(** A file with other fields but the same inode. *)
Lemma FS_file_update f f' L E σ fp x y i a b : FS f L E σ → files f !! fp = Some x →
  inodes f !! f_inode x = Some i → a_open σ !! fp = Some a → f_inode y = f_inode x →
  b = mk_afile (i_sector i) (f_pos y) (deny_write y) →
  fs_device f' = fs_device f → free_map f' = free_map f → free_map_file f' = free_map_file f →
  files f' = <[fp := y]> (files f) → (∀ ino j, inodes f !! ino = Some j →
    ∃ j', inodes f' !! ino = Some j' ∧ i_sector j' = i_sector j ∧ removed j' = removed j) →
  (∀ ino, inodes f !! ino = None → inodes f' !! ino = None) →
  heap f' L E (files f') → FS f' L E (σ <| a_open ::= <[fp := b]> |>).
Proof.
  intros F Ex Ei Ea Ey -> Ed Em Ef Efs Is In Hp. pose proof F as [Y Sy _ Di Fd Fo].
  assert (fp ≠ free_map_file f) as Nm by (intros Hf; rewrite Fo, decide_True in Ea; done).
  split; [by eapply layout_same|by eapply synced_same|done| | |].
  - destruct Di as [(d & E1 & ?) Li Inj Re]. split; [|done|done|].
    + exists d. by rewrite (ents_cont f f' d (cont_same _ _ _ Ed)).
    + intros ino j Ej Hs. destruct (inodes f !! ino) as [j0|] eqn:E0; [|by rewrite In in Ej].
      destruct (Is ino j0 E0) as (j' & Ej' & Es & Er). assert (j' = j) as -> by congruence.
      rewrite Es in *. rewrite Er. by apply (Re ino).
  - intros s. simpl. rewrite Fd. case_decide; [|done]. destruct (L !! s) as [d|]; [|done]. simpl.
    by rewrite (cont_same f f').
  - intros q. simpl. rewrite Ef, Efs. destruct (decide (q = fp)) as [->|Nq].
    + rewrite !lookup_insert_eq, decide_False by done. simpl. unfold view. rewrite Ey.
      destruct (Is _ _ Ei) as (j' & -> & Es & _). simpl. by rewrite Es.
    + rewrite !lookup_insert_ne, Fo by done. case_decide; [done|]. destruct (files f !! q) as [z|]; [|done]. simpl.
      unfold view. destruct (inodes f !! f_inode z) as [j|] eqn:Ej.
      * destruct (Is _ _ Ej) as (j' & -> & Es & _). simpl. by rewrite Es.
      * by rewrite In.
Qed.

#[export] Instance afile_ctor : Ctor afile := λ a, mk_afile (af_ino a) (af_pos a) (af_deny a).

Definition moved (σ : afs) (fp : Z) (a : afile) (p : Z) : afs :=
  σ <| a_open ::= <[fp := a <| af_pos := p |>]> |>.

Lemma FS_moved f L E σ fp a x p : FS f L E σ → a_open σ !! fp = Some a → files f !! fp = Some x →
  0 ≤ p < 2 ^ 31 → FS (f <| files ::= <[fp := x <| f_pos := p |>]> |>) L E (moved σ fp a p).
Proof.
  intros F Ea Ex Hp. destruct (open_file f L E σ fp a F Ea) as (x' & i & _ & _ & Ex' & Ei & _ & Ea' & _).
  assert (x' = x) as -> by congruence. rewrite Ea' at 1.
  eapply (FS_file_update f _ L E σ fp x (x <| f_pos := p |>) i a); try done.
  - intros ino j Ej. by exists j.
  - by apply heap_pos; [apply F| |].
Qed.

(** [file_seek], [file_tell] and [file_length]. *)
Lemma seek_refines f L σ fp a p : FS f L [] σ → a_open σ !! fp = Some a → 0 ≤ p < 2 ^ 31 →
  ∃ f', file_seek f fp p = Some f' ∧ FS f' L [] (moved σ fp a p).
Proof.
  intros F Ea Hp. destruct (open_file f L [] σ fp a F Ea) as (x & i & _ & Hn & Ex & _).
  unfold file_seek. rewrite !ASSERT_true by ((apply Z.leb_le; lia) || by apply negb_true_iff, Z.eqb_neq).
  cbn [mbind option_bind]. rewrite Ex. cbn [mbind option_bind].
  eexists. split; [done|]. by apply FS_moved.
Qed.

Lemma tell_refines f L σ fp a : FS f L [] σ → a_open σ !! fp = Some a →
  file_tell f fp = Some (af_pos a).
Proof.
  intros F Ea. destruct (open_file f L [] σ fp a F Ea) as (x & i & _ & Hn & Ex & _ & _ & -> & _).
  unfold file_tell. rewrite ASSERT_true by (by apply negb_true_iff, Z.eqb_neq). cbn [mbind option_bind]. by rewrite Ex.
Qed.

Lemma cont_length f L E σ i : FS f L E σ → inode_ok f i → Z.of_nat (length (cont f (data i))) = inode_length i.
Proof.
  intros F I. change (cont f (data i)) with (contents f i).
  rewrite inode_contents_length by (done || apply F). destruct I. lia.
Qed.

Lemma length_refines f L σ fp a : FS f L [] σ → a_open σ !! fp = Some a →
  ∃ c, a_data σ !! af_ino a = Some c ∧ file_length f fp = Some (Z.of_nat (length c)).
Proof.
  intros F Ea. destruct (open_file f L [] σ fp a F Ea) as (x & i & _ & Hn & Ex & Ei & _ & -> & _ & I & Ed).
  eexists. split; [exact Ed|]. rewrite (cont_length f L [] σ) by done.
  unfold file_length. rewrite ASSERT_true by (by apply negb_true_iff, Z.eqb_neq). cbn [mbind option_bind].
  rewrite Ex. cbn [mbind option_bind]. by rewrite Ei.
Qed.

(** [file_read]. *)
Lemma transfer_slice i size p (c : list Z) : Z.of_nat (length c) = inode_length i → 0 ≤ p →
  slice (Z.to_nat p) (Z.to_nat (transfer i size p)) c = take (Z.to_nat size) (drop (Z.to_nat p) c).
Proof.
  intros Hc Hp. unfold slice, transfer. apply list_eq. intros k. rewrite !lookup_take, lookup_drop.
  repeat case_decide; try done; [lia|]. symmetry. apply lookup_ge_None. lia.
Qed.

Lemma read_refines f L σ fp a size : FS f L [] σ → a_open σ !! fp = Some a →
  ∃ f' c, let got := take (Z.to_nat size) (drop (Z.to_nat (af_pos a)) c) in
    a_data σ !! af_ino a = Some c ∧ file_read f fp size = Some (f', got) ∧
    FS f' L [] (moved σ fp a (af_pos a + Z.of_nat (length got))).
Proof.
  intros F Ea. destruct (open_file f L [] σ fp a F Ea) as (x & i & _ & Hn & Ex & Ei & _ & -> & _ & I & Ed).
  destruct (h_files _ _ _ _ (fs_heap _ _ _ _ F) fp x Ex) as (_ & Hpos & _).
  eexists _, _. cbv zeta. split; [exact Ed|]. pose proof (cont_length f L [] σ i F I) as Hl.
  unfold file_read. rewrite Ex. cbn [mbind option_bind].
  rewrite (inode_read_at_ok f _ i) by (done || apply F). cbn [mbind option_bind af_pos].
  change (contents f i) with (cont f (data i)). rewrite transfer_slice by (done || lia).
  set (got := take _ _). split; [done|]. rewrite (Z.add_comm (f_pos x)).
  eapply (FS_moved f L [] σ fp _ x); [done|done|done|].
  unfold got. rewrite length_take, length_drop. destruct I as [_ Hi _]. lia.
Qed.

(** [file_write]. *)
Definition denied (σ : afs) (s : Z) : Prop :=
  map_Exists (λ _ a, af_ino a = s ∧ af_deny a = true) (a_open σ).

#[export] Instance denied_dec σ s : Decision (denied σ s).
Proof. unfold denied. apply _. Defined.

Lemma denied_iff f L E σ ino i : FS f L E σ → inodes f !! ino = Some i → 2 ≤ i_sector i →
  deny_write_cnt i = 0 ↔ ¬ denied σ (i_sector i).
Proof.
  intros F Ei Hs. pose proof (fs_heap _ _ _ _ F) as Hp. rewrite (h_deny _ _ _ _ Hp ino i Ei). unfold deniers. split.
  - intros Hz (q & a & Ea & Es & Hd). destruct (proj1 (opener f L E σ ino i q F Ei Hs)) as (x & Ex & Hx); [by exists a|].
    destruct (open_file f L E σ q a F Ea) as (x' & i' & _ & _ & Ex' & _ & _ & -> & _).
    assert (x' = x) as -> by congruence.
    pose proof (count_pos (λ x, f_inode x = ino ∧ deny_write x = true) (files f) q x Ex ltac:(done)). lia.
  - intros Hn. rewrite count_none; [done|]. intros q x Ex [Hx Hd]. apply Hn.
    destruct (proj2 (opener f L E σ ino i q F Ei Hs)) as (a & Ea & Ha); [by exists x|]. exists q, a. split; [done|].
    split; [done|]. destruct (open_file f L E σ q a F Ea) as (x' & i' & _ & _ & Ex' & _ & _ & -> & _).
    simpl. congruence.
Qed.

(** The bytes of [buffer] that fit into [c] at [p]. *)
Definition fitting (c buffer : list Z) (size p : Z) : list Z :=
  take (length c - Z.to_nat p) (take (Z.to_nat size) buffer).

Lemma transfer_fitting i size p c buffer : Z.of_nat (length c) = inode_length i → 0 ≤ p →
  0 ≤ size ≤ Z.of_nat (length buffer) →
  take (Z.to_nat (transfer i size p)) buffer = fitting c buffer size p ∧
  Z.of_nat (length (fitting c buffer size p)) = transfer i size p.
Proof.
  intros Hc Hp Hs. unfold fitting, transfer. split; [rewrite take_take; f_equal; lia|].
  rewrite !length_take. lia.
Qed.

Definition wrote_bytes (σ : afs) (fp : Z) (a : afile) (c w : list Z) : afs :=
  moved (σ <| a_data ::= <[af_ino a := splice (Z.to_nat (af_pos a)) w c]> |>) fp a (af_pos a + Z.of_nat (length w)).

Lemma written_empty f o o' f' : written_at f o [] f' → written_at f o' [] f'.
Proof. unfold written_at. by setoid_rewrite splice_nil. Qed.

Lemma FS_write f L E σ i p w f' : FS f L E σ → 2 ≤ i_sector i → L !! i_sector i = Some (data i) → 0 ≤ p →
  p + Z.of_nat (length w) ≤ inode_length i → written_at f (device_ofs i p) w f' →
  FS f' L E (σ <| a_data ::= <[i_sector i := splice (Z.to_nat p) w (cont f (data i))]> |>).
Proof.
  intros [Y Sy Hp Di Fd Fo] Hs Ed Hp0 Hw W.
  destruct (write_data f L _ _ i p w f' Y Ed eq_refl Hp0 Hw W) as (Y' & Ec & Oth & Sy' & dev & ->).
  split; [done|apply Sy'; [unfold FREE_MAP_SECTOR; lia|done]|by apply (heap_device f L E _ dev (free_map f))| | |done].
  - eapply (dir_inv_same f); [|done|done]. intros d Er. apply ents_cont, (Oth ROOT_DIR_SECTOR); [done|].
    unfold ROOT_DIR_SECTOR. lia.
  - intros s. simpl. destruct (decide (s = i_sector i)) as [->|Ns].
    + rewrite lookup_insert_eq, decide_True, Ed by done. simpl. by rewrite <-Ec.
    + rewrite lookup_insert_ne, Fd by done. case_decide; [|done]. destruct (L !! s) as [d|] eqn:Es; [|done]. simpl.
      f_equal. symmetry. by apply (Oth s d).
Qed.

Lemma inode_write_refines f L E σ ino i buffer size p : FS f L E σ → inodes f !! ino = Some i → 2 ≤ i_sector i →
  0 ≤ p < 2 ^ 31 → Forall is_byte buffer → 0 ≤ size ≤ Z.of_nat (length buffer) →
  let c := cont f (data i) in
  let w := if decide (denied σ (i_sector i)) then [] else fitting c buffer size p in
  ∃ f1, inode_write_at f ino buffer size p = Some (f1, Z.of_nat (length w)) ∧ files f1 = files f ∧
    FS f1 L E (σ <| a_data ::= <[i_sector i := splice (Z.to_nat p) w c]> |>) ∧ p + Z.of_nat (length w) < 2 ^ 31.
Proof.
  intros F Ei Hs Hp Hb Hz c w. pose proof F as [Y Sy Hh Di Fd Fo].
  pose proof (h_inodes _ _ _ _ Hh ino i Ei) as El.
  pose proof (disk_inode_ok f (data i) i (l_disk _ _ Y _ _ El) eq_refl) as I.
  pose proof (cont_length f L E σ i F I) as Hl. fold c in Hl. subst w. case_decide as Hd.
  - exists f. split; [|split; [done|split; [|simpl; lia]]].
    + unfold inode_write_at. rewrite Ei. cbn [mbind option_bind]. rewrite (proj2 (Z.eqb_neq _ _)); [done|].
      intros Hz0. by apply (denied_iff f L E σ ino i F Ei Hs) in Hz0.
    + rewrite splice_nil. replace (σ <| a_data ::= _ |>) with σ; [done|]. destruct σ as [N A O]. simpl.
      f_equal. symmetry. apply insert_id. specialize (Fd (i_sector i)). simpl in Fd.
      by rewrite Fd, decide_True, El.
  - destruct (transfer_fitting i size p c buffer Hl ltac:(lia) Hz) as [Et Ln].
    destruct (inode_write_at_ok f ino i buffer size p) as (f1 & -> & W);
      [apply Hh|apply Y|done|done|by apply (denied_iff f L E σ ino i)|done|done|done|].
    rewrite Et in W. exists f1. rewrite Ln. split; [done|]. split; [by destruct W as (b & -> & _)|].
    destruct I as [_ Hi _]. split; [|unfold transfer; lia].
    destruct (decide (p + Z.of_nat (length (fitting c buffer size p)) ≤ inode_length i)) as [Hle|Hgt].
    + eapply (FS_write f L E σ i); try done. lia.
    + assert (fitting c buffer size p = []) as Ew by (apply nil_length_inv; unfold transfer in Ln; lia).
      rewrite Ew in *. rewrite splice_nil, <-(splice_nil (Z.to_nat 0) c).
      eapply (FS_write f L E σ i 0 []); [done|done|done|done|simpl; lia|by eapply written_empty].
Qed.

Lemma write_refines f L σ fp a buffer size : FS f L [] σ → a_open σ !! fp = Some a →
  Forall is_byte buffer → 0 ≤ size ≤ Z.of_nat (length buffer) →
  ∃ f' c, let w := if decide (denied σ (af_ino a)) then [] else fitting c buffer size (af_pos a) in
    a_data σ !! af_ino a = Some c ∧ file_write f fp buffer size = Some (f', Z.of_nat (length w)) ∧
    FS f' L [] (wrote_bytes σ fp a c w).
Proof.
  intros F Ea Hb Hs. destruct (open_file f L [] σ fp a F Ea) as (x & i & _ & Hn & Ex & Ei & H2 & Eq & El & I & Ed).
  destruct (h_files _ _ _ _ (fs_heap _ _ _ _ F) fp x Ex) as (_ & Hpos & _).
  destruct (inode_write_refines f L [] σ (f_inode x) i buffer size (f_pos x)) as (f1 & Ew & Ef & F1 & Hw); [done..|].
  assert (af_ino a = i_sector i) as Es by (by rewrite Eq). assert (af_pos a = f_pos x) as Ep by (by rewrite Eq).
  unfold wrote_bytes. rewrite Es, Ep. eexists _, (cont f (data i)). cbv zeta. split; [done|].
  unfold file_write. rewrite Ex. cbn [mbind option_bind]. rewrite Ew. cbn [mbind option_bind].
  split; [done|]. rewrite (Z.add_comm (f_pos x)). apply FS_moved; [done|done|by rewrite Ef|lia].
Qed.

(** [file_deny_write] and [file_allow_write]. *)
Definition with_deny (σ : afs) (fp : Z) (a : afile) (v : bool) : afs :=
  σ <| a_open ::= <[fp := a <| af_deny := v |>]> |>.

Lemma flagged_refines f L σ fp a x i v n : FS f L [] σ → a_open σ !! fp = Some a → files f !! fp = Some x →
  inodes f !! f_inode x = Some i → heap (flagged f fp x i v n) L [] (files (flagged f fp x i v n)) →
  FS (flagged f fp x i v n) L [] (with_deny σ fp a v).
Proof.
  intros F Ea Ex Ei Hp. destruct (open_file f L [] σ fp a F Ea) as (x' & i' & _ & _ & Ex' & Ei' & _ & Ea' & _).
  assert (x' = x) as -> by congruence. assert (i' = i) as -> by congruence. rewrite Ea' at 1.
  eapply (FS_file_update f _ L [] σ fp x (x <| deny_write := v |>) i a); try done.
  - intros ino j Ej. simpl. destruct (decide (ino = f_inode x)) as [->|Ni].
    + rewrite lookup_insert_eq. eexists. split; [done|]. by assert (j = i) as -> by congruence.
    + rewrite lookup_insert_ne by done. by exists j.
  - intros ino En. simpl. rewrite lookup_insert_ne; [done|]. intros <-. congruence.
Qed.

Lemma with_deny_same σ fp a v : a_open σ !! fp = Some a → af_deny a = v → with_deny σ fp a v = σ.
Proof.
  intros Ea <-. destruct σ as [N A O]. unfold with_deny. simpl in *. f_equal. apply insert_id. rewrite Ea. by destruct a.
Qed.

Lemma deny_refines f L σ fp a : FS f L [] σ → a_open σ !! fp = Some a →
  ∃ f', file_deny_write f fp = Some f' ∧ FS f' L [] (with_deny σ fp a true).
Proof.
  intros F Ea. destruct (open_file f L [] σ fp a F Ea) as (x & i & Nm & _ & Ex & Ei & _ & Eq & _).
  destruct (file_deny_write_ok f L [] fp x i (fs_heap _ _ _ _ F) Ex Ei Nm) as (f' & -> & Hp & ->).
  eexists. split; [done|]. destruct (deny_write x) eqn:Ed; [|by apply flagged_refines].
  rewrite with_deny_same; [done|done|]. by rewrite Eq.
Qed.

Lemma allow_refines f L σ fp a : FS f L [] σ → a_open σ !! fp = Some a →
  ∃ f', file_allow_write f fp = Some f' ∧ FS f' L [] (with_deny σ fp a false).
Proof.
  intros F Ea. destruct (open_file f L [] σ fp a F Ea) as (x & i & Nm & _ & Ex & Ei & _ & Eq & _).
  destruct (file_allow_write_ok f L [] fp x i (fs_heap _ _ _ _ F) Ex Ei Nm) as (f' & -> & Hp & ->).
  eexists. split; [done|]. destruct (deny_write x) eqn:Ed; [by apply flagged_refines|].
  rewrite with_deny_same; [done|done|]. by rewrite Eq.
Qed.

(** [file_reopen]. *)
Lemma reopen_refines f L σ fp a : FS f L [] σ → a_open σ !! fp = Some a →
  ∃ f' q, file_reopen f fp = Some (f', q) ∧ q ≠ NULL ∧ a_open σ !! q = None ∧
    FS f' L [] (σ <| a_open ::= <[q := mk_afile (af_ino a) 0 false]> |>).
Proof.
  intros F Ea. destruct (open_file f L [] σ fp a F Ea) as (x & i & _ & _ & Ex & Ei & Hs & -> & _).
  unfold file_reopen. rewrite Ex. cbn [mbind option_bind].
  destruct (open_found f L [] _ _ i (fs_heap _ _ _ _ F) Ei) as (-> & Hp & Op). cbn [mbind option_bind af_ino].
  set (f1 := f <| inodes ::= _ |>) in *. set (i1 := i <| open_cnt ::= Z.succ |>) in *.
  assert (FS f1 L [f_inode x] σ) as F1.
  { eapply FS_same; [exact F|done..| |done|].
    - intros q y Ey _. eapply view_opened; [exact Op|].
      destruct (h_files _ _ _ _ (fs_heap _ _ _ _ F) q y Ey) as (_ & _ & j & Ej & _). by exists j.
    - destruct (fs_dir _ _ _ _ F) as [Ro Li In Re]. split; [done|done|done|].
      intros ino j. simpl. intros [(<- & <-)|(_ & Ej)]%lookup_insert_Some Hj; [by apply (Re (f_inode x) i)|by apply (Re ino)]. }
  by destruct (FS_file f1 L [] σ (f_inode x) i1 F1 (op_inode _ _ _ _ _ Op) Hs) as (f2 & q & ? & ?); eauto.
Qed.

(** ** Refinement *)

(** The operations on files; [garbage] is what an uninitialized directory entry
    on the stack of [dir_add] holds. *)
Inductive call :=
  | Create (garbage name : list Z) (size : Z)
  | Remove (name : list Z)
  | Open (name : list Z)
  | Reopen (fp : Z)
  | Close (fp : Z)
  | Read (fp size : Z)
  | Write (fp : Z) (buffer : list Z) (size : Z)
  | Seek (fp pos : Z)
  | Tell (fp : Z)
  | Length (fp : Z)
  | DenyWrite (fp : Z)
  | AllowWrite (fp : Z).

Inductive reply :=
  | RNone
  | RBool (ok : bool)
  | RFile (fp : Z)
  | RBytes (bs : list Z)
  | RInt (n : Z).

Definition perform f (c : call) : option (fs D * reply) :=
  match c with
  | Create e0 name size => '(f, ok) ← filesys_create f e0 name size; Some (f, RBool ok)
  | Remove name => '(f, ok) ← filesys_remove f name; Some (f, RBool ok)
  | Open name => '(f, fp) ← filesys_open f name; Some (f, RFile fp)
  | Reopen fp => '(f, q) ← file_reopen f fp; Some (f, RFile q)
  | Close fp => f ← file_close f fp; Some (f, RNone)
  | Read fp size => '(f, bs) ← file_read f fp size; Some (f, RBytes bs)
  | Write fp buffer size => '(f, n) ← file_write f fp buffer size; Some (f, RInt n)
  | Seek fp pos => f ← file_seek f fp pos; Some (f, RNone)
  | Tell fp => n ← file_tell f fp; Some (f, RInt n)
  | Length fp => n ← file_length f fp; Some (f, RInt n)
  | DenyWrite fp => f ← file_deny_write f fp; Some (f, RNone)
  | AllowWrite fp => f ← file_allow_write f fp; Some (f, RNone)
  end.

(** What a caller has to pass. *)
Definition valid (σ : afs) (c : call) : Prop :=
  match c with
  | Create e0 name size => length e0 = 20%nat ∧ Forall is_byte e0 ∧ name_chars name ∧ 0 ≤ size < 2 ^ 31 - 512
  | Remove name | Open name => name_chars name
  | Write fp buffer size => is_Some (a_open σ !! fp) ∧ Forall is_byte buffer ∧ 0 ≤ size ≤ Z.of_nat (length buffer)
  | Seek fp pos => is_Some (a_open σ !! fp) ∧ 0 ≤ pos < 2 ^ 31
  | Reopen fp | Close fp | Read fp _ | Tell fp | Length fp | DenyWrite fp | AllowWrite fp => is_Some (a_open σ !! fp)
  end.

(** What the abstract file system does; [can] says when there is room for a new
    file. *)
Inductive astep (can : list Z → Z → Prop) (σ : afs) : call → reply → afs → Prop :=
  | a_create e0 n size s : valid_name n → a_names σ !! n = None → 2 ≤ s → a_data σ !! s = None →
      astep can σ (Create e0 n size) (RBool true) (created σ n s size)
  | a_create_fails e0 n size : ¬ can n size → astep can σ (Create e0 n size) (RBool false) σ
  | a_remove n s : a_names σ !! n = Some s →
      astep can σ (Remove n) (RBool true) (collect (σ <| a_names ::= delete n |>) s)
  | a_remove_fails n : a_names σ !! n = None → astep can σ (Remove n) (RBool false) σ
  | a_opens n s fp : a_names σ !! n = Some s → fp ≠ NULL → a_open σ !! fp = None →
      astep can σ (Open n) (RFile fp) (σ <| a_open ::= <[fp := mk_afile s 0 false]> |>)
  | a_open_fails n : a_names σ !! n = None → astep can σ (Open n) (RFile NULL) σ
  | a_reopen fp a q : a_open σ !! fp = Some a → q ≠ NULL → a_open σ !! q = None →
      astep can σ (Reopen fp) (RFile q) (σ <| a_open ::= <[q := mk_afile (af_ino a) 0 false]> |>)
  | a_close fp a : a_open σ !! fp = Some a →
      astep can σ (Close fp) RNone (collect (σ <| a_open ::= delete fp |>) (af_ino a))
  | a_read fp a size c : a_open σ !! fp = Some a → a_data σ !! af_ino a = Some c →
      let got := take (Z.to_nat size) (drop (Z.to_nat (af_pos a)) c) in
      astep can σ (Read fp size) (RBytes got) (moved σ fp a (af_pos a + Z.of_nat (length got)))
  | a_write fp a buffer size c : a_open σ !! fp = Some a → a_data σ !! af_ino a = Some c →
      let w := if decide (denied σ (af_ino a)) then [] else fitting c buffer size (af_pos a) in
      astep can σ (Write fp buffer size) (RInt (Z.of_nat (length w))) (wrote_bytes σ fp a c w)
  | a_seek fp a pos : a_open σ !! fp = Some a → astep can σ (Seek fp pos) RNone (moved σ fp a pos)
  | a_tell fp a : a_open σ !! fp = Some a → astep can σ (Tell fp) (RInt (af_pos a)) σ
  | a_length fp a c : a_open σ !! fp = Some a → a_data σ !! af_ino a = Some c →
      astep can σ (Length fp) (RInt (Z.of_nat (length c))) σ
  | a_deny fp a : a_open σ !! fp = Some a → astep can σ (DenyWrite fp) RNone (with_deny σ fp a true)
  | a_allow fp a : a_open σ !! fp = Some a → astep can σ (AllowWrite fp) RNone (with_deny σ fp a false).

Ltac by_rule f L := eexists f, L, _, _; split; [done|]; split; [by econstructor|done].

(** Every call returns, as the abstract file system says. *)
Lemma perform_refines f L σ c : FS f L [] σ → valid σ c →
  ∃ f' L' r σ', perform f c = Some (f', r) ∧ astep (can_create f (slots L) σ) σ c r σ' ∧ FS f' L' [] σ' ∧
    slots L' = slots L.
Proof.
  intros F V. destruct c as [e0 n size|n|n|fp|fp|fp size|fp buffer size|fp pos|fp|fp|fp|fp]; cbn [valid perform] in *.
  - destruct V as (L0 & B0 & Hn & Hs).
    destruct (create_refines f L σ e0 n size F Hn L0 B0 Hs) as (f' & ok & L' & -> & Hok & Hcan). cbn [mbind option_bind].
    destruct ok.
    + destruct Hok as (s & V & En & H2 & Ha & F' & Hsl). by_rule f' L'.
    + destruct Hok as [F' ->]. eexists f', L, _, _. split; [done|]. split; [|done]. constructor.
      by intros ?%Hcan.
  - destruct (remove_refines f L σ n F V) as (f' & ok & L' & -> & Hsl & Hr). cbn [mbind option_bind].
    destruct (a_names σ !! n) as [s|] eqn:En; destruct Hr as [-> F'];
      by_rule f' L'.
  - destruct (open_refines f L σ n F V) as (f' & fp & -> & Hr). cbn [mbind option_bind].
    destruct (a_names σ !! n) as [s|] eqn:En.
    + destruct Hr as (Nf & Ef & F'). by_rule f' L.
    + destruct Hr as [-> F']. by_rule f' L.
  - destruct V as [a Ea]. destruct (reopen_refines f L σ fp a F Ea) as (f' & q & -> & Nq & Eq & F').
    by_rule f' L.
  - destruct V as [a Ea]. destruct (close_refines f L σ fp a F Ea) as (f' & L' & -> & Hsl & F').
    by_rule f' L'.
  - destruct V as [a Ea]. destruct (read_refines f L σ fp a size F Ea) as (f' & c & Ec & -> & F').
    by_rule f' L.
  - destruct V as ([a Ea] & Hb & Hs). destruct (write_refines f L σ fp a buffer size F Ea Hb Hs) as (f' & c & Ec & -> & F').
    by_rule f' L.
  - destruct V as [[a Ea] Hp]. destruct (seek_refines f L σ fp a pos F Ea Hp) as (f' & -> & F').
    by_rule f' L.
  - destruct V as [a Ea]. rewrite (tell_refines f L σ fp a F Ea).
    by_rule f L.
  - destruct V as [a Ea]. destruct (length_refines f L σ fp a F Ea) as (c & Ec & ->).
    by_rule f L.
  - destruct V as [a Ea]. destruct (deny_refines f L σ fp a F Ea) as (f' & -> & F').
    by_rule f' L.
  - destruct V as [a Ea]. destruct (allow_refines f L σ fp a F Ea) as (f' & -> & F').
    by_rule f' L.
Qed.

End refine.
