(* ===== verification/FsMount.v ===== *)
(** * Formatting and mounting

    [filesys_init] with and without [format], on a machine with empty memory: a
    formatted device holds the abstract file system without files, and a device
    that is mounted again holds what it held. *)

From S2P Require Import Prelude Machine Bytes FixedPoint Bitmap Block FsState InodeIo FreeMap Inode.
From S2P Require Import Directory Filesys FsCore FsRefine.

Open Scope Z_scope.

(** ** The free map in memory and on the disk *)

(** [b'] has the bits of [b]. *)
Definition same_bits (b b' : bitmap) : Prop :=
  tight b' ∧ bit_cnt b' = bit_cnt b ∧ length (bits b') = length (bits b) ∧
  ∀ x, 0 ≤ x < bit_cnt b → bit b' x = bit b x.

Lemma land_u32 w m : is_u32 w → is_u32 (Z.land w m).
Proof.
  intros [Hw Hu]. assert (0 ≤ Z.land w m) as Hn by (apply Z.land_nonneg; by left). split; [done|].
  eapply Z.le_lt_trans; [|exact Hu]. apply Z.ldiff_le; [done|]. apply Z.bits_inj'. intros n _.
  rewrite Z.ldiff_spec, Z.land_spec, Z.bits_0. by destruct (Z.testbit w n), (Z.testbit m n).
Qed.

(** What [bitmap_read] stores has the bits it reads. *)
Lemma masked_same b : tight b →
  same_bits b (b <| bits := alter (λ w, Z.land w (last_mask b)) (Z.to_nat ((bit_cnt b - 1) / 32)) (bits b) |>).
Proof.
  intros T. pose proof T as ([Wc Wl Ww] & Hc & L). split; [|split; [done|split; [apply length_alter|]]].
  - split; [|split; [done|by simpl; rewrite length_alter]]. split; simpl; [done|by rewrite length_alter|].
    apply Forall_alter; [done|]. intros w _ Hw. by apply land_u32.
  - intros x Hx. by apply masked_bits.
Qed.

Section mount.

Context {D : Type} `{BlockDev D}.
Implicit Types f g : fs D.
Implicit Types L : gmap Z inode_disk.

(** Nothing is open. *)
Record no_memory f : Prop := {
  nm_mem : mem_ok f;
  nm_list : open_inodes f = [];
  nm_inodes : inodes f = ∅;
  nm_files : files f = ∅;
  nm_brk : 0 < brk f;
}.

(** Only the free map's file is open. *)
Definition with_map f (d : inode_disk) : fs D :=
  f <| brk := Z.succ (Z.succ (brk f)) |> <| open_inodes := [brk f] |>
    <| inodes := {[brk f := mk_inode FREE_MAP_SECTOR 1 false 0 d]} |>
    <| files := {[Z.succ (brk f) := mk_file (brk f) 0 false]} |> <| free_map_file := Z.succ (brk f) |>.

Lemma with_map_heap f L d : no_memory f → L !! FREE_MAP_SECTOR = Some d →
  heap (with_map f d) L [] (files (with_map f d)).
Proof.
  intros [M Nl Ni Nf Nb] Ed.
  assert (∀ a j, inodes (with_map f d) !! a = Some j → a = brk f ∧ j = mk_inode FREE_MAP_SECTOR 1 false 0 d) as Hi
    by (intros a j; simpl; rewrite lookup_singleton_Some; naive_solver).
  assert (∀ P `{!∀ x, Decision (P x)}, count_of P (files (with_map f d)) = if decide (P (mk_file (brk f) 0 false)) then 1 else 0)%nat as Hc.
  { intros P HP. simpl. change {[?k := ?v]} with (<[k := v]> (∅ : gmap Z file)).
    rewrite count_insert by apply lookup_empty. rewrite (count_none P ∅) by done. case_decide; done. }
  split.
  - done.
  - split; simpl.
    + apply NoDup_singleton.
    + intros a. rewrite list_elem_of_singleton, lookup_singleton_is_Some. naive_solver.
    + intros a j [_ ->]%Hi. simpl. lia.
    + by intros a b j j' [-> _]%Hi [-> _]%Hi.
    + lia.
    + intros a [j [-> _]%Hi]. lia.
  - done.
  - by intros a j [-> ->]%Hi.
  - intros a j [-> ->]%Hi. unfold openers. rewrite Hc, decide_True by done. done.
  - intros a j [-> ->]%Hi. unfold deniers. rewrite Hc, decide_False by (by intros [_ ?]). done.
  - by intros a j [-> ->]%Hi.
  - intros q x. simpl. intros [<- <-]%lookup_singleton_Some. split; [simpl; lia|]. split; [simpl; lia|].
    eexists. simpl. split; [apply lookup_singleton_eq|done].
  - by intros a ?%elem_of_nil.
  - exists (mk_file (brk f) 0 false), (mk_inode FREE_MAP_SECTOR 1 false 0 d). simpl. by rewrite !lookup_singleton_eq.
Qed.

(** ** Opening the free map *)

Lemma open_map f g L d : no_memory f → layout g L → fs_device f = fs_device g → L !! FREE_MAP_SECTOR = Some d →
  ∃ f1 f2, inode_open f FREE_MAP_SECTOR = Some (f1, brk f) ∧ file_open f1 (brk f) = Some (f2, Z.succ (brk f)) ∧
    f2 <| free_map_file := Z.succ (brk f) |> = with_map f d.
Proof.
  intros [M Nl Ni Nf Nb] Y Ed El. destruct (l_sector _ _ Y _ d El) as [Hs Es].
  unfold inode_open. rewrite Nl. cbn [find_inode mbind option_bind]. unfold try_malloc. rewrite M. simpl.
  rewrite Ed, (block_read_ok _ FREE_MAP_SECTOR (encode_inode d) (l_dev _ _ Y)) by (done || lia).
  cbn [mbind option_bind]. rewrite (decode_disk g d (l_dev _ _ Y)) by (by eapply (l_disk _ _ Y)).
  eexists _, _. split; [done|]. split.
  - unfold file_open, try_malloc. simpl. rewrite M, (proj2 (Z.eqb_neq _ _)) by (unfold NULL; lia). done.
  - destruct f. unfold with_map. simpl in *. by subst.
Qed.

(** The free map is read from the disk, whatever it was before. *)
Lemma free_map_open_ok f g L : no_memory f → layout g L → synced g L → fs_device f = fs_device g →
  bit_cnt (free_map f) = bit_cnt (free_map g) → length (bits (free_map f)) = length (bits (free_map g)) →
  ∃ d b, L !! FREE_MAP_SECTOR = Some d ∧ free_map_open f = Some ((with_map f d) <| free_map := b |>) ∧
    same_bits (free_map g) b ∧ byte_cnt (bit_cnt b) ≤ id_length d ∧
    map_bytes b (take (4 * length (bits b)) (cont g d)).
Proof.
  intros Nm Y (d & El & Hl & ws & Ew & Uw & Lw & Bw) Ed Ec Eb.
  set (b0 := (free_map g) <| bits := ws |>).
  assert (tight b0) as T0.
  { destruct (l_map _ _ Y) as ([Wc Wl _] & Hc & L0). split; [|split; [done|simpl; by rewrite Lw]].
    split; simpl; [done|by rewrite Lw|done]. }
  destruct (masked_same b0 T0) as (T1 & Ec1 & El1 & B1). set (b1 := b0 <| bits := alter _ _ _ |>) in *.
  exists d, b1. split; [done|]. split; [|split; [|split]].
  - unfold free_map_open. destruct (open_map f g L d Nm Y Ed El) as (f1 & f2 & -> & Eo & Em).
    cbn [mbind option_bind]. rewrite Eo. cbn [mbind option_bind]. rewrite Em.
    pose proof (nm_brk _ Nm). rewrite (proj2 (Z.eqb_neq _ _)) by (unfold NULL; lia).
    rewrite (bitmap_read_ok (with_map f d) b0 (free_map (with_map f d)) _ (mk_inode FREE_MAP_SECTOR 1 false 0 d)); try done.
    + split; simpl; [|apply Nm|rewrite Ed; apply Y| |done|done].
      * exists (mk_file (brk f) 0 false). simpl. by rewrite !lookup_singleton_eq.
      * eapply disk_inode_ok; [|done]. eapply (disk_ok_size g); [simpl; by rewrite Ed|by eapply (l_disk _ _ Y)].
    + simpl. by rewrite Lw.
    + simpl. rewrite <-Ew, Lw. f_equal. unfold contents, cont. simpl. by rewrite Ed.
  - split; [done|]. split; [done|]. split; [by rewrite El1|]. intros x Hx. rewrite B1 by done. by apply Bw.
  - done.
  - rewrite El1. simpl. rewrite Lw. exists ws. split; [done|]. split; [done|]. split; [by rewrite El1|].
    intros x Hx. rewrite (B1 x Hx). done.
Qed.

(** A device with the inodes [L] is mounted. *)
Lemma mounted f g L N A : no_memory f → layout g L → synced g L → dir_inv g L N → fs_device f = fs_device g →
  bit_cnt (free_map f) = bit_cnt (free_map g) → length (bits (free_map f)) = length (bits (free_map g)) →
  (∀ s, A !! s = if decide (2 ≤ s) then cont g <$> L !! s else None) →
  ∃ f', free_map_open f = Some f' ∧ FS f' L [] (mk_afs N A ∅).
Proof.
  intros Nm Y Sy Di Ed Ec Eb HA.
  destruct (free_map_open_ok f g L Nm Y Sy Ed Ec Eb) as (d & b & El & -> & (Tb & Ecb & Elb & Bb) & Hl & Mb).
  set (f' := (with_map f d) <| free_map := b |>). exists f'. split; [done|].
  assert (fs_device f' = fs_device g) as Ed' by done. split.
  - split; rewrite ?Ed'; try apply Y; [done|simpl; rewrite Ecb; apply Y| |].
    + intros s r Er. eapply (disk_ok_size g); [by rewrite Ed'|by eapply (l_disk _ _ Y)].
    + intros s r x Er Hx. simpl. rewrite Bb; [by eapply (l_used _ _ Y)|by eapply (layout_nonneg g L)].
  - exists d. rewrite (cont_same g f') by done. done.
  - exact (heap_device _ L [] _ (fs_device f) b (with_map_heap f L d Nm El)).
  - destruct Di as [(r & Er & Hr) Li In _]. split; [exists r; by rewrite (ents_cont g f' r (cont_same _ _ _ Ed'))|done|done|].
    intros ino i. simpl. intros [<- <-]%lookup_singleton_Some Hs. simpl in Hs. unfold FREE_MAP_SECTOR in Hs. lia.
  - intros s. simpl. rewrite HA. case_decide; [|done]. destruct (L !! s) as [r|]; [|done]. simpl.
    by rewrite (cont_same g f').
  - intros q. simpl. rewrite lookup_empty. case_decide as Hq; [done|]. by rewrite lookup_singleton_ne by congruence.
Qed.

(** ** Initialization *)

(** Memory before [filesys_init]. *)
Record booted f : Prop := {
  bo_mem : mem_ok f;
  bo_inodes : inodes f = ∅;
  bo_files : files f = ∅;
  bo_brk : 0 < brk f;
}.

(** The storage that the free map of [n] sectors gets. *)
Definition map_storage (n : Z) (ws : list Z) : Prop :=
  Forall is_u32 ws ∧ Z.of_nat (length ws) = (n + 31) / 32.

(** Only the sectors of the free map and of the root directory are in use. *)
Definition initial_map (n : Z) (b : bitmap) : Prop :=
  tight b ∧ bit_cnt b = n ∧ ∀ x, 0 ≤ x < n → bit b x = (x =? 0) || (x =? 1).

Lemma free_map_init_ok f ws : let n := Block.size (fs_device f) in
  2 ≤ n < 2 ^ 29 → map_storage n ws →
  ∃ b, free_map_init f true (Some ws) = Some (f <| free_map := b |>) ∧ initial_map n b ∧
    length (bits b) = length ws.
Proof.
  intros n Hn [Uw Lw]. unfold free_map_init, bitmap_create.
  change (block_size (fs_device f)) with n.
  assert (wf (mk_bitmap n ws)) as W0.
  { split; simpl; [unfold is_u32; lia|Z.to_euclidean_division_equations; lia|done]. }
  destruct (bitmap_set_all_ok _ false W0) as (b0 & -> & (W1 & C1 & L1 & B1)). cbn [mbind option_bind] in *.
  cbn [bit_cnt bits] in C1, L1.
  destruct (bitmap_mark_ok b0 FREE_MAP_SECTOR W1) as (b1 & -> & (W2 & C2 & L2 & B2)); [rewrite C1; unfold FREE_MAP_SECTOR; lia|].
  cbn [mbind option_bind].
  destruct (bitmap_mark_ok b1 ROOT_DIR_SECTOR W2) as (b2 & -> & (W3 & C3 & L3 & B3)); [rewrite C2, C1; unfold ROOT_DIR_SECTOR; lia|].
  cbn [mbind option_bind]. exists b2. split; [done|]. split; [|congruence]. split; [|split; [congruence|]].
  - split; [done|]. rewrite C3, C2, C1, L3, L2, L1. split; [lia|done].
  - intros x Hx. rewrite B3, B2, B1 by lia. cbn [bit_cnt].
    rewrite (proj2 (in_range_spec 0 n x)) by lia. unfold FREE_MAP_SECTOR, ROOT_DIR_SECTOR.
    rewrite (Z.eqb_sym 1), (Z.eqb_sym 0). by destruct (x =? 0), (x =? 1).
Qed.

Lemma filesys_init_eq f dev b_ok blk format : filesys_init f (Some dev) b_ok blk format =
  (f ← free_map_init (inode_init (f <| fs_device := dev |>)) b_ok blk;
   f ← (if format : bool then do_format f else Some f); free_map_open f).
Proof. done. Qed.

Lemma booted_init f dev b : booted f → no_memory ((inode_init (f <| fs_device := dev |>)) <| free_map := b |>).
Proof. intros [M I Fs Bk]. by split. Qed.

(** The device of a file system, mounted again: every name and all contents are
    there. *)
Lemma remount_ok f g L E σ ws : FS g L E σ → booted f → map_storage (Block.size (fs_device g)) ws →
  ∃ f', filesys_init f (Some (fs_device g)) true (Some ws) false = Some f' ∧
    FS f' L [] (σ <| a_open := ∅ |>).
Proof.
  intros [Y Sy Hp Di Fd _] Bo Hw. rewrite filesys_init_eq.
  pose proof (l_map _ _ Y) as (_ & Hc & Hl). rewrite (l_cnt _ _ Y) in Hc, Hl.
  destruct (di_root _ _ _ Di) as (r & Er & _). destruct (l_sector _ _ Y _ r Er) as [Hr _].
  destruct (free_map_init_ok (inode_init (f <| fs_device := fs_device g |>)) ws) as (b & -> & (T & C & _) & Lb);
    [simpl; unfold ROOT_DIR_SECTOR in Hr; lia|done|].
  cbn [mbind option_bind].
  eapply (mounted _ g L (a_names σ) (a_data σ)); [by apply booted_init|done|done|done|done| | |done].
  - simpl. rewrite C, (l_cnt _ _ Y). done.
  - simpl. rewrite Lb. destruct Hw as [_ Lw]. lia.
Qed.

(** ** Formatting *)

(** [free_map_allocate] before the free map has a file. *)
Lemma allocate_unfiled f L n : layout f L → free_map_file f = NULL → 0 ≤ n → room f n →
  ∃ f' st, free_map_allocate f n = Some (f', Some st) ∧ layout f' L ∧ remapped f L f' ∧
    0 ≤ st ∧ st + n ≤ Block.size (fs_device f) ∧ bit_run (free_map f) st n false ∧
    (∀ j, 0 ≤ j < st → ¬ bit_run (free_map f) j n false) ∧
    ∀ x, 0 ≤ x → bit (free_map f') x = in_range st n x || bit (free_map f) x.
Proof.
  intros Y Hf Hn (j & Hj & Hjn & Hrun). pose proof (l_map _ _ Y) as T. pose proof T as (W & Hc & _).
  unfold free_map_allocate. rewrite <-(l_cnt _ _ Y) in *.
  destruct (bitmap_scan_and_flip_correct (free_map f) 0 n false W) as (b & r & -> & Hr & Hb);
    [lia|done|unfold BITMAP_ERROR; lia|]. cbn [mbind option_bind].
  destruct (Z.eqb_spec r BITMAP_ERROR) as [->|Nr]; cbn [negb].
  { destruct Hr as [(Hr & _)|(_ & Hr)]; [unfold BITMAP_ERROR in *; lia|]. destruct (Hr j); [lia|done]. }
  destruct Hr as [(Hr & Hrr & Hfst)|[? _]]; [|done]. pose proof Hb as (_ & Ec & El & Hbit).
  change (free_map_file (f <| free_map := b |>)) with (free_map_file f). rewrite Hf. cbn [Z.eqb NULL negb].
  assert (∀ x, 0 ≤ x → bit b x = in_range r n x || bit (free_map f) x) as Hb'
    by (intros x Hx; rewrite Hbit by done; by destruct (in_range r n x)).
  eexists _, r. split; [done|]. split; [|split; [|split; [lia|split; [lia|done]]]].
  - split; try apply Y; simpl; [by eapply tight_agrees|rewrite Ec; apply Y| |].
    + intros s d E. eapply (disk_ok_size f); [done|by eapply (l_disk _ _ Y)].
    + intros s d x E Hx. pose proof (layout_nonneg f L s d x Y E Hx). rewrite Hb', (l_used _ _ Y s d x E Hx) by lia.
      apply orb_true_r.
  - split; [|done|done]. exists (fs_device f), b. by destruct f.
Qed.

(** The state before the formatting. *)
Record unformatted f (n : Z) : Prop := {
  uf_mem : no_memory f;
  uf_file : free_map_file f = NULL;
  uf_dev : block_ok (fs_device f);
  uf_size : Block.size (fs_device f) = n;
  uf_map : initial_map n (free_map f);
}.

Lemma unformatted_layout f n : unformatted f n → layout f ∅.
Proof.
  intros [_ _ B Sz (T & C & _)]. split; try done. by rewrite C.
Qed.

(** The free map, its file and one more sector fit. *)
Lemma map_fits n : 4 ≤ n → 0 < (4 * ((n + 31) / 32) + 511) / 512 ∧ 3 + (4 * ((n + 31) / 32) + 511) / 512 ≤ n.
Proof. intros Hn. Z.to_euclidean_division_equations; lia. Qed.

(** The sector of the root directory is taken, and there is a free sector. *)
Definition root_room f (d : inode_disk) : Prop :=
  bit (free_map f) ROOT_DIR_SECTOR = true ∧ ¬ owns FREE_MAP_SECTOR d ROOT_DIR_SECTOR ∧ room f 1.

(** The inode of the free map. *)
Lemma map_inode_ok f n : unformatted f n → 4 ≤ n < 2 ^ 29 →
  ∃ f' d dev m, inode_create f FREE_MAP_SECTOR (byte_cnt n) = Some (f', true) ∧
    f' = f <| fs_device := dev |> <| free_map := m |> ∧ layout f' {[FREE_MAP_SECTOR := d]} ∧
    Block.size (fs_device f') = n ∧ id_length d = byte_cnt n ∧ root_room f' d.
Proof.
  intros U Hn. pose proof (unformatted_layout f n U) as Y. destruct U as [Nm Hf B Sz (T & C & Bi)].
  destruct (tight_sizes _ T) as (Eb & _ & Hb). pose proof T as (_ & _ & Lb). rewrite C in *.
  set (len := byte_cnt n) in *. assert (len = 4 * ((n + 31) / 32)) as Elen by (rewrite Eb, Lb; done).
  set (k := (len + 511) / 512). destruct (map_fits n ltac:(lia)) as [Hk0 Hk]. rewrite <-Elen in Hk0, Hk. fold k in Hk0, Hk.
  assert (bit_run (free_map f) 2 k false) as Hrun.
  { intros x Hx. rewrite Bi by lia. by rewrite (proj2 (Z.eqb_neq x 0)), (proj2 (Z.eqb_neq x 1)) by lia. }
  destruct (allocate_unfiled f ∅ k Y Hf ltac:(lia)) as (f1 & st & Ea & Y1 & R1 & Hst & Hsz & Hr & Hfst & Hbit).
  { exists 2. rewrite Sz. by split; [lia|split; [lia|]]. }
  assert (st ≤ 2) as Hs2 by (destruct (decide (st ≤ 2)); [done|]; destruct (Hfst 2); [lia|done]).
  assert (∀ x, x = 0 ∨ x = 1 → bit (free_map f) x = true) as H01
    by (intros x Hx; rewrite Bi by lia; destruct Hx as [->| ->]; done).
  destruct (inode_create_at f ∅ FREE_MAP_SECTOR len f1 st) as (f2 & Ecr & Y2 & _ & _ & R2 & M2);
    [done|apply Nm|rewrite Elen; Z.to_euclidean_division_equations; lia|rewrite Sz; unfold FREE_MAP_SECTOR; lia|
     apply H01; by left|done|done|done|done|done|done|done|done|].
  destruct (rm_state _ _ _ R2) as (dev & m & E2). exists f2, (new_disk st len), dev, m.
  do 3 (split; [done|]). split; [by rewrite (rm_size _ _ _ R2)|]. split; [done|].
  assert (∀ x, 0 ≤ x → bit (free_map f2) x = in_range st k x || bit (free_map f) x) as Hb2 by (by rewrite M2).
  split; [|split].
  - rewrite Hb2, H01 by (done || by right). apply orb_true_r.
  - intros [?|Hi]; [done|]. specialize (Hr ROOT_DIR_SECTOR Hi). rewrite H01 in Hr by (by right). done.
  - exists (2 + k). split; [lia|]. split; [rewrite (rm_size _ _ _ R2), Sz; lia|]. intros x Hx.
    assert (x = 2 + k) as -> by lia. rewrite Hb2, Bi by lia.
    rewrite (proj2 (Z.eqb_neq (2 + k) 0)), (proj2 (Z.eqb_neq (2 + k) 1)) by lia. rewrite orb_false_r.
    apply not_true_iff_false. rewrite in_range_spec. lia.
Qed.

(** After [free_map_create]: the free map is in its file. *)
Lemma free_map_create_ok f n : unformatted f n → 4 ≤ n < 2 ^ 29 →
  ∃ f' g d dev m, free_map_create f = Some f' ∧ no_memory g ∧
    f' = (with_map g d) <| fs_device := dev |> <| free_map := m |> ∧
    Block.size (fs_device f') = n ∧ layout f' {[FREE_MAP_SECTOR := d]} ∧
    synced f' {[FREE_MAP_SECTOR := d]} ∧ root_room f' d.
Proof.
  intros U Hn. destruct (map_inode_ok f n U Hn) as (g & d & dev & m & Ec & Eg & Y & Sg & Hl & (Hb & Ho & Hr)).
  destruct U as [Nm Hf B Sz (T & C & Bi)]. unfold free_map_create, bitmap_file_size. rewrite C, Ec.
  cbn [mbind option_bind negb].
  assert (no_memory g) as Ng by (rewrite Eg; by destruct Nm).
  destruct (open_map g g _ d Ng Y eq_refl ltac:(apply lookup_singleton_eq)) as (f1 & f2 & -> & Eo & Em).
  cbn [mbind option_bind]. rewrite Eo. cbn [mbind option_bind]. rewrite Em.
  pose proof (nm_brk _ Ng). rewrite (proj2 (Z.eqb_neq _ _)) by (unfold NULL; lia).
  assert (layout (with_map g d) {[FREE_MAP_SECTOR := d]}) as Yw by (by eapply (layout_same g)).
  pose proof (heap_map_open _ _ _ _ (with_map_heap g {[FREE_MAP_SECTOR := d]} d Ng ltac:(apply lookup_singleton_eq))) as Mo.
  destruct (store_map (with_map g d) {[FREE_MAP_SECTOR := d]} d (free_map g)) as (f' & Ew & Y' & Sy' & R' & M');
    [done|apply lookup_singleton_eq|rewrite Hl; simpl; rewrite (l_cnt _ _ Y), Sg; done|done|apply Y|done|done|apply Y|].
  assert ((with_map g d) <| free_map := free_map g |> = with_map g d) as Ef by (by destruct g).
  rewrite Ef in Ew. simpl in Ew |- *. rewrite Ew. cbn [mbind option_bind negb].
  destruct (rm_state _ _ _ R') as (dev' & m' & E'). exists f', g, d, dev', m'.
  split; [done|]. split; [done|]. split; [done|]. split; [by rewrite (rm_size _ _ _ R')|]. split; [done|]. split; [done|].
  destruct Hr as (j & Hj & Hj' & Hrun). split; [by rewrite M'|]. split; [done|].
  exists j. rewrite M', (rm_size _ _ _ R'). done.
Qed.

(** Closing the free map's file leaves nothing open. *)
Lemma close_map g d dev m : no_memory g → let f := (with_map g d) <| fs_device := dev |> <| free_map := m |> in
  ∃ f', free_map_close f = Some f' ∧ no_memory f' ∧ fs_device f' = dev ∧ free_map f' = m.
Proof.
  intros [M Nl Ni Nf Nb] f. unfold free_map_close, file_close. simpl.
  rewrite (proj2 (Z.eqb_neq _ _)) by (unfold NULL; lia). unfold file_allow_write.
  rewrite ASSERT_true by (apply negb_true_iff, Z.eqb_neq; unfold NULL; lia). simpl. rewrite lookup_singleton_eq. simpl.
  rewrite lookup_singleton_eq. simpl. unfold inode_close. rewrite (proj2 (Z.eqb_neq _ _)) by (unfold NULL; lia). simpl.
  rewrite lookup_singleton_eq. simpl. eexists. split; [done|]. split; [|done]. split; simpl.
  - done.
  - by rewrite filter_cons_False by (intros ?; done).
  - rewrite delete_insert_eq. apply delete_singleton_eq.
  - apply delete_singleton_eq.
  - lia.
Qed.

(** An empty directory. *)
Lemma ents_zero f d : cont f d = replicate (Z.to_nat (id_length d)) 0 → 0 ≤ id_length d →
  Forall (λ e, e_in_use e = false) (ents f d).
Proof.
  intros Ec Hd. apply Forall_lookup. intros k e Ek. pose proof (lookup_lt_Some _ _ _ Ek) as Hk.
  unfold ents in Ek, Hk. rewrite length_entries in Hk. rewrite entries_lookup in Ek by done. injection Ek as <-.
  fold (cont f d). rewrite Ec. unfold slice, e_in_use. rewrite drop_replicate, take_replicate.
  rewrite nth_lookup. destruct (replicate _ 0 !! 19%nat) as [y|] eqn:Ey; [|done].
  by apply lookup_replicate in Ey as [-> _].
Qed.

Lemma dir_inv_empty f L d : L !! ROOT_DIR_SECTOR = Some d → Forall (λ e, e_in_use e = false) (ents f d) →
  (∀ ino i, inodes f !! ino = Some i → i_sector i < 2) → dir_inv f L ∅.
Proof.
  intros Ed Hz Hi. assert (∀ k e n, ents f d !! k = Some e → ¬ names n e) as Hn.
  { intros k e n Ek. apply not_in_use. by apply (proj1 (Forall_lookup _ _) Hz k). }
  split; [|done|done|].
  - exists d. split; [done|]. split; [|split].
    + apply Forall_lookup. intros k e Ek Hu. pose proof (proj1 (Forall_lookup _ _) Hz k e Ek). simpl in *. congruence.
    + intros k k' e e' n Ek _ N1. by destruct (Hn k e n).
    + intros n s. rewrite lookup_empty. split; [done|]. intros (e & [k Ek]%list_elem_of_lookup & N1 & _). by destruct (Hn k e n).
  - intros ino i Ei Hs. specialize (Hi ino i Ei). lia.
Qed.

Lemma map_L d (d' : inode_disk) s : 2 ≤ s →
  (<[ROOT_DIR_SECTOR := d']> {[FREE_MAP_SECTOR := d]} : gmap Z inode_disk) !! s = None.
Proof.
  intros Hs. rewrite lookup_insert_ne, lookup_singleton_ne; [done|unfold FREE_MAP_SECTOR; lia|unfold ROOT_DIR_SECTOR; lia].
Qed.

(** [do_format] and [free_map_open]. *)
Lemma format_ok f n : unformatted f n → 4 ≤ n < 2 ^ 29 →
  ∃ f1 f' L, do_format f = Some f1 ∧ free_map_open f1 = Some f' ∧ FS f' L [] (mk_afs ∅ ∅ ∅) ∧ slots L = 16%nat.
Proof.
  intros U Hn. unfold do_format.
  destruct (free_map_create_ok f n U Hn) as (f1 & g & d & dev & m & -> & Ng & E1 & S1 & Y1 & Sy1 & (Hb & Ho & Hr)).
  cbn [mbind option_bind]. pose proof (lookup_singleton_eq FREE_MAP_SECTOR d) as El.
  assert (map_open f1 {[FREE_MAP_SECTOR := d]}) as Mo.
  { rewrite E1. eapply heap_map_open, (heap_device _ _ [] _ dev m), with_map_heap; done. }
  unfold dir_create. destruct (inode_create_ok f1 _ ROOT_DIR_SECTOR (16 * ENTRY_SIZE) Y1 Sy1 Mo) as (f2 & ok & -> & Hok);
    [done|rewrite S1; unfold ROOT_DIR_SECTOR; lia|done|by intros s' d' [<- <-]%lookup_singleton_Some|].
  cbn [mbind option_bind]. destruct ok; cbn [negb].
  2:{ destruct Hok as [_ Hno]. destruct Hr as (j & Hj & Hj' & Hrun). by destruct (Hno j). }
  destruct Hok as (d' & Hd & Y2 & Sy2 & C2 & R2). destruct (rm_state _ _ _ R2) as (dev2 & m2 & E2).
  assert (f2 = (with_map g d) <| fs_device := dev2 |> <| free_map := m2 |>) as Ef2 by (rewrite E2, E1; done).
  destruct (close_map g d dev2 m2 Ng) as (f3 & Ec & N3 & D3 & M3). rewrite <-Ef2 in Ec. rewrite Ec.
  exists f3. destruct (mounted f3 f2 _ ∅ ∅ N3 Y2 Sy2) as (f' & Eo & F').
  - eapply (dir_inv_empty _ _ d'); [apply lookup_insert_eq|apply ents_zero; [by rewrite Hd|rewrite Hd; done]|].
    rewrite Ef2. simpl. by intros ino i [<- <-]%lookup_singleton_Some.
  - by rewrite D3, Ef2.
  - by rewrite M3, Ef2.
  - by rewrite M3, Ef2.
  - intros s. rewrite lookup_empty. case_decide; [|done]. by rewrite map_L.
  - eexists f', _. split; [done|]. split; [done|]. split; [exact F'|]. unfold slots.
    rewrite lookup_insert_eq, Hd. done.
Qed.

(** ** Correctness *)

(** Whatever happens next, [n] times: a call is made, chosen after the replies
    to the calls before, and returns, with the reply of the abstract file system
    [σ]; or the machine is switched off, the device is mounted again, and only
    the open files are gone. *)
Fixpoint simulates (k n : nat) f (σ : afs) : Prop :=
  match n with
  | O => True
  | S n =>
      (∀ c, valid σ c → ∃ f' r σ', perform f c = Some (f', r) ∧
         astep (can_create f k σ) σ c r σ' ∧ simulates k n f' σ') ∧
      (∀ g ws, booted g → map_storage (Block.size (fs_device f)) ws →
         ∃ f', filesys_init g (Some (fs_device f)) true (Some ws) false = Some f' ∧
           simulates k n f' (σ <| a_open := ∅ |>))
  end.

Lemma FS_simulates n : ∀ f L σ, FS f L [] σ → simulates (slots L) n f σ.
Proof.
  induction n as [|n IH]; intros f L σ F; [done|]. split.
  - intros c V. destruct (perform_refines f L σ c F V) as (f' & L' & r & σ' & Ep & St & F' & Hs).
    exists f', r, σ'. split; [done|]. split; [done|]. rewrite <-Hs. by apply IH.
  - intros g ws Bo Hw. destruct (remount_ok g f L [] σ ws F Bo Hw) as (f' & Ei & F'). exists f'. split; [done|].
    by apply IH.
Qed.

(** C3: formatting any device of at least 4 sectors succeeds and gives a file
    system without files, when memory is not short.  From there on, whatever
    valid calls of create, remove, open, reopen, close, read, write, seek, tell,
    length, deny and allow write are made, and whenever the machine is switched
    off between two calls and the device mounted again, every call returns and
    answers as the abstract file system does: names stand for sequences of
    bytes, a removed file lives on until it is closed, creation fails only for
    a bad or taken name, a full directory or want of space, and no contents are
    lost. *)
Theorem filesys_refines f dev ws : booted f → free_map_file f = NULL → block_ok dev →
  4 ≤ Block.size dev < 2 ^ 29 → map_storage (Block.size dev) ws →
  ∃ f', filesys_init f (Some dev) true (Some ws) true = Some f' ∧
    ∀ n, simulates 16 n f' (mk_afs ∅ ∅ ∅).
Proof.
  intros Bo Hf B Hs Hw. rewrite filesys_init_eq.
  destruct (free_map_init_ok (inode_init (f <| fs_device := dev |>)) ws) as (b & -> & Hb & _);
    [simpl; lia|done|]. cbn [mbind option_bind].
  destruct (format_ok ((inode_init (f <| fs_device := dev |>)) <| free_map := b |>) (Block.size dev)) as (f1 & f' & L & -> & Eo & F & <-).
  - split; [by apply booted_init|done|done|done|done].
  - done.
  - cbn [mbind option_bind]. exists f'. split; [done|]. intros n. by apply FS_simulates.
Qed.

End mount.

Lemma filesys_refines_witness :
  ∃ f', filesys_init (blank 8) (Some (fs_device (blank 8))) true (Some [204]) true = Some f' ∧
    ∀ n, simulates 16 n f' (mk_afs ∅ ∅ ∅).
Proof.
  apply (filesys_refines (blank 8) (fs_device (blank 8)) [204]).
  - by split.
  - reflexivity.
  - split; [|done|unfold is_u32; simpl; lia|done]. apply (Forall_replicate _ 8).
    split; [done|]. apply Forall_replicate. unfold is_byte. lia.
  - simpl. lia.
  - split; [repeat constructor; lia|reflexivity].
Defined.
