(* ===== verification/CString.v ===== *)
(** * Memory blocks and strings ([lib/string.c])

    The memory is a finite map from addresses to bytes; an access to an address
    that is not mapped is [None].  A loop over a string ends within the mapped
    memory, so [S (size m)] iterations are enough for it ([fuel]).  [block] and
    [cstring] say what the memory holds; the theorems describe the routines by
    them. *)

From S2P Require Import Prelude Machine.

Open Scope Z_scope.

Abbreviation memory := (gmap Z Z).

Definition store (m : memory) (a v : Z) : option memory :=
  _ ← m !! a; Some (<[a := v]> m).

Definition fuel (m : memory) : nat := S (size m).

(** [while (size-- > 0) *dst++ = *src++]. *)
Fixpoint copy_up (n : nat) (m : memory) (dst src : Z) : option memory :=
  match n with
  | O => Some m
  | S n =>
      c ← m !! src;
      m ← store m dst c;
      copy_up n m (dst + 1) (src + 1)
  end.

(** [while (size-- > 0) *--dst = *--src]. *)
Fixpoint copy_down (n : nat) (m : memory) (dst src : Z) : option memory :=
  match n with
  | O => Some m
  | S n =>
      c ← m !! (src - 1);
      m ← store m (dst - 1) c;
      copy_down n m (dst - 1) (src - 1)
  end.

Definition not_null (p size : Z) : bool := negb (p =? NULL) || (size =? 0).

Definition memcpy (m : memory) (dst src size : Z) : option (memory * Z) :=
  assert! not_null dst size;
  assert! not_null src size;
  m ← copy_up (Z.to_nat size) m dst src;
  Some (m, dst).

(** [memmove] returns the pointer it has advanced. *)
Definition memmove (m : memory) (dst src size : Z) : option (memory * Z) :=
  assert! not_null dst size;
  assert! not_null src size;
  if dst <? src then
    m ← copy_up (Z.to_nat size) m dst src;
    Some (m, dst + size)
  else
    m ← copy_down (Z.to_nat size) m (dst + size) (src + size);
    Some (m, dst).

Fixpoint memcmp_loop (n : nat) (m : memory) (a b : Z) : option Z :=
  match n with
  | O => Some 0
  | S n =>
      x ← m !! a;
      y ← m !! b;
      if negb (x =? y) then Some (if y <? x then 1 else -1)
      else memcmp_loop n m (a + 1) (b + 1)
  end.

Definition memcmp (m : memory) (a b size : Z) : option Z :=
  assert! not_null a size;
  assert! not_null b size;
  memcmp_loop (Z.to_nat size) m a b.

Fixpoint strcmp_loop (n : nat) (m : memory) (a b : Z) : option Z :=
  match n with
  | O => None
  | S n =>
      x ← m !! a;
      y ← m !! b;
      if negb (x =? 0) && (x =? y) then strcmp_loop n m (a + 1) (b + 1)
      else Some (if x <? y then -1 else if y <? x then 1 else 0)
  end.

Definition strcmp (m : memory) (a b : Z) : option Z :=
  assert! negb (a =? NULL);
  assert! negb (b =? NULL);
  strcmp_loop (fuel m) m a b.

Fixpoint memchr_loop (n : nat) (m : memory) (p ch : Z) : option Z :=
  match n with
  | O => Some NULL
  | S n => c ← m !! p; if c =? ch then Some p else memchr_loop n m (p + 1) ch
  end.

Definition memchr (m : memory) (p ch size : Z) : option Z :=
  assert! not_null p size;
  memchr_loop (Z.to_nat size) m p (ch mod 256).

Fixpoint strchr_loop (n : nat) (m : memory) (p ch : Z) : option Z :=
  match n with
  | O => None
  | S n =>
      c ← m !! p;
      if c =? ch then Some p
      else if c =? 0 then Some NULL
      else strchr_loop n m (p + 1) ch
  end.

Definition strchr (m : memory) (p ch : Z) : option Z :=
  assert! negb (p =? NULL);
  strchr_loop (fuel m) m p (ch mod 256).

(** The loop of [strcspn] and [strspn]: the length of the prefix whose characters
    are in [set] or not, as [want] says. *)
Fixpoint span_loop (n : nat) (m : memory) (p set : Z) (want : bool) (len : Z) : option Z :=
  match n with
  | O => None
  | S n =>
      c ← m !! (p + len);
      if c =? 0 then Some len
      else
        q ← strchr m set c;
        if eqb (negb (q =? NULL)) want then span_loop n m p set want (len + 1) else Some len
  end.

Definition strcspn (m : memory) (p stop : Z) : option Z := span_loop (fuel m) m p stop false 0.
Definition strspn (m : memory) (p skip : Z) : option Z := span_loop (fuel m) m p skip true 0.

Fixpoint strpbrk_loop (n : nat) (m : memory) (p stop : Z) : option Z :=
  match n with
  | O => None
  | S n =>
      c ← m !! p;
      if c =? 0 then Some NULL
      else
        q ← strchr m stop c;
        if negb (q =? NULL) then Some p else strpbrk_loop n m (p + 1) stop
  end.

Definition strpbrk (m : memory) (p stop : Z) : option Z := strpbrk_loop (fuel m) m p stop.

Fixpoint strrchr_loop (n : nat) (m : memory) (p ch found : Z) : option Z :=
  match n with
  | O => None
  | S n =>
      c ← m !! p;
      if c =? 0 then Some found
      else strrchr_loop n m (p + 1) ch (if c =? ch then p else found)
  end.

Definition strrchr (m : memory) (p ch : Z) : option Z := strrchr_loop (fuel m) m p (ch mod 256) NULL.

Fixpoint memset_loop (n : nat) (m : memory) (dst v : Z) : option memory :=
  match n with
  | O => Some m
  | S n => m ← store m dst v; memset_loop n m (dst + 1) v
  end.

Definition memset (m : memory) (dst v size : Z) : option (memory * Z) :=
  assert! not_null dst size;
  m ← memset_loop (Z.to_nat size) m dst (v mod 256);
  Some (m, dst).

Fixpoint strlen_loop (n : nat) (m : memory) (p len : Z) : option Z :=
  match n with
  | O => None
  | S n => c ← m !! p; if c =? 0 then Some len else strlen_loop n m (p + 1) (len + 1)
  end.

Definition strlen (m : memory) (p : Z) : option Z :=
  assert! negb (p =? NULL);
  strlen_loop (fuel m) m p 0.

(** At most [maxlen + 1] characters are looked at. *)
Fixpoint strnlen_loop (n : nat) (m : memory) (p maxlen len : Z) : option Z :=
  match n with
  | O => None
  | S n =>
      c ← m !! (p + len);
      if negb (c =? 0) && (len <? maxlen) then strnlen_loop n m p maxlen (len + 1)
      else Some len
  end.

Definition strnlen (m : memory) (p maxlen : Z) : option Z :=
  strnlen_loop (fuel m) m p maxlen 0.

Fixpoint strstr_loop (n : nat) (m : memory) (haystack needle needle_len i : Z) : option Z :=
  match n with
  | O => Some NULL
  | S n =>
      r ← memcmp m (haystack + i) needle needle_len;
      if r =? 0 then Some (haystack + i)
      else strstr_loop n m haystack needle needle_len (i + 1)
  end.

Definition strstr (m : memory) (haystack needle : Z) : option Z :=
  haystack_len ← strlen m haystack;
  needle_len ← strlen m needle;
  if needle_len <=? haystack_len then
    strstr_loop (Z.to_nat (haystack_len - needle_len + 1)) m haystack needle needle_len 0
  else Some NULL.

Definition strlcpy (m : memory) (dst src size : Z) : option (memory * Z) :=
  assert! negb (dst =? NULL);
  assert! negb (src =? NULL);
  src_len ← strlen m src;
  if 0 <? size then
    let dst_len := if src_len <? size - 1 then src_len else size - 1 in
    '(m, _) ← memcpy m dst src dst_len;
    m ← store m (dst + dst_len) 0;
    Some (m, src_len)
  else Some (m, src_len).

Definition strlcat (m : memory) (dst src size : Z) : option (memory * Z) :=
  assert! negb (dst =? NULL);
  assert! negb (src =? NULL);
  src_len ← strlen m src;
  dst_len ← strlen m dst;
  if (0 <? size) && (dst_len <? size) then
    let copy_cnt := if src_len <? size - dst_len - 1 then src_len else size - dst_len - 1 in
    '(m, _) ← memcpy m (dst + dst_len) src copy_cnt;
    m ← store m (dst + dst_len + copy_cnt) 0;
    Some (m, src_len + dst_len)
  else Some (m, src_len + dst_len).

(** The first loop of [strtok_r]: the start of the token, or the end of the
    string. *)
Fixpoint skip_delimiters (n : nat) (m : memory) (s delimiters : Z) : option (Z * bool) :=
  match n with
  | O => None
  | S n =>
      c ← m !! s;
      q ← strchr m delimiters c;
      if negb (q =? NULL) then
        if c =? 0 then Some (s, false) else skip_delimiters n m (s + 1) delimiters
      else Some (s, true)
  end.

(** Its second loop: the first delimiter after the token. *)
Fixpoint skip_token (n : nat) (m : memory) (s delimiters : Z) : option Z :=
  match n with
  | O => None
  | S n =>
      c ← m !! s;
      q ← strchr m delimiters c;
      if q =? NULL then skip_token n m (s + 1) delimiters else Some s
  end.

(** [strtok_r]: the memory, the token and the new [*save_ptr]. *)
Definition strtok_r (m : memory) (s delimiters save_ptr : Z) : option (memory * Z * Z) :=
  assert! negb (delimiters =? NULL);
  let s := if s =? NULL then save_ptr else s in
  assert! negb (s =? NULL);
  '(s, more) ← skip_delimiters (fuel m) m s delimiters;
  if (more : bool) then
    let token := s in
    s ← skip_token (fuel m) m s delimiters;
    c ← m !! s;
    if negb (c =? 0) then
      m ← store m s 0;
      Some (m, token, s + 1)
    else Some (m, token, s)
  else Some (m, NULL, s).

(** ** Specification *)

(** The memory holds the bytes [bs] from [p] on. *)
Definition block (m : memory) (p : Z) (bs : list Z) : Prop :=
  ∀ i b, bs !! i = Some b → m !! (p + Z.of_nat i) = Some b.

(** ... the string [s], with its terminating null byte. *)
Definition cstring (m : memory) (p : Z) (s : list Z) : Prop :=
  block m p (s ++ [0]) ∧ Forall (λ c, 0 < c < 256) s.

(** The addresses of [n] bytes from [p] on. *)
Definition within (p : Z) (n : nat) (a : Z) : Prop := p ≤ a < p + Z.of_nat n.

(** [m'] is [m] but for the [n] bytes from [p] on. *)
Definition same_outside (m m' : memory) (p : Z) (n : nat) : Prop :=
  ∀ a, ¬ within p n a → m' !! a = m !! a.

(** The words of [s]: its longest parts without a delimiter. *)
Fixpoint words_from (ds : list Z) (w s : list Z) : list (list Z) :=
  match s with
  | [] => if bool_decide (w = []) then [] else [w]
  | c :: s =>
      if bool_decide (c ∈ ds) then
        (if bool_decide (w = []) then [] else [w]) ++ words_from ds [] s
      else words_from ds (w ++ [c]) s
  end.
Definition words (ds s : list Z) : list (list Z) := words_from ds [] s.

(** ** Stores *)

Lemma store_Some m a v : is_Some (m !! a) → store m a v = Some (<[a := v]> m).
Proof. intros [c E]. unfold store. by rewrite E. Qed.

Lemma same_outside_refl m p n : same_outside m m p n.
Proof. done. Qed.

Lemma same_outside_trans m1 m2 m3 p n :
  same_outside m1 m2 p n → same_outside m2 m3 p n → same_outside m1 m3 p n.
Proof. intros S1 S2 a Ha. by rewrite S2, S1. Qed.

Lemma same_outside_weaken m m' p n p' n' :
  same_outside m m' p n → p' ≤ p → p + Z.of_nat n ≤ p' + Z.of_nat n' →
  same_outside m m' p' n'.
Proof. intros S ?? a Ha. apply S. unfold within in *. lia. Qed.

Lemma same_outside_insert m a v p n :
  within p n a → same_outside m (<[a := v]> m) p n.
Proof. intros Ha b Hb. rewrite lookup_insert_ne; [done|]. by intros ->. Qed.

(** ** Blocks *)

Lemma block_nil m p : block m p [].
Proof. by intros i b. Qed.

Lemma block_cons m p b bs : block m p (b :: bs) ↔ m !! p = Some b ∧ block m (p + 1) bs.
Proof.
  split.
  - intros B. split.
    + replace p with (p + Z.of_nat 0) by lia. by apply B.
    + intros i c E. replace (p + 1 + Z.of_nat i) with (p + Z.of_nat (S i)) by lia. by apply B.
  - intros [E B] [|i] c Ec; simpl in Ec.
    + simplify_eq. by rewrite Z.add_0_r.
    + replace (p + Z.of_nat (S i)) with (p + 1 + Z.of_nat i) by lia. by apply B.
Qed.

Lemma block_app m p bs cs :
  block m p (bs ++ cs) ↔ block m p bs ∧ block m (p + Z.of_nat (length bs)) cs.
Proof.
  revert p. induction bs as [|b bs IH]; intros p; simpl.
  - rewrite Z.add_0_r. split; [|by intros [_ ?]]. intros ?. split; [apply block_nil|done].
  - rewrite !block_cons, IH.
    replace (p + 1 + Z.of_nat (length bs)) with (p + Z.of_nat (S (length bs))) by lia. tauto.
Qed.

(** A block is not changed by stores that miss it. *)
Lemma block_same m m' p bs :
  (∀ a, within p (length bs) a → m' !! a = m !! a) → block m p bs → block m' p bs.
Proof.
  intros S B i b E. rewrite S; [by apply B|].
  apply lookup_lt_Some in E. unfold within. lia.
Qed.

Lemma block_outside m m' p bs q n :
  same_outside m m' q n → p + Z.of_nat (length bs) ≤ q ∨ q + Z.of_nat n ≤ p →
  block m p bs → block m' p bs.
Proof. intros S D. apply block_same. intros a Ha. apply S. unfold within in *. lia. Qed.

(** Memory that is mapped holds some bytes. *)
Definition mapped (m : memory) (p : Z) (n : nat) : Prop := ∀ a, within p n a → is_Some (m !! a).

Lemma block_mapped m p bs : block m p bs → mapped m p (length bs).
Proof.
  intros B a Ha. unfold within in Ha.
  destruct (lookup_lt_is_Some_2 bs (Z.to_nat (a - p))) as [b E]; [lia|].
  exists b. replace a with (p + Z.of_nat (Z.to_nat (a - p))) by lia. by apply B.
Qed.

Lemma mapped_S m p n : mapped m p (S n) ↔ is_Some (m !! p) ∧ mapped m (p + 1) n.
Proof.
  split.
  - intros M. split; [apply M; unfold within; lia|].
    intros a Ha. apply M. unfold within in *. lia.
  - intros [E M] a Ha. destruct (decide (a = p)) as [->|]; [done|].
    apply M. unfold within in *. lia.
Qed.

(** The mapped memory bounds the length of a block. *)
Lemma block_size m p bs : block m p bs → (length bs ≤ size m)%nat.
Proof.
  intros B. rewrite <-size_dom.
  assert (length bs = size (list_to_set (C := gset Z) (seqZ p (Z.of_nat (length bs))))) as ->.
  { rewrite size_list_to_set by apply NoDup_seqZ. rewrite length_seqZ. lia. }
  apply subseteq_size. intros a. rewrite elem_of_list_to_set, elem_of_seqZ, elem_of_dom.
  apply (block_mapped m p bs B).
Qed.

(** ** Strings *)

Lemma cstring_fuel m p s : cstring m p s → (length s < fuel m)%nat.
Proof.
  intros [B _]. apply block_size in B. rewrite length_app in B. unfold fuel. simpl in B. lia.
Qed.

Lemma cstring_cons m p c s :
  cstring m p (c :: s) ↔ m !! p = Some c ∧ 0 < c < 256 ∧ cstring m (p + 1) s.
Proof. unfold cstring. rewrite <-app_comm_cons, block_cons, Forall_cons. tauto. Qed.

Lemma cstring_nil m p : cstring m p [] ↔ m !! p = Some 0.
Proof.
  unfold cstring. simpl. rewrite block_cons.
  split; [tauto|]. intros ?. split; [|by constructor]. split; [done|apply block_nil].
Qed.

Lemma cstring_drop m p s t :
  cstring m p (s ++ t) → cstring m (p + Z.of_nat (length s)) t.
Proof.
  intros [B F]. rewrite <-app_assoc, block_app in B. split; [apply B|].
  by apply Forall_app in F as [_ ?].
Qed.

Lemma cstring_outside m m' p s q n :
  same_outside m m' q n → p + Z.of_nat (length s) < q ∨ q + Z.of_nat n ≤ p →
  cstring m p s → cstring m' p s.
Proof.
  intros S D [B F]. split; [|done]. eapply block_outside; [done| |done].
  rewrite length_app. simpl. lia.
Qed.

(** [strchr] finds the characters of the string and its terminator. *)
Lemma strchr_loop_ok n m p s c : cstring m p s → (length s < n)%nat →
  ∃ q, strchr_loop n m p c = Some q ∧
       ((c ∈ (s ++ [0]) ∧ p ≤ q) ∨ ((c ∉ s ++ [0]) ∧ q = NULL)).
Proof.
  revert p s. induction n as [|n IH]; intros p s Hs Hn; [lia|]. cbn [strchr_loop].
  destruct s as [|x s].
  - apply cstring_nil in Hs as E. rewrite E. cbn [mbind option_bind].
    destruct (Z.eqb_spec 0 c) as [<-|]; eexists; (split; [done|]); [left|right].
    + split; [set_solver|lia].
    + split; [set_solver|done].
  - apply cstring_cons in Hs as (E & Hc & Hs). rewrite E. cbn [mbind option_bind].
    destruct (Z.eqb_spec x c) as [<-|].
    { eexists. split; [done|]. left. split; [set_solver|lia]. }
    rewrite (proj2 (Z.eqb_neq x 0)) by lia. simpl in Hn.
    destruct (IH (p + 1) s Hs) as (q & -> & D); [lia|]. exists q. split; [done|].
    destruct D as [[? ?]|[? ->]]; [left|right]; (split; [set_solver|lia || done]).
Qed.

Lemma strchr_ok m p s c : cstring m p s → 0 < p → 0 ≤ c < 256 →
  ∃ q, strchr m p c = Some q ∧ (q =? NULL) = bool_decide (c ∉ (s ++ [0])).
Proof.
  intros Hs Hp Hc. unfold strchr. rewrite ASSERT_true
    by (unfold NULL; rewrite (proj2 (Z.eqb_neq p 0)) by lia; done).
  cbn [mbind option_bind]. rewrite Z.mod_small by done.
  destruct (strchr_loop_ok (fuel m) m p s c Hs (cstring_fuel _ _ _ Hs)) as (q & -> & D).
  exists q. split; [done|]. unfold NULL in *. destruct D as [[? ?]|[? ->]].
  - rewrite bool_decide_eq_false_2 by tauto. apply Z.eqb_neq. lia.
  - by rewrite bool_decide_eq_true_2.
Qed.

Lemma strlen_loop_ok n m p s len : cstring m p s → (length s < n)%nat →
  strlen_loop n m p len = Some (len + Z.of_nat (length s)).
Proof.
  revert p s len. induction n as [|n IH]; intros p s len Hs Hn; [lia|]. cbn [strlen_loop].
  destruct s as [|x s].
  - apply cstring_nil in Hs as ->. simpl. by rewrite Z.add_0_r.
  - apply cstring_cons in Hs as (-> & Hc & Hs). cbn [mbind option_bind]. simpl in Hn.
    rewrite (proj2 (Z.eqb_neq x 0)) by lia. rewrite (IH _ s) by (done || lia).
    f_equal. simpl. lia.
Qed.

Lemma strlen_ok m p s : cstring m p s → 0 < p → strlen m p = Some (Z.of_nat (length s)).
Proof.
  intros Hs Hp. unfold strlen. rewrite ASSERT_true
    by (unfold NULL; rewrite (proj2 (Z.eqb_neq p 0)) by lia; done).
  cbn [mbind option_bind]. by rewrite (strlen_loop_ok _ m p s) by (done || by eapply cstring_fuel).
Qed.

(** ** Tokens *)

Section tokens.
Context (m : memory) (d : Z) (ds : list Z).
Hypothesis Hd : cstring m d ds.
Hypothesis Hd0 : 0 < d.

(** The string from [p] on starts with a delimiter, or it does not. *)
Lemma delimiter_test c : 0 < c < 256 →
  ∃ q, strchr m d c = Some q ∧ (q =? NULL) = bool_decide (c ∉ ds).
Proof.
  intros Hc. destruct (strchr_ok m d ds c Hd Hd0) as (q & -> & E); [lia|].
  exists q. split; [done|]. rewrite E. apply bool_decide_ext.
  rewrite elem_of_app, list_elem_of_singleton. naive_solver lia.
Qed.

Lemma terminator_test : ∃ q, strchr m d 0 = Some q ∧ (q =? NULL) = false.
Proof.
  destruct (strchr_ok m d ds 0 Hd Hd0) as (q & -> & E); [lia|].
  exists q. split; [done|]. rewrite E. apply bool_decide_eq_false.
  rewrite elem_of_app, list_elem_of_singleton. tauto.
Qed.

Lemma skip_delimiters_ok n p s : cstring m p s → (length s < n)%nat →
  ∃ pre t, s = pre ++ t ∧ Forall (.∈ ds) pre ∧ (head t ∉ Some <$> ds) ∧
    skip_delimiters n m p d = Some (p + Z.of_nat (length pre), bool_decide (t ≠ [])).
Proof.
  revert p s. induction n as [|n IH]; intros p s Hs Hn; [lia|]. cbn [skip_delimiters].
  destruct s as [|x s].
  - apply cstring_nil in Hs as ->. cbn [mbind option_bind].
    destruct terminator_test as (q & -> & E). cbn [mbind option_bind]. rewrite E.
    exists [], []. simpl. rewrite Z.add_0_r. repeat split; [constructor|].
    by intros (? & ? & ?)%list_elem_of_fmap.
  - apply cstring_cons in Hs as (-> & Hc & Hs). cbn [mbind option_bind]. simpl in Hn.
    destruct (delimiter_test x Hc) as (q & -> & E). cbn [mbind option_bind]. rewrite E.
    destruct (decide (x ∈ ds)) as [Hx|Hx].
    + rewrite bool_decide_eq_false_2 by tauto. cbn [negb].
      rewrite (proj2 (Z.eqb_neq x 0)) by lia.
      destruct (IH (p + 1) s Hs) as (pre & t & -> & Hpre & Ht & ->); [lia|].
      exists (x :: pre), t. split; [done|]. split; [by constructor|]. split; [done|].
      do 2 f_equal. simpl. lia.
    + rewrite bool_decide_eq_true_2 by done. exists [], (x :: s).
      split; [done|]. split; [constructor|]. rewrite bool_decide_eq_true_2 by done. simpl.
      rewrite Z.add_0_r. split; [|done]. by intros (? & [= ->] & ?)%list_elem_of_fmap.
Qed.

Lemma skip_token_ok n p s : cstring m p s → (length s < n)%nat →
  ∃ w r, s = w ++ r ∧ Forall (.∉ ds) w ∧ (r = [] ∨ ∃ c r', r = c :: r' ∧ c ∈ ds) ∧
    skip_token n m p d = Some (p + Z.of_nat (length w)).
Proof.
  revert p s. induction n as [|n IH]; intros p s Hs Hn; [lia|]. cbn [skip_token].
  destruct s as [|x s].
  - apply cstring_nil in Hs as ->. cbn [mbind option_bind].
    destruct terminator_test as (q & -> & E). cbn [mbind option_bind]. rewrite E.
    exists [], []. simpl. rewrite Z.add_0_r. repeat split; [constructor|by left].
  - apply cstring_cons in Hs as (-> & Hc & Hs). cbn [mbind option_bind]. simpl in Hn.
    destruct (delimiter_test x Hc) as (q & -> & E). cbn [mbind option_bind]. rewrite E.
    destruct (decide (x ∈ ds)) as [Hx|Hx].
    + rewrite bool_decide_eq_false_2 by tauto. exists [], (x :: s). simpl.
      rewrite Z.add_0_r. repeat split; [constructor|]. right. by exists x, s.
    + rewrite bool_decide_eq_true_2 by done.
      destruct (IH (p + 1) s Hs) as (w & r & -> & Hw & Hr & ->); [lia|].
      exists (x :: w), r. split; [done|]. split; [by constructor|]. split; [done|].
      f_equal. simpl. lia.
Qed.
End tokens.

(** ** Words *)

Lemma words_skip ds pre t : Forall (.∈ ds) pre → words ds (pre ++ t) = words ds t.
Proof.
  unfold words. induction 1 as [|c pre Hc _ IH]; [done|]. simpl.
  by rewrite bool_decide_eq_true_2.
Qed.

Lemma words_from_word ds w0 w r : Forall (.∉ ds) w →
  words_from ds w0 (w ++ r) = words_from ds (w0 ++ w) r.
Proof.
  intros F. revert w0. induction F as [|c w Hc _ IH]; intros w0; simpl; [by rewrite app_nil_r|].
  rewrite bool_decide_eq_false_2 by done. rewrite IH. by rewrite <-app_assoc.
Qed.

Lemma words_word ds w c r : Forall (.∉ ds) w → w ≠ [] → c ∈ ds →
  words ds (w ++ c :: r) = w :: words ds r.
Proof.
  intros F Hw Hc. unfold words. rewrite words_from_word by done. simpl.
  rewrite bool_decide_eq_true_2 by done. by rewrite bool_decide_eq_false_2.
Qed.

Lemma words_last ds w : Forall (.∉ ds) w → w ≠ [] → words ds w = [w].
Proof.
  intros F Hw. unfold words. rewrite <-(app_nil_r w) at 1. rewrite words_from_word by done.
  simpl. by rewrite bool_decide_eq_false_2.
Qed.

(** What a call of [strtok_r] on the string [s] at [p] does: the next word is the
    token, terminated in place, and [*save_ptr] holds what is left. *)
Definition token_spec (ds : list Z) (m : memory) (p : Z) (s : list Z)
    (m' : memory) (token save : Z) : Prop :=
  same_outside m m' p (length s) ∧
  match words ds s with
  | [] => token = NULL
  | w :: ws =>
      p ≤ token ∧ w ≠ [] ∧ cstring m' token w ∧
      ∃ r, cstring m' save r ∧ words ds r = ws ∧
           save + Z.of_nat (length r) = p + Z.of_nat (length s) ∧
           (token + Z.of_nat (length w) < save ∨
            token + Z.of_nat (length w) = save ∧ r = [])
  end.

Lemma nonnull p : 0 < p → negb (p =? NULL) = true.
Proof. intros. unfold NULL. by rewrite (proj2 (Z.eqb_neq p 0)) by lia. Qed.

(** Putting a null byte at the end of a word makes it a string. *)
Lemma cstring_cut m p w c r :
  cstring m p (w ++ c :: r) →
  cstring (<[p + Z.of_nat (length w) := 0]> m) p w ∧
  cstring (<[p + Z.of_nat (length w) := 0]> m) (p + Z.of_nat (length w) + 1) r.
Proof.
  intros Hs. pose proof (cstring_drop m p w _ Hs) as Hr.
  apply cstring_cons in Hr as (_ & _ & Hr). destruct Hs as [B F].
  rewrite <-app_assoc, block_app in B. destruct B as [B _].
  apply Forall_app in F as [F _]. set (a := p + Z.of_nat (length w)) in *.
  pose proof (same_outside_insert m a 0 a 1 ltac:(unfold within; lia)) as S.
  split; [split; [|done]|].
  - apply block_app. split; [|apply block_cons; split; [apply lookup_insert_eq|apply block_nil]].
    eapply block_outside; [exact S| |done]. lia.
  - eapply cstring_outside; [exact S| |done]. lia.
Qed.

Lemma strtok_r_ok m p s d ds s0 save :
  cstring m p s → 0 < p → cstring m d ds → 0 < d →
  (if s0 =? NULL then save else s0) = p →
  ∃ m' token save', strtok_r m s0 d save = Some (m', token, save') ∧
                    token_spec ds m p s m' token save'.
Proof.
  intros Hs Hp Hds Hd E. unfold strtok_r. rewrite E, !nonnull by done.
  cbn [ASSERT mbind option_bind].
  destruct (skip_delimiters_ok m d ds Hds Hd (fuel m) p s Hs (cstring_fuel _ _ _ Hs))
    as (pre & t & -> & Hpre & Ht & ->). cbn [mbind option_bind].
  unfold token_spec. rewrite words_skip by done. pose proof (cstring_drop _ _ _ _ Hs) as Hst.
  destruct (decide (t = [])) as [->|Hne].
  { rewrite bool_decide_eq_false_2 by tauto. eexists _, _, _. split; [done|]. by split. }
  rewrite bool_decide_eq_true_2 by done. set (q := p + Z.of_nat (length pre)) in *.
  destruct (skip_token_ok m d ds Hds Hd (fuel m) q t Hst (cstring_fuel _ _ _ Hst))
    as (w & r & -> & Hw & Hr & ->). cbn [mbind option_bind].
  assert (w ≠ []) as Hw0.
  { intros ->. destruct Hr as [->|(c & r' & -> & Hc)]; [done|].
    apply Ht. simpl. by apply list_elem_of_fmap_2. }
  pose proof (cstring_drop _ _ _ _ Hst) as Hr'. rewrite !length_app.
  destruct Hr as [->|(c & r' & -> & Hc)].
  - apply cstring_nil in Hr' as E'. rewrite E'. cbn [mbind option_bind]. simpl.
    eexists _, _, _. split; [done|]. split; [done|]. rewrite app_nil_r, words_last by done.
    rewrite app_nil_r in Hst. repeat split; [unfold q; lia|done|apply Hst|apply Hst|].
    exists []. split; [done|]. split; [done|]. simpl. split; [unfold q; lia|]. by right.
  - apply cstring_cons in Hr' as (E' & Hc' & _). rewrite E'. cbn [mbind option_bind].
    rewrite (proj2 (Z.eqb_neq c 0)) by lia. cbn [negb].
    rewrite store_Some by (by eexists). cbn [mbind option_bind].
    eexists _, _, _. split; [done|]. rewrite words_word by done. simpl.
    split; [apply same_outside_insert; unfold within, q; lia|].
    apply cstring_cut in Hst as [Hw1 Hr1].
    split; [unfold q; lia|]. split; [done|]. split; [done|].
    exists r'. split; [done|]. split; [done|]. split; [unfold q; lia|]. left. unfold q. lia.
Qed.

(** ** Copies *)

(** Copying upwards works when the destination does not follow the source within
    the block; copying downwards when it does not precede it. *)
Lemma copy_up_ok bs m dst src :
  block m src bs → mapped m dst (length bs) →
  dst ≤ src ∨ src + Z.of_nat (length bs) ≤ dst →
  ∃ m', copy_up (length bs) m dst src = Some m' ∧ block m' dst bs ∧
        same_outside m m' dst (length bs).
Proof.
  revert m dst src. induction bs as [|b bs IH]; intros m dst src B M D; simpl.
  { exists m. split; [done|]. split; [apply block_nil|done]. }
  apply block_cons in B as [E B]. apply mapped_S in M as [E' M]. simpl in D.
  rewrite E. cbn [mbind option_bind]. rewrite store_Some by done. cbn [mbind option_bind].
  destruct (IH (<[dst := b]> m) (dst + 1) (src + 1)) as (m' & -> & B' & S').
  - eapply block_outside; [apply (same_outside_insert m dst b dst 1); unfold within; lia| |done].
    lia.
  - intros a Ha. rewrite lookup_insert_ne by (unfold within in Ha; lia). by apply M.
  - lia.
  - exists m'. split; [done|]. split.
    + apply block_cons. split; [|done].
      rewrite S' by (unfold within; lia). apply lookup_insert_eq.
    + eapply same_outside_trans; [|eapply same_outside_weaken; [exact S'|lia..]].
      apply same_outside_insert. unfold within. lia.
Qed.

Lemma copy_down_ok bs m dst src :
  block m (src - Z.of_nat (length bs)) bs → mapped m (dst - Z.of_nat (length bs)) (length bs) →
  src ≤ dst →
  ∃ m', copy_down (length bs) m dst src = Some m' ∧
        block m' (dst - Z.of_nat (length bs)) bs ∧
        same_outside m m' (dst - Z.of_nat (length bs)) (length bs).
Proof.
  revert m dst src. induction bs as [|b bs IH] using rev_ind; intros m dst src B M D.
  { exists m. split; [done|]. split; [apply block_nil|done]. }
  rewrite length_app, Nat.add_comm in *. change (length [b] + length bs)%nat with (S (length bs)) in *.
  cbn [copy_down].
  apply block_app in B as [B E]. apply block_cons in E as [E _].
  replace (src - Z.of_nat (S (length bs)) + Z.of_nat (length bs)) with (src - 1) in E by lia.
  replace (src - Z.of_nat (S (length bs))) with (src - 1 - Z.of_nat (length bs)) in B by lia.
  replace (dst - Z.of_nat (S (length bs))) with (dst - 1 - Z.of_nat (length bs)) in * by lia.
  rewrite E. cbn [mbind option_bind].
  rewrite store_Some by (apply M; unfold within; lia). cbn [mbind option_bind].
  destruct (IH (<[dst - 1 := b]> m) (dst - 1) (src - 1)) as (m' & -> & B' & S').
  - eapply block_outside; [apply (same_outside_insert m (dst - 1) b (dst - 1) 1); unfold within; lia| |done].
    lia.
  - intros a Ha. rewrite lookup_insert_ne by (unfold within in Ha; lia).
    apply M. unfold within in *. lia.
  - lia.
  - exists m'. split; [done|]. split.
    + apply block_app. split; [done|]. apply block_cons. split; [|apply block_nil].
      replace (dst - 1 - Z.of_nat (length bs) + Z.of_nat (length bs)) with (dst - 1) by lia.
      rewrite S' by (unfold within; lia). apply lookup_insert_eq.
    + eapply same_outside_trans; [|eapply same_outside_weaken; [exact S'|lia..]].
      apply same_outside_insert. unfold within. lia.
Qed.

Lemma not_null_pos p size : 0 < p → not_null p size = true.
Proof. intros. unfold not_null. by rewrite nonnull. Qed.

Lemma memcpy_ok m dst src bs :
  block m src bs → mapped m dst (length bs) → 0 < dst → 0 < src →
  dst ≤ src ∨ src + Z.of_nat (length bs) ≤ dst →
  ∃ m', memcpy m dst src (Z.of_nat (length bs)) = Some (m', dst) ∧ block m' dst bs ∧
        same_outside m m' dst (length bs).
Proof.
  intros B M Hd Hs D. unfold memcpy. rewrite !not_null_pos by done.
  cbn [ASSERT mbind option_bind]. rewrite Nat2Z.id.
  destruct (copy_up_ok bs m dst src B M D) as (m' & -> & ? & ?). by exists m'.
Qed.

(** [strlcpy] into a buffer of [size] bytes: the string, cut to fit, and a null
    byte. *)
Lemma strlcpy_ok m dst src s size :
  cstring m src s → mapped m dst size → 0 < dst → 0 < src → (0 < size)%nat →
  src + Z.of_nat (length s) < dst ∨ dst + Z.of_nat size ≤ src →
  ∃ m', strlcpy m dst src (Z.of_nat size) = Some (m', Z.of_nat (length s)) ∧
        cstring m' dst (take (size - 1) s) ∧ same_outside m m' dst size.
Proof.
  intros Hs M Hd Hsrc Hsz D. unfold strlcpy. rewrite !nonnull by done.
  cbn [ASSERT mbind option_bind]. rewrite (strlen_ok m src s) by done. cbn [mbind option_bind].
  rewrite (proj2 (Z.ltb_lt 0 _)) by lia. set (t := take (size - 1) s).
  assert (length t = (size - 1) `min` length s)%nat as Ht by (unfold t; apply length_take).
  assert ((if Z.of_nat (length s) <? Z.of_nat size - 1 then Z.of_nat (length s)
           else Z.of_nat size - 1) = Z.of_nat (length t)) as ->.
  { destruct (Z.ltb_spec (Z.of_nat (length s)) (Z.of_nat size - 1)); lia. }
  destruct Hs as [B F].
  destruct (memcpy_ok m dst src t) as (m' & -> & B' & S'); [| |done|done|lia|].
  { rewrite <-(take_drop (size - 1) s), <-app_assoc, block_app in B. apply B. }
  { intros a Ha. apply M. unfold within in *. lia. }
  cbn [mbind option_bind].
  rewrite store_Some by (rewrite S' by (unfold within; lia); apply M; unfold within; lia).
  cbn [mbind option_bind]. eexists. split; [done|]. split; [split|].
  - apply block_app. split; [|apply block_cons; split; [apply lookup_insert_eq|apply block_nil]].
    eapply block_outside; [apply (same_outside_insert m' _ 0 (dst + Z.of_nat (length t)) 1); unfold within; lia| |done].
    lia.
  - by apply Forall_take.
  - eapply same_outside_trans; [eapply same_outside_weaken; [exact S'|lia..]|].
    apply same_outside_insert. unfold within. lia.
Qed.

(** [memmove] copies the block [bs] of [src] to [dst], also when the two
    overlap, and changes no other byte; it returns the end of the copy when it
    copies upwards, not [dst] as its comment says. *)
Theorem memmove_correct m dst src bs :
  block m src bs → mapped m dst (length bs) → 0 < dst → 0 < src →
  ∃ m', memmove m dst src (Z.of_nat (length bs)) =
          Some (m', if dst <? src then dst + Z.of_nat (length bs) else dst) ∧
        block m' dst bs ∧ same_outside m m' dst (length bs).
Proof.
  intros B M Hd Hs. unfold memmove. rewrite !not_null_pos by done.
  cbn [ASSERT mbind option_bind]. rewrite Nat2Z.id. destruct (Z.ltb_spec dst src).
  - destruct (copy_up_ok bs m dst src B M) as (m' & -> & ? & ?); [lia|]. by exists m'.
  - destruct (copy_down_ok bs m (dst + Z.of_nat (length bs)) (src + Z.of_nat (length bs)))
      as (m' & -> & B' & S'); [by rewrite Z.add_simpl_r|by rewrite Z.add_simpl_r|lia|].
    rewrite Z.add_simpl_r in *. by exists m'.
Qed.

(** The memory that holds just [bs]. *)
Fixpoint bytes_at (p : Z) (bs : list Z) : memory :=
  match bs with
  | [] => ∅
  | b :: bs => <[p := b]> (bytes_at (p + 1) bs)
  end.

Lemma bytes_at_block p bs : block (bytes_at p bs) p bs.
Proof.
  revert p. induction bs as [|b bs IH]; intros p; [apply block_nil|]. apply block_cons.
  split; [apply lookup_insert_eq|]. cbn [bytes_at].
  eapply block_outside; [apply (same_outside_insert _ p b p 1); unfold within; lia| |apply IH]. lia.
Qed.

Lemma bytes_at_None p bs a : ¬ within p (length bs) a → bytes_at p bs !! a = None.
Proof.
  revert p. induction bs as [|b bs IH]; intros p Ha; [done|]. cbn [bytes_at].
  unfold within in *. simpl in Ha. rewrite lookup_insert_ne by lia. apply IH. lia.
Qed.

Lemma memmove_correct_witness : ∃ m',
  memmove (bytes_at 100 [1; 2; 3; 4]) 100 101 (Z.of_nat (length [2; 3; 4])) = Some (m', 103) ∧
  block m' 100 [2; 3; 4] ∧ same_outside (bytes_at 100 [1; 2; 3; 4]) m' 100 3.
Proof.
  apply (memmove_correct (bytes_at 100 [1; 2; 3; 4]) 100 101 [2; 3; 4]); [| |lia..].
  - by repeat (apply block_cons; split; [reflexivity|]).
  - repeat (apply mapped_S; split; [by eexists|]). intros a Ha. unfold within in Ha. lia.
Defined.
