(* ===== verification/Args.v ===== *)
(** * Argument passing ([userprog/process.c], [push_arguments])

    [push_arguments] splits a command line and builds the initial stack of
    [main (argc, argv)] below [PHYS_BASE].  The memory is the one the loading
    thread sees: the kernel's pages above [PHYS_BASE] and the process's pages,
    of which the stack is one.  The page that [palloc_get_page] returns is an
    argument, [NULL] when there is none; freeing it overwrites it.  [main_args]
    says what [main] finds. *)

From S2P Require Import Prelude Machine Bytes CString.

Open Scope Z_scope.

(** A store of several bytes: of a word, its four bytes. *)
Fixpoint store_bytes (m : memory) (a : Z) (bs : list Z) : option memory :=
  match bs with
  | [] => Some m
  | b :: bs => m ← store m a b; store_bytes m (a + 1) bs
  end.

Definition store32 (m : memory) (a v : Z) : option memory := store_bytes m a (enc32 v).

(** [PGSIZE] as a natural number. *)
Definition PAGE : nat := Z.to_nat PGSIZE.

(** The tokenizing loop, for [n] more arguments. *)
Fixpoint parse_args (n : nat) (m : memory) (s delimiters save_ptr : Z) : option (memory * list Z) :=
  match n with
  | O => Some (m, [])
  | S n =>
      '(m, token, save_ptr) ← strtok_r m s delimiters save_ptr;
      if token =? NULL then Some (m, [])
      else
        '(m, argv) ← parse_args n m NULL delimiters save_ptr;
        Some (m, token :: argv)
  end.

(** The loop that copies the strings, on the arguments from the last one on. *)
Fixpoint push_strings (argv : list Z) (m : memory) (esp : Z) (arg_ptrs : list Z)
    : option (memory * Z * list Z) :=
  match argv with
  | [] => Some (m, esp, arg_ptrs)
  | a :: argv =>
      l ← strlen m a;
      let len := l + 1 in
      let esp := u32 (esp - len) in
      '(m, _) ← memcpy m esp a len;
      push_strings argv m esp (esp :: arg_ptrs)
  end.

Definition push32 (m : memory) (esp v : Z) : option (memory * Z) :=
  let esp := u32 (esp - 4) in
  m ← store32 m esp v;
  Some (m, esp).

(** The loop that pushes the argument pointers, from the last one on. *)
Fixpoint push_pointers (ptrs : list Z) (m : memory) (esp : Z) : option (memory * Z) :=
  match ptrs with
  | [] => Some (m, esp)
  | p :: ptrs => '(m, esp) ← push32 m esp p; push_pointers ptrs m esp
  end.

Definition MAX_ARGS : nat := 128.

(** [palloc_free_page] on the memory: the page is filled with [0xcc]. *)
Definition free_page (m : memory) (page : Z) : option memory :=
  '(m, _) ← memset m page 204 PGSIZE;
  Some m.

Definition push_arguments (m : memory) (cmd_copy space save_ptr esp cmdline : Z)
    : option (memory * Z * bool) :=
  if cmd_copy =? NULL then Some (m, esp, false)
  else
    '(m, _) ← strlcpy m cmd_copy cmdline PGSIZE;
    '(m, argv) ← parse_args MAX_ARGS m cmd_copy space save_ptr;
    let argc := Z.of_nat (length argv) in
    '(m, esp, arg_ptrs) ← push_strings (rev argv) m esp [];
    let esp := Z.land esp (not32 3) in
    '(m, esp) ← push32 m esp NULL;
    '(m, esp) ← push_pointers (rev arg_ptrs) m esp;
    let argv_on_stack := esp in
    '(m, esp) ← push32 m esp argv_on_stack;
    '(m, esp) ← push32 m esp argc;
    '(m, esp) ← push32 m esp NULL;
    m ← free_page m cmd_copy;
    Some (m, esp, true).

(** ** Specification *)

(** The words at [a]. *)
Definition block32 (m : memory) (a : Z) (vs : list Z) : Prop := block m a (concat (enc32 <$> vs)).

(** What [main] finds on its stack: a return address, [argc], [argv], the
    pointers with a null pointer after them, and the strings they point to. *)
Definition main_args (m : memory) (esp : Z) (args : list (list Z)) : Prop :=
  ∃ ptrs, block32 m esp ([NULL; Z.of_nat (length args); esp + 12] ++ ptrs ++ [NULL]) ∧
          Forall2 (cstring m) ptrs args.

(** The arguments of a command line: its words, in what fits a page. *)
Definition cmd_args (s : list Z) : list (list Z) := take MAX_ARGS (words [32] (take (PAGE - 1) s)).

Definition strings_size (args : list (list Z)) : nat := sum_list (S ∘ length <$> args).

(** The stack the arguments take. *)
Definition stack_need (args : list (list Z)) : Z :=
  (Z.of_nat (strings_size args) + 3) / 4 * 4 + 4 * (Z.of_nat (length args) + 4).

(** The stack's page is mapped and the page below it is not. *)
Definition stack_page (m : memory) : Prop :=
  mapped m (PHYS_BASE - 4096) PAGE ∧
  ∀ a, within (PHYS_BASE - 8192) PAGE a → m !! a = None.

Lemma PAGE_eq : Z.of_nat PAGE = 4096.
Proof. unfold PAGE. rewrite Z2Nat.id; done. Qed.
Opaque PAGE.

(** Arithmetic with the size of a page. *)
Ltac page_lia := pose proof PAGE_eq; lia.

(** ** Tokens *)

(** A token stays what it is when the string after it is changed. *)
Lemma cstring_later m m' token w save (r : list Z) :
  same_outside m m' save (length r) → cstring m token w →
  token + Z.of_nat (length w) < save ∨ token + Z.of_nat (length w) = save ∧ r = [] →
  cstring m' token w.
Proof.
  intros S Hw [?|[? ->]].
  - eapply cstring_outside; [exact S|lia|done].
  - destruct Hw as [B F]. split; [|done]. eapply block_same; [|exact B].
    intros a _. apply S. unfold within. simpl. lia.
Qed.

Lemma parse_args_ok d ds n m p s s0 save :
  cstring m p s → 0 < p → cstring m d ds → 0 < d →
  d + Z.of_nat (length ds) < p ∨ p + Z.of_nat (length s) ≤ d →
  (if s0 =? NULL then save else s0) = p →
  ∃ m' argv, parse_args n m s0 d save = Some (m', argv) ∧
    same_outside m m' p (length s) ∧
    Forall2 (λ a w, p ≤ a ∧ cstring m' a w) argv (take n (words ds s)).
Proof.
  intros Hs Hp Hds Hd D E. revert m p s s0 save Hs Hp Hds D E.
  induction n as [|n IH]; intros m p s s0 save Hs Hp Hds D E.
  { exists m, []. done. }
  cbn [parse_args].
  destruct (strtok_r_ok m p s d ds s0 save) as (m1 & token & save' & -> & S1 & T); [done..|].
  cbn [mbind option_bind]. destruct (words ds s) as [|w ws].
  { subst token. exists m1, []. done. }
  destruct T as (Ht & Hw & Hc & r & Hr & <- & Hl & Dr).
  rewrite (proj2 (Z.eqb_neq token NULL)) by (unfold NULL; lia).
  destruct (IH m1 save' r NULL save') as (m2 & argv & -> & S2 & F);
    [done|destruct Dr; lia|eapply cstring_outside; [exact S1|lia|done]|destruct Dr; lia|done|].
  cbn [mbind option_bind]. exists m2, (token :: argv). split; [done|]. split.
  - eapply same_outside_trans; [exact S1|]. eapply same_outside_weaken; [exact S2|destruct Dr; lia|lia].
  - constructor; [split; [done|by eapply cstring_later]|].
    eapply Forall2_impl; [exact F|]. intros a x [? ?]. split; [destruct Dr; lia|done].
Qed.

(** ** Pushes *)

Lemma store_bytes_ok bs m a : mapped m a (length bs) →
  ∃ m', store_bytes m a bs = Some m' ∧ block m' a bs ∧ same_outside m m' a (length bs).
Proof.
  revert m a. induction bs as [|b bs IH]; intros m a M; simpl.
  { exists m. split; [done|]. split; [apply block_nil|done]. }
  apply mapped_S in M as [E M]. rewrite store_Some by done. cbn [mbind option_bind].
  destruct (IH (<[a := b]> m) (a + 1)) as (m' & -> & B & S).
  { intros c Hc. rewrite lookup_insert_ne by (unfold within in Hc; lia). by apply M. }
  exists m'. split; [done|]. split.
  - apply block_cons. split; [|done]. rewrite S by (unfold within; lia). apply lookup_insert_eq.
  - eapply same_outside_trans; [|eapply same_outside_weaken; [exact S|lia..]].
    apply same_outside_insert. unfold within. lia.
Qed.

(** The end of the stack's page. *)
Definition stack_base : Z := PHYS_BASE - 4096.

Lemma stack_page_step m m' a n :
  stack_page m → same_outside m m' a n → mapped m' a n →
  stack_base ≤ a → a + Z.of_nat n ≤ PHYS_BASE → stack_page m'.
Proof.
  unfold stack_base. intros [M U] S M' ??. split.
  - intros b Hb. destruct (decide (a ≤ b < a + Z.of_nat n)) as [|Hn]; [by apply M'|].
    rewrite S by done. by apply M.
  - intros b Hb. rewrite S by (unfold within in *; page_lia). by apply U.
Qed.

(** Code that gives a result satisfying [P] when [esp] is still in the stack's
    page, and faults otherwise. *)
Definition pushes {A} (esp : Z) (r : option A) (P : A → Prop) : Prop :=
  if decide (stack_base ≤ esp) then ∃ x, r = Some x ∧ P x else r = None.

Lemma pushes_bind {A B} esp esp' (r : option A) (k : A → option B) P Q :
  pushes esp r P → esp' ≤ esp →
  (∀ x, stack_base ≤ esp → P x → pushes esp' (k x) Q) → pushes esp' (r ≫= k) Q.
Proof.
  unfold pushes. intros Hr Hle Hk. destruct (decide (stack_base ≤ esp)) as [D|D].
  - destruct Hr as (x & -> & Hx). by apply Hk.
  - subst r. by destruct (decide (stack_base ≤ esp')); [page_lia|].
Qed.

Lemma pushes_ret {A} esp (x : A) (P : A → Prop) : stack_base ≤ esp → P x → pushes esp (Some x) P.
Proof. intros ??. unfold pushes. destruct (decide _); [by exists x|done]. Qed.

Lemma pushes_mono {A} esp (r : option A) (P Q : A → Prop) :
  pushes esp r P → (∀ x, P x → Q x) → pushes esp r Q.
Proof. unfold pushes. intros Hr PQ. destruct (decide _); naive_solver. Qed.

(** What a push of [bs] leaves. *)
Definition pushed (m : memory) (esp : Z) (bs : list Z) (m' : memory) : Prop :=
  block m' esp bs ∧ same_outside m m' esp (length bs) ∧ stack_page m'.

Lemma stack_addr esp n : stack_base ≤ esp ≤ PHYS_BASE → 0 ≤ n ≤ 4096 →
  u32 (esp - n) = esp - n ∧ 0 < esp - n.
Proof.
  unfold stack_base, PHYS_BASE. intros. split; [|page_lia]. apply u32_small. unfold is_u32. page_lia.
Qed.

Lemma push32_ok m esp v : stack_page m → stack_base ≤ esp ≤ PHYS_BASE →
  pushes (esp - 4) (push32 m esp v)
    (λ r, r.2 = esp - 4 ∧ pushed m (esp - 4) (enc32 v) r.1).
Proof.
  intros W He. unfold push32, pushes. destruct (stack_addr esp 4 He) as [-> _]; [page_lia|].
  unfold stack_base in *. destruct (decide _).
  - destruct (store_bytes_ok (enc32 v) m (esp - 4)) as (m' & E & B & S).
    { intros a Ha. apply W. unfold within in *. simpl in Ha. page_lia. }
    unfold store32. rewrite E. eexists. split; [done|]. split; [done|]. split; [done|].
    split; [done|]. apply (stack_page_step m m' (esp - 4) 4); simpl; [done..| |unfold stack_base; page_lia|page_lia].
    by apply (block_mapped m' _ (enc32 v)).
  - unfold store32, enc32, store_bytes, store. rewrite (proj2 W); [done|]. unfold within. page_lia.
Qed.

Lemma concat_enc32 vs : length (concat (enc32 <$> vs)) = (4 * length vs)%nat.
Proof. induction vs as [|v vs IH]; [done|]. cbn [fmap list_fmap concat length]. rewrite length_app, IH. simpl. page_lia. Qed.

Lemma pushed_trans m m1 m2 esp bs esp' cs :
  pushed m esp bs m1 → pushed m1 esp' cs m2 → esp' + Z.of_nat (length cs) = esp →
  pushed m esp' (cs ++ bs) m2.
Proof.
  intros (B1 & S1 & _) (B2 & S2 & W2) E. split; [|split; [|done]].
  - apply block_app. split; [done|]. rewrite E. eapply block_outside; [exact S2|page_lia|done].
  - rewrite length_app.
    eapply same_outside_trans; (eapply same_outside_weaken; [eassumption|page_lia..]).
Qed.

Lemma push_pointers_ok ptrs m esp : stack_page m → stack_base ≤ esp ≤ PHYS_BASE →
  pushes (esp - 4 * Z.of_nat (length ptrs)) (push_pointers ptrs m esp)
    (λ r, r.2 = esp - 4 * Z.of_nat (length ptrs) ∧
          pushed m r.2 (concat (enc32 <$> rev ptrs)) r.1).
Proof.
  revert m esp. induction ptrs as [|p ptrs IH]; intros m esp W He; cbn [push_pointers length].
  { rewrite Z.mul_0_r, Z.sub_0_r. apply pushes_ret; [page_lia|]. simpl. split; [done|].
    split; [apply block_nil|]. by split. }
  eapply pushes_bind; [by apply push32_ok|page_lia|].
  intros [m1 esp1] Hb [E1 P1]; cbn [fst snd] in *; subst esp1.
  replace (esp - 4 * Z.of_nat (S (length ptrs))) with (esp - 4 - 4 * Z.of_nat (length ptrs)) by page_lia.
  eapply pushes_mono; [apply IH; [apply P1|page_lia]|]. intros [m2 esp2] [E2 P2].
  cbn [fst snd] in *. split; [done|]. subst esp2.
  cbn [rev]. rewrite fmap_app, concat_app. cbn [fmap list_fmap concat]. rewrite app_nil_r.
  eapply pushed_trans; [exact P1|exact P2|]. rewrite concat_enc32, length_rev. page_lia.
Qed.

(** A string that does not fit the page faults at its first byte. *)
Lemma memcpy_fault m dst src n : 0 < dst → 0 < src → 0 < n → m !! dst = None →
  memcpy m dst src n = None.
Proof.
  intros Hd Hs Hn E. unfold memcpy. rewrite !not_null_pos by done.
  cbn [ASSERT mbind option_bind]. destruct (Z.to_nat n) as [|k] eqn:Ek; [page_lia|].
  cbn [copy_up]. unfold store. destruct (m !! src); simpl; [|done]. by rewrite E.
Qed.

Lemma push_string_ok m esp a w : stack_page m → stack_base ≤ esp ≤ PHYS_BASE →
  PHYS_BASE ≤ a → cstring m a w → (length w < PAGE)%nat →
  let esp' := esp - (Z.of_nat (length w) + 1) in
  pushes esp' (memcpy m esp' a (Z.of_nat (length w) + 1))
    (λ r, cstring r.1 esp' w ∧ pushed m esp' (w ++ [0]) r.1).
Proof.
  intros W He Ha [B F] Hl esp'. unfold pushes, stack_base in *.
  assert (0 < a) by (unfold PHYS_BASE in *; page_lia).
  destruct (decide _).
  - destruct (memcpy_ok m esp' a (w ++ [0])) as (m' & E & B' & S).
    + done.
    + intros b Hb. apply W. rewrite length_app in Hb. unfold within, esp' in *. simpl in Hb. page_lia.
    + unfold esp', PHYS_BASE in *. page_lia.
    + done.
    + unfold esp'. page_lia.
    + rewrite length_app, Nat2Z.inj_add in E. change (Z.of_nat (length [0])) with 1 in E.
      rewrite E. eexists. split; [done|]. split; [done|]. split; [done|]. split; [done|].
      eapply stack_page_step; [exact W|exact S|by apply block_mapped|by unfold stack_base|].
      rewrite length_app. simpl. unfold esp'. page_lia.
  - apply memcpy_fault; [unfold esp', PHYS_BASE in *; page_lia|done|page_lia|].
    apply W. unfold within, esp'. page_lia.
Qed.

Lemma strings_size_cons w args :
  Z.of_nat (strings_size (w :: args)) = Z.of_nat (length w) + 1 + Z.of_nat (strings_size args).
Proof. unfold strings_size. cbn [fmap list_fmap sum_list_with]. simpl. page_lia. Qed.

(** The string [w] at [p] lies between [lo] and [hi]. *)
Definition stack_string (m : memory) (lo hi p : Z) (w : list Z) : Prop :=
  cstring m p w ∧ lo ≤ p ∧ p + Z.of_nat (length w) < hi.

Lemma push_strings_ok argv args m esp ptrs : stack_page m → stack_base ≤ esp ≤ PHYS_BASE →
  Forall2 (λ a w, PHYS_BASE ≤ a ∧ cstring m a w ∧ (length w < PAGE)%nat) argv args →
  pushes (esp - Z.of_nat (strings_size args)) (push_strings argv m esp ptrs)
    (λ r, r.1.2 = esp - Z.of_nat (strings_size args) ∧ stack_page r.1.1 ∧
          same_outside m r.1.1 r.1.2 (strings_size args) ∧
          ∃ ptrs', r.2 = rev ptrs' ++ ptrs ∧ Forall2 (stack_string r.1.1 r.1.2 esp) ptrs' args).
Proof.
  intros W He F. revert args m esp ptrs W He F.
  induction argv as [|a argv IH]; intros args m esp ptrs W He F; cbn [push_strings].
  { apply Forall2_nil_inv_l in F as ->. change (Z.of_nat (strings_size [])) with 0.
    rewrite Z.sub_0_r. apply pushes_ret; [page_lia|]. split; [done|]. split; [done|]. split; [done|].
    by exists []. }
  apply Forall2_cons_inv_l in F as (w & args' & (Ha & Hw & Hl) & F & ->).
  rewrite (strlen_ok m a w) by (done || unfold PHYS_BASE in *; page_lia). cbn [mbind option_bind].
  rewrite strings_size_cons. set (n := Z.of_nat (length w) + 1).
  destruct (stack_addr esp n He) as [-> Hp]; [unfold n; page_lia|].
  eapply pushes_bind; [by apply push_string_ok|unfold n; page_lia|].
  intros [m1 x] Hb (Hc & B1 & S1 & W1). cbn [fst snd] in *. fold n in Hc, S1, Hb.
  replace (esp - (n + Z.of_nat (strings_size args'))) with (esp - n - Z.of_nat (strings_size args')) by page_lia.
  eapply pushes_mono; [apply (IH args' m1 (esp - n) (esp - n :: ptrs)); [done|unfold n in *; page_lia|]|].
  { eapply Forall2_impl; [exact F|]. intros b v (? & ? & ?). split; [done|]. split; [|done].
    eapply cstring_outside; [exact S1| |done]. rewrite length_app. simpl. unfold n. page_lia. }
  intros [[m2 esp2] r] (E2 & W2 & S2 & ptrs' & Er & F2). cbn [fst snd] in *. subst esp2 r.
  split; [done|]. split; [done|]. split.
  - eapply same_outside_trans; (eapply same_outside_weaken; [eassumption|..]);
      rewrite ?length_app; pose proof (strings_size_cons w args'); simpl length; unfold n; page_lia.
  - exists (esp - n :: ptrs'). split; [cbn [rev]; by rewrite <-app_assoc|]. constructor.
    + split; [eapply cstring_outside; [exact S2|page_lia|done]|]. unfold n. page_lia.
    + eapply Forall2_impl; [exact F2|]. intros p v (? & ? & ?). split; [done|]. unfold n. page_lia.
Qed.

(** ** Mapped memory *)

Lemma store_dom m a v m' : store m a v = Some m' → dom m' = dom m.
Proof.
  unfold store. destruct (m !! a) eqn:E; [|done]. intros [= <-].
  apply dom_insert_lookup_L. by eexists.
Qed.

Lemma copy_up_dom n m dst src m' : copy_up n m dst src = Some m' → dom m' = dom m.
Proof.
  revert m dst src. induction n as [|n IH]; intros m dst src; simpl; [by intros [= ->]|].
  intros (c & _ & (m1 & E1 & E2)%bind_Some)%bind_Some.
  rewrite (IH _ _ _ E2). by eapply store_dom.
Qed.

Lemma memcpy_dom m dst src n m' r : memcpy m dst src n = Some (m', r) → dom m' = dom m.
Proof.
  unfold memcpy. intros (? & _ & (? & _ & (m1 & E & [= -> _])%bind_Some)%bind_Some)%bind_Some.
  by eapply copy_up_dom.
Qed.

Lemma strlcpy_dom m dst src n m' r : strlcpy m dst src n = Some (m', r) → dom m' = dom m.
Proof.
  unfold strlcpy. intros (? & _ & (? & _ & (l & _ & E)%bind_Some)%bind_Some)%bind_Some.
  destruct (0 <? n); [|by simplify_eq].
  apply bind_Some in E as ([m1 q] & E1 & (m2 & E2 & [= -> _])%bind_Some).
  rewrite (store_dom _ _ _ _ E2). by eapply memcpy_dom.
Qed.

Lemma strtok_r_dom m s d save m' t save' : strtok_r m s d save = Some (m', t, save') → dom m' = dom m.
Proof.
  unfold strtok_r.
  intros (? & _ & (? & _ & ([q []] & _ & E)%bind_Some)%bind_Some)%bind_Some; [|by simplify_eq].
  apply bind_Some in E as (q' & _ & (c & _ & E)%bind_Some).
  destruct (negb _); [|by simplify_eq].
  apply bind_Some in E as (m1 & E & ?). simplify_eq. by eapply store_dom.
Qed.

Lemma parse_args_dom n m s d save m' argv : parse_args n m s d save = Some (m', argv) → dom m' = dom m.
Proof.
  revert m s save argv. induction n as [|n IH]; intros m s save argv; simpl; [by intros [= -> _]|].
  intros ([[m1 t] sv] & E1 & E)%bind_Some. apply strtok_r_dom in E1 as <-.
  destruct (t =? NULL); [by simplify_eq|].
  apply bind_Some in E as ([m2 l] & E2 & [= -> _]). by eapply IH.
Qed.

Lemma mapped_dom m m' p n : dom m' = dom m → mapped m p n → mapped m' p n.
Proof. intros E M a Ha. apply elem_of_dom. rewrite E. by apply elem_of_dom, M. Qed.

(** [memset] fills the memory, and changes nothing else. *)
Lemma memset_loop_ok n m p v : mapped m p n →
  ∃ m', memset_loop n m p v = Some m' ∧ block m' p (replicate n v) ∧ same_outside m m' p n.
Proof.
  revert m p. induction n as [|n IH]; intros m p M; simpl.
  { exists m. split; [done|]. split; [apply block_nil|done]. }
  apply mapped_S in M as [E M]. rewrite store_Some by done. cbn [mbind option_bind].
  destruct (IH (<[p := v]> m) (p + 1)) as (m' & -> & B & S).
  { intros c Hc. rewrite lookup_insert_ne by (unfold within in Hc; page_lia). by apply M. }
  exists m'. split; [done|]. split.
  - apply block_cons. split; [|done]. rewrite S by (unfold within; page_lia). apply lookup_insert_eq.
  - eapply same_outside_trans; [|eapply same_outside_weaken; [exact S|page_lia..]].
    apply same_outside_insert. unfold within. page_lia.
Qed.

Lemma free_page_ok m page : 0 < page → mapped m page PAGE →
  ∃ m', free_page m page = Some m' ∧ same_outside m m' page PAGE.
Proof.
  intros Hp M. unfold free_page, memset. rewrite not_null_pos by done.
  cbn [ASSERT mbind option_bind].
  change (Z.to_nat PGSIZE) with PAGE.
  change (204 mod 256) with 204.
  destruct (memset_loop_ok PAGE m page 204 M) as (m' & -> & _ & S). by exists m'.
Qed.

(** ** The words of a command line *)

Lemma words_from_length ds w s : Forall (λ v, (length v ≤ length w + length s)%nat) (words_from ds w s).
Proof.
  revert w. induction s as [|c s IH]; intros w; simpl.
  { case_bool_decide; repeat constructor. page_lia. }
  case_bool_decide.
  - apply Forall_app. split; [case_bool_decide; repeat constructor; page_lia|].
    eapply Forall_impl; [apply IH|]. simpl. page_lia.
  - eapply Forall_impl; [apply IH|]. intros v. simpl. rewrite length_app. simpl. page_lia.
Qed.

Lemma cmd_args_length s : Forall (λ w, (length w < PAGE)%nat) (cmd_args s).
Proof.
  unfold cmd_args. apply Forall_take. eapply Forall_impl; [apply words_from_length|].
  intros w. simpl. rewrite length_take. page_lia.
Qed.

Lemma strings_size_rev args : strings_size (rev args) = strings_size args.
Proof.
  unfold strings_size. induction args as [|w args IH]; [done|]. cbn [rev].
  rewrite fmap_app, sum_list_with_app, IH. rewrite fmap_cons. cbn [sum_list_with fmap list_fmap].
  unfold compose. page_lia.
Qed.

(** ** The stack as [main] finds it *)

(** Aligning the stack pointer. *)
Lemma align_ok n : 0 ≤ n → n ≤ 4096 →
  Z.land (PHYS_BASE - n) (not32 3) = PHYS_BASE - (n + 3) / 4 * 4.
Proof.
  intros ??. change 3 with (Z.ones 2). rewrite land_not_ones by (unfold is_u32, PHYS_BASE; page_lia).
  change (Z.ones 2) with 3. change (2 ^ 2) with 4. unfold PHYS_BASE.
  Z.to_euclidean_division_equations; page_lia.
Qed.

(** The pushes after the strings. *)
Definition push_frame (m : memory) (esp argc : Z) (arg_ptrs : list Z) : option (memory * Z) :=
  '(m, esp) ← push32 m esp NULL;
  '(m, esp) ← push_pointers (rev arg_ptrs) m esp;
  let argv_on_stack := esp in
  '(m, esp) ← push32 m esp argv_on_stack;
  '(m, esp) ← push32 m esp argc;
  push32 m esp NULL.

Lemma push_frame_ok m esp argc ptrs : stack_page m → stack_base ≤ esp ≤ PHYS_BASE →
  let esp' := esp - 4 * (Z.of_nat (length ptrs) + 4) in
  pushes esp' (push_frame m esp argc ptrs)
    (λ r, r.2 = esp' ∧
          pushed m esp' (concat (enc32 <$> [NULL; argc; esp' + 12] ++ ptrs ++ [NULL])) r.1).
Proof.
  intros W He esp'. set (n := Z.of_nat (length ptrs)) in *. unfold push_frame.
  eapply pushes_bind; [by apply push32_ok|page_lia|].
  intros [m1 e1] Hb1 [E1 P1]; cbn [fst snd] in *; subst e1.
  eapply pushes_bind; [apply push_pointers_ok; [apply P1|page_lia]|rewrite length_rev; fold n; page_lia|].
  rewrite length_rev, rev_involutive; fold n.
  intros [m2 e2] Hb2 [E2 P2]; cbn [fst snd] in *; subst e2.
  eapply pushes_bind; [apply push32_ok; [apply P2|page_lia]|page_lia|].
  intros [m3 e3] Hb3 [E3 P3]; cbn [fst snd] in *; subst e3.
  eapply pushes_bind; [apply push32_ok; [apply P3|page_lia]|page_lia|].
  intros [m4 e4] Hb4 [E4 P4]; cbn [fst snd] in *; subst e4.
  replace esp' with (esp - 4 - 4 * n - 4 - 4 - 4) by (unfold esp'; page_lia).
  eapply pushes_mono; [apply push32_ok; [apply P4|page_lia]|].
  intros [m5 e5] [E5 P5]; cbn [fst snd] in *; subst e5. split; [done|].
  rewrite fmap_app, concat_app, fmap_app, concat_app. cbn [fmap list_fmap concat].
  rewrite app_nil_r, <-!app_assoc.
  replace (esp - 4 - 4 * n - 4 - 4 - 4 + 12) with (esp - 4 - 4 * n) by page_lia.
  pose proof (pushed_trans _ _ _ _ _ _ _ P1 P2 ltac:(rewrite concat_enc32; unfold n; page_lia)) as Q2.
  pose proof (pushed_trans _ _ _ _ _ _ _ Q2 P3 ltac:(simpl; page_lia)) as Q3.
  pose proof (pushed_trans _ _ _ _ _ _ _ Q3 P4 ltac:(simpl; page_lia)) as Q4.
  exact (pushed_trans _ _ _ _ _ _ _ Q4 P5 ltac:(simpl; page_lia)).
Qed.

Lemma push_arguments_frame m page d save esp cmdline :
  page ≠ NULL →
  push_arguments m page d save esp cmdline =
    '(m, _) ← strlcpy m page cmdline PGSIZE;
    '(m, argv) ← parse_args MAX_ARGS m page d save;
    '(m, esp, arg_ptrs) ← push_strings (rev argv) m esp [];
    '(m, esp) ← push_frame m (Z.land esp (not32 3)) (Z.of_nat (length argv)) arg_ptrs;
    m ← free_page m page;
    Some (m, esp, true).
Proof.
  intros Hp. unfold push_arguments. rewrite (proj2 (Z.eqb_neq page NULL)) by done.
  destruct (strlcpy m page cmdline PGSIZE) as [[m1 l]|]; [|done]. cbn [mbind option_bind].
  destruct (parse_args MAX_ARGS m1 page d save) as [[m2 argv]|]; [|done]. cbn [mbind option_bind].
  destruct (push_strings (rev argv) m2 esp []) as [[[m3 e3] ps]|]; [|done]. cbn [mbind option_bind].
  unfold push_frame. destruct (push32 m3 _ NULL) as [[m4 e4]|]; [|done]. cbn [mbind option_bind].
  destruct (push_pointers (rev ps) m4 e4) as [[m5 e5]|]; [|done]. cbn [mbind option_bind].
  destruct (push32 m5 e5 e5) as [[m6 e6]|]; [|done]. cbn [mbind option_bind].
  by destruct (push32 m6 e6 _) as [[m7 e7]|].
Qed.

Lemma stack_page_kernel m m' p n :
  same_outside m m' p n → PHYS_BASE ≤ p → stack_page m → stack_page m'.
Proof.
  intros S Hp [M U]. split; intros a Ha; rewrite S; auto; unfold within in *; page_lia.
Qed.

Lemma main_args_kernel m m' p n esp args hi :
  same_outside m m' p n → hi ≤ p → PHYS_BASE ≤ p →
  ∀ ptrs,
    block32 m esp ([NULL; Z.of_nat (length args); esp + 12] ++ ptrs ++ [NULL]) →
    esp + 4 * (Z.of_nat (length args) + 4) ≤ hi →
    Forall2 (stack_string m (esp + 4 * (Z.of_nat (length args) + 4)) hi) ptrs args →
    main_args m' esp args.
Proof.
  intros S Hhi Hp ptrs B He F. exists ptrs. split.
  - eapply block_outside; [exact S| |exact B]. rewrite concat_enc32, !length_app.
    apply Forall2_length in F. simpl. page_lia.
  - eapply Forall2_impl; [exact F|]. intros q w (Hw & _ & ?).
    eapply cstring_outside; [exact S|page_lia|done].
Qed.

(** The pushes, from the tokens on. *)
Lemma push_all_ok m page argv args : stack_page m → PHYS_BASE ≤ page → mapped m page PAGE →
  Forall2 (λ a w, PHYS_BASE ≤ a ∧ cstring m a w ∧ (length w < PAGE)%nat) argv args →
  pushes (PHYS_BASE - stack_need args)
    ('(m, esp, arg_ptrs) ← push_strings (rev argv) m PHYS_BASE [];
     '(m, esp) ← push_frame m (Z.land esp (not32 3)) (Z.of_nat (length argv)) arg_ptrs;
     m ← free_page m page;
     Some (m, esp, true))
    (λ r, ∃ m', r = (m', PHYS_BASE - stack_need args, true) ∧
                main_args m' (PHYS_BASE - stack_need args) args).
Proof.
  intros W Hp Mp F. set (n := Z.of_nat (strings_size args)). set (k := Z.of_nat (length args)).
  assert (PHYS_BASE - stack_need args = PHYS_BASE - (n + 3) / 4 * 4 - 4 * (k + 4)) as En
    by (unfold stack_need; fold n k; page_lia).
  rewrite En. assert (n ≤ (n + 3) / 4 * 4) as Hn by (Z.to_euclidean_division_equations; page_lia).
  assert (stack_base mod 4 = 0) as Hal by done. assert (stack_base = PHYS_BASE - 4096) by done.
  eapply pushes_bind.
  { apply (push_strings_ok (rev argv) (rev args) m PHYS_BASE []); [done|page_lia|].
    auto with kernel. }
  { rewrite strings_size_rev. fold n. page_lia. }
  rewrite strings_size_rev. fold n.
  intros [[m1 e1] ps] Hb (E1 & W1 & S1 & ptrs & Eps & F1). cbn [fst snd] in *.
  rewrite app_nil_r in Eps. subst e1 ps.
  apply Forall2_rev in F1. rewrite rev_involutive in F1. set (ps := rev ptrs) in *.
  rewrite align_ok by page_lia. pose proof (Forall2_length _ _ _ F1) as Lp.
  eapply pushes_bind; [apply push_frame_ok; [done|Z.to_euclidean_division_equations; page_lia]|rewrite Lp; fold k; page_lia|].
  rewrite Lp. fold k. intros [m2 e2] Hb2 [E2 (B2 & S2 & W2)]. cbn [fst snd] in *. subst e2.
  set (esp := PHYS_BASE - (n + 3) / 4 * 4 - 4 * (k + 4)) in *.
  assert (length (concat (enc32 <$> [NULL; k; esp + 12] ++ ps ++ [NULL])) = (4 * (length args + 4))%nat) as Ll.
  { rewrite concat_enc32, !length_app, Lp. simpl. page_lia. }
  rewrite (Forall2_length _ _ _ F) in B2, S2. fold k in B2, S2. rewrite Ll in S2.
  destruct (free_page_ok m2 page) as (m3 & E3 & S3); [unfold PHYS_BASE in *; page_lia| |].
  { intros a Ha. unfold within in Ha. rewrite S2, S1 by (unfold within; page_lia). by apply Mp. }
  rewrite E3. cbn [mbind option_bind]. apply pushes_ret; [done|]. exists m3. split; [done|].
  eapply (main_args_kernel m2 m3 page PAGE esp args PHYS_BASE S3); [done|done|exact B2|fold k; page_lia|].
  fold k. eapply Forall2_impl; [exact F1|]. intros q w (Hw & ? & ?).
  split; [eapply cstring_outside; [exact S2| |done]; page_lia|]. page_lia.
Qed.

(** C8: [push_arguments] passes the words of the command line to [main].  If
    they fit the stack's page, the stack pointer is aligned and points to a
    return address, [argc], [argv] and the null-terminated [argv] array, whose
    pointers lead to the words of the command line in order (at most 128 of
    them, of its first 4095 characters).  If they do not fit, a push faults. *)
Theorem push_arguments_correct m page space save cmdline s :
  cstring m cmdline s → 0 < cmdline →
  cstring m space [32] → 0 < space →
  PHYS_BASE ≤ page → mapped m page PAGE → stack_page m →
  cmdline + Z.of_nat (length s) < page ∨ page + 4096 ≤ cmdline →
  space + 1 < page ∨ page + 4096 ≤ space →
  let args := cmd_args s in
  let esp := PHYS_BASE - stack_need args in
  esp mod 4 = 0 ∧
  if decide (stack_need args ≤ 4096) then
    ∃ m', push_arguments m page space save PHYS_BASE cmdline = Some (m', esp, true) ∧
          main_args m' esp args
  else push_arguments m page space save PHYS_BASE cmdline = None.
Proof.
  intros Hs Hc Hd Hd0 Hp Mp W D1 D2 args esp.
  assert (0 < page) by (unfold PHYS_BASE in *; page_lia).
  split; [unfold esp, stack_need, PHYS_BASE; Z.to_euclidean_division_equations; page_lia|].
  rewrite push_arguments_frame by (unfold NULL; page_lia).
  destruct (strlcpy_ok m page cmdline s PAGE) as (m1 & E1 & Hs1 & S1); [done..|page_lia|page_lia|].
  rewrite PAGE_eq in E1. change 4096 with PGSIZE in E1. rewrite E1. cbn [mbind option_bind].
  destruct (parse_args_ok space [32] MAX_ARGS m1 page (take (PAGE - 1) s) page save)
    as (m2 & argv & E2 & S2 & F); [done|done| |done|..].
  { eapply cstring_outside; [exact S1| |done]. simpl. page_lia. }
  { change (Z.of_nat (length [32])) with 1. rewrite length_take. page_lia. }
  { by rewrite (proj2 (Z.eqb_neq page NULL)) by (unfold NULL; page_lia). }
  rewrite E2. cbn [mbind option_bind].
  assert (stack_page m2) as W2 by (eapply stack_page_kernel; [exact S2|done|]; by eapply stack_page_kernel).
  pose proof (push_all_ok m2 page argv args W2 Hp) as P. fold esp in P. unfold pushes in P.
  assert (Forall2 (λ a w, PHYS_BASE ≤ a ∧ cstring m2 a w ∧ (length w < PAGE)%nat) argv args) as F'.
  { eapply Forall2_impl; [apply Forall2_and_r; [exact F|apply cmd_args_length]|].
    intros a w [[? ?] ?]. split; [page_lia|done]. }
  specialize (P (mapped_dom _ _ _ _ (parse_args_dom _ _ _ _ _ _ _ E2)
                   (mapped_dom _ _ _ _ (strlcpy_dom _ _ _ _ _ _ E1) Mp)) F').
  unfold stack_base, esp in P. destruct (decide (stack_need args ≤ 4096)).
  - rewrite decide_True in P by page_lia. destruct P as (r & -> & m' & -> & Hm). by exists m'.
  - by rewrite decide_False in P by page_lia.
Qed.

Lemma block_app4 m p l1 l2 l3 l4 : block m p (l1 ++ l2 ++ l3 ++ l4) →
  block m p l1 ∧ block m (p + Z.of_nat (length l1)) l2 ∧
  block m (p + Z.of_nat (length l1) + Z.of_nat (length l2)) l3 ∧
  block m (p + Z.of_nat (length l1) + Z.of_nat (length l2) + Z.of_nat (length l3)) l4.
Proof. by rewrite !block_app. Qed.

(** The stack's page, a kernel page, and the strings ["a b"] and [" "]. *)
Definition args_bytes (n : nat) : list Z :=
  replicate n 0 ++ replicate n 0 ++ [97; 32; 98; 0] ++ [32; 0].
Definition args_memory (n : nat) : memory := bytes_at stack_base (args_bytes n).

Lemma args_memory_ok n : n = PAGE → let m := args_memory n in
  cstring m (PHYS_BASE + 4096) [97; 32; 98] ∧ cstring m (PHYS_BASE + 4100) [32] ∧
  mapped m PHYS_BASE n ∧ mapped m stack_base n ∧
  ∀ a, within (PHYS_BASE - 8192) n a → m !! a = None.
Proof.
  intros Hn m. pose proof (bytes_at_block stack_base (args_bytes n)) as B.
  fold (args_memory n) in B. fold m in B.
  apply block_app4 in B as (B1 & B2 & B3 & B4). rewrite !length_replicate in *.
  unfold stack_base in *.
  replace (PHYS_BASE - 4096 + Z.of_nat n) with PHYS_BASE in * by page_lia.
  replace (PHYS_BASE + Z.of_nat n) with (PHYS_BASE + 4096) in * by page_lia.
  replace (PHYS_BASE + 4096 + Z.of_nat (length [97; 32; 98; 0])) with (PHYS_BASE + 4100) in B4
    by (simpl length; page_lia).
  apply block_mapped in B1, B2. rewrite length_replicate in *.
  split; [split; [done|repeat constructor; page_lia]|]. split; [split; [done|repeat constructor; page_lia]|].
  split; [done|]. split; [done|].
  intros a Ha. apply bytes_at_None. unfold within, stack_base in *. page_lia.
Qed.

Lemma push_arguments_correct_witness : ∃ m',
  push_arguments (args_memory PAGE) PHYS_BASE (PHYS_BASE + 4100) 0 PHYS_BASE (PHYS_BASE + 4096) =
    Some (m', PHYS_BASE - 28, true) ∧
  main_args m' (PHYS_BASE - 28) [[97]; [98]].
Proof.
  generalize (args_memory_ok PAGE eq_refl). generalize (args_memory PAGE). simpl.
  intros m (S1 & S2 & M1 & M2 & U).
  refine (match push_arguments_correct m PHYS_BASE (PHYS_BASE + 4100) 0 (PHYS_BASE + 4096)
            [97; 32; 98] S1 _ S2 _ _ M1 (conj M2 U) _ _ with conj _ T => T end).
  - done.
  - done.
  - done.
  - right. unfold PHYS_BASE. page_lia.
  - right. unfold PHYS_BASE. page_lia.
Defined.
