(* ===== verification/Pagedir.v ===== *)
(** * Page tables ([userprog/pagedir.c], [threads/pte.h])

    A page directory and its page tables are pages of the kernel pool, words of
    the memory of [Palloc].  [init_page_dir] and [init_ram_pages] are set at
    boot; the register CR3 holds the physical address of the active page
    directory.  [maps] reads the address translation off the tables; the
    theorems describe the operations by it. *)

From S2P Require Import Prelude Machine FixedPoint Bitmap Palloc.

Open Scope Z_scope.

(** ** [threads/pte.h] *)

Definition PTSHIFT : Z := PGBITS.
Definition PTBITS : Z := 10.
Definition PTMASK : Z := BITMASK PTSHIFT PTBITS.
Definition PDSHIFT : Z := PTSHIFT + PTBITS.

Definition pt_no (va : Z) : Z := Z.shiftr (Z.land va PTMASK) PTSHIFT.
Definition pd_no (va : Z) : Z := Z.shiftr va PDSHIFT.

Definition PTE_ADDR : Z := 4294963200.
Definition PTE_P : Z := 1.
Definition PTE_W : Z := 2.
Definition PTE_U : Z := 4.
Definition PTE_A : Z := 32.
Definition PTE_D : Z := 64.

Definition pde_create (pt : Z) : option Z :=
  assert! pg_ofs pt =? 0;
  p ← vtop pt;
  Some (Z.lor (Z.lor (Z.lor p PTE_U) PTE_P) PTE_W).

Definition pde_get_pt (pde : Z) : option Z :=
  assert! has pde PTE_P;
  ptov (Z.land pde PTE_ADDR).

Definition pte_create_kernel (page : Z) (writable : bool) : option Z :=
  assert! pg_ofs page =? 0;
  p ← vtop page;
  Some (Z.lor (Z.lor p PTE_P) (if writable then PTE_W else 0)).

Definition pte_create_user (page : Z) (writable : bool) : option Z :=
  pte ← pte_create_kernel page writable;
  Some (Z.lor pte PTE_U).

Definition pte_get_page (pte : Z) : option Z := ptov (Z.land pte PTE_ADDR).

(** ** [userprog/pagedir.c] *)

(** [*a = v] on a word. *)
Definition store32 (m : Z → Z) (a v : Z) : Z → Z :=
  λ b, if in_range a 4 b then Z.shiftr v (8 * (b - a)) mod 256 else m b.

(** [memcpy (dst, src, n)] on blocks that do not overlap. *)
Definition copy (m : Z → Z) (dst src n : Z) : Z → Z :=
  λ a, if in_range dst n a then m (src + (a - dst)) else m a.

Section pagedir.
Context (init_page_dir init_ram_pages : Z).

Definition pagedir_create (s : palloc) : option (palloc * Z) :=
  '(s, pd) ← palloc_get_page s 0;
  if negb (pd =? NULL) then
    Some (s <| mem := copy (mem s) pd init_page_dir PGSIZE |>, pd)
  else Some (s, pd).

(** The inner loop of [pagedir_destroy]: [n] page table entries from [pte] on. *)
Fixpoint free_frames (n : nat) (s : palloc) (pte : Z) : option palloc :=
  match n with
  | O => Some s
  | S n =>
      s ← (if has (load32 (mem s) pte) PTE_P then
             page ← pte_get_page (load32 (mem s) pte);
             palloc_free_page s page
           else Some s);
      free_frames n s (pte + 4)
  end.

(** Its outer loop: [n] page directory entries from [pde] on. *)
Fixpoint free_tables (n : nat) (s : palloc) (pde : Z) : option palloc :=
  match n with
  | O => Some s
  | S n =>
      s ← (if has (load32 (mem s) pde) PTE_P then
             pt ← pde_get_pt (load32 (mem s) pde);
             s ← free_frames (Z.to_nat (PGSIZE / 4)) s pt;
             palloc_free_page s pt
           else Some s);
      free_tables n s (pde + 4)
  end.

Definition pagedir_destroy (s : palloc) (pd : Z) : option palloc :=
  if pd =? NULL then Some s
  else
    assert! negb (pd =? init_page_dir);
    s ← free_tables (Z.to_nat (pd_no PHYS_BASE)) s pd;
    palloc_free_page s pd.

(** The address of the page table entry, [NULL] if there is no page table. *)
Definition lookup_page (s : palloc) (pd vaddr : Z) (create : bool) : option (palloc * Z) :=
  assert! negb (pd =? NULL);
  assert! negb create || is_user_vaddr vaddr;
  let pde := pd + 4 * pd_no vaddr in
  '(s, found) ←
    (if load32 (mem s) pde =? 0 then
       if create then
         '(s, pt) ← palloc_get_page s PAL_ZERO;
         if pt =? NULL then Some (s, false)
         else
           e ← pde_create pt;
           Some (s <| mem := store32 (mem s) pde e |>, true)
       else Some (s, false)
     else Some (s, true));
  if (found : bool) then
    pt ← pde_get_pt (load32 (mem s) pde);
    Some (s, pt + 4 * pt_no vaddr)
  else Some (s, NULL).

Definition pagedir_set_page (s : palloc) (pd upage kpage : Z) (writable : bool)
    : option (palloc * bool) :=
  assert! pg_ofs upage =? 0;
  assert! pg_ofs kpage =? 0;
  assert! is_user_vaddr upage;
  frame ← vtop kpage;
  assert! Z.shiftr frame PTSHIFT <? init_ram_pages;
  assert! negb (pd =? init_page_dir);
  '(s, pte) ← lookup_page s pd upage true;
  if negb (pte =? NULL) then
    assert! negb (has (load32 (mem s) pte) PTE_P);
    e ← pte_create_user kpage writable;
    Some (s <| mem := store32 (mem s) pte e |>, true)
  else Some (s, false).

Definition pagedir_get_page (s : palloc) (pd uaddr : Z) : option Z :=
  assert! is_user_vaddr uaddr;
  '(s, pte) ← lookup_page s pd uaddr false;
  if negb (pte =? NULL) && has (load32 (mem s) pte) PTE_P then
    page ← pte_get_page (load32 (mem s) pte);
    Some (page + pg_ofs uaddr)
  else Some NULL.

Definition pagedir_activate (pd : Z) : option Z :=
  let pd := if pd =? NULL then init_page_dir else pd in
  vtop pd.

(** The page directory of the register's value. *)
Definition active_pd (cr3 : Z) : option Z := ptov cr3.

(** The register's new value; writing it clears the TLB. *)
Definition invalidate_pagedir (cr3 pd : Z) : option Z :=
  active ← active_pd cr3;
  if active =? pd then pagedir_activate pd else Some cr3.

(** Clearing bits of an entry also invalidates the directory. *)
Definition clear_bits (s : palloc) (cr3 pd pte bits : Z) : option (palloc * Z) :=
  let s := s <| mem := store32 (mem s) pte (Z.land (load32 (mem s) pte) (not32 bits)) |> in
  cr3 ← invalidate_pagedir cr3 pd;
  Some (s, cr3).

Definition pagedir_clear_page (s : palloc) (cr3 pd upage : Z) : option (palloc * Z) :=
  assert! pg_ofs upage =? 0;
  assert! is_user_vaddr upage;
  '(s, pte) ← lookup_page s pd upage false;
  if negb (pte =? NULL) && has (load32 (mem s) pte) PTE_P then clear_bits s cr3 pd pte PTE_P
  else Some (s, cr3).

Definition pte_flag (s : palloc) (pd vpage flag : Z) : option bool :=
  '(s, pte) ← lookup_page s pd vpage false;
  Some (negb (pte =? NULL) && has (load32 (mem s) pte) flag).

Definition set_pte_flag (s : palloc) (cr3 pd vpage flag : Z) (v : bool) : option (palloc * Z) :=
  '(s, pte) ← lookup_page s pd vpage false;
  if negb (pte =? NULL) then
    if v then Some (s <| mem := store32 (mem s) pte (Z.lor (load32 (mem s) pte) flag) |>, cr3)
    else clear_bits s cr3 pd pte flag
  else Some (s, cr3).

Definition pagedir_is_dirty (s : palloc) (pd vpage : Z) : option bool := pte_flag s pd vpage PTE_D.
Definition pagedir_set_dirty (s : palloc) (cr3 pd vpage : Z) (dirty : bool) : option (palloc * Z) :=
  set_pte_flag s cr3 pd vpage PTE_D dirty.
Definition pagedir_is_accessed (s : palloc) (pd vpage : Z) : option bool := pte_flag s pd vpage PTE_A.
Definition pagedir_set_accessed (s : palloc) (cr3 pd vpage : Z) (accessed : bool)
    : option (palloc * Z) :=
  set_pte_flag s cr3 pd vpage PTE_A accessed.
End pagedir.

(** ** Specification *)

(** The page table of the page directory entry [e]. *)
Definition table_of (e : Z) : Z := PHYS_BASE + (e - e mod 4096).

(** Entry [i] of the page directory or page table [t]. *)
Definition entry (s : palloc) (t i : Z) : Z := load32 (mem s) (t + 4 * i).

(** The page table entry of [va], 0 if there is no page table. *)
Definition pte (s : palloc) (pd va : Z) : Z :=
  let e := entry s pd (pd_no va) in
  if e =? 0 then 0 else entry s (table_of e) (pt_no va).

(** The kernel address that the entry [e] maps [va] to. *)
Definition maps (e va : Z) : option Z :=
  if Z.odd e then
    if e - e mod 4096 <? PHYS_BASE then Some (u32 (table_of e) + va mod 4096) else None
  else Some NULL.

(** [p] is an allocated page of the kernel. *)
Record table_page (s : palloc) (p : Z) : Prop := {
  table_aligned : p mod 4096 = 0;
  table_kernel : PHYS_BASE ≤ p;
  table_fits : p + 4096 ≤ 2 ^ 32;
  table_used : used s p = true;
}.

(** A present entry of a page directory. *)
Record pde_wf (s : palloc) (pd e : Z) : Prop := {
  pde_present : Z.odd e = true;
  pde_addr : 0 ≤ e < 2 ^ 30;
  pde_table : table_page s (table_of e);
  pde_apart : table_of e ≠ pd;
}.

(** A page directory whose user half has a page table of its own in each entry
    that is in use. *)
Record pd_wf (s : palloc) (pd : Z) : Prop := {
  pd_page : table_page s pd;
  pd_entries : ∀ i, 0 ≤ i < 768 → entry s pd i = 0 ∨ pde_wf s pd (entry s pd i);
  pd_distinct : ∀ i j, 0 ≤ i < 768 → 0 ≤ j < 768 → i ≠ j →
    entry s pd i ≠ 0 → entry s pd j ≠ 0 → table_of (entry s pd i) ≠ table_of (entry s pd j);
}.

(** The allocator's state and the kernel pool, which is above [PHYS_BASE]. *)
Definition vm_wf (s : palloc) : Prop := palloc_wf s ∧ PHYS_BASE ≤ base (kernel_pool s).

Definition user_addr (va : Z) : Prop := 0 ≤ va < PHYS_BASE.

(** The addresses are on the same page. *)
Definition same_page (va ua : Z) : bool := va / 4096 =? ua / 4096.

(** ** Words *)

Lemma load32_eq m m' b :
  (∀ k, 0 ≤ k < 4 → m' (b + k) = m (b + k)) → load32 m' b = load32 m b.
Proof.
  intros E. unfold load32. rewrite <-(Z.add_0_r b) at 1 5.
  by rewrite !E by lia.
Qed.

Lemma load32_store32 m a v : is_u32 v → load32 (store32 m a v) a = v.
Proof.
  intros Hv. unfold load32, store32.
  rewrite !(proj2 (in_range_spec a 4 _)) by lia.
  rewrite !Z.shiftr_div_pow2 by lia.
  replace (8 * (a - a)) with 0 by lia. replace (8 * (a + 1 - a)) with 8 by lia.
  replace (8 * (a + 2 - a)) with 16 by lia. replace (8 * (a + 3 - a)) with 24 by lia.
  unfold is_u32, u32 in *.
  change (2 ^ 32) with 4294967296 in *. change (2 ^ 0) with 1. change (2 ^ 8) with 256.
  change (2 ^ 16) with 65536. change (2 ^ 24) with 16777216.
  Z.to_euclidean_division_equations; lia.
Qed.

Lemma load32_store32_ne m a v b : b + 4 ≤ a ∨ a + 4 ≤ b → load32 (store32 m a v) b = load32 m b.
Proof.
  intros D. apply load32_eq. intros k Hk. unfold store32.
  destruct (in_range a 4 (b + k)) eqn:E; [|done]. apply in_range_spec in E. lia.
Qed.

Lemma load32_fill m p n b : p ≤ b → b + 4 ≤ p + n → load32 (fill m p 0 n) b = 0.
Proof.
  intros. unfold load32, fill. by rewrite !(proj2 (in_range_spec p n _)) by lia.
Qed.

Lemma load32_fill_ne m p c n b : b + 4 ≤ p ∨ p + n ≤ b → load32 (fill m p c n) b = load32 m b.
Proof.
  intros D. apply load32_eq. intros k Hk. unfold fill.
  destruct (in_range p n (b + k)) eqn:E; [|done]. apply in_range_spec in E. lia.
Qed.

Lemma load32_u32 m a : is_u32 (load32 m a).
Proof. apply u32_range. Qed.

(** ** Addresses *)

Lemma pd_no_eq va : pd_no va = va / 4194304.
Proof. unfold pd_no. change PDSHIFT with 22. by rewrite Z.shiftr_div_pow2. Qed.

Lemma pt_no_eq va : pt_no va = va / 4096 mod 1024.
Proof.
  unfold pt_no. rewrite Z.shiftr_land. change (Z.shiftr PTMASK PTSHIFT) with (Z.ones 10).
  change PTSHIFT with 12. rewrite Z.land_ones, Z.shiftr_div_pow2 by lia. done.
Qed.

Lemma pd_no_bound va : user_addr va → 0 ≤ pd_no va < 768.
Proof.
  unfold user_addr, PHYS_BASE. rewrite pd_no_eq. intros. Z.to_euclidean_division_equations; lia.
Qed.

Lemma pt_no_bound va : 0 ≤ pt_no va < 1024.
Proof. rewrite pt_no_eq. by apply Z.mod_pos_bound. Qed.

Lemma same_page_no va ua :
  same_page va ua = (pd_no va =? pd_no ua) && (pt_no va =? pt_no ua).
Proof.
  apply eq_true_iff_eq. unfold same_page. rewrite andb_true_iff, !Z.eqb_eq, !pd_no_eq, !pt_no_eq.
  split; [intros E|intros [E1 E2]]; Z.to_euclidean_division_equations; lia.
Qed.

Lemma has_P e : has e PTE_P = Z.odd e.
Proof.
  unfold has, PTE_P. replace (Z.land e 1) with (e mod 2) by (symmetry; apply (Z.land_ones e 1); lia).
  rewrite Zmod_odd. by destruct (Z.odd e).
Qed.

Lemma land_addr e : is_u32 e → Z.land e PTE_ADDR = e - e mod 4096.
Proof. intros. change PTE_ADDR with (not32 (Z.ones 12)). by rewrite land_not_ones. Qed.

(** Tables do not overlap. *)
Lemma tables_apart s p q i j : table_page s p → table_page s q → p ≠ q →
  0 ≤ i < 1024 → 0 ≤ j < 1024 → p + 4 * i + 4 ≤ q + 4 * j ∨ q + 4 * j + 4 ≤ p + 4 * i.
Proof.
  intros [A _ _ _] [B _ _ _] N Hi Hj.
  assert (p + 4096 ≤ q ∨ q + 4096 ≤ p); [|lia].
  revert N A B. clear. Z.to_euclidean_division_equations. lia.
Qed.

(** ** Looking an entry up *)

Lemma pde_get_pt_ok s pd e : pde_wf s pd e → pde_get_pt e = Some (table_of e).
Proof.
  intros [P A T _]. unfold pde_get_pt. rewrite has_P, P. cbn [ASSERT mbind option_bind].
  rewrite land_addr by (unfold is_u32; lia). unfold ptov, table_of, PHYS_BASE in *.
  pose proof (Z.mod_le e 4096 ltac:(lia) ltac:(lia)). pose proof (Z.mod_pos_bound e 4096 ltac:(lia)).
  rewrite ASSERT_true by (apply Z.ltb_lt; lia). cbn [mbind option_bind].
  rewrite u32_small by (unfold is_u32; lia). f_equal. lia.
Qed.

Lemma table_nonnull s p : table_page s p → negb (p =? NULL) = true.
Proof.
  intros T. pose proof (table_kernel s p T). unfold PHYS_BASE, NULL in *.
  by rewrite (proj2 (Z.eqb_neq p 0)) by lia.
Qed.

(** The address of the entry of [va], [NULL] without a page table. *)
Definition pte_addr (s : palloc) (pd va : Z) : Z :=
  let e := entry s pd (pd_no va) in
  if e =? 0 then NULL else table_of e + 4 * pt_no va.

Lemma lookup_page_ok s pd va : pd_wf s pd → user_addr va →
  lookup_page s pd va false = Some (s, pte_addr s pd va).
Proof.
  intros W Hva. unfold lookup_page, pte_addr. rewrite (table_nonnull s) by apply W.
  cbn [ASSERT mbind option_bind negb orb]. fold (entry s pd (pd_no va)).
  destruct (pd_entries s pd W (pd_no va) (pd_no_bound va Hva)) as [E|E].
  { by rewrite E. }
  destruct (entry s pd (pd_no va) =? 0) eqn:E0; cbn [mbind option_bind]; [done|].
  fold (entry s pd (pd_no va)). by rewrite (pde_get_pt_ok s pd).
Qed.

Lemma pte_addr_load s pd va : pd_wf s pd → user_addr va →
  if pte_addr s pd va =? NULL then pte s pd va = 0
  else entry s pd (pd_no va) ≠ 0 ∧ load32 (mem s) (pte_addr s pd va) = pte s pd va.
Proof.
  intros W Hva. unfold pte_addr, pte.
  destruct (pd_entries s pd W (pd_no va) (pd_no_bound va Hva)) as [->|E]; [done|].
  destruct (Z.eqb_spec (entry s pd (pd_no va)) 0); [done|].
  pose proof (table_kernel _ _ (pde_table _ _ _ E)). pose proof (pt_no_bound va).
  rewrite (proj2 (Z.eqb_neq _ NULL)) by (unfold NULL, PHYS_BASE in *; lia). done.
Qed.

(** [pagedir_get_page] translates the address by its entry. *)
Lemma get_page_ok s pd va : pd_wf s pd → user_addr va →
  pagedir_get_page s pd va = maps (pte s pd va) va.
Proof.
  intros W Hva. unfold pagedir_get_page, is_user_vaddr.
  rewrite (ASSERT_true (va <? PHYS_BASE)) by (apply Z.ltb_lt, Hva).
  cbn [mbind option_bind]. rewrite lookup_page_ok by done. cbn [mbind option_bind].
  pose proof (pte_addr_load s pd va W Hva) as L. unfold maps.
  destruct (pte_addr s pd va =? NULL); cbn [negb andb]; [by rewrite L|].
  destruct L as [_ ->]. rewrite has_P. destruct (Z.odd (pte s pd va)) eqn:O; [|done].
  assert (is_u32 (pte s pd va)) as Hu
    by (unfold pte; destruct (_ =? 0); [unfold is_u32; lia|apply load32_u32]).
  unfold pte_get_page, ptov, table_of. rewrite land_addr by done.
  destruct (_ <? PHYS_BASE); [|done]. cbn [ASSERT mbind option_bind].
  rewrite pg_ofs_eq. do 2 f_equal. f_equal. lia.
Qed.

(** ** Writing an entry *)

(** The directory is well formed as long as its entries stay. *)
Lemma pd_wf_keep s s' pd : pd_wf s pd →
  (∀ p, used s p = true → used s' p = true) →
  (∀ i, 0 ≤ i < 768 → entry s' pd i = entry s pd i) → pd_wf s' pd.
Proof.
  intros [[A1 A2 A3 A4] B C] U E. assert (∀ p, table_page s p → table_page s' p) as T.
  { intros p [????]. split; auto. }
  split.
  - by apply T.
  - intros i Hi. rewrite E by done. destruct (B i Hi) as [->|[????]]; [by left|].
    right. split; auto.
  - intros i j Hi Hj. rewrite !E by done. by apply C.
Qed.

Definition write (s : palloc) (a v : Z) : palloc := s <| mem := store32 (mem s) a v |>.

Lemma write_used s a v b : used (write s a v) b = used s b.
Proof. done. Qed.

Lemma entry_write s a v t i : entry (write s a v) t i = load32 (store32 (mem s) a v) (t + 4 * i).
Proof. done. Qed.

Lemma write_vm_wf s a v : vm_wf s → vm_wf (write s a v).
Proof. intros [??]. split; [by apply palloc_wf_mem|done]. Qed.

(** Storing an entry changes the translation of its page only. *)
Lemma write_pte s pd va v : pd_wf s pd → user_addr va → is_u32 v →
  entry s pd (pd_no va) ≠ 0 →
  let s' := write s (pte_addr s pd va) v in
  pd_wf s' pd ∧
  ∀ ua, user_addr ua → pte s' pd ua = if same_page ua va then v else pte s pd ua.
Proof.
  intros W Hva Hv Hne s'.
  set (e := entry s pd (pd_no va)) in *.
  pose proof (pd_no_bound va Hva) as Bd. pose proof (pt_no_bound va) as Bt.
  destruct (pd_entries s pd W (pd_no va) Bd) as [|Pe]; [done|]. fold e in Pe.
  assert (pte_addr s pd va = table_of e + 4 * pt_no va) as Ea.
  { unfold pte_addr. fold e. by rewrite (proj2 (Z.eqb_neq e 0)). }
  assert (∀ t i, table_page s t → 0 ≤ i < 1024 → t ≠ table_of e ∨ i ≠ pt_no va →
            entry s' t i = entry s t i) as K.
  { intros t i T Hi D. unfold s'. rewrite entry_write, Ea. apply load32_store32_ne.
    destruct (decide (t = table_of e)) as [->|N]; [lia|].
    apply (tables_apart s t (table_of e)); [done|apply Pe|done|lia|lia]. }
  assert (∀ i, 0 ≤ i < 768 → entry s' pd i = entry s pd i) as Kd.
  { intros i Hi. apply K; [apply W|lia|left]. intros E. by apply (pde_apart _ _ _ Pe). }
  split; [by eapply pd_wf_keep|].
  intros ua Hua. unfold pte. rewrite Kd by (by apply pd_no_bound). rewrite same_page_no.
  pose proof (pd_no_bound ua Hua) as Bd'. pose proof (pt_no_bound ua) as Bt'.
  destruct (pd_entries s pd W (pd_no ua) Bd') as [Eu|Pu].
  { rewrite Eu, Z.eqb_refl. destruct (Z.eqb_spec (pd_no ua) (pd_no va)) as [E|]; [|done].
    exfalso. apply Hne. unfold e. by rewrite <-E. }
  destruct (Z.eqb_spec (entry s pd (pd_no ua)) 0) as [Eu|Hu].
  { destruct (Z.eqb_spec (pd_no ua) (pd_no va)) as [E|]; [|done]. exfalso. apply Hne. unfold e. by rewrite <-E. }
  destruct (Z.eqb_spec (pd_no ua) (pd_no va)) as [E|N]; cbn [andb].
  - rewrite E. fold e. destruct (Z.eqb_spec (pt_no ua) (pt_no va)) as [->|N].
    + unfold s'. rewrite entry_write, Ea. by apply load32_store32.
    + apply K; [apply Pe|done|by right].
  - apply K; [apply Pu|done|left]. by apply (pd_distinct s pd W).
Qed.

(** ** Creating a page table *)

(** Flags in the low bits of a page's address. *)
Lemma lor_flags p f : p mod 4096 = 0 → 0 ≤ f < 4096 → Z.lor p f = p + f.
Proof. by apply (lor_low 12). Qed.

(** An entry for the page [page] with the flags [f]. *)
Lemma entry_addr page f : page mod 4096 = 0 → PHYS_BASE ≤ page < 2 ^ 32 → 0 ≤ f < 4096 →
  Z.odd f = true →
  let e := Z.lor (page - PHYS_BASE) f in
  table_of e = page ∧ Z.odd e = true ∧ 0 ≤ e < 2 ^ 30.
Proof.
  intros A K Hf O e. set (p := page - PHYS_BASE).
  assert (p mod 4096 = 0) as Hp.
  { unfold p. rewrite Zminus_mod, A. done. }
  assert (0 ≤ p < 2 ^ 30) as Bp by (unfold p, PHYS_BASE in *; lia).
  assert (e = p + f) as -> by (by apply lor_flags).
  assert ((p + f) mod 4096 = f) as Em.
  { rewrite Zplus_mod, Hp, Z.add_0_l, Z.mod_mod by lia. by apply Z.mod_small. }
  unfold table_of. rewrite Em. split; [unfold p; lia|]. split.
  - apply Z.odd_spec in O as [k ->]. apply Z.odd_spec.
    exists (p / 4096 * 2048 + k). pose proof (Z.div_mod p 4096). lia.
  - split; [lia|]. pose proof (Z.div_mod p 4096). lia.
Qed.

Lemma pde_create_ok pt : pt mod 4096 = 0 → PHYS_BASE ≤ pt < 2 ^ 32 →
  ∃ e, pde_create pt = Some e ∧ table_of e = pt ∧ Z.odd e = true ∧ 0 ≤ e < 2 ^ 30.
Proof.
  intros A K. unfold pde_create. rewrite pg_ofs_eq, A. cbn [Z.eqb ASSERT mbind option_bind].
  unfold vtop, is_kernel_vaddr. rewrite ASSERT_true by (apply Z.leb_le, K). cbn [mbind option_bind].
  eexists. split; [done|]. rewrite <-!Z.lor_assoc. by apply entry_addr.
Qed.

Lemma pte_create_user_ok page w : page mod 4096 = 0 → PHYS_BASE ≤ page < 2 ^ 32 →
  ∃ e, pte_create_user page w = Some e ∧ table_of e = page ∧ Z.odd e = true ∧ 0 ≤ e < 2 ^ 30.
Proof.
  intros A K. unfold pte_create_user, pte_create_kernel.
  rewrite pg_ofs_eq, A. cbn [Z.eqb ASSERT mbind option_bind].
  unfold vtop, is_kernel_vaddr. rewrite ASSERT_true by (apply Z.leb_le, K). cbn [mbind option_bind].
  eexists. split; [done|]. rewrite <-!Z.lor_assoc. by apply entry_addr; destruct w.
Qed.

(** The state after a new page table [pt] is entered for [va]. *)
Record new_table (s s' : palloc) (pd va pt e : Z) : Prop := {
  new_free : ∀ p, table_page s p → p ≠ pt;
  new_pt : table_page s' pt;
  new_pde : table_of e = pt ∧ Z.odd e = true ∧ 0 ≤ e < 2 ^ 30;
  new_used : ∀ p, used s p = true → used s' p = true;
  new_entry : entry s' pd (pd_no va) = e;
  new_zero : ∀ i, 0 ≤ i < 1024 → entry s' pt i = 0;
  new_others : ∀ t i, table_page s t → 0 ≤ i < 1024 → t ≠ pd ∨ i ≠ pd_no va →
    entry s' t i = entry s t i;
}.

Lemma new_table_pages s s' pd va pt e p : new_table s s' pd va pt e →
  table_page s p → table_page s' p.
Proof. intros N [????]. split; [done..|]. by apply (new_used _ _ _ _ _ _ N). Qed.

Lemma new_table_wf s s' pd va pt e : pd_wf s pd → new_table s s' pd va pt e → pd_wf s' pd.
Proof.
  intros W N. pose proof (new_pde _ _ _ _ _ _ N) as (Et & O & Be).
  assert (∀ i, 0 ≤ i < 768 → i ≠ pd_no va → entry s' pd i = entry s pd i) as K.
  { intros i Hi D. apply (new_others _ _ _ _ _ _ N); [apply W|lia|by right]. }
  assert (∀ i, 0 ≤ i < 768 → entry s pd i ≠ 0 → table_of (entry s pd i) ≠ pt) as T.
  { intros i Hi H. apply (new_free _ _ _ _ _ _ N).
    destruct (pd_entries s pd W i Hi) as [|P]; [done|apply P]. }
  split.
  - eapply new_table_pages; [exact N|apply W].
  - intros i Hi. destruct (decide (i = pd_no va)) as [->|D].
    + rewrite (new_entry _ _ _ _ _ _ N). right.
      split; [done|done|rewrite Et; apply N|].
      rewrite Et. intros ->. by apply (new_free _ _ _ _ _ _ N pd (pd_page s pd W)).
    + rewrite K by done. destruct (pd_entries s pd W i Hi) as [|[????]]; [by left|].
      right. split; [done|done|by eapply new_table_pages|done].
  - intros i j Hi Hj D. destruct (decide (i = pd_no va)) as [->|Di], (decide (j = pd_no va)) as [->|Dj];
      rewrite ?(new_entry _ _ _ _ _ _ N), ?K, ?Et by done; intros Hei Hej.
    + done.
    + intros E. by apply (T j Hj).
    + by apply T.
    + by apply (pd_distinct s pd W).
Qed.

Lemma new_table_pte s s' pd va pt e ua : pd_wf s pd → new_table s s' pd va pt e →
  entry s pd (pd_no va) = 0 → user_addr ua → pte s' pd ua = pte s pd ua.
Proof.
  intros W N E0 Hua. pose proof (new_pde _ _ _ _ _ _ N) as (Et & O & Be).
  pose proof (pd_no_bound ua Hua). pose proof (pt_no_bound ua). unfold pte.
  destruct (decide (pd_no ua = pd_no va)) as [->|D].
  - rewrite (new_entry _ _ _ _ _ _ N), E0, Et.
    rewrite (new_zero _ _ _ _ _ _ N) by done. by destruct (e =? 0).
  - rewrite (new_others _ _ _ _ _ _ N pd) by (by right || apply W || lia).
    destruct (pd_entries s pd W (pd_no ua)) as [->|P]; [done|done|].
    destruct (_ =? 0); [done|].
    apply (new_others _ _ _ _ _ _ N); [apply P|done|left; apply P].
Qed.

(** Allocating a zeroed page and entering it makes a new table. *)
Lemma alloc_table s s1 pd va pt e :
  vm_wf s → pd_wf s pd → user_addr va → get_spec s PAL_ZERO 1 (Some (s1, pt)) → pt ≠ NULL →
  table_of e = pt → Z.odd e = true → 0 ≤ e < 2 ^ 30 →
  new_table s (write s1 (pd + 4 * pd_no va) e) pd va pt e.
Proof.
  intros [Wp Hk] W Hva G Hpt Et O Be. unfold get_spec in G.
  change (has PAL_ZERO PAL_USER) with false in G. change (has PAL_ZERO PAL_ZERO) with true in G.
  rewrite (proj2 (Z.eqb_neq pt NULL)) in G by done. simpl get_pool in G.
  destruct G as (Wp1 & SP & F & U & M). pose proof F as (Hal & Hb & He & Hf).
  assert (∀ p, table_page s p → p + 4096 ≤ pt ∨ pt + 4096 ≤ p) as D.
  { intros p T. pose proof (table_aligned s p T) as Ap. pose proof (table_used s p T) as Up.
    destruct (in_block pt 1 p) eqn:Ei.
    - rewrite (free_block_unused s false pt 1 p) in Up; done.
    - unfold in_block in Ei. apply not_true_iff_false in Ei. rewrite in_range_spec in Ei.
      change PGSIZE with 4096 in Ei. Z.to_euclidean_division_equations; lia. }
  change (PGSIZE * 1) with 4096 in *.
  pose proof (pd_no_bound va Hva). pose proof (D pd (pd_page s pd W)) as Dpd.
  split.
  - intros p T. specialize (D p T). lia.
  - pose proof (pool_fits _ (palloc_kernel s Wp)). split; [done|lia|lia|].
    rewrite write_used, U. apply orb_true_iff. left. apply in_range_spec. change PGSIZE with 4096. lia.
  - done.
  - intros p Hp. rewrite write_used, U, Hp. apply orb_true_r.
  - apply load32_store32. unfold is_u32. lia.
  - intros i Hi. rewrite entry_write, load32_store32_ne by lia.
    rewrite M. apply load32_fill; lia.
  - intros t i T Hi Di. specialize (D t T). rewrite entry_write.
    rewrite load32_store32_ne, M, load32_fill_ne; [done|lia|].
    destruct (decide (t = pd)) as [->|N]; [lia|].
    apply (tables_apart s t pd); [done|apply W|done|done|lia].
Qed.

(** No page of the kernel pool is free. *)
Definition no_kernel_page (s : palloc) : Prop := ∀ pages, ¬ free_block (kernel_pool s) pages 1.

(** What [lookup_page] does when it may create a page table. *)
Definition created (s : palloc) (pd va : Z) (s' : palloc) (r : Z) : Prop :=
  (r = NULL ∧ s' = s ∧ no_kernel_page s) ∨
  (r = pte_addr s' pd va ∧ entry s' pd (pd_no va) ≠ 0 ∧ vm_wf s' ∧ pd_wf s' pd ∧
   ∀ ua, user_addr ua → pte s' pd ua = pte s pd ua).

Lemma same_pools_vm s s' : vm_wf s → palloc_wf s' → same_pools s s' → vm_wf s'.
Proof.
  intros [_ K] W SP. split; [done|]. destruct (SP false) as [E _]. simpl in E. by rewrite E.
Qed.

Lemma lookup_create_ok s pd va : vm_wf s → pd_wf s pd → user_addr va →
  ∃ s' r, lookup_page s pd va true = Some (s', r) ∧ created s pd va s' r.
Proof.
  intros V W Hva. unfold lookup_page, is_user_vaddr. rewrite (table_nonnull s) by apply W.
  rewrite (proj2 (Z.ltb_lt va PHYS_BASE)) by apply Hva.
  cbn [ASSERT mbind option_bind negb orb]. fold (entry s pd (pd_no va)).
  destruct (Z.eqb_spec (entry s pd (pd_no va)) 0) as [E0|E0].
  - pose proof (palloc_get_ok s PAL_ZERO 1 (proj1 V) ltac:(lia)) as G.
    unfold palloc_get_page. destruct (palloc_get_multiple s PAL_ZERO 1) as [[s1 pt]|];
      [|by destruct G]. cbn [mbind option_bind].
    destruct (Z.eqb_spec pt NULL) as [->|Hpt]; cbn [mbind option_bind].
    { destruct G as (_ & _ & -> & F). exists s, NULL. split; [done|]. by left. }
    pose proof G as (W1 & SP & G'). rewrite (proj2 (Z.eqb_neq pt NULL)) in G' by done.
    destruct G' as ((Hal & Hb & He & _) & _). change (has PAL_ZERO PAL_USER) with false in Hb, He.
    simpl in Hb, He. change (PGSIZE * 1) with 4096 in He.
    pose proof (pool_fits _ (palloc_kernel s (proj1 V))). destruct V as [V1 V2].
    destruct (pde_create_ok pt Hal) as (e & -> & Et & O & Be); [lia|]. cbn [mbind option_bind].
    pose proof (alloc_table s s1 pd va pt e (conj V1 V2) W Hva G Hpt Et O Be) as N.
    fold (write s1 (pd + 4 * pd_no va) e). set (s' := write s1 _ e) in *.
    pose proof (new_table_wf _ _ _ _ _ _ W N) as W'. fold (entry s' pd (pd_no va)).
    assert (entry s' pd (pd_no va) ≠ 0) as Ne.
    { rewrite (new_entry _ _ _ _ _ _ N). intros ->. done. }
    destruct (pd_entries s' pd W' (pd_no va) (pd_no_bound va Hva)) as [|P]; [done|].
    rewrite (pde_get_pt_ok s' pd) by done. cbn [mbind option_bind].
    eexists _, _. split; [done|]. right. split; [by apply Z.eqb_neq in Ne; unfold pte_addr; rewrite Ne|].
    split; [done|]. split; [apply write_vm_wf, (same_pools_vm s); done|]. split; [done|].
    intros ua Hua. by eapply new_table_pte.
  - cbn [mbind option_bind]. fold (entry s pd (pd_no va)).
    destruct (pd_entries s pd W (pd_no va) (pd_no_bound va Hva)) as [|P]; [done|].
    rewrite (pde_get_pt_ok s pd) by done. cbn [mbind option_bind].
    eexists _, _. split; [done|]. right.
    split; [by apply Z.eqb_neq in E0; unfold pte_addr; rewrite E0|done].
Qed.

(** A frame that [pagedir_set_page] accepts. *)
Definition frame_ok (init_ram_pages kpage : Z) : Prop :=
  kpage mod 4096 = 0 ∧ PHYS_BASE ≤ kpage < 2 ^ 32 ∧
  (kpage - PHYS_BASE) / 4096 < init_ram_pages.

Lemma maps_frame e kpage va : table_of e = kpage → Z.odd e = true → 0 ≤ e < 2 ^ 30 →
  PHYS_BASE ≤ kpage < 2 ^ 32 → maps e va = Some (kpage + va mod 4096).
Proof.
  intros Et O Be K. unfold maps. rewrite O, Et, u32_small by (unfold is_u32, PHYS_BASE in *; lia).
  pose proof (Z.mod_pos_bound e 4096). rewrite (proj2 (Z.ltb_lt _ _)); [done|].
  unfold PHYS_BASE. lia.
Qed.

Lemma pte_addr_nonnull s pd va : pd_wf s pd → user_addr va →
  entry s pd (pd_no va) ≠ 0 → (pte_addr s pd va =? NULL) = false.
Proof.
  intros W Hva Ne. destruct (pd_entries s pd W _ (pd_no_bound _ Hva)) as [|P]; [done|].
  unfold pte_addr. apply Z.eqb_neq in Ne as ->. apply Z.eqb_neq.
  pose proof (table_kernel _ _ (pde_table _ _ _ P)). pose proof (pt_no_bound va).
  unfold NULL, PHYS_BASE in *. lia.
Qed.

(** C16: [pagedir_set_page] maps the page [upage], which is not mapped, to the frame [kpage] and
    [pagedir_get_page] translates by it: afterwards the addresses of [upage], and
    they only, lead to [kpage], each at its offset.  It fails, and then changes
    nothing, only when a page table is missing and the kernel pool has no page
    for it.  The directory stays well formed. *)
Theorem pagedir_set_page_correct init_page_dir ram s pd upage kpage w :
  vm_wf s → pd_wf s pd → pd ≠ init_page_dir →
  user_addr upage → upage mod 4096 = 0 → frame_ok ram kpage →
  Z.odd (pte s pd upage) = false →
  ∃ s' ok, pagedir_set_page init_page_dir ram s pd upage kpage w = Some (s', ok) ∧
    vm_wf s' ∧ pd_wf s' pd ∧
    (ok = false → s' = s ∧ no_kernel_page s) ∧
    ∀ ua, user_addr ua → pagedir_get_page s' pd ua =
      if ok && same_page ua upage then Some (kpage + ua mod 4096) else pagedir_get_page s pd ua.
Proof.
  intros V W Hi Hu Hal (Ka & Kb & Kr) HP.
  unfold pagedir_set_page, vtop, is_kernel_vaddr, is_user_vaddr.
  rewrite !pg_ofs_eq, Hal, Ka, (proj2 (Z.ltb_lt upage PHYS_BASE)), (proj2 (Z.leb_le PHYS_BASE kpage)),
    (proj2 (Z.eqb_neq pd init_page_dir)) by (done || lia || apply Hu).
  cbn [Z.eqb ASSERT mbind option_bind negb].
  change PTSHIFT with 12. rewrite Z.shiftr_div_pow2, (proj2 (Z.ltb_lt _ ram)) by done.
  cbn [ASSERT mbind option_bind].
  destruct (lookup_create_ok s pd upage V W Hu) as (s1 & r & -> & [(-> & -> & F)|(-> & Ne & V1 & W1 & K)]);
    cbn [mbind option_bind].
  { exists s, false. split; [done|]. split; [done|]. split; [done|]. by split. }
  pose proof (pte_addr_load s1 pd upage W1 Hu) as L.
  rewrite pte_addr_nonnull in L |- * by done. destruct L as [_ L]. cbn [negb]. rewrite L, has_P, K, HP by done.
  cbn [negb ASSERT mbind option_bind].
  destruct (pte_create_user_ok kpage w Ka Kb) as (e & -> & Et & O & Be). cbn [mbind option_bind].
  fold (write s1 (pte_addr s1 pd upage) e).
  destruct (write_pte s1 pd upage e W1 Hu) as [W2 P2]; [unfold is_u32; lia|done|].
  eexists _, true. split; [done|]. split; [by apply write_vm_wf|]. split; [done|]. split; [done|].
  intros ua Hua. rewrite !get_page_ok, P2 by done. cbn [andb].
  destruct (same_page ua upage); [by apply maps_frame|]. by rewrite K.
Qed.

(** ** Clearing an entry *)

Lemma invalidate_ok cr3 init pd : cr3 < PHYS_BASE → PHYS_BASE ≤ pd →
  is_Some (invalidate_pagedir init cr3 pd).
Proof.
  intros H K. unfold invalidate_pagedir, active_pd, ptov, pagedir_activate, vtop, is_kernel_vaddr.
  rewrite (proj2 (Z.ltb_lt cr3 PHYS_BASE)) by done. cbn [ASSERT mbind option_bind].
  destruct (_ =? pd); [|by eexists].
  rewrite (proj2 (Z.eqb_neq pd NULL)) by (unfold NULL, PHYS_BASE in *; lia).
  rewrite (proj2 (Z.leb_le PHYS_BASE pd)) by done. by eexists.
Qed.

Lemma land_not_1 e : is_u32 e → Z.land e (not32 1) = e - e mod 2.
Proof. intros. change 1 with (Z.ones 1). by rewrite land_not_ones. Qed.

(** [pagedir_clear_page] unmaps the page [upage], and it only: its
    addresses translate to nothing and every other address as before. *)
Theorem pagedir_clear_page_correct init cr3 s pd upage :
  vm_wf s → pd_wf s pd → user_addr upage → upage mod 4096 = 0 → cr3 < PHYS_BASE →
  ∃ s' cr3', pagedir_clear_page init s cr3 pd upage = Some (s', cr3') ∧
    vm_wf s' ∧ pd_wf s' pd ∧
    ∀ ua, user_addr ua → pagedir_get_page s' pd ua =
      if same_page ua upage then Some NULL else pagedir_get_page s pd ua.
Proof.
  intros V W Hu Hal Hc. unfold pagedir_clear_page, is_user_vaddr.
  rewrite pg_ofs_eq, Hal, (proj2 (Z.ltb_lt upage PHYS_BASE)) by apply Hu.
  cbn [Z.eqb ASSERT mbind option_bind]. rewrite lookup_page_ok by done. cbn [mbind option_bind].
  pose proof (pte_addr_load s pd upage W Hu) as L.
  assert (∀ ua, same_page ua upage = true → pte s pd ua = pte s pd upage) as Es.
  { intros ua. rewrite same_page_no, andb_true_iff, !Z.eqb_eq. unfold pte. by intros [-> ->]. }
  assert (Z.odd (pte s pd upage) = false → ∀ ua, user_addr ua → pagedir_get_page s pd ua =
    if same_page ua upage then Some NULL else pagedir_get_page s pd ua) as Un.
  { intros O ua Hua. destruct (same_page ua upage) eqn:E; [|done].
    rewrite get_page_ok, Es by done. unfold maps. by rewrite O. }
  destruct (pte_addr s pd upage =? NULL) eqn:En; cbn [negb andb].
  { exists s, cr3. split; [done|]. split; [done|]. split; [done|]. apply Un. by rewrite L. }
  destruct L as [Ne L]. rewrite L, has_P. destruct (Z.odd (pte s pd upage)) eqn:O.
  2: { exists s, cr3. split; [done|]. split; [done|]. split; [done|]. by apply Un. }
  unfold clear_bits. rewrite L. fold (write s (pte_addr s pd upage) (Z.land (pte s pd upage) (not32 PTE_P))).
  destruct (invalidate_ok cr3 init pd Hc) as [c ->]; [apply W|]. cbn [mbind option_bind].
  assert (is_u32 (pte s pd upage)) as Hp by (rewrite <-L; apply load32_u32).
  pose proof (Z.mod_pos_bound (pte s pd upage) 2 ltac:(lia)).
  assert (Z.odd (Z.land (pte s pd upage) (not32 PTE_P)) = false) as O'.
  { unfold PTE_P. rewrite land_not_1 by done. rewrite Zmod_odd, O, Z.odd_sub, O. done. }
  destruct (write_pte s pd upage (Z.land (pte s pd upage) (not32 PTE_P)) W Hu) as [W' P'];
    [unfold PTE_P; rewrite land_not_1 by done; rewrite Zmod_odd, O in *|done|].
  { unfold is_u32 in *. destruct (decide (pte s pd upage = 0)) as [E|]; [by rewrite E in O|lia]. }
  eexists _, _. split; [done|]. split; [by apply write_vm_wf|]. split; [done|].
  intros ua Hua. rewrite !get_page_ok, P' by done.
  destruct (same_page ua upage); [|done]. unfold maps. by rewrite O'.
Qed.

(** ** Witnesses *)

(** A page directory without page tables in the first page of a kernel pool. *)
Definition example_pd : Z := PHYS_BASE + 65536.
Definition vm_example : palloc :=
  mk_palloc (mk_pool (mk_bitmap 10 [1]) example_pd)
    (mk_pool (mk_bitmap 5 [0]) (PHYS_BASE + 131072)) (λ _, 0).

Lemma vm_example_wf : vm_wf vm_example ∧ pd_wf vm_example example_pd.
Proof.
  assert (∀ n w, 0 ≤ n < 32 → is_u32 w → wf (mk_bitmap n [w])) as Wb.
  { intros n w Hn Hw. split; simpl; [unfold is_u32; lia|lia|by constructor]. }
  split; [split; [split; [split..|]|]|split].
  all: try (apply Wb; unfold is_u32; lia).
  all: try (vm_compute; congruence).
  - by split.
  - intros i _. by left.
Qed.

Lemma pagedir_set_page_correct_witness :
  ∃ s', pagedir_set_page PHYS_BASE 1024 vm_example example_pd 134512640 (PHYS_BASE + 131072) true =
          Some (s', true) ∧
        pagedir_get_page s' example_pd 134512645 = Some (PHYS_BASE + 131077) ∧
        pagedir_get_page s' example_pd 4096 = Some NULL.
Proof.
  destruct vm_example_wf as [V W].
  destruct (pagedir_set_page_correct PHYS_BASE 1024 vm_example example_pd 134512640
              (PHYS_BASE + 131072) true V W) as (s' & ok & E & _ & _ & _ & T).
  - done.
  - done.
  - done.
  - split; [done|]. split; done.
  - done.
  - assert (snd <$> pagedir_set_page PHYS_BASE 1024 vm_example example_pd 134512640
              (PHYS_BASE + 131072) true = Some true) as Ok by (vm_compute; reflexivity).
    rewrite E in Ok. injection Ok as ->. exists s'. split; [done|].
    split; rewrite T by done; by vm_compute.
Defined.

(** The example with a page mapped. *)
Definition mapped_example : palloc :=
  mk_palloc (mk_pool (mk_bitmap 10 [3]) example_pd)
    (mk_pool (mk_bitmap 5 [1]) (PHYS_BASE + 131072))
    (store32 (store32 (λ _, 0) (example_pd + 128) 69639) (example_pd + 4096 + 288) 131079).

Lemma mapped_entry i : 0 ≤ i < 768 →
  entry mapped_example example_pd i = if i =? 32 then 69639 else 0.
Proof.
  intros Hi. unfold entry. simpl mem. rewrite load32_store32_ne by lia.
  destruct (Z.eqb_spec i 32) as [->|]; [by apply load32_store32|].
  rewrite load32_store32_ne by lia. done.
Qed.

Lemma mapped_example_wf : vm_wf mapped_example ∧ pd_wf mapped_example example_pd.
Proof.
  assert (∀ n w, 0 ≤ n < 32 → is_u32 w → wf (mk_bitmap n [w])) as Wb.
  { intros n w Hn Hw. split; simpl; [unfold is_u32; lia|lia|by constructor]. }
  split.
  - split; [split; [split..|]|]; try (apply Wb; unfold is_u32; lia); vm_compute; congruence.
  - split; [by split| |].
    + intros i Hi. rewrite mapped_entry by done. destruct (i =? 32); [right|by left].
      split; [done|done|by split|done].
    + intros i j Hi Hj D. rewrite !mapped_entry by done.
      destruct (Z.eqb_spec i 32), (Z.eqb_spec j 32); congruence.
Qed.

Lemma pagedir_clear_page_correct_witness :
  ∃ s' cr3', pagedir_clear_page PHYS_BASE mapped_example 65536 example_pd 134512640 = Some (s', cr3') ∧
    pagedir_get_page mapped_example example_pd 134512645 = Some (PHYS_BASE + 131077) ∧
    pagedir_get_page s' example_pd 134512645 = Some NULL.
Proof.
  destruct mapped_example_wf as [V W].
  destruct (pagedir_clear_page_correct PHYS_BASE 65536 mapped_example example_pd 134512640 V W)
    as (s' & cr3' & E & _ & _ & T); [done..|].
  exists s', cr3'. split; [done|]. split; [by vm_compute|]. by rewrite T by done.
Defined.
