(* ===== verification/Syscall.v ===== *)
(** * System calls ([userprog/syscall.c])

    The handler reads the call's number and arguments from the user's stack and
    works on the caller's file descriptors, its memory and the file system.  The
    memory is the address space of the process: an address below [PHYS_BASE]
    that is mapped is the user's.  Some of the pages are mapped without
    [PTE_W], as [load_segment] maps code; the kernel runs with [CR0_WP]
    ([start.S]), so that its own store there faults, and [kill] panics on a
    fault of the kernel.  The code between [lock_acquire] and
    [lock_release] of [filesys_lock] is one step.  [process_execute] and
    [process_wait] are the callers' continuations of [Exec] and [Wait]. *)

From S2P Require Import Prelude Machine Bytes FixedPoint Bitmap Block FsState InodeIo.
From S2P Require Import FreeMap Inode Directory Filesys CString Args.

Open Scope Z_scope.

(** [lib/syscall-nr.h]. *)
Definition SYS_HALT : Z := 0.
Definition SYS_EXIT : Z := 1.
Definition SYS_EXEC : Z := 2.
Definition SYS_WAIT : Z := 3.
Definition SYS_CREATE : Z := 4.
Definition SYS_REMOVE : Z := 5.
Definition SYS_OPEN : Z := 6.
Definition SYS_FILESIZE : Z := 7.
Definition SYS_READ : Z := 8.
Definition SYS_WRITE : Z := 9.
Definition SYS_SEEK : Z := 10.
Definition SYS_TELL : Z := 11.
Definition SYS_CLOSE : Z := 12.

(** What a process owns of [struct thread], its memory, the numbers of the pages
    that are read-only, what it has written to
    the console, the keys that [input_getc] will get, and the file system. *)
Record proc (D : Type) := mk_proc {
  p_fs : fs D;
  p_mem : memory;
  p_ro : gset Z;
  fd_table : list Z;
  next_fd : Z;
  exec_file : Z;
  exit_status : Z;
  console : list Z;
  keys : list Z;
}.
Arguments mk_proc {D} _ _ _ _ _ _ _ _ _.
Arguments p_fs {D} _.
Arguments p_mem {D} _.
Arguments p_ro {D} _.
Arguments fd_table {D} _.
Arguments next_fd {D} _.
Arguments exec_file {D} _.
Arguments exit_status {D} _.
Arguments console {D} _.
Arguments keys {D} _.
#[export] Instance proc_ctor D : Ctor (proc D) := λ p,
  mk_proc (p_fs p) (p_mem p) (p_ro p) (fd_table p) (next_fd p) (exec_file p) (exit_status p)
    (console p) (keys p).

(** How a system call ends: it returns with [eax], calls [thread_exit], goes on
    to [process_execute] or [process_wait], switches the machine off, waits for
    a key, or panics the kernel, which includes an access by the kernel to
    memory that is not mapped and a store to a read-only page. *)
Inductive outcome (D : Type) : Type :=
| Return (p : proc D) (eax : Z)
| Exit (p : proc D)
| Exec (p : proc D) (cmd_line : Z)
| Wait (p : proc D) (pid : Z)
| PowerOff
| Sleep
| Panic.
Arguments Return {D} _ _.
Arguments Exit {D} _.
Arguments Exec {D} _ _.
Arguments Wait {D} _ _.
Arguments PowerOff {D}.
Arguments Sleep {D}.
Arguments Panic {D}.

(** The number of descriptors, [fd_table]'s length. *)
Definition NFILES : Z := 128.

(** The value of [-1] in [eax]. *)
Definition MINUS1 : Z := 2 ^ 32 - 1.

Definition valid_byte (m : memory) (p : Z) : bool :=
  negb (p =? NULL) && is_user_vaddr p && bool_decide (is_Some (m !! p)).

(** [check_valid_ptr] does not end the process. *)
Definition check_valid_ptr (m : memory) (vaddr : Z) : bool :=
  forallb (λ i, valid_byte m (u32 (vaddr + i))) [0; 1; 2; 3].

(** [check_valid_range], which no system call uses. *)
Definition check_valid_range (m : memory) (vaddr size : Z) : bool :=
  forallb (λ i, check_valid_ptr m (u32 (vaddr + i))) (seqZ 0 size).

(** The word at [a]. *)
Definition read32 (m : memory) (a : Z) : option Z :=
  b0 ← m !! u32 a;
  b1 ← m !! u32 (a + 1);
  b2 ← m !! u32 (a + 2);
  b3 ← m !! u32 (a + 3);
  Some (le [b0; b1; b2; b3]).

(** The string at [p]. *)
Fixpoint read_string (n : nat) (m : memory) (p : Z) : option (list Z) :=
  match n with
  | O => None
  | S n =>
      c ← m !! p;
      if c =? 0 then Some [] else s ← read_string n m (p + 1); Some (c :: s)
  end.

(** What is mapped of the [n] bytes from [p] on, up to a gap. *)
Fixpoint read_buffer (fuel : nat) (m : memory) (p n : Z) : list Z :=
  match fuel with
  | O => []
  | S fuel =>
      if n <=? 0 then []
      else
        match m !! p with
        | Some b => b :: read_buffer fuel m (p + 1) (n - 1)
        | None => []
        end
  end.

(** A store by the kernel, which faults on the read-only pages [ro]. *)
Definition read_only (ro : gset Z) (p : Z) : bool := bool_decide (p / PGSIZE ∈ ro).
Definition store_user (ro : gset Z) (m : memory) (p b : Z) : option memory :=
  if read_only ro p then None else store m p b.

(** Storing bytes at [p]. *)
Fixpoint write_buffer (ro : gset Z) (m : memory) (p : Z) (bs : list Z) : option memory :=
  match bs with
  | [] => Some m
  | b :: bs => m ← store_user ro m p b; write_buffer ro m (p + 1) bs
  end.

(** [if (! valid) thread_exit (); k]. *)
Definition checked {D} (p : proc D) (vaddr : Z) (k : outcome D) : outcome D :=
  if check_valid_ptr (p_mem p) vaddr then k else Exit (p <| exit_status := -1 |>).

Definition run {A D} (o : option A) (k : A → outcome D) : outcome D :=
  match o with
  | Some x => k x
  | None => Panic
  end.

Declare Scope syscall_scope.
Notation "'check!' p , a ; k" := (checked p a k)
  (at level 100, p at level 0, a at level 99, k at level 200) : syscall_scope.
Notation "'let!' x := o 'in' k" := (run o (λ x, k))
  (at level 100, x pattern at level 0, o at level 99, k at level 200) : syscall_scope.
Open Scope syscall_scope.

Section syscall.

Context {D : Type} `{BlockDev D}.
Implicit Type p : proc D.

(** The file of a descriptor that is in range and open, else [NULL]. *)
Definition fd_file p (fd : Z) : Z :=
  if (2 <=? fd) && (fd <? NFILES) then fd_table p !!! Z.to_nat fd else NULL.

(** The string a pointer argument leads to. *)
Definition user_string p (a : Z) : option (list Z) := read_string (fuel (p_mem p)) (p_mem p) a.

Definition sys_open p (esp : Z) : outcome D :=
  check! p, u32 (esp + 4);
  let! open_file := read32 (p_mem p) (esp + 4) in
  check! p, open_file;
  let! name := user_string p open_file in
  let! (f, opened_file) := filesys_open (p_fs p) name in
  let p := p <| p_fs := f |> in
  if opened_file =? NULL then Return p MINUS1
  else if next_fd p <? NFILES then
    Return (p <| fd_table ::= <[Z.to_nat (next_fd p) := opened_file]> |> <| next_fd ::= Z.succ |>)
      (next_fd p)
  else Return p MINUS1.

Definition sys_close p (esp eax : Z) : outcome D :=
  check! p, u32 (esp + 4);
  let! w := read32 (p_mem p) (esp + 4) in
  let close_fd := int32 w in
  if negb (fd_file p close_fd =? NULL) then
    let! f := file_close (p_fs p) (fd_file p close_fd) in
    Return (p <| p_fs := f |> <| fd_table ::= <[Z.to_nat close_fd := NULL]> |>) eax
  else Return p eax.

Definition sys_exec p (esp : Z) : outcome D :=
  check! p, u32 (esp + 4);
  let! cmd_line := read32 (p_mem p) (esp + 4) in
  check! p, cmd_line;
  Exec p cmd_line.

Definition sys_wait p (esp : Z) : outcome D :=
  check! p, u32 (esp + 4);
  let! w := read32 (p_mem p) (esp + 4) in
  Wait p (int32 w).

(** [e0] is what the stack holds where [dir_add] has its entry. *)
Definition sys_create p (e0 : list Z) (esp : Z) : outcome D :=
  check! p, u32 (esp + 4);
  check! p, u32 (esp + 8);
  let! create_file := read32 (p_mem p) (esp + 4) in
  let! initial_size := read32 (p_mem p) (esp + 8) in
  check! p, create_file;
  let! name := user_string p create_file in
  let! (f, ok) := filesys_create (p_fs p) e0 name (int32 initial_size) in
  Return (p <| p_fs := f |>) (if ok then 1 else 0).

Definition sys_remove p (esp : Z) : outcome D :=
  check! p, u32 (esp + 4);
  let! remove_file := read32 (p_mem p) (esp + 4) in
  check! p, remove_file;
  let! name := user_string p remove_file in
  let! (f, ok) := filesys_remove (p_fs p) name in
  Return (p <| p_fs := f |>) (if ok then 1 else 0).

Definition sys_exit p (esp : Z) : outcome D :=
  check! p, u32 (esp + 4);
  let! w := read32 (p_mem p) (esp + 4) in
  Exit (p <| exit_status := int32 w |>).

(** The loop that reads [size] keys into [buf]. *)
Fixpoint read_keys (n : nat) p (buf size eax : Z) : outcome D :=
  match n with
  | O => Sleep
  | S n =>
      if size <=? 0 then Return p eax
      else
        match keys p with
        | [] => Sleep
        | key :: rest =>
            let! m := store_user (p_ro p) (p_mem p) buf key in
            read_keys n (p <| p_mem := m |> <| keys := rest |>) (buf + 1) (size - 1) eax
        end
  end.

Definition sys_read p (esp : Z) : outcome D :=
  check! p, u32 (esp + 4);
  check! p, u32 (esp + 8);
  check! p, u32 (esp + 12);
  let! w := read32 (p_mem p) (esp + 4) in
  let! buffer := read32 (p_mem p) (esp + 8) in
  let! size := read32 (p_mem p) (esp + 12) in
  let fd := int32 w in
  check! p, buffer;
  let body :=
    if fd =? 0 then read_keys (S (length (keys p))) p buffer size size
    else if negb (fd_file p fd =? NULL) then
      let! (f, got) := file_read (p_fs p) (fd_file p fd) (int32 size) in
      let! m := write_buffer (p_ro p) (p_mem p) buffer got in
      Return (p <| p_fs := f |> <| p_mem := m |>) (Z.of_nat (length got))
    else Return p MINUS1 in
  if 0 <? size then check! p, u32 (buffer + size - 1); body else body.

(** The arguments are read before they are checked. *)
Definition sys_write p (esp : Z) : outcome D :=
  let! w := read32 (p_mem p) (esp + 4) in
  let! buffer := read32 (p_mem p) (esp + 8) in
  let! size := read32 (p_mem p) (esp + 12) in
  let fd := int32 w in
  check! p, u32 (esp + 4);
  check! p, u32 (esp + 8);
  check! p, u32 (esp + 12);
  check! p, buffer;
  let bytes := read_buffer (fuel (p_mem p)) (p_mem p) buffer size in
  if fd =? 1 then
    if Z.of_nat (length bytes) =? size then
      Return (p <| console ::= λ out, out ++ bytes |>) size
    else Panic
  else if negb (fd_file p fd =? NULL) then
    let! (f, n) := file_write (p_fs p) (fd_file p fd) bytes (int32 size) in
    Return (p <| p_fs := f |>) (u32 n)
  else Return p MINUS1.

Definition sys_filesize p (esp : Z) : outcome D :=
  check! p, u32 (esp + 4);
  let! w := read32 (p_mem p) (esp + 4) in
  let fs_fd := int32 w in
  if negb (fd_file p fs_fd =? NULL) then
    let! len := file_length (p_fs p) (fd_file p fs_fd) in
    Return p (u32 len)
  else Return p MINUS1.

Definition sys_seek p (esp eax : Z) : outcome D :=
  check! p, u32 (esp + 4);
  check! p, u32 (esp + 8);
  let! w := read32 (p_mem p) (esp + 4) in
  let! position := read32 (p_mem p) (esp + 8) in
  let sk_fd := int32 w in
  if negb (fd_file p sk_fd =? NULL) then
    let! f := file_seek (p_fs p) (fd_file p sk_fd) (int32 position) in
    Return (p <| p_fs := f |>) eax
  else Return p eax.

Definition sys_tell p (esp : Z) : outcome D :=
  check! p, u32 (esp + 4);
  let! w := read32 (p_mem p) (esp + 4) in
  let tl_fd := int32 w in
  if negb (fd_file p tl_fd =? NULL) then
    let! pos := file_tell (p_fs p) (fd_file p tl_fd) in
    Return p (u32 pos)
  else Return p MINUS1.

(** [syscall_handler] on a frame with the stack pointer [esp]; [eax] keeps its
    value when a call does not set it. *)
Definition syscall_handler p (e0 : list Z) (esp eax : Z) : outcome D :=
  check! p, esp;
  check! p, u32 (esp + 3);
  let! w := read32 (p_mem p) esp in
  let syscall_num := int32 w in
  if syscall_num =? SYS_OPEN then sys_open p esp
  else if syscall_num =? SYS_CLOSE then sys_close p esp eax
  else if syscall_num =? SYS_EXEC then sys_exec p esp
  else if syscall_num =? SYS_WAIT then sys_wait p esp
  else if syscall_num =? SYS_CREATE then sys_create p e0 esp
  else if syscall_num =? SYS_REMOVE then sys_remove p esp
  else if syscall_num =? SYS_HALT then PowerOff
  else if syscall_num =? SYS_EXIT then sys_exit p esp
  else if syscall_num =? SYS_READ then sys_read p esp
  else if syscall_num =? SYS_WRITE then sys_write p esp
  else if syscall_num =? SYS_FILESIZE then sys_filesize p esp
  else if syscall_num =? SYS_SEEK then sys_seek p esp eax
  else if syscall_num =? SYS_TELL then sys_tell p esp
  else Exit p.

(** [process_exit]'s loop over the descriptors, [n] of them from [i] on. *)
Fixpoint close_fds (n : nat) p (i : nat) : option (proc D) :=
  match n with
  | O => Some p
  | S n =>
      let fp := fd_table p !!! i in
      p ← (if negb (fp =? NULL) then
             f ← file_close (p_fs p) fp;
             Some (p <| p_fs := f |> <| fd_table ::= <[i := NULL]> |>)
           else Some p);
      close_fds n p (S i)
  end.

(** The files that [process_exit] closes. *)
Definition close_files p : option (proc D) :=
  p ← close_fds 126 p 2;
  if negb (exec_file p =? NULL) then
    f ← file_close (p_fs p) (exec_file p);
    Some (p <| p_fs := f |> <| exec_file := NULL |>)
  else Some p.

(** ** Specification *)

(** The user's memory holds the words [ws] at [esp]. *)
Definition user_words p (esp : Z) (ws : list Z) : Prop :=
  block32 (p_mem p) esp ws ∧ Forall is_u32 ws ∧
  0 < esp ∧ esp + 4 * Z.of_nat (length ws) ≤ PHYS_BASE.

(** The descriptor [fd] is open: its file [x] has the inode [i]. *)
Record open_fd p (fd : Z) (x : file) (i : inode) : Prop := {
  fd_range : 2 ≤ fd < NFILES;
  fd_nonnull : fd_file p fd ≠ NULL;
  fd_open : files (p_fs p) !! fd_file p fd = Some x;
  fd_inode : inodes (p_fs p) !! f_inode x = Some i;
  fd_pos : 0 ≤ f_pos x < 2 ^ 31;
  fd_ok : inode_ok (p_fs p) i;
  fd_device : block_ok (fs_device (p_fs p));
  fd_memory : mem_ok (p_fs p);
}.

(** ** Arguments *)

Lemma block32_lookup m a ws (j : nat) w :
  block32 m a ws → ws !! j = Some w → block m (a + 4 * Z.of_nat j) (enc32 w).
Proof.
  intros B E. apply list_elem_of_split_length in E as (l & k & -> & Hl).
  unfold block32 in B. rewrite fmap_app, concat_app, block_app in B. destruct B as [_ B].
  rewrite concat_enc32 in B. cbn [fmap list_fmap concat] in B. apply block_app in B as [B _].
  by replace (a + 4 * Z.of_nat j) with (a + Z.of_nat (4 * length l)) by lia.
Qed.

Lemma valid_byte_ok m a : 0 < a < PHYS_BASE → is_Some (m !! a) → valid_byte m (u32 a) = true.
Proof.
  intros Ha E. rewrite u32_small by (unfold is_u32, PHYS_BASE in *; lia). unfold valid_byte.
  rewrite nonnull, bool_decide_eq_true_2 by (done || lia).
  unfold is_user_vaddr. by rewrite (proj2 (Z.ltb_lt a PHYS_BASE)) by lia.
Qed.

(** Four mapped bytes of the user are valid. *)
Lemma check_valid_ok m a : 0 < a → a + 4 ≤ PHYS_BASE → mapped m a 4 →
  check_valid_ptr m (u32 a) = true.
Proof.
  intros Lo Hi M. rewrite u32_small by (unfold is_u32, PHYS_BASE in *; lia).
  unfold check_valid_ptr. cbn [forallb].
  rewrite !valid_byte_ok by (lia || apply M; unfold within; lia). done.
Qed.

Lemma read32_ok m a w : 0 < a → a + 4 ≤ PHYS_BASE → is_u32 w → block m a (enc32 w) →
  read32 m a = Some w.
Proof.
  intros Lo Hi Hw B. unfold PHYS_BASE in Hi. unfold read32.
  rewrite !u32_small by (unfold is_u32; lia).
  unfold enc32 in B. apply block_cons in B as [E0 B]. apply block_cons in B as [E1 B].
  apply block_cons in B as [E2 B]. apply block_cons in B as [E3 _].
  replace (a + 1 + 1) with (a + 2) in * by lia. replace (a + 2 + 1) with (a + 3) in E3 by lia.
  rewrite E0, E1, E2, E3. cbn [mbind option_bind]. f_equal. by apply le_enc32.
Qed.

Lemma arg_ok p esp ws (j : nat) w : user_words p esp ws → ws !! j = Some w →
  check_valid_ptr (p_mem p) (u32 (esp + 4 * Z.of_nat j)) = true ∧
  read32 (p_mem p) (esp + 4 * Z.of_nat j) = Some w.
Proof.
  intros (B & F & Lo & Hi) E. pose proof (lookup_lt_Some _ _ _ E).
  pose proof (block32_lookup _ _ _ _ _ B E) as Bj. split.
  - apply check_valid_ok; [lia..|]. apply (block_mapped _ _ _ Bj).
  - apply read32_ok; [lia..| |done]. by eapply Forall_lookup_1.
Qed.

Lemma checked_ok p a k : check_valid_ptr (p_mem p) a = true → checked p a k = k.
Proof. intros E. unfold checked. by rewrite E. Qed.

(** The handler reads the number of a call that has arguments. *)
Lemma handler_start p esp n w ws : user_words p esp (n :: w :: ws) →
  check_valid_ptr (p_mem p) esp = true ∧ check_valid_ptr (p_mem p) (u32 (esp + 3)) = true ∧
  read32 (p_mem p) esp = Some n.
Proof.
  intros W. destruct (arg_ok p esp _ 0 n W) as [C R]; [done|].
  rewrite Z.add_0_r in C, R. destruct W as (B & F & Lo & Hi). simpl in Hi.
  rewrite u32_small in C by (unfold is_u32, PHYS_BASE in *; lia). split; [done|]. split; [|done].
  apply check_valid_ok; [lia..|]. intros a Ha.
  apply (block_mapped _ _ _ B). rewrite concat_enc32. unfold within in *. simpl length. lia.
Qed.

(** The handler's way to the code of a call whose words [W] has, and the checks
    and the value of argument [j]. *)
Ltac start_call W :=
  let C := fresh in let C' := fresh in let R := fresh in
  destruct (handler_start _ _ _ _ _ W) as (C & C' & R);
  unfold syscall_handler; rewrite !checked_ok, R by done; cbn [run];
  match goal with |- context [int32 ?n] => let v := eval vm_compute in (int32 n) in change (int32 n) with v end;
  cbn [Z.eqb Pos.eqb SYS_OPEN SYS_CLOSE SYS_EXEC SYS_WAIT SYS_CREATE SYS_REMOVE SYS_HALT
       SYS_EXIT SYS_READ SYS_WRITE SYS_FILESIZE SYS_SEEK SYS_TELL].
Ltac fetch W j C R :=
  destruct (arg_ok _ _ _ j _ W eq_refl) as [C R];
  let v := eval vm_compute in (4 * Z.of_nat j) in change (4 * Z.of_nat j) with v in C, R.

Lemma read_buffer_ok n m a bs : block m a bs → (length bs < n)%nat →
  read_buffer n m a (Z.of_nat (length bs)) = bs.
Proof.
  revert a bs. induction n as [|n IH]; intros a bs B Hn; [lia|]. cbn [read_buffer].
  destruct bs as [|b bs]; [done|]. apply block_cons in B as [-> B]. simpl in Hn.
  rewrite (proj2 (Z.leb_gt _ 0)) by (simpl; lia). f_equal.
  replace (Z.of_nat (length (b :: bs)) - 1) with (Z.of_nat (length bs)) by (simpl; lia).
  apply IH; [done|lia].
Qed.

(** None of the [n] bytes from [a] on is on a read-only page. *)
Definition writable (ro : gset Z) (a : Z) (n : nat) : Prop :=
  ∀ b, within a n b → read_only ro b = false.

Lemma write_buffer_ok ro m a bs : mapped m a (length bs) → writable ro a (length bs) →
  ∃ m', write_buffer ro m a bs = Some m' ∧ block m' a bs ∧ same_outside m m' a (length bs).
Proof.
  intros M Hw. assert (∀ m, write_buffer ro m a bs = store_bytes m a bs) as ->; [|by apply store_bytes_ok].
  clear M m. revert a Hw. induction bs as [|b bs IH]; intros a Hw m; [done|]. simpl. unfold store_user.
  rewrite Hw by (unfold within; simpl; lia). destruct (store m a b); [|done]. cbn [mbind option_bind].
  apply IH. intros c Hc. apply Hw. unfold within in *. simpl. lia.
Qed.

Lemma fd_file_frame p p' fd : fd_table p' = fd_table p → fd_file p' fd = fd_file p fd.
Proof. unfold fd_file. by intros ->. Qed.

(** The state after [fd]'s file has become [x'] on the device of [f']. *)
Definition with_file p (fd : Z) (f' : fs D) (x' : file) : proc D :=
  p <| p_fs := f' <| files ::= <[fd_file p fd := x']> |> |>.

(** The file system but for the device's contents. *)
Lemma open_fd_with p fd x i f' x' : open_fd p fd x i →
  (∃ o c, written_at (p_fs p) o c f') → f_inode x' = f_inode x → 0 ≤ f_pos x' < 2 ^ 31 →
  open_fd (with_file p fd f' x') fd x' i.
Proof.
  intros [Hr Hn Hf Hi Hp Hk Hd Hm] (o & c & b & -> & Bb & Sb & Tb & _) Ei Hp'.
  assert (fd_file (with_file p fd ((p_fs p) <| fs_device := b |>) x') fd = fd_file p fd) as Ef by done.
  split; rewrite ?Ef; simpl; [done|done|apply lookup_insert_eq|by rewrite Ei|done| |done|done].
  destruct Hk. split; simpl; by rewrite ?Sb.
Qed.

Lemma sys_write_ok p e0 esp eax fd buf bs x i :
  open_fd p fd x i → deny_write_cnt i = 0 →
  user_words p esp [SYS_WRITE; fd; buf; Z.of_nat (length bs)] →
  check_valid_ptr (p_mem p) buf = true →
  block (p_mem p) buf bs → Forall is_byte bs → Z.of_nat (length bs) < 2 ^ 31 →
  let n := transfer i (Z.of_nat (length bs)) (f_pos x) in
  ∃ f', syscall_handler p e0 esp eax =
          Return (with_file p fd f' (x <| f_pos ::= Z.add n |>)) n ∧
        written_at (p_fs p) (device_ofs i (f_pos x)) (take (Z.to_nat n) bs) f'.
Proof.
  intros O Hd W Cb B Fb Hl n. pose proof O as [Hr Hn Hf Hi Hp Hk Hdev Hm].
  start_call W. fetch W 1%nat C1 R1. fetch W 2%nat C2 R2. fetch W 3%nat C3 R3.
  unfold sys_write. rewrite R1, R2, R3. cbn [run].
  rewrite !checked_ok by done. unfold NFILES in Hr.
  rewrite !int32_small by lia. rewrite (proj2 (Z.eqb_neq fd 1)) by lia.
  rewrite (proj2 (Z.eqb_neq _ NULL)) by done. cbn [negb].
  rewrite read_buffer_ok by (done || (apply block_size in B; unfold fuel; lia)).
  unfold file_write. rewrite Hf. cbn [mbind option_bind].
  destruct (inode_write_at_ok (p_fs p) (f_inode x) i bs (Z.of_nat (length bs)) (f_pos x))
    as (f' & -> & Wr); [done..|lia|done|]. cbn [mbind option_bind run].
  exists f'. split; [|done]. fold n. f_equal. apply u32_small. unfold is_u32, n, transfer.
  pose proof (inode_len _ _ Hk). lia.
Qed.

Lemma sys_seek_ok p e0 esp eax fd pos x i :
  open_fd p fd x i → user_words p esp [SYS_SEEK; fd; pos] → pos < 2 ^ 31 →
  syscall_handler p e0 esp eax = Return (with_file p fd (p_fs p) (x <| f_pos := pos |>)) eax.
Proof.
  intros [Hr Hn Hf Hi Hp Hk Hdev Hm] W Hpos. pose proof W as (_ & F & _).
  apply Forall_cons in F as [_ F]. apply Forall_cons in F as [_ F]. apply Forall_cons in F as [F _].
  start_call W. fetch W 1%nat C1 R1. fetch W 2%nat C2 R2.
  unfold sys_seek. rewrite !checked_ok, R1, R2 by done. cbn [run]. unfold NFILES, is_u32 in *.
  rewrite !int32_small by lia. rewrite (proj2 (Z.eqb_neq _ NULL)) by done. cbn [negb].
  unfold file_seek. rewrite (proj2 (Z.eqb_neq _ NULL)) by done.
  rewrite (proj2 (Z.leb_le 0 pos)) by lia. cbn [negb ASSERT mbind option_bind].
  rewrite Hf. done.
Qed.

Lemma sys_read_ok p e0 esp eax fd buf size x i :
  open_fd p fd x i → user_words p esp [SYS_READ; fd; buf; size] → 0 ≤ size < 2 ^ 31 →
  check_valid_ptr (p_mem p) buf = true →
  (0 < size → check_valid_ptr (p_mem p) (u32 (buf + size - 1)) = true) →
  mapped (p_mem p) buf (Z.to_nat size) → writable (p_ro p) buf (Z.to_nat size) →
  let n := transfer i size (f_pos x) in
  let got := slice (Z.to_nat (f_pos x)) (Z.to_nat n) (contents (p_fs p) i) in
  ∃ m', syscall_handler p e0 esp eax =
          Return ((with_file p fd (p_fs p) (x <| f_pos ::= Z.add n |>)) <| p_mem := m' |>) n ∧
        block m' buf got ∧ same_outside (p_mem p) m' buf (Z.to_nat n).
Proof.
  intros [Hr Hn Hf Hi Hp Hk Hdev Hm] W Hs Cb Ce M Hw n got.
  start_call W. fetch W 1%nat C1 R1. fetch W 2%nat C2 R2. fetch W 3%nat C3 R3.
  assert (length got = Z.to_nat n) as Lg.
  { unfold got. unfold n, transfer. destruct (decide (size ≤ 0 ∨ inode_length i ≤ f_pos x)).
    - replace (Z.to_nat (Z.max _ _)) with 0%nat by lia. done.
    - apply length_slice. rewrite inode_contents_length by done. lia. }
  destruct (write_buffer_ok (p_ro p) (p_mem p) buf got) as (m' & Wb & B & S).
  { intros a Ha. apply M. rewrite Lg in Ha. unfold within, n, transfer in *. lia. }
  { intros a Ha. apply Hw. rewrite Lg in Ha. unfold within, n, transfer in *. lia. }
  rewrite Lg in S. exists m'. split; [|done].
  unfold sys_read. rewrite !checked_ok, R1, R2, R3 by done. cbn [run].
  rewrite (checked_ok p buf) by done. unfold NFILES in Hr.
  rewrite !int32_small by lia. rewrite (proj2 (Z.eqb_neq fd 0)) by lia.
  rewrite (proj2 (Z.eqb_neq _ NULL)) by done. cbn [negb].
  unfold file_read. rewrite Hf. cbn [mbind option_bind].
  rewrite (inode_read_at_ok _ _ i) by done. cbn [mbind option_bind run].
  fold n. fold got. rewrite Wb. cbn [run]. rewrite Lg, Z2Nat.id by (unfold n, transfer; lia).
  destruct (Z.ltb_spec 0 size) as [Hz|]; [rewrite checked_ok by (by apply Ce)|]; done.
Qed.

(** ** Correctness *)

(** C7: what a process writes to a file it reads back: [write] from [src] at the
    file's position, [seek] back and [read] into [dst] return the number of
    bytes that fit the file and put exactly those bytes of [src] at [dst],
    changing no other memory; the file holds them at the position, and what it
    held elsewhere.  The pages of [dst] must be mapped writable: the call does
    not check that. *)
Theorem syscall_write_read p e0 eax fd x i esp1 esp2 esp3 src dst bs :
  open_fd p fd x i → deny_write_cnt i = 0 → f_pos x ≤ inode_length i →
  user_words p esp1 [SYS_WRITE; fd; src; Z.of_nat (length bs)] →
  user_words p esp2 [SYS_SEEK; fd; f_pos x] →
  user_words p esp3 [SYS_READ; fd; dst; Z.of_nat (length bs)] →
  Forall is_byte bs → 0 < Z.of_nat (length bs) < 2 ^ 31 → block (p_mem p) src bs →
  check_valid_ptr (p_mem p) src = true → check_valid_ptr (p_mem p) dst = true →
  check_valid_ptr (p_mem p) (u32 (dst + Z.of_nat (length bs) - 1)) = true →
  mapped (p_mem p) dst (length bs) → writable (p_ro p) dst (length bs) →
  ∃ p1 p2 p3, let n := Z.min (Z.of_nat (length bs)) (inode_length i - f_pos x) in
    syscall_handler p e0 esp1 eax = Return p1 n ∧
    syscall_handler p1 e0 esp2 eax = Return p2 eax ∧
    syscall_handler p2 e0 esp3 eax = Return p3 n ∧
    block (p_mem p3) dst (take (Z.to_nat n) bs) ∧
    same_outside (p_mem p) (p_mem p3) dst (Z.to_nat n) ∧
    contents (p_fs p3) i =
      splice (Z.to_nat (f_pos x)) (take (Z.to_nat n) bs) (contents (p_fs p) i).
Proof.
  intros O Hd Hle W1 W2 W3 Fb Hl B C1 C2 C3 M Hw. pose proof (fd_pos _ _ _ _ O) as Hp.
  pose proof (inode_len _ _ (fd_ok _ _ _ _ O)) as Hil.
  destruct (sys_write_ok p e0 esp1 eax fd src bs x i) as (f1 & E1 & Wr); [done..|lia|].
  set (n := transfer i (Z.of_nat (length bs)) (f_pos x)) in *.
  assert (n = Z.min (Z.of_nat (length bs)) (inode_length i - f_pos x)) as En
    by (unfold n, transfer; lia).
  assert (length (take (Z.to_nat n) bs) = Z.to_nat n) as Ln by (rewrite length_take; lia).
  destruct (written_contents (p_fs p) i (f_pos x) (take (Z.to_nat n) bs) f1) as [_ Ec];
    [apply O|apply O|lia|rewrite Ln; lia|done|].
  set (x1 := x <| f_pos ::= Z.add n |>) in *.
  assert (open_fd (with_file p fd f1 x1) fd x1 i) as O1.
  { eapply open_fd_with; [exact O|by eexists _, _|done|simpl; lia]. }
  pose proof (sys_seek_ok _ e0 esp2 eax fd (f_pos x) _ _ O1 W2 ltac:(lia)) as E2.
  set (p1 := with_file p fd f1 x1) in *. set (x2 := x1 <| f_pos := f_pos x |>) in *.
  assert (open_fd (with_file p1 fd (p_fs p1) x2) fd x2 i) as O2.
  { eapply open_fd_with; [exact O1| |done|done]. exists 0%nat, []. apply written_nil, O1. }
  set (p2 := with_file p1 fd (p_fs p1) x2) in *.
  destruct (sys_read_ok p2 e0 esp3 eax fd dst (Z.of_nat (length bs)) x2 i O2 W3)
    as (m' & E3 & Bd & S); [lia|done|done|by rewrite Nat2Z.id..|].
  change (f_pos x2) with (f_pos x) in *. fold n in E3, Bd, S.
  assert (contents (p_fs p2) i = contents f1 i) as Ec2 by done.
  rewrite Ec2, Ec in Bd. eexists p1, p2, _. rewrite <-En. cbv zeta.
  split; [exact E1|]. split; [exact E2|]. split; [exact E3|]. split; [|split].
  - rewrite <-Ln in Bd at 1. rewrite slice_splice in Bd; [exact Bd|].
    rewrite inode_contents_length, Ln by apply O. lia.
  - exact S.
  - exact Ec.
Qed.

(** [read] into a read-only page panics the kernel as soon as there is a byte to
    store. *)
Theorem syscall_read_readonly p e0 eax fd x i esp dst size :
  open_fd p fd x i → user_words p esp [SYS_READ; fd; dst; size] → 0 < size < 2 ^ 31 →
  check_valid_ptr (p_mem p) dst = true → check_valid_ptr (p_mem p) (u32 (dst + size - 1)) = true →
  f_pos x < inode_length i → read_only (p_ro p) dst = true →
  syscall_handler p e0 esp eax = Panic.
Proof.
  intros [Hr Hn Hf Hi Hp Hk Hdev Hm] W Hs Cb Ce Hlt Hro.
  start_call W. fetch W 1%nat C1 R1. fetch W 2%nat C2 R2. fetch W 3%nat C3 R3.
  unfold sys_read. rewrite !checked_ok, R1, R2, R3 by done. cbn [run].
  rewrite (checked_ok p dst), (proj2 (Z.ltb_lt 0 size)), checked_ok by (done || lia). unfold NFILES in Hr.
  rewrite !int32_small by lia. rewrite (proj2 (Z.eqb_neq fd 0)) by lia.
  rewrite (proj2 (Z.eqb_neq _ NULL)) by done. cbn [negb].
  unfold file_read. rewrite Hf. cbn [mbind option_bind].
  rewrite (inode_read_at_ok _ _ i) by (done || lia). cbn [mbind option_bind run].
  destruct (slice _ _ _) as [|b got] eqn:E.
  - apply (f_equal length) in E. rewrite length_slice in E; [|rewrite inode_contents_length by done];
      unfold transfer in *; simpl in E; lia.
  - simpl. unfold store_user. by rewrite Hro.
Qed.

(** [seek] to a position of [2 ^ 31] or more panics the kernel: the position
    becomes a negative [off_t], which [file_seek] asserts it is not. *)
Theorem syscall_seek_panics p e0 eax fd pos x i esp :
  open_fd p fd x i → user_words p esp [SYS_SEEK; fd; pos] → 2 ^ 31 ≤ pos →
  syscall_handler p e0 esp eax = Panic.
Proof.
  intros [Hr Hn Hf Hi Hp Hk Hdev Hm] W Hpos. pose proof W as (_ & F & _).
  apply Forall_cons in F as [_ F]. apply Forall_cons in F as [_ F]. apply Forall_cons in F as [F _].
  start_call W. fetch W 1%nat C1 R1. fetch W 2%nat C2 R2.
  unfold sys_seek. rewrite !checked_ok, R1, R2 by done. cbn [run]. unfold NFILES, is_u32 in *.
  rewrite (int32_small fd) by lia. rewrite (proj2 (Z.eqb_neq _ NULL)) by done. cbn [negb].
  unfold file_seek. rewrite (proj2 (Z.eqb_neq _ NULL)) by done.
  assert (int32 pos < 0) as Neg.
  { unfold int32. rewrite <-(Z_mod_plus_full _ (-1)), Z.mod_small; lia. }
  by rewrite (proj2 (Z.leb_gt 0 (int32 pos))).
Qed.

(** C39: [write] with arguments that are not mapped panics the kernel, which
    reads them before it checks them; the other calls end the process. *)
Theorem syscall_write_unchecked p e0 eax esp a :
  user_words p esp [SYS_WRITE; a] → esp + 8 < PHYS_BASE → p_mem p !! (esp + 8) = None →
  syscall_handler p e0 esp eax = Panic.
Proof.
  intros W Hb E. pose proof W as (_ & _ & Lo & _). start_call W. fetch W 1%nat C1 R1.
  unfold sys_write. rewrite R1. cbn [run]. unfold read32 at 1.
  rewrite (u32_small (esp + 8)) by (unfold is_u32, PHYS_BASE in *; lia). by rewrite E.
Qed.

End syscall.

(** ** Witnesses *)

(** A process with the file of [example_io] open as descriptor 2, at position 10;
    the words of three calls, three bytes to write, and room to read them; its
    page 8 is read-only. *)
Definition example_mem : memory :=
  bytes_at 4096 (concat (enc32 <$> [SYS_WRITE; 2; 4140; 3] ++ [SYS_SEEK; 2; 10] ++
                                   [SYS_READ; 2; 4144; 3]) ++ [1; 2; 3; 0] ++ replicate 6 0).
Definition example_proc (m : memory) : proc disk :=
  mk_proc (example_io <| files := {[5 := mk_file 1 10 false]} |>) m {[8]}
    (<[2%nat := 5]> (replicate 128 0)) 3 0 (-1) [] [].

Lemma example_fd m : open_fd (example_proc m) 2 (mk_file 1 10 false) example_io_inode.
Proof.
  destruct example_io_ok as (M & B & I).
  destruct I. split; [unfold NFILES; lia|done|reflexivity|reflexivity|simpl; lia|by split|exact B|exact M].
Qed.

Ltac compute_block := repeat (apply block_cons; split; [reflexivity|]); apply block_nil.
Ltac compute_words :=
  split; [unfold block32; compute_block|split; [repeat (apply Forall_cons; split; [done|]); by apply Forall_nil|]];
  unfold PHYS_BASE; simpl; lia.

Lemma syscall_write_read_witness :
  ∃ p1 p2 p3,
    syscall_handler (example_proc example_mem) [] 4096 0 = Return p1 3 ∧
    syscall_handler p1 [] 4112 0 = Return p2 0 ∧
    syscall_handler p2 [] 4124 0 = Return p3 3 ∧
    block (p_mem p3) 4144 [1; 2; 3].
Proof.
  destruct (syscall_write_read (example_proc example_mem) [] 0 2 (mk_file 1 10 false)
    example_io_inode 4096 4112 4124 4140 4144 [1; 2; 3]) as (p1 & p2 & p3 & E1 & E2 & E3 & B & _).
  - apply example_fd.
  - reflexivity.
  - vm_compute. congruence.
  - compute_words.
  - compute_words.
  - compute_words.
  - repeat constructor; lia.
  - simpl. lia.
  - compute_block.
  - vm_compute. reflexivity.
  - vm_compute. reflexivity.
  - vm_compute. reflexivity.
  - repeat (apply mapped_S; split; [by eexists|]). intros a Ha. unfold within in Ha. simpl in Ha. lia.
  - intros a Ha. apply bool_decide_eq_false_2. unfold within in Ha. simpl in Ha. cbn [p_ro example_proc].
    rewrite elem_of_singleton. pose proof (Z.div_lt_upper_bound a PGSIZE 8). change PGSIZE with 4096 in *. lia.
  - exists p1, p2, p3. split; [exact E1|]. split; [exact E2|]. split; [exact E3|exact B].
Defined.

Lemma syscall_read_readonly_witness :
  syscall_handler (example_proc (bytes_at 4096 (concat (enc32 <$> [SYS_READ; 2; 32768; 1])) ∪
    bytes_at 32768 [0; 0; 0; 0])) [] 4096 0 = Panic.
Proof.
  apply (syscall_read_readonly _ [] 0 2 (mk_file 1 10 false) example_io_inode 4096 32768 1).
  - apply example_fd.
  - compute_words.
  - lia.
  - vm_compute. reflexivity.
  - vm_compute. reflexivity.
  - vm_compute. reflexivity.
  - vm_compute. reflexivity.
Defined.

Lemma syscall_seek_panics_witness :
  syscall_handler (example_proc (bytes_at 4096 (concat (enc32 <$> [SYS_SEEK; 2; 2147483648]))))
    [] 4096 0 = Panic.
Proof.
  apply (syscall_seek_panics _ [] 0 2 2147483648 (mk_file 1 10 false) example_io_inode 4096).
  - apply example_fd.
  - compute_words.
  - lia.
Defined.

Lemma syscall_write_unchecked_witness :
  syscall_handler (example_proc (bytes_at 8184 (enc32 SYS_WRITE ++ enc32 1))) [] 8184 0 = Panic.
Proof.
  apply (syscall_write_unchecked _ [] 0 8184 1).
  - compute_words.
  - done.
  - reflexivity.
Defined.
