(* ===== verification/Process.v ===== *)
(** * Processes and their children ([userprog/process.c])

    [process_execute], [start_process], [process_wait] and [process_exit] as a
    transition system: a step is the code a thread runs between two points
    where another thread can come in.  A thread is where its program counter
    says; a [child_info] is an object at an address, shared by the parent's list
    and the parent's local variables.  The history records what the calls
    return, for the theorems. *)

From S2P Require Import Prelude.

Open Scope Z_scope.

Definition TID_ERROR : Z := -1.

(** [struct child_info]. *)
Record child_info := mk_ci {
  ci_tid : Z;
  ci_exit_status : Z;
  waited : bool;
  wait_sema : nat;
}.
#[export] Instance ci_ctor : Ctor child_info := λ c,
  mk_ci (ci_tid c) (ci_exit_status c) (waited c) (wait_sema c).

(** [struct exec_aux]: the fields the parent and the child share. *)
Record exec_aux := mk_aux {
  load_sema : nat;
  load_success : bool;
}.
#[export] Instance aux_ctor : Ctor exec_aux := λ a, mk_aux (load_sema a) (load_success a).

(** Where a thread is. *)
Inductive pc : Type :=
| Running                          (* outside the functions of this file *)
| Created (ci child : Z)           (* [process_execute], after [thread_create] *)
| Loading (ci child : Z)           (* [process_execute], in [sema_down (&aux.load_sema)] *)
| Starting (parent : Z)            (* [start_process], before [load] returns *)
| Failed                           (* [start_process], before [thread_exit] *)
| Waiting (ci : Z)                 (* [process_wait], in [sema_down (&child->wait_sema)] *)
| Dead.

(** What [struct thread] has of a process. *)
Record process := mk_process {
  p_pc : pc;
  parent_tid : Z;
  children : list Z;
}.
#[export] Instance process_ctor : Ctor process := λ p,
  mk_process (p_pc p) (parent_tid p) (children p).

Inductive event : Type :=
| Executed (t result : Z)
| Waited (t child status : Z)
| Exited (t status : Z).

Record sys := mk_sys {
  procs : gmap Z process;
  cis : gmap Z child_info;
  auxs : gmap Z exec_aux;
  next_tid : Z;
  next_ci : Z;
  history : list event;
}.
#[export] Instance sys_ctor : Ctor sys := λ s,
  mk_sys (procs s) (cis s) (auxs s) (next_tid s) (next_ci s) (history s).

Definition set_proc (s : sys) (t : Z) (p : process) : sys := s <| procs ::= <[t := p]> |>.
Definition set_ci (s : sys) (a : Z) (c : child_info) : sys := s <| cis ::= <[a := c]> |>.
Definition set_aux (s : sys) (t : Z) (x : exec_aux) : sys := s <| auxs ::= <[t := x]> |>.
Definition log (s : sys) (e : event) : sys := s <| history ::= cons e |>.

(** [process_execute] up to and including [thread_create], which starts a
    thread; the thread's [exec_aux] is filled in. *)
Definition execute_create (s : sys) (t : Z) (p : process) : sys :=
  let a := next_ci s in
  let c := next_tid s in
  let s := set_ci s a (mk_ci TID_ERROR (-1) false 0) in
  let s := set_aux s c (mk_aux 0 false) in
  let s := set_proc s c (mk_process (Starting t) TID_ERROR []) in
  let s := set_proc s t (p <| p_pc := Created a c |>) in
  s <| next_ci ::= Z.succ |> <| next_tid ::= Z.succ |>.

(** The failures of [palloc_get_page], [malloc] and [thread_create]. *)
Definition execute_error (s : sys) (t : Z) : sys := log s (Executed t TID_ERROR).

(** [ci->tid = tid; list_push_back (...)], up to the wait for the child. *)
Definition execute_register (s : sys) (t : Z) (p : process) (a c : Z) : option sys :=
  ci ← cis s !! a;
  let s := set_ci s a (ci <| ci_tid := c |>) in
  Some (set_proc s t (p <| children ::= (.++ [a]) |> <| p_pc := Loading a c |>)).

(** [process_execute] from the end of [sema_down] on; [None] while it sleeps. *)
Definition execute_finish (s : sys) (t : Z) (p : process) (a c : Z) : option sys :=
  x ← auxs s !! c;
  match load_sema x with
  | O => None
  | S n =>
      let s := set_aux s c (x <| load_sema := n |>) in
      if negb (load_success x) then
        let s := set_proc s t (p <| children ::= filter (.≠ a) |> <| p_pc := Running |>) in
        Some (log (s <| cis ::= delete a |>) (Executed t TID_ERROR))
      else Some (log (set_proc s t (p <| p_pc := Running |>)) (Executed t c))
  end.

(** [start_process], given whether [load] succeeds. *)
Definition start_process (s : sys) (c : Z) (p : process) (parent : Z) (success : bool) : option sys :=
  x ← auxs s !! c;
  let s := set_aux s c (mk_aux (S (load_sema x)) success) in
  Some (set_proc s c (p <| parent_tid := parent |>
                        <| p_pc := if success then Running else Failed |>)).

(** The search of [process_wait] and [process_exit] in a list of children. *)
Fixpoint find_child (s : sys) (l : list Z) (tid : Z) : option (option Z) :=
  match l with
  | [] => Some None
  | a :: l =>
      ci ← cis s !! a;
      if ci_tid ci =? tid then Some (Some a) else find_child s l tid
  end.

(** [process_wait] up to [sema_down], or its return of -1. *)
Definition process_wait (s : sys) (t : Z) (p : process) (child_tid : Z) : option sys :=
  r ← find_child s (children p) child_tid;
  match r with
  | None => Some (log s (Waited t child_tid (-1)))
  | Some a =>
      ci ← cis s !! a;
      if waited ci then Some (log s (Waited t child_tid (-1)))
      else Some (set_proc (set_ci s a (ci <| waited := true |>)) t (p <| p_pc := Waiting a |>))
  end.

(** Its end; [None] while it sleeps. *)
Definition wait_finish (s : sys) (t : Z) (p : process) (a : Z) : option sys :=
  ci ← cis s !! a;
  match wait_sema ci with
  | O => None
  | S n =>
      let s := set_ci s a (ci <| wait_sema := n |>) in
      Some (log (set_proc s t (p <| p_pc := Running |>)) (Waited t (ci_tid ci) (ci_exit_status ci)))
  end.

(** [thread_foreach (find_thread_by_tid, ...)]: a thread that has exited is not
    on the list of all threads. *)
Definition find_thread (s : sys) (tid : Z) : option process :=
  p ← procs s !! tid;
  match p_pc p with
  | Dead => None
  | _ => Some p
  end.

(** [process_exit] with the exit status [status], and the end of the thread. *)
Definition process_exit (s : sys) (c : Z) (p : process) (status : Z) : option sys :=
  s ← match find_thread s (parent_tid p) with
      | Some parent =>
          r ← find_child s (children parent) c;
          match r with
          | Some a =>
              ci ← cis s !! a;
              Some (set_ci s a (ci <| ci_exit_status := status |> <| wait_sema ::= S |>))
          | None => Some s
          end
      | None => Some s
      end;
  Some (log (set_proc s c (p <| p_pc := Dead |>)) (Exited c status)).

(** The steps of thread [t]. *)
Inductive step (s : sys) : sys → Prop :=
| step_create t p :
    procs s !! t = Some p → p_pc p = Running → step s (execute_create s t p)
| step_error t p :
    procs s !! t = Some p → p_pc p = Running → step s (execute_error s t)
| step_register t p a c s' :
    procs s !! t = Some p → p_pc p = Created a c →
    execute_register s t p a c = Some s' → step s s'
| step_finish t p a c s' :
    procs s !! t = Some p → p_pc p = Loading a c →
    execute_finish s t p a c = Some s' → step s s'
| step_start c p parent success s' :
    procs s !! c = Some p → p_pc p = Starting parent →
    start_process s c p parent success = Some s' → step s s'
| step_wait t p child s' :
    procs s !! t = Some p → p_pc p = Running →
    process_wait s t p child = Some s' → step s s'
| step_wait_finish t p a s' :
    procs s !! t = Some p → p_pc p = Waiting a →
    wait_finish s t p a = Some s' → step s s'
| step_exit c p status s' :
    procs s !! c = Some p → p_pc p = Running →
    process_exit s c p status = Some s' → step s s'
| step_exit_failed c p s' :
    procs s !! c = Some p → p_pc p = Failed →
    process_exit s c p (-1) = Some s' → step s s'.

(** The first process. *)
Definition init : sys :=
  mk_sys {[1 := mk_process Running TID_ERROR []]} ∅ ∅ 2 1 [].

(** ** The invariant *)

(** The thread that [start_process] makes a thread's parent. *)
Definition parent_of (p : process) : Z :=
  match p_pc p with
  | Starting parent => parent
  | _ => parent_tid p
  end.

(** The [child_info] that the thread holds in [process_execute] or [process_wait]. *)
Definition holds (p : process) (a : Z) : Prop :=
  (∃ c, p_pc p = Loading a c) ∨ p_pc p = Waiting a.

Record Inv (s : sys) : Prop := {
  inv_next : 0 < next_tid s;
  inv_tids : ∀ t p, procs s !! t = Some p → 0 < t < next_tid s;
  inv_addrs : ∀ a ci, cis s !! a = Some ci → a < next_ci s ∧ ci_tid ci < next_tid s;
  inv_children : ∀ t p a, procs s !! t = Some p → a ∈ children p →
    ∃ ci q, cis s !! a = Some ci ∧ procs s !! ci_tid ci = Some q ∧ parent_of q = t;
  inv_unique : ∀ t p a b ci ci', procs s !! t = Some p → a ∈ children p → b ∈ children p →
    cis s !! a = Some ci → cis s !! b = Some ci' → ci_tid ci = ci_tid ci' → a = b;
  inv_holds : ∀ t p a, procs s !! t = Some p → holds p a → a ∈ children p;
  inv_created : ∀ t p a c, procs s !! t = Some p → p_pc p = Created a c →
    cis s !! a = Some (mk_ci TID_ERROR (-1) false 0) ∧
    (∃ q, procs s !! c = Some q ∧ parent_of q = t) ∧
    (∀ b ci, b ∈ children p → cis s !! b = Some ci → ci_tid ci ≠ c);
  inv_owner : ∀ t p t' p' a c c', procs s !! t = Some p → procs s !! t' = Some p' →
    p_pc p = Created a c → p_pc p' = Created a c' → t = t';
  inv_signal : ∀ a ci, cis s !! a = Some ci → wait_sema ci ≠ O →
    Exited (ci_tid ci) (ci_exit_status ci) ∈ history s;
  inv_waits : ∀ t c v, Waited t c v ∈ history s → v = -1 ∨ Exited c v ∈ history s;
}.

(** A [child_info] is on one list only, and one that is being created on none. *)
Lemma one_parent s t p t' p' a : Inv s → procs s !! t = Some p → procs s !! t' = Some p' →
  a ∈ children p → a ∈ children p' → t = t'.
Proof.
  intros I E E' Ha Ha'. destruct (inv_children s I _ _ _ E Ha) as (ci & q & Ec & Eq & <-).
  destruct (inv_children s I _ _ _ E' Ha') as (ci' & q' & Ec' & Eq' & <-). by simplify_eq.
Qed.

Lemma created_apart s t p a c t' p' : Inv s → procs s !! t = Some p → p_pc p = Created a c →
  procs s !! t' = Some p' → a ∉ children p'.
Proof.
  intros I E Hc E' Ha. destruct (inv_created s I _ _ _ _ E Hc) as (Ec & _).
  destruct (inv_children s I _ _ _ E' Ha) as (ci & q & Ec' & Eq & _). simplify_eq.
  apply (inv_tids s I) in Eq. simpl in Eq. unfold TID_ERROR in Eq. lia.
Qed.

(** A thread moves on. *)
Lemma Inv_proc s t p p' : Inv s → procs s !! t = Some p →
  parent_of p' = parent_of p → children p' = children p →
  (∀ a, holds p' a → a ∈ children p) → (∀ a c, p_pc p' ≠ Created a c) → Inv (set_proc s t p').
Proof.
  intros I E Hp Hch Hh Hc.
  assert (∀ u q, procs s !! u = Some q → ∃ q', procs (set_proc s t p') !! u = Some q' ∧
            parent_of q' = parent_of q) as K.
  { intros u q Eq. simpl. destruct (decide (u = t)) as [->|].
    - exists p'. rewrite lookup_insert_eq. split; [done|]. by simplify_eq.
    - exists q. by rewrite lookup_insert_ne. }
  assert (∀ u q, procs (set_proc s t p') !! u = Some q → ∃ q0, procs s !! u = Some q0 ∧
            children q = children q0 ∧ (u = t ∧ q = p' ∨ q = q0)) as Kb.
  { intros u q Eq. simpl in Eq. apply lookup_insert_Some in Eq as [[<- <-]|[? Eq]]; [exists p|exists q]; auto. }
  destruct I as [I0 I1 I2 I3 I4 I5 I6 I7 I8 I9]. split; try done.
  - intros u q (q0 & Eq & _)%Kb. by eapply I1.
  - intros u q a (q0 & Eq & -> & _)%Kb Ha. destruct (I3 u q0 a Eq Ha) as (ci & r & Ec & Er & Hr).
    destruct (K _ _ Er) as (r' & Er' & Hr'). exists ci, r'. split; [done|]. split; [done|]. congruence.
  - intros u q a b ci ci' (q0 & Eq & -> & _)%Kb. by apply (I4 u).
  - intros u q a (q0 & Eq & -> & [[-> ->]| ->])%Kb Ha; [simplify_eq; by apply Hh|by eapply I5].
  - intros u q a c (q0 & Eq & -> & [[-> ->]| ->])%Kb Ha; [by apply Hc in Ha|].
    destruct (I6 u q0 a c Eq Ha) as (? & (r & Er & Hr) & ?). split; [done|]. split; [|done].
    destruct (K _ _ Er) as (r' & Er' & Hr'). exists r'. split; [done|]. congruence.
  - intros u q u' q' a c c' (q0 & Eq & _ & [[-> ->]| ->])%Kb (q0' & Eq' & _ & [[-> ->]| ->])%Kb Ha Ha';
      [done|by apply Hc in Ha|by apply Hc in Ha'|by eapply I7].
Qed.

Lemma Inv_ci s a ci ci' : Inv s → cis s !! a = Some ci → ci_tid ci' = ci_tid ci →
  (∀ t p c, procs s !! t = Some p → p_pc p ≠ Created a c) →
  (wait_sema ci' ≠ O → Exited (ci_tid ci') (ci_exit_status ci') ∈ history s) →
  Inv (set_ci s a ci').
Proof.
  intros [I0 I1 I2 I3 I4 I5 I6 I7 I8 I9] E Ht Hc Hs.
  assert (∀ b d, cis (set_ci s a ci') !! b = Some d → ∃ d0, cis s !! b = Some d0 ∧ ci_tid d = ci_tid d0) as K.
  { intros b d Ed. simpl in Ed. apply lookup_insert_Some in Ed as [[<- <-]|[? Ed]]; [exists ci|exists d]; auto. }
  split; try done.
  - intros b d (d0 & Ed & ->)%K. by eapply I2.
  - intros t p b Ep Hb. destruct (I3 t p b Ep Hb) as (d & q & Ed & Eq & Hq).
    simpl. destruct (decide (b = a)) as [->|].
    + exists ci', q. rewrite lookup_insert_eq. split; [done|]. simplify_eq. by rewrite Ht.
    + exists d, q. by rewrite lookup_insert_ne.
  - intros t p b b' d d' Ep Hb Hb' (d0 & Ed & ->)%K (d0' & Ed' & ->)%K. by eapply I4.
  - intros t p b c Ep Hp. destruct (I6 t p b c Ep Hp) as (Eb & Hq & Hn).
    split; [|split; [done|]].
    + simpl. rewrite lookup_insert_ne; [done|]. intros <-. by eapply Hc.
    + intros b' d Hb' (d0 & Ed & ->)%K. by eapply Hn.
  - intros b d Ed. simpl in Ed. apply lookup_insert_Some in Ed as [[<- <-]|[? Ed]]; [done|by eapply I8].
Qed.

Lemma Inv_log s e : Inv s →
  (∀ t c v, e = Waited t c v → v = -1 ∨ Exited c v ∈ history s) → Inv (log s e).
Proof.
  intros [I0 I1 I2 I3 I4 I5 I6 I7 I8 I9] He. split; try done; simpl.
  - intros a ci E Hs. right. by eapply I8.
  - intros t c v [E|Hin]%elem_of_cons.
    + destruct (He t c v (eq_sym E)); [by left|right; by right].
    + destruct (I9 _ _ _ Hin); [by left|right; by right].
Qed.

Lemma Inv_aux s t x : Inv s → Inv (set_aux s t x).
Proof. by intros []. Qed.

Lemma find_child_ok s l tid : (∀ a, a ∈ l → is_Some (cis s !! a)) →
  ∃ r, find_child s l tid = Some r ∧
    match r with
    | Some a => a ∈ l ∧ ∃ ci, cis s !! a = Some ci ∧ ci_tid ci = tid
    | None => ∀ a ci, a ∈ l → cis s !! a = Some ci → ci_tid ci ≠ tid
    end.
Proof.
  induction l as [|b l IH]; intros Hl; cbn [find_child].
  - exists None. split; [done|]. by intros a ci []%elem_of_nil.
  - destruct (Hl b) as [d Ed]; [left|]. rewrite Ed. cbn [mbind option_bind].
    destruct (Z.eqb_spec (ci_tid d) tid) as [Et|Et].
    + exists (Some b). split; [done|]. split; [left|by exists d].
    + destruct IH as (r & -> & Hr); [intros; apply Hl; by right|]. exists r. split; [done|].
      destruct r as [a|].
      * destruct Hr as [? ?]. split; [by right|done].
      * intros a ci [->|Ha]%elem_of_cons Ea; [by simplify_eq|by eapply Hr].
Qed.

Lemma children_found s t p tid : Inv s → procs s !! t = Some p →
  ∃ r, find_child s (children p) tid = Some r ∧
    match r with
    | Some a => a ∈ children p ∧ ∃ ci, cis s !! a = Some ci ∧ ci_tid ci = tid
    | None => ∀ a ci, a ∈ children p → cis s !! a = Some ci → ci_tid ci ≠ tid
    end.
Proof.
  intros I E. apply find_child_ok. intros a Ha.
  destruct (inv_children s I _ _ _ E Ha) as (ci & _ & -> & _). by eexists.
Qed.

Lemma not_created s t p a : Inv s → procs s !! t = Some p → a ∈ children p →
  ∀ t' p' c, procs s !! t' = Some p' → p_pc p' ≠ Created a c.
Proof. intros I E Ha t' p' c E' Hc. by eapply (created_apart s t' p' a c t p). Qed.

(** ** Every step keeps the invariant *)

Lemma wait_Inv s t p c s' : Inv s → procs s !! t = Some p → p_pc p = Running →
  process_wait s t p c = Some s' → Inv s'.
Proof.
  intros I E Hp. unfold process_wait.
  destruct (children_found s t p c I E) as (r & -> & Hr). cbn [mbind option_bind].
  assert (Inv (log s (Waited t c (-1)))) as IL by (apply Inv_log; [done|]; intros ??? [= <- <- <-]; by left).
  destruct r as [a|]; [|by intros [= <-]].
  destruct Hr as (Ha & ci & Ec & Et). rewrite Ec. cbn [mbind option_bind].
  destruct (waited ci); [by intros [= <-]|]. intros [= <-].
  eapply (Inv_proc _ t p); simpl; [|done|unfold parent_of; simpl; by rewrite Hp|done| |done].
  - apply (Inv_ci s a ci); simpl; [done|done|done|by eapply not_created|].
    intros Hs. by apply (inv_signal s I a ci).
  - by intros b [[? ?]|[= <-]].
Qed.

Lemma wait_finish_Inv s t p a s' : Inv s → procs s !! t = Some p → p_pc p = Waiting a →
  wait_finish s t p a = Some s' → Inv s'.
Proof.
  intros I E Hp. unfold wait_finish.
  assert (a ∈ children p) as Ha by (apply (inv_holds s I t p); [done|by right]).
  destruct (cis s !! a) as [ci|] eqn:Ec; [|done]. cbn [mbind option_bind].
  destruct (wait_sema ci) as [|n] eqn:Es; [done|]. intros [= <-].
  pose proof (inv_signal s I a ci Ec ltac:(by rewrite Es)) as Hx.
  apply Inv_log; [|intros ??? [= <- <- <-]; by right].
  eapply (Inv_proc _ t p); simpl; [|done|unfold parent_of; simpl; by rewrite Hp|done| |done].
  - apply (Inv_ci s a ci); simpl; [done|done|done|by eapply not_created|done].
  - by intros b [[? ?]|?].
Qed.

Lemma exit_Inv s c p v s' : Inv s → procs s !! c = Some p → p_pc p = Running ∨ p_pc p = Failed →
  process_exit s c p v = Some s' → Inv s'.
Proof.
  intros I E Hp. unfold process_exit, find_thread.
  assert (parent_of (p <| p_pc := Dead |>) = parent_of p) as Hpar
    by (unfold parent_of; simpl; by destruct Hp as [-> | ->]).
  assert (Inv (set_proc s c (p <| p_pc := Dead |>))) as ID.
  { apply (Inv_proc s c p); [done..| |done]. by intros b [[? ?]|?]. }
  assert (∀ s', s' = set_proc s c (p <| p_pc := Dead |>) → Inv (log s' (Exited c v))) as IL.
  { intros ? ->. by apply Inv_log. }
  destruct (procs s !! parent_tid p) as [q|] eqn:Eq; cbn [mbind option_bind];
    [|intros [= <-]; by apply IL].
  destruct (children_found s _ q c I Eq) as (r & Hf & Hr).
  assert (match r with
          | Some a => ∃ ci, cis s !! a = Some ci ∧
              Inv (log (set_proc (set_ci s a (ci <| ci_exit_status := v |> <| wait_sema ::= S |>)) c
                          (p <| p_pc := Dead |>)) (Exited c v))
          | None => True end) as IR.
  { destruct r as [a|]; [|done]. destruct Hr as (Ha & ci & Ec & Et). exists ci. split; [done|].
    set (ci' := ci <| ci_exit_status := v |> <| wait_sema ::= S |>).
    change (Inv (set_ci (log (set_proc s c (p <| p_pc := Dead |>)) (Exited c v)) a ci')).
    apply (Inv_ci _ a ci); simpl; [by apply IL|done|done| |].
    - intros t' p' c' [[<- <-]|[? E']]%lookup_insert_Some; [done|]. by apply (not_created s (parent_tid p) q a I Eq Ha t').
    - intros _. rewrite Et. left. }
  destruct (p_pc q); cbn [mbind option_bind]; rewrite ?Hf; cbn [mbind option_bind];
    try (intros [= <-]; by apply IL);
    (destruct r as [a|]; [|intros [= <-]; by apply IL]);
    destruct IR as (d & Ed & IR); rewrite Ed; cbn [mbind option_bind]; by intros [= <-].
Qed.

Lemma start_process_Inv s c p parent ok s' : Inv s → procs s !! c = Some p → p_pc p = Starting parent →
  start_process s c p parent ok = Some s' → Inv s'.
Proof.
  intros I E Hp. unfold start_process. destruct (auxs s !! c); [|done]. intros [= <-].
  eapply (Inv_proc _ c p); simpl; [by apply Inv_aux|done| |done| |].
  - unfold parent_of; simpl. rewrite Hp. by destruct ok.
  - destruct ok; by intros b [[? ?]|?].
  - by destruct ok.
Qed.

Section create.
Context (s : sys) (t : Z) (p : process).
Hypothesis I : Inv s.
Hypothesis E : procs s !! t = Some p.
Hypothesis Hp : p_pc p = Running.

(** The parts of the state after [execute_create]. *)
Definition new_ci : child_info := mk_ci TID_ERROR (-1) false 0.
Definition new_parent : process := p <| p_pc := Created (next_ci s) (next_tid s) |>.
Definition new_child : process := mk_process (Starting t) TID_ERROR [].
Definition new_procs : gmap Z process :=
  <[t := new_parent]> (<[next_tid s := new_child]> (procs s)).
Definition new_cis : gmap Z child_info := <[next_ci s := new_ci]> (cis s).

Lemma new_procs_inv u r : new_procs !! u = Some r →
  (u = t ∧ r = new_parent) ∨ (u = next_tid s ∧ r = new_child) ∨ procs s !! u = Some r.
Proof using.
  unfold new_procs. intros [[<- <-]|[Hu Er]]%lookup_insert_Some; [by left|].
  apply lookup_insert_Some in Er as [[<- <-]|[? Er]]; auto.
Qed.

Lemma new_procs_old u r : procs s !! u = Some r →
  ∃ r', new_procs !! u = Some r' ∧ parent_of r' = parent_of r.
Proof.
  intros Er. unfold new_procs. destruct (decide (u = t)) as [->|].
  - exists new_parent. rewrite lookup_insert_eq. split; [done|]. simplify_eq.
    unfold parent_of. simpl. by rewrite Hp.
  - exists r. pose proof (inv_tids s I u r Er). by rewrite !lookup_insert_ne by lia.
Qed.

Lemma new_cis_old b d : cis s !! b = Some d → new_cis !! b = Some d.
Proof.
  intros Ed. apply (inv_addrs s I) in Ed as Hb. unfold new_cis. rewrite lookup_insert_ne; [done|lia].
Qed.

Lemma new_cis_children b d u r : procs s !! u = Some r → b ∈ children r →
  new_cis !! b = Some d → cis s !! b = Some d.
Proof.
  intros Er Hb Ed. destruct (inv_children s I u r b Er Hb) as (d' & _ & Ed' & _).
  rewrite (new_cis_old _ _ Ed') in Ed. by simplify_eq.
Qed.

(** The children of a thread that had some before. *)
Lemma new_children u r b : new_procs !! u = Some r → b ∈ children r →
  ∃ r0, procs s !! u = Some r0 ∧ b ∈ children r0 ∧ children r0 = children r.
Proof.
  intros [[-> ->]|[[-> ->]|Er]]%new_procs_inv Hb; [by exists p|by apply elem_of_nil in Hb|by exists r].
Qed.

Lemma create_Inv : Inv (execute_create s t p).
Proof.
  pose proof (inv_tids s I t p E) as Ht.
  change (Inv (mk_sys new_procs new_cis (<[next_tid s := mk_aux 0 false]> (auxs s))
                 (Z.succ (next_tid s)) (Z.succ (next_ci s)) (history s))).
  pose proof I as [I0 I1 I2 I3 I4 I5 I6 I7 I8 I9]. split; cbn [procs cis next_tid next_ci history].
  - lia.
  - intros u r [[-> ->]|[[-> ->]|Er]]%new_procs_inv; [lia|lia|]. apply I1 in Er. lia.
  - unfold new_cis. intros b d [[<- <-]|[_ Ed]]%lookup_insert_Some; [simpl; unfold TID_ERROR; lia|].
    apply I2 in Ed. lia.
  - intros u r b Er Hb. destruct (new_children u r b Er Hb) as (r0 & Er0 & Hb0 & _).
    destruct (I3 u r0 b Er0 Hb0) as (d & w & Ed & Ew & Hw).
    destruct (new_procs_old _ _ Ew) as (w' & Ew' & Hw').
    exists d, w'. split; [by apply new_cis_old|]. split; [done|]. congruence.
  - intros u r b b' d d' Er Hb Hb' Ed Ed' Et.
    destruct (new_children u r b Er Hb) as (r0 & Er0 & Hb0 & Ec).
    apply (I4 u r0 b b' d d' Er0); [done|by rewrite Ec| | |done];
      eapply new_cis_children; rewrite ?Ec; done.
  - intros u r b [[-> ->]|[[-> ->]|Er]]%new_procs_inv Hb;
      [by destruct Hb as [[? ?]|?]|by destruct Hb as [[? ?]|?]|by eapply I5].
  - intros u r b d [[-> ->]|[[-> ->]|Er]]%new_procs_inv Hb; [|done|].
    + simpl in Hb. injection Hb as <- <-. split; [apply lookup_insert_eq|]. split.
      * exists new_child. unfold new_procs. rewrite lookup_insert_ne, lookup_insert_eq by lia. done.
      * intros b e Hb Eb. pose proof (I2 _ _ (new_cis_children _ _ _ _ E Hb Eb)) as [_ ?]. lia.
    + destruct (I6 u r b d Er Hb) as (Eb & (w & Ew & Hw) & Hn). split; [by apply new_cis_old|]. split.
      * destruct (new_procs_old _ _ Ew) as (w' & Ew' & Hw'). exists w'. split; [done|]. congruence.
      * intros b' e Hb' Eb'. apply (Hn b' e Hb'). by apply (new_cis_children b' e u r).
  - assert (∀ u r d, procs s !! u = Some r → p_pc r ≠ Created (next_ci s) d) as Hna.
    { intros u r d Er Hr. destruct (I6 u r _ d Er Hr) as (Ea & _). apply I2 in Ea. lia. }
    intros u r u' r' b d d' [[-> ->]|[[-> ->]|Er]]%new_procs_inv
      [[-> ->]|[[-> ->]|Er']]%new_procs_inv Hb Hb'; try done; simpl in *.
    + injection Hb as <- _. by apply (Hna u' r' d') in Er'.
    + injection Hb' as <- _. by apply (Hna u r d) in Er.
    + by eapply I7.
  - unfold new_cis. intros b d [[<- <-]|[_ Ed]]%lookup_insert_Some; [done|]. by eapply I8.
  - done.
Qed.
End create.

Section register.
Context (s : sys) (t : Z) (p : process) (a c : Z).
Hypothesis I : Inv s.
Hypothesis E : procs s !! t = Some p.
Hypothesis Hp : p_pc p = Created a c.

(** The parts of the state after [execute_register]. *)
Definition reg_parent : process := p <| children ::= (.++ [a]) |> <| p_pc := Loading a c |>.
Definition reg_ci : child_info := mk_ci c (-1) false 0.
Definition reg_procs : gmap Z process := <[t := reg_parent]> (procs s).
Definition reg_cis : gmap Z child_info := <[a := reg_ci]> (cis s).

Lemma reg_procs_inv u r : reg_procs !! u = Some r →
  (u = t ∧ r = reg_parent) ∨ (u ≠ t ∧ procs s !! u = Some r).
Proof using. unfold reg_procs. intros [[<- <-]|[? Er]]%lookup_insert_Some; auto. Qed.

Lemma reg_procs_old u r : procs s !! u = Some r →
  ∃ r', reg_procs !! u = Some r' ∧ parent_of r' = parent_of r.
Proof.
  intros Er. unfold reg_procs. destruct (decide (u = t)) as [->|].
  - exists reg_parent. rewrite lookup_insert_eq. split; [done|]. simplify_eq.
    unfold parent_of. simpl. by rewrite Hp.
  - exists r. by rewrite lookup_insert_ne.
Qed.

(** The objects on the lists are as before. *)
Lemma reg_cis_old u r b : procs s !! u = Some r → b ∈ children r → reg_cis !! b = cis s !! b.
Proof.
  intros Er Hb. unfold reg_cis. rewrite lookup_insert_ne; [done|]. intros <-.
  by apply (created_apart s t p a c u r).
Qed.

Lemma reg_children u r b : procs s !! u = Some r → b ∈ children r →
  ∃ d w, reg_cis !! b = Some d ∧ reg_procs !! ci_tid d = Some w ∧ parent_of w = u.
Proof.
  intros Er Hb. destruct (inv_children s I u r b Er Hb) as (d & w & Ed & Ew & Hw).
  destruct (reg_procs_old _ _ Ew) as (w' & Ew' & Hw'). exists d, w'.
  rewrite (reg_cis_old u r) by done. split; [done|]. split; [done|congruence].
Qed.

Lemma reg_unique u r b b' d d' : reg_procs !! u = Some r → b ∈ children r → b' ∈ children r →
  reg_cis !! b = Some d → reg_cis !! b' = Some d' → ci_tid d = ci_tid d' → b = b'.
Proof.
  destruct (inv_created s I t p a c E Hp) as (Ea & _ & Hn).
  assert (∀ x e, x ∈ children p → reg_cis !! x = Some e → ci_tid e ≠ c) as Hc.
  { intros x e Hx Ex. rewrite (reg_cis_old t p) in Ex by done. by eapply Hn. }
  assert (reg_cis !! a = Some reg_ci) as Ha by apply lookup_insert_eq.
  intros [[-> ->]|[_ Er]]%reg_procs_inv Hb Hb' Ed Ed' Et.
  2: { rewrite (reg_cis_old u r) in Ed, Ed' by done. by eapply (inv_unique s I). }
  simpl in Hb, Hb'. apply elem_of_app in Hb as [Hb| ->%list_elem_of_singleton];
    apply elem_of_app in Hb' as [Hb'| ->%list_elem_of_singleton]; [| | |done].
  - rewrite (reg_cis_old t p) in Ed, Ed' by done. by eapply (inv_unique s I).
  - simplify_eq. by apply (Hc b d) in Hb.
  - simplify_eq. by apply (Hc b' d') in Hb'.
Qed.

Lemma execute_register_Inv s' : execute_register s t p a c = Some s' → Inv s'.
Proof.
  destruct (inv_created s I t p a c E Hp) as (Ea & (q & Eq & Hq) & Hn).
  unfold execute_register. rewrite Ea. cbn [mbind option_bind]. intros [= <-].
  change (Inv (mk_sys reg_procs reg_cis (auxs s) (next_tid s) (next_ci s) (history s))).
  pose proof I as [I0 I1 I2 I3 I4 I5 I6 I7 I8 I9].
  split; cbn [procs cis next_tid next_ci history].
  - done.
  - intros u r [[-> ->]|[_ Er]]%reg_procs_inv; by eapply I1.
  - unfold reg_cis. intros b d [[<- <-]|[_ Ed]]%lookup_insert_Some; [|by eapply I2].
    split; [by eapply I2|]. simpl. by eapply I1.
  - intros u r b [[-> ->]|[_ Er]]%reg_procs_inv Hb; [|by eapply reg_children].
    simpl in Hb. apply elem_of_app in Hb as [Hb| ->%list_elem_of_singleton]; [by eapply reg_children|].
    destruct (reg_procs_old _ _ Eq) as (w' & Ew' & Hw'). exists reg_ci, w'.
    split; [apply lookup_insert_eq|]. split; [done|congruence].
  - apply reg_unique.
  - intros u r b [[-> ->]|[_ Er]]%reg_procs_inv Hb; [|by eapply I5].
    simpl. apply elem_of_app. right. destruct Hb as [[? Hb]|Hb]; [|done].
    simpl in Hb. injection Hb as <- _. by apply list_elem_of_singleton.
  - intros u r b d [[-> ->]|[Hu Er]]%reg_procs_inv Hb; [done|].
    destruct (I6 u r b d Er Hb) as (Eb & (w & Ew & Hw) & Hn').
    split; [unfold reg_cis; rewrite lookup_insert_ne; [done|]; intros <-; by apply Hu, (I7 u r t p a d c)|].
    split; [destruct (reg_procs_old _ _ Ew) as (w' & Ew' & Hw'); exists w'; split; [done|congruence]|].
    intros b' e Hb' Eb'. rewrite (reg_cis_old u r) in Eb' by done. by eapply Hn'.
  - intros u r u' r' b d d' [[-> ->]|[_ Er]]%reg_procs_inv [[-> ->]|[_ Er']]%reg_procs_inv Hb Hb'; [done..|].
    by eapply I7.
  - unfold reg_cis. intros b d [[<- <-]|[_ Ed]]%lookup_insert_Some; [done|by eapply I8].
  - done.
Qed.
End register.

(** Removing a [child_info] from its list and freeing it. *)
Lemma Inv_free s t p a : Inv s → procs s !! t = Some p → a ∈ children p →
  (∃ c, p_pc p = Loading a c) →
  Inv ((set_proc s t (p <| children ::= filter (.≠ a) |> <| p_pc := Running |>)) <| cis ::= delete a |>).
Proof.
  intros I E Ha [c Hp]. set (p' := p <| children ::= filter (.≠ a) |> <| p_pc := Running |>).
  assert (∀ u r, <[t := p']> (procs s) !! u = Some r → ∃ r0, procs s !! u = Some r0 ∧
    (∀ b, b ∈ children r → b ∈ children r0 ∧ b ≠ a) ∧ (u = t ∧ r = p' ∨ r = r0)) as Kb.
  { intros u r [[<- <-]|[Hu Er]]%lookup_insert_Some.
    - exists p. split; [done|]. split; [|by left]. intros b. simpl. rewrite list_elem_of_filter. tauto.
    - exists r. split; [done|]. split; [|by right]. intros b Hb. split; [done|]. intros ->.
      by apply Hu, (one_parent s t p u r a). }
  assert (∀ u r, procs s !! u = Some r → ∃ r', <[t := p']> (procs s) !! u = Some r' ∧ parent_of r' = parent_of r) as K.
  { intros u r Er. destruct (decide (u = t)) as [->|]; [|exists r; by rewrite lookup_insert_ne].
    exists p'. rewrite lookup_insert_eq. split; [done|]. simplify_eq. unfold parent_of. simpl. by rewrite Hp. }
  pose proof I as [I0 I1 I2 I3 I4 I5 I6 I7 I8 I9]. split; simpl; fold p'.
  - done.
  - intros u r (r0 & Er & _)%Kb. by eapply I1.
  - intros b d [_ Ed]%lookup_delete_Some. by eapply I2.
  - intros u r b (r0 & Er & Hr & _)%Kb [Hb Hba]%Hr.
    destruct (I3 u r0 b Er Hb) as (d & w & Ed & Ew & Hw). destruct (K _ _ Ew) as (w' & Ew' & Hw').
    exists d, w'. rewrite lookup_delete_ne by done. split; [done|]. split; [done|congruence].
  - intros u r b b' d d' (r0 & Er & Hr & _)%Kb [Hb _]%Hr [Hb' _]%Hr
      [_ Ed]%lookup_delete_Some [_ Ed']%lookup_delete_Some. by eapply I4.
  - intros u r b (r0 & Er & Hr & [[-> ->]| ->])%Kb Hb; [by destruct Hb as [[? ?]|?]|by eapply I5].
  - intros u r b d (r0 & Er & Hr & [[-> ->]| ->])%Kb Hb; [done|].
    destruct (I6 u r0 b d Er Hb) as (Eb & (w & Ew & Hw) & Hn). split; [|split].
    + rewrite lookup_delete_ne; [done|]. intros <-. by apply (created_apart s u r0 a d t p).
    + destruct (K _ _ Ew) as (w' & Ew' & Hw'). exists w'. split; [done|congruence].
    + intros b' e Hb' [_ Eb']%lookup_delete_Some. by eapply Hn.
  - intros u r u' r' b d d' (r0 & Er & _ & [[-> ->]| ->])%Kb (r0' & Er' & _ & [[-> ->]| ->])%Kb Hb Hb';
      [done..|]. by eapply I7.
  - intros b d [_ Ed]%lookup_delete_Some. by eapply I8.
  - done.
Qed.

Lemma finish_Inv s t p a c s' : Inv s → procs s !! t = Some p → p_pc p = Loading a c →
  execute_finish s t p a c = Some s' → Inv s'.
Proof.
  intros I E Hp. unfold execute_finish. destruct (auxs s !! c) as [x|]; [|done].
  cbn [mbind option_bind]. destruct (load_sema x) as [|n]; [done|].
  pose proof (Inv_aux s c (x <| load_sema := n |>) I) as IA.
  destruct (load_success x); cbn [negb]; intros [= <-]; (apply Inv_log; [|done]).
  - apply (Inv_proc _ t p); simpl; [done|done|unfold parent_of; simpl; by rewrite Hp|done| |done].
    by intros b [[? ?]|?].
  - assert (a ∈ children p) as Ha by (apply (inv_holds s I t p a E); left; by exists c).
    pose proof (Inv_free _ t p a IA E Ha ltac:(by exists c)) as IF. exact IF.
Qed.

Lemma process_step_Inv s s' : Inv s → step s s' → Inv s'.
Proof.
  intros I S. destruct S.
  - by apply create_Inv.
  - by apply Inv_log.
  - by eapply execute_register_Inv.
  - by eapply finish_Inv.
  - by eapply start_process_Inv.
  - by eapply wait_Inv.
  - by eapply wait_finish_Inv.
  - eapply exit_Inv; eauto.
  - eapply exit_Inv; eauto.
Qed.

Lemma init_Inv : Inv init.
Proof.
  assert (∀ t p, procs init !! t = Some p → t = 1 ∧ p = mk_process Running TID_ERROR []) as K
    by (intros t p; simpl; by intros [<- <-]%lookup_singleton_Some).
  split.
  - done.
  - intros t p [-> ->]%K. simpl. lia.
  - done.
  - by intros t p a [-> ->]%K ?%elem_of_nil.
  - by intros t p a b ci ci' [-> ->]%K ?%elem_of_nil.
  - intros t p a [-> ->]%K [[? ?]|?]; done.
  - by intros t p a c [-> ->]%K.
  - by intros t p t' p' a c c' [-> ->]%K.
  - done.
  - by intros t c v ?%elem_of_nil.
Qed.

Lemma reachable_Inv s : rtc step init s → Inv s.
Proof.
  intros R. eapply (rtc_invariant step Inv); [apply process_step_Inv|exact R|apply init_Inv].
Qed.

(** ** Correctness *)

(** C6: [process_wait] returns -1 or the exit status of the child: in every
    execution, whatever the interleaving, a status that [process_wait] returns
    for a child is one with which that child has exited. *)
Theorem process_wait_returns_status s t c v :
  rtc step init s → Waited t c v ∈ history s → v = -1 ∨ Exited c v ∈ history s.
Proof. intros R. apply (inv_waits s (reachable_Inv s R)). Qed.

Lemma find_thread_alive s t p : procs s !! t = Some p → p_pc p ≠ Dead → find_thread s t = Some p.
Proof. intros E Hp. unfold find_thread. rewrite E. cbn [mbind option_bind]. by destruct (p_pc p). Qed.

(** The child on the list of [t] is found by its tid. *)
Lemma child_found s t p a ci : Inv s → procs s !! t = Some p → a ∈ children p →
  cis s !! a = Some ci → find_child s (children p) (ci_tid ci) = Some (Some a).
Proof.
  intros I E Ha Ec. destruct (children_found s t p (ci_tid ci) I E) as (r & -> & Hr).
  destruct r as [b|]; [|by apply (Hr a ci) in Ha].
  destruct Hr as (Hb & d & Ed & Et). do 2 f_equal. by eapply (inv_unique s I).
Qed.

(** C25: a child that exits wakes its parent: in every reachable state, when a
    thread waits for a child, or will, and the child exits with status [v], the
    wait can end at once and returns [v]. *)
Theorem process_exit_wakes_parent s t p a ci c q v :
  rtc step init s → procs s !! t = Some p → p_pc p = Waiting a →
  cis s !! a = Some ci → ci_tid ci = c → procs s !! c = Some q → p_pc q = Running →
  ∃ s' s'', process_exit s c q v = Some s' ∧ step s s' ∧
    wait_finish s' t p a = Some s'' ∧ step s' s'' ∧ Waited t c v ∈ history s''.
Proof.
  intros R E Hp Ec Et Eq Hq. pose proof (reachable_Inv s R) as I.
  assert (c ≠ t) as Hct by congruence.
  assert (a ∈ children p) as Ha by (apply (inv_holds s I t p a E); by right).
  destruct (inv_children s I t p a E Ha) as (d & w & Ed & Ew & Hw).
  subst c. assert (d = ci) as -> by congruence. assert (w = q) as -> by congruence.
  unfold parent_of in Hw. rewrite Hq in Hw.
  assert (∃ s', process_exit s (ci_tid ci) q v = Some s' ∧ procs s' !! t = Some p ∧
    cis s' !! a = Some (ci <| ci_exit_status := v |> <| wait_sema ::= S |>)) as (s' & Ex & Ep' & Ec').
  { unfold process_exit. rewrite Hw, (find_thread_alive s t p) by (done || by rewrite Hp).
    rewrite (child_found s t p a ci) by done. cbn [mbind option_bind]. rewrite Ec.
    cbn [mbind option_bind]. eexists. split; [done|]. simpl.
    rewrite lookup_insert_ne, lookup_insert_eq by done. done. }
  exists s'. eexists. split; [done|]. split; [by eapply step_exit|].
  assert (wait_finish s' t p a = Some _) as Ef
    by (unfold wait_finish; rewrite Ec'; cbn [mbind option_bind]; simpl; reflexivity).
  split; [exact Ef|]. split; [by eapply step_wait_finish|]. simpl. left.
Qed.

(** A child that exits before [process_execute] has registered it: the states on
    the way, by the two processes, the [child_info], the semaphore of the load
    and the history. *)
Definition two (p1 p2 : process) (ci : child_info) (x : exec_aux) (h : list event) : sys :=
  mk_sys (<[1 := p1]> {[2 := p2]}) {[1 := ci]} {[2 := x]} 3 2 h.
Definition created : sys :=
  two (mk_process (Created 1 2) TID_ERROR []) (mk_process (Starting 1) TID_ERROR [])
    (mk_ci TID_ERROR (-1) false 0) (mk_aux 0 false) [].
Definition loaded : sys :=
  two (mk_process (Created 1 2) TID_ERROR []) (mk_process Running 1 [])
    (mk_ci TID_ERROR (-1) false 0) (mk_aux 1 true) [].
Definition gone : sys :=
  two (mk_process (Created 1 2) TID_ERROR []) (mk_process Dead 1 [])
    (mk_ci TID_ERROR (-1) false 0) (mk_aux 1 true) [Exited 2 7].
Definition registered : sys :=
  two (mk_process (Loading 1 2) TID_ERROR [1]) (mk_process Dead 1 [])
    (mk_ci 2 (-1) false 0) (mk_aux 1 true) [Exited 2 7].
Definition returned : sys :=
  two (mk_process Running TID_ERROR [1]) (mk_process Dead 1 [])
    (mk_ci 2 (-1) false 0) (mk_aux 0 true) [Executed 1 2; Exited 2 7].
Definition hung : sys :=
  two (mk_process (Waiting 1) TID_ERROR [1]) (mk_process Dead 1 [])
    (mk_ci 2 (-1) true 0) (mk_aux 0 true) [Executed 1 2; Exited 2 7].

Ltac by_compute := vm_compute; reflexivity.

Lemma created_reachable : rtc step init created.
Proof.
  apply rtc_once. replace created with (execute_create init 1 (mk_process Running TID_ERROR []))
    by by_compute. apply step_create; by_compute.
Qed.

Lemma hung_reachable : rtc step init hung.
Proof.
  transitivity created; [apply created_reachable|].
  eapply (rtc_l _ _ loaded); [eapply (step_start _ 2 _ 1 true); by_compute|].
  eapply (rtc_l _ _ gone); [eapply (step_exit _ 2 _ 7); by_compute|].
  eapply (rtc_l _ _ registered); [eapply (step_register _ 1 _ 1 2); by_compute|].
  eapply (rtc_l _ _ returned); [eapply (step_finish _ 1 _ 1 2); by_compute|].
  apply rtc_once. eapply (step_wait _ 1 _ 2); by_compute.
Qed.

(** C38: the exit of a child can be lost: when the child runs and exits before
    [process_execute] puts its [child_info] on the parent's list, no semaphore
    is signalled, and the parent waits for the child for ever: there is a
    reachable state in which the child has exited, the parent waits for it, and
    no thread can take a step. *)
Theorem process_wait_hangs : ∃ s p q ci,
  rtc step init s ∧ procs s !! 1 = Some p ∧ p_pc p = Waiting 1 ∧
  cis s !! 1 = Some ci ∧ ci_tid ci = 2 ∧
  procs s !! 2 = Some q ∧ p_pc q = Dead ∧ Exited 2 7 ∈ history s ∧
  ∀ s', ¬ step s s'.
Proof.
  eexists hung, _, _, _. split; [apply hung_reachable|].
  repeat (split; [vm_compute; reflexivity|]). split; [simpl; set_solver|].
  assert (∀ t p, procs hung !! t = Some p → p_pc p = Waiting 1 ∨ p_pc p = Dead) as K.
  { intros t p. simpl. intros [[_ <-]|[_ E]]%lookup_insert_Some; [by left|].
    apply lookup_singleton_Some in E as [_ <-]. by right. }
  intros s' S. destruct S; match goal with E : procs hung !! _ = Some _ |- _ => apply K in E end;
    try naive_solver congruence.
  assert (a = 1) as -> by naive_solver congruence. done.
Qed.

(** ** Witnesses *)

(** The parent registers the child, waits for it, and the child exits. *)
Definition happy (pc1 : pc) (q : process) (ci : child_info) (x : exec_aux) (h : list event) : sys :=
  two (mk_process pc1 TID_ERROR [1]) q ci x h.
Definition in_wait : sys :=
  happy (Waiting 1) (mk_process Running 1 []) (mk_ci 2 (-1) true 0) (mk_aux 0 true) [Executed 1 2].

Lemma in_wait_reachable : rtc step init in_wait.
Proof.
  transitivity created; [apply created_reachable|].
  eapply (rtc_l _ _ (happy (Loading 1 2) (mk_process (Starting 1) TID_ERROR []) (mk_ci 2 (-1) false 0)
                       (mk_aux 0 false) [])); [eapply (step_register _ 1 _ 1 2); by_compute|].
  eapply (rtc_l _ _ (happy (Loading 1 2) (mk_process Running 1 []) (mk_ci 2 (-1) false 0)
                       (mk_aux 1 true) [])); [eapply (step_start _ 2 _ 1 true); by_compute|].
  eapply (rtc_l _ _ (happy Running (mk_process Running 1 []) (mk_ci 2 (-1) false 0)
                       (mk_aux 0 true) [Executed 1 2])); [eapply (step_finish _ 1 _ 1 2); by_compute|].
  apply rtc_once. eapply (step_wait _ 1 _ 2); by_compute.
Qed.

Lemma process_exit_wakes_parent_witness : ∃ s' s'',
  process_exit in_wait 2 (mk_process Running 1 []) 7 = Some s' ∧
  wait_finish s' 1 (mk_process (Waiting 1) TID_ERROR [1]) 1 = Some s'' ∧
  Waited 1 2 7 ∈ history s''.
Proof.
  destruct (process_exit_wakes_parent in_wait 1 (mk_process (Waiting 1) TID_ERROR [1]) 1
    (mk_ci 2 (-1) true 0) 2 (mk_process Running 1 []) 7) as (s' & s'' & E1 & _ & E2 & _ & Hw).
  - apply in_wait_reachable.
  - by_compute.
  - reflexivity.
  - by_compute.
  - reflexivity.
  - by_compute.
  - reflexivity.
  - exists s', s''. split; [exact E1|]. split; [exact E2|exact Hw].
Defined.

Lemma process_wait_returns_status_witness :
  Waited 1 2 7 ∈ [Waited 1 2 7; Exited 2 7; Executed 1 2] ∧
  (7 = -1 ∨ Exited 2 7 ∈ [Waited 1 2 7; Exited 2 7; Executed 1 2]).
Proof.
  split; [left|].
  apply (process_wait_returns_status
    (happy Running (mk_process Dead 1 []) (mk_ci 2 7 true 0) (mk_aux 0 true)
       [Waited 1 2 7; Exited 2 7; Executed 1 2]) 1 2 7).
  - transitivity in_wait; [apply in_wait_reachable|].
    eapply (rtc_l _ _ (happy (Waiting 1) (mk_process Dead 1 []) (mk_ci 2 7 true 1) (mk_aux 0 true)
                         [Exited 2 7; Executed 1 2])); [eapply (step_exit _ 2 _ 7); by_compute|].
    apply rtc_once. eapply (step_wait_finish _ 1 _ 1); by_compute.
  - left.
Defined.
