(* ===== verification/Load.v ===== *)
(** * Loading programs ([userprog/process.c], [load] and its helpers)

    The loader reads the ELF headers of a file and maps the program's segments
    and a stack page into a new page directory: it puts the file system, the
    page allocator and the page tables together.  [load_image] is [load] up to
    the call of [push_arguments], which is [Args.push_arguments], and [load] goes
    on with its result. *)

From S2P Require Import Prelude Machine Bytes FixedPoint Bitmap Palloc Pagedir Block FsState InodeIo.
From S2P Require Import FreeMap Inode Directory Filesys CString Args.

Open Scope Z_scope.

(** The fields of [struct Elf32_Ehdr] that [load] looks at. *)
Record Elf32_Ehdr := mk_Ehdr {
  e_ident : list Z;
  e_type : Z;
  e_machine : Z;
  e_version : Z;
  e_entry : Z;
  e_phoff : Z;
  e_phentsize : Z;
  e_phnum : Z;
}.

(** [struct Elf32_Phdr]. *)
Record Elf32_Phdr := mk_Phdr {
  p_type : Z;
  p_offset : Z;
  p_vaddr : Z;
  p_paddr : Z;
  p_filesz : Z;
  p_memsz : Z;
  p_flags : Z;
  p_align : Z;
}.

Definition sizeof_ehdr : Z := 52.
Definition sizeof_phdr : Z := 32.

Definition decode_ehdr (bs : list Z) : Elf32_Ehdr :=
  mk_Ehdr (slice 0 16 bs) (le (slice 16 2 bs)) (le (slice 18 2 bs)) (le (slice 20 4 bs))
    (le (slice 24 4 bs)) (le (slice 28 4 bs)) (le (slice 42 2 bs)) (le (slice 44 2 bs)).

Definition decode_phdr (bs : list Z) : Elf32_Phdr :=
  mk_Phdr (le (slice 0 4 bs)) (le (slice 4 4 bs)) (le (slice 8 4 bs)) (le (slice 12 4 bs))
    (le (slice 16 4 bs)) (le (slice 20 4 bs)) (le (slice 24 4 bs)) (le (slice 28 4 bs)).

Definition PT_NULL : Z := 0.
Definition PT_LOAD : Z := 1.
Definition PT_DYNAMIC : Z := 2.
Definition PT_INTERP : Z := 3.
Definition PT_NOTE : Z := 4.
Definition PT_SHLIB : Z := 5.
Definition PT_PHDR : Z := 6.
Definition PT_STACK : Z := 1685382481.
Definition PF_W : Z := 2.

(** The test of the header, on the bytes that were read. *)
Definition valid_ehdr (got : list Z) : bool :=
  let h := decode_ehdr got in
  (Z.of_nat (length got) =? sizeof_ehdr) &&
  bool_decide (take 7 (e_ident h) = [127; 69; 76; 70; 1; 1; 1]) &&
  (e_type h =? 2) && (e_machine h =? 3) && (e_version h =? 1) &&
  (e_phentsize h =? sizeof_phdr) && (e_phnum h <=? 1024).

Definition validate_segment (ph : Elf32_Phdr) (file_length : Z) : bool :=
  if negb (Z.land (p_offset ph) PGMASK =? Z.land (p_vaddr ph) PGMASK) then false
  else if u32 file_length <? p_offset ph then false
  else if p_memsz ph <? p_filesz ph then false
  else if p_memsz ph =? 0 then false
  else if negb (is_user_vaddr (p_vaddr ph)) then false
  else if negb (is_user_vaddr (u32 (p_vaddr ph + p_memsz ph))) then false
  else if u32 (p_vaddr ph + p_memsz ph) <? p_vaddr ph then false
  else if p_vaddr ph <? PGSIZE then false
  else true.

(** What [load] computes of a segment: [file_page], [mem_page], [read_bytes] and
    [zero_bytes]. *)
Definition segment (ph : Elf32_Phdr) : Z * Z * Z * Z :=
  let file_page := Z.land (p_offset ph) (not32 PGMASK) in
  let mem_page := Z.land (p_vaddr ph) (not32 PGMASK) in
  let page_offset := Z.land (p_vaddr ph) PGMASK in
  if 0 <? p_filesz ph then
    let read_bytes := u32 (page_offset + p_filesz ph) in
    (file_page, mem_page, read_bytes,
     u32 (ROUND_UP (u32 (page_offset + p_memsz ph)) PGSIZE - read_bytes))
  else (file_page, mem_page, 0, ROUND_UP (u32 (page_offset + p_memsz ph)) PGSIZE).

(** The file system and the machine's memory. *)
Record lstate (D : Type) := mk_lstate {
  l_fs : fs D;
  l_pa : palloc;
}.
Arguments mk_lstate {D} _ _.
Arguments l_fs {D} _.
Arguments l_pa {D} _.
#[export] Instance lstate_ctor D : Ctor (lstate D) := λ l, mk_lstate (l_fs l) (l_pa l).

(** Storing a buffer into the kernel's memory. *)
Definition store_buffer (m : Z → Z) (a : Z) (bs : list Z) : Z → Z :=
  λ b, if in_range a (Z.of_nat (length bs)) b then bs !!! Z.to_nat (b - a) else m b.

Section load.
Context {D : Type} `{BlockDev D}.
Context (init_page_dir init_ram_pages : Z).
Implicit Type l : lstate D.

Definition install_page l (pd upage kpage : Z) (writable : bool) : option (lstate D * bool) :=
  k ← pagedir_get_page (l_pa l) pd upage;
  if k =? NULL then
    '(s, ok) ← pagedir_set_page init_page_dir init_ram_pages (l_pa l) pd upage kpage writable;
    Some (l <| l_pa := s |>, ok)
  else Some (l, false).

(** Freeing the frame of a page that could not be loaded. *)
Definition give_up_page l (kpage : Z) : option (lstate D * bool) :=
  s ← palloc_free_page (l_pa l) kpage;
  Some (l <| l_pa := s |>, false).

(** One page of [load_segment]. *)
Definition load_page l (pd fp upage page_read_bytes : Z) (writable : bool) : option (lstate D * bool) :=
  let page_zero_bytes := PGSIZE - page_read_bytes in
  '(s, kpage) ← palloc_get_page (l_pa l) PAL_USER;
  let l := l <| l_pa := s |> in
  if kpage =? NULL then Some (l, false)
  else
    '(f, got) ← file_read (l_fs l) fp page_read_bytes;
    let l := l <| l_fs := f |> <| l_pa ::= λ s, s <| mem ::= λ m, store_buffer m kpage got |> |> in
    if negb (Z.of_nat (length got) =? page_read_bytes) then give_up_page l kpage
    else
      let l := l <| l_pa ::= λ s, s <| mem ::= λ m, fill m (kpage + page_read_bytes) 0 page_zero_bytes |> |> in
      '(l, ok) ← install_page l pd upage kpage writable;
      if negb ok then give_up_page l kpage else Some (l, true).

(** The loop of [load_segment]; a page is used up in each iteration. *)
Fixpoint load_pages (n : nat) l (pd fp upage read_bytes zero_bytes : Z) (writable : bool)
    : option (lstate D * bool) :=
  match n with
  | O => None
  | S n =>
      if (0 <? read_bytes) || (0 <? zero_bytes) then
        let page_read_bytes := if read_bytes <? PGSIZE then read_bytes else PGSIZE in
        let page_zero_bytes := PGSIZE - page_read_bytes in
        '(l, ok) ← load_page l pd fp upage page_read_bytes writable;
        if negb ok then Some (l, false)
        else load_pages n l pd fp (u32 (upage + PGSIZE)) (u32 (read_bytes - page_read_bytes))
               (u32 (zero_bytes - page_zero_bytes)) writable
      else Some (l, true)
  end.

Definition load_segment l (pd fp ofs upage read_bytes zero_bytes : Z) (writable : bool)
    : option (lstate D * bool) :=
  assert! u32 (read_bytes + zero_bytes) mod PGSIZE =? 0;
  assert! pg_ofs upage =? 0;
  assert! Z.rem ofs PGSIZE =? 0;
  f ← file_seek (l_fs l) fp ofs;
  load_pages (S (Z.to_nat (u32 (read_bytes + zero_bytes) / PGSIZE)))
    (l <| l_fs := f |>) pd fp upage read_bytes zero_bytes writable.

(** The loop over the program headers, [n] of them from [file_ofs] on. *)
Fixpoint load_segments (n : nat) l (pd fp file_ofs : Z) : option (lstate D * bool) :=
  match n with
  | O => Some (l, true)
  | S n =>
      len ← file_length (l_fs l) fp;
      if (file_ofs <? 0) || (len <? file_ofs) then Some (l, false)
      else
        f ← file_seek (l_fs l) fp file_ofs;
        '(f, got) ← file_read f fp sizeof_phdr;
        let l := l <| l_fs := f |> in
        if negb (Z.of_nat (length got) =? sizeof_phdr) then Some (l, false)
        else
          let ph := decode_phdr got in
          let file_ofs := int32 (file_ofs + sizeof_phdr) in
          if (p_type ph =? PT_DYNAMIC) || (p_type ph =? PT_INTERP) || (p_type ph =? PT_SHLIB)
          then Some (l, false)
          else if p_type ph =? PT_LOAD then
            len ← file_length (l_fs l) fp;
            if validate_segment ph len then
              let writable := has (p_flags ph) PF_W in
              let '(file_page, mem_page, read_bytes, zero_bytes) := segment ph in
              '(l, ok) ← load_segment l pd fp (int32 file_page) mem_page read_bytes zero_bytes writable;
              if negb ok then Some (l, false) else load_segments n l pd fp file_ofs
            else Some (l, false)
          else load_segments n l pd fp file_ofs
  end.

Definition setup_stack l (pd : Z) : option (lstate D * bool) :=
  '(s, kpage) ← palloc_get_page (l_pa l) (Z.lor PAL_USER PAL_ZERO);
  let l := l <| l_pa := s |> in
  if negb (kpage =? NULL) then
    '(l, success) ← install_page l pd (PHYS_BASE - PGSIZE) kpage true;
    if (success : bool) then Some (l, true) else give_up_page l kpage
  else Some (l, false).

(** [load] from the opened file on, up to [push_arguments]. *)
Definition load_file l (pd fp : Z) : option (lstate D * option Z) :=
  '(f, got) ← file_read (l_fs l) fp sizeof_ehdr;
  let l := l <| l_fs := f |> in
  if negb (valid_ehdr got) then Some (l, None)
  else
    let h := decode_ehdr got in
    '(l, ok) ← load_segments (Z.to_nat (e_phnum h)) l pd fp (int32 (e_phoff h));
    if negb ok then Some (l, None)
    else
      '(l, ok) ← setup_stack l pd;
      Some (l, if (ok : bool) then Some (e_entry h) else None).

(** [load], with the result of [push_arguments]: the new page directory, and the
    entry point and the file if it succeeds. *)
Definition load l (cmdline : list Z) (args_ok : bool) : option (lstate D * Z * option (Z * Z)) :=
  '(s, pd) ← pagedir_create init_page_dir (l_pa l);
  let l := l <| l_pa := s |> in
  if pd =? NULL then Some (l, pd, None)
  else
    '(s, fn_copy) ← palloc_get_page (l_pa l) 0;
    let l := l <| l_pa := s |> in
    if fn_copy =? NULL then Some (l, pd, None)
    else
      match words [32] (take (PAGE - 1) cmdline) with
      | [] => None
      | prog_name :: _ =>
          '(f, fp) ← filesys_open (l_fs l) prog_name;
          s ← palloc_free_page (l_pa l) fn_copy;
          let l := l <| l_fs := f |> <| l_pa := s |> in
          if fp =? NULL then Some (l, pd, None)
          else
            '(l, r) ← load_file l pd fp;
            match r with
            | Some entry =>
                if args_ok then
                  f ← file_deny_write (l_fs l) fp;
                  Some (l <| l_fs := f |>, pd, Some (entry, fp))
                else
                  f ← file_close (l_fs l) fp;
                  Some (l <| l_fs := f |>, pd, None)
            | None =>
                f ← file_close (l_fs l) fp;
                Some (l <| l_fs := f |>, pd, None)
            end
      end.
End load.

(** ** Segments *)

(** The fields of a program header are words. *)
Definition phdr_ok (ph : Elf32_Phdr) : Prop :=
  is_u32 (p_offset ph) ∧ is_u32 (p_vaddr ph) ∧ is_u32 (p_filesz ph) ∧ is_u32 (p_memsz ph).

(** The end of a segment that is not before its start has not wrapped around. *)
Lemma no_wrap v m : is_u32 v → is_u32 m → v ≤ u32 (v + m) → u32 (v + m) < PHYS_BASE →
  v + m < PHYS_BASE.
Proof.
  unfold is_u32, u32, PHYS_BASE. intros Hv Hm Hle Hlt.
  destruct (decide (v + m < 2 ^ 32)) as [Hs|Hs]; [by rewrite Z.mod_small in Hlt by lia|].
  rewrite <-(Z_mod_plus_full _ (-1)), Z.mod_small in Hle by lia. lia.
Qed.

Lemma round_up_page x : 0 ≤ x < 2 ^ 32 - 4096 → ROUND_UP x 4096 = (x + 4095) / 4096 * 4096.
Proof.
  intros Hx. unfold ROUND_UP. replace (x + 4096 - 1) with (x + 4095) by lia.
  rewrite (u32_small (x + 4095)) by (unfold is_u32; lia). apply u32_small. unfold is_u32.
  pose proof (Z.div_mod (x + 4095) 4096 ltac:(lia)).
  pose proof (Z.mod_pos_bound (x + 4095) 4096 ltac:(lia)). lia.
Qed.

(** C32: the segments that [validate_segment] accepts are what [load_segment]
    expects: [load] computes, without overflow, page-aligned positions in the
    file and in memory and whole pages, which hold the segment, lie above the
    first page and end at [PHYS_BASE] at most; so no assertion of
    [load_segment] can fail, and no page is mapped outside the user's memory. *)
Theorem validate_segment_sound ph len :
  phdr_ok ph → 0 ≤ len < 2 ^ 31 → validate_segment ph len = true →
  let '(file_page, mem_page, read_bytes, zero_bytes) := segment ph in
  file_page mod 4096 = 0 ∧ mem_page mod 4096 = 0 ∧
  0 ≤ file_page ≤ len ∧ p_offset ph - file_page = p_vaddr ph - mem_page ∧
  (read_bytes + zero_bytes) mod 4096 = 0 ∧
  4096 ≤ mem_page ≤ p_vaddr ph ∧
  p_vaddr ph + p_memsz ph ≤ mem_page + read_bytes + zero_bytes ∧
  mem_page + read_bytes + zero_bytes ≤ PHYS_BASE ∧
  (read_bytes = 0 ∧ p_filesz ph = 0 ∨ mem_page + read_bytes = p_vaddr ph + p_filesz ph) ∧
  0 ≤ read_bytes ∧ 0 ≤ zero_bytes.
Proof.
  intros (Ho & Hv & Hf & Hm) Hl V. unfold validate_segment in V.
  repeat match type of V with (if ?b then false else _) = true => destruct b eqn:?; [done|] end.
  bool_simp. unfold is_user_vaddr in *. bool_simp.
  change PGMASK with (Z.ones 12) in *. rewrite !Z.land_ones in * by lia. change (2 ^ 12) with 4096 in *.
  change PGSIZE with 4096 in *. unfold segment.
  change PGMASK with (Z.ones 12). rewrite !land_not_ones by (done || lia).
  rewrite Z.land_ones by lia. change (2 ^ 12) with 4096. change PGSIZE with 4096.
  assert (p_vaddr ph + p_memsz ph < PHYS_BASE) as Hvm by (by apply no_wrap).
  unfold is_u32, PHYS_BASE in *. rewrite (u32_small len) in * by (unfold is_u32; lia).
  set (r := p_vaddr ph mod 4096) in *. set (q := p_vaddr ph / 4096).
  pose proof (Z.mod_pos_bound (p_vaddr ph) 4096 ltac:(lia)) as Hr. fold r in Hr.
  pose proof (Z.div_mod (p_vaddr ph) 4096 ltac:(lia)) as Eq. fold q r in Eq.
  pose proof (Z.div_mod (p_offset ph) 4096 ltac:(lia)) as Eo.
  rewrite !(u32_small (r + _)) by (unfold is_u32; lia).
  rewrite round_up_page by lia. set (n := (r + p_memsz ph + 4095) / 4096).
  assert (r + p_memsz ph ≤ n * 4096 < r + p_memsz ph + 4096) as Hn.
  { unfold n. pose proof (Z.div_mod (r + p_memsz ph + 4095) 4096 ltac:(lia)).
    pose proof (Z.mod_pos_bound (r + p_memsz ph + 4095) 4096 ltac:(lia)). lia. }
  rewrite Heqb in *. rewrite u32_small by (unfold is_u32; lia).
  replace (p_offset ph - r) with (p_offset ph / 4096 * 4096) by lia.
  replace (p_vaddr ph - r) with (q * 4096) by lia.
  assert (0 ≤ p_offset ph / 4096) by (apply Z.div_pos; lia).
  destruct (Z.ltb_spec 0 (p_filesz ph)); rewrite ?Z.add_0_l, ?Zplus_minus, !Z.mod_mul by lia;
    repeat split; lia.
Qed.

(** A data segment with 5000 bytes of data and 4000 of zeros. *)
Definition example_phdr : Elf32_Phdr := mk_Phdr PT_LOAD 256 134512896 0 5000 9000 6 4096.

Lemma validate_segment_sound_witness :
  segment example_phdr = (0, 134512640, 5256, 7032) ∧
  let '(_, mem_page, read_bytes, zero_bytes) := segment example_phdr in
  (read_bytes + zero_bytes) mod 4096 = 0 ∧ mem_page + read_bytes + zero_bytes ≤ PHYS_BASE.
Proof.
  split; [vm_compute; reflexivity|].
  assert (phdr_ok example_phdr) as P by (repeat split; vm_compute; congruence).
  pose proof (validate_segment_sound example_phdr 10000 P ltac:(lia) ltac:(vm_compute; reflexivity)) as T.
  destruct (segment example_phdr) as [[[? ?] ?] ?]. split; apply T.
Defined.
