(* ===== verification/Malloc.v ===== *)
(** * The block allocator ([threads/malloc.c])

    [malloc], [calloc], [realloc] and [free] over the page allocator of
    [Palloc].  A request of up to 1024 bytes takes a block of the first
    descriptor whose blocks are large enough, cut from a page called an arena;
    a larger one takes pages of its own.  The arena headers are the map
    [arenas] and the free lists are sequences of block addresses, both kept
    apart from [mem], in which they live in the first bytes of the arenas and
    of the free blocks; a page has the arena magic number exactly when the map
    has an entry for it.  The descriptors' locks only protect the critical
    sections, which are one step here.

    [live h p n] says that the client holds a block of [n] bytes at [p].  The
    theorems describe every operation by it, and show that live blocks never
    overlap, that a live block can always be freed, and that an arena is
    returned to the page allocator when its last block is. *)

From S2P Require Import Prelude Machine FixedPoint Bitmap Palloc.

Open Scope Z_scope.

Record desc := mk_desc {
  block_size : Z;
  blocks_per_arena : Z;
  free_list : list Z;
}.
#[export] Instance desc_ctor : Ctor desc :=
  λ d, mk_desc (block_size d) (blocks_per_arena d) (free_list d).

(** [desc] is the index of the owning descriptor, [None] for a big block. *)
Record arena := mk_arena {
  arena_desc : option nat;
  free_cnt : Z;
}.
#[export] Instance arena_ctor : Ctor arena := λ a, mk_arena (arena_desc a) (free_cnt a).

(** [sizeof (struct arena)]. *)
Definition arena_sz : Z := 12.

Record heap := mk_heap {
  descs : list desc;
  arenas : gmap Z arena;
  pages : palloc;
}.
#[export] Instance heap_ctor : Ctor heap := λ h, mk_heap (descs h) (arenas h) (pages h).

(** The loop of [malloc_init], which doubles the block size; [ds] are the
    descriptors set up so far. *)
Fixpoint malloc_init_loop (fuel : nat) (size : Z) (ds : list desc) : option (list desc) :=
  match fuel with
  | O => None
  | S fuel =>
      if size <? PGSIZE / 2 then
        let ds := ds ++ [mk_desc size ((PGSIZE - arena_sz) / size) []] in
        assert! Z.of_nat (length ds) <=? 10;
        malloc_init_loop fuel (u32 (size * 2)) ds
      else Some ds
  end.

Definition malloc_init (s : palloc) : option heap :=
  ds ← malloc_init_loop 11 16 [];
  Some (mk_heap ds ∅ s).

Definition block_to_arena (h : heap) (b : Z) : option Z :=
  let a := pg_round_down b in
  assert! negb (a =? NULL);
  ar ← arenas h !! a;
  match arena_desc ar with
  | Some i =>
      d ← descs h !! i;
      assert! u32 (pg_ofs b - arena_sz) mod block_size d =? 0;
      Some a
  | None =>
      assert! pg_ofs b =? arena_sz;
      Some a
  end.

Definition arena_to_block (h : heap) (a idx : Z) : option Z :=
  assert! negb (a =? NULL);
  ar ← arenas h !! a;
  i ← arena_desc ar;
  d ← descs h !! i;
  assert! idx <? blocks_per_arena d;
  Some (u32 (a + arena_sz + idx * block_size d)).

(** The first descriptor whose blocks hold [size] bytes. *)
Fixpoint find_desc (ds : list desc) (size : Z) : option nat :=
  match ds with
  | [] => None
  | d :: ds => if size <=? block_size d then Some O else S <$> find_desc ds size
  end.

Definition set_free_list (h : heap) (i : nat) (d : desc) (l : list Z) : heap :=
  h <| descs := <[i := d <| free_list := l |>]> (descs h) |>.

Definition set_arena (h : heap) (a : Z) (ar : arena) : heap :=
  h <| arenas := <[a := ar]> (arenas h) |>.

(** The loop that adds the blocks of the arena [a], from number [idx] on, to
    the free list of the descriptor [i]. *)
Fixpoint add_blocks (n : nat) (h : heap) (a : Z) (i : nat) (idx : Z) : option heap :=
  match n with
  | O => Some h
  | S n =>
      b ← arena_to_block h a idx;
      d ← descs h !! i;
      add_blocks n (set_free_list h i d (free_list d ++ [b])) a i (idx + 1)
  end.

(** The end of [malloc]: take the first block of the free list. *)
Definition pop_block (h : heap) (i : nat) : option (heap * Z) :=
  d ← descs h !! i;
  match free_list d with
  | [] => None
  | b :: l =>
      let h := set_free_list h i d l in
      a ← block_to_arena h b;
      ar ← arenas h !! a;
      Some (set_arena h a (ar <| free_cnt := u32 (free_cnt ar - 1) |>), b)
  end.

Definition malloc (h : heap) (size : Z) : option (heap * Z) :=
  if size =? 0 then Some (h, NULL)
  else
    match find_desc (descs h) size with
    | None =>
        let page_cnt := DIV_ROUND_UP (u32 (size + arena_sz)) PGSIZE in
        '(s, a) ← palloc_get_multiple (pages h) 0 page_cnt;
        let h := h <| pages := s |> in
        if a =? NULL then Some (h, NULL)
        else Some (set_arena h a (mk_arena None page_cnt), u32 (a + arena_sz))
    | Some i =>
        d ← descs h !! i;
        match free_list d with
        | [] =>
            '(s, a) ← palloc_get_page (pages h) 0;
            let h := h <| pages := s |> in
            if a =? NULL then Some (h, NULL)
            else
              let h := set_arena h a (mk_arena (Some i) (blocks_per_arena d)) in
              h ← add_blocks (Z.to_nat (blocks_per_arena d)) h a i 0;
              pop_block h i
        | _ => pop_block h i
        end
    end.

Definition set_mem (h : heap) (m : Z → Z) : heap :=
  h <| pages := (pages h) <| mem := m |> |>.

Definition calloc (h : heap) (a b : Z) : option (heap * Z) :=
  let size := u32 (a * b) in
  if (size <? a) || (size <? b) then Some (h, NULL)
  else
    '(h, p) ← malloc h size;
    if negb (p =? NULL) then Some (set_mem h (fill (mem (pages h)) p 0 size), p)
    else Some (h, p).

(** [block_size (block)]. *)
Definition block_size_of (h : heap) (block : Z) : option Z :=
  a ← block_to_arena h block;
  ar ← arenas h !! a;
  match arena_desc ar with
  | Some i => d ← descs h !! i; Some (block_size d)
  | None => Some (u32 (PGSIZE * free_cnt ar - pg_ofs block))
  end.

(** [list_remove] on a free list; it needs an element of the list. *)
Fixpoint unlink (b : Z) (l : list Z) : option (list Z) :=
  match l with
  | [] => None
  | x :: l => if x =? b then Some l else (x ::.) <$> unlink b l
  end.

(** The loop of [free] that takes the blocks of the arena [a], from number
    [idx] on, off the free list of the descriptor [i]. *)
Fixpoint remove_blocks (n : nat) (h : heap) (a : Z) (i : nat) (idx : Z) : option heap :=
  match n with
  | O => Some h
  | S n =>
      b ← arena_to_block h a idx;
      d ← descs h !! i;
      l ← unlink b (free_list d);
      remove_blocks n (set_free_list h i d l) a i (idx + 1)
  end.

Definition free (h : heap) (p : Z) : option heap :=
  if negb (p =? NULL) then
    a ← block_to_arena h p;
    ar ← arenas h !! a;
    match arena_desc ar with
    | Some i =>
        d ← descs h !! i;
        let h := set_mem h (fill (mem (pages h)) p 204 (block_size d)) in
        let h := set_free_list h i d (p :: free_list d) in
        let ar := ar <| free_cnt := u32 (free_cnt ar + 1) |> in
        let h := set_arena h a ar in
        if blocks_per_arena d <=? free_cnt ar then
          assert! free_cnt ar =? blocks_per_arena d;
          h ← remove_blocks (Z.to_nat (blocks_per_arena d)) h a i 0;
          s ← palloc_free_page (pages h) a;
          Some (h <| arenas := delete a (arenas h) |> <| pages := s |>)
        else Some h
    | None =>
        s ← palloc_free_multiple (pages h) a (free_cnt ar);
        Some (h <| arenas := delete a (arenas h) |> <| pages := s |>)
    end
  else Some h.

(** [memcpy (dst, src, n)] of [lib/string.c], for ranges that do not
    overlap. *)
Definition memcpy_block (m : Z → Z) (dst src n : Z) : Z → Z :=
  λ a, if in_range dst n a then m (src + (a - dst)) else m a.

Definition realloc (h : heap) (old_block new_size : Z) : option (heap * Z) :=
  if new_size =? 0 then
    h ← free h old_block;
    Some (h, NULL)
  else
    '(h, new_block) ← malloc h new_size;
    if negb (old_block =? NULL) && negb (new_block =? NULL) then
      old_size ← block_size_of h old_block;
      let min_size := if new_size <? old_size then new_size else old_size in
      let h := set_mem h (memcpy_block (mem (pages h)) new_block old_block min_size) in
      h ← free h old_block;
      Some (h, new_block)
    else Some (h, new_block).

(** ** Specification *)

(** The block sizes of the descriptors and how many blocks an arena has. *)
Definition sizes : list (Z * Z) :=
  [(16, 255); (32, 127); (64, 63); (128, 31); (256, 15); (512, 7); (1024, 3)].

Definition shape (d : desc) : Z * Z := (block_size d, blocks_per_arena d).

(** The blocks of the arena [a], [n] of them from number [idx] on. *)
Definition slots_from (a bs idx n : Z) : list Z := (λ k, a + 12 + k * bs) <$> seqZ idx n.
Definition slots (a : Z) (d : desc) : list Z :=
  slots_from a (block_size d) 0 (blocks_per_arena d).

(** [b] is in the page [a]. *)
Definition in_page (a b : Z) : Prop := b - b mod 4096 = a.
#[export] Instance in_page_dec a b : Decision (in_page a b).
Proof. unfold in_page. apply _. Defined.

(** The pages that the arenas occupy, as the page allocator's blocks. *)
Definition arena_pages (ar : arena) : Z :=
  match arena_desc ar with Some _ => 1 | None => free_cnt ar end.
Definition arena_blocks (m : gmap Z arena) : list (Z * Z) :=
  (λ x, (x.1, arena_pages x.2)) <$> map_to_list m.

(** The arena [a] belongs to the descriptor number [i]. *)
Definition small (h : heap) (a : Z) (ar : arena) (i : nat) (d : desc) : Prop :=
  arenas h !! a = Some ar ∧ arena_desc ar = Some i ∧ descs h !! i = Some d.

(** [q] is a block of an arena of the descriptor [i]; it is on the free list;
    it is a big block. *)
Definition slot (h : heap) (i : nat) (q n : Z) : Prop :=
  ∃ a ar d, small h a ar i d ∧ q ∈ slots a d ∧ n = block_size d.
Definition is_free (h : heap) (i : nat) (q : Z) : Prop :=
  ∃ d, descs h !! i = Some d ∧ q ∈ free_list d.
Definition big (h : heap) (q n : Z) : Prop :=
  ∃ a cnt, arenas h !! a = Some (mk_arena None cnt) ∧ q = a + 12 ∧ n = 4096 * cnt - 12.

(** A block of [n] bytes at [p] is in use. *)
Definition live (h : heap) (p n : Z) : Prop :=
  (∃ i, slot h i p n ∧ ¬ is_free h i p) ∨ big h p n.

(** The invariant; [F] are the page blocks of the other users of the page
    allocator. *)
Record heap_wf (F : list (Z * Z)) (h : heap) : Prop := {
  wf_descs : shape <$> descs h = sizes;
  wf_pages : Live (pages h) (F ++ arena_blocks (arenas h));
  wf_cnt : ∀ a ar i, arenas h !! a = Some ar → arena_desc ar = Some i →
    ∃ d, descs h !! i = Some d ∧
         free_cnt ar = Z.of_nat (length (filter (in_page a) (free_list d)));
  wf_free : ∀ i d b, descs h !! i = Some d → b ∈ free_list d →
    ∃ a ar, small h a ar i d ∧ b ∈ slots a d;
  wf_nodup : ∀ i d, descs h !! i = Some d → NoDup (free_list d);
}.

(** Every arena has a block in use. *)
Definition busy (h : heap) : Prop := ∀ a ar i d,
  small h a ar i d → free_cnt ar < blocks_per_arena d.

Definition heap_ok (F : list (Z * Z)) (h : heap) : Prop := heap_wf F h ∧ busy h.

(** ** Pages and blocks *)

Lemma Live_perm s l k : l ≡ₚ k → Live s l → Live s k.
Proof.
  intros P [W B E]. split; [done|by rewrite <-P|].
  intros a. rewrite <-E. unfold blocks_at. by rewrite P.
Qed.

Lemma Live_mem s m l : Live s l → Live (s <| mem := m |>) l.
Proof. intros [W B E]. split; [by apply palloc_wf_mem|done|done]. Qed.

(** What a live block of pages is. *)
Lemma Live_block s l b : Live s l → b ∈ l →
  0 < b.1 ∧ b.1 mod 4096 = 0 ∧ 0 < b.2 ∧ b.1 + 4096 * b.2 < 2 ^ 32 ∧
  ∀ x, in_block b.1 b.2 x = true → used s x = true.
Proof.
  intros [W B E] Hb. rewrite Forall_forall in B. destruct (B b Hb) as (u & Hc & Ha & Hl & Hr).
  pose proof (palloc_pool s u W) as [_ P1 _ P2]. change PGSIZE with 4096 in *.
  split_and!; [lia|done|done|lia|]. intros x Hx. specialize (E x).
  destruct (used s x); [done|]. exfalso. apply length_zero_iff_nil in E.
  assert (b ∈ blocks_at l x) as M by (by apply list_elem_of_filter).
  rewrite E in M. by apply elem_of_nil in M.
Qed.

(** Two of the live blocks have no address in common. *)
Lemma Live_apart s b c l x : Live s (b :: c :: l) →
  in_block b.1 b.2 x = true → in_block c.1 c.2 x = true → False.
Proof.
  intros [_ _ E] Hb Hc. specialize (E x). unfold blocks_at in E.
  rewrite !filter_cons, !decide_True in E by done. simpl in E. destruct (used s x); lia.
Qed.

Lemma arena_blocks_insert m a ar : m !! a = None →
  arena_blocks (<[a := ar]> m) ≡ₚ (a, arena_pages ar) :: arena_blocks m.
Proof. intros Hm. unfold arena_blocks. by rewrite map_to_list_insert. Qed.

Lemma arena_blocks_delete m a ar : m !! a = Some ar →
  arena_blocks m ≡ₚ (a, arena_pages ar) :: arena_blocks (delete a m).
Proof. intros Hm. unfold arena_blocks. by rewrite <-(map_to_list_delete m a ar). Qed.

Lemma arena_blocks_upd m a ar ar' : m !! a = Some ar → arena_pages ar' = arena_pages ar →
  arena_blocks (<[a := ar']> m) ≡ₚ arena_blocks m.
Proof.
  intros Hm E. rewrite (arena_blocks_delete m a ar), <-insert_delete_eq by done.
  by rewrite arena_blocks_insert, E by apply lookup_delete_eq.
Qed.

Lemma arena_in_blocks F m a ar : m !! a = Some ar → (a, arena_pages ar) ∈ F ++ arena_blocks m.
Proof. intros Hm. rewrite (arena_blocks_delete m a ar) by done. set_solver. Qed.

Lemma arena_facts F h a ar : heap_wf F h → arenas h !! a = Some ar →
  0 < a ∧ a mod 4096 = 0 ∧ 0 < arena_pages ar ∧ a + 4096 * arena_pages ar < 2 ^ 32 ∧
  ∀ x, in_block a (arena_pages ar) x = true → used (pages h) x = true.
Proof.
  intros W Ha. apply (Live_block _ _ (a, arena_pages ar) (wf_pages F h W)).
  by apply arena_in_blocks.
Qed.

(** A page that is not in use is not an arena. *)
Lemma arena_fresh F h a : heap_wf F h → used (pages h) a = false → arenas h !! a = None.
Proof.
  intros W U. destruct (arenas h !! a) as [ar|] eqn:Ha; [|done].
  destruct (arena_facts F h a ar W Ha) as (? & ? & ? & ? & Hu). rewrite Hu in U; [done|].
  apply in_range_spec. change PGSIZE with 4096. lia.
Qed.

Lemma arenas_apart F h a ar a' ar' x : heap_wf F h →
  arenas h !! a = Some ar → arenas h !! a' = Some ar' →
  a ≤ x < a + 4096 * arena_pages ar → a' ≤ x < a' + 4096 * arena_pages ar' → a = a'.
Proof.
  intros W Ha Ha' Hx Hx'. destruct (decide (a = a')) as [|Hne]; [done|exfalso].
  pose proof (wf_pages F h W) as L. eapply (Live_apart _ (a, arena_pages ar) (a', arena_pages ar') _ x).
  - eapply Live_perm, L. rewrite (arena_blocks_delete _ a ar) by done.
    rewrite (arena_blocks_delete (delete a _) a' ar') by (by rewrite lookup_delete_ne).
    rewrite Permutation_app_comm. simpl. reflexivity.
  - apply in_range_spec. change PGSIZE with 4096. simpl; lia.
  - apply in_range_spec. change PGSIZE with 4096. simpl; lia.
Qed.

(** ** Descriptors and slots *)

Lemma shape_ok F h i d : heap_wf F h → descs h !! i = Some d → shape d ∈ sizes.
Proof.
  intros W Hd. rewrite <-(wf_descs F h W). apply list_elem_of_fmap. exists d.
  split; [done|]. by eapply list_elem_of_lookup_2.
Qed.

Lemma shape_facts d : shape d ∈ sizes →
  16 ≤ block_size d ∧ 0 < blocks_per_arena d ∧ block_size d mod 4 = 0 ∧
  block_size d * blocks_per_arena d ≤ 4084.
Proof.
  unfold shape, sizes. intros H.
  repeat (apply elem_of_cons in H as [[= -> ->]|H]; [by vm_compute|]). by apply elem_of_nil in H.
Qed.

Lemma elem_of_slots a d b :
  b ∈ slots a d ↔ ∃ k, 0 ≤ k < blocks_per_arena d ∧ b = a + 12 + k * block_size d.
Proof.
  unfold slots, slots_from. rewrite list_elem_of_fmap. setoid_rewrite elem_of_seqZ.
  split; intros (k & ? & ?); exists k; split; (done || lia).
Qed.

Lemma slots_from_cons a bs idx n : slots_from a bs idx (Z.of_nat (S n)) =
  (a + 12 + idx * bs) :: slots_from a bs (idx + 1) (Z.of_nat n).
Proof.
  unfold slots_from. rewrite (seqZ_cons idx) by lia.
  by replace (Z.pred (Z.of_nat (S n))) with (Z.of_nat n) by lia.
Qed.

Lemma NoDup_slots_from a bs idx n : 0 < bs → NoDup (slots_from a bs idx n).
Proof. intros Hb. apply NoDup_fmap_2; [intros ???; nia|apply NoDup_seqZ]. Qed.

(** A slot lies in its arena's page, after the header. *)
Lemma slot_bounds a d b : shape d ∈ sizes → b ∈ slots a d →
  a + 12 ≤ b ∧ b + block_size d ≤ a + 4096.
Proof. intros S Hb. apply shape_facts in S. apply elem_of_slots in Hb as (k & ? & ->). nia. Qed.

Lemma in_page_bounds a b : a mod 4096 = 0 → a ≤ b < a + 4096 → in_page a b.
Proof. unfold in_page. intros. Z.to_euclidean_division_equations; lia. Qed.

Lemma slot_in_page a d b : shape d ∈ sizes → a mod 4096 = 0 → b ∈ slots a d → in_page a b.
Proof.
  intros S Ha Hb. pose proof (slot_bounds a d b S Hb). apply shape_facts in S.
  apply in_page_bounds; [done|lia].
Qed.

Lemma block_to_arena_slot h a ar i d b : small h a ar i d → shape d ∈ sizes →
  0 < a → a mod 4096 = 0 → a + 4096 < 2 ^ 32 → b ∈ slots a d → block_to_arena h b = Some a.
Proof.
  intros (Ha & Hi & Hd) S H0 Hal Hb Hs. pose proof (slot_bounds a d b S Hs) as Bd.
  pose proof (slot_in_page a d b S Hal Hs) as P. unfold in_page in P.
  apply shape_facts in S. unfold block_to_arena.
  rewrite pg_round_down_eq, P by (unfold is_u32; lia).
  rewrite (ASSERT_true (negb (a =? NULL))) by (apply negb_true_iff, Z.eqb_neq; unfold NULL; lia).
  cbn [mbind option_bind]. rewrite Ha. cbn [mbind option_bind]. rewrite Hi, Hd.
  cbn [mbind option_bind]. rewrite pg_ofs_eq. unfold arena_sz.
  apply elem_of_slots in Hs as (k & Hk & Ek).
  replace (b mod 4096 - 12) with (k * block_size d) by lia.
  rewrite u32_small by (unfold is_u32; nia). by rewrite Z.mod_mul by lia.
Qed.

Lemma arena_to_block_slot h a ar i d k : small h a ar i d → shape d ∈ sizes →
  0 < a → a + 4096 < 2 ^ 32 → 0 ≤ k < blocks_per_arena d →
  arena_to_block h a k = Some (a + 12 + k * block_size d).
Proof.
  intros (Ha & Hi & Hd) S H0 Hb Hk. unfold arena_to_block. apply shape_facts in S.
  rewrite (ASSERT_true (negb (a =? NULL))) by (apply negb_true_iff, Z.eqb_neq; unfold NULL; lia).
  cbn [mbind option_bind]. rewrite Ha. cbn [mbind option_bind]. rewrite Hi. cbn [mbind option_bind].
  rewrite Hd. cbn [mbind option_bind]. rewrite (ASSERT_true (k <? _)) by (apply Z.ltb_lt; lia).
  cbn [mbind option_bind]. unfold arena_sz. rewrite u32_small by (unfold is_u32; nia). done.
Qed.

(** ** Updates of a free list *)

Lemma set_free_list_twice h i d l k :
  set_free_list (set_free_list h i d l) i (d <| free_list := l |>) k = set_free_list h i d k.
Proof. unfold set_free_list. simpl. by rewrite list_insert_insert_eq. Qed.

Lemma set_free_list_id h i d : descs h !! i = Some d → set_free_list h i d (free_list d) = h.
Proof.
  intros Hd. unfold set_free_list. destruct h as [ds m s], d as [bs n l]; simpl in *.
  unfold upd; simpl. f_equal. by apply list_insert_id.
Qed.

Lemma descs_set h i d l j : descs h !! i = Some d →
  descs (set_free_list h i d l) !! j =
    if decide (j = i) then Some (d <| free_list := l |>) else descs h !! j.
Proof.
  intros Hd. unfold set_free_list; simpl. case_decide as E; [subst|by rewrite list_lookup_insert_ne].
  apply list_lookup_insert_eq. by eapply lookup_lt_Some.
Qed.

Lemma small_set h i d l a ar j d' : descs h !! i = Some d →
  small (set_free_list h i d l) a ar j d' ↔
  ∃ d0, small h a ar j d0 ∧ d' = if decide (j = i) then d <| free_list := l |> else d0.
Proof.
  intros Hd. unfold small. rewrite descs_set by done. simpl. case_decide as E; [subst j|]; split.
  - intros (?&?&[= <-]). by exists d.
  - intros (d0 & (?&?&?) & ->). done.
  - intros (?&?&?). by exists d'.
  - intros (d0 & (?&?&?) & ->). done.
Qed.

Lemma shapes_set h i d l : descs h !! i = Some d →
  shape <$> descs (set_free_list h i d l) = shape <$> descs h.
Proof.
  intros Hd. unfold set_free_list; simpl. rewrite list_fmap_insert.
  apply list_insert_id. by rewrite list_lookup_fmap, Hd.
Qed.

Lemma add_blocks_ok n h a ar i d idx : small h a ar i d → shape d ∈ sizes →
  0 < a → a + 4096 < 2 ^ 32 → 0 ≤ idx → idx + Z.of_nat n ≤ blocks_per_arena d →
  add_blocks n h a i idx =
    Some (set_free_list h i d (free_list d ++ slots_from a (block_size d) idx (Z.of_nat n))).
Proof.
  revert h d idx. induction n as [|n IH]; intros h d idx Sm S Ha Hb Hi Hn; simpl add_blocks.
  - unfold slots_from. simpl. rewrite app_nil_r. by rewrite set_free_list_id by apply Sm.
  - rewrite (arena_to_block_slot h a ar i d idx) by (done || lia). cbn [mbind option_bind].
    pose proof Sm as (_ & _ & Hd). rewrite Hd. cbn [mbind option_bind].
    rewrite (IH _ (d <| free_list := free_list d ++ [a + 12 + idx * block_size d] |>));
      [|apply small_set; [done|]; exists d; by rewrite decide_True|done|lia..|simpl; lia].
    rewrite set_free_list_twice, slots_from_cons. simpl. do 2 f_equal.
    by rewrite <-(assoc_L (++)).
Qed.

Lemma unlink_ok b l : NoDup l → b ∈ l → unlink b l = Some (filter (λ x, x ≠ b) l).
Proof.
  induction l as [|x l IH]; intros N Hb; [by apply elem_of_nil in Hb|].
  apply NoDup_cons in N as [Hx N]. simpl. rewrite filter_cons. destruct (Z.eqb_spec x b) as [->|Hne].
  - rewrite decide_False by naive_solver. f_equal. symmetry. apply filter_all_true. by intros y Hy ->.
  - rewrite decide_True by done. apply elem_of_cons in Hb as [->|Hb]; [done|]. by rewrite IH.
Qed.

Lemma remove_blocks_ok n h a ar i d idx : small h a ar i d → shape d ∈ sizes →
  0 < a → a + 4096 < 2 ^ 32 → 0 ≤ idx → idx + Z.of_nat n ≤ blocks_per_arena d →
  NoDup (free_list d) →
  (∀ b, b ∈ slots_from a (block_size d) idx (Z.of_nat n) → b ∈ free_list d) →
  remove_blocks n h a i idx = Some (set_free_list h i d
    (filter (λ b, b ∉ slots_from a (block_size d) idx (Z.of_nat n)) (free_list d))).
Proof.
  revert h d idx. induction n as [|n IH]; intros h d idx Sm Sh Ha Hb Hi Hn N In; simpl remove_blocks.
  - rewrite filter_all_true by set_solver. by rewrite set_free_list_id by apply Sm.
  - rewrite (arena_to_block_slot h a ar i d idx) by (done || lia). cbn [mbind option_bind].
    pose proof Sm as (_ & _ & Hd). rewrite Hd. cbn [mbind option_bind].
    pose proof (NoDup_slots_from a (block_size d) idx (Z.of_nat (S n))) as Ns.
    rewrite slots_from_cons in *. pose proof (shape_facts d Sh). apply NoDup_cons in Ns as [Ns _]; [|lia].
    rewrite unlink_ok by (done || apply In; left). cbn [mbind option_bind].
    set (l := filter _ (free_list d)).
    rewrite (IH _ (d <| free_list := l |>));
      [|apply small_set; [done|]; exists d; by rewrite decide_True|done|lia..|simpl; lia| |]; simpl.
    + rewrite set_free_list_twice. do 2 f_equal. unfold l. rewrite list_filter_filter.
      apply list_filter_iff. intros x. rewrite not_elem_of_cons. tauto.
    + by apply NoDup_filter.
    + intros b Hb'. apply list_elem_of_filter. split; [by intros ->|]. apply In. by right.
Qed.

(** ** Changing one free list and the count of one arena *)

(** The state in which the descriptor [i] has the free list [l] and the arena
    [a] the count [c]. *)
Definition recount (h : heap) (a : Z) (ar : arena) (i : nat) (d : desc) (l : list Z) (c : Z) : heap :=
  set_arena (set_free_list h i d l) a (ar <| free_cnt := c |>).

Lemma small_recount h a ar i d l c a' ar' j d' : small h a ar i d →
  small (recount h a ar i d l c) a' ar' j d' ↔
  ∃ ar0 d0, small h a' ar0 j d0 ∧
    ar' = (if decide (a' = a) then ar <| free_cnt := c |> else ar0) ∧
    d' = (if decide (j = i) then d <| free_list := l |> else d0).
Proof.
  intros (Ha & Hi & Hd). unfold small, recount. cbn [descs set_arena upd].
  change (descs (set_arena ?h _ _)) with (descs h). rewrite descs_set by done. simpl.
  split.
  - intros (E1 & E2 & E3). apply lookup_insert_Some in E1 as [[-> <-]|[Hne E1]].
    + exists ar. simpl in E2. assert (j = i) as -> by congruence. exists d.
      rewrite !decide_True in * by done. by simplify_eq.
    + exists ar'. rewrite decide_False by done. case_decide as E; [|by exists d'].
      subst j. exists d. by simplify_eq.
  - intros (ar0 & d0 & (E1 & E2 & E3) & -> & ->). case_decide as E.
    + subst a'. simplify_eq. rewrite lookup_insert_eq. rewrite !decide_True by done. done.
    + rewrite lookup_insert_ne by done. split_and!; [done..|]. by case_decide.
Qed.

Lemma small_recount_of h a ar i d l c a' ar0 j d0 : small h a ar i d → small h a' ar0 j d0 →
  small (recount h a ar i d l c) a' (if decide (a' = a) then ar <| free_cnt := c |> else ar0)
    j (if decide (j = i) then d <| free_list := l |> else d0).
Proof. intros Sm S0. apply small_recount; [done|]. by exists ar0, d0. Qed.

Lemma slot_recount h a ar i d l c j q n : small h a ar i d →
  slot (recount h a ar i d l c) j q n ↔ slot h j q n.
Proof.
  intros Sm. unfold slot. setoid_rewrite small_recount; [|done]. split.
  - intros (a' & _ & _ & (ar0 & d0 & S0 & -> & ->) & Hq & ->). exists a', ar0, d0.
    case_decide as E; [|done]. subst j. destruct Sm as (_ & _ & Hd), S0 as (? & ? & Hd').
    by simplify_eq.
  - intros (a' & ar' & d' & S0 & Hq & ->). eexists a', _, _. split; [by exists ar', d'|].
    case_decide as E; [|done]. subst j. destruct Sm as (_ & _ & Hd), S0 as (? & ? & Hd').
    by simplify_eq.
Qed.

Lemma is_free_recount h a ar i d l c j q : small h a ar i d →
  is_free (recount h a ar i d l c) j q ↔ if decide (j = i) then q ∈ l else is_free h j q.
Proof.
  intros (_ & _ & Hd). unfold is_free, recount.
  change (descs (set_arena ?h _ _)) with (descs h). rewrite descs_set by done.
  case_decide as E; [|done]. split; [by intros (? & [= <-] & ?)|by eexists].
Qed.

Lemma big_recount h a ar i d l c q n : small h a ar i d →
  big (recount h a ar i d l c) q n ↔ big h q n.
Proof.
  intros (Ha & Hi & _). unfold big, recount; simpl. split.
  - intros (a' & cnt & E & ? & ?). apply lookup_insert_Some in E as [[-> E]|[_ E]]; [|by exists a', cnt].
    destruct ar; simpl in *. by simplify_eq.
  - intros (a' & cnt & E & ? & ?). exists a', cnt.
    rewrite lookup_insert_ne; [done|]. intros ->. by simplify_eq.
Qed.

(** What the changed state's arenas and free blocks come from. *)
Lemma recount_arena F h a ar i d l c a' ar' j : heap_wf F h → small h a ar i d →
  arenas (recount h a ar i d l c) !! a' = Some ar' → arena_desc ar' = Some j →
  ∃ ar0 d0, small h a' ar0 j d0 ∧
    ar' = (if decide (a' = a) then ar <| free_cnt := c |> else ar0) ∧
    descs (recount h a ar i d l c) !! j =
      Some (if decide (j = i) then d <| free_list := l |> else d0).
Proof.
  intros W Sm E1 E2. assert (∃ ar0 d0, small h a' ar0 j d0) as (ar0 & d0 & S0).
  { unfold recount in E1; simpl in E1. apply lookup_insert_Some in E1 as [[-> <-]|[_ E1]].
    - simpl in E2. destruct Sm as (? & ? & ?). assert (j = i) as -> by congruence. by exists ar, d.
    - destruct (wf_cnt F h W a' ar' j E1 E2) as (d0 & ? & _). by exists ar', d0. }
  destruct (small_recount_of h a ar i d l c a' ar0 j d0 Sm S0) as (E1' & _ & E3).
  exists ar0, d0. by simplify_eq.
Qed.

Lemma recount_free F h a ar i d l c j d' b : heap_wf F h → small h a ar i d →
  (∀ b, b ∈ l → b ∈ free_list d ∨ b ∈ slots a d) →
  descs (recount h a ar i d l c) !! j = Some d' → b ∈ free_list d' →
  ∃ a0 ar0, small (recount h a ar i d l c) a0 ar0 j d' ∧ b ∈ slots a0 d'.
Proof.
  intros W Sm Hl Hd' Hb. assert (slot h j b (block_size d')) as Hs.
  { unfold recount in Hd'. change (descs (set_arena ?h _ _)) with (descs h) in Hd'.
    pose proof Sm as (Ha & Hi & Hd). rewrite descs_set in Hd' by done.
    case_decide as E; [subst j; injection Hd' as <-; destruct (Hl b Hb) as [Hf|Hs]; [|by exists a, ar, d]|].
    - destruct (wf_free F h W i d b Hd Hf) as (a0 & ar0 & ? & ?). by exists a0, ar0, d.
    - destruct (wf_free F h W j d' b Hd' Hb) as (a0 & ar0 & ? & ?). by exists a0, ar0, d'. }
  apply (slot_recount h a ar i d l c) in Hs as (a0 & ar0 & d0 & S0 & Hs & _); [|done].
  exists a0, ar0. pose proof S0 as (_ & _ & Hd0). by simplify_eq.
Qed.

(** The changes that keep the invariant. *)
Lemma recount_wf F h a ar i d l : heap_wf F h → small h a ar i d → NoDup l →
  (∀ b, b ∈ l → b ∈ free_list d ∨ b ∈ slots a d) →
  (∀ a', a' ≠ a → length (filter (in_page a') l) = length (filter (in_page a') (free_list d))) →
  heap_wf F (recount h a ar i d l (Z.of_nat (length (filter (in_page a) l)))).
Proof.
  intros W Sm N Hl Hc. set (c := Z.of_nat _). pose proof Sm as (Ha & Hi & Hd). split.
  - unfold recount. change (descs (set_arena ?h _ _)) with (descs h).
    rewrite shapes_set by done. apply W.
  - eapply Live_perm, (wf_pages F h W). unfold recount; simpl.
    rewrite (arena_blocks_upd _ a ar); [done..|]. unfold arena_pages; simpl. by rewrite Hi.
  - intros a' ar' j E1 E2.
    destruct (recount_arena F h a ar i d l c a' ar' j W Sm E1 E2) as (ar0 & d0 & S0 & -> & ->).
    eexists. split; [done|]. destruct (wf_cnt F h W a' ar0 j) as (d1 & Hd1 & Ec); [apply S0..|].
    destruct S0 as (S1 & S2 & S3).
    repeat case_decide; subst; simplify_eq; simpl in *; try (done || congruence). by rewrite Hc by done.
  - intros j d' b. by eapply recount_free.
  - intros j d' Hd'. unfold recount in Hd'. change (descs (set_arena ?h _ _)) with (descs h) in Hd'.
    rewrite descs_set in Hd' by done. case_decide; [|by eapply (wf_nodup F h W)]. by simplify_eq.
Qed.

(** ** Live blocks *)

(** A block's page determines its arena, and so the descriptor and the
    size. *)
Lemma slot_inj F h i q n j m : heap_wf F h → slot h i q n → slot h j q m → i = j ∧ n = m.
Proof.
  intros W (a & ar & d & S1 & H1 & ->) (a' & ar' & d' & S2 & H2 & ->).
  pose proof S1 as (A1 & I1 & D1). pose proof S2 as (A2 & I2 & D2).
  destruct (arena_facts F h a ar W A1) as (_ & M1 & _).
  destruct (arena_facts F h a' ar' W A2) as (_ & M2 & _).
  apply slot_in_page in H1; [|by eapply shape_ok|done].
  apply slot_in_page in H2; [|by eapply shape_ok|done].
  unfold in_page in *. assert (a = a') as -> by congruence. by simplify_eq.
Qed.

(** The bytes of a live block are in the pages of an arena; two live blocks of
    one arena do not overlap. *)
Lemma live_arena F h p n : heap_wf F h → live h p n →
  ∃ a ar, arenas h !! a = Some ar ∧ a + 12 ≤ p ∧ p + n ≤ a + 4096 * arena_pages ar ∧ 0 < n ∧
          p mod 4 = 0.
Proof.
  intros W [(i & (a & ar & d & (Ha & Hi & Hd) & Hs & ->) & _)|(a & cnt & Ha & -> & ->)].
  - exists a, ar. unfold arena_pages. rewrite Hi. pose proof (shape_ok F h i d W Hd) as S.
    destruct (arena_facts F h a ar W Ha) as (_ & M & _).
    pose proof (slot_bounds a d p S Hs). pose proof (shape_facts d S) as (? & ? & E & ?).
    split_and!; [done|lia..|]. apply elem_of_slots in Hs as (k & _ & ->).
    assert (∃ x, block_size d = 4 * x) as [x ->] by (exists (block_size d / 4); Z.to_euclidean_division_equations; lia).
    replace (k * (4 * x)) with (4 * (k * x)) by lia. Z.to_euclidean_division_equations; lia.
  - exists a, (mk_arena None cnt). destruct (arena_facts F h a _ W Ha) as (_ & M & C & _).
    unfold arena_pages in *; simpl in *. split_and!; [done|lia..|].
    Z.to_euclidean_division_equations; lia.
Qed.

(** A live block that starts in the pages of an arena is one of its slots, or
    the arena's big block. *)
Lemma live_in_arena F h a ar p n : heap_wf F h → arenas h !! a = Some ar → live h p n →
  a ≤ p < a + 4096 * arena_pages ar →
  (∃ i d, arena_desc ar = Some i ∧ descs h !! i = Some d ∧ p ∈ slots a d ∧ n = block_size d) ∨
  (arena_desc ar = None ∧ p = a + 12).
Proof.
  intros W Ha L Hp.
  destruct L as [(i & (a' & ar' & d & (Ha' & Hi & Hd) & Hs & ->) & _)|(a' & cnt & Ha' & -> & ->)].
  - pose proof (shape_ok F h i d W Hd) as S. pose proof (slot_bounds a' d p S Hs).
    pose proof (shape_facts d S).
    assert (a = a') as -> by (eapply (arenas_apart F h a ar a' ar' p); try done;
      unfold arena_pages; rewrite Hi; lia).
    simplify_eq. left. by exists i, d.
  - destruct (arena_facts F h a' _ W Ha') as (_ & _ & C & _).
    assert (a = a') as -> by (eapply (arenas_apart F h a ar a' _ (a' + 12)); try done;
      unfold arena_pages in *; simpl in *; lia).
    simplify_eq. by right.
Qed.

Lemma live_same_arena F h p n q m a ar : heap_wf F h → arenas h !! a = Some ar →
  live h p n → live h q m → p ≠ q →
  a ≤ p < a + 4096 * arena_pages ar → a ≤ q < a + 4096 * arena_pages ar →
  p + n ≤ q ∨ q + m ≤ p.
Proof.
  intros W Ha L1 L2 Hne H1 H2.
  destruct (live_in_arena F h a ar p n W Ha L1 H1) as [(i & d & I1 & D1 & S1 & ->)|[I1 ->]],
    (live_in_arena F h a ar q m W Ha L2 H2) as [(j & d' & I2 & D2 & S2 & ->)|[I2 ->]]; simplify_eq.
  pose proof (shape_facts d (shape_ok F h i d W D1)).
  apply elem_of_slots in S1 as (k & ? & ->), S2 as (k' & ? & ->).
  destruct (Z.lt_total k k') as [?|[->|?]]; [left; nia|done|right; nia].
Qed.

(** Live blocks are disjoint. *)
Lemma live_disjoint F h p n q m : heap_wf F h → live h p n → live h q m → p ≠ q →
  p + n ≤ q ∨ q + m ≤ p.
Proof.
  intros W L1 L2 Hne. destruct (live_arena F h p n W L1) as (a & ar & Ha & ? & ? & ? & _).
  destruct (live_arena F h q m W L2) as (a' & ar' & Ha' & ? & ? & ? & _).
  destruct (decide (a = a')) as [->|Hn].
  { simplify_eq. eapply (live_same_arena F h p n q m a' ar); try done; lia. }
  destruct (decide (p + n ≤ q)); [by left|]. destruct (decide (q + m ≤ p)); [by right|].
  exfalso. apply Hn. by apply (arenas_apart F h a ar a' ar' (p `max` q)); try done; lia.
Qed.

(** ** Counting an arena's free blocks *)

Lemma free_in_page F h a ar i d b : heap_wf F h → small h a ar i d →
  b ∈ filter (in_page a) (free_list d) → b ∈ slots a d.
Proof.
  intros W (Ha & Hi & Hd) Hb. apply list_elem_of_filter in Hb as [P Hb].
  destruct (wf_free F h W i d b Hd Hb) as (a' & ar' & (Ha' & _) & Hs).
  destruct (arena_facts F h a' ar' W Ha') as (_ & M & _).
  pose proof (slot_in_page a' d b (shape_ok F h i d W Hd) M Hs) as P'.
  unfold in_page in *. by assert (a' = a) as <- by congruence.
Qed.

Lemma slots_length a d : shape d ∈ sizes → Z.of_nat (length (slots a d)) = blocks_per_arena d.
Proof.
  intros S. apply shape_facts in S. unfold slots, slots_from. rewrite length_fmap, length_seqZ. lia.
Qed.

(** Blocks that are slots of one arena are at most as many as its slots, and
    if they are as many they are all of them. *)
Lemma count_slots a d l : shape d ∈ sizes → NoDup l → (∀ b, b ∈ l → b ∈ slots a d) →
  Z.of_nat (length l) ≤ blocks_per_arena d ∧
  (Z.of_nat (length l) = blocks_per_arena d → ∀ b, b ∈ slots a d → b ∈ l).
Proof.
  intros S N Hl. assert (l ⊆+ slots a d) as Hs by (by apply NoDup_submseteq).
  pose proof (slots_length a d S). split; [apply submseteq_length in Hs; lia|].
  intros E b. by rewrite (submseteq_length_Permutation l (slots a d)) by (done || lia).
Qed.

Lemma cnt_bound F h a ar i d : heap_wf F h → small h a ar i d →
  free_cnt ar = Z.of_nat (length (filter (in_page a) (free_list d))) ∧
  0 ≤ free_cnt ar ≤ blocks_per_arena d.
Proof.
  intros W Sm. pose proof Sm as (Ha & Hi & Hd).
  destruct (wf_cnt F h W a ar i Ha Hi) as (d' & Hd' & E). simplify_eq. split; [done|].
  destruct (count_slots a d (filter (in_page a) (free_list d))) as [B _].
  - by eapply shape_ok.
  - by apply NoDup_filter, (wf_nodup F h W i).
  - intros b. by eapply free_in_page.
  - lia.
Qed.

(** ** Taking a block *)

Lemma busy_recount h a ar i d l c : small h a ar i d → c < blocks_per_arena d →
  (∀ a' ar' j d', a' ≠ a → small h a' ar' j d' → free_cnt ar' < blocks_per_arena d') →
  busy (recount h a ar i d l c).
Proof.
  intros Sm Hc B a' ar' j d' S'. apply small_recount in S' as (ar0 & d0 & S0 & -> & ->); [|done].
  pose proof Sm as (_ & Hi & Hd). pose proof S0 as (A0 & I0 & D0).
  case_decide as E1; [subst a'|]; simpl.
  - destruct Sm as (A1 & _). simplify_eq. by rewrite decide_True.
  - specialize (B a' ar0 j d0 E1 S0). case_decide; [subst j|done]. by simplify_eq.
Qed.

(** The free list changes by the block [b] of the arena [a]. *)
Lemma live_recount_take F h a ar i d b l c : heap_wf F h → small h a ar i d →
  free_list d = b :: l → b ∈ slots a d →
  ∀ q n, live (recount h a ar i d l c) q n ↔ live h q n ∨ (q = b ∧ n = block_size d).
Proof.
  intros W Sm El Hb q n. unfold live. setoid_rewrite slot_recount; [|done].
  setoid_rewrite is_free_recount; [|done]. rewrite big_recount by done.
  pose proof Sm as (_ & _ & Hd). pose proof (wf_nodup F h W i d Hd) as N. rewrite El in N.
  apply NoDup_cons in N as [N _].
  assert (slot h i b (block_size d)) as Sb by (by exists a, ar, d).
  assert (is_free h i q ↔ q = b ∨ q ∈ l) as Fi.
  { rewrite <-elem_of_cons, <-El. split; [intros (d' & ? & ?); by simplify_eq|by exists d]. }
  split.
  - intros [(j & Sq & Nf)|Hbig]; [|by left; right]. case_decide as E; [subst j|by left; left; exists j].
    destruct (decide (q = b)) as [->|Hne].
    + right. split; [done|]. by destruct (slot_inj F h i b n i (block_size d) W Sq Sb).
    + left. left. exists i. split; [done|]. rewrite Fi. tauto.
  - intros [[(j & Sq & Nf)|Hbig]|[-> ->]]; [left; exists j|by right|left; exists i].
    + split; [done|]. case_decide; [subst j|done]. rewrite Fi in Nf. tauto.
    + split; [done|]. by rewrite decide_True.
Qed.

Lemma filter_page_ne a a' b (l : list Z) : in_page a b → a' ≠ a →
  filter (in_page a') (b :: l) = filter (in_page a') l.
Proof.
  intros P Hne. rewrite filter_cons, decide_False; [done|]. unfold in_page in *. congruence.
Qed.

Lemma pop_block_ok F h i d b l : heap_wf F h → descs h !! i = Some d → free_list d = b :: l →
  (∀ a ar j d', small h a ar j d' → ¬ in_page a b → free_cnt ar < blocks_per_arena d') →
  ∃ h', pop_block h i = Some (h', b) ∧ heap_ok F h' ∧ pages h' = pages h ∧
    slot h i b (block_size d) ∧
    ∀ q n, live h' q n ↔ live h q n ∨ (q = b ∧ n = block_size d).
Proof.
  intros W Hd El B. pose proof (shape_ok F h i d W Hd) as S.
  destruct (wf_free F h W i d b Hd) as (a & ar & Sm & Hs); [rewrite El; left|].
  pose proof Sm as (Ha & Hi & _). destruct (arena_facts F h a ar W Ha) as (H0 & M & _ & Hm & _).
  unfold arena_pages in Hm. rewrite Hi in Hm.
  pose proof (slot_in_page a d b S M Hs) as P.
  destruct (cnt_bound F h a ar i d W Sm) as [Ec Bc].
  rewrite El, filter_cons, decide_True in Ec by done. simpl in Ec. pose proof (shape_facts d S).
  set (l' := filter (in_page a) l) in *.
  assert (u32 (free_cnt ar - 1) = Z.of_nat (length l')) as Eu by (rewrite u32_small; unfold is_u32; nia).
  exists (recount h a ar i d l (Z.of_nat (length l'))). split; [|split; [split|split; [done|split]]].
  - unfold pop_block. rewrite Hd. cbn [mbind option_bind]. rewrite El.
    rewrite (block_to_arena_slot _ a ar i (d <| free_list := l |>)); [|..|done|done|done|lia|done].
    + cbn [mbind option_bind]. simpl arenas. rewrite Ha. cbn [mbind option_bind]. by rewrite Eu.
    + apply small_set; [done|]. exists d. by rewrite decide_True.
  - apply recount_wf; [done..| | |].
    + pose proof (wf_nodup F h W i d Hd) as N. rewrite El in N. by apply NoDup_cons in N as [_ ?].
    + intros x Hx. left. rewrite El. by right.
    + intros a' Hne. by rewrite El, (filter_page_ne a).
  - apply busy_recount; [done|lia|]. intros a' ar' j d' Hne S'. apply (B a' ar' j d' S').
    unfold in_page in *. congruence.
  - by exists a, ar, d.
  - by eapply live_recount_take.
Qed.

(** ** A new arena *)

Lemma slot_set h i d l j q n : descs h !! i = Some d →
  slot (set_free_list h i d l) j q n ↔ slot h j q n.
Proof.
  intros Hd. unfold slot. setoid_rewrite small_set; [|done]. split.
  - intros (a & ar & _ & (d0 & S0 & ->) & Hq & ->). exists a, ar, d0.
    case_decide; [subst j|done]. destruct S0 as (? & ? & ?). by simplify_eq.
  - intros (a & ar & d0 & S0 & Hq & ->). eexists a, ar, _. split; [by exists d0|].
    case_decide; [subst j|done]. destruct S0 as (? & ? & ?). by simplify_eq.
Qed.

Lemma is_free_set h i d l j q : descs h !! i = Some d →
  is_free (set_free_list h i d l) j q ↔ if decide (j = i) then q ∈ l else is_free h j q.
Proof.
  intros Hd. unfold is_free. rewrite descs_set by done.
  case_decide; [|done]. split; [by intros (? & [= <-] & ?)|by eexists].
Qed.

Lemma small_new h a ar a' ar' j d' : arenas h !! a = None →
  small (set_arena h a ar) a' ar' j d' ↔
  small h a' ar' j d' ∨ (a' = a ∧ ar' = ar ∧ arena_desc ar = Some j ∧ descs h !! j = Some d').
Proof.
  intros Hn. unfold small; simpl. rewrite lookup_insert_Some. split.
  - intros ([[-> ->]|[? ?]] & ? & ?); [by right|by left].
  - intros [(E & ? & ?)|(-> & -> & ? & ?)]; [|by auto].
    split_and!; [right|done..]. split; [by intros ->; rewrite Hn in E|done].
Qed.

Definition new_arena (h : heap) (s : palloc) (a : Z) (i : nat) (d : desc) : heap :=
  set_free_list (set_arena (h <| pages := s |>) a (mk_arena (Some i) (blocks_per_arena d)))
    i d (slots a d).

(** The page [a] is one that the heap did not have. *)
Section NewArena.
Context (F : list (Z * Z)) (h : heap) (s : palloc) (a : Z) (i : nat) (d : desc).
Context (W : heap_wf F h) (Hd : descs h !! i = Some d) (Hn : arenas h !! a = None)
  (L : Live s ((a, 1) :: F ++ arena_blocks (arenas h))) (El : free_list d = []).

Lemma new_aligned : a mod 4096 = 0.
Proof. by apply (Live_block _ _ (a, 1) L); left. Qed.

Lemma small_new_arena a' ar' j d' : small (new_arena h s a i d) a' ar' j d' ↔
  (∃ d0, small h a' ar' j d0 ∧ d' = if decide (j = i) then d <| free_list := slots a d |> else d0) ∨
  (a' = a ∧ ar' = mk_arena (Some i) (blocks_per_arena d) ∧ j = i ∧ d' = d <| free_list := slots a d |>).
Proof.
  unfold new_arena. rewrite small_set by done. setoid_rewrite small_new; [|done]. simpl. split.
  - intros (d0 & [S0|(-> & -> & [= ->] & ?)] & ->); [by left; exists d0|].
    right. by rewrite decide_True.
  - intros [(d0 & S0 & ->)|(-> & -> & -> & ->)]; [by exists d0; split; [left|]|].
    exists d. rewrite decide_True by done. by split; [right|].
Qed.

Lemma slot_new_arena j q n : slot (new_arena h s a i d) j q n ↔
  slot h j q n ∨ (j = i ∧ q ∈ slots a d ∧ n = block_size d).
Proof.
  unfold slot. setoid_rewrite small_new_arena. split.
  - intros (a' & ar' & d' & [(d0 & S0 & ->)|(-> & -> & -> & ->)] & Hq & ->); [left|by right].
    exists a', ar', d0. case_decide; [subst j|done]. destruct S0 as (? & ? & ?). by simplify_eq.
  - intros [(a' & ar' & d' & S0 & Hq & ->)|(-> & Hq & ->)].
    + eexists a', ar', _. split; [by left; exists d'|].
      case_decide; [subst j|done]. destruct S0 as (? & ? & ?). by simplify_eq.
    + eexists a, _, (d <| free_list := slots a d |>). split; [by right|done].
Qed.

Lemma slot_not_new j q n : slot h j q n → q ∉ slots a d.
Proof.
  intros (a' & ar' & d' & (Ha' & _ & Hd') & Hq & _) Hq'.
  destruct (arena_facts F h a' ar' W Ha') as (_ & M & _).
  apply slot_in_page in Hq; [|by eapply shape_ok|done].
  apply slot_in_page in Hq'; [|by eapply shape_ok|apply new_aligned].
  unfold in_page in *. assert (a' = a) as -> by congruence. by rewrite Hn in Ha'.
Qed.

Lemma live_new_arena q n : live (new_arena h s a i d) q n ↔ live h q n.
Proof.
  unfold live. setoid_rewrite slot_new_arena.
  assert (big (new_arena h s a i d) q n ↔ big h q n) as ->.
  { unfold big, new_arena; simpl. setoid_rewrite lookup_insert_Some. split.
    - intros (a' & c & [[? ?]|[? ?]] & ? & ?); [done|by exists a', c].
    - intros (a' & c & E & ? & ?). exists a', c. split; [|done]. right.
      split; [by intros ->; rewrite Hn in E|done]. }
  unfold new_arena. setoid_rewrite is_free_set; [|done].
  split; (intros [(j & Sq & Nf)|Hb]; [left; exists j|by right]).
  - case_decide; [subst j|by destruct Sq as [?|[? _]]].
    destruct Sq as [Sq|(_ & ? & _)]; [|done]. split; [done|]. intros (d' & ? & Hf).
    simplify_eq. rewrite El in Hf. by apply elem_of_nil in Hf.
  - split; [by left|]. case_decide; [by eapply slot_not_new|done].
Qed.

Lemma filter_slots a' d' : shape d' ∈ sizes → a' mod 4096 = 0 → ∀ a'',
  filter (in_page a'') (slots a' d') = if decide (a'' = a') then slots a' d' else [].
Proof.
  intros Sh M a''. assert (∀ x, x ∈ slots a' d' → in_page a' x) as P
    by (intros x; by apply slot_in_page).
  case_decide as E; [subst; by apply filter_all_true|].
  induction (slots a' d') as [|x l IH]; [done|].
  rewrite (filter_page_ne a'); [|apply P; left|done]. apply IH. intros y Hy. apply P. by right.
Qed.

Lemma new_arena_wf : heap_wf F (new_arena h s a i d).
Proof.
  pose proof (shape_ok F h i d W Hd) as Sh. pose proof new_aligned as M. split.
  - unfold new_arena. rewrite shapes_set by done. apply W.
  - eapply Live_perm, L. unfold new_arena; simpl. rewrite arena_blocks_insert by done.
    by rewrite Permutation_middle.
  - intros a' ar' j E1 E2. unfold new_arena in E1; simpl in E1.
    unfold new_arena. rewrite descs_set by done. simpl.
    apply lookup_insert_Some in E1 as [[<- <-]|[Hne E1]]; simpl in *.
    + injection E2 as <-. rewrite decide_True by done. eexists. split; [done|]. simpl.
      by rewrite filter_slots, decide_True, slots_length by done.
    + destruct (wf_cnt F h W a' ar' j E1 E2) as (d0 & Hd0 & ->).
      case_decide; [subst j; simplify_eq|by exists d0]. eexists. split; [done|]. simpl.
      by rewrite El, filter_slots, decide_False by done.
  - intros j d' b Hd' Hb. assert (is_free (new_arena h s a i d) j b) as Fr by (by exists d').
    assert (∃ n, slot (new_arena h s a i d) j b n) as (n & a' & ar' & d0 & S0 & Hs & _).
    { setoid_rewrite slot_new_arena. unfold new_arena in Fr. rewrite is_free_set in Fr by done.
      case_decide; [subst j; eexists; by right|]. destruct Fr as (d0 & Hd0 & Hf).
      destruct (wf_free F h W j d0 b Hd0 Hf) as (a' & ar' & ? & ?).
      eexists. left. by exists a', ar', d0. }
    exists a', ar'. pose proof S0 as (_ & _ & E). by simplify_eq.
  - intros j d' Hd'. unfold new_arena in Hd'. rewrite descs_set in Hd' by done.
    case_decide; [|by eapply (wf_nodup F h W)]. simplify_eq.
    apply shape_facts in Sh. apply NoDup_slots_from. lia.
Qed.
End NewArena.

(** ** [malloc] *)

Lemma find_desc_some ds size i : find_desc ds size = Some i →
  ∃ d, ds !! i = Some d ∧ size ≤ block_size d.
Proof.
  revert i. induction ds as [|d ds IH]; intros i E; simpl in E; [done|].
  destruct (Z.leb_spec size (block_size d)); [injection E as <-; by exists d|].
  apply fmap_Some in E as (j & E & ->). by apply IH.
Qed.

Lemma find_desc_none ds size : find_desc ds size = None → Forall (λ d, block_size d < size) ds.
Proof.
  induction ds as [|d ds IH]; intros E; simpl in E; [constructor|].
  destruct (Z.leb_spec size (block_size d)); [done|]. constructor; [done|].
  apply IH. by apply fmap_None in E.
Qed.

Lemma find_desc_big F h size : heap_wf F h → find_desc (descs h) size = None → 1024 < size.
Proof.
  intros W E. apply find_desc_none in E.
  assert (Forall (λ x, x.1 < size) sizes) as K by (rewrite <-(wf_descs F h W); by apply Forall_fmap).
  rewrite Forall_forall in K. apply (K (1024, 3)). unfold sizes. set_solver.
Qed.

Lemma slot_not_big F h i b n m : heap_wf F h → slot h i b n → ¬ big h b m.
Proof.
  intros W (a' & ar' & d & (Ha' & Hi & Hd) & Hs & _) (a & c & Ha & -> & _).
  destruct (arena_facts F h a _ W Ha) as (_ & M & _).
  destruct (arena_facts F h a' _ W Ha') as (_ & M' & _).
  apply slot_in_page in Hs; [|by eapply shape_ok|done].
  pose proof (in_page_bounds a (a + 12) M ltac:(lia)) as P. unfold in_page in *.
  assert (a' = a) as -> by congruence. by simplify_eq.
Qed.

Lemma free_not_live F h i b n m : heap_wf F h → slot h i b n → is_free h i b → ¬ live h b m.
Proof.
  intros W Sb Fb [(j & Sq & Nf)|Hb]; [|by eapply slot_not_big].
  by destruct (slot_inj F h i b n j m W Sb Sq) as [-> _].
Qed.

Definition new_big (h : heap) (s : palloc) (a cnt : Z) : heap :=
  set_arena (h <| pages := s |>) a (mk_arena None cnt).

Section NewBig.
Context (F : list (Z * Z)) (h : heap) (s : palloc) (a cnt : Z).
Context (W : heap_ok F h) (Hn : arenas h !! a = None)
  (L : Live s ((a, cnt) :: F ++ arena_blocks (arenas h))).

Lemma small_new_big a' ar' j d' : small (new_big h s a cnt) a' ar' j d' ↔ small h a' ar' j d'.
Proof.
  unfold new_big. rewrite small_new by done. split; [|by left].
  by intros [?|(_ & _ & ? & _)].
Qed.

Lemma live_new_big q n :
  live (new_big h s a cnt) q n ↔ live h q n ∨ (q = a + 12 ∧ n = 4096 * cnt - 12).
Proof.
  unfold live, slot. setoid_rewrite small_new_big. change (is_free (new_big h s a cnt)) with (is_free h).
  assert (big (new_big h s a cnt) q n ↔ big h q n ∨ (q = a + 12 ∧ n = 4096 * cnt - 12)) as ->; [|tauto].
  unfold big; simpl. setoid_rewrite lookup_insert_Some. split.
  - intros (a' & c & [[-> [= ->]]|[? ?]] & ? & ?); [by right|]. left. by exists a', c.
  - intros [(a' & c & E & ? & ?)|[-> ->]]; [|exists a, cnt; by auto].
    exists a', c. split; [|done]. right. split; [by intros ->; rewrite Hn in E|done].
Qed.

Lemma new_big_ok : heap_ok F (new_big h s a cnt).
Proof.
  destruct W as [W' B]. split; [split|].
  - apply W'.
  - eapply Live_perm, L. simpl. rewrite arena_blocks_insert by done. by rewrite Permutation_middle.
  - intros a' ar' j E1 E2. simpl in E1. apply lookup_insert_Some in E1 as [[<- <-]|[_ E1]]; [done|].
    by apply (wf_cnt F h W' a' ar' j).
  - intros j d' b Hd' Hb. destruct (wf_free F h W' j d' b Hd' Hb) as (a' & ar' & S' & ?).
    exists a', ar'. by rewrite small_new_big.
  - apply W'.
  - intros a' ar' j d' S'. apply small_new_big in S'. by apply (B a' ar' j d').
Qed.
End NewBig.

(** What a successful page request gives the heap. *)
Lemma heap_get F h cnt s a : heap_wf F h → 0 < cnt →
  palloc_get_multiple (pages h) 0 cnt = Some (s, a) →
  if a =? NULL then s = pages h ∧ ∀ pg, ¬ free_block (kernel_pool (pages h)) pg cnt
  else arenas h !! a = None ∧ mem s = mem (pages h) ∧
       Live s ((a, cnt) :: F ++ arena_blocks (arenas h)).
Proof.
  intros W Hc G. pose proof (wf_pages F h W) as L.
  pose proof (Live_get _ _ 0 cnt s a L ltac:(lia) G) as L'.
  pose proof (palloc_get_ok (pages h) 0 cnt (live_wf _ _ L) Hc) as Sp. rewrite G in Sp.
  destruct Sp as (_ & _ & Sp). destruct (a =? NULL); [done|]. destruct Sp as (Fb & U & Mm).
  split; [|done]. apply (arena_fresh F h); [done|].
  apply (free_block_unused _ false a cnt a (live_wf _ _ L) Fb).
  apply in_range_spec. change PGSIZE with 4096. lia.
Qed.

Lemma heap_get_some F h cnt : heap_wf F h → 0 < cnt →
  ∃ s a, palloc_get_multiple (pages h) 0 cnt = Some (s, a).
Proof.
  intros W Hc. pose proof (palloc_get_ok (pages h) 0 cnt (live_wf _ _ (wf_pages F h W)) Hc) as Sp.
  destruct (palloc_get_multiple (pages h) 0 cnt) as [[s a]|]; [by exists s, a|]. by destruct Sp.
Qed.

(** [h'] is [h] with the new block of [n] bytes at [p]. *)
Record allocated (F : list (Z * Z)) (h h' : heap) (p n : Z) : Prop := {
  alloc_ok : heap_ok F h';
  alloc_mem : mem (pages h') = mem (pages h);
  alloc_live : ∀ q m, live h' q m ↔ live h q m ∨ (q = p ∧ m = n);
  alloc_new : ∀ m, ¬ live h p m;
}.

(** The pages that a request needs when the free list has no block. *)
Definition pages_for (size : Z) : Z :=
  if size <=? 1024 then 1 else (size + 12 + 4095) / 4096.

Definition malloc_post (F : list (Z * Z)) (h : heap) (size : Z) (h' : heap) (p : Z) : Prop :=
  (p = NULL ∧ h' = h ∧ ∀ pg, ¬ free_block (kernel_pool (pages h)) pg (pages_for size)) ∨
  (∃ n, size ≤ n ∧ allocated F h h' p n).

Lemma heap_pages_id h : h <| pages := pages h |> = h.
Proof. by destruct h. Qed.

(** A request that is answered with [cnt] pages. *)
Lemma malloc_pages_ok F h size cnt : heap_ok F h → size ≠ 0 → find_desc (descs h) size = None →
  DIV_ROUND_UP (u32 (size + arena_sz)) PGSIZE = cnt → 0 < cnt →
  ∃ h' p, malloc h size = Some (h', p) ∧
    ((p = NULL ∧ h' = h ∧ ∀ pg, ¬ free_block (kernel_pool (pages h)) pg cnt) ∨
     allocated F h h' p (4096 * cnt - 12)).
Proof.
  intros W H0 Ef Ec Hc. unfold malloc. rewrite (proj2 (Z.eqb_neq size 0)), Ef, Ec by done.
  destruct (heap_get_some F h cnt (proj1 W) Hc) as (s & a & G). rewrite G.
  cbn [mbind option_bind]. pose proof (heap_get F h cnt s a (proj1 W) Hc G) as K.
  destruct (a =? NULL) eqn:E.
  - destruct K as [-> K]. eexists _, _. split; [done|]. left. by rewrite heap_pages_id.
  - destruct K as (Hn & Mm & L). destruct (Live_block _ _ (a, cnt) L) as (? & ? & ? & ? & _); [left|].
    simpl in *. unfold arena_sz. rewrite (u32_small (a + 12)) by (unfold is_u32; lia).
    eexists _, _. split; [done|]. right. split.
    + by apply new_big_ok.
    + done.
    + by apply (live_new_big F).
    + intros m Lm. destruct (live_arena F h _ m (proj1 W) Lm) as (a' & ar' & Ha' & ? & ? & ? & _).
      assert (a = a') as <-; [|by rewrite Hn in Ha'].
      eapply (arenas_apart F (new_big h s a cnt) a (mk_arena None cnt) a' ar' (a + 12)).
      * apply (new_big_ok F h s a cnt W Hn L).
      * apply lookup_insert_eq.
      * simpl. rewrite lookup_insert_ne; [done|]. intros <-. by rewrite Hn in Ha'.
      * unfold arena_pages; simpl. lia.
      * lia.
Qed.

Lemma malloc_big_ok F h size : heap_ok F h → 0 < size → size + 12 + 4095 < 2 ^ 32 →
  find_desc (descs h) size = None →
  ∃ h' p, malloc h size = Some (h', p) ∧ malloc_post F h size h' p.
Proof.
  intros W H0 Hs Ef. pose proof (find_desc_big F h size (proj1 W) Ef) as Hb.
  set (cnt := (size + 12 + 4095) / 4096).
  assert (0 < cnt ∧ size + 12 ≤ 4096 * cnt) as [Hc Hsz]
    by (unfold cnt; Z.to_euclidean_division_equations; lia).
  destruct (malloc_pages_ok F h size cnt) as (h' & p & E & K); [done|lia|done| |done|].
  - unfold DIV_ROUND_UP, arena_sz. change PGSIZE with 4096.
    replace (u32 (size + 12) + 4096 - 1) with (size + 12 + 4095)
      by (rewrite u32_small by (unfold is_u32; lia); lia).
    by rewrite u32_small by (unfold is_u32; lia).
  - exists h', p. split; [done|]. destruct K as [(-> & -> & K)|A].
    + left. unfold pages_for. by rewrite (proj2 (Z.leb_gt size 1024)).
    + right. exists (4096 * cnt - 12). split; [lia|done].
Qed.

(** Taking the first block of the free list, from any state in which no other
    arena is unused. *)
Lemma pop_allocated F h i d b l : heap_wf F h → descs h !! i = Some d → free_list d = b :: l →
  (∀ a ar j d', small h a ar j d' → ¬ in_page a b → free_cnt ar < blocks_per_arena d') →
  ∃ h', pop_block h i = Some (h', b) ∧ allocated F h h' b (block_size d).
Proof.
  intros W Hd El B. destruct (pop_block_ok F h i d b l W Hd El B) as (h' & E & O & Ep & Sb & Lv).
  exists h'. split; [done|]. split; [done|by rewrite Ep|done|].
  intros m. eapply free_not_live; [done|done|]. exists d. split; [done|]. rewrite El. left.
Qed.

Lemma malloc_new_ok F h i d s a : heap_ok F h → descs h !! i = Some d → free_list d = [] →
  arenas h !! a = None → mem s = mem (pages h) → Live s ((a, 1) :: F ++ arena_blocks (arenas h)) →
  ∃ h' p, (add_blocks (Z.to_nat (blocks_per_arena d))
             (set_arena (h <| pages := s |>) a (mk_arena (Some i) (blocks_per_arena d))) a i 0
           ≫= λ h, pop_block h i) = Some (h', p) ∧ allocated F h h' p (block_size d).
Proof.
  intros [W B] Hd El Hn Mm L. pose proof (shape_ok F h i d W Hd) as Sh.
  destruct (Live_block _ _ (a, 1) L) as (? & Al & _ & ? & _); [left|]. simpl in *.
  pose proof (shape_facts d Sh) as (? & ? & ? & ?).
  rewrite (add_blocks_ok _ _ a (mk_arena (Some i) (blocks_per_arena d)) i d 0);
    [|by split; [apply lookup_insert_eq|]|done|lia..].
  cbn [mbind option_bind]. rewrite El, Z2Nat.id by lia. simpl app.
  change (set_free_list _ _ _ _) with (new_arena h s a i d).
  pose proof (new_arena_wf F h s a i d W Hd Hn L El) as W'.
  destruct (slots a d) as [|b l] eqn:Es.
  { pose proof (slots_length a d Sh) as K. rewrite Es in K. simpl in K. lia. }
  destruct (pop_allocated F (new_arena h s a i d) i (d <| free_list := b :: l |>) b l)
    as (h' & E & [O M Lv Nl]); [done| |done| |].
  - unfold new_arena. rewrite descs_set, decide_True, Es by done. done.
  - intros a' ar' j d' S' P. apply small_new_arena in S' as [(d0 & S0 & ->)|(-> & _)]; [| |done..].
    + pose proof (B a' ar' j d0 S0). case_decide; [subst j|done]. destruct S0 as (? & ? & ?). by simplify_eq.
    + destruct P. apply (slot_in_page a d); [done..|]. rewrite Es. left.
  - exists h', b. split; [done|]. split; [done|by rewrite M| |]; simpl in *.
    + intros q m. by rewrite Lv, (live_new_arena F).
    + intros m. by rewrite <-(live_new_arena F h s a i d).
Qed.

Lemma malloc_small_ok F h size i : heap_ok F h → 0 < size →
  find_desc (descs h) size = Some i →
  ∃ h' p, malloc h size = Some (h', p) ∧ malloc_post F h size h' p.
Proof.
  intros [W B] H0 Ef. destruct (find_desc_some _ _ _ Ef) as (d & Hd & Hs).
  unfold malloc. rewrite (proj2 (Z.eqb_neq size 0)), Ef by lia. rewrite Hd. cbn [mbind option_bind].
  destruct (free_list d) as [|b l] eqn:El.
  - unfold palloc_get_page. destruct (heap_get_some F h 1 W ltac:(lia)) as (s & a & G). rewrite G.
    cbn [mbind option_bind]. pose proof (heap_get F h 1 s a W ltac:(lia) G) as K.
    destruct (a =? NULL) eqn:E.
    + destruct K as [-> K]. eexists _, _. split; [done|]. left. rewrite heap_pages_id.
      split_and!; [done..|]. unfold pages_for. rewrite (proj2 (Z.leb_le size 1024)); [done|].
      pose proof (shape_ok F h i d W Hd) as Sh. unfold shape, sizes in Sh. set_unfold. naive_solver lia.
    + destruct K as (Hn & Mm & L).
      destruct (malloc_new_ok F h i d s a) as (h' & p & E' & A); [done..|].
      exists h', p. split; [exact E'|]. right. by exists (block_size d).
  - destruct (pop_allocated F h i d b l) as (h' & E & A); [done..| |].
    { intros a ar j d' S' _. by apply (B a ar j d'). }
    exists h', b. split; [done|]. right. by exists (block_size d).
Qed.

(** [malloc] on every request whose size with the header fits a word. *)
Lemma malloc_ok F h size : heap_ok F h → 0 < size → size + 12 + 4095 < 2 ^ 32 →
  ∃ h' p, malloc h size = Some (h', p) ∧ malloc_post F h size h' p.
Proof.
  intros W H0 Hs. destruct (find_desc (descs h) size) as [i|] eqn:E.
  - by eapply malloc_small_ok.
  - by apply malloc_big_ok.
Qed.

(** Adding the arena header to the size does not wrap past zero. *)
Definition header_fits (size : Z) : Prop := 0 ≤ size ≤ 2 ^ 32 - 12.

(** [malloc] on every request: a null pointer and an unchanged heap, or a block,
    which is large enough when the header fits. *)
Lemma malloc_any F h size : heap_ok F h → is_u32 size →
  ∃ h' p, malloc h size = Some (h', p) ∧
    ((p = NULL ∧ h' = h) ∨ ∃ n, (header_fits size → size ≤ n) ∧ allocated F h h' p n).
Proof.
  intros W [H0 Hs]. destruct (decide (size = 0)) as [->|Hz]; [exists h, NULL; split; [done|by left]|].
  destruct (find_desc (descs h) size) as [i|] eqn:Ef.
  { destruct (malloc_small_ok F h size i W ltac:(lia) Ef) as (h' & p & E & [(-> & -> & _)|(n & Hn & A)]);
      eexists _, _; (split; [exact E|]); [by left|right; by exists n]. }
  set (x := u32 (size + arena_sz)). assert (is_u32 x) as Hx by apply u32_range.
  assert (header_fits size → size + 12 < 2 ^ 32 ∧ x = size + 12 ∨ x = 0) as Hf.
  { unfold header_fits, x, arena_sz, u32. intros. destruct (decide (size + 12 = 2 ^ 32)) as [->|]; [by right|left].
    rewrite Z.mod_small by lia. lia. }
  destruct (decide (DIV_ROUND_UP x PGSIZE = 0)) as [Ec|Ec].
  - exists h, NULL. split; [|by left]. unfold malloc. rewrite (proj2 (Z.eqb_neq size 0)), Ef by done.
    fold x. rewrite Ec.
    change (palloc_get_multiple (pages h) 0 0) with (Some (pages h, NULL)). cbn [mbind option_bind].
    change (NULL =? NULL) with true. cbv iota. by rewrite heap_pages_id.
  - assert (0 < DIV_ROUND_UP x PGSIZE ∧ x ≤ 4096 * DIV_ROUND_UP x PGSIZE) as [Hc Hle].
    { unfold DIV_ROUND_UP, u32, is_u32 in *. change PGSIZE with 4096 in *.
      Z.to_euclidean_division_equations; lia. }
    destruct (malloc_pages_ok F h size _ W Hz Ef eq_refl Hc) as (h' & p & E & [(-> & -> & _)|A]);
      eexists _, _; (split; [exact E|]); [by left|right].
    fold x in A. eexists. split; [|exact A]. intros H. destruct (Hf H) as [? | Ex]; [lia|].
    unfold DIV_ROUND_UP in Ec. rewrite Ex in Ec. by destruct Ec.
Qed.

(** ** Returning an unused arena *)

Definition retire (h : heap) (s : palloc) (a : Z) (i : nat) (d : desc) : heap :=
  (set_free_list h i d (filter (λ b, b ∉ slots a d) (free_list d)))
    <| arenas := delete a (arenas h) |> <| pages := s |>.

Section Retire.
Context (F : list (Z * Z)) (h : heap) (s : palloc) (a : Z) (ar : arena) (i : nat) (d : desc).
Context (W : heap_wf F h) (Sm : small h a ar i d)
  (All : ∀ b, b ∈ slots a d → b ∈ free_list d)
  (L : Live s (F ++ arena_blocks (delete a (arenas h)))).

Let rest : list Z := filter (λ b, b ∉ slots a d) (free_list d).

Lemma retire_descs j : descs (retire h s a i d) !! j =
  if decide (j = i) then Some (d <| free_list := rest |>) else descs h !! j.
Proof. apply descs_set, Sm. Qed.

Lemma small_retire a' ar' j d' : small (retire h s a i d) a' ar' j d' ↔
  a' ≠ a ∧ ∃ d0, small h a' ar' j d0 ∧ d' = if decide (j = i) then d <| free_list := rest |> else d0.
Proof.
  unfold small. rewrite retire_descs. unfold retire; simpl. rewrite lookup_delete_Some.
  destruct Sm as (Ha & Hi & Hd). case_decide as E; [subst j|]; split.
  - intros ([? ?] & ? & [= <-]). split; [done|]. by exists d.
  - intros (? & d0 & (? & ? & ?) & ->). done.
  - intros ([? ?] & ? & ?). split; [done|]. by exists d'.
  - intros (? & d0 & (? & ? & ?) & ->). done.
Qed.

(** The slots of other arenas are not slots of this one. *)
Lemma slot_other a' ar' j d' q : small h a' ar' j d' → q ∈ slots a' d' → a' ≠ a ↔ q ∉ slots a d.
Proof.
  intros (Ha' & Hi' & Hd') Hq. destruct Sm as (Ha & Hi & Hd).
  destruct (arena_facts F h a ar W Ha) as (_ & M & _).
  destruct (arena_facts F h a' ar' W Ha') as (_ & M' & _). split.
  - intros Hne Hq'. apply slot_in_page in Hq; [|by eapply shape_ok|done].
    apply slot_in_page in Hq'; [|by eapply shape_ok|done]. unfold in_page in *. congruence.
  - intros Hn ->. by simplify_eq.
Qed.

Lemma slot_retire j q n : slot (retire h s a i d) j q n ↔ slot h j q n ∧ q ∉ slots a d.
Proof.
  unfold slot. setoid_rewrite small_retire. split.
  - intros (a' & ar' & d' & (Hne & d0 & S0 & ->) & Hq & ->).
    assert (q ∈ slots a' d0 ∧ d0 = if decide (j = i) then d else d0) as [Hq' E0].
    { case_decide; [subst j|done]. destruct S0 as (? & ? & ?), Sm as (? & ? & ?). by simplify_eq. }
    split; [|by apply (slot_other a' ar' j d0)]. exists a', ar', d0. split_and!; [done..|].
    case_decide; [by rewrite E0|done].
  - intros [(a' & ar' & d' & S0 & Hq & ->) Hn]. apply (slot_other a' ar' j d' q) in Hn; [|done..].
    eexists a', ar', _. split; [split; [done|]; by exists d'|].
    case_decide; [subst j|done]. destruct S0 as (? & ? & ?), Sm as (? & ? & ?). by simplify_eq.
Qed.

Lemma is_free_retire j q : is_free (retire h s a i d) j q ↔
  if decide (j = i) then q ∈ free_list d ∧ q ∉ slots a d else is_free h j q.
Proof.
  unfold is_free. rewrite retire_descs. case_decide; [|done]. unfold rest. split.
  - intros (? & [= <-] & Hq). simpl in Hq. apply list_elem_of_filter in Hq. tauto.
  - intros [? ?]. eexists. split; [done|]. simpl. by apply list_elem_of_filter.
Qed.

Lemma live_retire q n : live (retire h s a i d) q n ↔ live h q n.
Proof.
  pose proof Sm as (Ha & Hi & Hd).
  unfold live. setoid_rewrite slot_retire. setoid_rewrite is_free_retire.
  assert (big (retire h s a i d) q n ↔ big h q n) as ->.
  { unfold big; simpl. setoid_rewrite lookup_delete_Some. split.
    - intros (a' & c & [_ ?] & ?). by exists a', c.
    - intros (a' & c & E & ?). exists a', c. split; [|done]. split; [|done].
      intros ->. by simplify_eq. }
  split; (intros [(j & Sq & Nf)|Hb]; [left; exists j|by right]).
  - destruct Sq as [Sq Hn]. split; [done|]. case_decide; [subst j|done].
    intros (d' & ? & ?). simplify_eq. by apply Nf.
  - assert (q ∉ slots a d) as Hn.
    { intros Hq. assert (slot h i q (block_size d)) as Sq' by (by exists a, ar, d).
      destruct (slot_inj F h j q n i _ W Sq Sq') as [-> _]. apply Nf. exists d. auto. }
    split; [done|]. case_decide; [subst j|done]. intros [Hf _]. apply Nf. by exists d.
Qed.

Lemma filter_rest a' : a' ≠ a → filter (in_page a') rest = filter (in_page a') (free_list d).
Proof.
  intros Hne. unfold rest. rewrite list_filter_filter. apply list_filter_iff. intros x.
  pose proof Sm as (Ha & Hi & Hd). destruct (arena_facts F h a ar W Ha) as (_ & M & _).
  split; [tauto|]. intros P. split; [done|]. intros Hx.
  apply slot_in_page in Hx; [|by eapply shape_ok|done]. unfold in_page in *. congruence.
Qed.

Lemma retire_wf : heap_wf F (retire h s a i d).
Proof.
  pose proof Sm as (Ha & Hi & Hd). split.
  - unfold retire. change (descs (_ <| pages := _ |>)) with (descs (set_free_list h i d rest)).
    rewrite shapes_set by done. apply W.
  - exact L.
  - intros a' ar' j E1 E2. simpl in E1. apply lookup_delete_Some in E1 as [Hne E1].
    destruct (wf_cnt F h W a' ar' j E1 E2) as (d0 & Hd0 & ->). rewrite retire_descs.
    case_decide; [subst j; simplify_eq|by exists d0]. eexists. split; [done|]. simpl.
    by rewrite filter_rest by done.
  - intros j d' b Hd' Hb. assert (is_free (retire h s a i d) j b) as Fr by (by exists d').
    assert (∃ n, slot (retire h s a i d) j b n) as (n & a' & ar' & d0 & S0 & Hs & _).
    { setoid_rewrite slot_retire. rewrite is_free_retire in Fr.
      assert (is_free h j b ∧ b ∉ slots a d) as [(d0 & Hd0 & Hf) Hn].
      { case_decide; [subst j; split; [exists d|]; tauto|]. split; [done|].
        intros Hq. destruct Fr as (d0 & Hd0 & Hf).
        destruct (wf_free F h W j d0 b Hd0 Hf) as (a' & ar' & ? & ?).
        assert (slot h i b (block_size d)) as S1 by (by exists a, ar, d).
        assert (slot h j b (block_size d0)) as S2 by (by exists a', ar', d0).
        by destruct (slot_inj F h i b _ j _ W S1 S2). }
      destruct (wf_free F h W j d0 b Hd0 Hf) as (a' & ar' & ? & ?).
      eexists. split; [by exists a', ar', d0|done]. }
    exists a', ar'. pose proof S0 as (_ & _ & E). by simplify_eq.
  - intros j d' Hd'. rewrite retire_descs in Hd'. case_decide; [|by eapply (wf_nodup F h W)].
    simplify_eq. simpl. unfold rest. by apply NoDup_filter, (wf_nodup F h W i).
Qed.

Lemma retire_busy :
  (∀ a' ar' j d', a' ≠ a → small h a' ar' j d' → free_cnt ar' < blocks_per_arena d') →
  busy (retire h s a i d).
Proof.
  intros B a' ar' j d' S'. apply small_retire in S' as (Hne & d0 & S0 & ->).
  pose proof (B a' ar' j d0 Hne S0). case_decide; [subst j|done].
  destruct S0 as (? & ? & ?), Sm as (? & ? & ?). by simplify_eq.
Qed.
End Retire.

(** ** [free] *)

Lemma palloc_free_mem s p c s' x : palloc_free_multiple s p c = Some s' →
  ¬ (p ≤ x < p + u32 (PGSIZE * c)) → mem s' x = mem s x.
Proof.
  unfold palloc_free_multiple. intros E Hx. apply bind_Some in E as ([] & _ & E).
  destruct ((p =? NULL) || (c =? 0)); [by simplify_eq|]. apply bind_Some in E as (u & _ & E).
  apply bind_Some in E as (al & _ & E). apply bind_Some in E as ([] & _ & E).
  apply bind_Some in E as (bm & _ & E). injection E as <-.
  assert (∀ y, mem (set_pool (s <| mem := fill (mem s) p 204 (u32 (PGSIZE * c)) |>) u y)
    = fill (mem s) p 204 (u32 (PGSIZE * c))) as -> by (intros; by destruct u).
  unfold fill. destruct (in_range p (u32 (PGSIZE * c)) x) eqn:R; [|done].
  by apply in_range_spec in R.
Qed.

(** [h'] is [h] without the block at [p], of [n] bytes. *)
Record freed (F : list (Z * Z)) (h h' : heap) (p : Z) : Prop := {
  freed_ok : heap_ok F h';
  freed_live : ∀ q m, live h' q m ↔ live h q m ∧ q ≠ p;
  freed_mem : ∀ q m x, live h q m → q ≠ p → q ≤ x < q + m →
    mem (pages h') x = mem (pages h) x;
}.

(** The page allocator takes back the pages of an arena. *)
Lemma arena_free F h a ar : heap_wf F h → arenas h !! a = Some ar →
  ∃ s, palloc_free_multiple (pages h) a (arena_pages ar) = Some s ∧
    Live s (F ++ arena_blocks (delete a (arenas h))) ∧
    ∀ x, ¬ (a ≤ x < a + 4096 * arena_pages ar) → mem s x = mem (pages h) x.
Proof.
  intros W Ha. pose proof (wf_pages F h W) as L.
  destruct (arena_facts F h a ar W Ha) as (? & _ & ? & ? & _).
  destruct (Live_free (pages h) F (arena_blocks (delete a (arenas h))) a (arena_pages ar))
    as (s & E & L').
  { eapply Live_perm, L. by rewrite (arena_blocks_delete _ a ar). }
  exists s. split; [done|]. split; [done|]. intros x Hx. eapply palloc_free_mem; [done|].
  change PGSIZE with 4096. rewrite u32_small; [done|]. unfold is_u32. lia.
Qed.

(** The bytes of a live block are not in another arena. *)
Lemma live_outside F h a ar q m x : heap_wf F h → arenas h !! a = Some ar → live h q m →
  ¬ (a ≤ q < a + 4096 * arena_pages ar) → q ≤ x < q + m → ¬ (a ≤ x < a + 4096 * arena_pages ar).
Proof.
  intros W Ha Lq Hq Hx Hx'. destruct (live_arena F h q m W Lq) as (a' & ar' & Ha' & ? & ? & ? & _).
  assert (a = a') as -> by (apply (arenas_apart F h a ar a' ar' x); try done; lia).
  simplify_eq. lia.
Qed.

Definition drop_big (h : heap) (s : palloc) (a : Z) : heap :=
  h <| arenas := delete a (arenas h) |> <| pages := s |>.

Section DropBig.
Context (F : list (Z * Z)) (h : heap) (s : palloc) (a cnt : Z).
Context (W : heap_ok F h) (Ha : arenas h !! a = Some (mk_arena None cnt))
  (L : Live s (F ++ arena_blocks (delete a (arenas h)))).

Lemma small_drop_big a' ar' j d' : small (drop_big h s a) a' ar' j d' ↔ small h a' ar' j d'.
Proof.
  unfold small; simpl. rewrite lookup_delete_Some. split; [tauto|].
  intros (E1 & E2 & ?). split_and!; [|done..]. intros <-. by simplify_eq.
Qed.

Lemma live_drop_big q n : live (drop_big h s a) q n ↔ live h q n ∧ q ≠ a + 12.
Proof.
  unfold live, slot. setoid_rewrite small_drop_big.
  change (is_free (drop_big h s a)) with (is_free h).
  assert (big (drop_big h s a) q n ↔ big h q n ∧ q ≠ a + 12) as ->.
  { unfold big; simpl. setoid_rewrite lookup_delete_Some. split.
    - intros (a' & c & [Hne E] & -> & ->). split; [by exists a', c|lia].
    - intros [(a' & c & E & -> & ->) Hne]. exists a', c. split; [split; [congruence|done]|done]. }
  split; [|tauto]. intros [(i & Sq & Nf)|?]; [|tauto]. split; [by left; exists i|]. intros ->.
  eapply (slot_not_big F h i); [apply W|exact Sq|by exists a, cnt].
Qed.

Lemma drop_big_ok : heap_ok F (drop_big h s a).
Proof.
  destruct W as [W' B]. split; [split|].
  - apply W'.
  - exact L.
  - intros a' ar' j E1. simpl in E1. apply lookup_delete_Some in E1 as [_ E1]. by apply W'.
  - intros j d' b Hd' Hb. setoid_rewrite small_drop_big. by apply (wf_free F h W').
  - apply W'.
  - intros a' ar' j d' S'. apply small_drop_big in S'. by apply (B a' ar' j d').
Qed.
End DropBig.

Lemma block_to_arena_big F h a cnt : heap_wf F h → arenas h !! a = Some (mk_arena None cnt) →
  block_to_arena h (a + 12) = Some a.
Proof.
  intros W Ha. destruct (arena_facts F h a _ W Ha) as (? & M & Hc & ? & _).
  unfold arena_pages in *. simpl in *. unfold block_to_arena.
  pose proof (in_page_bounds a (a + 12) M ltac:(lia)) as P. unfold in_page in P.
  rewrite pg_round_down_eq, P by (unfold is_u32; lia).
  rewrite (proj2 (Z.eqb_neq a NULL)) by (unfold NULL; lia). cbn [negb ASSERT mbind option_bind].
  rewrite Ha. cbn [mbind option_bind arena_desc]. rewrite pg_ofs_eq.
  by rewrite (proj2 (Z.eqb_eq _ arena_sz)) by (unfold arena_sz; lia).
Qed.

Lemma free_big_ok F h p n : heap_ok F h → big h p n →
  ∃ h', free h p = Some h' ∧ freed F h h' p.
Proof.
  intros W (a & cnt & Ha & -> & ->).
  destruct (arena_facts F h a _ (proj1 W) Ha) as (? & M & Hc & ? & _).
  destruct (arena_free F h a _ (proj1 W) Ha) as (s & E & L & Hm).
  exists (drop_big h s a). split; [|split].
  - unfold free. rewrite (proj2 (Z.eqb_neq _ NULL)) by (unfold NULL; lia). cbn [negb].
    rewrite (block_to_arena_big F h a cnt (proj1 W) Ha). cbn [mbind option_bind].
    rewrite Ha. cbn [mbind option_bind arena_desc free_cnt]. unfold arena_pages in E; simpl in E.
    by rewrite E.
  - by eapply drop_big_ok.
  - intros q m. by apply (live_drop_big F h s a cnt).
  - intros q m x Lq Hne Hx. apply Hm. eapply (live_outside F h a _ q m x (proj1 W) Ha Lq); [|done].
    intros Hq. by destruct (live_in_arena F h a _ q m (proj1 W) Ha Lq Hq) as [(? & ? & ? & _)|[_ ->]].
Qed.

Lemma set_mem_wf F h m : heap_wf F h → heap_wf F (set_mem h m).
Proof. intros [W1 W2 W3 W4 W5]. split; [done|by apply Live_mem|done|done|done]. Qed.

Lemma live_recount_put F h a ar i d p c : heap_wf F h → small h a ar i d → p ∈ slots a d →
  ∀ q n, live (recount h a ar i d (p :: free_list d) c) q n ↔ live h q n ∧ q ≠ p.
Proof.
  intros W Sm Hp q n. unfold live. setoid_rewrite slot_recount; [|done].
  setoid_rewrite is_free_recount; [|done]. rewrite big_recount by done.
  assert (slot h i p (block_size d)) as Sp by (by exists a, ar, d).
  assert (is_free h i q ↔ q ∈ free_list d) as Fi.
  { destruct Sm as (_ & _ & Hd). split; [intros (d' & ? & ?); by simplify_eq|by exists d]. }
  split.
  - intros [(j & Sq & Nf)|Hb].
    + split; [left; exists j; split; [done|]|].
      * case_decide; [subst j|done]. rewrite Fi. set_solver.
      * intros ->. destruct (slot_inj F h i p _ j n W Sp Sq) as [<- _].
        rewrite decide_True in Nf by done. set_solver.
    + split; [by right|]. intros ->. by eapply slot_not_big.
  - intros [[(j & Sq & Nf)|Hb] Hne]; [left; exists j; split; [done|]|by right].
    case_decide; [subst j|done]. rewrite Fi in Nf. set_solver.
Qed.

(** The state of [free] after the block is on the free list again. *)
Section FreeSmall.
Context (F : list (Z * Z)) (h : heap) (a : Z) (ar : arena) (i : nat) (d : desc) (p : Z).
Context (W : heap_ok F h) (Sm : small h a ar i d) (Hs : p ∈ slots a d)
  (Nf : p ∉ free_list d).

Let hm : heap := set_mem h (fill (mem (pages h)) p 204 (block_size d)).
Let h1 : heap := recount hm a ar i d (p :: free_list d) (free_cnt ar + 1).

Lemma put_page : in_page a p.
Proof.
  pose proof Sm as (Ha & _ & Hd). destruct (arena_facts F h a ar (proj1 W) Ha) as (_ & M & _).
  apply (slot_in_page a d); [|done..]. eapply shape_ok; [apply W|done].
Qed.

Lemma put_wf : heap_wf F h1.
Proof.
  destruct (cnt_bound F h a ar i d (proj1 W) Sm) as [Ec _]. unfold h1.
  replace (free_cnt ar + 1) with (Z.of_nat (length (filter (in_page a) (p :: free_list d)))).
  - apply recount_wf; [by apply set_mem_wf, W|done|..].
    + constructor; [done|]. apply (wf_nodup F h (proj1 W) i), Sm.
    + intros b Hb. apply elem_of_cons in Hb as [->|?]; [by right|by left].
    + intros a' Hne. by rewrite (filter_page_ne a a' p) by (done || apply put_page).
  - rewrite Ec, filter_cons, decide_True by apply put_page. simpl. lia.
Qed.

Lemma put_live q n : live h1 q n ↔ live h q n ∧ q ≠ p.
Proof.
  unfold h1. rewrite (live_recount_put F hm a ar i d p);
    [done|by apply set_mem_wf, W|done|done].
Qed.

Lemma put_mem q m x : live h q m → q ≠ p → q ≤ x < q + m → mem (pages h1) x = mem (pages h) x.
Proof.
  intros Lq Hne Hx. assert (live h p (block_size d)) as Lp.
  { left. exists i. split; [by exists a, ar, d|]. intros (d' & ? & ?).
    destruct Sm as (_ & _ & Hd). by simplify_eq. }
  destruct (live_disjoint F h p _ q m (proj1 W) Lp Lq) as [?|?]; [done|..];
    simpl; unfold fill; destruct (in_range p (block_size d) x) eqn:R; try done;
    apply in_range_spec in R; lia.
Qed.

Lemma put_small : small h1 a (ar <| free_cnt := free_cnt ar + 1 |>) i
                          (d <| free_list := p :: free_list d |>).
Proof.
  pose proof (small_recount_of hm a ar i d (p :: free_list d) (free_cnt ar + 1) a ar i d Sm Sm) as K.
  by rewrite !decide_True in K.
Qed.

(** Without the other arenas' slots. *)
Lemma put_others a' ar' j d' : a' ≠ a → small h1 a' ar' j d' → free_cnt ar' < blocks_per_arena d'.
Proof.
  intros Hne S'. apply small_recount in S' as (ar0 & d0 & S0 & -> & ->); [|done].
  rewrite decide_False by done. change (small h a' ar0 j d0) in S0.
  pose proof (proj2 W a' ar0 j d0 S0).
  case_decide; [subst j|done]. destruct S0 as (? & ? & ?), Sm as (? & ? & ?). by simplify_eq.
Qed.

Lemma put_keep : free_cnt ar + 1 < blocks_per_arena d → freed F h h1 p.
Proof.
  intros Hc. split; [split; [apply put_wf|]|apply put_live|apply put_mem].
  apply busy_recount; [done|done|]. intros a' ar' j d' _. apply (proj2 W).
Qed.

(** An arena whose count is full has no live block. *)
Lemma put_all b : free_cnt ar + 1 = blocks_per_arena d → b ∈ slots a d → b ∈ p :: free_list d.
Proof.
  intros Hc Hb. pose proof put_wf as W1. pose proof put_small as S1.
  set (d1 := d <| free_list := p :: free_list d |>) in *.
  assert (b ∈ filter (in_page a) (free_list d1)) as K;
    [|apply list_elem_of_filter in K as [_ K]; exact K].
  apply (count_slots a d1 (filter (in_page a) (free_list d1))).
  - eapply shape_ok; [exact W1|apply S1].
  - apply NoDup_filter, (wf_nodup F h1 W1 i), S1.
  - intros x. by apply (free_in_page F h1 a _ i d1 x W1 S1).
  - by destruct (cnt_bound F h1 a _ i d1 W1 S1) as [<- _].
  - exact Hb.
Qed.

Lemma put_none_live q m : free_cnt ar + 1 = blocks_per_arena d → live h1 q m →
  ¬ (a ≤ q < a + 4096).
Proof.
  intros Hc Lq Hq. pose proof put_wf as W1. pose proof put_small as S1.
  pose proof S1 as (Ha1 & Hi1 & Hd1).
  pose proof (live_in_arena F h1 a _ q m W1 Ha1 Lq) as K. unfold arena_pages in K. rewrite Hi1 in K.
  destruct K as [(j & d' & [= <-] & Hd' & Hq' & ->)|[? _]]; [lia| |done].
  rewrite Hd1 in Hd'. injection Hd' as <-.
  eapply (free_not_live F h1 i q); [exact W1|by eexists _, _, _|by eexists; split; [exact Hd1|apply put_all]|done].
Qed.

Lemma put_retire : free_cnt ar + 1 = blocks_per_arena d →
  ∃ h', (remove_blocks (Z.to_nat (blocks_per_arena d)) h1 a i 0
         ≫= λ h, palloc_free_page (pages h) a
         ≫= λ s, Some (h <| arenas := delete a (arenas h) |> <| pages := s |>)) = Some h' ∧
        freed F h h' p.
Proof.
  intros Hc. pose proof put_wf as W1. pose proof put_small as S1.
  set (d1 := d <| free_list := p :: free_list d |>) in *. pose proof S1 as (Ha1 & Hi1 & Hd1).
  pose proof (shape_ok F h1 i d1 W1 Hd1) as Sh. pose proof (shape_facts d1 Sh) as (? & ? & ? & ?).
  destruct (arena_facts F h1 a _ W1 Ha1) as (? & M & _ & Hm & _).
  destruct (arena_free F h1 a _ W1 Ha1) as (s & E & L & Mm).
  unfold arena_pages in *. rewrite Hi1 in *.
  assert (∀ b, b ∈ slots a d1 → b ∈ free_list d1) as All by (intros b; by apply put_all).
  exists (retire h1 s a i d1). split.
  - rewrite (remove_blocks_ok _ h1 a _ i d1 0 S1 Sh);
      [|lia|lia|lia|simpl in *; lia|by apply (wf_nodup F h1 W1 i)|].
    + cbn [mbind option_bind]. unfold palloc_free_page.
      change (pages (set_free_list h1 _ _ _)) with (pages h1). rewrite E. cbn [mbind option_bind].
      rewrite Z2Nat.id by (simpl in *; lia). done.
    + rewrite Z2Nat.id by (simpl in *; lia). exact All.
  - split; [split|..].
    + by eapply retire_wf.
    + refine (retire_busy h1 s a _ i d1 S1 All _). apply put_others.
    + intros q m. by rewrite (live_retire F h1 s a _ i d1 W1 S1 All), put_live.
    + intros q m x Lq Hne Hx. simpl. rewrite Mm; [by apply (put_mem q m)|].
      assert (live h1 q m) as Lq1 by (by apply put_live).
      pose proof (live_outside F h1 a _ q m x W1 Ha1 Lq1) as K. unfold arena_pages in K.
      rewrite Hi1 in K. apply K; [|done]. intros Hq. by apply (put_none_live q m Hc Lq1).
Qed.
End FreeSmall.

Lemma free_small_ok F h a ar i d p : heap_ok F h → small h a ar i d → p ∈ slots a d →
  p ∉ free_list d → ∃ h', free h p = Some h' ∧ freed F h h' p.
Proof.
  intros W Sm Hs Nf. pose proof Sm as (Ha & Hi & Hd).
  pose proof (shape_ok F h i d (proj1 W) Hd) as Sh. pose proof (shape_facts d Sh) as (? & ? & ? & ?).
  pose proof (slot_bounds a d p Sh Hs). destruct (cnt_bound F h a ar i d (proj1 W) Sm) as [_ Bc].
  destruct (arena_facts F h a ar (proj1 W) Ha) as (? & M & _ & Hm & _).
  unfold arena_pages in Hm. rewrite Hi in Hm.
  unfold free. rewrite (proj2 (Z.eqb_neq p NULL)) by (unfold NULL; lia). cbn [negb].
  rewrite (block_to_arena_slot h a ar i d) by (done || lia). cbn [mbind option_bind].
  rewrite Ha. cbn [mbind option_bind]. rewrite Hi. cbn [mbind option_bind]. rewrite Hd.
  cbn [mbind option_bind].
  rewrite (u32_small (free_cnt ar + 1)) by (unfold is_u32; nia).
  pose proof (proj2 W a ar i d Sm) as Lt. cbn [free_cnt upd]. simpl free_cnt.
  destruct (Z.leb_spec (blocks_per_arena d) (free_cnt ar + 1)).
  - assert (free_cnt ar + 1 = blocks_per_arena d) as Ec by lia.
    rewrite (proj2 (Z.eqb_eq _ _) Ec). cbn [ASSERT mbind option_bind].
    destruct (put_retire F h a ar i d p W Sm Hs Nf Ec) as (h' & E & Fr). by exists h'.
  - eexists. split; [done|]. by apply (put_keep F h a ar i d p W Sm Hs Nf).
Qed.

(** [free] of every live block. *)
Lemma free_ok F h p n : heap_ok F h → live h p n → ∃ h', free h p = Some h' ∧ freed F h h' p.
Proof.
  intros W [(i & (a & ar & d & Sm & Hs & ->) & Nf)|Hb]; [|by eapply free_big_ok].
  eapply free_small_ok; [done..|]. intros Hf. apply Nf. exists d. by split; [apply Sm|].
Qed.

(** ** [calloc] and [realloc] *)

Lemma live_bounds F h p n : heap_wf F h → live h p n → 12 < p ∧ p mod 4 = 0 ∧ 0 < n ∧ p + n < 2 ^ 32.
Proof.
  intros W L. destruct (live_arena F h p n W L) as (a & ar & Ha & ? & ? & ? & ?).
  destruct (arena_facts F h a ar W Ha) as (? & _ & _ & ? & _). lia.
Qed.

Lemma live_fun F h p n m : heap_wf F h → live h p n → live h p m → n = m.
Proof.
  intros W [(i & S1 & F1)|B1] [(j & S2 & F2)|B2].
  - by apply (slot_inj F h i p n j m).
  - by destruct (slot_not_big F h i p n m W S1).
  - by destruct (slot_not_big F h j p m n W S2).
  - destruct B1 as (a & c & Ha & -> & ->), B2 as (a' & c' & Ha' & E & ->).
    assert (a' = a) as -> by lia. by simplify_eq.
Qed.

Lemma block_size_ok F h p n : heap_wf F h → live h p n → block_size_of h p = Some n.
Proof.
  intros W [(i & (a & ar & d & Sm & Hs & ->) & _)|(a & cnt & Ha & -> & ->)]; unfold block_size_of.
  - pose proof Sm as (Ha & Hi & Hd). destruct (arena_facts F h a ar W Ha) as (? & ? & _ & Hm & _).
    unfold arena_pages in Hm. rewrite Hi in Hm.
    rewrite (block_to_arena_slot h a ar i d); [|done|by eapply shape_ok|done|done|lia|done].
    cbn [mbind option_bind]. rewrite Ha. cbn [mbind option_bind]. rewrite Hi. cbn [mbind option_bind].
    by rewrite Hd.
  - rewrite (block_to_arena_big F h a cnt W Ha). cbn [mbind option_bind]. rewrite Ha.
    cbn [mbind option_bind arena_desc free_cnt].
    destruct (arena_facts F h a _ W Ha) as (? & M & Hc & Hm & _). unfold arena_pages in *; simpl in *.
    rewrite pg_ofs_eq. pose proof (in_page_bounds a (a + 12) M ltac:(lia)) as P. unfold in_page in P.
    replace ((a + 12) mod 4096) with 12 by lia. change PGSIZE with 4096.
    rewrite u32_small by (unfold is_u32; lia). done.
Qed.

Lemma set_mem_ok F h m : heap_ok F h → heap_ok F (set_mem h m).
Proof. intros [W B]. split; [by apply set_mem_wf|exact B]. Qed.

Lemma allocated_nonnull F h h' p n : allocated F h h' p n → live h' p n ∧ (p =? NULL) = false.
Proof.
  intros A. assert (live h' p n) as Lp by (apply A; by right). split; [done|].
  destruct (live_bounds F h' p n) as (? & _); [apply A|done|]. apply Z.eqb_neq. unfold NULL. lia.
Qed.

(** The new block overlaps no other. *)
Lemma allocated_disjoint F h h' p n q m : allocated F h h' p n → live h q m →
  q + m ≤ p ∨ p + n ≤ q.
Proof.
  intros A Lq. destruct (allocated_nonnull F h h' p n A) as [Lp _].
  apply (live_disjoint F h' q m p n); [apply A|apply A; by left|done|].
  intros ->. by apply (alloc_new F h h' p n A m).
Qed.

(** Memory that is written inside the new block only. *)
Lemma mem_outside (m : Z → Z) v p k n q c x : k ≤ n → (q + c ≤ p ∨ p + n ≤ q) → q ≤ x < q + c →
  (if in_range p k x then v else m x) = m x.
Proof.
  intros Hk Hd Hx. destruct (in_range p k x) eqn:R; [|done]. apply in_range_spec in R. lia.
Qed.

Lemma header_fits_u32 size : header_fits size → is_u32 size.
Proof. unfold header_fits, is_u32. lia. Qed.

Lemma realloc_ok F h p n size : heap_ok F h → live h p n → size ≠ 0 → header_fits size →
  ∃ h' q, realloc h p size = Some (h', q) ∧
    if q =? NULL then h' = h
    else heap_ok F h' ∧ ∃ m, size ≤ m ∧ (∀ k, ¬ live h q k) ∧
      (∀ r k, live h' r k ↔ (live h r k ∧ r ≠ p) ∨ (r = q ∧ k = m)) ∧
      (∀ j, 0 ≤ j < size `min` n → mem (pages h') (q + j) = mem (pages h) (p + j)) ∧
      (∀ r k x, live h r k → r ≠ p → r ≤ x < r + k → mem (pages h') x = mem (pages h) x).
Proof.
  intros W Lp H0 Hs. unfold realloc. rewrite (proj2 (Z.eqb_neq size 0)) by done.
  destruct (live_bounds F h p n (proj1 W) Lp) as (? & _). 
  rewrite (proj2 (Z.eqb_neq p NULL)) by (unfold NULL; lia).
  destruct (malloc_any F h size W (header_fits_u32 _ Hs)) as (h1 & q & -> & [(-> & ->)|(m & Hm & A)]);
    cbn [mbind option_bind negb andb]; [by eexists _, _|]. specialize (Hm Hs).
  destruct (allocated_nonnull F h h1 q m A) as [Lq Hq]. rewrite Hq. cbn [negb].
  assert (live h1 p n) as Lp1 by (apply A; by left).
  rewrite (block_size_ok F h1 p n) by (done || apply A). cbn [mbind option_bind].
  replace (if size <? n then size else n) with (size `min` n) by (destruct (Z.ltb_spec size n); lia).
  set (h2 := set_mem h1 _). assert (heap_ok F h2) as W2 by apply set_mem_ok, A.
  destruct (free_ok F h2 p n W2 Lp1) as (h3 & -> & [W3 Lv Mm]). cbn [mbind option_bind].
  assert (q ≠ p) as Hne by (intros ->; by apply (alloc_new F h h1 p m A n)).
  exists h3, q. split; [done|]. rewrite Hq. split; [done|]. exists m. split; [done|]. split; [apply A|].
  split; [|split].
  - intros r k. rewrite Lv. change (live h2 r k) with (live h1 r k). rewrite (alloc_live F h h1 q m A).
    split; [tauto|]. intros [?|[-> ->]]; tauto.
  - intros j Hj. rewrite (Mm q m) by (done || lia). simpl. unfold memcpy_block.
    rewrite (proj2 (in_range_spec q (size `min` n) (q + j))) by lia.
    rewrite (alloc_mem F h h1 q m A). f_equal. lia.
  - intros r k x Lr Hr Hx. assert (live h2 r k) as Lr2 by (apply A; by left).
    rewrite (Mm r k) by done. simpl. unfold memcpy_block. rewrite (alloc_mem F h h1 q m A).
    apply (mem_outside _ _ q _ m r k); [lia|by apply (allocated_disjoint F h h1)|done].
Qed.

(** [calloc] clears as many bytes as the product has after wrapping. *)
Lemma calloc_ok F h a b : heap_ok F h → is_u32 a → is_u32 b → header_fits (u32 (a * b)) →
  ∃ h' p, calloc h a b = Some (h', p) ∧
    if p =? NULL then h' = h
    else heap_ok F h' ∧ ∃ n, u32 (a * b) ≤ n ∧ (∀ m, ¬ live h p m) ∧
      (∀ q m, live h' q m ↔ live h q m ∨ (q = p ∧ m = n)) ∧
      (∀ x, p ≤ x < p + u32 (a * b) → mem (pages h') x = 0) ∧
      (∀ q m x, live h q m → q ≤ x < q + m → mem (pages h') x = mem (pages h) x).
Proof.
  intros W Ha Hb Hs. unfold calloc. set (size := u32 (a * b)) in *.
  destruct ((size <? a) || (size <? b)); [by exists h, NULL|].
  destruct (malloc_any F h size W (header_fits_u32 _ Hs)) as (h1 & p & -> & [(-> & ->)|(n & Hn & A)]);
    cbn [mbind option_bind]; [by eexists _, _|]. specialize (Hn Hs).
  destruct (allocated_nonnull F h h1 p n A) as [Lp Hp]. rewrite Hp. cbn [negb].
  eexists _, p. split; [done|]. rewrite Hp. split; [apply set_mem_ok, A|].
  exists n. split; [done|]. split; [apply A|]. split; [apply A|]. simpl. unfold fill. split.
  - intros x Hx. by rewrite (proj2 (in_range_spec p size x)).
  - intros q m x Lq Hx. rewrite (alloc_mem F h h1 p n A).
    apply (mem_outside _ _ p _ n q m); [lia|by apply (allocated_disjoint F h h1)|done].
Qed.

(** ** Clients *)

Lemma malloc_init_ok F s : Live s F →
  ∃ h, malloc_init s = Some h ∧ heap_ok F h ∧ pages h = s ∧ ∀ p n, ¬ live h p n.
Proof.
  intros L. destruct (malloc_init_loop 11 16 []) as [ds|] eqn:E; [|by vm_compute in E].
  assert (shape <$> ds = sizes ∧ Forall (λ d, free_list d = []) ds) as [Sh Em].
  { vm_compute in E. injection E as <-. split; [done|]. by repeat constructor. }
  assert (∀ i d, ds !! i = Some d → free_list d = []) as Em' by (intros i d Hd; by apply (Forall_lookup_1 _ _ i d Em)).
  unfold malloc_init. rewrite E. cbn [mbind option_bind]. eexists. split; [done|].
  split; [split; [split|]|split; [done|]]; simpl.
  - done.
  - unfold arena_blocks. rewrite map_to_list_empty. by rewrite app_nil_r.
  - intros a ar i Ha. by rewrite lookup_empty in Ha.
  - intros i d b Hd Hb. rewrite (Em' i d Hd) in Hb. by apply elem_of_nil in Hb.
  - intros i d Hd. rewrite (Em' i d Hd). constructor.
  - intros a ar i d (Ha & _). simpl in Ha. by rewrite lookup_empty in Ha.
  - intros p n [(i & (a & ar & d & (Ha & _) & _) & _)|(a & c & Ha & _)]; simpl in Ha;
      by rewrite lookup_empty in Ha.
Qed.

(** A heap without live blocks has no arenas. *)
Lemma no_live_empty F h : heap_ok F h → (∀ p n, ¬ live h p n) → arenas h = ∅.
Proof.
  intros [W B] N. apply map_empty. intros a. destruct (arenas h !! a) as [ar|] eqn:Ha; [|done].
  exfalso. destruct (arena_desc ar) as [i|] eqn:Hi.
  - destruct (wf_cnt F h W a ar i Ha Hi) as (d & Hd & Ec).
    pose proof (B a ar i d (conj Ha (conj Hi Hd))) as Lt. pose proof (shape_ok F h i d W Hd) as Sh.
    destruct (arena_facts F h a ar W Ha) as (_ & M & _).
    assert (slots a d ⊆+ filter (in_page a) (free_list d)) as K.
    { apply NoDup_submseteq; [apply shape_facts in Sh; apply NoDup_slots_from; lia|].
      intros b Hb. apply list_elem_of_filter. split; [by apply (slot_in_page a d)|].
      destruct (decide (b ∈ free_list d)) as [|Hn]; [done|]. destruct (N b (block_size d)). left.
      exists i. split; [by exists a, ar, d|]. intros (d' & ? & ?). by simplify_eq. }
    apply submseteq_length in K. pose proof (slots_length a d Sh). lia.
  - destruct ar as [x c]; simpl in *; subst x. apply (N (a + 12) (4096 * c - 12)). right. by exists a, c.
Qed.

(** A client with the blocks that it holds, each with the size that [block_size]
    gives. *)
Definition client : Type := heap * list (Z * Z).

(** The blocks held after a call that returned [p]. *)
Definition got (h : heap) (p : Z) (l : list (Z * Z)) : list (Z * Z) :=
  if p =? NULL then l else (p, default 0 (block_size_of h p)) :: l.

(** The calls: of [malloc] with any size; of [calloc] and [realloc], which also
    write to the block, with sizes to which the header can be added; and writes
    to memory. *)
Inductive malloc_step : client → client → Prop :=
  | step_malloc h l size h' p :
      is_u32 size → malloc h size = Some (h', p) → malloc_step (h, l) (h', got h' p l)
  | step_calloc h l a b h' p :
      is_u32 a → is_u32 b → header_fits (u32 (a * b)) → calloc h a b = Some (h', p) →
      malloc_step (h, l) (h', got h' p l)
  | step_realloc h l1 p n l2 size h' q :
      size ≠ 0 → header_fits size → realloc h p size = Some (h', q) →
      malloc_step (h, l1 ++ (p, n) :: l2)
        (h', if q =? NULL then l1 ++ (p, n) :: l2 else got h' q (l1 ++ l2))
  | step_realloc_null h l size h' p :
      is_u32 size → realloc h NULL size = Some (h', p) → malloc_step (h, l) (h', got h' p l)
  | step_realloc_zero h l1 p n l2 h' q :
      realloc h p 0 = Some (h', q) → malloc_step (h, l1 ++ (p, n) :: l2) (h', l1 ++ l2)
  | step_free h l1 p n l2 h' :
      free h p = Some h' → malloc_step (h, l1 ++ (p, n) :: l2) (h', l1 ++ l2)
  | step_free_null h l h' : free h NULL = Some h' → malloc_step (h, l) (h', l)
  | step_write h l m : malloc_step (h, l) (set_mem h m, l).

(** The blocks of the list [l] are those of the predicate [lv]. *)
Record holds (lv : Z → Z → Prop) (l : list (Z * Z)) : Prop := {
  holds_nodup : NoDup (l.*1);
  holds_live : ∀ b, b ∈ l → lv b.1 b.2;
  holds_all : ∀ p n, lv p n → p ∈ l.*1;
}.

Definition Holds (F : list (Z * Z)) (c : client) : Prop := heap_ok F c.1 ∧ holds (live c.1) c.2.

Lemma holds_add lv lv' l p n : holds lv l → (∀ m, ¬ lv p m) →
  (∀ q m, lv' q m ↔ lv q m ∨ (q = p ∧ m = n)) → holds lv' ((p, n) :: l).
Proof.
  intros [N Lv All] Hn Lv'. split; simpl in *.
  - constructor; [|done]. intros Hp. apply list_elem_of_fmap in Hp as (b & -> & Hb).
    by apply (Hn b.2), Lv.
  - intros b Hb. apply Lv'. apply elem_of_cons in Hb as [->|Hb]; [by right|left; by apply Lv].
  - intros q m Lq. apply Lv' in Lq as [Lq|[-> _]]; [right; by eapply All|left].
Qed.

Lemma holds_remove lv lv' l1 p n l2 : holds lv (l1 ++ (p, n) :: l2) →
  (∀ q m, lv' q m ↔ lv q m ∧ q ≠ p) → holds lv' (l1 ++ l2).
Proof.
  intros [N Lv All] Lv'. rewrite fmap_app, fmap_cons in N, All. simpl in *.
  rewrite <-Permutation_middle in N. apply NoDup_cons in N as [Np N].
  split; simpl; [by rewrite fmap_app| |].
  - intros b Hb. apply Lv'. split; [apply Lv; set_solver|]. intros E. apply Np. rewrite <-E, <-fmap_app.
    by apply list_elem_of_fmap_2.
  - intros q m Lq. apply Lv' in Lq as [Lq Hne]. specialize (All q m Lq). rewrite fmap_app. set_solver.
Qed.

(** A block of the list can be freed. *)
Lemma holds_mid lv l1 p n l2 : holds lv (l1 ++ (p, n) :: l2) → lv p n.
Proof. intros [_ Lv _]. apply (Lv (p, n)). set_solver. Qed.

(** The client gets a new block. *)
Lemma Holds_got F h' lv l p n : heap_ok F h' → p ≠ NULL → holds lv l → (∀ m, ¬ lv p m) →
  (∀ q m, live h' q m ↔ lv q m ∨ (q = p ∧ m = n)) → Holds F (h', got h' p l).
Proof.
  intros W Hp H Hn Lv. split; [done|]. unfold got. rewrite (proj2 (Z.eqb_neq _ _)) by done.
  rewrite (block_size_ok F h' p n) by (apply W || (apply Lv; by right)). simpl. by eapply holds_add.
Qed.

Lemma Holds_malloc F h l size h' p : Holds F (h, l) → is_u32 size → malloc h size = Some (h', p) →
  Holds F (h', got h' p l).
Proof.
  intros [W H] Hs E. destruct (malloc_any F h size W Hs) as (h1 & p1 & E' & [(-> & ->)|(n & _ & A)]);
    rewrite E' in E; injection E as <- <-; [by split|].
  destruct (allocated_nonnull F h h1 p1 n A) as [_ Hp]. apply Z.eqb_neq in Hp.
  eapply Holds_got; [apply A|done|exact H|apply A|apply A].
Qed.

Lemma Holds_free F h l1 p n l2 h' : Holds F (h, l1 ++ (p, n) :: l2) → free h p = Some h' →
  Holds F (h', l1 ++ l2).
Proof.
  intros [W H] E. destruct (free_ok F h p n W (holds_mid _ _ _ _ _ H)) as (h1 & E' & [W' Lv _]).
  rewrite E' in E. injection E as ->. split; [done|]. by eapply holds_remove.
Qed.

Lemma Holds_realloc F h l1 p n l2 size h' q : Holds F (h, l1 ++ (p, n) :: l2) → size ≠ 0 →
  header_fits size → realloc h p size = Some (h', q) →
  Holds F (h', if q =? NULL then l1 ++ (p, n) :: l2 else got h' q (l1 ++ l2)).
Proof.
  intros [W H] H0 Hs E. destruct (realloc_ok F h p n size W (holds_mid _ _ _ _ _ H) H0 Hs) as (h1 & q1 & E' & K).
  rewrite E' in E. injection E as -> ->. destruct (q =? NULL) eqn:Hq; [by subst|]. apply Z.eqb_neq in Hq.
  destruct K as (W' & k & _ & Nl & Lv & _).
  eapply (Holds_got F h' (λ r k, live h r k ∧ r ≠ p)); [done|done|by eapply holds_remove| |done].
  intros m [Lm _]. by apply (Nl m).
Qed.

Lemma realloc_null h size : size ≠ 0 → realloc h NULL size = malloc h size.
Proof.
  intros H0. unfold realloc. rewrite (proj2 (Z.eqb_neq size 0)) by done. by destruct (malloc h size) as [[]|].
Qed.

Lemma Holds_step F c c' : Holds F c → malloc_step c c' → Holds F c'.
Proof.
  intros H S. destruct S as [h l size h' p Hs E|h l a b h' p Ha Hb Hs E|h l1 p n l2 size h' q H0 Hs E
    |h l size h' p Hs E|h l1 p n l2 h' q E|h l1 p n l2 h' E|h l h' E|h l m].
  - by eapply Holds_malloc.
  - destruct H as [W H]. destruct (calloc_ok F h a b W Ha Hb Hs) as (h1 & p1 & E' & K). rewrite E' in E.
    injection E as -> ->. destruct (p =? NULL) eqn:Hp; [unfold got; rewrite Hp; by subst|].
    apply Z.eqb_neq in Hp. destruct K as (W' & n & _ & Nl & Lv & _). by eapply Holds_got.
  - by eapply Holds_realloc.
  - destruct (decide (size = 0)) as [->|H0]; [injection E as <- <-; done|].
    rewrite realloc_null in E by done. by eapply Holds_malloc.
  - unfold realloc in E. simpl in E. destruct (free h p) as [h1|] eqn:Ef; [|done].
    injection E as <- _. by eapply Holds_free.
  - by eapply Holds_free.
  - by injection E as <-.
  - destruct H as [W H]. split; [by apply set_mem_ok|exact H].
Qed.

(** Blocks at different places of a list of live blocks. *)
Lemma holds_disjoint F h l i j b c : heap_wf F h → holds (live h) l →
  l !! i = Some b → l !! j = Some c → i ≠ j → b.1 + b.2 ≤ c.1 ∨ c.1 + c.2 ≤ b.1.
Proof.
  intros W [N Lv _] Hi Hj Hne.
  assert (live h b.1 b.2) as Lb by (apply Lv; by eapply list_elem_of_lookup_2).
  assert (live h c.1 c.2) as Lc by (apply Lv; by eapply list_elem_of_lookup_2).
  apply (live_disjoint F h b.1 b.2 c.1 c.2 W Lb Lc). intros E. apply Hne.
  eapply (NoDup_lookup (l.*1)); [done|by rewrite list_lookup_fmap, Hi|].
  by rewrite list_lookup_fmap, Hj; simpl; rewrite E.
Qed.

(** What the calls return. *)
Lemma malloc_answers F h size : heap_ok F h → is_u32 size → ∃ h' p, malloc h size = Some (h', p) ∧
  (p ≠ NULL → header_fits size → ∃ n, block_size_of h' p = Some n ∧ size ≤ n).
Proof.
  intros W Hs. destruct (malloc_any F h size W Hs) as (h' & p & E & [(-> & ->)|(n & Hn & A)]);
    eexists _, _; (split; [exact E|]); [done|]. intros _ Hf. exists n. split; [|by apply Hn].
  eapply block_size_ok; [apply A|]. apply A. by right.
Qed.

Lemma calloc_answers F h a b : heap_ok F h → is_u32 a → is_u32 b → header_fits (u32 (a * b)) →
  ∃ h' p, calloc h a b = Some (h', p) ∧
    (p ≠ NULL → ∃ n, block_size_of h' p = Some n ∧ u32 (a * b) ≤ n).
Proof.
  intros W Ha Hb Hs. destruct (calloc_ok F h a b W Ha Hb Hs) as (h' & p & E & K). exists h', p.
  split; [done|]. intros Hp. rewrite (proj2 (Z.eqb_neq p NULL)) in K by done.
  destruct K as (W' & n & Hn & _ & Lv & _). exists n. split; [|done].
  eapply block_size_ok; [apply W'|]. apply Lv. by right.
Qed.

Lemma realloc_answers F h p0 n0 size : heap_ok F h → live h p0 n0 → size ≠ 0 → header_fits size →
  ∃ h' p, realloc h p0 size = Some (h', p) ∧ (p ≠ NULL → ∃ n, block_size_of h' p = Some n ∧ size ≤ n).
Proof.
  intros W L H0 Hs. destruct (realloc_ok F h p0 n0 size W L H0 Hs) as (h' & p & E & K). exists h', p.
  split; [done|]. intros Hp. rewrite (proj2 (Z.eqb_neq p NULL)) in K by done.
  destruct K as (W' & n & Hn & _ & Lv & _). exists n. split; [|done].
  eapply block_size_ok; [apply W'|]. apply Lv. by right.
Qed.

(** Without live blocks the heap has no pages. *)
Lemma all_freed F s h : Live s F → heap_ok F h → holds (live h) [] → ∀ a, used (pages h) a = used s a.
Proof.
  intros L W H a. pose proof (wf_pages F h (proj1 W)) as L'. rewrite (no_live_empty F h W) in L'.
  - unfold arena_blocks in L'. rewrite map_to_list_empty, app_nil_r in L'.
    pose proof (live_exact _ _ L a) as E. rewrite (live_exact _ _ L' a) in E.
    by destruct (used s a), (used (pages h) a).
  - intros p n Lp. pose proof (holds_all _ _ H p n Lp) as K. by apply elem_of_nil in K.
Qed.

(** C12: In any sequence of [malloc], [calloc], [realloc] and [free] calls, null
    pointers and size zero included, and of writes to memory, on the heap that
    [malloc_init] sets up beside other users [F] of the page allocator: the
    blocks that the client holds do not overlap; each of them has the size that
    [block_size] says, can be freed and reallocated; every request gets an answer,
    with no assertion failing, and a block that is not null is as large as was
    asked for; and when the client has freed all its blocks, every page is back:
    exactly the pages used at the start are used.  Sizes within 12 bytes of
    [2 ^ 32], where adding the arena header wraps, are excluded where [calloc]
    and [realloc] would write past the block; [malloc] answers them with a block
    that is too short, and so does [calloc] a product that wraps. *)
Theorem malloc_blocks_correct F s h0 h l : Live s F → malloc_init s = Some h0 →
  rtc malloc_step (h0, []) (h, l) →
  (∀ i j b c, l !! i = Some b → l !! j = Some c → i ≠ j →
     b.1 + b.2 ≤ c.1 ∨ c.1 + c.2 ≤ b.1) ∧
  (∀ b, b ∈ l → block_size_of h b.1 = Some b.2 ∧ is_Some (free h b.1)) ∧
  (∀ size, is_u32 size → ∃ h' p, malloc h size = Some (h', p) ∧
     (p ≠ NULL → header_fits size → ∃ n, block_size_of h' p = Some n ∧ size ≤ n)) ∧
  (∀ a b, is_u32 a → is_u32 b → header_fits (u32 (a * b)) → ∃ h' p, calloc h a b = Some (h', p) ∧
     (p ≠ NULL → ∃ n, block_size_of h' p = Some n ∧ u32 (a * b) ≤ n)) ∧
  (∀ b size, b ∈ l → size ≠ 0 → header_fits size → ∃ h' p, realloc h b.1 size = Some (h', p) ∧
     (p ≠ NULL → ∃ n, block_size_of h' p = Some n ∧ size ≤ n)) ∧
  (l = [] → ∀ a, used (pages h) a = used s a).
Proof.
  intros L I R. destruct (malloc_init_ok F s L) as (h1 & I' & W0 & _ & N0).
  rewrite I in I'. injection I' as <-.
  assert (Holds F (h, l)) as [W H].
  { apply (rtc_invariant _ _ _ _ (Holds_step F) R). split; [done|]. split; simpl; [constructor| |].
    - intros b Hb. by apply elem_of_nil in Hb.
    - intros p n Lp. by destruct (N0 p n). }
  simpl in *. split_and!.
  - intros i j b c. by eapply holds_disjoint; [apply W|].
  - intros b Hb. pose proof (holds_live _ _ H b Hb) as Lb. split; [by eapply block_size_ok; [apply W|]|].
    destruct (free_ok F h b.1 b.2 W Lb) as (h' & -> & _). by eexists.
  - intros size. by apply (malloc_answers F).
  - intros a b. by apply (calloc_answers F).
  - intros b size Hb. apply (realloc_answers F h b.1 b.2 size W). by apply (holds_live _ _ H).
  - intros ->. by apply (all_freed F).
Qed.

(** [realloc] of a live block either fails and changes nothing, or frees
    the old block and returns another one that is large enough, was not in use
    and starts with the old block's bytes, as many as both sizes allow; the
    bytes of all other live blocks are unchanged. *)
Theorem realloc_correct F h p n size : heap_ok F h → live h p n → size ≠ 0 → header_fits size →
  ∃ h' q, realloc h p size = Some (h', q) ∧
    if q =? NULL then h' = h
    else heap_ok F h' ∧ ∃ m, size ≤ m ∧ (∀ k, ¬ live h q k) ∧
      (∀ r k, live h' r k ↔ (live h r k ∧ r ≠ p) ∨ (r = q ∧ k = m)) ∧
      (∀ j, 0 ≤ j < size `min` n → mem (pages h') (q + j) = mem (pages h) (p + j)) ∧
      (∀ r k x, live h r k → r ≠ p → r ≤ x < r + k → mem (pages h') x = mem (pages h) x).
Proof. apply realloc_ok. Qed.

Lemma find_desc_large F h size : heap_wf F h → 1024 < size → find_desc (descs h) size = None.
Proof.
  intros W Hs. destruct (find_desc (descs h) size) as [i|] eqn:E; [|done].
  destruct (find_desc_some _ _ _ E) as (d & Hd & Hle).
  pose proof (shape_ok F h i d W Hd) as Sh. unfold shape, sizes in Sh. set_unfold. naive_solver lia.
Qed.

Lemma free_block_sub p pg c c' : 0 < c' ≤ c → free_block p pg c → free_block p pg c'.
Proof.
  unfold free_block, in_block. change PGSIZE with 4096. intros Hc (? & ? & ? & Hf).
  split_and!; [done|done|lia|]. intros a Ha. apply Hf. apply in_range_spec in Ha.
  apply in_range_spec. lia.
Qed.

(** The size computations wrap around.  Adding the header to a request of
    more than [2 ^ 32 - 12] bytes overflows, and [malloc] returns a block of
    4084 bytes for it.  [calloc] only checks that the product is at least each
    factor, which the wrapped product of 65537 and 65537 is, and returns
    135156 bytes for [2 ^ 32 + 131073]. *)
Theorem malloc_short_blocks F h pg : heap_ok F h → free_block (kernel_pool (pages h)) pg 33 →
  (∀ size, 2 ^ 32 - 12 < size < 2 ^ 32 →
     ∃ h' p, malloc h size = Some (h', p) ∧ live h' p 4084) ∧
  ∃ h' p, calloc h 65537 65537 = Some (h', p) ∧ live h' p 135156.
Proof.
  intros W Fb. split.
  - intros size Hs. destruct (malloc_pages_ok F h size 1) as (h' & p & E & K);
      [done|lia|apply (find_desc_large F); [apply W|lia]| |lia|].
    + unfold DIV_ROUND_UP, arena_sz, u32. change PGSIZE with 4096.
      Z.to_euclidean_division_equations; lia.
    + exists h', p. split; [done|]. destruct K as [(_ & _ & K)|A].
      * destruct (K pg). apply (free_block_sub _ pg 33); [lia|done].
      * apply (allocated_nonnull F h h' p _ A).
  - unfold calloc. change (u32 (65537 * 65537)) with 131073.
    destruct (malloc_pages_ok F h 131073 33) as (h' & p & E & K);
      [done|lia|apply (find_desc_large F); [apply W|lia]|done|lia|].
    destruct K as [(_ & _ & K)|A]; [by destruct (K pg)|].
    destruct (allocated_nonnull F h h' p _ A) as [Lp Hp]. simpl orb. cbn iota.
    rewrite E. cbn [mbind option_bind]. rewrite Hp. cbn [negb]. eexists _, p. by split.
Qed.

(** ** Examples *)

Definition example_pages : palloc :=
  mk_palloc (mk_pool (mk_bitmap 40 [0; 0]) 65536) (mk_pool (mk_bitmap 8 [0]) 1048576) (λ _, 7).

Lemma pool_zero_unused p ws a : used_map p = mk_bitmap (32 * Z.of_nat (length ws) - 24) ws →
  Forall (λ w, w = 0) ws → pool_used p a = false.
Proof.
  intros E Z0. unfold pool_used. rewrite in_pool_idx, E. simpl. set (j := (a - base p) / 4096).
  destruct (in_range 0 _ j) eqn:R; [|done]. apply in_range_spec in R. unfold bit. simpl.
  destruct (lookup_lt_is_Some_2 ws (Z.to_nat (j / 32))) as [w Hw].
  { assert (0 ≤ j / 32 < Z.of_nat (length ws)) by (Z.to_euclidean_division_equations; lia). lia. }
  rewrite (list_lookup_total_correct ws _ w Hw).
  by rewrite (Forall_lookup_1 _ _ _ _ Z0 Hw), Z.bits_0.
Qed.

Lemma example_live : Live example_pages [].
Proof.
  apply Live_init.
  - split; [split; [split; simpl; [unfold is_u32; lia|lia|by repeat constructor]|..]..|];
      vm_compute; congruence.
  - intros a. unfold used.
    rewrite (pool_zero_unused _ [0; 0]), (pool_zero_unused _ [0]); by repeat constructor.
Qed.

(** The heap after its initialization, and after the result [r] of a request. *)
Definition example_heap : heap := default (mk_heap [] ∅ example_pages) (malloc_init example_pages).
Definition example_after (r : option (heap * Z)) : heap := default example_heap (fst <$> r).

Definition example_1 : heap := example_after (malloc example_heap 100).
Definition example_2 : heap := example_after (malloc example_1 5000).

Lemma example_ok : heap_ok [] example_heap.
Proof.
  destruct (malloc_init_ok [] example_pages example_live) as (h & E & W & _).
  assert (example_heap = h) as -> by (unfold example_heap; by rewrite E). done.
Qed.

Lemma malloc_blocks_correct_witness :
  malloc example_heap 100 = Some (example_1, 65548) ∧
  malloc example_1 5000 = Some (example_2, 69644) ∧ is_Some (free example_2 65548).
Proof.
  assert (malloc example_heap 100 = Some (example_1, 65548)) as E1 by (vm_compute; reflexivity).
  assert (malloc example_1 5000 = Some (example_2, 69644)) as E2 by (vm_compute; reflexivity).
  split; [exact E1|]. split; [exact E2|].
  destruct (malloc_blocks_correct [] example_pages example_heap example_2 [(69644, 8180); (65548, 128)])
    as (_ & Fr & _).
  - apply example_live.
  - vm_compute; reflexivity.
  - eapply rtc_l; [apply (step_malloc example_heap [] 100 example_1 65548); [unfold is_u32; lia|exact E1]|].
    apply rtc_once. replace (got example_1 65548 []) with [(65548, 128)] by (vm_compute; reflexivity).
    replace [(69644, 8180); (65548, 128)] with (got example_2 69644 [(65548, 128)]) by (vm_compute; reflexivity).
    apply (step_malloc example_1 [(65548, 128)] 5000 example_2 69644); [unfold is_u32; lia|exact E2].
  - apply (Fr (65548, 128)). right. left.
Defined.

Lemma Some_pair_inj {A B} (a c : A) (b d : B) : Some (a, b) = Some (c, d) → a = c ∧ b = d.
Proof. by intros [= -> ->]. Qed.

Lemma example_1_ok : heap_ok [] example_1 ∧ live example_1 65548 128.
Proof.
  destruct (malloc_ok [] example_heap 100 example_ok) as (h & p & E & K); [lia..|].
  assert (malloc example_heap 100 = Some (example_1, 65548)) as E1 by (vm_compute; reflexivity).
  rewrite E in E1. apply Some_pair_inj in E1 as [-> ->].
  destruct K as [(K & _)|(n & _ & A)]; [discriminate K|].
  destruct (allocated_nonnull _ _ _ _ _ A) as [L _]. split; [apply A|].
  pose proof (block_size_ok [] example_1 65548 n (proj1 (alloc_ok _ _ _ _ _ A)) L) as Eb.
  assert (block_size_of example_1 65548 = Some 128) as Eb' by (vm_compute; reflexivity).
  rewrite Eb in Eb'. apply Some_inj in Eb' as ->. exact L.
Qed.

Lemma realloc_correct_witness :
  ∃ h q, realloc example_1 65548 3000 = Some (h, q) ∧ q ≠ NULL ∧ heap_ok [] h.
Proof.
  destruct (realloc_correct [] example_1 65548 128 3000) as (h & q & E & K);
    [apply example_1_ok..|done|unfold header_fits; lia|].
  assert (snd <$> realloc example_1 65548 3000 = Some 69644) as Eq by (vm_compute; reflexivity).
  rewrite E in Eq. injection Eq as ->. destruct K as [W _]. exists h, 69644.
  split; [exact E|]. split; [discriminate|exact W].
Defined.

Lemma malloc_short_blocks_witness :
  ∃ h p, malloc example_heap (2 ^ 32 - 1) = Some (h, p) ∧ live h p 4084.
Proof.
  destruct (malloc_short_blocks [] example_heap 65536) as [M _].
  - apply example_ok.
  - split_and!; [done|by vm_compute|by vm_compute|].
    intros a _. apply (pool_zero_unused _ [0; 0]); [done|]. by repeat constructor.
  - apply M. lia.
Defined.
