(* ===== verification/Hash.v ===== *)
(** * Hash tables ([lib/kernel/hash.c])

    A table is a block of buckets from [Malloc], each a list of elements; the
    buckets' lists are sequences of element addresses in the record, kept apart
    from the allocator's memory.  The table is generic in the client's [hash]
    and [less] functions, for which [HashKey] states what [hash.h] asks of
    them; the client's destructor and action are functions on a state of
    its own, which may not touch the table.

    [contents] is the sequence of the elements, bucket after bucket.  The
    theorems describe every operation by what it does to the contents up to
    their order, whatever the number of buckets is and whether or not an
    allocation fails, and by what it does to the allocator. *)

From S2P Require Import Prelude Machine OrdList FixedPoint Bitmap Palloc Malloc CString.

Open Scope Z_scope.

Record hash := mk_hash {
  elem_cnt : Z;
  bucket_cnt : Z;
  buckets : Z;
  bucket_lists : list (list Z);
}.
#[export] Instance hash_ctor : Ctor hash :=
  λ h, mk_hash (elem_cnt h) (bucket_cnt h) (buckets h) (bucket_lists h).

(** [sizeof (struct list)]. *)
Definition list_sz : Z := 16.

Definition turn_off_least_1bit (x : Z) : Z := Z.land x (u32 (x - 1)).
Definition is_power_of_2 (x : Z) : bool := negb (x =? 0) && (turn_off_least_1bit x =? 0).

(** The loop of [rehash] that rounds down to a power of 2; [None] is out of
    fuel. *)
Fixpoint round_down_pow2 (n : nat) (x : Z) : option Z :=
  match n with
  | O => None
  | S n => if negb (is_power_of_2 x) then round_down_pow2 n (turn_off_least_1bit x) else Some x
  end.

Definition BEST_ELEMS_PER_BUCKET : Z := 2.

(** An iterator: the bucket it is in and its element, which is the head of the
    bucket's list before the first call of [hash_next], and null at the end. *)
Inductive position :=
  | Head
  | At (e : Z)
  | Null.
Record hash_iterator := mk_iterator {
  it_bucket : nat;
  it_elem : position;
}.

(** [list_remove] of an element of one of the lists. *)
Fixpoint unlink_in (e : Z) (bs : list (list Z)) : option (list (list Z)) :=
  match bs with
  | [] => None
  | b :: bs =>
      match unlink e b with
      | Some b => Some (b :: bs)
      | None => (b ::.) <$> unlink_in e bs
      end
  end.

(** [list_next] in a list: the element after [e]. *)
Fixpoint next_in (e : Z) (l : list Z) : option (option Z) :=
  match l with
  | [] => None
  | x :: l => if x =? e then Some (head l) else next_in e l
  end.

Section Hash.
Context {A : Type} (hash_fn : Z → Z) (less : Z → Z → bool).

Definition find_bucket (h : hash) (e : Z) : Z := Z.land (hash_fn e) (u32 (bucket_cnt h - 1)).

Fixpoint find_elem (bucket : list Z) (e : Z) : Z :=
  match bucket with
  | [] => NULL
  | hi :: bucket => if negb (less hi e) && negb (less e hi) then hi else find_elem bucket e
  end.

(** [list_push_front] on the bucket numbered [i]. *)
Definition push_front (h : hash) (i e : Z) : option hash :=
  l ← bucket_lists h !! Z.to_nat i;
  Some (h <| bucket_lists := <[Z.to_nat i := e :: l]> (bucket_lists h) |>).

Definition insert_elem (h : hash) (bucket e : Z) : option hash :=
  push_front (h <| elem_cnt := u32 (elem_cnt h + 1) |>) bucket e.

Definition remove_elem (h : hash) (e : Z) : option hash :=
  bs ← unlink_in e (bucket_lists h);
  Some (h <| elem_cnt := u32 (elem_cnt h - 1) |> <| bucket_lists := bs |>).

(** The inner and the outer loop of [rehash] that move the elements. *)
Fixpoint move_elems (es : list Z) (h : hash) : option hash :=
  match es with
  | [] => Some h
  | e :: es => h ← push_front h (find_bucket h e) e; move_elems es h
  end.

Fixpoint move_buckets (bs : list (list Z)) (h : hash) : option hash :=
  match bs with
  | [] => Some h
  | b :: bs => h ← move_elems b h; move_buckets bs h
  end.

Definition rehash (hp : heap) (h : hash) : option (heap * hash) :=
  let new_bucket_cnt := elem_cnt h / BEST_ELEMS_PER_BUCKET in
  let new_bucket_cnt := if new_bucket_cnt <? 4 then 4 else new_bucket_cnt in
  new_bucket_cnt ← round_down_pow2 32 new_bucket_cnt;
  if new_bucket_cnt =? bucket_cnt h then Some (hp, h)
  else
    '(hp, new_buckets) ← malloc hp (u32 (list_sz * new_bucket_cnt));
    if new_buckets =? NULL then Some (hp, h)
    else
      h' ← move_buckets (bucket_lists h)
             (mk_hash (elem_cnt h) new_bucket_cnt new_buckets
                (replicate (Z.to_nat new_bucket_cnt) []));
      hp ← free hp (buckets h);
      Some (hp, h').

(** The loop of [hash_clear]; [s] is the state of the destructor. *)
Fixpoint clear_buckets (n i : nat) (destructor : option (A → Z → A)) (s : A) (h : hash) :
    option (A * hash) :=
  match n with
  | O => Some (s, h)
  | S n =>
      bucket ← bucket_lists h !! i;
      let s := match destructor with Some f => foldl f s bucket | None => s end in
      clear_buckets n (S i) destructor s (h <| bucket_lists := <[i := []]> (bucket_lists h) |>)
  end.

Definition hash_clear (h : hash) (destructor : option (A → Z → A)) (s : A) : option (A * hash) :=
  '(s, h) ← clear_buckets (Z.to_nat (bucket_cnt h)) 0 destructor s h;
  Some (s, h <| elem_cnt := 0 |>).

(** [junk] is what the new buckets hold before they are initialized. *)
Definition hash_init (hp : heap) (junk : list (list Z)) (s : A) : option (heap * hash * bool) :=
  '(hp, b) ← malloc hp (u32 (list_sz * 4));
  let h := mk_hash 0 4 b junk in
  if negb (b =? NULL) then
    '(_, h) ← hash_clear h None s;
    Some (hp, h, true)
  else Some (hp, h, false).

Definition hash_destroy (hp : heap) (h : hash) (destructor : option (A → Z → A)) (s : A) :
    option (heap * A) :=
  '(s, h) ← match destructor with
            | Some _ => hash_clear h destructor s
            | None => Some (s, h)
            end;
  hp ← free hp (buckets h);
  Some (hp, s).

Definition hash_find (h : hash) (e : Z) : option Z :=
  bucket ← bucket_lists h !! Z.to_nat (find_bucket h e);
  Some (find_elem bucket e).

Definition hash_insert (hp : heap) (h : hash) (new : Z) : option (heap * hash * Z) :=
  let bucket := find_bucket h new in
  l ← bucket_lists h !! Z.to_nat bucket;
  let old := find_elem l new in
  h ← (if old =? NULL then insert_elem h bucket new else Some h);
  '(hp, h) ← rehash hp h;
  Some (hp, h, old).

Definition hash_replace (hp : heap) (h : hash) (new : Z) : option (heap * hash * Z) :=
  let bucket := find_bucket h new in
  l ← bucket_lists h !! Z.to_nat bucket;
  let old := find_elem l new in
  h ← (if negb (old =? NULL) then remove_elem h old else Some h);
  h ← insert_elem h bucket new;
  '(hp, h) ← rehash hp h;
  Some (hp, h, old).

Definition hash_delete (hp : heap) (h : hash) (e : Z) : option (heap * hash * Z) :=
  l ← bucket_lists h !! Z.to_nat (find_bucket h e);
  let found := find_elem l e in
  if negb (found =? NULL) then
    h ← remove_elem h found;
    '(hp, h) ← rehash hp h;
    Some (hp, h, found)
  else Some (hp, h, found).

(** The loops of [hash_apply]: the list of each bucket, with [action] on the
    state [s]. *)
Fixpoint apply_buckets (n i : nat) (action : A → Z → A) (h : hash) (s : A) : option A :=
  match n with
  | O => Some s
  | S n =>
      bucket ← bucket_lists h !! i;
      apply_buckets n (S i) action h (foldl action s bucket)
  end.

Definition hash_apply (h : hash) (action : A → Z → A) (s : A) : option A :=
  apply_buckets (Z.to_nat (bucket_cnt h)) 0 action h s.

Definition hash_size (h : hash) : Z := elem_cnt h.
Definition hash_empty (h : hash) : bool := elem_cnt h =? 0.

End Hash.

Definition hash_first : hash_iterator := mk_iterator 0 Head.

(** The loop of [hash_next]: [next] is the element reached in the bucket
    numbered [b], [None] the end of its list. *)
Fixpoint next_bucket (n b : nat) (next : option Z) (h : hash) : option hash_iterator :=
  match next with
  | Some e => Some (mk_iterator b (At e))
  | None =>
      match n with
      | O => None
      | S n =>
          if bucket_cnt h <=? Z.of_nat (S b) then Some (mk_iterator (S b) Null)
          else l ← bucket_lists h !! S b; next_bucket n (S b) (head l) h
      end
  end.

Definition hash_next (h : hash) (i : hash_iterator) : option hash_iterator :=
  l ← bucket_lists h !! it_bucket i;
  next ← match it_elem i with
         | Head => Some (head l)
         | At e => next_in e l
         | Null => None
         end;
  next_bucket (S (length (bucket_lists h))) (it_bucket i) next h.

Definition hash_cur (i : hash_iterator) : position := it_elem i.

(** ** Hash functions, over the memory of [CString] *)

Definition FNV_32_PRIME : Z := 16777619.
Definition FNV_32_BASIS : Z := 2166136261.

Fixpoint hash_bytes_loop (n : nat) (m : memory) (buf hash : Z) : option Z :=
  match n with
  | O => Some hash
  | S n =>
      c ← m !! buf;
      hash_bytes_loop n m (buf + 1) (Z.lxor (u32 (hash * FNV_32_PRIME)) c)
  end.

Definition hash_bytes (m : memory) (buf size : Z) : option Z :=
  assert! negb (buf =? NULL);
  hash_bytes_loop (Z.to_nat size) m buf FNV_32_BASIS.

Fixpoint hash_string_loop (n : nat) (m : memory) (s hash : Z) : option Z :=
  match n with
  | O => None
  | S n =>
      c ← m !! s;
      if negb (c =? 0) then hash_string_loop n m (s + 1) (Z.lxor (u32 (hash * FNV_32_PRIME)) c)
      else Some hash
  end.

Definition hash_string (m : memory) (s : Z) : option Z :=
  assert! negb (s =? NULL);
  hash_string_loop (fuel m) m s FNV_32_BASIS.

(** The memory of a variable that holds the integer [i]; its address does not
    matter. *)
Definition int_memory (a i : Z) : memory :=
  <[a := u32 i mod 256]> (<[a + 1 := u32 i / 256 mod 256]>
    (<[a + 2 := u32 i / 65536 mod 256]> {[a + 3 := u32 i / 16777216]})).

Definition hash_int (i : Z) : option Z := hash_bytes (int_memory 4 i) 4 4.

(** ** Powers of 2 *)

Lemma turn_off_clears x j : 0 < x < 2 ^ 32 → 0 ≤ j → x mod 2 ^ j = 0 →
  turn_off_least_1bit x mod 2 ^ (j + 1) = 0.
Proof.
  intros Hx Hj Hm. unfold turn_off_least_1bit. rewrite u32_small by (unfold is_u32; lia).
  rewrite <-Z.land_ones, <-Z.land_assoc, Z.land_ones by lia.
  assert (0 < 2 ^ j) as H0 by (apply Z.pow_pos_nonneg; lia).
  rewrite Z.pow_add_r by lia. change (2 ^ 1) with 2.
  apply Z.bits_inj'. intros i Hi. rewrite Z.bits_0, Z.land_spec.
  destruct (decide (i < j)) as [Hlt|Hge].
  { rewrite (Z.div_mod x (2 ^ j)) at 1 by lia. rewrite Hm, Z.add_0_r, Z.mul_comm.
    by rewrite Z.mul_pow2_bits_low by lia. }
  change (2 ^ j * 2) with (2 ^ j * 2 ^ 1). rewrite <-Z.pow_add_r by lia.
  destruct (decide (i < j + 1)); [|by rewrite (Z.mod_pow2_bits_high (x - 1)), andb_false_r by lia].
  assert (i = j) as -> by lia. rewrite Z.mod_pow2_bits_low by lia.
  rewrite (Z.testbit_odd x), (Z.testbit_odd (x - 1)), !Z.shiftr_div_pow2 by lia.
  assert (∃ y, x = 2 ^ j * y ∧ 0 < y) as (y & -> & Hy).
  { exists (x / 2 ^ j). pose proof (Z.div_mod x (2 ^ j)). nia. }
  rewrite (Z.mul_comm (2 ^ j)), Z.div_mul by lia.
  replace (y * 2 ^ j - 1) with ((y - 1) * 2 ^ j + (2 ^ j - 1)) by lia.
  rewrite Z.div_add_l, (Z.div_small (2 ^ j - 1)), Z.add_0_r by lia.
  rewrite Z.odd_sub. by destruct (Z.odd y).
Qed.

(** Turning off a bit keeps the highest one. *)
Lemma turn_off_keeps x k : 0 ≤ k < 32 → 2 ^ k < x < 2 ^ (k + 1) →
  2 ^ k ≤ turn_off_least_1bit x < 2 ^ (k + 1).
Proof.
  intros Hk Hx. assert (2 ^ (k + 1) ≤ 2 ^ 32) by (apply Z.pow_le_mono_r; lia).
  assert (0 < 2 ^ k) as H0 by (apply Z.pow_pos_nonneg; lia).
  unfold turn_off_least_1bit. rewrite u32_small by (unfold is_u32; lia).
  assert (∀ y, 2 ^ k ≤ y < 2 ^ (k + 1) → Z.testbit y k = true) as T.
  { intros y Hy. rewrite Z.testbit_odd, Z.shiftr_div_pow2 by lia.
    rewrite Z.pow_add_r in Hy by lia. change (2 ^ 1) with 2 in Hy.
    by replace (y / 2 ^ k) with 1 by (apply (Z.div_unique y (2 ^ k) 1 (y - 2 ^ k)); lia). }
  assert (2 ^ k ≤ Z.land x (x - 1)) as Hge.
  { apply Z.le_ngt. intros Hlt.
    assert (Z.testbit (Z.land x (x - 1)) k = true) as E by (rewrite Z.land_spec, !T by lia; done).
    rewrite <-(Z.mod_small (Z.land x (x - 1)) (2 ^ k)), Z.mod_pow2_bits_high in E; [done|lia|].
    split; [|done]. apply Z.land_nonneg. lia. }
  split; [done|]. apply Z.log2_lt_pow2; [lia|].
  pose proof (Z.log2_land x (x - 1) ltac:(lia) ltac:(lia)).
  assert (Z.log2 x < k + 1) by (apply Z.log2_lt_pow2; lia). lia.
Qed.

Lemma is_power_of_2_pow k : 0 ≤ k < 32 → is_power_of_2 (2 ^ k) = true.
Proof.
  intros Hk. assert (0 < 2 ^ k) as H0 by (apply Z.pow_pos_nonneg; lia).
  assert (2 ^ k < 2 ^ 32) by (apply Z.pow_lt_mono_r; lia).
  unfold is_power_of_2, turn_off_least_1bit. rewrite u32_small by (unfold is_u32; lia).
  rewrite (proj2 (Z.eqb_neq _ 0)) by lia. apply Z.eqb_eq.
  replace (2 ^ k - 1) with (Z.ones k) by (rewrite Z.ones_equiv; lia).
  rewrite Z.land_ones by lia. by apply Z.mod_same; lia.
Qed.

(** [round_down_pow2] ends within 32 iterations, at the largest power of 2. *)
Lemma round_down_ok n x j k : 0 ≤ k < 32 → 2 ^ k ≤ x < 2 ^ (k + 1) →
  0 ≤ j → x mod 2 ^ j = 0 → 32 ≤ j + Z.of_nat n → round_down_pow2 n x = Some (2 ^ k).
Proof.
  intros Hk. assert (2 ^ (k + 1) ≤ 2 ^ 32) by (apply Z.pow_le_mono_r; lia).
  assert (0 < 2 ^ k) as H0 by (apply Z.pow_pos_nonneg; lia).
  revert x j. induction n as [|n IH]; intros x j Hx Hj Hm Hn.
  { assert (2 ^ 32 ≤ 2 ^ j) by (apply Z.pow_le_mono_r; lia).
    rewrite Z.mod_small in Hm by lia. lia. }
  simpl. destruct (decide (x = 2 ^ k)) as [->|Hne]; [by rewrite is_power_of_2_pow|].
  pose proof (turn_off_keeps x k Hk ltac:(lia)) as Kp.
  replace (is_power_of_2 x) with false; simpl.
  - apply (IH _ (j + 1)); [lia|lia| |lia]. apply turn_off_clears; lia.
  - unfold is_power_of_2. rewrite (proj2 (Z.eqb_neq (turn_off_least_1bit x) 0)) by lia.
    by rewrite andb_false_r.
Qed.

(** The bucket count for [c] elements. *)
Lemma bucket_cnt_ok c : 0 ≤ c < 2 ^ 28 →
  ∃ k, 2 ≤ k < 27 ∧
    round_down_pow2 32 (if c / 2 <? 4 then 4 else c / 2) = Some (2 ^ k) ∧
    2 ^ k ≤ 4 `max` (c / 2) < 2 * 2 ^ k.
Proof.
  intros Hc. replace (if c / 2 <? 4 then 4 else c / 2) with (4 `max` (c / 2))
    by (destruct (Z.ltb_spec (c / 2) 4); lia).
  assert (4 ≤ 4 `max` (c / 2) < 2 ^ 27) as Hx by (Z.to_euclidean_division_equations; lia).
  set (x := 4 `max` (c / 2)) in *. clearbody x. exists (Z.log2 x).
  pose proof (Z.log2_spec x ltac:(lia)) as L. rewrite Z.pow_succ_r in L by apply Z.log2_nonneg.
  assert (2 ≤ Z.log2 x < 27) as Lk.
  { split; [change 2 with (Z.log2 4); apply Z.log2_le_mono; lia|apply Z.log2_lt_pow2; lia]. }
  split; [done|]. split; [|done]. apply (round_down_ok 32 x 0); [lia| |lia|by apply Z.mod_1_r|done].
  rewrite Z.pow_add_r by lia. change (2 ^ 1) with 2. lia.
Qed.

(** ** Specification *)

(** What [hash.h] asks of the client's functions: [less] orders the elements,
    and elements that it does not tell apart have the same hash value. *)
Class HashKey (hash_fn : Z → Z) (less : Z → Z → bool) : Prop := {
  hk_order :: StrictWeakOrder less;
  hk_compat : ∀ x y, equiv_ord less x y → hash_fn x = hash_fn y;
  hk_u32 : ∀ x, is_u32 (hash_fn x);
}.

Definition contents (h : hash) : list Z := concat (bucket_lists h).

Section Spec.
Context (hash_fn : Z → Z) (less : Z → Z → bool) `{!HashKey hash_fn less}.

(** The buckets: a power of 2, and every element is in the bucket of its hash
    value. *)
Record placed (h : hash) : Prop := {
  p_cnt : bucket_cnt h = Z.of_nat (length (bucket_lists h));
  p_pow : ∃ k, 2 ≤ k < 27 ∧ bucket_cnt h = 2 ^ k;
  p_place : ∀ i l x, bucket_lists h !! i = Some l → x ∈ l → Z.to_nat (find_bucket hash_fn h x) = i;
}.

(** The elements: no two are equal for [less]. *)
Record elements (l : list Z) : Prop := {
  e_nodup : NoDup l;
  e_distinct : ∀ x y, x ∈ l → y ∈ l → equiv_ord less x y → x = y;
  e_null : NULL ∉ l;
}.

Definition table (h : hash) : Prop :=
  placed h ∧ elements (contents h) ∧ elem_cnt h = Z.of_nat (length (contents h)).

(** The elements that are not equal to [e]. *)
Definition others (e : Z) (l : list Z) : list Z := filter (λ x, ¬ equiv_ord less x e) l.

(** ** Buckets *)

Lemma concat_insert (bs : list (list Z)) i l e : bs !! i = Some l →
  concat (<[i := e :: l]> bs) ≡ₚ e :: concat bs.
Proof.
  revert i. induction bs as [|b bs IH]; intros i Hi; [done|]. destruct i as [|i]; simpl in *.
  - by injection Hi as ->.
  - rewrite IH by done. by rewrite Permutation_middle.
Qed.

Lemma elem_of_concat (bs : list (list Z)) x : x ∈ concat bs ↔ ∃ i l, bs !! i = Some l ∧ x ∈ l.
Proof.
  rewrite list_elem_of_In, in_concat. setoid_rewrite <-list_elem_of_In. split.
  - intros (l & [i Hi]%list_elem_of_lookup & Hx). by exists i, l.
  - intros (i & l & Hi & Hx). exists l. split; [|done]. by eapply list_elem_of_lookup_2.
Qed.

Lemma find_bucket_range h e : placed h →
  0 ≤ find_bucket hash_fn h e < bucket_cnt h ∧
  ∃ l, bucket_lists h !! Z.to_nat (find_bucket hash_fn h e) = Some l.
Proof.
  intros P. destruct (p_pow h P) as (k & Hk & Ek).
  assert (0 < 2 ^ k) as H0 by (apply Z.pow_pos_nonneg; lia).
  assert (2 ^ k ≤ 2 ^ 27) by (apply Z.pow_le_mono_r; lia).
  assert (0 ≤ find_bucket hash_fn h e < bucket_cnt h) as R.
  { unfold find_bucket. rewrite u32_small by (unfold is_u32; lia). rewrite Ek.
    replace (2 ^ k - 1) with (Z.ones k) by (rewrite Z.ones_equiv; lia).
    rewrite Z.land_ones by lia. by apply Z.mod_pos_bound. }
  split; [done|]. apply lookup_lt_is_Some. rewrite (p_cnt h P) in R. lia.
Qed.

Lemma push_front_ok h e : placed h →
  ∃ h', push_front h (find_bucket hash_fn h e) e = Some h' ∧ placed h' ∧
    contents h' ≡ₚ e :: contents h ∧ elem_cnt h' = elem_cnt h ∧
    bucket_cnt h' = bucket_cnt h ∧ buckets h' = buckets h.
Proof.
  intros P. destruct (find_bucket_range h e P) as (R & l & Hl).
  unfold push_front. rewrite Hl. cbn [mbind option_bind]. eexists. split; [done|].
  split; [|split; [by apply concat_insert|done]]. split; simpl.
  - rewrite length_insert. apply P.
  - apply P.
  - intros i l' x Hi Hx. change (find_bucket hash_fn _ x) with (find_bucket hash_fn h x).
    apply list_lookup_insert_Some in Hi as [(<- & <- & _)|[_ Hi]]; [|by apply (p_place h P i l')].
    apply elem_of_cons in Hx as [->|Hx]; [done|by apply (p_place h P _ l)].
Qed.

Lemma move_buckets_concat bs h :
  move_buckets hash_fn bs h = move_elems hash_fn (concat bs) h.
Proof.
  assert (∀ es fs h, move_elems hash_fn (es ++ fs) h = move_elems hash_fn es h ≫= move_elems hash_fn fs) as K.
  { induction es as [|e es IH]; intros fs h'; [done|]. simpl.
    destruct (push_front h' _ e); [|done]. cbn [mbind option_bind]. apply IH. }
  revert h. induction bs as [|b bs IH]; intros h; [done|]. simpl. rewrite K.
  destruct (move_elems hash_fn b h); [|done]. cbn [mbind option_bind]. apply IH.
Qed.

Lemma move_elems_ok es h : placed h →
  ∃ h', move_elems hash_fn es h = Some h' ∧ placed h' ∧ contents h' ≡ₚ es ++ contents h ∧
    elem_cnt h' = elem_cnt h ∧ bucket_cnt h' = bucket_cnt h ∧ buckets h' = buckets h.
Proof.
  revert h. induction es as [|e es IH]; intros h P; [by exists h|]. simpl.
  destruct (push_front_ok h e P) as (h1 & -> & P1 & C1 & E1 & B1 & A1). cbn [mbind option_bind].
  destruct (IH h1 P1) as (h2 & -> & P2 & C2 & E2 & B2 & A2). exists h2.
  split; [done|]. split; [done|]. split; [|split_and!; congruence].
  rewrite C2, C1. by rewrite Permutation_middle.
Qed.

Lemma empty_placed c k b n : 2 ≤ k < 27 → n = 2 ^ k →
  placed (mk_hash c n b (replicate (Z.to_nat n) [])) ∧
  contents (mk_hash c n b (replicate (Z.to_nat n) [])) = [].
Proof.
  intros Hk ->. assert (0 < 2 ^ k) as H0 by (apply Z.pow_pos_nonneg; lia). split.
  - split; simpl.
    + rewrite length_replicate. lia.
    + by exists k.
    + intros i l x Hi Hx. apply lookup_replicate in Hi as [-> _]. by apply elem_of_nil in Hx.
  - unfold contents. simpl. induction (Z.to_nat (2 ^ k)) as [|n IH]; [done|exact IH].
Qed.

(** ** Searching *)

Lemma find_elem_cases l e :
  (find_elem less l e ∈ l ∧ equiv_ord less (find_elem less l e) e) ∨
  (find_elem less l e = NULL ∧ ∀ x, x ∈ l → ¬ equiv_ord less x e).
Proof.
  induction l as [|x l IH]; simpl.
  - right. split; [done|]. intros x Hx. by apply elem_of_nil in Hx.
  - destruct (less x e) eqn:E1, (less e x) eqn:E2; simpl;
      try (left; split; [left|by split]);
      (destruct IH as [[? ?]|[-> N]]; [left; split; [by right|done]|right; split; [done|]]);
      intros y Hy [Q1 Q2]; (apply elem_of_cons in Hy as [->|Hy]; [congruence|by apply (N y Hy)]).
Qed.

Lemma find_elem_unique l e x : elements l → x ∈ l → equiv_ord less x e → find_elem less l e = x.
Proof.
  intros [N D _] Hx Eq. destruct (find_elem_cases l e) as [[Hf Ef]|[_ Hn]]; [|by destruct (Hn x)].
  apply D; [done..|]. eapply equiv_ord_trans; [apply hk_order|exact Ef|]. by apply equiv_ord_sym.
Qed.

(** Searching the bucket of [e] is searching the whole table. *)
Lemma find_elem_bucket h e l : placed h → elements (contents h) →
  bucket_lists h !! Z.to_nat (find_bucket hash_fn h e) = Some l →
  find_elem less l e = find_elem less (contents h) e.
Proof.
  intros P El Hl. symmetry. destruct (find_elem_cases l e) as [[Hf Ef]|[-> Hn]].
  - apply find_elem_unique; [done| |done]. apply elem_of_concat. by eexists _, l.
  - destruct (find_elem_cases (contents h) e) as [[Hf Ef]|[? _]]; [exfalso|done].
    pose proof Hf as (i & l' & Hi & Hx)%elem_of_concat. apply (Hn (find_elem less (contents h) e)); [|done].
    pose proof (p_place h P i l' _ Hi Hx) as Ei. unfold find_bucket in *.
    rewrite (hk_compat _ _ Ef) in Ei. rewrite Ei, Hi in Hl. by injection Hl as ->.
Qed.
End Spec.

(** ** Removing *)

Lemma unlink_none e l : e ∉ l → unlink e l = None.
Proof.
  induction l as [|x l IH]; intros He; [done|]. apply not_elem_of_cons in He as [Hne He]. simpl.
  rewrite (proj2 (Z.eqb_neq x e)) by congruence. by rewrite IH.
Qed.

Lemma unlink_in_ok e bs : NoDup (concat bs) → e ∈ concat bs →
  ∃ bs', unlink_in e bs = Some bs' ∧ concat bs' = filter (λ x, x ≠ e) (concat bs) ∧
    length bs' = length bs ∧
    ∀ i l', bs' !! i = Some l' → ∃ l, bs !! i = Some l ∧ ∀ x, x ∈ l' → x ∈ l.
Proof.
  induction bs as [|b bs IH]; intros N He; simpl in *; [by apply elem_of_nil in He|].
  apply NoDup_app in N as (Nb & Hd & Nbs). rewrite filter_app.
  destruct (decide (e ∈ b)) as [Hb|Hb].
  - rewrite unlink_ok by done. eexists. split; [done|]. simpl. split; [|split; [done|]].
    + f_equal. symmetry. apply filter_all_true. intros x Hx ->. by apply (Hd e).
    + intros [|i] l' Hl; [injection Hl as <-|by exists l']. exists b. split; [done|].
      intros x Hx. by apply list_elem_of_filter in Hx as [_ ?].
  - rewrite unlink_none by done. apply elem_of_app in He as [?|He]; [done|].
    destruct (IH Nbs He) as (bs' & -> & Ec & El & Hs). eexists. split; [done|]. simpl.
    split; [|split; [by rewrite El|]].
    + rewrite Ec. f_equal. symmetry. apply filter_all_true. by intros x Hx ->.
    + intros [|i] l' Hl; [injection Hl as <-; by exists b|by apply Hs].
Qed.

Section Ops.
Context (hash_fn : Z → Z) (less : Z → Z → bool) `{!HashKey hash_fn less}.

Lemma elements_perm l l' : l ≡ₚ l' → elements less l → elements less l'.
Proof.
  intros P [N D Z0]. split; [by rewrite <-P| |by rewrite <-P].
  intros x y Hx Hy. rewrite <-P in Hx, Hy. by apply D.
Qed.

Lemma elements_filter (Q : Z → Prop) `{∀ x, Decision (Q x)} l :
  elements less l → elements less (filter Q l).
Proof.
  intros [N D Z0]. split; [by apply NoDup_filter| |].
  - intros x y [_ ?]%list_elem_of_filter [_ ?]%list_elem_of_filter. by apply D.
  - intros [_ ?]%list_elem_of_filter. done.
Qed.

Lemma equiv_ord_refl x : equiv_ord less x x.
Proof.
  assert (less x x = false) as E; [|by split].
  destruct (less x x) eqn:E; [|done]. pose proof hk_order. by rewrite (swo_asym x x) in E.
Qed.

Lemma elements_cons x l : elements less l → x ≠ NULL → (∀ y, y ∈ l → ¬ equiv_ord less y x) →
  elements less (x :: l).
Proof.
  intros [N D Z0] Hx Hn. split.
  - constructor; [|done]. intros Hin. by apply (Hn x Hin), equiv_ord_refl.
  - intros y z Hy Hz Eq. apply elem_of_cons in Hy as [->|Hy], Hz as [->|Hz]; [done| | |by apply D].
    + destruct (Hn z Hz). by apply equiv_ord_sym.
    + by destruct (Hn y Hy).
  - apply not_elem_of_cons. done.
Qed.

(** The element equal to [e] removed, or no element equal to it. *)
Lemma others_filter e l : elements less l → find_elem less l e ≠ NULL →
  filter (λ x, x ≠ find_elem less l e) l = others less e l.
Proof.
  intros El Hf. destruct (find_elem_cases less l e) as [[Hin Eq]|[? _]]; [|done].
  unfold others. assert (∀ x, x ∈ l → x ≠ find_elem less l e ↔ ¬ equiv_ord less x e) as K.
  { intros x Hx. split.
    - intros Hne Q. by rewrite (find_elem_unique hash_fn less l e x) in Hne.
    - intros Q ->. done. }
  clear -K. revert K. generalize (find_elem less l e) as f. induction l as [|x l IH]; intros f K; [done|].
  rewrite !filter_cons. rewrite (IH f) by (intros y Hy; apply K; by right).
  destruct (decide (x ≠ f)) as [Q|Q], (decide (¬ equiv_ord less x e)) as [Q'|Q']; try done;
    rewrite (K x ltac:(left)) in Q; done.
Qed.

Lemma others_none e l : find_elem less l e = NULL → elements less l → others less e l = l.
Proof.
  intros Hf El. apply filter_all_true. intros x Hx Q.
  rewrite (find_elem_unique hash_fn less l e x) in Hf by done. subst x. by apply (e_null _ _ El).
Qed.

Lemma remove_elem_ok h e : placed hash_fn h → NoDup (contents h) → e ∈ contents h →
  ∃ h', remove_elem h e = Some h' ∧ placed hash_fn h' ∧
    contents h' = filter (λ x, x ≠ e) (contents h) ∧
    elem_cnt h' = u32 (elem_cnt h - 1) ∧ bucket_cnt h' = bucket_cnt h ∧ buckets h' = buckets h.
Proof.
  intros P N He. destruct (unlink_in_ok e (bucket_lists h) N He) as (bs & E & Ec & El & Hs).
  unfold remove_elem. rewrite E. cbn [mbind option_bind]. eexists. split; [done|].
  split; [|done]. split; simpl.
  - rewrite El. apply P.
  - apply P.
  - intros i l' x Hl Hx. destruct (Hs i l' Hl) as (l & Hl' & Hsub).
    change (find_bucket hash_fn _ x) with (find_bucket hash_fn h x).
    apply (p_place hash_fn h P i l); [done|by apply Hsub].
Qed.

(** ** [rehash] *)

Record hash_ok (F : list (Z * Z)) (hp : heap) (h : hash) : Prop := {
  h_heap : heap_ok F hp;
  h_table : table hash_fn less h;
  h_block : ∃ n, list_sz * bucket_cnt h ≤ n ∧ live hp (buckets h) n;
}.

(** The blocks other than the buckets', and their bytes, are kept. *)
Definition kept (hp : heap) (h : hash) (hp' : heap) (h' : hash) : Prop :=
  (∀ q m, live hp' q m ∧ q ≠ buckets h' ↔ live hp q m ∧ q ≠ buckets h) ∧
  (∀ q m x, live hp q m → q ≠ buckets h → q ≤ x < q + m →
     mem (pages hp') x = mem (pages hp) x).

Lemma kept_refl hp h h' : buckets h' = buckets h → kept hp h hp h'.
Proof. intros E. split; [|done]. intros q m. by rewrite E. Qed.

Lemma rehash_ok F hp h : hash_ok F hp h → elem_cnt h < 2 ^ 28 →
  ∃ hp' h', rehash hash_fn hp h = Some (hp', h') ∧ hash_ok F hp' h' ∧
    contents h' ≡ₚ contents h ∧ kept hp h hp' h'.
Proof.
  intros H Hc. pose proof H as [W (P & El & Hn) (n & Hsz & Lb)].
  destruct (bucket_cnt_ok (elem_cnt h)) as (k & Hk & Ek & _); [lia|].
  unfold rehash, BEST_ELEMS_PER_BUCKET. rewrite Ek. cbn [mbind option_bind].
  assert (0 < 2 ^ k) as H0 by (apply Z.pow_pos_nonneg; lia).
  assert (2 ^ k ≤ 2 ^ 27) by (apply Z.pow_le_mono_r; lia).
  destruct (Z.eqb_spec (2 ^ k) (bucket_cnt h)) as [Eq|Hne].
  { exists hp, h. split; [done|]. split; [done|]. split; [done|]. by apply kept_refl. }
  unfold list_sz in *. rewrite u32_small by (unfold is_u32; lia).
  destruct (malloc_ok F hp (16 * 2 ^ k) W) as (hp1 & p & -> & [(-> & -> & _)|(m & Hm & A)]); [lia..| |];
    cbn [mbind option_bind].
  { exists hp, h. split; [done|]. split; [done|]. split; [done|]. by apply kept_refl. }
  destruct (allocated_nonnull F hp hp1 p m A) as [Lp ->].
  destruct (empty_placed hash_fn (elem_cnt h) k p (2 ^ k) Hk eq_refl) as [P0 C0].
  rewrite move_buckets_concat.
  destruct (move_elems_ok hash_fn (contents h) _ P0) as (h' & E' & P' & C' & Ee & Eb & Ea).
  unfold contents in E'. rewrite E'. cbn [mbind option_bind]. rewrite C0, app_nil_r in C'.
  assert (live hp1 (buckets h) n) as Lb1 by (apply A; by left).
  destruct (free_ok F hp1 (buckets h) n (alloc_ok _ _ _ _ _ A) Lb1) as (hp2 & -> & [W2 Lv Mm]).
  cbn [mbind option_bind]. simpl in Ea, Eb, Ee.
  assert (p ≠ buckets h) as Hp by (intros ->; by apply (alloc_new _ _ _ _ _ A n)).
  exists hp2, h'. split; [done|]. split; [split; [done|split; [done|split]|]|split; [done|split]].
  - by eapply elements_perm.
  - rewrite Ee, Hn. by rewrite C'.
  - exists m. rewrite Eb, Ea. split; [done|]. apply Lv. done.
  - intros q c. rewrite Lv, (alloc_live _ _ _ _ _ A), Ea. split.
    + intros [[[?|[-> _]] ?] ?]; done.
    + intros [Lq Hq]. split; [by split; [left|]|]. intros ->. by apply (alloc_new _ _ _ _ _ A c).
  - intros q c x Lq Hq Hx. rewrite (Mm q c) by (done || (apply A; by left)).
    by rewrite (alloc_mem _ _ _ _ _ A).
Qed.

(** ** Operations *)

Lemma insert_elem_ok h e : placed hash_fn h → elem_cnt h = Z.of_nat (length (contents h)) →
  elem_cnt h < 2 ^ 28 →
  ∃ h', insert_elem h (find_bucket hash_fn h e) e = Some h' ∧ placed hash_fn h' ∧
    contents h' ≡ₚ e :: contents h ∧ elem_cnt h' = Z.of_nat (length (contents h')) ∧
    bucket_cnt h' = bucket_cnt h ∧ buckets h' = buckets h.
Proof.
  intros P Hn Hc. unfold insert_elem. rewrite u32_small by (unfold is_u32; lia).
  set (h1 := h <| elem_cnt := elem_cnt h + 1 |>).
  assert (placed hash_fn h1) as P1 by (destruct P; by split).
  destruct (push_front_ok hash_fn h1 e P1) as (h' & E & P' & C' & E' & B' & A').
  exists h'. split; [exact E|]. split; [done|]. split; [done|]. split; [|done].
  rewrite E', C'. simpl. change (contents h1) with (contents h). lia.
Qed.

(** A step between two states of the table in the same buckets. *)
Lemma rehash_after F hp h h1 : hash_ok F hp h → placed hash_fn h1 → elements less (contents h1) →
  elem_cnt h1 = Z.of_nat (length (contents h1)) → elem_cnt h1 < 2 ^ 28 →
  bucket_cnt h1 = bucket_cnt h → buckets h1 = buckets h →
  ∃ hp' h', rehash hash_fn hp h1 = Some (hp', h') ∧ hash_ok F hp' h' ∧
    contents h' ≡ₚ contents h1 ∧ kept hp h hp' h'.
Proof.
  intros [W _ (n & Hs & Lb)] P El Hn Hc Eb Ea. destruct (rehash_ok F hp h1) as (hp' & h' & E & H & C & K).
  - split; [done|by split|]. exists n. by rewrite Eb, Ea.
  - done.
  - exists hp', h'. split; [done|]. split; [done|]. split; [done|]. unfold kept in *. by rewrite Ea in K.
Qed.

Lemma hash_find_ok h e : table hash_fn less h →
  hash_find hash_fn less h e = Some (find_elem less (contents h) e).
Proof.
  intros (P & El & _). unfold hash_find. destruct (find_bucket_range hash_fn h e P) as (_ & l & Hl).
  rewrite Hl. cbn [mbind option_bind]. f_equal. by apply (find_elem_bucket hash_fn less).
Qed.

Lemma hash_insert_ok F hp h e : hash_ok F hp h → elem_cnt h + 1 < 2 ^ 28 → e ≠ NULL →
  let old := find_elem less (contents h) e in
  ∃ hp' h', hash_insert hash_fn less hp h e = Some (hp', h', old) ∧ hash_ok F hp' h' ∧
    kept hp h hp' h' ∧
    contents h' ≡ₚ if old =? NULL then e :: contents h else contents h.
Proof.
  intros H Hc He old. pose proof H as [_ (P & El & Hn) _].
  destruct (find_bucket_range hash_fn h e P) as (_ & l & Hl). unfold hash_insert.
  rewrite Hl. cbn [mbind option_bind]. rewrite (find_elem_bucket hash_fn less h e l) by done.
  fold old. destruct (Z.eqb_spec old NULL) as [Eo|Eo].
  - destruct (insert_elem_ok h e P Hn ltac:(lia)) as (h1 & -> & P1 & C1 & N1 & B1 & A1).
    cbn [mbind option_bind]. assert (elements less (contents h1)) as El1.
    { eapply elements_perm; [by symmetry|]. apply elements_cons; [done..|].
      destruct (find_elem_cases less (contents h) e) as [[Hin _]|[_ ?]]; [|done].
      fold old in Hin. rewrite Eo in Hin. by destruct (e_null _ _ El). }
    destruct (rehash_after F hp h h1) as (hp' & h' & -> & H' & C' & K'); [done..| |done|done|].
    { rewrite N1, C1. simpl. lia. }
    cbn [mbind option_bind]. exists hp', h'. split; [done|]. split; [done|]. split; [done|].
    by rewrite C', C1.
  - cbn [mbind option_bind].
    destruct (rehash_after F hp h h) as (hp' & h' & -> & H' & C' & K'); [done..|lia|done|done|].
    cbn [mbind option_bind]. by exists hp', h'.
Qed.

(** Removing the element equal to [e]. *)
Lemma remove_found h e : table hash_fn less h → find_elem less (contents h) e ≠ NULL →
  elem_cnt h < 2 ^ 28 →
  ∃ h1, remove_elem h (find_elem less (contents h) e) = Some h1 ∧ placed hash_fn h1 ∧
    contents h1 = others less e (contents h) ∧ elements less (contents h1) ∧
    elem_cnt h1 = Z.of_nat (length (contents h1)) ∧ elem_cnt h1 ≤ elem_cnt h - 1 ∧
    bucket_cnt h1 = bucket_cnt h ∧ buckets h1 = buckets h.
Proof.
  intros (P & El & Hn) Hf Hc. set (x := find_elem less (contents h) e) in *.
  assert (x ∈ contents h) as Hx by (by destruct (find_elem_cases less (contents h) e) as [[? _]|[? _]]).
  destruct (remove_elem_ok h x P (e_nodup _ _ El) Hx) as (h1 & -> & P1 & C1 & N1 & B1 & A1).
  assert (contents h ≡ₚ x :: contents h1) as Pm.
  { rewrite C1. apply list_elem_of_split in Hx as (l1 & l2 & E). pose proof (e_nodup _ _ El) as N.
    rewrite E in N |- *. rewrite <-Permutation_middle in N |- *. apply NoDup_cons in N as [Nx _].
    f_equiv. rewrite filter_cons, decide_False by naive_solver.
    rewrite filter_all_true; [done|]. by intros y Hy ->. }
  apply Permutation_length in Pm. simpl in Pm.
  assert (elem_cnt h1 = Z.of_nat (length (contents h1))) as N1'
    by (rewrite N1, u32_small by (unfold is_u32; lia); lia).
  exists h1. split; [done|]. split; [done|]. rewrite <-others_filter by done. split; [exact C1|].
  split; [rewrite C1; by apply elements_filter|]. split; [done|]. split; [lia|done].
Qed.

Lemma hash_replace_ok F hp h e : hash_ok F hp h → elem_cnt h + 1 < 2 ^ 28 → e ≠ NULL →
  let old := find_elem less (contents h) e in
  ∃ hp' h', hash_replace hash_fn less hp h e = Some (hp', h', old) ∧ hash_ok F hp' h' ∧
    kept hp h hp' h' ∧ contents h' ≡ₚ e :: others less e (contents h).
Proof.
  intros H Hc He old. pose proof H as [_ (P & El & Hn) _].
  destruct (find_bucket_range hash_fn h e P) as (_ & l & Hl). unfold hash_replace.
  rewrite Hl. cbn [mbind option_bind]. rewrite (find_elem_bucket hash_fn less h e l) by done. fold old.
  assert (∃ h1, (if negb (old =? NULL) then remove_elem h old else Some h) = Some h1 ∧
    placed hash_fn h1 ∧ contents h1 = others less e (contents h) ∧ elements less (contents h1) ∧
    elem_cnt h1 = Z.of_nat (length (contents h1)) ∧ elem_cnt h1 ≤ elem_cnt h ∧
    bucket_cnt h1 = bucket_cnt h ∧ buckets h1 = buckets h)
    as (h1 & -> & P1 & C1 & El1 & N1 & Le & B1 & A1).
  { destruct (Z.eqb_spec old NULL) as [Eo|Eo]; simpl.
    - exists h. rewrite others_none by done. split_and!; done || lia.
    - destruct (remove_found h e) as (h1 & ? & ? & ? & ? & ? & ? & ? & ?); [done|done|lia|].
      exists h1. split_and!; done || lia. }
  cbn [mbind option_bind].
  assert (find_bucket hash_fn h e = find_bucket hash_fn h1 e) as -> by (unfold find_bucket; by rewrite B1).
  destruct (insert_elem_ok h1 e P1 N1 ltac:(lia)) as (h2 & -> & P2 & C2 & N2 & B2 & A2).
  cbn [mbind option_bind]. assert (elements less (contents h2)) as El2.
  { eapply elements_perm; [by symmetry|]. apply elements_cons; [done..|].
    rewrite C1. intros y [? _]%list_elem_of_filter. done. }
  destruct (rehash_after F hp h h2) as (hp' & h' & -> & H' & C' & K');
    [done..| |congruence|congruence|].
  { rewrite N2, C2. simpl. lia. }
  cbn [mbind option_bind]. exists hp', h'. split; [done|]. split; [done|]. split; [done|].
  by rewrite C', C2, C1.
Qed.

Lemma hash_delete_ok F hp h e : hash_ok F hp h → elem_cnt h < 2 ^ 28 →
  let old := find_elem less (contents h) e in
  ∃ hp' h', hash_delete hash_fn less hp h e = Some (hp', h', old) ∧ hash_ok F hp' h' ∧
    kept hp h hp' h' ∧ contents h' ≡ₚ others less e (contents h).
Proof.
  intros H Hc old. pose proof H as [_ (P & El & Hn) _].
  destruct (find_bucket_range hash_fn h e P) as (_ & l & Hl). unfold hash_delete.
  rewrite Hl. cbn [mbind option_bind]. rewrite (find_elem_bucket hash_fn less h e l) by done. fold old.
  destruct (Z.eqb_spec old NULL) as [Eo|Eo]; simpl.
  - exists hp, h. rewrite others_none by done. split; [done|]. split; [done|]. split; [by apply kept_refl|done].
  - destruct (remove_found h e) as (h1 & E1 & P1 & C1 & El1 & N1 & Le & B1 & A1); [done|done|lia|].
    fold old in E1. rewrite E1. cbn [mbind option_bind].
    destruct (rehash_after F hp h h1) as (hp' & h' & -> & H' & C' & K'); [done..|lia|done|done|].
    cbn [mbind option_bind]. exists hp', h'. split; [done|]. split; [done|]. split; [done|].
    by rewrite C', C1.
Qed.
End Ops.

(** ** Traversals *)

Lemma concat_drop (bs : list (list Z)) i l : bs !! i = Some l →
  concat (drop i bs) = l ++ concat (drop (S i) bs).
Proof. intros Hi. by rewrite (drop_S bs l i). Qed.

Lemma apply_buckets_ok {A} n i (action : A → Z → A) h s : (i + n = length (bucket_lists h))%nat →
  apply_buckets n i action h s = Some (foldl action s (concat (drop i (bucket_lists h)))).
Proof.
  revert i s. induction n as [|n IH]; intros i s Hn; simpl.
  - by rewrite drop_ge by lia.
  - destruct (lookup_lt_is_Some_2 (bucket_lists h) i) as [l Hl]; [lia|]. rewrite Hl.
    cbn [mbind option_bind]. rewrite IH by lia. by rewrite (concat_drop _ _ _ Hl), foldl_app.
Qed.

Lemma insert_replicate_nil (bs : list (list Z)) i l : bs !! i = Some l →
  take i bs = replicate i [] → take (S i) (<[i := []]> bs) = replicate (S i) [].
Proof.
  intros Hl Ht. pose proof (lookup_lt_Some _ _ _ Hl) as Hi.
  rewrite (take_S_r _ _ []) by (by apply list_lookup_insert_eq).
  rewrite take_insert_ge, Ht by lia. by rewrite <-replicate_cons_app.
Qed.

Lemma clear_buckets_ok {A} n i (destructor : option (A → Z → A)) s h :
  (i + n = length (bucket_lists h))%nat → take i (bucket_lists h) = replicate i [] →
  clear_buckets n i destructor s h =
    Some (match destructor with
          | Some f => foldl f s (concat (drop i (bucket_lists h)))
          | None => s
          end, h <| bucket_lists := replicate (i + n) [] |>).
Proof.
  revert i s h. induction n as [|n IH]; intros i s h Hn Ht; simpl.
  - rewrite drop_ge by lia. rewrite Nat.add_0_r, <-Ht, take_ge by lia.
    destruct h, destructor; done.
  - destruct (lookup_lt_is_Some_2 (bucket_lists h) i) as [l Hl]; [lia|]. rewrite Hl.
    cbn [mbind option_bind]. rewrite IH; simpl.
    + do 2 f_equal; [|by rewrite Nat.add_succ_r]. destruct destructor as [f|]; [|done].
      rewrite drop_insert_lt by lia. by rewrite (concat_drop _ _ _ Hl), foldl_app.
    + rewrite length_insert. lia.
    + by eapply insert_replicate_nil.
Qed.

Lemma hash_clear_ok {A} h (destructor : option (A → Z → A)) s :
  bucket_cnt h = Z.of_nat (length (bucket_lists h)) →
  hash_clear h destructor s =
    Some (match destructor with Some f => foldl f s (contents h) | None => s end,
          mk_hash 0 (bucket_cnt h) (buckets h) (replicate (Z.to_nat (bucket_cnt h)) [])).
Proof.
  intros Hc. unfold hash_clear. rewrite clear_buckets_ok by (done || lia).
  cbn [mbind option_bind]. by rewrite drop_0.
Qed.

(** The elements that an iterator still has to visit. *)
Fixpoint iterate (n : nat) (h : hash) (i : hash_iterator) : option (list Z) :=
  match n with
  | O => None
  | S n =>
      i ← hash_next h i;
      match hash_cur i with
      | At e => (e ::.) <$> iterate n h i
      | _ => Some []
      end
  end.

(** The iterator [i] stands before the elements [r] of its bucket. *)
Definition stands (h : hash) (i : hash_iterator) (r : list Z) : Prop :=
  ∃ pre l, bucket_lists h !! it_bucket i = Some l ∧ l = pre ++ r ∧
    match it_elem i with
    | Head => pre = []
    | At e => ∃ pre', pre = pre' ++ [e] ∧ e ∉ pre'
    | Null => False
    end.

Lemma next_in_ok e pre r : e ∉ pre → next_in e (pre ++ e :: r) = Some (head r).
Proof.
  induction pre as [|x pre IH]; intros He; simpl; [by rewrite Z.eqb_refl|].
  apply not_elem_of_cons in He as [Hne He]. rewrite (proj2 (Z.eqb_neq x e)) by congruence. by apply IH.
Qed.

Lemma next_bucket_ok h n b pre r : bucket_cnt h = Z.of_nat (length (bucket_lists h)) →
  NoDup (contents h) → bucket_lists h !! b = Some (pre ++ r) → (length (bucket_lists h) ≤ n + b)%nat →
  match r ++ concat (drop (S b) (bucket_lists h)) with
  | [] => ∃ b', next_bucket n b (head r) h = Some (mk_iterator b' Null)
  | e :: rest => ∃ b' r', next_bucket n b (head r) h = Some (mk_iterator b' (At e)) ∧
      stands h (mk_iterator b' (At e)) r' ∧ rest = r' ++ concat (drop (S b') (bucket_lists h))
  end.
Proof.
  intros Hc N. revert b pre r. induction n as [|n IH]; intros b pre r Hb Hn.
  { apply lookup_lt_Some in Hb. lia. }
  destruct r as [|e r]; simpl app.
  - simpl next_bucket. apply lookup_lt_Some in Hb. destruct (Z.leb_spec (bucket_cnt h) (Z.of_nat (S b))).
    + rewrite drop_ge by lia. simpl. by exists (S b).
    + destruct (lookup_lt_is_Some_2 (bucket_lists h) (S b)) as [l Hl]; [lia|]. rewrite Hl.
      cbn [mbind option_bind]. rewrite (concat_drop _ _ _ Hl). apply (IH (S b) []); [done|lia].
  - exists b, r. split; [done|]. split; [|done]. exists (pre ++ [e]), (pre ++ e :: r).
    split; [done|]. split; [by rewrite <-(assoc_L (++))|]. exists pre. split; [done|].
    intros He. assert (NoDup (pre ++ e :: r)) as Nb.
    { apply list_elem_of_lookup_2, list_elem_of_split in Hb as (l1 & l2 & E). unfold contents in N.
      rewrite E, concat_app in N. simpl in N. apply NoDup_app in N as (_ & _ & N).
      by apply NoDup_app in N as [N _]. }
    apply NoDup_app in Nb as (_ & Nb & _). apply (Nb e He). left.
Qed.

Lemma iterate_ok h n i r : bucket_cnt h = Z.of_nat (length (bucket_lists h)) →
  NoDup (contents h) → stands h i r →
  (length (r ++ concat (drop (S (it_bucket i)) (bucket_lists h))) < n)%nat →
  iterate n h i = Some (r ++ concat (drop (S (it_bucket i)) (bucket_lists h))).
Proof.
  intros Hc N. revert i r. induction n as [|n IH]; intros i r (pre & l & Hl & -> & Hp) Hn; [lia|].
  assert (hash_next h i = next_bucket (S (length (bucket_lists h))) (it_bucket i) (head r) h) as E.
  { unfold hash_next. rewrite Hl. cbn [mbind option_bind]. destruct (it_elem i) as [|e|]; [by subst| |done].
    destruct Hp as (pre' & -> & He). rewrite <-(assoc_L (++)). simpl app. by rewrite next_in_ok. }
  simpl iterate. rewrite E.
  pose proof (next_bucket_ok h (S (length (bucket_lists h))) (it_bucket i) pre r Hc N Hl ltac:(lia)) as K.
  destruct (r ++ concat _) as [|e rest] eqn:Er.
  - destruct K as (b' & ->). done.
  - destruct K as (b' & r' & -> & St & ->). cbn [mbind option_bind hash_cur it_elem].
    pose proof (IH _ r' St) as IH'. simpl it_bucket in IH'. simpl in Hn. rewrite IH' by lia. done.
Qed.

Section Claims.
Context (hash_fn : Z → Z) (less : Z → Z → bool) `{!HashKey hash_fn less}.

(** A table without elements. *)
Lemma empty_table c k b : 2 ≤ k < 27 → c = 0 →
  table hash_fn less (mk_hash c (2 ^ k) b (replicate (Z.to_nat (2 ^ k)) [])) ∧
  contents (mk_hash c (2 ^ k) b (replicate (Z.to_nat (2 ^ k)) [])) = [].
Proof.
  intros Hk ->. destruct (empty_placed hash_fn 0 k b (2 ^ k) Hk eq_refl) as [P C].
  split; [|done]. split; [done|]. rewrite C. split; [|done].
  split; [constructor| |apply not_elem_of_nil]. intros x y Hx. by apply elem_of_nil in Hx.
Qed.

Lemma hash_init_ok {A} F hp junk (s : A) : heap_ok F hp → length junk = 4%nat →
  ∃ hp' h b, hash_init hp junk s = Some (hp', h, b) ∧
    if b : bool then
      hash_ok hash_fn less F hp' h ∧ contents h = [] ∧
      (∀ q m, live hp' q m ∧ q ≠ buckets h ↔ live hp q m)
    else hp' = hp.
Proof.
  intros W Hj. unfold hash_init. change (u32 (list_sz * 4)) with 64.
  destruct (malloc_ok F hp 64 W) as (hp1 & p & -> & [(-> & -> & _)|(m & Hm & A')]); [lia..| |];
    cbn [mbind option_bind]; [by eexists _, _, _|].
  destruct (allocated_nonnull F hp hp1 p m A') as [Lp ->]. cbn [negb].
  rewrite hash_clear_ok by (simpl; lia). cbn [mbind option_bind].
  destruct (empty_table 0 2 p ltac:(lia) eq_refl) as [T C].
  eexists hp1, _, true. split; [done|]. split; [split; [apply A'|exact T|]|split; [exact C|]].
  - exists m. split; [|exact Lp]. simpl. unfold list_sz. lia.
  - intros q c. simpl. rewrite (alloc_live _ _ _ _ _ A'). split.
    + intros [[?|[-> _]] ?]; done.
    + intros Lq. split; [by left|]. intros ->. by apply (alloc_new _ _ _ _ _ A' c).
Qed.

(** C22: A hash table is a set of elements of which no two are equal: each
    operation returns what a search of all elements returns; [hash_insert] adds
    the new element unless there is an equal one, [hash_replace] adds it in any
    case and removes the equal one, [hash_delete] removes the equal one, and
    nothing else changes, whatever the number of buckets, and whether the
    allocation of new buckets succeeds or fails.  The table keeps its one block
    of the allocator, and the bytes of all other blocks are unchanged. *)
Theorem hash_table_refines F hp h e : hash_ok hash_fn less F hp h → elem_cnt h + 1 < 2 ^ 28 → e ≠ NULL →
  let old := find_elem less (contents h) e in
  hash_find hash_fn less h e = Some old ∧
  (∃ hp' h', hash_insert hash_fn less hp h e = Some (hp', h', old) ∧
     hash_ok hash_fn less F hp' h' ∧ kept hp h hp' h' ∧
     contents h' ≡ₚ if old =? NULL then e :: contents h else contents h) ∧
  (∃ hp' h', hash_replace hash_fn less hp h e = Some (hp', h', old) ∧
     hash_ok hash_fn less F hp' h' ∧ kept hp h hp' h' ∧
     contents h' ≡ₚ e :: others less e (contents h)) ∧
  (∃ hp' h', hash_delete hash_fn less hp h e = Some (hp', h', old) ∧
     hash_ok hash_fn less F hp' h' ∧ kept hp h hp' h' ∧
     contents h' ≡ₚ others less e (contents h)).
Proof.
  intros H Hc He old. split; [by apply hash_find_ok, H|].
  split; [by apply hash_insert_ok|]. split; [by apply hash_replace_ok|].
  apply hash_delete_ok; [done|done|lia].
Qed.

(** Every traversal visits each element exactly once, in the same order:
    [hash_apply], the iterator from [hash_first] to the null element, and the
    destructor calls of [hash_clear] and [hash_destroy].  [hash_clear] leaves an
    empty table, [hash_destroy] frees its block and no other. *)
Theorem hash_visits_all {A} F hp h (f : A → Z → A) s : hash_ok hash_fn less F hp h →
  hash_apply h f s = Some (foldl f s (contents h)) ∧
  iterate (S (length (contents h))) h hash_first = Some (contents h) ∧
  (∃ h', hash_clear h (Some f) s = Some (foldl f s (contents h), h') ∧
     hash_ok hash_fn less F hp h' ∧ contents h' = []) ∧
  (∃ hp', hash_destroy hp h (Some f) s = Some (hp', foldl f s (contents h)) ∧ heap_ok F hp' ∧
     ∀ q m, live hp' q m ↔ live hp q m ∧ q ≠ buckets h).
Proof.
  intros [W (P & El & Hn) (n & Hs & Lb)]. pose proof (p_cnt _ _ P) as Pc.
  destruct (p_pow _ _ P) as (k & Hk & Ek).
  assert (0 < 2 ^ k) as H0 by (apply Z.pow_pos_nonneg; lia).
  destruct (lookup_lt_is_Some_2 (bucket_lists h) 0) as [l Hl]; [lia|].
  assert (contents h = l ++ concat (drop 1 (bucket_lists h))) as Ec
    by (unfold contents; rewrite <-(concat_drop _ _ _ Hl); by rewrite drop_0).
  destruct (empty_table 0 k (buckets h) Hk eq_refl) as [T C].
  pose proof (hash_clear_ok h (Some f) s Pc) as Ecl. rewrite Ek in Ecl.
  split; [|split; [|split]].
  - unfold hash_apply. by rewrite apply_buckets_ok by lia.
  - rewrite Ec at 2. apply (iterate_ok h (S (length (contents h))) hash_first l Pc (e_nodup _ _ El)).
    + by exists [], l.
    + simpl it_bucket. rewrite <-Ec. lia.
  - eexists. split; [exact Ecl|]. split; [split; [done|exact T|]|exact C].
    exists n. simpl. by rewrite Ek in Hs.
  - unfold hash_destroy. rewrite Ecl. cbn [mbind option_bind buckets].
    destruct (free_ok F hp (buckets h) n W Lb) as (hp' & -> & [W' Lv _]). cbn [mbind option_bind].
    by exists hp'.
Qed.
End Claims.

(** ** Hash functions *)

(** The hash of a sequence of bytes. *)
Definition fnv (h : Z) (bs : list Z) : Z :=
  foldl (λ h c, Z.lxor (u32 (h * FNV_32_PRIME)) c) h bs.

Lemma hash_bytes_loop_ok m p bs h : CString.block m p bs →
  hash_bytes_loop (length bs) m p h = Some (fnv h bs).
Proof.
  revert p h. induction bs as [|b bs IH]; intros p h B; [done|]. simpl.
  apply block_cons in B as [-> B]. cbn [mbind option_bind]. by rewrite IH.
Qed.

Lemma hash_string_loop_ok n m p s h : cstring m p s → (length s < n)%nat →
  hash_string_loop n m p h = Some (fnv h s).
Proof.
  revert n p h. induction s as [|c s IH]; intros [|n] p h C Hn; simpl in *; [lia| |lia|].
  - apply cstring_nil in C as ->. done.
  - apply cstring_cons in C as (-> & Hc & C). cbn [mbind option_bind].
    rewrite (proj2 (Z.eqb_neq c 0)) by lia. simpl. apply IH; [done|lia].
Qed.

(** [hash_string] is the hash of the string's bytes, as [hash_bytes]. *)
Lemma hash_string_ok m p s : p ≠ NULL → cstring m p s →
  hash_string m p = Some (fnv FNV_32_BASIS s) ∧
  hash_bytes m p (Z.of_nat (length s)) = hash_string m p.
Proof.
  intros Hp C. pose proof (cstring_fuel m p s C) as Hf.
  unfold hash_string, hash_bytes. rewrite (proj2 (Z.eqb_neq p NULL)) by done.
  cbn [negb ASSERT mbind option_bind]. rewrite (hash_string_loop_ok _ m p s) by done.
  split; [done|]. rewrite Nat2Z.id. apply hash_bytes_loop_ok.
  destruct C as [B _]. by apply block_app in B as [B _].
Qed.

(** ** Examples *)

(** Elements with the tens as their key. *)
Definition ex_hash (x : Z) : Z := u32 (x / 10).
Definition ex_less (x y : Z) : bool := x / 10 <? y / 10.

#[export] Instance ex_key : HashKey ex_hash ex_less.
Proof.
  split; [split|..]; unfold equiv_ord, ex_less, ex_hash.
  - intros x y H. bool_simp. apply Z.ltb_ge. lia.
  - intros x y z H1 H2. bool_simp. apply Z.ltb_ge. lia.
  - intros x y [H1 H2]. bool_simp. f_equal. lia.
  - intros x. apply u32_range.
Qed.

Lemma example_table : ∃ hp h, hash_init example_heap [[]; []; []; []] () = Some (hp, h, true) ∧
  hash_ok ex_hash ex_less [] hp h ∧ contents h = [].
Proof.
  destruct (hash_init_ok ex_hash ex_less [] example_heap [[]; []; []; []] () example_ok eq_refl)
    as (hp & h & b & E & K).
  assert (snd <$> hash_init example_heap [[]; []; []; []] () = Some true) as Eb
    by (vm_compute; reflexivity).
  rewrite E in Eb. injection Eb as ->. destruct K as (H & C & _). exists hp, h.
  split; [exact E|]. split; [exact H|exact C].
Qed.

Lemma hash_table_refines_witness :
  ∃ hp h hp' h', hash_init example_heap [[]; []; []; []] () = Some (hp, h, true) ∧
    hash_insert ex_hash ex_less hp h 21 = Some (hp', h', NULL) ∧ contents h' ≡ₚ [21].
Proof.
  destruct example_table as (hp & h & E & H & C).
  destruct (hash_table_refines ex_hash ex_less [] hp h 21 H) as (_ & (hp' & h' & Ei & _ & _ & C') & _).
  - destruct (h_table _ _ _ _ _ H) as (_ & _ & ->). rewrite C. simpl. lia.
  - discriminate.
  - rewrite C in Ei, C'. exists hp, h, hp', h'. split; [exact E|]. split; [exact Ei|exact C'].
Defined.

Lemma example_table_1 : ∃ hp h, hash_ok ex_hash ex_less [] hp h ∧ contents h = [21].
Proof.
  destruct example_table as (hp & h & E & H & C).
  destruct (hash_insert_ok ex_hash ex_less [] hp h 21 H) as (hp' & h' & _ & H' & _ & C').
  - destruct (h_table _ _ _ _ _ H) as (_ & _ & ->). rewrite C. simpl. lia.
  - discriminate.
  - exists hp', h'. split; [exact H'|]. rewrite C in C'. by apply Permutation_singleton_r in C'.
Qed.

Lemma hash_visits_all_witness :
  ∃ hp h, hash_ok ex_hash ex_less [] hp h ∧ hash_apply h (λ s e, s + e) 0 = Some 21.
Proof.
  destruct example_table_1 as (hp & h & H & C).
  destruct (hash_visits_all ex_hash ex_less [] hp h (λ s e, s + e) 0 H) as (Ap & _).
  rewrite C in Ap. exists hp, h. split; [exact H|exact Ap].
Defined.
