(* ===== verification/StdlibC.v ===== *)
(** * Sorting, searching and numbers ([lib/stdlib.c], [lib/ctype.h])

    An array of [cnt] elements of [size] bytes is the sequence of its elements,
    which [do_swap] exchanges byte by byte and [compare] is given by address;
    an access outside the array is [None].  Indexes are 1-based words, as in the
    code.  The client's comparison is a parameter, for which [Strcmp] states
    what the comments ask of it; [compare_thunk] is the call of the function
    behind [aux].  [atoi] reads the memory of [CString]. *)

From S2P Require Import Prelude Machine FixedPoint CString.

Open Scope Z_scope.

Definition isdigit (c : Z) : bool := (48 <=? c) && (c <=? 57).
Definition isspace (c : Z) : bool :=
  (c =? 32) || (c =? 12) || (c =? 10) || (c =? 13) || (c =? 9) || (c =? 11).

(** The loops of [atoi]: white space, and digits. *)
Fixpoint skip_space (n : nat) (m : memory) (s : Z) : option Z :=
  match n with
  | O => None
  | S n => c ← m !! s; if isspace c then skip_space n m (s + 1) else Some s
  end.

Fixpoint parse_digits (n : nat) (m : memory) (s value : Z) : option Z :=
  match n with
  | O => None
  | S n =>
      c ← m !! s;
      if isdigit c then parse_digits n m (s + 1) (int32 (value * 10 - (c - 48))) else Some value
  end.

Definition atoi (m : memory) (s : Z) : option Z :=
  assert! negb (s =? NULL);
  s ← skip_space (fuel m) m s;
  c ← m !! s;
  let '(negative, s) :=
    if c =? 43 then (false, s + 1) else if c =? 45 then (true, s + 1) else (false, s) in
  value ← parse_digits (fuel m) m s 0;
  Some (if negb negative then int32 (- value) else value).

Section Sort.
Context {A : Type} (compare : A → A → Z).

Definition do_swap (array : list A) (a_idx b_idx : Z) : option (list A) :=
  a ← array !! Z.to_nat (a_idx - 1);
  b ← array !! Z.to_nat (b_idx - 1);
  Some (<[Z.to_nat (b_idx - 1) := a]> (<[Z.to_nat (a_idx - 1) := b]> array)).

Definition do_compare (array : list A) (a_idx b_idx : Z) : option Z :=
  a ← array !! Z.to_nat (a_idx - 1);
  b ← array !! Z.to_nat (b_idx - 1);
  Some (compare a b).

(** [idx <= cnt && do_compare (array, idx, max, ...) > 0], the larger one. *)
Definition larger (array : list A) (cnt idx max : Z) : option Z :=
  if idx <=? cnt then
    c ← do_compare array idx max;
    Some (if 0 <? c then idx else max)
  else Some max.

Fixpoint heapify (n : nat) (array : list A) (i cnt : Z) : option (list A) :=
  match n with
  | O => None
  | S n =>
      let left := u32 (2 * i) in
      let right := u32 (2 * i + 1) in
      max ← larger array cnt left i;
      max ← larger array cnt right max;
      if max =? i then Some array
      else
        array ← do_swap array i max;
        heapify n array max cnt
  end.

(** The loops of [sort]: [for (i = n; i > 0; i--)] and
    [for (i = n + 1; i > 1; i--)]. *)
Fixpoint build_heap (n : nat) (array : list A) (cnt : Z) : option (list A) :=
  match n with
  | O => Some array
  | S n' =>
      array ← heapify (S (Z.to_nat cnt)) array (Z.of_nat n) cnt;
      build_heap n' array cnt
  end.

Fixpoint sort_heap (n : nat) (array : list A) : option (list A) :=
  match n with
  | O => Some array
  | S n' =>
      let i := Z.of_nat (S n) in
      array ← do_swap array 1 i;
      array ← heapify (S n) array 1 (i - 1);
      sort_heap n' array
  end.

Definition sort (addr : Z) (array : list A) (cnt size : Z) : option (list A) :=
  assert! negb (addr =? NULL) || (cnt =? 0);
  assert! 0 <? size;
  array ← build_heap (Z.to_nat (cnt / 2)) array cnt;
  sort_heap (Z.to_nat (cnt - 1)) array.

Definition qsort (addr : Z) (array : list A) (cnt size : Z) : option (list A) :=
  sort addr array cnt size.

(** The loop of [binary_search] on the array of address [addr]; [size_t]
    division traps when [size] is 0. *)
Fixpoint search_loop (n : nat) (key : A) (addr : Z) (array : list A) (size first last : Z) : option Z :=
  match n with
  | O => None
  | S n =>
      if first <? last then
        if size =? 0 then None
        else
          let range := (last - first) / size in
          let middle := u32 (first + range / 2 * size) in
          x ← array !! Z.to_nat ((middle - addr) / size);
          let cmp := compare key x in
          if cmp <? 0 then search_loop n key addr array size first middle
          else if 0 <? cmp then search_loop n key addr array size (u32 (middle + size)) last
          else Some middle
      else Some NULL
  end.

Definition binary_search (key : A) (addr : Z) (array : list A) (cnt size : Z) : option Z :=
  search_loop (S (Z.to_nat cnt)) key addr array size addr (u32 (addr + size * cnt)).

Definition bsearch (key : A) (addr : Z) (array : list A) (cnt size : Z) : option Z :=
  binary_search key addr array cnt size.

End Sort.

(** ** Specification *)

(** A [strcmp]-type comparison. *)
Class Strcmp {A} (compare : A → A → Z) : Prop := {
  cmp_flip : ∀ x y, 0 < compare x y ↔ compare y x < 0;
  cmp_trans : ∀ x y z, compare x y ≤ 0 → compare y z ≤ 0 → compare x z ≤ 0;
}.

Section SortSpec.
Context {A : Type} (compare : A → A → Z) `{!Strcmp compare}.
Implicit Types xs : list A.

Definition le (x y : A) : Prop := compare x y ≤ 0.

(** The element with the 1-based index [j]. *)
Definition at_ xs (j : Z) : option A := xs !! Z.to_nat (j - 1).

(** [c] is a child of the node [j] of a heap of [n] nodes. *)
Definition child (n j c : Z) : Prop := (c = 2 * j ∨ c = 2 * j + 1) ∧ c ≤ n.

(** The nodes from [k] on dominate their children; all but the node [i] do,
    and its parent dominates its children. *)
Definition heap_from xs (k n : Z) : Prop := ∀ j c x y,
  k ≤ j → child n j c → at_ xs j = Some x → at_ xs c = Some y → le y x.
Definition heap_except xs (k i n : Z) : Prop :=
  (∀ j c x y, k ≤ j → j ≠ i → child n j c → at_ xs j = Some x → at_ xs c = Some y → le y x) ∧
  (∀ j c x y, k ≤ j → child n j i → child n i c → at_ xs j = Some x → at_ xs c = Some y → le y x).

Lemma le_total x y : 0 < compare x y → le y x.
Proof. rewrite cmp_flip. unfold le. lia. Qed.

Lemma le_refl x : le x x.
Proof. unfold le. destruct (cmp_flip x x). lia. Qed.

Lemma le_trans x y z : le x y → le y z → le x z.
Proof. apply cmp_trans. Qed.

(** ** Swaps *)

Lemma at_some xs j n : 1 ≤ j ≤ n → n ≤ Z.of_nat (length xs) → is_Some (at_ xs j).
Proof. intros Hj Hn. apply lookup_lt_is_Some_2. lia. Qed.

Lemma do_swap_ok xs i m : 1 ≤ i → 1 ≤ m → i ≤ Z.of_nat (length xs) → m ≤ Z.of_nat (length xs) →
  ∃ xs', do_swap xs i m = Some xs' ∧ xs' ≡ₚ xs ∧ length xs' = length xs ∧
    at_ xs' i = at_ xs m ∧ at_ xs' m = at_ xs i ∧
    ∀ j, 1 ≤ j → j ≠ i → j ≠ m → at_ xs' j = at_ xs j.
Proof.
  intros Hi Hm Li Lm. destruct (at_some xs i (Z.of_nat (length xs))) as [a Ea]; [lia..|].
  destruct (at_some xs m (Z.of_nat (length xs))) as [b Eb]; [lia..|].
  unfold do_swap. unfold at_ in *. rewrite Ea. cbn [mbind option_bind]. rewrite Eb.
  cbn [mbind option_bind]. eexists. split; [done|]. split; [by apply list_swap_perm|].
  split; [by rewrite !length_insert|]. split; [|split].
  - destruct (decide (i = m)) as [->|Hne].
    + rewrite list_lookup_insert_eq by (rewrite length_insert; lia). by rewrite Ea in Eb.
    + rewrite list_lookup_insert_ne by lia. by rewrite list_lookup_insert_eq by lia.
  - by rewrite list_lookup_insert_eq by (rewrite length_insert; lia).
  - intros j Hj H1 H2. rewrite !list_lookup_insert_ne by lia. done.
Qed.

(** ** [heapify] *)

(** The index that [larger] chooses. *)
Lemma larger_ok xs n idx mx : 1 ≤ idx → 1 ≤ mx ≤ n → n ≤ Z.of_nat (length xs) →
  ∃ r, larger compare xs n idx mx = Some r ∧ (r = mx ∨ (r = idx ∧ idx ≤ n)) ∧
    ∀ x, at_ xs r = Some x →
      (∀ y, at_ xs mx = Some y → le y x) ∧
      (∀ y, idx ≤ n → at_ xs idx = Some y → le y x).
Proof.
  intros Hi Hm Hn. unfold larger, do_compare. destruct (Z.leb_spec idx n).
  - destruct (at_some xs idx n) as [a Ea]; [lia..|]. destruct (at_some xs mx n) as [b Eb]; [lia..|].
    pose proof Ea as Ea'. pose proof Eb as Eb'. unfold at_ in Ea', Eb'.
    rewrite Ea'. cbn [mbind option_bind]. rewrite Eb'. cbn [mbind option_bind].
    destruct (Z.ltb_spec 0 (compare a b)) as [C|C]; eexists; (split; [done|]);
      (split; [auto|]); intros x Ex; simplify_eq; (split; intros; simplify_eq);
      auto using le_refl, le_total.
  - eexists. split; [done|]. split; [by left|]. intros x Ex. simplify_eq.
    split; [intros y Ey; simplify_eq; apply le_refl|lia].
Qed.

Lemma max_child xs n i : 1 ≤ i ≤ n → n < 2 ^ 31 → n ≤ Z.of_nat (length xs) →
  ∃ m, (m ← larger compare xs n (u32 (2 * i)) i; larger compare xs n (u32 (2 * i + 1)) m) = Some m ∧
    (m = i ∨ child n i m) ∧
    ∀ x, at_ xs m = Some x →
      (∀ y, at_ xs i = Some y → le y x) ∧
      (∀ c y, child n i c → at_ xs c = Some y → le y x).
Proof.
  intros Hi Hn Hl. rewrite !u32_small by (unfold is_u32; lia).
  destruct (larger_ok xs n (2 * i) i) as (m1 & -> & H1 & L1); [lia..|]. cbn [mbind option_bind].
  destruct (larger_ok xs n (2 * i + 1) m1) as (m2 & -> & H2 & L2); [lia..|].
  exists m2. split; [done|]. split; [unfold child; lia|]. intros x Ex.
  destruct (L2 x Ex) as [M1 M2]. destruct (at_some xs m1 n) as [z Ez]; [lia..|].
  destruct (L1 z Ez) as [N1 N2]. pose proof (M1 z Ez) as Hz. split.
  - intros y Ey. eapply le_trans; [by apply N1|done].
  - intros c y [[->| ->] Hc] Ey; [|by apply M2]. eapply le_trans; [by apply N2|done].
Qed.

(** Exchanging a node with its largest child moves the exception down. *)
Lemma swap_except xs xs' k i m n : 1 ≤ k ≤ i → n ≤ Z.of_nat (length xs) →
  heap_except xs k i n → child n i m →
  (∀ x, at_ xs m = Some x → (∀ y, at_ xs i = Some y → le y x) ∧
     ∀ c y, child n i c → at_ xs c = Some y → le y x) →
  at_ xs' i = at_ xs m → at_ xs' m = at_ xs i →
  (∀ j, 1 ≤ j → j ≠ i → j ≠ m → at_ xs' j = at_ xs j) →
  heap_except xs' k m n.
Proof.
  intros Hk Hl [E1 E2] Cm Mx Ei Em Eo.
  destruct (at_some xs m n) as [v Ev]; [unfold child in Cm; lia..|].
  destruct (Mx v Ev) as [M1 M2]. split.
  - intros j c x y Hj Hjm Cj Ex Ey. destruct (decide (j = i)) as [->|Hji].
    + rewrite Ei, Ev in Ex. injection Ex as <-. destruct (decide (c = m)) as [->|Hcm].
      * rewrite Em in Ey. by apply M1.
      * rewrite Eo in Ey by (unfold child in *; lia). by apply (M2 c).
    + rewrite Eo in Ex by lia. destruct (decide (c = i)) as [->|Hci].
      * rewrite Ei in Ey. by apply (E2 j m).
      * rewrite Eo in Ey by (unfold child in *; lia). by apply (E1 j c).
  - intros j c x y Hj Cj Cc Ex Ey. assert (j = i) as -> by (unfold child in *; lia).
    rewrite Ei in Ex. rewrite Eo in Ey by (unfold child in *; lia).
    apply (E1 m c); [unfold child in *; lia..|done|done|done].
Qed.

Lemma heapify_ok n' xs k i n : 1 ≤ k ≤ i → i ≤ n → n < 2 ^ 31 → n ≤ Z.of_nat (length xs) →
  heap_except xs k i n → n - i < Z.of_nat n' →
  ∃ xs', heapify compare n' xs i n = Some xs' ∧ heap_from xs' k n ∧ xs' ≡ₚ xs ∧
    ∀ j, n < j → at_ xs' j = at_ xs j.
Proof.
  revert xs i. induction n' as [|n' IH]; intros xs i Hk Hi Hn Hl E Hf; [lia|].
  destruct (max_child xs n i) as (m & Em & Hm & Mx); [lia..|].
  simpl heapify. destruct (larger compare xs n (u32 (2 * i)) i) as [m1|]; [|done].
  cbn [mbind option_bind] in *. rewrite Em. cbn [mbind option_bind].
  destruct (Z.eqb_spec m i) as [->|Hne].
  - exists xs. split; [done|]. split; [|done]. intros j c x y Hj Cj Ex Ey.
    destruct (decide (j = i)) as [->|]; [by apply (Mx x Ex) in Ey|by apply (proj1 E j c)].
  - destruct Hm as [?|Cm]; [done|].
    destruct (do_swap_ok xs i m) as (xs1 & -> & P & L & Ei & Em' & Eo); [unfold child in Cm; lia..|].
    cbn [mbind option_bind]. pose proof (swap_except xs xs1 k i m n Hk Hl E Cm Mx Ei Em' Eo) as E1.
    destruct (IH xs1 m) as (xs2 & -> & H2 & P2 & O2); [unfold child in Cm; lia..|done|unfold child in Cm; lia|].
    exists xs2. split; [done|]. split; [done|]. split; [by rewrite P2|].
    intros j Hj. rewrite O2 by done. apply Eo; unfold child in Cm; lia.
Qed.

(** ** [sort] *)

Lemma build_heap_ok k xs n : Z.of_nat k ≤ n / 2 → n < 2 ^ 31 → n = Z.of_nat (length xs) →
  heap_from xs (Z.of_nat k + 1) n →
  ∃ xs', build_heap compare k xs n = Some xs' ∧ heap_from xs' 1 n ∧ xs' ≡ₚ xs.
Proof.
  revert xs. induction k as [|k IH]; intros xs Hk Hn Hl Hh; cbn [build_heap].
  - exists xs. split; [done|]. split; [|done]. intros j c x y Hj. apply Hh. lia.
  - destruct (heapify_ok (S (Z.to_nat n)) xs (Z.of_nat (S k)) (Z.of_nat (S k)) n)
      as (xs1 & -> & H1 & P1 & _); [Z.to_euclidean_division_equations; lia..| |lia|].
    + split.
      * intros j c x y Hj Hne. apply Hh. lia.
      * intros j c x y Hj Cj. unfold child in Cj. lia.
    + cbn [mbind option_bind]. pose proof (Permutation_length P1).
      destruct (IH xs1) as (xs2 & -> & H2 & P2); [lia|lia|lia| |].
      * by replace (Z.of_nat k + 1) with (Z.of_nat (S k)) by lia.
      * exists xs2. split; [done|]. split; [done|]. by rewrite P2.
Qed.

(** The root of a heap is its largest element. *)
Lemma heap_root xs n x : n ≤ Z.of_nat (length xs) → heap_from xs 1 n → at_ xs 1 = Some x →
  ∀ y, y ∈ take (Z.to_nat n) xs → le y x.
Proof.
  intros Hl Hh Ex y (i & Ei)%list_elem_of_lookup. apply lookup_take_Some in Ei as [Ei Hi].
  assert (∀ j, 1 ≤ j ≤ n → ∀ y, at_ xs j = Some y → le y x) as K.
  { intros j Hj. revert Hj. induction j as [j IH] using (well_founded_induction (Z.lt_wf 0)).
    intros Hj z Ez. destruct (decide (j = 1)) as [->|]; [simplify_eq; apply le_refl|].
    destruct (at_some xs (j / 2) n) as [w Ew]; [Z.to_euclidean_division_equations; lia|done|].
    apply le_trans with w; [|apply (IH (j / 2)); [Z.to_euclidean_division_equations; lia..|done]].
    apply (Hh (j / 2) j); [Z.to_euclidean_division_equations; lia| |done|done].
    split; [Z.to_euclidean_division_equations; lia|lia]. }
  apply (K (Z.of_nat i + 1)); [lia|]. unfold at_. by replace (Z.to_nat _) with i by lia.
Qed.

(** Arrays that agree after the first [n] elements, which one permutes. *)
Lemma take_perm xs xs' n : xs' ≡ₚ xs → 0 ≤ n → (∀ j, n < j → at_ xs' j = at_ xs j) →
  drop (Z.to_nat n) xs' = drop (Z.to_nat n) xs ∧ take (Z.to_nat n) xs' ≡ₚ take (Z.to_nat n) xs.
Proof.
  intros P Hn E. assert (drop (Z.to_nat n) xs' = drop (Z.to_nat n) xs) as D.
  { apply list_eq. intros i. rewrite !lookup_drop. specialize (E (n + Z.of_nat i + 1) ltac:(lia)).
    unfold at_ in E. by replace (Z.to_nat (n + Z.of_nat i + 1 - 1)) with (Z.to_nat n + i)%nat in E by lia. }
  split; [done|]. apply (Permutation_app_inv_r (drop (Z.to_nat n) xs)).
  rewrite <-D at 1. by rewrite !take_drop.
Qed.

(** The first [n] elements are a heap; the others are sorted and not less. *)
Record part_sorted xs (n : Z) : Prop := {
  ps_heap : heap_from xs 1 n;
  ps_sorted : StronglySorted le (drop (Z.to_nat n) xs);
  ps_le : ∀ x y, x ∈ take (Z.to_nat n) xs → y ∈ drop (Z.to_nat n) xs → le x y;
}.

(** One iteration of the second loop. *)
Lemma sort_step xs n : 1 ≤ n → n + 1 < 2 ^ 31 → n + 1 ≤ Z.of_nat (length xs) → part_sorted xs (n + 1) →
  ∃ xs', (do_swap xs 1 (n + 1) ≫= λ xs, heapify compare (S (Z.to_nat n)) xs 1 n) = Some xs' ∧
    part_sorted xs' n ∧ xs' ≡ₚ xs.
Proof.
  intros Hn Hs Hl [Hh So Le]. destruct (at_some xs 1 (n + 1)) as [r Er]; [lia..|].
  destruct (do_swap_ok xs 1 (n + 1)) as (xs1 & -> & P1 & L1 & E1 & Ei & Eo); [lia..|].
  cbn [mbind option_bind].
  destruct (heapify_ok (S (Z.to_nat n)) xs1 1 1 n) as (xs2 & -> & H2 & P2 & O2); [lia..| |lia|].
  { split; [|intros j c x y Hj Cj; unfold child in Cj; lia].
    intros j c x y Hj Hne [Cj Cn] Ex Ey. rewrite Eo in Ex, Ey by lia.
    apply (Hh j c); [lia|split; lia|done|done]. }
  exists xs2. split; [done|]. pose proof (heap_root xs (n + 1) r Hl Hh Er) as Root.
  destruct (take_perm xs1 xs2 n P2) as [D2 T2]; [lia|done|].
  destruct (take_perm xs xs1 (n + 1) P1) as [D1 T1]; [lia|intros; apply Eo; lia|].
  assert (drop (Z.to_nat n) xs2 = r :: drop (Z.to_nat (n + 1)) xs) as D.
  { rewrite D2, (drop_S xs1 r).
    - f_equal. by rewrite <-D1; replace (Z.to_nat (n + 1)) with (S (Z.to_nat n)) by lia.
    - unfold at_ in *. replace (Z.to_nat n) with (Z.to_nat (n + 1 - 1)) by lia. by rewrite Ei. }
  assert (∀ x, x ∈ take (Z.to_nat n) xs2 → x ∈ take (Z.to_nat (n + 1)) xs) as T.
  { intros x. rewrite T2, <-T1. intros (i & E)%list_elem_of_lookup.
    apply lookup_take_Some in E as [E ?].
    apply (list_elem_of_lookup_2 _ i), lookup_take_Some. split; [done|lia]. }
  assert (r ∈ take (Z.to_nat (n + 1)) xs) as Rt.
  { apply (list_elem_of_lookup_2 _ 0), lookup_take_Some. split; [exact Er|lia]. }
  split; [split|by rewrite P2]; [done|..]; rewrite ?D.
  - constructor; [done|]. apply Forall_forall. intros y. by apply Le.
  - intros x y Hx [->|Hy]%elem_of_cons; [by apply Root, T|by apply Le; [apply T|]].
Qed.

Lemma sort_heap_ok n xs : Z.of_nat (S n) < 2 ^ 31 →
  (n ≠ 0 → S n ≤ length xs)%nat → part_sorted xs (Z.of_nat (S n)) →
  ∃ xs', sort_heap compare n xs = Some xs' ∧ StronglySorted le xs' ∧ xs' ≡ₚ xs.
Proof.
  revert xs. induction n as [|n IH]; intros xs Hn Hl Ps; cbn [sort_heap].
  - exists xs. split; [done|]. split; [|done]. destruct Ps as [_ So Le]. destruct xs as [|x xs]; [constructor|].
    change (Z.to_nat (Z.of_nat 1)) with 1%nat in *. simpl in *. rewrite drop_0 in *. constructor; [done|].
    apply Forall_forall. intros y. apply Le. left.
  - destruct (sort_step xs (Z.of_nat (S n))) as (xs1 & E & Ps1 & P1); [lia..| |].
    { by replace (Z.of_nat (S n) + 1) with (Z.of_nat (S (S n))) by lia. }
    replace (Z.of_nat (S n) + 1) with (Z.of_nat (S (S n))) in E by lia. rewrite Nat2Z.id in E.
    replace (Z.of_nat (S (S n)) - 1) with (Z.of_nat (S n)) by lia.
    destruct (do_swap xs 1 (Z.of_nat (S (S n)))) as [ys|]; [|done]. cbn [mbind option_bind] in *.
    rewrite E. cbn [mbind option_bind]. pose proof (Permutation_length P1).
    destruct (IH xs1) as (xs2 & -> & S2 & P2); [lia|lia|done|].
    exists xs2. split; [done|]. split; [done|]. by rewrite P2.
Qed.

Lemma sort_ok addr xs size : addr ≠ NULL → 0 < size → Z.of_nat (length xs) < 2 ^ 31 →
  ∃ xs', sort compare addr xs (Z.of_nat (length xs)) size = Some xs' ∧
    StronglySorted le xs' ∧ xs' ≡ₚ xs.
Proof.
  intros Ha Hs Hl. unfold sort. rewrite (proj2 (Z.eqb_neq addr NULL)) by done.
  rewrite (proj2 (Z.ltb_lt 0 size)) by done. cbn [negb orb ASSERT mbind option_bind].
  set (n := Z.of_nat (length xs)) in *.
  destruct (build_heap_ok (Z.to_nat (n / 2)) xs n) as (xs1 & -> & H1 & P1);
    [Z.to_euclidean_division_equations; lia|done|done| |].
  { intros j c x y Hj [Cj Cn]. Z.to_euclidean_division_equations; lia. }
  cbn [mbind option_bind]. pose proof (Permutation_length P1) as L1.
  destruct (sort_heap_ok (Z.to_nat (n - 1)) xs1) as (xs2 & -> & S2 & P2); [lia|lia| |].
  - set (m := Z.of_nat (S (Z.to_nat (n - 1)))). assert (n ≤ m) by lia.
    assert (drop (Z.to_nat m) xs1 = []) as D by (apply drop_ge; lia). split.
    + intros j c x y Hj [Cj Cn] Ex Ey. pose proof (lookup_lt_Some _ _ _ Ey).
      apply (H1 j c); [done|split; [done|lia]|done|done].
    + rewrite D. constructor.
    + intros x y _. rewrite D. intros Hy. by apply elem_of_nil in Hy.
  - exists xs2. split; [done|]. split; [done|]. by rewrite P2.
Qed.

(** ** [binary_search] *)

(** The elements from index [lo] to before index [hi] are those that can be
    equal to the key. *)
Definition candidates (key : A) xs (lo hi : Z) : Prop := ∀ i x,
  xs !! i = Some x → compare key x = 0 → lo ≤ Z.of_nat i < hi.

Lemma sorted_lookup xs i j x y : StronglySorted le xs → xs !! i = Some x → xs !! j = Some y →
  (i ≤ j)%nat → le x y.
Proof.
  intros So. revert i j. induction So as [|z xs So IH Fa]; intros [|i] [|j] Hi Hj Hle; simpl in *;
    simplify_eq; try lia.
  - apply le_refl.
  - rewrite Forall_forall in Fa. apply Fa. by eapply list_elem_of_lookup_2.
  - eapply IH; [done..|lia].
Qed.

(** An element equal to the key is not before one that is less than the key,
    and not after one that is greater. *)
Lemma cmp_eq key x y : compare key x = 0 →
  (le x y → ¬ 0 < compare key y) ∧ (le y x → ¬ compare key y < 0).
Proof.
  intros E. assert (le key x) as L1 by (unfold le; lia).
  assert (le x key) as L2 by (unfold le; destruct (cmp_flip x key); lia). split; intros Hl Hk.
  - pose proof (le_trans key x y L1 Hl) as K. unfold le in K. lia.
  - pose proof (le_trans y x key Hl L2) as K. apply cmp_flip in Hk. unfold le in K. lia.
Qed.

Lemma search_loop_ok n key addr xs size lo hi : StronglySorted le xs → 0 < addr → 0 < size →
  addr + size * Z.of_nat (length xs) < 2 ^ 32 → 0 ≤ lo ≤ hi → hi ≤ Z.of_nat (length xs) →
  hi - lo < Z.of_nat n → candidates key xs lo hi →
  ∃ r, search_loop compare n key addr xs size (addr + size * lo) (addr + size * hi) = Some r ∧
    if r =? NULL then ∀ x, x ∈ xs → compare key x ≠ 0
    else ∃ i x, r = addr + size * Z.of_nat i ∧ xs !! i = Some x ∧ compare key x = 0.
Proof.
  intros So Ha Hs Hf. revert lo hi. induction n as [|n IH]; intros lo hi Hlo Hhi Hn Hc.
  { lia. }
  simpl search_loop. destruct (Z.ltb_spec (addr + size * lo) (addr + size * hi)) as [Lt|Ge].
  - assert (lo < hi) by nia. rewrite (proj2 (Z.eqb_neq size 0)) by lia.
    replace (addr + size * hi - (addr + size * lo)) with ((hi - lo) * size) by lia.
    rewrite Z.div_mul by lia. set (mid := lo + (hi - lo) / 2).
    assert (lo ≤ mid < hi) by (unfold mid; Z.to_euclidean_division_equations; lia).
    replace (addr + size * lo + (hi - lo) / 2 * size) with (addr + size * mid) by (unfold mid; lia).
    rewrite u32_small by (unfold is_u32; nia).
    replace (addr + size * mid - addr) with (mid * size) by lia. rewrite Z.div_mul by lia.
    destruct (lookup_lt_is_Some_2 xs (Z.to_nat mid)) as [x Hx]; [lia|]. rewrite Hx.
    cbn [mbind option_bind]. destruct (Z.ltb_spec (compare key x) 0) as [C|C].
    + apply IH; [lia|lia|lia|]. intros i y Hy Ey. pose proof (Hc i y Hy Ey). split; [lia|].
      apply Z.nle_gt. intros Hle. apply (proj2 (cmp_eq key y x Ey)); [|done].
      by apply (sorted_lookup xs (Z.to_nat mid) i); [..|lia].
    + destruct (Z.ltb_spec 0 (compare key x)) as [C'|C'].
      * replace (addr + size * mid + size) with (addr + size * (mid + 1)) by lia.
        rewrite u32_small by (unfold is_u32; nia). apply IH; [lia|lia|lia|].
        intros i y Hy Ey. pose proof (Hc i y Hy Ey). split; [|lia].
        apply Z.nlt_ge. intros Hlt. apply (proj1 (cmp_eq key y x Ey)); [|done].
        by apply (sorted_lookup xs i (Z.to_nat mid)); [..|lia].
      * exists (addr + size * mid). split; [done|]. rewrite (proj2 (Z.eqb_neq _ NULL)) by (unfold NULL; nia).
        exists (Z.to_nat mid), x. split; [lia|]. split; [done|lia].
  - exists NULL. split; [done|]. simpl. intros x (i & Hi)%list_elem_of_lookup E.
    pose proof (Hc i x Hi E). nia.
Qed.

(** C33: [sort] returns, and leaves the elements of the array in order, for
    every array of less than [2 ^ 31] elements and every comparison of the
    [strcmp] kind; [binary_search] on the sorted array finds the address of an
    element equal to the key if there is one, and null otherwise. *)
Theorem sort_search_correct addr xs size key : 0 < addr → 0 < size →
  Z.of_nat (length xs) < 2 ^ 31 → addr + size * Z.of_nat (length xs) < 2 ^ 32 →
  ∃ ys r, sort compare addr xs (Z.of_nat (length xs)) size = Some ys ∧
    StronglySorted le ys ∧ ys ≡ₚ xs ∧
    binary_search compare key addr ys (Z.of_nat (length ys)) size = Some r ∧
    if r =? NULL then ∀ x, x ∈ xs → compare key x ≠ 0
    else ∃ i x, r = addr + size * Z.of_nat i ∧ ys !! i = Some x ∧ compare key x = 0.
Proof.
  intros Ha Hs Hl Hf. destruct (sort_ok addr xs size) as (ys & E & So & P); [unfold NULL; lia|lia|lia|].
  pose proof (Permutation_length P) as L.
  destruct (search_loop_ok (S (length ys)) key addr ys size 0 (Z.of_nat (length ys)))
    as (r & Er & K); [done|done|done|rewrite L; lia|lia|lia|lia| |].
  { intros i x Hi _. apply lookup_lt_Some in Hi. lia. }
  exists ys, r. split; [done|]. split; [done|]. split; [done|]. split.
  - unfold binary_search. rewrite u32_small by (unfold is_u32; rewrite L; nia).
    rewrite Nat2Z.id. by replace (addr + size * 0) with addr in Er by lia.
  - destruct (r =? NULL); [|done]. intros x Hx. apply K. by rewrite P.
Qed.
End SortSpec.

#[export] Instance sub_strcmp : Strcmp Z.sub.
Proof. split; intros; lia. Qed.

Lemma sort_search_correct_witness :
  ∃ ys, sort Z.sub 4096 [3; 1; 2; 9; 4; 9; 0] 7 4 = Some ys ∧ StronglySorted (le Z.sub) ys ∧
    binary_search Z.sub 4 4096 ys 7 4 = Some 4112.
Proof.
  destruct (sort_search_correct Z.sub 4096 [3; 1; 2; 9; 4; 9; 0] 4 4) as (ys & r & E & So & _);
    [simpl; lia..|].
  exists ys. split; [exact E|]. split; [exact So|].
  vm_compute in E. injection E as <-. vm_compute. reflexivity.
Defined.

(** ** [atoi] *)

(** The number that the digits [ds] are, negated. *)
Definition digits_value (ds : list Z) : Z := foldl (λ v c, v * 10 - (c - 48)) 0 ds.

Lemma int32_step v c : int32 (int32 v * 10 - c) = int32 (v * 10 - c).
Proof. unfold int32. Z.to_euclidean_division_equations; lia. Qed.

Lemma skip_space_ok n m p sp s : cstring m p (sp ++ s) → Forall (λ c, isspace c = true) sp →
  (∀ c, head (s ++ [0]) = Some c → isspace c = false) → (length sp < n)%nat →
  skip_space n m p = Some (p + Z.of_nat (length sp)).
Proof.
  revert n p. induction sp as [|c sp IH]; intros [|n] p C Fs Hh Hn; simpl in *; [lia| |lia|].
  - destruct s as [|c s]; simpl in Hh.
    + apply cstring_nil in C as ->. cbn [mbind option_bind]. rewrite Hh by done. f_equal. lia.
    + apply cstring_cons in C as (-> & _). cbn [mbind option_bind]. rewrite Hh by done. f_equal. lia.
  - apply cstring_cons in C as (-> & _ & C). apply Forall_cons in Fs as [Fc Fs].
    cbn [mbind option_bind]. rewrite Fc, (IH n (p + 1)) by (done || lia). f_equal. lia.
Qed.

Lemma parse_digits_ok n m p ds s v : cstring m p (ds ++ s) → Forall (λ c, isdigit c = true) ds →
  (∀ c, head (s ++ [0]) = Some c → isdigit c = false) → (length ds < n)%nat →
  parse_digits n m p (int32 v) = Some (int32 (foldl (λ v c, v * 10 - (c - 48)) v ds)).
Proof.
  revert n p v. induction ds as [|c ds IH]; intros [|n] p v C Fs Hh Hn; simpl in *; [lia| |lia|].
  - destruct s as [|c s]; simpl in Hh.
    + apply cstring_nil in C as ->. cbn [mbind option_bind]. by rewrite Hh.
    + apply cstring_cons in C as (-> & _). cbn [mbind option_bind]. by rewrite Hh.
  - apply cstring_cons in C as (-> & _ & C). apply Forall_cons in Fs as [Fc Fs].
    cbn [mbind option_bind]. rewrite Fc, int32_step. apply IH; [done|done|done|lia].
Qed.

(** Digits are neither white space nor signs. *)
Lemma isdigit_other c : isdigit c = true → isspace c = false ∧ (c =? 43) = false ∧ (c =? 45) = false.
Proof.
  unfold isdigit, isspace. intros H. bool_simp.
  rewrite !(proj2 (Z.eqb_neq c _)) by lia. done.
Qed.

(** [atoi] of white space, an optional sign and digits, followed by anything
    that is not a digit, is the number that the digits are, as a 32-bit integer;
    the smallest one, whose negation does not fit, included. *)
Theorem atoi_ok m p sp sg d ds s : p ≠ NULL → cstring m p (sp ++ sg ++ (d :: ds) ++ s) →
  Forall (λ c, isspace c = true) sp → sg = [] ∨ sg = [43] ∨ sg = [45] →
  Forall (λ c, isdigit c = true) (d :: ds) →
  (∀ c, head (s ++ [0]) = Some c → isdigit c = false) →
  atoi m p = Some (int32 (if decide (sg = [45]) then digits_value (d :: ds)
                          else - digits_value (d :: ds))).
Proof.
  intros Hp C Fsp Hsg Fd Hs. pose proof (cstring_fuel _ _ _ C) as Hf. rewrite !length_app in Hf.
  unfold atoi. rewrite (proj2 (Z.eqb_neq p NULL)) by done. cbn [negb ASSERT mbind option_bind].
  pose proof (Forall_inv Fd) as Fd0. destruct (isdigit_other d Fd0) as (N1 & N2 & N3).
  rewrite (skip_space_ok _ m p sp (sg ++ (d :: ds) ++ s)); [|done|done| |lia].
  2:{ destruct Hsg as [->|[->| ->]]; simpl; intros c [= <-]; done. }
  cbn [mbind option_bind]. apply cstring_drop in C. set (q := p + Z.of_nat (length sp)) in *.
  assert (∀ v, int32 (- int32 v) = int32 (- v)) as Hneg
    by (intros v; unfold int32; Z.to_euclidean_division_equations; lia).
  assert (∀ q', cstring m q' ((d :: ds) ++ s) →
    parse_digits (fuel m) m q' 0 = Some (int32 (digits_value (d :: ds)))) as K.
  { intros q' C'. change 0 with (int32 0) at 1.
    rewrite (parse_digits_ok _ m q' (d :: ds) s 0 C') by (done || simpl in *; lia). done. }
  destruct Hsg as [->|[->| ->]].
  - rewrite app_nil_l in C. pose proof C as C'. apply cstring_cons in C' as (-> & _).
    cbn [mbind option_bind]. rewrite N2, N3, (K q C). cbn [mbind option_bind negb].
    by rewrite decide_False, Hneg.
  - apply cstring_cons in C as (-> & _ & C). cbn [mbind option_bind]. simpl (43 =? 43). cbn iota.
    rewrite (K _ C). cbn [mbind option_bind negb]. by rewrite decide_False, Hneg.
  - apply cstring_cons in C as (-> & _ & C). cbn [mbind option_bind]. simpl (45 =? 43). cbn iota.
    simpl (45 =? 45). cbn iota. rewrite (K _ C). cbn [mbind option_bind negb].
    by rewrite decide_True.
Qed.
