(* ===== verification/Random.v ===== *)
(** * Random numbers ([lib/random.c])

    The generator's state is the array [s], the indexes [s_i] and [s_j] and the
    flag [inited]; bytes wrap around at 256. *)

From S2P Require Import Prelude Machine.

Open Scope Z_scope.

Definition u8 (x : Z) : Z := x mod 256.

Record rng := mk_rng {
  s_box : list Z;
  s_i : Z;
  s_j : Z;
  inited : bool;
}.
#[export] Instance rng_ctor : Ctor rng := λ r, mk_rng (s_box r) (s_i r) (s_j r) (inited r).

(** Static data starts as zeros. *)
Definition rng_start : rng := mk_rng (replicate 256 0) 0 0 false.

(** [swap_byte (s + a, s + b)]. *)
Definition swap_byte (s : list Z) (a b : Z) : option (list Z) :=
  t ← s !! Z.to_nat a;
  x ← s !! Z.to_nat b;
  Some (<[Z.to_nat b := t]> (<[Z.to_nat a := x]> s)).

(** [seedp[i]], the bytes of the seed in memory. *)
Definition seed_byte (seed i : Z) : Z := u8 (Z.shiftr seed (8 * i)).

(** [for (; i < 256; i++) s[i] = i], [n] iterations. *)
Fixpoint fill_loop (n : nat) (i : Z) (s : list Z) : option (list Z) :=
  match n with
  | O => Some s
  | S n =>
      _ ← s !! Z.to_nat i;
      fill_loop n (i + 1) (<[Z.to_nat i := u8 i]> s)
  end.

(** The loop that mixes the seed in, [n] iterations from [i] on. *)
Fixpoint seed_loop (n : nat) (seed i j : Z) (s : list Z) : option (list Z) :=
  match n with
  | O => Some s
  | S n =>
      x ← s !! Z.to_nat i;
      let j := u8 (j + (x + seed_byte seed (i mod 4))) in
      s ← swap_byte s i j;
      seed_loop n seed (i + 1) j s
  end.

Definition random_init (r : rng) (seed : Z) : option rng :=
  if inited r then Some r
  else
    s ← fill_loop 256 0 (s_box r);
    s ← seed_loop 256 seed 0 0 s;
    Some (mk_rng s 0 0 true).

(** One iteration of [random_bytes]: the new state and the byte. *)
Definition random_byte (r : rng) : option (rng * Z) :=
  let i := u8 (s_i r + 1) in
  x ← s_box r !! Z.to_nat i;
  let j := u8 (s_j r + x) in
  s ← swap_byte (s_box r) i j;
  x ← s !! Z.to_nat i;
  y ← s !! Z.to_nat j;
  let s_k := u8 (x + y) in
  b ← s !! Z.to_nat s_k;
  Some (r <| s_box := s |> <| s_i := i |> <| s_j := j |>, b).

Fixpoint bytes_loop (n : nat) (r : rng) : option (rng * list Z) :=
  match n with
  | O => Some (r, [])
  | S n =>
      '(r, b) ← random_byte r;
      '(r, bs) ← bytes_loop n r;
      Some (r, b :: bs)
  end.

(** The bytes written into the buffer are the second result. *)
Definition random_bytes (r : rng) (size : Z) : option (rng * list Z) :=
  r ← (if negb (inited r) then random_init r 0 else Some r);
  bytes_loop (Z.to_nat size) r.

Definition random_ulong (r : rng) : option (rng * Z) :=
  '(r, bs) ← random_bytes r 4;
  b0 ← bs !! 0%nat; b1 ← bs !! 1%nat; b2 ← bs !! 2%nat; b3 ← bs !! 3%nat;
  Some (r, b0 + 2 ^ 8 * b1 + 2 ^ 16 * b2 + 2 ^ 24 * b3).

(** ** The state is a permutation of the bytes *)

Definition bytes : list Z := seqZ 0 256.

(** Once initialized, the array is a permutation of all byte values, and the
    indexes are bytes. *)
Record rng_ok (r : rng) : Prop := {
  rng_length : length (s_box r) = 256%nat;
  rng_perm : inited r = true → s_box r ≡ₚ bytes;
  rng_i : 0 ≤ s_i r < 256;
  rng_j : 0 ≤ s_j r < 256;
}.

Lemma u8_range x : 0 ≤ u8 x < 256.
Proof. by apply Z.mod_pos_bound. Qed.

Lemma box_lookup (s : list Z) x : length s = 256%nat → 0 ≤ x < 256 → is_Some (s !! Z.to_nat x).
Proof. intros L H. apply lookup_lt_is_Some_2. lia. Qed.

Lemma swap_byte_ok s a b : length s = 256%nat → 0 ≤ a < 256 → 0 ≤ b < 256 →
  ∃ s', swap_byte s a b = Some s' ∧ length s' = 256%nat ∧ s' ≡ₚ s.
Proof.
  intros L Ha Hb. destruct (box_lookup s a L Ha) as [x Ex], (box_lookup s b L Hb) as [y Ey].
  unfold swap_byte. rewrite Ex. cbn [mbind option_bind]. rewrite Ey. cbn [mbind option_bind].
  eexists. split; [done|]. split; [by rewrite !length_insert|].
  by apply list_swap_perm.
Qed.

Lemma fill_loop_ok n i s : length s = 256%nat → 0 ≤ i → i + Z.of_nat n = 256 →
  take (Z.to_nat i) s = seqZ 0 i →
  fill_loop n i s = Some bytes.
Proof.
  revert i s. induction n as [|n IH]; intros i s L Hi Hn T; simpl.
  - assert (i = 256) as -> by lia. rewrite take_ge in T by lia. by rewrite T.
  - destruct (box_lookup s i L) as [x Ex]; [lia|]. rewrite Ex. cbn [mbind option_bind].
    unfold u8. rewrite Z.mod_small by lia.
    apply IH; [by rewrite length_insert|lia|lia|].
    replace (Z.to_nat (i + 1)) with (S (Z.to_nat i)) by lia.
    rewrite (take_S_r _ _ i) by (apply list_lookup_insert_eq; lia).
    rewrite take_insert_ge, T by lia. rewrite seqZ_app by lia. f_equal.
Qed.

Lemma seed_loop_ok n seed i j s : length s = 256%nat → 0 ≤ i → i + Z.of_nat n = 256 →
  ∃ s', seed_loop n seed i j s = Some s' ∧ length s' = 256%nat ∧ s' ≡ₚ s.
Proof.
  revert i j s. induction n as [|n IH]; intros i j s L Hi Hn; simpl; [by exists s|].
  destruct (box_lookup s i L) as [x Ex]; [lia|]. rewrite Ex. cbn [mbind option_bind].
  set (j' := u8 _). destruct (swap_byte_ok s i j' L) as (s1 & -> & L1 & P1); [lia|apply u8_range|].
  cbn [mbind option_bind]. destruct (IH (i + 1) j' s1 L1) as (s2 & -> & L2 & P2); [lia|lia|].
  exists s2. split; [done|]. split; [done|]. by rewrite P2.
Qed.

Lemma random_init_ok r seed : rng_ok r →
  ∃ r', random_init r seed = Some r' ∧ rng_ok r' ∧ inited r' = true ∧ (inited r = true → r' = r).
Proof.
  intros R. pose proof R as [L P Hi Hj]. unfold random_init.
  destruct (inited r) eqn:E; [by exists r|].
  rewrite (fill_loop_ok 256 0 (s_box r)) by done. cbn [mbind option_bind].
  destruct (seed_loop_ok 256 seed 0 0 bytes) as (s & -> & Ls & Ps); [done..|].
  cbn [mbind option_bind]. eexists. split; [done|]. split; [split; simpl; [done|done|lia..]|done].
Qed.

Lemma random_byte_ok r : rng_ok r → inited r = true →
  ∃ r' b, random_byte r = Some (r', b) ∧ rng_ok r' ∧ inited r' = true ∧ 0 ≤ b < 256.
Proof.
  intros [L P Hi Hj] E. unfold random_byte. set (i := u8 (s_i r + 1)).
  pose proof (u8_range (s_i r + 1)) as Ri. fold i in Ri.
  destruct (box_lookup (s_box r) i L Ri) as [x Ex]. rewrite Ex. cbn [mbind option_bind].
  set (j := u8 (s_j r + x)). pose proof (u8_range (s_j r + x)) as Rj. fold j in Rj.
  destruct (swap_byte_ok (s_box r) i j L Ri Rj) as (s & -> & Ls & Ps). cbn [mbind option_bind].
  destruct (box_lookup s i Ls Ri) as [y Ey]. rewrite Ey. cbn [mbind option_bind].
  destruct (box_lookup s j Ls Rj) as [z Ez]. rewrite Ez. cbn [mbind option_bind].
  destruct (box_lookup s (u8 (y + z)) Ls (u8_range _)) as [b Eb]. rewrite Eb. cbn [mbind option_bind].
  eexists _, b. split; [done|]. assert (s ≡ₚ bytes) as Pb by (rewrite Ps; by apply P).
  split; [split; simpl; [done|done|lia|lia]|]. split; [done|].
  apply list_elem_of_lookup_2 in Eb. rewrite Pb in Eb. apply elem_of_seqZ in Eb. lia.
Qed.

(** From the state in which the program starts, with or without a call of
    [random_init], the generator writes as many bytes as it is asked for, and
    keeps its table a permutation.  A second call of [random_init] has no
    effect, although its comment says that it reinitializes the generator. *)
Theorem random_bytes_ok r size : rng_ok r → 0 ≤ size →
  ∃ r' bs, random_bytes r size = Some (r', bs) ∧ rng_ok r' ∧ inited r' = true ∧
    Z.of_nat (length bs) = size ∧ Forall (λ b, 0 ≤ b < 256) bs ∧
    ∀ seed, random_init r' seed = Some r'.
Proof.
  intros R Hs. unfold random_bytes.
  assert (∃ r0, (if negb (inited r) then random_init r 0 else Some r) = Some r0 ∧
    rng_ok r0 ∧ inited r0 = true) as (r0 & -> & R0 & E0).
  { destruct (inited r) eqn:E; simpl; [by exists r|].
    destruct (random_init_ok r 0 R) as (r0 & ? & ? & ? & _). by exists r0. }
  cbn [mbind option_bind].
  assert (∀ n r, rng_ok r → inited r = true → ∃ r' bs, bytes_loop n r = Some (r', bs) ∧
    rng_ok r' ∧ inited r' = true ∧ length bs = n ∧ Forall (λ b, 0 ≤ b < 256) bs) as K.
  { clear. induction n as [|n IH]; intros r R E; simpl; [by exists r, []|].
    destruct (random_byte_ok r R E) as (r1 & b & -> & R1 & E1 & Hb). cbn [mbind option_bind].
    destruct (IH r1 R1 E1) as (r2 & bs & -> & R2 & E2 & L & F). cbn [mbind option_bind].
    exists r2, (b :: bs). split; [done|]. split_and!; [done|done|simpl; by rewrite L|by constructor]. }
  destruct (K (Z.to_nat size) r0 R0 E0) as (r' & bs & -> & R' & E' & L & F).
  exists r', bs. split_and!; [done|done|done|lia|done|].
  intros seed. unfold random_init. by rewrite E'.
Qed.

Lemma rng_start_ok : rng_ok rng_start.
Proof. split; simpl; [done|done|lia..]. Qed.
