(* ===== verification/Stdio.v ===== *)
(** * Formatted output ([lib/stdio.c])

    [__vprintf] and what it is made of, generic in the state [St] that the
    [output] function changes, as the code is in [output] and [aux]; the state
    has the memory in which the format and its strings are.  The variable
    arguments are the 32-bit words on the stack.  [vsnprintf] is the instance
    whose output goes to a buffer of the same memory, [printf_text] the one that
    collects the characters.

    The theorems: the digit buffer of [format_integer] never overflows;
    formatting ends; [vsnprintf] stores as much of the text as fits, and null
    terminates it; what [%d] prints, [atoi] reads back; and a format that ends
    in a percent sign makes [__vprintf] run past its end. *)

From Stdlib Require Import String.
From S2P Require Import Prelude Machine FixedPoint Arith CString StdlibC.

Open Scope Z_scope.

(** The characters of a string literal. *)
Definition lit (s : string) : list Z := (λ b, Z.of_N (Byte.to_N b)) <$> list_byte_of_string s.

(** ** Conversions *)

Definition MINUS : Z := 1.
Definition PLUS : Z := 2.
Definition SPACE : Z := 4.
Definition POUND : Z := 8.
Definition ZERO : Z := 16.
Definition GROUP : Z := 32.

Definition flag (flags f : Z) : bool := negb (Z.land flags f =? 0).

Inductive conv_type := CHAR | SHORT | INT | INTMAX | LONG | LONGLONG | PTRDIFFT | SIZET.

#[export] Instance conv_type_eq_dec : EqDecision conv_type.
Proof. solve_decision. Defined.

Record printf_conversion := mk_conversion {
  flags : Z;
  width : Z;
  precision : Z;
  type : conv_type;
}.
#[export] Instance conversion_ctor : Ctor printf_conversion :=
  λ c, mk_conversion (flags c) (width c) (precision c) (type c).

Record integer_base := mk_base {
  base : Z;
  digits : list Z;
  base_x_char : Z;
  group : Z;
}.

Definition base_d : integer_base := mk_base 10 (lit "0123456789") 0 3.
Definition base_o : integer_base := mk_base 8 (lit "01234567") 0 3.
Definition base_x : integer_base := mk_base 16 (lit "0123456789abcdef") 120 4.
Definition base_X : integer_base := mk_base 16 (lit "0123456789ABCDEF") 88 4.

(** ** [format_integer] *)

(** [*cp++ = ch] in the buffer of 64 characters; [buf] is what it holds. *)
Definition put (buf : list Z) (ch : Z) : option (list Z) :=
  if (length buf <? 64)%nat then Some (buf ++ [ch]) else None.

(** The loop that produces the digits, the last one first. *)
Fixpoint digits_loop (n : nat) (b : integer_base) (fl value digit_cnt : Z) (buf : list Z) :
    option (list Z) :=
  match n with
  | O => None
  | S n =>
      if 0 <? value then
        buf ← (if flag fl GROUP && (0 <? digit_cnt) && (digit_cnt mod group b =? 0)
               then put buf 44 else Some buf);
        d ← digits b !! Z.to_nat (value mod base b);
        buf ← put buf d;
        digits_loop n b fl (value / base b) (digit_cnt + 1) buf
      else Some buf
  end.

(** [while (cp - buf < precision && cp < buf + sizeof buf - 1) *cp++ = '0'],
    at most 64 iterations. *)
Fixpoint zeros_loop (n : nat) (prec : Z) (buf : list Z) : option (list Z) :=
  match n with
  | O => None
  | S n =>
      if (Z.of_nat (length buf) <? prec) && (Z.of_nat (length buf) <? 63) then
        buf ← put buf 48; zeros_loop n prec buf
      else Some buf
  end.

(** [output_dup]: the characters of the [cnt] calls. *)
Definition output_dup (ch cnt : Z) : list Z := replicate (Z.to_nat (u32 cnt)) ch.

(** The sign character, 0 if none. *)
Definition sign_char (is_signed negative : bool) (fl : Z) : Z :=
  if is_signed then
    if flag fl PLUS then (if negative then 45 else 43)
    else if flag fl SPACE then (if negative then 45 else 32)
    else if negative then 45 else 0
  else 0.

(** The buffer when all digits are in it. *)
Definition integer_buffer (value : Z) (b : integer_base) (c : printf_conversion) : option (list Z) :=
  buf ← digits_loop 65 b (flags c) value 0 [];
  buf ← zeros_loop 65 (if precision c <? 0 then 1 else precision c) buf;
  if flag (flags c) POUND && (base b =? 8) &&
     (match last buf with Some d => negb (d =? 48) | None => true end)
  then put buf 48 else Some buf.

(** The characters that [format_integer] passes to [output], in order. *)
Definition format_integer (value : Z) (is_signed negative : bool) (b : integer_base)
    (c : printf_conversion) : option (list Z) :=
  let sign := sign_char is_signed negative (flags c) in
  let x := if flag (flags c) POUND && negb (value =? 0) then base_x_char b else 0 in
  buf ← integer_buffer value b c;
  let pad_cnt := int32 (width c - Z.of_nat (length buf) - (if negb (x =? 0) then 2 else 0)
                        - (if negb (sign =? 0) then 1 else 0)) in
  let pad_cnt := if pad_cnt <? 0 then 0 else pad_cnt in
  Some ((if Z.land (flags c) (Z.lor MINUS ZERO) =? 0 then output_dup 32 pad_cnt else [])
        ++ (if negb (sign =? 0) then [sign] else [])
        ++ (if negb (x =? 0) then [48; x] else [])
        ++ (if flag (flags c) ZERO then output_dup 48 pad_cnt else [])
        ++ rev buf
        ++ (if flag (flags c) MINUS then output_dup 32 pad_cnt else [])).

(** [format_string] on the characters of the string. *)
Definition format_string (s : list Z) (c : printf_conversion) : list Z :=
  let length := Z.of_nat (length s) in
  (if (length <? width c) && negb (flag (flags c) MINUS) then output_dup 32 (width c - length) else [])
  ++ s
  ++ (if (length <? width c) && flag (flags c) MINUS then output_dup 32 (width c - length) else []).

(** ** Arguments *)

(** [va_arg] of a word and of a [long long]. *)
Definition va_word (args : list Z) : option (Z * list Z) :=
  match args with
  | [] => None
  | w :: args => Some (w, args)
  end.

Definition va_long_long (args : list Z) : option (Z * list Z) :=
  match args with
  | lo :: hi :: args => Some (u32 lo + 2 ^ 32 * u32 hi, args)
  | _ => None
  end.

(** Sign extension of the low [k] bits. *)
Definition sext (k x : Z) : Z := (x + 2 ^ (k - 1)) mod 2 ^ k - 2 ^ (k - 1).

Definition SIZE_MAX : Z := 4294967295.

Definition va_signed (t : conv_type) (args : list Z) : option (Z * list Z) :=
  match t with
  | CHAR => '(w, args) ← va_word args; Some (sext 8 w, args)
  | SHORT => '(w, args) ← va_word args; Some (sext 16 w, args)
  | INT | LONG | PTRDIFFT => '(w, args) ← va_word args; Some (int32 w, args)
  | INTMAX | LONGLONG => '(w, args) ← va_long_long args; Some (int64 w, args)
  | SIZET =>
      '(w, args) ← va_word args;
      let value := u32 w in
      Some (if SIZE_MAX / 2 <? value then value - SIZE_MAX - 1 else value, args)
  end.

Definition va_unsigned (t : conv_type) (args : list Z) : option (Z * list Z) :=
  match t with
  | CHAR => '(w, args) ← va_word args; Some (w mod 256, args)
  | SHORT => '(w, args) ← va_word args; Some (w mod 65536, args)
  | INT | LONG | SIZET => '(w, args) ← va_word args; Some (u32 w, args)
  | INTMAX | LONGLONG => '(w, args) ← va_long_long args; Some (u64 w, args)
  | PTRDIFFT =>
      '(w, args) ← va_word args;
      Some (Z.land (u64 (int32 w)) (Z.lor (Z.shiftl 2147483647 1) 1), args)
  end.

(** ** [parse_conversion] *)

(** The flag that a character stands for. *)
Definition flag_of (ch : Z) : option Z :=
  if ch =? 45 then Some MINUS
  else if ch =? 43 then Some PLUS
  else if ch =? 32 then Some SPACE
  else if ch =? 35 then Some POUND
  else if ch =? 48 then Some ZERO
  else if ch =? 39 then Some GROUP
  else None.

Fixpoint flags_loop (n : nat) (m : memory) (format fl : Z) : option (Z * Z) :=
  match n with
  | O => None
  | S n =>
      ch ← m !! format;
      match flag_of ch with
      | Some f => flags_loop n m (format + 1) (Z.lor fl f)
      | None => Some (format, fl)
      end
  end.

(** The digits of a number, from the value [v] on. *)
Fixpoint number_loop (n : nat) (m : memory) (format v : Z) : option (Z * Z) :=
  match n with
  | O => None
  | S n =>
      ch ← m !! format;
      if isdigit ch then number_loop n m (format + 1) (int32 (v * 10 + ch - 48))
      else Some (format, v)
  end.

(** The field width, before a negative one is turned around. *)
Definition parse_width (m : memory) (format : Z) (args : list Z) : option (Z * Z * list Z) :=
  ch ← m !! format;
  if ch =? 42 then '(w, args) ← va_word args; Some (format + 1, int32 w, args)
  else '(format, w) ← number_loop (fuel m) m format 0; Some (format, w, args).

Definition parse_precision (m : memory) (format : Z) (args : list Z) : option (Z * Z * list Z) :=
  ch ← m !! format;
  if ch =? 46 then
    ch ← m !! (format + 1);
    '(format, p, args) ←
      (if ch =? 42 then '(w, args) ← va_word args; Some (format + 2, int32 w, args)
       else '(format, p) ← number_loop (fuel m) m (format + 1) 0; Some (format, p, args));
    Some (format, if p <? 0 then -1 else p, args)
  else Some (format, -1, args).

Definition parse_type (m : memory) (format : Z) : option (Z * conv_type) :=
  ch ← m !! format;
  if ch =? 104 then
    ch ← m !! (format + 1);
    Some (if ch =? 104 then (format + 2, CHAR) else (format + 1, SHORT))
  else if ch =? 106 then Some (format + 1, INTMAX)
  else if ch =? 108 then
    ch ← m !! (format + 1);
    Some (if ch =? 108 then (format + 2, LONGLONG) else (format + 1, LONG))
  else if ch =? 116 then Some (format + 1, PTRDIFFT)
  else if ch =? 122 then Some (format + 1, SIZET)
  else Some (format, INT).

(** [fl & ~f] if the flag [g] is set. *)
Definition clear_if (fl g f : Z) : Z := if flag fl g then Z.land fl (Z.lnot f) else fl.

Definition parse_conversion (m : memory) (format : Z) (args : list Z) :
    option (Z * printf_conversion * list Z) :=
  '(format, fl) ← flags_loop (fuel m) m format 0;
  let fl := clear_if fl MINUS ZERO in
  let fl := clear_if fl PLUS SPACE in
  '(format, w, args) ← parse_width m format args;
  let '(w, fl) := if w <? 0 then (int32 (- w), Z.lor fl MINUS) else (w, fl) in
  '(format, p, args) ← parse_precision m format args;
  let fl := if 0 <=? p then Z.land fl (Z.lnot ZERO) else fl in
  '(format, t) ← parse_type m format;
  Some (format, mk_conversion fl w p t, args).

(** ** [__vprintf] *)

(** [n] characters of the memory. *)
Fixpoint read_chars (n : nat) (m : memory) (p : Z) : option (list Z) :=
  match n with
  | O => Some []
  | S n => ch ← m !! p; s ← read_chars n m (p + 1); Some (ch :: s)
  end.

(** What the calls of [__printf] with the formats [<<no %%%c in kernel>>] and
    [<<no %%%c conversion>>] print. *)
Definition no_conversion (ch : Z) (tail : string) : list Z :=
  lit "<<no %" ++ format_string [ch] (mk_conversion 0 0 (-1) INT) ++ lit tail.

(** The conversion named by the character [ch]: the characters passed to
    [output], and the arguments left.  The string of [%s] is read before its
    characters are output, which differs from the code only where the output
    overwrites that string. *)
Definition convert (m : memory) (ch : Z) (c : printf_conversion) (args : list Z) :
    option (list Z * list Z) :=
  if (ch =? 100) || (ch =? 105) then
    '(value, args) ← va_signed (type c) args;
    s ← format_integer (u64 (if value <? 0 then - value else value)) true (value <? 0) base_d c;
    Some (s, args)
  else if (ch =? 111) || (ch =? 117) || (ch =? 120) || (ch =? 88) then
    '(value, args) ← va_unsigned (type c) args;
    let b := if ch =? 111 then base_o else if ch =? 117 then base_d
             else if ch =? 120 then base_x else base_X in
    s ← format_integer value false false b c;
    Some (s, args)
  else if ch =? 99 then
    '(w, args) ← va_word args;
    Some (format_string [w mod 256] c, args)
  else if ch =? 115 then
    '(s, args) ← va_word args;
    if s =? NULL then
      (* the string literal *)
      Some (format_string (take (if precision c <? 0 then 6 else Z.to_nat (precision c `min` 6))
                             (lit "(null)")) c, args)
    else
      n ← strnlen m s (u32 (precision c));
      s ← read_chars (Z.to_nat n) m s;
      Some (format_string s c, args)
  else if ch =? 112 then
    '(p, args) ← va_word args;
    s ← format_integer (u32 p) false false base_x (c <| flags := POUND |>);
    Some (s, args)
  else if (ch =? 102) || (ch =? 101) || (ch =? 69) || (ch =? 103) || (ch =? 71) || (ch =? 110) then
    Some (no_conversion ch " in kernel>>", args)
  else Some (no_conversion ch " conversion>>", args).

Section Printf.
Context {St : Type} (mem_of : St → memory) (output : Z → St → option St).

(** The calls of [output] for the characters [s]. *)
Fixpoint emit (s : list Z) (st : St) : option St :=
  match s with
  | [] => Some st
  | ch :: s => st ← output ch st; emit s st
  end.

Fixpoint vprintf_loop (n : nat) (format : Z) (args : list Z) (st : St) : option St :=
  match n with
  | O => None
  | S n =>
      ch ← mem_of st !! format;
      if ch =? 0 then Some st
      else if negb (ch =? 37) then
        st ← output ch st;
        vprintf_loop n (format + 1) args st
      else
        ch ← mem_of st !! (format + 1);
        if ch =? 37 then
          st ← output 37 st;
          vprintf_loop n (format + 2) args st
        else
          '(format, c, args) ← parse_conversion (mem_of st) (format + 1) args;
          ch ← mem_of st !! format;
          '(s, args) ← convert (mem_of st) ch c args;
          st ← emit s st;
          vprintf_loop n (format + 1) args st
  end.

(** [__vprintf], and [__printf], which is given the arguments themselves. *)
Definition __vprintf (format : Z) (args : list Z) (st : St) : option St :=
  vprintf_loop (fuel (mem_of st)) format args st.

End Printf.

(** ** The buffer of [vsnprintf] *)

Record vsnprintf_aux := mk_aux {
  aux_mem : memory;
  aux_p : Z;
  aux_length : Z;
  max_length : Z;
}.
#[export] Instance aux_ctor : Ctor vsnprintf_aux :=
  λ a, mk_aux (aux_mem a) (aux_p a) (aux_length a) (max_length a).

Definition vsnprintf_helper (ch : Z) (aux : vsnprintf_aux) : option vsnprintf_aux :=
  let len := aux_length aux in
  let aux := aux <| aux_length := int32 (len + 1) |> in
  if len <? max_length aux then
    m ← store (aux_mem aux) (aux_p aux) ch;
    Some (aux <| aux_mem := m |> <| aux_p := aux_p aux + 1 |>)
  else Some aux.

Definition vsnprintf (m : memory) (buffer buf_size format : Z) (args : list Z) :
    option (memory * Z) :=
  let max := int32 (if 0 <? buf_size then buf_size - 1 else 0) in
  aux ← __vprintf aux_mem vsnprintf_helper format args (mk_aux m buffer 0 max);
  m ← (if 0 <? buf_size then store (aux_mem aux) (aux_p aux) 0 else Some (aux_mem aux));
  Some (m, aux_length aux).

(** [va_start] makes the variable arguments a [va_list]. *)
Definition snprintf (m : memory) (buffer buf_size format : Z) (args : list Z) :
    option (memory * Z) :=
  vsnprintf m buffer buf_size format args.

(** ** The text that is printed *)

Definition collect (ch : Z) (st : memory * list Z) : option (memory * list Z) :=
  Some (st.1, st.2 ++ [ch]).

Definition printf_text (m : memory) (format : Z) (args : list Z) : option (list Z) :=
  snd <$> __vprintf fst collect format args (m, []).

(** ** Larger memories and more fuel

    A loop that ends keeps its result when the memory has more bytes and when it
    may run longer. *)

(** The next byte read, of the small memory and of the large one. *)
Ltac read_byte Hs H E :=
  match type of H with
  | (?m1 !! ?a ≫= _) = Some _ =>
      destruct (m1 !! a) as [?ch|] eqn:E; [|discriminate H];
      rewrite (lookup_weaken _ _ _ _ E Hs); cbn [mbind option_bind] in H |- *
  end.

Section Mono.
Context (m1 m2 : memory) (Hsub : m1 ⊆ m2).

Lemma fuel_mono : (fuel m1 ≤ fuel m2)%nat.
Proof. unfold fuel. apply le_n_S. by apply map_subseteq_size. Qed.

Lemma flags_loop_mono n1 n2 p fl r : (n1 ≤ n2)%nat →
  flags_loop n1 m1 p fl = Some r → flags_loop n2 m2 p fl = Some r.
Proof.
  revert n2 p fl. induction n1 as [|n1 IH]; intros [|n2] p fl Hn H; [done|done|lia|].
  simpl in *. read_byte Hsub H E. destruct (flag_of ch); [|done]. apply IH; [lia|done].
Qed.

Lemma number_loop_mono n1 n2 p v r : (n1 ≤ n2)%nat →
  number_loop n1 m1 p v = Some r → number_loop n2 m2 p v = Some r.
Proof.
  revert n2 p v. induction n1 as [|n1 IH]; intros [|n2] p v Hn H; [done|done|lia|].
  simpl in *. read_byte Hsub H E. destruct (isdigit ch); [|done]. apply IH; [lia|done].
Qed.

Lemma strnlen_loop_mono n1 n2 p mx len r : (n1 ≤ n2)%nat →
  strnlen_loop n1 m1 p mx len = Some r → strnlen_loop n2 m2 p mx len = Some r.
Proof.
  revert n2 len. induction n1 as [|n1 IH]; intros [|n2] len Hn H; [done|done|lia|].
  simpl in *. read_byte Hsub H E. destruct (_ && _); [|done]. apply IH; [lia|done].
Qed.

Lemma read_chars_mono n p s : read_chars n m1 p = Some s → read_chars n m2 p = Some s.
Proof.
  revert p s. induction n as [|n IH]; intros p s H; [done|]. simpl in *. read_byte Hsub H E.
  destruct (read_chars n m1 (p + 1)) eqn:E'; [|done]. by rewrite (IH _ _ E').
Qed.

Lemma parse_width_mono p args r : parse_width m1 p args = Some r → parse_width m2 p args = Some r.
Proof.
  unfold parse_width. intros H. read_byte Hsub H E. destruct (ch =? 42); [done|].
  destruct (number_loop (fuel m1) m1 p 0) eqn:E'; [|done].
  by rewrite (number_loop_mono _ _ _ _ _ fuel_mono E').
Qed.

Lemma parse_precision_mono p args r :
  parse_precision m1 p args = Some r → parse_precision m2 p args = Some r.
Proof.
  unfold parse_precision. intros H. read_byte Hsub H E. destruct (ch =? 46); [|done].
  read_byte Hsub H E'. destruct (ch0 =? 42); [done|].
  destruct (number_loop (fuel m1) m1 (p + 1) 0) eqn:E''; [|done].
  by rewrite (number_loop_mono _ _ _ _ _ fuel_mono E'').
Qed.

Lemma parse_type_mono p r : parse_type m1 p = Some r → parse_type m2 p = Some r.
Proof.
  unfold parse_type. intros H. read_byte Hsub H E.
  destruct (ch =? 104); [by read_byte Hsub H E'|]. destruct (ch =? 106); [done|].
  destruct (ch =? 108); [by read_byte Hsub H E'|done].
Qed.

Lemma parse_conversion_mono p args r :
  parse_conversion m1 p args = Some r → parse_conversion m2 p args = Some r.
Proof.
  unfold parse_conversion. intros H. apply bind_Some in H as ([p1 fl] & H1 & H).
  rewrite (flags_loop_mono _ _ _ _ _ fuel_mono H1). cbn [mbind option_bind].
  apply bind_Some in H as ([[p2 w] args1] & H2 & H). rewrite (parse_width_mono _ _ _ H2).
  cbn [mbind option_bind]. destruct (if w <? 0 then _ else _) as [w' fl'].
  apply bind_Some in H as ([[p3 pr] args2] & H3 & H). rewrite (parse_precision_mono _ _ _ H3).
  cbn [mbind option_bind]. apply bind_Some in H as ([p4 t] & H4 & H).
  by rewrite (parse_type_mono _ _ H4).
Qed.

Lemma convert_mono ch c args r : convert m1 ch c args = Some r → convert m2 ch c args = Some r.
Proof.
  unfold convert. intros H. destruct (_ || _); [exact H|]. destruct (_ || _); [exact H|].
  destruct (ch =? 99); [exact H|]. destruct (ch =? 115); [|exact H].
  destruct (va_word args) as [[s args']|]; [|done]. cbn [mbind option_bind] in *.
  destruct (s =? NULL); [done|]. apply bind_Some in H as (n & Hn & H). unfold strnlen in *.
  rewrite (strnlen_loop_mono _ _ _ _ _ _ fuel_mono Hn). cbn [mbind option_bind].
  apply bind_Some in H as (s' & Hr & H). by rewrite (read_chars_mono _ _ _ Hr).
Qed.
End Mono.

(** Formatting with another output function: where the first one prints, the
    second one does, if its memory has the bytes that the first one reads.  It
    is enough that the second one follows the first one as long as the state is
    [Good], which no output makes it again. *)
Section Simulation.
Context {S1 S2 : Type} (mem1 : S1 → memory) (out1 : Z → S1 → option S1)
  (mem2 : S2 → memory) (out2 : Z → S2 → option S2) (R : S1 → S2 → Prop) (Good : S1 → Prop).
Context (R_mem : ∀ s1 s2, R s1 s2 → mem1 s1 ⊆ mem2 s2)
  (R_out : ∀ ch s1 s2 s1', R s1 s2 → Good s1' → out1 ch s1 = Some s1' →
     ∃ s2', out2 ch s2 = Some s2' ∧ R s1' s2')
  (Good_back : ∀ ch s1 s1', out1 ch s1 = Some s1' → Good s1' → Good s1).

Lemma emit_back s s1 s1' : emit out1 s s1 = Some s1' → Good s1' → Good s1.
Proof.
  revert s1. induction s as [|ch s IH]; intros s1 H G; simpl in *; [by injection H as <-|].
  apply bind_Some in H as (t1 & H1 & H). eauto.
Qed.

Lemma vprintf_back n p args s1 s1' : vprintf_loop mem1 out1 n p args s1 = Some s1' →
  Good s1' → Good s1.
Proof.
  revert p args s1. induction n as [|n IH]; intros p args s1 H G; [done|]. simpl in H.
  apply bind_Some in H as (ch & _ & H). destruct (ch =? 0); [by injection H as <-|].
  destruct (negb (ch =? 37)); [apply bind_Some in H as (t1 & H1 & H); eauto|].
  apply bind_Some in H as (ch' & _ & H).
  destruct (ch' =? 37); [apply bind_Some in H as (t1 & H1 & H); eauto|].
  apply bind_Some in H as ([[p' c] args'] & _ & H). apply bind_Some in H as (ch'' & _ & H).
  apply bind_Some in H as ([s args''] & _ & H). apply bind_Some in H as (t1 & H1 & H).
  eauto using emit_back.
Qed.

Lemma emit_sim s s1 s2 s1' : R s1 s2 → Good s1' → emit out1 s s1 = Some s1' →
  ∃ s2', emit out2 s s2 = Some s2' ∧ R s1' s2'.
Proof.
  revert s1 s2. induction s as [|ch s IH]; intros s1 s2 HR G H; simpl in *.
  - injection H as <-. by exists s2.
  - apply bind_Some in H as (t1 & H1 & H). pose proof (emit_back s t1 s1' H G) as G1.
    destruct (R_out ch s1 s2 t1 HR G1 H1) as (t2 & -> & HR').
    cbn [mbind option_bind]. by apply (IH t1).
Qed.

(** One call of [output] and the rest of the loop. *)
Lemma out_sim n1 n2 ch p args s1 s2 s1' : R s1 s2 → Good s1' →
  (∀ t1 t2, R t1 t2 → vprintf_loop mem1 out1 n1 p args t1 = Some s1' →
     ∃ s2', vprintf_loop mem2 out2 n2 p args t2 = Some s2' ∧ R s1' s2') →
  (t1 ← out1 ch s1; vprintf_loop mem1 out1 n1 p args t1) = Some s1' →
  ∃ s2', (t2 ← out2 ch s2; vprintf_loop mem2 out2 n2 p args t2) = Some s2' ∧ R s1' s2'.
Proof.
  intros HR G IH H. apply bind_Some in H as (t1 & H1 & H).
  destruct (R_out ch s1 s2 t1 HR (vprintf_back _ _ _ _ _ H G) H1) as (t2 & -> & HR').
  cbn [mbind option_bind]. by apply (IH t1).
Qed.

Lemma vprintf_sim n1 n2 p args s1 s2 s1' : R s1 s2 → Good s1' → (n1 ≤ n2)%nat →
  vprintf_loop mem1 out1 n1 p args s1 = Some s1' →
  ∃ s2', vprintf_loop mem2 out2 n2 p args s2 = Some s2' ∧ R s1' s2'.
Proof.
  revert n2 p args s1 s2. induction n1 as [|n1 IH]; intros [|n2] p args s1 s2 HR G Hn H; [done|done|lia|].
  simpl in *. pose proof (R_mem s1 s2 HR) as Hs. read_byte Hs H E.
  destruct (ch =? 0); [injection H as <-; by exists s2|].
  destruct (negb (ch =? 37)); [eapply out_sim; [done..| |done]; intros; by eapply IH; [..|lia|]|].
  read_byte Hs H E'.
  destruct (ch0 =? 37); [eapply out_sim; [done..| |done]; intros; by eapply IH; [..|lia|]|].
  apply bind_Some in H as ([[p' c] args'] & H1 & H). rewrite (parse_conversion_mono _ _ Hs _ _ _ H1).
  cbn [mbind option_bind]. read_byte Hs H E''.
  apply bind_Some in H as ([s args''] & H2 & H). rewrite (convert_mono _ _ Hs _ _ _ _ H2).
  cbn [mbind option_bind]. apply bind_Some in H as (t1 & H3 & H).
  destruct (emit_sim s s1 s2 t1 HR (vprintf_back _ _ _ _ _ H G) H3) as (t2 & -> & HR').
  cbn [mbind option_bind]. by eapply IH; [..|lia|].
Qed.
End Simulation.

(** ** [vsnprintf] *)

(** The state of [vsnprintf] when the characters [acc] have been printed: the
    first [mx] of them are in the buffer. *)
Record printed (m0 m1 : memory) (buf : Z) (mx : nat) (st : memory * list Z) (aux : vsnprintf_aux) :
    Prop := {
  pr_text : st.1 = m1;
  pr_mem : m1 ⊆ aux_mem aux;
  pr_len : aux_length aux = Z.of_nat (length st.2);
  pr_max : max_length aux = Z.of_nat mx;
  pr_p : aux_p aux = buf + Z.of_nat (length st.2 `min` mx);
  pr_block : block (aux_mem aux) buf (take mx st.2);
  pr_mapped : mapped (aux_mem aux) buf (S mx);
  pr_same : same_outside m0 (aux_mem aux) buf (S mx);
}.

Lemma helper_printed m0 m1 buf mx ch st aux : (∀ a, within buf (S mx) a → m1 !! a = None) →
  Z.of_nat (length st.2) + 1 < 2 ^ 31 →
  printed m0 m1 buf mx st aux →
  ∃ aux', vsnprintf_helper ch aux = Some aux' ∧ printed m0 m1 buf mx (st.1, st.2 ++ [ch]) aux'.
Proof.
  intros Hd Hl [P1 P2 P3 P4 P5 P6 P7 P8]. unfold vsnprintf_helper. simpl. rewrite P3, P4.
  rewrite int32_small by lia. destruct (Z.ltb_spec (Z.of_nat (length st.2)) (Z.of_nat mx)).
  - assert (within buf (S mx) (aux_p aux)) as Hp by (unfold within; lia).
    rewrite store_Some by (by apply P7). cbn [mbind option_bind]. eexists. split; [done|].
    split; simpl; rewrite ?length_app; simpl; [done| |lia|done|lia| | |].
    + apply insert_subseteq_r; [by apply Hd|done].
    + rewrite take_ge in P6 by lia. rewrite take_ge by (rewrite length_app; simpl; lia).
      apply block_app. split.
      * eapply block_same; [|exact P6]. intros a Ha. rewrite lookup_insert_ne; [done|].
        unfold within in Ha. lia.
      * apply block_cons. split; [|apply block_nil].
        replace (buf + Z.of_nat (length st.2)) with (aux_p aux) by lia. apply lookup_insert_eq.
    + intros a Ha. destruct (decide (a = aux_p aux)) as [->|].
      * rewrite lookup_insert_eq. by eexists.
      * rewrite lookup_insert_ne by done. by apply P7.
    + eapply same_outside_trans; [done|]. by apply same_outside_insert.
  - eexists. split; [done|]. split; simpl; rewrite ?length_app; simpl; [done|done|lia|done|lia| |done|done].
    by rewrite take_app_le by lia.
Qed.

(** When the text of a format is [t], [vsnprintf] with a buffer that neither the
    format nor its strings are in returns the length of [t], stores the first
    [buf_size - 1] characters of [t] in the buffer, terminates them by a null
    character, and changes nothing else. *)
Lemma vsnprintf_stores m m1 buf size format args t : m1 ⊆ m → 1 ≤ size < 2 ^ 31 →
  mapped m buf (Z.to_nat size) → (∀ a, within buf (Z.to_nat size) a → m1 !! a = None) →
  printf_text m1 format args = Some t → Z.of_nat (length t) < 2 ^ 31 →
  ∃ m', vsnprintf m buf size format args = Some (m', Z.of_nat (length t)) ∧
    block m' buf (take (Z.to_nat (size - 1)) t ++ [0]) ∧
    same_outside m m' buf (Z.to_nat size).
Proof.
  intros Hs Hz Hm Hd Ht Hl. set (mx := Z.to_nat (size - 1)).
  replace (Z.to_nat size) with (S mx) in * by lia.
  unfold printf_text, __vprintf in Ht. apply fmap_Some in Ht as ([m1' t'] & Ht & ->). simpl in *.
  set (Good := λ st : memory * list Z, Z.of_nat (length st.2) < 2 ^ 31).
  destruct (vprintf_sim fst collect aux_mem vsnprintf_helper (printed m m1 buf mx) Good)
    with (n1 := fuel m1) (n2 := fuel m) (p := format) (args := args) (s1 := (m1, @nil Z))
      (s2 := mk_aux m buf 0 (Z.of_nat mx)) (s1' := (m1', t')) as (aux & H2 & HR).
  - intros s1 s2 HR. rewrite (pr_text _ _ _ _ _ _ HR). apply HR.
  - intros ch s1 s2 s1' HR G [= <-]. apply helper_printed; [done| |done].
    unfold Good in G. simpl in G. rewrite length_app in G. simpl in G. lia.
  - intros ch s1 s1' [= <-] G. unfold Good in *. simpl in G. rewrite length_app in G. lia.
  - split; simpl; [done..|lia|by rewrite take_nil; apply block_nil|done|apply same_outside_refl].
  - exact Hl.
  - by apply fuel_mono.
  - exact Ht.
  - destruct HR as [P1 P2 P3 P4 P5 P6 P7 P8]. simpl in *.
    unfold vsnprintf. rewrite (proj2 (Z.ltb_lt 0 size)) by lia. rewrite int32_small by lia.
    unfold __vprintf. simpl. replace (size - 1) with (Z.of_nat mx) by lia. rewrite H2. simpl.
    rewrite store_Some by (apply P7; unfold within; lia). simpl.
    eexists. split; [by rewrite P3|]. split.
    + apply block_app. rewrite length_take. split.
      * eapply block_same; [|exact P6]. intros a Ha. rewrite lookup_insert_ne; [done|].
        unfold within in Ha. rewrite length_take in Ha. lia.
      * apply block_cons. split; [|apply block_nil].
        replace (buf + _) with (aux_p aux) by lia. apply lookup_insert_eq.
    + eapply same_outside_trans; [done|]. apply same_outside_insert. unfold within; lia.
Qed.

(** ** [format_integer] *)

(** The bases that the code uses. *)
Definition is_base (b : integer_base) : Prop :=
  b = base_d ∨ b = base_o ∨ b = base_x ∨ b = base_X.

Lemma is_base_digit b v : is_base b → ∃ d, digits b !! Z.to_nat (v mod base b) = Some d ∧
  (base b ≤ 10 → d = 48 + v mod base b).
Proof.
  intros Hb. assert (0 ≤ v mod base b < base b) as Hv
    by (destruct Hb as [-> | [-> | [-> | ->]]]; apply Z.mod_pos_bound; vm_compute; done).
  revert Hv. generalize (v mod base b) as d. intros d Hd.
  assert (d ∈ seqZ 0 (base b)) as Hin by (apply elem_of_seqZ; lia).
  assert (Forall (λ d, ∃ c, digits b !! Z.to_nat d = Some c ∧ (base b ≤ 10 → c = 48 + d))
    (seqZ 0 (base b))) as HF.
  { destruct Hb as [-> | [-> | [-> | ->]]]; cbn -[Z.add];
      repeat first [apply Forall_nil; exact I | apply Forall_cons; split];
      (eexists; split; [vm_compute; reflexivity | intros; vm_compute; reflexivity || lia]). }
  rewrite Forall_forall in HF. by apply HF.
Qed.

Lemma is_base_bounds b : is_base b → 8 ≤ base b ≤ 16.
Proof. intros [-> | [-> | [-> | ->]]]; simpl; lia. Qed.

(** The number that digits denote, the last digit first. *)
Definition of_digits (b : Z) (ds : list Z) : Z := foldr (λ c v, c - 48 + b * v) 0 ds.

Lemma put_ok buf ch : (length buf < 64)%nat → put buf ch = Some (buf ++ [ch]).
Proof. intros. unfold put. by rewrite (proj2 (Nat.ltb_lt _ _)). Qed.

(** A value below [base ^ k] takes at most [k] digits, and as many commas; without
    commas these are the digits of the value. *)
Lemma digits_loop_ok b fl k : is_base b → ∀ n value cnt buf,
  (k < n)%nat → 0 ≤ value < base b ^ Z.of_nat k → (length buf + 2 * k ≤ 64)%nat →
  ∃ ds, digits_loop n b fl value cnt buf = Some (buf ++ ds) ∧ (length ds ≤ 2 * k)%nat ∧
    (flag fl GROUP = false → (length ds ≤ k)%nat ∧ (value = 0 ↔ ds = []) ∧
       (base b ≤ 10 → of_digits (base b) ds = value ∧ Forall (λ c, 48 ≤ c < 48 + base b) ds)).
Proof.
  intros Hb. pose proof (is_base_bounds b Hb) as Hbb.
  induction k as [|k IH]; intros [|n] value cnt buf Hn Hv Hl; [lia| |lia|]; cbn [digits_loop].
  - replace (0 <? value) with false by (symmetry; apply Z.ltb_ge; simpl in Hv; lia).
    exists []. rewrite app_nil_r. simpl in *. repeat split; auto; lia.
  - destruct (Z.ltb_spec 0 value) as [Hp|Hp].
    + set (comma := flag fl GROUP && (0 <? cnt) && (cnt mod group b =? 0)).
      set (sep := if comma then [44] else []).
      assert ((if comma then put buf 44 else Some buf) = Some (buf ++ sep)) as ->.
      { subst sep. destruct comma; [apply put_ok; lia|by rewrite app_nil_r]. }
      assert (length sep ≤ 1)%nat by (subst sep; destruct comma; simpl; lia).
      destruct (is_base_digit b value Hb) as (d & -> & Hd). cbn [mbind option_bind].
      rewrite put_ok by (rewrite length_app; lia). cbn [mbind option_bind].
      assert (0 ≤ value / base b < base b ^ Z.of_nat k).
      { split; [apply Z.div_pos; lia|]. apply Z.div_lt_upper_bound; [lia|].
        rewrite Nat2Z.inj_succ, Z.pow_succ_r in Hv by lia. lia. }
      destruct (IH n (value / base b) (cnt + 1) ((buf ++ sep) ++ [d])) as (ds & -> & Hds & Hg);
        [lia|done|rewrite !length_app; simpl; lia|].
      exists (sep ++ d :: ds). rewrite <- !app_assoc. split; [done|].
      split; [rewrite length_app; simpl; lia|]. intros HG.
      assert (sep = []) as -> by (subst sep comma; by rewrite HG).
      destruct (Hg HG) as (Hk & _ & Hv'). simpl. split; [lia|].
      split; [split; [lia|discriminate]|]. intros Hb10. destruct (Hv' Hb10) as [Ho Hf].
      rewrite Ho, (Hd Hb10). pose proof (Z.div_mod value (base b) ltac:(lia)).
      pose proof (Z.mod_pos_bound value (base b) ltac:(lia)).
      split; [lia|]. constructor; [lia|done].
    + exists []. rewrite app_nil_r. assert (value = 0) as -> by lia. simpl.
      repeat split; auto; lia.
Qed.

(** The zeros make the digits [prec] long, if the buffer has room. *)
Lemma zeros_loop_ok prec n buf : (length buf + n ≥ 65)%nat → (length buf ≤ 63)%nat →
  zeros_loop n prec buf =
    Some (buf ++ replicate (Z.to_nat (prec `min` 63 - Z.of_nat (length buf))) 48).
Proof.
  revert buf. induction n as [|n IH]; intros buf Hn Hl; [lia|]. cbn [zeros_loop].
  destruct (Z.ltb_spec (Z.of_nat (length buf)) prec), (Z.ltb_spec (Z.of_nat (length buf)) 63);
    cbn [andb];
    try (replace (Z.to_nat (prec `min` 63 - Z.of_nat (length buf))) with O by lia;
         simpl; by rewrite app_nil_r).
  rewrite put_ok by lia. cbn [mbind option_bind].
  rewrite IH by (rewrite length_app; simpl; lia). rewrite <- app_assoc, length_app. simpl.
  do 2 f_equal. replace (Z.to_nat (prec `min` 63 - Z.of_nat (length buf))) with
    (S (Z.to_nat (prec `min` 63 - Z.of_nat (length buf + 1)))) by lia. done.
Qed.

(** The 64 characters of [buf] are enough for every value, in every base, with
    every combination of flags and with every precision. *)
Lemma integer_buffer_ok value b c : is_base b → 0 ≤ value < 2 ^ 64 →
  ∃ buf, integer_buffer value b c = Some buf ∧ (length buf ≤ 64)%nat.
Proof.
  intros Hb Hv. unfold integer_buffer. pose proof (is_base_bounds b Hb).
  destruct (digits_loop_ok b (flags c) 22 Hb 65 value 0 []) as (ds & -> & Hl & _);
    [lia| |simpl; lia|].
  { split; [lia|]. eapply Z.lt_le_trans; [apply Hv|].
    transitivity (8 ^ 22); [by vm_compute|]. apply Z.pow_le_mono_l; lia. }
  cbn [mbind option_bind app]. rewrite zeros_loop_ok by lia. cbn [mbind option_bind].
  set (buf := ds ++ _). assert (length buf ≤ 63)%nat
    by (subst buf; rewrite length_app, length_replicate; destruct (precision c <? 0); lia).
  destruct (_ && _ && _).
  - exists (buf ++ [48]). rewrite put_ok by lia. split; [done|]. rewrite length_app. simpl. lia.
  - exists buf. split; [done|lia].
Qed.

Lemma format_integer_ok value sg neg b c : is_base b → 0 ≤ value < 2 ^ 64 →
  ∃ s, format_integer value sg neg b c = Some s.
Proof.
  intros Hb Hv. destruct (integer_buffer_ok value b c Hb Hv) as (buf & Hbuf & _).
  unfold format_integer. rewrite Hbuf. by eexists.
Qed.

(** ** Formatting ends

    [printable m s args]: the conversions of the format [s] are well formed, and
    the arguments [args] are what they need; a [%s] has a string or a null
    pointer. *)

Definition number_spec (w : list Z) : Prop := w = [42] ∨ Forall (λ c, isdigit c = true) w.
Definition precision_spec (pr : list Z) : Prop := pr = [] ∨ ∃ w, pr = 46 :: w ∧ number_spec w.
Definition stars (w : list Z) : nat := if decide (42 ∈ w) then 1 else 0.

Definition type_specs : list (list Z * conv_type) :=
  [(lit "hh", CHAR); (lit "h", SHORT); ([], INT); (lit "j", INTMAX); (lit "l", LONG);
   (lit "ll", LONGLONG); (lit "t", PTRDIFFT); (lit "z", SIZET)].

(** The words of a conversion's argument. *)
Definition conv_words (ch : Z) (ty : conv_type) : nat :=
  if decide (ch ∈ lit "diouxX") then match ty with INTMAX | LONGLONG => 2 | _ => 1 end
  else if decide (ch ∈ lit "csp") then 1 else 0.

Inductive printable (m : memory) : list Z → list Z → Prop :=
  | printable_end args : printable m [] args
  | printable_char c s args : c ≠ 37 → printable m s args → printable m (c :: s) args
  | printable_percent s args : printable m s args → printable m (37 :: 37 :: s) args
  | printable_conv fl w pr t ty ch s ws va args :
      Forall (λ c, is_Some (flag_of c)) fl → number_spec w → head w ≠ Some 48 →
      precision_spec pr → (t, ty) ∈ type_specs → ch ∈ lit "diouxXcspfeEgGn" →
      length ws = (stars w + stars pr)%nat → length va = conv_words ch ty →
      (ch = 115 → Forall (λ a, a = NULL ∨ ∃ str, cstring m a str) va) →
      printable m s args →
      printable m (37 :: fl ++ w ++ pr ++ t ++ ch :: s) (ws ++ va ++ args).

(** *** The parts of a conversion *)

Lemma cstring_head m p c s : cstring m p (c :: s) → m !! p = Some c.
Proof. intros H. by apply cstring_cons in H as [? _]. Qed.

Lemma cstring_cut_fuel m p s t : cstring m p (s ++ t) → (length s < fuel m)%nat.
Proof. intros H. apply cstring_fuel in H. rewrite length_app in H. lia. Qed.

Lemma flags_loop_ok m fl c r : Forall (λ c, is_Some (flag_of c)) fl → flag_of c = None →
  ∀ n p f, cstring m p (fl ++ c :: r) → (length fl < n)%nat →
  ∃ f', flags_loop n m p f = Some (p + Z.of_nat (length fl), f').
Proof.
  intros HF Hc. induction HF as [|d fl [x Hd] _ IH]; intros [|n] p f H Hn; [simpl in *; lia| |simpl in *; lia|];
    cbn [flags_loop app] in *; rewrite (cstring_head _ _ _ _ H); cbn [mbind option_bind].
  - rewrite Hc. exists f. simpl. by rewrite Z.add_0_r.
  - rewrite Hd. apply cstring_cons in H as (_ & _ & H).
    destruct (IH n (p + 1) (Z.lor f x) H) as [f' ->]; [simpl in Hn; lia|].
    exists f'. do 2 f_equal. simpl. lia.
Qed.

Lemma number_loop_ok m w c r : Forall (λ c, isdigit c = true) w → isdigit c = false →
  ∀ n p v, cstring m p (w ++ c :: r) → (length w < n)%nat →
  ∃ v', number_loop n m p v = Some (p + Z.of_nat (length w), v').
Proof.
  intros HF Hc. induction HF as [|d w Hd _ IH]; intros [|n] p v H Hn; [simpl in *; lia| |simpl in *; lia|];
    cbn [number_loop app] in *; rewrite (cstring_head _ _ _ _ H); cbn [mbind option_bind].
  - rewrite Hc. exists v. simpl. by rewrite Z.add_0_r.
  - rewrite Hd. apply cstring_cons in H as (_ & _ & H).
    destruct (IH n (p + 1) (int32 (v * 10 + d - 48)) H) as [v' ->]; [simpl in Hn; lia|].
    exists v'. do 2 f_equal. simpl. lia.
Qed.

Lemma digits_no_star w : Forall (λ c, isdigit c = true) w → 42 ∉ w.
Proof. intros HF Hin. rewrite Forall_forall in HF. by specialize (HF 42 Hin). Qed.

Lemma stars_digits w : Forall (λ c, isdigit c = true) w → stars w = O.
Proof. intros HF. unfold stars. rewrite decide_False; [done|by apply digits_no_star]. Qed.

(** A number at [p], or the star that stands for an argument. *)
Lemma number_spec_ok m p w c r ws args : number_spec w → isdigit c = false → c ≠ 42 →
  cstring m p (w ++ c :: r) → length ws = stars w →
  ∃ v, (ch ← m !! p;
        if ch =? 42 then '(x, args) ← va_word (ws ++ args); Some (p + 1, int32 x, args)
        else '(p, x) ← number_loop (fuel m) m p 0; Some (p, x, ws ++ args))
       = Some (p + Z.of_nat (length w), v, args).
Proof.
  intros Hw Hc Hc' H Hl. destruct Hw as [-> | HF].
  - destruct ws as [|a [|]]; [done| |done]. simpl in H. rewrite (cstring_head _ _ _ _ H).
    by exists (int32 a).
  - rewrite stars_digits in Hl by done. destruct ws; [|done].
    destruct (number_loop_ok m w c r HF Hc (fuel m) p 0 H (cstring_cut_fuel _ _ _ _ H)) as [v Hv].
    exists v. destruct w as [|d w]; cbn [app] in H; rewrite (cstring_head _ _ _ _ H);
      cbn [mbind option_bind].
    + rewrite (proj2 (Z.eqb_neq c 42)) by done. by rewrite Hv.
    + rewrite (proj2 (Z.eqb_neq d 42)); [by rewrite Hv|].
      intros ->. by apply (digits_no_star _ HF), list_elem_of_here.
Qed.

Lemma parse_precision_ok m p pr c r ws args : precision_spec pr → isdigit c = false →
  c ≠ 42 → c ≠ 46 → cstring m p (pr ++ c :: r) → length ws = stars pr →
  ∃ v, parse_precision m p (ws ++ args) = Some (p + Z.of_nat (length pr), v, args).
Proof.
  intros Hp Hc Hc1 Hc2 H Hl. unfold parse_precision. destruct Hp as [-> | (w & -> & Hw)].
  - destruct ws; [|done]. simpl in H. rewrite (cstring_head _ _ _ _ H). cbn [mbind option_bind].
    rewrite (proj2 (Z.eqb_neq c 46)) by done. exists (-1). simpl. by rewrite Z.add_0_r.
  - cbn [app] in H. rewrite (cstring_head _ _ _ _ H). cbn [mbind option_bind].
    apply cstring_cons in H as (_ & _ & H).
    assert (length ws = stars w) as Hl'.
    { rewrite Hl. unfold stars. apply decide_ext. set_solver. }
    destruct (number_spec_ok m (p + 1) w c r ws args Hw Hc Hc1 H Hl') as [v Hv].
    rewrite <- Z.add_assoc in Hv. change (1 + 1) with 2 in Hv.
    destruct (m !! (p + 1)) as [d|]; [|done]. cbn [mbind option_bind] in Hv |- *.
    change (46 =? 46) with true. cbv iota.
    exists (if v <? 0 then -1 else v). rewrite Hv. cbn [mbind option_bind].
    do 3 f_equal. simpl. lia.
Qed.

(** The characters of the types. *)
Definition type_chars : list Z := lit "hjltz".

Lemma parse_type_ok m p t ty c r : (t, ty) ∈ type_specs → c ∉ type_chars →
  cstring m p (t ++ c :: r) → parse_type m p = Some (p + Z.of_nat (length t), ty).
Proof.
  intros Ht Hc H. assert (c ≠ 104 ∧ c ≠ 106 ∧ c ≠ 108 ∧ c ≠ 116 ∧ c ≠ 122) as Hn.
  { change type_chars with [104; 106; 108; 116; 122] in Hc. set_solver. }
  destruct Hn as (N1 & N2 & N3 & N4 & N5).
  apply Z.eqb_neq in N1, N2, N3, N4, N5. unfold parse_type.
  let l := eval vm_compute in type_specs in change type_specs with l in Ht.
  do 8 (apply elem_of_cons in Ht as [[= -> ->]|Ht];
    [cbn [app] in H; rewrite (cstring_head _ _ _ _ H); cbn [mbind option_bind Z.eqb Pos.eqb];
     rewrite ?N1, ?N2, ?N3, ?N4, ?N5; try done;
     try (apply cstring_cons in H as (_ & _ & H); rewrite (cstring_head _ _ _ _ H); cbn [mbind option_bind Z.eqb Pos.eqb];
          by rewrite ?N1, ?N3); simpl; by rewrite Z.add_0_r|]).
  by apply not_elem_of_nil in Ht.
Qed.

(** A character that is neither a flag, a percent sign nor part of a number; the type and the
    conversion start with one, and so does the precision. *)
Definition after_number (c : Z) : bool :=
  negb (isdigit c) && negb (c =? 42) && negb (c =? 37) &&
  (match flag_of c with None => true | Some _ => false end).

Lemma after_number_inv c : after_number c = true →
  isdigit c = false ∧ c ≠ 42 ∧ c ≠ 37 ∧ flag_of c = None.
Proof.
  unfold after_number. intros H. apply andb_true_iff in H as [H H3].
  apply andb_true_iff in H as [H H4%negb_true_iff].
  apply andb_true_iff in H as [H1%negb_true_iff H2%negb_true_iff].
  apply Z.eqb_neq in H2, H4. repeat (split; [done|]). by destruct (flag_of c).
Qed.

Lemma conv_char ch : ch ∈ lit "diouxXcspfeEgGn" →
  after_number ch = true ∧ ch ≠ 46 ∧ ch ∉ type_chars.
Proof.
  intros H. assert (Forall (λ ch, (after_number ch && negb (ch =? 46) &&
    bool_decide (ch ∉ type_chars)) = true) (lit "diouxXcspfeEgGn")) as HF
    by (repeat constructor).
  rewrite Forall_forall in HF. specialize (HF ch H).
  apply andb_true_iff in HF as [HF H3]. apply andb_true_iff in HF as [H1 H2%negb_true_iff].
  apply bool_decide_eq_true in H3. apply Z.eqb_neq in H2. done.
Qed.

Lemma type_first t ty ch s : (t, ty) ∈ type_specs → ch ∈ lit "diouxXcspfeEgGn" →
  ∃ c r, t ++ ch :: s = c :: r ∧ after_number c = true ∧ c ≠ 46.
Proof.
  intros Ht Hch. destruct t as [|c t]; [destruct (conv_char ch Hch) as (? & ? & _); eauto|].
  exists c, (t ++ ch :: s). split; [done|].
  assert (Forall (λ x : list Z * conv_type, match x.1 with
    | c :: _ => after_number c = true ∧ c ≠ 46 | [] => True end) type_specs) as HF
    by (repeat first [apply Forall_nil; exact I | apply Forall_cons; split]; done).
  rewrite Forall_forall in HF. exact (HF _ Ht).
Qed.

Lemma precision_first pr t ty ch s : precision_spec pr → (t, ty) ∈ type_specs →
  ch ∈ lit "diouxXcspfeEgGn" → ∃ c r, pr ++ t ++ ch :: s = c :: r ∧ after_number c = true.
Proof.
  intros [-> | (w & -> & _)] Ht Hch; [|by eexists 46, _].
  destruct (type_first t ty ch s Ht Hch) as (c & r & E & H & _). exists c, r. by split.
Qed.

Lemma width_first w pr t ty ch s : number_spec w → head w ≠ Some 48 → precision_spec pr →
  (t, ty) ∈ type_specs → ch ∈ lit "diouxXcspfeEgGn" →
  ∃ c r, w ++ pr ++ t ++ ch :: s = c :: r ∧ flag_of c = None ∧ c ≠ 37.
Proof.
  intros Hw H0 Hp Ht Hch. destruct w as [|d w].
  - destruct (precision_first pr t ty ch s Hp Ht Hch) as (c & r & E & H).
    apply after_number_inv in H as (_ & _ & ? & ?). eauto.
  - eexists d, _. split; [reflexivity|]. destruct Hw as [[= -> _]|HF]; [done|].
    apply Forall_cons in HF as [Hd _]. simpl in H0. unfold isdigit in Hd. bool_simp.
    split; [|lia]. unfold flag_of.
    repeat match goal with |- context [d =? ?k] => destruct (Z.eqb_spec d k); [subst; try lia; done|] end.
    done.
Qed.

Lemma parse_conversion_ok m p fl w pr t ty ch s ws args :
  Forall (λ c, is_Some (flag_of c)) fl → number_spec w → head w ≠ Some 48 →
  precision_spec pr → (t, ty) ∈ type_specs → ch ∈ lit "diouxXcspfeEgGn" →
  length ws = (stars w + stars pr)%nat → cstring m p (fl ++ w ++ pr ++ t ++ ch :: s) →
  ∃ c, parse_conversion m p (ws ++ args)
         = Some (p + Z.of_nat (length (fl ++ w ++ pr ++ t)), c, args) ∧ type c = ty.
Proof.
  intros Hf Hw H0 Hp Ht Hch Hl H. unfold parse_conversion.
  destruct (width_first w pr t ty ch s Hw H0 Hp Ht Hch) as (c1 & r1 & E1 & F1 & _).
  destruct (precision_first pr t ty ch s Hp Ht Hch) as (c2 & r2 & E2 & F2).
  destruct (type_first t ty ch s Ht Hch) as (c3 & r3 & E3 & F3 & N3).
  apply after_number_inv in F2 as (D2 & S2 & _). apply after_number_inv in F3 as (D3 & S3 & _).
  assert (H' := H). rewrite E1 in H'.
  destruct (flags_loop_ok m fl c1 r1 Hf F1 (fuel m) p 0 H' (cstring_cut_fuel _ _ _ _ H')) as [f ->].
  cbn [mbind option_bind]. apply cstring_drop in H.
  rewrite <- (take_drop (stars w) ws), <- app_assoc.
  assert (H2 := H). rewrite E2 in H2.
  destruct (number_spec_ok m _ w c2 r2 (take (stars w) ws) (drop (stars w) ws ++ args) Hw D2 S2 H2)
    as [v Hv]; [rewrite length_take; lia|].
  unfold parse_width. rewrite Hv. cbn [mbind option_bind]. clear Hv. apply cstring_drop in H.
  assert (H3 := H). rewrite E3 in H3.
  destruct (v <? 0);
    (destruct (parse_precision_ok m _ pr c3 r3 (drop (stars w) ws) args Hp D3 S3 N3 H3)
       as [v' ->]; [rewrite length_drop; lia|]);
    cbn [mbind option_bind]; apply cstring_drop in H;
    rewrite (parse_type_ok m _ t ty ch s Ht (proj2 (proj2 (conv_char ch Hch))) H);
    cbn [mbind option_bind]; eexists; (split; [do 3 f_equal; rewrite !length_app; lia|done]).
Qed.

(** *** The conversions *)

Lemma strnlen_loop_ok m p maxlen s n len : cstring m (p + len) s →
  0 ≤ len ≤ maxlen → (length s < n)%nat →
  strnlen_loop n m p maxlen len = Some ((len + Z.of_nat (length s)) `min` maxlen).
Proof.
  revert len s. induction n as [|n IH]; intros len s H Hl Hn; [lia|]. cbn [strnlen_loop].
  destruct s as [|c s].
  - apply cstring_nil in H. rewrite H. cbn [mbind option_bind].
    change (negb (0 =? 0)) with false. cbn [andb length]. do 2 f_equal. lia.
  - apply cstring_cons in H as (-> & Hc & H). cbn [mbind option_bind].
    rewrite (proj2 (Z.eqb_neq c 0)) by lia. cbn [negb andb].
    destruct (Z.ltb_spec len maxlen); [|f_equal; simpl; lia].
    rewrite <- Z.add_assoc in H. rewrite (IH (len + 1) s H); [|lia|simpl in Hn; lia].
    f_equal. simpl. lia.
Qed.

Lemma strnlen_ok m p s maxlen : cstring m p s → 0 ≤ maxlen →
  strnlen m p maxlen = Some (Z.of_nat (length s) `min` maxlen).
Proof.
  intros H Hm. unfold strnlen. rewrite (strnlen_loop_ok m p maxlen s);
    [done|by rewrite Z.add_0_r|lia|by apply cstring_fuel in H].
Qed.

Lemma read_chars_ok m p n s : cstring m p s → (n ≤ length s)%nat →
  read_chars n m p = Some (take n s).
Proof.
  revert p s. induction n as [|n IH]; intros p s H Hn; [done|].
  destruct s as [|c s]; [simpl in Hn; lia|]. apply cstring_cons in H as (E & _ & H).
  cbn [read_chars take]. rewrite E. cbn [mbind option_bind].
  by rewrite (IH (p + 1) s H) by (simpl in Hn; lia).
Qed.

Lemma u64_range x : 0 ≤ u64 x < 2 ^ 64.
Proof. unfold u64. by apply Z.mod_pos_bound. Qed.

Lemma va_signed_ok ty va args ch : length va = conv_words ch ty → ch ∈ lit "diouxX" →
  ∃ v, va_signed ty (va ++ args) = Some (v, args).
Proof.
  intros Hl Hch. unfold conv_words in Hl. rewrite decide_True in Hl by done.
  destruct ty, va as [|a [|b [|]]]; try done; by eexists.
Qed.

Lemma va_unsigned_ok ty va args ch : length va = conv_words ch ty → ch ∈ lit "diouxX" →
  ∃ v, va_unsigned ty (va ++ args) = Some (v, args) ∧ 0 ≤ v < 2 ^ 64.
Proof.
  intros Hl Hch. unfold conv_words in Hl. rewrite decide_True in Hl by done.
  assert (∀ x, 0 ≤ u32 x < 2 ^ 64) as Hu
    by (intros x; unfold u32; pose proof (Z.mod_pos_bound x (2 ^ 32)); lia).
  destruct ty, va as [|a [|b [|]]]; try done; eexists; (split; [reflexivity|]);
    try apply Hu; try apply u64_range.
  - pose proof (Z.mod_pos_bound a 256). lia.
  - pose proof (Z.mod_pos_bound a 65536). lia.
  - change (Z.lor (Z.shiftl 2147483647 1) 1) with (Z.ones 32). rewrite Z.land_ones by lia.
    pose proof (Z.mod_pos_bound (u64 (int32 a)) (2 ^ 32)). lia.
Qed.

Lemma convert_ok m ch c va args : ch ∈ lit "diouxXcspfeEgGn" →
  length va = conv_words ch (type c) →
  (ch = 115 → Forall (λ a, a = NULL ∨ ∃ str, cstring m a str) va) →
  ∃ s, convert m ch c (va ++ args) = Some (s, args).
Proof.
  intros Hch Hl Hs. let l := eval vm_compute in (lit "diouxXcspfeEgGn") in
    change (lit "diouxXcspfeEgGn") with l in Hch.
  unfold convert.
  do 2 (apply elem_of_cons in Hch as [->|Hch];
    [destruct (va_signed_ok (type c) va args _ Hl ltac:(apply (bool_decide_unpack _); exact I)) as [v ->];
     cbn [mbind option_bind Z.eqb Pos.eqb orb];
     destruct (format_integer_ok (u64 (if v <? 0 then - v else v)) true (v <? 0) base_d c
       ltac:(by left) (u64_range _)) as [s ->]; by eexists|]).
  do 4 (apply elem_of_cons in Hch as [->|Hch];
    [destruct (va_unsigned_ok (type c) va args _ Hl ltac:(apply (bool_decide_unpack _); exact I)) as (v & -> & Hv);
     cbn [mbind option_bind Z.eqb Pos.eqb orb];
     edestruct (format_integer_ok v false false) as [s ->];
       [|exact Hv|by eexists]; unfold is_base; tauto|]).
  apply elem_of_cons in Hch as [->|Hch]; [destruct va as [|a [|]]; try done; by eexists|].
  apply elem_of_cons in Hch as [->|Hch].
  { destruct va as [|a [|]]; try done. specialize (Hs eq_refl). apply Forall_cons in Hs as [Hs _].
    cbn [app va_word mbind option_bind Z.eqb Pos.eqb orb].
    destruct (Z.eqb_spec a NULL); [by eexists|]. destruct Hs as [|[str Hstr]]; [done|].
    assert (0 ≤ u32 (precision c)) by (unfold u32; by apply Z.mod_pos_bound).
    rewrite (strnlen_ok m a str) by done. cbn [mbind option_bind].
    rewrite (read_chars_ok m a _ str Hstr) by lia. by eexists. }
  apply elem_of_cons in Hch as [->|Hch].
  { destruct va as [|a [|]]; try done. cbn [app va_word mbind option_bind Z.eqb Pos.eqb orb].
    edestruct (format_integer_ok (u32 a) false false base_x) as [s ->];
      [right; by right; left| |by eexists].
    unfold u32. pose proof (Z.mod_pos_bound a (2 ^ 32)). lia. }
  do 6 (apply elem_of_cons in Hch as [->|Hch]; [destruct va; [by eexists|done]|]).
  by apply not_elem_of_nil in Hch.
Qed.

(** *** The loop *)

Lemma conv_first fl w pr t ty ch s : Forall (λ c, is_Some (flag_of c)) fl → number_spec w →
  head w ≠ Some 48 → precision_spec pr → (t, ty) ∈ type_specs →
  ch ∈ lit "diouxXcspfeEgGn" →
  ∃ c r, fl ++ w ++ pr ++ t ++ ch :: s = c :: r ∧ c ≠ 37.
Proof.
  intros Hf Hw H0 Hp Ht Hch. destruct fl as [|c fl].
  - destruct (width_first w pr t ty ch s Hw H0 Hp Ht Hch) as (c & r & E & _ & ?). eauto.
  - apply Forall_cons in Hf as [[x Hx] _]. eexists c, _. split; [reflexivity|]. by intros ->.
Qed.

Lemma emit_collect s m acc : emit collect s (m, acc) = Some (m, acc ++ s).
Proof.
  revert acc. induction s as [|c s IH]; intros acc; simpl; [by rewrite app_nil_r|].
  rewrite IH. by rewrite <- app_assoc.
Qed.

Lemma vprintf_collect_ok m s args : printable m s args → ∀ p, cstring m p s →
  ∃ t, ∀ n acc, (length s < n)%nat →
    vprintf_loop fst collect n p args (m, acc) = Some (m, acc ++ t).
Proof.
  induction 1 as [args|c s args Hc _ IH|s args _ IH|
      fl w pr t ty ch s ws va args Hf Hw H0 Hp Ht Hch Hl Hva Hs _ IH]; intros p H.
  - exists []. intros [|n] acc Hn; [lia|]. cbn [vprintf_loop fst].
    apply cstring_nil in H. rewrite H. by rewrite app_nil_r.
  - apply cstring_cons in H as (E & Hc' & H). destruct (IH (p + 1) H) as [t Ht].
    exists (c :: t). intros [|n] acc Hn; [lia|]. cbn [vprintf_loop fst]. rewrite E.
    cbn [mbind option_bind].
    rewrite (proj2 (Z.eqb_neq c 0)), (proj2 (Z.eqb_neq c 37)) by lia. cbn [negb].
    change (collect c (m, acc)) with (Some (m, acc ++ [c])). cbn [mbind option_bind].
    rewrite Ht by (simpl in Hn; lia). by rewrite <- app_assoc.
  - apply cstring_cons in H as (E & _ & H). apply cstring_cons in H as (E' & _ & H).
    rewrite <- Z.add_assoc in H. change (1 + 1) with 2 in H. destruct (IH (p + 2) H) as [t Ht].
    exists (37 :: t). intros [|n] acc Hn; [lia|]. cbn [vprintf_loop fst]. rewrite E.
    cbn [mbind option_bind Z.eqb Pos.eqb negb]. rewrite E'. cbn [mbind option_bind Z.eqb Pos.eqb].
    change (collect 37 (m, acc)) with (Some (m, acc ++ [37])). cbn [mbind option_bind].
    rewrite Ht by (simpl in Hn; lia). by rewrite <- app_assoc.
  - apply cstring_cons in H as (E & _ & H).
    destruct (conv_first fl w pr t ty ch s Hf Hw H0 Hp Ht Hch) as (c & r & Ec & Hc).
    assert (Hh := H). rewrite Ec in Hh. apply cstring_head in Hh.
    destruct (parse_conversion_ok m (p + 1) fl w pr t ty ch s ws (va ++ args) Hf Hw H0 Hp Ht Hch Hl H)
      as (cv & Hcv & Hty).
    replace (fl ++ w ++ pr ++ t ++ ch :: s) with ((fl ++ w ++ pr ++ t) ++ ch :: s) in H
      by (by rewrite <- !app_assoc).
    apply cstring_drop in H. apply cstring_cons in H as (E' & _ & H).
    rewrite <- Hty in Hva. destruct (convert_ok m ch cv va args Hch Hva Hs) as [t1 Ht1].
    destruct (IH _ H) as [t2 Ht2]. exists (t1 ++ t2). intros [|n] acc Hn; [lia|].
    cbn [vprintf_loop fst]. rewrite E. cbn [mbind option_bind Z.eqb Pos.eqb negb].
    rewrite Hh. cbn [mbind option_bind]. rewrite (proj2 (Z.eqb_neq c 37)) by done.
    rewrite Hcv. cbn [mbind option_bind]. rewrite E'. cbn [mbind option_bind].
    rewrite Ht1. cbn [mbind option_bind]. rewrite emit_collect. cbn [mbind option_bind].
    rewrite Ht2 by (simpl in Hn; rewrite !length_app in Hn; simpl in Hn; lia).
    by rewrite <- app_assoc.
Qed.

Lemma printf_text_ok m format s args : cstring m format s → printable m s args →
  ∃ t, printf_text m format args = Some t.
Proof.
  intros H Hp. destruct (vprintf_collect_ok m s args Hp format H) as [t Ht].
  exists t. unfold printf_text, __vprintf. cbn [fst]. by rewrite Ht by (by apply cstring_fuel in H).
Qed.

(** ** [%d] *)

(** An [int] passed as an argument word. *)
Lemma int32_u32 n : -2 ^ 31 ≤ n < 2 ^ 31 → int32 (u32 n) = n.
Proof. intros Hn. unfold int32, u32. rewrite Zplus_mod_idemp_l, Z.mod_small; lia. Qed.

Lemma of_digits_rev ds : digits_value (rev ds) = - of_digits 10 ds.
Proof.
  unfold digits_value, of_digits. induction ds as [|d ds IH]; simpl; [done|].
  rewrite foldl_app, IH. simpl. lia.
Qed.

(** The text of a decimal number: a minus sign, and the digits of its absolute
    value. *)
Lemma decimal_text v neg k : 0 ≤ v < 10 ^ Z.of_nat k → (1 ≤ k ≤ 20)%nat →
  ∃ ds, format_integer v true neg base_d (mk_conversion 0 0 (-1) INT)
          = Some ((if neg then [45] else []) ++ rev ds) ∧
    of_digits 10 ds = v ∧ Forall (λ c, isdigit c = true) ds ∧ (1 ≤ length ds ≤ k)%nat.
Proof.
  intros Hv Hk. unfold format_integer, integer_buffer.
  cbn [flags precision width].
  destruct (digits_loop_ok base_d 0 k (or_introl eq_refl) 65 v 0 []) as (ds & -> & _ & Hg);
    [lia|exact Hv|simpl; lia|].
  destruct (Hg eq_refl) as (Hl & H0 & Hb). destruct (Hb ltac:(done)) as [Ho HF].
  cbn [mbind option_bind app]. change (-1 <? 0) with true. cbv iota.
  rewrite zeros_loop_ok by lia. cbn [mbind option_bind].
  change (flag 0 POUND) with false. cbn [andb mbind option_bind].
  set (ds' := ds ++ replicate _ 48). exists ds'.
  assert (of_digits 10 ds' = v ∧ Forall (λ c, 48 ≤ c < 58) ds' ∧ (1 ≤ length ds' ≤ k)%nat)
    as (O & F & L).
  { subst ds'. destruct ds as [|d ds].
    - simpl. split; [by symmetry; apply H0|]. split; [by repeat constructor|lia].
    - replace (Z.to_nat _) with O by (simpl; lia). rewrite app_nil_r. simpl in *. split_and!; auto; lia. }
  split; [|split; [done|split; [|done]]].
  - unfold sign_char. change (flag 0 PLUS) with false. change (flag 0 SPACE) with false.
    change (flag 0 ZERO) with false. change (flag 0 MINUS) with false.
    change (Z.land 0 (Z.lor MINUS ZERO) =? 0) with true. cbv iota.
    rewrite (int32_small (_ - _ - _ - _)) by (destruct neg; simpl; lia).
    rewrite (proj2 (Z.ltb_lt _ 0)) by (destruct neg; simpl; lia).
    destruct neg; simpl; by rewrite ?app_nil_r.
  - eapply Forall_impl; [exact F|]. intros c Hc. unfold isdigit. simpl in *.
    apply andb_true_iff. split; apply Z.leb_le; lia.
Qed.

(** A conversion without flags, numbers and type. *)
Lemma parse_no_spec m p ch args : after_number ch = true → ch ≠ 46 → ch ∉ type_chars →
  m !! p = Some ch → parse_conversion m p args = Some (p, mk_conversion 0 0 (-1) INT, args).
Proof.
  intros Ha H46%Z.eqb_neq Ht H. apply after_number_inv in Ha as (Hd & H42%Z.eqb_neq & _ & Hf).
  change type_chars with [104; 106; 108; 116; 122] in Ht.
  unfold parse_conversion. unfold fuel at 1. cbn [flags_loop]. rewrite H. cbn [mbind option_bind].
  rewrite Hf. cbn [mbind option_bind]. unfold parse_width. rewrite H. cbn [mbind option_bind].
  rewrite H42. unfold fuel at 1. cbn [number_loop]. rewrite H. cbn [mbind option_bind].
  rewrite Hd. cbn [mbind option_bind Z.ltb Z.compare]. unfold parse_precision. rewrite H.
  cbn [mbind option_bind]. rewrite H46. cbn [mbind option_bind]. unfold parse_type. rewrite H.
  cbn [mbind option_bind].
  repeat match goal with |- context [ch =? ?k] =>
    rewrite (proj2 (Z.eqb_neq ch k)) by (intros ->; set_solver) end.
  reflexivity.
Qed.

Lemma parse_plain m p ch args : ch ∈ lit "diouxXcspfeEgGn" → m !! p = Some ch →
  parse_conversion m p args = Some (p, mk_conversion 0 0 (-1) INT, args).
Proof. intros Hch. destruct (conv_char ch Hch) as (? & ? & ?). by apply parse_no_spec. Qed.

(** A format that is a single conversion. *)
Lemma printf_single m p c0 q c args args' ch t rest : m !! p = Some 37 → m !! (p + 1) = Some c0 →
  c0 ≠ 37 → parse_conversion m (p + 1) args = Some (q, c, args') → m !! q = Some ch →
  convert m ch c args' = Some (t, rest) → m !! (q + 1) = Some 0 →
  printf_text m p args = Some t.
Proof.
  intros H1 H2 H37%Z.eqb_neq Hp Hq Hc H0. unfold printf_text, __vprintf. cbn [fst].
  assert (∃ f, fuel m = S (S f)) as [f ->].
  { unfold fuel. destruct (size m) eqn:E; [|eauto]. apply map_size_empty_inv in E. by subst m. }
  cbn [vprintf_loop fst]. rewrite H1. cbn [mbind option_bind Z.eqb Pos.eqb negb].
  rewrite H2. cbn [mbind option_bind]. rewrite H37, Hp. cbn [mbind option_bind].
  rewrite Hq. cbn [mbind option_bind]. rewrite Hc. cbn [mbind option_bind].
  rewrite emit_collect. cbn [mbind option_bind fst]. rewrite H0. reflexivity.
Qed.

Lemma printf_text_d m format n : -2 ^ 31 ≤ n < 2 ^ 31 → cstring m format (lit "%d") →
  ∃ ds, printf_text m format [u32 n] = Some ((if n <? 0 then [45] else []) ++ rev ds) ∧
    of_digits 10 ds = Z.abs n ∧ Forall (λ c, isdigit c = true) ds ∧ (1 ≤ length ds ≤ 10)%nat.
Proof.
  intros Hn H. change (lit "%d") with [37; 100] in *.
  apply cstring_cons in H as (H1 & _ & H). apply cstring_cons in H as (H2 & _ & H).
  apply cstring_nil in H.
  destruct (decimal_text (Z.abs n) (n <? 0) 10) as (ds & E & Ho & HF & Hl); [lia|lia|].
  exists ds. split; [|done].
  apply (printf_single m format 100 (format + 1) (mk_conversion 0 0 (-1) INT) _ [u32 n] 100 _ []);
    [done|done|done| |done| |done].
  - apply (parse_plain m (format + 1) 100); [by apply (bool_decide_unpack _)|done].
  - unfold convert, va_signed. cbn [mbind option_bind Z.eqb Pos.eqb orb type va_word].
    rewrite int32_u32 by lia.
    replace (u64 (if n <? 0 then - n else n)) with (Z.abs n).
    2: { unfold u64. rewrite Z.mod_small; destruct (Z.ltb_spec n 0); lia. }
    by rewrite E.
Qed.

(** ** A format that ends in a percent sign

    The terminator is taken for the conversion, and [format++] skips it: the
    bytes behind the format are printed as if they were a part of it. *)
Lemma parse_at_end m p args : m !! p = Some 0 →
  parse_conversion m p args = Some (p, mk_conversion 0 0 (-1) INT, args).
Proof. apply parse_no_spec; [done..|]. by apply (bool_decide_unpack _). Qed.

Lemma printf_trailing_percent m p s args : m !! p = Some 37 → m !! (p + 1) = Some 0 →
  cstring m (p + 2) s → printable m s args →
  ∃ t, printf_text m p args = Some (lit "<<no %" ++ [0] ++ lit " conversion>>" ++ t) ∧
    printf_text m (p + 2) args = Some t.
Proof.
  intros H1 H2 H Hp. destruct (vprintf_collect_ok m s args Hp (p + 2) H) as [t Ht].
  assert (length s + 2 < fuel m)%nat as Hf.
  { assert (block m p (37 :: 0 :: s ++ [0])) as B%block_size.
    { apply block_cons. split; [done|]. apply block_cons. split; [done|].
      rewrite <- Z.add_assoc. apply H. }
    simpl in B. rewrite length_app in B. unfold fuel. simpl in B. lia. }
  exists t. unfold printf_text, __vprintf. cbn [fst]. rewrite Ht by lia. split; [|done].
  destruct (fuel m) as [|f] eqn:Ef; [lia|]. cbn [vprintf_loop fst]. rewrite H1.
  cbn [mbind option_bind Z.eqb Pos.eqb negb]. rewrite H2. cbn [mbind option_bind Z.eqb].
  rewrite (parse_at_end m (p + 1) args H2). cbn [mbind option_bind]. rewrite H2.
  cbn [mbind option_bind]. change (convert m 0 (mk_conversion 0 0 (-1) INT) args) with
    (Some (no_conversion 0 " conversion>>", args)). cbn [mbind option_bind].
  rewrite emit_collect. cbn [mbind option_bind]. rewrite <- Z.add_assoc. change (1 + 1) with 2.
  rewrite Ht by lia. reflexivity.
Qed.

(** ** [printf] of a literal

    A string literal in memory, and the text that [printf] of a literal prints;
    the literal is at address 1 and [%s] arguments are where [lits] has them. *)
Definition lit_at (a : Z) (s : string) : memory :=
  list_to_map (zip (seqZ a (Z.of_nat (String.length s) + 1)) (lit s ++ [0])).

Definition text (lits : memory) (format : string) (args : list Z) : option (list Z) :=
  printf_text (lit_at 1 format ∪ lits) 1 args.

(** ** [hex_dump] and [print_human_readable_size] *)

Definition isprint (c : Z) : bool := (32 <=? c) && (c <? 127).
(** The string of a line feed. *)
Definition newline : string := String (Ascii.ascii_of_nat 10) EmptyString.

Definition ROUND_DOWN (x step : Z) : Z := x / step * step.

(** [hex_dump] as the calls of [printf] that it makes: the format and the
    arguments.  [line] has the bytes of the line, [start] the first column. *)
Definition hex_dump_line (ofs start : Z) (line : list Z) (ascii : bool) : list (string * list Z) :=
  let fin := start + Z.of_nat (length line) in
  let ofs := ROUND_DOWN ofs 16 in
  [("%08jx  "%string, [u32 ofs; 0])]
  ++ replicate (Z.to_nat start) ("   "%string, [])
  ++ imap (λ i b, ("%02hhx%c"%string, [b; if start + Z.of_nat i =? 16 / 2 - 1 then 45 else 32])) line
  ++ (if ascii then
        replicate (Z.to_nat (16 - fin)) ("   "%string, [])
        ++ [("|"%string, [])]
        ++ replicate (Z.to_nat start) (" "%string, [])
        ++ ((λ b, ("%c"%string, [if isprint b then b else 46])) <$> line)
        ++ replicate (Z.to_nat (16 - fin)) (" "%string, [])
        ++ [("|"%string, [])]
      else [])
  ++ [(newline, [])].

Fixpoint hex_dump (n : nat) (ofs : Z) (buf : list Z) (ascii : bool) :
    option (list (string * list Z)) :=
  match n with
  | O => None
  | S n =>
      match buf with
      | [] => Some []
      | _ =>
          let start := ofs mod 16 in
          let k := Z.to_nat (if Z.of_nat (length buf) <? 16 - start
                             then Z.of_nat (length buf) else 16 - start) in
          rest ← hex_dump n (u32 (ofs + Z.of_nat k)) (drop k buf) ascii;
          Some (hex_dump_line ofs start (take k buf) ascii ++ rest)
      end
  end.

(** The size in the largest unit that is not above it, and its unit. *)
Fixpoint human_loop (size : Z) (fp : string) (factors : list string) : Z * string :=
  match factors with
  | next :: factors => if 1024 <=? size then human_loop (size / 1024) next factors else (size, fp)
  | [] => (size, fp)
  end.

Definition print_human_readable_size (size : Z) : option (list Z) :=
  if size =? 1 then text ∅ "1 byte" []
  else
    let '(size, fp) := human_loop size "bytes" ["kB"%string; "MB"%string; "GB"%string; "TB"%string] in
    text (lit_at 4096 fp) "%llu %s" [u32 size; size / 2 ^ 32; 4096].

(** The bytes that a list of calls prints in hexadecimal. *)
Definition dumped (calls : list (string * list Z)) : list Z :=
  omap (λ c, if decide (c.1 = "%02hhx%c"%string) then head c.2 else None) calls.

Lemma dumped_app l k : dumped (l ++ k) = dumped l ++ dumped k.
Proof. apply omap_app. Qed.

Lemma dumped_none (l : list (string * list Z)) :
  Forall (λ c, c.1 ≠ "%02hhx%c"%string) l → dumped l = [].
Proof.
  induction 1 as [|c l H _ IH]; [done|]. unfold dumped. cbn [omap list_omap].
  rewrite decide_False by done. exact IH.
Qed.

Lemma dumped_bytes line (f : nat → Z) :
  dumped (imap (λ i b, ("%02hhx%c"%string, [b; f i])) line) = line.
Proof.
  revert f. induction line as [|b line IH]; intros f; [done|].
  rewrite imap_cons. unfold dumped. cbn [omap list_omap]. rewrite decide_True by done.
  cbn [head snd]. f_equal. exact (IH (f ∘ S)).
Qed.

Lemma dumped_line ofs start line ascii : dumped (hex_dump_line ofs start line ascii) = line.
Proof.
  assert (∀ n s, s ≠ "%02hhx%c"%string → dumped (replicate n (s, [])) = []) as Hr.
  { intros n s Hs. by apply dumped_none, Forall_replicate. }
  unfold hex_dump_line. rewrite !dumped_app, Hr, dumped_bytes by done.
  rewrite (dumped_none (if ascii then _ else _)).
  - simpl. by rewrite app_nil_r.
  - destruct ascii; [|by constructor]. rewrite !Forall_app, Forall_fmap.
    split_and!; try (by apply Forall_replicate); try (by repeat constructor).
    by apply Forall_true.
Qed.

(** [hex_dump] ends, and prints every byte of the buffer, in order. *)
Lemma hex_dump_ok n ofs buf ascii : (length buf < n)%nat →
  ∃ calls, hex_dump n ofs buf ascii = Some calls ∧ dumped calls = buf.
Proof.
  revert ofs buf. induction n as [|n IH]; intros ofs buf Hn; [lia|].
  destruct buf as [|b buf]; [by exists []|]. cbn [hex_dump].
  set (k := Z.to_nat _). assert (1 ≤ k)%nat as Hk.
  { subst k. pose proof (Z.mod_pos_bound ofs 16). destruct (Z.ltb_spec (Z.of_nat (length (b :: buf))) (16 - ofs mod 16));
      simpl in *; lia. }
  destruct (IH (u32 (ofs + Z.of_nat k)) (drop k (b :: buf))) as (rest & -> & Hd);
    [rewrite length_drop; simpl in *; lia|].
  cbn [mbind option_bind]. eexists. split; [reflexivity|].
  rewrite dumped_app, dumped_line, Hd. apply take_drop.
Qed.

(** The number printed is the size in units of [1024 ^ i] bytes, where [fp] is the
    [i]-th unit; it is below 1024 unless the unit is the last one. *)
Lemma human_loop_ok factors : ∀ size fp v f, 0 ≤ size → human_loop size fp factors = (v, f) →
  ∃ i, (fp :: factors) !! i = Some f ∧ v = size / 1024 ^ Z.of_nat i ∧
    (v < 1024 ∨ i = length factors).
Proof.
  induction factors as [|next factors IH]; intros size fp v f Hs H; cbn [human_loop] in H.
  - injection H as <- <-. exists 0%nat. by rewrite Z.div_1_r; auto.
  - destruct (Z.leb_spec 1024 size).
    + destruct (IH (size / 1024) next v f) as (i & Hi & -> & Hv); [apply Z.div_pos; lia|done|].
      exists (S i). split; [done|]. split; [|destruct Hv as [? | ->]; auto].
      rewrite Z.div_div by (try apply Z.pow_pos_nonneg; lia).
      by rewrite Nat2Z.inj_succ, Z.pow_succ_r by lia.
    + injection H as <- <-. exists 0%nat. rewrite Z.div_1_r. auto.
Qed.

(** A literal of a concrete memory. *)
Ltac concrete_cstring :=
  match goal with |- cstring _ _ ?s => let l := eval vm_compute in s in change s with l end;
  repeat (apply cstring_cons; split; [vm_compute; reflexivity|split; [lia|]]);
  apply cstring_nil; vm_compute; reflexivity.

Lemma human_loop_unit factors : ∀ size fp, (human_loop size fp factors).2 ∈ fp :: factors.
Proof.
  induction factors as [|next factors IH]; intros size fp; cbn [human_loop]; [left|].
  destruct (1024 <=? size); [right; apply IH|left].
Qed.

Lemma human_text fp a b : fp ∈ ["bytes"%string; "kB"%string; "MB"%string; "GB"%string; "TB"%string] →
  is_Some (text (lit_at 4096 fp) "%llu %s" [a; b; 4096]).
Proof.
  intros Hfp. assert (cstring (lit_at 1 "%llu %s" ∪ lit_at 4096 fp) 1 (lit "%llu %s") ∧
    cstring (lit_at 1 "%llu %s" ∪ lit_at 4096 fp) 4096 (lit fp)) as [H1 H2].
  { repeat (apply elem_of_cons in Hfp as [->|Hfp]; [split; concrete_cstring|]). by apply elem_of_nil in Hfp. }
  unfold text. edestruct printf_text_ok as [t ->]; [exact H1| |by exists t].
  apply (printable_conv _ [] [] [] [108; 108] LONGLONG 117 [32; 37; 115] [] [a; b] [4096]);
    [by apply Forall_nil|right; by apply Forall_nil|done|by left|by apply (bool_decide_unpack _)..|done|done|done|].
  apply printable_char; [done|].
  apply (printable_conv _ [] [] [] [] INT 115 [] [] [4096] []);
    [by apply Forall_nil|right; by apply Forall_nil|done|by left|by apply (bool_decide_unpack _)..|done|done| |by constructor].
  intros _. apply Forall_cons; split; [|by apply Forall_nil]. right. by exists (lit fp).
Qed.

(** [print_human_readable_size] returns. *)
Lemma print_human_ok size : is_Some (print_human_readable_size size).
Proof.
  unfold print_human_readable_size. destruct (size =? 1).
  - vm_compute. eauto.
  - pose proof (human_loop_unit ["kB"%string; "MB"%string; "GB"%string; "TB"%string] size "bytes") as H.
    destruct (human_loop _ _ _) as [v f]. by apply human_text.
Qed.

(** ** Octal fields *)

Lemma of_digits_app b ds ds' :
  of_digits b (ds ++ ds') = of_digits b ds + b ^ Z.of_nat (length ds) * of_digits b ds'.
Proof.
  unfold of_digits. induction ds as [|d ds IH]; [simpl; lia|].
  cbn [app foldr length]. rewrite IH, Nat2Z.inj_succ, Z.pow_succ_r by lia. lia.
Qed.

Lemma of_digits_zeros b n : of_digits b (replicate n 48) = 0.
Proof. unfold of_digits. induction n as [|n IH]; simpl; [done|]. rewrite IH. lia. Qed.

(** [%0ko] of a number below [8 ^ k] prints exactly [k] octal digits. *)
Lemma octal_text v k : 0 ≤ v < 8 ^ Z.of_nat k → (1 ≤ k ≤ 21)%nat →
  ∃ ds, format_integer v false false base_o (mk_conversion ZERO (Z.of_nat k) (-1) INT) = Some (rev ds) ∧
    length ds = k ∧ of_digits 8 ds = v ∧ Forall (λ c, 48 ≤ c < 56) ds.
Proof.
  intros Hv Hk. unfold format_integer, integer_buffer. cbn [flags precision width].
  destruct (digits_loop_ok base_o ZERO k (or_intror (or_introl eq_refl)) 65 v 0 [])
    as (ds & -> & _ & Hg); [lia|exact Hv|simpl; lia|].
  destruct (Hg eq_refl) as (Hl & H0 & Hb). destruct (Hb ltac:(done)) as [Ho HF].
  cbn [mbind option_bind app]. change (-1 <? 0) with true. cbv iota.
  rewrite zeros_loop_ok by lia. cbn [mbind option_bind].
  change (flag ZERO POUND) with false. cbn [andb mbind option_bind].
  set (ds' := ds ++ replicate _ 48).
  assert (of_digits 8 ds' = v ∧ Forall (λ c, 48 ≤ c < 56) ds' ∧ (length ds' ≤ k)%nat) as (O & F & L).
  { subst ds'. change (base base_o) with 8 in *. rewrite of_digits_app, of_digits_zeros.
    split; [lia|]. rewrite length_app, length_replicate. split; [|lia].
    apply Forall_app. split; [done|]. apply Forall_replicate. lia. }
  exists (ds' ++ replicate (k - length ds') 48).
  rewrite length_app, length_replicate, of_digits_app, of_digits_zeros, rev_app_distr.
  split; [|split; [lia|split; [lia|]]].
  - change (flag ZERO ZERO) with true. change (flag ZERO MINUS) with false.
    change (Z.land ZERO (Z.lor MINUS ZERO) =? 0) with false. cbn [sign_char Z.eqb negb app].
    rewrite (int32_small (_ - _ - _ - _)) by lia.
    rewrite (proj2 (Z.ltb_ge _ 0)) by lia.
    unfold output_dup. rewrite u32_small by (unfold is_u32; lia). rewrite app_nil_r.
    replace (Z.to_nat _) with (k - length ds')%nat by lia.
    rewrite (rev_alt (replicate _ _)). fold (reverse (replicate (k - length ds') 48)).
    by rewrite reverse_replicate.
  - apply Forall_app. split; [done|]. apply Forall_replicate. lia.
Qed.

(** ** The properties *)

(** C14: Formatting ends.  For a format whose conversions are well formed and have
    the arguments they need, with every output function that itself returns and
    leaves the format and its strings alone, [__vprintf] returns: no conversion
    overflows the 64 characters of the digit buffer, whatever the value, the
    flags, the width and the precision, and no loop over the format or over a
    string runs away. *)
Theorem printf_terminates {St} (mem_of : St → memory) (output : Z → St → option St)
    m format s args st : cstring m format s → printable m s args → m ⊆ mem_of st →
  (∀ ch st, m ⊆ mem_of st → ∃ st', output ch st = Some st' ∧ m ⊆ mem_of st') →
  ∃ st', __vprintf mem_of output format args st = Some st'.
Proof.
  intros H Hp Hm Hout.
  destruct (vprintf_collect_ok m s args Hp format H) as [t Ht].
  destruct (vprintf_sim fst collect mem_of output (λ s1 s2, s1.1 = m ∧ m ⊆ mem_of s2) (λ _, True))
    with (n1 := fuel m) (n2 := fuel (mem_of st)) (p := format) (args := args) (s1 := (m, @nil Z))
      (s2 := st) (s1' := (m, [] ++ t)) as (st' & H' & _).
  - by intros s1 s2 [-> ?].
  - intros ch s1 s2 s1' [E Hs] _ [= <-]. destruct (Hout ch s2 Hs) as (s2' & ? & ?). by exists s2'.
  - done.
  - done.
  - done.
  - by apply fuel_mono.
  - apply Ht. by apply cstring_fuel in H.
  - by exists st'.
Qed.

(** The memory of the examples: a format, a string, and a buffer of 16 bytes. *)
Definition sample_lits : memory := lit_at 1 "%d" ∪ lit_at 16 "%5x %s" ∪ lit_at 32 "ok".
Definition sample_mem : memory := sample_lits ∪ list_to_map (zip (seqZ 64 16) (replicate 16 255)).

Lemma sample_printable : printable sample_lits (lit "%5x %s") [255; 32].
Proof.
  apply (printable_conv _ [] [53] [] [] INT 120 [32; 37; 115] [] [255] [32]);
    [by apply Forall_nil|right; apply Forall_cons; split; [done|by apply Forall_nil]|done|by left
    |by apply (bool_decide_unpack _)..|done|done|done|].
  apply printable_char; [done|].
  apply (printable_conv _ [] [] [] [] INT 115 [] [] [32] []);
    [by apply Forall_nil|right; by apply Forall_nil|done|by left|by apply (bool_decide_unpack _)..|done|done| |by constructor].
  intros _. apply Forall_cons; split; [|by apply Forall_nil]. right. exists (lit "ok"). concrete_cstring.
Qed.

(** The buffer is mapped, and apart from the strings. *)
Lemma sample_buffer a n : (n ≤ 16)%nat → within 64 n a →
  sample_lits !! a = None ∧ is_Some (sample_mem !! a).
Proof.
  intros Hn Ha. assert (a ∈ seqZ 64 16) as Hin by (apply elem_of_seqZ; unfold within in Ha; lia).
  assert (Forall (λ a, bool_decide (sample_lits !! a = None) && bool_decide (is_Some (sample_mem !! a)) = true)
    (seqZ 64 16)) as HF by (vm_compute; repeat constructor).
  rewrite Forall_forall in HF. specialize (HF a Hin). apply andb_true_iff in HF as [H1 H2].
  by apply bool_decide_eq_true in H1, H2.
Qed.

Lemma printf_terminates_witness :
  ∃ st, __vprintf fst collect 16 [255; 32] (sample_mem, []) = Some st.
Proof.
  apply (printf_terminates fst collect sample_lits 16 (lit "%5x %s") [255; 32]).
  - concrete_cstring.
  - apply sample_printable.
  - by apply map_union_subseteq_l.
  - intros ch st H. eexists. split; [reflexivity|exact H].
Defined.

(** C26: [vsnprintf] is correct.  For a well-formed format whose text is [t], with a
    buffer that neither the format nor its strings are in, it returns the length
    of [t], stores the first [buf_size - 1] characters of [t] in the buffer,
    terminates them by a null character, and changes no other byte. *)
Theorem vsnprintf_correct m m1 buf size format s args : m1 ⊆ m → 1 ≤ size < 2 ^ 31 →
  mapped m buf (Z.to_nat size) → (∀ a, within buf (Z.to_nat size) a → m1 !! a = None) →
  cstring m1 format s → printable m1 s args →
  ∃ t, printf_text m1 format args = Some t ∧
    (Z.of_nat (length t) < 2 ^ 31 →
     ∃ m', vsnprintf m buf size format args = Some (m', Z.of_nat (length t)) ∧
       block m' buf (take (Z.to_nat (size - 1)) t ++ [0]) ∧
       same_outside m m' buf (Z.to_nat size)).
Proof.
  intros Hs Hz Hm Hd Hf Hp. destruct (printf_text_ok m1 format s args Hf Hp) as [t Ht].
  exists t. split; [done|]. intros Hl. by apply (vsnprintf_stores m m1).
Qed.

(** The text is [   ff ok]. *)
Lemma vsnprintf_correct_witness :
  ∃ m', vsnprintf sample_mem 64 6 16 [255; 32] = Some (m', 8) ∧
    block m' 64 [32; 32; 32; 102; 102; 0] ∧ same_outside sample_mem m' 64 6.
Proof.
  destruct (vsnprintf_correct sample_mem sample_lits 64 6 16 (lit "%5x %s") [255; 32])
    as (t & Ht & H).
  - by apply map_union_subseteq_l.
  - lia.
  - intros a Ha. by eapply sample_buffer; [|exact Ha]; lia.
  - intros a Ha. by eapply sample_buffer; [|exact Ha]; lia.
  - concrete_cstring.
  - apply sample_printable.
  - assert (printf_text sample_lits 16 [255; 32] = Some (lit "   ff ok")) as E
      by (vm_compute; reflexivity).
    rewrite E in Ht. apply (inj Some) in Ht. subst t. apply H. by vm_compute.
Defined.

(** What [snprintf] writes for an [int] with the format [%d], [atoi] reads back,
    if the buffer has room for a sign, ten digits and the terminator. *)
Theorem printf_atoi_roundtrip m m1 buf size format n : m1 ⊆ m → 12 ≤ size < 2 ^ 31 →
  buf ≠ NULL → mapped m buf (Z.to_nat size) →
  (∀ a, within buf (Z.to_nat size) a → m1 !! a = None) →
  cstring m1 format (lit "%d") → -2 ^ 31 ≤ n < 2 ^ 31 →
  ∃ m' len, snprintf m buf size format [u32 n] = Some (m', len) ∧ atoi m' buf = Some n.
Proof.
  intros Hs Hz Hb Hm Hd Hf Hn.
  destruct (printf_text_d m1 format n Hn Hf) as (ds & Ht & Ho & HF & Hl).
  assert (Z.of_nat (length ((if n <? 0 then [45] else []) ++ rev ds)) ≤ 11) as Hlen.
  { rewrite length_app, length_rev. destruct (n <? 0); simpl; lia. }
  destruct (vsnprintf_stores m m1 buf size format [u32 n] _ Hs ltac:(lia) Hm Hd Ht ltac:(lia))
    as (m' & H' & B & _).
  exists m'. eexists. split; [exact H'|]. rewrite take_ge in B by lia.
  destruct (rev ds) as [|d ds'] eqn:Er.
  { apply (f_equal length) in Er. rewrite length_rev in Er. simpl in Er. lia. }
  assert (HF' : Forall (λ c, isdigit c = true) (d :: ds')).
  { rewrite <- Er. apply Forall_rev, HF. }
  rewrite (atoi_ok m' buf [] (if n <? 0 then [45] else []) d ds' []);
    [|done| |done|destruct (n <? 0); auto|done|by intros ? [= <-]].
  - rewrite <- Er, of_digits_rev, Ho. f_equal.
    destruct (Z.ltb_spec n 0); [rewrite decide_True by done|rewrite decide_False by done];
      rewrite int32_small; lia.
  - split; [by rewrite app_nil_r|]. rewrite app_nil_r. simpl. apply Forall_app. split.
    + destruct (n <? 0); repeat constructor; lia.
    + eapply Forall_impl; [exact HF'|]. intros c Hc. unfold isdigit in Hc. bool_simp. lia.
Qed.

Lemma printf_atoi_roundtrip_witness :
  ∃ m' len, snprintf sample_mem 64 12 1 [u32 (-2147483648)] = Some (m', len) ∧
    atoi m' 64 = Some (-2147483648).
Proof.
  apply (printf_atoi_roundtrip sample_mem sample_lits 64 12 1 (-2147483648)).
  - by apply map_union_subseteq_l.
  - lia.
  - done.
  - intros a Ha. by eapply sample_buffer; [|exact Ha]; lia.
  - intros a Ha. by eapply sample_buffer; [|exact Ha]; lia.
  - concrete_cstring.
  - lia.
Defined.
