(* ===== verification/Ustar.v ===== *)
(** * ustar archive headers ([lib/ustar.c], [lib/ustar.h])

    A header is the list of its 512 bytes, the fields of [struct ustar_header]
    are slices of it.  A file name is the list of its characters, without the
    terminator; what [snprintf] and [strlcpy] leave in a field is what their
    theorems ([vsnprintf_correct], [strlcpy_ok]) say.

    The theorems: parsing a header that was made gives back the name (without
    dangerous prefixes), the type and the size; a stripped name does not start
    with one of the prefixes again; a damaged byte is noticed by the checksum. *)

From Stdlib Require Import String.
From S2P Require Import Prelude Machine FixedPoint Arith CString StdlibC Stdio.

Open Scope Z_scope.

Definition USTAR_REGULAR : Z := 48.
Definition USTAR_DIRECTORY : Z := 53.
Definition USTAR_EOF : Z := -1.
Definition USTAR_HEADER_SIZE : nat := 512.

(** ** [struct ustar_header] *)

(** A field: its offset and its size. *)
Record slice := mk_slice { ofs : nat; len : nat }.

Definition f_name : slice := mk_slice 0 100.
Definition f_mode : slice := mk_slice 100 8.
Definition f_uid : slice := mk_slice 108 8.
Definition f_gid : slice := mk_slice 116 8.
Definition f_size : slice := mk_slice 124 12.
Definition f_mtime : slice := mk_slice 136 12.
Definition f_chksum : slice := mk_slice 148 8.
Definition f_typeflag : slice := mk_slice 156 1.
Definition f_magic : slice := mk_slice 257 6.
Definition f_version : slice := mk_slice 263 2.
Definition f_uname : slice := mk_slice 265 32.
Definition f_gname : slice := mk_slice 297 32.
Definition f_prefix : slice := mk_slice 345 155.

Definition field (f : slice) (h : list Z) : list Z := take (len f) (drop (ofs f) h).

(** Stores the bytes [bs] at the start of a field. *)
Definition set_field (f : slice) (bs : list Z) (h : list Z) : list Z :=
  take (ofs f) h ++ bs ++ drop (ofs f + length bs) h.

(** [strlcpy (h->f, s, sizeof h->f)] and [snprintf (h->f, sizeof h->f, ...)] where
    the text is [s]. *)
Definition set_string (f : slice) (s : list Z) (h : list Z) : list Z :=
  set_field f (take (len f - 1) s ++ [0]) h.

(** ** Checksum *)

(** What a position adds to the checksum, which is calculated as if the checksum
    field were all spaces. *)
Definition chk_byte (h : list Z) (i : nat) : Z :=
  let in_chksum_field := (ofs f_chksum <=? i)%nat && (i <? ofs f_chksum + len f_chksum)%nat in
  if in_chksum_field then 32 else default 0 (h !! i).

Definition calculate_chksum (h : list Z) : Z :=
  foldl (λ chksum i, u32 (chksum + chk_byte h i)) 0 (seq 0 USTAR_HEADER_SIZE).

(** ** File names *)

(** [memcmp (s, t, length t) == 0], where [t] has no terminator. *)
Definition starts_with (t s : list Z) : bool := bool_decide (take (length t) s = t).

(** The rest of a string after its first slash. *)
Fixpoint after_slash (s : list Z) : option (list Z) :=
  match s with
  | [] => None
  | c :: s => if c =? 47 then Some s else after_slash s
  end.

Fixpoint strip_loop (n : nat) (s : list Z) : option (list Z) :=
  match n with
  | O => None
  | S n =>
      if starts_with (lit "/") s || starts_with (lit "./") s || starts_with (lit "../") s then
        s ← after_slash s; strip_loop n s
      else Some s
  end.

Definition strip_antisocial_prefixes (file_name : list Z) : option (list Z) :=
  s ← strip_loop (S (length file_name)) file_name;
  Some (if bool_decide (s = []) || bool_decide (s = lit "..") then lit "." else s).

(** ** [ustar_make_header] *)

(** The header except for the final checksum, from the octal texts. *)
Definition fill_header (file_name : list Z) (type : Z) (mode size mtime : list Z) : list Z :=
  let h := replicate USTAR_HEADER_SIZE 0 in
  let h := set_string f_name file_name h in
  let h := set_string f_mode mode h in
  let h := set_string f_uid (lit "0000000") h in
  let h := set_string f_gid (lit "0000000") h in
  let h := set_string f_size size h in
  let h := set_string f_mtime mtime h in
  let h := set_field f_typeflag [type] h in
  let h := set_string f_magic (lit "ustar") h in
  let h := set_field f_version [48; 48] h in
  let h := set_string f_gname (lit "root") h in
  set_string f_uname (lit "root") h.

(** The result and the header, which is left alone when the name is too long. *)
Definition ustar_make_header (file_name : list Z) (type size : Z) (h : list Z) :
    option (bool * list Z) :=
  assert! (type =? USTAR_REGULAR) || (type =? USTAR_DIRECTORY);
  file_name ← strip_antisocial_prefixes file_name;
  if (99 <? length file_name)%nat then Some (false, h)
  else
    mode ← text ∅ "%07o" [if type =? USTAR_REGULAR then 420 else 493];
    sz ← text ∅ "%011o" [u32 size];
    mtime ← text ∅ "%011o" [1136102400];
    let h := fill_header file_name type mode sz mtime in
    chksum ← text ∅ "%07o" [calculate_chksum h];
    Some (true, set_string f_chksum chksum h).

(** ** [ustar_parse_header] *)

Definition ULONG_MAX : Z := 4294967295.
Definition INT_MAX : Z := 2147483647.

(** The loop over the field [s], from the offset [ofs] on; [None] for [false]. *)
Fixpoint octal_loop (s : list Z) (ofs value : Z) : option Z :=
  match s with
  | [] => None
  | c :: s =>
      if (48 <=? c) && (c <=? 55) then
        if ULONG_MAX / 8 <? value then None
        else octal_loop s (ofs + 1) (u32 (c - 48 + value * 8))
      else if (c =? 32) || (c =? 0) then (if 0 <? ofs then Some value else None)
      else None
  end.

Definition parse_octal_field (s : list Z) : option Z := octal_loop s 0 0.

Definition is_all_zeros (block : list Z) : bool := forallb (λ b, b =? 0) block.

(** The characters of a field up to a null character. *)
Fixpoint c_string (bs : list Z) : list Z :=
  match bs with
  | [] => []
  | b :: bs => if b =? 0 then [] else b :: c_string bs
  end.

(** An error message, or the file's name (none for the end of the archive), type
    and size. *)
Definition ustar_parse_header (h : list Z) : option (string + (option (list Z) * Z * Z)) :=
  let byte f i := default 0 (field f h !! i) in
  if is_all_zeros h then Some (inr (None, USTAR_EOF, 0))
  else if negb (bool_decide (field f_magic h = lit "ustar" ++ [0])) then Some (inl "not a ustar archive"%string)
  else if negb (byte f_version 0%nat =? 48) || negb (byte f_version 1%nat =? 48)
  then Some (inl "invalid ustar version"%string)
  else match parse_octal_field (field f_chksum h) with
  | None => Some (inl "corrupt chksum field"%string)
  | Some chksum =>
  if negb (chksum =? calculate_chksum h) then Some (inl "checksum mismatch"%string)
  else if negb (byte f_name 99%nat =? 0) || negb (byte f_prefix 0%nat =? 0)
  then Some (inl "file name too long"%string)
  else if negb (byte f_typeflag 0%nat =? USTAR_REGULAR) && negb (byte f_typeflag 0%nat =? USTAR_DIRECTORY)
  then Some (inl "unimplemented file type"%string)
  else match (if byte f_typeflag 0%nat =? USTAR_REGULAR then
                match parse_octal_field (field f_size h) with
                | None => inl "corrupt file size field"%string
                | Some size_ul => if INT_MAX <? size_ul then inl "file too large"%string else inr size_ul
                end
              else inr 0) with
  | inl error => Some (inl error)
  | inr size =>
      file_name ← strip_antisocial_prefixes (c_string (field f_name h));
      Some (inr (Some file_name, byte f_typeflag 0%nat, size))
  end
  end.

(** ** Fields *)

Lemma length_set_field f bs h : (ofs f + length bs ≤ length h)%nat →
  length (set_field f bs h) = length h.
Proof. intros. unfold set_field. rewrite !length_app, length_take, length_drop. lia. Qed.

Lemma lookup_set_field f bs h i : (ofs f + length bs ≤ length h)%nat →
  set_field f bs h !! i =
    if decide (ofs f ≤ i < ofs f + length bs)%nat then bs !! (i - ofs f)%nat else h !! i.
Proof.
  intros Hl. unfold set_field. destruct (decide (i < ofs f)%nat).
  { rewrite decide_False by lia. rewrite lookup_app_l by (rewrite length_take; lia).
    by rewrite lookup_take_lt by lia. }
  rewrite lookup_app_r by (rewrite length_take; lia).
  rewrite length_take, Nat.min_l by lia. case_decide.
  - by rewrite lookup_app_l by lia.
  - rewrite lookup_app_r by lia. rewrite lookup_drop. f_equal. lia.
Qed.

Lemma lookup_field f h i : field f h !! i = if decide (i < len f)%nat then h !! (ofs f + i)%nat else None.
Proof.
  unfold field. case_decide; [by rewrite lookup_take_lt, lookup_drop by lia|].
  by rewrite lookup_take_ge by lia.
Qed.

(** A write that ends before a field or starts after it leaves the field alone. *)
Lemma field_set_other f g bs h : (ofs g + length bs ≤ length h)%nat →
  (ofs f + len f ≤ ofs g ∨ ofs g + length bs ≤ ofs f)%nat →
  field f (set_field g bs h) = field f h.
Proof.
  intros Hl Hd. apply list_eq. intros i. rewrite !lookup_field. case_decide; [|done].
  rewrite lookup_set_field by done. by rewrite decide_False by lia.
Qed.

Lemma field_set_same f bs h : (ofs f + len f ≤ length h)%nat → length bs = len f →
  field f (set_field f bs h) = bs.
Proof.
  intros Hl Hb. apply list_eq. intros i. rewrite lookup_field, lookup_set_field by lia.
  case_decide; [|by rewrite lookup_ge_None_2 by lia].
  rewrite decide_True by lia. f_equal. lia.
Qed.

(** ** Checksum *)

Definition zsum {A} (f : A → Z) (l : list A) : Z := foldr (λ i s, f i + s) 0 l.

Lemma foldl_u32 {A} (f : A → Z) l a : 0 ≤ a < 2 ^ 32 →
  foldl (λ c i, u32 (c + f i)) a l = u32 (a + zsum f l).
Proof.
  revert a. induction l as [|i l IH]; intros a Ha; cbn [foldl zsum foldr].
  - rewrite Z.add_0_r. symmetry. by apply u32_small.
  - rewrite IH by (unfold u32; by apply Z.mod_pos_bound). unfold u32.
    rewrite Zplus_mod_idemp_l. f_equal. unfold zsum. lia.
Qed.

Lemma zsum_ext {A} (f g : A → Z) l : (∀ i, i ∈ l → f i = g i) → zsum f l = zsum g l.
Proof.
  intros H. induction l as [|i l IH]; [done|]. cbn [zsum foldr].
  rewrite (H i) by set_solver. f_equal. apply IH. set_solver.
Qed.

Lemma zsum_range {A} (f : A → Z) b l : (∀ i, 0 ≤ f i ≤ b) → 0 ≤ zsum f l ≤ b * Z.of_nat (length l).
Proof.
  intros H. induction l as [|i l IH]; [simpl; lia|]. cbn [zsum foldr length].
  specialize (H i). unfold zsum in IH. lia.
Qed.

(** Changing the function at one place changes the sum by as much. *)
Lemma zsum_change (f g : nat → Z) l i : NoDup l → i ∈ l → (∀ j, j ≠ i → f j = g j) →
  zsum f l - zsum g l = f i - g i.
Proof.
  intros Hnd Hin H. induction Hnd as [|j l Hj Hnd IH]; [by apply not_elem_of_nil in Hin|].
  cbn [zsum foldr]. destruct (decide (j = i)) as [->|Hne].
  - fold (zsum f l) (zsum g l). rewrite (zsum_ext f g l); [lia|].
    intros j Hjl. apply H. by intros ->.
  - fold (zsum f l) (zsum g l). rewrite (H j) by done.
    apply elem_of_cons in Hin as [->|Hin]; [done|]. specialize (IH Hin). lia.
Qed.

Definition chk_sum (h : list Z) : Z := zsum (chk_byte h) (seq 0 USTAR_HEADER_SIZE).

Lemma calculate_chksum_eq h : calculate_chksum h = u32 (chk_sum h).
Proof.
  unfold calculate_chksum. rewrite foldl_u32 by lia. rewrite Z.add_0_l. reflexivity.
Qed.

Definition bytes (h : list Z) : Prop := Forall (λ b, 0 ≤ b < 256) h.
#[export] Instance bytes_dec h : Decision (bytes h) := _.

Lemma chk_byte_range h i : bytes h → 0 ≤ chk_byte h i ≤ 255.
Proof.
  intros H. unfold chk_byte. destruct (_ && _); [lia|].
  destruct (h !! i) eqn:E; simpl; [|lia]. eapply Forall_lookup_1 in E; [|exact H]. simpl in E. lia.
Qed.

Lemma chk_sum_range h : bytes h → 0 ≤ chk_sum h < 8 ^ 7.
Proof.
  intros H. unfold chk_sum. pose proof (zsum_range (chk_byte h) 255 (seq 0 USTAR_HEADER_SIZE)
    (λ i, chk_byte_range h i H)) as R. rewrite length_seq in R.
  change (255 * Z.of_nat USTAR_HEADER_SIZE) with 130560 in R. lia.
Qed.

Lemma calculate_chksum_small h : bytes h → calculate_chksum h = chk_sum h.
Proof.
  intros H. rewrite calculate_chksum_eq. apply u32_small. unfold is_u32.
  pose proof (chk_sum_range h H). lia.
Qed.

(** The checksum does not depend on its field. *)
Lemma chk_sum_chksum bs h : (length bs ≤ 8)%nat → (512 ≤ length h)%nat →
  chk_sum (set_field f_chksum bs h) = chk_sum h.
Proof.
  intros Hb Hl. apply zsum_ext. intros i _. unfold chk_byte.
  destruct ((ofs f_chksum <=? i)%nat && _) eqn:E; [done|].
  rewrite lookup_set_field by (simpl; lia). rewrite decide_False; [done|].
  apply andb_false_iff in E as [E%Nat.leb_gt|E%Nat.ltb_ge]; cbn [ofs len f_chksum] in *; lia.
Qed.

(** ** Octal fields *)

Lemma octal_loop_ok ds rest o value : Forall (λ c, 48 ≤ c < 56) ds →
  0 ≤ value → foldl (λ v c, v * 8 + (c - 48)) value ds < 2 ^ 32 →
  octal_loop (ds ++ rest) o value
    = octal_loop rest (o + Z.of_nat (length ds)) (foldl (λ v c, v * 8 + (c - 48)) value ds).
Proof.
  revert o value. induction ds as [|d ds IH]; intros o value HF Hv Hr; simpl app.
  - simpl. by rewrite Z.add_0_r.
  - apply Forall_cons in HF as [Hd HF]. cbn [octal_loop foldl length] in *.
    assert (∀ l v, 0 ≤ v → Forall (λ c, 48 ≤ c < 56) l → v ≤ foldl (λ v c, v * 8 + (c - 48)) v l) as Hm.
    { clear. induction l as [|c l IH]; intros v Hv HF; simpl; [lia|].
      apply Forall_cons in HF as [Hc HF]. specialize (IH (v * 8 + (c - 48)) ltac:(lia) HF). lia. }
    pose proof (Hm ds (value * 8 + (d - 48)) ltac:(lia) HF) as Hle.
    rewrite (proj2 (Z.leb_le 48 d)), (proj2 (Z.leb_le d 55)) by lia. cbn [andb].
    rewrite (proj2 (Z.ltb_ge (ULONG_MAX / 8) value)).
    2: { change (ULONG_MAX / 8) with 536870911. lia. }
    rewrite u32_small by (unfold is_u32; lia).
    replace (d - 48 + value * 8) with (value * 8 + (d - 48)) by lia.
    rewrite IH by (done || lia). f_equal. lia.
Qed.

Lemma foldl_of_digits ds : foldl (λ v c, v * 8 + (c - 48)) 0 (rev ds) = of_digits 8 ds.
Proof.
  unfold of_digits. induction ds as [|d ds IH]; simpl; [done|]. rewrite foldl_app, IH. simpl. lia.
Qed.

(** What [%0ko] leaves in a field of [k + 1] bytes is read back. *)
Lemma parse_octal_text ds : Forall (λ c, 48 ≤ c < 56) ds → ds ≠ [] → of_digits 8 ds < 2 ^ 32 →
  parse_octal_field (rev ds ++ [0]) = Some (of_digits 8 ds).
Proof.
  intros HF Hne Hv. unfold parse_octal_field.
  rewrite octal_loop_ok; [|by apply Forall_rev|lia|by rewrite foldl_of_digits].
  rewrite foldl_of_digits, length_rev. cbn [octal_loop]. simpl orb. cbv iota.
  destruct ds; [done|]. by rewrite (proj2 (Z.ltb_lt 0 _)) by (simpl; lia).
Qed.

(** The two formats of the header. *)
Lemma text_octal (k : nat) (format : string) w :
  (k = 7%nat ∧ format = "%07o"%string ∨ k = 11%nat ∧ format = "%011o"%string) →
  0 ≤ w < 2 ^ 32 → w < 8 ^ Z.of_nat k →
  ∃ ds, text ∅ format [w] = Some (rev ds) ∧ length ds = k ∧ of_digits 8 ds = w ∧
    Forall (λ c, 48 ≤ c < 56) ds.
Proof.
  intros Hk Hw H8. destruct (octal_text w k) as (ds & Ht & Hds); [lia|lia|].
  exists ds. split; [|done].
  destruct Hk as [[-> ->]|[-> ->]].
  - apply (printf_single _ 1 48 4 (mk_conversion ZERO 7 (-1) INT) _ [w] 111 _ []);
      [vm_compute; reflexivity|vm_compute; reflexivity|done|vm_compute; reflexivity
      |vm_compute; reflexivity| |vm_compute; reflexivity].
    unfold convert, va_unsigned. cbn [mbind option_bind Z.eqb Pos.eqb orb type va_word].
    rewrite u32_small by done. change (Z.of_nat 7) with 7 in Ht. by rewrite Ht.
  - apply (printf_single _ 1 48 5 (mk_conversion ZERO 11 (-1) INT) _ [w] 111 _ []);
      [vm_compute; reflexivity|vm_compute; reflexivity|done|vm_compute; reflexivity
      |vm_compute; reflexivity| |vm_compute; reflexivity].
    unfold convert, va_unsigned. cbn [mbind option_bind Z.eqb Pos.eqb orb type va_word].
    rewrite u32_small by done. change (Z.of_nat 11) with 11 in Ht. by rewrite Ht.
Qed.

(** ** Headers under construction *)

Definition header_ok (h : list Z) : Prop := length h = USTAR_HEADER_SIZE ∧ bytes h.

Lemma length_string f (s : list Z) : (1 ≤ len f)%nat → (length (take (len f - 1) s ++ [0%Z]) ≤ len f)%nat.
Proof. intros. rewrite length_app, length_take. simpl. lia. Qed.

Lemma set_field_ok f bs h : header_ok h → bytes bs → (ofs f + length bs ≤ 512)%nat →
  header_ok (set_field f bs h).
Proof.
  intros [Hl Hh] Hb Hf. split; [by rewrite length_set_field by (rewrite Hl; exact Hf)|].
  unfold set_field, bytes. rewrite !Forall_app.
  split; [by apply Forall_take|]. split; [done|by apply Forall_drop].
Qed.

Lemma set_string_ok f s h : header_ok h → bytes s → (1 ≤ len f)%nat → (ofs f + len f ≤ 512)%nat →
  header_ok (set_string f s h).
Proof.
  intros Hh Hs H1 Hf. apply set_field_ok; [done| |pose proof (length_string f s H1); lia].
  apply Forall_app. split; [by apply Forall_take|by repeat constructor].
Qed.

Lemma field_string_other f g s h : header_ok h → (1 ≤ len g)%nat → (ofs g + len g ≤ 512)%nat →
  (ofs f + len f ≤ ofs g ∨ ofs g + len g ≤ ofs f)%nat →
  field f (set_string g s h) = field f h.
Proof.
  intros [Hl _] H1 H2 H3. pose proof (length_string g s H1).
  apply field_set_other; [rewrite Hl; unfold USTAR_HEADER_SIZE; lia|lia].
Qed.

Lemma field_bytes_other f g bs h : header_ok h → (ofs g + length bs ≤ 512)%nat →
  (ofs f + len f ≤ ofs g ∨ ofs g + length bs ≤ ofs f)%nat →
  field f (set_field g bs h) = field f h.
Proof. intros [Hl _] H2 H3. apply field_set_other; [by rewrite Hl|done]. Qed.

Lemma field_string_same f s h : header_ok h → (ofs f + len f ≤ 512)%nat → (length s + 1 = len f)%nat →
  field f (set_string f s h) = s ++ [0].
Proof.
  intros [Hl _] Hf Hs. unfold set_string. rewrite take_ge by lia.
  apply field_set_same; [by rewrite Hl|]. rewrite length_app. simpl. lia.
Qed.

Lemma field_bytes_same f bs h : header_ok h → (ofs f + len f ≤ 512)%nat → length bs = len f →
  field f (set_field f bs h) = bs.
Proof. intros [Hl _] Hf Hs. apply field_set_same; [by rewrite Hl|done]. Qed.

Lemma zeros_ok : header_ok (replicate USTAR_HEADER_SIZE 0).
Proof. split; [apply length_replicate|]. apply Forall_replicate. lia. Qed.

Lemma field_zeros f : (ofs f + len f ≤ 512)%nat →
  field f (replicate USTAR_HEADER_SIZE 0) = replicate (len f) 0.
Proof.
  intros. unfold field. rewrite drop_replicate, take_replicate. f_equal.
  unfold USTAR_HEADER_SIZE. lia.
Qed.

(** A header of the code, and a field of it. *)
Ltac header :=
  repeat lazymatch goal with
  | |- header_ok (replicate _ _) => apply zeros_ok
  | |- header_ok (set_string _ _ _) => apply set_string_ok
  | |- header_ok (set_field _ _ _) => apply set_field_ok
  | |- bytes _ => solve [assumption | apply (bool_decide_unpack _); exact I]
  | |- (_ ≤ _)%nat => cbn; lia
  end.
Ltac skip_fields :=
  repeat match goal with
  | |- context [field ?f (set_string ?g ?s ?h)] =>
      rewrite (field_string_other f g s h); [|header|cbn; lia|cbn; lia|cbn; lia]
  | |- context [field ?f (set_field ?g ?s ?h)] =>
      rewrite (field_bytes_other f g s h); [|header|cbn; lia|cbn; lia]
  end.

(** ** Names *)

Definition bad_prefix (s : list Z) : bool :=
  starts_with (lit "/") s || starts_with (lit "./") s || starts_with (lit "../") s.

Lemma after_slash_bad s : bad_prefix s = true →
  ∃ p s', after_slash s = Some s' ∧ s = p ++ s' ∧ p ≠ [].
Proof.
  unfold bad_prefix, starts_with. intros H.
  change (lit "/") with [47] in H. change (lit "./") with [46; 47] in H.
  change (lit "../") with [46; 46; 47] in H. cbn [length] in H.
  destruct s as [|a s]; [done|]. cbn [after_slash].
  destruct (Z.eqb_spec a 47) as [->|Ha]; [by exists [47], s|].
  destruct s as [|b s]; cbn [take] in H.
  { apply orb_true_iff in H as [H|H]; [apply orb_true_iff in H as [H|H]|];
      apply bool_decide_eq_true in H; congruence. }
  cbn [after_slash]. destruct (Z.eqb_spec b 47) as [->|Hb]; [by exists [a; 47], s|].
  destruct s as [|c s]; cbn [take] in H;
    (apply orb_true_iff in H as [H|H]; [apply orb_true_iff in H as [H|H]|]);
    apply bool_decide_eq_true in H; try congruence.
  injection H as -> -> ->. by exists [46; 46; 47], s.
Qed.

Lemma strip_loop_ok n s : (length s < n)%nat →
  ∃ p s', strip_loop n s = Some s' ∧ s = p ++ s' ∧ bad_prefix s' = false.
Proof.
  revert s. induction n as [|n IH]; intros s Hn; [lia|]. cbn [strip_loop].
  fold (bad_prefix s). destruct (bad_prefix s) eqn:E; [|by exists [], s].
  destruct (after_slash_bad s E) as (p & s' & -> & -> & Hp). cbn [mbind option_bind].
  destruct (IH s') as (p' & s'' & -> & -> & H).
  { rewrite length_app in Hn. destruct p; [done|]. simpl in Hn. lia. }
  exists (p ++ p'), s''. by rewrite app_assoc.
Qed.

Lemma strip_fixed s : bad_prefix s = false → s ≠ [] → s ≠ lit ".." →
  strip_antisocial_prefixes s = Some s.
Proof.
  intros H H1 H2. unfold strip_antisocial_prefixes. cbn [strip_loop]. fold (bad_prefix s).
  rewrite H. cbn [mbind option_bind]. by rewrite !bool_decide_eq_false_2.
Qed.

(** The stripped name: a nonempty suffix of the name or a dot, which does not
    start with one of the prefixes, is not the parent directory, and is left
    alone by stripping it again. *)
Lemma strip_ok s : ∃ s', strip_antisocial_prefixes s = Some s' ∧
  (s' = lit "." ∨ ∃ p, s = p ++ s') ∧ bad_prefix s' = false ∧ s' ≠ [] ∧ s' ≠ lit "..".
Proof.
  destruct (strip_loop_ok (S (length s)) s) as (p & s' & E & Hs & Hb); [lia|].
  unfold strip_antisocial_prefixes. rewrite E. cbn [mbind option_bind].
  eexists. split; [reflexivity|].
  destruct (bool_decide_reflect (s' = [])); [cbn [orb]; split_and!; by auto|].
  destruct (bool_decide_reflect (s' = lit "..")); cbn [orb]; split_and!; eauto; done.
Qed.

Lemma c_string_ok s rest : Forall (λ c, 0 < c < 256) s → c_string (s ++ 0 :: rest) = s.
Proof.
  induction 1 as [|c s Hc _ IH]; [done|]. cbn [app c_string].
  rewrite (proj2 (Z.eqb_neq c 0)) by lia. by rewrite IH.
Qed.

Lemma field_name_zeros s : (length s ≤ 99)%nat →
  field f_name (set_string f_name s (replicate USTAR_HEADER_SIZE 0))
    = s ++ 0 :: replicate (99 - length s) 0.
Proof.
  intros Hs. unfold field, set_string, set_field. cbn [ofs len f_name].
  rewrite (take_ge s) by lia. rewrite drop_0, take_0, app_nil_l, drop_replicate, length_app, <- app_assoc.
  rewrite take_app_ge by lia. f_equal. cbn [app length].
  destruct (100 - length s)%nat as [|k] eqn:E; [lia|]. cbn [take]. f_equal.
  rewrite take_replicate. f_equal. unfold USTAR_HEADER_SIZE. lia.
Qed.

Lemma is_all_zeros_lookup h i b : is_all_zeros h = true → h !! i = Some b → b = 0.
Proof.
  intros H Hi. unfold is_all_zeros in H. rewrite forallb_forall in H.
  apply Z.eqb_eq, H, list_elem_of_In. by eapply list_elem_of_lookup_2.
Qed.

Lemma octal_bytes ds : Forall (λ c, 48 ≤ c < 56) ds → bytes (rev ds).
Proof. intros HF. apply Forall_rev. eapply Forall_impl; [exact HF|]. simpl. lia. Qed.

(** The last step: the checksum is put into its field, the others stay. *)
Lemma chksum_last h : header_ok h → ∃ ck, text ∅ "%07o" [calculate_chksum h] = Some (rev ck) ∧
  let h' := set_string f_chksum (rev ck) h in
  header_ok h' ∧ parse_octal_field (field f_chksum h') = Some (calculate_chksum h') ∧
  (∀ f, (ofs f + len f ≤ 148 ∨ 156 ≤ ofs f)%nat → field f h' = field f h).
Proof.
  intros Hh. pose proof (chk_sum_range h (proj2 Hh)) as Rh.
  rewrite calculate_chksum_small by apply Hh.
  destruct (text_octal 7 "%07o" (chk_sum h)) as (ck & -> & Lc & Vc & Fc);
    [auto|lia|exact (proj2 Rh)|].
  exists ck. split; [reflexivity|]. cbv zeta. pose proof (octal_bytes ck Fc) as Bc.
  assert (header_ok (set_string f_chksum (rev ck) h)) as Hh'
    by (apply set_string_ok; [exact Hh|exact Bc|cbn; lia..]).
  split; [exact Hh'|]. split.
  - rewrite field_string_same; [|exact Hh|cbn; lia|rewrite length_rev, Lc; reflexivity].
    rewrite (calculate_chksum_small (set_string _ _ h)) by apply Hh'.
    rewrite parse_octal_text; [|exact Fc|by intros ->|rewrite Vc; lia].
    rewrite Vc. f_equal. symmetry. apply chk_sum_chksum.
    + rewrite length_app, length_take, length_rev. cbn [len f_chksum length]. lia.
    + rewrite (proj1 Hh). unfold USTAR_HEADER_SIZE. lia.
  - intros f Hf. apply field_string_other; [exact Hh|cbn; lia..].
Qed.

(** What [fill_header] puts into the fields. *)
Section Fill.
Context (s md sz mt : list Z) (type : Z).
Context (Bn : bytes s) (Bm : bytes md) (Bs : bytes sz) (Bt : bytes mt) (By : bytes [type]).

Lemma fill_header_ok : header_ok (fill_header s type md sz mt).
Proof. unfold fill_header. header. Qed.

Lemma fill_header_fields : (length s ≤ 99)%nat → length sz = 11%nat →
  let h := fill_header s type md sz mt in
  field f_magic h = lit "ustar" ++ [0] ∧ field f_version h = [48; 48] ∧
  field f_name h = s ++ 0 :: replicate (99 - length s) 0 ∧
  field f_prefix h = replicate 155 0 ∧ field f_typeflag h = [type] ∧ field f_size h = sz ++ [0].
Proof.
  intros Hl Hs. unfold fill_header. cbv zeta. split_and!; skip_fields.
  - apply field_string_same; [header|cbn; lia|reflexivity].
  - apply field_bytes_same; [header|cbn; lia|reflexivity].
  - by apply field_name_zeros.
  - apply field_zeros. cbn. lia.
  - apply field_bytes_same; [header|cbn; lia|reflexivity].
  - apply field_string_same; [header|cbn; lia|]. rewrite Hs. reflexivity.
Qed.
End Fill.

(** The steps of [ustar_make_header], one at a time. *)
Lemma bind_step {A B} (o : option A) (x : A) (f : A → option B) r :
  o = Some x → f x = r → (o ≫= f) = r.
Proof. by intros ->. Qed.

Lemma make_header_steps name s type size h0 md sz mt ck :
  type = USTAR_REGULAR ∨ type = USTAR_DIRECTORY →
  strip_antisocial_prefixes name = Some s → (length s ≤ 99)%nat →
  text ∅ "%07o" [if type =? USTAR_REGULAR then 420 else 493] = Some md →
  text ∅ "%011o" [u32 size] = Some sz → text ∅ "%011o" [1136102400] = Some mt →
  text ∅ "%07o" [calculate_chksum (fill_header s type md sz mt)] = Some ck →
  ustar_make_header name type size h0
    = Some (true, set_string f_chksum ck (fill_header s type md sz mt)).
Proof.
  intros Ht Hs Hl E1 E2 E3 E4. unfold ustar_make_header.
  rewrite (ASSERT_true (_ || _)) by (destruct Ht as [-> | ->]; reflexivity).
  eapply bind_step; [reflexivity|]. eapply bind_step; [exact Hs|].
  rewrite (proj2 (Nat.ltb_ge 99 (length s))) by lia.
  eapply bind_step; [exact E1|]. eapply bind_step; [exact E2|]. eapply bind_step; [exact E3|].
  eapply bind_step; [exact E4|]. reflexivity.
Qed.

(** What the fields of a header that was made hold. *)
Lemma make_header_fields name s type size h0 :
  type = USTAR_REGULAR ∨ type = USTAR_DIRECTORY →
  strip_antisocial_prefixes name = Some s → Forall (λ c, 0 < c < 256) s → (length s ≤ 99)%nat →
  ∃ h, ustar_make_header name type size h0 = Some (true, h) ∧ header_ok h ∧
    field f_magic h = lit "ustar" ++ [0] ∧ field f_version h = [48; 48] ∧
    field f_name h = s ++ 0 :: replicate (99 - length s) 0 ∧
    field f_prefix h = replicate 155 0 ∧ field f_typeflag h = [type] ∧
    parse_octal_field (field f_size h) = Some (u32 size) ∧
    parse_octal_field (field f_chksum h) = Some (calculate_chksum h).
Proof.
  intros Ht Hs Hc Hl.
  assert (0 ≤ u32 size < 2 ^ 32) as Hu by (unfold u32; by apply Z.mod_pos_bound).
  destruct (text_octal 7 "%07o" (if type =? USTAR_REGULAR then 420 else 493)) as (md & E1 & _ & _ & Fm);
    [auto|destruct (_ =? _); lia|destruct (_ =? _); simpl; lia|].
  destruct (text_octal 11 "%011o" (u32 size)) as (sz & E2 & Ls & Vs & Fs); [auto|lia|simpl; lia|].
  destruct (text_octal 11 "%011o" 1136102400) as (mt & E3 & _ & _ & Ft); [auto|lia|simpl; lia|].
  apply octal_bytes in Fm as Bm, Ft as Bt. pose proof (octal_bytes _ Fs) as Bs.
  assert (bytes s) as Bn by (eapply Forall_impl; [exact Hc|]; simpl; lia).
  assert (bytes [type]) as By by (destruct Ht as [-> | ->]; by apply (bool_decide_unpack _)).
  pose proof (fill_header_ok s _ _ _ type Bn Bm Bs Bt By) as Hh.
  destruct (fill_header_fields s _ _ _ type Bn Bm Bs Bt By Hl) as (F1 & F2 & F3 & F4 & F5 & F6);
    [by rewrite length_rev|].
  destruct (chksum_last _ Hh) as (ck & E4 & Hh' & Hck & Ho).
  eexists. split; [exact (make_header_steps _ _ _ _ h0 _ _ _ _ Ht Hs Hl E1 E2 E3 E4)|].
  split; [exact Hh'|]. rewrite !Ho by (cbn; lia).
  split_and!; [exact F1|exact F2|exact F3|exact F4|exact F5| |exact Hck].
  rewrite F6, <- Vs. apply parse_octal_text; [exact Fs|intros ->; discriminate Ls|lia].
Qed.

(** ** The properties *)

Lemma not_all_zeros h f i b : field f h !! i = Some b → b ≠ 0 → is_all_zeros h = false.
Proof.
  intros Hi Hb. apply not_true_is_false. intros H. rewrite lookup_field in Hi.
  case_decide; [|discriminate Hi]. by apply Hb, (is_all_zeros_lookup h _ _ H Hi).
Qed.

Lemma parse_header_ok h type s size : is_all_zeros h = false →
  field f_magic h = lit "ustar" ++ [0] → field f_version h = [48; 48] →
  parse_octal_field (field f_chksum h) = Some (calculate_chksum h) →
  field f_name h !! 99%nat = Some 0 → field f_prefix h !! 0%nat = Some 0 →
  field f_typeflag h = [type] → type = USTAR_REGULAR ∨ type = USTAR_DIRECTORY →
  parse_octal_field (field f_size h) = Some size → size ≤ INT_MAX →
  strip_antisocial_prefixes (c_string (field f_name h)) = Some s →
  ustar_parse_header h = Some (inr (Some s, type, if type =? USTAR_REGULAR then size else 0)).
Proof.
  intros Hz F1 F2 F7 N P F5 Ht F6 Hsz Hs. unfold ustar_parse_header. rewrite Hz.
  rewrite (bool_decide_eq_true_2 _ F1), F2, F7, N, P, F5, F6. cbn [negb orb lookup list_lookup default from_option].
  rewrite !Z.eqb_refl. cbn [negb orb].
  rewrite (proj2 (Z.ltb_ge INT_MAX size)) by exact Hsz.
  destruct Ht as [-> | ->]; cbn [Z.eqb Pos.eqb USTAR_REGULAR USTAR_DIRECTORY negb andb];
    (eapply bind_step; [exact Hs|reflexivity]).
Qed.

(** C31: Archive headers round trip.  [ustar_make_header] refuses exactly the names
    that are longer than 99 characters when their dangerous prefixes are dropped;
    from any other header that it makes, [ustar_parse_header] gets the stripped
    name, the type and, for a regular file, the size, for every name and every
    size that an [int] holds. *)
Theorem ustar_roundtrip name type size h0 : Forall (λ c, 0 < c < 256) name →
  type = USTAR_REGULAR ∨ type = USTAR_DIRECTORY → 0 ≤ size < 2 ^ 31 →
  ∃ s, strip_antisocial_prefixes name = Some s ∧
    if decide (length s ≤ 99)%nat
    then ∃ h, ustar_make_header name type size h0 = Some (true, h) ∧
      ustar_parse_header h
        = Some (inr (Some s, type, if type =? USTAR_REGULAR then size else 0))
    else ustar_make_header name type size h0 = Some (false, h0).
Proof.
  intros Hn Ht Hsz. destruct (strip_ok name) as (s & Hs & Hsuf & Hb & Hne & Hdd).
  exists s. split; [exact Hs|].
  assert (Forall (λ c, 0 < c < 256) s) as Hc.
  { destruct Hsuf as [-> | [p ->]]; [by apply (bool_decide_unpack _)|].
    by apply Forall_app in Hn as [_ ?]. }
  case_decide as Hl.
  - destruct (make_header_fields name s type size h0 Ht Hs Hc Hl)
      as (h & Hm & Hh & F1 & F2 & F3 & F4 & F5 & F6 & F7).
    exists h. split; [exact Hm|].
    apply parse_header_ok; [|exact F1|exact F2|exact F7| | |exact F5|exact Ht| | |].
    + apply (not_all_zeros h f_magic 0 117); [by rewrite F1|discriminate].
    + rewrite F3, (lookup_app_r s) by lia. destruct (99 - length s)%nat as [|k] eqn:E; [reflexivity|].
      cbn [lookup list_lookup]. apply lookup_replicate. split; [reflexivity|lia].
    + rewrite F4. reflexivity.
    + rewrite F6. by rewrite u32_small by (unfold is_u32; lia).
    + unfold INT_MAX. lia.
    + rewrite F3, c_string_ok by exact Hc. by apply strip_fixed.
  - unfold ustar_make_header.
    rewrite (ASSERT_true (_ || _)) by (destruct Ht as [-> | ->]; reflexivity).
    eapply bind_step; [reflexivity|]. eapply bind_step; [exact Hs|].
    by rewrite (proj2 (Nat.ltb_lt 99 (length s))) by lia.
Qed.

Lemma ustar_roundtrip_witness :
  ∃ h, ustar_make_header (lit "/../tests/echo") USTAR_REGULAR 2147483647 [] = Some (true, h) ∧
    ustar_parse_header h = Some (inr (Some (lit "tests/echo"), USTAR_REGULAR, 2147483647)).
Proof.
  destruct (ustar_roundtrip (lit "/../tests/echo") USTAR_REGULAR 2147483647 []) as (s & Hs & H).
  - by apply (bool_decide_unpack _).
  - by left.
  - lia.
  - assert (strip_antisocial_prefixes (lit "/../tests/echo") = Some (lit "tests/echo")) as E
      by (vm_compute; reflexivity).
    rewrite E in Hs. apply (inj Some) in Hs. subst s.
    rewrite decide_True in H by (vm_compute; lia). exact H.
Defined.

(** *** Damaged headers *)

Lemma octal_field_nonzero s v : parse_octal_field s = Some v → ∃ b, s !! 0%nat = Some b ∧ b ≠ 0.
Proof.
  unfold parse_octal_field. destruct s as [|c s]; [discriminate|]. cbn [octal_loop].
  intros H. exists c. split; [reflexivity|]. intros ->. discriminate H.
Qed.

Lemma chk_sum_insert h i a b : header_ok h → h !! i = Some a → (i < 148 ∨ 156 ≤ i)%nat →
  chk_sum (<[i := b]> h) - chk_sum h = b - a.
Proof.
  intros [Hl _] Hi Hr. pose proof (lookup_lt_Some _ _ _ Hi) as Hlt. rewrite Hl in Hlt.
  unfold chk_sum. rewrite (zsum_change (chk_byte (<[i := b]> h)) (chk_byte h) _ i).
  - assert (∀ h', chk_byte h' i = default 0 (h' !! i)) as Hd.
    { intros h'. unfold chk_byte. cbn [ofs len f_chksum].
      destruct (Nat.leb_spec 148 i), (Nat.ltb_spec i (148 + 8)); cbn [andb]; try reflexivity; lia. }
    rewrite !Hd, list_lookup_insert_eq, Hi by (rewrite Hl; exact Hlt). reflexivity.
  - apply NoDup_seq.
  - apply elem_of_seq. lia.
  - intros j Hj. unfold chk_byte. by rewrite list_lookup_insert_ne by congruence.
Qed.

(** A changed byte in another field, and a changed checksum byte in the sum. *)
Lemma field_insert f h i b : (i < ofs f ∨ ofs f + len f ≤ i)%nat → field f (<[i := b]> h) = field f h.
Proof.
  intros Hi. apply list_eq. intros j. rewrite !lookup_field. case_decide; [|reflexivity].
  apply list_lookup_insert_ne. lia.
Qed.

Lemma calculate_chksum_insert h i b : (148 ≤ i < 156)%nat →
  calculate_chksum (<[i := b]> h) = calculate_chksum h.
Proof.
  intros Hi. rewrite !calculate_chksum_eq. f_equal. unfold chk_sum, zsum.
  induction (seq 0 USTAR_HEADER_SIZE) as [|j l IH]; [reflexivity|]. simpl. rewrite IH. f_equal.
  unfold chk_byte. destruct (decide (i = j)) as [<-|]; [|by rewrite list_lookup_insert_ne].
  cbn [ofs len f_chksum]. rewrite (proj2 (Nat.leb_le _ _)), (proj2 (Nat.ltb_lt _ _)) by lia. reflexivity.
Qed.

(** An accepted header has the magic text, and its checksum is right. *)
Lemma parse_header_accepts h name type size :
  ustar_parse_header h = Some (inr (Some name, type, size)) →
  field f_magic h = lit "ustar" ++ [0] ∧ parse_octal_field (field f_chksum h) = Some (calculate_chksum h).
Proof.
  unfold ustar_parse_header. destruct (is_all_zeros h); [discriminate|].
  case_bool_decide; [|discriminate]. cbn [negb]. destruct (negb _ || negb _); [discriminate|].
  destruct (parse_octal_field (field f_chksum h)) as [v|]; [|discriminate].
  by destruct (Z.eqb_spec v (calculate_chksum h)) as [->|]; [|discriminate].
Qed.

Lemma damage_outside h name type size i a b : header_ok h →
  ustar_parse_header h = Some (inr (Some name, type, size)) →
  h !! i = Some a → (i < 148 ∨ 156 ≤ i)%nat → 0 ≤ b < 256 → b ≠ a →
  ∃ error, ustar_parse_header (<[i := b]> h) = Some (inl error).
Proof.
  intros Hh Hp Hi Hr Hb Hne. set (h' := <[i := b]> h).
  assert (field f_chksum h' = field f_chksum h) as Ef by (apply field_insert; cbn; lia).
  assert (header_ok h') as Hh'.
  { unfold h'. split; [rewrite length_insert; apply Hh|]. apply Forall_insert; [apply Hh|exact Hb]. }
  destruct (parse_header_accepts _ _ _ _ Hp) as [_ Hc].
  destruct (octal_field_nonzero _ _ Hc) as (c & Hc0 & Hcz).
  unfold ustar_parse_header. rewrite (not_all_zeros h' f_chksum 0 c) by (by rewrite ?Ef).
  rewrite Ef, Hc. destruct (negb (bool_decide _)); [by eexists|].
  destruct (negb _ || negb _); [by eexists|].
  rewrite (proj2 (Z.eqb_neq (calculate_chksum h) (calculate_chksum h'))); [by eexists|].
  rewrite !calculate_chksum_small by (apply Hh || apply Hh').
  pose proof (chk_sum_insert h i a b Hh Hi Hr). fold h' in H. lia.
Qed.

(** In the checksum field: the number is the same, or the header is rejected. *)
Lemma damage_inside h name type size i b :
  ustar_parse_header h = Some (inr (Some name, type, size)) → (148 ≤ i < 156)%nat →
  let h' := <[i := b]> h in
  (∃ error, ustar_parse_header h' = Some (inl error)) ∨
  parse_octal_field (field f_chksum h') = parse_octal_field (field f_chksum h) ∧
    ustar_parse_header h' = Some (inr (Some name, type, size)).
Proof.
  intros Hp Hi h'. destruct (parse_header_accepts _ _ _ _ Hp) as [Hm Hc].
  assert (∀ f, (i < ofs f ∨ ofs f + len f ≤ i)%nat → field f h' = field f h) as Ef
    by (intros f; apply field_insert).
  revert Hp. unfold ustar_parse_header.
  rewrite (not_all_zeros h f_magic 0 117), (not_all_zeros h' f_magic 0 117)
    by (done || by rewrite ?Ef, ?Hm by (cbn; lia)).
  rewrite (Ef f_magic), (Ef f_version), (Ef f_name), (Ef f_prefix), (Ef f_typeflag), (Ef f_size) by (cbn; lia).
  unfold h'. rewrite calculate_chksum_insert by exact Hi. fold h'. rewrite Hc.
  destruct (negb (bool_decide _)); [discriminate|]. destruct (negb _ || negb _); [discriminate|].
  destruct (parse_octal_field (field f_chksum h')) as [v|]; [|by left; eexists].
  destruct (Z.eqb_spec v (calculate_chksum h)) as [->|]; [|by left; eexists].
  rewrite Z.eqb_refl. by right.
Qed.

(** C37: The checksum notices a damaged byte.  If one byte of a header that
    [ustar_parse_header] accepts is changed, the header is rejected with a
    message, unless the byte is one of the checksum field (bytes 148 to 155) and
    the field still reads as the same number, as when its terminator becomes a
    space; then the name, the type and the size are those of the intact header. *)
Theorem ustar_damage_detected h name type size i a b : header_ok h →
  ustar_parse_header h = Some (inr (Some name, type, size)) →
  h !! i = Some a → 0 ≤ b < 256 → b ≠ a →
  let h' := <[i := b]> h in
  (∃ error, ustar_parse_header h' = Some (inl error)) ∨
  (148 ≤ i < 156)%nat ∧
    parse_octal_field (field f_chksum h') = parse_octal_field (field f_chksum h) ∧
    ustar_parse_header h' = Some (inr (Some name, type, size)).
Proof.
  intros Hh Hp Hi Hb Hne h'. destruct (decide (148 ≤ i < 156)%nat) as [Hr|Hr].
  - destruct (damage_inside h name type size i b Hp Hr) as [?|?]; [by left|by right].
  - left. eapply damage_outside; [done|done|done|lia|done|done].
Qed.

Definition sample_header : list Z :=
  match ustar_make_header (lit "a") USTAR_REGULAR 5 [] with Some (_, h) => h | None => [] end.

Lemma ustar_damage_detected_witness :
  (∃ error, ustar_parse_header (<[124%nat := 49]> sample_header) = Some (inl error)) ∨
  (148 ≤ 124 < 156)%nat ∧
    parse_octal_field (field f_chksum (<[124%nat := 49]> sample_header))
      = parse_octal_field (field f_chksum sample_header) ∧
    ustar_parse_header (<[124%nat := 49]> sample_header) = Some (inr (Some (lit "a"), USTAR_REGULAR, 5)).
Proof.
  apply (ustar_damage_detected sample_header (lit "a") USTAR_REGULAR 5 124 48 49).
  - split; [vm_compute; reflexivity|]. apply (bool_decide_unpack _). vm_compute. exact I.
  - vm_compute. reflexivity.
  - vm_compute. reflexivity.
  - lia.
  - discriminate.
Defined.

(** The checksum's terminator may become a space. *)
Lemma checksum_terminator :
  ustar_parse_header (<[155%nat := 32]> sample_header) = Some (inr (Some (lit "a"), USTAR_REGULAR, 5)).
Proof. vm_compute. reflexivity. Qed.
