(* ===== verification/Io.v ===== *)
(** * Port input and output ([threads/io.h])

    Device drivers as functions on a state that has the machine's I/O ports.
    What the devices answer is not known: the state has the list of the values
    that successive reads return, and every theorem is for all such lists.  The
    accesses are logged in order.

    A driver function returns a value and a state, panics, or waits: it has used
    all the answers there are.  [wp m Q s]: run in the state [s], [m] does not
    panic, and if it returns then [Q] holds.  [twp m Q s]: it returns, and [Q]
    holds. *)

From S2P Require Import Prelude.

Open Scope Z_scope.

(** ** Ports *)

Inductive io_event :=
  | Inb (port data : Z)
  | Inw (port data : Z)
  | Outb (port data : Z)
  | Outw (port data : Z).

Record io := mk_io {
  answers : list Z;
  log : list io_event;
}.
#[export] Instance io_ctor : Ctor io := λ s, mk_io (answers s) (log s).

(** ** Driver functions *)

Inductive outcome (St A : Type) :=
  | Ret (a : A) (s : St)
  | Panic
  | Waits.
Arguments Ret {St A} a s.
Arguments Panic {St A}.
Arguments Waits {St A}.

Definition M (St A : Type) : Type := St → outcome St A.

#[export] Instance M_ret St : MRet (M St) := λ A a s, Ret a s.
#[export] Instance M_bind St : MBind (M St) := λ A B k m s,
  match m s with
  | Ret a s => k a s
  | Panic => Panic
  | Waits => Waits
  end.

(** Running a sequence. *)
Lemma bind_Ret {St A B} (m : M St A) (k : A → M St B) s a s' :
  m s = Ret a s' → (m ≫= k) s = k a s'.
Proof. unfold mbind, M_bind. by intros ->. Qed.

Lemma bind_Panic {St A B} (m : M St A) (k : A → M St B) s : m s = Panic → (m ≫= k) s = Panic.
Proof. unfold mbind, M_bind. by intros ->. Qed.

Section Basic.
Context {St : Type}.

Definition get {A} (f : St → A) : M St A := λ s, Ret (f s) s.
Definition modify (f : St → St) : M St unit := λ s, Ret tt (f s).
Definition check (b : bool) : M St unit := λ s, if b then Ret tt s else Panic.
Definition waits {A} : M St A := λ _, Waits.
(** A computation of a component that is not a driver; [None] is a panic. *)
Definition lift {A} (o : option A) : M St A :=
  λ s, match o with Some a => Ret a s | None => Panic end.
Definition when (b : bool) (m : M St unit) : M St unit := if b then m else mret tt.
End Basic.

(** The states that have the ports. *)
Class HasIo (St : Type) := {
  io_of : St → io;
  set_io : (io → io) → St → St;
}.

#[export] Instance io_has_io : HasIo io := {| io_of := id; set_io := id |}.

Section Ports.
Context `{HasIo St}.

(** The state after an access. *)
Definition used (s : St) : St := set_io (λ i, i <| answers := List.tl (answers i) |>) s.
Definition did (e : io_event) (s : St) : St := set_io (λ i, i <| log := log i ++ [e] |>) s.

(** The next answer, truncated to [w] bits. *)
Definition answer (w : Z) : M St Z := λ s,
  match answers (io_of s) with
  | [] => Waits
  | v :: _ => Ret (v mod 2 ^ w) (used s)
  end.

Definition note (e : io_event) : M St unit :=
  modify (did e).

Definition inb (port : Z) : M St Z := v ← answer 8; note (Inb port v);; mret v.
Definition inw (port : Z) : M St Z := v ← answer 16; note (Inw port v);; mret v.
Definition outb (port data : Z) : M St unit := note (Outb port (data mod 2 ^ 8)).
Definition outw (port data : Z) : M St unit := note (Outw port (data mod 2 ^ 16)).

(** [rep insw] and [rep outsw] of [cnt] halfwords. *)
Fixpoint insw (port : Z) (cnt : nat) : M St (list Z) :=
  match cnt with
  | O => mret []
  | S cnt => v ← inw port; vs ← insw port cnt; mret (v :: vs)
  end.

Fixpoint outsw (port : Z) (data : list Z) : M St unit :=
  match data with
  | [] => mret tt
  | v :: data => outw port v;; outsw port data
  end.
End Ports.

(** The states that have the interrupt flag. *)
Class HasIntr (St : Type) := {
  level_of : St → bool;
  set_level : bool → St → St;
}.

Definition intr_set_level `{HasIntr St} (level : bool) : M St unit := modify (set_level level).
Definition intr_disable `{HasIntr St} : M St bool :=
  old ← get level_of; intr_set_level false;; mret old.

(** ** Weakest preconditions *)

Section Wp.
Context {St : Type}.

Definition wp {A} (m : M St A) (Q : A → St → Prop) (s : St) : Prop :=
  match m s with
  | Ret a s => Q a s
  | Panic => False
  | Waits => True
  end.

Lemma wp_mono {A} (m : M St A) (P Q : A → St → Prop) s :
  wp m P s → (∀ a s', P a s' → Q a s') → wp m Q s.
Proof. unfold wp. destruct (m s); auto. Qed.

Lemma wp_ret {A} (a : A) Q s : Q a s → wp (mret a) Q s.
Proof. done. Qed.

Lemma wp_bind {A B} (m : M St A) (k : A → M St B) Q s :
  wp m (λ a, wp (k a) Q) s → wp (m ≫= k) Q s.
Proof. unfold wp, mbind, M_bind. by destruct (m s). Qed.

Lemma wp_get {A} (f : St → A) Q s : Q (f s) s → wp (get f) Q s.
Proof. done. Qed.

Lemma wp_modify (f : St → St) (Q : unit → St → Prop) s : Q tt (f s) → wp (modify f) Q s.
Proof. done. Qed.

Lemma wp_check b (Q : unit → St → Prop) s : b = true → Q tt s → wp (check b) Q s.
Proof. by intros ->. Qed.

Lemma wp_lift {A} (o : option A) a Q s : o = Some a → Q a s → wp (lift o) Q s.
Proof. by intros ->. Qed.

Lemma wp_waits {A} (Q : A → St → Prop) s : wp waits Q s.
Proof. done. Qed.

Lemma wp_when b (m : M St unit) Q s :
  (b = true → wp m Q s) → (b = false → Q tt s) → wp (when b m) Q s.
Proof. destruct b; intros H1 H2; [by apply H1|by apply H2]. Qed.

Lemma wp_run {A} (m : M St A) s a s' Q : wp m Q s → m s = Ret a s' → Q a s'.
Proof. unfold wp. intros H E. by rewrite E in H. Qed.

Lemma wp_intro {A} (m : M St A) s a s' (Q : A → St → Prop) : m s = Ret a s' → Q a s' → wp m Q s.
Proof. unfold wp. by intros ->. Qed.
End Wp.

Section Twp.
Context {St : Type}.

Definition twp {A} (m : M St A) (Q : A → St → Prop) (s : St) : Prop :=
  match m s with
  | Ret a s => Q a s
  | Panic | Waits => False
  end.

Lemma twp_mono {A} (m : M St A) (P Q : A → St → Prop) s :
  twp m P s → (∀ a s', P a s' → Q a s') → twp m Q s.
Proof. unfold twp. destruct (m s); auto. Qed.

Lemma twp_bind {A B} (m : M St A) (k : A → M St B) Q s :
  twp m (λ a, twp (k a) Q) s → twp (m ≫= k) Q s.
Proof. unfold twp, mbind, M_bind. by destruct (m s). Qed.

Lemma twp_intro {A} (m : M St A) s a s' (Q : A → St → Prop) : m s = Ret a s' → Q a s' → twp m Q s.
Proof. unfold twp. by intros ->. Qed.

Lemma twp_elim {A} (m : M St A) (Q : A → St → Prop) s :
  twp m Q s → ∃ a s', m s = Ret a s' ∧ Q a s'.
Proof. unfold twp. destruct (m s) as [a s'| |]; [eauto|done|done]. Qed.

Lemma twp_eq {A} (m m' : M St A) (Q : A → St → Prop) s s' :
  m s = m' s' → twp m' Q s' → twp m Q s.
Proof. unfold twp. by intros ->. Qed.

Lemma twp_modify (f : St → St) (Q : unit → St → Prop) s : Q tt (f s) → twp (modify f) Q s.
Proof. done. Qed.

Lemma twp_check b (Q : unit → St → Prop) s : b = true → Q tt s → twp (check b) Q s.
Proof. by intros ->. Qed.

(** The first step of a sequence, with a given result. *)
Lemma twp_seq {A B} (m : M St A) (k : A → M St B) P Q s :
  twp m P s → (∀ a s', P a s' → twp (k a) Q s') → twp (m ≫= k) Q s.
Proof. intros Hm Hk. apply twp_bind. eapply twp_mono; [exact Hm|exact Hk]. Qed.

Lemma panic_seq {A B} (m : M St A) (k : A → M St B) P s :
  twp m P s → (∀ a s', P a s' → k a s' = Panic) → (m ≫= k) s = Panic.
Proof. unfold twp, mbind, M_bind. destruct (m s); [auto|done|done]. Qed.
End Twp.

Section WpPorts.
Context `{HasIo St}.

Lemma wp_outb port data (Q : unit → St → Prop) s :
  Q tt (did (Outb port (data mod 2 ^ 8)) s) → wp (outb port data) Q s.
Proof. done. Qed.

Lemma wp_outw port data (Q : unit → St → Prop) s :
  Q tt (did (Outw port (data mod 2 ^ 16)) s) → wp (outw port data) Q s.
Proof. done. Qed.

Lemma wp_inb port (Q : Z → St → Prop) s :
  (∀ v, 0 ≤ v < 256 → Q v (did (Inb port v) (used s))) → wp (inb port) Q s.
Proof.
  intros HQ. apply wp_bind. unfold wp at 1, answer. destruct (answers (io_of s)) as [|v vs]; [done|].
  apply HQ. by apply Z.mod_pos_bound.
Qed.

Lemma wp_inw port (Q : Z → St → Prop) s :
  (∀ v, 0 ≤ v < 65536 → Q v (did (Inw port v) (used s))) → wp (inw port) Q s.
Proof.
  intros HQ. apply wp_bind. unfold wp at 1, answer. destruct (answers (io_of s)) as [|v vs]; [done|].
  apply HQ. by apply Z.mod_pos_bound.
Qed.
End WpPorts.

Create HintDb wp.
#[export] Hint Resolve wp_ret wp_get wp_modify wp_waits wp_outb wp_outw : wp.

(** One step of a driver function. *)
Ltac wp_step :=
  lazymatch goal with
  | |- wp (_ ≫= _) _ _ => apply wp_bind
  | |- wp (mret _) _ _ => apply wp_ret
  | |- wp (get _) _ _ => apply wp_get
  | |- wp (modify _) _ _ => apply wp_modify
  | |- wp (outb _ _) _ _ => apply wp_outb
  | |- wp (outw _ _) _ _ => apply wp_outw
  | |- wp (inb _) _ _ => apply wp_inb; intros ? ?
  | |- wp (inw _) _ _ => apply wp_inw; intros ? ?
  | |- wp waits _ _ => apply wp_waits
  end.

(** ** Functions that read no port

    Such a function leaves the answers alone and returns where it does not
    panic. *)

Section Quiet.
Context `{HasIo St}.

Definition quiet {A} (m : M St A) : Prop := ∀ s,
  match m s with
  | Ret _ s' => answers (io_of s') = answers (io_of s)
  | Panic => True
  | Waits => False
  end.

Lemma quiet_ret {A} (a : A) : quiet (mret a).
Proof. done. Qed.

Lemma quiet_bind {A B} (m : M St A) (k : A → M St B) :
  quiet m → (∀ a, quiet (k a)) → quiet (m ≫= k).
Proof.
  intros Hm Hk s. unfold mbind, M_bind. specialize (Hm s). destruct (m s) as [a s'| |]; [|done|done].
  specialize (Hk a s'). destruct (k a s'); [congruence|done|done].
Qed.

Lemma quiet_get {A} (f : St → A) : quiet (get f).
Proof. done. Qed.

Lemma quiet_modify (f : St → St) : (∀ s, answers (io_of (f s)) = answers (io_of s)) → quiet (modify f).
Proof. done. Qed.

Lemma quiet_check b : quiet (check b).
Proof. by destruct b. Qed.

Lemma quiet_lift {A} (o : option A) : quiet (lift o).
Proof. by destruct o. Qed.

Lemma quiet_when b (m : M St unit) : quiet m → quiet (when b m).
Proof. by destruct b. Qed.

Lemma quiet_returns {A} (m : M St A) (Q : A → St → Prop) s : quiet m → wp m Q s →
  ∃ a s', m s = Ret a s' ∧ Q a s' ∧ answers (io_of s') = answers (io_of s).
Proof.
  intros Hm Hw. specialize (Hm s). unfold wp in Hw. destruct (m s) as [a s'| |]; [|done|done].
  by exists a, s'.
Qed.

(** A read with a known answer. *)
Lemma inb_run port v vs s : answers (io_of s) = v :: vs →
  inb port s = Ret (v mod 2 ^ 8) (did (Inb port (v mod 2 ^ 8)) (used s)).
Proof. intros E. unfold inb, mbind, M_bind, answer. by rewrite E. Qed.
End Quiet.

#[export] Hint Resolve quiet_ret quiet_bind quiet_get quiet_modify quiet_check quiet_lift
  quiet_when : wp.

(** Goes through a function that reads no port. *)
Ltac quiet :=
  repeat first
    [ apply quiet_ret | apply quiet_get | apply quiet_check | apply quiet_lift
    | apply quiet_when | apply quiet_bind; [|intros ?]
    | apply quiet_modify; intros ?; reflexivity
    | match goal with
      | |- quiet (match ?x with _ => _ end) => destruct x
      end ].
