(* ===== verification/Serial.v ===== *)
(** * Serial port and input buffer ([devices/serial.c], [devices/input.c])

    The two files call each other: a byte that arrives goes to the input buffer,
    and a change of the input buffer is notified to the serial port, which then
    enables or disables its interrupts.  The keyboard puts its characters into
    the same buffer.

    A call that has to sleep in [intq_getc] or [intq_putc] takes the queue's lock,
    records its thread in [wait] and stops there: it returns [None] (or [false]).
    When the thread has been woken, [input_getc_woken] and [serial_putc_woken] are
    the rest of the call: the lock is released and the loop is entered again.

    The theorems: the bytes that reach the transmitter are the bytes given to
    [serial_putc], in order, and the bytes that [input_getc] returns are the
    bytes received and typed, in order, whatever the device answers and however
    calls and interrupts are interleaved; the interrupts that are enabled are
    those that have work to do; and none of this panics, as long as no second
    thread calls [input_getc], or [serial_putc] with interrupts on, while one is
    in such a call.  Several threads can fail the assertion in [wait]
    ([intq_panics_when_stale]); the console's lock keeps them out of
    [serial_putc]. *)

From S2P Require Import Prelude Intq Io.

Open Scope Z_scope.

(** ** Registers of the 16550A *)

Definition IO_BASE : Z := 1016.
Definition RBR_REG : Z := IO_BASE + 0.
Definition THR_REG : Z := IO_BASE + 0.
Definition IER_REG : Z := IO_BASE + 1.
Definition LS_REG : Z := IO_BASE + 0.
Definition MS_REG : Z := IO_BASE + 1.
Definition IIR_REG : Z := IO_BASE + 2.
Definition FCR_REG : Z := IO_BASE + 2.
Definition LCR_REG : Z := IO_BASE + 3.
Definition MCR_REG : Z := IO_BASE + 4.
Definition LSR_REG : Z := IO_BASE + 5.

Definition IER_RECV : Z := 1.
Definition IER_XMIT : Z := 2.
Definition LCR_N81 : Z := 3.
Definition LCR_DLAB : Z := 128.
Definition MCR_OUT2 : Z := 8.
Definition LSR_DR : Z := 1.
Definition LSR_THRE : Z := 32.

(** ** State *)

Inductive serial_mode := UNINIT | POLL | QUEUE.

#[export] Instance serial_mode_eq_dec : EqDecision serial_mode.
Proof. solve_decision. Defined.

(** [buffer] is the one of [input.c]; [intr_level] tells whether interrupts are
    on, [intr_context] whether an interrupt handler runs, [running] is
    [thread_current ()], and [unblocked] has the threads given to
    [thread_unblock]. *)
Record serial := mk_serial {
  ports : io;
  intr_level : bool;
  intr_context : bool;
  running : Z;
  mode : serial_mode;
  txq : intq;
  buffer : intq;
  unblocked : list Z;
}.
#[export] Instance serial_ctor : Ctor serial := λ s,
  mk_serial (ports s) (intr_level s) (intr_context s) (running s) (mode s) (txq s) (buffer s) (unblocked s).
#[export] Instance serial_has_io : HasIo serial :=
  {| io_of := ports; set_io := λ f s, s <| ports ::= f |> |}.

#[export] Instance serial_has_intr : HasIntr serial :=
  {| level_of := intr_level; set_level := λ l s, s <| intr_level := l |> |}.

(** [ASSERT (intr_get_level () == INTR_OFF)] and [ASSERT (!intr_context ())]. *)
Definition assert_intr_off : M serial unit := off ← get (λ s, negb (intr_level s)); check off.
Definition assert_thread : M serial unit := thread ← get (λ s, negb (intr_context s)); check thread.

(** The two queues. *)
Inductive which := Tx | Input.
Definition queue_of (w : which) (s : serial) : intq := match w with Tx => txq s | Input => buffer s end.
Definition set_queue (w : which) (q : intq) (s : serial) : serial :=
  match w with Tx => s <| txq := q |> | Input => s <| buffer := q |> end.

Definition q_empty (w : which) : M serial bool :=
  assert_intr_off;; get (λ s, intq_empty (queue_of w s)).
Definition q_full (w : which) : M serial bool :=
  assert_intr_off;; get (λ s, intq_full (queue_of w s)).

(** A thread that [signal] wakes. *)
Definition wake (t : option Z) : M serial unit :=
  modify (λ s, s <| unblocked := unblocked s ++ option_list t |>).

(** [lock_acquire (&q->lock)] and [wait], up to [thread_block].  A thread that
    finds the lock held sleeps in [lock_acquire]. *)
Definition q_wait (w : which) (c : waiter) : M serial unit :=
  q ← get (queue_of w);
  t ← get running;
  context ← get intr_context;
  match lock q with
  | Some _ => mret tt
  | None =>
      q ← lift (wait context t (q <| lock := Some t |>) c);
      modify (set_queue w q)
  end.

(** The end of an iteration when [thread_block] has returned: [lock_release]. *)
Definition q_release (w : which) : M serial unit :=
  q ← get (queue_of w);
  t ← get running;
  check (bool_decide (lock q = Some t));;
  modify (set_queue w (q <| lock := None |>)).

(** [intq_getc] and [intq_putc], up to where they sleep. *)
Definition q_getc (w : which) : M serial (option Z) :=
  empty ← q_empty w;
  if (empty : bool) then
    assert_thread;; q_wait w Not_empty;; mret None
  else
    q ← get (queue_of w);
    '(q, byte, woken) ← lift (intq_getc_tail q);
    modify (set_queue w q);; wake woken;; mret (Some byte).

Definition q_putc (w : which) (byte : Z) : M serial bool :=
  full ← q_full w;
  if (full : bool) then
    assert_thread;; q_wait w Not_full;; mret false
  else
    q ← get (queue_of w);
    '(q, woken) ← lift (intq_putc_tail q byte);
    modify (set_queue w q);; wake woken;; mret true.

(** ** [input_full] and the interrupt enable register *)

Definition input_full : M serial bool :=
  assert_intr_off;; q_full Input.

Definition write_ier : M serial unit :=
  assert_intr_off;;
  empty ← q_empty Tx;
  full ← input_full;
  outb IER_REG (Z.lor (if empty : bool then 0 else IER_XMIT) (if full : bool then 0 else IER_RECV)).

Definition serial_notify : M serial unit :=
  assert_intr_off;;
  queued ← get (λ s, bool_decide (mode s = QUEUE));
  when queued write_ier.

(** ** [devices/input.c] *)

Definition input_init : M serial unit := modify (λ s, s <| buffer := intq_init (buffer s) |>).

Definition input_putc (key : Z) : M serial unit :=
  assert_intr_off;;
  full ← q_full Input; check (negb full);;
  q_putc Input key;;
  serial_notify.

(** [input_getc] from the loop of [intq_getc] on. *)
Definition input_getc_from (old_level : bool) : M serial (option Z) :=
  key ← q_getc Input;
  match key with
  | Some _ => serial_notify;; intr_set_level old_level
  | None => mret tt
  end;;
  mret key.

Definition input_getc : M serial (option Z) :=
  old_level ← intr_disable;
  input_getc_from old_level.

(** The rest of the call of a thread that was woken. *)
Definition input_getc_woken (old_level : bool) : M serial (option Z) :=
  q_release Input;; input_getc_from old_level.

(** ** [devices/serial.c] *)

Definition set_serial (bps : Z) : M serial unit :=
  let base_rate := 1843200 / 16 in
  let divisor := (base_rate ÷ bps) mod 65536 in
  check ((300 <=? bps) && (bps <=? 115200));;
  outb LCR_REG (Z.lor LCR_N81 LCR_DLAB);;
  outb LS_REG (Z.land divisor 255);;
  outb MS_REG (Z.shiftr divisor 8);;
  outb LCR_REG LCR_N81.

Definition init_poll : M serial unit :=
  uninit ← get (λ s, bool_decide (mode s = UNINIT)); check uninit;;
  outb IER_REG 0;;
  outb FCR_REG 0;;
  set_serial 9600;;
  outb MCR_REG MCR_OUT2;;
  modify (λ s, s <| txq := intq_init (txq s) |> <| mode := POLL |>).

(** [while ((inb (LSR_REG) & LSR_THRE) == 0) continue], at most [n] reads. *)
Fixpoint poll_loop (n : nat) : M serial unit :=
  match n with
  | O => waits
  | S n =>
      lsr ← inb LSR_REG;
      if Z.land lsr LSR_THRE =? 0 then poll_loop n else mret tt
  end.

Definition putc_poll (byte : Z) : M serial unit :=
  assert_intr_off;;
  n ← get (λ s, length (answers (ports s)));
  poll_loop (S n);;
  outb THR_REG byte.

(** [serial_putc] from the loop of [intq_putc] on; [false] if the thread sleeps. *)
Definition serial_putc_from (old_level : bool) (byte : Z) : M serial bool :=
  queued ← q_putc Tx byte;
  when queued (write_ier;; intr_set_level old_level);;
  mret queued.

Definition serial_putc (byte : Z) : M serial bool :=
  old_level ← intr_disable;
  m ← get mode;
  if decide (m = QUEUE) then
    full ← q_full Tx;
    when (negb old_level && full)
      (b ← q_getc Tx;
       match b with Some b => putc_poll b | None => mret tt end);;
    serial_putc_from old_level byte
  else
    when (bool_decide (m = UNINIT)) init_poll;;
    putc_poll byte;;
    intr_set_level old_level;;
    mret true.

(** The rest of the call of a thread that was woken. *)
Definition serial_putc_woken (old_level : bool) (byte : Z) : M serial bool :=
  q_release Tx;; serial_putc_from old_level byte.

Fixpoint flush_loop (n : nat) : M serial unit :=
  match n with
  | O => waits
  | S n =>
      empty ← q_empty Tx;
      if (empty : bool) then mret tt
      else
        b ← q_getc Tx;
        match b with Some b => putc_poll b | None => mret tt end;;
        flush_loop n
  end.

(** The queue has room for 63 bytes. *)
Definition serial_flush : M serial unit :=
  old_level ← intr_disable;
  flush_loop 64;;
  intr_set_level old_level.

(** [intr_register_ext] fills the interrupt table, which is not part of this
    state. *)
Definition serial_init_queue : M serial unit :=
  m ← get mode;
  when (bool_decide (m = UNINIT)) init_poll;;
  poll ← get (λ s, bool_decide (mode s = POLL)); check poll;;
  modify (λ s, s <| mode := QUEUE |>);;
  old_level ← intr_disable;
  write_ier;;
  intr_set_level old_level.

(** Both loops of the handler read at least one answer in an iteration. *)
Fixpoint receive_loop (n : nat) : M serial unit :=
  match n with
  | O => waits
  | S n =>
      full ← input_full;
      if (full : bool) then mret tt
      else
        lsr ← inb LSR_REG;
        if Z.land lsr LSR_DR =? 0 then mret tt
        else b ← inb RBR_REG; input_putc b;; receive_loop n
  end.

Fixpoint transmit_loop (n : nat) : M serial unit :=
  match n with
  | O => waits
  | S n =>
      empty ← q_empty Tx;
      if (empty : bool) then mret tt
      else
        lsr ← inb LSR_REG;
        if Z.land lsr LSR_THRE =? 0 then mret tt
        else
          b ← q_getc Tx;
          match b with Some b => outb THR_REG b | None => mret tt end;;
          transmit_loop n
  end.

Definition serial_interrupt : M serial unit :=
  inb IIR_REG;;
  n ← get (λ s, length (answers (ports s)));
  receive_loop (S n);;
  n ← get (λ s, length (answers (ports s)));
  transmit_loop (S n);;
  write_ier.

(** ** What the port has seen

    The registers at [IO_BASE] and [IO_BASE + 1] are the divisor while the bit
    [LCR_DLAB] is set, data and interrupt enable otherwise. *)
Record uart := mk_uart {
  dlab : bool;
  sent : list Z;
  rcvd : list Z;
  ier : Z;
}.
#[export] Instance uart_ctor : Ctor uart := λ u, mk_uart (dlab u) (sent u) (rcvd u) (ier u).

Definition uart_step (u : uart) (e : io_event) : uart :=
  match e with
  | Outb p v =>
      if p =? LCR_REG then u <| dlab := negb (Z.land v LCR_DLAB =? 0) |>
      else if dlab u then u
      else if p =? THR_REG then u <| sent := sent u ++ [v] |>
      else if p =? IER_REG then u <| ier := v |>
      else u
  | Inb p v => if negb (dlab u) && (p =? RBR_REG) then u <| rcvd := rcvd u ++ [v] |> else u
  | _ => u
  end.

Definition uart_of (l : list io_event) : uart := foldl uart_step (mk_uart false [] [] 0) l.

(** ** Abstract states *)

Record view := mk_view {
  v_level : bool;
  v_context : bool;
  v_mode : serial_mode;
  v_tx : list Z;
  v_in : list Z;
  v_sent : list Z;
  v_rcvd : list Z;
  v_ier : Z;
}.
#[export] Instance view_ctor : Ctor view := λ v,
  mk_view (v_level v) (v_context v) (v_mode v) (v_tx v) (v_in v) (v_sent v) (v_rcvd v) (v_ier v).

Definition byte (b : Z) : Prop := 0 ≤ b < 256.

(** The state [s] is well formed and [v] is what it stands for. *)
Record views (s : serial) (v : view) : Prop := {
  vs_tx : wf (txq s);
  vs_buffer : wf (buffer s);
  vs_dlab : dlab (uart_of (log (ports s))) = false;
  vs_eq : v = mk_view (intr_level s) (intr_context s) (mode s) (contents (txq s))
    (contents (buffer s)) (sent (uart_of (log (ports s)))) (rcvd (uart_of (log (ports s))))
    (ier (uart_of (log (ports s))));
}.

(** The contents of a queue. *)
Definition v_queue (w : which) (v : view) : list Z := match w with Tx => v_tx v | Input => v_in v end.
Definition set_v_queue (w : which) (l : list Z) (v : view) : view :=
  match w with Tx => v <| v_tx := l |> | Input => v <| v_in := l |> end.

Definition wanted_ier (v : view) : Z :=
  Z.lor (if decide (v_tx v = []) then 0 else IER_XMIT)
    (if decide (length (v_in v) = 63%nat) then 0 else IER_RECV).

(** ** The operations on abstract states *)

Lemma uart_of_snoc l e : uart_of (l ++ [e]) = uart_step (uart_of l) e.
Proof. unfold uart_of. by rewrite foldl_app. Qed.

(** An access that the UART does not count. *)
Lemma views_did s v e : views s v →
  uart_step (uart_of (log (ports s))) e = uart_of (log (ports s)) → views (did e s) v.
Proof.
  intros [V1 V2 V3 ->] H. split; simpl; rewrite ?uart_of_snoc, ?H; done.
Qed.

Lemma views_used s v : views s v → views (used s) v.
Proof. by intros [V1 V2 V3 ->]. Qed.

Lemma wp_inb_views port s v Q : views s v → port ≠ RBR_REG →
  (∀ x s', views s' v → byte x → Q x s') → wp (inb port) Q s.
Proof.
  intros V Hp HQ. apply wp_inb. intros x Hx. apply HQ; [|done].
  apply views_did; [by apply views_used|]. simpl.
  rewrite (proj2 (Z.eqb_neq port RBR_REG)) by done. by rewrite andb_false_r.
Qed.

Lemma wp_rbr_views s v Q : views s v →
  (∀ x s', views s' (v <| v_rcvd := v_rcvd v ++ [x] |>) → byte x → Q x s') → wp (inb RBR_REG) Q s.
Proof.
  intros [V1 V2 V3 ->] HQ. apply wp_inb. intros x Hx. apply HQ; [|done].
  split; simpl; rewrite ?uart_of_snoc; simpl; rewrite ?V3; done.
Qed.

Lemma wp_thr_views b s v (Q : unit → serial → Prop) : views s v → byte b →
  (∀ s', views s' (v <| v_sent := v_sent v ++ [b] |>) → Q tt s') → wp (outb THR_REG b) Q s.
Proof.
  intros [V1 V2 V3 ->] Hb HQ. apply wp_outb, HQ. unfold byte in Hb. rewrite Z.mod_small by done.
  split; simpl; rewrite ?uart_of_snoc; simpl; rewrite ?V3; done.
Qed.

Lemma wp_ier_views x s v (Q : unit → serial → Prop) : views s v → byte x →
  (∀ s', views s' (v <| v_ier := x |>) → Q tt s') → wp (outb IER_REG x) Q s.
Proof.
  intros [V1 V2 V3 ->] Hb HQ. apply wp_outb, HQ. unfold byte in Hb. rewrite Z.mod_small by done.
  split; simpl; rewrite ?uart_of_snoc; simpl; rewrite ?V3; done.
Qed.

(** Reading a part of the state. *)
Lemma wp_level_views s v Q : views s v → Q (v_level v) s → wp (get level_of) Q s.
Proof. by intros [V1 V2 V3 ->]. Qed.

Lemma wp_off_views s v Q : views s v → v_level v = false → Q tt s →
  wp assert_intr_off Q s.
Proof. intros [V1 V2 V3 ->] H HQ. unfold assert_intr_off. do 2 wp_step. simpl in H. by rewrite H. Qed.

Lemma wp_thread_views s v Q : views s v → v_context v = false → Q tt s → wp assert_thread Q s.
Proof. intros [V1 V2 V3 ->] H HQ. unfold assert_thread. do 2 wp_step. simpl in H. by rewrite H. Qed.

Lemma wp_set_level_views l s v Q : views s v →
  (∀ s', views s' (v <| v_level := l |>) → Q tt s') → wp (intr_set_level l) Q s.
Proof. intros [V1 V2 V3 ->] HQ. apply wp_modify, HQ. by split. Qed.

Lemma wp_disable_views s v Q : views s v →
  (∀ s', views s' (v <| v_level := false |>) → Q (v_level v) s') → wp intr_disable Q s.
Proof.
  intros V HQ. unfold intr_disable. wp_step. eapply wp_level_views; [done|]. wp_step.
  eapply wp_set_level_views; [done|]. intros s' V'. wp_step. by apply HQ.
Qed.

Lemma queue_views w s v : views s v → wf (queue_of w s) ∧ contents (queue_of w s) = v_queue w v.
Proof. intros [V1 V2 V3 ->]. by destruct w. Qed.

Lemma set_queue_views w q l s v : views s v → wf q → contents q = l →
  views (set_queue w q s) (set_v_queue w l v).
Proof. intros [V1 V2 V3 ->] W <-. destruct w; by split. Qed.

Lemma wake_views t s v Q : views s v → (∀ s', views s' v → Q tt s') → wp (wake t) Q s.
Proof. intros [V1 V2 V3 ->] HQ. apply wp_modify, HQ. by split. Qed.

Lemma wp_empty_views w s v Q : views s v → v_level v = false →
  Q (bool_decide (v_queue w v = [])) s → wp (q_empty w) Q s.
Proof.
  intros V L HQ. unfold q_empty. wp_step. eapply wp_off_views; [done..|]. wp_step.
  destruct (queue_views w s v V) as [W E]. rewrite <- E in HQ.
  replace (intq_empty (queue_of w s)) with (bool_decide (contents (queue_of w s) = [])); [done|].
  apply eq_true_iff_eq. rewrite bool_decide_eq_true, empty_count by done.
  pose proof (contents_length (queue_of w s)) as HL. rewrite <- HL.
  destruct (contents (queue_of w s)); simpl; split; done || lia.
Qed.

Lemma wp_full_views w s v Q : views s v → v_level v = false →
  Q (bool_decide (length (v_queue w v) = 63%nat)) s → wp (q_full w) Q s.
Proof.
  intros V L HQ. unfold q_full. wp_step. eapply wp_off_views; [done..|]. wp_step.
  destruct (queue_views w s v V) as [W E]. rewrite <- E in HQ.
  replace (intq_full (queue_of w s)) with (bool_decide (length (contents (queue_of w s)) = 63%nat)); [done|].
  apply eq_true_iff_eq. rewrite bool_decide_eq_true, full_count by done.
  pose proof (contents_length (queue_of w s)) as HL. rewrite <- HL. lia.
Qed.

(** The queue never has more than 63 bytes. *)
Lemma queue_length w s v : views s v → (length (v_queue w v) ≤ 63)%nat.
Proof.
  intros V. destruct (queue_views w s v V) as [W <-].
  pose proof (contents_length (queue_of w s)). pose proof (count_range (queue_of w s)). lia.
Qed.

Lemma wp_getc_views w b l s v Q : views s v → v_level v = false → v_queue w v = b :: l →
  (∀ s', views s' (set_v_queue w l v) → Q (Some b) s') → wp (q_getc w) Q s.
Proof.
  intros V L E HQ. unfold q_getc. wp_step. eapply wp_empty_views; [done..|].
  rewrite E. cbn. do 2 wp_step. destruct (queue_views w s v V) as [W Ec].
  destruct (intq_getc_tail_ok (queue_of w s) W) as (q' & b' & Hg & W' & Ec' & _).
  { rewrite condition_count by done. apply negb_true_iff, Z.eqb_neq.
    rewrite <- contents_length, Ec, E. simpl. lia. }
  rewrite Ec, E in Ec'. injection Ec' as <- ->. wp_step. eapply wp_lift; [exact Hg|]. cbn beta iota.
  wp_step. wp_step. wp_step. eapply wake_views; [by apply set_queue_views|].
  intros s' V'. wp_step. by apply HQ.
Qed.

(** A thread goes to sleep. *)
Lemma wp_wait_views w c s v (Q : unit → serial → Prop) : views s v → v_context v = false →
  condition (queue_of w s) c = false → (∀ s', views s' v → Q tt s') → wp (q_wait w c) Q s.
Proof.
  intros V C E HQ. unfold q_wait. wp_step. wp_step. wp_step. wp_step. wp_step. wp_step.
  destruct (lock (queue_of w s)) as [h|]; [wp_step; by apply HQ|]. wp_step.
  assert (intr_context s = false) as -> by (by destruct V as [_ _ _ ->]).
  eapply wp_lift; [unfold wait; rewrite condition_lock, E; reflexivity|]. apply wp_modify, HQ.
  destruct (queue_views w s v V) as [[Hb Hh Ht] Ec].
  replace v with (set_v_queue w (v_queue w v) v) by (by destruct w, v).
  apply set_queue_views; [done|destruct c; by split|rewrite <-Ec; by destruct c].
Qed.

Lemma wp_getc_empty_views w s v Q : views s v → v_level v = false → v_context v = false →
  v_queue w v = [] → (∀ s', views s' v → Q None s') → wp (q_getc w) Q s.
Proof.
  intros V L C E HQ. unfold q_getc. wp_step. eapply wp_empty_views; [done..|]. rewrite E. cbn.
  wp_step. eapply wp_thread_views; [done..|]. wp_step. eapply wp_wait_views; [done|done| |].
  - destruct (queue_views w s v V) as [W Ec]. rewrite condition_count by done. apply negb_false_iff, Z.eqb_eq.
    by rewrite <-contents_length, Ec, E.
  - intros s' V'. wp_step. by apply HQ.
Qed.

Lemma wp_putc_views w b s v Q : views s v → v_level v = false → (length (v_queue w v) < 63)%nat →
  (∀ s', views s' (set_v_queue w (v_queue w v ++ [b]) v) → Q true s') → wp (q_putc w b) Q s.
Proof.
  intros V L E HQ. unfold q_putc. wp_step. eapply wp_full_views; [done..|].
  rewrite bool_decide_eq_false_2 by lia. do 2 wp_step. destruct (queue_views w s v V) as [W Ec].
  destruct (intq_putc_tail_ok (queue_of w s) b W) as (q' & Hg & W' & Ec' & _).
  { rewrite condition_count by done. apply negb_true_iff, Z.eqb_neq.
    rewrite <- contents_length, Ec. lia. }
  rewrite Ec in Ec'. wp_step. eapply wp_lift; [exact Hg|]. cbn beta iota.
  wp_step. wp_step. wp_step. eapply wake_views; [by apply set_queue_views|].
  intros s' V'. wp_step. by apply HQ.
Qed.

Lemma wp_putc_full_views w b s v Q : views s v → v_level v = false → v_context v = false →
  length (v_queue w v) = 63%nat → (∀ s', views s' v → Q false s') → wp (q_putc w b) Q s.
Proof.
  intros V L C E HQ. unfold q_putc. wp_step. eapply wp_full_views; [done..|].
  rewrite bool_decide_eq_true_2 by done. wp_step. eapply wp_thread_views; [done..|]. wp_step.
  eapply wp_wait_views; [done|done| |].
  - destruct (queue_views w s v V) as [W Ec]. rewrite condition_count by done. apply negb_false_iff, Z.eqb_eq.
    by rewrite <-contents_length, Ec, E.
  - intros s' V'. wp_step. by apply HQ.
Qed.

Lemma wp_input_full_views s v Q : views s v → v_level v = false →
  Q (bool_decide (length (v_in v) = 63%nat)) s → wp input_full Q s.
Proof.
  intros V L HQ. unfold input_full. wp_step. eapply wp_off_views; [done..|].
  by eapply (wp_full_views Input).
Qed.

Lemma wp_write_ier_views s v (Q : unit → serial → Prop) : views s v → v_level v = false →
  (∀ s', views s' (v <| v_ier := wanted_ier v |>) → Q tt s') → wp write_ier Q s.
Proof.
  intros V L HQ. unfold write_ier. wp_step. eapply wp_off_views; [done..|]. wp_step.
  eapply (wp_empty_views Tx); [done..|]. wp_step. eapply wp_input_full_views; [done..|].
  cbn [v_queue]. eapply wp_ier_views; [done| |].
  - unfold byte. do 2 case_bool_decide; vm_compute; done.
  - intros s' V'. apply HQ. unfold wanted_ier. do 2 case_bool_decide; do 2 case_decide; done.
Qed.

(** [serial_notify] brings the register up to date in the interrupt-driven mode. *)
Definition notified (v : view) : view :=
  if decide (v_mode v = QUEUE) then v <| v_ier := wanted_ier v |> else v.

Lemma wp_notify_views s v (Q : unit → serial → Prop) : views s v → v_level v = false →
  (∀ s', views s' (notified v) → Q tt s') → wp serial_notify Q s.
Proof.
  intros V L HQ. unfold serial_notify. wp_step. eapply wp_off_views; [done..|]. do 2 wp_step.
  assert (mode s = v_mode v) as -> by (by destruct V as [_ _ _ ->]).
  unfold notified in HQ. apply wp_when; intros H.
  - apply bool_decide_eq_true in H. rewrite decide_True in HQ by done.
    by eapply wp_write_ier_views.
  - apply bool_decide_eq_false in H. rewrite decide_False in HQ by done. by apply HQ.
Qed.

Lemma wp_input_putc_views key s v (Q : unit → serial → Prop) : views s v → v_level v = false →
  (length (v_in v) < 63)%nat →
  (∀ s', views s' (notified (v <| v_in := v_in v ++ [key] |>)) → Q tt s') →
  wp (input_putc key) Q s.
Proof.
  intros V L E HQ. unfold input_putc. wp_step. eapply wp_off_views; [done..|]. wp_step.
  eapply (wp_full_views Input); [done..|]. wp_step. apply wp_check.
  { simpl. rewrite bool_decide_eq_false_2; [done|lia]. }
  wp_step. eapply (wp_putc_views Input); [done..|]. intros s1 V1.
  by eapply wp_notify_views.
Qed.

(** What [input_getc] does from the loop on, with interrupts off. *)
Definition getc_view (old_level : bool) (v : view) : option Z * view :=
  match v_in v with
  | [] => (None, v)
  | b :: l => (Some b, (notified (v <| v_in := l |>)) <| v_level := old_level |>)
  end.

Lemma wp_input_getc_from_views old_level s v Q : views s v → v_level v = false → v_context v = false →
  (∀ s', views s' (getc_view old_level v).2 → Q (getc_view old_level v).1 s') →
  wp (input_getc_from old_level) Q s.
Proof.
  intros V L C HQ. unfold input_getc_from. unfold getc_view in HQ. wp_step.
  destruct (v_in v) as [|b l] eqn:E.
  - eapply (wp_getc_empty_views Input); [done..|]. intros s1 V1. do 2 wp_step. wp_step. by apply HQ.
  - eapply (wp_getc_views Input b l); [done..|]. intros s2 V2. wp_step. wp_step.
    eapply wp_notify_views; [exact V2|done|]. intros s3 V3.
    eapply wp_set_level_views; [exact V3|]. intros s4 V4. wp_step. by apply HQ.
Qed.

(** ** The transmitter *)

Lemma wp_poll_loop_views n s v (Q : unit → serial → Prop) : views s v →
  (∀ s', views s' v → Q tt s') → wp (poll_loop n) Q s.
Proof.
  revert s. induction n as [|n IH]; intros s V HQ; [done|]. cbn [poll_loop]. wp_step.
  eapply wp_inb_views; [done|done|]. intros x s' V' _. destruct (_ =? 0); [by apply IH|].
  wp_step. by apply HQ.
Qed.

Lemma wp_putc_poll_views b s v (Q : unit → serial → Prop) : views s v → v_level v = false → byte b →
  (∀ s', views s' (v <| v_sent := v_sent v ++ [b] |>) → Q tt s') → wp (putc_poll b) Q s.
Proof.
  intros V L Hb HQ. unfold putc_poll. wp_step. eapply wp_off_views; [done..|]. do 3 wp_step.
  eapply wp_poll_loop_views; [done|]. intros s1 V1. by eapply wp_thr_views.
Qed.

Lemma intq_init_ok q : wf q → wf (intq_init q) ∧ contents (intq_init q) = [].
Proof. intros [Hb _ _]. split; [split; simpl; (done || lia)|done]. Qed.

Lemma wp_init_poll_views s v (Q : unit → serial → Prop) : views s v → v_mode v = UNINIT →
  (∀ s', views s' (v <| v_mode := POLL |> <| v_tx := [] |> <| v_ier := 0 |>) → Q tt s') →
  wp init_poll Q s.
Proof.
  intros [V1 V2 V3 ->] Hm HQ. simpl in Hm. unfold init_poll. wp_step. wp_step. wp_step. apply wp_check.
  { by apply bool_decide_eq_true. }
  do 4 wp_step. wp_step. unfold set_serial. cbv zeta. wp_step. apply wp_check; [done|].
  do 7 wp_step. do 3 wp_step. apply HQ.
  destruct (intq_init_ok (txq s) V1) as [W E].
  split; simpl; rewrite ?uart_of_snoc; simpl; rewrite ?V3; simpl; rewrite ?E; done.
Qed.

(** What [serial_putc] does from the loop of [intq_putc] on, with interrupts off. *)
Definition put_view (old_level : bool) (b : Z) (v : view) : bool * view :=
  if decide (length (v_tx v) = 63%nat) then (false, v)
  else let v := v <| v_tx := v_tx v ++ [b] |> in
    (true, v <| v_ier := wanted_ier v |> <| v_level := old_level |>).

Lemma wp_serial_putc_from_views old_level b s v Q : views s v → v_level v = false →
  (length (v_tx v) = 63%nat → v_context v = false) →
  (∀ s', views s' (put_view old_level b v).2 → Q (put_view old_level b v).1 s') →
  wp (serial_putc_from old_level b) Q s.
Proof.
  intros V L C HQ. unfold serial_putc_from. unfold put_view in HQ. wp_step. case_decide as Ef.
  - eapply (wp_putc_full_views Tx); [done|done|by apply C|done|]. intros s1 V1. wp_step. cbn [when].
    wp_step. wp_step. by apply HQ.
  - eapply (wp_putc_views Tx); [done|done| |].
    { pose proof (queue_length Tx _ _ V) as HL. cbn [v_queue] in *. lia. }
    intros s1 V1. wp_step. cbn [when]. wp_step. eapply wp_write_ier_views; [exact V1|done|]. intros s2 V2.
    eapply wp_set_level_views; [exact V2|]. intros s3 V3. wp_step. by apply HQ.
Qed.

(** What [serial_putc] does in each mode; in the interrupt-driven mode the oldest
    byte makes room if interrupts are off, and otherwise the caller sleeps. *)
Definition putc_view (b : Z) (v : view) : bool * view :=
  match v_mode v with
  | QUEUE =>
      let v1 := v <| v_level := false |> in
      match v_tx v with
      | x :: l =>
          if negb (v_level v) && bool_decide (length (v_tx v) = 63%nat)
          then put_view (v_level v) b (v1 <| v_tx := l |> <| v_sent := v_sent v ++ [x] |>)
          else put_view (v_level v) b v1
      | [] => put_view (v_level v) b v1
      end
  | POLL => (true, v <| v_sent := v_sent v ++ [b] |>)
  | UNINIT => (true, v <| v_mode := POLL |> <| v_tx := [] |> <| v_ier := 0 |>
                       <| v_sent := v_sent v ++ [b] |>)
  end.

Lemma wp_serial_putc_views b s v Q : views s v → byte b → Forall byte (v_tx v) →
  (v_level v = true → v_context v = false) →
  (∀ s', views s' (putc_view b v).2 → Q (putc_view b v).1 s') → wp (serial_putc b) Q s.
Proof.
  intros V Hb HF HC HQ. unfold serial_putc. wp_step. eapply wp_disable_views; [done|].
  intros s1 V1. wp_step. wp_step.
  assert (mode s1 = v_mode v) as -> by (by destruct V1 as [_ _ _ [= _ ? ?]]).
  set (v1 := v <| v_level := false |>) in *. unfold putc_view in HQ. destruct (v_mode v) eqn:Em.
  - rewrite decide_False by done. wp_step. rewrite bool_decide_eq_true_2 by done.
    eapply wp_init_poll_views; [exact V1|done|]. intros s2 V2. wp_step.
    eapply wp_putc_poll_views; [exact V2|done|done|]. intros s3 V3. wp_step.
    eapply wp_set_level_views; [exact V3|]. intros s4 V4. wp_step. apply HQ. by destruct v.
  - rewrite decide_False by done. wp_step. rewrite bool_decide_eq_false_2 by done. cbn [when]. wp_step. wp_step.
    eapply wp_putc_poll_views; [exact V1|done|done|]. intros s3 V3. wp_step.
    eapply wp_set_level_views; [exact V3|]. intros s4 V4. wp_step. apply HQ. by destruct v.
  - rewrite decide_True by done. wp_step. eapply (wp_full_views Tx); [exact V1|done|].
    cbn [v_queue]. change (v_tx v1) with (v_tx v). fold v1 in HQ.
    destruct (v_tx v) as [|x l] eqn:Et.
    + rewrite bool_decide_eq_false_2, andb_false_r by done. cbn [when]. wp_step. wp_step.
      eapply wp_serial_putc_from_views; [exact V1|done| |exact HQ].
      intros Hl. change (v_tx v1) with (v_tx v) in Hl. by rewrite Et in Hl.
    + apply Forall_cons in HF as [Hx HF]. wp_step. apply wp_when; intros Hf; rewrite Hf in HQ.
      * apply andb_true_iff in Hf as [_ Hf%bool_decide_eq_true]. wp_step.
        eapply (wp_getc_views Tx x l); [exact V1|done|exact Et|]. intros s2 V2.
        eapply wp_putc_poll_views; [exact V2|done|exact Hx|]. intros s3 V3.
        eapply wp_serial_putc_from_views; [exact V3|done| |exact HQ]. simpl in *. lia.
      * eapply wp_serial_putc_from_views; [exact V1|done| |exact HQ].
        intros Hl. change (v_tx v1) with (v_tx v) in Hl. rewrite Et in Hl. apply HC.
        rewrite bool_decide_eq_true_2, andb_true_r in Hf by done. by apply negb_false_iff.
Qed.

Lemma wp_flush_loop_views n s v (Q : unit → serial → Prop) : views s v → v_level v = false →
  Forall byte (v_tx v) →
  (∀ s', views s' (v <| v_sent := v_sent v ++ v_tx v |> <| v_tx := [] |>) → Q tt s') →
  wp (flush_loop n) Q s.
Proof.
  revert s v. induction n as [|n IH]; intros s v V L HF HQ; [done|]. cbn [flush_loop]. wp_step.
  eapply (wp_empty_views Tx); [done..|]. cbn [v_queue]. destruct (v_tx v) as [|b l] eqn:E.
  - rewrite bool_decide_eq_true_2 by done. wp_step. apply HQ. rewrite app_nil_r.
    destruct v; simpl in *; by subst.
  - rewrite bool_decide_eq_false_2 by done. apply Forall_cons in HF as [Hb HF]. wp_step.
    eapply (wp_getc_views Tx b l); [done..|]. intros s1 V1. wp_step.
    eapply wp_putc_poll_views; [exact V1|done|done|]. intros s2 V2.
    eapply IH; [exact V2|done|done|]. intros s3 V3. apply HQ. simpl in V3.
    by rewrite <- app_assoc in V3.
Qed.

Lemma wp_serial_flush_views s v (Q : unit → serial → Prop) : views s v → Forall byte (v_tx v) →
  (∀ s', views s' (v <| v_sent := v_sent v ++ v_tx v |> <| v_tx := [] |>) → Q tt s') →
  wp serial_flush Q s.
Proof.
  intros V HF HQ. unfold serial_flush. wp_step. eapply wp_disable_views; [done|]. intros s1 V1.
  wp_step. eapply wp_flush_loop_views; [exact V1|done|done|]. intros s2 V2.
  eapply wp_set_level_views; [exact V2|]. intros s3 V3. apply HQ. by destruct v.
Qed.

Lemma wp_serial_init_queue_views s v (Q : unit → serial → Prop) : views s v → v_mode v ≠ QUEUE →
  (∀ s', let v' := v <| v_mode := QUEUE |> <| v_tx := match v_mode v with UNINIT => [] | _ => v_tx v end |> in
     views s' (v' <| v_ier := wanted_ier v' |>) → Q tt s') →
  wp serial_init_queue Q s.
Proof.
  intros V Hm HQ. unfold serial_init_queue. wp_step. wp_step.
  assert (mode s = v_mode v) as -> by (by destruct V as [_ _ _ ->]).
  assert (∀ s1 v1, views s1 v1 → v_mode v1 = POLL → v_level v1 = v_level v →
    (∀ s', let v' := v1 <| v_mode := QUEUE |> in views s' (v' <| v_ier := wanted_ier v' |>) → Q tt s') →
    wp (poll ← get (λ s, bool_decide (mode s = POLL)); check poll;;
        modify (λ s, s <| mode := QUEUE |>);;
        old_level ← intr_disable; write_ier;; intr_set_level old_level) Q s1) as Hrest.
  { intros s1 v1 V1 M1 L1 HQ1. wp_step. wp_step. wp_step. apply wp_check.
    { apply bool_decide_eq_true. by destruct V1 as [_ _ _ ->]. }
    wp_step. wp_step. wp_step.
    assert (views (s1 <| mode := QUEUE |>) (v1 <| v_mode := QUEUE |>)) as V2
      by (destruct V1 as [? ? ? ->]; by split).
    eapply wp_disable_views; [exact V2|]. intros s3 V3. wp_step.
    eapply wp_write_ier_views; [exact V3|done|]. intros s4 V4.
    eapply wp_set_level_views; [exact V4|]. intros s5 V5. apply HQ1. by destruct v1. }
  wp_step. destruct (v_mode v) eqn:Em; [| |done].
  - rewrite bool_decide_eq_true_2 by done. cbn [when].
    eapply wp_init_poll_views; [exact V|done|]. intros s1 V1.
    eapply Hrest; [exact V1|done|done|]. intros s2 v2 V2. apply HQ. by destruct v.
  - rewrite bool_decide_eq_false_2 by done. cbn [when]. wp_step.
    eapply Hrest; [exact V|done|done|]. intros s2 v2 V2. apply HQ. by destruct v.
Qed.

(** ** The interrupt handler *)

Lemma wp_receive_loop_views n s v (Q : unit → serial → Prop) : views s v → v_level v = false →
  (∀ s' rs x, views s' (v <| v_in := v_in v ++ rs |> <| v_rcvd := v_rcvd v ++ rs |> <| v_ier := x |>) →
     Q tt s') → wp (receive_loop n) Q s.
Proof.
  revert s v. induction n as [|n IH]; intros s v V L HQ; [done|]. cbn [receive_loop]. wp_step.
  eapply wp_input_full_views; [done..|].
  assert (∀ s', views s' v → Q tt s') as Hend.
  { intros s' V'. apply (HQ s' [] (v_ier v)). rewrite !app_nil_r. by destruct v. }
  case_bool_decide as Ef; [wp_step; by apply Hend|]. wp_step.
  eapply wp_inb_views; [done|done|]. intros x s1 V1 _. destruct (_ =? 0); [wp_step; by apply Hend|].
  wp_step. eapply wp_rbr_views; [exact V1|]. intros b s2 V2 _. wp_step.
  eapply wp_input_putc_views; [exact V2|done| |].
  { pose proof (queue_length Input _ _ V) as HL. simpl in *. lia. }
  intros s3 V3. unfold notified in V3.
  assert (∃ y, views s3 (v <| v_in := v_in v ++ [b] |> <| v_rcvd := v_rcvd v ++ [b] |> <| v_ier := y |>))
    as [y V4].
  { match type of V3 with views _ ?w => exists (v_ier w) end. case_decide; destruct v; exact V3. }
  eapply IH; [exact V4|done|]. intros s4 rs z V5. apply (HQ s4 (b :: rs) z). simpl in V5.
  by rewrite <- !app_assoc in V5.
Qed.

Lemma wp_transmit_loop_views n s v (Q : unit → serial → Prop) : views s v → v_level v = false →
  Forall byte (v_tx v) →
  (∀ s' l k, v_tx v = l ++ k → views s' (v <| v_sent := v_sent v ++ l |> <| v_tx := k |>) → Q tt s') →
  wp (transmit_loop n) Q s.
Proof.
  revert s v. induction n as [|n IH]; intros s v V L HF HQ; [done|]. cbn [transmit_loop]. wp_step.
  eapply (wp_empty_views Tx); [done..|]. cbn [v_queue].
  assert (∀ s', views s' v → Q tt s') as Hend.
  { intros s' V'. apply (HQ s' [] (v_tx v)); [done|]. rewrite !app_nil_r. by destruct v. }
  destruct (v_tx v) as [|b l] eqn:E; [rewrite bool_decide_eq_true_2 by done; wp_step; by apply Hend|].
  rewrite bool_decide_eq_false_2 by done. apply Forall_cons in HF as [Hb HF]. wp_step.
  eapply wp_inb_views; [done|done|]. intros x s1 V1 _. destruct (_ =? 0); [wp_step; by apply Hend|].
  wp_step. eapply (wp_getc_views Tx b l); [exact V1|done|done|]. intros s2 V2. wp_step.
  eapply wp_thr_views; [exact V2|exact Hb|]. intros s3 V3.
  eapply IH; [exact V3|done|done|]. intros s4 l' k E' V4. simpl in E'. apply (HQ s4 (b :: l') k).
  - by rewrite E'.
  - simpl in V4. by rewrite <- app_assoc in V4.
Qed.

Lemma wp_serial_interrupt_views s v (Q : unit → serial → Prop) : views s v → v_level v = false →
  Forall byte (v_tx v) →
  (∀ s' rs l k, v_tx v = l ++ k →
     let v' := v <| v_in := v_in v ++ rs |> <| v_rcvd := v_rcvd v ++ rs |>
                 <| v_sent := v_sent v ++ l |> <| v_tx := k |> in
     views s' (v' <| v_ier := wanted_ier v' |>) → Q tt s') →
  wp serial_interrupt Q s.
Proof.
  intros V L HF HQ. unfold serial_interrupt. wp_step.
  eapply wp_inb_views; [done|done|]. intros _ s1 V1 _. do 3 wp_step.
  eapply wp_receive_loop_views; [exact V1|done|]. intros s2 rs x V2. do 3 wp_step.
  eapply wp_transmit_loop_views; [exact V2|done|done|]. intros s3 l k E V3.
  eapply wp_write_ier_views; [exact V3|done|]. intros s4 V4. by apply (HQ s4 rs l k E).
Qed.

(** ** The sleeping threads

    A partial version of [wp], for what holds of the locks and the waiters of the
    queues wherever an operation returns. *)

Definition wlp {A} (m : M serial A) (Q : A → serial → Prop) (s : serial) : Prop :=
  match m s with
  | Ret a s => Q a s
  | _ => True
  end.

Lemma wp_and {A} (m : M serial A) P Q s : wp m P s → wlp m Q s → wp m (λ a s', P a s' ∧ Q a s') s.
Proof. unfold wp, wlp. by destruct (m s). Qed.

Lemma wlp_bind {A B} (m : M serial A) (k : A → M serial B) Q s :
  wlp m (λ a, wlp (k a) Q) s → wlp (m ≫= k) Q s.
Proof. unfold wlp, mbind, M_bind. by destruct (m s). Qed.

Lemma wlp_mono {A} (m : M serial A) (P Q : A → serial → Prop) s :
  wlp m P s → (∀ a s', P a s' → Q a s') → wlp m Q s.
Proof. unfold wlp. destruct (m s); auto. Qed.

(** The threads that wait for [c] are at most [p]: it holds the lock; as long as
    it is recorded as the waiter, it sleeps and its condition is false. *)
Definition monitor (q : intq) (c : waiter) (p : option Z) : Prop :=
  get_waiter q (other c) = NULL ∧
  match p with
  | None => lock q = None ∧ get_waiter q c = NULL
  | Some t => lock q = Some t ∧ (get_waiter q c = NULL ∨ get_waiter q c = t ∧ condition q c = false)
  end.

(** The thread [t] runs; [p] is in [serial_putc] and [g] in [input_getc]. *)
Record mons (t : Z) (p g : option Z) (s : serial) : Prop := {
  mo_running : running s = t;
  mo_tx : wf (txq s);
  mo_txm : monitor (txq s) Not_full p;
  mo_in : wf (buffer s);
  mo_inm : monitor (buffer s) Not_empty g;
}.

Definition steady {A} (m : M serial A) : Prop :=
  ∀ t p g s, mons t p g s → wlp m (λ _ s', mons t p g s') s.

Lemma steady_ret {A} (a : A) : steady (mret a).
Proof. by intros t p g s H. Qed.

Lemma steady_get {A} (f : serial → A) : steady (get f).
Proof. by intros t p g s H. Qed.

Lemma steady_check b : steady (check b).
Proof. intros t p g s H. unfold wlp, check. by destruct b. Qed.

Lemma steady_waits {A} : steady (waits : M serial A).
Proof. by intros t p g s H. Qed.

Lemma steady_modify f : (∀ s, running (f s) = running s ∧ txq (f s) = txq s ∧ buffer (f s) = buffer s) →
  steady (modify f).
Proof.
  intros Hf t p g s [M1 M2 M3 M4 M5]. destruct (Hf s) as (E1 & E2 & E3).
  split; unfold modify; by rewrite ?E1, ?E2, ?E3.
Qed.

Lemma steady_bind {A B} (m : M serial A) (k : A → M serial B) : steady m → (∀ a, steady (k a)) → steady (m ≫= k).
Proof. intros Hm Hk t p g s H. apply wlp_bind. eapply wlp_mono; [by apply Hm|]. intros a s'. apply Hk. Qed.

Lemma steady_when b (m : M serial unit) : steady m → steady (when b m).
Proof. intros Hm. destruct b; [done|apply steady_ret]. Qed.

Lemma steady_inb port : steady (inb port).
Proof.
  intros t p g s [M1 M2 M3 M4 M5]. unfold wlp, inb, answer, mbind, M_bind.
  destruct (answers (io_of s)); [done|]. by split.
Qed.

Lemma steady_outb port d : steady (outb port d).
Proof. by apply steady_modify. Qed.

Create HintDb steady.
#[export] Hint Resolve steady_ret steady_get steady_check steady_waits steady_when steady_inb steady_outb : steady.
Ltac steady :=
  repeat first
    [ solve [eauto with steady]
    | apply steady_bind; [|intros ?]
    | apply steady_when
    | solve [apply steady_modify; done]
    | match goal with
      | |- steady (if ?b then _ else _) => destruct b
      | |- steady (match ?o with _ => _ end) => destruct o
      end ].

(** A step of a sequence that is [steady]. *)
Lemma wlp_seq {A B} (m : M serial A) (k : A → M serial B) Q t p g s : steady m → mons t p g s →
  (∀ a s', mons t p g s' → wlp (k a) Q s') → wlp (m ≫= k) Q s.
Proof. intros Hm H Hk. apply wlp_bind. eapply wlp_mono; [by apply Hm|]. intros a s'. apply Hk. Qed.

Lemma steady_off : steady assert_intr_off.
Proof. unfold assert_intr_off. steady. Qed.

Lemma steady_empty w : steady (q_empty w).
Proof. unfold q_empty, assert_intr_off. steady. Qed.

Lemma steady_full w : steady (q_full w).
Proof. unfold q_full, assert_intr_off. steady. Qed.

Lemma steady_disable : steady intr_disable.
Proof. unfold intr_disable, intr_set_level. steady. Qed.

Lemma steady_set_level l : steady (intr_set_level l).
Proof. unfold intr_set_level. steady. Qed.
#[export] Hint Resolve steady_off steady_empty steady_full steady_disable steady_set_level : steady.

Lemma steady_write_ier : steady write_ier.
Proof. unfold write_ier, input_full. steady. Qed.

Lemma steady_notify : steady serial_notify.
Proof. unfold serial_notify. pose proof steady_write_ier. steady. Qed.

Lemma steady_putc_poll b : steady (putc_poll b).
Proof.
  assert (∀ n, steady (poll_loop n)) as H by (induction n as [|n IH]; cbn [poll_loop]; steady).
  unfold putc_poll. steady.
Qed.
#[export] Hint Resolve steady_write_ier steady_notify steady_putc_poll : steady.

(** Polling leaves the queues alone. *)
Lemma wlp_putc_poll_txq b s : wlp (putc_poll b) (λ _ s', txq s' = txq s) s.
Proof.
  assert (∀ n s, wlp (poll_loop n) (λ _ s', txq s' = txq s) s) as Hl.
  { induction n as [|n IH]; intros s0; [done|]. cbn [poll_loop]. apply wlp_bind.
    unfold wlp at 1, inb, answer, mbind, M_bind. destruct (answers (io_of s0)) as [|v l]; [done|].
    cbn -[poll_loop Z.land]. destruct (_ =? 0); [|done]. eapply wlp_mono; [apply IH|]. by intros _ s' ->. }
  unfold putc_poll, assert_intr_off. unfold wlp, mbind, M_bind, get, check.
  destruct (negb (intr_level s)); [|done]. specialize (Hl (S (length (answers (ports s)))) s).
  unfold wlp in Hl. destruct (poll_loop _ s); [|done|done]. exact Hl.
Qed.

(** The tests, with their results. *)
Lemma wlp_empty w s : wlp (q_empty w) (λ r s', s' = s ∧ r = intq_empty (queue_of w s)) s.
Proof.
  unfold wlp, q_empty, assert_intr_off, get, check, mbind, M_bind. by destruct (negb (intr_level s)).
Qed.

Lemma wlp_full w s : wlp (q_full w) (λ r s', s' = s ∧ r = intq_full (queue_of w s)) s.
Proof.
  unfold wlp, q_full, assert_intr_off, get, check, mbind, M_bind. by destruct (negb (intr_level s)).
Qed.

Lemma wlp_disable s : wlp intr_disable (λ r s', r = intr_level s ∧ s' = s <| intr_level := false |>) s.
Proof. done. Qed.

Lemma wlp_inb port (Q : Z → serial → Prop) s :
  (∀ v s', s' = did (Inb port v) (used s) → Q v s') → wlp (inb port) Q s.
Proof.
  intros HQ. apply wlp_bind. unfold wlp at 1, answer. destruct (answers (io_of s)); [done|]. by apply HQ.
Qed.

Lemma wlp_get {A} (f : serial → A) Q s : Q (f s) s → wlp (get f) Q s.
Proof. done. Qed.

(** *** Taking and adding bytes *)

Lemma mons_wf t p g s w : mons t p g s → wf (queue_of w s).
Proof. intros []. by destruct w. Qed.

Lemma wlp_getc w t p g s : mons t p g s → intq_empty (queue_of w s) = false →
  wlp (q_getc w) (λ r s', is_Some r ∧ intq_full (queue_of w s') = false ∧ mons t p g s') s.
Proof.
  intros H E. unfold q_getc. apply wlp_bind. eapply wlp_mono; [apply wlp_empty|]. intros r s' [-> ->].
  rewrite E. pose proof (mons_wf _ _ _ _ w H) as W.
  assert (condition (queue_of w s) Not_empty = true) as C by (simpl; by rewrite E).
  destruct (intq_getc_tail_ok _ W C) as (q' & b & Hg & W' & _ & En & EL & Ef & Ee).
  unfold wlp, get, mbind, M_bind, lift, modify, wake. rewrite Hg. split; [by eexists|].
  pose proof (count_range (queue_of w s)) as Hr. destruct H as [M1 M2 M3 M4 M5]. destruct w; cbn in *.
  - split; [destruct (intq_full q') eqn:F; [apply full_count in F; [lia|done]|done]|].
    split; simpl; [done|done| |done|done]. destruct M3 as [M3 M3']. split; cbn in *; [congruence|].
    destruct p; rewrite EL, Ef; [split; [apply M3'|by left]|by split; [apply M3'|]].
  - split; [destruct (intq_full q') eqn:F; [apply full_count in F; [lia|done]|done]|].
    split; simpl; [done|done|done|done|]. destruct M5 as [M5 M5']. split; cbn in *; [done|].
    rewrite EL, Ee. destruct g; [|done]. destruct M5' as [? [?|[_ F]]]; [by split; [|left]|].
    by rewrite E in F.
Qed.

Lemma wlp_putc w b t p g s : mons t p g s → intq_full (queue_of w s) = false →
  wlp (q_putc w b) (λ r s', r = true ∧ mons t p g s') s.
Proof.
  intros H E. unfold q_putc. apply wlp_bind. eapply wlp_mono; [apply wlp_full|]. intros r s' [-> ->].
  rewrite E. pose proof (mons_wf _ _ _ _ w H) as W.
  assert (condition (queue_of w s) Not_full = true) as C by (simpl; by rewrite E).
  destruct (intq_putc_tail_ok _ b W C) as (q' & Hg & W' & _ & _ & EL & Ee & Ef).
  unfold wlp, get, mbind, M_bind, lift, modify, wake. rewrite Hg. split; [done|].
  destruct H as [M1 M2 M3 M4 M5]. destruct w; cbn in *.
  - split; simpl; [done|done| |done|done]. destruct M3 as [M3 M3']. split; cbn in *; [done|].
    rewrite EL, Ef. destruct p; [|done]. destruct M3' as [? [?|[_ F]]]; [by split; [|left]|].
    by rewrite E in F.
  - split; simpl; [done|done|done|done|]. destruct M5 as [M5 M5']. split; cbn in *; [congruence|].
    destruct g; rewrite EL, Ee; [split; [apply M5'|by left]|by split; [apply M5'|]].
Qed.

(** A thread that finds nothing to take, or no room, goes to sleep. *)
Lemma wlp_getc_sleep t p s : mons t p None s →
  wlp (q_getc Input) (λ r s', match r with Some _ => mons t p None s' | None => mons t p (Some t) s' end) s.
Proof.
  intros H. destruct (intq_empty (buffer s)) eqn:E.
  2: { eapply wlp_mono; [by apply (wlp_getc Input)|]. intros r s' ([? ->] & _ & ?). done. }
  unfold q_getc. apply wlp_bind. eapply wlp_mono; [apply wlp_empty|]. intros r s' [-> ->]. cbn [queue_of].
  rewrite E. destruct H as [M1 M2 M3 M4 [M5 [M6 M7]]].
  unfold wlp, assert_thread, q_wait, get, check, mbind, M_bind, lift, modify, wait. cbn [queue_of].
  destruct (negb (intr_context s)) eqn:C; [|done]. rewrite M6. apply negb_true_iff in C. rewrite C.
  rewrite condition_lock. cbn [condition]. rewrite E. cbn.
  split; simpl; [done|done|done|by destruct M4; split|]. split; [done|]. cbn. rewrite M1.
  split; [done|]. right. split; [done|]. unfold intq_empty in *. simpl. by rewrite E.
Qed.

Lemma wlp_putc_sleep b t g s : mons t None g s →
  wlp (q_putc Tx b) (λ r s', if r then mons t None g s' else mons t (Some t) g s') s.
Proof.
  intros H. destruct (intq_full (txq s)) eqn:E.
  2: { eapply wlp_mono; [by apply (wlp_putc Tx)|]. by intros r s' (-> & ?). }
  unfold q_putc. apply wlp_bind. eapply wlp_mono; [apply wlp_full|]. intros r s' [-> ->]. cbn [queue_of].
  rewrite E. destruct H as [M1 M2 [M3 [M6 M7]] M4 M5].
  unfold wlp, assert_thread, q_wait, get, check, mbind, M_bind, lift, modify, wait. cbn [queue_of].
  destruct (negb (intr_context s)) eqn:C; [|done]. rewrite M6. apply negb_true_iff in C. rewrite C.
  rewrite condition_lock. cbn [condition]. rewrite E. cbn.
  split; simpl; [done|by destruct M2; split| |done|done]. split; [done|]. cbn. rewrite M1.
  split; [done|]. right. split; [done|]. unfold intq_full in *. simpl. by rewrite E.
Qed.

(** *** The operations *)

Lemma wlp_input_getc_from l t p s : mons t p None s →
  wlp (input_getc_from l)
    (λ r s', match r with Some _ => mons t p None s' | None => mons t p (Some t) s' end) s.
Proof.
  intros H. unfold input_getc_from. apply wlp_bind. eapply wlp_mono; [by apply wlp_getc_sleep|].
  intros [b|] s1 H1; [|done]. eapply (wlp_seq _ _ _ t p None); [|exact H1|].
  - apply steady_bind; [apply steady_notify|intros _; apply steady_set_level].
  - intros _ s2 H2. exact H2.
Qed.

Lemma wlp_serial_putc_from l b t g s : mons t None g s →
  wlp (serial_putc_from l b) (λ r s', if r then mons t None g s' else mons t (Some t) g s') s.
Proof.
  intros H. unfold serial_putc_from. apply wlp_bind. eapply wlp_mono; [by apply wlp_putc_sleep|].
  intros [] s1 H1; [|done]. eapply (wlp_seq _ _ _ t None g); [|exact H1|].
  - apply steady_bind; [apply steady_write_ier|intros _; apply steady_set_level].
  - intros _ s2 H2. exact H2.
Qed.

Lemma wlp_serial_putc_room l b t p g s : mons t p g s → intq_full (txq s) = false →
  wlp (serial_putc_from l b) (λ r s', r = true ∧ mons t p g s') s.
Proof.
  intros H E. unfold serial_putc_from. apply wlp_bind. eapply wlp_mono; [by apply (wlp_putc Tx)|].
  intros r s1 [-> H1]. cbn [when]. eapply (wlp_seq _ _ _ t p g); [|exact H1|].
  - apply steady_bind; [apply steady_write_ier|intros _; apply steady_set_level].
  - intros _ s2 H2. by split.
Qed.

Lemma wlp_init_poll t g s : mons t None g s → wlp init_poll (λ _ s', mons t None g s') s.
Proof.
  intros H. unfold init_poll. eapply (wlp_seq _ _ _ t None g); [steady|exact H|intros u s1 H1].
  eapply (wlp_seq _ _ _ t None g); [steady|exact H1|intros _ s2 H2].
  do 2 (eapply (wlp_seq _ _ _ t None g); [steady|eassumption|intros]).
  eapply (wlp_seq _ _ _ t None g); [unfold set_serial; steady|eassumption|intros].
  eapply (wlp_seq _ _ _ t None g); [steady|eassumption|intros ? s3 [N1 N2 N3 N4 N5]].
  split; simpl; [done|by apply intq_init_ok|done|done|done].
Qed.

Lemma full_not_empty q : wf q → intq_full q = true → intq_empty q = false.
Proof.
  intros W F. apply full_count in F; [|done]. destruct (intq_empty q) eqn:E; [|done].
  apply empty_count in E; [lia|done].
Qed.

(** With interrupts on, [serial_putc] needs that no thread sleeps in it. *)
Lemma wlp_serial_putc b t p g s : mons t p g s → (mode s ≠ QUEUE → p = None) →
  (intr_level s = true → p = None) →
  wlp (serial_putc b) (λ r s', if r then mons t p g s' else mons t (Some t) g s') s.
Proof.
  intros H Hm Hl. unfold serial_putc. apply wlp_bind. eapply wlp_mono; [apply wlp_disable|]. intros l s1 [-> ->].
  set (s1 := s <| intr_level := false |>). assert (mons t p g s1) as H1 by (by destruct H; split).
  apply wlp_bind, wlp_get. change (mode s1) with (mode s). case_decide as Em.
  - apply wlp_bind. eapply wlp_mono; [apply wlp_full|]. intros r s2 [-> ->]. cbn [queue_of].
    destruct (intr_level s) eqn:L; cbn [negb andb].
    + cbn [when]. rewrite Hl in * by done. by apply wlp_serial_putc_from.
    + destruct (intq_full (txq s1)) eqn:F; cbn [when].
      * apply wlp_bind, wlp_bind. eapply wlp_mono; [apply (wlp_getc Tx)|].
        { exact H1. } { apply full_not_empty; [apply H1|done]. }
        intros r s2 ([x ->] & F2 & H2). pose proof (wlp_putc_poll_txq x s2) as Ht.
        pose proof (steady_putc_poll x _ _ _ _ H2) as H3. unfold wlp in Ht, H3 |- * at 1.
        destruct (putc_poll x s2) as [u s3| |]; [|done|done].
        eapply wlp_mono; [apply wlp_serial_putc_room; [exact H3|by rewrite Ht]|]. by intros r s4 [-> ?].
      * eapply wlp_mono; [by apply wlp_serial_putc_room|]. by intros r s4 [-> ?].
  - rewrite Hm in * by done. apply wlp_bind.
    eapply (wlp_mono _ (λ _ s', mons t None g s')).
    { unfold when. case_bool_decide; [by apply wlp_init_poll|done]. }
    intros _ s2 H2. eapply (wlp_seq _ _ _ t None g); [steady|exact H2|intros _ s3 H3].
    eapply (wlp_seq _ _ _ t None g); [apply steady_set_level|exact H3|intros _ s4 H4]. exact H4.
Qed.

Lemma steady_flush : steady serial_flush.
Proof.
  assert (∀ n, steady (flush_loop n)) as Hf.
  { induction n as [|n IH]; [apply steady_waits|]. intros t p g s H. cbn [flush_loop]. apply wlp_bind.
    eapply wlp_mono; [apply wlp_empty|]. intros r s1 [-> ->]. destruct (intq_empty _) eqn:E; [done|].
    apply wlp_bind. eapply wlp_mono; [by apply (wlp_getc Tx)|]. intros r s2 ([b ->] & _ & H2).
    eapply wlp_seq; [apply steady_putc_poll|exact H2|intros _ s3 H3]. by apply IH. }
  unfold serial_flush. steady.
Qed.

Lemma steady_input_putc key : steady (input_putc key).
Proof.
  intros t p g s H. unfold input_putc. eapply wlp_seq; [apply steady_off|exact H|intros _ s1 H1].
  apply wlp_bind. eapply wlp_mono; [apply wlp_full|]. intros r s2 [-> ->].
  destruct (intq_full (queue_of Input s1)) eqn:F; [done|].
  change (wlp (q_putc Input key;; serial_notify) (λ _ s', mons t p g s') s1).
  apply wlp_bind. eapply wlp_mono; [by apply (wlp_putc Input)|]. intros r s2 [-> H2]. by apply steady_notify.
Qed.

Lemma steady_interrupt : steady serial_interrupt.
Proof.
  assert (∀ n, steady (receive_loop n)) as Hr.
  { pose proof steady_input_putc. induction n as [|n IH]; cbn [receive_loop]; unfold input_full; steady. }
  assert (∀ n, steady (transmit_loop n)) as Ht.
  { induction n as [|n IH]; [apply steady_waits|]. intros t p g s H. cbn [transmit_loop]. apply wlp_bind.
    eapply wlp_mono; [apply wlp_empty|]. intros r s1 [-> ->]. destruct (intq_empty _) eqn:E; [done|].
    apply wlp_bind, wlp_inb. intros v s2 Es. assert (mons t p g s2) as H2 by (subst s2; by destruct H; split).
    assert (intq_empty (queue_of Tx s2) = false) as E2 by (by subst s2).
    destruct (_ =? 0); [done|].
    apply wlp_bind. eapply wlp_mono; [by apply (wlp_getc Tx)|]. intros r s3 ([b ->] & _ & H3).
    eapply wlp_seq; [apply steady_outb|exact H3|intros _ s4 H4]. by apply IH. }
  unfold serial_interrupt. steady.
Qed.

Lemma wlp_init_queue t g s : mons t None g s → wlp serial_init_queue (λ _ s', mons t None g s') s.
Proof.
  intros H. unfold serial_init_queue. eapply (wlp_seq _ _ _ t None g); [steady|exact H|intros m s1 H1].
  apply wlp_bind. eapply (wlp_mono _ (λ _ s', mons t None g s')).
  { unfold when. case_bool_decide; [by apply wlp_init_poll|done]. }
  intros _ s2 H2. revert s2 H2. apply (steady_bind (get _)); [|intros a]; steady.
Qed.

(** A woken thread releases the lock. *)
Lemma wlp_release_input t p s : mons t p (Some t) s → not_empty (buffer s) = NULL →
  wlp (q_release Input) (λ _ s', mons t p None s') s.
Proof.
  intros [M1 M2 M3 M4 [M5 [M6 M7]]] N. unfold q_release, wlp, get, check, mbind, M_bind, modify.
  destruct (bool_decide _); [|done]. split; [done|done|done|by destruct M4; split|by split].
Qed.

Lemma wlp_release_tx t g s : mons t (Some t) g s → not_full (txq s) = NULL →
  wlp (q_release Tx) (λ _ s', mons t None g s') s.
Proof.
  intros [M1 M2 [M5 [M6 M7]] M3 M4] N. unfold q_release, wlp, get, check, mbind, M_bind, modify.
  destruct (bool_decide _); [|done]. split; [done|by destruct M2; split|by split|done|done].
Qed.

Lemma wp_release_input t p v s (Q : unit → serial → Prop) : views s v → mons t p (Some t) s →
  (∀ s', views s' v → Q tt s') → wp (q_release Input) Q s.
Proof.
  intros V [M1 M2 M3 M4 [M5 [M6 M7]]] HQ. unfold q_release. do 5 wp_step. cbn [queue_of].
  rewrite M1, M6. apply wp_check; [by apply bool_decide_eq_true|]. wp_step.
  apply HQ. destruct V as [? [] ? ->]; by split.
Qed.

Lemma wp_release_tx t g v s (Q : unit → serial → Prop) : views s v → mons t (Some t) g s →
  (∀ s', views s' v → Q tt s') → wp (q_release Tx) Q s.
Proof.
  intros V [M1 M2 [M5 [M6 M7]] M3 M4] HQ. unfold q_release. do 5 wp_step. cbn [queue_of].
  rewrite M1, M6. apply wp_check; [by apply bool_decide_eq_true|]. wp_step.
  apply HQ. destruct V as [[] ? ? ->]; by split.
Qed.

(** ** Executions

    Calls by threads and interrupt handlers in any order.  A call is made with
    interrupts on or off, and in a handler they are off; [Ev_key] is what the
    keyboard handler does with a character.  [Ev_putc_woken] and [Ev_getc_woken]
    are the rest of a call that slept. *)
Inductive event :=
  | Ev_putc (t : Z) (level context : bool) (b : Z)
  | Ev_putc_woken (t : Z) (level : bool) (b : Z)
  | Ev_getc (t : Z) (level : bool)
  | Ev_getc_woken (t : Z) (level : bool)
  | Ev_key (c : Z)
  | Ev_interrupt
  | Ev_flush (t : Z) (level context : bool)
  | Ev_init_queue (t : Z) (level : bool).

(** The bytes given to [serial_putc] and taken, given to the input buffer, and
    returned by [input_getc]; whether the thread went to sleep. *)
Record effect := mk_effect { e_queued : list Z; e_input : list Z; e_got : list Z; e_slept : bool }.

(** The thread [t] runs, or a handler interrupts it. *)
Definition enter (t : Z) (level context : bool) : M serial unit :=
  modify (λ s, s <| running := t |> <| intr_level := level |> <| intr_context := context |>).
Definition enter_handler : M serial unit :=
  modify (λ s, s <| intr_level := false |> <| intr_context := true |>).

Definition put_effect (b : Z) (taken : bool) : effect :=
  mk_effect (if taken then [b] else []) [] [] (negb taken).
Definition get_effect (key : option Z) : effect :=
  mk_effect [] [] (option_list key) (bool_decide (key = None)).

Definition perform (e : event) : M serial effect :=
  match e with
  | Ev_putc t level context b =>
      enter t level context;; taken ← serial_putc b; mret (put_effect b taken)
  | Ev_putc_woken t level b =>
      enter t false false;; taken ← serial_putc_woken level b; mret (put_effect b taken)
  | Ev_getc t level =>
      enter t level false;; key ← input_getc; mret (get_effect key)
  | Ev_getc_woken t level =>
      enter t false false;; key ← input_getc_woken level; mret (get_effect key)
  | Ev_key c =>
      enter_handler;;
      full ← input_full;
      if (full : bool) then mret (mk_effect [] [] [] false)
      else input_putc c;; mret (mk_effect [] [c] [] false)
  | Ev_interrupt =>
      enter_handler;;
      before ← get (λ s, rcvd (uart_of (log (ports s))));
      serial_interrupt;;
      after ← get (λ s, rcvd (uart_of (log (ports s))));
      mret (mk_effect [] (drop (length before) after) [] false)
  | Ev_flush t level context =>
      enter t level context;; serial_flush;; mret (mk_effect [] [] [] false)
  | Ev_init_queue t level =>
      enter t level false;; serial_init_queue;; mret (mk_effect [] [] [] false)
  end.

(** [putter] is in [serial_putc] with a byte, and [getter] in [input_getc], with
    the interrupt level to set at the end. *)
Record trace := mk_trace {
  dev : serial;
  queued : list Z;
  inputs : list Z;
  got : list Z;
  putter : option (Z * bool * Z);
  getter : option (Z * bool);
}.

Definition next_putter (e : event) (slept : bool) (p : option (Z * bool * Z)) : option (Z * bool * Z) :=
  match e with
  | Ev_putc t level _ b => if slept then Some (t, level, b) else p
  | Ev_putc_woken t level b => if slept then Some (t, level, b) else None
  | _ => p
  end.
Definition next_getter (e : event) (slept : bool) (g : option (Z * bool)) : option (Z * bool) :=
  match e with
  | Ev_getc t level | Ev_getc_woken t level => if slept then Some (t, level) else None
  | _ => g
  end.

(** A handler has interrupts off; the serial interrupt is registered by
    [serial_init_queue], which is called once.  One thread at a time is in
    [input_getc], and one with interrupts on in [serial_putc]; it goes on when
    [signal] has cleared it as the waiter. *)
Definition enabled (tr : trace) (e : event) : Prop :=
  match e with
  | Ev_putc t level context b => t ≠ NULL ∧ byte b ∧ (level = true → context = false ∧ putter tr = None)
  | Ev_putc_woken t level b => putter tr = Some (t, level, b) ∧ not_full (txq (dev tr)) = NULL
  | Ev_getc t level => t ≠ NULL ∧ getter tr = None
  | Ev_getc_woken t level => getter tr = Some (t, level) ∧ not_empty (buffer (dev tr)) = NULL
  | Ev_interrupt => mode (dev tr) = QUEUE
  | Ev_init_queue t level => mode (dev tr) ≠ QUEUE
  | _ => True
  end.

Definition after (tr : trace) (e : event) (x : effect) (s : serial) : trace :=
  mk_trace s (queued tr ++ e_queued x) (inputs tr ++ e_input x) (got tr ++ e_got x)
    (next_putter e (e_slept x) (putter tr)) (next_getter e (e_slept x) (getter tr)).

Inductive step : trace → trace → Prop :=
  | step_intro tr e x s : enabled tr e → perform e (dev tr) = Ret x s → step tr (after tr e x s).

(** The kernel after [input_init]: the other variables are zero. *)
Definition zero_intq : intq := mk_intq None 0 0 (replicate 64 0) 0 0.
Definition start (answers : list Z) : trace :=
  mk_trace (mk_serial (mk_io answers []) false false NULL UNINIT zero_intq (intq_init zero_intq) [])
    [] [] [] None None.

(** *** The invariant *)

(** In the interrupt-driven mode the transmitter's interrupt is on if there is
    a byte to transmit, and the receiver's exactly if there is room for one. *)
Definition ier_ok (v : view) : Prop :=
  v_mode v = QUEUE →
  (v_tx v ≠ [] → Z.testbit (v_ier v) 1 = true) ∧
  Z.testbit (v_ier v) 0 = negb (bool_decide (length (v_in v) = 63%nat)).

Record good (v : view) (q i g : list Z) : Prop := {
  g_bytes : Forall byte (v_tx v);
  g_sent : v_sent v ++ v_tx v = q;
  g_in : i = g ++ v_in v;
  g_mode : v_mode v ≠ QUEUE → v_tx v = [];
  g_ier : ier_ok v;
}.

Lemma wanted_ier_ok v : ier_ok (v <| v_ier := wanted_ier v |>).
Proof.
  intros _. simpl. unfold wanted_ier. split.
  - intros H. rewrite decide_False by done. by case_decide.
  - do 2 case_decide; case_bool_decide; done.
Qed.

Lemma notified_ok v : ier_ok (notified v).
Proof.
  unfold notified. case_decide as E; [apply wanted_ier_ok|]. intros H. by destruct E.
Qed.

(** The bytes in flight do not depend on the level, the context and the
    register. *)
Lemma good_enter v q i g l c : good v q i g → good (v <| v_level := l |> <| v_context := c |>) q i g.
Proof. intros [? ? ? ? ?]. by split. Qed.

Lemma good_level v q i g l : good v q i g → good (v <| v_level := l |>) q i g.
Proof. intros [? ? ? ? ?]. by split. Qed.

Lemma good_notified v q i g : Forall byte (v_tx v) → v_sent v ++ v_tx v = q → i = g ++ v_in v →
  (v_mode v ≠ QUEUE → v_tx v = []) → good (notified v) q i g.
Proof.
  intros G1 G2 G3 G4. pose proof (notified_ok v) as G5. unfold notified in *.
  case_decide; by split.
Qed.

Lemma put_view_good l b v q i g : byte b → v_mode v = QUEUE → good v q i g →
  let '(taken, v') := put_view l b v in good v' (q ++ if taken then [b] else []) i g.
Proof.
  intros Hb Em [G1 G2 G3 G4 G5]. unfold put_view. case_decide as Ef; [rewrite app_nil_r; by split|].
  apply good_level. split; simpl; [by apply Forall_app; split; [|constructor]| |done|congruence
    |exact (wanted_ier_ok (v <| v_tx := v_tx v ++ [b] |>))].
  by rewrite <- G2, app_assoc.
Qed.

Lemma putc_view_good b v q i g : byte b → good v q i g →
  let '(taken, v') := putc_view b v in good v' (q ++ if taken then [b] else []) i g.
Proof.
  intros Hb G. pose proof G as [G1 G2 G3 G4 G5]. unfold putc_view. destruct (v_mode v) eqn:Em.
  - rewrite G4 in G2 by done. split; simpl; try done. by rewrite <- G2, !app_nil_r.
  - rewrite G4 in G2 by done. split; simpl; rewrite ?G4 by done; try done.
    + by rewrite <- G2, !app_nil_r.
    + intros H. simpl in H. congruence.
  - pose proof (good_level _ _ _ _ false G) as GL.
    destruct (v_tx v) as [|x l] eqn:Et; [by apply put_view_good|].
    destruct (negb (v_level v) && _) eqn:Ef; [|by apply put_view_good].
    apply andb_true_iff in Ef as [_ Ef%bool_decide_eq_true].
    apply Forall_cons in G1 as [Hx HF]. unfold put_view. rewrite decide_False by (simpl in *; lia).
    apply good_level. split; simpl; [by apply Forall_app; split; [|constructor]| |done|congruence|].
    + by rewrite <- G2, <- !app_assoc.
    + exact (wanted_ier_ok (v <| v_level := false |> <| v_sent := v_sent v ++ [x] |> <| v_tx := l ++ [b] |>)).
Qed.

(** A caller sleeps only in the interrupt-driven mode, and the mode stays. *)
Lemma put_view_mode l b v : v_mode (put_view l b v).2 = v_mode v.
Proof. unfold put_view. by case_decide. Qed.

Lemma putc_view_mode b v : (putc_view b v).1 = false → v_mode (putc_view b v).2 = QUEUE.
Proof.
  unfold putc_view. destruct (v_mode v) eqn:E; [done|done|]. intros _.
  destruct (v_tx v); [|destruct (negb _ && _)]; by rewrite put_view_mode.
Qed.

Lemma putc_view_modes b v : v_mode (putc_view b v).2 ≠ QUEUE → v_mode v ≠ QUEUE.
Proof.
  unfold putc_view. destruct (v_mode v) eqn:E; [done|done|].
  destruct (v_tx v); [|destruct (negb _ && _)]; by rewrite put_view_mode.
Qed.

Lemma getc_view_good l v q i g : good v q i g →
  good (getc_view l v).2 q i (g ++ option_list (getc_view l v).1) ∧ v_mode (getc_view l v).2 = v_mode v.
Proof.
  intros G. unfold getc_view. destruct (v_in v) as [|b m] eqn:E; simpl; [by rewrite app_nil_r|].
  pose proof G as [G1 G2 G3 G4 G5]. split; [|unfold notified; by case_decide].
  apply good_level, good_notified; [done|done|by rewrite G3, E, <- app_assoc|done].
Qed.

Lemma wp_enter t l c s v (Q : unit → serial → Prop) : views s v →
  (∀ s', views s' (v <| v_level := l |> <| v_context := c |>) →
     s' = s <| running := t |> <| intr_level := l |> <| intr_context := c |> → Q tt s') → wp (enter t l c) Q s.
Proof. intros [V1 V2 V3 ->] HQ. apply wp_modify, HQ; [by split|done]. Qed.

Lemma wp_enter_handler s v (Q : unit → serial → Prop) : views s v →
  (∀ s', views s' (v <| v_level := false |> <| v_context := true |>) → Q tt s') → wp enter_handler Q s.
Proof. intros [V1 V2 V3 ->] HQ. apply wp_modify, HQ. by split. Qed.

(** What is true between the events. *)
Definition sleepers (tr : trace) : option Z * option Z := ((λ x, x.1.1) <$> putter tr, fst <$> getter tr).

Definition Flow (tr : trace) : Prop := ∃ v, views (dev tr) v ∧
  good v (queued tr) (inputs tr) (got tr) ∧ (v_mode v ≠ QUEUE → putter tr = None) ∧
  ∀ t l b, putter tr = Some (t, l, b) → byte b.
Definition Asleep (tr : trace) : Prop := ∃ t, mons t (sleepers tr).1 (sleepers tr).2 (dev tr).
Definition Inv (tr : trace) : Prop := Flow tr ∧ Asleep tr.

Lemma mons_enter t t' l c p g s : mons t p g s →
  mons t' p g (s <| running := t' |> <| intr_level := l |> <| intr_context := c |>).
Proof. intros []. by split. Qed.

(** Every event keeps the bytes in order, and none panics. *)
Section Events.
Context (tr : trace) (v : view) (V : views (dev tr) v) (G : good v (queued tr) (inputs tr) (got tr)).
Context (Gm : v_mode v ≠ QUEUE → putter tr = None) (Gb : ∀ t l b, putter tr = Some (t, l, b) → byte b).
Context (t0 : Z) (Mo : mons t0 (sleepers tr).1 (sleepers tr).2 (dev tr)).

Definition keeps (e : event) : Prop := wp (perform e) (λ x s, Flow (after tr e x s)) (dev tr).

Ltac start_event s1 V1 := unfold keeps; cbn [perform]; wp_step;
  (eapply wp_enter; [exact V|]); intros s1 V1 ?.
Ltac start_handler s1 V1 := unfold keeps; cbn [perform]; wp_step;
  (eapply wp_enter_handler; [exact V|]); intros s1 V1.
(** The invariant for the view of [V2]. *)
Ltac exists_view V2 := eexists; split; [exact V2|];
  cbn [queued inputs got putter after e_queued e_input e_got e_slept put_effect get_effect option_list next_putter].
Ltac end_event V2 := exists_view V2; simpl; rewrite ?app_nil_r.

Lemma keeps_putc t l c b : byte b → (l = true → c = false) → keeps (Ev_putc t l c b).
Proof.
  intros Hb Hlc. start_event s1 V1. wp_step. pose proof (good_enter _ _ _ _ l c G) as G1.
  eapply wp_serial_putc_views; [exact V1|done|apply G|done|]. intros s2 V2. wp_step.
  pose proof (putc_view_good b _ _ _ _ Hb G1) as G2.
  pose proof (putc_view_mode b (v <| v_level := l |> <| v_context := c |>)) as G3.
  pose proof (putc_view_modes b (v <| v_level := l |> <| v_context := c |>)) as G4.
  destruct (putc_view b _) as [[] v']; end_event V2; [|rewrite app_nil_r in G2]; (split; [exact G2|]).
  - split; [|exact Gb]. intros Hq. by apply Gm, G4.
  - split; [intros Hq; by destruct Hq; apply G3|]. by intros ? ? ? [= _ _ <-].
Qed.

Lemma keeps_putc_woken t l b : putter tr = Some (t, l, b) →
  keeps (Ev_putc_woken t l b).
Proof.
  intros Hp. pose proof (Gb _ _ _ Hp) as Hb. assert (v_mode v = QUEUE) as Em by (destruct (decide (v_mode v = QUEUE)) as [|N]; [done|];
    by rewrite (Gm N) in Hp).
  start_event s1 V1. unfold serial_putc_woken. wp_step. wp_step.
  eapply (wp_release_tx t); [exact V1| |].
  { subst s1. apply (mons_enter t0). unfold sleepers in Mo. rewrite Hp in Mo. exact Mo. }
  intros s2 V2. eapply wp_serial_putc_from_views; [exact V2|done|done|]. intros s3 V3. wp_step.
  pose proof (λ E, put_view_good l b _ _ _ _ Hb E (good_enter _ _ _ _ false false G)) as G2. specialize (G2 Em).
  pose proof (put_view_mode l b (v <| v_level := false |> <| v_context := false |>)) as G3.
  destruct (put_view l b _) as [[] v']; end_event V3; [|rewrite app_nil_r in G2]; (split; [exact G2|]);
    (split; [intros Hq; simpl in G3; by rewrite G3, Em in Hq|]); [done|by intros ? ? ? [= _ _ <-]].
Qed.

Lemma keeps_getc t l : keeps (Ev_getc t l).
Proof.
  start_event s1 V1. unfold input_getc. wp_step. wp_step. eapply wp_disable_views; [exact V1|].
  intros s2 V2. eapply wp_input_getc_from_views; [exact V2|done|done|]. intros s3 V3. wp_step.
  destruct (getc_view_good l _ _ _ _ (good_level _ _ _ _ false (good_enter _ _ _ _ l false G))) as [G1 G2].
  exists_view V3. rewrite !app_nil_r. split; [exact G1|].
  split; [intros Hq; apply Gm; intros E; exact (Hq (eq_trans G2 E))|exact Gb].
Qed.

Lemma keeps_getc_woken t l : getter tr = Some (t, l) → keeps (Ev_getc_woken t l).
Proof.
  intros Hg. start_event s1 V1. unfold input_getc_woken. wp_step. wp_step.
  eapply (wp_release_input t); [exact V1| |].
  { subst s1. apply (mons_enter t0). unfold sleepers in Mo. rewrite Hg in Mo. exact Mo. }
  intros s2 V2. eapply wp_input_getc_from_views; [exact V2|done|done|]. intros s3 V3. wp_step.
  destruct (getc_view_good l _ _ _ _ (good_enter _ _ _ _ false false G)) as [G1 G2].
  exists_view V3. rewrite !app_nil_r. split; [exact G1|].
  split; [intros Hq; apply Gm; intros E; exact (Hq (eq_trans G2 E))|exact Gb].
Qed.

Lemma keeps_key k : keeps (Ev_key k).
Proof.
  start_handler s1 V1. wp_step. eapply wp_input_full_views; [exact V1|done|]. case_bool_decide as Ef.
  - wp_step. end_event V1. split; [by apply good_enter|by split].
  - wp_step. eapply wp_input_putc_views; [exact V1|done| |].
    { pose proof (queue_length Input _ _ V1). simpl in *. lia. }
    intros s2 V2. wp_step. exists_view V2. destruct G as [G1 G2 G3 G4 G5].
    split; [|by unfold notified; case_decide; split].
    apply good_notified; [done|by rewrite app_nil_r|by rewrite app_nil_r, G3, <- app_assoc|done].
Qed.

Lemma keeps_interrupt : mode (dev tr) = QUEUE → keeps Ev_interrupt.
Proof.
  intros Hm. assert (v_mode v = QUEUE) as Em by (by destruct V as [_ _ _ ->]).
  start_handler s1 V1. do 3 wp_step. eapply wp_serial_interrupt_views; [exact V1|done|apply G|].
  intros s2 rs l k E w V2. subst w. do 3 wp_step.
  assert (rcvd (uart_of (log (ports s1))) = v_rcvd v) as ->
    by (destruct V1 as [_ _ _ V1]; by injection V1).
  assert (rcvd (uart_of (log (ports s2))) = v_rcvd v ++ rs) as ->
    by (destruct V2 as [_ _ _ V2]; by injection V2).
  rewrite drop_app_length. end_event V2. destruct G as [G1 G2 G3 G4 G5].
  simpl in E. rewrite E in G1, G2. apply Forall_app in G1 as [_ G1]. split; [|by split].
  split; simpl; [done|by rewrite <- G2, app_assoc|by rewrite G3, app_assoc|congruence|].
  exact (wanted_ier_ok (v <| v_level := false |> <| v_context := true |> <| v_in := v_in v ++ rs |>
    <| v_rcvd := v_rcvd v ++ rs |> <| v_sent := v_sent v ++ l |> <| v_tx := k |>)).
Qed.

Lemma keeps_flush t l c : keeps (Ev_flush t l c).
Proof.
  start_event s1 V1. wp_step. eapply wp_serial_flush_views; [exact V1|apply G|]. intros s2 V2. wp_step.
  end_event V2. destruct G as [G1 G2 G3 G4 G5]. split; [|by split].
  split; simpl; [done|by rewrite app_nil_r|done|done|].
  intros Hm. destruct (G5 Hm) as [_ ?]. by split.
Qed.

Lemma keeps_init_queue t l : mode (dev tr) ≠ QUEUE → keeps (Ev_init_queue t l).
Proof.
  intros Hm. assert (v_mode v ≠ QUEUE) as Em by (by destruct V as [_ _ _ ->]).
  start_event s1 V1. wp_step. eapply wp_serial_init_queue_views; [exact V1|exact Em|].
  intros s2 w V2. wp_step. end_event V2. destruct G as [G1 G2 G3 G4 G5]. specialize (G4 Em).
  assert (match v_mode v with UNINIT => [] | _ => v_tx v end = []) as Et by (by destruct (v_mode v)).
  pose proof (wanted_ier_ok w) as G6. split; [|by split].
  split; simpl; [by rewrite Et; constructor|by rewrite Et; rewrite G4 in G2|done|done|exact G6].
Qed.
End Events.

Lemma perform_flow tr e : Inv tr → enabled tr e → keeps tr e.
Proof.
  intros [(v & V & G & Gm & Gb) (t & Mo)] He. destruct e; simpl in He.
  - destruct He as (_ & Hb & Hl). eapply keeps_putc; [done..|]. intros Hl'. by apply Hl.
  - destruct He. eapply keeps_putc_woken; done.
  - by eapply keeps_getc.
  - destruct He. by eapply keeps_getc_woken.
  - by eapply keeps_key.
  - by eapply keeps_interrupt.
  - by eapply keeps_flush.
  - by eapply keeps_init_queue.
Qed.

(** The threads asleep. *)
Lemma perform_asleep tr e : Inv tr → enabled tr e →
  wlp (perform e) (λ x s, Asleep (after tr e x s)) (dev tr).
Proof.
  intros [(v & V & _ & Gm & _) (t0 & Mo)] He.
  assert (mode (dev tr) ≠ QUEUE → putter tr = None) as Hm by (by destruct V as [_ _ _ ->]). clear Gm V.
  unfold Asleep, sleepers in *. destruct e as [t l c b|t l b|t l|t l|k| |t l c|t l]; cbn [perform enabled] in *.
  - destruct He as (_ & _ & Hl). apply wlp_bind.
    apply (mons_enter t0 t l c) in Mo. apply wlp_bind. eapply wlp_mono; [apply (wlp_serial_putc b _ _ _ _ Mo)|].
    + intros Hq. by rewrite Hm.
    + intros Hl'. by destruct (Hl Hl') as [_ ->].
    + intros [] s' Hs; by exists t.
  - destruct He as [Hp Hn]. rewrite Hp in *. apply wlp_bind. apply (mons_enter t0 t false false) in Mo.
    apply wlp_bind. unfold serial_putc_woken. apply wlp_bind. eapply wlp_mono; [exact (wlp_release_tx t _ _ Mo Hn)|].
    intros ? s1 M1. eapply wlp_mono; [exact (wlp_serial_putc_from l b t _ s1 M1)|]. intros [] s' Hs; by exists t.
  - destruct He as [_ Hg]. rewrite Hg in *. apply wlp_bind. apply (mons_enter t0 t l false) in Mo.
    apply wlp_bind. unfold input_getc. eapply (wlp_seq _ _ _ t); [apply steady_disable|exact Mo|intros o s1 M1].
    eapply wlp_mono; [by apply wlp_input_getc_from|]. intros [] s' Hs; by exists t.
  - destruct He as [Hg Hn]. rewrite Hg in *. apply wlp_bind. apply (mons_enter t0 t false false) in Mo.
    apply wlp_bind. unfold input_getc_woken. apply wlp_bind. eapply wlp_mono; [exact (wlp_release_input t _ _ Mo Hn)|].
    intros ? s1 M1. eapply wlp_mono; [exact (wlp_input_getc_from l t _ s1 M1)|]. intros [] s' Hs; by exists t.
  - eapply wlp_seq; [|exact Mo|]; [apply steady_modify; done|intros _ s1 M1].
    eapply wlp_seq; [unfold input_full; steady|exact M1|intros f s2 M2]. destruct f; [by exists t0|].
    eapply wlp_seq; [apply steady_input_putc|exact M2|intros _ s3 M3]. by exists t0.
  - eapply wlp_seq; [|exact Mo|]; [apply steady_modify; done|intros _ s1 M1].
    eapply wlp_seq; [apply steady_get|exact M1|intros r1 s2 M2].
    eapply wlp_seq; [apply steady_interrupt|exact M2|intros _ s3 M3].
    eapply wlp_seq; [apply steady_get|exact M3|intros r2 s4 M4]. by exists t0.
  - apply wlp_bind. apply (mons_enter t0 t l c) in Mo.
    eapply wlp_seq; [apply steady_flush|exact Mo|intros _ s1 M1]. by exists t.
  - pose proof (Hm He) as Hp. rewrite Hp in Mo. apply wlp_bind. apply (mons_enter t0 t l false) in Mo.
    apply wlp_bind. eapply wlp_mono; [by apply wlp_init_queue|]. intros ? s1 M1. exists t. cbn. by rewrite Hp.
Qed.

Lemma perform_ok tr e : Inv tr → enabled tr e → wp (perform e) (λ x s, Inv (after tr e x s)) (dev tr).
Proof.
  intros I He. apply wp_and; [by apply perform_flow|by apply perform_asleep].
Qed.

Lemma serial_start_Inv ans : Inv (start ans).
Proof.
  split.
  - eexists. split; [by split|]. split; [|done]. split; simpl; [by constructor|done..|]. intros H. discriminate H.
  - exists NULL. by split.
Qed.

Lemma serial_steps_Inv ans tr : rtc step (start ans) tr → Inv tr.
Proof.
  intros H. eapply rtc_invariant; [|exact H|apply serial_start_Inv]. intros t1 t2 I Hs.
  destruct Hs as [tr' e x s He Hp]. exact (wp_run _ _ _ _ _ (perform_ok tr' e I He) Hp).
Qed.

(** A byte is transmitted as soon as the device reports an empty register. *)
Lemma putc_poll_returns b s pre v post : intr_level s = false → answers (ports s) = pre ++ v :: post →
  Forall (λ x, Z.land (x mod 2 ^ 8) LSR_THRE = 0) pre → Z.land (v mod 2 ^ 8) LSR_THRE ≠ 0 →
  ∃ s', putc_poll b s = Ret tt s' ∧ answers (ports s') = post.
Proof.
  intros L A HF Hv.
  assert (∀ n s pre, answers (ports s) = pre ++ v :: post → (length pre < n)%nat →
    Forall (λ x, Z.land (x mod 2 ^ 8) LSR_THRE = 0) pre →
    ∃ s', poll_loop n s = Ret tt s' ∧ answers (ports s') = post) as Hl.
  { clear s pre L A HF. induction n as [|n IH]; intros s pre A Hn HF; [lia|].
    cbn [poll_loop]. unfold mbind, M_bind, inb, mbind, M_bind, answer. change (io_of s) with (ports s).
    rewrite A. destruct pre as [|x pre]; simpl app.
    - cbv iota. cbn -[Z.land Z.modulo]. rewrite (proj2 (Z.eqb_neq _ 0)) by exact Hv.
      eexists. split; [reflexivity|]. simpl. by rewrite A.
    - apply Forall_cons in HF as [Hx HF]. cbn -[Z.land Z.modulo poll_loop].
      rewrite (proj2 (Z.eqb_eq _ 0)) by exact Hx. apply (IH _ pre); [simpl; by rewrite A|simpl in Hn; lia|done]. }
  destruct (Hl (S (length (answers (ports s)))) s pre A) as (s' & Hs & As).
  { rewrite A, length_app. lia. }
  { done. }
  unfold putc_poll, assert_intr_off, mbind, M_bind, get, check. rewrite L. cbn [negb]. rewrite Hs.
  eexists. split; [reflexivity|exact As].
Qed.


