(* ===== verification/Kbd.v ===== *)
(** * Keyboard ([devices/kbd.c])

    The handler reads a scan code, of two bytes if the first one is the prefix
    [0xe0], and turns it into a character for the input buffer or into a change
    of the modifier keys.

    The theorem states what is typed from the history of the keys: a modifier is
    down if it was pressed and not released since, Caps Lock is on if it was
    pressed an odd number of times, and the characters are those of the US
    layout. *)

From Stdlib Require Import String.
From S2P Require Import Prelude Machine CString StdlibC Stdio Intq Io Serial.

Open Scope Z_scope.

Definition DATA_REG : Z := 96.

(** ** State *)

(** The variables of [kbd.c], and the state of the input buffer. *)
Record kbd := mk_kbd {
  left_shift : bool; right_shift : bool;
  left_alt : bool; right_alt : bool;
  left_ctrl : bool; right_ctrl : bool;
  caps_lock : bool;
  key_cnt : Z;
  ser : serial;
}.
#[export] Instance kbd_ctor : Ctor kbd := λ k,
  mk_kbd (left_shift k) (right_shift k) (left_alt k) (right_alt k) (left_ctrl k) (right_ctrl k)
    (caps_lock k) (key_cnt k) (ser k).
#[export] Instance kbd_has_io : HasIo kbd :=
  {| io_of := λ k, ports (ser k); set_io := λ f k, k <| ser ::= λ s, s <| ports ::= f |> |> |}.

(** A function of the input buffer. *)
Definition on_ser {A} (m : M serial A) : M kbd A := λ k,
  match m (ser k) with
  | Ret a s => Ret a (k <| ser := s |>)
  | Panic => Panic
  | Waits => Waits
  end.

(** ** Key maps *)

(** [struct keymap]: the first scan code and the characters. *)
Definition keymap : Type := list (Z * list Z).

Definition invariant_keymap : keymap :=
  [(1, [27]); (14, [8]); (15, 9 :: lit "QWERTYUIOP"); (28, [13]); (30, lit "ASDFGHJKL");
   (44, lit "ZXCVBNM"); (55, lit "*"); (57, lit " "); (83, [127])].

Definition unshifted_keymap : keymap :=
  [(2, lit "1234567890-="); (26, lit "[]"); (39, lit ";'`"); (43, [92]); (51, lit ",./")].

Definition shifted_keymap : keymap :=
  [(2, lit "!@#$%^&*()_+"); (26, lit "{}"); (39, [58; 34; 126]); (43, lit "|"); (51, lit "<>?")].

Fixpoint map_key (k : keymap) (scancode : Z) : option Z :=
  match k with
  | [] => None
  | (first_scancode, chars) :: k =>
      if (first_scancode <=? scancode) && (scancode <? first_scancode + Z.of_nat (length chars))
      then chars !! Z.to_nat (scancode - first_scancode)
      else map_key k scancode
  end.

Definition isupper (c : Z) : bool := (65 <=? c) && (c <=? 90).
Definition tolower (c : Z) : Z := if isupper c then c - 65 + 97 else c.

(** The three calls of [map_key]. *)
Definition find_key (shift : bool) (code : Z) : option Z :=
  match map_key invariant_keymap code with
  | Some c => Some c
  | None => map_key (if shift then shifted_keymap else unshifted_keymap) code
  end.

(** The character that is appended, a [uint8_t]. *)
Definition key_char (shift ctrl alt caps : bool) (c : Z) : Z :=
  let c := if ctrl && (64 <=? c) && (c <? 96) then c - 64
           else if eqb shift caps then tolower c else c in
  if alt then (c + 128) mod 256 else c.

(** [*key->state_var = !release] for the entry of the table with this code. *)
Definition shift_keys (code : Z) (down : bool) (k : kbd) : kbd :=
  if code =? 42 then k <| left_shift := down |>
  else if code =? 54 then k <| right_shift := down |>
  else if code =? 56 then k <| left_alt := down |>
  else if code =? 57400 then k <| right_alt := down |>
  else if code =? 29 then k <| left_ctrl := down |>
  else if code =? 57373 then k <| right_ctrl := down |>
  else k.

(** ** [keyboard_interrupt] *)

(** Interprets the key.  The result tells that [shutdown_reboot] was called, which
    does not return. *)
Definition interpret_key (shift alt ctrl : bool) (code : Z) : M kbd bool :=
  let release := negb (Z.land code 128 =? 0) in
  let code := Z.ldiff code 128 in
  if code =? 58 then
    when (negb release) (modify (λ k, k <| caps_lock ::= negb |>));; mret false
  else match find_key shift code with
  | Some c =>
      if release then mret false
      else if (c =? 127) && ctrl && alt then mret true
      else
        caps ← get caps_lock;
        let c := key_char shift ctrl alt caps c in
        full ← on_ser input_full;
        when (negb full) (modify (λ k, k <| key_cnt ::= Z.add 1 |>);; on_ser (input_putc c));;
        mret false
  | None => modify (shift_keys code (negb release));; mret false
  end.

Definition keyboard_interrupt : M kbd bool :=
  shift ← get (λ k, left_shift k || right_shift k);
  alt ← get (λ k, left_alt k || right_alt k);
  ctrl ← get (λ k, left_ctrl k || right_ctrl k);
  code ← inb DATA_REG;
  code ← (if code =? 224 then b ← inb DATA_REG; mret (Z.lor (Z.shiftl code 8) b) else mret code);
  interpret_key shift alt ctrl code.

(** ** Specification *)

(** A key event: whether the scan code has the prefix, its lower seven bits, and
    whether the key goes down. *)
Record key := mk_key { k_ext : bool; k_code : Z; k_down : bool }.

Definition scan (k : key) : list Z :=
  (if k_ext k then [224] else []) ++ [k_code k + if k_down k then 0 else 128].

(** The byte [0xe0] is the prefix, not the release of a key. *)
Definition wf_key (k : key) : Prop :=
  0 ≤ k_code k < 128 ∧ (k_ext k = false → k_code k = 96 → k_down k = true).

Definition is_key (ext : bool) (code : Z) (k : key) : Prop := k_ext k = ext ∧ k_code k = code.
#[export] Instance is_key_dec ext code k : Decision (is_key ext code k) := _.

(** The key is down after the events [h], the latest one last. *)
Definition held (ext : bool) (code : Z) (h : list key) : bool :=
  match last (filter (is_key ext code) h) with Some k => k_down k | None => false end.

Definition shift_held (h : list key) : bool := held false 42 h || held false 54 h.
Definition alt_held (h : list key) : bool := held false 56 h || held true 56 h.
Definition ctrl_held (h : list key) : bool := held false 29 h || held true 29 h.
Definition caps_on (h : list key) : bool :=
  Nat.odd (length (filter (λ k, is_key false 58 k ∧ k_down k = true) h)).

(** The rows of a US keyboard, without and with Shift. *)
Definition us_rows : list (Z * list Z * list Z) :=
  [(2, lit "1234567890-=", lit "!@#$%^&*()_+");
   (16, lit "qwertyuiop[]", lit "QWERTYUIOP{}");
   (30, lit "asdfghjkl;'`", lit "ASDFGHJKL:" ++ [34; 126]);
   (43, 92 :: lit "zxcvbnm,./", lit "|ZXCVBNM<>?");
   (1, [27], [27]); (14, [8; 9], [8; 9]); (28, [13], [13]); (55, lit "*", lit "*");
   (57, lit " ", lit " "); (83, [127], [127])].

Fixpoint us_key (rows : list (Z * list Z * list Z)) (code : Z) : option (Z * Z) :=
  match rows with
  | [] => None
  | (first, plain, shifted) :: rows =>
      match us_key rows code, plain !! Z.to_nat (code - first), shifted !! Z.to_nat (code - first) with
      | Some p, _, _ => Some p
      | None, Some a, Some b => if first <=? code then Some (a, b) else None
      | None, _, _ => None
      end
  end.

Definition islower (c : Z) : bool := (97 <=? c) && (c <=? 122).

(** The character of a key: a letter is a capital if exactly one of Shift and Caps
    Lock is on; Ctrl makes a control character where there is one, and Alt sets
    the high bit. *)
Definition us_char (shift ctrl alt caps : bool) (code : Z) : option Z :=
  '(a, b) ← us_key us_rows code;
  let c := if islower a then (if xorb shift caps then b else a) else if shift then b else a in
  let u := if islower c then c - 32 else c in
  let c := if ctrl && (64 <=? u) && (u <? 96) then u - 64 else c in
  Some (if alt then c + 128 else c).

(** What the event [k] types after the events [h]. *)
Definition typed (h : list key) (k : key) : option Z :=
  if k_ext k || negb (k_down k) then None
  else us_char (shift_held h) (ctrl_held h) (alt_held h) (caps_on h) (k_code k).

(** The event restarts the computer. *)
Definition reboots (h : list key) (k : key) : bool :=
  negb (k_ext k) && k_down k && (k_code k =? 83) && ctrl_held h && alt_held h.

(** ** The tables *)

Definition all_keys (P : Z → bool → bool → bool → bool → bool) : bool :=
  forallb (λ code, forallb (λ s, forallb (λ c, forallb (λ a, forallb (P code s c a)
    [false; true]) [false; true]) [false; true]) [false; true]) (seqZ 0 128).

Lemma all_keys_ok P : all_keys P = true → ∀ code s c a p, 0 ≤ code < 128 → P code s c a p = true.
Proof.
  intros H code s c a p Hc. unfold all_keys in H. rewrite forallb_forall in H.
  assert (∀ b : bool, In b [false; true]) as Hb by (intros []; simpl; auto).
  assert (In code (seqZ 0 128)) as Hin by (apply list_elem_of_In, elem_of_seqZ; lia).
  specialize (H code Hin).
  cbn beta in H. rewrite forallb_forall in H. specialize (H s (Hb s)).
  cbn beta in H. rewrite forallb_forall in H. specialize (H c (Hb c)).
  cbn beta in H. rewrite forallb_forall in H. specialize (H a (Hb a)).
  cbn beta in H. rewrite forallb_forall in H. exact (H p (Hb p)).
Qed.

(** The tables of the code are the US layout. *)
Lemma tables_us code shift ctrl alt caps : 0 ≤ code < 128 →
  (if code =? 58 then None else key_char shift ctrl alt caps <$> find_key shift code)
    = us_char shift ctrl alt caps code.
Proof.
  intros Hc. assert (all_keys (λ code shift ctrl alt caps, bool_decide
    ((if code =? 58 then None else key_char shift ctrl alt caps <$> find_key shift code)
      = us_char shift ctrl alt caps code)) = true) as H
    by (vm_compute; reflexivity).
  pose proof (all_keys_ok _ H code shift ctrl alt caps Hc) as H'. by apply bool_decide_eq_true in H'.
Qed.

(** Keys with the prefix have no character. *)
Lemma prefix_no_char code shift : 0 ≤ code < 128 → find_key shift (57344 + code) = None.
Proof.
  intros Hc. assert (all_keys (λ code shift _ _ _, bool_decide
    (find_key shift (57344 + code) = None)) = true) as H
    by (vm_compute; reflexivity).
  pose proof (all_keys_ok _ H code shift true true true Hc) as H'. by apply bool_decide_eq_true in H'.
Qed.

(** Delete is the key with the code 83, and no key with a character is a
    modifier. *)
Lemma delete_key code shift : 0 ≤ code < 128 → (find_key shift code = Some 127 ↔ code = 83).
Proof.
  intros Hc. assert (all_keys (λ code shift _ _ _, bool_decide
    (find_key shift code = Some 127 ↔ code = 83)) = true) as H
    by (vm_compute; reflexivity).
  pose proof (all_keys_ok _ H code shift true true true Hc) as H'. by apply bool_decide_eq_true in H'.
Qed.

Lemma modifier_no_char code shift : code = 42 ∨ code = 54 ∨ code = 56 ∨ code = 29 →
  find_key shift code = None.
Proof. intros [-> | [-> | [-> | ->]]]; by destruct shift. Qed.

(** The code computed from the bytes of an event. *)
Definition full_code (k : key) : Z := (if k_ext k then 57344 else 0) + k_code k.

Lemma scan_code x : 0 ≤ x < 256 →
  Z.ldiff x 128 = x mod 128 ∧ (Z.land x 128 =? 0) = (x <? 128) ∧
  Z.lor (Z.shiftl 224 8) x = 57344 + x ∧
  Z.ldiff (57344 + x) 128 = 57344 + x mod 128 ∧ (Z.land (57344 + x) 128 =? 0) = (x <? 128).
Proof.
  intros Hx. assert (x ∈ seqZ 0 256) as Hin by (apply elem_of_seqZ; lia).
  assert (Forall (λ x, bool_decide (Z.ldiff x 128 = x mod 128 ∧ (Z.land x 128 =? 0) = (x <? 128) ∧
    Z.lor (Z.shiftl 224 8) x = 57344 + x ∧
    Z.ldiff (57344 + x) 128 = 57344 + x mod 128 ∧
    (Z.land (57344 + x) 128 =? 0) = (x <? 128)) = true) (seqZ 0 256)) as HF.
  { apply Forall_forall. intros y Hy. apply list_elem_of_In in Hy. revert y Hy.
    apply forallb_forall. vm_compute. reflexivity. }
  rewrite Forall_forall in HF. specialize (HF x Hin). by apply bool_decide_eq_true in HF.
Qed.

(** ** The history *)

Lemma held_snoc ext code h k :
  held ext code (h ++ [k]) = if decide (is_key ext code k) then k_down k else held ext code h.
Proof.
  unfold held. rewrite filter_app. case_decide as E.
  - rewrite filter_cons_True, filter_nil by done. by rewrite last_snoc.
  - rewrite filter_cons_False, filter_nil by done. by rewrite app_nil_r.
Qed.

Lemma caps_on_snoc h k :
  caps_on (h ++ [k]) = if decide (is_key false 58 k ∧ k_down k = true) then negb (caps_on h) else caps_on h.
Proof.
  unfold caps_on. rewrite filter_app, length_app. case_decide as E.
  - rewrite filter_cons_True, filter_nil by done. simpl. rewrite Nat.add_1_r, Nat.odd_succ.
    symmetry. apply Nat.negb_odd.
  - rewrite filter_cons_False, filter_nil by done. simpl. by rewrite Nat.add_0_r.
Qed.

(** The variables agree with the history. *)
Record mods_ok (h : list key) (k : kbd) : Prop := {
  m_left_shift : left_shift k = held false 42 h;
  m_right_shift : right_shift k = held false 54 h;
  m_left_alt : left_alt k = held false 56 h;
  m_right_alt : right_alt k = held true 56 h;
  m_left_ctrl : left_ctrl k = held false 29 h;
  m_right_ctrl : right_ctrl k = held true 29 h;
  m_caps : caps_lock k = caps_on h;
}.

(** An event that is neither a modifier nor Caps Lock, or the release of the
    latter. *)
Lemma mods_other h k e :
  (k_ext e = false → k_code e ≠ 42 ∧ k_code e ≠ 54) → k_code e ≠ 56 → k_code e ≠ 29 →
  ¬ (is_key false 58 e ∧ k_down e = true) → mods_ok h k → mods_ok (h ++ [e]) k.
Proof.
  intros H1 H2 H3 H4 [? ? ? ? ? ? ?].
  split; rewrite ?held_snoc, ?caps_on_snoc; (rewrite decide_False; [done|]); unfold is_key in *; naive_solver.
Qed.

Lemma mods_caps h k e : is_key false 58 e → k_down e = true → mods_ok h k →
  mods_ok (h ++ [e]) (k <| caps_lock ::= negb |>).
Proof.
  intros [E1 E2] Hd [? ? ? ? ? ? Hc].
  split; simpl; rewrite ?held_snoc, ?caps_on_snoc;
    try (rewrite decide_False; [done|]; unfold is_key; rewrite E2; naive_solver).
  rewrite decide_True by done. by rewrite Hc.
Qed.

(** A modifier key, or a key that means nothing. *)
Lemma held_code ext code h e : wf_key e → 0 ≤ code < 128 →
  held ext code (h ++ [e])
    = if full_code e =? (if ext then 57344 else 0) + code then k_down e else held ext code h.
Proof.
  intros [He _] Hc. rewrite held_snoc. unfold full_code, is_key.
  destruct (Z.eqb_spec ((if k_ext e then 57344 else 0) + k_code e) ((if ext then 57344 else 0) + code));
    case_decide as D; try done; exfalso; destruct (k_ext e), ext; naive_solver lia.
Qed.

Lemma mods_shift h k e : wf_key e → full_code e ≠ 58 → mods_ok h k →
  mods_ok (h ++ [e]) (shift_keys (full_code e) (k_down e) k).
Proof.
  intros He Hn [? ? ? ? ? ? ?].
  assert (caps_on (h ++ [e]) = caps_on h) as Hc.
  { rewrite caps_on_snoc. rewrite decide_False; [done|]. intros [[E1 E2] _]. apply Hn.
    unfold full_code. by rewrite E1, E2. }
  split; rewrite ?held_code by (done || lia); rewrite ?Hc; rewrite ?Z.add_0_l;
    change (57344 + 56) with 57400; change (57344 + 29) with 57373; unfold shift_keys;
    generalize (full_code e) as c; intros c;
    destruct (Z.eqb_spec c 42), (Z.eqb_spec c 54), (Z.eqb_spec c 56), (Z.eqb_spec c 57400),
      (Z.eqb_spec c 29), (Z.eqb_spec c 57373); try done; exfalso; lia.
Qed.

(** ** The handler *)

Lemma on_ser_wp {A} (m : M serial A) k Q : wp m (λ a s, Q a (k <| ser := s |>)) (ser k) → wp (on_ser m) Q k.
Proof. unfold wp, on_ser. by destruct (m (ser k)). Qed.

Lemma on_ser_quiet {A} (m : M serial A) : quiet m → quiet (on_ser m).
Proof. intros Hm k. specialize (Hm (ser k)). unfold on_ser. by destruct (m (ser k)). Qed.

Lemma input_full_quiet : quiet input_full.
Proof. unfold input_full, q_full, assert_intr_off. quiet. Qed.

Lemma input_putc_quiet c : quiet (input_putc c).
Proof.
  unfold input_putc, q_putc, q_wait, q_full, serial_notify, wake, set_queue, assert_intr_off, assert_thread.
  quiet.
Qed.

Lemma interpret_key_quiet shift alt ctrl code : quiet (interpret_key shift alt ctrl code).
Proof.
  unfold interpret_key. destruct (_ =? 58); [quiet|]. destruct (find_key _ _); [|].
  - destruct (negb _); [quiet|]. destruct (_ && _ && _); [quiet|].
    apply quiet_bind; [quiet|intros caps]. apply quiet_bind; [apply on_ser_quiet, input_full_quiet|intros full].
    apply quiet_bind; [|intros ?; quiet]. apply quiet_when, quiet_bind; [quiet|intros _].
    apply on_ser_quiet, input_putc_quiet.
  - quiet. unfold shift_keys. by repeat case_match.
Qed.

(** The bytes of an event. *)
Definition raw_code (e : key) : Z :=
  let b := k_code e + if k_down e then 0 else 128 in
  if k_ext e then Z.lor (Z.shiftl 224 8) b else b.

Lemma raw_code_ok e : wf_key e →
  Z.ldiff (raw_code e) 128 = full_code e ∧ negb (Z.land (raw_code e) 128 =? 0) = negb (k_down e).
Proof.
  intros [Hc _]. unfold raw_code, full_code.
  destruct (scan_code (k_code e + if k_down e then 0 else 128)) as (H1 & H2 & H3 & H4 & H5);
    [destruct (k_down e); lia|].
  assert ((k_code e + (if k_down e then 0 else 128)) mod 128 = k_code e) as Hm.
  { destruct (k_down e); [rewrite Z.add_0_r; by apply Z.mod_small|].
    rewrite <- (Z.mul_1_l 128) at 1. rewrite Z.mod_add by lia. by apply Z.mod_small. }
  assert ((k_code e + (if k_down e then 0 else 128) <? 128) = k_down e) as Hd
    by (destruct (k_down e); [apply Z.ltb_lt|apply Z.ltb_ge]; lia).
  destruct (k_ext e); rewrite ?H3, ?H1, ?H2, ?H4, ?H5, Hm, Hd; by rewrite ?Z.add_0_l.
Qed.

(** What the input buffer holds after the event. *)
Definition after_key (h : list key) (e : key) (v : view) : view :=
  match typed h e with
  | Some c => if decide (length (v_in v) = 63%nat) then v else notified (v <| v_in := v_in v ++ [c] |>)
  | None => v
  end.

Lemma find_key_full e shift : wf_key e → k_ext e = true → find_key shift (full_code e) = None.
Proof. intros [Hc _] E. unfold full_code. rewrite E. by apply prefix_no_char. Qed.

Lemma find_key_58 shift : find_key shift 58 = None.
Proof. by destruct shift. Qed.

(** The three kinds of keys. *)
Section Interpret.
Context (h : list key) (e : key) (k : kbd) (v : view).
Context (He : wf_key e) (Hm : mods_ok h k) (V : views (ser k) v) (L : v_level v = false).

Definition handled (r : bool) (k' : kbd) : Prop :=
  r = reboots h e ∧ (r = false → mods_ok (h ++ [e]) k' ∧ views (ser k') (after_key h e v)).

Lemma handled_caps : full_code e = 58 →
  wp (when (k_down e) (modify (λ k, k <| caps_lock ::= negb |>));; mret false) handled k.
Proof.
  intros E. pose proof He as [Hc _]. unfold full_code in E.
  assert (k_ext e = false ∧ k_code e = 58) as [Ex Ek] by (destruct (k_ext e); split; done || lia).
  assert (reboots h e = false ∧ typed h e = None) as [Hr Ht].
  { unfold reboots, typed. rewrite Ex, Ek. split; [by destruct (k_down e)|].
    destruct (k_down e); [|done]. exact (eq_sym (tables_us 58 _ _ _ _ ltac:(lia))). }
  wp_step. apply wp_when; intros Hd; repeat wp_step; (split; [done|]); intros _;
    unfold after_key; rewrite Ht; (split; [|done]).
  - by apply mods_caps.
  - apply mods_other; [intros _; lia|lia|lia| |done]. intros [_ Hd']. congruence.
Qed.

Lemma handled_nothing : full_code e ≠ 58 → find_key (shift_held h) (full_code e) = None →
  wp (modify (shift_keys (full_code e) (k_down e));; mret false) handled k.
Proof.
  intros Hn Hf. pose proof He as [Hc _].
  assert (reboots h e = false ∧ typed h e = None) as [Hr Ht].
  { unfold reboots, typed, full_code in *. destruct (k_ext e); [done|]. rewrite Z.add_0_l in *. cbn [negb orb andb].
    pose proof (tables_us (k_code e) (shift_held h) (ctrl_held h) (alt_held h) (caps_on h) Hc) as Hu.
    rewrite (proj2 (Z.eqb_neq _ _) Hn), Hf in Hu. split; [|by destruct (k_down e)].
    destruct (Z.eqb_spec (k_code e) 83) as [E|]; [|by rewrite andb_false_r].
    apply (delete_key _ (shift_held h) Hc) in E. congruence. }
  repeat wp_step. split; [done|]. intros _. unfold after_key. rewrite Ht.
  split; [by apply mods_shift|]. unfold shift_keys. by repeat case_match.
Qed.

Lemma handled_char c : full_code e ≠ 58 → find_key (shift_held h) (full_code e) = Some c →
  wp (if negb (k_down e) then mret false
      else if (c =? 127) && ctrl_held h && alt_held h then mret true
      else
        caps ← get caps_lock;
        full ← on_ser input_full;
        when (negb full) (modify (λ k, k <| key_cnt ::= Z.add 1 |>);;
          on_ser (input_putc (key_char (shift_held h) (ctrl_held h) (alt_held h) caps c)));;
        mret false) handled k.
Proof.
  intros Hn Hf. pose proof He as [Hc _].
  assert (k_ext e = false) as Ex.
  { destruct (k_ext e) eqn:Ex; [|done]. rewrite find_key_full in Hf by done. done. }
  unfold full_code in Hf, Hn. rewrite Ex, Z.add_0_l in *.
  assert (mods_ok (h ++ [e]) k) as Hm'.
  { apply mods_other; [| | | |done].
    - intros _. split; intros E; rewrite modifier_no_char in Hf; naive_solver.
    - intros E. rewrite modifier_no_char in Hf; naive_solver.
    - intros E. rewrite modifier_no_char in Hf; naive_solver.
    - intros [[_ E] _]. done. }
  pose proof (tables_us (k_code e) (shift_held h) (ctrl_held h) (alt_held h) (caps_on h) Hc) as Hu.
  rewrite (proj2 (Z.eqb_neq _ _) Hn), Hf in Hu. simpl in Hu.
  assert ((c =? 127) = (k_code e =? 83)) as Hd.
  { pose proof (delete_key _ (shift_held h) Hc) as D. rewrite Hf in D.
    destruct (Z.eqb_spec c 127), (Z.eqb_spec (k_code e) 83); try done; naive_solver. }
  unfold handled, after_key, typed, reboots. rewrite Ex, Hd. cbn [negb andb orb].
  destruct (k_down e); cbn [negb andb orb]; [|wp_step; by split].
  destruct (_ && _ && _) eqn:Er; [by wp_step; split|].
  wp_step. wp_step. wp_step. apply on_ser_wp. eapply wp_input_full_views; [done..|].
  wp_step. rewrite <- Hu, (m_caps _ _ Hm). case_bool_decide as Ef; cbn [negb when].
  - repeat wp_step. rewrite decide_True by done. split; [done|]. intros _. by destruct k.
  - repeat wp_step. apply on_ser_wp. eapply wp_input_putc_views; [exact V|done| |].
    { pose proof (queue_length Input _ _ V) as HL. simpl in HL. lia. }
    intros s' V'. wp_step. rewrite decide_False by done. split; [done|]. intros _. split; [|exact V'].
    by destruct Hm'.
Qed.

Lemma wp_interpret_key :
  wp (interpret_key (left_shift k || right_shift k) (left_alt k || right_alt k)
        (left_ctrl k || right_ctrl k) (raw_code e)) handled k.
Proof.
  destruct (raw_code_ok e He) as [Ec Er]. unfold interpret_key. rewrite Ec, Er.
  pose proof Hm as [M1 M2 M3 M4 M5 M6 M7]. rewrite M1, M2, M3, M4, M5, M6, negb_involutive.
  fold (shift_held h) (alt_held h) (ctrl_held h).
  destruct (Z.eqb_spec (full_code e) 58); [by apply handled_caps|].
  destruct (find_key (shift_held h) (full_code e)) eqn:Ef; [by apply handled_char|by apply handled_nothing].
Qed.
End Interpret.

(** One interrupt, with the bytes of the event in the data register. *)
Lemma keyboard_interrupt_ok h e k v rest : wf_key e → mods_ok h k → views (ser k) v →
  v_level v = false → answers (ports (ser k)) = scan e ++ rest →
  ∃ r k', keyboard_interrupt k = Ret r k' ∧ handled h e v r k' ∧ answers (ports (ser k')) = rest.
Proof.
  intros He Hm V L A.
  assert (∃ k1, mods_ok h k1 ∧ views (ser k1) v ∧ answers (ports (ser k1)) = rest ∧
    keyboard_interrupt k = interpret_key (left_shift k1 || right_shift k1) (left_alt k1 || right_alt k1)
      (left_ctrl k1 || right_ctrl k1) (raw_code e) k1) as (k1 & Hm1 & V1 & A1 & ->).
  { pose proof He as [Hc Hp]. unfold scan in A.
    assert (∀ b k, 0 ≤ b < 256 → mods_ok h k → views (ser k) v →
      mods_ok h (did (Inb DATA_REG (b mod 2 ^ 8)) (used k)) ∧
      views (ser (did (Inb DATA_REG (b mod 2 ^ 8)) (used k))) v) as Hk.
    { intros b k0 Hb M0 V0. split; [by destruct M0|].
      change (views (did (Inb DATA_REG (b mod 2 ^ 8)) (used (ser k0))) v).
      apply views_did; [by apply views_used|]. simpl. by rewrite andb_false_r. }
    set (b := k_code e + if k_down e then 0 else 128) in *.
    assert (0 ≤ b < 256) as Hb by (subst b; destruct (k_down e); lia).
    destruct (k_ext e) eqn:Ex; cbn [app] in A.
    - destruct (Hk 224 k ltac:(lia) Hm V) as [M1 V1]. destruct (Hk b _ Hb M1 V1) as [M2 V2].
      eexists. split; [exact M2|]. split; [exact V2|]. split; [simpl; by rewrite A|].
      unfold keyboard_interrupt, mbind, M_bind, get.
      rewrite (inb_run DATA_REG 224 (b :: rest)) by exact A. change (224 mod 2 ^ 8 =? 224) with true. cbv beta iota.
      erewrite (inb_run DATA_REG b rest) by (simpl; by rewrite A). unfold mret, M_ret.
      unfold raw_code. rewrite Ex. fold b. by rewrite (Z.mod_small b).
    - destruct (Hk b k Hb Hm V) as [M1 V1].
      eexists. split; [exact M1|]. split; [exact V1|]. split; [simpl; by rewrite A|].
      unfold keyboard_interrupt, mbind, M_bind, get.
      rewrite (inb_run DATA_REG b rest) by exact A.
      rewrite (Z.mod_small b) by exact Hb. rewrite (proj2 (Z.eqb_neq b 224)).
      + unfold mret, M_ret, raw_code. rewrite Ex. fold b. reflexivity.
      + intros E. subst b. destruct (k_down e) eqn:Ed; [lia|]. specialize (Hp eq_refl ltac:(lia)). congruence. }
  destruct (quiet_returns _ _ k1 (interpret_key_quiet _ _ _ _) (wp_interpret_key h e k1 v He Hm1 V1 L))
    as (r & k' & E & H & A').
  exists r, k'. split; [exact E|]. split; [exact H|]. etransitivity; [exact A'|exact A1].
Qed.

(** ** Typing *)

(** The interrupts for a list of events, up to a restart. *)
Fixpoint type_keys (es : list key) : M kbd bool :=
  match es with
  | [] => mret false
  | _ :: es => r ← keyboard_interrupt; if (r : bool) then mret true else type_keys es
  end.

Fixpoint typed_all (h es : list key) : list Z :=
  match es with
  | [] => []
  | e :: es => option_list (typed h e) ++ typed_all (h ++ [e]) es
  end.

Lemma type_keys_ok es : ∀ h k v rest, Forall wf_key es → mods_ok h k → views (ser k) v →
  v_level v = false → answers (ports (ser k)) = concat (scan <$> es) ++ rest →
  (length (v_in v ++ typed_all h es) ≤ 63)%nat →
  (∀ pre e post, es = pre ++ e :: post → reboots (h ++ pre) e = false) →
  ∃ k' v', type_keys es k = Ret false k' ∧ mods_ok (h ++ es) k' ∧ views (ser k') v' ∧
    v_in v' = v_in v ++ typed_all h es ∧ answers (ports (ser k')) = rest.
Proof.
  induction es as [|e es IH]; intros h k v rest HF Hm V L A Hlen Hr.
  { exists k, v. rewrite !app_nil_r. by split_and!. }
  apply Forall_cons in HF as [He HF]. cbn [fmap list_fmap concat] in A. rewrite <- app_assoc in A.
  destruct (keyboard_interrupt_ok h e k v _ He Hm V L A) as (r & k1 & E1 & [Er Hok] & A1).
  rewrite <- (app_nil_r h), (Hr [] e es eq_refl) in Er. subst r. destruct (Hok eq_refl) as [Hm1 V1].
  cbn [typed_all] in Hlen. rewrite !length_app in Hlen.
  assert (v_in (after_key h e v) = v_in v ++ option_list (typed h e) ∧ v_level (after_key h e v) = false)
    as [Ein L1].
  { unfold after_key. destruct (typed h e) as [c|]; [|by rewrite app_nil_r]. simpl in Hlen.
    rewrite decide_False by lia. unfold notified. by case_decide. }
  destruct (IH (h ++ [e]) k1 (after_key h e v) rest HF Hm1 V1 L1 A1) as (k' & v' & E2 & Hm2 & V2 & Ev & A2).
  - rewrite Ein, !length_app. lia.
  - intros pre e' post ->. rewrite <- app_assoc. by apply (Hr (e :: pre) e' post).
  - exists k', v'. cbn [type_keys]. unfold mbind, M_bind. rewrite E1, E2.
    rewrite <- app_assoc in Hm2. split_and!; [done|done|done| |done].
    rewrite Ev, Ein. cbn [typed_all]. by rewrite app_assoc.
Qed.

(** The state when the kernel starts the keyboard, with interrupts off. *)
Definition fresh (s : serial) : kbd := mk_kbd false false false false false false false 0 s.

(** C30: What is typed reaches the input buffer.  For every sequence of key events,
    read one or two bytes at a time from the data register, that does not restart
    the computer and types no more than the buffer has room for, the handler
    appends exactly the characters of the US layout to the input buffer: with the
    Shift, Ctrl and Alt keys that are down, on either side, according to the
    events so far, and with Caps Lock on if it was pressed an odd number of times. *)
Theorem keyboard_correct es s rest : Forall wf_key es → wf (txq s) → wf (buffer s) →
  dlab (uart_of (log (ports s))) = false → intr_level s = false →
  answers (ports s) = concat (scan <$> es) ++ rest →
  (length (contents (buffer s) ++ typed_all [] es) ≤ 63)%nat →
  (∀ pre e post, es = pre ++ e :: post → reboots pre e = false) →
  ∃ k, type_keys es (fresh s) = Ret false k ∧
    contents (buffer (ser k)) = contents (buffer s) ++ typed_all [] es ∧
    answers (ports (ser k)) = rest.
Proof.
  intros HF W1 W2 D L A Hl Hr.
  destruct (type_keys_ok es [] (fresh s) (mk_view (intr_level s) (intr_context s) (mode s)
    (contents (txq s)) (contents (buffer s)) (sent (uart_of (log (ports s))))
    (rcvd (uart_of (log (ports s)))) (ier (uart_of (log (ports s))))) rest HF)
    as (k & v' & E & _ & V & Ev & A'); [by split|by split|done|done|done|done|].
  exists k. split; [exact E|]. split; [|exact A'].
  destruct V as [_ _ _ ->]. exact Ev.
Qed.

(** Shift down, [h], Shift up, right Ctrl down, [g], Ctrl up, [1]: [H], Ctrl-G, [1]. *)
Definition sample_keys : list key :=
  [mk_key false 42 true; mk_key false 35 true; mk_key false 42 false; mk_key true 29 true;
   mk_key false 34 true; mk_key true 29 false; mk_key false 2 true].

Lemma keyboard_correct_witness :
  ∃ k, type_keys sample_keys (fresh (dev (start (concat (scan <$> sample_keys))))) = Ret false k ∧
    contents (buffer (ser k)) = [72; 7; 49] ∧ answers (ports (ser k)) = [].
Proof.
  destruct (keyboard_correct sample_keys (dev (start (concat (scan <$> sample_keys)))) [])
    as (k & E & C & A).
  - repeat constructor; discriminate || done.
  - by split.
  - by split.
  - done.
  - done.
  - vm_compute. reflexivity.
  - vm_compute. lia.
  - intros pre e post H. do 8 (destruct pre as [|? pre]; [injection H as <- <-; vm_compute; reflexivity|];
      try (apply (f_equal length) in H; rewrite length_app in H; simpl in H; lia);
      injection H as <- H).
  - exists k. split; [exact E|]. split; [rewrite C; vm_compute; reflexivity|exact A].
Defined.
