(* ===== verification/Delay.v ===== *)
(** * Delays ([devices/timer.c])

    The calibration of the delay loop and the functions that wait for a time in
    seconds.  How many iterations of the loop fit between two timer ticks
    depends on the processor: it is a parameter of the model.  A driver's waits
    are recorded in its state, in order; what the scheduler does during a sleep
    is the business of the thread model.

    The theorem: the calibration ends with the speed of the processor to within
    one part in 512, and the waits are never longer than asked for and never
    shorter by more than that and the rounding to whole loops. *)

From S2P Require Import Prelude Machine FixedPoint Arith Thread Io.

Open Scope Z_scope.

(** ** Calibration *)

Section Calibrate.
(** [too_many_loops]: whether a tick comes while the loop runs that often. *)
Variable too_many_loops : Z → bool.

(** Doubles [loops_per_tick] until one more doubling is too much. *)
Fixpoint double_loop (n : nat) (loops_per_tick : Z) : option Z :=
  match n with
  | O => None
  | S n =>
      if negb (too_many_loops (u32 (Z.shiftl loops_per_tick 1))) then
        let loops_per_tick := u32 (Z.shiftl loops_per_tick 1) in
        assert! negb (loops_per_tick =? 0);
        double_loop n loops_per_tick
      else Some loops_per_tick
  end.

(** Adds the bits below the highest one, down to the last that is tested. *)
Fixpoint refine_loop (n : nat) (high_bit test_bit loops_per_tick : Z) : option Z :=
  match n with
  | O => None
  | S n =>
      if test_bit =? Z.shiftr high_bit 10 then Some loops_per_tick
      else
        let loops_per_tick :=
          if negb (too_many_loops (Z.lor loops_per_tick test_bit))
          then Z.lor loops_per_tick test_bit else loops_per_tick in
        refine_loop n high_bit (Z.shiftr test_bit 1) loops_per_tick
  end.

(** The value of [loops_per_tick] after [timer_calibrate]. *)
Definition timer_calibrate (intr_level : bool) : option Z :=
  assert! intr_level;
  high_bit ← double_loop 33 (Z.shiftl 1 10);
  refine_loop 33 high_bit (Z.shiftr high_bit 1) high_bit.
End Calibrate.

(** ** Waiting *)

(** A wait: a sleep for a number of ticks, or a number of rounds of the delay
    loop. *)
Inductive wait := Sleep (ticks : Z) | Spin (loops : Z).

Class HasClock (St : Type) := {
  loops_per_tick : St → Z;
  waited : wait → St → St;
}.

Section Waits.
Context `{HasIntr St} `{HasClock St}.

Definition assert_intr_on : M St unit := level ← get level_of; check level.

Definition timer_sleep_for (ticks : Z) : M St unit :=
  assert_intr_on;;
  if ticks <=? 0 then mret tt else modify (waited (Sleep ticks)).

(** The number of rounds of [busy_wait] is an [int64_t]. *)
Definition delay_loops (loops_per_tick num denom : Z) : Z :=
  int64 (int64 (int64 (loops_per_tick * num) ÷ 1000 * TIMER_FREQ) ÷ (denom ÷ 1000)).

Definition real_time_delay (num denom : Z) : M St unit :=
  check (Z.rem denom 1000 =? 0);;
  loops ← get loops_per_tick;
  modify (waited (Spin (delay_loops loops num denom))).

Definition real_time_sleep (num denom : Z) : M St unit :=
  let ticks := int64 (num * TIMER_FREQ) ÷ denom in
  assert_intr_on;;
  if 0 <? ticks then timer_sleep_for ticks else real_time_delay num denom.

Definition timer_msleep (ms : Z) : M St unit := real_time_sleep ms 1000.
Definition timer_usleep (us : Z) : M St unit := real_time_sleep us (1000 * 1000).
Definition timer_nsleep (ns : Z) : M St unit := real_time_sleep ns (1000 * 1000 * 1000).
Definition timer_mdelay (ms : Z) : M St unit := real_time_delay ms 1000.
Definition timer_udelay (us : Z) : M St unit := real_time_delay us (1000 * 1000).
Definition timer_ndelay (ns : Z) : M St unit := real_time_delay ns (1000 * 1000 * 1000).
End Waits.

(** ** The calibration *)

Section Speed.
(** [speed]: the number of rounds that take less than a tick. *)
Context (too_many_loops : Z → bool) (speed : Z).
Hypothesis Hspeed : ∀ n, too_many_loops n = (speed <? n).

Lemma double_loop_ok k n : (10 ≤ k)%nat → 2 ^ Z.of_nat k ≤ speed < 2 ^ 31 → (31 - k < n)%nat →
  ∃ k', double_loop too_many_loops n (2 ^ Z.of_nat k) = Some (2 ^ Z.of_nat k') ∧ (10 ≤ k' < 31)%nat ∧
    2 ^ Z.of_nat k' ≤ speed < 2 ^ (Z.of_nat k' + 1).
Proof.
  revert k. induction n as [|n IH]; intros k Hk Hs Hn; [lia|]. cbn [double_loop].
  assert (Z.of_nat k < 31) as Hlt by (apply (Z.pow_lt_mono_r_iff 2); lia).
  rewrite Z.shiftl_mul_pow2 by lia.
  replace (2 ^ Z.of_nat k * 2 ^ 1) with (2 ^ Z.of_nat (S k)) by (rewrite Nat2Z.inj_succ, Z.pow_succ_r; lia).
  assert (2 ^ Z.of_nat (S k) ≤ 2 ^ 31) by (apply Z.pow_le_mono_r; lia).
  assert (0 < 2 ^ Z.of_nat (S k)) by lia.
  rewrite u32_small by (unfold is_u32; lia). rewrite Hspeed.
  destruct (Z.ltb_spec speed (2 ^ Z.of_nat (S k))); cbn [negb].
  - exists k. rewrite Nat2Z.inj_succ in *. repeat split; lia.
  - rewrite (proj2 (Z.eqb_neq _ _)) by lia. cbn [negb]. apply IH; lia.
Qed.

Lemma refine_loop_ok k n : ∀ j q, 10 ≤ k → k - 10 ≤ j < k → j - (k - 10) < Z.of_nat n → 0 ≤ q →
  q * 2 ^ (j + 1) ≤ speed < (q + 1) * 2 ^ (j + 1) →
  ∃ r, refine_loop too_many_loops n (2 ^ k) (2 ^ j) (q * 2 ^ (j + 1)) = Some r ∧
    q * 2 ^ (j + 1) ≤ r ∧ r ≤ speed < r + 2 ^ (k - 9).
Proof.
  induction n as [|n IH]; intros j q Hk Hj Hn Hq Hs; [lia|]. cbn [refine_loop].
  rewrite Z.shiftr_div_pow2, <- Z.pow_sub_r by lia.
  destruct (Z.eqb_spec (2 ^ j) (2 ^ (k - 10))) as [E|E].
  - apply Z.pow_inj_r in E; [|lia..]. eexists. split; [done|].
    replace (k - 9) with (j + 1) by lia. lia.
  - assert (j ≠ k - 10) by (by intros ->).
    assert (2 ^ (j + 1) = 2 * 2 ^ j) as Hp by (rewrite Z.pow_add_r; lia).
    assert (0 < 2 ^ j) by lia.
    rewrite (lor_low (j + 1)) by (rewrite ?Z.mod_mul; lia).
    rewrite Z.shiftr_div_pow2, <- Z.pow_sub_r, Hspeed by lia.
    destruct (IH (j - 1) (if negb (speed <? q * 2 ^ (j + 1) + 2 ^ j) then 2 * q + 1 else 2 * q)) as (r & Hr & Hb).
    + done.
    + lia.
    + lia.
    + destruct (negb _); lia.
    + replace (j - 1 + 1) with j by lia.
      destruct (Z.ltb_spec speed (q * 2 ^ (j + 1) + 2 ^ j)); cbn [negb]; lia.
    + replace (j - 1 + 1) with j in Hr, Hb by lia. exists r. rewrite <- Hr. split; [f_equal|];
        destruct (Z.ltb_spec speed (q * 2 ^ (j + 1) + 2 ^ j)); cbn [negb] in *; lia.
Qed.

Lemma timer_calibrate_ok : 2 ^ 10 ≤ speed < 2 ^ 31 →
  ∃ r, timer_calibrate too_many_loops true = Some r ∧ 2 ^ 10 ≤ r < 2 ^ 31 ∧ 
    r ≤ speed ∧ 512 * (speed - r) < r.
Proof.
  intros Hs. destruct (double_loop_ok 10 33) as (k & Hd & Hk & Hb); [lia..|].
  unfold timer_calibrate. cbn [mbind option_bind]. change (Z.shiftl 1 10) with (2 ^ Z.of_nat 10).
  rewrite Hd. cbn [mbind option_bind]. set (z := Z.of_nat k) in *.
  destruct (refine_loop_ok z 33 (z - 1) 1) as (r & Hr & Hb'); [lia..| |].
  { replace (z - 1 + 1) with z by lia. rewrite Z.pow_add_r in Hb by lia. lia. }
  replace (z - 1 + 1) with z in Hr, Hb' by lia. rewrite Z.mul_1_l in Hr.
  rewrite Z.shiftr_div_pow2, <- Z.pow_sub_r, Hr by lia.
  assert (2 ^ z = 512 * 2 ^ (z - 9)) as E by (change 512 with (2 ^ 9); rewrite <- Z.pow_add_r by lia; f_equal; lia).
  assert (2 ^ 1 ≤ 2 ^ (z - 9)) by (apply Z.pow_le_mono_r; lia).
  exists r. split; [done|]. assert (2 ^ 10 ≤ 2 ^ z) by (apply Z.pow_le_mono_r; lia). lia.
Qed.
End Speed.

(** ** The waits *)

Lemma delay_loops_bounds loops num d : 0 ≤ loops < 2 ^ 31 → 0 ≤ num < 2 ^ 32 → 1 ≤ d →
  let n := delay_loops loops num (1000 * d) in
  0 ≤ n ∧ n * (1000 * d) ≤ loops * 100 * num < (n + 1) * (1000 * d) + 100000.
Proof.
  intros Hl Hn Hd. assert (0 ≤ loops * num < 2 ^ 63) by nia.
  unfold delay_loops, TIMER_FREQ. rewrite (int64_small (loops * num)) by (unfold is_i64; lia).
  rewrite (Z.mul_comm 1000 d), Z.quot_mul by lia.
  rewrite (Z.quot_div_nonneg (loops * num) 1000) by lia. set (a := loops * num / 1000).
  assert (0 ≤ a ∧ 1000 * a ≤ loops * num < 1000 * a + 1000) as [Ha Hb].
  { subst a. pose proof (Z.div_mod (loops * num) 1000). pose proof (Z.mod_pos_bound (loops * num) 1000).
    pose proof (Z.div_pos (loops * num) 1000). lia. }
  rewrite (int64_small (a * 100)), (Z.quot_div_nonneg (a * 100) d) by (unfold is_i64; lia). set (n := a * 100 / d).
  assert (0 ≤ n ∧ d * n ≤ a * 100 < d * n + d) as [Hn0 Hnb].
  { subst n. pose proof (Z.div_mod (a * 100) d). pose proof (Z.mod_pos_bound (a * 100) d).
    pose proof (Z.div_pos (a * 100) d). lia. }
  assert (n ≤ a * 100) by nia. rewrite int64_small by (unfold is_i64; lia). cbv zeta. lia.
Qed.

(** A machine with an interrupt flag and a calibrated delay loop. *)
Record clock := mk_clock { c_level : bool; c_loops : Z; c_waits : list wait }.
#[export] Instance clock_intr : HasIntr clock :=
  {| level_of := c_level; set_level := λ l c, mk_clock l (c_loops c) (c_waits c) |}.
#[export] Instance clock_clock : HasClock clock :=
  {| loops_per_tick := c_loops; waited := λ w c, mk_clock (c_level c) (c_loops c) (c_waits c ++ [w]) |}.

(** [w] waits for [num / denom] seconds on a processor of the given speed: a
    sleep is cut to whole ticks, a loop is never too long, and too short by less
    than 1 part in 512 and what the two divisions cut. *)
Definition accurate (speed num denom : Z) (w : wait) : Prop :=
  match w with
  | Sleep t => 1 ≤ t ∧ t * denom ≤ num * TIMER_FREQ < (t + 1) * denom
  | Spin n => num * TIMER_FREQ < denom ∧ 0 ≤ n ∧ n * denom ≤ speed * TIMER_FREQ * num ∧
      512 * (speed * TIMER_FREQ * num) ≤ 513 * ((n + 1) * denom + 100000)
  end.

Lemma real_time_sleep_ok `{HasIntr St} `{HasClock St} (s : St) speed num d :
  level_of s = true → 0 ≤ loops_per_tick s < 2 ^ 31 →
  loops_per_tick s ≤ speed → 512 * (speed - loops_per_tick s) ≤ loops_per_tick s →
  0 ≤ num < 2 ^ 32 → 1 ≤ d →
  ∃ w, real_time_sleep num (1000 * d) s = Ret tt (waited w s) ∧ accurate speed num (1000 * d) w.
Proof.
  intros Hl Hr Hs He Hn Hd. unfold real_time_sleep. rewrite int64_small by (unfold is_i64, TIMER_FREQ; lia).
  rewrite Z.quot_div_nonneg by (unfold TIMER_FREQ; lia).
  assert (assert_intr_on s = Ret tt s) as Ha by (unfold assert_intr_on, get, check, mbind, M_bind; by rewrite Hl).
  rewrite (bind_Ret _ _ _ _ _ Ha). set (t := num * TIMER_FREQ / (1000 * d)).
  assert (0 ≤ t ∧ t * (1000 * d) ≤ num * TIMER_FREQ < (t + 1) * (1000 * d)) as [Ht Hb].
  { subst t. unfold TIMER_FREQ. pose proof (Z.div_mod (num * 100) (1000 * d)).
    pose proof (Z.mod_pos_bound (num * 100) (1000 * d)). pose proof (Z.div_pos (num * 100) (1000 * d)). lia. }
  destruct (Z.ltb_spec 0 t).
  - exists (Sleep t). unfold timer_sleep_for. rewrite (bind_Ret _ _ _ _ _ Ha).
    rewrite (proj2 (Z.leb_gt t 0)) by lia. simpl. auto with lia.
  - exists (Spin (delay_loops (loops_per_tick s) num (1000 * d))).
    pose proof (delay_loops_bounds _ _ _ Hr Hn Hd) as [Hn0 Hbn]. split.
    + unfold real_time_delay. rewrite Z.mul_comm, Z.rem_mul by lia. done.
    + simpl. unfold TIMER_FREQ in *. nia.
Qed.

(** C35: Delays are accurate.  On a processor that runs the delay loop between
    [2 ^ 10] and [2 ^ 31] times per tick, [timer_calibrate] ends, and with its
    result every sleep of [num / denom] seconds, in any unit of a millisecond or
    less, is either a sleep for that time cut to whole ticks, or, when it is less
    than a tick, a loop that runs for at most the time asked for and falls short
    of it by at most 1 part in 513 and the rounding of the two divisions.  No
    64-bit product overflows. *)
Theorem delay_accuracy (too_many_loops : Z → bool) speed :
  (∀ n, too_many_loops n = (speed <? n)) → 2 ^ 10 ≤ speed < 2 ^ 31 →
  ∃ loops, timer_calibrate too_many_loops true = Some loops ∧
    ∀ num d ws, 0 ≤ num < 2 ^ 32 → 1 ≤ d →
      ∃ w, real_time_sleep num (1000 * d) (mk_clock true loops ws)
           = Ret tt (mk_clock true loops (ws ++ [w])) ∧
        accurate speed num (1000 * d) w.
Proof.
  intros Ht Hs. destruct (timer_calibrate_ok too_many_loops speed Ht Hs) as (r & -> & Hr & Hle & He).
  exists r. split; [done|]. intros num d ws Hn Hd.
  by destruct (real_time_sleep_ok (mk_clock true r ws) speed num d) as (w & Hw & Ha);
    [simpl; lia..|exists w].
Qed.

Lemma delay_accuracy_witness :
  timer_calibrate (λ n, 3000000 <? n) true = Some 2998272 ∧
  ∃ w, real_time_sleep 400 (1000 * 1000000) (mk_clock true 2998272 []) = Ret tt (mk_clock true 2998272 [w]) ∧
    accurate 3000000 400 (1000 * 1000000) w.
Proof.
  destruct (delay_accuracy (λ n, 3000000 <? n) 3000000) as (l & Hl & Hw); [done|lia|].
  assert (timer_calibrate (λ n, 3000000 <? n) true = Some 2998272) as E by (vm_compute; reflexivity).
  rewrite E in Hl. injection Hl as <-. split; [done|]. apply (Hw 400 1000000 []); lia.
Defined.

(** A processor too fast for [loops_per_tick] stops the calibration. *)
Lemma timer_calibrate_too_fast (too_many_loops : Z → bool) :
  (∀ n, 0 ≤ n < 2 ^ 32 → too_many_loops n = false) → timer_calibrate too_many_loops true = None.
Proof.
  intros H. unfold timer_calibrate. cbn [mbind option_bind].
  assert (double_loop too_many_loops 33 (Z.shiftl 1 10) = None) as ->; [|done].
  do 22 (cbn [double_loop]; rewrite H by (vm_compute; split; congruence); cbv [negb]; cbn [mbind option_bind];
    match goal with |- context [u32 ?x] => let v := eval vm_compute in (u32 x) in change (u32 x) with v end).
  done.
Qed.
