(* ===== verification/Clock.v ===== *)
(** * Timer chip, speaker and real-time clock ([devices/pit.c], [devices/speaker.c],
      [devices/rtc.c])

    The theorems: the counter loaded into the timer chip is the one nearest to
    the frequency asked for, and where it is not legal; the time read from the
    clock is the number of seconds since the epoch up to the end of 2038, and
    from 2039 on an [int] product overflows. *)

From S2P Require Import Prelude Machine FixedPoint Io Delay.

Open Scope Z_scope.

(** ** [devices/pit.c] *)

Definition PIT_PORT_CONTROL : Z := 67.
Definition PIT_PORT_COUNTER (channel : Z) : Z := 64 + channel.
Definition PIT_HZ : Z := 1193180.

(** The counter value for a frequency, a [uint16_t]. *)
Definition pit_count (frequency : Z) : Z :=
  if frequency <? 19 then 0
  else if PIT_HZ <? frequency then 2
  else ((PIT_HZ + frequency ÷ 2) ÷ frequency) mod 65536.

Section Pit.
Context `{HasIo St} `{HasIntr St} `{HasClock St}.

Definition pit_configure_channel (channel mode frequency : Z) : M St unit :=
  check ((channel =? 0) || (channel =? 2));;
  check ((mode =? 2) || (mode =? 3));;
  let count := pit_count frequency in
  old_level ← intr_disable;
  outb PIT_PORT_CONTROL (Z.lor (Z.lor (Z.shiftl channel 6) 48) (Z.shiftl mode 1));;
  outb (PIT_PORT_COUNTER channel) count;;
  outb (PIT_PORT_COUNTER channel) (Z.shiftr count 8);;
  intr_set_level old_level.

(** ** [devices/speaker.c] *)

Definition SPEAKER_PORT_GATE : Z := 97.
Definition SPEAKER_GATE_ENABLE : Z := 3.

Definition speaker_off : M St unit :=
  old_level ← intr_disable;
  gate ← inb SPEAKER_PORT_GATE;
  outb SPEAKER_PORT_GATE (Z.land gate (Z.lnot SPEAKER_GATE_ENABLE));;
  intr_set_level old_level.

Definition speaker_on (frequency : Z) : M St unit :=
  if (20 <=? frequency) && (frequency <=? 20000) then
    old_level ← intr_disable;
    pit_configure_channel 2 3 frequency;;
    gate ← inb SPEAKER_PORT_GATE;
    outb SPEAKER_PORT_GATE (Z.lor gate SPEAKER_GATE_ENABLE);;
    intr_set_level old_level
  else speaker_off.

Definition speaker_beep : M St unit :=
  level ← get level_of;
  when level (speaker_on 440;; timer_msleep 250;; speaker_off).

(** ** [devices/rtc.c] *)

Definition CMOS_REG_SET : Z := 112.
Definition CMOS_REG_IO : Z := 113.
Definition RTC_REG_SEC : Z := 0.
Definition RTC_REG_MIN : Z := 2.
Definition RTC_REG_HOUR : Z := 4.
Definition RTC_REG_MDAY : Z := 7.
Definition RTC_REG_MON : Z := 8.
Definition RTC_REG_YEAR : Z := 9.

Definition bcd_to_bin (x : Z) : Z := Z.land x 15 + Z.shiftr x 4 * 10.

Definition cmos_read (index : Z) : M St Z :=
  outb CMOS_REG_SET index;; inb CMOS_REG_IO.

Definition read_bcd (index : Z) : M St Z := x ← cmos_read index; mret (bcd_to_bin x).

(** The components of the time. *)
Record rtc_time := mk_time { sec : Z; min : Z; hour : Z; mday : Z; mon : Z; year : Z }.

(** [do ... while], with seven reads in an iteration. *)
Fixpoint rtc_read_loop (n : nat) : M St rtc_time :=
  match n with
  | O => waits
  | S n =>
      sec ← read_bcd RTC_REG_SEC;
      min ← read_bcd RTC_REG_MIN;
      hour ← read_bcd RTC_REG_HOUR;
      mday ← read_bcd RTC_REG_MDAY;
      mon ← read_bcd RTC_REG_MON;
      year ← read_bcd RTC_REG_YEAR;
      again ← read_bcd RTC_REG_SEC;
      if negb (sec =? again) then rtc_read_loop n else mret (mk_time sec min hour mday mon year)
  end.

Definition days_per_month : list Z := [31; 28; 31; 30; 31; 30; 31; 31; 30; 31; 30; 31].

(** [for (i = 1; i < mon; i++) time += days_per_month[i - 1] * 24 * 60 * 60]. *)
Fixpoint month_loop (n : nat) (i mon time : Z) : option Z :=
  match n with
  | O => Some time
  | S n =>
      if i <? mon then
        d ← days_per_month !! Z.to_nat (i - 1);
        month_loop n (i + 1) mon (u32 (time + d * 24 * 60 * 60))
      else Some time
  end.

(** The seconds of the days before the year [year] counted from 1970: an [int]
    product, undefined ([None]) where it overflows. *)
Definition year_seconds (year : Z) : option Z :=
  let time := (year * 365 + (year - 2 + 4 - 1) ÷ 4) * 24 * 60 * 60 in
  assert! (- 2 ^ 31 <=? time) && (time <? 2 ^ 31);
  Some (u32 time).

(** The rest of [rtc_get_time]; [time_t] is an [unsigned long], to which the
    [int] operands are converted. *)
Definition rtc_seconds (t : rtc_time) : option Z :=
  let year := if year t <? 70 then year t + 100 else year t in
  let year := year - 70 in
  time ← year_seconds year;
  time ← month_loop 256 1 (mon t) time;
  let time := if (2 <? mon t) && (Z.rem year 4 =? 2) then u32 (time + 24 * 60 * 60) else time in
  let time := u32 (time + (mday t - 1) * 24 * 60 * 60) in
  let time := u32 (time + hour t * 60 * 60) in
  let time := u32 (time + min t * 60) in
  Some (u32 (time + sec t)).

Definition rtc_get_time : M St Z :=
  n ← get (λ s, length (answers (io_of s)));
  t ← rtc_read_loop (S n);
  lift (rtc_seconds t).
End Pit.

(** ** The timer chip *)

(** The chip divides its clock by the count, where 0 stands for 65536. *)
Definition divisor (count : Z) : Z := if count =? 0 then 65536 else count.

(** The count is the nearest one for every frequency that it can be loaded for. *)
Lemma pit_count_nearest f : 19 ≤ f ≤ PIT_HZ →
  1 ≤ pit_count f < 65536 ∧ 2 * Z.abs (pit_count f * f - PIT_HZ) ≤ f.
Proof.
  intros Hf. unfold pit_count, PIT_HZ in *.
  rewrite (proj2 (Z.ltb_ge f 19)), (proj2 (Z.ltb_ge 1193180 f)) by lia.
  pose proof (Z.div_pos f 2) as Hp. rewrite (Z.quot_div_nonneg f 2) by lia.
  rewrite Z.quot_div_nonneg by lia.
  set (q := (1193180 + f / 2) / f).
  assert (f * q ≤ 1193180 + f / 2 < f * q + f) as Hq.
  { pose proof (Z.div_mod (1193180 + f / 2) f ltac:(lia)).
    pose proof (Z.mod_pos_bound (1193180 + f / 2) f ltac:(lia)). fold q in H. lia. }
  assert (2 * (f / 2) ≤ f < 2 * (f / 2) + 2) as H2.
  { pose proof (Z.div_mod f 2 ltac:(lia)). pose proof (Z.mod_pos_bound f 2 ltac:(lia)). lia. }
  assert (1 ≤ q < 65536) as Hr by nia.
  rewrite Z.mod_small by lia. split; [exact Hr|nia].
Qed.

(** For a frequency above two thirds of the clock's the count is 1, which the
    comment in the code calls illegal in mode 2. *)
Lemma pit_count_one f : f ≤ PIT_HZ → (pit_count f = 1 ↔ 795454 ≤ f).
Proof.
  intros Hf. destruct (Z.ltb_spec f 19) as [Hlt|Hge].
  - unfold pit_count. rewrite (proj2 (Z.ltb_lt f 19)) by done. lia.
  - unfold pit_count, PIT_HZ in *.
    rewrite (proj2 (Z.ltb_ge f 19)), (proj2 (Z.ltb_ge 1193180 f)) by lia.
    pose proof (Z.div_pos f 2) as Hp. rewrite (Z.quot_div_nonneg f 2) by lia.
  rewrite Z.quot_div_nonneg by lia.
    set (q := (1193180 + f / 2) / f).
    pose proof (Z.div_mod (1193180 + f / 2) f ltac:(lia)) as H.
    pose proof (Z.mod_pos_bound (1193180 + f / 2) f ltac:(lia)) as H0. fold q in H.
    pose proof (Z.div_mod f 2 ltac:(lia)). pose proof (Z.mod_pos_bound f 2 ltac:(lia)).
    assert (1 ≤ q < 65536) by nia. rewrite Z.mod_small by lia.
    split; [intros ->; lia|intros; nia].
Qed.

(** ** The calendar *)

Definition leap (y : Z) : bool :=
  ((y mod 4 =? 0) && negb (y mod 100 =? 0)) || (y mod 400 =? 0).
Definition days_in_year (y : Z) : Z := if leap y then 366 else 365.
Definition days_in_month (y m : Z) : Z :=
  if (m =? 2) && leap y then 29 else default 0 (days_per_month !! Z.to_nat (m - 1)).

Definition zsum (f : Z → Z) (l : list Z) : Z := foldr (λ i s, f i + s) 0 l.

(** Days from the epoch to the first day of the month [m] of the year [y]. *)
Definition days_before (y m : Z) : Z :=
  zsum days_in_year (seqZ 1970 (y - 1970)) + zsum (days_in_month y) (seqZ 1 (m - 1)).

Record date := mk_date {
  d_year : Z; d_month : Z; d_day : Z; d_hour : Z; d_min : Z; d_sec : Z;
}.

Definition valid_date (t : date) : Prop :=
  1970 ≤ d_year t ≤ 2038 ∧ 1 ≤ d_month t ≤ 12 ∧ 1 ≤ d_day t ≤ days_in_month (d_year t) (d_month t) ∧
  0 ≤ d_hour t < 24 ∧ 0 ≤ d_min t < 60 ∧ 0 ≤ d_sec t < 60.

Definition unix_time (t : date) : Z :=
  (((days_before (d_year t) (d_month t) + (d_day t - 1)) * 24 + d_hour t) * 60 + d_min t) * 60 + d_sec t.

(** What the registers hold: two decimal digits, the year without its century. *)
Definition to_bcd (x : Z) : Z := x / 10 * 16 + x mod 10.
Definition registers (t : date) : list Z :=
  to_bcd <$> [d_sec t; d_min t; d_hour t; d_day t; d_month t; d_year t mod 100].

Lemma bcd_roundtrip x : 0 ≤ x < 100 → 0 ≤ to_bcd x < 256 ∧ bcd_to_bin (to_bcd x) = x.
Proof.
  intros Hx. assert (x ∈ seqZ 0 100) as Hin by (apply elem_of_seqZ; lia).
  assert (Forall (λ x, bool_decide (0 ≤ to_bcd x < 256 ∧ bcd_to_bin (to_bcd x) = x) = true) (seqZ 0 100)) as HF.
  { apply Forall_forall. intros y Hy. apply list_elem_of_In in Hy. revert y Hy.
    apply forallb_forall. vm_compute. reflexivity. }
  rewrite Forall_forall in HF. specialize (HF x Hin). by apply bool_decide_eq_true in HF.
Qed.

(** The days of the years and months, with the code's leap years. *)
Definition month_start (y m : Z) : option Z :=
  let year := (if y mod 100 <? 70 then y mod 100 + 100 else y mod 100) - 70 in
  time ← year_seconds year;
  time ← month_loop 256 1 m time;
  Some (if (2 <? m) && (Z.rem year 4 =? 2) then u32 (time + 24 * 60 * 60) else time).

Lemma month_start_ok y m : 1970 ≤ y ≤ 2038 → 1 ≤ m ≤ 12 →
  month_start y m = Some (86400 * days_before y m) ∧ 0 ≤ days_before y m ≤ 25202.
Proof.
  intros Hy Hm. assert (y ∈ seqZ 1970 69) as Hy' by (apply elem_of_seqZ; lia).
  assert (m ∈ seqZ 1 12) as Hm' by (apply elem_of_seqZ; lia).
  assert (forallb (λ y, forallb (λ m, let d := days_before y m in
    match month_start y m with
    | Some time => (time =? 86400 * d) && (0 <=? d) && (d <=? 25202)
    | None => false
    end) (seqZ 1 12)) (seqZ 1970 69) = true) as H by (vm_compute; reflexivity).
  rewrite forallb_forall in H. apply list_elem_of_In in Hy', Hm'. specialize (H y Hy').
  cbn beta in H. rewrite forallb_forall in H. specialize (H m Hm'). cbv zeta in H.
  destruct (month_start y m) as [time|]; [|done]. bool_simp. split; [by subst|lia].
Qed.

Lemma days_in_month_31 y m : 1 ≤ m ≤ 12 → days_in_month y m ≤ 31.
Proof.
  intros Hm. unfold days_in_month. destruct (_ && _); [lia|].
  assert (Forall (λ d, d ≤ 31) days_per_month) as HF by (repeat constructor; lia).
  destruct (days_per_month !! Z.to_nat (m - 1)) as [d|] eqn:E; simpl; [|lia].
  by apply (Forall_lookup_1 _ _ _ _ HF) in E.
Qed.

Lemma u32_add a b : u32 (u32 a + b) = u32 (a + b).
Proof. unfold u32. apply Zplus_mod_idemp_l. Qed.

Lemma rtc_seconds_ok t : valid_date t →
  rtc_seconds (mk_time (d_sec t) (d_min t) (d_hour t) (d_day t) (d_month t) (d_year t mod 100))
    = Some (unix_time t).
Proof.
  intros (Hy & Hm & Hd & Hh & Hmi & Hs). destruct (month_start_ok _ _ Hy Hm) as [E Hb].
  pose proof (days_in_month_31 (d_year t) (d_month t) Hm) as H31.
  unfold month_start in E. unfold rtc_seconds. cbn [year mon mday hour min sec].
  destruct (year_seconds _) as [ys|]; [|discriminate E]. cbn [mbind option_bind] in *.
  destruct (month_loop 256 1 (d_month t) _) as [tm|] eqn:El; [|discriminate E].
  cbn [mbind option_bind] in *. apply (inj Some) in E. rewrite E. f_equal.
  repeat (rewrite <- ?Z.add_assoc, u32_add). transitivity (u32 (unix_time t)).
  - f_equal. unfold unix_time. ring.
  - apply u32_small. unfold is_u32, unix_time. lia.
Qed.

(** ** Reading the clock *)

Section Run.
Context `{HasIo St} (io_set : ∀ f s, io_of (set_io f s) = f (io_of s)).

Lemma read_bcd_run index v vs s : answers (io_of s) = v :: vs → 0 ≤ v < 256 →
  ∃ s', read_bcd index s = Ret (bcd_to_bin v) s' ∧ answers (io_of s') = vs.
Proof.
  intros A Hv. unfold read_bcd, cmos_read, outb, note, modify, mbind, M_bind.
  erewrite (inb_run CMOS_REG_IO v vs) by (unfold did; by rewrite io_set).
  eexists. split; [rewrite (Z.mod_small v) by exact Hv; reflexivity|].
  unfold did, used. rewrite !io_set. simpl. by rewrite A.
Qed.

(** One iteration. *)
Lemma rtc_iteration n a b c d e f g vs s : answers (io_of s) = a :: b :: c :: d :: e :: f :: g :: vs →
  Forall (λ v, 0 ≤ v < 256) [a; b; c; d; e; f; g] →
  ∃ s', answers (io_of s') = vs ∧
    rtc_read_loop (S n) s =
      if bool_decide (bcd_to_bin a = bcd_to_bin g)
      then Ret (mk_time (bcd_to_bin a) (bcd_to_bin b) (bcd_to_bin c) (bcd_to_bin d) (bcd_to_bin e) (bcd_to_bin f)) s'
      else rtc_read_loop n s'.
Proof.
  intros A HF. repeat (apply Forall_cons in HF as [? HF]).
  destruct (read_bcd_run RTC_REG_SEC a _ s A) as (s1 & E1 & A1); [done|].
  destruct (read_bcd_run RTC_REG_MIN b _ s1 A1) as (s2 & E2 & A2); [done|].
  destruct (read_bcd_run RTC_REG_HOUR c _ s2 A2) as (s3 & E3 & A3); [done|].
  destruct (read_bcd_run RTC_REG_MDAY d _ s3 A3) as (s4 & E4 & A4); [done|].
  destruct (read_bcd_run RTC_REG_MON e _ s4 A4) as (s5 & E5 & A5); [done|].
  destruct (read_bcd_run RTC_REG_YEAR f _ s5 A5) as (s6 & E6 & A6); [done|].
  destruct (read_bcd_run RTC_REG_SEC g _ s6 A6) as (s7 & E7 & A7); [done|].
  exists s7. split; [done|]. cbn [rtc_read_loop]. unfold mbind, M_bind.
  rewrite E1, E2, E3, E4, E5, E6, E7. case_bool_decide as E.
  - by rewrite (proj2 (Z.eqb_eq _ _) E).
  - by rewrite (proj2 (Z.eqb_neq _ _) E).
Qed.

(** A read of the registers during which the second changed. *)
Definition unstable (vs : list Z) : Prop :=
  match vs with
  | [a; b; c; d; e; f; g] => Forall (λ v, 0 ≤ v < 256) vs ∧ bcd_to_bin a ≠ bcd_to_bin g
  | _ => False
  end.

Lemma rtc_read_loop_ok attempts t rest : valid_date t → Forall unstable attempts → ∀ n s,
  (length attempts < n)%nat →
  answers (io_of s) = concat attempts ++ registers t ++ [to_bcd (d_sec t)] ++ rest →
  ∃ s', rtc_read_loop n s = Ret (mk_time (d_sec t) (d_min t) (d_hour t) (d_day t) (d_month t) (d_year t mod 100)) s' ∧
    answers (io_of s') = rest.
Proof.
  intros (Hy & Hm & Hd & Hh & Hmi & Hs). pose proof (days_in_month_31 (d_year t) (d_month t) Hm).
  pose proof (Z.mod_pos_bound (d_year t) 100).
  destruct (bcd_roundtrip (d_sec t)), (bcd_roundtrip (d_min t)), (bcd_roundtrip (d_hour t)),
    (bcd_roundtrip (d_day t)), (bcd_roundtrip (d_month t)), (bcd_roundtrip (d_year t mod 100)); try lia.
  induction 1 as [|vs attempts Hu _ IH]; intros [|n] s Hn A; [simpl in Hn; lia| |simpl in Hn; lia|].
  - destruct (rtc_iteration n _ _ _ _ _ _ _ rest s A) as (s' & A' & ->);
      [repeat (apply Forall_cons; split; [assumption|]); by apply Forall_nil|].
    rewrite bool_decide_eq_true_2 by done. exists s'. split; [|done]. congruence.
  - destruct vs as [|a [|b [|c [|d [|e [|f [|g []]]]]]]]; try done. destruct Hu as [HF Hne].
    destruct (rtc_iteration n a b c d e f g (concat attempts ++ registers t ++ [to_bcd (d_sec t)] ++ rest) s A HF)
      as (s' & A' & ->).
    rewrite bool_decide_eq_false_2 by done. apply IH; [simpl in Hn; lia|done].
Qed.
End Run.

(** From 2039 to 2069 the [int] product of the year overflows. *)
Lemma rtc_seconds_overflow t : 39 ≤ year t < 70 → rtc_seconds t = None.
Proof.
  intros Hy. unfold rtc_seconds, year_seconds. rewrite (proj2 (Z.ltb_lt _ 70)) by lia.
  rewrite Z.quot_div_nonneg by lia. rewrite (proj2 (Z.ltb_ge _ (2 ^ 31))); [by rewrite andb_false_r|].
  pose proof (Z.div_pos (year t + 100 - 70 - 2 + 4 - 1) 4). lia.
Qed.


