(* ===== verification/Console.v ===== *)
(** * Text display and console ([devices/vga.c], [lib/kernel/console.c])

    The console prints each character to the serial port and to the display.

    The theorems: the display is a window on a roll of paper, so that a character
    is where it was printed until it leaves the screen at the top, and the cursor
    stays on the screen, provided that the hardware cursor was there at the start;
    [printf] sends the same text to both devices, and takes and releases the
    console's lock, which a thread may hold already. *)

From Stdlib Require Import String.
From S2P Require Import Prelude Machine FixedPoint CString StdlibC Stdio Intq Io Serial Delay Clock.

Open Scope Z_scope.

(** ** State *)

Definition COL_CNT : Z := 80.
Definition ROW_CNT : Z := 25.
Definition GRAY_ON_BLACK : Z := 7.

(** A cell of the framebuffer is a character and an attribute. *)
Definition cell : Type := Z * Z.

(** The variables of [vga.c] and [console.c], the thread that runs, the serial
    port, the speed of the delay loop and the waits so far. *)
Record console := mk_console {
  ser : serial;
  cx : Z;
  cy : Z;
  fb : list (list cell);
  inited : bool;
  use_console_lock : bool;
  console_lock : option Z;
  console_lock_depth : Z;
  write_cnt : Z;
  current : Z;
  con_loops : Z;
  con_waits : list Delay.wait;
}.
#[export] Instance console_ctor : Ctor console := λ c,
  mk_console (ser c) (cx c) (cy c) (fb c) (inited c) (use_console_lock c) (console_lock c)
    (console_lock_depth c) (write_cnt c) (current c) (con_loops c) (con_waits c).
#[export] Instance console_has_io : HasIo console :=
  {| io_of := λ c, ports (ser c); set_io := λ f c, c <| ser ::= λ s, s <| ports ::= f |> |> |}.
#[export] Instance console_has_intr : HasIntr console :=
  {| level_of := λ c, intr_level (ser c);
     set_level := λ l c, c <| ser ::= λ s, s <| intr_level := l |> |> |}.
#[export] Instance console_has_clock : HasClock console :=
  {| loops_per_tick := con_loops; waited := λ w c, c <| con_waits ::= λ ws, ws ++ [w] |> |}.

(** ** [devices/vga.c] *)

Definition blank_row : list cell := replicate 80 (32, GRAY_ON_BLACK).

(** [clear_row]: every cell of the row. *)
Definition clear_row (y : Z) : M console unit :=
  rows ← get fb;
  _ ← lift (rows !! Z.to_nat y);
  modify (λ c, c <| fb ::= <[Z.to_nat y := blank_row]> |>).

Definition move_cursor : M console unit :=
  cp ← get (λ c, (cx c + COL_CNT * cy c) mod 65536);
  outw 980 (Z.lor 14 (Z.land cp 65280));;
  outw 980 (Z.lor 15 (Z.shiftl cp 8)).

Definition find_cursor : M console (Z * Z) :=
  outb 980 14;;
  hi ← inb 981;
  outb 980 15;;
  lo ← inb 981;
  let cp := Z.lor (Z.shiftl hi 8) lo in
  mret (cp mod COL_CNT, cp / COL_CNT).

Definition init : M console unit :=
  done ← get inited;
  when (negb done)
    ('(x, y) ← find_cursor;
     modify (λ c, c <| cx := x |> <| cy := y |> <| inited := true |>)).

Fixpoint cls_loop (n : nat) (y : Z) : M console unit :=
  match n with
  | O => mret tt
  | S n => clear_row y;; cls_loop n (y + 1)
  end.

Definition cls : M console unit :=
  cls_loop 25 0;;
  modify (λ c, c <| cx := 0 |> <| cy := 0 |>);;
  move_cursor.

(** [memmove (&fb[0], &fb[1], sizeof fb[0] * (ROW_CNT - 1))] moves 24 rows. *)
Definition newline : M console unit :=
  modify (λ c, c <| cx := 0 |> <| cy ::= Z.add 1 |>);;
  low ← get (λ c, ROW_CNT <=? cy c);
  when low
    (modify (λ c, c <| cy := ROW_CNT - 1 |>
                    <| fb ::= λ rows, take 24 (drop 1 rows) ++ drop 24 rows |>);;
     clear_row (ROW_CNT - 1)).

(** [fb[cy][cx]] gets a character. *)
Definition put_cell (ch : Z) : M console unit :=
  x ← get (λ c, Z.to_nat (cx c));
  y ← get (λ c, Z.to_nat (cy c));
  rows ← get fb;
  row ← lift (rows !! y);
  _ ← lift (row !! x);
  modify (λ c, c <| fb := <[y := <[x := (ch mod 256, GRAY_ON_BLACK)]> row]> rows |>).

Definition vga_putc (ch : Z) : M console unit :=
  old_level ← intr_disable;
  init;;
  (if ch =? 10 then newline
   else if ch =? 12 then cls
   else if ch =? 8 then
     modify (λ c, if 0 <? cx c then c <| cx := cx c - 1 |> else c)
   else if ch =? 13 then modify (λ c, c <| cx := 0 |>)
   else if ch =? 9 then
     modify (λ c, c <| cx := ROUND_UP (cx c + 1) 8 |>);;
     wrap ← get (λ c, COL_CNT <=? cx c);
     when wrap newline
   else if ch =? 7 then
     intr_set_level old_level;;
     speaker_beep;;
     intr_disable;;
     mret tt
   else
     put_cell ch;;
     modify (λ c, c <| cx ::= Z.add 1 |>);;
     wrap ← get (λ c, COL_CNT <=? cx c);
     when wrap newline);;
  move_cursor;;
  intr_set_level old_level.

(** ** [lib/kernel/console.c] *)

Definition console_init : M console unit :=
  modify (λ c, c <| console_lock := None |> <| use_console_lock := true |>).
Definition console_panic : M console unit := modify (λ c, c <| use_console_lock := false |>).

Definition lock_held (c : console) : bool := bool_decide (console_lock c = Some (current c)).

(** [lock_acquire] waits while another thread holds the lock. *)
Definition acquire_console : M console unit :=
  locks ← get (λ c, negb (intr_context (ser c)) && use_console_lock c);
  when locks
    (held ← get lock_held;
     if (held : bool) then modify (λ c, c <| console_lock_depth ::= Z.add 1 |>)
     else
       free ← get (λ c, bool_decide (console_lock c = None));
       if (free : bool) then modify (λ c, c <| console_lock := Some (current c) |>) else waits).

Definition release_console : M console unit :=
  locks ← get (λ c, negb (intr_context (ser c)) && use_console_lock c);
  when locks
    (nested ← get (λ c, 0 <? console_lock_depth c);
     if (nested : bool) then modify (λ c, c <| console_lock_depth ::= λ d, d - 1 |>)
     else
       held ← get lock_held; check held;;
       modify (λ c, c <| console_lock := None |>)).

Definition console_locked_by_current_thread (c : console) : bool :=
  intr_context (ser c) || negb (use_console_lock c) || lock_held c.

(** A function of the serial port. *)
Definition on_ser {A} (m : M serial A) : M console A := λ c,
  match m (ser c) with
  | Ret a s => Ret a (c <| ser := s |>)
  | Panic => Panic
  | Waits => Waits
  end.

(** If the transmit queue is full the thread sleeps in [serial_putc]. *)
Definition putchar_have_lock (ch : Z) : M console unit :=
  locked ← get console_locked_by_current_thread; check locked;;
  modify (λ c, c <| write_cnt ::= Z.add 1 |>);;
  taken ← on_ser (serial_putc ch);
  if (taken : bool) then vga_putc ch else waits.

Fixpoint put_all (s : list Z) : M console unit :=
  match s with
  | [] => mret tt
  | ch :: s => putchar_have_lock ch;; put_all s
  end.

Definition putchar (ch : Z) : M console Z :=
  acquire_console;; putchar_have_lock (ch mod 256);; release_console;; mret ch.

(** [puts] and [putbuf] of the characters [s]. *)
Definition puts (s : list Z) : M console Z :=
  acquire_console;; put_all s;; putchar_have_lock 10;; release_console;; mret 0.
Definition putbuf (buffer : list Z) : M console unit :=
  acquire_console;; put_all buffer;; release_console.

(** [vprintf], whose characters go through [putchar_have_lock]; the count of
    characters is the one of [vprintf_helper]. *)
Definition vprintf_helper (ch : Z) (st : memory * outcome console Z) :
    option (memory * outcome console Z) :=
  Some (st.1,
    match st.2 with
    | Ret char_cnt c => (putchar_have_lock ch;; mret (char_cnt + 1)) c
    | o => o
    end).

Definition vprintf (m : memory) (format : Z) (args : list Z) : M console Z :=
  acquire_console;;
  char_cnt ← (λ c,
    match __vprintf fst vprintf_helper format args (m, Ret 0 c) with
    | Some (_, o) => o
    | None => Panic
    end);
  release_console;;
  mret char_cnt.

(** [printf] passes its variable arguments on. *)
Definition printf (m : memory) (format : Z) (args : list Z) : M console Z := vprintf m format args.

(** ** The roll of paper

    All lines that were ever on the screen, and the position of the cursor. *)
Record roll := mk_roll { lines : list (list cell); ry : nat; rx : nat }.

Definition r_newline (r : roll) : roll :=
  mk_roll (if decide (S (ry r) = length (lines r)) then lines r ++ [blank_row] else lines r) (S (ry r)) 0.

Definition r_wrap (r : roll) : roll := if decide (80 ≤ rx r)%nat then r_newline r else r.

Definition r_char (ch : Z) (r : roll) : roll :=
  r_wrap (mk_roll (alter (<[rx r := (ch mod 256, GRAY_ON_BLACK)]>) (ry r) (lines r)) (ry r) (S (rx r))).

Definition r_putc (ch : Z) (r : roll) : roll :=
  if ch =? 10 then r_newline r
  else if ch =? 12 then mk_roll (lines r ++ replicate 25 blank_row) (length (lines r)) 0
  else if ch =? 8 then mk_roll (lines r) (ry r) (Nat.pred (rx r))
  else if ch =? 13 then mk_roll (lines r) (ry r) 0
  else if ch =? 9 then r_wrap (mk_roll (lines r) (ry r) (rx r / 8 * 8 + 8))
  else if ch =? 7 then r
  else r_char ch r.

(** The lines that have left the screen. *)
Definition scrolled (r : roll) : nat := (length (lines r) - 25)%nat.

(** The screen is the last 25 lines of the roll. *)
Record shows (c : console) (r : roll) : Prop := {
  sh_len : (25 ≤ length (lines r))%nat;
  sh_rows : Forall (λ row, length row = 80%nat) (lines r);
  sh_fb : fb c = drop (scrolled r) (lines r);
  sh_y : (scrolled r ≤ ry r < length (lines r))%nat;
  sh_cy : cy c = Z.of_nat (ry r - scrolled r);
  sh_cx : cx c = Z.of_nat (rx r);
  sh_init : inited c = true;
}.

(** What the display does not change. *)
Definition rest (c : console) : bool * option Z * Z * Z * Z :=
  (use_console_lock c, console_lock c, console_lock_depth c, write_cnt c, current c).

Record sees (c : console) (v : view) (r : roll) (k : bool * option Z * Z * Z * Z) : Prop := {
  se_views : views (ser c) v;
  se_shows : shows c r;
  se_rest : rest c = k;
}.

Lemma shows_ser c r s : shows c r → shows (c <| ser := s |>) r.
Proof. by intros [? ? ? ? ? ? ?]. Qed.

(** Setting the cursor. *)
Lemma shows_cx c r x : shows c r →
  shows (c <| cx := Z.of_nat x |>) (mk_roll (lines r) (ry r) x).
Proof. by intros [? ? ? ? ? ? ?]. Qed.

Lemma shows_lookup c r i : shows c r → (i < 25)%nat → fb c !! i = lines r !! (scrolled r + i)%nat.
Proof. intros S Hi. by rewrite (sh_fb _ _ S), lookup_drop. Qed.

Lemma shows_fb_length c r : shows c r → length (fb c) = 25%nat.
Proof. intros S. rewrite (sh_fb _ _ S), length_drop. pose proof (sh_len _ _ S). unfold scrolled. lia. Qed.

(** *** A new line *)

Lemma wp_clear_row y c Q : (0 ≤ y < 25) → length (fb c) = 25%nat →
  Q tt (c <| fb ::= <[Z.to_nat y := blank_row]> |>) → wp (clear_row y) Q c.
Proof.
  intros Hy Hl HQ. unfold clear_row. wp_step. wp_step. wp_step.
  destruct (lookup_lt_is_Some_2 (fb c) (Z.to_nat y)) as [row E]; [lia|].
  eapply wp_lift; [exact E|]. by wp_step.
Qed.

Lemma scroll_rows {A} (l : list A) x : length l = 25%nat →
  <[24%nat := x]> (take 24 (drop 1 l) ++ drop 24 l) = drop 1 l ++ [x].
Proof.
  intros Hl. rewrite (take_ge (drop 1 l)) by (rewrite length_drop; lia).
  destruct (drop 24 l) as [|y [|]] eqn:E;
    apply (f_equal length) in E as E'; rewrite length_drop, Hl in E'; try done.
  rewrite <- (Nat.add_0_r 24). rewrite insert_app_r_alt by (rewrite length_drop; lia).
  rewrite length_drop, Hl. done.
Qed.

Lemma wp_newline c r Q : shows c r →
  (∀ c', shows c' (r_newline r) → ser c' = ser c → rest c' = rest c → Q tt c') → wp newline Q c.
Proof.
  intros HS HQ. pose proof (shows_fb_length c r HS) as Hl. pose proof HS as [S1 S2 S3 S4 S5 S6 S7].
  unfold newline. wp_step. wp_step. wp_step. wp_step. cbn [cy]. apply wp_when; intros H.
  - apply Z.leb_le in H. simpl in H. unfold ROW_CNT in H. rewrite S5 in H.
    assert (S (ry r) = length (lines r)) as E by (unfold scrolled in *; lia).
    wp_step. wp_step. apply wp_clear_row; [unfold ROW_CNT; lia| |].
    { simpl. rewrite length_app, length_take, !length_drop. lia. }
    apply HQ; [|done..]. unfold r_newline. rewrite decide_True by done.
    split; simpl; rewrite ?length_app; simpl; [lia| | | | |done|done].
    + apply Forall_app. split; [done|]. by constructor.
    + rewrite scroll_rows by done. rewrite S3, drop_drop, <- drop_app_le by (unfold scrolled; lia).
      f_equal. unfold scrolled. simpl. rewrite ?length_app. simpl. lia.
    + unfold scrolled. simpl. rewrite ?length_app. simpl. lia.
    + unfold scrolled, ROW_CNT in *. simpl. rewrite ?length_app. simpl. lia.
  - apply Z.leb_gt in H. simpl in H. unfold ROW_CNT in H. rewrite S5 in H.
    assert (S (ry r) ≠ length (lines r)) as E by (unfold scrolled in *; lia).
    apply HQ; [|done..]. unfold r_newline. rewrite decide_False by done.
    split; simpl; [done|done|done| | |done|done].
    + unfold scrolled in *. simpl. lia.
    + unfold scrolled in *. simpl in *. lia.
Qed.

Lemma wp_wrap c r Q : shows c r →
  (∀ c', shows c' (r_wrap r) → ser c' = ser c → rest c' = rest c → Q tt c') →
  wp (wrap ← get (λ c, COL_CNT <=? cx c); when wrap newline) Q c.
Proof.
  intros S HQ. wp_step. wp_step. unfold r_wrap in HQ. apply wp_when; intros H;
    rewrite (sh_cx _ _ S) in H; unfold COL_CNT in H.
  - apply Z.leb_le in H. rewrite decide_True in HQ by lia. by eapply wp_newline.
  - apply Z.leb_gt in H. rewrite decide_False in HQ by lia. by apply HQ.
Qed.

(** *** A character *)

Lemma list_alter_insert {A} (f : A → A) (i : nat) (l : list A) x : l !! i = Some x → alter f i l = <[i := f x]> l.
Proof.
  revert i. induction l as [|y l IH]; intros [|i] H; [done|done|by injection H as ->|].
  simpl in *. f_equal. by apply IH.
Qed.

Lemma alter_rows {A} (f : list A → list A) i (l : list (list A)) : (∀ x, length (f x) = length x) →
  Forall (λ row, length row = 80%nat) l → Forall (λ row, length row = 80%nat) (alter f i l).
Proof.
  intros Hf HF. apply Forall_alter; [done|]. intros row _ Hr. by rewrite Hf.
Qed.

Lemma wp_put_cell ch c r Q : shows c r → (rx r < 80)%nat →
  (∀ c', shows c' (mk_roll (alter (<[rx r := (ch mod 256, GRAY_ON_BLACK)]>) (ry r) (lines r)) (ry r) (rx r)) →
     ser c' = ser c → rest c' = rest c → Q tt c') → wp (put_cell ch) Q c.
Proof.
  intros HS Hx HQ. pose proof HS as [S1 S2 S3 S4 S5 S6 S7]. unfold put_cell. do 6 wp_step.
  destruct (lookup_lt_is_Some_2 (lines r) (ry r)) as [row Er]; [lia|].
  assert (fb c !! Z.to_nat (cy c) = Some row) as Ef.
  { rewrite S5, Nat2Z.id, (shows_lookup c r) by (done || unfold scrolled in *; lia).
    rewrite <- Er. f_equal. lia. }
  wp_step. eapply wp_lift; [exact Ef|]. cbn beta.
  assert (length row = 80%nat) as Hr by exact (Forall_lookup_1 _ _ _ _ S2 Er).
  destruct (lookup_lt_is_Some_2 row (Z.to_nat (cx c))) as [ce Ec]; [rewrite S6; lia|].
  wp_step. eapply wp_lift; [exact Ec|]. cbn beta. wp_step. apply HQ; [|done..].
  assert (alter (<[rx r := (ch mod 256, GRAY_ON_BLACK)]>) (ry r) (lines r)
    = <[ry r := <[rx r := (ch mod 256, GRAY_ON_BLACK)]> row]> (lines r)) as Ea by (by apply list_alter_insert).
  split; simpl; unfold scrolled in *; simpl; rewrite ?Ea, ?length_insert; try done.
  - rewrite <- Ea. apply alter_rows; [|done]. intros x. apply length_insert.
  - rewrite S3, S5, S6, !Nat2Z.id. rewrite drop_insert_ge by lia. done.
Qed.

(** *** Clearing the screen *)

Lemma wp_cls_loop n y c Q : 0 ≤ y → y + Z.of_nat n = 25 → length (fb c) = 25%nat →
  (∀ c', fb c' = take (Z.to_nat y) (fb c) ++ replicate n blank_row → cx c' = cx c → cy c' = cy c →
     inited c' = inited c → ser c' = ser c → rest c' = rest c → Q tt c') → wp (cls_loop n y) Q c.
Proof.
  revert y c. induction n as [|n IH]; intros y c Hy Hn Hl HQ; cbn [cls_loop].
  - wp_step. apply HQ; [|done..]. rewrite app_nil_r, take_ge by lia. done.
  - wp_step. apply wp_clear_row; [lia|done|]. apply IH; [lia|lia|simpl; by rewrite length_insert|].
    intros c' E Ex Ey Ei Es Er. apply HQ; try done. rewrite E. simpl.
    replace (Z.to_nat (y + 1)) with (S (Z.to_nat y)) by lia.
    rewrite (take_S_r _ _ blank_row) by (apply list_lookup_insert_eq; lia).
    rewrite take_insert_ge by lia. by rewrite <- app_assoc.
Qed.

(** ** Ports that are not the serial port's *)

Definition neutral (e : io_event) : Prop :=
  match e with
  | Outb p _ => p ≠ LCR_REG ∧ p ≠ THR_REG ∧ p ≠ IER_REG
  | Inb p _ => p ≠ RBR_REG
  | _ => True
  end.

Lemma uart_neutral u e : neutral e → uart_step u e = u.
Proof.
  destruct e as [p v|p v|p v|p v]; simpl; [intros H| |intros (H1 & H2 & H3)|]; try done.
  - rewrite (proj2 (Z.eqb_neq p RBR_REG)) by done. by rewrite andb_false_r.
  - rewrite (proj2 (Z.eqb_neq p LCR_REG)), (proj2 (Z.eqb_neq p THR_REG)), (proj2 (Z.eqb_neq p IER_REG)) by done.
    by destruct (dlab u).
Qed.

Lemma sees_did e c v r k : neutral e → sees c v r k → sees (did e c) v r k.
Proof.
  intros Hn [V S R]. split; [|by apply shows_ser|done].
  change (views (did e (ser c)) v). apply views_did; [done|by apply uart_neutral].
Qed.

Lemma sees_used c v r k : sees c v r k → sees (used c) v r k.
Proof.
  intros [V S R]. split; [|by apply shows_ser|done].
  change (views (used (ser c)) v). by apply views_used.
Qed.

Lemma sees_level l c v r k : sees c v r k → sees (set_level l c) (v <| v_level := l |>) r k.
Proof.
  intros [[V1 V2 V3 ->] S R]. split; [by split|by apply shows_ser|done].
Qed.

Lemma sees_level_of c v r k : sees c v r k → level_of c = v_level v.
Proof. by intros [[_ _ _ ->] _ _]. Qed.

Section Neutral.
Context (v : view) (r : roll) (k : bool * option Z * Z * Z * Z).

Lemma wp_outb_sees p d c (Q : unit → console → Prop) : sees c v r k → neutral (Outb p 0) →
  (∀ c', sees c' v r k → Q tt c') → wp (outb p d) Q c.
Proof. intros S Hn HQ. apply wp_outb, HQ. by apply sees_did. Qed.

Lemma wp_inb_sees p c (Q : Z → console → Prop) : sees c v r k → neutral (Inb p 0) →
  (∀ x c', sees c' v r k → Q x c') → wp (inb p) Q c.
Proof. intros S Hn HQ. apply wp_inb. intros x _. apply HQ, sees_did; [done|by apply sees_used]. Qed.
End Neutral.

Lemma wp_set_level_sees l v r k c (Q : unit → console → Prop) : sees c v r k →
  (∀ c', sees c' (v <| v_level := l |>) r k → Q tt c') → wp (intr_set_level l) Q c.
Proof. intros S HQ. apply wp_modify, HQ. by apply sees_level. Qed.

Lemma wp_disable_sees v r k c (Q : bool → console → Prop) : sees c v r k →
  (∀ c', sees c' (v <| v_level := false |>) r k → Q (v_level v) c') → wp intr_disable Q c.
Proof.
  intros S HQ. unfold intr_disable. wp_step. wp_step. rewrite (sees_level_of _ _ _ _ S). wp_step.
  eapply wp_set_level_sees; [done|]. intros c' S'. wp_step. by apply HQ.
Qed.

(** Setting the level back. *)
Lemma view_level v l : v <| v_level := l |> <| v_level := v_level v |> = v.
Proof. by destruct v. Qed.

Lemma wp_pit_sees f v r k c (Q : unit → console → Prop) : sees c v r k →
  (∀ c', sees c' v r k → Q tt c') → wp (pit_configure_channel 2 3 f) Q c.
Proof.
  intros S HQ. unfold pit_configure_channel. wp_step. apply wp_check; [done|]. wp_step.
  apply wp_check; [done|]. cbv zeta. wp_step. eapply wp_disable_sees; [done|]. intros c1 S1.
  wp_step. eapply wp_outb_sees; [exact S1|done|]. intros c2 S2.
  wp_step. eapply wp_outb_sees; [exact S2|done|]. intros c3 S3.
  wp_step. eapply wp_outb_sees; [exact S3|done|]. intros c4 S4.
  eapply wp_set_level_sees; [exact S4|]. intros c5 S5. rewrite view_level in S5. by apply HQ.
Qed.

Lemma wp_speaker_off_sees v r k c (Q : unit → console → Prop) : sees c v r k →
  (∀ c', sees c' v r k → Q tt c') → wp speaker_off Q c.
Proof.
  intros S HQ. unfold speaker_off. wp_step. eapply wp_disable_sees; [done|]. intros c1 S1.
  wp_step. eapply wp_inb_sees; [exact S1|done|]. intros x c2 S2.
  wp_step. eapply wp_outb_sees; [exact S2|done|]. intros c3 S3.
  eapply wp_set_level_sees; [exact S3|]. intros c4 S4. rewrite view_level in S4. by apply HQ.
Qed.

(** The quarter of a second of the beep is a sleep for 25 ticks. *)
Lemma wp_msleep_sees v r k c (Q : unit → console → Prop) : sees c v r k → v_level v = true →
  (∀ c', sees c' v r k → Q tt c') → wp (timer_msleep 250) Q c.
Proof.
  intros S L HQ. unfold timer_msleep, real_time_sleep, timer_sleep_for, assert_intr_on.
  pose proof (sees_level_of _ _ _ _ S) as E. rewrite L in E.
  wp_step. wp_step. wp_step. apply wp_check; [done|].
  change (Arith.int64 (250 * Thread.TIMER_FREQ) ÷ 1000) with 25. cbv iota beta.
  change (0 <? 25) with true. change (25 <=? 0) with false. cbv iota.
  wp_step. wp_step. wp_step. apply wp_check; [done|]. wp_step. apply HQ.
  by destruct S as [V [] R].
Qed.

Lemma wp_beep_sees v r k c (Q : unit → console → Prop) : sees c v r k →
  (∀ c', sees c' v r k → Q tt c') → wp speaker_beep Q c.
Proof.
  intros S HQ. unfold speaker_beep. wp_step. wp_step. rewrite (sees_level_of _ _ _ _ S).
  apply wp_when; intros L; [|by apply HQ].
  wp_step. unfold speaker_on. change ((20 <=? 440) && (440 <=? 20000)) with true. cbv iota.
  wp_step. eapply wp_disable_sees; [done|]. intros c1 S1.
  wp_step. eapply wp_pit_sees; [exact S1|]. intros c2 S2.
  wp_step. eapply wp_inb_sees; [exact S2|done|]. intros x c3 S3.
  wp_step. eapply wp_outb_sees; [exact S3|done|]. intros c4 S4.
  eapply wp_set_level_sees; [exact S4|]. intros c5 S5. rewrite view_level in S5.
  wp_step. eapply wp_msleep_sees; [exact S5|done|]. intros c6 S6. by eapply wp_speaker_off_sees.
Qed.

(** ** The hardware cursor

    A word written to port 980 sets the register named by its low byte to its
    high byte; registers 14 and 15 are the cursor's. *)
Definition crtc_step (hl : Z * Z) (e : io_event) : Z * Z :=
  match e with
  | Outw p w =>
      if p =? 980 then
        if w mod 256 =? 14 then (w / 256, hl.2)
        else if w mod 256 =? 15 then (hl.1, w / 256) else hl
      else hl
  | _ => hl
  end.
Definition cursor_of (l : list io_event) : Z :=
  let hl := foldl crtc_step (0, 0) l in hl.1 * 256 + hl.2.

(** The two words, for a position on the screen. *)
Lemma cursor_words cp : 0 ≤ cp < 2000 →
  let w1 := Z.lor 14 (Z.land cp 65280) mod 2 ^ 16 in
  let w2 := Z.lor 15 (Z.shiftl cp 8) mod 2 ^ 16 in
  w1 mod 256 = 14 ∧ w2 mod 256 = 15 ∧ w1 / 256 * 256 + w2 / 256 = cp.
Proof.
  intros Hcp. assert (In cp (seqZ 0 2000)) as Hin by (apply list_elem_of_In, elem_of_seqZ; lia).
  assert (forallb (λ cp, let w1 := Z.lor 14 (Z.land cp 65280) mod 2 ^ 16 in
    let w2 := Z.lor 15 (Z.shiftl cp 8) mod 2 ^ 16 in
    (w1 mod 256 =? 14) && (w2 mod 256 =? 15) && (w1 / 256 * 256 + w2 / 256 =? cp)) (seqZ 0 2000) = true)
    as H by (vm_compute; reflexivity).
  rewrite forallb_forall in H. specialize (H cp Hin). cbv zeta in *. bool_simp. auto.
Qed.

(** The cursor of a roll that is shown. *)
Definition position (r : roll) : Z := Z.of_nat (rx r) + 80 * Z.of_nat (ry r - scrolled r).

Lemma wp_move_cursor v r k c (Q : unit → console → Prop) : sees c v r k → (rx r < 80)%nat →
  (∀ c', sees c' v r k → cursor_of (log (ports (ser c'))) = position r → Q tt c') →
  wp move_cursor Q c.
Proof.
  intros S Hx HQ. pose proof (se_shows _ _ _ _ S) as [S1 S2 S3 S4 S5 S6 S7].
  unfold move_cursor. do 3 wp_step. wp_step. wp_step.
  rewrite S5, S6. unfold COL_CNT.
  assert (0 ≤ position r < 2000) as Hp by (unfold position, scrolled in *; lia).
  fold (position r). rewrite (Z.mod_small (position r)) by lia.
  destruct (cursor_words (position r) Hp) as (W1 & W2 & W3).
  apply HQ; [by do 2 (apply sees_did; [done|])|].
  unfold cursor_of. simpl. rewrite <- app_assoc, foldl_app. cbn [foldl app crtc_step].
  change (980 =? 980) with true. cbv iota. rewrite W1, W2. exact W3.
Qed.

(** ** [vga_putc] *)

Definition on_screen (r : roll) : Prop := (rx r < 80)%nat.

Lemma r_wrap_on_screen r : (rx r ≤ 80)%nat → on_screen (r_wrap r).
Proof. intros H. unfold r_wrap, on_screen. case_decide; simpl; lia. Qed.

Lemma r_putc_on_screen ch r : on_screen r → on_screen (r_putc ch r).
Proof.
  intros H. unfold on_screen in H. unfold r_putc, r_char.
  assert (rx r / 8 * 8 + 8 ≤ 80)%nat as Ht.
  { pose proof (Nat.Div0.div_lt_upper_bound (rx r) 8 10 ltac:(lia)). lia. }
  destruct (ch =? 10), (ch =? 12), (ch =? 8), (ch =? 13), (ch =? 9), (ch =? 7);
    try apply r_wrap_on_screen; unfold on_screen, r_newline; cbn [rx]; lia.
Qed.

Lemma tab_stop (x : nat) : (x < 80)%nat → ROUND_UP (Z.of_nat x + 1) 8 = Z.of_nat (x / 8 * 8 + 8).
Proof.
  intros Hx. assert (In x (seq 0 80)) as Hin by (apply in_seq; lia).
  assert (forallb (λ x, ROUND_UP (Z.of_nat x + 1) 8 =? Z.of_nat (x / 8 * 8 + 8)) (seq 0 80) = true)
    as H by (vm_compute; reflexivity).
  rewrite forallb_forall in H. by apply Z.eqb_eq, H.
Qed.

(** [sees] from its parts, when only the display changed. *)
Lemma sees_intro c v r k c' r' : sees c v r k → shows c' r' → ser c' = ser c → rest c' = rest c →
  sees c' v r' k.
Proof. intros [V S R] S' E R'. split; [by rewrite E|done|by rewrite R']. Qed.

Lemma wp_cls v r k c (Q : unit → console → Prop) : sees c v r k →
  (∀ c', sees c' v (mk_roll (lines r ++ replicate 25 blank_row) (length (lines r)) 0) k → Q tt c') →
  wp cls Q c.
Proof.
  intros S HQ. pose proof (se_shows _ _ _ _ S) as HS. pose proof HS as [S1 S2 S3 S4 S5 S6 S7].
  unfold cls. wp_step. eapply wp_cls_loop; [lia|lia|by apply (shows_fb_length c r)|].
  intros c1 E Ex Ey Ei Es Er. wp_step. wp_step.
  eapply (wp_move_cursor v (mk_roll (lines r ++ replicate 25 blank_row) (length (lines r)) 0) k);
    [|cbn [rx]; lia|intros c2 S2' _; apply HQ; exact S2'].
  eapply (sees_intro c); [exact S| |exact Es|exact Er].
  split; unfold scrolled; cbn [lines ry rx]; rewrite ?length_app, ?length_replicate; try lia.
  - apply Forall_app. split; [done|]. by apply Forall_replicate.
  - change (fb c1 = drop (length (lines r) + 25 - 25) (lines r ++ replicate 25 blank_row)).
    rewrite E, take_0, app_nil_l.
    replace (length (lines r) + 25 - 25)%nat with (length (lines r)) by lia. by rewrite drop_app_length.
  - change (0 = Z.of_nat (length (lines r) - (length (lines r) + 25 - 25))). lia.
  - reflexivity.
  - change (inited c1 = true). by rewrite Ei.
Qed.

Lemma wp_switch ch old v r k c (Q : unit → console → Prop) : sees c v r k → on_screen r →
  v_level v = false →
  (∀ c', sees c' v (r_putc ch r) k → Q tt c') →
  wp (if ch =? 10 then newline
      else if ch =? 12 then cls
      else if ch =? 8 then modify (λ c, if 0 <? cx c then c <| cx := cx c - 1 |> else c)
      else if ch =? 13 then modify (λ c, c <| cx := 0 |>)
      else if ch =? 9 then
        modify (λ c, c <| cx := ROUND_UP (cx c + 1) 8 |>);;
        wrap ← get (λ c, COL_CNT <=? cx c); when wrap newline
      else if ch =? 7 then intr_set_level old;; speaker_beep;; intr_disable;; mret tt
      else
        put_cell ch;;
        modify (λ c, c <| cx ::= Z.add 1 |>);;
        wrap ← get (λ c, COL_CNT <=? cx c); when wrap newline) Q c.
Proof.
  intros S Hx L HQ. pose proof (se_shows _ _ _ _ S) as HS. unfold r_putc in HQ.
  assert (∀ c' r', shows c' r' → ser c' = ser c → rest c' = rest c → sees c' v r' k) as Hi
    by (intros; by eapply sees_intro).
  destruct (ch =? 10); [eapply wp_newline; [done|]; intros; by apply HQ, Hi|].
  destruct (ch =? 12); [by eapply wp_cls|].
  destruct (ch =? 8).
  { wp_step. apply HQ, Hi; [|by destruct (0 <? cx c)..].
    pose proof (shows_cx c r (Nat.pred (rx r)) HS) as HS'. rewrite (sh_cx _ _ HS).
    destruct (Z.ltb_spec 0 (Z.of_nat (rx r))).
    - replace (Z.of_nat (rx r) - 1) with (Z.of_nat (Nat.pred (rx r))) by lia. exact HS'.
    - replace (Nat.pred (rx r)) with (rx r) by lia. by destruct HS. }
  destruct (ch =? 13); [wp_step; by apply HQ, Hi; [apply (shows_cx c r 0)|..]|].
  destruct (ch =? 9).
  { wp_step. wp_step. eapply (wp_wrap _ (mk_roll (lines r) (ry r) (rx r / 8 * 8 + 8))).
    - rewrite (sh_cx _ _ HS), tab_stop by exact Hx. by apply shows_cx.
    - intros c' S' E R. by apply HQ, Hi. }
  destruct (ch =? 7).
  { wp_step. eapply wp_set_level_sees; [exact S|]. intros c1 S1.
    wp_step. eapply wp_beep_sees; [exact S1|]. intros c2 S2. wp_step.
    eapply wp_disable_sees; [exact S2|]. intros c3 S3. wp_step. apply HQ.
    rewrite <- (view_level v old), L. exact S3. }
  wp_step. eapply wp_put_cell; [exact HS|exact Hx|]. intros c1 S1 E1 R1. wp_step. wp_step.
  unfold r_char in HQ. eapply wp_wrap.
  - pose proof (shows_cx c1 _ (Datatypes.S (rx r)) S1) as S2. simpl in S2.
    replace (Z.of_nat (Datatypes.S (rx r))) with (1 + cx c1) in S2 by (rewrite (sh_cx _ _ S1); simpl; lia).
    exact S2.
  - intros c2 S2 E2 R2. apply HQ, Hi; [exact S2|by rewrite E2|by rewrite R2].
Qed.

Lemma wp_vga_putc ch v r k c (Q : unit → console → Prop) : sees c v r k → on_screen r →
  (∀ c', sees c' v (r_putc ch r) k →
     cursor_of (log (ports (ser c'))) = position (r_putc ch r) → Q tt c') →
  wp (vga_putc ch) Q c.
Proof.
  intros S Hx HQ. unfold vga_putc. wp_step. eapply wp_disable_sees; [done|]. intros c1 S1.
  wp_step. unfold init. wp_step. wp_step. rewrite (sh_init _ _ (se_shows _ _ _ _ S1)). cbn [negb when]. wp_step.
  wp_step. eapply wp_switch; [exact S1|exact Hx|done|]. intros c2 S2.
  wp_step. eapply wp_move_cursor; [exact S2|by apply r_putc_on_screen|]. intros c3 S3 E3.
  eapply wp_modify. apply HQ; [|exact E3]. rewrite <- (view_level v false). by apply sees_level.
Qed.

(** ** [putchar_have_lock] *)

Lemma wp_on_ser {A} (m : M serial A) c Q : wp m (λ a s, Q a (c <| ser := s |>)) (ser c) → wp (on_ser m) Q c.
Proof. unfold wp, on_ser. by destruct (m (ser c)). Qed.

(** The console is in order: [q] was given to the serial port, [r] to the display,
    and the thread may print. *)
Record ready (c : console) (q : list Z) (r : roll) (k : bool * option Z * Z * Z * Z) : Prop := {
  rd_view : ∃ v, sees c v r k ∧ (∃ i g, good v q i g) ∧ (v_level v = true → v_context v = false);
  rd_screen : on_screen r;
}.

Definition wrote (n : Z) (k : bool * option Z * Z * Z * Z) : bool * option Z * Z * Z * Z :=
  let '(u, l, d, w, t) := k in (u, l, d, w + n, t).

Lemma putc_view_level b v : (putc_view b v).1 = true →
  v_level (putc_view b v).2 = v_level v ∧ v_context (putc_view b v).2 = v_context v.
Proof.
  assert (∀ w, (put_view (v_level v) b w).1 = true → v_context w = v_context v →
    v_level (put_view (v_level v) b w).2 = v_level v ∧ v_context (put_view (v_level v) b w).2 = v_context v) as H.
  { intros w. unfold put_view. by case_decide. }
  unfold putc_view. destruct (v_mode v); [done|done|]. destruct (v_tx v); [|destruct (negb _ && _)]; intros E; by apply H.
Qed.

Lemma wp_putchar_have_lock ch c q r k (Q : unit → console → Prop) : ready c q r k → byte ch →
  console_locked_by_current_thread c = true →
  (∀ c', ready c' (q ++ [ch]) (r_putc ch r) (wrote 1 k) →
     intr_context (ser c') = intr_context (ser c) → Q tt c') →
  wp (putchar_have_lock ch) Q c.
Proof.
  intros [(v & S & (i & g & G) & L) Hx] Hb Hk HQ. unfold putchar_have_lock. wp_step. wp_step. wp_step.
  apply wp_check; [done|]. wp_step. wp_step. wp_step. apply wp_on_ser.
  destruct S as [V HS R].
  eapply wp_serial_putc_views; [exact V|done|apply G|exact L|]. intros s' V'.
  pose proof (putc_view_good ch v q i g Hb G) as G'. pose proof (putc_view_level ch v) as L'.
  destruct (putc_view ch v) as [taken v']. cbn [fst snd] in *. destruct taken; [|wp_step].
  destruct (L' eq_refl) as [L1 L2].
  eapply (wp_vga_putc ch v' r (wrote 1 k)).
  - split; [exact V'| |].
    + destruct HS. by split.
    + rewrite <- R. unfold rest, wrote. simpl. do 2 f_equal. lia.
  - exact Hx.
  - intros c' S' _. apply HQ.
    + split; [|by apply r_putc_on_screen]. exists v'. split; [exact S'|].
      split; [by exists i, g|]. by rewrite L1, L2.
    + assert (∀ s w, views s w → intr_context s = v_context w) as Hc by (by intros s w [_ _ _ ->]).
      rewrite (Hc _ _ (se_views _ _ _ _ S')), (Hc _ _ V). exact L2.
Qed.

Lemma ready_locked c q r k : ready c q r k →
  console_locked_by_current_thread c =
    (intr_context (ser c) || negb k.1.1.1.1 || bool_decide (k.1.1.1.2 = Some k.2)).
Proof. intros [(v & [_ _ <-] & _) _]. done. Qed.

Lemma wp_put_all t c q r k (Q : unit → console → Prop) : ready c q r k → Forall byte t →
  console_locked_by_current_thread c = true →
  (∀ c', ready c' (q ++ t) (foldl (λ r ch, r_putc ch r) r t) (wrote (Z.of_nat (length t)) k) →
     intr_context (ser c') = intr_context (ser c) → Q tt c') →
  wp (put_all t) Q c.
Proof.
  revert c q r k. induction t as [|ch t IH]; intros c q r k S HF Hk HQ; cbn [put_all].
  - wp_step. apply HQ; [|done]. rewrite app_nil_r. destruct k as [[[[u l] d] w] x]. simpl. by rewrite Z.add_0_r.
  - apply Forall_cons in HF as [Hb HF]. wp_step.
    eapply wp_putchar_have_lock; [exact S|exact Hb|exact Hk|]. intros c1 S1 Ec.
    apply (IH c1 (q ++ [ch]) (r_putc ch r) (wrote 1 k)); [exact S1|exact HF| |].
    + rewrite (ready_locked _ _ _ _ S) in Hk. rewrite (ready_locked _ _ _ _ S1), Ec.
      destruct k as [[[[u l] d] w] x]. exact Hk.
    + intros c2 S2 Ec2. apply HQ; [|congruence].
      rewrite <- app_assoc in S2. destruct k as [[[[u l] d] w] x]. simpl in *.
      replace (w + 1 + Z.of_nat (length t)) with (w + Z.pos (Pos.of_succ_nat (length t))) in S2 by lia.
      exact S2.
Qed.

(** ** The lock *)

(** The thread can print: it does not take the lock, or the lock is free or its
    own. *)
Definition can_print (c : console) : Prop :=
  intr_context (ser c) = true ∨ use_console_lock c = false ∨ console_lock c = None ∨
  console_lock c = Some (current c).


(** The lock of [k] while the thread prints; [None] if it has to wait. *)
Definition acquired (ctx : bool) (k : bool * option Z * Z * Z * Z) : option (bool * option Z * Z * Z * Z) :=
  let '(u, l, d, w, t) := k in
  if ctx || negb u then Some k
  else match l with
       | Some t' => if decide (t' = t) then Some (u, l, d + 1, w, t) else None
       | None => Some (u, Some t, d, w, t)
       end.

Lemma wp_acquire c q r k (Q : unit → console → Prop) : ready c q r k →
  (∀ c' k', acquired (intr_context (ser c)) k = Some k' → ready c' q r k' →
     ser c' = ser c → Q tt c') → wp acquire_console Q c.
Proof.
  intros [(v & [V HS <-] & G) Hx] HQ. unfold acquire_console. wp_step. wp_step.
  unfold acquired, rest in HQ. apply wp_when; intros H.
  - apply andb_true_iff in H as [H1%negb_true_iff H2]. rewrite H1, H2 in HQ. cbn [orb negb] in HQ.
    wp_step. wp_step. unfold lock_held. case_bool_decide as El.
    + wp_step. rewrite El in HQ. rewrite decide_True in HQ by done.
      eapply HQ; [reflexivity| |done]. split; [|done]. exists v. split; [|done].
      split; [done|by destruct HS|]. unfold rest. cbn -[Z.add]. by rewrite H2, El, (Z.add_comm 1).
    + wp_step. wp_step. case_bool_decide as En; [|wp_step]. wp_step. rewrite En in HQ.
      eapply HQ; [reflexivity| |done]. split; [|done]. exists v. split; [|done].
      split; [done|by destruct HS|]. unfold rest. simpl. by rewrite H2.
  - apply (HQ c (rest c)); [|split; [exists v; by split|done]|done].
    apply andb_false_iff in H as [H%negb_false_iff|H]; rewrite H; [done|].
    cbn [negb]. rewrite orb_true_r. unfold rest. by rewrite H.
Qed.

Lemma wp_release c q r k n k' (Q : unit → console → Prop) :
  acquired (intr_context (ser c)) k = Some k' → 0 ≤ k.1.1.2 → (k.1.1.1.2 = None → k.1.1.2 = 0) →
  ready c q r (wrote n k') → (∀ c', ready c' q r (wrote n k) → Q tt c') → wp release_console Q c.
Proof.
  destruct k as [[[[u l] d] w] t]. cbn [fst snd]. intros Ha Hd Hn [(v & [V HS Er] & G) Hx] HQ.
  unfold acquired in Ha. unfold release_console. wp_step. wp_step.
  assert (∀ u0 l0 d0 w0 t0, (u0, l0, d0, w0, t0) = k' → rest c = (u0, l0, d0, w0 + n, t0)) as Hr
    by (by intros ? ? ? ? ? <-).
  assert (∀ c', ser c' = ser c → shows c' r → rest c' = (u, l, d, w + n, t) → Q tt c') as Hend.
  { intros c' Es S' R'. apply HQ. split; [|done]. exists v. split; [|done]. split; [by rewrite Es|done|done]. }
  destruct (intr_context (ser c)) eqn:Ec; cbn [orb negb andb] in *.
  - cbn [when]. wp_step. injection Ha as <-. apply Hend; [done|done|by apply Hr].
  - destruct u; cbn [negb] in Ha.
    2: { injection Ha as <-. specialize (Hr _ _ _ _ _ eq_refl). pose proof Hr as Hr'.
         injection Hr' as Hu _ _ _ _. rewrite Hu. cbn [when]. wp_step. by apply Hend. }
    destruct l as [t'|]; [destruct (decide (t' = t)) as [->|]; [|done]|]; injection Ha as <-;
      specialize (Hr _ _ _ _ _ eq_refl); pose proof Hr as Hr'; injection Hr' as Hu Hl Hdd Hw Ht;
      rewrite Hu; cbn [when]; wp_step; wp_step; rewrite Hdd.
    + rewrite (proj2 (Z.ltb_lt 0 (d + 1))) by lia. wp_step.
      apply Hend; [done|by destruct HS|]. unfold rest. cbn -[Z.add Z.sub].
      rewrite Hu, Hl, Hdd, Hw, Ht. by replace (d + 1 - 1) with d by lia.
    + rewrite (Hn eq_refl). cbn [Z.ltb Z.compare]. wp_step. wp_step. wp_step.
      apply wp_check; [unfold lock_held; rewrite Hl, Ht; by apply bool_decide_eq_true|]. wp_step.
      apply Hend; [done|by destruct HS|]. unfold rest. simpl. rewrite Hu, Hdd, Hw, Ht. by rewrite (Hn eq_refl).
Qed.

Lemma acquired_locked c q r k k' : acquired (intr_context (ser c)) k = Some k' → ready c q r k' →
  console_locked_by_current_thread c = true.
Proof.
  intros Ha S. rewrite (ready_locked _ _ _ _ S). destruct k as [[[[u l] d] w] t]. unfold acquired in Ha.
  destruct (intr_context (ser c)); [done|]. destruct u; cbn [negb orb] in Ha.
  - destruct l as [t'|]; [destruct (decide (t' = t)) as [->|]; [|done]|]; injection Ha as <-; simpl;
      by rewrite bool_decide_eq_true_2.
  - by injection Ha as <-.
Qed.

Lemma acquired_wrote ctx k k' n : acquired ctx k = Some k' → acquired ctx (wrote n k) = Some (wrote n k').
Proof.
  destruct k as [[[[u l] d] w] t]. unfold acquired, wrote. destruct (ctx || negb u); [by intros [= <-]|].
  destruct l; [case_decide; [|done]|]; by intros [= <-].
Qed.

(** Characters printed with the lock. *)
Lemma wp_print {A} (a : A) t c q r k (Q : A → console → Prop) : ready c q r k → Forall byte t →
  0 ≤ k.1.1.2 → (k.1.1.1.2 = None → k.1.1.2 = 0) →
  (∀ c', ready c' (q ++ t) (foldl (λ r ch, r_putc ch r) r t) (wrote (Z.of_nat (length t)) k) → Q a c') →
  wp (acquire_console;; put_all t;; release_console;; mret a) Q c.
Proof.
  intros S HF Hd Hn HQ. wp_step. eapply wp_acquire; [exact S|]. intros c1 k' Ha S1 Es1. wp_step.
  rewrite <- Es1 in Ha.
  eapply wp_put_all; [exact S1|exact HF|by eapply acquired_locked|]. intros c2 S2 Ec2.
  wp_step. rewrite <- Ec2 in Ha. eapply wp_release; [exact Ha|exact Hd|exact Hn|exact S2|].
  intros c3 S3. wp_step. by apply HQ.
Qed.

(** ** [printf] *)

Lemma put_all_snoc t ch c :
  put_all (t ++ [ch]) c =
    match put_all t c with Ret _ c' => putchar_have_lock ch c' | Panic => Panic | Waits => Waits end.
Proof.
  revert c. induction t as [|x t IH]; intros c; simpl.
  - unfold mbind, M_bind, mret, M_ret. by destruct (putchar_have_lock ch c) as [[] ?| |].
  - unfold mbind, M_bind. destruct (putchar_have_lock x c); [apply IH|done|done].
Qed.

(** [vprintf] prints the text of the format, and returns its length. *)
Lemma vprintf_text m format args t c : printf_text m format args = Some t →
  vprintf m format args c
    = (acquire_console;; put_all t;; release_console;; mret (Z.of_nat (length t))) c.
Proof.
  intros Ht. unfold printf_text, __vprintf in Ht. apply fmap_Some in Ht as ([m' t'] & Ht & ->). simpl.
  assert (∀ c, __vprintf fst vprintf_helper format args (m, Ret 0 c)
    = Some (m, (put_all t';; mret (Z.of_nat (length t'))) c)) as E.
  { intros c0. set (R := λ (s1 : memory * list Z) (s2 : memory * outcome console Z),
      s1.1 = m ∧ s2 = (m, (put_all s1.2;; mret (Z.of_nat (length s1.2))) c0)).
    destruct (vprintf_sim fst collect fst vprintf_helper R (λ _, True))
      with (n1 := fuel m) (n2 := fuel m) (p := format) (args := args) (s1 := (m, @nil Z))
        (s2 := (m, Ret (A := Z) 0 c0)) (s1' := (m', t')) as (s2 & E2 & H1 & H2).
    - intros s1 s2 [-> ->]. done.
    - intros ch s1 s2 s1' [E1 ->] _ [= <-]. eexists. split; [reflexivity|]. split; [done|].
      simpl. f_equal. unfold mbind, M_bind, mret, M_ret. rewrite put_all_snoc.
      destruct (put_all s1.2 c0) as [[] c1| |]; [|done|done].
      destruct (putchar_have_lock ch c1); [|done|done]. f_equal. rewrite length_app. simpl. lia.
    - done.
    - by split.
    - done.
    - done.
    - exact Ht.
    - unfold __vprintf. cbn [fst]. by rewrite E2, H2. }
  unfold vprintf. unfold mbind, M_bind, mret, M_ret.
  destruct (acquire_console c) as [[] c1| |]; [|done|done]. rewrite E.
  unfold mbind, M_bind, mret, M_ret. by destruct (put_all t' c1).
Qed.

(** ** The properties *)

Lemma clear_row_quiet y : quiet (clear_row y).
Proof. unfold clear_row. quiet. Qed.

Lemma newline_quiet : quiet newline.
Proof. unfold newline. quiet; apply clear_row_quiet. Qed.

Lemma move_cursor_quiet : quiet move_cursor.
Proof. unfold move_cursor, outw, note. quiet. Qed.

Lemma cls_quiet : quiet cls.
Proof.
  assert (∀ n y, quiet (cls_loop n y)) as Hl.
  { induction n as [|n IH]; intros y; cbn [cls_loop]; [quiet|].
    apply quiet_bind; [apply clear_row_quiet|intros; apply IH]. }
  unfold cls. apply quiet_bind; [apply Hl|intros _]. apply quiet_bind; [quiet|intros _].
  apply move_cursor_quiet.
Qed.

(** Only the bell reads ports, once the display is initialized. *)
Lemma vga_putc_returns ch c : inited c = true → ch ≠ 7 → vga_putc ch c ≠ Waits.
Proof.
  intros Hi Hch. apply Z.eqb_neq in Hch. unfold vga_putc. rewrite Hch.
  unfold mbind at 1, M_bind at 1. destruct (intr_disable c) as [old c1| |] eqn:E; [|done|done].
  assert (inited c1 = true) as Hi1.
  { unfold intr_disable, intr_set_level, get, modify, mbind, M_bind, mret, M_ret in E.
    by injection E as _ <-. }
  unfold mbind at 1, M_bind at 1.
  assert (init c1 = Ret tt c1) as ->.
  { unfold init, get, mbind, M_bind. by rewrite Hi1. }
  match goal with |- ?m c1 ≠ _ => assert (quiet m) as Hq end.
  { apply quiet_bind.
    - destruct (ch =? 10); [apply newline_quiet|]. destruct (ch =? 12); [apply cls_quiet|].
      destruct (ch =? 8); [apply quiet_modify; intros s; by destruct (0 <? cx s)|].
      destruct (ch =? 13); [quiet|].
      destruct (ch =? 9);
        [apply quiet_bind; [quiet|intros _]|
         apply quiet_bind; [unfold put_cell; quiet|intros _]; apply quiet_bind; [quiet|intros _]];
        apply quiet_bind; [quiet|intros w|quiet|intros w]; apply quiet_when, newline_quiet.
    - intros _. apply quiet_bind; [apply move_cursor_quiet|intros _]. unfold intr_set_level. quiet. }
  specialize (Hq c1). intros Ew. by rewrite Ew in Hq.
Qed.

(** C27: The display is a window on a roll of paper.  While the screen shows the last
    25 lines of the roll, [vga_putc] never touches memory outside the framebuffer
    and, apart from the bell, always returns; afterwards the screen shows the last
    25 lines of the roll on which the character was printed, with lines of 80
    columns and the control characters in their conventional meaning; the cursor
    stays on the screen and the hardware cursor is moved to it. *)
Theorem vga_refines_roll ch c r : shows c r → on_screen r → wf (txq (ser c)) → wf (buffer (ser c)) →
  dlab (uart_of (log (ports (ser c)))) = false →
  vga_putc ch c ≠ Panic ∧ (ch ≠ 7 → vga_putc ch c ≠ Waits) ∧
  ∀ c', vga_putc ch c = Ret tt c' →
    shows c' (r_putc ch r) ∧ on_screen (r_putc ch r) ∧
    cursor_of (log (ports (ser c'))) = cx c' + 80 * cy c' ∧ rest c' = rest c.
Proof.
  intros HS Hx W1 W2 D.
  assert (wp (vga_putc ch) (λ _ c', sees c' (mk_view (intr_level (ser c)) (intr_context (ser c)) (mode (ser c))
    (contents (txq (ser c))) (contents (buffer (ser c))) (sent (uart_of (log (ports (ser c)))))
    (rcvd (uart_of (log (ports (ser c))))) (ier (uart_of (log (ports (ser c)))))) (r_putc ch r) (rest c) ∧
    cursor_of (log (ports (ser c'))) = position (r_putc ch r)) c) as Hw.
  { eapply wp_vga_putc; [by split; [split|..]|exact Hx|]. intros c' S' E'. by split. }
  unfold wp in Hw. split; [by intros E; rewrite E in Hw|].
  split; [intros Hch; by apply vga_putc_returns; [apply HS|]|].
  intros c' E. rewrite E in Hw. destruct Hw as [[_ S' R'] Hc].
  split; [exact S'|]. split; [by apply r_putc_on_screen|]. split; [|exact R'].
  rewrite Hc, (sh_cx _ _ S'), (sh_cy _ _ S'). done.
Qed.

(** A blank screen, with the cursor at its end. *)
Definition sample_console (answers : list Z) (ready : bool) : console :=
  mk_console (dev (start answers)) 79 24 (replicate 25 blank_row) ready true None 0 0 1 2998272 [].
Definition sample_roll : roll := mk_roll (replicate 25 blank_row) 24 79.

Lemma sample_shows answers : shows (sample_console answers true) sample_roll.
Proof.
  split; unfold scrolled, sample_roll, sample_console; cbn [lines ry rx fb cx cy inited];
    rewrite ?length_replicate; try lia; try reflexivity.
  by apply Forall_replicate.
Qed.

Lemma vga_refines_roll_witness :
  vga_putc 65 (sample_console [] true) ≠ Panic ∧
  ∃ c', vga_putc 65 (sample_console [] true) = Ret tt c' ∧ cursor_of (log (ports (ser c'))) = 24 * 80.
Proof.
  destruct (vga_refines_roll 65 (sample_console [] true) sample_roll) as (H1 & H2 & H3).
  - apply sample_shows.
  - unfold on_screen, sample_roll. cbn [rx]. lia.
  - by split.
  - by split.
  - done.
  - split; [exact H1|]. specialize (H2 ltac:(done)).
    destruct (vga_putc 65 (sample_console [] true)) as [[] c'| |] eqn:E; [|done|done].
    exists c'. split; [done|]. destruct (H3 c' eq_refl) as (S & _ & -> & _).
    rewrite (sh_cx _ _ S), (sh_cy _ _ S). reflexivity.
Defined.

(** The position that [init] reads from the display is not checked: if it is not on
    the screen, the first character is written outside the framebuffer. *)
Lemma vga_cursor_off_screen hi lo vs c ch : inited c = false → length (fb c) = 25%nat →
  answers (ports (ser c)) = hi :: lo :: vs → 0 ≤ hi < 256 → 0 ≤ lo < 256 →
  2000 ≤ hi * 256 + lo → 32 ≤ ch → vga_putc ch c = Panic.
Proof.
  intros Hi Hf A Hhi Hlo Hcp Hch. set (c1 := set_level false c).
  assert (∃ x y s, init c1 = Ret tt (c1 <| ser := s |> <| cx := x |> <| cy := y |> <| inited := true |>) ∧ 25 ≤ y)
    as (x & y & s & Hinit & Hy).
  { unfold init, get, mbind, M_bind. change (inited c1) with (inited c). rewrite Hi. cbn [negb when].
    unfold find_cursor, outb, note, modify, mbind, M_bind.
    rewrite (inb_run 981 hi (lo :: vs)) by exact A.
    rewrite (inb_run 981 lo vs) by (simpl; by rewrite A).
    rewrite (Z.mod_small hi), (Z.mod_small lo) by lia. unfold mret, M_ret.
    eexists _, _, _. split; [reflexivity|]. unfold COL_CNT.
    rewrite (lor_shiftl 8) by lia. apply Z.div_le_lower_bound; lia. }
  unfold vga_putc. rewrite (bind_Ret intr_disable _ c (level_of c) c1) by reflexivity.
  rewrite (bind_Ret init _ _ _ _ Hinit). apply bind_Panic.
  rewrite (proj2 (Z.eqb_neq ch 10)), (proj2 (Z.eqb_neq ch 12)), (proj2 (Z.eqb_neq ch 8)),
    (proj2 (Z.eqb_neq ch 13)), (proj2 (Z.eqb_neq ch 9)), (proj2 (Z.eqb_neq ch 7)) by lia.
  apply bind_Panic. unfold put_cell, get, mbind, M_bind.
  change (fb (c1 <| ser := s |> <| cx := x |> <| cy := y |> <| inited := true |>)) with (fb c).
  change (cy (c1 <| ser := s |> <| cx := x |> <| cy := y |> <| inited := true |>)) with y.
  by rewrite (lookup_ge_None_2 (fb c)) by lia.
Qed.

(** C15: [printf] prints its text to both devices.  For a well-formed format with its
    arguments, called by a thread or in an interrupt handler, with the console
    lock free, held by the thread itself or not in use, [printf] does not panic;
    when it returns, its result is the length of the text, the serial port was
    given exactly the characters of the text after what it was given before, the
    display shows the roll with the text printed on it, the statistics count the
    characters, and the lock and its depth are as they were. *)
Theorem printf_console m format s args c q r : cstring m format s → printable m s args →
  ready c q r (rest c) → 0 ≤ console_lock_depth c → (console_lock c = None → console_lock_depth c = 0) →
  ∃ t, printf_text m format args = Some t ∧
    (Forall byte t →
     printf m format args c ≠ Panic ∧
     ∀ n c', printf m format args c = Ret n c' →
       n = Z.of_nat (length t) ∧
       ready c' (q ++ t) (foldl (λ r ch, r_putc ch r) r t) (wrote n (rest c))).
Proof.
  intros Hf Hp S Hd Hn. destruct (printf_text_ok m format s args Hf Hp) as [t Ht].
  exists t. split; [done|]. intros HF. unfold printf. rewrite (vprintf_text _ _ _ t) by done.
  assert (wp (acquire_console;; put_all t;; release_console;; mret (Z.of_nat (length t)))
    (λ n c', n = Z.of_nat (length t) ∧
       ready c' (q ++ t) (foldl (λ r ch, r_putc ch r) r t) (wrote n (rest c))) c) as Hw.
  { eapply wp_print; [exact S|exact HF|exact Hd|exact Hn|]. intros c' S'. by split. }
  unfold wp in Hw. split; [intros E; by rewrite E in Hw|]. intros n c' E. by rewrite E in Hw.
Qed.

(** The kernel prints a line before the serial port is initialized. *)
Lemma printf_console_witness :
  ∃ c' n, printf (lit_at 1 "ok %d") 1 [7] (sample_console [32; 0; 32; 32; 32] true) = Ret n c' ∧
    n = 4 ∧ sent (uart_of (log (ports (ser c')))) = [111; 107; 32; 55].
Proof.
  destruct (printf_console (lit_at 1 "ok %d") 1 (lit "ok %d") [7]
    (sample_console [32; 0; 32; 32; 32] true) [] sample_roll) as (t & Ht & H).
  - concrete_cstring.
  - change (lit "ok %d") with ([111; 107; 32] ++ 37 :: [] ++ [] ++ [] ++ [] ++ [100]).
    do 3 (apply printable_char; [done|]).
    apply (printable_conv _ [] [] [] [] INT 100 [] [] [7] []);
      [by apply Forall_nil|right; by apply Forall_nil|done|by left
      |by apply (bool_decide_unpack _)..|done|done|done|by constructor].
  - split; [|unfold on_screen, sample_roll; cbn [rx]; lia].
    eexists. split; [split; [by split|apply sample_shows|reflexivity]|].
    split; [|done]. by exists [], []; split.
  - done.
  - done.
  - assert (printf_text (lit_at 1 "ok %d") 1 [7] = Some [111; 107; 32; 55]) as E by (vm_compute; reflexivity).
    rewrite E in Ht. apply (inj Some) in Ht. subst t.
    destruct H as [_ H]; [by apply (bool_decide_unpack _)|].
    destruct (printf (lit_at 1 "ok %d") 1 [7] (sample_console [32; 0; 32; 32; 32] true)) as [n c'| |] eqn:Ep;
      [|vm_compute in Ep; discriminate Ep|vm_compute in Ep; discriminate Ep].
    destruct (H n c' eq_refl) as [-> [(v & [V _ _] & (i & g & G) & _) _]].
    exists c', 4. split; [reflexivity|]. split; [reflexivity|].
    destruct V as [_ _ _ ->]. pose proof (g_sent _ _ _ _ G) as Hs. simpl in Hs.
    vm_compute in Ep. injection Ep as <-. reflexivity.
Defined.
