(* ===== verification/Ide.v ===== *)
(** * IDE disks ([devices/ide.c])

    The driver of the two ATA channels of a PC, each with two disks.  The
    controller is hardware: [Hw] has its ports and its interrupt request, and
    the driver's functions are generic in it.  [Ata] states the part of the ATA
    protocol that the driver relies on; [Model] at the end is a controller of
    which the laws are proved, so that they can be met.

    The theorems: on every controller that keeps the protocol the driver is an
    array of sectors, however long the controller is busy within the driver's
    time limits; on every controller whatsoever the detection of the disks does
    not panic; what the driver makes of the names a disk reports. *)

From Stdlib Require Import String.
From S2P Require Import Prelude Machine FixedPoint Bytes Block CString StdlibC Stdio Io Delay.

Open Scope Z_scope.

(** ** The controller *)

Class Hw (H : Type) := {
  hw_inb : Z → H → Z * H;
  hw_inw : Z → H → Z * H;
  hw_outb : Z → Z → H → H;
  hw_outw : Z → Z → H → H;
  (** Time passes until the channel with this base port requests an interrupt. *)
  hw_wait : Z → H → option H;
}.

(** ** Registers and commands *)

Definition STA_BSY : Z := 128.
Definition STA_DRDY : Z := 64.
Definition STA_DRQ : Z := 8.
Definition CTL_SRST : Z := 4.
Definition DEV_MBS : Z := 160.
Definition DEV_LBA : Z := 64.
Definition DEV_DEV : Z := 16.
Definition CMD_IDENTIFY_DEVICE : Z := 236.
Definition CMD_READ_SECTOR_RETRY : Z := 32.
Definition CMD_WRITE_SECTOR_RETRY : Z := 48.
Definition CHANNEL_CNT : nat := 2.

(** ** State *)

Record ata_disk := mk_ata {
  d_name : list Z;
  dev_no : Z;
  is_ata : bool;
}.
#[export] Instance ata_disk_ctor : Ctor ata_disk := λ d, mk_ata (d_name d) (dev_no d) (is_ata d).

(** [lock] is the thread that holds the lock; [completion_wait] the value of the
    semaphore. *)
Record channel := mk_channel {
  c_name : list Z;
  reg_base : Z;
  irq : Z;
  lock : option Z;
  expecting_interrupt : bool;
  completion_wait : Z;
  devices : list ata_disk;
}.
#[export] Instance channel_ctor : Ctor channel := λ c,
  mk_channel (c_name c) (reg_base c) (irq c) (lock c) (expecting_interrupt c)
    (completion_wait c) (devices c).

Definition reg_data (c : channel) : Z := reg_base c + 0.
Definition reg_error (c : channel) : Z := reg_base c + 1.
Definition reg_nsect (c : channel) : Z := reg_base c + 2.
Definition reg_lbal (c : channel) : Z := reg_base c + 3.
Definition reg_lbam (c : channel) : Z := reg_base c + 4.
Definition reg_lbah (c : channel) : Z := reg_base c + 5.
Definition reg_device (c : channel) : Z := reg_base c + 6.
Definition reg_status (c : channel) : Z := reg_base c + 7.
Definition reg_command (c : channel) : Z := reg_status c.
Definition reg_ctl (c : channel) : Z := reg_base c + 518.
Definition reg_alt_status (c : channel) : Z := reg_ctl c.

(** A disk is named by its channel and its place there. *)
Definition disk_ref : Type := nat * nat.

(** What [block_register] is given. *)
Record registration := mk_registration {
  r_name : list Z;
  r_size : Z;
  r_disk : disk_ref;
}.

(** The driver: the controller, the channels, the running thread, the interrupt
    flag, the delay loop and the waits so far, the console, the vectors that
    have a handler and the disks registered as block devices. *)
Record ide (H : Type) := mk_ide {
  hw : H;
  channels : list channel;
  current : Z;
  intr_level : bool;
  loops : Z;
  waits_done : list wait;
  tty : list Z;
  handlers : list Z;
  registered : list registration;
}.
Arguments mk_ide {H} _ _ _ _ _ _ _ _ _.
Arguments hw {H} _. Arguments channels {H} _. Arguments current {H} _. Arguments intr_level {H} _.
Arguments loops {H} _. Arguments waits_done {H} _. Arguments tty {H} _.
Arguments handlers {H} _. Arguments registered {H} _.
#[export] Instance ide_ctor H : Ctor (ide H) := λ s,
  mk_ide (hw s) (channels s) (current s) (intr_level s) (loops s) (waits_done s) (tty s)
    (handlers s) (registered s).

#[export] Instance ide_intr H : HasIntr (ide H) :=
  {| level_of := intr_level; set_level := λ l s, s <| intr_level := l |> |}.
#[export] Instance ide_clock H : HasClock (ide H) :=
  {| loops_per_tick := loops; waited := λ w s, s <| waits_done := waits_done s ++ [w] |> |}.

(** ** Strings of the identification *)

Fixpoint swap_pairs (s : list Z) : list Z :=
  match s with
  | a :: b :: s => b :: a :: swap_pairs s
  | _ => s
  end.

(** The loop that looks for the last character: the length without the white
    space and null bytes at the end. *)
Fixpoint trim_loop (size : nat) (s : list Z) : nat :=
  match size with
  | O => O
  | S k =>
      match s !! k with
      | Some c => if negb (c =? 0) && negb (isspace c) then S k else trim_loop k s
      | None => S k
      end
  end.

(** In place: [s] has the [SIZE] bytes at [STRING]. *)
Definition descramble_ata_string (s : list Z) : list Z :=
  let s := swap_pairs s in
  <[trim_loop (length s - 1) s := 0]> s.

(** The characters of the string at the start of [s]. *)
Fixpoint chars (s : list Z) : list Z :=
  match s with
  | c :: s => if c =? 0 then [] else c :: chars s
  | [] => []
  end.

(** The bytes of halfwords in memory, and back. *)
Fixpoint bytes_of (ws : list Z) : list Z :=
  match ws with
  | w :: ws => w mod 256 :: w / 256 :: bytes_of ws
  | [] => []
  end.

Fixpoint words_of (bs : list Z) : list Z :=
  match bs with
  | a :: b :: bs => a + 256 * b :: words_of bs
  | _ => []
  end.

(** ** The driver *)

Section Driver.
Context {H : Type} `{Hw H}.
Local Abbreviation D := (M (ide H)).

(** *** Ports *)

Definition inb (port : Z) : D Z := λ s,
  let '(v, h) := hw_inb port (hw s) in Ret (v mod 256) (s <| hw := h |>).
Definition inw (port : Z) : D Z := λ s,
  let '(v, h) := hw_inw port (hw s) in Ret (v mod 65536) (s <| hw := h |>).
Definition outb (port data : Z) : D unit :=
  modify (λ s, s <| hw := hw_outb port (data mod 256) (hw s) |>).
Definition outw (port data : Z) : D unit :=
  modify (λ s, s <| hw := hw_outw port (data mod 65536) (hw s) |>).

Fixpoint insw (port : Z) (cnt : nat) : D (list Z) :=
  match cnt with
  | O => mret []
  | S cnt => v ← inw port; vs ← insw port cnt; mret (v :: vs)
  end.

Fixpoint outsw (port : Z) (data : list Z) : D unit :=
  match data with
  | [] => mret tt
  | v :: data => outw port v;; outsw port data
  end.

(** *** Channels, disks and the console *)

Definition channel_at (c : nat) : D channel := ch ← get (λ s, channels s !! c); lift ch.
Definition set_channel (c : nat) (f : channel → channel) : D unit :=
  modify (λ s, s <| channels := alter f c (channels s) |>).
Definition disk_at (d : disk_ref) : D ata_disk := ch ← channel_at d.1; lift (devices ch !! d.2).
Definition set_is_ata (d : disk_ref) (b : bool) : D unit :=
  set_channel d.1 (λ ch, ch <| devices := alter (λ a, a <| is_ata := b |>) d.2 (devices ch) |>).

Definition say (t : list Z) : D unit := modify (λ s, s <| tty := tty s ++ t |>).

(** *** Low-level ATA primitives *)

(** [n] rounds of the loop are left. *)
Fixpoint idle_loop (n : nat) (d : disk_ref) : D bool :=
  match n with
  | O => mret false
  | S n =>
      ch ← channel_at d.1;
      status ← inb (reg_status ch);
      if Z.land status (Z.lor STA_BSY STA_DRQ) =? 0 then mret true
      else timer_usleep 10;; idle_loop n d
  end.

Definition wait_until_idle (d : disk_ref) : D unit :=
  idle ← idle_loop 1000 d;
  if (idle : bool) then mret tt
  else a ← disk_at d; say (d_name a ++ lit ": idle timeout" ++ lit newline).

Fixpoint busy_loop (n : nat) (i : Z) (d : disk_ref) : D (option bool) :=
  match n with
  | O => mret None
  | S n =>
      a ← disk_at d;
      ch ← channel_at d.1;
      when (i =? 700) (say (d_name a ++ lit ": busy, waiting..."));;
      status ← inb (reg_alt_status ch);
      if Z.land status STA_BSY =? 0 then
        when (700 <=? i) (say (lit "ok" ++ lit newline));;
        status ← inb (reg_alt_status ch);
        mret (Some (negb (Z.land status STA_DRQ =? 0)))
      else timer_msleep 10;; busy_loop n (i + 1) d
  end.

Definition wait_while_busy (d : disk_ref) : D bool :=
  r ← busy_loop 3000 0 d;
  match (r : option bool) with
  | Some drq => mret drq
  | None => say (lit "failed" ++ lit newline);; mret false
  end.

Definition select_device (d : disk_ref) : D unit :=
  a ← disk_at d;
  ch ← channel_at d.1;
  let dev := if dev_no a =? 1 then Z.lor DEV_MBS DEV_DEV else DEV_MBS in
  outb (reg_device ch) dev;;
  _ ← inb (reg_alt_status ch);
  timer_nsleep 400.

Definition select_device_wait (d : disk_ref) : D unit :=
  wait_until_idle d;; select_device d;; wait_until_idle d.

Definition select_sector (d : disk_ref) (sec_no : Z) : D unit :=
  a ← disk_at d;
  ch ← channel_at d.1;
  check (sec_no <? 2 ^ 28);;
  select_device_wait d;;
  outb (reg_nsect ch) 1;;
  outb (reg_lbal ch) sec_no;;
  outb (reg_lbam ch) (Z.shiftr sec_no 8);;
  outb (reg_lbah ch) (Z.shiftr sec_no 16);;
  outb (reg_device ch)
    (Z.lor (Z.lor (Z.lor DEV_MBS DEV_LBA) (if dev_no a =? 1 then DEV_DEV else 0))
       (Z.shiftr sec_no 24)).

Definition issue_pio_command (c : nat) (command : Z) : D unit :=
  ch ← channel_at c;
  assert_intr_on;;
  set_channel c (λ ch, ch <| expecting_interrupt := true |>);;
  outb (reg_command ch) command.

Definition input_sector (c : nat) : D (list Z) :=
  ch ← channel_at c;
  ws ← insw (reg_data ch) (Z.to_nat (BLOCK_SECTOR_SIZE / 2));
  mret (bytes_of ws).

Definition output_sector (c : nat) (sector : list Z) : D unit :=
  ch ← channel_at c;
  outsw (reg_data ch) (words_of sector).

(** *** Interrupts *)

Definition interrupt_on (c : nat) : D unit :=
  ch ← channel_at c;
  if expecting_interrupt ch then
    _ ← inb (reg_status ch);
    set_channel c (λ ch, ch <| completion_wait := completion_wait ch + 1 |>)
  else say (c_name ch ++ lit ": unexpected interrupt" ++ lit newline).

Fixpoint handler_loop (n c : nat) (vec_no : Z) : D unit :=
  match n with
  | O => check false
  | S n =>
      ch ← channel_at c;
      if vec_no =? irq ch then interrupt_on c else handler_loop n (S c) vec_no
  end.

Definition interrupt_handler (vec_no : Z) : D unit := handler_loop CHANNEL_CNT 0 vec_no.

(** [sema_down] on the semaphore of a channel: when its value is 0 the thread
    sleeps and the next thing that happens on the channel is its interrupt.  (An
    interrupt that comes between the command and [sema_down] does the same: the
    driver touches no port in between.) *)
Definition channel_sema_down (c : nat) : D unit :=
  ch ← channel_at c;
  when (completion_wait ch =? 0)
    (h ← get (λ s, hw_wait (reg_base ch) (hw s));
     match (h : option H) with
     | None => waits
     | Some h => modify (λ s, s <| hw := h |>);; interrupt_handler (irq ch)
     end);;
  ch ← channel_at c;
  if completion_wait ch =? 0 then waits
  else set_channel c (λ ch, ch <| completion_wait := completion_wait ch - 1 |>).

(** The lock of a channel: another thread that holds it is waited for. *)
Definition channel_lock_acquire (c : nat) : D unit :=
  ch ← channel_at c;
  me ← get current;
  match lock ch with
  | None => set_channel c (λ ch, ch <| lock := Some me |>)
  | Some t => check (negb (t =? me));; waits
  end.

Definition channel_lock_release (c : nat) : D unit :=
  ch ← channel_at c;
  me ← get current;
  check (bool_decide (lock ch = Some me));;
  set_channel c (λ ch, ch <| lock := None |>).

(** *** Reading and writing *)

Definition ide_read (d : disk_ref) (sec_no : Z) : D (list Z) :=
  channel_lock_acquire d.1;;
  select_sector d sec_no;;
  issue_pio_command d.1 CMD_READ_SECTOR_RETRY;;
  channel_sema_down d.1;;
  ready ← wait_while_busy d;
  check ready;;
  buffer ← input_sector d.1;
  channel_lock_release d.1;;
  mret buffer.

Definition ide_write (d : disk_ref) (sec_no : Z) (buffer : list Z) : D unit :=
  channel_lock_acquire d.1;;
  select_sector d sec_no;;
  issue_pio_command d.1 CMD_WRITE_SECTOR_RETRY;;
  ready ← wait_while_busy d;
  check ready;;
  output_sector d.1 buffer;;
  channel_sema_down d.1;;
  channel_lock_release d.1.

(** *** Detection and identification *)

(** Whether a device answers on the registers of its channel. *)
Definition detect (d : disk_ref) : D bool :=
  ch ← channel_at d.1;
  select_device d;;
  outb (reg_nsect ch) 85;; outb (reg_lbal ch) 170;;
  outb (reg_nsect ch) 170;; outb (reg_lbal ch) 85;;
  outb (reg_nsect ch) 85;; outb (reg_lbal ch) 170;;
  nsect ← inb (reg_nsect ch);
  if nsect =? 85 then lbal ← inb (reg_lbal ch); mret (lbal =? 170) else mret false.

(** The wait for device 1 to answer after the reset. *)
Fixpoint slave_loop (n : nat) (c : nat) : D unit :=
  match n with
  | O => mret tt
  | S n =>
      ch ← channel_at c;
      nsect ← inb (reg_nsect ch);
      up ← (if nsect =? 1 then lbal ← inb (reg_lbal ch); mret (lbal =? 1) else mret false);
      if (up : bool) then mret tt else timer_msleep 10;; slave_loop n c
  end.

Definition reset_channel (c : nat) : D unit :=
  present0 ← detect (c, 0%nat);
  present1 ← detect (c, 1%nat);
  ch ← channel_at c;
  outb (reg_ctl ch) 0;;
  timer_usleep 10;;
  outb (reg_ctl ch) CTL_SRST;;
  timer_usleep 10;;
  outb (reg_ctl ch) 0;;
  timer_msleep 150;;
  when present0 (select_device (c, 0%nat);; wait_while_busy (c, 0%nat);; mret tt);;
  when present1
    (select_device (c, 1%nat);; slave_loop 3000 c;; wait_while_busy (c, 1%nat);; mret tt).

Definition check_device_type (d : disk_ref) : D bool :=
  ch ← channel_at d.1;
  a ← disk_at d;
  select_device d;;
  error ← inb (reg_error ch);
  lbam ← inb (reg_lbam ch);
  lbah ← inb (reg_lbah ch);
  status ← inb (reg_status ch);
  if (negb (error =? 1) && (negb (error =? 129) || (dev_no a =? 1)))
     || (Z.land status STA_DRDY =? 0)
     || negb (Z.land status STA_BSY =? 0)
  then set_is_ata d false;; mret (negb (error =? 129))
  else
    set_is_ata d (((lbam =? 0) && (lbah =? 0)) || ((lbam =? 60) && (lbah =? 195)));;
    mret true.

(** [block_register] of [devices/block.c]: what it prints, and the device. *)
Definition block_register (name extra_info : list Z) (size : Z) (d : disk_ref) : D unit :=
  modify (λ s, s <| registered := registered s ++ [mk_registration name size d] |>);;
  sectors ← lift (format_integer size false false base_d (mk_conversion GROUP 0 (-1) INT));
  say (name ++ lit ": " ++ sectors ++ lit " sectors (");;
  human ← lift (print_human_readable_size (size * BLOCK_SECTOR_SIZE));
  say human;;
  say (lit ")");;
  say (lit ", " ++ extra_info);;
  say (lit newline).

Definition quoted (s : list Z) : list Z := [34] ++ s ++ [34].

(** The description of a disk from its identification. *)
Definition extra_info (id : list Z) : list Z :=
  let model := chars (descramble_ata_string (slice 20 20 id)) in
  let serial := chars (descramble_ata_string (slice 54 40 id)) in
  lit "model " ++ quoted model ++ lit ", serial " ++ quoted serial.

(** Up to the scan of the new disk for partitions. *)
Definition identify_ata_device (d : disk_ref) : D unit :=
  a ← disk_at d;
  check (is_ata a);;
  select_device_wait d;;
  issue_pio_command d.1 CMD_IDENTIFY_DEVICE;;
  channel_sema_down d.1;;
  ready ← wait_while_busy d;
  if negb ready then set_is_ata d false
  else
    id ← input_sector d.1;
    let capacity := Bytes.le (slice 120 4 id) in
    if 1024 * 1024 * 1024 / BLOCK_SECTOR_SIZE <=? capacity then
      say (d_name a ++ lit ": ignoring ");;
      human ← lift (print_human_readable_size (u32 (capacity * 512)));
      say human;;
      say (lit "disk for safety" ++ lit newline);;
      set_is_ata d false
    else block_register (d_name a) (extra_info id) capacity d.

(** [intr_register_ext]: one handler for a vector. *)
Definition intr_register_ext (vec_no : Z) : D unit :=
  used ← get (λ s, bool_decide (vec_no ∈ handlers s));
  check (negb used && (32 <=? vec_no) && (vec_no <=? 47));;
  modify (λ s, s <| handlers := handlers s ++ [vec_no] |>).

Definition fresh_disk (c i : nat) : ata_disk :=
  mk_ata (lit "hd" ++ [97 + Z.of_nat c * 2 + Z.of_nat i]) (Z.of_nat i) false.

Definition fresh_channel (c : nat) : channel :=
  mk_channel (lit "ide" ++ [48 + Z.of_nat c])
    (match c with O => 496 | _ => 368 end) (match c with O => 14 + 32 | _ => 15 + 32 end)
    None false 0 [fresh_disk c 0; fresh_disk c 1].

Definition identify_if_ata (d : disk_ref) : D unit :=
  a ← disk_at d; when (is_ata a) (identify_ata_device d).

Definition init_channel (c : nat) : D unit :=
  set_channel c (λ _, fresh_channel c);;
  ch ← channel_at c;
  intr_register_ext (irq ch);;
  reset_channel c;;
  slave ← check_device_type (c, 0%nat);
  when slave (check_device_type (c, 1%nat);; mret tt);;
  identify_if_ata (c, 0%nat);;
  identify_if_ata (c, 1%nat).

Definition ide_init : D unit := init_channel 0;; init_channel 1.
End Driver.

(** ** The protocol

    What the driver may assume of a controller, from the ATA standard, in terms
    of the state of each channel: the contents of its drives, the selected drive,
    the registers that address a sector, the number of times that a poll of the
    status still finds the channel busy, what the channel does when it is not
    busy, and whether it requests an interrupt (or will, when it is no longer
    busy). *)

Inductive phase :=
  | Idle
  | DataIn (words : list Z)
  | DataOut (lba : nat) (words : list Z).

Record ata := mk_state {
  drives : list (option (list (list Z)));
  sel : nat;
  a_nsect : Z;
  a_lbal : Z;
  a_lbam : Z;
  a_lbah : Z;
  a_dev : Z;
  busy : nat;
  ph : phase;
  pending : bool;
}.
#[export] Instance ata_ctor : Ctor ata := λ a,
  mk_state (drives a) (sel a) (a_nsect a) (a_lbal a) (a_lbam a) (a_lbah a) (a_dev a)
    (busy a) (ph a) (pending a).

(** The sector that the registers address, and its contents. *)
Definition lba (a : ata) : Z := a_lbal a + 2 ^ 8 * a_lbam a + 2 ^ 16 * a_lbah a + 2 ^ 24 * (a_dev a mod 16).
Definition target (a : ata) : option (list Z) :=
  secs ← mjoin (drives a !! sel a); secs !! Z.to_nat (lba a).

(** The drives after a sector has been written. *)
Definition store (a : ata) (n : nat) (ws : list Z) : list (option (list (list Z))) :=
  alter (fmap <[n := bytes_of ws]>) (sel a) (drives a).

Definition data_request (a : ata) : bool := match ph a with Idle => false | _ => true end.

Definition poll (a : ata) : ata := a <| busy := Nat.pred (busy a) |>.
(** A read of the status register, unlike one of the alternate status register,
    takes the interrupt request away. *)
Definition acknowledge (a : ata) : ata :=
  match busy a with O => a <| pending := false |> | S n => a <| busy := n |> end.

Definition status_of (a : ata) (v : Z) : Prop :=
  Z.testbit v 7 = negb (busy a =? 0)%nat ∧ (busy a = 0%nat → Z.testbit v 3 = data_request a).

Definition base (c : nat) : Z := match c with O => 496 | _ => 368 end.

(** The channel takes commands: single sectors, addressed by number. *)
Definition addressed (a : ata) : Prop :=
  busy a = 0%nat ∧ ph a = Idle ∧ a_nsect a = 1 ∧ Z.testbit (a_dev a) 6 = true.

Class Ata (H : Type) `{Hw H} := {
  ata_of : nat → H → ata;
  (** The ports of a channel are its own. *)
  ata_inb_other c c' k h : (c < 2)%nat → (c' < 2)%nat → c ≠ c' → 0 ≤ k ≤ 7 ∨ k = 518 →
    ata_of c' (hw_inb (base c + k) h).2 = ata_of c' h;
  ata_inw_other c c' h : (c < 2)%nat → (c' < 2)%nat → c ≠ c' →
    ata_of c' (hw_inw (base c) h).2 = ata_of c' h;
  ata_outb_other c c' k v h : (c < 2)%nat → (c' < 2)%nat → c ≠ c' → 0 ≤ k ≤ 7 →
    ata_of c' (hw_outb (base c + k) v h) = ata_of c' h;
  ata_outw_other c c' v h : (c < 2)%nat → (c' < 2)%nat → c ≠ c' →
    ata_of c' (hw_outw (base c) v h) = ata_of c' h;
  ata_wait_other c c' h h' : (c < 2)%nat → (c' < 2)%nat → c ≠ c' → hw_wait (base c) h = Some h' →
    ata_of c' h' = ata_of c' h;
  (** The two status registers. *)
  ata_status c h : (c < 2)%nat →
    status_of (ata_of c h) (hw_inb (base c + 7) h).1 ∧
    ata_of c (hw_inb (base c + 7) h).2 = acknowledge (ata_of c h);
  ata_alt_status c h : (c < 2)%nat →
    status_of (ata_of c h) (hw_inb (base c + 518) h).1 ∧
    ata_of c (hw_inb (base c + 518) h).2 = poll (ata_of c h);
  (** The registers that address a sector; to select the other drive may take
      some time. *)
  ata_nsect c h v : (c < 2)%nat → busy (ata_of c h) = 0%nat → ph (ata_of c h) = Idle →
    ata_of c (hw_outb (base c + 2) v h) = (ata_of c h) <| a_nsect := v |>;
  ata_lbal c h v : (c < 2)%nat → busy (ata_of c h) = 0%nat → ph (ata_of c h) = Idle →
    ata_of c (hw_outb (base c + 3) v h) = (ata_of c h) <| a_lbal := v |>;
  ata_lbam c h v : (c < 2)%nat → busy (ata_of c h) = 0%nat → ph (ata_of c h) = Idle →
    ata_of c (hw_outb (base c + 4) v h) = (ata_of c h) <| a_lbam := v |>;
  ata_lbah c h v : (c < 2)%nat → busy (ata_of c h) = 0%nat → ph (ata_of c h) = Idle →
    ata_of c (hw_outb (base c + 5) v h) = (ata_of c h) <| a_lbah := v |>;
  ata_device c h v : (c < 2)%nat → busy (ata_of c h) = 0%nat → ph (ata_of c h) = Idle →
    ∃ n, (n < 1000)%nat ∧
      (sel (ata_of c h) = (if Z.testbit v 4 then 1 else 0)%nat → n = 0%nat) ∧
      ata_of c (hw_outb (base c + 6) v h)
      = (ata_of c h) <| a_dev := v |> <| sel := if Z.testbit v 4 then 1%nat else 0%nat |> <| busy := n |>;
  (** The commands; a sector that does not exist ends them at once. *)
  ata_read c h : (c < 2)%nat → addressed (ata_of c h) →
    ∃ n, (n < 3000)%nat ∧ ata_of c (hw_outb (base c + 7) CMD_READ_SECTOR_RETRY h)
      = (ata_of c h) <| busy := n |> <| pending := true |>
          <| ph := match target (ata_of c h) with Some b => DataIn (words_of b) | None => Idle end |>;
  ata_write c h : (c < 2)%nat → addressed (ata_of c h) →
    ∃ n, (n < 3000)%nat ∧ ata_of c (hw_outb (base c + 7) CMD_WRITE_SECTOR_RETRY h)
      = match target (ata_of c h) with
        | Some b => (ata_of c h) <| busy := n |> <| ph := DataOut (Z.to_nat (lba (ata_of c h))) [] |>
        | None => (ata_of c h) <| busy := n |> <| pending := true |>
        end;
  (** The data register. *)
  ata_data_in c h w ws : (c < 2)%nat → busy (ata_of c h) = 0%nat → ph (ata_of c h) = DataIn (w :: ws) →
    (hw_inw (base c) h).1 = w ∧
    ata_of c (hw_inw (base c) h).2
    = (ata_of c h) <| ph := match ws with [] => Idle | _ => DataIn ws end |>;
  ata_data_out c h n w ws : (c < 2)%nat → busy (ata_of c h) = 0%nat → ph (ata_of c h) = DataOut n ws →
    ∃ k, (k < 1000)%nat ∧ ata_of c (hw_outw (base c) w h)
      = if (length ws <? 255)%nat then (ata_of c h) <| ph := DataOut n (ws ++ [w]) |>
        else (ata_of c h) <| ph := Idle |> <| drives := store (ata_of c h) n (ws ++ [w]) |>
               <| busy := k |> <| pending := true |>;
  (** A request for an interrupt comes when the channel is no longer busy. *)
  ata_interrupt c h : (c < 2)%nat → pending (ata_of c h) = true →
    ∃ h', hw_wait (base c) h = Some h' ∧ ata_of c h' = (ata_of c h) <| busy := 0%nat |>;
}.

(** ** The driver on a controller that keeps the protocol *)

Section Correct.
Context {H : Type} `{Ata H}.
Local Abbreviation D := (M (ide H)).
Implicit Types s : ide H.

(** What port accesses and waits leave alone. *)
Definition core s : list channel * Z * bool * Z * list Z * list registration :=
  (channels s, current s, intr_level s, loops s, handlers s, registered s).

(** [s'] is [s] after some work on channel [c], which is now in the state [a]. *)
Record moved (c : nat) (a : ata) s s' : Prop := {
  moved_ata : ata_of c (hw s') = a;
  moved_core : core s' = core s;
  moved_other c' : (c' < 2)%nat → c ≠ c' → ata_of c' (hw s') = ata_of c' (hw s);
}.

Lemma moved_refl c s : moved c (ata_of c (hw s)) s s.
Proof. by split. Qed.

Lemma moved_trans c a1 a2 s1 s2 s3 : moved c a1 s1 s2 → moved c a2 s2 s3 → moved c a2 s1 s3.
Proof.
  intros [? C1 O1] [? C2 O2]. split; [done|by rewrite C2|]. intros c' Hc' Hne.
  by rewrite O2, O1.
Qed.

Lemma moved_quiet c s s' : hw s' = hw s → core s' = core s → moved c (ata_of c (hw s)) s s'.
Proof. intros E C. split; [by rewrite E|done|]. intros. by rewrite E. Qed.

(** *** Single steps *)

Lemma channel_at_run c ch s : channels s !! c = Some ch → channel_at c s = Ret ch s.
Proof. unfold channel_at, mbind, M_bind, get, lift. by intros ->. Qed.

Lemma twp_channel_at c ch s (Q : channel → ide H → Prop) :
  channels s !! c = Some ch → Q ch s → twp (channel_at c) Q s.
Proof. intros E HQ. eapply twp_intro; [by apply channel_at_run|done]. Qed.

Lemma disk_at_run d ch a s : channels s !! d.1 = Some ch → devices ch !! d.2 = Some a →
  disk_at d s = Ret a s.
Proof.
  intros E1 E2. unfold disk_at. rewrite (bind_Ret _ _ _ _ _ (channel_at_run _ _ _ E1)).
  unfold lift. by rewrite E2.
Qed.

Lemma twp_disk_at d ch a s (Q : ata_disk → ide H → Prop) :
  channels s !! d.1 = Some ch → devices ch !! d.2 = Some a → Q a s → twp (disk_at d) Q s.
Proof.
  intros E1 E2 HQ. eapply twp_intro; [by apply (disk_at_run d ch)|done].
Qed.

Lemma status_of_mod a v : status_of a v → status_of a (v mod 256).
Proof.
  unfold status_of. change 256 with (2 ^ 8). intros [H7 H3].
  by rewrite !Z.mod_pow2_bits_low by lia.
Qed.

Lemma twp_alt_status c s : (c < 2)%nat →
  twp (inb (base c + 518))
    (λ v s', status_of (ata_of c (hw s)) v ∧ moved c (poll (ata_of c (hw s))) s s') s.
Proof.
  intros Hc. unfold twp, inb. destruct (ata_alt_status c (hw s) Hc) as [Hv Ha].
  pose proof (λ c', ata_inb_other c c' 518 (hw s) Hc) as Ho.
  destruct (hw_inb (base c + 518) (hw s)) as [v h]. split; [by apply status_of_mod|].
  split; simpl in *; [done|done|]. intros. apply Ho; auto.
Qed.

Lemma twp_status c s : (c < 2)%nat →
  twp (inb (base c + 7))
    (λ v s', status_of (ata_of c (hw s)) v ∧ moved c (acknowledge (ata_of c (hw s))) s s') s.
Proof.
  intros Hc. unfold twp, inb. destruct (ata_status c (hw s) Hc) as [Hv Ha].
  pose proof (λ c', ata_inb_other c c' 7 (hw s) Hc) as Ho.
  destruct (hw_inb (base c + 7) (hw s)) as [v h]. split; [by apply status_of_mod|].
  split; simpl in *; [done|done|]. intros. apply Ho; auto with lia.
Qed.

Lemma twp_outb c k v a s : (c < 2)%nat → 0 ≤ k ≤ 7 →
  ata_of c (hw_outb (base c + k) (v mod 256) (hw s)) = a →
  twp (outb (base c + k) v) (λ _ s', moved c a s s') s.
Proof.
  intros Hc Hk Ha. unfold twp, outb, modify. split; simpl; [done|done|].
  intros. by apply ata_outb_other.
Qed.

Lemma twp_sleep c (num d : Z) s : intr_level s = true → 0 ≤ num < 2 ^ 32 → 1 ≤ d →
  0 ≤ loops s < 2 ^ 31 →
  twp (real_time_sleep num (1000 * d)) (λ _ s', moved c (ata_of c (hw s)) s s') s.
Proof.
  intros Hl Hn Hd Hs.
  destruct (real_time_sleep_ok s (loops s) num d) as (w & Hw & _); [done|simpl; lia..|done|done|].
  eapply twp_intro; [exact Hw|]. by apply moved_quiet.
Qed.

Lemma twp_say c t s : twp (say t) (λ _ s', moved c (ata_of c (hw s)) s s') s.
Proof. unfold twp, say, modify. by apply moved_quiet. Qed.

(** *** The status bits *)

Lemma land_bit v k : 0 ≤ k → (Z.land v (2 ^ k) =? 0) = negb (Z.testbit v k).
Proof.
  intros Hk. rewrite Z.land_comm. destruct (Z.testbit v k) eqn:E; cbn [negb].
  - apply Z.eqb_neq. intros E'. assert (Z.testbit (Z.land (2 ^ k) v) k = false) as E2 by (by rewrite E', Z.bits_0).
    by rewrite Z.land_spec, Z.pow2_bits_true, E in E2 by done.
  - apply Z.eqb_eq. apply Z.bits_inj'. intros i Hi. rewrite Z.land_spec, Z.bits_0, Z.pow2_bits_eqb by done.
    destruct (Z.eqb_spec k i) as [->|]; [by rewrite E|done].
Qed.

Lemma land_idle v : (Z.land v (Z.lor STA_BSY STA_DRQ) =? 0) = negb (Z.testbit v 7) && negb (Z.testbit v 3).
Proof.
  rewrite <- !land_bit by done. rewrite Z.land_lor_distr_r.
  change (2 ^ 7) with STA_BSY. change (2 ^ 3) with STA_DRQ.
  destruct (Z.eqb_spec (Z.land v STA_BSY) 0) as [->|N]; cbn [andb].
  - by rewrite Z.lor_0_l.
  - apply Z.eqb_neq. by intros [? _]%Z.lor_eq_0_iff.
Qed.

(** *** Waiting for the controller *)

(** [d] is the disk [a] on the channel [ch], and the driver can sleep. *)
Record usable (d : disk_ref) (ch : channel) (a : ata_disk) s : Prop := {
  u_chan : (d.1 < 2)%nat;
  u_channel : channels s !! d.1 = Some ch;
  u_base : reg_base ch = base d.1;
  u_disk : devices ch !! d.2 = Some a;
  u_irq c : (c < 2)%nat → ∃ ch', channels s !! c = Some ch' ∧ irq ch' = 46 + Z.of_nat c;
  u_level : intr_level s = true;
  u_loops : 0 ≤ loops s < 2 ^ 31;
}.

Lemma usable_moved d ch a c x s s' : moved c x s s' → usable d ch a s → usable d ch a s'.
Proof.
  intros [_ C _] [? Hc ? ? Hi Hl Hs]. unfold core in C. injection C as C1 _ C3 C4 _ _.
  split; [done|by rewrite C1|done|done|by rewrite C1|by rewrite C3|by rewrite C4].
Qed.

Lemma twp_usleep c us s : intr_level s = true → 0 ≤ loops s < 2 ^ 31 → 0 ≤ us < 2 ^ 32 →
  twp (timer_usleep us) (λ _ s', moved c (ata_of c (hw s)) s s') s.
Proof. intros. by apply (twp_sleep c us 1000). Qed.

Lemma twp_msleep c ms s : intr_level s = true → 0 ≤ loops s < 2 ^ 31 → 0 ≤ ms < 2 ^ 32 →
  twp (timer_msleep ms) (λ _ s', moved c (ata_of c (hw s)) s s') s.
Proof. intros. by apply (twp_sleep c ms 1). Qed.

Lemma twp_nsleep c ns s : intr_level s = true → 0 ≤ loops s < 2 ^ 31 → 0 ≤ ns < 2 ^ 32 →
  twp (timer_nsleep ns) (λ _ s', moved c (ata_of c (hw s)) s s') s.
Proof. intros. by apply (twp_sleep c ns 1000000). Qed.

Lemma twp_idle_loop d ch ad : ∀ n s, usable d ch ad s → ph (ata_of d.1 (hw s)) = Idle →
  (busy (ata_of d.1 (hw s)) < n)%nat →
  twp (idle_loop n d)
    (λ r s', r = true ∧ moved d.1 ((ata_of d.1 (hw s)) <| busy := 0%nat |> <| pending := false |>) s s') s.
Proof.
  induction n as [|n IH]; intros s U Hp Hb; [lia|]. cbn [idle_loop].
  apply twp_bind, (twp_channel_at _ ch); [apply U|].
  unfold reg_status. rewrite (u_base _ _ _ _ U). eapply twp_seq; [apply twp_status, U|].
  intros v s1 [[H7 H3] M1]. pose proof (usable_moved _ _ _ _ _ _ _ M1 U) as U1. rewrite land_idle, H7.
  set (a := ata_of d.1 (hw s)) in *. unfold acknowledge in M1.
  destruct (busy a) as [|k] eqn:B; cbn [negb Nat.eqb andb].
  - rewrite H3 by done. unfold data_request. rewrite Hp. split; [done|].
    destruct a as []; simpl in *; subst. exact M1.
  - eapply twp_seq; [apply (twp_usleep d.1); [apply U1..|lia]|].
    intros [] s2 M2. rewrite (moved_ata _ _ _ _ M1) in M2.
    pose proof (moved_trans _ _ _ _ _ _ M1 M2) as M12.
    eapply twp_mono; [apply (IH s2)|].
    + by apply (usable_moved _ _ _ _ _ _ _ M12 U).
    + by rewrite (moved_ata _ _ _ _ M12).
    + rewrite (moved_ata _ _ _ _ M12). simpl. lia.
    + intros r s3 [-> M3]. split; [done|]. rewrite (moved_ata _ _ _ _ M12) in M3.
      eapply moved_trans; [exact M12|exact M3].
Qed.

Lemma twp_wait_until_idle d ch ad s : usable d ch ad s → ph (ata_of d.1 (hw s)) = Idle →
  (busy (ata_of d.1 (hw s)) < 1000)%nat →
  twp (wait_until_idle d)
    (λ _ s', moved d.1 ((ata_of d.1 (hw s)) <| busy := 0%nat |> <| pending := false |>) s s') s.
Proof.
  intros U Hp Hb. unfold wait_until_idle. eapply twp_seq; [by apply (twp_idle_loop d ch ad)|].
  intros r s' [-> M]. exact M.
Qed.

Lemma twp_when_say c b t s : twp (when b (say t)) (λ _ s', moved c (ata_of c (hw s)) s s') s.
Proof. destruct b; [apply twp_say|apply moved_refl]. Qed.

Lemma twp_busy_loop d ch ad : ∀ n i s, usable d ch ad s → (busy (ata_of d.1 (hw s)) < n)%nat →
  twp (busy_loop n i d)
    (λ r s', r = Some (data_request (ata_of d.1 (hw s))) ∧
       moved d.1 ((ata_of d.1 (hw s)) <| busy := 0%nat |>) s s') s.
Proof.
  induction n as [|n IH]; intros i s U Hb; [lia|]. cbn [busy_loop].
  apply twp_bind, (twp_disk_at d ch ad); [apply U..|]. apply twp_bind, (twp_channel_at _ ch); [apply U|].
  eapply twp_seq; [apply (twp_when_say d.1)|]. intros [] s0 M0.
  pose proof (usable_moved _ _ _ _ _ _ _ M0 U) as U0. rewrite <- (moved_ata _ _ _ _ M0) in *.
  unfold reg_alt_status, reg_ctl. rewrite (u_base _ _ _ _ U).
  eapply twp_seq; [apply twp_alt_status, U0|]. intros v s1 [[H7 _] M1].
  pose proof (usable_moved _ _ _ _ _ _ _ M1 U0) as U1.
  change STA_BSY with (2 ^ 7). rewrite land_bit, H7 by done.
  set (a := ata_of d.1 (hw s0)) in *. unfold poll in M1.
  destruct (busy a) as [|k] eqn:B; cbn [negb Nat.eqb Nat.pred] in *.
  - assert (a = a <| busy := 0%nat |>) as Ea by (destruct a; simpl in *; by subst).
    rewrite <- Ea in *. eapply twp_seq; [apply (twp_when_say d.1)|]. intros [] s2 M2.
    rewrite (moved_ata _ _ _ _ M1) in M2.
    eapply twp_seq; [apply twp_alt_status, U0|]. intros v' s3 [[_ H3] M3].
    rewrite (moved_ata _ _ _ _ M2) in H3, M3. unfold poll in M3. rewrite B in M3, H3. cbn [Nat.pred] in M3.
    rewrite <- Ea in M3. change STA_DRQ with (2 ^ 3). rewrite land_bit, negb_involutive, H3 by done.
    split; [done|]. eauto using moved_trans.
  - eapply twp_seq; [apply (twp_msleep d.1); [apply U1..|lia]|]. intros [] s2 M2.
    rewrite (moved_ata _ _ _ _ M1) in M2. pose proof (usable_moved _ _ _ _ _ _ _ M2 U1) as U2.
    eapply twp_mono; [apply (IH (i + 1) s2 U2)|].
    + rewrite (moved_ata _ _ _ _ M2). simpl. lia.
    + intros r s3 [-> M3]. rewrite (moved_ata _ _ _ _ M2) in M3 |- *. split; [done|].
      eauto using moved_trans.
Qed.

Lemma twp_wait_while_busy d ch ad s : usable d ch ad s → (busy (ata_of d.1 (hw s)) < 3000)%nat →
  twp (wait_while_busy d)
    (λ r s', r = data_request (ata_of d.1 (hw s)) ∧
       moved d.1 ((ata_of d.1 (hw s)) <| busy := 0%nat |>) s s') s.
Proof.
  intros U Hb. unfold wait_while_busy. eapply twp_seq; [by apply (twp_busy_loop d ch ad)|].
  by intros r s' [-> M].
Qed.

(** *** Selecting a disk and a sector *)

Definition slave (ad : ata_disk) : nat := if dev_no ad =? 1 then 1%nat else 0%nat.

Lemma twp_select_device d ch ad s : usable d ch ad s → ph (ata_of d.1 (hw s)) = Idle →
  busy (ata_of d.1 (hw s)) = 0%nat →
  twp (select_device d)
    (λ _ s', ∃ v n, (n < 1000)%nat ∧
       moved d.1 ((ata_of d.1 (hw s)) <| a_dev := v |> <| sel := slave ad |> <| busy := n |>) s s') s.
Proof.
  intros U Hp Hb. unfold select_device. apply twp_bind, (twp_disk_at d ch ad); [apply U..|].
  apply twp_bind, (twp_channel_at _ ch); [apply U|].
  set (v := if dev_no ad =? 1 then Z.lor DEV_MBS DEV_DEV else DEV_MBS). unfold reg_device, reg_alt_status, reg_ctl. rewrite (u_base _ _ _ _ U).
  destruct (ata_device d.1 (hw s) (v mod 256)) as (n & Hn & _ & Ha); [apply U|done|done|].
  replace (if Z.testbit (v mod 256) 4 then 1%nat else 0%nat) with (slave ad) in Ha
    by (unfold v, slave; by destruct (dev_no ad =? 1)).
  eapply twp_seq; [apply (twp_outb d.1 6 v _ s (u_chan _ _ _ _ U) ltac:(lia) Ha)|]. intros [] s1 M1.
  eapply twp_seq; [apply twp_alt_status, U|]. intros w s2 [_ M2]. rewrite (moved_ata _ _ _ _ M1) in M2.
  pose proof (moved_trans _ _ _ _ _ _ M1 M2) as M12. pose proof (usable_moved _ _ _ _ _ _ _ M12 U) as U2.
  eapply twp_mono; [apply (twp_nsleep d.1); [apply U2..|lia]|]. intros [] s3 M3.
  rewrite (moved_ata _ _ _ _ M12) in M3. exists (v mod 256), (Nat.pred n). split; [lia|].
  exact (moved_trans _ _ _ _ _ _ M12 M3).
Qed.

Lemma twp_select_device_wait d ch ad s : usable d ch ad s → ph (ata_of d.1 (hw s)) = Idle →
  (busy (ata_of d.1 (hw s)) < 1000)%nat →
  twp (select_device_wait d)
    (λ _ s', ∃ v, moved d.1 ((ata_of d.1 (hw s)) <| a_dev := v |> <| sel := slave ad |>
       <| busy := 0%nat |> <| pending := false |>) s s') s.
Proof.
  intros U Hp Hb. unfold select_device_wait.
  eapply twp_seq; [by apply (twp_wait_until_idle d ch ad)|]. intros [] s1 M1.
  pose proof (usable_moved _ _ _ _ _ _ _ M1 U) as U1.
  eapply twp_seq; [apply (twp_select_device d ch ad s1 U1); by rewrite (moved_ata _ _ _ _ M1)|].
  intros [] s2 (v & n & Hn & M2). pose proof (usable_moved _ _ _ _ _ _ _ M2 U1) as U2.
  rewrite (moved_ata _ _ _ _ M1) in M2.
  eapply twp_mono; [apply (twp_wait_until_idle d ch ad s2 U2); by rewrite (moved_ata _ _ _ _ M2)|].
  intros [] s3 M3. rewrite (moved_ata _ _ _ _ M2) in M3. exists v.
  exact (moved_trans _ _ _ _ _ _ (moved_trans _ _ _ _ _ _ M1 M2) M3).
Qed.

(** The device register of [select_sector]. *)
Definition device_byte (ad : ata_disk) (sec_no : Z) : Z :=
  Z.lor (Z.lor (Z.lor DEV_MBS DEV_LBA) (if dev_no ad =? 1 then DEV_DEV else 0)) (Z.shiftr sec_no 24).

Lemma device_byte_ok ad sec_no : 0 ≤ sec_no < 2 ^ 28 →
  device_byte ad sec_no mod 256 = device_byte ad sec_no ∧
  (if Z.testbit (device_byte ad sec_no) 4 then 1%nat else 0%nat) = slave ad ∧
  Z.testbit (device_byte ad sec_no) 6 = true ∧ device_byte ad sec_no mod 16 = sec_no / 2 ^ 24.
Proof.
  intros Hs. unfold device_byte, slave. rewrite Z.shiftr_div_pow2 by lia.
  assert (0 ≤ sec_no / 2 ^ 24 < 16) as Hk by (split; [apply Z.div_pos|apply Z.div_lt_upper_bound]; lia).
  generalize dependent (sec_no / 2 ^ 24). intros k Hk.
  assert (forallb (λ k, forallb (λ b : bool,
    let v := Z.lor (Z.lor (Z.lor DEV_MBS DEV_LBA) (if b then DEV_DEV else 0)) k in
    (v mod 256 =? v) && eqb (Z.testbit v 4) b && Z.testbit v 6 && (v mod 16 =? k)) [true; false])
    (seqZ 0 16) = true) as F by (vm_compute; reflexivity).
  rewrite forallb_forall in F. specialize (F k).
  rewrite <- list_elem_of_In, elem_of_seqZ in F. specialize (F ltac:(lia)).
  rewrite forallb_forall in F. specialize (F (dev_no ad =? 1)).
  cbv zeta in F. destruct (dev_no ad =? 1); cbn [In] in F; specialize (F ltac:(auto));
    rewrite !andb_true_iff, !Z.eqb_eq, eqb_true_iff in F; destruct F as [[[F1 F2] F3] F4];
    by rewrite F2.
Qed.

(** The bytes of a sector number are the number. *)
Lemma sector_number sec_no : 0 ≤ sec_no →
  sec_no mod 256 + 2 ^ 8 * (Z.shiftr sec_no 8 mod 256) + 2 ^ 16 * (Z.shiftr sec_no 16 mod 256)
    + 2 ^ 24 * (sec_no / 2 ^ 24) = sec_no.
Proof.
  intros Hs. rewrite !Z.shiftr_div_pow2 by lia.
  change (2 ^ 8) with 256. change (2 ^ 16) with 65536. change (2 ^ 24) with 16777216.
  Z.to_euclidean_division_equations. lia.
Qed.

Lemma twp_select_sector d ch ad sec_no s : usable d ch ad s → ph (ata_of d.1 (hw s)) = Idle →
  (busy (ata_of d.1 (hw s)) < 1000)%nat → 0 ≤ sec_no < 2 ^ 28 →
  twp (select_sector d sec_no)
    (λ _ s', ∃ a, moved d.1 a s s' ∧ addressed a ∧ lba a = sec_no ∧ sel a = slave ad ∧
       drives a = drives (ata_of d.1 (hw s)) ∧ pending a = false) s.
Proof.
  intros U Hp Hb Hs. unfold select_sector. apply twp_bind, (twp_disk_at d ch ad); [apply U..|].
  apply twp_bind, (twp_channel_at _ ch); [apply U|].
  apply twp_bind, twp_check; [apply Z.ltb_lt; lia|].
  eapply twp_seq; [by apply (twp_select_device_wait d ch ad)|]. intros [] s1 (v & M1).
  pose proof (u_chan _ _ _ _ U) as Hc. unfold reg_nsect, reg_lbal, reg_lbam, reg_lbah, reg_device.
  rewrite (u_base _ _ _ _ U).
  eapply twp_seq; [apply twp_outb; [done|lia|by apply ata_nsect; rewrite ?(moved_ata _ _ _ _ M1)]|].
  intros [] s2 M2. rewrite (moved_ata _ _ _ _ M1) in M2.
  eapply twp_seq; [apply twp_outb; [done|lia|by apply ata_lbal; rewrite ?(moved_ata _ _ _ _ M2)]|].
  intros [] s3 M3. rewrite (moved_ata _ _ _ _ M2) in M3.
  eapply twp_seq; [apply twp_outb; [done|lia|by apply ata_lbam; rewrite ?(moved_ata _ _ _ _ M3)]|].
  intros [] s4 M4. rewrite (moved_ata _ _ _ _ M3) in M4.
  eapply twp_seq; [apply twp_outb; [done|lia|by apply ata_lbah; rewrite ?(moved_ata _ _ _ _ M4)]|].
  intros [] s5 M5. rewrite (moved_ata _ _ _ _ M4) in M5.
  fold (device_byte ad sec_no). destruct (device_byte_ok ad sec_no Hs) as (E1 & E2 & E3 & E4).
  destruct (ata_device d.1 (hw s5) (device_byte ad sec_no mod 256)) as (n & _ & Hn & Ha);
    [done|by rewrite (moved_ata _ _ _ _ M5)..|].
  rewrite E1 in Ha, Hn. rewrite E2 in Ha, Hn. rewrite (moved_ata _ _ _ _ M5) in Ha, Hn.
  rewrite (Hn eq_refl) in Ha.
  eapply twp_mono; [apply twp_outb; [done|lia|rewrite E1; exact Ha]|]. intros [] s6 M6.
  eexists. split; [eauto 8 using moved_trans|]. split; [done|].
  split; [|done]. unfold lba. simpl. rewrite E4. apply sector_number; lia.
Qed.

(** *** The interrupt *)

(** The channel after a change that leaves its ports and disks alone. *)
Definition with_chan (c : nat) (f : channel → channel) s : ide H :=
  s <| channels := alter f c (channels s) |>.

Definition mild (f : channel → channel) : Prop :=
  ∀ ch, reg_base (f ch) = reg_base ch ∧ devices (f ch) = devices ch ∧ irq (f ch) = irq ch.

Lemma usable_with d ch ad f s : usable d ch ad s → mild f → usable d (f ch) ad (with_chan d.1 f s).
Proof.
  intros [? E Hr Hd Hi ? ?] Hf. destruct (Hf ch) as (F1 & F2 & F3).
  split; [done|simpl; by rewrite list_lookup_alter_eq, E|by rewrite F1|by rewrite F2| |done|done].
  intros c Hc. destruct (Hi c Hc) as (ch' & E' & I'). simpl. destruct (decide (c = d.1)) as [->|Hne].
  - exists (f ch). rewrite list_lookup_alter_eq, E. split; [done|]. rewrite F3. congruence.
  - exists ch'. by rewrite list_lookup_alter_ne.
Qed.

Lemma handler_finds d ch ad s : usable d ch ad s →
  interrupt_handler (46 + Z.of_nat d.1) s = interrupt_on d.1 s.
Proof.
  intros U. pose proof (u_chan _ _ _ _ U) as Hc.
  destruct (u_irq _ _ _ _ U 0) as (c0 & E0 & I0); [lia|]. destruct (u_irq _ _ _ _ U 1) as (c1 & E1 & I1); [lia|].
  unfold interrupt_handler, CHANNEL_CNT. cbn [handler_loop].
  rewrite (bind_Ret _ _ _ _ _ (channel_at_run 0 c0 s E0)), I0.
  destruct d as [[|[|]] i]; cbn [fst] in *; [done| |lia].
  change (46 + Z.of_nat 1 =? 46 + Z.of_nat 0) with false. cbv iota.
  by rewrite (bind_Ret _ _ _ _ _ (channel_at_run 1 c1 s E1)), I1.
Qed.

Lemma alter_same (f : channel → channel) (c : nat) ch (l : list channel) : l !! c = Some ch → f ch = ch → alter f c l = l.
Proof.
  intros E F. apply list_eq. intros i. destruct (decide (i = c)) as [->|].
  - rewrite list_lookup_alter_eq, E. simpl. by rewrite F.
  - by rewrite list_lookup_alter_ne.
Qed.

Lemma twp_channel_sema_down d ch ad s : usable d ch ad s → completion_wait ch = 0 →
  expecting_interrupt ch = true → pending (ata_of d.1 (hw s)) = true →
  twp (channel_sema_down d.1)
    (λ _ s', moved d.1 ((ata_of d.1 (hw s)) <| busy := 0%nat |> <| pending := false |>) s s') s.
Proof.
  intros U H0' He Hp. pose proof (u_chan _ _ _ _ U) as Hc. pose proof (u_channel _ _ _ _ U) as Hch.
  destruct (u_irq _ _ _ _ U d.1 Hc) as (ch' & E' & Hi). assert (ch' = ch) as -> by congruence.
  unfold channel_sema_down. apply twp_bind, (twp_channel_at _ ch); [done|]. rewrite H0', (u_base _ _ _ _ U).
  destruct (ata_interrupt d.1 (hw s) Hc Hp) as (h & Hw & Ha).
  set (s1 := s <| hw := h |>).
  assert (moved d.1 ((ata_of d.1 (hw s)) <| busy := 0%nat |>) s s1) as M1.
  { split; [done|done|]. intros c' Hc' Hne. by apply (ata_wait_other d.1 c'). }
  pose proof (usable_moved _ _ _ _ _ _ _ M1 U) as U1.
  assert (interrupt_on d.1 s1 = (_ ← inb (base d.1 + 7);
    set_channel d.1 (λ ch, ch <| completion_wait := completion_wait ch + 1 |>)) s1) as Eh.
  { unfold interrupt_on. rewrite (bind_Ret _ _ _ _ _ (channel_at_run d.1 ch s1 Hch)), He.
    unfold reg_status. by rewrite (u_base _ _ _ _ U). }
  set (up := λ ch, ch <| completion_wait := completion_wait ch + 1 |>) in Eh.
  apply twp_bind. cbn [when]. apply twp_bind, (twp_intro _ _ (Some h) s); [unfold get; by rewrite Hw|].
  apply twp_bind, twp_modify. fold s1. rewrite Hi.
  eapply twp_eq; [rewrite (handler_finds d ch ad s1 U1); exact Eh|].
  eapply twp_seq; [by apply twp_status|]. intros v s2 [_ M2]. rewrite (moved_ata _ _ _ _ M1) in M2.
  pose proof (usable_moved _ _ _ _ _ _ _ M2 U1) as U2. pose proof (moved_trans _ _ _ _ _ _ M1 M2) as M12.
  apply twp_modify. fold (with_chan d.1 up s2).
  pose proof (usable_with _ _ _ up _ U2 ltac:(done)) as U3.
  apply twp_bind, (twp_channel_at _ (up ch)); [apply U3|]. unfold up at 1. simpl completion_wait. rewrite H0'.
  change (0 + 1 =? 0) with false. cbv iota. apply twp_modify. destruct M12 as [A C O].
  split; [exact A| |exact O]. rewrite <- C. unfold core. simpl.
  rewrite list_alter_alter_eq, (alter_same _ d.1 ch); [done|apply U2|].
  unfold up. simpl. rewrite H0'. destruct ch; simpl in *. by subst.
Qed.

(** *** Transfers *)

Lemma words_of_small bs : Forall is_byte bs → Forall (λ w, 0 ≤ w < 65536) (words_of bs).
Proof.
  assert (∀ n bs, (length bs < n)%nat → Forall is_byte bs → Forall (λ w, 0 ≤ w < 65536) (words_of bs)) as G;
    [|intros; by apply (G (S (length bs))); [lia|]].
  induction n as [|n IH]; [lia|]. intros [|a [|b l]] Hl Hb; [by apply Forall_nil..|].
  cbn [words_of]. apply Forall_cons in Hb as [Ha Hb]. apply Forall_cons in Hb as [Hb Hr].
  unfold is_byte in *. apply Forall_cons. split; [lia|]. apply IH; [simpl in Hl; lia|done].
Qed.

Lemma bytes_of_words bs : Forall is_byte bs → Nat.Even (length bs) → bytes_of (words_of bs) = bs.
Proof.
  assert (∀ n bs, (length bs < n)%nat → Forall is_byte bs → Nat.Even (length bs) →
    bytes_of (words_of bs) = bs) as G; [|intros; by apply (G (S (length bs))); [lia|..]].
  induction n as [|n IH]; [lia|]. intros [|a [|b l]] Hl Hb He; [done|by apply Nat.even_spec in He|].
  cbn [words_of bytes_of]. apply Forall_cons in Hb as [Ha Hb]. apply Forall_cons in Hb as [Hb Hr].
  unfold is_byte in *. rewrite IH; [|simpl in Hl; lia|done|].
  - rewrite (Z.mul_comm 256), Z.mod_add, Z.mod_small, Z.div_add, (Z.div_small a) by lia. by rewrite Z.add_0_l.
  - destruct He as [k Hk]. exists (k - 1)%nat. simpl in Hk. lia.
Qed.

Lemma length_words_of bs : Nat.Even (length bs) → (2 * length (words_of bs))%nat = length bs.
Proof.
  assert (∀ n bs, (length bs < n)%nat → Nat.Even (length bs) →
    (2 * length (words_of bs))%nat = length bs) as G; [|intros; by apply (G (S (length bs))); [lia|..]].
  induction n as [|n IH]; [lia|]. intros [|a [|b l]] Hl He; [done|by apply Nat.even_spec in He|].
  cbn [words_of length] in *. enough (2 * length (words_of l) = length l)%nat by lia.
  apply IH; [lia|]. destruct He as [k Hk]. exists (k - 1)%nat. lia.
Qed.

Lemma sector_words b : sector_ok b → bytes_of (words_of b) = b ∧ length (words_of b) = 256%nat ∧
  Forall (λ w, 0 ≤ w < 65536) (words_of b).
Proof.
  intros [Hl Hb]. assert (Nat.Even (length b)) by (rewrite Hl; by exists 256%nat).
  split; [by apply bytes_of_words|]. split; [|by apply words_of_small].
  pose proof (length_words_of b ltac:(done)). lia.
Qed.

Lemma twp_insw c ws : ∀ s, (c < 2)%nat → busy (ata_of c (hw s)) = 0%nat →
  ph (ata_of c (hw s)) = match ws with [] => Idle | _ => DataIn ws end →
  Forall (λ w, 0 ≤ w < 65536) ws →
  twp (insw (base c) (length ws)) (λ r s', r = ws ∧ moved c ((ata_of c (hw s)) <| ph := Idle |>) s s') s.
Proof.
  induction ws as [|w ws IH]; intros s Hc Hb Hp HF; cbn [insw length].
  - split; [done|]. replace ((ata_of c (hw s)) <| ph := Idle |>) with (ata_of c (hw s)); [apply moved_refl|].
    destruct (ata_of c (hw s)); simpl in *; by subst.
  - apply Forall_cons in HF as [Hw HF]. destruct (ata_data_in c (hw s) w ws Hc Hb Hp) as [Hv Ha].
    apply twp_bind. unfold twp at 1, inw. 
    pose proof (λ c', ata_inw_other c c' (hw s) Hc) as Ho.
    destruct (hw_inw (base c) (hw s)) as [v h]. simpl in Hv, Ha, Ho. subst v.
    rewrite Z.mod_small by done.
    assert (moved c ((ata_of c (hw s)) <| ph := match ws with [] => Idle | _ => DataIn ws end |>) s (s <| hw := h |>)) as M1
      by (split; [done|done|intros; by apply Ho]).
    eapply twp_seq; [apply IH; [done|by rewrite (moved_ata _ _ _ _ M1)..|done]|].
    intros r s' [-> M2]. rewrite (moved_ata _ _ _ _ M1) in M2. split; [done|].
    exact (moved_trans _ _ _ _ _ _ M1 M2).
Qed.

Lemma twp_outsw c n : ∀ ws done s, (c < 2)%nat → busy (ata_of c (hw s)) = 0%nat →
  ph (ata_of c (hw s)) = DataOut n done → (length done + length ws = 256)%nat → ws ≠ [] →
  Forall (λ w, 0 ≤ w < 65536) ws →
  twp (outsw (base c) ws)
    (λ _ s', ∃ k, (k < 1000)%nat ∧
       moved c ((ata_of c (hw s)) <| ph := Idle |>
         <| drives := store (ata_of c (hw s)) n (done ++ ws) |> <| busy := k |> <| pending := true |>) s s') s.
Proof.
  induction ws as [|w ws IH]; intros dn s Hc Hb Hp Hl Hne HF; [done|]. cbn [outsw].
  apply Forall_cons in HF as [Hw HF]. destruct (ata_data_out c (hw s) n w dn Hc Hb Hp) as (k & Hk & Ha).
  apply twp_bind. unfold outw. apply twp_modify. rewrite Z.mod_small by done.
  set (s1 := s <| hw := hw_outw (base c) w (hw s) |>).
  assert (moved c (ata_of c (hw s1)) s s1) as M1
    by (split; [done|done|intros; by apply ata_outw_other]).
  change (hw_outw (base c) w (hw s)) with (hw s1) in Ha. rewrite Ha in M1.
  destruct ws as [|w' ws].
  - rewrite (proj2 (Nat.ltb_ge _ _)) in M1 by (simpl in Hl; lia). cbn [outsw]. by exists k.
  - rewrite (proj2 (Nat.ltb_lt _ _)) in M1, Ha by (simpl in Hl; lia).
    eapply twp_mono; [apply (IH (dn ++ [w]) s1); rewrite ?Ha; [done|done|done| |done|done]|].
    + rewrite length_app. simpl in *. lia.
    + intros [] s' (k' & Hk' & M2). rewrite Ha, <- app_assoc in M2. exists k'. split; [done|].
      exact (moved_trans _ _ _ _ _ _ M1 M2).
Qed.

(** *** Reading and writing a sector *)

Definition locks (me : option Z) (ch : channel) : channel := ch <| lock := me |>.
Definition expects (ch : channel) : channel := ch <| expecting_interrupt := true |>.

Lemma moved_with c f a s s' : moved c a s s' → moved c a (with_chan c f s) (with_chan c f s').
Proof.
  intros [A C O]. split; [done| |done]. unfold core in *. simpl. injection C as -> -> -> -> -> ->. done.
Qed.

(** A disk at rest: nobody uses its channel, and the controller will be idle in
    time. *)
Record resting (d : disk_ref) (ch : channel) (ad : ata_disk) s : Prop := {
  r_usable : usable d ch ad s;
  r_lock : lock ch = None;
  r_completion : completion_wait ch = 0;
  r_idle : ph (ata_of d.1 (hw s)) = Idle;
  r_busy : (busy (ata_of d.1 (hw s)) < 1000)%nat;
}.

Lemma twp_lock_acquire d ch ad s : resting d ch ad s →
  twp (channel_lock_acquire d.1) (λ _ s', s' = with_chan d.1 (locks (Some (current s))) s) s.
Proof.
  intros R. unfold channel_lock_acquire. apply twp_bind, (twp_channel_at _ ch); [apply R|].
  apply twp_bind, (twp_intro _ _ (current s) s); [done|]. by rewrite (r_lock _ _ _ _ R).
Qed.

Lemma twp_lock_release c ch s : channels s !! c = Some ch → lock ch = Some (current s) →
  twp (channel_lock_release c) (λ _ s', s' = with_chan c (locks None) s) s.
Proof.
  intros E L. unfold channel_lock_release. apply twp_bind, (twp_channel_at _ ch); [done|].
  apply twp_bind, (twp_intro _ _ (current s) s); [done|].
  apply twp_bind, twp_check; [by apply bool_decide_eq_true|]. done.
Qed.

Lemma twp_issue d ch ad cmd s : usable d ch ad s → 0 ≤ cmd < 256 →
  twp (issue_pio_command d.1 cmd)
    (λ _ s', moved d.1 (ata_of d.1 (hw_outb (base d.1 + 7) cmd (hw s))) (with_chan d.1 expects s) s') s.
Proof.
  intros U Hk. unfold issue_pio_command. apply twp_bind, (twp_channel_at _ ch); [apply U|].
  apply twp_bind, (twp_intro _ _ tt s).
  { unfold assert_intr_on, get, check, mbind, M_bind. simpl. by rewrite (u_level _ _ _ _ U). }
  apply twp_bind, twp_modify. unfold reg_command, reg_status. rewrite (u_base _ _ _ _ U).
  apply (twp_outb d.1 7); [apply U|lia|]. by rewrite Z.mod_small.
Qed.

(** A command that has been given to the controller. *)
Definition commanded (d : disk_ref) (ch : channel) (ad : ata_disk) (cmd sec_no : Z) s s' : Prop :=
  ∃ a h, addressed a ∧ lba a = sec_no ∧ sel a = slave ad ∧
    drives a = drives (ata_of d.1 (hw s)) ∧ pending a = false ∧ ata_of d.1 h = a ∧
    moved d.1 (ata_of d.1 (hw_outb (base d.1 + 7) cmd h))
      (with_chan d.1 expects (with_chan d.1 (locks (Some (current s))) s)) s' ∧
    usable d (expects (locks (Some (current s)) ch)) ad s'.

Lemma command_run d ch ad cmd sec_no s : resting d ch ad s → 0 ≤ cmd < 256 → 0 ≤ sec_no < 2 ^ 28 →
  ∃ s', commanded d ch ad cmd sec_no s s' ∧ ∀ A (k : D A),
    (channel_lock_acquire d.1;; select_sector d sec_no;; issue_pio_command d.1 cmd;; k) s = k s'.
Proof.
  intros R Hcmd Hs. destruct R as [U L C Hi Hb].
  destruct (twp_elim _ _ _ (twp_lock_acquire d ch ad s (Build_resting _ _ _ _ U L C Hi Hb))) as ([] & s0 & E0 & ->).
  set (s0 := with_chan d.1 (locks (Some (current s))) s) in *.
  pose proof (usable_with _ _ _ (locks (Some (current s))) _ U ltac:(done)) as U0. fold s0 in U0.
  destruct (twp_elim _ _ _ (twp_select_sector d _ ad sec_no s0 U0 Hi Hb Hs))
    as ([] & s1 & E1 & a & M1 & Had & Hlba & Hsel & Hdr & Hpe).
  pose proof (usable_moved _ _ _ _ _ _ _ M1 U0) as U1.
  destruct (twp_elim _ _ _ (twp_issue d _ ad cmd s1 U1 Hcmd)) as ([] & s2 & E2 & M2).
  exists s2. split.
  2: { intros A k. by rewrite (bind_Ret _ _ _ _ _ E0), (bind_Ret _ _ _ _ _ E1), (bind_Ret _ _ _ _ _ E2). }
  exists a, (hw s1). split; [done|]. split; [done|]. split; [done|]. split; [done|]. split; [done|].
  split; [apply M1|]. split; [|by eapply usable_moved, usable_with].
  exact (moved_trans _ _ _ _ _ _ (moved_with _ expects _ _ _ M1) M2).
Qed.

(** The state of the channel when the command is done and the lock released. *)
Lemma twp_finish d ch ad a s s' : resting d ch ad s →
  moved d.1 a (with_chan d.1 expects (with_chan d.1 (locks (Some (current s))) s)) s' →
  usable d (expects (locks (Some (current s)) ch)) ad s' →
  twp (channel_lock_release d.1) (λ _ s'', moved d.1 a (with_chan d.1 expects s) s'') s'.
Proof.
  intros R M U'. eapply twp_mono.
  { apply (twp_lock_release d.1 (expects (locks (Some (current s)) ch))); [apply U'|].
    destruct M as [_ C _]. unfold core in C. by injection C as _ -> _ _ _ _. }
  intros [] s'' ->. pose proof (moved_with d.1 (locks None) _ _ _ M) as M'.
  replace (with_chan d.1 (locks None) (with_chan d.1 expects (with_chan d.1 (locks (Some (current s))) s)))
    with (with_chan d.1 expects s) in M'; [done|].
  unfold with_chan. simpl. f_equal. rewrite !list_alter_alter_eq. apply list_eq. intros j.
  destruct (decide (j = d.1)) as [->|].
  - rewrite !list_lookup_alter_eq, (u_channel _ _ _ _ (r_usable _ _ _ _ R)). simpl. f_equal.
    pose proof (r_lock _ _ _ _ R). destruct ch; simpl in *; by subst.
  - by rewrite !list_lookup_alter_ne.
Qed.

Lemma target_of a secs n b : drives a !! sel a = Some (Some secs) → secs !! n = Some b →
  Z.to_nat (lba a) = n → target a = Some b.
Proof. unfold target. by intros -> E ->. Qed.

Lemma twp_ide_read d ch ad secs sec_no b s : resting d ch ad s → 0 ≤ sec_no < 2 ^ 28 →
  drives (ata_of d.1 (hw s)) !! slave ad = Some (Some secs) → secs !! Z.to_nat sec_no = Some b →
  sector_ok b →
  twp (ide_read d sec_no)
    (λ r s', r = b ∧ ∃ a, moved d.1 a (with_chan d.1 expects s) s' ∧
       drives a = drives (ata_of d.1 (hw s)) ∧ ph a = Idle ∧ busy a = 0%nat) s.
Proof.
  intros R Hs Hdr Hb Hok. unfold ide_read.
  destruct (command_run d ch ad CMD_READ_SECTOR_RETRY sec_no s R ltac:(done) Hs)
    as (s1 & (a & h & Had & Hlba & Hsel & Hd & _ & Ha & M1 & U1) & Ek).
  eapply twp_eq; [apply Ek|]. clear Ek.
  destruct (ata_read d.1 h) as (n & Hn & E); [apply U1|by rewrite Ha|].
  rewrite Ha, (target_of a secs (Z.to_nat sec_no) b) in E; [|by rewrite Hd, Hsel|done|by rewrite Hlba].
  rewrite E in M1. pose proof (moved_ata _ _ _ _ M1) as A1.
  eapply twp_seq; [by apply (twp_channel_sema_down d _ ad s1 U1); [apply R|..|rewrite A1]|].
  intros [] s2 M2. rewrite A1 in M2. pose proof (usable_moved _ _ _ _ _ _ _ M2 U1) as U2.
  pose proof (moved_ata _ _ _ _ M2) as A2.
  eapply twp_seq; [apply (twp_wait_while_busy d _ ad s2 U2); rewrite A2; simpl; lia|].
  intros r s3 [-> M3]. rewrite A2 in M3 |- *. pose proof (moved_ata _ _ _ _ M3) as A3.
  apply twp_bind, twp_check; [done|]. destruct (sector_words b Hok) as (W1 & W2 & W3).
  pose proof (usable_moved _ _ _ _ _ _ _ M3 U2) as U3.
  unfold input_sector. apply twp_bind, twp_bind, (twp_channel_at _ _ _ _ (u_channel _ _ _ _ U3)).
  unfold reg_data. rewrite (u_base _ _ _ _ U3), Z.add_0_r.
  change (Z.to_nat (BLOCK_SECTOR_SIZE / 2)) with 256%nat. rewrite <- W2.
  eapply twp_seq; [apply (twp_insw d.1 (words_of b) s3); [apply U3|by rewrite A3|rewrite A3|done]|].
  { simpl. destruct (words_of b); [done|done]. }
  intros r s4 [-> M4]. rewrite A3 in M4. unfold twp at 1, mret, M_ret. rewrite W1.
  pose proof (usable_moved _ _ _ _ _ _ _ M4 U3) as U4.
  eapply twp_seq; [eapply (twp_finish d ch ad _ s s4 R); [eauto 8 using moved_trans|done]|].
  intros [] s5 M5. split; [done|]. eexists. by split.
Qed.

Lemma twp_ide_write d ch ad secs sec_no old b s : resting d ch ad s → 0 ≤ sec_no < 2 ^ 28 →
  drives (ata_of d.1 (hw s)) !! slave ad = Some (Some secs) → secs !! Z.to_nat sec_no = Some old →
  sector_ok b →
  twp (ide_write d sec_no b)
    (λ _ s', ∃ a, moved d.1 a (with_chan d.1 expects s) s' ∧
       drives a = alter (fmap <[Z.to_nat sec_no := b]>) (slave ad) (drives (ata_of d.1 (hw s))) ∧
       ph a = Idle ∧ busy a = 0%nat) s.
Proof.
  intros R Hs Hdr Hb Hok. unfold ide_write.
  destruct (command_run d ch ad CMD_WRITE_SECTOR_RETRY sec_no s R ltac:(done) Hs)
    as (s1 & (a & h & Had & Hlba & Hsel & Hd & _ & Ha & M1 & U1) & Ek).
  eapply twp_eq; [apply Ek|]. clear Ek.
  destruct (ata_write d.1 h) as (n & Hn & E); [apply U1|by rewrite Ha|].
  rewrite Ha, (target_of a secs (Z.to_nat sec_no) old) in E; [|by rewrite Hd, Hsel|done|by rewrite Hlba].
  rewrite E in M1. pose proof (moved_ata _ _ _ _ M1) as A1.
  eapply twp_seq; [apply (twp_wait_while_busy d _ ad s1 U1); rewrite A1; simpl; lia|].
  intros r s2 [-> M2]. rewrite A1 in M2 |- *. pose proof (moved_ata _ _ _ _ M2) as A2.
  apply twp_bind, twp_check; [done|]. destruct (sector_words b Hok) as (W1 & W2 & W3).
  pose proof (usable_moved _ _ _ _ _ _ _ M2 U1) as U2.
  unfold output_sector. apply twp_bind, twp_bind, (twp_channel_at _ _ _ _ (u_channel _ _ _ _ U2)).
  unfold reg_data. rewrite (u_base _ _ _ _ U2), Z.add_0_r.
  eapply twp_mono; [apply (twp_outsw d.1 (Z.to_nat sec_no) (words_of b) [] s2);
    [apply U2|by rewrite A2|by rewrite A2, <- Hlba|simpl; lia|by destruct (words_of b)|done]|].
  intros [] s3 (k & _ & M3). rewrite A2 in M3. pose proof (moved_ata _ _ _ _ M3) as A3.
  pose proof (usable_moved _ _ _ _ _ _ _ M3 U2) as U3.
  eapply twp_seq; [by apply (twp_channel_sema_down d _ ad s3 U3); [apply R|..|rewrite A3]|].
  intros [] s4 M4. rewrite A3 in M4. pose proof (usable_moved _ _ _ _ _ _ _ M4 U3) as U4.
  eapply twp_mono; [eapply (twp_finish d ch ad _ s s4 R); [eauto 8 using moved_trans|done]|].
  intros [] s5 M5. eexists. split; [exact M5|]. split; [|done].
  unfold store. simpl. by rewrite W1, Hsel, Hd.
Qed.

(** A sector number that does not fit, and a sector that the drive does not
    have. *)
Lemma too_large d ch ad sec_no s : resting d ch ad s → 2 ^ 28 ≤ sec_no →
  ∀ {A} (k : D A), (channel_lock_acquire d.1;; select_sector d sec_no;; k) s = Panic.
Proof.
  intros R Hs A k. eapply panic_seq; [by apply (twp_lock_acquire d ch ad)|]. intros [] s0 ->.
  pose proof (usable_with _ _ _ (locks (Some (current s))) _ (r_usable _ _ _ _ R) ltac:(done)) as U0.
  apply bind_Panic. unfold select_sector.
  rewrite (bind_Ret _ _ _ _ _ (disk_at_run _ _ _ _ (u_channel _ _ _ _ U0) (u_disk _ _ _ _ U0))).
  rewrite (bind_Ret _ _ _ _ _ (channel_at_run _ _ _ (u_channel _ _ _ _ U0))).
  apply bind_Panic. unfold check. by rewrite (proj2 (Z.ltb_ge _ _)).
Qed.

Lemma target_missing a secs n : drives a !! sel a = Some (Some secs) → secs !! n = None →
  Z.to_nat (lba a) = n → target a = None.
Proof. unfold target. by intros -> E ->. Qed.

Lemma ide_read_missing d ch ad secs sec_no s : resting d ch ad s → 0 ≤ sec_no →
  drives (ata_of d.1 (hw s)) !! slave ad = Some (Some secs) → secs !! Z.to_nat sec_no = None →
  ide_read d sec_no s = Panic.
Proof.
  intros R H0' Hdr Hb. unfold ide_read.
  destruct (decide (2 ^ 28 ≤ sec_no)) as [Hl|Hl]; [by apply (too_large d ch ad)|].
  destruct (command_run d ch ad CMD_READ_SECTOR_RETRY sec_no s R ltac:(done) ltac:(lia))
    as (s1 & (a & h & Had & Hlba & Hsel & Hd & _ & Ha & M1 & U1) & ->).
  destruct (ata_read d.1 h) as (n & Hn & E); [apply U1|by rewrite Ha|].
  rewrite Ha, (target_missing a secs (Z.to_nat sec_no)) in E; [|by rewrite Hd, Hsel|done|by rewrite Hlba].
  rewrite E in M1. pose proof (moved_ata _ _ _ _ M1) as A1.
  eapply panic_seq; [by apply (twp_channel_sema_down d _ ad s1 U1); [apply R|..|rewrite A1]|].
  intros [] s2 M2. rewrite A1 in M2. pose proof (usable_moved _ _ _ _ _ _ _ M2 U1) as U2.
  pose proof (moved_ata _ _ _ _ M2) as A2.
  eapply panic_seq; [apply (twp_wait_while_busy d _ ad s2 U2); rewrite A2; simpl; lia|].
  intros r s3 [-> _]. by rewrite A2.
Qed.

Lemma ide_write_missing d ch ad secs sec_no b s : resting d ch ad s → 0 ≤ sec_no →
  drives (ata_of d.1 (hw s)) !! slave ad = Some (Some secs) → secs !! Z.to_nat sec_no = None →
  ide_write d sec_no b s = Panic.
Proof.
  intros R H0' Hdr Hb. unfold ide_write.
  destruct (decide (2 ^ 28 ≤ sec_no)) as [Hl|Hl]; [by apply (too_large d ch ad)|].
  destruct (command_run d ch ad CMD_WRITE_SECTOR_RETRY sec_no s R ltac:(done) ltac:(lia))
    as (s1 & (a & h & Had & Hlba & Hsel & Hd & _ & Ha & M1 & U1) & ->).
  destruct (ata_write d.1 h) as (n & Hn & E); [apply U1|by rewrite Ha|].
  rewrite Ha, (target_missing a secs (Z.to_nat sec_no)) in E; [|by rewrite Hd, Hsel|done|by rewrite Hlba].
  rewrite E in M1. pose proof (moved_ata _ _ _ _ M1) as A1.
  eapply panic_seq; [apply (twp_wait_while_busy d _ ad s1 U1); rewrite A1; simpl; lia|].
  intros r s2 [-> _]. rewrite A1. unfold data_request. simpl. by rewrite (proj1 (proj2 Had)).
Qed.

(** *** The driver is an array of sectors *)

Record chan_ok (c : nat) (ch : channel) s : Prop := {
  k_base : reg_base ch = base c;
  k_irq : irq ch = 46 + Z.of_nat c;
  k_lock : lock ch = None;
  k_completion : completion_wait ch = 0;
  k_devices : dev_no <$> devices ch = [0; 1];
  k_idle : ph (ata_of c (hw s)) = Idle;
  k_busy : (busy (ata_of c (hw s)) < 1000)%nat;
}.

(** The driver at rest, with the disks [σ]. *)
Record implements s (σ : gmap disk_ref disk) : Prop := {
  i_level : intr_level s = true;
  i_loops : 0 ≤ loops s < 2 ^ 31;
  i_chan c : (c < 2)%nat → ∃ ch, channels s !! c = Some ch ∧ chan_ok c ch s;
  i_disk d dk : σ !! d = Some dk →
    (d.1 < 2)%nat ∧ (d.2 < 2)%nat ∧
    drives (ata_of d.1 (hw s)) !! d.2 = Some (Some (d_sectors dk)) ∧
    Forall sector_ok (d_sectors dk) ∧ Z.of_nat (length (d_sectors dk)) ≤ 2 ^ 28;
}.

Lemma implements_resting s σ d dk : implements s σ → σ !! d = Some dk →
  ∃ ch ad, resting d ch ad s ∧ slave ad = d.2.
Proof.
  intros [L P C K] Hd. destruct (K d dk Hd) as (Hc & Hi & _). destruct (C d.1 Hc) as (ch & E & O).
  destruct (lookup_lt_is_Some_2 (devices ch) d.2) as [ad Had].
  { pose proof (f_equal length (k_devices _ _ _ O)) as Hl. rewrite length_fmap in Hl. simpl in Hl. lia. }
  exists ch, ad. split.
  - destruct O as [O1 O2 O3 O4 O5 O6 O7]. split; [|done..]. split; [done|done|done|done| |done|done].
    intros c Hc'. destruct (C c Hc') as (ch' & E' & O'). exists ch'. split; [done|apply O'].
  - pose proof (list_lookup_fmap dev_no (devices ch) d.2) as Hl. rewrite Had, (k_devices _ _ _ O) in Hl.
    unfold slave. destruct (d.2) as [|[|]]; simpl in Hl; [injection Hl as <-..|lia]; done.
Qed.

(** After an operation on disk [d] that leaves its channel with the drives [ds]. *)
Lemma implements_moved s s' σ d dk dk' a : implements s σ → σ !! d = Some dk →
  moved d.1 a (with_chan d.1 expects s) s' → ph a = Idle → busy a = 0%nat →
  drives a = <[d.2 := Some (d_sectors dk')]> (drives (ata_of d.1 (hw s))) →
  Forall sector_ok (d_sectors dk') → length (d_sectors dk') = length (d_sectors dk) →
  implements s' (<[d := dk']> σ).
Proof.
  intros [L P C K] Hd [A E O] Hp Hb Hdr Hok Hlen. unfold core in E. injection E as E1 E2 E3 E4 E5 E6.
  destruct (K d dk Hd) as (Hc & Hi & Hl & Hf & Hz).
  split; [by rewrite E3|by rewrite E4| |].
  - intros c Hcc. rewrite E1. destruct (C c Hcc) as (ch & Ech & Ok). simpl. destruct (decide (c = d.1)) as [->|Hne].
    + exists (expects ch). rewrite list_lookup_alter_eq, Ech. split; [done|]. destruct Ok.
      split; simpl; [done..|by rewrite A|rewrite A, Hb; lia].
    + exists ch. rewrite list_lookup_alter_ne by done. split; [done|]. destruct Ok.
      split; [done..| |]; by rewrite O.
  - intros d' dk1. destruct (decide (d' = d)) as [->|Hne].
    + rewrite lookup_insert_eq. intros [= <-]. split; [done|]. split; [done|]. rewrite A, Hdr.
      split; [|by rewrite Hlen]. apply list_lookup_insert_eq. by apply lookup_lt_Some in Hl.
    + rewrite lookup_insert_ne by done. intros Hd'. destruct (K d' dk1 Hd') as (? & ? & Hl' & ? & ?).
      split; [done|]. split; [done|]. split; [|done]. destruct (decide (d'.1 = d.1)) as [Ee|Ne].
      * rewrite Ee, A, Hdr, list_lookup_insert_ne; [by rewrite <- Ee|].
        intros E'. apply Hne. destruct d, d'; simpl in *; by subst.
      * rewrite O; [exact Hl'|done|done].
Qed.

Inductive op :=
  | Read (d : disk_ref) (sec_no : Z)
  | Write (d : disk_ref) (sec_no : Z) (buffer : list Z).

Definition op_disk (o : op) : disk_ref := match o with Read d _ | Write d _ _ => d end.
Definition valid_op (o : op) : Prop :=
  match o with
  | Read _ n => 0 ≤ n
  | Write _ n b => 0 ≤ n ∧ sector_ok b
  end.

Definition do_op (o : op) : D (list Z) :=
  match o with
  | Read d n => ide_read d n
  | Write d n b => ide_write d n b;; mret []
  end.

Fixpoint do_ops (os : list op) : D (list (list Z)) :=
  match os with
  | [] => mret []
  | o :: os => r ← do_op o; rs ← do_ops os; mret (r :: rs)
  end.

(** The same on disks in memory. *)
Definition spec_op (o : op) (σ : gmap disk_ref disk) : option (list Z * gmap disk_ref disk) :=
  dk ← σ !! op_disk o;
  match o with
  | Read _ n => r ← dev_read dk n; Some (r, σ)
  | Write d n b => dk' ← dev_write dk n b; Some ([], <[d := dk']> σ)
  end.

Fixpoint spec_ops (os : list op) (σ : gmap disk_ref disk) : option (list (list Z) * gmap disk_ref disk) :=
  match os with
  | [] => Some ([], σ)
  | o :: os => '(r, σ) ← spec_op o σ; '(rs, σ) ← spec_ops os σ; Some (r :: rs, σ)
  end.

Lemma do_op_ok o s σ dk : implements s σ → valid_op o → σ !! op_disk o = Some dk →
  match spec_op o σ with
  | Some (r, σ') => ∃ s', do_op o s = Ret r s' ∧ implements s' σ' ∧ dom σ' = dom σ
  | None => do_op o s = Panic
  end.
Proof.
  intros I V Hd. unfold spec_op. rewrite Hd. cbn [mbind option_bind].
  destruct (implements_resting _ _ _ _ I Hd) as (ch & ad & R & Hsl).
  destruct (i_disk _ _ I _ _ Hd) as (_ & _ & Hdr & Hok & Hlen). rewrite <- Hsl in Hdr.
  destruct o as [d n|d n b]; cbn [op_disk valid_op do_op dev_read dev_write disk_operations] in *.
  - destruct (d_sectors dk !! Z.to_nat n) as [b|] eqn:E; cbn [mbind option_bind];
      [|by apply (ide_read_missing d ch ad (d_sectors dk))].
    pose proof (lookup_lt_Some _ _ _ E).
    destruct (twp_elim _ _ _ (twp_ide_read d ch ad (d_sectors dk) n b s R ltac:(lia) Hdr E
      (Forall_lookup_1 _ _ _ _ Hok E))) as (r & s' & Er & -> & a & M & Ed & Ep & Eb).
    exists s'. split; [done|]. split; [|done]. rewrite <- (insert_id σ d dk Hd).
    eapply implements_moved; [done..|rewrite Ed, <- Hsl; by rewrite list_insert_id|done|done].
  - destruct V as [V Hb].
    destruct (d_sectors dk !! Z.to_nat n) as [old|] eqn:E; cbn [mbind option_bind];
      [|apply bind_Panic; by apply (ide_write_missing d ch ad (d_sectors dk))].
    pose proof (lookup_lt_Some _ _ _ E).
    destruct (twp_elim _ _ _ (twp_ide_write d ch ad (d_sectors dk) n old b s R ltac:(lia) Hdr E Hb))
      as ([] & s' & Er & a & M & Ed & Ep & Eb).
    exists s'. rewrite (bind_Ret _ _ _ _ _ Er). split; [done|]. split.
    + eapply implements_moved; [done..| |by apply Forall_insert|simpl; by rewrite length_insert].
      rewrite Ed, Hsl. rewrite Hsl in Hdr. simpl. apply list_eq. intros j. destruct (decide (j = d.2)) as [->|].
      * rewrite list_lookup_alter_eq, Hdr, list_lookup_insert_eq; [done|]. by apply lookup_lt_Some in Hdr.
      * by rewrite list_lookup_alter_ne, list_lookup_insert_ne by done.
    + apply leibniz_equiv. rewrite dom_insert. apply elem_of_dom_2 in Hd. set_solver.
Qed.
End Correct.

(** ** Detection on any controller

    Whatever the controller answers, the functions that look for disks do not
    panic; they may wait for an interrupt that never comes. *)

Section Safe.
Context {H : Type} `{Hw H}.
Local Abbreviation D := (M (ide H)).
Implicit Types s : ide H.

Record safe (hs : list Z) s : Prop := {
  safe_level : intr_level s = true;
  safe_channels : length (channels s) = 2%nat;
  safe_devices c ch : channels s !! c = Some ch → length (devices ch) = 2%nat;
  safe_handlers : handlers s = hs;
}.

Definition keeps {A} (m : D A) (Q : A → Prop) : Prop :=
  ∀ hs s, safe hs s → wp m (λ a s', safe hs s' ∧ Q a) s.

Lemma keeps_bind {A B} (m : D A) (k : A → D B) P Q :
  keeps m P → (∀ a, P a → keeps (k a) Q) → keeps (m ≫= k) Q.
Proof.
  intros Hm Hk hs s Hs. apply wp_bind. eapply wp_mono; [by apply Hm|]. intros a s' [Hs' Ha]. by apply (Hk a Ha).
Qed.

Lemma keeps_ret {A} (a : A) (Q : A → Prop) : Q a → keeps (mret a) Q.
Proof. intros Ha hs s Hs. by split. Qed.

Lemma keeps_weaken {A} (m : D A) (P Q : A → Prop) : keeps m P → (∀ a, P a → Q a) → keeps m Q.
Proof. intros Hm HQ hs s Hs. eapply wp_mono; [by apply Hm|]. intros a s' [? ?]. auto. Qed.

Lemma keeps_waits {A} (Q : A → Prop) : keeps waits Q.
Proof. done. Qed.

Lemma keeps_when b (m : D unit) : keeps m (λ _, True) → keeps (when b m) (λ _, True).
Proof. destruct b; [done|]. intros _. by apply keeps_ret. Qed.

Lemma keeps_lift {A} (o : option A) : is_Some o → keeps (lift o) (λ _, True).
Proof. intros [a ->] hs s Hs. by split. Qed.

Lemma keeps_inb port : keeps (inb port) (λ v, 0 ≤ v < 256).
Proof.
  intros hs s [? ? ? ?]. unfold wp, inb. destruct (hw_inb port (hw s)) as [v h]. split; [by split|].
  by apply Z.mod_pos_bound.
Qed.

Lemma keeps_outb port v : keeps (outb port v) (λ _, True).
Proof. intros hs s [? ? ? ?]. by split. Qed.

Lemma keeps_say t : keeps (say t) (λ _, True).
Proof. intros hs s [? ? ? ?]. by split. Qed.

Lemma keeps_channel_at c : (c < 2)%nat → keeps (channel_at c) (λ _, True).
Proof.
  intros Hc hs s Hs. destruct (lookup_lt_is_Some_2 (channels s) c) as [ch E];
    [by rewrite (safe_channels _ _ Hs)|].
  apply (wp_intro _ _ ch s); [|done]. by apply channel_at_run.
Qed.

Lemma keeps_disk_at d : (d.1 < 2)%nat → (d.2 < 2)%nat → keeps (disk_at d) (λ _, True).
Proof.
  intros Hc Hi hs s Hs. destruct (lookup_lt_is_Some_2 (channels s) d.1) as [ch E];
    [by rewrite (safe_channels _ _ Hs)|].
  destruct (lookup_lt_is_Some_2 (devices ch) d.2) as [a Ea]; [by rewrite (safe_devices _ _ Hs _ _ E)|].
  apply (wp_intro _ _ a s); [|done]. by apply (disk_at_run d ch).
Qed.

Lemma keeps_set_channel c f : (∀ ch, length (devices ch) = 2%nat → length (devices (f ch)) = 2%nat) →
  keeps (set_channel c f) (λ _, True).
Proof.
  intros Hf hs s [? Hl Hd ?]. split; [|done]. split; simpl; [done|by rewrite length_alter| |done].
  intros c' ch'. destruct (decide (c' = c)) as [->|].
  - rewrite list_lookup_alter_eq. intros (ch & E & ->)%fmap_Some. apply Hf. by apply (Hd c).
  - rewrite list_lookup_alter_ne by done. apply Hd.
Qed.

Lemma keeps_intr_on : keeps assert_intr_on (λ _, True).
Proof.
  intros hs s Hs. apply (wp_intro _ _ tt s); [|done].
  unfold assert_intr_on, get, check, mbind, M_bind. simpl. by rewrite (safe_level _ _ Hs).
Qed.

Lemma keeps_sleep num d : 1 ≤ d → keeps (real_time_sleep num (1000 * d)) (λ _, True).
Proof.
  intros Hd hs s Hs. unfold real_time_sleep. apply wp_bind.
  eapply wp_mono; [by apply keeps_intr_on|]. clear s Hs. intros [] s [Hs _].
  destruct (0 <? _).
  - unfold timer_sleep_for. apply wp_bind. eapply wp_mono; [by apply keeps_intr_on|].
    clear s Hs. intros [] s [Hs _]. destruct (_ <=? 0); [done|]. destruct Hs. by split.
  - unfold real_time_delay. rewrite Z.mul_comm, Z.rem_mul by lia. apply wp_bind, wp_check; [done|].
    apply wp_bind, wp_get, wp_modify. destruct Hs. by split.
Qed.

Lemma keeps_msleep ms : keeps (timer_msleep ms) (λ _, True).
Proof. by apply (keeps_sleep ms 1). Qed.
Lemma keeps_usleep us : keeps (timer_usleep us) (λ _, True).
Proof. by apply (keeps_sleep us 1000). Qed.
Lemma keeps_nsleep ns : keeps (timer_nsleep ns) (λ _, True).
Proof. by apply (keeps_sleep ns 1000000). Qed.

Lemma keeps_seq {A B} (m : D A) (k : A → D B) Q :
  keeps m (λ _, True) → (∀ a, keeps (k a) Q) → keeps (m ≫= k) Q.
Proof. intros Hm Hk. by apply (keeps_bind m k (λ _, True)). Qed.

Lemma keeps_inb' port : keeps (inb port) (λ _, True).
Proof. eapply keeps_weaken; [apply keeps_inb|done]. Qed.

(** Goes through a function one step at a time. *)
Ltac keeps_step :=
  lazymatch goal with
  | |- keeps (inb _) _ => apply keeps_inb'
  | |- keeps (outb _ _) _ => apply keeps_outb
  | |- keeps (say _) _ => apply keeps_say
  | |- keeps waits _ => apply keeps_waits
  | |- keeps (timer_msleep _) _ => apply keeps_msleep
  | |- keeps (timer_usleep _) _ => apply keeps_usleep
  | |- keeps (timer_nsleep _) _ => apply keeps_nsleep
  | |- keeps assert_intr_on _ => apply keeps_intr_on
  | |- keeps (channel_at _) _ => apply keeps_channel_at; [simpl; lia]
  | |- keeps (disk_at _) _ => apply keeps_disk_at; [simpl; lia..]
  | |- keeps (set_channel _ _) _ =>
      apply keeps_set_channel; [intros ? ?; simpl; by rewrite ?length_alter]
  | |- keeps (when _ _) _ => apply keeps_when
  | |- keeps (mret _) _ => by apply keeps_ret
  | |- keeps (_ ≫= _) _ => apply keeps_seq; [|intros ?]
  | |- keeps (if ?b then _ else _) _ => destruct b
  end.
Ltac keeps := repeat keeps_step.

Section Disk.
Context (d : disk_ref) (Hc : (d.1 < 2)%nat) (Hi : (d.2 < 2)%nat).

Lemma keeps_idle_loop n : keeps (idle_loop n d) (λ _, True).
Proof. induction n as [|n IH]; cbn [idle_loop]; keeps. exact IH. Qed.

Lemma keeps_wait_until_idle : keeps (wait_until_idle d) (λ _, True).
Proof. unfold wait_until_idle. apply keeps_seq; [apply keeps_idle_loop|intros idle]. keeps. Qed.

Lemma keeps_busy_loop n : ∀ i, keeps (busy_loop n i d) (λ _, True).
Proof. induction n as [|n IH]; intros i; cbn [busy_loop]; keeps. apply IH. Qed.

Lemma keeps_wait_while_busy : keeps (wait_while_busy d) (λ _, True).
Proof. unfold wait_while_busy. apply keeps_seq; [apply keeps_busy_loop|intros [drq|]]; keeps. Qed.

Lemma keeps_select_device : keeps (select_device d) (λ _, True).
Proof. unfold select_device. keeps. Qed.

Lemma keeps_select_device_wait : keeps (select_device_wait d) (λ _, True).
Proof.
  apply keeps_seq; [apply keeps_wait_until_idle|intros _].
  apply keeps_seq; [apply keeps_select_device|intros _]. apply keeps_wait_until_idle.
Qed.

Lemma keeps_detect : keeps (detect d) (λ _, True).
Proof.
  unfold detect. apply keeps_seq; [keeps|intros ch]. apply keeps_seq; [apply keeps_select_device|intros _]. keeps.
Qed.

Lemma keeps_check_device_type : keeps (check_device_type d) (λ _, True).
Proof.
  unfold check_device_type, set_is_ata. apply keeps_seq; [keeps|intros ch]. apply keeps_seq; [keeps|intros a].
  apply keeps_seq; [apply keeps_select_device|intros _]. keeps.
Qed.

Lemma keeps_issue cmd : keeps (issue_pio_command d.1 cmd) (λ _, True).
Proof. unfold issue_pio_command. keeps. Qed.

Lemma keeps_insw port n : keeps (insw port n) (Forall (λ w, 0 ≤ w < 65536)).
Proof.
  induction n as [|n IH]; cbn [insw]; [by apply keeps_ret, Forall_nil|].
  apply (keeps_bind _ _ (λ w, 0 ≤ w < 65536)).
  { intros hs s [? ? ? ?]. unfold wp, inw. destruct (hw_inw port (hw s)). split; [by split|by apply Z.mod_pos_bound]. }
  intros w Hw. eapply keeps_bind; [exact IH|]. intros ws Hws. by apply keeps_ret, Forall_cons.
Qed.

Lemma bytes_of_bytes ws : Forall (λ w, 0 ≤ w < 65536) ws → Forall is_byte (bytes_of ws).
Proof.
  induction 1 as [|w ws Hw _ IH]; [by apply Forall_nil|]. cbn [bytes_of].
  apply Forall_cons; split; [by apply Z.mod_pos_bound|]. apply Forall_cons; split; [|done].
  unfold is_byte. split; [apply Z.div_pos; lia|apply Z.div_lt_upper_bound; lia].
Qed.

Lemma keeps_input_sector : keeps (input_sector d.1) (Forall is_byte).
Proof.
  unfold input_sector. apply keeps_seq; [keeps|intros ch]. eapply keeps_bind; [apply keeps_insw|].
  intros ws Hws. by apply keeps_ret, bytes_of_bytes.
Qed.
End Disk.

Lemma keeps_interrupt_on c : (c < 2)%nat → keeps (interrupt_on c) (λ _, True).
Proof. intros Hc. unfold interrupt_on. keeps. Qed.

Lemma wp_interrupt c ch hs s : (c < 2)%nat → safe hs s → channels s !! c = Some ch →
  wp (interrupt_handler (irq ch)) (λ _ s', safe hs s' ∧ True) s.
Proof.
  intros Hc Hs E. unfold interrupt_handler, CHANNEL_CNT. cbn [handler_loop].
  destruct (lookup_lt_is_Some_2 (channels s) 0) as [c0 E0]; [rewrite (safe_channels _ _ Hs); lia|].
  destruct (lookup_lt_is_Some_2 (channels s) 1) as [c1 E1]; [rewrite (safe_channels _ _ Hs); lia|].
  apply wp_bind, (wp_intro _ _ c0 s); [by apply channel_at_run|].
  destruct (Z.eqb_spec (irq ch) (irq c0)) as [_|N]; [by apply keeps_interrupt_on; [lia|]|].
  apply wp_bind, (wp_intro _ _ c1 s); [by apply channel_at_run|].
  destruct c as [|[|]]; [congruence| |lia]. assert (c1 = ch) as -> by congruence.
  rewrite Z.eqb_refl. by apply keeps_interrupt_on; [lia|].
Qed.

Lemma keeps_sema_down c : (c < 2)%nat → keeps (channel_sema_down c) (λ _, True).
Proof.
  intros Hc hs s Hs. destruct (lookup_lt_is_Some_2 (channels s) c) as [ch E];
    [by rewrite (safe_channels _ _ Hs)|].
  unfold channel_sema_down. apply wp_bind, (wp_intro _ _ ch s); [by apply channel_at_run|].
  apply wp_bind. eapply (wp_mono _ (λ _ s', safe hs s' ∧ True)).
  - apply wp_when; [|done]. intros _. apply wp_bind, wp_get. destruct (hw_wait _ _) as [h|]; [|done].
    apply wp_bind, wp_modify. apply (wp_interrupt c); [done| |done]. destruct Hs. by split.
  - clear s Hs E ch. intros [] s [Hs _]. revert hs s Hs.
    change (keeps (channel_at c ≫= λ ch, if completion_wait ch =? 0 then waits
      else set_channel c (λ ch, ch <| completion_wait := completion_wait ch - 1 |>)) (λ _, True)).
    keeps.
Qed.

Lemma keeps_slave_loop n c : (c < 2)%nat → keeps (slave_loop n c) (λ _, True).
Proof. intros Hc. induction n as [|n IH]; cbn [slave_loop]; keeps. exact IH. Qed.

Lemma keeps_reset_channel c : (c < 2)%nat → keeps (reset_channel c) (λ _, True).
Proof.
  intros Hc. unfold reset_channel.
  apply keeps_seq; [apply keeps_detect; simpl; lia|intros p0].
  apply keeps_seq; [apply keeps_detect; simpl; lia|intros p1].
  keeps; lazymatch goal with
    | |- keeps (select_device _) _ => apply keeps_select_device
    | |- keeps (wait_while_busy _) _ => apply keeps_wait_while_busy
    | |- keeps (slave_loop _ _) _ => apply keeps_slave_loop
    end; simpl; lia.
Qed.

Lemma keeps_block_register name extra size d : 0 ≤ size < 2 ^ 32 →
  keeps (block_register name extra size d) (λ _, True).
Proof.
  intros Hs. unfold block_register.
  apply keeps_seq; [intros hs s [? ? ? ?]; by split|intros _].
  apply keeps_seq; [apply keeps_lift|intros t].
  { destruct (format_integer_ok size false false base_d (mk_conversion GROUP 0 (-1) INT)) as [t ->]; [by left|lia|done]. }
  apply keeps_seq; [keeps|intros _]. apply keeps_seq; [apply keeps_lift, print_human_ok|intros h]. keeps.
Qed.

Lemma capacity_bound id : Forall is_byte id → 0 ≤ Bytes.le (slice 120 4 id) < 2 ^ 32.
Proof.
  intros Hid. pose proof (Bytes.le_bound (slice 120 4 id) (slice_bytes _ _ _ Hid)) as Hb.
  assert (length (slice 120 4 id) ≤ 4)%nat by (unfold slice; rewrite length_take; lia).
  assert (256 ^ Z.of_nat (length (slice 120 4 id)) ≤ 256 ^ 4) by (apply Z.pow_le_mono_r; lia). lia.
Qed.

(** The disk is an ATA disk when it is identified. *)
Lemma keeps_identify_if_ata d : (d.1 < 2)%nat → (d.2 < 2)%nat → keeps (identify_if_ata d) (λ _, True).
Proof.
  intros Hc Hi hs s Hs. unfold identify_if_ata. destruct (lookup_lt_is_Some_2 (channels s) d.1) as [ch E];
    [by rewrite (safe_channels _ _ Hs)|].
  destruct (lookup_lt_is_Some_2 (devices ch) d.2) as [a Ea]; [by rewrite (safe_devices _ _ Hs _ _ E)|].
  apply wp_bind, (wp_intro _ _ a s); [by apply (disk_at_run d ch)|].
  apply wp_when; [intros Hata|done]. unfold identify_ata_device.
  apply wp_bind, (wp_intro _ _ a s); [by apply (disk_at_run d ch)|].
  apply wp_bind, wp_check; [done|]. revert hs s Hs E.
  match goal with |- ∀ hs s, _ → _ → wp ?m _ s => enough (keeps m (λ _, True)) as G
    by (intros; by apply G) end.
  apply keeps_seq; [by apply keeps_select_device_wait|intros _].
  apply keeps_seq; [by apply keeps_issue|intros _]. apply keeps_seq; [by apply keeps_sema_down|intros _].
  apply keeps_seq; [by apply keeps_wait_while_busy|intros ready]. unfold set_is_ata.
  destruct (negb ready); [keeps|]. eapply keeps_bind; [by apply keeps_input_sector|]. intros id Hid.
  cbv zeta. destruct (_ <=? _); [|by apply keeps_block_register, capacity_bound].
  apply keeps_seq; [keeps|intros _]. apply keeps_seq; [apply keeps_lift, print_human_ok|intros h]. keeps.
Qed.

Lemma wp_init_channel c hs s : (c < 2)%nat → safe hs s → 46 + Z.of_nat c ∉ hs →
  wp (init_channel c) (λ _ s', safe (hs ++ [46 + Z.of_nat c]) s') s.
Proof.
  intros Hc Hs Hn. unfold init_channel. apply wp_bind, wp_modify.
  set (s1 := s <| channels := _ |>). assert (safe hs s1) as Hs1
    by (eapply proj1, (keeps_set_channel c (λ _, fresh_channel c)); [done|exact Hs]).
  assert (channels s1 !! c = Some (fresh_channel c)) as E.
  { simpl. rewrite list_lookup_alter_eq. destruct (lookup_lt_is_Some_2 (channels s) c) as [ch ->];
      [by rewrite (safe_channels _ _ Hs)|done]. }
  apply wp_bind, (wp_intro _ _ (fresh_channel c) s1); [by apply channel_at_run|].
  replace (irq (fresh_channel c)) with (46 + Z.of_nat c) by (destruct c as [|[|]]; [done|done|lia]).
  apply wp_bind. unfold intr_register_ext. apply wp_bind, wp_get.
  rewrite (safe_handlers _ _ Hs1), bool_decide_eq_false_2 by done.
  apply wp_bind, wp_check; [cbn [negb andb]; rewrite !andb_true_iff, !Z.leb_le; lia|]. apply wp_modify.
  set (s2 := s1 <| handlers := _ |>). assert (safe (hs ++ [46 + Z.of_nat c]) s2) as Hs2.
  { destruct Hs1 as [? ? ? E1]. split; [done|done|done|]. by rewrite <- E1. }
  clearbody s2. clear s1 Hs1 E. apply (wp_mono _ (λ _ s', safe (hs ++ [46 + Z.of_nat c]) s' ∧ True)); [|by intros [] s' [G _]].
  revert s2 Hs2. generalize (hs ++ [46 + Z.of_nat c]).
  match goal with |- ∀ hs s, _ → wp ?m _ s => change (keeps m (λ _, True)) end.
  apply keeps_seq; [by apply keeps_reset_channel|intros _].
  apply keeps_seq; [apply keeps_check_device_type; simpl; lia|intros sl].
  apply keeps_seq; [apply keeps_when, keeps_seq; [apply keeps_check_device_type; simpl; lia|intros _; by apply keeps_ret]|intros _].
  apply keeps_seq; [|intros _]; apply keeps_identify_if_ata; simpl; lia.
Qed.

(** The detection of the disks does not panic. *)
Lemma ide_init_safe hs s : safe hs s → 46 ∉ hs → 47 ∉ hs →
  wp ide_init (λ _ s', safe (hs ++ [46; 47]) s') s.
Proof.
  intros Hs H46 H47. unfold ide_init. apply wp_bind.
  eapply wp_mono; [by apply (wp_init_channel 0 hs); [lia|..]|]. intros [] s1 Hs1.
  eapply wp_mono; [apply (wp_init_channel 1 (hs ++ [46]) s1); [lia|done|set_solver]|].
  intros [] s2 Hs2. by rewrite <- app_assoc in Hs2.
Qed.
End Safe.

(** ** A controller that keeps the protocol *)

Module Model.

Record controller := mk_controller { primary : ata; secondary : ata }.

Definition chan (c : nat) (h : controller) : ata := match c with O => primary h | _ => secondary h end.
Definition set_chan (c : nat) (a : ata) (h : controller) : controller :=
  match c with O => mk_controller a (secondary h) | _ => mk_controller (primary h) a end.

(** The channel and the register that a port belongs to. *)
Definition decode (port : Z) : option (nat * Z) :=
  if (496 <=? port) && (port <=? 503) then Some (0%nat, port - 496)
  else if port =? 1014 then Some (0%nat, 518)
  else if (368 <=? port) && (port <=? 375) then Some (1%nat, port - 368)
  else if port =? 886 then Some (1%nat, 518)
  else None.

Definition status (a : ata) : Z :=
  match busy a with O => if data_request a then 72 else 64 | _ => 128 end.

Definition in_byte (k : Z) (a : ata) : Z * ata :=
  if k =? 7 then (status a, acknowledge a) else if k =? 518 then (status a, poll a) else (0, a).

Definition command (v : Z) (a : ata) : ata :=
  if v =? CMD_READ_SECTOR_RETRY then
    a <| busy := 5%nat |> <| pending := true |>
      <| ph := match target a with Some b => DataIn (words_of b) | None => Idle end |>
  else if v =? CMD_WRITE_SECTOR_RETRY then
    match target a with
    | Some b => a <| busy := 2%nat |> <| ph := DataOut (Z.to_nat (lba a)) [] |>
    | None => a <| busy := 2%nat |> <| pending := true |>
    end
  else a.

Definition out_byte (k v : Z) (a : ata) : ata :=
  if k =? 2 then a <| a_nsect := v |>
  else if k =? 3 then a <| a_lbal := v |>
  else if k =? 4 then a <| a_lbam := v |>
  else if k =? 5 then a <| a_lbah := v |>
  else if k =? 6 then
    let d := if Z.testbit v 4 then 1%nat else 0%nat in
    a <| a_dev := v |> <| sel := d |> <| busy := if decide (sel a = d) then 0%nat else 3%nat |>
  else if k =? 7 then command v a
  else a.

Definition in_word (a : ata) : Z * ata :=
  match ph a with
  | DataIn (w :: ws) => (w, a <| ph := match ws with [] => Idle | _ => DataIn ws end |>)
  | _ => (0, a)
  end.

Definition out_word (w : Z) (a : ata) : ata :=
  match ph a with
  | DataOut n ws =>
      if (length ws <? 255)%nat then a <| ph := DataOut n (ws ++ [w]) |>
      else a <| ph := Idle |> <| drives := store a n (ws ++ [w]) |> <| busy := 4%nat |> <| pending := true |>
  | _ => a
  end.

Definition on {A} (port : Z) (dflt : A) (f : Z → ata → A * ata) (h : controller) : A * controller :=
  match decode port with
  | Some (c, k) => let '(v, a) := f k (chan c h) in (v, set_chan c a h)
  | None => (dflt, h)
  end.

#[export] Instance controller_hw : Hw controller := {
  hw_inb port := on port 0 in_byte;
  hw_inw port := on port 0 (λ _, in_word);
  hw_outb port v h := (on port tt (λ k a, (tt, out_byte k v a)) h).2;
  hw_outw port v h := (on port tt (λ _ a, (tt, out_word v a)) h).2;
  hw_wait port h :=
    match decode port with
    | Some (c, _) =>
        if pending (chan c h) then Some (set_chan c ((chan c h) <| busy := 0%nat |>) h) else None
    | None => None
    end;
}.

Lemma decode_base c k : (c < 2)%nat → 0 ≤ k ≤ 7 → decode (base c + k) = Some (c, k).
Proof.
  intros Hc Hk. unfold decode. destruct c as [|[|]]; cbn [base]; [| |lia].
  - rewrite (proj2 (Z.leb_le 496 _)), (proj2 (Z.leb_le _ 503)) by lia. cbn [andb]. do 2 f_equal. lia.
  - rewrite (proj2 (Z.leb_gt 496 _)) by lia. cbn [andb].
    rewrite (proj2 (Z.eqb_neq _ 1014)), (proj2 (Z.leb_le 368 _)), (proj2 (Z.leb_le _ 375)) by lia.
    cbn [andb]. do 2 f_equal. lia.
Qed.

Lemma decode_alt c : (c < 2)%nat → decode (base c + 518) = Some (c, 518).
Proof. intros Hc. by destruct c as [|[|]]; [| |lia]. Qed.

Lemma decode_data c : (c < 2)%nat → decode (base c) = Some (c, 0).
Proof. intros Hc. rewrite <- (Z.add_0_r (base c)). by apply decode_base. Qed.

Lemma chan_set c a h : (c < 2)%nat → chan c (set_chan c a h) = a.
Proof. intros. by destruct c as [|[|]]; [| |lia]. Qed.

Lemma chan_set_ne c c' a h : (c < 2)%nat → (c' < 2)%nat → c ≠ c' → chan c' (set_chan c a h) = chan c' h.
Proof. intros. by destruct c as [|[|]], c' as [|[|]]; try lia. Qed.

Lemma on_chan {A} c k port (dflt : A) f h : decode port = Some (c, k) →
  on port dflt f h = ((f k (chan c h)).1, set_chan c (f k (chan c h)).2 h).
Proof. unfold on. intros ->. by destruct (f k (chan c h)). Qed.

Lemma status_ok a : status_of a (status a).
Proof. unfold status_of, status. destruct (busy a); [by destruct (data_request a)|by split]. Qed.

#[export] Instance controller_ata : Ata controller.
Proof.
  refine {| ata_of := chan |}.
  - intros c c' k h Hc Hc' Hne Hk. simpl.
    rewrite (on_chan c k); [by apply chan_set_ne|]. destruct Hk as [| ->]; [by apply decode_base|by apply decode_alt].
  - intros c c' h Hc Hc' Hne. simpl. rewrite (on_chan c 0); [by apply chan_set_ne|by apply decode_data].
  - intros c c' k v h Hc Hc' Hne Hk. simpl. rewrite (on_chan c k); [by apply chan_set_ne|by apply decode_base].
  - intros c c' v h Hc Hc' Hne. simpl. rewrite (on_chan c 0); [by apply chan_set_ne|by apply decode_data].
  - intros c c' h h' Hc Hc' Hne. simpl. rewrite decode_data by done.
    destruct (pending (chan c h)); [|done]. intros [= <-]. by apply chan_set_ne.
  - intros c h Hc. simpl. rewrite (on_chan c 7) by (by apply decode_base). simpl.
    split; [apply status_ok|by apply chan_set].
  - intros c h Hc. simpl. rewrite (on_chan c 518) by (by apply decode_alt). simpl.
    split; [apply status_ok|by apply chan_set].
  - intros c h v Hc _ _. simpl. rewrite (on_chan c 2) by (by apply decode_base). by apply chan_set.
  - intros c h v Hc _ _. simpl. rewrite (on_chan c 3) by (by apply decode_base). by apply chan_set.
  - intros c h v Hc _ _. simpl. rewrite (on_chan c 4) by (by apply decode_base). by apply chan_set.
  - intros c h v Hc _ _. simpl. rewrite (on_chan c 5) by (by apply decode_base). by apply chan_set.
  - intros c h v Hc _ _. simpl. rewrite (on_chan c 6) by (by apply decode_base). cbn [fst snd]. rewrite chan_set by done.
    exists (if decide (sel (chan c h) = if Z.testbit v 4 then 1%nat else 0%nat) then 0%nat else 3%nat).
    split; [|split; [|reflexivity]]; destruct (decide _); first [lia|done].
  - intros c h Hc _. exists 5%nat. simpl. rewrite (on_chan c 7) by (by apply decode_base). cbn [fst snd].
    rewrite chan_set by done. split; [lia|done].
  - intros c h Hc _. exists 2%nat. simpl. rewrite (on_chan c 7) by (by apply decode_base). cbn [fst snd].
    rewrite chan_set by done. split; [lia|done].
  - intros c h w ws Hc _ Hp. simpl. rewrite (on_chan c 0) by (by apply decode_data). cbn [fst snd].
    rewrite chan_set by done. unfold in_word. by rewrite Hp.
  - intros c h n w ws Hc _ Hp. exists 4%nat. simpl. rewrite (on_chan c 0) by (by apply decode_data). cbn [fst snd].
    rewrite chan_set by done. split; [lia|]. unfold out_word. by rewrite Hp.
  - intros c h Hc Hp. simpl. rewrite decode_data, Hp by done. eexists. split; [done|]. by apply chan_set.
Defined.
End Model.

(** ** An IDE disk is a block device

    [ide_operations] and the driver's state as an instance of what the block
    layer asks of a driver.  A read also changes the state of the driver and of
    the controller; the type of [dev_read] has no place for it, and
    [ide_refines_disk] says that it does not matter. *)

Record ide_disk (H : Type) := mk_ide_disk { x_state : ide H; x_ref : disk_ref }.
Arguments mk_ide_disk {H} _ _.
Arguments x_state {H} _.
Arguments x_ref {H} _.

#[export] Instance ide_operations {H} `{Hw H} : BlockOps (ide_disk H) := {
  dev_read x sec_no :=
    match ide_read (x_ref x) sec_no (x_state x) with Ret b _ => Some b | _ => None end;
  dev_write x sec_no b :=
    match ide_write (x_ref x) sec_no b (x_state x) with
    | Ret _ s => Some (mk_ide_disk s (x_ref x))
    | _ => None
    end;
}.

Definition ide_sectors {H} `{Ata H} (x : ide_disk H) : list (list Z) :=
  default [] (mjoin (drives (ata_of (x_ref x).1 (hw (x_state x))) !! (x_ref x).2)).

Definition ide_ok {H} `{Ata H} (x : ide_disk H) : Prop :=
  implements (x_state x) {[ x_ref x := mk_disk (ide_sectors x) ]}.

Lemma implements_sectors {H} `{Ata H} (s : ide H) d dk : implements s {[ d := dk ]} →
  ide_sectors (mk_ide_disk s d) = d_sectors dk.
Proof.
  intros I. destruct (i_disk _ _ I d dk (lookup_singleton_eq _ _)) as (_ & _ & E & _).
  unfold ide_sectors. simpl. by rewrite E.
Qed.

#[export] Instance ide_dev {H} `{Ata H} : BlockDev (ide_disk H).
Proof.
  refine {| dev_data := ide_sectors; dev_ok := ide_ok |}.
  - intros x I. by destruct (i_disk _ _ I _ _ (lookup_singleton_eq _ _)) as (_ & _ & _ & ? & _).
  - intros [s d] n b I E Hn. unfold ide_ok in I. simpl in *.
    pose proof (do_op_ok (Read d n) s _ (mk_disk (ide_sectors (mk_ide_disk s d))) I Hn
      (lookup_singleton_eq _ _)) as G.
    unfold spec_op in G. simpl in G. rewrite lookup_singleton_eq in G. simpl in G. rewrite E in G.
    simpl in G. by destruct G as (s' & -> & _).
  - intros [s d] n old b I E Hn Hb. unfold ide_ok in I. simpl in *.
    pose proof (do_op_ok (Write d n b) s _ (mk_disk (ide_sectors (mk_ide_disk s d))) I (conj Hn Hb)
      (lookup_singleton_eq _ _)) as G.
    unfold spec_op in G. simpl in G. rewrite lookup_singleton_eq in G. simpl in G. rewrite E in G.
    simpl in G. destruct G as (s' & G & I' & _). rewrite insert_singleton_eq in I'.
    assert (∃ v, ide_write d n b s = Ret v s') as [v ->].
    { unfold mbind, M_bind in G. destruct (ide_write d n b s) as [v s1| |]; [|done|done].
      injection G as <-. by exists v. }
    eexists. split; [done|]. pose proof (implements_sectors _ _ _ I') as Es. split; [|exact Es].
    unfold ide_ok. simpl. by rewrite Es.
Defined.

(** ** The names of a disk *)

Lemma swap_pairs_length s : length (swap_pairs s) = length s.
Proof.
  assert (∀ n s, (length s < n)%nat → length (swap_pairs s) = length s) as G; [|by apply (G (S (length s))); lia].
  induction n as [|n IH]; [lia|]. intros [|a [|b l]] Hl; [done|done|]. cbn [swap_pairs length] in *.
  rewrite IH; lia.
Qed.

Lemma swap_pairs_twice s : swap_pairs (swap_pairs s) = s.
Proof.
  assert (∀ n s, (length s < n)%nat → swap_pairs (swap_pairs s) = s) as G; [|by apply (G (S (length s))); lia].
  induction n as [|n IH]; [lia|]. intros [|a [|b l]] Hl; [done|done|]. cbn [swap_pairs length] in *.
  rewrite IH; [done|lia].
Qed.

Definition blank (c : Z) : Prop := (c =? 0) || isspace c = true.

Lemma trim_loop_ok w pad k : (k ≤ length pad)%nat → Forall blank (take k pad) →
  (∀ c, last w = Some c → ¬ blank c) → trim_loop (length w + k) (w ++ pad) = length w.
Proof.
  intros Hk HF Hw. unfold blank in *. induction k as [|k IH].
  - rewrite Nat.add_0_r. destruct w as [|c0 w0] using rev_ind; [done|]. clear IHw0.
    pose proof (Hw c0 (last_snoc _ _)) as Hn.
    rewrite length_app. simpl. rewrite Nat.add_1_r. cbn [trim_loop].
    rewrite lookup_app_l, lookup_app_r, Nat.sub_diag by (rewrite ?length_app; simpl; lia). simpl.
    by destruct (c0 =? 0), (isspace c0).
  - rewrite Nat.add_succ_r. cbn [trim_loop]. rewrite lookup_app_r by lia.
    replace (length w + k - length w)%nat with k by lia.
    destruct (lookup_lt_is_Some_2 pad k) as [c Hc]; [lia|]. rewrite Hc.
    assert (take (S k) pad !! k = Some c) as Hc' by (rewrite lookup_take_lt; [done|lia]).
    pose proof (Forall_lookup_1 _ _ _ _ HF Hc') as Hs. simpl in Hs.
    assert (Forall (λ c, (c =? 0) || isspace c = true) (take k pad)) as HF'.
    { replace (take k pad) with (take k (take (S k) pad)) by (rewrite take_take; f_equal; lia).
      by apply Forall_take. }
    destruct (c =? 0), (isspace c); simpl in *; try done; apply IH; (lia || done).
Qed.

Lemma chars_app w s : Forall (λ c, c ≠ 0) w → chars (w ++ 0 :: s) = w.
Proof. induction 1 as [|c w Hc _ IH]; [done|]. simpl. rewrite IH. by rewrite (proj2 (Z.eqb_neq _ _)). Qed.

(** A string padded with white space or null bytes, whose bytes are swapped, is
    put in order, except that its last byte is lost when there is no padding. *)
Lemma descramble_ok w pad : Forall (λ c, c ≠ 0) w → (∀ c, last w = Some c → ¬ blank c) →
  pad ≠ [] → Forall blank (take (length pad - 1) pad) →
  chars (descramble_ata_string (swap_pairs (w ++ pad))) = w.
Proof.
  intros Hw Hl Hp HF. unfold descramble_ata_string. rewrite swap_pairs_twice.
  destruct pad as [|c pad]; [done|].
  replace (length (w ++ c :: pad) - 1)%nat with (length w + (length (c :: pad) - 1))%nat
    by (rewrite length_app; simpl; lia).
  rewrite trim_loop_ok by (simpl in *; auto with lia).
  rewrite insert_app_r_alt, Nat.sub_diag by lia. simpl. by apply chars_app.
Qed.

(** ** The properties *)

(** C13: The IDE driver is an array of sectors.  On every controller that keeps the
    ATA protocol, any sequence of reads and writes on the four disks gives the
    results of the same sequence on disks in memory, and leaves the driver ready
    for the next: the sector number reaches the controller whole, all 256 words
    are moved, each command is waited for whatever the time the controller takes
    within the limits, and the disks do not disturb one another.  A sector that a
    disk does not have is the only reason for the driver to panic. *)
Theorem ide_refines_disk {H} `{Ata H} (os : list op) (s : ide H) σ :
  implements s σ → Forall valid_op os → Forall (λ o, op_disk o ∈ dom σ) os →
  match spec_ops os σ with
  | Some (rs, σ') => ∃ s', do_ops os s = Ret rs s' ∧ implements s' σ'
  | None => do_ops os s = Panic
  end.
Proof.
  intros I V. revert s σ I. induction V as [|o os Ho V IH]; intros s σ I HD.
  - by exists s.
  - apply Forall_cons in HD as [Hd HD]. apply elem_of_dom in Hd as [dk Hd].
    pose proof (do_op_ok o s σ dk I Ho Hd) as G. cbn [spec_ops do_ops].
    destruct (spec_op o σ) as [[r σ1]|]; cbn [mbind option_bind]; [|by apply bind_Panic].
    destruct G as (s1 & E & I1 & D). rewrite (bind_Ret _ _ _ _ _ E).
    specialize (IH s1 σ1 I1 ltac:(by rewrite D)).
    destruct (spec_ops os σ1) as [[rs σ2]|]; cbn [mbind option_bind]; [|by apply bind_Panic].
    destruct IH as (s2 & E2 & I2). exists s2. by rewrite (bind_Ret _ _ _ _ _ E2).
Qed.

Import Model.

Definition zero_sector : list Z := replicate 512 0.
Definition sample_sector : list Z := replicate 512 165.

(** Two drives on the first channel, which is still busy, and none on the second. *)
Definition sample_ide : ide controller :=
  mk_ide
    (mk_controller
       (mk_state [Some (replicate 3 zero_sector); Some (replicate 2 zero_sector)] 1 0 0 0 0 0 7 Idle false)
       (mk_state [None; None] 0 0 0 0 0 0 0 Idle false))
    [fresh_channel 0; fresh_channel 1] 1 true 5000 [] [] [46; 47] [].

Definition sample_disks : gmap disk_ref disk :=
  {[ (0, 0)%nat := mk_disk (replicate 3 zero_sector); (0, 1)%nat := mk_disk (replicate 2 zero_sector) ]}.

Lemma sample_sectors n : Forall sector_ok (replicate n zero_sector).
Proof. apply Forall_replicate. split; [done|]. apply Forall_replicate. unfold is_byte. lia. Qed.

Lemma sample_implements : implements sample_ide sample_disks.
Proof.
  split; [done|by vm_compute| |].
  - intros [|[|]] Hc; [..|lia]; eexists; (split; [reflexivity|]); split; try done; cbn; lia.
  - intros d dk. unfold sample_disks.
    rewrite lookup_insert_Some, lookup_singleton_Some. intros [[<- <-]|[_ [<- <-]]];
      (split; [cbn; lia|]); (split; [cbn; lia|]); (split; [reflexivity|]);
      (split; [apply sample_sectors|cbn; lia]).
Qed.

Lemma ide_refines_disk_witness :
  ∃ s, do_ops [Write (0, 1)%nat 1 sample_sector; Read (0, 0)%nat 1; Read (0, 1)%nat 1] sample_ide
       = Ret [[]; zero_sector; sample_sector] s.
Proof.
  pose proof (ide_refines_disk [Write (0, 1)%nat 1 sample_sector; Read (0, 0)%nat 1; Read (0, 1)%nat 1]
    sample_ide sample_disks sample_implements) as G.
  assert (spec_ops [Write (0, 1)%nat 1 sample_sector; Read (0, 0)%nat 1; Read (0, 1)%nat 1] sample_disks
    = Some ([[]; zero_sector; sample_sector],
        <[(0, 1)%nat := mk_disk [zero_sector; sample_sector]]> sample_disks)) as E
    by (vm_compute; reflexivity).
  rewrite E in G. destruct G as (s & Hs & _).
  - apply Forall_cons; split; [split; [lia|]|].
    + split; [done|]. apply Forall_replicate. unfold is_byte. lia.
    + apply Forall_cons; split; [cbn; lia|]. apply Forall_cons; split; [cbn; lia|by apply Forall_nil].
  - apply Forall_forall. intros o Ho. apply elem_of_dom.
    apply elem_of_cons in Ho as [->|Ho]; [by eexists|]. apply elem_of_cons in Ho as [->|Ho]; [by eexists|].
    apply list_elem_of_singleton in Ho as ->. by eexists.
  - by exists s.
Defined.
