(* ===== verification/Intr.v ===== *)
(** * Interrupt and segment tables ([threads/interrupt.c], [userprog/gdt.c],
      [userprog/tss.c], [userprog/exception.c])

    The descriptors the processor reads, the tables they are in, the
    registration of handlers and the common interrupt handler, the two interrupt
    controllers, and the handlers of exceptions.  The interrupt stubs are in
    assembly: their addresses are a parameter.  A handler is known by a number;
    what it does to the state is a parameter of the common handler.

    [gate_of] and [segment_of] read a descriptor as the processor does, field by
    field.  The theorems: after any registrations the interrupt table is well
    formed, and a user program can raise exactly the interrupts that were
    registered for it; the tables the kernel sets up when it boots; the common
    handler. *)

From Stdlib Require Import String.
From S2P Require Import Prelude Machine Stdio Io.

Open Scope Z_scope.

(** ** Selectors ([threads/loader.h], [userprog/gdt.h]) *)

Definition SEL_NULL : Z := 0.
Definition SEL_KCSEG : Z := 8.
Definition SEL_KDSEG : Z := 16.
Definition SEL_UCSEG : Z := 27.
Definition SEL_UDSEG : Z := 35.
Definition SEL_TSS : Z := 40.
Definition SEL_CNT : nat := 6.

(** ** Descriptors *)

Definition make_gate (function dpl type : Z) : option Z :=
  assert! negb (function =? NULL);
  assert! (0 <=? dpl) && (dpl <=? 3);
  assert! (0 <=? type) && (type <=? 15);
  let e0 := Z.lor (Z.land function 65535) (Z.shiftl SEL_KCSEG 16) in
  let e1 :=
    Z.lor (Z.lor (Z.lor (Z.lor (Z.land function 4294901760) (Z.shiftl 1 15))
      (Z.shiftl dpl 13)) (Z.shiftl 0 12)) (Z.shiftl type 8) in
  Some (Z.lor e0 (Z.shiftl e1 32)).

Definition make_intr_gate (function dpl : Z) : option Z := make_gate function dpl 14.
Definition make_trap_gate (function dpl : Z) : option Z := make_gate function dpl 15.

Definition make_idtr_operand (limit base : Z) : Z := Z.lor limit (Z.shiftl (u32 base) 16).
Definition make_gdtr_operand (limit base : Z) : Z := Z.lor limit (Z.shiftl (u32 base) 16).

Definition CLS_SYSTEM : Z := 0.
Definition CLS_CODE_DATA : Z := 1.
Definition GRAN_BYTE : Z := 0.
Definition GRAN_PAGE : Z := 1.

Definition make_seg_desc (base limit class type dpl granularity : Z) : option Z :=
  assert! limit <=? 1048575;
  assert! (class =? CLS_SYSTEM) || (class =? CLS_CODE_DATA);
  assert! (0 <=? type) && (type <=? 15);
  assert! (0 <=? dpl) && (dpl <=? 3);
  assert! (granularity =? GRAN_BYTE) || (granularity =? GRAN_PAGE);
  let e0 := Z.lor (Z.land limit 65535) (u32 (Z.shiftl base 16)) in
  let e1 :=
    Z.lor (Z.lor (Z.lor (Z.lor (Z.lor (Z.lor (Z.lor (Z.lor
      (Z.land (Z.shiftr base 16) 255)
      (Z.shiftl type 8))
      (Z.shiftl class 12))
      (Z.shiftl dpl 13))
      (Z.shiftl 1 15))
      (Z.land limit 983040))
      (Z.shiftl 1 22))
      (Z.shiftl granularity 23))
      (Z.land base 4278190080) in
  Some (Z.lor e0 (Z.shiftl e1 32)).

Definition make_code_desc (dpl : Z) : option Z :=
  make_seg_desc 0 1048575 CLS_CODE_DATA 10 dpl GRAN_PAGE.
Definition make_data_desc (dpl : Z) : option Z :=
  make_seg_desc 0 1048575 CLS_CODE_DATA 2 dpl GRAN_PAGE.
Definition make_tss_desc (laddr : Z) : option Z :=
  make_seg_desc laddr 103 CLS_SYSTEM 9 0 GRAN_BYTE.

(** ** The processor's reading of a descriptor *)

(** [n] bits of [d] from bit [lo] on. *)
Definition bits (lo n d : Z) : Z := Z.shiftr d lo mod 2 ^ n.

Record gate := mk_gate {
  g_offset : Z;
  g_selector : Z;
  g_type : Z;
  g_system : bool;
  g_dpl : Z;
  g_present : bool;
}.

Definition gate_of (d : Z) : gate :=
  mk_gate (bits 0 16 d + 2 ^ 16 * bits 48 16 d) (bits 16 16 d) (bits 40 4 d)
    (bits 44 1 d =? 0) (bits 45 2 d) (bits 47 1 d =? 1).

Record segment := mk_segment {
  s_base : Z;
  s_limit : Z;
  s_type : Z;
  s_class : Z;
  s_dpl : Z;
  s_present : bool;
  s_32bit : bool;
  s_granularity : Z;
}.

Definition segment_of (d : Z) : segment :=
  mk_segment (bits 16 24 d + 2 ^ 24 * bits 56 8 d) (bits 0 16 d + 2 ^ 16 * bits 48 4 d)
    (bits 40 4 d) (bits 44 1 d) (bits 45 2 d) (bits 47 1 d =? 1) (bits 54 1 d =? 1) (bits 55 1 d).

(** ** Bit fields are sums *)

Lemma land_low n x : 0 ≤ n → Z.land x (2 ^ n - 1) = x mod 2 ^ n.
Proof. intros Hn. rewrite <- Z.land_ones by done. by rewrite Z.ones_equiv, <- Z.sub_1_r. Qed.

(** The bits of [x] from [n] to [m]. *)
Lemma land_high n m x : 0 ≤ n ≤ m → 0 ≤ x → Z.land x (2 ^ m - 2 ^ n) = x mod 2 ^ m / 2 ^ n * 2 ^ n.
Proof.
  intros Hn Hx. replace (2 ^ m - 2 ^ n) with (Z.shiftl (2 ^ (m - n) - 1) n).
  2: { rewrite Z.shiftl_mul_pow2, Z.mul_sub_distr_r, <- Z.pow_add_r by lia. f_equal; [f_equal; lia|lia]. }
  rewrite <- Z.shiftl_mul_pow2, <- Z.shiftr_div_pow2 by lia. apply Z.bits_inj'. intros i Hi.
  rewrite Z.land_spec. destruct (decide (i < n)).
  - by rewrite !Z.shiftl_spec_low, andb_false_r by lia.
  - rewrite !Z.shiftl_spec, Z.shiftr_spec by lia. replace (i - n + n) with i by lia.
    replace (2 ^ (m - n) - 1) with (Z.ones (m - n)) by (rewrite Z.ones_equiv; lia).
    rewrite Z.testbit_ones_nonneg by lia. destruct (Z.ltb_spec (i - n) (m - n)).
    + by rewrite andb_true_r, Z.mod_pow2_bits_low by lia.
    + by rewrite andb_false_r, Z.mod_pow2_bits_high by lia.
Qed.

(** [p] has no bits below [n]. *)
Lemma lor_multiple n q p f : 0 ≤ n → p = q * 2 ^ n → 0 ≤ f < 2 ^ n → Z.lor p f = p + f.
Proof. intros Hn -> Hf. apply (lor_low n); [done| |done]. apply Z.mod_mul. lia. Qed.

Lemma make_gate_sum f dpl ty : is_u32 f → f ≠ 0 → 0 ≤ dpl ≤ 3 → 0 ≤ ty ≤ 15 →
  make_gate f dpl ty =
  Some (f mod 2 ^ 16 + 2 ^ 16 * SEL_KCSEG
        + 2 ^ 32 * (2 ^ 8 * ty + 2 ^ 13 * dpl + 2 ^ 15 + 2 ^ 16 * (f / 2 ^ 16))).
Proof.
  intros Hf Hn Hd Ht. unfold is_u32 in Hf. unfold make_gate.
  rewrite (proj2 (Z.eqb_neq f NULL)) by done. cbn [negb ASSERT mbind option_bind].
  rewrite ASSERT_true by (rewrite andb_true_iff, !Z.leb_le; lia). cbn [mbind option_bind].
  rewrite ASSERT_true by (rewrite andb_true_iff, !Z.leb_le; lia). cbn [mbind option_bind].
  change 65535 with (2 ^ 16 - 1). rewrite land_low by lia.
  change 4294901760 with (2 ^ 32 - 2 ^ 16). rewrite land_high, (Z.mod_small f (2 ^ 32)) by lia.
  assert (0 ≤ f / 2 ^ 16 < 2 ^ 16) by (split; [apply Z.div_pos|apply Z.div_lt_upper_bound]; lia).
  pose proof (Z.mod_pos_bound f (2 ^ 16)).
  rewrite (Z.lor_comm (f mod 2 ^ 16)), lor_shiftl by lia. rewrite Z.shiftl_0_l, Z.lor_0_r.
  rewrite !Z.shiftl_mul_pow2 by lia. set (h := f / 2 ^ 16) in *.
  rewrite (lor_multiple 16 h (h * 2 ^ 16)) by lia.
  rewrite (lor_multiple 15 (2 * h + 1) (h * 2 ^ 16 + 1 * 2 ^ 15)) by lia.
  rewrite (lor_multiple 13 (8 * h + 4 + dpl) (_ + dpl * 2 ^ 13)) by lia.
  rewrite Z.lor_comm, (lor_multiple 32 (h * 2 ^ 16 + 1 * 2 ^ 15 + dpl * 2 ^ 13 + ty * 2 ^ 8)) by (unfold SEL_KCSEG; lia).
  f_equal. lia.
Qed.

(** A field with what is below and above it. *)
Lemma bits_at lo n d l v h : 0 ≤ lo → 0 ≤ n → d = l + 2 ^ lo * (v + 2 ^ n * h) →
  0 ≤ l < 2 ^ lo → 0 ≤ v < 2 ^ n → bits lo n d = v.
Proof.
  intros Hlo Hn -> Hl Hv. unfold bits. rewrite Z.shiftr_div_pow2 by done.
  rewrite (Z.mul_comm (2 ^ lo)), Z.div_add, (Z.div_small l) by lia.
  rewrite Z.add_0_l, (Z.mul_comm (2 ^ n)), Z.mod_add by lia. by apply Z.mod_small.
Qed.

(** The processor finds in a gate what the kernel put there. *)
Lemma gate_of_make f dpl ty g : is_u32 f → f ≠ 0 → 0 ≤ dpl ≤ 3 → 0 ≤ ty ≤ 15 →
  make_gate f dpl ty = Some g → gate_of g = mk_gate f SEL_KCSEG ty true dpl true.
Proof.
  intros Hf Hn Hd Ht E. rewrite make_gate_sum in E by done. injection E as <-. unfold is_u32 in Hf.
  pose proof (Z.div_mod f (2 ^ 16)). pose proof (Z.mod_pos_bound f (2 ^ 16)).
  assert (0 ≤ f / 2 ^ 16 < 2 ^ 16) by (split; [apply Z.div_pos|apply Z.div_lt_upper_bound]; lia).
  unfold gate_of, SEL_KCSEG. set (lo := f mod 2 ^ 16) in *. set (hi := f / 2 ^ 16) in *.
  rewrite (bits_at 0 16 _ 0 lo (8 + 2 ^ 16 * (2 ^ 8 * ty + 2 ^ 13 * dpl + 2 ^ 15 + 2 ^ 16 * hi))) by lia.
  rewrite (bits_at 48 16 _ (lo + 2 ^ 16 * 8 + 2 ^ 32 * (2 ^ 8 * ty + 2 ^ 13 * dpl + 2 ^ 15)) hi 0) by lia.
  rewrite (bits_at 16 16 _ lo 8 (2 ^ 8 * ty + 2 ^ 13 * dpl + 2 ^ 15 + 2 ^ 16 * hi)) by lia.
  rewrite (bits_at 40 4 _ (lo + 2 ^ 16 * 8) ty (2 * dpl + 8 + 16 * hi)) by lia.
  rewrite (bits_at 44 1 _ (lo + 2 ^ 16 * 8 + 2 ^ 40 * ty) 0 (dpl + 4 + 8 * hi)) by lia.
  rewrite (bits_at 45 2 _ (lo + 2 ^ 16 * 8 + 2 ^ 40 * ty) dpl (1 + 2 * hi)) by lia.
  rewrite (bits_at 47 1 _ (lo + 2 ^ 16 * 8 + 2 ^ 40 * ty + 2 ^ 45 * dpl) 1 hi) by lia.
  f_equal. lia.
Qed.

Lemma make_seg_desc_sum base limit class ty dpl gran : is_u32 base → 0 ≤ limit < 2 ^ 20 →
  0 ≤ class ≤ 1 → 0 ≤ ty ≤ 15 → 0 ≤ dpl ≤ 3 → 0 ≤ gran ≤ 1 →
  make_seg_desc base limit class ty dpl gran =
  Some (limit mod 2 ^ 16 + 2 ^ 16 * (base mod 2 ^ 16)
        + 2 ^ 32 * (base / 2 ^ 16 mod 2 ^ 8 + 2 ^ 8 * ty + 2 ^ 12 * class + 2 ^ 13 * dpl + 2 ^ 15
                    + 2 ^ 16 * (limit / 2 ^ 16) + 2 ^ 22 + 2 ^ 23 * gran + 2 ^ 24 * (base / 2 ^ 24))).
Proof.
  intros Hb Hl Hc Ht Hd Hg. unfold is_u32 in Hb. unfold make_seg_desc, CLS_SYSTEM, CLS_CODE_DATA, GRAN_BYTE, GRAN_PAGE.
  rewrite (ASSERT_true (limit <=? _)) by (rewrite Z.leb_le; lia). cbn [mbind option_bind].
  rewrite (ASSERT_true ((class =? _) || _)) by (rewrite orb_true_iff, !Z.eqb_eq; lia). cbn [mbind option_bind].
  rewrite !(ASSERT_true (_ && _)) by (rewrite andb_true_iff, !Z.leb_le; lia). cbn [mbind option_bind].
  rewrite (ASSERT_true (_ || _)) by (rewrite orb_true_iff, !Z.eqb_eq; lia). cbn [mbind option_bind].
  change 65535 with (2 ^ 16 - 1). change 255 with (2 ^ 8 - 1). rewrite !land_low by lia.
  change 983040 with (2 ^ 20 - 2 ^ 16). change 4278190080 with (2 ^ 32 - 2 ^ 24).
  rewrite !land_high, (Z.mod_small limit (2 ^ 20)), (Z.mod_small base (2 ^ 32)) by lia.
  rewrite (Z.shiftr_div_pow2 base 16), !Z.shiftl_mul_pow2 by lia.
  assert (u32 (base * 2 ^ 16) = base mod 2 ^ 16 * 2 ^ 16) as ->.
  { unfold u32. change (2 ^ 32) with (2 ^ 16 * 2 ^ 16). apply Z.mul_mod_distr_r; lia. }
  pose proof (Z.mod_pos_bound limit (2 ^ 16)). pose proof (Z.mod_pos_bound (base / 2 ^ 16) (2 ^ 8)).
  pose proof (Z.mod_pos_bound base (2 ^ 16)).
  assert (0 ≤ limit / 2 ^ 16 < 2 ^ 4) by (split; [apply Z.div_pos|apply Z.div_lt_upper_bound]; lia).
  assert (0 ≤ base / 2 ^ 24 < 2 ^ 8) by (split; [apply Z.div_pos|apply Z.div_lt_upper_bound]; lia).
  set (l0 := limit mod 2 ^ 16) in *. set (l1 := limit / 2 ^ 16) in *. set (b0 := base mod 2 ^ 16) in *.
  set (b1 := base / 2 ^ 16 mod 2 ^ 8) in *. set (b2 := base / 2 ^ 24) in *.
  rewrite (Z.lor_comm b1), (lor_multiple 8 ty (ty * 2 ^ 8)) by lia.
  rewrite (Z.lor_comm _ (class * 2 ^ 12)), (lor_multiple 12 class (class * 2 ^ 12)) by lia.
  rewrite (Z.lor_comm _ (dpl * 2 ^ 13)), (lor_multiple 13 dpl (dpl * 2 ^ 13)) by lia.
  rewrite (Z.lor_comm _ (1 * 2 ^ 15)), (lor_multiple 15 1 (1 * 2 ^ 15)) by lia.
  rewrite (Z.lor_comm _ (l1 * 2 ^ 16)), (lor_multiple 16 l1 (l1 * 2 ^ 16)) by lia.
  rewrite (Z.lor_comm _ (1 * 2 ^ 22)), (lor_multiple 22 1 (1 * 2 ^ 22)) by lia.
  rewrite (Z.lor_comm _ (gran * 2 ^ 23)), (lor_multiple 23 gran (gran * 2 ^ 23)) by lia.
  rewrite (Z.lor_comm _ (b2 * 2 ^ 24)), (lor_multiple 24 b2 (b2 * 2 ^ 24)) by lia.
  rewrite (Z.lor_comm l0), (lor_multiple 16 b0 (b0 * 2 ^ 16)) by lia.
  rewrite Z.lor_comm, (lor_multiple 32 (b2 * 2 ^ 24 + (gran * 2 ^ 23 + (1 * 2 ^ 22 + (l1 * 2 ^ 16
    + (1 * 2 ^ 15 + (dpl * 2 ^ 13 + (class * 2 ^ 12 + (ty * 2 ^ 8 + b1))))))))) by lia.
  f_equal. lia.
Qed.

(** The processor finds in a segment descriptor what the kernel put there. *)
Lemma segment_of_make base limit class ty dpl gran d : is_u32 base → 0 ≤ limit < 2 ^ 20 →
  0 ≤ class ≤ 1 → 0 ≤ ty ≤ 15 → 0 ≤ dpl ≤ 3 → 0 ≤ gran ≤ 1 →
  make_seg_desc base limit class ty dpl gran = Some d →
  segment_of d = mk_segment base limit ty class dpl true true gran.
Proof.
  intros Hb Hl Hc Ht Hd Hg E. rewrite make_seg_desc_sum in E by done. injection E as <-. unfold is_u32 in Hb.
  pose proof (Z.mod_pos_bound limit (2 ^ 16)). pose proof (Z.mod_pos_bound (base / 2 ^ 16) (2 ^ 8)).
  pose proof (Z.mod_pos_bound base (2 ^ 16)).
  assert (0 ≤ limit / 2 ^ 16 < 2 ^ 4) by (split; [apply Z.div_pos|apply Z.div_lt_upper_bound]; lia).
  assert (0 ≤ base / 2 ^ 24 < 2 ^ 8) by (split; [apply Z.div_pos|apply Z.div_lt_upper_bound]; lia).
  assert (limit = limit mod 2 ^ 16 + 2 ^ 16 * (limit / 2 ^ 16)) as El by (pose proof (Z.div_mod limit (2 ^ 16)); lia).
  assert (base = base mod 2 ^ 16 + 2 ^ 16 * (base / 2 ^ 16 mod 2 ^ 8) + 2 ^ 24 * (base / 2 ^ 24)) as Eb.
  { pose proof (Z.div_mod base (2 ^ 16)). pose proof (Z.div_mod (base / 2 ^ 16) (2 ^ 8)) as Hdm.
    rewrite Z.div_div in Hdm by lia. change (2 ^ 16 * 2 ^ 8) with (2 ^ 24) in Hdm. lia. }
  set (l0 := limit mod 2 ^ 16) in *. set (l1 := limit / 2 ^ 16) in *. set (b0 := base mod 2 ^ 16) in *.
  set (b1 := base / 2 ^ 16 mod 2 ^ 8) in *. set (b2 := base / 2 ^ 24) in *.
  unfold segment_of. set (low := l0 + 2 ^ 16 * b0 + 2 ^ 32 * b1).
  set (top := 2 ^ 6 + 2 ^ 7 * gran + 2 ^ 8 * b2).
  rewrite (bits_at 16 24 _ l0 (b0 + 2 ^ 16 * b1) (ty + 2 ^ 4 * class + 2 ^ 5 * dpl + 2 ^ 7 + 2 ^ 8 * (l1 + top))) by (subst top; lia).
  rewrite (bits_at 56 8 _ (low + 2 ^ 40 * (ty + 2 ^ 4 * class + 2 ^ 5 * dpl + 2 ^ 7 + 2 ^ 8 * l1 + 2 ^ 14 + 2 ^ 15 * gran)) b2 0)
    by (subst low top; lia).
  rewrite (bits_at 0 16 _ 0 l0 (b0 + 2 ^ 16 * (b1 + 2 ^ 8 * (ty + 2 ^ 4 * class + 2 ^ 5 * dpl + 2 ^ 7 + 2 ^ 8 * (l1 + top)))))
    by (subst top; lia).
  rewrite (bits_at 48 4 _ (low + 2 ^ 40 * (ty + 2 ^ 4 * class + 2 ^ 5 * dpl + 2 ^ 7)) l1 (2 ^ 2 + 2 ^ 3 * gran + 2 ^ 4 * b2))
    by (subst low top; lia).
  rewrite (bits_at 40 4 _ low ty (class + 2 * dpl + 2 ^ 3 + 2 ^ 4 * (l1 + top))) by (subst low top; lia).
  rewrite (bits_at 44 1 _ (low + 2 ^ 40 * ty) class (dpl + 2 ^ 2 + 2 ^ 3 * (l1 + top))) by (subst low top; lia).
  rewrite (bits_at 45 2 _ (low + 2 ^ 40 * (ty + 2 ^ 4 * class)) dpl (1 + 2 * (l1 + top))) by (subst low top; lia).
  rewrite (bits_at 47 1 _ (low + 2 ^ 40 * (ty + 2 ^ 4 * class + 2 ^ 5 * dpl)) 1 (l1 + top)) by (subst low top; lia).
  rewrite (bits_at 54 1 _ (low + 2 ^ 40 * (ty + 2 ^ 4 * class + 2 ^ 5 * dpl + 2 ^ 7 + 2 ^ 8 * l1)) 1 (gran + 2 * b2))
    by (subst low top; lia).
  rewrite (bits_at 55 1 _ (low + 2 ^ 40 * (ty + 2 ^ 4 * class + 2 ^ 5 * dpl + 2 ^ 7 + 2 ^ 8 * l1 + 2 ^ 14)) gran b2)
    by (subst low top; lia).
  f_equal; lia.
Qed.

(** ** State *)

(** What is printed: the calls of [printf], with their arguments. *)
Inductive parg := PInt (v : Z) | PStr (s : string).
Definition call : Type := string * list parg.

(** [idtr] is the operand of the last [lidt]; [yields] and [exits]
    count the calls of [thread_yield] and of [thread_exit]. *)
Record intr := mk_intr {
  idt : list Z;
  intr_handlers : list (option Z);
  intr_names : list string;
  unexpected_cnt : list Z;
  in_external_intr : bool;
  yield_on_return : bool;
  level : bool;
  idtr : Z;
  ports : io;
  tty : list call;
  yields : Z;
  exits : Z;
  page_fault_cnt : Z;
}.
#[export] Instance intr_ctor : Ctor intr := λ s,
  mk_intr (idt s) (intr_handlers s) (intr_names s) (unexpected_cnt s) (in_external_intr s)
    (yield_on_return s) (level s) (idtr s) (ports s) (tty s) (yields s) (exits s) (page_fault_cnt s).
#[export] Instance intr_has_io : HasIo intr :=
  {| io_of := ports; set_io := λ f s, s <| ports := f (ports s) |> |}.
#[export] Instance intr_has_intr : HasIntr intr :=
  {| level_of := level; set_level := λ l s, s <| level := l |> |}.

Definition say (format : string) (args : list parg) : M intr unit :=
  modify (λ s, s <| tty := tty s ++ [(format, args)] |>).

(** [struct intr_frame]. *)
Record intr_frame := mk_frame {
  edi : Z; esi : Z; ebp : Z; esp_dummy : Z; ebx : Z; edx : Z; ecx : Z; eax : Z;
  gs : Z; fs : Z; es : Z; ds : Z;
  vec_no : Z; error_code : Z; frame_pointer : Z;
  eip : Z; cs : Z; eflags : Z; esp : Z; ss : Z;
}.

(** ** The interrupt controllers *)

Definition PIC0_CTRL : Z := 32.
Definition PIC0_DATA : Z := 33.
Definition PIC1_CTRL : Z := 160.
Definition PIC1_DATA : Z := 161.

Definition pic_init : M intr unit :=
  outb PIC0_DATA 255;; outb PIC1_DATA 255;;
  outb PIC0_CTRL 17;; outb PIC0_DATA 32;; outb PIC0_DATA 4;; outb PIC0_DATA 1;;
  outb PIC1_CTRL 17;; outb PIC1_DATA 40;; outb PIC1_DATA 2;; outb PIC1_DATA 1;;
  outb PIC0_DATA 0;; outb PIC1_DATA 0.

Definition pic_end_of_interrupt (irq : Z) : M intr unit :=
  check ((32 <=? irq) && (irq <? 48));;
  outb 32 32;;
  when (40 <=? irq) (outb 160 32).

(** ** The interrupt table *)

Definition INTR_CNT : nat := 256.

Definition exception_names : list (nat * string) :=
  [(0, "#DE Divide Error"); (1, "#DB Debug Exception"); (2, "NMI Interrupt");
   (3, "#BP Breakpoint Exception"); (4, "#OF Overflow Exception");
   (5, "#BR BOUND Range Exceeded Exception"); (6, "#UD Invalid Opcode Exception");
   (7, "#NM Device Not Available Exception"); (8, "#DF Double Fault Exception");
   (9, "Coprocessor Segment Overrun"); (10, "#TS Invalid TSS Exception");
   (11, "#NP Segment Not Present"); (12, "#SS Stack Fault Exception");
   (13, "#GP General Protection Exception"); (14, "#PF Page-Fault Exception");
   (16, "#MF x87 FPU Floating-Point Error"); (17, "#AC Alignment Check Exception");
   (18, "#MC Machine-Check Exception"); (19, "#XF SIMD Floating-Point Exception")]%nat%string.

Definition initial_names : list string :=
  foldl (λ ns '(i, n), <[i := n]> ns) (replicate INTR_CNT "unknown"%string) exception_names.

Section Table.
(** The addresses of the stubs and of the table. *)
Context (intr_stubs : Z → Z) (idt_addr : Z).

Definition intr_init : M intr unit :=
  pic_init;;
  gates ← lift (mapM (λ i, make_intr_gate (intr_stubs i) 0) (seqZ 0 256));
  modify (λ s, s <| idt := gates |>);;
  modify (λ s, s <| idtr := make_idtr_operand (256 * 8 - 1) idt_addr |>);;
  modify (λ s, s <| intr_names := initial_names |>).

(** [vec_no] is a [uint8_t]. *)
Definition register_handler (vec_no dpl : Z) (lv : bool) (handler : Z) (name : string) : M intr unit :=
  old ← get (λ s, mjoin (intr_handlers s !! Z.to_nat vec_no));
  check (bool_decide (old = None));;
  g ← lift (if lv then make_trap_gate (intr_stubs vec_no) dpl else make_intr_gate (intr_stubs vec_no) dpl);
  modify (λ s, s <| idt := <[Z.to_nat vec_no := g]> (idt s) |>
                 <| intr_handlers := <[Z.to_nat vec_no := Some handler]> (intr_handlers s) |>
                 <| intr_names := <[Z.to_nat vec_no := name]> (intr_names s) |>).

Definition intr_register_ext (vec_no handler : Z) (name : string) : M intr unit :=
  check ((32 <=? vec_no) && (vec_no <=? 47));;
  register_handler vec_no 0 false handler name.

Definition intr_register_int (vec_no dpl : Z) (lv : bool) (handler : Z) (name : string) : M intr unit :=
  check ((vec_no <? 32) || (47 <? vec_no));;
  register_handler vec_no dpl lv handler name.

(** ** Handling an interrupt *)

Definition unexpected_interrupt (f : intr_frame) : M intr unit :=
  cnt ← get (λ s, unexpected_cnt s !! Z.to_nat (vec_no f));
  cnt ← lift cnt;
  let n := u32 (cnt + 1) in
  modify (λ s, s <| unexpected_cnt := <[Z.to_nat (vec_no f) := n]> (unexpected_cnt s) |>);;
  when (Z.land n (u32 (n - 1)) =? 0)
    (name ← get (λ s, intr_names s !! Z.to_nat (vec_no f));
     name ← lift name;
     say ("Unexpected interrupt %#04x (%s)" ++ newline) [PInt (vec_no f); PStr name]).

(** [run] is what the handlers do; [None] for a handler that does not return,
    because the thread exits. *)
Variable run : Z → intr_frame → M intr unit.

Definition intr_handler (f : intr_frame) : M intr unit :=
  let external := (32 <=? vec_no f) && (vec_no f <? 48) in
  when external
    (lv ← get level; check (negb lv);;
     context ← get in_external_intr; check (negb context);;
     modify (λ s, s <| in_external_intr := true |> <| yield_on_return := false |>));;
  handler ← get (λ s, mjoin (intr_handlers s !! Z.to_nat (vec_no f)));
  match (handler : option Z) with
  | Some h => run h f
  | None =>
      if (vec_no f =? 39) || (vec_no f =? 47) then mret tt else unexpected_interrupt f
  end;;
  when external
    (lv ← get level; check (negb lv);;
     context ← get in_external_intr; check context;;
     modify (λ s, s <| in_external_intr := false |>);;
     pic_end_of_interrupt (vec_no f);;
     yield ← get yield_on_return;
     when yield (modify (λ s, s <| yields := yields s + 1 |>))).
End Table.

Definition intr_context : M intr bool := get in_external_intr.

Definition intr_yield_on_return : M intr unit :=
  context ← intr_context; check context;;
  modify (λ s, s <| yield_on_return := true |>).

Definition intr_enable : M intr bool :=
  old ← get level;
  context ← intr_context; check (negb context);;
  modify (λ s, s <| level := true |>);;
  mret old.

Definition intr_name (vec : Z) : M intr string :=
  name ← get (λ s, intr_names s !! Z.to_nat vec); lift name.

(** [cr2] is the value of the register. *)
Definition intr_dump_frame (cr2 : Z) (f : intr_frame) : M intr unit :=
  name ← intr_name (vec_no f);
  say ("Interrupt %#04x (%s) at eip=%p" ++ newline) [PInt (vec_no f); PStr name; PInt (eip f)];;
  say (" cr2=%08x error=%08x" ++ newline) [PInt cr2; PInt (error_code f)];;
  say (" eax=%08x ebx=%08x ecx=%08x edx=%08x" ++ newline)
    [PInt (eax f); PInt (ebx f); PInt (ecx f); PInt (edx f)];;
  say (" esi=%08x edi=%08x esp=%08x ebp=%08x" ++ newline)
    [PInt (esi f); PInt (edi f); PInt (esp f); PInt (ebp f)];;
  say (" cs=%04hx ds=%04hx es=%04hx ss=%04hx" ++ newline)
    [PInt (cs f); PInt (ds f); PInt (es f); PInt (ss f)].

(** ** Exceptions ([userprog/exception.c]) *)

Definition PF_P : Z := 1.
Definition PF_W : Z := 2.
Definition PF_U : Z := 4.

(** Numbers for the handlers of the kernel. *)
Definition h_kill : Z := 1.
Definition h_page_fault : Z := 2.
Definition h_syscall : Z := 3.
Definition h_timer : Z := 4.
Definition h_keyboard : Z := 5.
Definition h_serial : Z := 6.
Definition h_ide : Z := 7.

Section Exceptions.
Context (intr_stubs : Z → Z).

Definition exception_init : M intr unit :=
  intr_register_int intr_stubs 3 3 true h_kill "#BP Breakpoint Exception";;
  intr_register_int intr_stubs 4 3 true h_kill "#OF Overflow Exception";;
  intr_register_int intr_stubs 5 3 true h_kill "#BR BOUND Range Exceeded Exception";;
  intr_register_int intr_stubs 0 0 true h_kill "#DE Divide Error";;
  intr_register_int intr_stubs 1 0 true h_kill "#DB Debug Exception";;
  intr_register_int intr_stubs 6 0 true h_kill "#UD Invalid Opcode Exception";;
  intr_register_int intr_stubs 7 0 true h_kill "#NM Device Not Available Exception";;
  intr_register_int intr_stubs 11 0 true h_kill "#NP Segment Not Present";;
  intr_register_int intr_stubs 12 0 true h_kill "#SS Stack Fault Exception";;
  intr_register_int intr_stubs 13 0 true h_kill "#GP General Protection Exception";;
  intr_register_int intr_stubs 16 0 true h_kill "#MF x87 FPU Floating-Point Error";;
  intr_register_int intr_stubs 19 0 true h_kill "#XF SIMD Floating-Point Exception";;
  intr_register_int intr_stubs 14 0 false h_page_fault "#PF Page-Fault Exception".

(** The lock of the file system starts free in the model of the system calls. *)
Definition syscall_init : M intr unit :=
  intr_register_int intr_stubs 48 3 true h_syscall "syscall".
End Exceptions.

(** The thread ends: nothing of the handler runs after it. *)
Definition thread_exits : M intr unit := modify (λ s, s <| exits := exits s + 1 |>).

(** The running thread is called [thread_name]. *)
Definition kill (thread_name : string) (cr2 : Z) (f : intr_frame) : M intr unit :=
  name ← intr_name (vec_no f);
  if cs f =? SEL_UCSEG then
    say ("%s: dying due to interrupt %#04x (%s)." ++ newline)
      [PStr thread_name; PInt (vec_no f); PStr name];;
    intr_dump_frame cr2 f;;
    thread_exits
  else if cs f =? SEL_KCSEG then
    intr_dump_frame cr2 f;;
    check false
  else
    say ("Interrupt %#04x (%s) in unknown segment %04x" ++ newline)
      [PInt (vec_no f); PStr name; PInt (cs f)];;
    thread_exits.

Definition page_fault (thread_name : string) (cr2 : Z) (f : intr_frame) : M intr unit :=
  intr_enable;;
  modify (λ s, s <| page_fault_cnt := page_fault_cnt s + 1 |>);;
  let not_present := Z.land (error_code f) PF_P =? 0 in
  let write := negb (Z.land (error_code f) PF_W =? 0) in
  let user := negb (Z.land (error_code f) PF_U =? 0) in
  say ("Page fault at %p: %s error %s page in %s context." ++ newline)
    [PInt cr2; PStr (if not_present then "not present" else "rights violation");
     PStr (if write then "writing" else "reading"); PStr (if user then "user" else "kernel")];;
  kill thread_name cr2 f.

(** ** The segment table ([userprog/gdt.c], [userprog/tss.c]) *)

(** [struct tss]: the members that are set; the others are 0. *)
Record tss := mk_tss { esp0 : Z; ss0 : Z; bitmap : Z }.

(** The address of the task-state segment, and its contents. *)
Definition tss_update (current : Z) (t : option (Z * tss)) : option (option (Z * tss)) :=
  match t with
  | Some (a, t) => Some (Some (a, mk_tss (u32 (current + PGSIZE)) (ss0 t) (bitmap t)))
  | None => None
  end.

(** [page] is what [palloc_get_page] returns. *)
Definition tss_init (page current : Z) : option (option (Z * tss)) :=
  tss_update current (Some (page, mk_tss 0 SEL_KDSEG 57343)).

Definition tss_get (t : option (Z * tss)) : option Z := fst <$> t.

(** The table, and the operands of [lgdt] and [ltr]. *)
Definition gdt_init (t : option (Z * tss)) (gdt_addr : Z) : option (list Z * Z * Z) :=
  kc ← make_code_desc 0;
  kd ← make_data_desc 0;
  uc ← make_code_desc 3;
  ud ← make_data_desc 3;
  a ← tss_get t;
  ts ← make_tss_desc a;
  let gdt := replicate SEL_CNT 0 in
  let gdt := <[Z.to_nat (SEL_NULL / 8) := 0]> gdt in
  let gdt := <[Z.to_nat (SEL_KCSEG / 8) := kc]> gdt in
  let gdt := <[Z.to_nat (SEL_KDSEG / 8) := kd]> gdt in
  let gdt := <[Z.to_nat (SEL_UCSEG / 8) := uc]> gdt in
  let gdt := <[Z.to_nat (SEL_UDSEG / 8) := ud]> gdt in
  let gdt := <[Z.to_nat (SEL_TSS / 8) := ts]> gdt in
  Some (gdt, make_gdtr_operand (6 * 8 - 1) gdt_addr, SEL_TSS).

(** ** The table is well formed *)

(** A registration, as the caller sees it. *)
Record entry := mk_entry { e_dpl : Z; e_level : bool; e_handler : Z }.

Inductive registration :=
  | Ext (vec handler : Z) (name : string)
  | Int (vec dpl : Z) (lv : bool) (handler : Z) (name : string).

Definition reg_vec (r : registration) : Z := match r with Ext v _ _ | Int v _ _ _ _ => v end.
Definition reg_entry (r : registration) : entry :=
  match r with Ext _ h _ => mk_entry 0 false h | Int _ d l h _ => mk_entry d l h end.

(** A vector is registered once, on its side of the line between devices and
    the processor, for a level of privilege that exists. *)
Definition reg_allowed (t : gmap Z entry) (r : registration) : bool :=
  bool_decide (t !! reg_vec r = None) &&
  match r with
  | Ext v _ _ => (32 <=? v) && (v <=? 47)
  | Int v d _ _ _ => ((v <? 32) || (47 <? v)) && (0 <=? d) && (d <=? 3)
  end.

Definition spec_register (t : gmap Z entry) (r : registration) : option (gmap Z entry) :=
  if reg_allowed t r then Some (<[reg_vec r := reg_entry r]> t) else None.

Fixpoint spec_registers (t : gmap Z entry) (rs : list registration) : option (gmap Z entry) :=
  match rs with
  | [] => Some t
  | r :: rs => t ← spec_register t r; spec_registers t rs
  end.

Section Registers.
Context (intr_stubs : Z → Z) (idt_addr : Z).

Definition register (r : registration) : M intr unit :=
  match r with
  | Ext v h n => intr_register_ext intr_stubs v h n
  | Int v d l h n => intr_register_int intr_stubs v d l h n
  end.

Fixpoint registers (rs : list registration) : M intr unit :=
  match rs with
  | [] => mret tt
  | r :: rs => register r;; registers rs
  end.

(** The gate that vector [v] should have. *)
Definition wanted (t : gmap Z entry) (v : Z) : gate :=
  match t !! v with
  | Some e => mk_gate (intr_stubs v) SEL_KCSEG (if e_level e then 15 else 14) true (e_dpl e) true
  | None => mk_gate (intr_stubs v) SEL_KCSEG 14 true 0 true
  end.

Record table_ok (t : gmap Z entry) (s : intr) : Prop := {
  t_gates v : 0 ≤ v < 256 → gate_of <$> idt s !! Z.to_nat v = Some (wanted t v);
  t_handlers v : 0 ≤ v < 256 → intr_handlers s !! Z.to_nat v = Some (e_handler <$> t !! v);
  t_length : length (idt s) = 256%nat;
  t_names : length (intr_names s) = 256%nat;
}.

(** The stubs are at addresses that are not null. *)
Context (Hstubs : ∀ v, 0 ≤ v < 256 → is_u32 (intr_stubs v) ∧ intr_stubs v ≠ 0).

Lemma make_gate_some v dpl ty : 0 ≤ v < 256 → 0 ≤ dpl ≤ 3 → 0 ≤ ty ≤ 15 →
  ∃ g, make_gate (intr_stubs v) dpl ty = Some g ∧ gate_of g = mk_gate (intr_stubs v) SEL_KCSEG ty true dpl true.
Proof.
  intros Hv Hd Ht. destruct (Hstubs v Hv) as [Hf Hn].
  eexists. split; [by apply make_gate_sum|]. eapply gate_of_make; [done..|by apply make_gate_sum].
Qed.

Lemma make_gate_bad_dpl f dpl ty : ¬ 0 ≤ dpl ≤ 3 → make_gate f dpl ty = None.
Proof.
  intros Hd. unfold make_gate. destruct (negb (f =? NULL)); [|done]. cbn [ASSERT mbind option_bind].
  replace ((0 <=? dpl) && (dpl <=? 3)) with false; [done|]. symmetry.
  apply andb_false_iff. rewrite !Z.leb_gt. lia.
Qed.

Lemma wanted_ne t v e v' : v ≠ v' → wanted (<[v := e]> t) v' = wanted t v'.
Proof. intros Hne. unfold wanted. by rewrite lookup_insert_ne. Qed.

Lemma register_handler_ok t s v dpl lv h name : table_ok t s → 0 ≤ v < 256 →
  if bool_decide (t !! v = None) && ((0 <=? dpl) && (dpl <=? 3)) then
    ∃ s', register_handler intr_stubs v dpl lv h name s = Ret tt s' ∧
      table_ok (<[v := mk_entry dpl lv h]> t) s'
  else register_handler intr_stubs v dpl lv h name s = Panic.
Proof.
  intros T Hv. unfold register_handler, mbind, M_bind, get. rewrite (t_handlers _ _ T v Hv). cbn [mjoin option_join].
  destruct (t !! v) as [e|] eqn:E; cbn [fmap option_fmap option_map]; unfold check.
  { rewrite (bool_decide_eq_false_2 (Some e = None)), (bool_decide_eq_false_2 (Some (e_handler e) = None)) by done. done. }
  rewrite !bool_decide_eq_true_2 by done. cbn [andb].
  destruct ((0 <=? dpl) && (dpl <=? 3)) eqn:Ed.
  2: { unfold make_trap_gate, make_intr_gate. rewrite andb_false_iff, !Z.leb_gt in Ed.
       rewrite !make_gate_bad_dpl by lia. by destruct lv. }
  rewrite andb_true_iff, !Z.leb_le in Ed.
  destruct (make_gate_some v dpl (if lv then 15 else 14)) as (g & Hg & Eg); [done|done|destruct lv; lia|].
  replace (if lv then make_trap_gate (intr_stubs v) dpl else make_intr_gate (intr_stubs v) dpl) with (Some g)
    by (by destruct lv).
  unfold lift, modify. eexists. split; [done|]. destruct T as [T1 T2 T3 T4].
  split; simpl; [| |by rewrite length_insert..]; intros v' Hv'; destruct (decide (v' = v)) as [->|Hne].
  - rewrite list_lookup_insert_eq by lia. simpl. rewrite Eg. unfold wanted. by rewrite lookup_insert_eq.
  - rewrite list_lookup_insert_ne, wanted_ne by lia. by apply T1.
  - rewrite lookup_insert_eq. apply list_lookup_insert_eq. by eapply lookup_lt_Some, T2.
  - rewrite lookup_insert_ne, list_lookup_insert_ne by lia. by apply T2.
Qed.

Lemma register_ok t s r : table_ok t s → 0 ≤ reg_vec r < 256 →
  match spec_register t r with
  | Some t' => ∃ s', register r s = Ret tt s' ∧ table_ok t' s'
  | None => register r s = Panic
  end.
Proof.
  intros T Hv. unfold spec_register, reg_allowed.
  destruct r as [v h n|v d l h n]; cbn [reg_vec reg_entry register] in *.
  - pose proof (register_handler_ok t s v 0 false h n T Hv) as G. unfold intr_register_ext.
    unfold mbind, M_bind, check. destruct ((32 <=? v) && (v <=? 47)) eqn:E.
    + cbn [andb Z.leb] in G. rewrite andb_true_r in *. by destruct (bool_decide _).
    + by rewrite andb_false_r.
  - pose proof (register_handler_ok t s v d l h n T Hv) as G. unfold intr_register_int.
    unfold mbind, M_bind, check. destruct ((v <? 32) || (47 <? v)) eqn:E.
    + cbn [andb]. by destruct (bool_decide _ && _).
    + by rewrite andb_false_r.
Qed.

Lemma registers_ok rs : ∀ t s, table_ok t s → Forall (λ r, 0 ≤ reg_vec r < 256) rs →
  match spec_registers t rs with
  | Some t' => ∃ s', registers rs s = Ret tt s' ∧ table_ok t' s'
  | None => registers rs s = Panic
  end.
Proof.
  induction rs as [|r rs IH]; intros t s T HF; cbn [spec_registers registers]; [by exists s|].
  apply Forall_cons in HF as [Hr HF]. pose proof (register_ok t s r T Hr) as G.
  destruct (spec_register t r) as [t1|]; cbn [mbind option_bind]; [|by apply bind_Panic].
  destruct G as (s1 & E & T1). rewrite (bind_Ret _ _ _ _ _ E). by apply IH.
Qed.
End Registers.

(** ** The controllers, as the writes to their ports set them up

    After its first initialization word a controller takes three more on its data
    port: the vector of its first line, the cascade and the mode; then the data
    port is the mask. *)
Record pic := mk_pic { p_icw : nat; p_base : Z; p_mask : Z }.

Definition pic_step (ctrl data : Z) (p : pic) (e : io_event) : pic :=
  match e with
  | Outb port v =>
      if (port =? ctrl) && Z.testbit v 4 then mk_pic 2 (p_base p) (p_mask p)
      else if port =? data then
        match p_icw p with
        | 2 => mk_pic 3 (Z.land v 248) (p_mask p)
        | 3 => mk_pic 4 (p_base p) (p_mask p)
        | 4 => mk_pic 0 (p_base p) (p_mask p)
        | _ => mk_pic 0 (p_base p) v
        end%nat
      else p
  | _ => p
  end.

Definition master_of (l : list io_event) : pic := foldl (pic_step PIC0_CTRL PIC0_DATA) (mk_pic 0 0 0) l.
Definition slave_of (l : list io_event) : pic := foldl (pic_step PIC1_CTRL PIC1_DATA) (mk_pic 0 0 0) l.

(** The vector at which line [n] interrupts. *)
Definition irq_vector (l : list io_event) (n : Z) : Z :=
  if n <? 8 then p_base (master_of l) + n else p_base (slave_of l) + (n - 8).

Section Init.
Context (intr_stubs : Z → Z) (idt_addr : Z).
Context (Hstubs : ∀ v, 0 ≤ v < 256 → is_u32 (intr_stubs v) ∧ intr_stubs v ≠ 0).

Definition pic_writes : list io_event :=
  [Outb 33 255; Outb 161 255; Outb 32 17; Outb 33 32; Outb 33 4; Outb 33 1;
   Outb 160 17; Outb 161 40; Outb 161 2; Outb 161 1; Outb 33 0; Outb 161 0].

Lemma pic_init_run s : pic_init s = Ret tt (s <| ports := (ports s) <| log := log (ports s) ++ pic_writes |> |>).
Proof.
  unfold pic_init, mbind, M_bind, outb, note, modify, did. simpl. rewrite <- !app_assoc. by destruct s as [? ? ? ? ? ? ? ? [] ? ?].
Qed.

Lemma intr_init_ok s : intr_handlers s = replicate 256 None →
  ∃ s', intr_init intr_stubs idt_addr s = Ret tt s' ∧ table_ok intr_stubs ∅ s' ∧
    log (ports s') = log (ports s) ++ pic_writes ∧
    idtr s' = make_idtr_operand 2047 idt_addr ∧ level s' = level s ∧ in_external_intr s' = in_external_intr s.
Proof.
  intros Hh. set (g := λ v, default 0 (make_intr_gate (intr_stubs v) 0)).
  assert (mapM (λ i, make_intr_gate (intr_stubs i) 0) (seqZ 0 256) = Some (g <$> seqZ 0 256)) as Em.
  { apply mapM_Some. apply Forall2_fmap_r, Forall_Forall2_diag. apply Forall_forall. intros v Hv%elem_of_seqZ.
    destruct (make_gate_some intr_stubs Hstubs v 0 14) as (x & Hx & _); [lia..|].
    unfold compose, g, make_intr_gate. by rewrite Hx. }
  unfold intr_init. rewrite (bind_Ret _ _ _ _ _ (pic_init_run s)), Em.
  eexists. split; [reflexivity|]. split; [|done].
  split; [| |reflexivity|vm_compute; reflexivity].
  - intros v Hv. change (gate_of <$> (g <$> seqZ 0 256) !! Z.to_nat v = Some (wanted intr_stubs ∅ v)).
    rewrite list_lookup_fmap, lookup_seqZ_lt by lia. cbn [fmap option_fmap option_map].
    rewrite Z2Nat.id, Z.add_0_l by lia.
    destruct (make_gate_some intr_stubs Hstubs v 0 14) as (x & Hx & Ex); [lia..|].
    unfold g, make_intr_gate. rewrite Hx. simpl. by rewrite Ex.
  - intros v Hv. change (intr_handlers s !! Z.to_nat v = Some None). rewrite Hh, lookup_replicate_2 by lia. done.
Qed.

(** Line [n] interrupts at vector [32 + n], and none is masked. *)
Lemma pic_init_ok l n : p_icw (master_of l) = 0%nat → p_icw (slave_of l) = 0%nat → 0 ≤ n < 16 →
  irq_vector (l ++ pic_writes) n = 32 + n ∧
  p_mask (master_of (l ++ pic_writes)) = 0 ∧ p_mask (slave_of (l ++ pic_writes)) = 0.
Proof.
  intros H0 H1 Hn.
  assert (master_of (l ++ pic_writes) = mk_pic 0 32 0) as E0.
  { unfold master_of in *. rewrite foldl_app.
    destruct (foldl _ _ l) as [i b m]. simpl in H0. subst i. reflexivity. }
  assert (slave_of (l ++ pic_writes) = mk_pic 0 40 0) as E1.
  { unfold slave_of in *. rewrite foldl_app.
    destruct (foldl _ _ l) as [i b m]. simpl in H1. subst i. reflexivity. }
  unfold irq_vector. rewrite E0, E1. cbn [p_base p_mask]. split; [|done]. destruct (Z.ltb_spec n 8); lia.
Qed.
End Init.

(** ** The common handler *)

(** An external interrupt: its handler runs in the interrupt context with
    interrupts off; the controllers that delivered it are told, after the
    handler; and the thread yields if the handler asked for it. *)
Lemma external_ok run f s h s1 : 32 ≤ vec_no f < 48 → level s = false → in_external_intr s = false →
  intr_handlers s !! Z.to_nat (vec_no f) = Some (Some h) →
  run h f (s <| in_external_intr := true |> <| yield_on_return := false |>) = Ret tt s1 →
  level s1 = false → in_external_intr s1 = true →
  ∃ s2, intr_handler run f s = Ret tt s2 ∧ in_external_intr s2 = false ∧
    log (ports s2) = log (ports s1) ++ Outb 32 32 :: (if 40 <=? vec_no f then [Outb 160 32] else []) ∧
    yields s2 = yields s1 + (if yield_on_return s1 then 1 else 0) ∧
    idt s2 = idt s1 ∧ intr_handlers s2 = intr_handlers s1.
Proof.
  intros Hv Hl Hc Hh Hr Hl1 Hc1. unfold intr_handler.
  rewrite (proj2 (Z.leb_le 32 _)), (proj2 (Z.ltb_lt _ 48)) by lia. cbn [andb when].
  unfold mbind, M_bind, get, check, modify. rewrite Hl. cbn [negb]. rewrite Hc. cbn [negb].
  change (intr_handlers (s <| in_external_intr := true |> <| yield_on_return := false |>)) with (intr_handlers s).
  rewrite Hh. cbn [mjoin option_join]. rewrite Hr, Hl1. cbn [negb]. rewrite Hc1.
  unfold pic_end_of_interrupt, mbind, M_bind, check. rewrite (proj2 (Z.leb_le 32 _)), (proj2 (Z.ltb_lt _ 48)) by lia.
  cbn [andb]. unfold outb, note, modify, when.
  destruct (40 <=? vec_no f), (yield_on_return s1) eqn:Ey; cbn; rewrite Ey; eexists; (split; [reflexivity|]);
    (split; [done|]); (split; [cbn; by rewrite <- ?app_assoc|]); split; cbn; (done || lia).
Qed.

(** ** Exceptions *)

Lemma intr_name_run v n s : intr_names s !! Z.to_nat v = Some n → intr_name v s = Ret n s.
Proof. intros E. unfold intr_name, mbind, M_bind, get, lift. by rewrite E. Qed.

Lemma dump_run cr2 f n s : intr_names s !! Z.to_nat (vec_no f) = Some n →
  ∃ t, intr_dump_frame cr2 f s = Ret tt (s <| tty := t |>).
Proof.
  intros E. unfold intr_dump_frame. rewrite (bind_Ret _ _ _ _ _ (intr_name_run _ _ _ E)).
  eexists. reflexivity.
Qed.

(** An exception in a user program ends the program, and one in the kernel
    panics. *)
Lemma kill_ok name cr2 f n s : intr_names s !! Z.to_nat (vec_no f) = Some n →
  (cs f = SEL_KCSEG → kill name cr2 f s = Panic) ∧
  (cs f ≠ SEL_KCSEG → ∃ t, kill name cr2 f s = Ret tt (s <| tty := t |> <| exits := exits s + 1 |>)).
Proof.
  intros E. unfold kill. rewrite (bind_Ret _ _ _ _ _ (intr_name_run _ _ _ E)). split.
  - intros ->. destruct (dump_run cr2 f n s E) as [t Et].
    change (SEL_KCSEG =? SEL_UCSEG) with false. change (SEL_KCSEG =? SEL_KCSEG) with true. cbv iota.
    by rewrite (bind_Ret _ _ _ _ _ Et).
  - intros Hk. rewrite (proj2 (Z.eqb_neq (cs f) SEL_KCSEG)) by done. destruct (cs f =? SEL_UCSEG).
    + set (c := ("%s: dying due to interrupt %#04x (%s)." ++ newline)%string).
      set (s1 := s <| tty := tty s ++ [(c, [PStr name; PInt (vec_no f); PStr n])] |>).
      destruct (dump_run cr2 f n s1 E) as [t Et].
      assert (say c [PStr name; PInt (vec_no f); PStr n] s = Ret tt s1) as Es by reflexivity.
      exists t. rewrite (bind_Ret _ _ _ _ _ Es), (bind_Ret _ _ _ _ _ Et). reflexivity.
    + eexists. reflexivity.
Qed.

Lemma page_fault_ok name cr2 f n s : intr_names s !! Z.to_nat (vec_no f) = Some n →
  in_external_intr s = false →
  (cs f = SEL_KCSEG → page_fault name cr2 f s = Panic) ∧
  (cs f ≠ SEL_KCSEG → ∃ t, page_fault name cr2 f s
     = Ret tt (s <| level := true |> <| page_fault_cnt := page_fault_cnt s + 1 |>
                <| tty := t |> <| exits := exits s + 1 |>)).
Proof.
  intros E Hc. unfold page_fault. assert (intr_enable s = Ret (level s) (s <| level := true |>)) as Ee.
  { unfold intr_enable, intr_context, mbind, M_bind, get, check, modify. by rewrite Hc. }
  rewrite (bind_Ret _ _ _ _ _ Ee).
  match goal with |- context [say ?c ?a] => set (c' := c); set (a' := a) end.
  set (s0 := s <| level := true |>). set (s1 := s0 <| page_fault_cnt := page_fault_cnt s + 1 |>).
  rewrite (bind_Ret _ _ s0 tt s1 eq_refl).
  set (s2 := s1 <| tty := tty s ++ [(c', a')] |>).
  destruct (kill_ok name cr2 f n s2 E) as [K1 K2]. assert (say c' a' s1 = Ret tt s2) as Es by reflexivity.
  rewrite (bind_Ret _ _ _ _ _ Es). split.
  - intros Hk. exact (K1 Hk).
  - intros Hk. destruct (K2 Hk) as [t Et]. exists t. exact Et.
Qed.

(** ** The segment table *)

(** A segment of all memory: code can be read and data written. *)
Definition flat (code : bool) (dpl : Z) : segment :=
  mk_segment 0 1048575 (if code then 10 else 2) CLS_CODE_DATA dpl true true GRAN_PAGE.

(** The descriptor that a selector names. *)
Definition selected (gdt : list Z) (sel : Z) : option segment := segment_of <$> gdt !! Z.to_nat (sel / 8).

Lemma gdt_init_ok a t gdt_addr : is_u32 a → ∃ gdt gdtr,
  gdt_init (Some (a, t)) gdt_addr = Some (gdt, gdtr, SEL_TSS) ∧
  selected gdt SEL_KCSEG = Some (flat true 0) ∧ selected gdt SEL_KDSEG = Some (flat false 0) ∧
  selected gdt SEL_UCSEG = Some (flat true 3) ∧ selected gdt SEL_UDSEG = Some (flat false 3) ∧
  selected gdt SEL_TSS = Some (mk_segment a 103 9 CLS_SYSTEM 0 true true GRAN_BYTE) ∧
  bits 0 16 gdtr = 47 ∧ bits 16 32 gdtr = u32 gdt_addr.
Proof.
  intros Ha. unfold gdt_init.
  assert (make_code_desc 0 = Some 58434644969848831) as -> by (vm_compute; reflexivity).
  assert (make_data_desc 0 = Some 58425848876826623) as -> by (vm_compute; reflexivity).
  assert (make_code_desc 3 = Some 58540198086115327) as -> by (vm_compute; reflexivity).
  assert (make_data_desc 3 = Some 58531401993093119) as -> by (vm_compute; reflexivity).
  cbn [mbind option_bind tss_get fmap option_fmap option_map fst].
  pose proof (make_seg_desc_sum a 103 CLS_SYSTEM 9 0 GRAN_BYTE Ha ltac:(lia) ltac:(unfold CLS_SYSTEM; lia)
    ltac:(lia) ltac:(lia) ltac:(unfold GRAN_BYTE; lia)) as Ed.
  match type of Ed with _ = Some ?x => generalize dependent x end. intros d Ed.
  change (make_tss_desc a) with (make_seg_desc a 103 CLS_SYSTEM 9 0 GRAN_BYTE). rewrite Ed. cbn [mbind option_bind]. do 2 eexists. split; [reflexivity|].
  assert (segment_of d = mk_segment a 103 9 CLS_SYSTEM 0 true true GRAN_BYTE) as Es
    by (eapply segment_of_make; [done|..|exact Ed]; unfold CLS_SYSTEM, GRAN_BYTE; lia).
  split; [vm_compute; reflexivity|]. split; [vm_compute; reflexivity|]. split; [vm_compute; reflexivity|].
  split; [vm_compute; reflexivity|]. split; [rewrite <- Es; reflexivity|].
  pose proof (u32_range gdt_addr) as Hr. unfold is_u32 in Hr. unfold make_gdtr_operand.
  rewrite Z.lor_comm, lor_shiftl by lia.
  split; [apply (bits_at 0 16 _ 0 47 (u32 gdt_addr))|apply (bits_at 16 32 _ 47 (u32 gdt_addr) 0)]; lia.
Qed.

(** ** The properties *)

(** The instruction [int v] in a user program is allowed where the gate's level
    of privilege is that of the user. *)
Definition user_may_raise (s : intr) (v : Z) : Prop :=
  ∃ g, idt s !! Z.to_nat v = Some g ∧ 3 ≤ g_dpl (gate_of g).

(** Devices' vectors are registered with the level off and for the kernel. *)
Definition sound_table (t : gmap Z entry) : Prop := ∀ v e, t !! v = Some e →
  0 ≤ e_dpl e ≤ 3 ∧ (32 ≤ v ≤ 47 → e_dpl e = 0 ∧ e_level e = false).

Lemma spec_registers_sound rs : ∀ t t', sound_table t → spec_registers t rs = Some t' → sound_table t'.
Proof.
  induction rs as [|r rs IH]; intros t t' S; cbn [spec_registers]; [by intros [= <-]|].
  unfold spec_register, reg_allowed. destruct (_ && _) eqn:A; [|done]. cbn [mbind option_bind]. apply IH.
  apply andb_true_iff in A as [_ A]. intros v e. destruct (decide (v = reg_vec r)) as [->|Hne].
  - rewrite lookup_insert_eq. intros [= <-]. destruct r; cbn [reg_vec reg_entry e_dpl e_level] in *.
    + split; [lia|done].
    + rewrite !andb_true_iff, orb_true_iff, !Z.ltb_lt, !Z.leb_le in A. split; [lia|]. intros. lia.
  - rewrite lookup_insert_ne by done. apply S.
Qed.

Lemma table_user intr_stubs t s v : sound_table t → table_ok intr_stubs t s → 0 ≤ v < 256 →
  user_may_raise s v ↔ ∃ e, t !! v = Some e ∧ e_dpl e = 3.
Proof.
  intros S T Hv. pose proof (t_gates _ _ _ T v Hv) as G. unfold user_may_raise.
  apply fmap_Some in G as (g & Eg & Ew). unfold wanted in Ew. split.
  - intros (g' & Eg' & Hd). assert (g' = g) as -> by congruence. rewrite <- Ew in Hd.
    destruct (t !! v) as [e|] eqn:E; cbn [g_dpl] in Hd; [|lia]. exists e. split; [done|].
    destruct (S v e E). lia.
  - intros (e & E & He). exists g. split; [done|]. rewrite <- Ew, E. cbn [g_dpl]. lia.
Qed.

(** C23: The interrupt table is well formed.  After [intr_init] and any sequence of
    registrations, every one of the 256 entries is, as the processor reads it, a
    present gate to the stub of its vector in the kernel's code segment; a vector
    has the privilege and the kind of gate it was registered with, those of
    devices always turn interrupts off and are closed to user programs; and a
    user program can raise exactly the vectors registered with privilege 3.  A
    registration panics exactly when the vector is taken, or on the wrong side of
    the line between devices and the processor, or the privilege does not exist. *)
Theorem idt_well_formed intr_stubs idt_addr rs s :
  (∀ v, 0 ≤ v < 256 → is_u32 (intr_stubs v) ∧ intr_stubs v ≠ 0) →
  intr_handlers s = replicate 256 None → Forall (λ r, 0 ≤ reg_vec r < 256) rs →
  match spec_registers ∅ rs with
  | None => (intr_init intr_stubs idt_addr;; registers intr_stubs rs) s = Panic
  | Some t => ∃ s', (intr_init intr_stubs idt_addr;; registers intr_stubs rs) s = Ret tt s' ∧
      ∀ v, 0 ≤ v < 256 →
        gate_of <$> idt s' !! Z.to_nat v = Some (wanted intr_stubs t v) ∧
        intr_handlers s' !! Z.to_nat v = Some (e_handler <$> t !! v) ∧
        (32 ≤ v ≤ 47 → wanted intr_stubs t v = mk_gate (intr_stubs v) SEL_KCSEG 14 true 0 true) ∧
        (user_may_raise s' v ↔ ∃ e, t !! v = Some e ∧ e_dpl e = 3)
  end.
Proof.
  intros Hst Hh HF. destruct (intr_init_ok intr_stubs idt_addr Hst s Hh) as (s0 & E0 & T0 & _).
  pose proof (registers_ok intr_stubs Hst rs ∅ s0 T0 HF) as G. rewrite (bind_Ret _ _ _ _ _ E0).
  destruct (spec_registers ∅ rs) as [t|] eqn:Es; [|done]. destruct G as (s' & E & T).
  exists s'. split; [done|]. assert (sound_table t) as S by (by eapply spec_registers_sound; [|exact Es]).
  intros v Hv. split; [by apply T|]. split; [by apply T|]. split; [|by apply (table_user intr_stubs)].
  intros Hd. unfold wanted. destruct (t !! v) as [e|] eqn:E'; [|done].
  destruct (S v e E') as [_ [-> ->]]; done.
Qed.

(** The registrations of the kernel, in the order of [main]. *)
Definition exception_registers : list registration :=
  [Int 3 3 true h_kill "#BP Breakpoint Exception"; Int 4 3 true h_kill "#OF Overflow Exception";
   Int 5 3 true h_kill "#BR BOUND Range Exceeded Exception"; Int 0 0 true h_kill "#DE Divide Error";
   Int 1 0 true h_kill "#DB Debug Exception"; Int 6 0 true h_kill "#UD Invalid Opcode Exception";
   Int 7 0 true h_kill "#NM Device Not Available Exception"; Int 11 0 true h_kill "#NP Segment Not Present";
   Int 12 0 true h_kill "#SS Stack Fault Exception"; Int 13 0 true h_kill "#GP General Protection Exception";
   Int 16 0 true h_kill "#MF x87 FPU Floating-Point Error"; Int 19 0 true h_kill "#XF SIMD Floating-Point Exception";
   Int 14 0 false h_page_fault "#PF Page-Fault Exception"].

Definition boot_registers : list registration :=
  [Ext 32 h_timer "8254 Timer"; Ext 33 h_keyboard "8042 Keyboard"] ++ exception_registers ++
  [Int 48 3 true h_syscall "syscall"; Ext 36 h_serial "serial"; Ext 46 h_ide "ide0"; Ext 47 h_ide "ide1"].

Lemma then_congr (m k k' : M intr unit) s : (∀ s', k s' = k' s') → (m;; k) s = (m;; k') s.
Proof. intros E. unfold mbind, M_bind. by destruct (m s). Qed.

Lemma then_ret (m : M intr unit) s : m s = (m;; mret tt) s.
Proof. unfold mbind, M_bind. by destruct (m s) as [[] ?| |]. Qed.

Lemma exception_init_registers intr_stubs s :
  exception_init intr_stubs s = registers intr_stubs exception_registers s.
Proof.
  unfold exception_init, exception_registers. cbn [registers register].
  do 12 (apply then_congr; clear s; intros s). apply then_ret.
Qed.

(** The vectors that user programs can raise. *)
Definition user_vectors (t : gmap Z entry) : list Z :=
  (filter (λ p : Z * entry, e_dpl p.2 = 3) (map_to_list t)).*1.

Lemma user_vectors_ok t v : v ∈ user_vectors t ↔ ∃ e, t !! v = Some e ∧ e_dpl e = 3.
Proof.
  unfold user_vectors. rewrite list_elem_of_fmap. split.
  - intros ([v' e] & -> & Hin). apply list_elem_of_filter in Hin as [Hd Hin].
    apply elem_of_map_to_list in Hin. by exists e.
  - intros (e & E & Hd). exists (v, e). split; [done|]. apply list_elem_of_filter.
    split; [done|]. by apply elem_of_map_to_list.
Qed.

(** In the running kernel these are the three exceptions that have instructions
    of their own, and the system call. *)
Lemma boot_user_vectors : user_vectors <$> spec_registers ∅ boot_registers = Some [5; 3; 48; 4].
Proof. vm_compute. reflexivity. Qed.

Lemma idt_well_formed_witness : ∃ s,
  (intr_init (λ v, 3221225472 + 16 * v) 3221230000;; registers (λ v, 3221225472 + 16 * v) boot_registers)
    (mk_intr [] (replicate 256 None) [] (replicate 256 0) false false false 0 (mk_io [] []) [] 0 0 0) = Ret tt s ∧
  user_may_raise s 48 ∧ ¬ user_may_raise s 14.
Proof.
  pose proof (idt_well_formed (λ v, 3221225472 + 16 * v) 3221230000 boot_registers
    (mk_intr [] (replicate 256 None) [] (replicate 256 0) false false false 0 (mk_io [] []) [] 0 0 0)) as G.
  destruct (spec_registers ∅ boot_registers) as [t|] eqn:E; [|by vm_compute in E].
  destruct G as (s & Hs & Hv).
  - intros v Hv. unfold is_u32. lia.
  - reflexivity.
  - by apply (bool_decide_unpack _).
  - exists s. split; [exact Hs|]. destruct (Hv 48) as (_ & _ & _ & ->); [lia|].
    destruct (Hv 14) as (_ & _ & _ & ->); [lia|]. vm_compute in E. injection E as <-. split.
    + eexists. split; [vm_compute; reflexivity|done].
    + intros (e & He & Hd). vm_compute in He. injection He as <-. done.
Defined.
