(* ===== verification/Registry.v ===== *)
(** * The block devices and their roles ([devices/block.c], [devices/partition.c])

    [Block] has a device and a partition of it by themselves.  Here are all the
    devices together: the list in which [block_register] puts them, their names,
    types, roles and counts, and the partitions as pointers to the device they
    are on, which all share.  [struct block] is at an address that [malloc]
    returned; the results of [malloc] are an input of the model.

    The theorem is that the devices are windows on the disks: every sequence of
    reads and writes through any of them acts on the sectors of the disks as it
    should, scanning a disk for partitions adds exactly the windows that its table
    describes and that lie within it, and windows that do not overlap do not
    disturb one another.  Running out of nested calls is [Waits]; the theorem is
    for tables without extended partitions, on which the scan returns. *)

From Stdlib Require Import String.
From S2P Require Import Prelude Machine FixedPoint Bytes Block CString Stdio Io.

Open Scope Z_scope.

(** ** State *)

(** The operations of a device, with their [aux]: those of a disk, or those of a
    partition that starts at a sector of another device. *)
Inductive driver := Raw (disk : nat) | Window (p_block p_start : Z).

(** [struct block]. *)
Record bdev := mk_bdev {
  b_name : list Z;
  b_type : block_type;
  b_size : Z;
  b_driver : driver;
  read_cnt : Z;
  write_cnt : Z;
}.
#[export] Instance bdev_ctor : Ctor bdev := λ b,
  mk_bdev (b_name b) (b_type b) (b_size b) (b_driver b) (read_cnt b) (write_cnt b).

(** [blocks] is the memory that the devices are in; [mallocs] has what the
    following calls of [malloc] return. *)
Record registry (D : Type) := mk_registry {
  blocks : gmap Z bdev;
  all_blocks : list Z;
  block_by_role : list Z;
  disks : list D;
  mallocs : list Z;
  tty : list Z;
}.
Arguments mk_registry {D} _ _ _ _ _ _.
Arguments blocks {D} _.
Arguments all_blocks {D} _.
Arguments block_by_role {D} _.
Arguments disks {D} _.
Arguments mallocs {D} _.
Arguments tty {D} _.
#[export] Instance registry_ctor D : Ctor (registry D) := λ s,
  mk_registry (blocks s) (all_blocks s) (block_by_role s) (disks s) (mallocs s) (tty s).

(** ** Names *)

Definition block_type_name (t : block_type) : string :=
  match t with
  | BLOCK_KERNEL => "kernel"
  | BLOCK_FILESYS => "filesys"
  | BLOCK_SCRATCH => "scratch"
  | BLOCK_SWAP => "swap"
  | BLOCK_RAW => "raw"
  | BLOCK_FOREIGN => "foreign"
  end.

(** The number of a type in its enumeration. *)
Definition type_no (t : block_type) : nat :=
  match t with
  | BLOCK_KERNEL => 0
  | BLOCK_FILESYS => 1
  | BLOCK_SCRATCH => 2
  | BLOCK_SWAP => 3
  | BLOCK_RAW => 4
  | BLOCK_FOREIGN => 5
  end.
Definition BLOCK_ROLE_CNT : nat := 4.

(** The known types of partitions, by their number. *)
Definition type_names : list (Z * string) :=
  [(0, "Empty"); (1, "FAT12"); (2, "XENIX root"); (3, "XENIX usr"); (4, "FAT16 <32M");
   (5, "Extended"); (6, "FAT16"); (7, "HPFS/NTFS"); (8, "AIX"); (9, "AIX bootable");
   (10, "OS/2 Boot Manager"); (11, "W95 FAT32"); (12, "W95 FAT32 (LBA)");
   (14, "W95 FAT16 (LBA)"); (15, "W95 Ext'd (LBA)"); (16, "OPUS"); (17, "Hidden FAT12");
   (18, "Compaq diagnostics"); (20, "Hidden FAT16 <32M"); (22, "Hidden FAT16");
   (23, "Hidden HPFS/NTFS"); (24, "AST SmartSleep"); (27, "Hidden W95 FAT32");
   (28, "Hidden W95 FAT32 (LBA)"); (30, "Hidden W95 FAT16 (LBA)"); (32, "Pintos OS kernel");
   (33, "Pintos file system"); (34, "Pintos scratch"); (35, "Pintos swap"); (36, "NEC DOS");
   (57, "Plan 9"); (60, "PartitionMagic recovery"); (64, "Venix 80286");
   (65, "PPC PReP Boot"); (66, "SFS"); (77, "QNX4.x"); (78, "QNX4.x 2nd part");
   (79, "QNX4.x 3rd part"); (80, "OnTrack DM"); (81, "OnTrack DM6 Aux1"); (82, "CP/M");
   (83, "OnTrack DM6 Aux3"); (84, "OnTrackDM6"); (85, "EZ-Drive"); (86, "Golden Bow");
   (92, "Priam Edisk"); (97, "SpeedStor"); (99, "GNU HURD or SysV");
   (100, "Novell Netware 286"); (101, "Novell Netware 386"); (112, "DiskSecure Multi-Boot");
   (117, "PC/IX"); (128, "Old Minix"); (129, "Minix / old Linux");
   (130, "Linux swap / Solaris"); (131, "Linux"); (132, "OS/2 hidden C: drive");
   (133, "Linux extended"); (134, "NTFS volume set"); (135, "NTFS volume set");
   (136, "Linux plaintext"); (142, "Linux LVM"); (147, "Amoeba"); (148, "Amoeba BBT");
   (159, "BSD/OS"); (160, "IBM Thinkpad hibernation"); (165, "FreeBSD"); (166, "OpenBSD");
   (167, "NeXTSTEP"); (168, "Darwin UFS"); (169, "NetBSD"); (171, "Darwin boot");
   (183, "BSDI fs"); (184, "BSDI swap"); (187, "Boot Wizard hidden"); (190, "Solaris boot");
   (191, "Solaris"); (193, "DRDOS/sec (FAT-12)"); (196, "DRDOS/sec (FAT-16 < 32M)");
   (198, "DRDOS/sec (FAT-16)"); (199, "Syrinx"); (218, "Non-FS data");
   (219, "CP/M / CTOS / ..."); (222, "Dell Utility"); (223, "BootIt"); (225, "DOS access");
   (227, "DOS R/O"); (228, "SpeedStor"); (235, "BeOS fs"); (238, "EFI GPT");
   (239, "EFI (FAT-12/16/32)"); (240, "Linux/PA-RISC boot"); (241, "SpeedStor");
   (244, "SpeedStor"); (242, "DOS secondary"); (253, "Linux raid autodetect");
   (254, "LANstep"); (255, "BBT")]%string.

Definition partition_type_name (type : Z) : string :=
  match list_find (λ e, e.1 = type) type_names with
  | Some (_, (_, name)) => name
  | None => "Unknown"
  end.

(** ** Operations *)

Section Registry.
Context {D : Type} `{BlockOps D}.

Local Abbreviation R := (M (registry D)).

Definition say (t : list Z) : R unit := modify (λ s, s <| tty := tty s ++ t |>).

(** Numbers, as [%'u], [%u], [%llu] and [%02x], and as [%d] print them. *)
Definition number (b : integer_base) (flags width v : Z) : R (list Z) :=
  lift (format_integer v false false b (mk_conversion flags width (-1) LONGLONG)).
Definition signed_number (v : Z) : R (list Z) :=
  lift (format_integer (Z.abs v) true (v <? 0) base_d (mk_conversion 0 0 (-1) INT)).

Definition malloc : R Z := λ s,
  match mallocs s with
  | [] => Waits
  | a :: l => Ret a (s <| mallocs := l |>)
  end.

Definition block_at (a : Z) : R bdev := b ← get (λ s, blocks s !! a); lift b.

Definition set_block (a : Z) (b : bdev) : R unit :=
  modify (λ s, s <| blocks := <[a := b]> (blocks s) |>).

Definition block_get_role (role : block_type) : R Z :=
  check (type_no role <? BLOCK_ROLE_CNT)%nat;;
  a ← get (λ s, block_by_role s !! type_no role); lift a.

Definition block_set_role (role : block_type) (block : Z) : R unit :=
  check (type_no role <? BLOCK_ROLE_CNT)%nat;;
  modify (λ s, s <| block_by_role := <[type_no role := block]> (block_by_role s) |>).

(** The rest of a list of devices is its first device, or the end of the list. *)
Definition list_elem_to_block (rest : list Z) : Z :=
  match rest with
  | [] => NULL
  | a :: _ => a
  end.

Definition block_first : R Z := get (λ s, list_elem_to_block (all_blocks s)).

(** What follows a device in the list. *)
Fixpoint list_after (a : Z) (l : list Z) : option (list Z) :=
  match l with
  | [] => None
  | b :: l => if b =? a then Some l else list_after a l
  end.

Definition block_next (block : Z) : R Z :=
  rest ← get (λ s, list_after block (all_blocks s));
  rest ← lift rest;
  mret (list_elem_to_block rest).

Fixpoint by_name_loop (l : list Z) (name : list Z) : R Z :=
  match l with
  | [] => mret NULL
  | a :: l =>
      b ← block_at a;
      if bool_decide (name = b_name b) then mret a else by_name_loop l name
  end.

Definition block_get_by_name (name : list Z) : R Z :=
  l ← get all_blocks; by_name_loop l name.

Definition check_sector (b : bdev) (sector : Z) : R unit := check (sector <? b_size b).

(** With at most [n] nested devices. *)
Fixpoint read_nested (n : nat) (block sector : Z) : R (list Z) :=
  match n with
  | O => waits
  | S n =>
      b ← block_at block;
      check_sector b sector;;
      data ←
        match b_driver b with
        | Raw i => d ← get (λ s, disks s !! i); d ← lift d; lift (dev_read d sector)
        | Window p_block p_start => read_nested n p_block (u32 (p_start + sector))
        end;
      set_block block (b <| read_cnt := (read_cnt b + 1) mod 2 ^ 64 |>);;
      mret data
  end.

Fixpoint write_nested (n : nat) (block sector : Z) (buffer : list Z) : R unit :=
  match n with
  | O => waits
  | S n =>
      b ← block_at block;
      check_sector b sector;;
      check (bool_decide (b_type b ≠ BLOCK_FOREIGN));;
      match b_driver b with
      | Raw i =>
          d ← get (λ s, disks s !! i);
          d ← lift d;
          d ← lift (dev_write d sector buffer);
          modify (λ s, s <| disks := <[i := d]> (disks s) |>)
      | Window p_block p_start => write_nested n p_block (u32 (p_start + sector)) buffer
      end;;
      set_block block (b <| write_cnt := (write_cnt b + 1) mod 2 ^ 64 |>)
  end.

(** Partitions are on disks: there are two devices at most. *)
Definition block_read (block sector : Z) : R (list Z) := read_nested 2 block sector.
Definition block_write (block sector : Z) (buffer : list Z) : R unit :=
  write_nested 2 block sector buffer.

Definition block_size (block : Z) : R Z := b ← block_at block; mret (b_size b).
Definition block_name (block : Z) : R (list Z) := b ← block_at block; mret (b_name b).
Definition block_type_of (block : Z) : R block_type := b ← block_at block; mret (b_type b).

Fixpoint print_stats_loop (roles : list Z) : R unit :=
  match roles with
  | [] => mret tt
  | block :: roles =>
      when (negb (block =? NULL))
        (b ← block_at block;
         reads ← number base_d 0 0 (read_cnt b);
         writes ← number base_d 0 0 (write_cnt b);
         say (b_name b ++ lit " (" ++ lit (block_type_name (b_type b)) ++ lit "): "
                ++ reads ++ lit " reads, " ++ writes ++ lit " writes" ++ lit newline));;
      print_stats_loop roles
  end.

Definition block_print_stats : R unit := roles ← get block_by_role; print_stats_loop roles.

(** What [block_register] prints. *)
Definition announce (name : list Z) (extra_info : option (list Z)) (size : Z) : R unit :=
  sectors ← number base_d GROUP 0 size;
  say (name ++ lit ": " ++ sectors ++ lit " sectors (");;
  human ← lift (print_human_readable_size (size * BLOCK_SECTOR_SIZE));
  say human;;
  say (lit ")");;
  match extra_info with
  | Some info => say (lit ", " ++ info)
  | None => mret tt
  end;;
  say (lit newline).

(** [strlcpy] cuts the name to 15 characters. *)
Definition block_register (name : list Z) (type : block_type) (extra_info : option (list Z))
    (size : Z) (drv : driver) : R Z :=
  block ← malloc;
  check (negb (block =? NULL));;
  modify (λ s, s <| all_blocks := all_blocks s ++ [block] |>);;
  set_block block (mk_bdev (take 15 name) type size drv 0 0);;
  announce (take 15 name) extra_info size;;
  mret block.

(** ** Scanning for partitions *)

(** The name of a partition, its device's with the number. *)
Definition partition_name (block part_nr : Z) : R (list Z) :=
  name ← block_name block;
  nr ← signed_number part_nr;
  mret (name ++ nr).

Definition found_partition (block part_type start size part_nr : Z) : R unit :=
  n ← block_size block;
  name ← partition_name block part_nr;
  if n <=? start then
    st ← number base_d 0 0 start;
    say (name ++ lit ": Partition starts past end of device (sector " ++ st ++ lit ")" ++ lit newline)
  else if (u32 (start + size) <? start) || (n <? u32 (start + size)) then
    e ← number base_d 0 0 (u32 (start + size));
    sz ← number base_d 0 0 n;
    say (name ++ lit ": Partition end (" ++ e ++ lit ") past end of device (" ++ sz ++ lit ")" ++ lit newline)
  else
    let type :=
      if part_type =? 32 then BLOCK_KERNEL
      else if part_type =? 33 then BLOCK_FILESYS
      else if part_type =? 34 then BLOCK_SCRATCH
      else if part_type =? 35 then BLOCK_SWAP
      else BLOCK_FOREIGN in
    p ← malloc;
    check (negb (p =? NULL));;
    hex ← number base_x ZERO 2 part_type;
    let extra_info := take 127 (lit (partition_type_name part_type) ++ lit " (" ++ hex ++ lit ")") in
    block_register (take 15 name) type (Some extra_info) size (Window block start);;
    mret tt.

(** Calls [f] with each entry, which may change the number of partitions. *)
Fixpoint entries_loop (f : partition_table_entry → Z → R Z) (es : list partition_table_entry)
    (part_nr : Z) : R Z :=
  match es with
  | [] => mret part_nr
  | e :: es => part_nr ← f e part_nr; entries_loop f es part_nr
  end.

(** With at most [n] nested calls; the number of partitions is returned. *)
Fixpoint read_partition_table (n : nat) (block sector primary_extended_sector part_nr : Z) : R Z :=
  match n with
  | O => waits
  | S n =>
      size ← block_size block;
      name ← block_name block;
      sec ← number base_d 0 0 sector;
      if size <=? sector then
        say (name ++ lit ": Partition table at sector " ++ sec ++ lit " past end of device."
               ++ lit newline);;
        mret part_nr
      else
        buf ← malloc;
        check (negb (buf =? NULL));;
        pt ← block_read block 0;
        if negb (pt_signature pt =? 43605) then
          (if primary_extended_sector =? 0
           then say (name ++ lit ": Invalid partition table signature" ++ lit newline)
           else say (name ++ lit ": Invalid extended partition table in sector " ++ sec ++ lit newline));;
          mret part_nr
        else
          entries_loop (λ e part_nr,
            if (e_size e =? 0) || (e_type e =? 0) then mret part_nr
            else if is_extended (e_type e) then
              say (name ++ lit ": Extended partition in sector " ++ sec ++ lit newline);;
              if sector =? 0
              then read_partition_table n block (e_offset e) (e_offset e) part_nr
              else read_partition_table n block (u32 (e_offset e + primary_extended_sector))
                     primary_extended_sector part_nr
            else
              let part_nr := int32 (part_nr + 1) in
              found_partition block (e_type e) (u32 (e_offset e + sector)) (e_size e) part_nr;;
              mret part_nr)
            (pt_entry pt <$> seq 0 4) part_nr
  end.

(** [partition_scan], up to [n] nested tables. *)
Definition partition_scan (n : nat) (block : Z) : R unit :=
  part_nr ← read_partition_table n block 0 0 0;
  name ← block_name block;
  when (part_nr =? 0) (say (name ++ lit ": Device contains no partitions" ++ lit newline)).
End Registry.

(** ** The devices are windows on the disks *)

(** The part of a disk that a device stands for. *)
Record geometry := mk_geometry {
  g_disk : nat;
  g_start : Z;
  g_size : Z;
  g_foreign : bool;
}.

Section Devices.
Context {D : Type} `{BlockDev D}.
Implicit Types s : registry D.

Definition foreign (b : bdev) : bool := bool_decide (b_type b = BLOCK_FOREIGN).

Definition geometry_of s (a : Z) : option geometry :=
  b ← blocks s !! a;
  match b_driver b with
  | Raw i => Some (mk_geometry i 0 (b_size b) (foreign b))
  | Window p start =>
      pb ← blocks s !! p;
      match b_driver pb with
      | Raw i => Some (mk_geometry i start (b_size b) (foreign b))
      | Window _ _ => None
      end
  end.

(** The sectors of all disks. *)
Definition contents s : list (list (list Z)) := dev_data <$> disks s.

(** What is true of a device: a disk is registered with a size it has, and a
    partition lies within a registered disk. *)
Definition bdev_ok s (b : bdev) : Prop :=
  is_u32 (b_size b) ∧
  match b_driver b with
  | Raw i => b_type b ≠ BLOCK_FOREIGN ∧
      ∃ d, disks s !! i = Some d ∧ b_size b ≤ Z.of_nat (length (dev_data d))
  | Window p start => ∃ pb i, blocks s !! p = Some pb ∧ b_driver pb = Raw i ∧
      0 ≤ start ∧ start + b_size b ≤ b_size pb
  end.

Record reg_ok s : Prop := {
  ok_disks : Forall dev_ok (disks s);
  ok_blocks : map_Forall (λ a b, a ≠ NULL ∧ bdev_ok s b) (blocks s);
  ok_list : NoDup (all_blocks s);
  ok_dom : ∀ a, a ∈ all_blocks s ↔ is_Some (blocks s !! a);
  ok_roles : length (block_by_role s) = BLOCK_ROLE_CNT;
  ok_role : Forall (λ a, a = NULL ∨ a ∈ all_blocks s) (block_by_role s);
}.

(** A device without its counts. *)
Definition static (b : bdev) : bdev := b <| read_cnt := 0 |> <| write_cnt := 0 |>.

(** Only counts, and the sectors of disks, have changed. *)
Record counted s s' : Prop := {
  c_blocks : static <$> blocks s' = static <$> blocks s;
  c_list : all_blocks s' = all_blocks s;
  c_roles : block_by_role s' = block_by_role s;
  c_mallocs : mallocs s' = mallocs s;
  c_tty : tty s' = tty s;
}.

Lemma counted_lookup s s' a b : counted s s' → blocks s !! a = Some b →
  ∃ b', blocks s' !! a = Some b' ∧ static b' = static b.
Proof.
  intros C E. pose proof (f_equal (lookup a) (c_blocks _ _ C)) as L.
  rewrite !lookup_fmap, E in L. destruct (blocks s' !! a) as [b'|]; [|done].
  exists b'. split; [done|]. by apply (inj Some).
Qed.

Lemma counted_sym s s' : counted s s' → counted s' s.
Proof. intros []. by split. Qed.

Lemma counted_trans s1 s2 s3 : counted s1 s2 → counted s2 s3 → counted s1 s3.
Proof. intros [E1 ? ? ? ?] [E2 ? ? ? ?]. split; [by rewrite E2|congruence..]. Qed.

Lemma counted_geometry s s' a : counted s s' → geometry_of s' a = geometry_of s a.
Proof.
  intros C. unfold geometry_of. destruct (blocks s !! a) as [b|] eqn:E.
  - destruct (counted_lookup s s' a b C E) as (b' & -> & Eb). cbn [mbind option_bind].
    pose proof (f_equal b_driver Eb) as Ed. pose proof (f_equal b_size Eb) as Es.
    pose proof (f_equal b_type Eb) as Et. simpl in Ed, Es, Et. unfold foreign. rewrite Ed, Es, Et.
    destruct (b_driver b) as [i|p st]; [done|]. destruct (blocks s !! p) as [pb|] eqn:Ep.
    + destruct (counted_lookup s s' p pb C Ep) as (pb' & -> & Epb). cbn [mbind option_bind].
      pose proof (f_equal b_driver Epb) as Epd. simpl in Epd. by rewrite Epd.
    + destruct (blocks s' !! p) as [pb'|] eqn:Ep'; [|done].
      destruct (counted_lookup s' s p pb' (counted_sym _ _ C) Ep') as (? & ? & _). congruence.
  - destruct (blocks s' !! a) as [b'|] eqn:E'; [|done].
    destruct (counted_lookup s' s a b' (counted_sym _ _ C) E') as (? & ? & _). congruence.
Qed.

(** Disks that keep their sizes keep the devices in order. *)
Lemma counted_ok s s' : counted s s' → reg_ok s → Forall dev_ok (disks s') →
  (∀ i d, disks s !! i = Some d → ∃ d', disks s' !! i = Some d' ∧
     length (dev_data d') = length (dev_data d)) → reg_ok s'.
Proof.
  intros C [O1 O2 O3 O4 O5 O6] F L. pose proof (counted_sym _ _ C) as C'.
  split; [done| |by rewrite (c_list _ _ C)| |by rewrite (c_roles _ _ C)|].
  - intros a b' E'. destruct (counted_lookup s' s a b' C' E') as (b & E & Eb).
    destruct (O2 a b E) as [Ha [Hu Hd]]. split; [done|]. unfold bdev_ok.
    pose proof (f_equal b_driver Eb) as Ed. pose proof (f_equal b_size Eb) as Es.
    pose proof (f_equal b_type Eb) as Et. simpl in Ed, Es, Et. rewrite <-Ed, <-Es, <-Et.
    split; [done|]. destruct (b_driver b) as [i|p st].
    + destruct Hd as (Ht & d & Edk & Hl). split; [done|]. destruct (L i d Edk) as (d' & Ed' & Hl').
      exists d'. rewrite Hl'. done.
    + destruct Hd as (pb & i & Ep & Epd & ? & ?).
      destruct (counted_lookup s s' p pb C Ep) as (pb' & Ep' & Epb). exists pb', i.
      pose proof (f_equal b_driver Epb) as E1. pose proof (f_equal b_size Epb) as E2. simpl in E1, E2.
      rewrite E1, E2. done.
  - intros a. rewrite (c_list _ _ C), O4. split; intros [b E].
    + destruct (counted_lookup s s' a b C E) as (b' & -> & _). done.
    + destruct (counted_lookup s' s a b C' E) as (b' & -> & _). done.
  - rewrite (c_roles _ _ C), (c_list _ _ C). done.
Qed.

(** Counting an access. *)
Lemma counted_set s a b b' : blocks s !! a = Some b → static b' = static b →
  counted s (s <| blocks := <[a := b']> (blocks s) |>).
Proof.
  intros E Eb. split; [|done..]. simpl. rewrite fmap_insert, Eb. apply insert_id.
  by rewrite lookup_fmap, E.
Qed.

Ltac step := unfold block_at, check_sector, check, get, lift, set_block, modify, mbind, M_bind, mret, M_ret.

Lemma read_raw n a b i d c sector s : blocks s !! a = Some b → b_driver b = Raw i →
  disks s !! i = Some d → dev_ok d → 0 ≤ sector < b_size b → dev_data d !! Z.to_nat sector = Some c →
  ∃ s', read_nested (S n) a sector s = Ret c s' ∧ counted s s' ∧ disks s' = disks s.
Proof.
  intros E Eb Ed Ok Hs Ec. cbn [read_nested]. step. rewrite E, (proj2 (Z.ltb_lt _ _)), Eb, Ed by lia.
  rewrite (dev_read_law d sector c) by (done || lia). eexists. split; [done|]. split; [|done].
  by apply counted_set with b.
Qed.

Lemma write_raw n a b i d c old sector s : blocks s !! a = Some b → b_driver b = Raw i →
  b_type b ≠ BLOCK_FOREIGN → disks s !! i = Some d → dev_ok d → 0 ≤ sector < b_size b →
  dev_data d !! Z.to_nat sector = Some old → sector_ok c →
  ∃ s' d', write_nested (S n) a sector c s = Ret tt s' ∧ counted s s' ∧
    disks s' = <[i := d']> (disks s) ∧ dev_ok d' ∧
    dev_data d' = <[Z.to_nat sector := c]> (dev_data d).
Proof.
  intros E Eb Et Ed Ok Hs Ec Hc. cbn [write_nested]. step.
  rewrite E, (proj2 (Z.ltb_lt _ _)), bool_decide_true, Eb, Ed by (done || lia).
  destruct (dev_write_law d sector old c) as (d' & -> & Ok' & Ed'); [done|done|lia|done|].
  eexists _, d'. split; [done|]. split; [|done].
  split; simpl; [|done..]. rewrite fmap_insert. apply insert_id. by rewrite lookup_fmap, E.
Qed.

(** Past the end, or on a device of another system, the accesses panic. *)
Lemma read_past n a b sector s : blocks s !! a = Some b → b_size b ≤ sector →
  read_nested (S n) a sector s = Panic.
Proof. intros E Hs. cbn [read_nested]. step. by rewrite E, (proj2 (Z.ltb_ge _ _)) by lia. Qed.

Lemma write_refused n a b sector c s : blocks s !! a = Some b →
  b_size b ≤ sector ∨ foreign b = true → write_nested (S n) a sector c s = Panic.
Proof.
  intros E Hs. cbn [write_nested]. step. rewrite E. destruct (sector <? b_size b) eqn:L; [|done].
  destruct Hs as [Hs|Hf]; [apply Z.ltb_lt in L; lia|]. apply bool_decide_eq_true in Hf.
  rewrite bool_decide_false by tauto. done.
Qed.

(** A partition passes the accesses on. *)
Lemma read_window n a b p st c sector s s1 : blocks s !! a = Some b → b_driver b = Window p st →
  sector < b_size b → read_nested n p (u32 (st + sector)) s = Ret c s1 →
  read_nested (S n) a sector s
    = Ret c (s1 <| blocks := <[a := b <| read_cnt := (read_cnt b + 1) mod 2 ^ 64 |>]> (blocks s1) |>).
Proof.
  intros E Eb Hs R. cbn [read_nested]. step. by rewrite E, (proj2 (Z.ltb_lt _ _)), Eb, R.
Qed.

Lemma write_window n a b p st c sector s s1 : blocks s !! a = Some b → b_driver b = Window p st →
  b_type b ≠ BLOCK_FOREIGN → sector < b_size b →
  write_nested n p (u32 (st + sector)) c s = Ret tt s1 →
  write_nested (S n) a sector c s
    = Ret tt (s1 <| blocks := <[a := b <| write_cnt := (write_cnt b + 1) mod 2 ^ 64 |>]> (blocks s1) |>).
Proof.
  intros E Eb Et Hs R. cbn [write_nested]. step.
  by rewrite E, (proj2 (Z.ltb_lt _ _)), bool_decide_true, Eb, R.
Qed.

(** The sector of a disk that a device's sector is. *)
Definition sector_at (σ : list (list (list Z))) (g : geometry) (sector : Z) : option (list Z) :=
  σ !! g_disk g ≫= λ d, d !! Z.to_nat (g_start g + sector).

Definition update_at (σ : list (list (list Z))) (g : geometry) (sector : Z) (c : list Z) :
    list (list (list Z)) :=
  alter (λ d, <[Z.to_nat (g_start g + sector) := c]> d) (g_disk g) σ.

(** What a device stands for, from the invariant. *)
Lemma geometry_ok s a g : reg_ok s → geometry_of s a = Some g →
  ∃ b pb i d, blocks s !! a = Some b ∧ b_size b = g_size g ∧ foreign b = g_foreign g ∧
    g_disk g = i ∧ disks s !! i = Some d ∧ dev_ok d ∧ b_driver pb = Raw i ∧
    0 ≤ g_start g ∧ g_start g + g_size g ≤ b_size pb ∧ is_u32 (b_size pb) ∧
    b_size pb ≤ Z.of_nat (length (dev_data d)) ∧ b_type pb ≠ BLOCK_FOREIGN ∧
    (b = pb ∧ g_start g = 0 ∨ ∃ p, b_driver b = Window p (g_start g) ∧ blocks s !! p = Some pb).
Proof.
  intros [O1 O2 _ _ _ _] G. unfold geometry_of in G.
  destruct (blocks s !! a) as [b|] eqn:E; [|done]. cbn [mbind option_bind] in G.
  destruct (O2 a b E) as [_ [Hu Hd]]. destruct (b_driver b) as [i|p st] eqn:Eb.
  - injection G as <-. simpl. destruct Hd as (Ht & d & Ed & Hl).
    pose proof (Forall_lookup_1 _ _ _ _ O1 Ed). exists b, b, i, d. split_and!; try done; try lia.
    left. done.
  - destruct Hd as (pb & i & Ep & Epd & Hst & Hsz). rewrite Ep in G. cbn [mbind option_bind] in G.
    rewrite Epd in G. injection G as <-. simpl. destruct (O2 p pb Ep) as [_ [Hpu Hpd]].
    rewrite Epd in Hpd. destruct Hpd as (Ht & d & Ed & Hl).
    pose proof (Forall_lookup_1 _ _ _ _ O1 Ed). exists b, pb, i, d. split_and!; try done.
    right. by exists p.
Qed.

Lemma block_read_window s a g sector : reg_ok s → geometry_of s a = Some g →
  0 ≤ sector < g_size g →
  ∃ c s', sector_at (contents s) g sector = Some c ∧ sector_ok c ∧
    block_read a sector s = Ret c s' ∧ counted s s' ∧ disks s' = disks s.
Proof.
  intros O G Hs. destruct (geometry_ok s a g O G)
    as (b & pb & i & d & E & Es & _ & Ei & Ed & Ok & Epd & Hst & Hle & [_ Hu] & Hl & _ & Hw).
  destruct (lookup_lt_is_Some_2 (dev_data d) (Z.to_nat (g_start g + sector))) as [c Ec]; [lia|].
  exists c. unfold sector_at, contents. rewrite list_lookup_fmap, Ei, Ed. cbn [fmap option_fmap option_map mbind option_bind].
  rewrite Ec. pose proof (Forall_lookup_1 _ _ _ _ (dev_sectors d Ok) Ec).
  destruct Hw as [[-> Hz]|(p & Eb & Ep)].
  - rewrite Hz, Z.add_0_l in Ec.
    destruct (read_raw 1 a pb i d c sector s) as (s' & R & C & Dk); [done..|lia|done|].
    by exists s'.
  - destruct (read_raw 0 p pb i d c (g_start g + sector) s) as (s1 & R & C & Dk); [done..|lia|done|].
    destruct (counted_lookup s s1 a b C E) as (b1 & E1 & Eb1).
    exists (s1 <| blocks := <[a := b <| read_cnt := (read_cnt b + 1) mod 2 ^ 64 |>]> (blocks s1) |>).
    split; [done|]. split; [done|]. split; [|split].
    + apply (read_window 1 a b p (g_start g)); [done..|lia|].
      by rewrite u32_small by (unfold is_u32; lia).
    + eapply counted_trans; [exact C|]. by apply counted_set with b1.
    + done.
Qed.

Lemma contents_update s s' i d d' k c : disks s !! i = Some d → disks s' = <[i := d']> (disks s) →
  dev_data d' = <[k := c]> (dev_data d) → contents s' = alter (λ d, <[k := c]> d) i (contents s).
Proof.
  intros Ed Es Ed'. unfold contents. rewrite Es, list_fmap_insert, Ed'.
  apply list_eq. intros j. destruct (decide (j = i)) as [->|Hj].
  - rewrite list_lookup_alter_eq, list_lookup_insert_eq, list_lookup_fmap, Ed; [done|].
    rewrite length_fmap. by eapply lookup_lt_Some.
  - by rewrite list_lookup_alter_ne, list_lookup_insert_ne by done.
Qed.

Lemma block_write_window s a g sector c : reg_ok s → geometry_of s a = Some g →
  g_foreign g = false → 0 ≤ sector < g_size g → sector_ok c →
  ∃ s', block_write a sector c s = Ret tt s' ∧ counted s s' ∧ reg_ok s' ∧
    contents s' = update_at (contents s) g sector c.
Proof.
  intros O G Hf Hs Hc. destruct (geometry_ok s a g O G)
    as (b & pb & i & d & E & Es & Ef & Ei & Ed & Ok & Epd & Hst & Hle & [_ Hu] & Hl & Ht & Hw).
  destruct (lookup_lt_is_Some_2 (dev_data d) (Z.to_nat (g_start g + sector))) as [old Eo]; [lia|].
  assert (∃ s', block_write a sector c s = Ret tt s' ∧ counted s s' ∧
    ∃ d', disks s' = <[i := d']> (disks s) ∧ dev_ok d' ∧
      dev_data d' = <[Z.to_nat (g_start g + sector) := c]> (dev_data d))
    as (s' & W & C & d' & Dk & Ok' & Ed').
  { destruct Hw as [[-> Hz]|(p & Eb & Ep)].
    - rewrite Hz, Z.add_0_l in *.
      destruct (write_raw 1 a pb i d c old sector s) as (s' & d' & R & C & Dk); [done..|lia|done|done|].
      by eauto.
    - destruct (write_raw 0 p pb i d c old (g_start g + sector) s)
        as (s1 & d' & R & C & Dk & Ok' & Ed'); [done..|lia|done|done|].
      destruct (counted_lookup s s1 a b C E) as (b1 & E1 & Eb1). eexists. split.
      { apply (write_window 1 a b p (g_start g)); [done|done| |lia|].
        - intros T. unfold foreign in Ef. rewrite bool_decide_true in Ef by done. congruence.
        - by rewrite u32_small by (unfold is_u32; lia). }
      split; [eapply counted_trans; [exact C|]; by apply counted_set with b1|]. by exists d'. }
  exists s'. split; [done|]. split; [done|]. split.
  - apply (counted_ok s); [done|done| |].
    + rewrite Dk. apply Forall_insert; [apply O|done].
    + intros j dj Ej. rewrite Dk. destruct (decide (j = i)) as [->|Hj].
      * exists d'. rewrite list_lookup_insert_eq by (by eapply lookup_lt_Some).
        rewrite Ed', length_insert. by simplify_eq.
      * exists dj. by rewrite list_lookup_insert_ne.
  - unfold update_at. rewrite Ei. by eapply contents_update.
Qed.

(** ** Sequences of accesses *)

Inductive access :=
  | Read (block sector : Z)
  | Write (block sector : Z) (data : list Z).

Definition valid_access s (o : access) : Prop :=
  match o with
  | Read a sector => is_Some (geometry_of s a) ∧ 0 ≤ sector
  | Write a sector data => is_Some (geometry_of s a) ∧ 0 ≤ sector ∧ sector_ok data
  end.

Definition do_access (o : access) : M (registry D) (list Z) :=
  match o with
  | Read a sector => block_read a sector
  | Write a sector data => block_write a sector data;; mret []
  end.

Fixpoint do_accesses (os : list access) : M (registry D) (list (list Z)) :=
  match os with
  | [] => mret []
  | o :: os => r ← do_access o; rs ← do_accesses os; mret (r :: rs)
  end.

(** The same on the sectors of the disks; [None] is a panic. *)
Definition spec_access (layout : Z → option geometry) (o : access) (σ : list (list (list Z))) :
    option (list Z * list (list (list Z))) :=
  match o with
  | Read a sector =>
      g ← layout a;
      if sector <? g_size g then c ← sector_at σ g sector; Some (c, σ) else None
  | Write a sector data =>
      g ← layout a;
      if (sector <? g_size g) && negb (g_foreign g) then Some ([], update_at σ g sector data) else None
  end.

Fixpoint spec_accesses (layout : Z → option geometry) (os : list access) (σ : list (list (list Z))) :
    option (list (list Z) * list (list (list Z))) :=
  match os with
  | [] => Some ([], σ)
  | o :: os =>
      '(r, σ) ← spec_access layout o σ;
      '(rs, σ) ← spec_accesses layout os σ;
      Some (r :: rs, σ)
  end.

Lemma do_access_ok s o : reg_ok s → valid_access s o →
  match spec_access (geometry_of s) o (contents s) with
  | Some (r, σ) => ∃ s', do_access o s = Ret r s' ∧ counted s s' ∧ reg_ok s' ∧ contents s' = σ
  | None => do_access o s = Panic
  end.
Proof.
  intros O V. destruct o as [a sector|a sector c]; simpl in *.
  - destruct V as [[g G] Hs]. rewrite G. cbn [mbind option_bind].
    destruct (Z.ltb_spec sector (g_size g)) as [L|L].
    + destruct (block_read_window s a g sector O G) as (c & s' & -> & _ & R & C & Dk); [lia|].
      cbn [mbind option_bind]. exists s'. split; [done|]. split; [done|].
      split; [|unfold contents; by rewrite Dk]. apply (counted_ok s); [done|done| |].
      * rewrite Dk. apply O.
      * intros i d Ed. exists d. by rewrite Dk.
    + destruct (geometry_ok s a g O G) as (b & _ & _ & _ & E & Es & _).
      apply (read_past 1 a b); [done|lia].
  - destruct V as ([g G] & Hs & Hc). rewrite G. cbn [mbind option_bind].
    destruct (geometry_ok s a g O G) as (b & _ & _ & _ & E & Es & Ef & _).
    destruct ((sector <? g_size g) && negb (g_foreign g)) eqn:L.
    + apply andb_true_iff in L as [L1 L2]. apply Z.ltb_lt in L1. apply negb_true_iff in L2.
      destruct (block_write_window s a g sector c O G L2) as (s' & W & C & O' & Ec); [lia|done|].
      exists s'. by rewrite (bind_Ret _ _ _ _ _ W).
    + apply bind_Panic, (write_refused 1 a b); [done|].
      apply andb_false_iff in L as [L|L]; [left; apply Z.ltb_ge in L; lia|right].
      apply negb_false_iff in L. congruence.
Qed.

(** Windows on different disks, or on different parts of a disk. *)
Definition apart (g g' : geometry) : Prop :=
  g_disk g ≠ g_disk g' ∨ g_start g + g_size g ≤ g_start g' ∨ g_start g' + g_size g' ≤ g_start g.

Lemma update_apart σ g g' sector sector' c : apart g g' → 0 ≤ g_start g → 0 ≤ g_start g' →
  0 ≤ sector < g_size g → 0 ≤ sector' < g_size g' →
  sector_at (update_at σ g sector c) g' sector' = sector_at σ g' sector'.
Proof.
  intros A H1 H2 H3 H4. unfold sector_at, update_at. destruct (decide (g_disk g = g_disk g')) as [E|N].
  - rewrite <-E, list_lookup_alter_eq. destruct (σ !! g_disk g) as [d|]; [|done].
    cbn [fmap option_fmap option_map mbind option_bind]. rewrite list_lookup_insert_ne; [done|].
    destruct A as [A|A]; [done|]. lia.
  - by rewrite list_lookup_alter_ne.
Qed.

Definition access_block (o : access) : Z := match o with Read a _ | Write a _ _ => a end.

Lemma spec_access_apart s o σ r σ' g' sector' : reg_ok s → valid_access s o →
  spec_access (geometry_of s) o σ = Some (r, σ') →
  (∀ g, geometry_of s (access_block o) = Some g → apart g g') → 0 ≤ g_start g' →
  0 ≤ sector' < g_size g' → sector_at σ' g' sector' = sector_at σ g' sector'.
Proof.
  intros O V S A Hg Hs. destruct o as [a sector|a sector c]; simpl in *.
  - destruct (geometry_of s a) as [g|]; [|done]. cbn [mbind option_bind] in S.
    destruct (sector <? g_size g); [|done]. destruct (sector_at σ g sector); [|done].
    by injection S as _ <-.
  - destruct V as ([g G] & Hs' & _). rewrite G in S. cbn [mbind option_bind] in S.
    destruct ((sector <? g_size g) && negb (g_foreign g)) eqn:L; [|done]. injection S as _ <-.
    apply andb_true_iff in L as [L _]. apply Z.ltb_lt in L.
    destruct (geometry_ok s a g O G) as (b & pb & i & d & _ & _ & _ & _ & _ & _ & _ & Hst & _).
    by apply update_apart; [apply A| | |lia|].
Qed.

Lemma valid_counted s s' o : counted s s' → valid_access s o → valid_access s' o.
Proof. intros C. destruct o; simpl; rewrite (counted_geometry s s' _ C); tauto. Qed.

Lemma do_accesses_ok os s : reg_ok s → Forall (valid_access s) os →
  match spec_accesses (geometry_of s) os (contents s) with
  | Some (rs, σ) =>
      (∃ s', do_accesses os s = Ret rs s' ∧ counted s s' ∧ reg_ok s' ∧ contents s' = σ) ∧
      ∀ g' sector', Forall (λ o, ∀ g, geometry_of s (access_block o) = Some g → apart g g') os →
        0 ≤ g_start g' → 0 ≤ sector' < g_size g' →
        sector_at σ g' sector' = sector_at (contents s) g' sector'
  | None => do_accesses os s = Panic
  end.
Proof.
  revert s. induction os as [|o os IH]; intros s O V.
  { cbn. split; [|done]. by exists s. }
  apply Forall_cons in V as [V Vs]. cbn [spec_accesses do_accesses].
  pose proof (do_access_ok s o O V) as Ho.
  destruct (spec_access (geometry_of s) o (contents s)) as [[r σ1]|] eqn:S.
  2:{ cbn [mbind option_bind]. by apply bind_Panic. }
  destruct Ho as (s1 & R & C & O1 & E1). cbn [mbind option_bind].
  assert (Forall (valid_access s1) os) as Vs1
    by (eapply Forall_impl; [exact Vs|]; intros ? ?; eapply valid_counted; [exact C|done]).
  specialize (IH s1 O1 Vs1). rewrite E1 in IH.
  assert (spec_accesses (geometry_of s1) os σ1 = spec_accesses (geometry_of s) os σ1) as Es.
  { clear -C. revert σ1. induction os as [|o os IHo]; intros σ; [done|]. cbn [spec_accesses].
    assert (spec_access (geometry_of s1) o σ = spec_access (geometry_of s) o σ) as ->
      by (destruct o; simpl; by rewrite (counted_geometry s s1)).
    destruct (spec_access (geometry_of s) o σ) as [[r' σ']|]; [|done]. cbn [mbind option_bind].
    by rewrite IHo. }
  rewrite Es in IH. rewrite (bind_Ret _ _ _ _ _ R).
  destruct (spec_accesses (geometry_of s) os σ1) as [[rs σ]|]; cbn [mbind option_bind].
  2:{ by apply bind_Panic. }
  destruct IH as [(s' & Rs & C' & O' & E') Ha]. split.
  - exists s'. rewrite (bind_Ret _ _ _ _ _ Rs). split; [done|].
    split; [by eapply counted_trans|done].
  - intros g' sector' F Hg Hs. apply Forall_cons in F as [F Fs]. rewrite Ha; [|..|done].
    + by eapply (spec_access_apart s o).
    + eapply Forall_impl; [exact Fs|]. intros o' Ho' g G. apply Ho'. by rewrite <-(counted_geometry s s1).
    + done.
Qed.

(** ** Registering and scanning *)

(** The blocks of memory that [malloc] will return are new. *)
Definition supply_ok s : Prop :=
  NoDup (mallocs s) ∧ Forall (λ a, a ≠ NULL ∧ blocks s !! a = None) (mallocs s).

(** A device of type [tg.1] that stands for [tg.2]. *)
Definition is_part s (a' : Z) (tg : block_type * geometry) : Prop :=
  geometry_of s a' = Some tg.2 ∧ b_type <$> blocks s !! a' = Some tg.1.

Section Scan.
(** The disk [i], of [sz] sectors, is registered at [a]; the disks' sectors are
    [σ]. *)
Context (a : Z) (i : nat) (sz : Z) (σ : list (list (list Z))).

Record good s : Prop := {
  g_ok : reg_ok s;
  g_supply : supply_ok s;
  g_device : ∃ b, blocks s !! a = Some b ∧ b_driver b = Raw i ∧ b_size b = sz;
}.

(** The devices [tgs] are registered, in this order. *)
Record grown (tgs : list (block_type * geometry)) s s' : Prop := {
  w_good : good s';
  w_part : ∀ a' tg, is_part s a' tg → is_part s' a' tg;
  w_contents : contents s' = contents s;
  w_roles : block_by_role s' = block_by_role s;
  w_new : ∃ new, all_blocks s' = all_blocks s ++ new ∧ Forall2 (is_part s') new tgs;
}.

Lemma grown_refl s : good s → grown [] s s.
Proof. intros G. split; try done. exists []. by rewrite app_nil_r. Qed.

Lemma grown_trans tgs1 tgs2 s1 s2 s3 : grown tgs1 s1 s2 → grown tgs2 s2 s3 → grown (tgs1 ++ tgs2) s1 s3.
Proof.
  intros [_ A1 B1 C1 (n1 & E1 & F1)] [G A2 B2 C2 (n2 & E2 & F2)].
  split; [done|auto|congruence|congruence|]. exists (n1 ++ n2). rewrite E2, E1, app_assoc.
  split; [done|]. apply Forall2_app; [|done]. eapply Forall2_impl; [exact F1|]. intros a' tg. apply A2.
Qed.

(** [m] returns if [malloc] has [k] blocks left, and registers the devices
    [tgs]. *)
Definition keeps {A} (k : nat) tgs (m : M (registry D) A) (Q : A → Prop) : Prop := ∀ s,
  good s → contents s = σ → (k ≤ length (mallocs s))%nat →
  twp m (λ x s', grown tgs s s' ∧ (length (mallocs s) ≤ k + length (mallocs s'))%nat ∧ Q x) s.

Lemma reg_keeps_bind {A B} k1 k2 tgs1 tgs2 (m : M (registry D) A) (f : A → M (registry D) B) P Q :
  keeps k1 tgs1 m P → (∀ x, P x → keeps k2 tgs2 (f x) Q) → keeps (k1 + k2) (tgs1 ++ tgs2) (m ≫= f) Q.
Proof.
  intros Hm Hk s G C L. eapply twp_seq; [apply Hm; [done|done|lia]|]. intros x s1 (G1 & L1 & Px).
  eapply twp_mono; [apply (Hk x Px); [apply G1|rewrite (w_contents _ _ _ G1); exact C|lia]|].
  intros y s2 (G2 & L2 & Qy). split; [by eapply grown_trans|]. split; [lia|done].
Qed.

Lemma reg_keeps_seq {A B} k tgs (m : M (registry D) A) (f : A → M (registry D) B) P Q :
  keeps 0 [] m P → (∀ x, P x → keeps k tgs (f x) Q) → keeps k tgs (m ≫= f) Q.
Proof. apply (reg_keeps_bind 0 k []). Qed.

Lemma keeps_stays {A} (m : M (registry D) A) (x : A) (Q : A → Prop) :
  (∀ s, good s → m s = Ret x s) → Q x → keeps 0 [] m Q.
Proof.
  intros E Qx s G _ _. apply (twp_intro _ _ x s); [by apply E|]. split; [by apply grown_refl|]. by split; [lia|].
Qed.

Lemma reg_keeps_ret {A} (x : A) (Q : A → Prop) : Q x → keeps 0 [] (mret x) Q.
Proof. by apply keeps_stays. Qed.

Lemma reg_keeps_say t : keeps 0 [] (say t) (λ _, True).
Proof.
  intros s [O S Dv] _ _. apply twp_modify. split; [|split; [simpl; lia|done]]. split; try done.
  - destruct O. by split.
  - exists []. by rewrite app_nil_r.
Qed.

Lemma keeps_number b fl w v : is_base b → 0 ≤ v < 2 ^ 64 → keeps 0 [] (number b fl w v) (λ _, True).
Proof.
  intros Hb Hv. unfold number.
  destruct (format_integer_ok v false false b (mk_conversion fl w (-1) LONGLONG)) as [t ->]; [done..|].
  by apply (keeps_stays _ t).
Qed.

Lemma keeps_signed v : - 2 ^ 31 ≤ v < 2 ^ 31 → keeps 0 [] (signed_number v) (λ _, True).
Proof.
  intros Hv. unfold signed_number.
  destruct (format_integer_ok (Z.abs v) true (v <? 0) base_d (mk_conversion 0 0 (-1) INT)) as [t ->];
    [by left|lia|]. by apply (keeps_stays _ t).
Qed.

Lemma keeps_malloc : keeps 1 [] malloc (λ p, p ≠ NULL).
Proof.
  intros s [O [S1 S2] Dv] _ L. unfold twp, malloc. destruct (mallocs s) as [|p l] eqn:E; [simpl in L; lia|].
  apply NoDup_cons in S1 as [_ S1]. apply Forall_cons in S2 as [[Hp _] S2].
  split; [|split; [simpl; lia|done]]. split; try done; [|exists []; by rewrite app_nil_r].
  split; [destruct O; by split|done|done].
Qed.

Lemma keeps_check (b : bool) : b = true → keeps 0 [] (check b) (λ _, True).
Proof. intros ->. by apply (keeps_stays _ tt). Qed.

Lemma keeps_size : keeps 0 [] (block_size a) (λ n, n = sz).
Proof.
  apply (keeps_stays _ sz); [|done]. intros s G. destruct (g_device s G) as (b & E & _ & Es).
  unfold block_size, block_at, get, lift, mbind, M_bind. rewrite E. by rewrite <-Es.
Qed.

Lemma keeps_name : keeps 0 [] (block_name a) (λ _, True).
Proof.
  intros s G _ _. destruct (g_device s G) as (b & E & _ & Es).
  unfold twp, block_name, block_at, get, lift, mbind, M_bind. rewrite E.
  split; [by apply grown_refl|]. by split; [simpl; lia|].
Qed.

Lemma insert_geometry s p b a' g : blocks s !! p = None → geometry_of s a' = Some g →
  geometry_of (s <| blocks := <[p := b]> (blocks s) |>) a' = Some g.
Proof.
  intros N. unfold geometry_of. cbn [blocks].
  assert (∀ q, blocks (s <| blocks := <[p := b]> (blocks s) |>) !! q = <[p := b]> (blocks s) !! q) as E
    by done. rewrite !E.
  destruct (blocks s !! a') as [b'|] eqn:Ea; [|done]. rewrite lookup_insert_ne by congruence.
  rewrite Ea. cbn [mbind option_bind]. destruct (b_driver b') as [|q st]; [done|].
  destruct (blocks s !! q) as [qb|] eqn:Eq; [|done].
  rewrite E, lookup_insert_ne by congruence. by rewrite Eq.
Qed.

(** A new device at a new address. *)
Definition plugged (p : Z) (b : bdev) s : registry D :=
  s <| all_blocks := all_blocks s ++ [p] |> <| blocks := <[p := b]> (blocks s) |>.

Lemma plugged_ok p b s : reg_ok s → p ≠ NULL → blocks s !! p = None → bdev_ok s b →
  reg_ok (plugged p b s).
Proof.
  intros [O1 O2 O3 O4 O5 O6] Hp N Hb.
  assert (∀ b', bdev_ok s b' → bdev_ok (plugged p b s) b') as Hmono.
  { intros b' [Hu Hd]. split; [done|]. destruct (b_driver b') as [|q st]; [done|].
    destruct Hd as (pb & j & Eq & ?). exists pb, j. split; [|done].
    change (<[p := b]> (blocks s) !! q = Some pb). rewrite lookup_insert_ne by congruence. done. }
  split; [done| | | |done|].
  - intros q b' E. change (<[p := b]> (blocks s) !! q = Some b') in E.
    apply lookup_insert_Some in E as [[<- <-]|[_ E]]; [by split; [|apply Hmono]|].
    destruct (O2 q b' E) as [? ?]. split; [done|by apply Hmono].
  - change (NoDup (all_blocks s ++ [p])). apply NoDup_app. split; [done|]. split; [|apply NoDup_singleton].
    intros q Hq ->%list_elem_of_singleton. apply O4 in Hq as [? ?]. congruence.
  - intros q. change (q ∈ all_blocks s ++ [p] ↔ is_Some (<[p := b]> (blocks s) !! q)).
    rewrite elem_of_app, list_elem_of_singleton, O4. destruct (decide (q = p)) as [->|Hq].
    + rewrite lookup_insert_eq. split; [by eexists|by right].
    + rewrite lookup_insert_ne by done. split; [by intros [?| ->]|by left].
  - change (Forall (λ q, q = NULL ∨ q ∈ all_blocks s ++ [p]) (block_by_role s)).
    eapply Forall_impl; [exact O6|]. intros q [?|?]; [by left|right]. rewrite elem_of_app. by left.
Qed.

Lemma keeps_announce name info size : is_u32 size → keeps 0 [] (announce name info size) (λ _, True).
Proof.
  intros Hu. unfold announce.
  eapply reg_keeps_seq; [apply keeps_number; [by left|unfold is_u32 in Hu; lia]|intros t _].
  eapply reg_keeps_seq; [apply reg_keeps_say|intros _ _].
  eapply (reg_keeps_seq _ _ _ _ (λ _, True)); [|intros h _].
  { destruct (print_human_ok (size * BLOCK_SECTOR_SIZE)) as [h ->]. by apply (keeps_stays _ h). }
  do 2 (eapply reg_keeps_seq; [apply reg_keeps_say|intros _ _]).
  eapply reg_keeps_seq; [destruct info; [apply reg_keeps_say|by apply reg_keeps_ret]|intros _ _].
  apply reg_keeps_say.
Qed.

(** A window on the disk, at the address that [malloc] returns. *)
Lemma plugged_grown s p l b start : good s → mallocs s = p :: l → b_driver b = Window a start →
  is_u32 (b_size b) → 0 ≤ start → start + b_size b ≤ sz →
  grown [(b_type b, mk_geometry i start (b_size b) (foreign b))] s (plugged p b (s <| mallocs := l |>)).
Proof.
  intros [O [S1 S2] (ab & Ea & Ead & Eas)] E Eb Hu Hst Hle. rewrite E in S1, S2.
  apply NoDup_cons in S1 as [Np S1]. apply Forall_cons in S2 as [[Hp Fp] S2].
  set (s0 := s <| mallocs := l |>).
  assert (reg_ok s0) as O0 by (destruct O; by split).
  assert (bdev_ok s0 b) as Hb. { split; [done|]. rewrite Eb. exists ab, i. rewrite Eas. done. }
  assert (∀ q, q ≠ p → blocks (plugged p b s0) !! q = blocks s !! q) as L.
  { intros q Hq. change (<[p := b]> (blocks s) !! q = blocks s !! q). by rewrite lookup_insert_ne. }
  split; [| |done|done|].
  2: { intros a' tg [Hg Ht]. split; [by apply (insert_geometry s p b)|]. rewrite L; [done|]. intros ->.
       by rewrite Fp in Ht. }
  - split; [by apply plugged_ok| |].
    + split; [done|]. apply Forall_forall. intros q Hq.
      destruct (proj1 (Forall_forall _ _) S2 q Hq) as [? Nq]. split; [done|].
      rewrite L; [done|]. by intros ->.
    + exists ab. rewrite L by congruence. done.
  - exists [p]. split; [done|]. constructor; [|constructor]. unfold is_part, geometry_of.
    change (blocks (plugged p b s0) !! p) with (<[p := b]> (blocks s) !! p).
    rewrite lookup_insert_eq. split; [|done]. cbn [mbind option_bind]. rewrite Eb, L by congruence.
    rewrite Ea. cbn [mbind option_bind]. by rewrite Ead.
Qed.

Lemma keeps_register name type info size start : is_u32 size → 0 ≤ start → start + size ≤ sz →
  keeps 1 [(type, mk_geometry i start size (bool_decide (type = BLOCK_FOREIGN)))]
    (block_register name type info size (Window a start)) (λ _, True).
Proof.
  intros Hu Hst Hle s G C L. unfold block_register. apply twp_bind. unfold twp at 1, malloc.
  destruct (mallocs s) as [|p l] eqn:E; [simpl in L; lia|].
  assert (p ≠ NULL) as Hp.
  { destruct (g_supply s G) as [_ S2]. rewrite E in S2. by apply Forall_cons in S2 as [[? _] _]. }
  apply twp_bind, twp_check; [by apply negb_true_iff, Z.eqb_neq|].
  apply twp_bind, twp_modify, twp_bind, twp_modify.
  set (b := mk_bdev (take 15 name) type size (Window a start) 0 0).
  pose proof (plugged_grown s p l b start G E eq_refl Hu Hst Hle) as W.
  apply twp_bind. eapply twp_mono; [apply (keeps_announce _ _ _ Hu); [apply W|exact (eq_trans (w_contents _ _ _ W) C)|lia]|].
  intros x s2 (W2 & L2 & _). apply (twp_intro _ _ p s2); [done|].
  split; [exact (grown_trans _ _ _ _ _ W W2)|]. simpl in *. split; [lia|done].
Qed.

(** What Pintos uses a partition for. *)
Definition pintos_type (part_type : Z) : block_type :=
  match part_type with
  | 32 => BLOCK_KERNEL
  | 33 => BLOCK_FILESYS
  | 34 => BLOCK_SCRATCH
  | 35 => BLOCK_SWAP
  | _ => BLOCK_FOREIGN
  end.

(** The device of an entry of the table in sector 0: none when the entry is empty
    or does not fit the disk. *)
Definition entry_parts (e : partition_table_entry) : list (block_type * geometry) :=
  if bool_decide (e_size e ≠ 0 ∧ e_type e ≠ 0 ∧ e_offset e + e_size e ≤ sz) then
    [(pintos_type (e_type e),
      mk_geometry i (e_offset e) (e_size e) (bool_decide (pintos_type (e_type e) = BLOCK_FOREIGN)))]
  else [].

(** The devices of a table. *)
Definition table_parts (pt : list Z) : list (block_type * geometry) :=
  if pt_signature pt =? 43605 then concat (entry_parts <$> (pt_entry pt <$> seq 0 4)) else [].

Lemma pintos_type_eq ty :
  (if ty =? 32 then BLOCK_KERNEL else if ty =? 33 then BLOCK_FILESYS
   else if ty =? 34 then BLOCK_SCRATCH else if ty =? 35 then BLOCK_SWAP else BLOCK_FOREIGN)
  = pintos_type ty.
Proof.
  destruct (Z.eqb_spec ty 32) as [->|]; [done|]. destruct (Z.eqb_spec ty 33) as [->|]; [done|].
  destruct (Z.eqb_spec ty 34) as [->|]; [done|]. destruct (Z.eqb_spec ty 35) as [->|]; [done|].
  destruct ty as [|q|]; try done. do 6 (destruct q as [q|q|]; try done).
Qed.

(** Nothing happens in fewer steps than there are blocks for. *)
Lemma keeps_le {A} k k' tgs (m : M (registry D) A) Q : (k ≤ k')%nat → keeps k tgs m Q → keeps k' tgs m Q.
Proof.
  intros Hk Hm s G C L. eapply twp_mono; [apply Hm; [done|done|lia]|]. intros x s' (W & L' & Qx).
  split; [done|]. split; [lia|done].
Qed.

Lemma keeps_partition_name nr : - 2 ^ 31 ≤ nr < 2 ^ 31 → keeps 0 [] (partition_name a nr) (λ _, True).
Proof.
  intros Hn. unfold partition_name. eapply reg_keeps_seq; [apply keeps_name|intros nm _].
  eapply reg_keeps_seq; [by apply keeps_signed|intros t _]. by apply reg_keeps_ret.
Qed.

Lemma keeps_found e nr : 0 ≤ e_type e < 256 → is_u32 (e_offset e) → is_u32 (e_size e) →
  e_size e ≠ 0 → e_type e ≠ 0 → - 2 ^ 31 ≤ nr < 2 ^ 31 → is_u32 sz →
  keeps 2 (entry_parts e) (found_partition a (e_type e) (e_offset e) (e_size e) nr) (λ _, True).
Proof.
  intros Hty [Hs0 Hs1] Hu Hz0 Ht0 Hnr [Hz1 Hz]. unfold found_partition, entry_parts.
  eapply reg_keeps_seq; [apply keeps_size|intros n ->].
  eapply reg_keeps_seq; [by apply keeps_partition_name|intros name _].
  set (start := e_offset e) in *. set (size := e_size e) in *.
  pose proof (u32_range (start + size)) as Hr. unfold is_u32 in Hr. destruct Hu as [Hu0 Hu1].
  assert (u32 (start + size) = start + size ∧ start + size < 2 ^ 32 ∨
    2 ^ 32 ≤ start + size ∧ u32 (start + size) < start) as Hw.
  { unfold u32 in *. destruct (decide (start + size < 2 ^ 32)); [left; rewrite Z.mod_small; lia|right].
    rewrite <-(Z_mod_plus_full _ (-1)), Z.mod_small by lia. lia. }
  destruct (Z.leb_spec sz start) as [L|L].
  { rewrite bool_decide_eq_false_2 by lia. apply (keeps_le 0); [lia|].
    eapply reg_keeps_seq; [apply keeps_number; [by left|lia]|intros t _]. apply reg_keeps_say. }
  destruct ((u32 (start + size) <? start) || (sz <? u32 (start + size))) eqn:W.
  { rewrite orb_true_iff, !Z.ltb_lt in W.
    rewrite bool_decide_eq_false_2 by lia. apply (keeps_le 0); [lia|].
    eapply reg_keeps_seq; [apply keeps_number; [by left|lia]|intros t _].
    eapply reg_keeps_seq; [apply keeps_number; [by left|lia]|intros t' _]; apply reg_keeps_say. }
  rewrite orb_false_iff, !Z.ltb_ge in W. rewrite bool_decide_eq_true_2, pintos_type_eq by lia.
  apply (reg_keeps_bind 1 1 [] [_] _ _ (λ p, p ≠ NULL)); [apply keeps_malloc|intros p Hp].
  eapply reg_keeps_seq; [by apply keeps_check, negb_true_iff, Z.eqb_neq|intros _ _].
  eapply reg_keeps_seq; [apply keeps_number; [unfold is_base; tauto|lia]|intros hex _].
  apply (reg_keeps_bind 1 0 [_] [] _ _ (λ _, True));
    [apply keeps_register; [done|done|lia]|intros _ _]. by apply reg_keeps_ret.
Qed.

(** The contents of a sector of the disk. *)
Lemma keeps_read sector : 0 ≤ sector < sz →
  keeps 0 [] (block_read a sector) (λ c, sector_ok c ∧ σ !! i ≫= (λ d, d !! Z.to_nat sector) = Some c).
Proof.
  intros Hs s G Cs _. destruct (g_device s G) as (b & E & Ed & Es).
  assert (geometry_of s a = Some (mk_geometry i 0 sz (foreign b))) as Hg.
  { unfold geometry_of. rewrite E. cbn [mbind option_bind]. by rewrite Ed, Es. }
  destruct (block_read_window s a _ sector (g_ok s G) Hg Hs) as (c & s' & Hat & Hc & R & C & Dk).
  apply (twp_intro _ _ c s'); [done|].
  split; [|split; [by rewrite (c_mallocs _ _ C)|split; [done|by rewrite <-Cs]]]. split.
  - split.
    + apply (counted_ok s); [done|apply G| |].
      * rewrite Dk. apply (g_ok s G).
      * intros j d Ej. exists d. by rewrite Dk.
    + destruct (g_supply s G) as [S1 S2]. split; rewrite (c_mallocs _ _ C); [done|].
      eapply Forall_impl; [exact S2|]. intros q [? N]. split; [done|].
      destruct (blocks s' !! q) as [b'|] eqn:Eq; [|done].
      destruct (counted_lookup s' s q b' (counted_sym _ _ C) Eq) as (? & ? & _). congruence.
    + destruct (counted_lookup s s' a b C E) as (b' & E' & Eb). exists b'. split; [done|].
      pose proof (f_equal b_driver Eb) as E1. pose proof (f_equal b_size Eb) as E2. simpl in E1, E2.
      by rewrite E1, E2.
  - intros a' tg [Hg' Ht]. split; [by rewrite (counted_geometry s s')|].
    destruct (blocks s !! a') as [b'|] eqn:Eb; [|done].
    destruct (counted_lookup s s' a' b' C Eb) as (b2 & -> & E2). apply (f_equal b_type) in E2. simpl in *.
    by rewrite E2.
  - unfold contents. by rewrite Dk.
  - apply C.
  - exists []. by rewrite app_nil_r, (c_list _ _ C).
Qed.

(** The number of partitions is an [int]. *)
Definition an_int (n : Z) : Prop := - 2 ^ 31 ≤ n < 2 ^ 31.

Lemma keeps_entries f es nr : an_int nr →
  (∀ e nr, e ∈ es → an_int nr → keeps 2 (entry_parts e) (f e nr) an_int) →
  keeps (2 * length es) (concat (entry_parts <$> es)) (entries_loop f es nr) an_int.
Proof.
  revert nr. induction es as [|e es IH]; intros nr Hn Hf; cbn [entries_loop]; [by apply reg_keeps_ret|].
  replace (2 * length (e :: es))%nat with (2 + 2 * length es)%nat by (simpl; lia).
  apply (reg_keeps_bind 2 _ (entry_parts e) _ _ _ an_int); [apply Hf; [left|done]|intros nr' Hn'].
  apply IH; [done|]. intros e' nr'' He. apply Hf. by right.
Qed.

(** The fields of an entry have their widths. *)
Lemma pt_entry_fields pt e : sector_ok pt → e ∈ (pt_entry pt <$> seq 0 4) →
  0 ≤ e_type e < 256 ∧ is_u32 (e_offset e) ∧ is_u32 (e_size e).
Proof.
  intros Hpt (k & -> & _)%list_elem_of_fmap. destruct Hpt as [Hl F].
  assert (∀ o n, 0 ≤ Bytes.le (slice o n pt) < 256 ^ Z.of_nat n) as B.
  { intros o n. destruct (le_bound (slice o n pt)) as [L1 L2]; [by apply Forall_take, Forall_drop|].
    split; [done|]. eapply Z.lt_le_trans; [done|]. apply Z.pow_le_mono_r; [lia|].
    unfold slice. rewrite length_take. lia. }
  pose proof (B (446 + 16 * k + 4)%nat 1%nat). pose proof (B (446 + 16 * k + 8)%nat 4%nat).
  pose proof (B (446 + 16 * k + 12)%nat 4%nat). unfold is_u32. simpl in *. lia.
Qed.

(** None of the entries is an extended partition. *)
Definition no_extended (pt : list Z) : Prop :=
  ∀ j, (j < 4)%nat → e_size (pt_entry pt j) ≠ 0 → is_extended (e_type (pt_entry pt j)) = false.

Lemma keeps_table n pt nr : is_u32 sz → 0 < sz → an_int nr →
  σ !! i ≫= (λ d, d !! 0%nat) = Some pt → (pt_signature pt = 43605 → no_extended pt) →
  keeps 9 (table_parts pt) (read_partition_table (S n) a 0 0 nr) an_int.
Proof.
  intros Hz Hpos Hn Ept Hx. cbn [read_partition_table].
  eapply reg_keeps_seq; [apply keeps_size|intros size ->].
  eapply reg_keeps_seq; [apply keeps_name|intros name _].
  eapply reg_keeps_seq; [apply keeps_number; [by left|lia]|intros sec _].
  rewrite (proj2 (Z.leb_gt sz 0)) by done.
  apply (reg_keeps_bind 1 8 [] _ _ _ (λ p, p ≠ NULL)); [apply keeps_malloc|intros buf Hb].
  eapply reg_keeps_seq; [by apply keeps_check, negb_true_iff, Z.eqb_neq|intros _ _].
  eapply reg_keeps_seq; [apply keeps_read; lia|intros pt' [Hpt E]].
  change (Z.to_nat 0) with 0%nat in E. rewrite Ept in E. injection E as <-. unfold table_parts.
  destruct (Z.eqb_spec (pt_signature pt) 43605) as [Esig|]; cbn [negb].
  2: { apply (keeps_le 0); [lia|]. eapply reg_keeps_seq; [apply reg_keeps_say|intros _ _]. by apply reg_keeps_ret. }
  change 8%nat with (2 * length (pt_entry pt <$> seq 0 4))%nat.
  apply keeps_entries; [done|]. intros e nr' He Hn'.
  destruct (pt_entry_fields pt e Hpt He) as (Ht & Ho & Hsz).
  destruct (Z.eqb_spec (e_size e) 0) as [E0|E0]; [|destruct (Z.eqb_spec (e_type e) 0) as [E1|E1]]; cbn [orb].
  1,2: unfold entry_parts; rewrite bool_decide_eq_false_2 by tauto; apply (keeps_le 0); [lia|];
    by apply reg_keeps_ret.
  apply list_elem_of_fmap in He as (j & -> & Hj). rewrite (Hx Esig) by (done || (apply elem_of_seq in Hj; lia)).
  rewrite Z.add_0_r, (u32_small (e_offset _)) by done.
  rewrite <-(app_nil_r (entry_parts _)).
  apply (reg_keeps_bind 2 0 _ [] _ _ (λ _, True)); [apply keeps_found; try done; apply int32_range|intros _ _].
  apply reg_keeps_ret, int32_range.
Qed.

Lemma keeps_scan n pt : is_u32 sz → 0 < sz → σ !! i ≫= (λ d, d !! 0%nat) = Some pt → (pt_signature pt = 43605 → no_extended pt) →
  keeps 9 (table_parts pt) (partition_scan (S n) a) (λ _, True).
Proof.
  intros Hz Hpos Ept Hx. unfold partition_scan. rewrite <-(app_nil_r (table_parts pt)).
  apply (reg_keeps_bind 9 0 _ [] _ _ an_int); [apply keeps_table; done|intros nr _].
  eapply reg_keeps_seq; [apply keeps_name|intros name _]. unfold when.
  destruct (nr =? 0); [apply reg_keeps_say|by apply reg_keeps_ret].
Qed.
End Scan.

(** Registering a disk. *)
Lemma register_disk name type info size i d s : reg_ok s → supply_ok s → is_u32 size →
  disks s !! i = Some d → size ≤ Z.of_nat (length (dev_data d)) → type ≠ BLOCK_FOREIGN →
  wp (block_register name type info size (Raw i))
    (λ a s', good a i size s' ∧ contents s' = contents s ∧ all_blocks s' = all_blocks s ++ [a]) s.
Proof.
  intros O [S1 S2] Hu Ed Hl Ht. unfold block_register. apply wp_bind. unfold wp at 1, malloc.
  destruct (mallocs s) as [|p l] eqn:E; [done|].
  apply NoDup_cons in S1 as [Np S1]. apply Forall_cons in S2 as [[Hp Fp] S2].
  apply wp_bind, wp_check; [by apply negb_true_iff, Z.eqb_neq|].
  apply wp_bind, wp_modify, wp_bind, wp_modify.
  set (b := mk_bdev (take 15 name) type size (Raw i) 0 0).
  set (s1 := plugged p b (s <| mallocs := l |>)). change (_ <| blocks := _ |>) with s1.
  assert (good p i size s1) as G.
  { split.
    - apply plugged_ok; [destruct O; by split|done|done|]. split; [done|]. split; [done|]. by exists d.
    - split; [done|]. apply Forall_forall. intros q Hq.
      destruct (proj1 (Forall_forall _ _) S2 q Hq) as [? Nq]. split; [done|].
      change (<[p := b]> (blocks s) !! q = None). rewrite lookup_insert_ne; [done|]. by intros ->.
    - exists b. split; [|done]. apply lookup_insert_eq. }
  apply wp_bind. eapply wp_mono.
  { (* nothing is registered while the line is printed *)
    apply (wp_mono _ (λ _ s2, s2 <| tty := [] |> = s1 <| tty := [] |>)); [|intros x s2 Q; exact Q].
    unfold announce. unfold number.
    destruct (format_integer_ok size false false base_d (mk_conversion GROUP 0 (-1) LONGLONG)) as [t ->];
      [by left|unfold is_u32 in Hu; lia|].
    destruct (print_human_ok (size * BLOCK_SECTOR_SIZE)) as [h ->]. by destruct info. }
  intros x s2 Es. apply wp_ret.
  assert (∀ A (f : registry D → A), (∀ s t, f (s <| tty := t |>) = f s) → f s2 = f s1) as Hf.
  { intros A f Hf. by rewrite <-(Hf s2 []), <-(Hf s1 []), Es. }
  split; [|split; [by apply (Hf _ contents)|by apply (Hf _ all_blocks)]].
  destruct G as [[O1 O2 O3 O4 O5 O6] [G1 G2] G3].
  pose proof (Hf _ blocks (λ _ _, eq_refl)) as E1. pose proof (Hf _ all_blocks (λ _ _, eq_refl)) as E2.
  pose proof (Hf _ disks (λ _ _, eq_refl)) as E3. pose proof (Hf _ mallocs (λ _ _, eq_refl)) as E4.
  pose proof (Hf _ block_by_role (λ _ _, eq_refl)) as E5.
  split; [split|split|]; unfold bdev_ok; by rewrite ?E1, ?E2, ?E3, ?E4, ?E5.
Qed.
End Devices.

(** ** Correctness *)

(** C20: The block devices are windows on the disks.  The disk [i], registered at
    [a], is scanned for partitions; its first sector holds [pt], in which no entry
    is an extended partition (on such an entry the code can recurse for ever, see
    [partition_scan_diverges]), and [malloc] has at least nine blocks.  The scan
    returns and changes no sector.  It registers exactly one device for each entry
    that is not empty and fits the disk, in the order of the table, of the type,
    the start and the size that the entry gives, and none when the signature is
    wrong; the devices registered before stay.  Afterwards every sequence of reads
    and writes, through the disks and the partitions in any order, has the results
    and the effects on the sectors that it should have, with a panic exactly for a
    sector past the end of a device and for a write to a partition of another
    system; and a device keeps its sectors while only devices that do not overlap
    it are written. *)
Theorem block_devices_refine {D} `{BlockDev D} (s : registry D) a i sz n pt :
  good a i sz s → is_u32 sz → 0 < sz → (9 ≤ length (mallocs s))%nat →
  contents s !! i ≫= (λ d, d !! 0%nat) = Some pt → (pt_signature pt = 43605 → no_extended pt) →
  ∃ s1 new, partition_scan (S n) a s = Ret tt s1 ∧
    contents s1 = contents s ∧
    all_blocks s1 = all_blocks s ++ new ∧
    Forall2 (is_part s1) new (table_parts i sz pt) ∧
    (∀ a' tg, is_part s a' tg → is_part s1 a' tg) ∧
    ∀ os, Forall (valid_access s1) os →
      match spec_accesses (geometry_of s1) os (contents s1) with
      | Some (rs, σ) =>
          (∃ s2, do_accesses os s1 = Ret rs s2 ∧ contents s2 = σ) ∧
          ∀ g' sector', Forall (λ o, ∀ g, geometry_of s1 (access_block o) = Some g → apart g g') os →
            0 ≤ g_start g' → 0 ≤ sector' < g_size g' →
            sector_at σ g' sector' = sector_at (contents s1) g' sector'
      | None => do_accesses os s1 = Panic
      end.
Proof.
  intros G Hz Hpos Hm Ept Hx.
  destruct (twp_elim _ _ _ (keeps_scan a i sz (contents s) n pt Hz Hpos Ept Hx s G eq_refl Hm))
    as ([] & s1 & R & [G1 Hp Hc _ (new & El & F)] & _).
  exists s1, new. split_and!; [done..|].
  intros os V. pose proof (do_accesses_ok os s1 (g_ok _ _ _ _ G1) V) as Hd.
  destruct (spec_accesses (geometry_of s1) os (contents s1)) as [[rs σ]|]; [|done].
  destruct Hd as [(s2 & ? & _ & _ & ?) ?]. split; [by exists s2|done].
Qed.

(** A disk of 8 sectors with a file system in sectors 1 to 3 and a scratch
    partition in 4 and 5. *)
Definition sample_table : list Z :=
  replicate 446 0 ++ ([0; 0; 0; 0; 33; 0; 0; 0; 1; 0; 0; 0; 3; 0; 0; 0]
    ++ [0; 0; 0; 0; 34; 0; 0; 0; 4; 0; 0; 0; 2; 0; 0; 0]) ++ replicate 32 0 ++ [85; 170].
Definition sample_registry : registry disk :=
  mk_registry ∅ [] (replicate 4 NULL) [mk_disk (sample_table :: replicate 7 (replicate 512 7))]
    [4096; 4352; 4608; 4864; 5120; 5376; 5632; 5888; 6144; 6400; 6656] [].

Definition state_of {A} (r : outcome (registry disk) A) : registry disk :=
  match r with
  | Ret _ s => s
  | _ => sample_registry
  end.
Definition sample_registered : registry disk :=
  state_of (block_register (lit "hda") BLOCK_RAW None 8 (Raw 0) sample_registry).
Definition sample_scanned : registry disk := state_of (partition_scan 1 4096 sample_registered).

Lemma sample_registry_ok : reg_ok sample_registry.
Proof.
  assert (Forall sector_ok (sample_table :: replicate 7 (replicate 512 7))) as F.
  { apply (bool_decide_eq_true (Forall (λ c, length c = 512%nat ∧ Forall (λ b, 0 ≤ b < 256) c) _)).
    vm_compute. reflexivity. }
  split; [by constructor|by intros ? ? E|apply NoDup_nil_2| |done|apply Forall_replicate; by left].
  intros a. split; [by intros ?%elem_of_nil|by intros [? ?]].
Qed.

Lemma sample_good : good 4096 0 8 sample_registered.
Proof.
  pose proof sample_registry_ok as O.
  assert (supply_ok sample_registry) as S.
  { split; [apply (bool_decide_unpack _); by vm_compute|].
    repeat (constructor; [by split|]). constructor. }
  pose proof (register_disk (lit "hda") BLOCK_RAW None 8 0 _ sample_registry O S ltac:(unfold is_u32; lia)
    eq_refl ltac:(by vm_compute) ltac:(done)) as W.
  apply (wp_run _ _ 4096 sample_registered _ W). vm_compute. reflexivity.
Qed.

Lemma sample_simple : no_extended sample_table.
Proof. intros [|[|[|[|j]]]] Hj; [vm_compute; done..|lia]. Qed.

Lemma sample_scanned_good : good 4096 0 8 sample_scanned.
Proof.
  assert (partition_scan 1 4096 sample_registered = Ret tt sample_scanned) as P
    by (vm_compute; reflexivity).
  assert (contents sample_registered !! 0%nat ≫= (λ d, d !! 0%nat) = Some sample_table) as E
    by (vm_compute; reflexivity).
  assert (9 ≤ length (mallocs sample_registered))%nat as L by (apply (bool_decide_unpack _); vm_compute; exact I).
  destruct (twp_elim _ _ _ (keeps_scan 4096 0 8 _ 0 sample_table ltac:(unfold is_u32; lia) ltac:(lia) E
    (λ _, sample_simple) sample_registered sample_good eq_refl L))
    as (x & s1 & R & [G _ _ _ _] & _).
  rewrite P in R. by assert (s1 = sample_scanned) as <- by congruence.
Qed.

Lemma block_devices_refine_witness :
  partition_scan 1 4096 sample_registered = Ret tt sample_scanned ∧
  geometry_of sample_scanned 4864 = Some (mk_geometry 0 1 3 false) ∧
  geometry_of sample_scanned 5376 = Some (mk_geometry 0 4 2 false) ∧
  ∃ s2, do_accesses [Write 4864 2 (replicate 512 9); Read 4096 3; Read 5376 0] sample_scanned
    = Ret [[]; replicate 512 9; replicate 512 7] s2.
Proof.
  assert (partition_scan 1 4096 sample_registered = Ret tt sample_scanned) as P
    by (vm_compute; reflexivity).
  assert (geometry_of sample_scanned 4864 = Some (mk_geometry 0 1 3 false)) as E1
    by (vm_compute; reflexivity).
  assert (geometry_of sample_scanned 5376 = Some (mk_geometry 0 4 2 false)) as E2
    by (vm_compute; reflexivity).
  assert (geometry_of sample_scanned 4096 = Some (mk_geometry 0 0 8 false)) as E3
    by (vm_compute; reflexivity).
  split; [exact P|]. split; [exact E1|]. split; [exact E2|].
  destruct (block_devices_refine sample_registered 4096 0 8 0 sample_table sample_good)
    as (s1 & new & R & _ & _ & _ & _ & T').
  - unfold is_u32. lia.
  - lia.
  - apply (bool_decide_unpack _). vm_compute. exact I.
  - vm_compute. reflexivity.
  - intros _. apply sample_simple.
  - rewrite P in R. assert (s1 = sample_scanned) as -> by congruence.
    specialize (T' [Write 4864 2 (replicate 512 9); Read 4096 3; Read 5376 0]).
    assert (spec_accesses (geometry_of sample_scanned)
      [Write 4864 2 (replicate 512 9); Read 4096 3; Read 5376 0] (contents sample_scanned)
      = Some ([[]; replicate 512 9; replicate 512 7],
          [sample_table :: replicate 2 (replicate 512 7) ++ replicate 512 9 :: replicate 4 (replicate 512 7)])) as Es
      by (vm_compute; reflexivity).
    rewrite Es in T'. destruct T' as [(s2 & Ed & _) _]; [|exists s2; exact Ed].
    apply Forall_cons. unfold valid_access. rewrite E1. split; [|apply Forall_cons; rewrite E3; split].
    + split; [by eexists|]. split; [lia|]. split; [done|]. apply Forall_replicate. unfold is_byte. lia.
    + split; [by eexists|lia].
    + apply Forall_cons. rewrite E2. split; [split; [by eexists|lia]|by apply Forall_nil].
Defined.
