(* ===== verification/Init.v ===== *)
(** * The kernel command line ([threads/init.c], [devices/shutdown.c])

    What the kernel does with its command line: [read_command_line] finds the
    arguments that the loader left in memory, [parse_options] cuts the options
    with [strtok_r] and sets the static variables they stand for,
    [locate_block_devices] gives the devices their roles, [run_actions] runs the
    actions, and [shutdown] ends the session.  [main] calls them, with the
    initializations of the other parts as an argument.

    The state has the memory the strings are in, the variables, the ports, the
    devices of [Registry], and the rest of the system as [world], which the
    actions change.  A function returns, or stops the kernel: by a panic with its
    message, by a wild access, by switching the machine off, or by waiting for
    the clock for ever.  [FILESYS] and [USERPROG] are defined, [VM] is not.

    The theorem is that the session is what the arguments say: it is described by
    functions on the lists of characters that the loader was given. *)

From Stdlib Require Import String.
From S2P Require Import Prelude Machine FixedPoint Bytes Block CString StdlibC Random Stdio Io.
From S2P Require Import Clock Registry.

Open Scope Z_scope.

(** ** Constants of [threads/loader.h] *)

Definition LOADER_BASE : Z := 31744.
Definition LOADER_END : Z := 32256.
Definition LOADER_SIG_LEN : Z := 2.
Definition LOADER_PARTS_LEN : Z := 64.
Definition LOADER_ARGS_LEN : Z := 128.
Definition LOADER_ARG_CNT_LEN : Z := 4.
Definition LOADER_SIG : Z := LOADER_END - LOADER_SIG_LEN.
Definition LOADER_PARTS : Z := LOADER_SIG - LOADER_PARTS_LEN.
Definition LOADER_ARGS : Z := LOADER_PARTS - LOADER_ARGS_LEN.
Definition LOADER_ARG_CNT : Z := LOADER_ARGS - LOADER_ARG_CNT_LEN.

(** ** State *)

Inductive shutdown_type := SHUTDOWN_NONE | SHUTDOWN_POWER_OFF | SHUTDOWN_REBOOT.

(** How the kernel stops. *)
Inductive ending :=
  | Panicked (message : list Z)
  | Faulted
  | Powered_off
  | Rebooted
  | Hung.

(** The static variables that the options set; names are pointers. *)
Record options := mk_options {
  how : shutdown_type;
  format_filesys : bool;
  filesys_bdev_name : Z;
  scratch_bdev_name : Z;
  thread_mlfqs : bool;
  user_page_limit : Z;
  generator : rng;
}.
#[export] Instance options_ctor : Ctor options := λ o,
  mk_options (how o) (format_filesys o) (filesys_bdev_name o) (scratch_bdev_name o)
    (thread_mlfqs o) (user_page_limit o) (generator o).

Definition initial_options : options :=
  mk_options SHUTDOWN_NONE false NULL NULL false SIZE_MAX rng_start.

(** The counts that the statistics print. *)
Record counters := mk_counters {
  ticks : Z;
  idle_ticks : Z;
  kernel_ticks : Z;
  user_ticks : Z;
  chars_written : Z;
  key_cnt : Z;
  page_fault_cnt : Z;
}.

(** [argv] is the static array of [read_command_line]. *)
Record kern (D X : Type) := mk_kern {
  mem : memory;
  argv : list Z;
  opts : options;
  ports : io;
  devs : registry D;
  world : X;
  tty : list Z;
}.
Arguments mk_kern {D X} _ _ _ _ _ _ _.
Arguments mem {D X} _.
Arguments argv {D X} _.
Arguments opts {D X} _.
Arguments ports {D X} _.
Arguments devs {D X} _.
Arguments world {D X} _.
Arguments tty {D X} _.
#[export] Instance kern_ctor D X : Ctor (kern D X) := λ k,
  mk_kern (mem k) (argv k) (opts k) (ports k) (devs k) (world k) (tty k).

(** A function of the kernel. *)
Inductive result (S A : Type) := Done (a : A) (s : S) | Stop (e : ending) (s : S).
Arguments Done {S A} a s.
Arguments Stop {S A} e s.

Definition K (S A : Type) : Type := S → result S A.

#[export] Instance K_ret S : MRet (K S) := λ A a s, Done a s.
#[export] Instance K_bind S : MBind (K S) := λ A B k m s,
  match m s with
  | Done a s => k a s
  | Stop e s => Stop e s
  end.

(** ** Operations *)

Section Kernel.
Context {D X : Type} `{BlockOps D}.
(** The address of a string constant. *)
Context (literal : string → Z).
(** The rest of the system: its counts, the end of the file system, the wait for
    the serial port, the actions [run], [ls], [cat], [rm], [extract] and [append]
    with the strings they are given, and the initializations, of which [ide_init]
    registers the devices. *)
Context (stats : X → counters) (filesys_done serial_flush : X → option X).
Context (perform : string → list (list Z) → X → option X).
Context (boot : Z → X → registry D → option (X * registry D)) (filesys_init : bool → X → option X).

Local Abbreviation KK := (K (kern D X)).

Definition getk {A} (f : kern D X → A) : KK A := λ k, Done (f k) k.
Definition modk (f : kern D X → kern D X) : KK unit := λ k, Done tt (f k).
Definition stop {A} (e : ending) : KK A := λ k, Stop e k.
(** [None] is a wild access or an assertion that fails. *)
Definition need {A} (o : option A) : KK A :=
  match o with
  | Some a => mret a
  | None => stop Faulted
  end.
Definition on_mem {A} (f : memory → option A) : KK A := m ← getk mem; need (f m).
Definition on_world (f : X → option X) : KK unit :=
  x ← getk world; x ← need (f x); modk (λ k, k <| world := x |>).
Definition on_ports {A} (m : M io A) : KK A := λ k,
  match m (ports k) with
  | Ret a p => Done a (k <| ports := p |>)
  | Panic => Stop Faulted k
  | Waits => Stop Hung k
  end.
Definition on_devs {A} (m : M (registry D) A) : KK A := λ k,
  match m (devs k) with
  | Ret a r => Done a (k <| devs := r |>)
  | Panic => Stop Faulted k
  | Waits => Stop Hung k
  end.
Definition set_opts (f : options → options) : KK unit := modk (λ k, k <| opts := f (opts k) |>).
Definition print (t : list Z) : KK unit := modk (λ k, k <| tty := tty k ++ t |>).

(** The string at an address. *)
Definition string_at (p : Z) (m : memory) : option (list Z) :=
  n ← strlen m p; read_chars (Z.to_nat n) m p.

(** ** The end ([devices/shutdown.c]) *)

Definition CONTROL_REG : Z := 100.

Definition shutdown_configure (type : shutdown_type) : KK unit := set_opts (λ o, o <| how := type |>).

(** The number of a statistic. *)
Definition count (v : Z) : KK (list Z) :=
  need (format_integer (Z.abs v) true (v <? 0) base_d (mk_conversion 0 0 (-1) LONGLONG)).

Definition timer_print_stats (c : counters) : KK unit :=
  t ← count (ticks c); print (lit "Timer: " ++ t ++ lit " ticks" ++ lit newline).
Definition thread_print_stats (c : counters) : KK unit :=
  i ← count (idle_ticks c);
  k ← count (kernel_ticks c);
  u ← count (user_ticks c);
  print (lit "Thread: " ++ i ++ lit " idle ticks, " ++ k ++ lit " kernel ticks, "
           ++ u ++ lit " user ticks" ++ lit newline).
Definition console_print_stats (c : counters) : KK unit :=
  n ← count (chars_written c);
  print (lit "Console: " ++ n ++ lit " characters output" ++ lit newline).
Definition kbd_print_stats (c : counters) : KK unit :=
  n ← count (key_cnt c); print (lit "Keyboard: " ++ n ++ lit " keys pressed" ++ lit newline).
Definition exception_print_stats (c : counters) : KK unit :=
  n ← count (page_fault_cnt c); print (lit "Exception: " ++ n ++ lit " page faults" ++ lit newline).

Definition print_stats : KK unit :=
  c ← getk (λ k, stats (world k));
  timer_print_stats c;;
  thread_print_stats c;;
  on_devs block_print_stats;;
  console_print_stats c;;
  kbd_print_stats c;;
  exception_print_stats c.

(** [for (p = s; *p != 0; p++) outb (0x8900, *p)]. *)
Fixpoint outb_string (port : Z) (s : list Z) : M io unit :=
  match s with
  | [] => mret tt
  | c :: s => outb port c;; outb_string port s
  end.

Definition power_off_ports : M io unit :=
  outw 45060 8192;;
  outb_string 35072 (lit "Shutdown");;
  outb 1281 49.

Definition shutdown_power_off : KK unit :=
  on_world filesys_done;;
  print_stats;;
  print (lit "Powering off..." ++ lit newline);;
  on_world serial_flush;;
  on_ports power_off_ports;;
  stop Powered_off.

(** The input buffer of the keyboard controller is waited for, [n] times at
    most. *)
Fixpoint control_loop (n : nat) : M io unit :=
  match n with
  | O => mret tt
  | S n =>
      status ← inb CONTROL_REG;
      if Z.land status 2 =? 0 then mret tt else control_loop n
  end.

(** The first pulse resets the processor; the pauses have no effect on the
    state. *)
Definition shutdown_reboot : KK unit :=
  print (lit "Rebooting..." ++ lit newline);;
  on_ports (control_loop (Z.to_nat 65536);; outb CONTROL_REG 254);;
  stop Rebooted.

Definition shutdown : KK unit :=
  h ← getk (λ k, how (opts k));
  match h with
  | SHUTDOWN_POWER_OFF => shutdown_power_off
  | SHUTDOWN_REBOOT => shutdown_reboot
  | SHUTDOWN_NONE => mret tt
  end.

(** ** The arguments *)

(** [argv[i] = p], in an array of [LOADER_ARGS_LEN / 2 + 1] pointers. *)
Definition set_argv (i p : Z) : KK unit :=
  if (0 <=? i) && (i <? LOADER_ARGS_LEN / 2 + 1)
  then modk (λ k, k <| argv := <[Z.to_nat i := p]> (argv k) |>)
  else stop Faulted.

Definition argv_at (i : Z) : KK Z := v ← getk argv; need (v !! Z.to_nat i).

Definition load_word (a : Z) (m : memory) : option Z :=
  bs ← read_chars 4 m a; Some (Bytes.le bs).

(** [n] arguments from the [i]th on; the first one is at [p]. *)
Fixpoint args_loop (n : nat) (i p e : Z) : KK unit :=
  match n with
  | O => mret tt
  | S n =>
      if e <=? p then stop (Panicked (lit "command line arguments overflow"))
      else
        set_argv i p;;
        len ← on_mem (λ m, strnlen m p (e - p));
        args_loop n (i + 1) (p + (len + 1)) e
  end.

Fixpoint print_args (n : nat) (i : Z) : KK unit :=
  match n with
  | O => mret tt
  | S n =>
      p ← argv_at i;
      q ← on_mem (λ m, strchr m p 32);
      s ← on_mem (string_at p);
      print (if q =? NULL then lit " " ++ s else lit " '" ++ s ++ lit "'");;
      print_args n (i + 1)
  end.

(** The result is the position in [argv] of its first element. *)
Definition read_command_line : KK Z :=
  cnt ← need (ptov LOADER_ARG_CNT);
  argc ← on_mem (load_word cnt);
  let argc := int32 argc in
  p ← need (ptov LOADER_ARGS);
  args_loop (Z.to_nat argc) 0 p (p + LOADER_ARGS_LEN);;
  set_argv argc NULL;;
  print (lit "Kernel command line:");;
  print_args (Z.to_nat argc) 0;;
  print (lit newline);;
  mret 0.

(** ** Options *)

Definition usage_text : list Z :=
  concat ((λ l, lit l ++ lit newline) <$>
    [""; "Command line syntax: [OPTION...] [ACTION...]";
     "Options must precede actions.";
     "Actions are executed in the order specified.";
     ""; "Available actions:";
     "  run 'PROG [ARG...]' Run PROG and wait for it to complete.";
     "  ls                 List files in the root directory.";
     "  cat FILE           Print FILE to the console.";
     "  rm FILE            Delete FILE.";
     "Use these actions indirectly via `pintos' -g and -p options:";
     "  extract            Untar from scratch device into file system.";
     "  append FILE        Append FILE to tar file on scratch device.";
     ""; "Options:";
     "  -h                 Print this help message and power off.";
     "  -q                 Power off VM after actions or on panic.";
     "  -r                 Reboot after actions.";
     "  -f                 Format file system device during startup.";
     "  -filesys=BDEV      Use BDEV for file system instead of default.";
     "  -scratch=BDEV      Use BDEV for scratch instead of default.";
     "  -rs=SEED           Set random number seed to SEED.";
     "  -mlfqs             Use multi-level feedback queue scheduler.";
     "  -ul=COUNT          Limit user memory to COUNT pages."]%string).

Definition usage : KK unit := print usage_text;; shutdown_power_off.

(** [!strcmp (p, s)]. *)
Definition is_string (p : Z) (s : string) : KK bool :=
  r ← on_mem (λ m, strcmp m p (literal s)); mret (r =? 0).

Definition random_seed (seed : Z) : KK unit :=
  r ← getk (λ k, generator (opts k));
  r ← need (random_init r seed);
  set_opts (λ o, o <| generator := r |>).

(** The [if] chain: what is done for the option [name]. *)
Definition set_option (name value : Z) : KK unit :=
  b ← is_string name "-h"; if (b : bool) then usage else
  b ← is_string name "-q"; if (b : bool) then shutdown_configure SHUTDOWN_POWER_OFF else
  b ← is_string name "-r"; if (b : bool) then shutdown_configure SHUTDOWN_REBOOT else
  b ← is_string name "-f"; if (b : bool) then set_opts (λ o, o <| format_filesys := true |>) else
  b ← is_string name "-filesys"; if (b : bool) then set_opts (λ o, o <| filesys_bdev_name := value |>) else
  b ← is_string name "-scratch"; if (b : bool) then set_opts (λ o, o <| scratch_bdev_name := value |>) else
  b ← is_string name "-rs";
  if (b : bool) then seed ← on_mem (λ m, atoi m value); random_seed (u32 seed) else
  b ← is_string name "-mlfqs"; if (b : bool) then set_opts (λ o, o <| thread_mlfqs := true |>) else
  b ← is_string name "-ul";
  if (b : bool) then n ← on_mem (λ m, atoi m value); set_opts (λ o, o <| user_page_limit := u32 n |>)
  else
    s ← on_mem (string_at name);
    stop (Panicked (lit "unknown option `" ++ s ++ lit "' (use -h for help)")).

(** [strtok_r], which changes the memory. *)
Definition strtok (s : Z) (delimiters : string) (save : Z) : KK (Z * Z) :=
  '(m, token, save) ← on_mem (λ m, strtok_r m s (literal delimiters) save);
  modk (λ k, k <| mem := m |>);;
  mret (token, save).

Fixpoint options_loop (n : nat) (i : Z) : KK Z :=
  match n with
  | O => stop Faulted
  | S n =>
      p ← argv_at i;
      if p =? NULL then mret i
      else
        c ← on_mem (λ m, m !! p);
        if negb (c =? 45) then mret i
        else
          '(name, save) ← strtok p "=" NULL;
          '(value, _) ← strtok NULL "" save;
          set_option name value;;
          options_loop n (i + 1)
  end.

(** The array has 65 elements and ends in a null pointer. *)
Definition parse_options (i : Z) : KK Z :=
  i ← options_loop 66 i;
  seed ← on_ports rtc_get_time;
  random_seed (u32 seed);;
  mret i.

(** ** Devices *)

(** The first device of the type [role] from [block] on; [n] devices at most. *)
Fixpoint locate_loop (n : nat) (block : Z) (role : block_type) : KK Z :=
  match n with
  | O => stop Faulted
  | S n =>
      if block =? NULL then mret NULL
      else
        t ← on_devs (block_type_of block);
        if bool_decide (t = role) then mret block
        else next ← on_devs (block_next block); locate_loop n next role
  end.

(** The end of [locate_block_device]. *)
Definition use_device (role : block_type) (block : Z) : KK unit :=
  if block =? NULL then mret tt
  else
    s ← on_devs (block_name block);
    print (lit (block_type_name role) ++ lit ": using " ++ s ++ lit newline);;
    on_devs (block_set_role role block).

Definition locate_block_device (role : block_type) (name : Z) : KK unit :=
  block ←
    (if negb (name =? NULL) then
       s ← on_mem (string_at name);
       block ← on_devs (block_get_by_name s);
       if block =? NULL
       then stop (Panicked (lit "No such block device " ++ [34] ++ s ++ [34]))
       else mret block
     else
       n ← getk (λ k, length (all_blocks (devs k)));
       block ← on_devs block_first;
       locate_loop (S n) block role);
  use_device role block.

Definition locate_block_devices : KK unit :=
  name ← getk (λ k, filesys_bdev_name (opts k));
  locate_block_device BLOCK_FILESYS name;;
  name ← getk (λ k, scratch_bdev_name (opts k));
  locate_block_device BLOCK_SCRATCH name.

(** ** Actions *)

(** The table of actions: the name, and the number of arguments with the name. *)
Definition actions : list (string * nat) :=
  [("run", 2); ("ls", 1); ("cat", 2); ("rm", 2); ("extract", 1); ("append", 2)]%string%nat.

Fixpoint find_action (table : list (string * nat)) (p : Z) : KK (string * nat) :=
  match table with
  | [] =>
      s ← on_mem (string_at p);
      stop (Panicked (lit "unknown action `" ++ s ++ lit "' (use -h for help)"))
  | (name, argc) :: table =>
      b ← is_string p name;
      if (b : bool) then mret (name, argc) else find_action table p
  end.

(** [n] arguments from the [i]th on, as strings; [name] is the action. *)
Fixpoint action_args (n : nat) (i name : Z) (argc : nat) : KK (list (list Z)) :=
  match n with
  | O => mret []
  | S n =>
      p ← argv_at i;
      if p =? NULL then
        s ← on_mem (string_at name);
        stop (Panicked (lit "action `" ++ s ++ lit "' requires " ++ [47 + Z.of_nat argc] ++ lit " argument(s)"))
      else
        s ← on_mem (string_at p);
        rest ← action_args n (i + 1) name argc;
        mret (s :: rest)
  end.

Definition run_task (task : list Z) : KK unit :=
  print (lit "Executing '" ++ task ++ lit "':" ++ lit newline);;
  on_world (perform "run" [task]);;
  print (lit "Execution of '" ++ task ++ lit "' complete." ++ lit newline).

(** [a->function (argv)]. *)
Definition invoke (name : string) (args : list (list Z)) : KK unit :=
  if String.eqb name "run" then
    match args with
    | task :: _ => run_task task
    | [] => stop Faulted
    end
  else on_world (perform name args).

Fixpoint actions_loop (n : nat) (i : Z) : KK unit :=
  match n with
  | O => stop Faulted
  | S n =>
      p ← argv_at i;
      if p =? NULL then mret tt
      else
        '(name, argc) ← find_action actions p;
        args ← action_args (argc - 1) (i + 1) p argc;
        invoke name args;;
        actions_loop n (i + Z.of_nat argc)
  end.

Definition run_actions (i : Z) : KK unit := actions_loop 66 i.

(** The initialization of the other parts, from [thread_init] to [ide_init]. *)
Definition initialize : KK unit := λ k,
  match boot (user_page_limit (opts k)) (world k) (devs k) with
  | Some (x, r) => Done tt (k <| world := x |> <| devs := r |>)
  | None => Stop Faulted k
  end.

(** Up to [thread_exit]. *)
Definition main : KK unit :=
  i ← read_command_line;
  i ← parse_options i;
  initialize;;
  locate_block_devices;;
  format ← getk (λ k, format_filesys (opts k));
  on_world (filesys_init format);;
  print (lit "Boot complete." ++ lit newline);;
  run_actions i;;
  shutdown.
End Kernel.

(** ** Strings *)

(** [atoi] of a list of characters. *)
Fixpoint drop_while (f : Z → bool) (s : list Z) : list Z :=
  match s with
  | [] => []
  | c :: s' => if f c then drop_while f s' else s
  end.
Fixpoint take_while (f : Z → bool) (s : list Z) : list Z :=
  match s with
  | [] => []
  | c :: s => if f c then c :: take_while f s else []
  end.
Definition sign_of (s : list Z) : bool * list Z :=
  match s with
  | c :: s' => if c =? 43 then (false, s') else if c =? 45 then (true, s') else (false, s)
  | [] => (false, [])
  end.
Definition number_of (s : list Z) : Z :=
  let '(negative, s) := sign_of (drop_while isspace s) in
  let v := digits_value (take_while isdigit s) in
  int32 (if (negative : bool) then v else - v).

Lemma while_split f s : ∃ w, s = w ++ drop_while f s ∧ Forall (λ c, f c = true) w.
Proof.
  induction s as [|c s (w & E & F)]; simpl; [by exists []|]. destruct (f c) eqn:Ec.
  - exists (c :: w). split; [by rewrite E at 1|by constructor].
  - by exists [].
Qed.

Lemma drop_while_head f s c : f 0 = false → head (drop_while f s ++ [0]) = Some c → f c = false.
Proof.
  intros H0. induction s as [|x s IH]; simpl; [by intros [= <-]|].
  destruct (f x) eqn:E; [done|]. by intros [= <-].
Qed.

Lemma take_while_split f s : ∃ r, s = take_while f s ++ r ∧ Forall (λ c, f c = true) (take_while f s) ∧
  ∀ c, f 0 = false → head (r ++ [0]) = Some c → f c = false.
Proof.
  induction s as [|x s (r & E & F & Hr)]; simpl.
  - exists []. split; [done|]. split; [done|]. by intros c ? [= <-].
  - destruct (f x) eqn:Ex.
    + exists r. split; [by rewrite E at 1|]. by split; [constructor|].
    + exists (x :: s). split; [done|]. split; [done|]. by intros c ? [= <-].
Qed.

Lemma atoi_number m p s : 0 < p → cstring m p s → atoi m p = Some (number_of s).
Proof.
  intros Hp C. unfold atoi. rewrite nonnull by done. cbn [ASSERT mbind option_bind].
  pose proof (cstring_fuel _ _ _ C) as Hf. unfold number_of.
  destruct (while_split isspace s) as (sp & Es & Fs). set (t := drop_while isspace s) in *.
  rewrite Es in C, Hf. rewrite length_app in Hf.
  rewrite (skip_space_ok _ m p sp t C Fs) by (lia || intros c; by apply drop_while_head).
  cbn [mbind option_bind]. apply cstring_drop in C. set (q := p + Z.of_nat (length sp)) in *.
  assert (∀ v, int32 (- int32 v) = int32 (- v)) as Hneg
    by (intros v; unfold int32; Z.to_euclidean_division_equations; lia).
  assert (∀ q' u, cstring m q' u → (length u ≤ length t)%nat →
    parse_digits (fuel m) m q' 0 = Some (int32 (digits_value (take_while isdigit u)))) as Kd.
  { intros q' u C' Hu. destruct (take_while_split isdigit u) as (r & Eu & Fu & Hr).
    pose proof (f_equal length Eu) as El. rewrite length_app in El. rewrite Eu in C'.
    change 0 with (int32 0) at 1. apply (parse_digits_ok _ m q' _ r 0 C' Fu); [|lia].
    intros c. by apply Hr. }
  destruct t as [|c t]; cbn [sign_of].
  - apply cstring_nil in C as E. rewrite E. cbn [mbind option_bind]. simpl (0 =? 43). simpl (0 =? 45).
    cbn iota. rewrite (Kd q []) by done. cbn [mbind option_bind]. done.
  - pose proof C as C1. apply cstring_cons in C1 as (-> & _ & C1). cbn [mbind option_bind].
    destruct (c =? 43) eqn:E1; [|destruct (c =? 45) eqn:E2].
    + rewrite (Kd (q + 1) t) by (done || simpl; lia). cbn [mbind option_bind negb]. by rewrite Hneg.
    + rewrite (Kd (q + 1) t) by (done || simpl; lia). done.
    + rewrite (Kd q (c :: t)) by done. cbn [mbind option_bind negb]. by rewrite Hneg.
Qed.

Lemma strcmp_loop_ok n m a b s t : cstring m a s → cstring m b t → (length s < n)%nat →
  ∃ r, strcmp_loop n m a b = Some r ∧ (r =? 0) = bool_decide (s = t).
Proof.
  revert a b s t. induction n as [|n IH]; intros a b s t Ca Cb Hn; [lia|]. cbn [strcmp_loop].
  destruct s as [|x s], t as [|y t].
  - apply cstring_nil in Ca as ->, Cb as ->. simpl. by exists 0.
  - apply cstring_nil in Ca as ->. apply cstring_cons in Cb as (-> & Hy & _). cbn [mbind option_bind].
    simpl (negb _). cbn [andb]. rewrite (proj2 (Z.ltb_lt 0 y)) by lia. by exists (-1).
  - apply cstring_nil in Cb as ->. apply cstring_cons in Ca as (-> & Hx & _). cbn [mbind option_bind].
    rewrite (proj2 (Z.eqb_neq x 0)), (proj2 (Z.ltb_ge x 0)), (proj2 (Z.ltb_lt 0 x)) by lia.
    by exists 1.
  - apply cstring_cons in Ca as (-> & Hx & Ca). apply cstring_cons in Cb as (-> & Hy & Cb).
    cbn [mbind option_bind]. rewrite (proj2 (Z.eqb_neq x 0)) by lia. cbn [negb andb].
    destruct (Z.eqb_spec x y) as [->|Hne].
    + destruct (IH (a + 1) (b + 1) s t Ca Cb) as (r & -> & Er); [simpl in Hn; lia|].
      exists r. split; [done|]. rewrite Er. apply bool_decide_ext. naive_solver.
    + rewrite bool_decide_false by naive_solver. destruct (Z.ltb_spec x y); [by exists (-1)|].
      rewrite (proj2 (Z.ltb_lt y x)) by lia. by exists 1.
Qed.

Lemma strcmp_ok m a b s t : cstring m a s → cstring m b t → 0 < a → 0 < b →
  ∃ r, strcmp m a b = Some r ∧ (r =? 0) = bool_decide (s = t).
Proof.
  intros Ca Cb Ha Hb. unfold strcmp. rewrite !nonnull by done. cbn [ASSERT mbind option_bind].
  apply strcmp_loop_ok; [done|done|by apply cstring_fuel with a].
Qed.

Lemma string_at_ok m p s : cstring m p s → 0 < p → string_at p m = Some s.
Proof.
  intros C Hp. unfold string_at. rewrite (strlen_ok m p s) by done. cbn [mbind option_bind].
  rewrite Nat2Z.id, (read_chars_ok m p _ s) by done. by rewrite take_ge.
Qed.

(** The parts of an option: the name, and what follows the first [=] if there is
    anything. *)
Fixpoint cut (s : list Z) : list Z * option (list Z) :=
  match s with
  | [] => ([], None)
  | c :: s => if c =? 61 then ([], Some s) else let '(w, r) := cut s in (c :: w, r)
  end.
Definition split_option (s : list Z) : list Z * option (list Z) :=
  let '(name, r) := cut s in
  (name, match r with Some (c :: v) => Some (c :: v) | _ => None end).

Lemma cut_spec s w r : cut s = (w, r) →
  (61 ∉ w) ∧ match r with Some v => s = w ++ 61 :: v | None => s = w end.
Proof.
  revert w r. induction s as [|c s IH]; intros w r E; simpl in E.
  - injection E as <- <-. split; [by apply not_elem_of_nil|done].
  - destruct (Z.eqb_spec c 61) as [->|Hc].
    + injection E as <- <-. split; [by apply not_elem_of_nil|done].
    + destruct (cut s) as [w' r'] eqn:Ec. injection E as <- <-. destruct (IH _ _ eq_refl) as [N Es].
      split; [by apply not_elem_of_cons|]. destruct r'; simpl; congruence.
Qed.

(** [strtok_r] on a string that does not start with a delimiter. *)
Lemma strtok_first m p d ds w r s0 save : 0 < p → 0 < d → cstring m d ds → w ≠ [] → Forall (.∉ ds) w →
  (if s0 =? NULL then save else s0) = p →
  match r with
  | Some (c, v) => cstring m p (w ++ c :: v) → c ∈ ds →
      strtok_r m s0 d save = Some (<[p + Z.of_nat (length w) := 0]> m, p, p + Z.of_nat (length w) + 1)
  | None => cstring m p w → strtok_r m s0 d save = Some (m, p, p + Z.of_nat (length w))
  end.
Proof.
  intros Hp Hd Cd Hw Fw Ep.
  assert (∀ s, cstring m p (w ++ s) → (s = [] ∨ ∃ c v, s = c :: v ∧ c ∈ ds) →
    skip_delimiters (fuel m) m p d = Some (p, true) ∧
    skip_token (fuel m) m p d = Some (p + Z.of_nat (length w))) as Ks.
  { intros s C Hs. pose proof (cstring_fuel _ _ _ C) as Hf. split.
    - destruct (skip_delimiters_ok m d ds Cd Hd (fuel m) p (w ++ s) C Hf) as (pre & t & Et & Fp & _ & ->).
      destruct pre as [|c pre].
      + simpl in Et. subst t. rewrite bool_decide_true by (by destruct w). do 2 f_equal. simpl. lia.
      + exfalso. destruct w as [|c' w]; [done|]. injection Et as <- _.
        apply Forall_cons in Fw as [? _]. by apply Forall_cons in Fp as [? _].
    - destruct (skip_token_ok m d ds Cd Hd (fuel m) p (w ++ s) C Hf) as (w' & r' & Et & Fw' & Hr' & ->).
      assert (length w' = length w) as ->; [|done].
      destruct (Nat.lt_trichotomy (length w') (length w)) as [L|[L|L]]; [|done|]; exfalso.
      + destruct Hr' as [->|(c & v & -> & Hc)].
        { pose proof (f_equal length Et) as El. rewrite !length_app in El. simpl in El. lia. }
        pose proof (f_equal (lookup (length w')) Et) as El.
        rewrite lookup_app_l, (lookup_app_r w' _ (length w')), Nat.sub_diag in El by lia. simpl in El.
        apply (Forall_lookup_1 _ _ _ _ Fw) in El. done.
      + destruct Hs as [->|(c & v & -> & Hc)].
        { pose proof (f_equal length Et) as El. rewrite !length_app in El. simpl in El. lia. }
        pose proof (f_equal (lookup (length w)) Et) as El.
        rewrite (lookup_app_r w _ (length w)), Nat.sub_diag, lookup_app_l in El by lia. simpl in El.
        symmetry in El. apply (Forall_lookup_1 _ _ _ _ Fw') in El. done. }
  unfold strtok_r. rewrite Ep, !nonnull by done. cbn [ASSERT mbind option_bind].
  destruct r as [[c v]|].
  - intros C Hc. destruct (Ks (c :: v) C) as [E1 E2]; [by right; exists c, v|].
    rewrite E1. cbn [mbind option_bind]. rewrite E2. cbn [mbind option_bind].
    apply cstring_drop in C. apply cstring_cons in C as (E & Hc0 & _). rewrite E. cbn [mbind option_bind].
    rewrite (proj2 (Z.eqb_neq c 0)) by lia. cbn [negb]. rewrite store_Some by (by eexists). done.
  - intros C. rewrite <-(app_nil_r w) in C. destruct (Ks [] C) as [E1 E2]; [by left|].
    rewrite E1. cbn [mbind option_bind]. rewrite E2. cbn [mbind option_bind]. apply cstring_drop, cstring_nil in C as ->. done.
Qed.

(** Without delimiters the rest of the string is the token. *)
Lemma strtok_rest m p d v save : 0 < p → 0 < d → cstring m d [] → cstring m p v → save = p →
  ∃ save', strtok_r m NULL d save = Some (m, if bool_decide (v = []) then NULL else p, save').
Proof.
  intros Hp Hd Cd C ->. destruct (decide (v = [])) as [->|Hv].
  - rewrite bool_decide_true by done. unfold strtok_r. rewrite nonnull by done.
    change (NULL =? NULL) with true. cbv iota. rewrite nonnull by done. cbn [ASSERT mbind option_bind].
    destruct (skip_delimiters_ok m d [] Cd Hd (fuel m) p [] C (cstring_fuel _ _ _ C))
      as (pre & t & Et & _ & _ & ->). symmetry in Et. apply app_eq_nil in Et as [-> ->].
    cbn [mbind option_bind]. rewrite bool_decide_false by tauto. by eexists.
  - rewrite bool_decide_false by done. exists (p + Z.of_nat (length v)).
    apply (strtok_first m p d [] v None); [done|done|done|done| |done|done].
    apply Forall_forall. intros x _. by apply not_elem_of_nil.
Qed.

(** ** What the options and actions mean *)

(** The variables, with names as strings. *)
Record settings := mk_settings {
  s_how : shutdown_type;
  s_format : bool;
  s_filesys : option (list Z);
  s_scratch : option (list Z);
  s_mlfqs : bool;
  s_limit : Z;
  s_rng : rng;
}.
#[export] Instance settings_ctor : Ctor settings := λ o,
  mk_settings (s_how o) (s_format o) (s_filesys o) (s_scratch o) (s_mlfqs o) (s_limit o) (s_rng o).

Definition default_settings : settings :=
  mk_settings SHUTDOWN_NONE false None None false SIZE_MAX rng_start.

Definition spec_set (name : list Z) (value : option (list Z)) (c : settings) : ending + settings :=
  if decide (name = lit "-h") then inl Powered_off
  else if decide (name = lit "-q") then inr (c <| s_how := SHUTDOWN_POWER_OFF |>)
  else if decide (name = lit "-r") then inr (c <| s_how := SHUTDOWN_REBOOT |>)
  else if decide (name = lit "-f") then inr (c <| s_format := true |>)
  else if decide (name = lit "-filesys") then inr (c <| s_filesys := value |>)
  else if decide (name = lit "-scratch") then inr (c <| s_scratch := value |>)
  else if decide (name = lit "-rs") then
    match r ← value; random_init (s_rng c) (u32 (number_of r)) with
    | Some r => inr (c <| s_rng := r |>)
    | None => inl Faulted
    end
  else if decide (name = lit "-mlfqs") then inr (c <| s_mlfqs := true |>)
  else if decide (name = lit "-ul") then
    match value with
    | Some v => inr (c <| s_limit := u32 (number_of v) |>)
    | None => inl Faulted
    end
  else inl (Panicked (lit "unknown option `" ++ name ++ lit "' (use -h for help)")).

Definition spec_option (arg : list Z) (c : settings) : ending + settings :=
  let '(name, value) := split_option arg in spec_set name value c.

(** The options come first and start with a dash. *)
Fixpoint spec_options (args : list (list Z)) (c : settings) : ending + settings * list (list Z) :=
  match args with
  | (ch :: o) :: rest =>
      if ch =? 45 then
        match spec_option (ch :: o) c with
        | inl e => inl e
        | inr c => spec_options rest c
        end
      else inr (c, args)
  | _ => inr (c, args)
  end.

(** The device for a role: the one of the given name, or the first one of the
    role's type. *)
Definition spec_locate {D} (r : registry D) (role : block_type) (name : option (list Z)) :
    ending + option Z :=
  match name with
  | Some s =>
      match list_find (λ a, b_name <$> blocks r !! a = Some s) (all_blocks r) with
      | Some (_, a) => inr (Some a)
      | None => inl (Panicked (lit "No such block device " ++ [34] ++ s ++ [34]))
      end
  | None => inr (snd <$> list_find (λ a, b_type <$> blocks r !! a = Some role) (all_blocks r))
  end.

Section Actions.
Context {X : Type} (perform : string → list (list Z) → X → option X).

(** The actions, one after the other, up to the first that cannot be done: the
    resulting world, and why it stopped. *)
Fixpoint spec_actions (n : nat) (args : list (list Z)) (x : X) : X * option ending :=
  match n, args with
  | S n, name :: rest =>
      match list_find (λ a, lit a.1 = name) actions with
      | None => (x, Some (Panicked (lit "unknown action `" ++ name ++ lit "' (use -h for help)")))
      | Some (_, (a, argc)) =>
          if decide (length rest < argc - 1)%nat then
            (x, Some (Panicked (lit "action `" ++ name ++ lit "' requires " ++ [47 + Z.of_nat argc]
                                  ++ lit " argument(s)")))
          else
            match perform a (take (argc - 1) rest) x with
            | None => (x, Some Faulted)
            | Some x => spec_actions n (drop (argc - 1) rest) x
            end
      end
  | _, _ => (x, None)
  end.
End Actions.

(** ** Running *)

Lemma bind_Done {S A B} (m : K S A) (f : A → K S B) s a s' :
  m s = Done a s' → (m ≫= f) s = f a s'.
Proof. unfold mbind, K_bind. by intros ->. Qed.

Lemma bind_Stop {S A B} (m : K S A) (f : A → K S B) s e s' :
  m s = Stop e s' → (m ≫= f) s = Stop e s'.
Proof. unfold mbind, K_bind. by intros ->. Qed.

Section Correct.
Context {D X : Type} `{BlockDev D}.
Context (literal : string → Z).
Context (stats : X → counters) (filesys_done serial_flush : X → option X).
Context (perform : string → list (list Z) → X → option X).
Context (boot : Z → X → registry D → option (X * registry D)) (filesys_init : bool → X → option X).
Implicit Types k : kern D X.

(** The rest of the system ends as it should, and counts in 64 bits. *)
Definition counters_ok (c : counters) : Prop :=
  Forall (λ v, - 2 ^ 63 ≤ v < 2 ^ 63)
    [ticks c; idle_ticks c; kernel_ticks c; user_ticks c; chars_written c; key_cnt c; page_fault_cnt c].
Hypothesis Hdone : ∀ x, is_Some (filesys_done x).
Hypothesis Hflush : ∀ x, is_Some (serial_flush x).
Hypothesis Hstats : ∀ x, counters_ok (stats x).

(** *** The end *)

Lemma print_stats_loop_ok roles (r : registry D) : reg_ok r →
  map_Forall (λ _ b, 0 ≤ read_cnt b < 2 ^ 64 ∧ 0 ≤ write_cnt b < 2 ^ 64) (blocks r) →
  Forall (λ a, a = NULL ∨ a ∈ all_blocks r) roles →
  ∃ t, print_stats_loop roles r = Ret tt (r <| Registry.tty := t |>).
Proof.
  intros O C. revert r O C. induction roles as [|a roles IH]; intros r O C F.
  { exists (Registry.tty r). by destruct r. }
  apply Forall_cons in F as [Fa F]. cbn [print_stats_loop]. unfold when.
  destruct (Z.eqb_spec a NULL) as [->|Ha]; cbn [negb].
  { rewrite (bind_Ret _ _ r tt r eq_refl). by apply IH. }
  destruct Fa as [?|Fa]; [done|]. apply (ok_dom r O) in Fa as [b Eb].
  destruct (C a b Eb) as [C1 C2].
  destruct (format_integer_ok (read_cnt b) false false base_d (mk_conversion 0 0 (-1) LONGLONG))
    as [t1 E1]; [by left|done|].
  destruct (format_integer_ok (write_cnt b) false false base_d (mk_conversion 0 0 (-1) LONGLONG))
    as [t2 E2]; [by left|done|].
  match goal with |- context [(?m ≫= _) r] => assert (∃ t, m r = Ret tt (r <| Registry.tty := t |>)) as [t Em] end.
  { eexists. unfold block_at, number, get, lift, say, modify, mbind, M_bind. rewrite Eb, E1, E2. done. }
  rewrite (bind_Ret _ _ _ _ _ Em). destruct (IH (r <| Registry.tty := t |>)) as [t' ->]; [by destruct O|done|done|].
  by exists t'.
Qed.

(** Devices whose statistics can be printed. *)
Definition devs_ok (r : registry D) : Prop :=
  reg_ok r ∧ map_Forall (λ _ b, 0 ≤ read_cnt b < 2 ^ 64 ∧ 0 ≤ write_cnt b < 2 ^ 64) (blocks r).

Lemma count_ok v k : - 2 ^ 63 ≤ v < 2 ^ 63 → ∃ t, count v k = Done t k.
Proof.
  intros Hv. unfold count.
  destruct (format_integer_ok (Z.abs v) true (v <? 0) base_d (mk_conversion 0 0 (-1) LONGLONG)) as [t ->];
    [by left|lia|]. by exists t.
Qed.


Lemma print_stats_ok k : devs_ok (devs k) →
  ∃ t t', print_stats stats k
    = Done tt (k <| devs := (devs k) <| Registry.tty := t' |> |> <| tty := t |>).
Proof.
  intros [O C]. pose proof (Hstats (world k)) as F. unfold counters_ok in F.
  repeat (apply Forall_cons in F as [? F]). unfold print_stats.
  rewrite (bind_Done (getk (λ k, stats (world k))) _ k (stats (world k)) k eq_refl).
  set (c := stats (world k)) in *.
  unfold timer_print_stats, thread_print_stats, console_print_stats, kbd_print_stats, exception_print_stats.
  assert (∀ v k, - 2 ^ 63 ≤ v < 2 ^ 63 → ∃ t, ∀ B (f : list Z → K (kern D X) B), (count v ≫= f) k = f t k) as Hc.
  { intros v k' Hv. destruct (count_ok v k' Hv) as [t E]. exists t. intros B f. by rewrite (bind_Done _ _ _ _ _ E). }
  assert (∀ k t B (f : unit → K (kern D X) B), (print t ≫= f) k = f tt (k <| tty := tty k ++ t |>)) as Hp by done.
  assert (∀ A B E k (m : K (kern D X) A) (f : A → K (kern D X) B) (g : B → K (kern D X) E),
    ((m ≫= f) ≫= g) k = (m ≫= λ x, f x ≫= g) k) as Ha.
  { intros A B E k' m f g. unfold mbind, K_bind. by destruct (m k'). }
  repeat first
    [ rewrite Ha
    | match goal with |- context [(count ?v ≫= ?f) ?k'] =>
        let t := fresh "t" in destruct (Hc v k') as [t ->]; [done|] end
    | rewrite Hp
    | match goal with |- context [(on_devs block_print_stats ≫= ?f) ?k'] =>
        let t := fresh "t" in let Et := fresh "E" in
        destruct (print_stats_loop_ok (block_by_role (devs k)) (devs k) O C (ok_role _ O)) as [t Et];
        rewrite (bind_Done (on_devs block_print_stats) f k' tt (k' <| devs := (devs k) <| Registry.tty := t |> |>))
          by (unfold on_devs; change (devs k') with (devs k);
              change (block_print_stats (devs k)) with (print_stats_loop (block_by_role (devs k)) (devs k));
              by rewrite Et) end ].
  eexists _, _. reflexivity.
Qed.

(** What the ports are given to switch the machine off. *)
Definition off_log : list io_event :=
  [Outw 45060 8192] ++ ((λ c, Outb 35072 c) <$> lit "Shutdown") ++ [Outb 1281 49].

Lemma power_off_ok k : devs_ok (devs k) →
  ∃ k' x, shutdown_power_off stats filesys_done serial_flush k = Stop Powered_off k' ∧
    filesys_done (world k) = Some x ∧ serial_flush x = Some (world k') ∧
    log (ports k') = log (ports k) ++ off_log.
Proof.
  intros Hd. destruct (Hdone (world k)) as [x Ex]. destruct (Hflush x) as [x' Ex'].
  set (k0 := k <| world := x |>).
  assert (on_world filesys_done k = Done tt k0) as E0
    by (unfold on_world, getk, need, modk, mbind, K_bind; by rewrite Ex).
  unfold shutdown_power_off. rewrite (bind_Done _ _ _ _ _ E0).
  destruct (print_stats_ok k0 Hd) as (t & t' & E). rewrite (bind_Done _ _ _ _ _ E).
  match type of E with _ = Done tt ?s => set (k1 := s) in * end.
  set (k2 := k1 <| tty := tty k1 ++ (lit "Powering off..." ++ lit newline) |>).
  rewrite (bind_Done (print _) _ k1 tt k2 eq_refl).
  set (k3 := k2 <| world := x' |>).
  assert (on_world serial_flush k2 = Done tt k3) as E3.
  { unfold on_world, getk, need, modk, mbind, K_bind. change (world k2) with x. by rewrite Ex'. }
  rewrite (bind_Done _ _ _ _ _ E3).
  eexists _, x. split; [reflexivity|]. split; [done|]. split; [done|].
  simpl. rewrite <-!app_assoc. reflexivity.
Qed.

(** *** Options *)

(** Where the loader puts the arguments. *)
Definition args_base : Z := PHYS_BASE + LOADER_ARGS.

Definition used_literals : list string :=
  ["="; ""; "-h"; "-q"; "-r"; "-f"; "-filesys"; "-scratch"; "-rs"; "-mlfqs"; "-ul";
   "run"; "ls"; "cat"; "rm"; "extract"; "append"]%string.

(** The string constants are in memory, apart from the arguments. *)
Definition literals_ok (m : memory) : Prop := Forall (λ s,
  0 < literal s ∧ cstring m (literal s) (lit s) ∧
  (literal s + Z.of_nat (length (lit s)) < args_base ∨ args_base + LOADER_ARGS_LEN ≤ literal s))
  used_literals.

Lemma literal_ok m s : literals_ok m → s ∈ used_literals → 0 < literal s ∧ cstring m (literal s) (lit s).
Proof. intros L Hs. destruct (proj1 (Forall_forall _ _) L s Hs) as (? & ? & _). done. Qed.

Lemma literals_keep m m' p n : literals_ok m → same_outside m m' p n → args_base ≤ p →
  p + Z.of_nat n ≤ args_base + LOADER_ARGS_LEN → literals_ok m'.
Proof.
  intros L S Hp Hn. eapply Forall_impl; [exact L|]. intros s (H1 & H2 & H3). split; [done|].
  split; [|done]. eapply cstring_outside; [exact S| |done]. lia.
Qed.

Lemma is_string_ok k p s (name : string) : literals_ok (mem k) → name ∈ used_literals →
  cstring (mem k) p s → 0 < p → is_string literal p name k = Done (bool_decide (s = lit name)) k.
Proof.
  intros L Hn C Hp. destruct (literal_ok _ _ L Hn) as [Hl Cl]. unfold is_string.
  destruct (strcmp_ok (mem k) p (literal name) s (lit name)) as (r & Er & E); [done..|].
  rewrite (bind_Done _ _ k r k). { by rewrite E. }
  unfold on_mem, getk, mbind, K_bind. by rewrite Er.
Qed.

(** A pointer to a string below [lim], or a null pointer. *)
Definition name_rel (m : memory) (lim p : Z) (s : option (list Z)) : Prop :=
  match s with
  | Some s => args_base ≤ p ∧ p + Z.of_nat (length s) < lim ∧ cstring m p s
  | None => p = NULL
  end.

Record opts_rel (m : memory) (lim : Z) (o : options) (c : settings) : Prop := {
  r_how : how o = s_how c;
  r_format : format_filesys o = s_format c;
  r_filesys : name_rel m lim (filesys_bdev_name o) (s_filesys c);
  r_scratch : name_rel m lim (scratch_bdev_name o) (s_scratch c);
  r_mlfqs : thread_mlfqs o = s_mlfqs c;
  r_limit : user_page_limit o = s_limit c;
  r_rng : generator o = s_rng c;
}.

Lemma base_pos : 0 < args_base.
Proof. by vm_compute. Qed.

Lemma name_rel_keep m m' lim lim' p s n q : name_rel m lim p s → same_outside m m' q n → lim ≤ q →
  lim ≤ lim' → name_rel m' lim' p s.
Proof.
  intros R S Hq Hl. destruct s as [s|]; [|done]. destruct R as (H1 & H2 & H3).
  split; [done|]. split; [lia|]. eapply cstring_outside; [exact S| |done]. lia.
Qed.

Lemma opts_rel_keep m m' lim lim' o c n q : opts_rel m lim o c → same_outside m m' q n → lim ≤ q →
  lim ≤ lim' → opts_rel m' lim' o c.
Proof. intros [] S Hq Hl. split; try done; by eapply name_rel_keep. Qed.

Lemma random_seed_ok k seed r : random_init (generator (opts k)) seed = Some r →
  random_seed seed k = Done tt (k <| opts := (opts k) <| generator := r |> |>).
Proof. intros E. unfold random_seed, getk, need, set_opts, modk, mbind, K_bind. by rewrite E. Qed.

Lemma atoi_value k value v lim : name_rel (mem k) lim value v →
  on_mem (λ m, atoi m value) k
    = match v with Some v => Done (number_of v) k | None => Stop Faulted k end.
Proof.
  intros R. unfold on_mem, getk, mbind, K_bind. destruct v as [v|]; simpl in R.
  - destruct R as (? & _ & C). pose proof base_pos. by rewrite (atoi_number _ _ v) by (done || lia).
  - by rewrite R.
Qed.

(** The next name of the [if] chain. *)
Ltac next_option Hs :=
  rewrite Hs by (by vm_compute; set_solver); case_decide;
  [rewrite bool_decide_true by done|rewrite bool_decide_false by done].

Lemma set_option_ok k name value nm v lim c : literals_ok (mem k) → devs_ok (devs k) →
  cstring (mem k) name nm → 0 < name → name_rel (mem k) lim value v → opts_rel (mem k) lim (opts k) c →
  match spec_set nm v c with
  | inl e => ∃ k', set_option literal stats filesys_done serial_flush name value k = Stop e k'
  | inr c' => ∃ o, set_option literal stats filesys_done serial_flush name value k
                = Done tt (k <| opts := o |>) ∧ opts_rel (mem k) lim o c'
  end.
Proof.
  intros L Hd C Hp Hv R. unfold set_option, spec_set.
  assert (∀ (s : string) B (f : bool → K (kern D X) B), s ∈ used_literals →
    (is_string literal name s ≫= f) k = f (bool_decide (nm = lit s)) k) as Hs.
  { intros s B f Hs. by rewrite (bind_Done _ _ _ _ _ (is_string_ok k name nm s L Hs C Hp)). }
  next_option Hs.
  { unfold usage. set (k0 := k <| tty := tty k ++ usage_text |>).
    destruct (power_off_ok k0 Hd) as (k' & _ & E & _). exists k'.
    by rewrite (bind_Done (print usage_text) _ k tt k0 eq_refl). }
  next_option Hs. { eexists. split; [reflexivity|]. by destruct R; split. }
  next_option Hs. { eexists. split; [reflexivity|]. by destruct R; split. }
  next_option Hs. { eexists. split; [reflexivity|]. by destruct R; split. }
  next_option Hs. { eexists. split; [reflexivity|]. by destruct R; split. }
  next_option Hs. { eexists. split; [reflexivity|]. by destruct R; split. }
  next_option Hs.
  { pose proof (atoi_value k value v lim Hv) as Ea. destruct v as [v|]; cbn [mbind option_bind].
    2:{ exists k. by rewrite (bind_Stop _ _ _ _ _ Ea). }
    rewrite (bind_Done _ _ _ _ _ Ea), <-(r_rng _ _ _ _ R).
    destruct (random_init (generator (opts k)) (u32 (number_of v))) as [r|] eqn:Er.
    - eexists. rewrite (random_seed_ok k _ r Er). split; [done|]. by destruct R; split.
    - exists k. unfold random_seed, getk, need, mbind, K_bind. by rewrite Er. }
  next_option Hs. { eexists. split; [reflexivity|]. by destruct R; split. }
  next_option Hs.
  { pose proof (atoi_value k value v lim Hv) as Ea. destruct v as [v|].
    2:{ exists k. by rewrite (bind_Stop _ _ _ _ _ Ea). }
    eexists. rewrite (bind_Done _ _ _ _ _ Ea). split; [reflexivity|]. by destruct R; split. }
  exists k. unfold on_mem, getk, mbind, K_bind. by rewrite (string_at_ok _ _ nm).
Qed.

(** The arguments, one after the other from [p] on, and where they start. *)
Fixpoint placed (m : memory) (p : Z) (args : list (list Z)) : Prop :=
  match args with
  | [] => p ≤ args_base + LOADER_ARGS_LEN
  | s :: args => cstring m p s ∧ placed m (p + (Z.of_nat (length s) + 1)) args
  end.
Fixpoint starts (p : Z) (args : list (list Z)) : list Z :=
  match args with
  | [] => []
  | s :: args => p :: starts (p + (Z.of_nat (length s) + 1)) args
  end.

Lemma placed_end m p args : placed m p args → p ≤ args_base + LOADER_ARGS_LEN.
Proof.
  revert p. induction args as [|s args IH]; intros p; simpl; [done|]. intros [_ P].
  apply IH in P. lia.
Qed.

Lemma placed_keep m m' p args q n : placed m p args → same_outside m m' q n → q + Z.of_nat n ≤ p →
  placed m' p args.
Proof.
  revert p. induction args as [|s args IH]; intros p; simpl; [done|]. intros [C P] S Hq.
  split; [|apply IH; [done|done|lia]]. eapply cstring_outside; [exact S| |done]. lia.
Qed.

Lemma argv_at_ok k pre p post i : argv k = pre ++ p :: post → i = Z.of_nat (length pre) →
  argv_at i k = Done p k.
Proof.
  intros E ->. unfold argv_at, getk, need, mbind, K_bind.
  rewrite E, Nat2Z.id, lookup_app_r, Nat.sub_diag by lia. done.
Qed.

(** An option at [p], with the name [w] and the value [v], is cut in two. *)
Definition cut_at k (p : Z) (s w : list Z) (v : option (list Z)) : Prop :=
  ∃ m value save save',
    strtok literal p "=" NULL k = Done (p, save) (k <| mem := m |>) ∧
    strtok literal NULL "" save (k <| mem := m |>) = Done (value, save') (k <| mem := m |>) ∧
    cstring m p w ∧ name_rel m (p + (Z.of_nat (length s) + 1)) value v ∧
    same_outside (mem k) m p (length s).

Lemma strtok_run k s (d : string) save m token save' :
  strtok_r (mem k) s (literal d) save = Some (m, token, save') →
  strtok literal s d save k = Done (token, save') (k <| mem := m |>).
Proof. intros E. unfold strtok, on_mem, getk, mbind, K_bind. by rewrite E. Qed.

Lemma cut_value k p w v : literals_ok (mem k) → args_base ≤ p →
  p + Z.of_nat (length (w ++ 61 :: v)) ≤ args_base + LOADER_ARGS_LEN → w ≠ [] → 61 ∉ w →
  cstring (mem k) p (w ++ 61 :: v) →
  cut_at k p (w ++ 61 :: v) w (match v with [] => None | _ => Some v end).
Proof.
  intros L Hb He Hw Nw C. pose proof base_pos as B0. set (q := p + Z.of_nat (length w)).
  set (m := <[q := 0]> (mem k)). destruct (literal_ok _ "=" L) as [He0 Ce]; [by vm_compute; set_solver|].
  assert (same_outside (mem k) m p (length (w ++ 61 :: v))) as S.
  { rewrite length_app. apply same_outside_insert. unfold within, q. simpl. lia. }
  pose proof (cstring_cut _ _ _ _ _ C) as [Cw Cv]. fold q m in Cw, Cv.
  destruct (literal_ok m "") as [Hn Cn]; [by eapply literals_keep|by vm_compute; set_solver|].
  destruct (strtok_rest m (q + 1) (literal "") v (q + 1)) as [save' E2];
    [unfold q; lia|done|exact Cn|exact Cv|done|].
  exists m, (if bool_decide (v = []) then NULL else q + 1), (q + 1), save'. split_and!; [| |done| |done].
  - apply strtok_run.
    pose proof (strtok_first (mem k) p (literal "=") (lit "=") w (Some (61, v)) p NULL) as E1.
    apply E1; [lia|done|done|done| | |done|change (lit "=") with [61]; set_solver].
    + apply Forall_forall. intros x Hx. change (lit "=") with [61]. rewrite list_elem_of_singleton. congruence.
    + by rewrite (proj2 (Z.eqb_neq p NULL)) by (unfold NULL; lia).
  - set (k1 := k <| mem := m |>). exact (strtok_run k1 _ "" _ _ _ _ E2).
  - destruct v as [|c v]; [by rewrite bool_decide_true|]. rewrite bool_decide_false by done.
    unfold q. rewrite length_app. cbn [name_rel length]. split; [lia|]. split; [lia|done].
Qed.

Lemma cut_plain k p w : literals_ok (mem k) → args_base ≤ p → w ≠ [] → 61 ∉ w →
  cstring (mem k) p w → cut_at k p w w None.
Proof.
  intros L Hb Hw Nw C. pose proof base_pos as B0. set (q := p + Z.of_nat (length w)).
  destruct (literal_ok _ "=" L) as [He0 Ce]; [by vm_compute; set_solver|].
  destruct (literal_ok _ "" L) as [Hn Cn]; [by vm_compute; set_solver|].
  destruct (strtok_rest (mem k) q (literal "") [] q) as [save' E2]; [unfold q; lia|done|exact Cn| |done|].
  { apply (cstring_drop _ _ w []). by rewrite app_nil_r. }
  exists (mem k), NULL, q, save'. split_and!; [| |done|done|apply same_outside_refl].
  - apply strtok_run.
    pose proof (strtok_first (mem k) p (literal "=") (lit "=") w None p NULL) as E1.
    apply E1; [lia|done|done|done| | |done].
    + apply Forall_forall. intros x Hx. change (lit "=") with [61]. rewrite list_elem_of_singleton. congruence.
    + by rewrite (proj2 (Z.eqb_neq p NULL)) by (unfold NULL; lia).
  - set (k1 := k <| mem := mem k |>). exact (strtok_run k1 _ "" _ _ _ _ E2).
Qed.

Lemma cut_option k p s : literals_ok (mem k) → args_base ≤ p →
  p + Z.of_nat (length (45 :: s)) ≤ args_base + LOADER_ARGS_LEN → cstring (mem k) p (45 :: s) →
  cut_at k p (45 :: s) (split_option (45 :: s)).1 (split_option (45 :: s)).2.
Proof.
  intros L Hb He C. unfold split_option.
  destruct (cut (45 :: s)) as [w r] eqn:Ec. pose proof (cut_spec _ _ _ Ec) as [Nw Es].
  assert (w ≠ []) as Hw. { intros ->. simpl in Ec. by destruct (cut s). }
  destruct r as [v|]; rewrite Es in *; simpl fst; simpl snd.
  - pose proof (cut_value k p w v L Hb He Hw Nw C) as Hc. by destruct v.
  - by apply cut_plain.
Qed.

(** What is left of the arguments: [i] is their position in [argv]. *)
Record left k (i p : Z) (args : list (list Z)) : Prop := {
  l_argv : ∃ pre post, argv k = pre ++ starts p args ++ NULL :: post ∧ i = Z.of_nat (length pre);
  l_placed : placed (mem k) p args;
  l_base : args_base ≤ p;
}.

Lemma left_head k i p s args : left k i p (s :: args) →
  argv_at i k = Done p k ∧ cstring (mem k) p s ∧ (p =? NULL) = false ∧ 0 < p ∧
  p + Z.of_nat (length s) + 1 ≤ args_base + LOADER_ARGS_LEN ∧
  left k (i + 1) (p + (Z.of_nat (length s) + 1)) args.
Proof.
  intros [(pre & post & E & Ei) [C P] Hb]. pose proof base_pos. cbn [starts app] in E.
  split; [by eapply argv_at_ok|]. split; [done|]. split; [apply Z.eqb_neq; unfold NULL; lia|].
  split; [lia|]. split; [apply placed_end in P; lia|].
  split; [|done|lia]. exists (pre ++ [p]), post. rewrite <-app_assoc, length_app. simpl. split; [done|lia].
Qed.

Lemma left_nil k i p : left k i p [] → argv_at i k = Done NULL k.
Proof. intros [(pre & post & E & Ei) _ _]. cbn [starts app] in E. by eapply argv_at_ok. Qed.

Lemma options_loop_ok args : ∀ n k i p c, (length args < n)%nat → left k i p args →
  literals_ok (mem k) → devs_ok (devs k) → opts_rel (mem k) p (opts k) c →
  match spec_options args c with
  | inl e => ∃ k', options_loop literal stats filesys_done serial_flush n i k = Stop e k'
  | inr (c', rest) => ∃ m o i' p',
      options_loop literal stats filesys_done serial_flush n i k = Done i' (k <| mem := m |> <| opts := o |>) ∧
      left (k <| mem := m |> <| opts := o |>) i' p' rest ∧ literals_ok m ∧ opts_rel m p' o c'
  end.
Proof.
  induction args as [|s args IH]; intros [|n] k i p c Hn Hl L Hd R; try (simpl in Hn; lia).
  { exists (mem k), (opts k), i, p. assert (k <| mem := mem k |> <| opts := opts k |> = k) as -> by (by destruct k).
    cbn [options_loop]. by rewrite (bind_Done _ _ _ _ _ (left_nil _ _ _ Hl)). }
  destruct (left_head k i p s args Hl) as (Ea & C & Ep & Hp & He & Hl').
  cbn [options_loop]. rewrite (bind_Done _ _ _ _ _ Ea), Ep.
  assert (∀ ch B (f : Z → K (kern D X) B), mem k !! p = Some ch → (on_mem (λ m, m !! p) ≫= f) k = f ch k) as Hm.
  { intros ch B f E. apply bind_Done. unfold on_mem, getk, mbind, K_bind. by rewrite E. }
  assert (k <| mem := mem k |> <| opts := opts k |> = k) as Ek by (by destruct k).
  destruct s as [|ch s]; cbn [spec_options].
  { apply cstring_nil in C as E. rewrite (Hm 0) by done. exists (mem k), (opts k), i, p. by rewrite Ek. }
  pose proof C as C'. apply cstring_cons in C' as (E & _ & _). rewrite (Hm ch) by done.
  destruct (Z.eqb_spec ch 45) as [->|Hc]; cbn [negb].
  2:{ exists (mem k), (opts k), i, p. by rewrite Ek. }
  destruct (cut_option k p s L (l_base _ _ _ _ Hl)) as (m & value & save & save' & E1 & E2 & Cn & Rv & S);
    [simpl length in *; lia|done|].
  rewrite (bind_Done _ _ _ _ _ E1). cbv beta iota. rewrite (bind_Done _ _ _ _ _ E2). cbv beta iota.
  unfold spec_option. destruct (split_option (45 :: s)) as [nm v]. simpl fst in Cn. simpl snd in Rv.
  set (k1 := k <| mem := m |>) in *. set (p' := p + (Z.of_nat (length (45 :: s)) + 1)) in *.
  assert (literals_ok m) as Lm.
  { eapply literals_keep; [exact L|exact S|apply Hl|]. simpl length in *. lia. }
  assert (opts_rel m p' (opts k) c) as Rm. { eapply opts_rel_keep; [exact R|exact S|done|unfold p'; lia]. }
  pose proof (set_option_ok k1 p value nm v p' c Lm Hd Cn Hp Rv Rm) as Ho.
  destruct (spec_set nm v c) as [e|c'].
  { destruct Ho as [k' Ho]. exists k'. by rewrite (bind_Stop _ _ _ _ _ Ho). }
  destruct Ho as (o & Ho & Ro). rewrite (bind_Done _ _ _ _ _ Ho). set (k2 := k1 <| opts := o |>).
  assert (left k2 (i + 1) p' args) as Hl2.
  { destruct Hl' as [A P B]. split; [exact A| |exact B].
    eapply placed_keep; [exact P|exact S|unfold p'; lia]. }
  specialize (IH n k2 (i + 1) p' c' ltac:(simpl in Hn; lia) Hl2 Lm Hd Ro).
  by destruct (spec_options args c') as [e|[c2 rest]].
Qed.

(** *** Reading the command line *)

Lemma args_loop_ok args : ∀ i p k, placed (mem k) p args → args_base ≤ p →
  (i + length args ≤ 64)%nat → length (argv k) = 65%nat →
  args_loop (length args) (Z.of_nat i) p (args_base + LOADER_ARGS_LEN) k
    = Done tt (k <| argv := take i (argv k) ++ starts p args ++ drop (i + length args) (argv k) |>).
Proof.
  induction args as [|s args IH]; intros i p k P Hb Hi Ha.
  { cbn [args_loop length starts app]. rewrite Nat.add_0_r, take_drop. by destruct k. }
  destruct P as [C P]. pose proof (placed_end _ _ _ P) as He. cbn [args_loop length].
  rewrite (proj2 (Z.leb_gt _ _)) by lia. simpl length in Hi.
  set (k1 := k <| argv := <[i := p]> (argv k) |>).
  assert (set_argv (Z.of_nat i) p k = Done tt k1) as E1.
  { unfold set_argv. change (LOADER_ARGS_LEN / 2 + 1) with 65.
    rewrite (proj2 (Z.leb_le _ _)), (proj2 (Z.ltb_lt _ _)) by lia. cbn [andb]. by rewrite Nat2Z.id. }
  rewrite (bind_Done _ _ _ _ _ E1).
  assert (on_mem (λ m, strnlen m p (args_base + LOADER_ARGS_LEN - p)) k1
    = Done (Z.of_nat (length s)) k1) as E2.
  { unfold on_mem, getk, mbind, K_bind. change (mem k1) with (mem k).
    rewrite (strnlen_ok _ _ s) by (done || lia). by rewrite Z.min_l by lia. }
  rewrite (bind_Done _ _ _ _ _ E2). replace (Z.of_nat i + 1) with (Z.of_nat (S i)) by lia.
  rewrite IH; [|done|lia|lia|by change (length (<[i := p]> (argv k)) = 65%nat); rewrite length_insert].
  change (argv k1) with (<[i := p]> (argv k)). f_equal.
  assert (take (S i) (<[i := p]> (argv k)) ++ starts (p + (Z.of_nat (length s) + 1)) args
      ++ drop (S i + length args) (<[i := p]> (argv k))
    = take i (argv k) ++ starts p (s :: args) ++ drop (i + S (length args)) (argv k)) as ->; [|done].
  rewrite (take_S_r _ i p) by (apply list_lookup_insert_eq; lia).
  rewrite take_insert_ge, drop_insert_lt by lia. rewrite <-app_assoc. cbn [starts app].
  by rewrite Nat.add_succ_r, Nat.add_succ_l.
Qed.

Lemma print_args_ok args : ∀ k i p n, n = length args → left k i p args →
  ∃ t, print_args n i k = Done tt (k <| tty := t |>).
Proof.
  induction args as [|s args IH]; intros k i p n -> Hl.
  { exists (tty k). by destruct k. }
  destruct (left_head k i p s args Hl) as (Ea & C & _ & Hp & _ & Hl'). cbn [print_args length].
  rewrite (bind_Done _ _ _ _ _ Ea).
  destruct (strchr_ok (mem k) p s 32 C Hp ltac:(lia)) as (q & Eq & _).
  assert (on_mem (λ m, strchr m p 32) k = Done q k) as E1
    by (unfold on_mem, getk, mbind, K_bind; by rewrite Eq).
  assert (on_mem (string_at p) k = Done s k) as E2
    by (unfold on_mem, getk, mbind, K_bind; by rewrite (string_at_ok _ _ s)).
  rewrite (bind_Done _ _ _ _ _ E1), (bind_Done _ _ _ _ _ E2).
  match goal with |- context [(print ?t ≫= ?f) k] =>
    set (k1 := k <| tty := tty k ++ t |>); rewrite (bind_Done (print t) f k tt k1 eq_refl) end.
  destruct (IH k1 (i + 1) (p + (Z.of_nat (length s) + 1)) (length args) eq_refl) as [t ->].
  { destruct Hl' as [A P B]. by split. }
  by exists t.
Qed.

Lemma starts_length p args : length (starts p args) = length args.
Proof. revert p. induction args as [|s args IH]; intros p; simpl; [done|]. by rewrite IH. Qed.

(** The arguments as the loader leaves them. *)
Record loaded (args : list (list Z)) k : Prop := {
  ld_count : (length args ≤ 64)%nat;
  ld_word : load_word (PHYS_BASE + LOADER_ARG_CNT) (mem k) = Some (Z.of_nat (length args));
  ld_args : placed (mem k) args_base args;
  ld_argv : length (argv k) = 65%nat;
}.

Lemma read_command_line_ok args k : loaded args k →
  ∃ v t, read_command_line k = Done 0 (k <| argv := v |> <| tty := t |>) ∧
    left (k <| argv := v |> <| tty := t |>) 0 args_base args.
Proof.
  intros [Hc Hw Hp Ha]. unfold read_command_line.
  change (need (ptov LOADER_ARG_CNT)) with (@mret (K (kern D X)) _ _ (PHYS_BASE + LOADER_ARG_CNT)).
  change (need (ptov LOADER_ARGS)) with (@mret (K (kern D X)) _ _ args_base).
  rewrite (bind_Done (mret _) _ k _ k eq_refl).
  assert (on_mem (load_word (PHYS_BASE + LOADER_ARG_CNT)) k = Done (Z.of_nat (length args)) k) as E0
    by (unfold on_mem, getk, mbind, K_bind; by rewrite Hw).
  rewrite (bind_Done _ _ _ _ _ E0). rewrite int32_small by lia. cbv zeta.
  rewrite (bind_Done (mret _) _ k _ k eq_refl), Nat2Z.id.
  pose proof (args_loop_ok args 0 args_base k Hp ltac:(lia) ltac:(lia) Ha) as E1.
  cbn [take app Nat.add] in E1. change (Z.of_nat 0) with 0 in E1.
  match type of E1 with _ = Done tt ?s => set (k1 := s) in E1 end.
  rewrite (bind_Done _ _ _ _ _ E1).
  set (v := starts args_base args ++ NULL :: drop (S (length args)) (argv k)).
  assert (set_argv (Z.of_nat (length args)) NULL k1 = Done tt (k1 <| argv := v |>)) as E2.
  { unfold set_argv. change (LOADER_ARGS_LEN / 2 + 1) with 65.
    rewrite (proj2 (Z.leb_le _ _)), (proj2 (Z.ltb_lt _ _)) by lia. cbn [andb]. rewrite Nat2Z.id.
    assert (<[length args := NULL]> (argv k1) = v) as <-; [|done].
    change (argv k1) with (starts args_base args ++ drop (length args) (argv k)).
    rewrite insert_app_r_alt by (rewrite starts_length; lia). rewrite starts_length, Nat.sub_diag. unfold v. f_equal.
    destruct (lookup_lt_is_Some_2 (argv k) (length args)) as [x Ex]; [lia|].
    by rewrite (drop_S _ x) by done. }
  rewrite (bind_Done _ _ _ _ _ E2). set (k2 := k1 <| argv := v |>).
  set (k3 := k2 <| tty := tty k2 ++ lit "Kernel command line:" |>).
  rewrite (bind_Done (print _) _ k2 tt k3 eq_refl).
  assert (left k3 0 args_base args) as Hl.
  { split; [|exact Hp|done]. exists [], (drop (S (length args)) (argv k)). done. }
  destruct (print_args_ok args k3 0 args_base (length args) eq_refl Hl) as [t E3].
  rewrite (bind_Done _ _ _ _ _ E3). eexists v, _. split; [reflexivity|].
  destruct Hl as [A P B]. by split.
Qed.

(** *** Devices *)

Lemma on_devs_run {A} (m : M (registry D) A) k a r : m (devs k) = Ret a r →
  on_devs m k = Done a (k <| devs := r |>).
Proof. intros E. unfold on_devs. by rewrite E. Qed.

Lemma devs_same k : k <| devs := devs k |> = k.
Proof. by destruct k. Qed.

Lemma list_after_app l1 a l2 : NoDup (l1 ++ a :: l2) → list_after a (l1 ++ a :: l2) = Some l2.
Proof.
  induction l1 as [|b l1 IH]; simpl; intros N.
  - by rewrite Z.eqb_refl.
  - apply NoDup_cons in N as [Nb N]. rewrite (proj2 (Z.eqb_neq b a)); [by apply IH|].
    intros ->. apply Nb. set_solver.
Qed.

Lemma locate_loop_ok k role : reg_ok (devs k) → ∀ n l1 l2, all_blocks (devs k) = l1 ++ l2 →
  (length l2 < n)%nat →
  locate_loop n (list_elem_to_block l2) role k
    = Done (default NULL (snd <$> list_find (λ a, b_type <$> blocks (devs k) !! a = Some role) l2)) k.
Proof.
  intros O n. induction n as [|n IH]; intros l1 l2 El Hn; [lia|].
  destruct l2 as [|a l2]; cbn [locate_loop list_elem_to_block]; [done|].
  destruct (proj1 (ok_dom _ O a)) as [b Eb]; [rewrite El; set_solver|].
  destruct (ok_blocks _ O a b Eb) as [Ha _]. rewrite (proj2 (Z.eqb_neq a NULL)) by done.
  rewrite (bind_Done _ _ k (b_type b) k).
  2:{ rewrite (on_devs_run _ _ (b_type b) (devs k)); [by rewrite devs_same|].
      unfold block_type_of, block_at, get, lift, mbind, M_bind. by rewrite Eb. }
  cbn [list_find]. rewrite Eb. cbn [fmap option_fmap option_map].
  destruct (decide (b_type b = role)) as [->|Hr].
  { rewrite bool_decide_true by done. destruct (decide (Some role = Some role)); done. }
  rewrite bool_decide_false by done. destruct (decide (Some (b_type b) = Some role)); [congruence|].
  rewrite (bind_Done _ _ k (list_elem_to_block l2) k).
  2:{ rewrite (on_devs_run _ _ (list_elem_to_block l2) (devs k)); [by rewrite devs_same|].
      unfold block_next, get, lift, mbind, M_bind.
      rewrite El, list_after_app by (rewrite <-El; apply O). done. }
  rewrite (IH (l1 ++ [a]) l2); [|by rewrite <-app_assoc|simpl in Hn; lia].
  by destruct (list_find _ l2) as [[j x]|].
Qed.

Lemma by_name_ok (r : registry D) l s : reg_ok r → (∀ a, a ∈ l → a ∈ all_blocks r) →
  by_name_loop l s r
    = Ret (default NULL (snd <$> list_find (λ a, b_name <$> blocks r !! a = Some s) l)) r.
Proof.
  intros O. induction l as [|a l IH]; intros Hl; [done|]. cbn [by_name_loop list_find].
  destruct (proj1 (ok_dom _ O a)) as [b Eb]; [apply Hl; set_solver|].
  rewrite (bind_Ret _ _ r b r) by (unfold block_at, get, lift, mbind, M_bind; by rewrite Eb).
  rewrite Eb. cbn [fmap option_fmap option_map].
  destruct (decide (s = b_name b)) as [->|Hs].
  { rewrite bool_decide_true by done. by destruct (decide (Some (b_name b) = Some (b_name b))). }
  rewrite bool_decide_false by done. destruct (decide (Some (b_name b) = Some s)); [congruence|].
  rewrite IH by set_solver. by destruct (list_find _ l) as [[j x]|].
Qed.

(** The roles after a device has been chosen. *)
Definition assign (role : block_type) (a : option Z) (r : registry D) : registry D :=
  match a with
  | Some a => r <| block_by_role := <[type_no role := a]> (block_by_role r) |>
  | None => r
  end.

Lemma assign_ok role a r : devs_ok r → (∀ x, a = Some x → x ∈ all_blocks r) → devs_ok (assign role a r).
Proof.
  intros [[O1 O2 O3 O4 O5 O6] C] Ha. destruct a as [a|]; [|done]. split; [|done].
  split; try done.
  - change (length (<[type_no role := a]> (block_by_role r)) = BLOCK_ROLE_CNT). by rewrite length_insert.
  - change (Forall (λ q, q = NULL ∨ q ∈ all_blocks r) (<[type_no role := a]> (block_by_role r))).
    apply Forall_insert; [done|]. right. by apply Ha.
Qed.

Lemma list_find_in (P : Z → Prop) `{!∀ x, Decision (P x)} l j a : list_find P l = Some (j, a) → a ∈ l.
Proof. intros (E & _)%list_find_Some. by eapply list_elem_of_lookup_2. Qed.

Lemma use_device_ok k role a : devs_ok (devs k) → (type_no role < BLOCK_ROLE_CNT)%nat →
  (∀ x, a = Some x → x ∈ all_blocks (devs k)) →
  (∃ t, use_device role (default NULL a) k
     = Done tt (k <| devs := assign role a (devs k) |> <| tty := t |>)) ∧
  devs_ok (assign role a (devs k)).
Proof.
  intros [O C] Hr Ha. split; [|by apply assign_ok]. destruct a as [a|].
  2:{ exists (tty k). by destruct k. }
  change (default NULL (Some a)) with a.
  destruct (proj1 (ok_dom _ O a)) as [b Eb]; [by apply Ha|].
  destruct (ok_blocks _ O a b Eb) as [Hnz _]. unfold use_device.
  rewrite (proj2 (Z.eqb_neq a NULL)) by done. rewrite (bind_Done _ _ k (b_name b) k).
  2:{ rewrite (on_devs_run _ _ (b_name b) (devs k)); [by rewrite devs_same|].
      unfold block_name, block_at, get, lift, mbind, M_bind. by rewrite Eb. }
  eexists. rewrite (bind_Done (print _) _ k tt _ eq_refl).
  unfold on_devs, block_set_role, mbind, M_bind, check.
  rewrite (proj2 (Nat.ltb_lt _ _)) by done. reflexivity.
Qed.

Lemma locate_ok k role name s lim : devs_ok (devs k) → (type_no role < BLOCK_ROLE_CNT)%nat →
  name_rel (mem k) lim name s →
  match spec_locate (devs k) role s with
  | inl e => locate_block_device role name k = Stop e k
  | inr a => (∃ t, locate_block_device role name k
        = Done tt (k <| devs := assign role a (devs k) |> <| tty := t |>)) ∧
      devs_ok (assign role a (devs k))
  end.
Proof.
  intros Hd Hr Hn. pose proof Hd as [O _]. unfold locate_block_device, spec_locate.
  destruct s as [s|]; simpl in Hn.
  - destruct Hn as (Hb & _ & C). pose proof base_pos.
    rewrite (proj2 (Z.eqb_neq name NULL)) by (unfold NULL; lia). cbn [negb].
    assert (on_mem (string_at name) k = Done s k) as E1
      by (unfold on_mem, getk, mbind, K_bind; by rewrite (string_at_ok _ _ s) by (done || lia)).
    set (f := list_find _ (all_blocks (devs k))).
    assert (on_devs (block_get_by_name s) k = Done (default NULL (snd <$> f)) k) as E2.
    { rewrite (on_devs_run _ _ (default NULL (snd <$> f)) (devs k)); [by rewrite devs_same|].
      unfold block_get_by_name. rewrite (bind_Ret (get all_blocks) _ _ _ _ eq_refl). by apply by_name_ok. }
    destruct f as [[j a]|] eqn:Ef.
    + assert (a ∈ all_blocks (devs k)) as Ha by (by eapply list_find_in).
      destruct (proj1 (ok_dom _ O a) Ha) as [b Eb]. destruct (ok_blocks _ O a b Eb) as [Hnz _].
      change (default NULL (snd <$> Some (j, a))) with a in E2.
      rewrite (bind_Done _ _ k a k). { apply (use_device_ok k role (Some a)); [done|done|]. by intros x [= <-]. }
      rewrite (bind_Done _ _ _ _ _ E1), (bind_Done _ _ _ _ _ E2).
      by rewrite (proj2 (Z.eqb_neq a NULL)).
    + apply bind_Stop. by rewrite (bind_Done _ _ _ _ _ E1), (bind_Done _ _ _ _ _ E2).
  - subst name. simpl negb. cbv iota. set (f := list_find _ (all_blocks (devs k))).
    rewrite (bind_Done _ _ k (default NULL (snd <$> f)) k).
    + apply (use_device_ok k role (snd <$> f)); [done|done|].
      intros x Hx. destruct f as [[j a]|] eqn:Ef; [|done].
      injection Hx as <-. by eapply list_find_in.
    + rewrite (bind_Done (getk _) _ k _ k eq_refl).
      rewrite (bind_Done _ _ k (list_elem_to_block (all_blocks (devs k))) k)
        by (by rewrite (on_devs_run block_first _ _ (devs k) eq_refl), devs_same).
      apply (locate_loop_ok k role O _ []); [done|lia].
Qed.

(** *** Actions *)

Lemma left_drop k n : ∀ i p args, left k i p args → (n ≤ length args)%nat →
  ∃ p', left k (i + Z.of_nat n) p' (drop n args).
Proof.
  induction n as [|n IH]; intros i p args Hl Hn.
  { exists p. by rewrite Z.add_0_r. }
  destruct args as [|s args]; [simpl in Hn; lia|].
  destruct (left_head k i p s args Hl) as (_ & _ & _ & _ & _ & Hl').
  destruct (IH _ _ _ Hl') as [p' ?]; [simpl in Hn; lia|]. exists p'.
  by replace (i + Z.of_nat (S n)) with (i + 1 + Z.of_nat n) by lia.
Qed.

Lemma string_at_run k p s : cstring (mem k) p s → 0 < p → on_mem (string_at p) k = Done s k.
Proof. intros C Hp. unfold on_mem, getk, mbind, K_bind. by rewrite (string_at_ok _ _ s). Qed.

Lemma find_action_ok k p s table : literals_ok (mem k) → cstring (mem k) p s → 0 < p →
  Forall (λ a, a.1 ∈ used_literals) table →
  find_action literal table p k
    = match list_find (λ a, lit a.1 = s) table with
      | Some (_, a) => Done a k
      | None => Stop (Panicked (lit "unknown action `" ++ s ++ lit "' (use -h for help)")) k
      end.
Proof.
  intros L C Hp. induction table as [|[name argc] table IH]; intros F; cbn [find_action list_find].
  { by rewrite (bind_Done _ _ _ _ _ (string_at_run k p s C Hp)). }
  apply Forall_cons in F as [Fn F]. rewrite (bind_Done _ _ _ _ _ (is_string_ok k p s name L Fn C Hp)).
  change ((name, argc).1) with name.
  destruct (decide (lit name = s)) as [<-|N].
  { by rewrite bool_decide_true. }
  rewrite bool_decide_false by congruence. rewrite IH by done.
  by destruct (list_find _ table) as [[j a]|].
Qed.

Lemma action_args_ok k q s argc : cstring (mem k) q s → 0 < q → ∀ n i p args, left k i p args →
  action_args n i q argc k
    = if decide (length args < n)%nat
      then Stop (Panicked (lit "action `" ++ s ++ lit "' requires " ++ [47 + Z.of_nat argc]
                             ++ lit " argument(s)")) k
      else Done (take n args) k.
Proof.
  intros C Hq n. induction n as [|n IH]; intros i p args Hl; [done|]. cbn [action_args].
  destruct args as [|a args].
  { rewrite (bind_Done _ _ _ _ _ (left_nil _ _ _ Hl)). change (NULL =? NULL) with true. cbv iota.
    rewrite (bind_Done _ _ _ _ _ (string_at_run k q s C Hq)). by rewrite decide_True by (simpl; lia). }
  destruct (left_head k i p a args Hl) as (Ea & Ca & Ep & Hp & _ & Hl').
  rewrite (bind_Done _ _ _ _ _ Ea), Ep, (bind_Done _ _ _ _ _ (string_at_run k p a Ca Hp)).
  specialize (IH _ _ _ Hl'). destruct (decide (length args < n)%nat) as [L|L].
  - rewrite (bind_Stop _ _ _ _ _ IH). by rewrite decide_True by (simpl; lia).
  - rewrite (bind_Done _ _ _ _ _ IH). by rewrite decide_False by (simpl; lia).
Qed.

Lemma invoke_ok k name args : (name = "run"%string → length args = 1%nat) →
  match perform name args (world k) with
  | Some x => ∃ t, invoke perform name args k = Done tt (k <| world := x |> <| tty := t |>)
  | None => ∃ t, invoke perform name args k = Stop Faulted (k <| tty := t |>)
  end.
Proof.
  intros Hr. unfold invoke.
  assert (∀ k', match perform name args (world k') with
    | Some x => on_world (perform name args) k' = Done tt (k' <| world := x |>)
    | None => on_world (perform name args) k' = Stop Faulted k' end) as Hw.
  { intros k'. unfold on_world, getk, need, modk, mbind, K_bind.
    by destruct (perform name args (world k')). }
  destruct (String.eqb_spec name "run") as [->|Hn].
  - specialize (Hr eq_refl). destruct args as [|task [|? ?]]; [done| |done].
    unfold run_task. set (k1 := k <| tty := tty k ++ (lit "Executing '" ++ task ++ lit "':" ++ lit newline) |>).
    rewrite (bind_Done (print _) _ k tt k1 eq_refl). specialize (Hw k1). change (world k1) with (world k) in Hw.
    destruct (perform "run" [task] (world k)) as [x|].
    + rewrite (bind_Done _ _ _ _ _ Hw). eexists. reflexivity.
    + rewrite (bind_Stop _ _ _ _ _ Hw). eexists. reflexivity.
  - specialize (Hw k).
    destruct (perform name args (world k)) as [x|]; exists (tty k); rewrite Hw; by destruct k.
Qed.

(** The table: every action has a name, and [run] has an argument. *)
Lemma action_argc name argc j s : list_find (λ a, lit a.1 = s) actions = Some (j, (name, argc)) →
  (1 ≤ argc)%nat ∧ (name = "run"%string → argc = 2%nat).
Proof.
  intros (E & _)%list_find_Some. unfold actions in E.
  do 6 (destruct j as [|j]; [simplify_eq/=; by split; [lia|]|]). done.
Qed.

Lemma actions_loop_ok n : ∀ k i p args, (length args < n)%nat → left k i p args → literals_ok (mem k) →
  match spec_actions perform n args (world k) with
  | (x, Some e) => ∃ k', actions_loop literal perform n i k = Stop e k' ∧ world k' = x
  | (x, None) => ∃ t, actions_loop literal perform n i k = Done tt (k <| world := x |> <| tty := t |>)
  end.
Proof.
  induction n as [|n IH]; intros k i p args Hn Hl L; [lia|].
  cbn [actions_loop spec_actions]. destruct args as [|s args].
  { rewrite (bind_Done _ _ _ _ _ (left_nil _ _ _ Hl)). exists (tty k). by destruct k. }
  destruct (left_head k i p s args Hl) as (Ea & C & Ep & Hp & _ & Hl').
  rewrite (bind_Done _ _ _ _ _ Ea), Ep.
  assert (Forall (λ a, a.1 ∈ used_literals) actions) as Fa by (apply (bool_decide_unpack _); by vm_compute).
  pose proof (find_action_ok k p s actions L C Hp Fa) as Ef.
  destruct (list_find (λ a, lit a.1 = s) actions) as [[j [name argc]]|] eqn:El.
  2:{ exists k. by rewrite (bind_Stop _ _ _ _ _ Ef). }
  rewrite (bind_Done _ _ _ _ _ Ef). cbv beta iota.
  pose proof (action_args_ok k p s argc C Hp (argc - 1) _ _ _ Hl') as Er.
  destruct (decide (length args < argc - 1)%nat) as [La|La].
  { exists k. by rewrite (bind_Stop _ _ _ _ _ Er). }
  rewrite (bind_Done _ _ _ _ _ Er).
  destruct (action_argc _ _ _ _ El) as [H1 Hrun].
  pose proof (invoke_ok k name (take (argc - 1) args)) as Hi.
  specialize (Hi ltac:(intros Hr; rewrite length_take; pose proof (Hrun Hr); lia)).
  destruct (perform name (take (argc - 1) args) (world k)) as [x|]; destruct Hi as [t Hi].
  2:{ exists (k <| tty := t |>). by rewrite (bind_Stop _ _ _ _ _ Hi). }
  rewrite (bind_Done _ _ _ _ _ Hi). set (k1 := k <| world := x |> <| tty := t |>).
  destruct (left_drop k (argc - 1) _ _ _ Hl') as [p' Hd]; [lia|].
  replace (i + Z.of_nat argc) with (i + 1 + Z.of_nat (argc - 1)) by lia.
  assert (left k1 (i + 1 + Z.of_nat (argc - 1)) p' (drop (argc - 1) args)) as Hd1
    by (destruct Hd as [A P B]; by split).
  specialize (IH k1 (i + 1 + Z.of_nat (argc - 1)) p' (drop (argc - 1) args)). change (world k1) with x in IH.
  rewrite length_drop in IH. specialize (IH ltac:(simpl in Hn; lia) Hd1 L).
  destruct (spec_actions perform n (drop (argc - 1) args) x) as [x' [e|]]; [done|].
  destruct IH as [t' ->]. by exists t'.
Qed.

(** *** The session *)

Lemma spec_set_rng nm v c c' : spec_set nm v c = inr c' → rng_ok (s_rng c) → rng_ok (s_rng c').
Proof.
  unfold spec_set. intros E R. repeat case_decide; simplify_eq/=; try done.
  - destruct v as [v|]; [|done]. cbn [mbind option_bind] in E.
    destruct (random_init_ok (s_rng c) (u32 (number_of v)) R) as (r & Er & Hr & _).
    rewrite Er in E. by injection E as <-.
  - destruct v; [|done]. by injection E as <-.
Qed.

Lemma spec_options_rng args : ∀ c c' rest, spec_options args c = inr (c', rest) →
  rng_ok (s_rng c) → rng_ok (s_rng c') ∧ (length rest ≤ length args)%nat.
Proof.
  induction args as [|s args IH]; intros c c' rest E R; cbn [spec_options] in E; [by injection E as <- <-|].
  destruct s as [|ch s]; [by injection E as <- <-|].
  destruct (ch =? 45); [|by injection E as <- <-].
  destruct (spec_option (ch :: s) c) as [|c1] eqn:Eo; [done|].
  unfold spec_option in Eo. destruct (split_option (ch :: s)) as [nm v].
  destruct (IH _ _ _ E (spec_set_rng _ _ _ _ Eo R)) as [? ?]. split; [done|simpl; lia].
Qed.

Lemma parse_options_ok k i args t clock : (length args ≤ 64)%nat → left k i args_base args →
  literals_ok (mem k) → devs_ok (devs k) → opts k = initial_options →
  rtc_get_time (ports k) = Ret t clock →
  match spec_options args default_settings with
  | inl e => ∃ k', parse_options literal stats filesys_done serial_flush i k = Stop e k'
  | inr (c, rest) => ∃ m o i' p r, let k' := k <| mem := m |> <| opts := o |> <| ports := clock |> in
      parse_options literal stats filesys_done serial_flush i k = Done i' k' ∧
      left k' i' p rest ∧ literals_ok m ∧ random_init (s_rng c) (u32 t) = Some r ∧
      opts_rel m p o (c <| s_rng := r |>)
  end.
Proof.
  intros Hn Hl L Hd Eo Et. unfold parse_options.
  assert (opts_rel (mem k) args_base (opts k) default_settings) as R by (rewrite Eo; by split).
  pose proof (options_loop_ok args 66 k i args_base default_settings ltac:(lia) Hl L Hd R) as Ho.
  destruct (spec_options args default_settings) as [e|[c rest]] eqn:Es.
  { destruct Ho as [k' Ho]. exists k'. by rewrite (bind_Stop _ _ _ _ _ Ho). }
  destruct Ho as (m & o & i' & p & Ho & Hl' & Lm & Ro). rewrite (bind_Done _ _ _ _ _ Ho).
  set (k1 := k <| mem := m |> <| opts := o |>) in *.
  destruct (spec_options_rng args _ _ _ Es rng_start_ok) as [Rr _].
  destruct (random_init_ok (s_rng c) (u32 t) Rr) as (r & Er & _).
  set (k2 := k1 <| ports := clock |>).
  assert (on_ports rtc_get_time k1 = Done t k2) as E1.
  { unfold on_ports. change (ports k1) with (ports k). by rewrite Et. }
  rewrite (bind_Done _ _ _ _ _ E1).
  assert (random_init (generator (opts k2)) (u32 t) = Some r) as Er2.
  { change (opts k2) with o. by rewrite (r_rng _ _ _ _ Ro). }
  rewrite (bind_Done _ _ _ _ _ (random_seed_ok k2 _ r Er2)).
  exists m, (o <| generator := r |>), i', p, r. split; [done|].
  split; [destruct Hl' as [A P B]; by split|]. split; [done|]. split; [done|].
  destruct Ro. by split.
Qed.

Lemma control_loop_ok n : ∀ p, (∃ p', control_loop n p = Ret tt p') ∨ control_loop n p = Waits.
Proof.
  induction n as [|n IH]; intros p; cbn [control_loop]; [by left; eexists|].
  unfold inb, answer, note, modify. unfold mbind, M_bind, mret, M_ret; simpl.
  destruct (answers p) as [|v vs]; [by right|]. simpl.
  case_match; [by left; eexists|apply IH].
Qed.

Lemma reboot_ports p : (∃ p', (control_loop (Z.to_nat 65536);; outb CONTROL_REG 254) p = Ret tt p') ∨
  (control_loop (Z.to_nat 65536);; outb CONTROL_REG 254) p = Waits.
Proof.
  destruct (control_loop_ok (Z.to_nat 65536) p) as [[p' E]|E]; unfold mbind, M_bind; rewrite E;
    [left; by eexists|by right].
Qed.

(** What a command line says: the session stops before the actions, or during
    them, or goes through, with the settings and the devices chosen. *)
Inductive verdict :=
  | Refused (e : ending)
  | Broken (x : X) (e : ending)
  | Completed (c : settings) (r : registry D) (x : X).

(** The devices that an option or the partition table names. *)
Definition spec_devices (c : settings) (r : registry D) : ending + registry D :=
  match spec_locate r BLOCK_FILESYS (s_filesys c), spec_locate r BLOCK_SCRATCH (s_scratch c) with
  | inl e, _ | inr _, inl e => inl e
  | inr a, inr b => inr (assign BLOCK_SCRATCH b (assign BLOCK_FILESYS a r))
  end.

Definition spec_session (args : list (list Z)) (r : registry D) (x : X) : verdict :=
  match spec_options args default_settings with
  | inl e => Refused e
  | inr (c, rest) =>
      match boot (s_limit c) x r with
      | None => Refused Faulted
      | Some (x, r) =>
          match spec_devices c r with
          | inl e => Refused e
          | inr r =>
              match filesys_init (s_format c) x with
              | None => Refused Faulted
              | Some x =>
                  match spec_actions perform 66 rest x with
                  | (x, Some e) => Broken x e
                  | (x, None) => Completed c r x
                  end
              end
          end
      end
  end.

Lemma shutdown_ok k c : devs_ok (devs k) → how (opts k) = s_how c →
  match s_how c with
  | SHUTDOWN_NONE => shutdown stats filesys_done serial_flush k = Done tt k
  | SHUTDOWN_POWER_OFF => ∃ k' x l, shutdown stats filesys_done serial_flush k = Stop Powered_off k' ∧
      filesys_done (world k) = Some x ∧ serial_flush x = Some (world k') ∧
      log (ports k') = l ++ off_log
  | SHUTDOWN_REBOOT => ∃ e k', shutdown stats filesys_done serial_flush k = Stop e k' ∧
      (e = Rebooted ∨ e = Hung) ∧ world k' = world k
  end.
Proof.
  intros Hd Eh. unfold shutdown. rewrite (bind_Done (getk _) _ k _ k eq_refl), Eh.
  destruct (s_how c); [done| |].
  - destruct (power_off_ok k Hd) as (k' & x & E & E1 & E2 & E3). eauto 10.
  - unfold shutdown_reboot. set (k1 := k <| tty := tty k ++ (lit "Rebooting..." ++ lit newline) |>).
    rewrite (bind_Done (print _) _ k tt k1 eq_refl).
    destruct (reboot_ports (ports k1)) as [[p E]|E].
    + rewrite (bind_Done _ _ k1 tt (k1 <| ports := p |>)) by (unfold on_ports; by rewrite E).
      eexists _, _; eauto.
    + rewrite (bind_Stop _ _ k1 Hung k1) by (unfold on_ports; by rewrite E).
      eexists _, _; eauto.
Qed.

Lemma spec_locate_assign role a r role' s : spec_locate (assign role a r) role' s = spec_locate r role' s.
Proof. by destruct a. Qed.

(** The names that [parse_options] leaves are strings of the memory. *)
Lemma locate_block_devices_ok k lim c : devs_ok (devs k) → opts_rel (mem k) lim (opts k) c →
  match spec_devices c (devs k) with
  | inl e => ∃ k', locate_block_devices k = Stop e k'
  | inr r => ∃ t, locate_block_devices k = Done tt (k <| devs := r |> <| tty := t |>) ∧ devs_ok r
  end.
Proof.
  unfold spec_devices.
  intros Hd R. unfold locate_block_devices. rewrite (bind_Done (getk _) _ k _ k eq_refl).
  pose proof (locate_ok k BLOCK_FILESYS _ _ lim Hd ltac:(unfold BLOCK_ROLE_CNT; simpl; lia) (r_filesys _ _ _ _ R)) as H1.
  destruct (spec_locate (devs k) BLOCK_FILESYS _) as [e|a].
  { exists k. by rewrite (bind_Stop _ _ _ _ _ H1). }
  destruct H1 as [[t E1] Hd1]. rewrite (bind_Done _ _ _ _ _ E1).
  set (k1 := k <| devs := assign BLOCK_FILESYS a (devs k) |> <| tty := t |>).
  rewrite (bind_Done (getk _) _ k1 _ k1 eq_refl).
  pose proof (locate_ok k1 BLOCK_SCRATCH _ _ lim Hd1 ltac:(unfold BLOCK_ROLE_CNT; simpl; lia) (r_scratch _ _ _ _ R)) as H2.
  change (devs k1) with (assign BLOCK_FILESYS a (devs k)) in H2. rewrite spec_locate_assign in H2.
  change (opts k1) with (opts k).
  destruct (spec_locate (devs k) BLOCK_SCRATCH _) as [e|b]; [by exists k1|].
  destruct H2 as [[t2 E2] Hd2]. by exists t2.
Qed.

Definition run : K (kern D X) unit :=
  main literal stats filesys_done serial_flush perform boot filesys_init.

(** The devices that are registered can be used. *)
Hypothesis Hboot : ∀ limit x r x' r', devs_ok r → boot limit x r = Some (x', r') → devs_ok r'.

(** From the actions on. *)
Lemma actions_shutdown_ok k i p rest c : (length rest < 66)%nat → left k i p rest → literals_ok (mem k) →
  devs_ok (devs k) → how (opts k) = s_how c →
  let fin := run_actions literal perform i;; shutdown stats filesys_done serial_flush in
  match spec_actions perform 66 rest (world k) with
  | (x, Some e) => ∃ k', fin k = Stop e k' ∧ world k' = x
  | (x, None) =>
      match s_how c with
      | SHUTDOWN_NONE => ∃ t, fin k = Done tt (k <| world := x |> <| tty := t |>)
      | SHUTDOWN_POWER_OFF => ∃ k' x' l, fin k = Stop Powered_off k' ∧
          filesys_done x = Some x' ∧ serial_flush x' = Some (world k') ∧ log (ports k') = l ++ off_log
      | SHUTDOWN_REBOOT => ∃ e k', fin k = Stop e k' ∧ (e = Rebooted ∨ e = Hung) ∧ world k' = x
      end
  end.
Proof.
  intros Hn Hl L Hd Eh fin. unfold fin, run_actions.
  pose proof (actions_loop_ok 66 k i p rest Hn Hl L) as Ha.
  destruct (spec_actions perform 66 rest (world k)) as [x [e|]].
  { destruct Ha as (k' & Ha & Hw). exists k'. by rewrite (bind_Stop _ _ _ _ _ Ha). }
  destruct Ha as (t & Ha). rewrite (bind_Done _ _ _ _ _ Ha).
  set (k1 := k <| world := x |> <| tty := t |>) in *.
  pose proof (shutdown_ok k1 c Hd Eh) as Hs. destruct (s_how c); [by exists t|done|done].
Qed.

(** C19: The kernel does what its command line says.  For arguments that the
    loader left in memory, [main] ([read_command_line], [parse_options] with
    [strtok_r] and [atoi] on the memory itself, the initializations,
    [locate_block_devices], [run_actions], [shutdown]) is the session that
    [spec_session] computes from the lists of characters: it stops with the
    message of the first unknown option, missing device, unknown action or
    missing argument, the actions before it done; or the actions are done in
    order, the devices have their roles and the variables their values, and the
    machine is left on, switched off through the ports after the file system is
    closed and the output flushed, or reset. *)
Theorem session_correct (args : list (list Z)) k t clock :
  loaded args k → literals_ok (mem k) → devs_ok (devs k) → opts k = initial_options →
  rtc_get_time (ports k) = Ret t clock →
  match spec_session args (devs k) (world k) with
  | Refused e => ∃ k', run k = Stop e k'
  | Broken x e => ∃ k', run k = Stop e k' ∧ world k' = x
  | Completed c r x =>
      match s_how c with
      | SHUTDOWN_NONE => ∃ k', run k = Done tt k' ∧ world k' = x ∧ devs k' = r ∧
          format_filesys (opts k') = s_format c ∧ thread_mlfqs (opts k') = s_mlfqs c ∧
          user_page_limit (opts k') = s_limit c ∧
          random_init (s_rng c) (u32 t) = Some (generator (opts k'))
      | SHUTDOWN_POWER_OFF => ∃ k' x' l, run k = Stop Powered_off k' ∧
          filesys_done x = Some x' ∧ serial_flush x' = Some (world k') ∧
          log (ports k') = l ++ off_log
      | SHUTDOWN_REBOOT => ∃ e k', run k = Stop e k' ∧ (e = Rebooted ∨ e = Hung) ∧ world k' = x
      end
  end.
Proof.
  intros Hl L Hd Eo Et. unfold run, main, spec_session.
  destruct (read_command_line_ok args k Hl) as (v & t0 & E0 & Hleft).
  rewrite (bind_Done _ _ _ _ _ E0). set (k1 := k <| argv := v |> <| tty := t0 |>) in *.
  pose proof (parse_options_ok k1 0 args t clock (ld_count _ _ Hl) Hleft L Hd Eo Et) as Hp.
  destruct (spec_options args default_settings) as [e|[c rest]] eqn:Es.
  { destruct Hp as [k' Hp]. exists k'. by rewrite (bind_Stop _ _ _ _ _ Hp). }
  destruct Hp as (m & o & i & p & r & Hp & Hleft2 & Lm & Er & Ro). rewrite (bind_Done _ _ _ _ _ Hp).
  set (k2 := k1 <| mem := m |> <| opts := o |> <| ports := clock |>) in *.
  pose proof (r_limit _ _ _ _ Ro) as El. simpl in El. pose proof (r_format _ _ _ _ Ro) as Ef. simpl in Ef.
  destruct (boot (s_limit c) (world k) (devs k)) as [[x1 r1]|] eqn:Eb.
  2:{ exists k2. apply bind_Stop. unfold initialize. simpl. by rewrite El, Eb. }
  set (k3 := k2 <| world := x1 |> <| devs := r1 |>).
  rewrite (bind_Done _ _ k2 tt k3) by (unfold initialize; simpl; by rewrite El, Eb).
  pose proof (locate_block_devices_ok k3 p (c <| s_rng := r |>) (Hboot _ _ _ _ _ Hd Eb) Ro) as Hb.
  change (spec_devices (c <| s_rng := r |>) (devs k3)) with (spec_devices c r1) in Hb.
  destruct (spec_devices c r1) as [e|r2].
  { destruct Hb as [k' Hb]. exists k'. by rewrite (bind_Stop _ _ _ _ _ Hb). }
  destruct Hb as (t3 & Hb & Hd4). rewrite (bind_Done _ _ _ _ _ Hb).
  set (k4 := k3 <| devs := r2 |> <| tty := t3 |>) in *. rewrite (bind_Done (getk _) _ k4 _ k4 eq_refl).
  change (format_filesys (opts k4)) with (format_filesys o). rewrite Ef.
  destruct (filesys_init (s_format c) x1) as [x2|] eqn:Em.
  2:{ exists k4. apply bind_Stop. unfold on_world, getk, need, mbind, K_bind. simpl. by rewrite Em. }
  set (k5 := k4 <| world := x2 |>).
  rewrite (bind_Done _ _ k4 tt k5) by (unfold on_world, getk, need, modk, mbind, K_bind; simpl; by rewrite Em).
  set (k6 := k5 <| tty := tty k5 ++ (lit "Boot complete." ++ lit newline) |>).
  rewrite (bind_Done (print _) _ k5 tt k6 eq_refl).
  destruct (spec_options_rng args _ _ _ Es rng_start_ok) as [_ Hlen]. pose proof (ld_count _ _ Hl).
  pose proof (actions_shutdown_ok k6 i p rest c ltac:(lia) ltac:(destruct Hleft2 as [A P B]; by split) Lm Hd4
    (r_how _ _ _ _ Ro)) as Hf. change (world k6) with x2 in Hf.
  destruct (spec_actions perform 66 rest x2) as [x [e|]]; [done|]. destruct (s_how c); [|done|done].
  destruct Hf as [t4 Hf]. destruct Ro. eexists. split; [exact Hf|].
  repeat split; try done. simpl in *; congruence.
Qed.
End Correct.

(** ** Examples *)

Lemma read_chars_block m : ∀ n p bs, read_chars n m p = Some bs → block m p bs.
Proof.
  induction n as [|n IH]; intros p bs E i b Hi; cbn [read_chars] in E; [by simplify_eq/=|].
  apply bind_Some in E as (c & Ec & E). apply bind_Some in E as (bs' & Eb & E). simplify_eq/=.
  destruct i as [|i]; simpl in Hi; [simplify_eq; by rewrite Z.add_0_r|].
  replace (p + Z.of_nat (S i)) with (p + 1 + Z.of_nat i) by lia. by eapply IH.
Qed.

(** The strings one after the other from an address on. *)
Fixpoint laid (p : Z) (ss : list (list Z)) : memory :=
  match ss with
  | [] => ∅
  | s :: ss => list_to_map (zip (seqZ p (Z.of_nat (length s) + 1)) (s ++ [0]))
                 ∪ laid (p + (Z.of_nat (length s) + 1)) ss
  end.

Definition sample_literal (s : string) : Z :=
  match list_find (λ e, e.1 = s) (zip used_literals (starts 1000 (lit <$> used_literals))) with
  | Some (_, e) => e.2
  | None => 0
  end.
Definition sample_args : list (list Z) :=
  lit <$> ["-q"; "-rs=7"; "-filesys=hda1"; "run"; "echo x"; "rm"; "a"]%string.
Definition sample_mem (argc : Z) (args : list (list Z)) : memory :=
  laid args_base args ∪ laid 1000 (lit <$> used_literals)
    ∪ list_to_map (zip (seqZ (PHYS_BASE + LOADER_ARG_CNT) 4) [argc; 0; 0; 0]).

(** The world is the list of the actions done. *)
Definition sample_kern (argc : Z) (args : list (list Z)) :
    kern disk (list (string * list (list Z))) :=
  mk_kern (sample_mem argc args) (replicate 65 NULL) initial_options
    (mk_io [89; 89; 35; 41; 2; 0; 0; 0; 0; 0; 1; 3; 0; 0] []) sample_registry [] [].
Definition sample_perform (a : string) (args : list (list Z)) (x : list (string * list (list Z))) :=
  Some (x ++ [(a, args)]).
Definition sample_stats (x : list (string * list (list Z))) : counters := mk_counters 0 0 0 0 0 0 0.
Definition sample_boot (limit : Z) (x : list (string * list (list Z))) (r : registry disk) :
    option (list (string * list (list Z)) * registry disk) :=
  Some (x, sample_scanned).
Definition sample_init (format : bool) (x : list (string * list (list Z))) := Some x.
Definition sample_run :=
  run sample_literal sample_stats Some Some sample_perform sample_boot sample_init.

Lemma cstring_read m p s : read_chars (length s + 1) m p = Some (s ++ [0]) →
  Forall (λ c, 0 < c < 256) s → cstring m p s.
Proof. intros E F. split; [|done]. by eapply read_chars_block. Qed.

Lemma sample_literals_ok : literals_ok sample_literal (mem (sample_kern 7 sample_args)).
Proof.
  change (mem (sample_kern 7 sample_args)) with (sample_mem 7 sample_args).
  assert (Forall (λ s, 0 < sample_literal s ∧
    (read_chars (length (lit s) + 1) (sample_mem 7 sample_args) (sample_literal s) = Some (lit s ++ [0]) ∧
     Forall (λ c, 0 < c < 256) (lit s)) ∧
    (sample_literal s + Z.of_nat (length (lit s)) < args_base
       ∨ args_base + LOADER_ARGS_LEN ≤ sample_literal s)) used_literals) as F.
  { apply (bool_decide_unpack _). vm_compute. exact I. }
  eapply Forall_impl; [exact F|]. intros s (? & [] & ?). split; [done|]. split; [|done].
  by apply cstring_read.
Qed.

Lemma sample_loaded : loaded sample_args (sample_kern 7 sample_args).
Proof.
  split; [vm_compute; lia|vm_compute; reflexivity| |reflexivity].
  cbn [placed sample_args fmap list_fmap].
  repeat (split; [apply cstring_read; [vm_compute; reflexivity|apply (bool_decide_unpack _); vm_compute; exact I]|]).
  vm_compute. discriminate.
Qed.

Lemma sample_devs_ok : devs_ok sample_scanned.
Proof.
  split; [apply sample_scanned_good|]. apply (bool_decide_unpack _). vm_compute. exact I.
Qed.

Lemma sample_start_ok : devs_ok (devs (sample_kern 7 sample_args)).
Proof.
  change (devs (sample_kern 7 sample_args)) with sample_registry.
  split; [apply sample_registry_ok|apply map_Forall_empty].
Qed.

(** The command line [-q -rs=7 -filesys=hda1 run 'echo x' rm a]. *)
Definition sample_actions : list (string * list (list Z)) :=
  [("run"%string, [lit "echo x"]); ("rm"%string, [lit "a"])].

Lemma sample_verdict : ∃ c,
  spec_session sample_perform sample_boot sample_init sample_args (devs (sample_kern 7 sample_args))
      (world (sample_kern 7 sample_args))
    = Completed c (assign BLOCK_SCRATCH (Some 5376) (assign BLOCK_FILESYS (Some 4864) sample_scanned)) sample_actions ∧
  s_how c = SHUTDOWN_POWER_OFF.
Proof. eexists. split; vm_compute; reflexivity. Qed.

Lemma session_correct_witness : ∃ k' l, sample_run (sample_kern 7 sample_args) = Stop Powered_off k' ∧
  world k' = sample_actions ∧ log (ports k') = l ++ off_log.
Proof.
  assert (∃ t clock, rtc_get_time (ports (sample_kern 7 sample_args)) = Ret t clock) as (t & clock & Et)
    by (eexists _, _; vm_compute; reflexivity).
  assert (∀ x, counters_ok (sample_stats x)) as Hs.
  { intros x. repeat (constructor; [split; [discriminate|reflexivity]|]). constructor. }
  assert (∀ limit x r x' r', devs_ok r → sample_boot limit x r = Some (x', r') → devs_ok r') as Hb.
  { intros limit x r x' r' _ [= _ <-]. exact sample_devs_ok. }
  pose proof (session_correct sample_literal sample_stats Some Some sample_perform
    sample_boot sample_init (λ x, ex_intro _ x eq_refl) (λ x, ex_intro _ x eq_refl) Hs Hb
    sample_args (sample_kern 7 sample_args) t clock sample_loaded sample_literals_ok sample_start_ok eq_refl Et) as S.
  destruct sample_verdict as (c & Ec & Eh). rewrite Ec, Eh in S.
  destruct S as (k' & x' & l & E & [= <-] & [= W] & El).
  exists k', l. split; [exact E|]. split; [symmetry; exact W|exact El].
Defined.

(** The loader stores up to 128 arguments, all of them empty, and [argv] has room
    for 64 and the null pointer: one argument more is written past its end. *)
Lemma command_line_overflow :
  (∃ k', read_command_line (sample_kern 64 (replicate 64 [])) = Done 0 k') ∧
  (∃ k', read_command_line (sample_kern 65 (replicate 65 [])) = Stop Faulted k').
Proof. split; vm_compute; by eexists. Qed.
