(* ===== verification/Paging.v ===== *)
(** * The kernel's page tables at boot ([threads/init.c])

    [paging_init] builds the page directory of the kernel on the pages of
    [Palloc], after [palloc_init] has made the pools.  [walk] is the address
    translation of the processor, which reads the directory and the tables in
    memory from the register CR3 on; the theorem gives it for every address. *)

From S2P Require Import Prelude Machine FixedPoint Bitmap Palloc Pagedir.

Open Scope Z_scope.

Section paging.
(** The size of the memory, from the loader, and the bounds of the kernel's
    text, from the linker. *)
Context (init_ram_pages start end_kernel_text : Z).

Definition in_kernel_text (vaddr : Z) : bool := (start <=? vaddr) && (vaddr <? end_kernel_text).

(** [pd[pde_idx]], with a new page table if there is none. *)
Definition table_for (s : palloc) (pd pt vaddr : Z) : option (palloc * Z) :=
  let pde := pd + 4 * pd_no vaddr in
  if load32 (mem s) pde =? 0 then
    '(s, pt) ← palloc_get_page s (Z.lor PAL_ASSERT PAL_ZERO);
    e ← pde_create pt;
    Some (s <| mem := store32 (mem s) pde e |>, pt)
  else Some (s, pt).

(** [n] pages from [page] on; [pt] is the variable that is kept from one
    iteration to the next. *)
Fixpoint paging_loop (n : nat) (s : palloc) (pd pt page : Z) : option palloc :=
  match n with
  | O => Some s
  | S n =>
      vaddr ← ptov (u32 (page * PGSIZE));
      '(s, pt) ← table_for s pd pt vaddr;
      assert! negb (pt =? NULL);
      e ← pte_create_kernel vaddr (negb (in_kernel_text vaddr));
      paging_loop n (s <| mem := store32 (mem s) (pt + 4 * pt_no vaddr) e |>) pd pt (page + 1)
  end.

(** The state, [init_page_dir] and CR3. *)
Definition paging_init (s : palloc) : option (palloc * Z * Z) :=
  '(s, pd) ← palloc_get_page s (Z.lor PAL_ASSERT PAL_ZERO);
  s ← paging_loop (Z.to_nat init_ram_pages) s pd NULL 0;
  cr3 ← vtop pd;
  Some (s, pd, cr3).

(** The part of [main] that initializes the memory system; [malloc_init] only
    fills in the descriptors of its arenas. *)
Definition memory_init (m : Z → Z) (user_page_limit : Z) : option (palloc * Z * Z) :=
  s ← palloc_init m init_ram_pages user_page_limit;
  paging_init s.
End paging.

(** ** The processor *)

(** The physical address of [va], whether it can be written, and whether a user
    program can access it. *)
Definition walk (m : Z → Z) (cr3 va : Z) : option (Z * bool * bool) :=
  let pde := load32 m (PHYS_BASE + cr3 + 4 * (va / 2 ^ 22)) in
  if Z.odd pde then
    let pte := load32 m (table_of pde + 4 * (va / 2 ^ 12 mod 2 ^ 10)) in
    if Z.odd pte then
      Some (pte - pte mod 4096 + va mod 4096, Z.testbit pde 1 && Z.testbit pte 1,
            Z.testbit pde 2 && Z.testbit pte 2)
    else None
  else None.

(** ** Pages that are in use *)

(** Exactly the pages of [l] are allocated. *)
Record holds (s : palloc) (l : list Z) : Prop := {
  h_wf : vm_wf s;
  h_used : ∀ a, used s a = existsb (λ p, in_block p 1 a) l;
  h_pages : Forall (λ p, table_page s p) l;
  h_nodup : NoDup l;
}.

Lemma holds_write s l a v : holds s l → holds (write s a v) l.
Proof.
  intros [W U P N]. split; [by apply write_vm_wf|by intros b; rewrite write_used| |done].
  eapply Forall_impl; [exact P|]. intros p [? ? ? Hu]. by split; rewrite ?write_used.
Qed.

(** A page that is not one of [l]. *)
Lemma holds_fresh s l p q : holds s l → q ∈ l → p mod 4096 = 0 → used s p = false →
  p + 4096 ≤ q ∨ q + 4096 ≤ p.
Proof.
  intros H Hq Hp Hu. pose proof (proj1 (Forall_forall _ _) (h_pages _ _ H) q Hq) as [Aq _ _ _].
  rewrite (h_used _ _ H) in Hu. destruct (decide (in_block q 1 p = true)) as [E|E].
  - exfalso. revert Hu. rewrite (proj2 (existsb_exists _ _)); [done|]. exists q.
    split; [by apply list_elem_of_In|done].
  - apply not_true_iff_false in E. revert E. unfold in_block. change (PGSIZE * 1) with 4096.
    rewrite <-not_true_iff_false, in_range_spec. Z.to_euclidean_division_equations. lia.
Qed.

(** While fewer pages are in use than the kernel pool has, there is a free one. *)
Lemma missing (l l' : list Z) : NoDup l → (length l' < length l)%nat → ∃ x, x ∈ l ∧ x ∉ l'.
Proof.
  intros N Hn. destruct (decide (Forall (λ x, x ∈ l') l)) as [F|F].
  - rewrite Forall_forall in F. pose proof (submseteq_length _ _ (NoDup_submseteq _ _ N F)). lia.
  - apply not_Forall_Exists in F; [|apply _]. apply Exists_exists in F as (x & ? & ?). eauto.
Qed.

Lemma holds_free s l : holds s l → Z.of_nat (length l) < bit_cnt (used_map (kernel_pool s)) →
  ∃ p, free_block (kernel_pool s) p 1.
Proof.
  intros H Hn. destruct (h_wf _ _ H) as [Wp _]. pose proof (palloc_kernel _ Wp) as Wk.
  set (k := kernel_pool s) in *.
  destruct (missing (page_addr k <$> seqZ 0 (bit_cnt (used_map k))) l) as (p & Hp & Nl).
  { apply NoDup_fmap_2; [|apply NoDup_seqZ]. intros i j; unfold page_addr; lia. }
  { rewrite length_fmap, length_seqZ. lia. }
  exists p. apply list_elem_of_fmap in Hp as (i & -> & Hi). apply elem_of_seqZ in Hi.
  apply free_block_run; [done|lia|lia|]. split; [lia|]. intros j Hj. replace j with i by lia.
  apply not_true_iff_false. intros Hb. apply Nl.
  assert (used s (page_addr k i) = true) as U.
  { unfold used. fold k. unfold pool_used at 1. rewrite in_pool_idx.
    replace ((page_addr k i - base k) / 4096) with i
      by (unfold page_addr; rewrite Z.add_simpl_l, Z.mul_comm, Z.div_mul; lia).
    by rewrite (proj2 (in_range_spec 0 _ i)), Hb by lia. }
  rewrite (h_used _ _ H) in U. apply existsb_exists in U as (q & Hq & E). apply list_elem_of_In in Hq.
  pose proof (proj1 (Forall_forall _ _) (h_pages _ _ H) q Hq) as [Aq _ _ _].
  pose proof (pool_aligned _ Wk). unfold in_block in E. apply in_range_spec in E.
  change (PGSIZE * 1) with 4096 in E. unfold page_addr in *.
  replace (base k + 4096 * i) with q; [done|]. Z.to_euclidean_division_equations. lia.
Qed.

(** The next zeroed page. *)
Lemma holds_get s l : holds s l → Z.of_nat (length l) < bit_cnt (used_map (kernel_pool s)) →
  ∃ s' p, palloc_get_page s (Z.lor PAL_ASSERT PAL_ZERO) = Some (s', p) ∧ holds s' (p :: l) ∧
    same_pools s s' ∧ mem s' = fill (mem s) p 0 4096 ∧
    (∀ q, q ∈ l → p + 4096 ≤ q ∨ q + 4096 ≤ p).
Proof.
  intros H Hn. destruct (holds_free s l H Hn) as [f Hf]. pose proof H as [[Wp Hk] U P N].
  pose proof (palloc_get_ok s (Z.lor PAL_ASSERT PAL_ZERO) 1 Wp ltac:(lia)) as G.
  unfold palloc_get_page. destruct (palloc_get_multiple s _ 1) as [[s' p]|]; [|by destruct (proj2 G f)].
  destruct G as (W' & SP & G). destruct (Z.eqb_spec p NULL) as [->|Hp]; [by destruct (proj2 G f)|].
  destruct G as (F & U' & M). change (has _ PAL_USER) with false in F. pose proof F as (Hal & Hb & He & _).
  simpl get_pool in Hb, He. change (PGSIZE * 1) with 4096 in *.
  assert (used s p = false) as Up.
  { apply (free_block_unused s false p 1); [done|done|]. apply in_range_spec. change (PGSIZE * 1) with 4096. lia. }
  assert (∀ q, q ∈ l → p + 4096 ≤ q ∨ q + 4096 ≤ p) as D by (intros q Hq; by eapply holds_fresh).
  exists s', p. split; [done|]. split; [|done]. split.
  - by apply (same_pools_vm s).
  - intros a. by rewrite U', U.
  - apply Forall_cons. split.
    + pose proof (pool_fits _ (palloc_kernel s Wp)). split; [done|lia|lia|].
      rewrite U'. apply orb_true_iff. left. apply in_range_spec. change (PGSIZE * 1) with 4096. lia.
    + eapply Forall_impl; [exact P|]. intros q [? ? ? Hu]. split; [done..|]. by rewrite U', Hu, orb_true_r.
  - apply NoDup_cons. split; [|done]. intros Hp'. specialize (D p Hp'). lia.
Qed.

(** ** Entries *)

Lemma pde_create_value pt : pt mod 4096 = 0 → PHYS_BASE ≤ pt → pde_create pt = Some (pt - PHYS_BASE + 7).
Proof.
  intros A K. unfold pde_create, vtop, is_kernel_vaddr. rewrite pg_ofs_eq, A.
  cbn [Z.eqb ASSERT mbind option_bind]. rewrite ASSERT_true by (by apply Z.leb_le).
  cbn [mbind option_bind]. rewrite <-!Z.lor_assoc. f_equal. apply lor_flags; [|done].
  unfold PHYS_BASE. by rewrite Zminus_mod, A.
Qed.

Lemma pte_create_value page (w : bool) : page mod 4096 = 0 → PHYS_BASE ≤ page →
  pte_create_kernel page w = Some (page - PHYS_BASE + (if w then 3 else 1)).
Proof.
  intros A K. unfold pte_create_kernel, vtop, is_kernel_vaddr. rewrite pg_ofs_eq, A.
  cbn [Z.eqb ASSERT mbind option_bind]. rewrite ASSERT_true by (by apply Z.leb_le).
  cbn [mbind option_bind]. rewrite <-!Z.lor_assoc. f_equal.
  rewrite lor_flags; [by destruct w|unfold PHYS_BASE; by rewrite Zminus_mod, A|by destruct w].
Qed.

Section Loop.
Context (start end_kernel_text : Z).
Implicit Types s : palloc.

Definition frame (page : Z) : Z := PHYS_BASE + page * 4096.

(** The entry of the page directory with the tables [T], and of a page. *)
Definition pde_of (T : list Z) (j : Z) : Z :=
  match (if 768 <=? j then T !! Z.to_nat (j - 768) else None) with
  | Some t => t - PHYS_BASE + 7
  | None => 0
  end.
Definition pte_of (page : Z) : Z :=
  page * 4096 + (if negb (in_kernel_text start end_kernel_text (frame page)) then 3 else 1).

(** The tables [T] of the directory map the pages before [i]. *)
Record built s (pd : Z) (T : list Z) (i : Z) : Prop := {
  b_holds : holds s (reverse T ++ [pd]);
  b_pd : ∀ j, 0 ≤ j < 1024 → entry s pd j = pde_of T j;
  b_pt : ∀ k t, T !! k = Some t → ∀ j, 0 ≤ j < 1024 →
    entry s t j = if 1024 * Z.of_nat k + j <? i then pte_of (1024 * Z.of_nat k + j) else 0;
}.

Lemma built_pages s pd T i p : built s pd T i → p ∈ T ∨ p = pd → table_page s p.
Proof.
  intros B Hp. apply (proj1 (Forall_forall _ _) (h_pages _ _ (b_holds _ _ _ _ B))).
  rewrite elem_of_app, elem_of_reverse, list_elem_of_singleton. done.
Qed.

Lemma built_distinct s pd T i : built s pd T i → NoDup T ∧ pd ∉ T.
Proof.
  intros B. pose proof (h_nodup _ _ (b_holds _ _ _ _ B)) as N. apply NoDup_app in N as (N & D & _).
  rewrite reverse_Permutation in N. split; [done|]. intros Hp. apply (D pd); [by apply elem_of_reverse|set_solver].
Qed.

(** A new page table. *)
Lemma built_table s pd T i : built s pd T i → (length T < 256)%nat → i ≤ 1024 * Z.of_nat (length T) →
  Z.of_nat (length T) + 1 < bit_cnt (used_map (kernel_pool s)) →
  ∃ s' t, table_for s pd (default NULL (last T)) (frame (1024 * Z.of_nat (length T))) = Some (s', t) ∧
    built s' pd (T ++ [t]) i ∧ same_pools s s'.
Proof.
  intros B HT Hi Hn. pose proof (b_holds _ _ _ _ B) as H. unfold table_for.
  assert (pd_no (frame (1024 * Z.of_nat (length T))) = 768 + Z.of_nat (length T)) as ->.
  { rewrite pd_no_eq. unfold frame, PHYS_BASE. Z.to_euclidean_division_equations. lia. }
  fold (entry s pd (768 + Z.of_nat (length T))). rewrite (b_pd _ _ _ _ B) by lia.
  unfold pde_of at 1. rewrite (proj2 (Z.leb_le 768 _)), lookup_ge_None_2 by lia. rewrite Z.eqb_refl.
  destruct (holds_get s _ H) as (s1 & t & -> & H1 & SP & M & D).
  { rewrite length_app, length_reverse. simpl. lia. }
  cbn [mbind option_bind]. pose proof (proj1 (Forall_cons _ _ _) (h_pages _ _ H1)) as [Pt P1].
  rewrite pde_create_value by apply Pt. cbn [mbind option_bind].
  set (e := t - PHYS_BASE + 7). fold (write s1 (pd + 4 * (768 + Z.of_nat (length T))) e).
  eexists _, t. split; [done|].
  assert (∀ q j, q ∈ T ∨ q = pd → 0 ≤ j < 1024 → entry s1 q j = entry s q j) as Eo.
  { intros q j Hq Hj. unfold entry. rewrite M. apply load32_fill_ne.
    destruct (D q); [rewrite elem_of_app, elem_of_reverse, list_elem_of_singleton; done|lia..]. }
  destruct (built_distinct _ _ _ _ B) as [NT Npd].
  assert (table_page s1 pd) as Ppd.
  { apply (proj1 (Forall_forall _ _) P1). set_solver. }
  assert (∀ q j, q ∈ T ∨ q = t → 0 ≤ j < 1024 →
    entry (write s1 (pd + 4 * (768 + Z.of_nat (length T))) e) q j = entry s1 q j) as Ew.
  { intros q j Hq Hj. rewrite entry_write, load32_store32_ne; [done|].
    apply (tables_apart s1); [|done| |lia..].
    - destruct Hq as [Hq| ->]; [|done]. apply (proj1 (Forall_forall _ _) P1). set_solver.
    - destruct Hq as [Hq| ->]; [by intros ->|]. intros ->.
      destruct (D pd); [set_solver|lia..]. }
  split; [|by intros u; destruct (SP u); split]. split.
  - apply holds_write. by rewrite reverse_snoc.
  - intros j Hj. destruct (decide (j = 768 + Z.of_nat (length T))) as [->|Nj].
    + rewrite entry_write, load32_store32.
      2:{ destruct Pt as [_ ? ? _]. unfold e, is_u32, PHYS_BASE in *. lia. }
      unfold pde_of. rewrite (proj2 (Z.leb_le 768 _)) by lia.
      replace (Z.to_nat _) with (length T) by lia. by rewrite lookup_app_r, Nat.sub_diag by lia.
    + rewrite entry_write, load32_store32_ne by lia. fold (entry s1 pd j).
      rewrite Eo, (b_pd _ _ _ _ B) by (by right || done). unfold pde_of.
      destruct (Z.leb_spec 768 j); [|done].
      destruct (decide (Z.to_nat (j - 768) < length T)%nat); [by rewrite lookup_app_l|].
      rewrite lookup_ge_None_2, lookup_ge_None_2; [done|rewrite length_app; simpl; lia|lia].
  - intros k q Hq j Hj. apply lookup_app_Some in Hq as [Hq|[Hk Hq]].
    + pose proof (list_elem_of_lookup_2 _ _ _ Hq). rewrite Ew, Eo by eauto. by apply (b_pt _ _ _ _ B).
    + apply list_lookup_singleton_Some in Hq as [Ek <-]. rewrite Ew by eauto.
      unfold entry. rewrite M, load32_fill by lia. rewrite (proj2 (Z.ltb_ge _ _)) by lia. done.
Qed.

Lemma frame_no i : 0 ≤ i < 2 ^ 18 → pd_no (frame i) = 768 + i / 1024 ∧ pt_no (frame i) = i mod 1024.
Proof.
  intros Hi. rewrite pd_no_eq, pt_no_eq. unfold frame, PHYS_BASE. Z.to_euclidean_division_equations. lia.
Qed.

(** The entry of the page [i] in its table [t]. *)
Lemma built_write s pd T i t : built s pd T i → 0 ≤ i < 2 ^ 18 → T !! Z.to_nat (i / 1024) = Some t →
  built (write s (t + 4 * (i mod 1024)) (pte_of i)) pd T (i + 1).
Proof.
  intros B Hi Ht. destruct (built_distinct _ _ _ _ B) as [NT Npd].
  pose proof (list_elem_of_lookup_2 _ _ _ Ht) as Et. pose proof (Z.mod_pos_bound i 1024 ltac:(lia)).
  pose proof (Z.div_mod i 1024 ltac:(lia)). pose proof (Z.div_pos i 1024 ltac:(lia) ltac:(lia)).
  assert (∀ q j, table_page s q → q ≠ t → 0 ≤ j < 1024 →
    entry (write s (t + 4 * (i mod 1024)) (pte_of i)) q j = entry s q j) as Eo.
  { intros q j Pq Nq Hj. rewrite entry_write, load32_store32_ne; [done|].
    apply (tables_apart s q t); [done|eapply built_pages; eauto|done..]. }
  split; [apply holds_write, B| |].
  - intros j Hj. rewrite Eo; [by apply B|eapply built_pages; eauto|by intros ->|done].
  - intros k q Hq j Hj. pose proof (list_elem_of_lookup_2 _ _ _ Hq).
    destruct (decide (k = Z.to_nat (i / 1024))) as [->|Nk].
    + rewrite Ht in Hq. injection Hq as <-. rewrite Z2Nat.id by done.
      destruct (decide (j = i mod 1024)) as [->|Nj].
      * rewrite entry_write, load32_store32; [|unfold pte_of, is_u32; by case_match; lia].
        replace (1024 * (i / 1024) + i mod 1024) with i by lia. by rewrite (proj2 (Z.ltb_lt _ _)) by lia.
      * rewrite entry_write, load32_store32_ne by lia. fold (entry s t j).
        rewrite (b_pt _ _ _ _ B _ _ Ht) by done. rewrite Z2Nat.id by done.
        destruct (Z.ltb_spec (1024 * (i / 1024) + j) i), (Z.ltb_spec (1024 * (i / 1024) + j) (i + 1)); lia || done.
    + rewrite Eo; [|eapply built_pages; eauto|intros ->; apply Nk; by eapply NoDup_lookup|done].
      rewrite (b_pt _ _ _ _ B _ _ Hq) by done.
      destruct (Z.ltb_spec (1024 * Z.of_nat k + j) i), (Z.ltb_spec (1024 * Z.of_nat k + j) (i + 1)); lia || done.
Qed.

(** The tables that [i] pages need. *)
Definition tables (i : Z) : Z := (i + 1023) / 1024.

Lemma table_for_ok s pd T i : built s pd T i → 0 ≤ i < 2 ^ 18 → Z.of_nat (length T) = tables i →
  1 + tables (i + 1) ≤ bit_cnt (used_map (kernel_pool s)) →
  ∃ s' T' t, table_for s pd (default NULL (last T)) (frame i) = Some (s', t) ∧ built s' pd T' i ∧
    same_pools s s' ∧ Z.of_nat (length T') = tables (i + 1) ∧ T' !! Z.to_nat (i / 1024) = Some t ∧
    t = default NULL (last T').
Proof.
  intros B Hi Hl Hn. unfold tables in *. destruct (decide (i mod 1024 = 0)) as [E|E].
  - assert (i = 1024 * Z.of_nat (length T)) as -> by (Z.to_euclidean_division_equations; lia).
    destruct (built_table s pd T _ B) as (s' & t & Ef & B' & SP).
    { Z.to_euclidean_division_equations; lia. } { lia. } { Z.to_euclidean_division_equations; lia. }
    exists s', (T ++ [t]), t. split; [done|]. split; [done|]. split; [done|]. rewrite last_snoc, length_app.
    replace (Z.to_nat _) with (length T) by (Z.to_euclidean_division_equations; lia).
    rewrite lookup_app_r, Nat.sub_diag by lia. split; [|done]. simpl. Z.to_euclidean_division_equations; lia.
  - unfold table_for. destruct (frame_no i Hi) as [-> _].
    assert (Z.to_nat (i / 1024) < length T)%nat as Ht by (Z.to_euclidean_division_equations; lia).
    apply lookup_lt_is_Some in Ht as [t Ht]. fold (entry s pd (768 + i / 1024)).
    pose proof (Z.div_pos i 1024 ltac:(lia) ltac:(lia)).
    assert (i / 1024 < 256) by (Z.to_euclidean_division_equations; lia).
    rewrite (b_pd _ _ _ _ B) by lia.
    unfold pde_of. rewrite (proj2 (Z.leb_le 768 _)) by lia.
    replace (Z.to_nat (768 + i / 1024 - 768)) with (Z.to_nat (i / 1024)) by lia. rewrite Ht.
    pose proof (built_pages _ _ _ _ t B ltac:(left; by eapply list_elem_of_lookup_2)) as [_ ? _ _].
    rewrite (proj2 (Z.eqb_neq _ 0)) by lia.
    assert (default NULL (last T) = t) as ->.
    { rewrite last_lookup. replace (Nat.pred (length T)) with (Z.to_nat (i / 1024))
        by (Z.to_euclidean_division_equations; lia). by rewrite Ht. }
    exists s, T, t. split; [done|]. split; [done|]. split; [by intros u|]. split; [|split; [done|]].
    + Z.to_euclidean_division_equations; lia.
    + rewrite last_lookup. replace (Nat.pred (length T)) with (Z.to_nat (i / 1024))
        by (Z.to_euclidean_division_equations; lia). by rewrite Ht.
Qed.

Lemma paging_loop_ok n : ∀ s pd T i, built s pd T i → 0 ≤ i → i + Z.of_nat n < 2 ^ 18 →
  Z.of_nat (length T) = tables i → 1 + tables (i + Z.of_nat n) ≤ bit_cnt (used_map (kernel_pool s)) →
  ∃ s' T', paging_loop start end_kernel_text n s pd (default NULL (last T)) i = Some s' ∧
    built s' pd T' (i + Z.of_nat n) ∧ Z.of_nat (length T') = tables (i + Z.of_nat n).
Proof.
  induction n as [|n IH]; intros s pd T i B Hi Hn Hl Hc; cbn [paging_loop].
  { exists s, T. rewrite Z.add_0_r. done. }
  change PGSIZE with 4096. rewrite (u32_small (i * 4096)) by (unfold is_u32; lia).
  unfold ptov. rewrite ASSERT_true by (apply Z.ltb_lt; unfold PHYS_BASE; lia). cbn [mbind option_bind].
  rewrite u32_small by (unfold is_u32, PHYS_BASE; lia).
  replace (i * 4096 + PHYS_BASE) with (frame i) by (unfold frame; lia).
  destruct (table_for_ok s pd T i B) as (s1 & T1 & t & -> & B1 & SP & Hl1 & Ht & Et); [lia|done| |].
  { unfold tables in *. Z.to_euclidean_division_equations; lia. }
  cbn [mbind option_bind].
  pose proof (built_pages _ _ _ _ t B1 ltac:(left; by eapply list_elem_of_lookup_2)) as Pt.
  rewrite (table_nonnull s1 t Pt). cbn [ASSERT mbind option_bind].
  rewrite pte_create_value; [|unfold frame, PHYS_BASE; Z.to_euclidean_division_equations; lia|
    unfold frame, PHYS_BASE; lia].
  cbn [mbind option_bind]. replace (frame i - PHYS_BASE) with (i * 4096) by (unfold frame; lia).
  fold (pte_of i). destruct (frame_no i ltac:(lia)) as [_ ->]. fold (write s1 (t + 4 * (i mod 1024)) (pte_of i)).
  destruct (IH (write s1 (t + 4 * (i mod 1024)) (pte_of i)) pd T1 (i + 1)) as (s2 & T2 & E & B2 & H2).
  { apply built_write; [done|lia|done]. } { lia. } { lia. } { done. }
  { destruct (SP false) as [_ E]. simpl in E. change (used_map (kernel_pool (write s1 (t + 4 * (i mod 1024)) (pte_of i))))
      with (used_map (kernel_pool s1)). rewrite E.
    replace (i + 1 + Z.of_nat n) with (i + Z.of_nat (S n)) by lia. done. }
  rewrite <-Et in E. exists s2, T2. replace (i + Z.of_nat (S n)) with (i + 1 + Z.of_nat n) by lia. done.
Qed.

(** *** Translation *)

Lemma entry_flags v : 0 ≤ v → v mod 4096 = 0 →
  (∀ f, f = 1 ∨ f = 3 ∨ f = 7 → Z.odd (v + f) = true ∧ (v + f) mod 4096 = f ∧
    Z.testbit (v + f) 1 = Z.testbit f 1 ∧ Z.testbit (v + f) 2 = Z.testbit f 2).
Proof.
  intros Hv A f Hf. rewrite <-(lor_flags v f) by (done || lia). rewrite !Z.lor_spec.
  assert (∀ n, 0 ≤ n < 12 → Z.testbit v n = false) as Hb.
  { intros n Hn. apply Z.div_exact in A; [|done]. rewrite A. change 4096 with (2 ^ 12).
    rewrite Z.mul_comm. apply Z.mul_pow2_bits_low. lia. }
  rewrite !Hb by lia. rewrite lor_flags by (done || lia). split; [|split; [|done]].
  - rewrite <-Z.bit0_odd, <-(lor_flags v f), Z.lor_spec, Hb by (done || lia).
    by destruct Hf as [->|[->| ->]].
  - rewrite Zplus_mod, A. destruct Hf as [->|[->| ->]]; done.
Qed.

Lemma walk_built s pd T ram va : built s pd T ram → Z.of_nat (length T) = tables ram →
  0 ≤ ram < 2 ^ 18 → 0 ≤ va < 2 ^ 32 →
  walk (mem s) (pd - PHYS_BASE) va =
    if (PHYS_BASE <=? va) && (va <? frame ram)
    then Some (va - PHYS_BASE, negb (in_kernel_text start end_kernel_text (va - va mod 4096)), false)
    else None.
Proof.
  intros B Hl Hr Hva. unfold walk. replace (PHYS_BASE + (pd - PHYS_BASE)) with pd by lia.
  change (2 ^ 22) with 4194304. change (2 ^ 12) with 4096. change (2 ^ 10) with 1024.
  fold (entry s pd (va / 4194304)). rewrite (b_pd _ _ _ _ B) by (Z.to_euclidean_division_equations; lia).
  unfold pde_of, frame, PHYS_BASE. destruct (Z.leb_spec 768 (va / 4194304)) as [Hj|Hj].
  2:{ rewrite (proj2 (Z.leb_gt 3221225472 va)) by (Z.to_euclidean_division_equations; lia). done. }
  rewrite (proj2 (Z.leb_le 3221225472 va)) by (Z.to_euclidean_division_equations; lia). cbn [andb].
  set (k := Z.to_nat (va / 4194304 - 768)). destruct (T !! k) as [t|] eqn:Ht.
  2:{ apply lookup_ge_None in Ht. rewrite (proj2 (Z.ltb_ge va _)); [done|].
      unfold k, tables in *. Z.to_euclidean_division_equations; lia. }
  pose proof (built_pages _ _ _ _ t B ltac:(left; by eapply list_elem_of_lookup_2)) as [At Kt Ft _].
  unfold PHYS_BASE in Kt.
  destruct (entry_flags (t - 3221225472) ltac:(lia) ltac:(by rewrite Zminus_mod, At) 7 ltac:(auto)) as (-> & Em & B1 & B2).
  unfold table_of, PHYS_BASE. rewrite Em, B1, B2.
  replace (3221225472 + (t - 3221225472 + 7 - 7)) with t by lia. fold (entry s t (va / 4096 mod 1024)).
  rewrite (b_pt _ _ _ _ B _ _ Ht) by (apply Z.mod_pos_bound; lia).
  set (page := 1024 * Z.of_nat k + va / 4096 mod 1024).
  assert (page * 4096 = va - va mod 4096 - 3221225472) as Ep.
  { unfold page, k. Z.to_euclidean_division_equations; lia. }
  assert ((page <? ram) = (va <? 3221225472 + ram * 4096)) as <-.
  { apply eq_true_iff_eq. rewrite !Z.ltb_lt. Z.to_euclidean_division_equations; lia. }
  destruct (page <? ram); [|done]. unfold pte_of.
  replace (frame page) with (va - va mod 4096) by (unfold frame, PHYS_BASE; lia).
  destruct (entry_flags (page * 4096) ltac:(unfold page; pose proof (Z.mod_pos_bound (va / 4096) 1024); lia)
    ltac:(by rewrite Z_mod_mult)
    (if negb (in_kernel_text start end_kernel_text (va - va mod 4096)) then 3 else 1)
    ltac:(case_match; auto)) as (-> & -> & -> & ->).
  f_equal. f_equal; [f_equal|]; [lia|by case_match|by case_match].
Qed.

(** A page directory that [pagedir_create] copies translates the same. *)
Lemma create_walk s pd T ram s' pd' va : built s pd T ram → 0 ≤ va < 2 ^ 32 →
  pagedir_create pd s = Some (s', pd') → pd' ≠ NULL →
  walk (mem s') (pd' - PHYS_BASE) va = walk (mem s) (pd - PHYS_BASE) va.
Proof.
  intros B Hva E Hp. pose proof (b_holds _ _ _ _ B) as H. destruct (h_wf _ _ H) as [Wp _].
  pose proof (palloc_get_ok s 0 1 Wp ltac:(lia)) as G. unfold pagedir_create, palloc_get_page in E.
  destruct (palloc_get_multiple s 0 1) as [[s1 p]|]; [|done]. cbn [mbind option_bind] in E.
  assert (p = pd') as -> by (destruct (negb (p =? NULL)); by injection E).
  rewrite (proj2 (Z.eqb_neq pd' NULL)) in E by done. injection E as <-.
  destruct G as (_ & _ & G). rewrite (proj2 (Z.eqb_neq pd' NULL)) in G by done. destruct G as (F & _ & M).
  change (has 0 PAL_ZERO) with false in M. change (has 0 PAL_USER) with false in F.
  assert (∀ q, q ∈ T ∨ q = pd → pd' + 4096 ≤ q ∨ q + 4096 ≤ pd') as D.
  { intros q Hq. eapply holds_fresh; [exact H| |apply F|].
    - rewrite elem_of_app, elem_of_reverse, list_elem_of_singleton. done.
    - apply (free_block_unused s false pd' 1); [done|done|]. apply in_range_spec. change (PGSIZE * 1) with 4096. lia. }
  unfold walk. simpl mem. rewrite M. change (2 ^ 22) with 4194304. change (2 ^ 12) with 4096.
  replace (PHYS_BASE + (pd' - PHYS_BASE)) with pd' by lia.
  replace (PHYS_BASE + (pd - PHYS_BASE)) with pd by lia.
  set (j := va / 4194304). assert (0 ≤ j < 1024) as Hj by (unfold j; Z.to_euclidean_division_equations; lia).
  assert (load32 (copy (mem s) pd' pd PGSIZE) (pd' + 4 * j) = load32 (mem s) (pd + 4 * j)) as ->.
  { unfold load32, copy. change PGSIZE with 4096. rewrite !(proj2 (in_range_spec pd' 4096 _)) by lia.
    replace (pd + (pd' + 4 * j - pd')) with (pd + 4 * j) by lia.
    by rewrite !(λ k, ltac:(lia) : pd + (pd' + 4 * j + k - pd') = pd + 4 * j + k). }
  fold (entry s pd j). rewrite (b_pd _ _ _ _ B) by done. unfold pde_of.
  destruct (if 768 <=? j then T !! Z.to_nat (j - 768) else None) as [t|] eqn:Et; [|done].
  assert (t ∈ T) as Ht by (destruct (768 <=? j); [by eapply list_elem_of_lookup_2|done]).
  pose proof (built_pages _ _ _ _ t B ltac:(by left)) as [At Kt _ _]. unfold table_of.
  destruct (entry_flags (t - PHYS_BASE) ltac:(lia) ltac:(unfold PHYS_BASE; by rewrite Zminus_mod, At) 7 ltac:(auto))
    as (_ & -> & _). replace (PHYS_BASE + (t - PHYS_BASE + 7 - 7)) with t by lia.
  rewrite (load32_eq (mem s) (copy (mem s) pd' pd PGSIZE)); [done|].
  intros k Hk. unfold copy. change PGSIZE with 4096. change (2 ^ 10) with 1024.
  pose proof (Z.mod_pos_bound (va / 4096) 1024 ltac:(lia)). pose proof (D t ltac:(by left)).
  destruct (in_range pd' 4096 _) eqn:Er; [|done]. apply in_range_spec in Er. lia.
Qed.
End Loop.

(** ** Booting *)

(** The pages of the kernel pool, without those of its bitmap. *)
Lemma init_pool_cnt m b n p : 0 < b → b mod 4096 = 0 → 1 ≤ n → b + 4096 * n < 2 ^ 32 →
  init_pool m b n = Some p → bit_cnt (used_map p) = n - (8 + 4 * ((n + 31) / 32) + 4095) / 4096.
Proof.
  intros Hb Ha Hn Hf E. destruct (init_pool_ok m b n Hb Ha Hn Hf) as (p' & E' & _ & _ & Ep & _).
  rewrite E in E'. injection E' as <-.
  unfold init_pool in E. rewrite (buf_size_eq n) in E by lia. unfold DIV_ROUND_UP in E.
  change PGSIZE with 4096 in E. unfold pool_size in Ep. change PGSIZE with 4096 in Ep.
  assert (0 ≤ (n + 31) / 32 ≤ 2 ^ 20) by (Z.to_euclidean_division_equations; lia).
  rewrite (u32_small (8 + _ + 4096 - 1)) in E by (unfold is_u32; lia).
  replace (8 + 4 * ((n + 31) / 32) + 4096 - 1) with (8 + 4 * ((n + 31) / 32) + 4095) in E by lia.
  set (bm := (8 + 4 * ((n + 31) / 32) + 4095) / 4096) in *.
  assert (0 ≤ bm ≤ n) as Hbm.
  { unfold bm. Z.to_euclidean_division_equations; lia. }
  destruct (n <? bm); [done|]. apply bind_Some in E as (b' & _ & [= <-]). simpl in *.
  rewrite u32_small in Ep by (unfold is_u32; lia). lia.
Qed.

Lemma kernel_pool_room m ram limit s : 262 ≤ ram < 2 ^ 18 → 1 ≤ limit →
  palloc_init m ram limit = Some s →
  1 + tables ram ≤ bit_cnt (used_map (kernel_pool s)) ∧ PHYS_BASE ≤ base (kernel_pool s).
Proof.
  intros Hr Hl. unfold palloc_init, ptov. change PGSIZE with 4096.
  rewrite !ASSERT_true; [|apply Z.ltb_lt; unfold PHYS_BASE; rewrite ?u32_small; unfold is_u32; lia..].
  cbn [mbind option_bind]. unfold PHYS_BASE.
  rewrite (u32_small (ram * 4096)) by (unfold is_u32; lia).
  rewrite !(u32_small (_ + 3221225472)) by (unfold is_u32; lia).
  replace (int32 _) with ((ram - 256) * 4096) by (rewrite int32_small; lia).
  rewrite Z.quot_mul, (u32_small (ram - 256)) by (unfold is_u32; lia).
  set (n := ram - 256). set (up := if limit <? n / 2 then limit else n / 2).
  assert (1 ≤ up ≤ n / 2) as Hup.
  { unfold up, n. destruct (Z.ltb_spec limit ((ram - 256) / 2)); Z.to_euclidean_division_equations; lia. }
  assert (n / 2 ≤ n - 1) by (unfold n; Z.to_euclidean_division_equations; lia).
  intros (kp & Ek & (upl & _ & [= <-])%bind_Some)%bind_Some. simpl.
  destruct (init_pool_ok m (1024 * 1024 + 3221225472) (n - up)) as (kp' & Ek' & _ & Hb & _);
    [lia|done|lia|lia|].
  rewrite Ek in Ek'. injection Ek' as <-. split; [|lia].
  rewrite (init_pool_cnt m (1024 * 1024 + 3221225472) (n - up) kp ltac:(done) ltac:(done) ltac:(lia) ltac:(lia) Ek).
  unfold tables, n in *. Z.to_euclidean_division_equations; lia.
Qed.

Lemma holds_nil s : vm_wf s → (∀ a, used s a = false) → holds s [].
Proof. intros V U. split; [done|done|done|apply NoDup_nil_2]. Qed.

(** C21: The memory system boots.  On a machine with 262 pages of memory or more
    and less than 1 GB, [palloc_init] and [paging_init] succeed; CR3 is then the
    physical address of a page directory through which the processor translates
    every address from [PHYS_BASE] to the end of the memory to its distance from
    [PHYS_BASE], without access for user programs, and writable unless the page
    is in the kernel's text; it translates no other address.  The directory and
    its tables are pages of the kernel pool, the only ones in use, one table for
    each 1024 pages; user page tables can be entered in it, and the directory of a
    process, which [pagedir_create] copies from it, translates the same. *)
Theorem memory_init_correct m ram limit start end_kernel_text :
  262 ≤ ram < 2 ^ 18 → 1 ≤ limit →
  ∃ s pd cr3 l, memory_init ram start end_kernel_text m limit = Some (s, pd, cr3) ∧
    cr3 = pd - PHYS_BASE ∧ vm_wf s ∧ pd_wf s pd ∧ holds s (l ++ [pd]) ∧
    Z.of_nat (length l) = tables ram ∧
    (∀ va, 0 ≤ va < 2 ^ 32 → walk (mem s) cr3 va =
      if (PHYS_BASE <=? va) && (va <? PHYS_BASE + ram * 4096)
      then Some (va - PHYS_BASE, negb (in_kernel_text start end_kernel_text (va - va mod 4096)), false)
      else None) ∧
    (∀ s' pd' va, pagedir_create pd s = Some (s', pd') → pd' ≠ NULL → 0 ≤ va < 2 ^ 32 →
       walk (mem s') (pd' - PHYS_BASE) va = walk (mem s) cr3 va).
Proof.
  intros Hr Hl. destruct (palloc_init_ok m ram limit ltac:(lia) Hl) as (s0 & E0 & W0 & _ & U0).
  destruct (kernel_pool_room m ram limit s0 Hr Hl E0) as [Hroom Hbase].
  unfold memory_init, paging_init. rewrite E0. cbn [mbind option_bind].
  assert (1 ≤ tables ram) by (unfold tables; Z.to_euclidean_division_equations; lia).
  destruct (holds_get s0 [] (holds_nil s0 (conj W0 Hbase) U0)) as (s1 & pd & -> & H1 & SP & M & _);
    [simpl; lia|]. cbn [mbind option_bind].
  assert (built start end_kernel_text s1 pd [] 0) as B1.
  { split; [done| |done]. intros j Hj. unfold entry, pde_of. rewrite M, load32_fill by lia.
    destruct (768 <=? j); [by rewrite lookup_nil|done]. }
  destruct (paging_loop_ok start end_kernel_text (Z.to_nat ram) s1 pd [] 0 B1) as (s2 & T & E & B2 & Hl2);
    [lia|lia|done| |].
  { destruct (SP false) as [_ Ec]. simpl in Ec. rewrite Ec, Z.add_0_l, Z2Nat.id by lia. done. }
  simpl in E. rewrite E. cbn [mbind option_bind]. rewrite Z.add_0_l, Z2Nat.id in B2, Hl2 by lia.
  pose proof (built_pages _ _ _ _ _ _ pd B2 ltac:(by right)) as Ppd.
  unfold vtop, is_kernel_vaddr. rewrite ASSERT_true by (apply Z.leb_le, Ppd). cbn [mbind option_bind].
  exists s2, pd, (pd - PHYS_BASE), (reverse T). split; [done|]. split; [done|].
  split; [apply B2|]. split; [|split; [apply B2|split; [by rewrite length_reverse|split]]].
  - assert (∀ i, 0 ≤ i < 768 → entry s2 pd i = 0) as Z0.
    { intros i Hi. rewrite (b_pd _ _ _ _ _ _ B2) by lia. unfold pde_of.
      by rewrite (proj2 (Z.leb_gt 768 i)) by lia. }
    split; [done|by left; apply Z0|]. intros i j Hi Hj _ Ne. by rewrite Z0 in Ne.
  - intros va Hva. apply (walk_built _ _ s2 pd T ram); [done|done|lia|done].
  - intros s' pd' va E' Hp Hva. by eapply create_walk.
Qed.

(** 4 MB of memory and a text of 64 kB. *)
Lemma memory_init_correct_witness : ∃ s pd cr3,
  memory_init 1024 (PHYS_BASE + 131072) (PHYS_BASE + 196608) (λ _, 171) 100 = Some (s, pd, cr3) ∧
  walk (mem s) cr3 (PHYS_BASE + 131077) = Some (131077, false, false) ∧
  walk (mem s) cr3 (PHYS_BASE + 4194303) = Some (4194303, true, false) ∧
  walk (mem s) cr3 (PHYS_BASE + 4194304) = None ∧ walk (mem s) cr3 134512640 = None.
Proof.
  destruct (memory_init_correct (λ _, 171) 1024 100 (PHYS_BASE + 131072) (PHYS_BASE + 196608)
    ltac:(lia) ltac:(lia)) as (s & pd & cr3 & l & E & _ & _ & _ & _ & _ & W & _).
  exists s, pd, cr3. split; [exact E|].
  rewrite !W by (unfold PHYS_BASE; lia). vm_compute. auto.
Defined.
